(* ===== verification/_CoqProject ===== *)
-Q . S2P
Prelude.v
Mem.v
Sort.v
Der.v
Cbs.v
Cbb.v
Build.v
Oid.v
SetOf.v
Unicode.v
Ber.v
ConstTime.v
Base64.v
Stack.v
Lhash.v
Buf.v
Bio.v
BioPair.v
BioMem.v
BnWords.v
Bn.v
BnAdd.v
BnShift.v
BnBytes.v
LdbCoding.v
LdbCrc.v
LdbLog.v
LdbFormat.v
LdbSkip.v
LdbArena.v
LdbMemTable.v
LdbBatch.v
LdbDb.v
LdbIter.v
LdbMerge.v
LdbDbIter.v
LdbDbRead.v
LdbBlock.v
LdbTwoLevel.v
LdbFilter.v
LdbTable.v
