(* ===== verification/Prelude.v ===== *)
(** * HomeLight: the C core under the app

    HomeLight is an iOS app.  Its own sources (src/HomeLight/HomeLight, Swift) are screens
    that read and write documents of Cloud Firestore; the C and C++ code that is
    built into it, under src/HomeLight/Pods, is what carries the data: gRPC and the
    Firestore client, LevelDB for the local cache, nanopb, libuv, and BoringSSL for
    everything that is parsed, encoded or protected on the way.  This development
    models two of them and proves what each part promises: the foundation of
    BoringSSL that all of its parsers, encoders and protocols are written on (paths
    below are relative to src/HomeLight/Pods/BoringSSL-GRPC/src), and the paths of
    a write and of a read through LevelDB, from the write to the log and the memtable,
    back after a crash, and out through the iterators (the files named Ldb...; paths relative to
    src/HomeLight/Pods/leveldb-library).

    ** The parts and their files

    - [Prelude], [Mem]: lists with C sizes, machine words and their wrap-around, the
      state-and-failure monad; the allocator as the interface [Malloc], any request
      of which may fail, and crypto/mem.c with the memory helpers of
      crypto/internal.h.
    - [Der]: the distinguished encoding rules, as a specification.
    - [Cbs]: crypto/bytestring/cbs.c.  A [CBS] is the list of bytes it spans; an
      operation is a computation on that list, which says also what a failing call
      leaves.
    - [Cbb], [Build]: crypto/bytestring/cbb.c.  A buffer and the chain of open
      children; [Build] has the specification of what a sequence of calls must
      write ([serialize]) and composes the calls of [Cbb] and of [Cbs].
    - [Oid], [SetOf], [Sort]: object identifiers in text form; SET OF, with the C
      library's [qsort] as the interface [Qsort].
    - [Unicode]: crypto/bytestring/unicode.c, four codecs with common laws.
    - [Ber]: crypto/bytestring/ber.c, on [Cbs] and [Cbb]; the specification is a
      [forest] of BER elements.
    - [ConstTime]: the constant-time helpers of crypto/internal.h.
    - [Base64]: crypto/base64/base64.c, one-shot and streaming, on memory with
      offsets.
    - [Stack]: crypto/stack/stack.c; the specification is a list with a flag.
    - [Lhash]: crypto/lhash/lhash.c, chains of items in a store of addresses; the
      specification is a finite map ([Keyed] relates hash, comparison and key).
    - [Buf]: crypto/buf/buf.c.
    - [Bio], [BioPair], [BioMem]: crypto/bio: bio.c, pair.c and bio_mem.c (the code is in
      [Bio], on a store of objects).  The specifications are a pair of bounded
      queues ([half]) and a stream ([stream]); [BioMem] also has [BIO_read_asn1],
      against [Der].
    - [BnWords], [Bn], [BnAdd], [BnShift], [BnBytes]: crypto/fipsmodule/bn: words and
      their carries (generic.c), the object and comparisons (bn.c, cmp.c), addition
      (add.c), shifts and bits (shift.c), bytes (bytes.c).  The specification is the
      integer a number stands for ([value]).

    - [LdbCoding]: util/coding.cc; the byte order of the machine is the interface [Port].
    - [LdbCrc]: util/crc32c.cc; the specification is the polynomial division, bit by
      bit.
    - [LdbLog]: db/log_writer.cc, db/log_reader.cc.  Files are the interfaces
      [WritableFile] and [SequentialFile], any append to which may fail; the
      specification is the list of records.
    - [LdbFormat]: db/dbformat.cc, util/comparator.cc; [Comparator] is the interface and
      [ComparatorLaws] what an implementation promises.
    - [LdbSkip]: db/skiplist.h and util/random.h, nodes in a store of addresses that an
      [Arena] chooses; the specification is a sorted list.  An insertion is a sequence
      of steps of one store each ([Insert_step]), and a search one of rounds of one
      load each ([ge_round]), which [step] interleaves.
    - [LdbArena]: util/arena.cc, on the interface [Heap] of operator new, which may
      throw.
    - [LdbMemTable]: db/memtable.cc, a skip list of entries in an arena; the
      specification is the list of writes, each with its number ([op]), and what a
      snapshot sees of them ([visible]).
    - [LdbBatch]: db/write_batch.cc; the specification is a list of [update]s.
    - [LdbDb]: db/db_impl.cc: the queue of writers, group commit, reading, and the
      recovery of a log, put together from all of these.  [db_step] interleaves the
      callers of [Write] with the steps of the one at the front of the queue; the
      invariant [db_ok] says what is in the log and in the memtable at each stage.
    - [LdbIter]: include/leveldb/iterator.h as a class of operations, [Iterator]; what
      the interface promises is a class of laws, [Iterates], about a place ([cursor])
      in a list.  Each of the following is proved against the promise of what it is
      made of, and keeps it: here the iterator of a memtable, [LdbMerge] that of
      table/merger.cc over any iterators, [LdbDbIter] that of db/db_iter.cc, which shows
      the [view] of a snapshot.
    - [LdbDbRead]: db/db_impl.cc: making and deleting iterators of a database.  [db_use]
      interleaves that with the writers; [see] is an iterator as it is when its
      memtable has changed, since it points to it and keeps only a node.
    - [LdbBlock]: table/block_builder.cc and table/block.cc, what a table is made of; the
      specification of a block is its list of entries, each with what it shares with
      the one before ([cell]).
    - [LdbTwoLevel]: table/two_level_iterator.cc, the iterator over the blocks that an index
      leads to, on any iterators that keep the promise; the specification is the entries
      of all blocks in a row ([flat]).
    - [LdbFilter]: util/hash.cc, util/bloom.cc, table/filter_block.cc; [FilterPolicy] is the
      interface, [FilterPolicyLaws] that no key is denied.
    - [LdbTable]: table/format.{h,cc}, table/table_builder.cc, table/table.cc: the file of
      a table and what is opened from it; [table_file] says what a file that holds some
      entries is, and the specification of a table is its list of entries.

    Every C function keeps its name, and its record the names of its fields, except
    where Rocq has a meaning for the name.  Loops are functions of their own, named
    after the function they are in.

    ** What the theorems show

    - Parsing and building are inverse to each other and match the standard: the DER
      parser accepts exactly DER, integers and lengths canonical; a sequence of
      [CBB] calls produces what its specification says for every allocator, and
      reads back; BER is converted to the DER of the same elements.
    - Memory: no sequence of calls stores outside a buffer or ring, reads through a
      freed or unknown address, or leaves an object behind when everything has been
      freed; errors are sticky where the interface says so, and happen only for the
      stated reasons.
    - Containers refine their abstract types under arbitrary sequences of operations:
      list, finite map, queues, stream.  The invariants that comments state in the
      code hold in every reachable state.
    - Progress: a message sent through a pair arrives; loops end within the rounds the
      code's comments promise.
    - The database survives: after a crash, recovery gives the batches of the first
      callers in order, each as a whole, among them all that were acknowledged when
      the log was last known to be on the disk; and at every moment, whatever the
      interleaving, a read sees exactly what the acknowledged writes leave.  Below
      that, what was added to a log is read back, however the file was cut, and
      checksums are CRC-32C.  One exception is proved as well: a log that is
      continued after a torn record loses what follows.
    - A client's iterator keeps its snapshot: at any moment, and in either direction, it
      shows the sorted list of what a read finds at the snapshot, while others write.
    - A block of a table gives back its entries, by binary search and in both
      directions, and no read of it is outside of the block; the iterator over many
      blocks is that of all their entries; a filter never denies a key that is there.
      A table gives back the entries it was built of, through its iterator and one key at
      a time, for every option, compression and filter with the laws of its interface.
    - Readers of a skip list need no lock: whatever the order of the loads and stores,
      they see a sorted list.
    - Arithmetic on numbers of any width and sign is exact, or fails for lack of
      room.

    ** Bounds and fuel

    A loop that is not structural has fuel, and the theorems are about the fuel the
    model gives it, not "if it returns": the length of what is consumed, the size of
    the store for a chain, two for the loops of [bio_read] and [bio_write] (the
    comment there says one or two iterations).  [BIO_read_asn1] takes its fuel as an
    argument, since a BIO can refuse to end; its theorems say how much is enough.
    Reading a log has a round for each byte of the file, and a physical record two (a
    block that is refilled); there, and in recovery, running out of fuel is a result of
    its own ([None], not an end of file), and it is proved not to
    happen.  A search in a skip list has a round for each node and each
    level; the loops of a client's iterator take their fuel as an argument, which need
    only exceed the number of writes ever asked for; that of a table, the number of its
    entries by two.
    Sizes are [size_t] numbers below 2^64 with the wrap-around written out; [int] is
    32 bits wide and words are 64.

    ** Conventions

    [free] of a block has no effect that can be observed but on a store of objects,
    where it removes the object.  The error queue is not modelled, except for the
    reasons [BIO_read_asn1] gives.  Operands of the number functions are passed by
    value: the loops read a word before they write the word at its place, so that a
    result may be one of the operands.  Assertions are code, and a failed one is a failure
    of the definition ([Bio] takes whether the build has them as a parameter), but for a
    few that are conditions of the lemmas instead: the range of the sequence number in
    [PackSequenceAndType], the order of what is shortened in [FindShortestSeparator] and
    [FindShortSuccessor] (the laws of [ComparatorLaws]), and the tag of [cbs_convert_ber].
    Code is taken as a build without assembly takes it (OPENSSL_NO_ASM, 128-bit products).

    ** Not modelled

    - The rest of big numbers (multiplication beyond a word, division, Montgomery
      arithmetic, exponentiation, primes), ciphers, digests, elliptic curves, RSA and
      DSA, random numbers, X.509, PEM, PKCS, EVP and the TLS library: not yet.
    - BIOs over files, sockets and printf; application-defined methods.
    - Thread-local state, locks and reference counts under contention.
    - The rest of LevelDB: switching to a new memtable and log, the cache
      (tables look blocks up in one), versions and compaction, the list of snapshots, the sampling
      of reads, environments.  The database of the theorems is new, its appends succeed (its
      syncs may fail) and all its writes fit into the memtable; insertion into the
      memtable and each call of an iterator are one step there, as [LdbSkip] shows
      that readers may take them.
      Memory orders weaker than sequential consistency.
    - gRPC, abseil, Firebase, nanopb and libuv (other pods): not yet, or glue between
      the app and services it talks to.
    - The Swift and Objective-C sources: user interface and calls to services. *)
From Stdlib Require Import ZArith Lia.
From stdpp Require Import base list numbers.

Open Scope Z_scope.

Create Rewrite HintDb zlen.
Create HintDb bytes.

(** * Lengths, sizes and machine words *)

(** The length of a list as the [size_t] the code computes with. *)
Definition zlen {A} (l : list A) : Z := Z.of_nat (length l).

(** The first [n] elements and what follows them, with a C size. *)
Definition ztake {A} (n : Z) (l : list A) : list A := take (Z.to_nat n) l.
Definition zdrop {A} (n : Z) (l : list A) : list A := drop (Z.to_nat n) l.

(** [data[i]]; the default is never reached where the code is in bounds. *)
Definition znth {A} (d : A) (i : Z) (l : list A) : A := nth (Z.to_nat i) l d.

(** [n] copies of [x], as [memset] writes them. *)
Definition zrep {A} (n : Z) (x : A) : list A := replicate (Z.to_nat n) x.

(** [l[i .. i+n)], and [l] with [k] stored over the bytes at [i]. *)
Definition zsub {A} (i n : Z) (l : list A) : list A := ztake n (zdrop i l).
Definition zsplice {A} (i : Z) (k l : list A) : list A :=
  ztake i l ++ k ++ zdrop (i + zlen k) l.

(** Wrap-around of the unsigned types. *)
Definition u8 (x : Z) : Z := x mod 256.
Definition u16 (x : Z) : Z := x mod 65536.
Definition u32 (x : Z) : Z := x mod 4294967296.
Definition u64 (x : Z) : Z := x mod 18446744073709551616.
Definition SIZE_MAX : Z := 18446744073709551615.
Definition INT_MAX : Z := 2147483647.

(** The two's-complement reading of an unsigned 64-bit pattern. *)
Definition s64 (x : Z) : Z :=
  if x <? 9223372036854775808 then x else x - 18446744073709551616.

(** What is left of a number converted to [int]. *)
Definition s32 (x : Z) : Z :=
  if u32 x <? 2147483648 then u32 x else u32 x - 4294967296.

Definition byte_ok (b : Z) : Prop := 0 <= b < 256.
Definition bytes_ok (l : list Z) : Prop := Forall byte_ok l.

(** * A state-and-failure monad

    A C function that works on an object in place and returns 0 on failure is
    a function from the object's state to an optional result and the state it
    leaves behind; the state is there on failure too, because the code may
    already have changed it when it gives up. *)
Definition M (S A : Type) : Type := S -> option A * S.

Definition ret {S A} (a : A) : M S A := fun s => (Some a, s).
Definition fail {S A} : M S A := fun s => (None, s).
Definition bind {S A B} (m : M S A) (k : A -> M S B) : M S B :=
  fun s => match m s with
           | (Some a, s') => k a s'
           | (None, s') => (None, s')
           end.
Definition guard {S} (b : bool) : M S unit := if b then ret tt else fail.
Definition get {S} : M S S := fun s => (Some s, s).

Declare Scope c_scope.
Delimit Scope c_scope with c.
Notation "'let*' x ':=' m 'in' k" := (bind m (fun x => k))
  (at level 10, x name, m at level 100, k at level 200) : c_scope.
Notation "'let*' ' p ':=' m 'in' k" := (bind m (fun p => k))
  (at level 10, p strict pattern, m at level 100, k at level 200) : c_scope.
Notation "'check' b 'in' k" := (bind (guard b) (fun _ => k))
  (at level 10, b at level 100, k at level 200) : c_scope.
Open Scope c_scope.

Section Monad.
Context {S A B : Type}.

Lemma bind_Some (m : M S A) (k : A -> M S B) s a s' :
  m s = (Some a, s') -> bind m k s = k a s'.
Proof. unfold bind. intros ->. reflexivity. Qed.

Lemma bind_None (m : M S A) (k : A -> M S B) s s' :
  m s = (None, s') -> bind m k s = (None, s').
Proof. unfold bind. intros ->. reflexivity. Qed.

Lemma bind_inv (m : M S A) (k : A -> M S B) s b s' :
  bind m k s = (Some b, s') ->
  exists a s1, m s = (Some a, s1) /\ k a s1 = (Some b, s').
Proof. unfold bind. destruct (m s) as [[a|] s1]; [eauto | discriminate]. Qed.

Lemma bind_ext (m : M S A) (k k' : A -> M S B) s :
  (forall a s, k a s = k' a s) -> bind m k s = bind m k' s.
Proof. intros E. unfold bind. destruct (m s) as [[a|] s']; auto. Qed.

Lemma bind_bind {C} (m : M S A) (k : A -> M S B) (l : B -> M S C) s :
  bind (bind m k) l s = bind m (fun a => bind (k a) l) s.
Proof. unfold bind. destruct (m s) as [[a|] s']; reflexivity. Qed.

Lemma bind_ret (m : M S unit) s : bind m (fun _ => ret tt) s = m s.
Proof. unfold bind. destruct (m s) as [[[]|] s']; reflexivity. Qed.

Lemma guard_inv (b : bool) (k : M S B) s x s' :
  bind (guard b) (fun _ => k) s = (Some x, s') -> b = true /\ k s = (Some x, s').
Proof. destruct b; [auto | discriminate]. Qed.

Lemma guard_true (b : bool) (k : M S B) s :
  b = true -> bind (guard b) (fun _ => k) s = k s.
Proof. intros ->. reflexivity. Qed.
End Monad.

(** Take apart a successful run, one monadic step at a time. *)
Ltac run_inv :=
  repeat match goal with
  | H : bind (guard _) _ _ = (Some _, _) |- _ =>
      let E := fresh "E" in apply guard_inv in H as [E H]
  | H : bind _ _ _ = (Some _, _) |- _ =>
      let a := fresh "v" in let s := fresh "s" in let E := fresh "E" in
      apply bind_inv in H as (a & s & E & H)
  | H : ret _ _ = (Some _, _) |- _ => unfold ret in H; injection H as H; subst
  | H : (Some _, _) = (Some _, _) |- _ => injection H as H; subst
  | H : (None, _) = (Some _, _) |- _ => discriminate H
  end.

(** [lia] after turning division and modulo into equations. *)
Ltac dlia := Z.to_euclidean_division_equations; lia.

(** * Bit operations as arithmetic *)

Lemma zlen_nonneg {A} (l : list A) : 0 <= zlen l.
Proof. unfold zlen. lia. Qed.

Lemma zlen_app {A} (l k : list A) : zlen (l ++ k) = zlen l + zlen k.
Proof. unfold zlen. rewrite length_app. lia. Qed.

Lemma zlen_cons {A} (x : A) l : zlen (x :: l) = 1 + zlen l.
Proof. unfold zlen. cbn [length]. lia. Qed.

Lemma zlen_nil {A} : zlen (@nil A) = 0.
Proof. reflexivity. Qed.

Lemma zlen_0 {A} (l : list A) : zlen l = 0 -> l = [].
Proof. destruct l; [auto | rewrite zlen_cons]. pose proof (zlen_nonneg l). lia. Qed.

Lemma zlen_ztake {A} n (l : list A) : 0 <= n <= zlen l -> zlen (ztake n l) = n.
Proof. unfold zlen, ztake. intros. rewrite length_take. lia. Qed.

Lemma zlen_zdrop {A} n (l : list A) : 0 <= n <= zlen l -> zlen (zdrop n l) = zlen l - n.
Proof. unfold zlen, zdrop. intros. rewrite length_drop. lia. Qed.

Lemma zlen_zrep {A} n (x : A) : 0 <= n -> zlen (zrep n x) = n.
Proof. unfold zlen, zrep. intros. rewrite length_replicate. lia. Qed.

Lemma ztake_zdrop {A} n (l : list A) : ztake n l ++ zdrop n l = l.
Proof. apply take_drop. Qed.

Lemma ztake_app {A} (l k : list A) : ztake (zlen l) (l ++ k) = l.
Proof. unfold ztake, zlen. rewrite Nat2Z.id. apply take_app_length. Qed.

Lemma zdrop_app {A} (l k : list A) : zdrop (zlen l) (l ++ k) = k.
Proof. unfold zdrop, zlen. rewrite Nat2Z.id. apply drop_app_length. Qed.

Lemma ztake_app_eq {A} n (l k : list A) : n = zlen l -> ztake n (l ++ k) = l.
Proof. intros ->. apply ztake_app. Qed.

Lemma zdrop_app_eq {A} n (l k : list A) : n = zlen l -> zdrop n (l ++ k) = k.
Proof. intros ->. apply zdrop_app. Qed.

Lemma ztake_all {A} (l : list A) : ztake (zlen l) l = l.
Proof. rewrite <- (app_nil_r l) at 2. apply ztake_app. Qed.

Lemma ztake_all_ge {A} n (l : list A) : zlen l <= n -> ztake n l = l.
Proof. unfold ztake, zlen. intros. apply take_ge. lia. Qed.

Lemma zdrop_all_ge {A} n (l : list A) : zlen l <= n -> zdrop n l = [].
Proof. unfold zdrop, zlen. intros. apply drop_ge. lia. Qed.

Lemma zdrop_zdrop {A} a b (l : list A) :
  0 <= a -> 0 <= b -> zdrop a (zdrop b l) = zdrop (b + a) l.
Proof. unfold zdrop. intros. rewrite drop_drop. f_equal. lia. Qed.

Lemma zdrop_app_add {A} n (l k : list A) : 0 <= n -> zdrop (zlen l + n) (l ++ k) = zdrop n k.
Proof.
  intros Hn. pose proof (zlen_nonneg l). rewrite <- (zdrop_zdrop n (zlen l)) by lia.
  rewrite zdrop_app. reflexivity.
Qed.

Lemma ztake_app_le {A} n (l k : list A) : n <= zlen l -> ztake n (l ++ k) = ztake n l.
Proof. unfold ztake, zlen. intros. apply take_app_le. lia. Qed.

Lemma ztake_app_add {A} n (l k : list A) : 0 <= n -> ztake (zlen l + n) (l ++ k) = l ++ ztake n k.
Proof.
  intros Hn. unfold ztake, zlen. rewrite Z2Nat.inj_add, Nat2Z.id by lia. apply take_app_add.
Qed.

(** Storing over a middle part of the same length. *)
Lemma zsplice_app {A} i (k p m s : list A) :
  i = zlen p -> zlen k = zlen m -> zsplice i k (p ++ m ++ s) = p ++ k ++ s.
Proof.
  intros -> Hk. unfold zsplice. rewrite ztake_app, zdrop_app_add by apply zlen_nonneg.
  rewrite Hk, zdrop_app. reflexivity.
Qed.

Lemma zsub_app {A} i n (p m s : list A) :
  i = zlen p -> n = zlen m -> zsub i n (p ++ m ++ s) = m.
Proof. intros -> ->. unfold zsub. rewrite zdrop_app, ztake_app. reflexivity. Qed.

Lemma zlen_zsplice {A} i (k l : list A) :
  0 <= i -> i + zlen k <= zlen l -> zlen (zsplice i k l) = zlen l.
Proof.
  intros Hi Hl. pose proof (zlen_nonneg k). unfold zsplice. rewrite !zlen_app.
  rewrite zlen_ztake, zlen_zdrop by lia. lia.
Qed.

(** A store below [n] and the first [n] elements. *)
Lemma ztake_zsplice {A} n i (k l : list A) :
  0 <= i -> i + zlen k <= n <= zlen l -> ztake n (zsplice i k l) = zsplice i k (ztake n l).
Proof.
  intros Hi Hn. pose proof (zlen_nonneg k). rewrite <- (ztake_zdrop n l) at 1.
  set (a := ztake n l). set (r := zdrop n l).
  assert (Ha : zlen a = n) by (apply zlen_ztake; lia).
  assert (E : a = ztake i a ++ ztake (zlen k) (zdrop i a) ++ zdrop (i + zlen k) a).
  { rewrite <- (zdrop_zdrop (zlen k) i) by lia. rewrite !ztake_zdrop. reflexivity. }
  rewrite E. rewrite <- !app_assoc.
  assert (Hi' : i = zlen (ztake i a)) by (rewrite zlen_ztake; lia).
  assert (Hk' : zlen k = zlen (ztake (zlen k) (zdrop i a)))
    by (rewrite zlen_ztake; rewrite ?zlen_zdrop; lia).
  rewrite !(zsplice_app i k _ _ _ Hi' Hk'). rewrite !app_assoc. apply ztake_app_eq.
  rewrite <- Ha. rewrite E at 1. rewrite !zlen_app. lia.
Qed.

(** A list cut at [i] and after [n] more elements. *)
Lemma zcut {A} i n (l : list A) :
  0 <= i -> 0 <= n -> i + n <= zlen l ->
  exists p m s, l = p ++ m ++ s /\ zlen p = i /\ zlen m = n.
Proof.
  intros Hi Hn Hl. exists (ztake i l), (ztake n (zdrop i l)), (zdrop n (zdrop i l)).
  rewrite !ztake_zdrop. split; [reflexivity|].
  split; [apply zlen_ztake; lia|]. apply zlen_ztake. rewrite zlen_zdrop; lia.
Qed.

(** A second store that goes on where the first one left off, over some of it. *)
Lemma zsplice_over {A} i (a c b l : list A) :
  0 <= i -> zlen c <= zlen b -> i + zlen a + zlen b <= zlen l ->
  zsplice (i + zlen a) b (zsplice i (a ++ c) l) = zsplice i (a ++ b) l.
Proof.
  intros Hi Hc Hl. pose proof (zlen_nonneg a). pose proof (zlen_nonneg c).
  destruct (zcut i (zlen a + zlen b) l) as (p & m & s & -> & Hp & Hm); [lia..|].
  destruct (zcut 0 (zlen a + zlen c) m) as (z & x & y & -> & Hz & Hx); [lia..|]. apply zlen_0 in Hz as ->.
  cbn [app] in *. rewrite zlen_app in Hm. rewrite <- (app_assoc x y s).
  rewrite (zsplice_app i (a ++ c) p x) by (rewrite ?zlen_app; lia).
  replace (p ++ (a ++ c) ++ y ++ s) with ((p ++ a) ++ (c ++ y) ++ s) by (rewrite <- !app_assoc; reflexivity).
  rewrite zsplice_app by (rewrite ?zlen_app; lia).
  replace (p ++ x ++ y ++ s) with (p ++ (x ++ y) ++ s) by (rewrite <- !app_assoc; reflexivity).
  rewrite zsplice_app by (rewrite ?zlen_app; lia). rewrite <- !app_assoc. reflexivity.
Qed.

Lemma zsplice_append {A} i (a b l : list A) :
  0 <= i -> i + zlen a + zlen b <= zlen l ->
  zsplice (i + zlen a) b (zsplice i a l) = zsplice i (a ++ b) l.
Proof.
  intros Hi Hl. rewrite <- (zsplice_over i a [] b) by (auto; apply zlen_nonneg).
  rewrite app_nil_r. reflexivity.
Qed.

Lemma zsplice_nil {A} i (l : list A) : zsplice i [] l = l.
Proof. unfold zsplice. rewrite zlen_nil, Z.add_0_r. apply ztake_zdrop. Qed.

(** The stored bytes, and those after them. *)
Lemma zsub_zsplice {A} i n (k l : list A) :
  0 <= i -> n = zlen k -> i + zlen k <= zlen l -> zsub i n (zsplice i k l) = k.
Proof.
  intros Hi -> Hl. destruct (zcut i (zlen k) l) as (p & m & s & -> & Hp & Hm); [lia|apply zlen_nonneg|lia|].
  rewrite zsplice_app by lia. apply zsub_app; lia.
Qed.

Lemma zdrop_zsplice {A} i n (k l : list A) :
  0 <= i -> i + zlen k <= n -> n <= zlen l -> zdrop n (zsplice i k l) = zdrop n l.
Proof.
  intros Hi Hn Hl. pose proof (zlen_nonneg k).
  destruct (zcut i (zlen k) l) as (p & m & s & -> & Hp & Hm); [lia..|].
  rewrite zsplice_app by lia. rewrite !app_assoc.
  replace n with (zlen (p ++ k) + (n - i - zlen k)) at 1 by (rewrite zlen_app; lia).
  replace n with (zlen (p ++ m) + (n - i - zlen k)) at 2 by (rewrite zlen_app; lia).
  rewrite !zdrop_app_add by lia. reflexivity.
Qed.

(** Parts of a part. *)
Lemma ztake_zsplice_end {A} i n (k l : list A) :
  0 <= i <= zlen l -> n = i + zlen k -> ztake n (zsplice i k l) = ztake i l ++ k.
Proof.
  intros Hi ->. unfold zsplice. rewrite app_assoc. apply ztake_app_eq.
  rewrite zlen_app, zlen_ztake by lia. reflexivity.
Qed.

Lemma zlen_zsub {A} i n (l : list A) : 0 <= i -> 0 <= n -> i + n <= zlen l -> zlen (zsub i n l) = n.
Proof. intros Hi Hn Hl. unfold zsub. apply zlen_ztake. rewrite zlen_zdrop; lia. Qed.

Lemma zdrop_ztake {A} i n (l : list A) : 0 <= i <= n -> n <= zlen l -> zdrop i (ztake n l) = zsub i (n - i) l.
Proof.
  intros Hi Hn. unfold zsub, ztake, zdrop. rewrite skipn_firstn_comm. f_equal. lia.
Qed.

Lemma ztake_ztake {A} i n (l : list A) : i <= n -> ztake i (ztake n l) = ztake i l.
Proof. intros Hi. unfold ztake. rewrite take_take. f_equal. lia. Qed.

Lemma znth_ztake {A} (d : A) i n (l : list A) : 0 <= i < n -> znth d i (ztake n l) = znth d i l.
Proof.
  intros Hi. unfold znth, ztake. rewrite !nth_lookup. rewrite lookup_take_lt by lia. reflexivity.
Qed.

(** Lists three elements at a time. *)
Lemma list_ind3 {A} (P : list A -> Prop) :
  P [] -> (forall a, P [a]) -> (forall a b, P [a; b]) ->
  (forall a b c l, P l -> P (a :: b :: c :: l)) -> forall l, P l.
Proof.
  intros H0 H1 H2 H3. fix IH 1. intros [|a [|b [|c l]]]; [apply H0|apply H1|apply H2|apply H3, IH].
Qed.

#[export] Hint Rewrite @zlen_app @zlen_cons @zlen_nil : zlen.

Lemma bytes_ok_app l k : bytes_ok (l ++ k) <-> bytes_ok l /\ bytes_ok k.
Proof. apply Forall_app. Qed.

Lemma bytes_ok_cons b l : bytes_ok (b :: l) <-> byte_ok b /\ bytes_ok l.
Proof. apply List.Forall_cons_iff. Qed.

Lemma bytes_ok_nil : bytes_ok [].
Proof. constructor. Qed.

Lemma bytes_ok_ztake n l : bytes_ok l -> bytes_ok (ztake n l).
Proof. apply Forall_take. Qed.

Lemma bytes_ok_zdrop n l : bytes_ok l -> bytes_ok (zdrop n l).
Proof. apply Forall_drop. Qed.

#[export] Hint Resolve bytes_ok_nil bytes_ok_ztake bytes_ok_zdrop : bytes.

Lemma u8_byte x : byte_ok (u8 x).
Proof. unfold byte_ok, u8. dlia. Qed.

Lemma u8_small x : byte_ok x -> u8 x = x.
Proof. unfold byte_ok, u8. intros. apply Z.mod_small. lia. Qed.

Lemma u64_small x : 0 <= x < 2 ^ 64 -> u64 x = x.
Proof. unfold u64. intros. apply Z.mod_small. lia. Qed.

Lemma u32_small x : 0 <= x < 2 ^ 32 -> u32 x = x.
Proof. unfold u32. intros. apply Z.mod_small. lia. Qed.

Lemma s32_small x : -2147483648 <= x < 2147483648 -> s32 x = x.
Proof.
  unfold s32, u32. intros Hx. destruct (Z.ltb_spec (x mod 4294967296) 2147483648); dlia.
Qed.

Lemma u64_range x : 0 <= u64 x < 2 ^ 64.
Proof. unfold u64. dlia. Qed.

(** The overflow test [n + k < n] of the code. *)
Lemma u64_overflow n k :
  0 <= n < 2 ^ 64 -> 0 <= k < 2 ^ 64 -> n <= u64 (n + k) -> u64 (n + k) = n + k.
Proof.
  intros Hn Hk H. destruct (Z.ltb_spec (n + k) (2 ^ 64)); [apply u64_small; lia|].
  assert (E : u64 (n + k) = n + k - 2 ^ 64)
    by (unfold u64; symmetry; apply Z.mod_unique with 1; lia).
  lia.
Qed.

#[export] Hint Resolve u8_byte : bytes.

(** [land] with [2^n - 1], [shiftr] and [shiftl] by a constant. *)
Lemma land_mask n x : 0 <= n -> Z.land x (2 ^ n - 1) = x mod 2 ^ n.
Proof. intros. rewrite <- Z.land_ones by lia. rewrite Z.ones_equiv. f_equal. Qed.

Lemma shiftl_lor_add n a b :
  0 <= n -> 0 <= b < 2 ^ n -> Z.lor (Z.shiftl a n) b = a * 2 ^ n + b.
Proof.
  intros Hn Hb. rewrite <- Z.shiftl_mul_pow2 by lia.
  assert (Hd : Z.land (Z.shiftl a n) b = 0).
  { apply Z.bits_inj'. intros i Hi. rewrite Z.land_spec, Z.bits_0.
    destruct (Z.ltb_spec i n).
    - rewrite Z.shiftl_spec_low by lia. reflexivity.
    - rewrite <- (Z.mod_small b (2 ^ n)) by lia.
      rewrite Z.mod_pow2_bits_high by lia. apply andb_false_r. }
  rewrite <- Z.lxor_lor, Z.add_nocarry_lxor by exact Hd. reflexivity.
Qed.

Lemma lor_shiftl_add n a b :
  0 <= n -> 0 <= b < 2 ^ n -> Z.lor b (Z.shiftl a n) = a * 2 ^ n + b.
Proof. rewrite Z.lor_comm. apply shiftl_lor_add. Qed.

(** [lor] of a multiple of [2^n] and a number below [2^n]. *)
Lemma lor_disjoint n a b :
  0 <= n -> a mod 2 ^ n = 0 -> 0 <= b < 2 ^ n -> Z.lor a b = a + b.
Proof.
  intros Hn Ha Hb. rewrite (Z.div_mod a (2 ^ n)) by lia.
  rewrite Ha, Z.add_0_r, Z.mul_comm, <- Z.shiftl_mul_pow2 by lia.
  rewrite shiftl_lor_add by lia. rewrite Z.shiftl_mul_pow2; lia.
Qed.

Lemma testbit_high n b i : 0 <= n <= i -> 0 <= b < 2 ^ n -> Z.testbit b i = false.
Proof.
  intros Hi Hb. rewrite <- (Z.mod_small b (2 ^ n)) by lia.
  apply Z.mod_pow2_bits_high. lia.
Qed.

Lemma testbit_split n a b i :
  0 <= n -> 0 <= i -> 0 <= b < 2 ^ n ->
  Z.testbit (a * 2 ^ n + b) i = if i <? n then Z.testbit b i else Z.testbit a (i - n).
Proof.
  intros Hn Hi Hb. rewrite <- shiftl_lor_add by lia. rewrite Z.lor_spec.
  destruct (Z.ltb_spec i n).
  - rewrite Z.shiftl_spec_low by lia. reflexivity.
  - rewrite Z.shiftl_spec by lia. rewrite (testbit_high n b) by lia. apply orb_false_r.
Qed.

(** [land] works on the two halves of a number separately. *)
Lemma land_split n a b p q :
  0 <= n -> 0 <= b < 2 ^ n -> 0 <= q < 2 ^ n ->
  Z.land (a * 2 ^ n + b) (p * 2 ^ n + q) = Z.land a p * 2 ^ n + Z.land b q.
Proof.
  intros Hn Hb Hq.
  assert (Hbq : 0 <= Z.land b q < 2 ^ n).
  { split; [apply Z.land_nonneg; lia|].
    rewrite <- (Z.mod_small b (2 ^ n)) by lia. rewrite <- Z.land_ones by lia.
    rewrite <- Z.land_assoc, (Z.land_comm (Z.ones n)), Z.land_assoc, Z.land_ones by lia.
    apply Z.mod_pos_bound. lia. }
  apply Z.bits_inj'. intros i Hi. rewrite Z.land_spec, !testbit_split by lia.
  destruct (i <? n); rewrite Z.land_spec; reflexivity.
Qed.

Lemma lor_range n b q :
  0 <= n -> 0 <= b < 2 ^ n -> 0 <= q < 2 ^ n -> 0 <= Z.lor b q < 2 ^ n.
Proof.
  intros Hn Hb Hq. split; [apply Z.lor_nonneg; lia|].
  rewrite <- (Z.mod_small b (2 ^ n)), <- (Z.mod_small q (2 ^ n)) by lia.
  rewrite <- !Z.land_ones, <- Z.land_lor_distr_l, Z.land_ones by lia.
  apply Z.mod_pos_bound. lia.
Qed.

Lemma lor_split n a b p q :
  0 <= n -> 0 <= b < 2 ^ n -> 0 <= q < 2 ^ n ->
  Z.lor (a * 2 ^ n + b) (p * 2 ^ n + q) = Z.lor a p * 2 ^ n + Z.lor b q.
Proof.
  intros Hn Hb Hq. pose proof (lor_range n b q Hn Hb Hq).
  apply Z.bits_inj'. intros i Hi. rewrite Z.lor_spec, !testbit_split by lia.
  destruct (i <? n); rewrite Z.lor_spec; reflexivity.
Qed.

(** * Statements about every byte, by computation *)

Lemma byte_cases (P : Z -> bool) :
  forallb P (seqZ 0 256) = true -> forall b, byte_ok b -> P b = true.
Proof.
  intros H b Hb. rewrite forallb_forall in H. apply H.
  apply list_elem_of_In, elem_of_seqZ. unfold byte_ok in Hb. lia.
Qed.

Lemma byte_eq (f g : Z -> Z) :
  forallb (fun b => f b =? g b) (seqZ 0 256) = true ->
  forall b, byte_ok b -> f b = g b.
Proof. intros H b Hb. apply Z.eqb_eq. exact (byte_cases _ H b Hb). Qed.

(** * Big-endian and little-endian numbers *)

(** The value of a big-endian byte string. *)
Definition be_val (l : list Z) : Z := fold_left (fun acc b => acc * 256 + b) l 0.

(** The [n] low-order bytes of [v], most significant first. *)
Fixpoint be_bytes (n : nat) (v : Z) : list Z :=
  match n with
  | O => []
  | S n => be_bytes n (v / 256) ++ [v mod 256]
  end.

Lemma be_val_app_aux l acc :
  fold_left (fun acc b => acc * 256 + b) l acc = acc * 256 ^ zlen l + be_val l.
Proof.
  unfold be_val. revert acc. induction l as [|b l IH]; intros acc.
  - cbn. unfold zlen. cbn. lia.
  - cbn [fold_left]. rewrite IH, (IH (0 * 256 + b)), zlen_cons.
    rewrite Z.pow_add_r by (pose proof (zlen_nonneg l); lia).
    change (256 ^ 1) with 256. ring.
Qed.

Lemma be_val_app l k : be_val (l ++ k) = be_val l * 256 ^ zlen k + be_val k.
Proof. unfold be_val at 1. rewrite fold_left_app. apply be_val_app_aux. Qed.

Lemma be_val_snoc l b : be_val (l ++ [b]) = be_val l * 256 + b.
Proof.
  rewrite be_val_app. change (256 ^ zlen [b]) with 256.
  change (be_val [b]) with (0 * 256 + b). lia.
Qed.

Lemma be_val_cons b l : be_val (b :: l) = b * 256 ^ zlen l + be_val l.
Proof.
  change (b :: l) with ([b] ++ l). rewrite be_val_app.
  change (be_val [b]) with (0 * 256 + b). lia.
Qed.

Lemma be_val_bound l : bytes_ok l -> 0 <= be_val l < 256 ^ zlen l.
Proof.
  induction l as [|b l IH] using rev_ind; intros H; [change (0 <= 0 < 1); lia|].
  apply bytes_ok_app in H as [Hl Hb]. apply bytes_ok_cons in Hb as [Hb _].
  specialize (IH Hl). rewrite be_val_snoc. autorewrite with zlen.
  pose proof (zlen_nonneg l). unfold byte_ok in Hb.
  replace (256 ^ (zlen l + (1 + 0))) with (256 ^ zlen l * 256).
  - lia.
  - symmetry. apply (Z.pow_add_r 256 (zlen l) 1); lia.
Qed.

Lemma length_be_bytes n v : length (be_bytes n v) = n.
Proof. revert v. induction n; intros v; cbn; [auto|]. rewrite length_app, IHn. cbn. lia. Qed.

Lemma zlen_be_bytes n v : zlen (be_bytes n v) = Z.of_nat n.
Proof. unfold zlen. rewrite length_be_bytes. reflexivity. Qed.

Lemma be_bytes_ok n v : bytes_ok (be_bytes n v).
Proof.
  revert v. induction n; intros v; cbn; [constructor|].
  apply bytes_ok_app. split; [auto|]. constructor; [|constructor].
  unfold byte_ok. dlia.
Qed.

Lemma be_val_bytes n v : be_val (be_bytes n v) = v mod 256 ^ Z.of_nat n.
Proof.
  revert v. induction n; intros v; [cbn; rewrite Z.mod_1_r; reflexivity|].
  cbn [be_bytes]. rewrite be_val_snoc, IHn, Nat2Z.inj_succ, Z.pow_succ_r by lia.
  rewrite Z.rem_mul_r by lia. lia.
Qed.

Lemma be_bytes_val l : bytes_ok l -> be_bytes (length l) (be_val l) = l.
Proof.
  induction l as [|b l IH] using rev_ind; intros H; [reflexivity|].
  apply bytes_ok_app in H as [Hl Hb]. apply bytes_ok_cons in Hb as [Hb _].
  rewrite length_app. cbn [length]. rewrite Nat.add_1_r. cbn [be_bytes].
  rewrite be_val_snoc. unfold byte_ok in Hb.
  replace ((be_val l * 256 + b) / 256) with (be_val l) by dlia.
  replace ((be_val l * 256 + b) mod 256) with b by dlia.
  rewrite IH by auto. reflexivity.
Qed.

(** The most significant byte first. *)
Lemma be_bytes_first n v :
  be_bytes (S n) v = v / 256 ^ Z.of_nat n mod 256 :: be_bytes n v.
Proof.
  revert v. induction n as [|n IH]; intros v.
  - cbn [be_bytes app]. change (256 ^ Z.of_nat 0) with 1. rewrite Z.div_1_r. reflexivity.
  - change (be_bytes (S (S n)) v) with (be_bytes (S n) (v / 256) ++ [v mod 256]).
    rewrite IH, Nat2Z.inj_succ, Z.pow_succ_r, Z.div_div by lia. reflexivity.
Qed.

Lemma be_bytes_mod n v : be_bytes n (v mod 256 ^ Z.of_nat n) = be_bytes n v.
Proof.
  rewrite <- be_val_bytes. rewrite <- (length_be_bytes n v) at 1. apply be_bytes_val.
  apply be_bytes_ok.
Qed.

Lemma rev_zrep {A} n (x : A) : rev (zrep n x) = zrep n x.
Proof.
  unfold zrep. induction (Z.to_nat n) as [|k IH]; [reflexivity|].
  cbn [replicate rev]. rewrite IH. symmetry. apply replicate_S_end.
Qed.

Lemma be_val_zrep_0 n : be_val (zrep n 0) = 0.
Proof.
  unfold zrep. induction (Z.to_nat n) as [|k IH]; [reflexivity|].
  rewrite replicate_S_end, be_val_snoc, IH. reflexivity.
Qed.

Lemma be_val_zrep_255 n : 0 <= n -> be_val (zrep n 255) = 256 ^ n - 1.
Proof.
  intros Hn. rewrite <- (Z2Nat.id n) at 2 by lia. unfold zrep.
  induction (Z.to_nat n) as [|k IH]; [reflexivity|].
  rewrite replicate_S_end, be_val_snoc, IH, Nat2Z.inj_succ, Z.pow_succ_r by lia. lia.
Qed.

#[export] Hint Resolve be_bytes_ok : bytes.

(** The number a little-endian byte string stands for. *)
Definition le_val (l : list Z) : Z := be_val (rev l).

Lemma le_val_app l k : le_val (l ++ k) = le_val l + 256 ^ zlen l * le_val k.
Proof. unfold le_val. rewrite rev_app_distr, be_val_app. replace (zlen (rev l)) with (zlen l) by (unfold zlen; rewrite length_rev; reflexivity). lia. Qed.

Lemma le_val_bound l : bytes_ok l -> 0 <= le_val l < 256 ^ zlen l.
Proof.
  intros Hl. pose proof (be_val_bound (rev l) ltac:(apply Forall_rev, Hl)) as Hb. unfold le_val.
  replace (zlen (rev l)) with (zlen l) in Hb by (unfold zlen; rewrite length_rev; reflexivity). exact Hb.
Qed.

Lemma le_val_cons b l : le_val (b :: l) = b + 256 * le_val l.
Proof. change (b :: l) with ([b] ++ l). rewrite le_val_app. reflexivity. Qed.

(** The [n] low-order bytes of [v], least significant first. *)
Fixpoint le_bytes (n : nat) (v : Z) : list Z :=
  match n with
  | O => []
  | S n => v mod 256 :: le_bytes n (v / 256)
  end.

Lemma zlen_le_bytes n v : zlen (le_bytes n v) = Z.of_nat n.
Proof.
  revert v. induction n as [|n IH]; intros v; [reflexivity|]. cbn [le_bytes]. rewrite zlen_cons, IH. lia.
Qed.

Lemma le_bytes_ok n v : bytes_ok (le_bytes n v).
Proof. revert v. induction n as [|n IH]; intros v; constructor; [unfold byte_ok; dlia|apply IH]. Qed.

Lemma le_val_bytes n v : le_val (le_bytes n v) = v mod 256 ^ Z.of_nat n.
Proof.
  revert v. induction n as [|n IH]; intros v; [cbn; rewrite Z.mod_1_r; reflexivity|].
  cbn [le_bytes]. rewrite le_val_cons, IH, Nat2Z.inj_succ, Z.pow_succ_r by lia.
  rewrite Z.rem_mul_r by lia. lia.
Qed.

Lemma le_bytes_val l : bytes_ok l -> le_bytes (length l) (le_val l) = l.
Proof.
  induction 1 as [|b l Hb Hl IH]; [reflexivity|]. cbn [length le_bytes]. rewrite le_val_cons.
  unfold byte_ok in Hb. replace ((b + 256 * le_val l) mod 256) with b by dlia.
  replace ((b + 256 * le_val l) / 256) with (le_val l) by dlia. rewrite IH. reflexivity.
Qed.

#[export] Hint Rewrite zlen_le_bytes : zlen.
#[export] Hint Resolve le_bytes_ok : bytes.
