(* ===== verification/Mem.v ===== *)
(** crypto/mem.c and the memory helpers of crypto/internal.h.

    The C library's [malloc] is not part of the repository: it is the interface
    [Malloc], an allocator with a state of its own, so that any request can
    fail, independently of the requests before it.  A block is the list of its
    bytes; the bytes of a fresh block are whatever [malloc] left there.  A
    C string is the list of its bytes before the terminating NUL. *)
From Stdlib Require Import ZArith Lia.
From stdpp Require Import base list numbers.
From S2P Require Import Prelude.

Open Scope Z_scope.
Open Scope c_scope.

(** * The allocator the program links against *)

Class Malloc := {
  heap : Type;
  malloc : heap -> Z -> option (list Z) * heap;
  malloc_len : forall h n l h', 0 <= n -> malloc h n = (Some l, h') -> zlen l = n;
  malloc_bytes : forall h n l h', malloc h n = (Some l, h') -> bytes_ok l
}.

(** The allocator grants every request of at most [n] bytes. *)
Definition grants `{Malloc} (n : Z) : Prop :=
  forall h m, 0 <= m <= n -> exists l h', malloc h m = (Some l, h').

(** An allocator to run the definitions with: it counts the bytes handed out,
    and fails when [limit] would be exceeded. *)
Definition quota_malloc (limit : Z) (h : Z) (n : Z) : option (list Z) * Z :=
  if h + n <=? limit then (Some (zrep n 205), h + n) else (None, h).

#[export, refine] Instance quota (limit : Z) : Malloc :=
  {| heap := Z; malloc := quota_malloc limit |}.
Proof.
  - unfold quota_malloc. intros h n l h' Hn E. destruct (_ <=? _); [|discriminate].
    injection E as <- _. apply zlen_zrep. exact Hn.
  - unfold quota_malloc. intros h n l h' E. destruct (_ <=? _); [|discriminate].
    injection E as <- _. apply Forall_replicate. unfold byte_ok. lia.
Defined.

(** An allocator that never says no. *)
#[export, refine] Instance unlimited : Malloc :=
  {| heap := unit; malloc := fun h n => (Some (zrep n 205), tt) |}.
Proof.
  - intros h n l h' Hn E. injection E as <-. apply zlen_zrep. exact Hn.
  - intros h n l h' E. injection E as <-. apply Forall_replicate. unfold byte_ok. lia.
Defined.

(** * Allocation *)

Definition OPENSSL_MALLOC_PREFIX : Z := 8.

Section Alloc.
Context `{Malloc}.

(** The block returned starts after the prefix that records its size. *)
Definition OPENSSL_malloc (h : heap) (size : Z) : option (list Z) * heap :=
  if u64 (size + OPENSSL_MALLOC_PREFIX) <? size then (None, h)
  else match malloc h (u64 (size + OPENSSL_MALLOC_PREFIX)) with
       | (None, h') => (None, h')
       | (Some ptr, h') => (Some (zdrop OPENSSL_MALLOC_PREFIX ptr), h')
       end.

(** On failure the original block stays valid; the caller keeps it. *)
Definition OPENSSL_realloc (h : heap) (orig : option (list Z)) (new_size : Z)
  : option (list Z) * heap :=
  match orig with
  | None => OPENSSL_malloc h new_size
  | Some old =>
      match OPENSSL_malloc h new_size with
      | (None, h') => (None, h')
      | (Some r, h') =>
          let to_copy := if zlen old <? new_size then zlen old else new_size in
          (Some (ztake to_copy old ++ zdrop to_copy r), h')
      end
  end.

Definition OPENSSL_memdup (h : heap) (data : list Z) : option (list Z) * heap :=
  if zlen data =? 0 then (None, h)
  else match OPENSSL_malloc h (zlen data) with
       | (None, h') => (None, h')
       | (Some _, h') => (Some data, h')
       end.
End Alloc.

(** A block of memory as little-endian words of 8 bytes. *)
Definition cells (n : Z) (block : list Z) : list Z :=
  map (fun i => be_val (rev (zsub (8 * i) 8 block))) (seqZ 0 n).

(** * Comparison and hashing *)

(** [x |= a[i] ^ b[i]] over the common length. *)
Fixpoint CRYPTO_memcmp_loop (a b : list Z) (x : Z) : Z :=
  match a, b with
  | p :: a', q :: b' => CRYPTO_memcmp_loop a' b' (Z.lor x (Z.lxor p q))
  | _, _ => x
  end.

Definition CRYPTO_memcmp (a b : list Z) : Z := CRYPTO_memcmp_loop a b 0.

(** [memcmp] on two blocks of the same length: the sign is that of the first
    difference. *)
Fixpoint OPENSSL_memcmp (a b : list Z) : Z :=
  match a, b with
  | p :: a', q :: b' => if p =? q then OPENSSL_memcmp a' b' else p - q
  | _, _ => 0
  end.

(** The index of the first byte equal to [c], where there is one. *)
Fixpoint OPENSSL_memchr (s : list Z) (c : Z) : option Z :=
  match s with
  | [] => None
  | b :: s' => if b =? c then Some 0 else
      match OPENSSL_memchr s' c with Some i => Some (1 + i) | None => None end
  end.

Definition OPENSSL_hash32 (data : list Z) : Z :=
  fold_left (fun h b => u32 (Z.lxor h b * 16777619)) data 2166136261.

(** * Strings *)

(** [s] is the memory [s] points to; the result is at most [len]. *)
Fixpoint OPENSSL_strnlen_loop (s : list Z) (len i : Z) : Z :=
  match s with
  | [] => len
  | b :: s' => if i <? len then if b =? 0 then i else OPENSSL_strnlen_loop s' len (i + 1)
               else len
  end.

Definition OPENSSL_strnlen (s : list Z) (len : Z) : Z := OPENSSL_strnlen_loop s len 0.

Definition OPENSSL_tolower (c : Z) : Z :=
  if (65 <=? c) && (c <=? 90) then c + (97 - 65) else c.

(** [a] and [b] are NUL-terminated: past the end a string reads as NUL. *)
Fixpoint OPENSSL_strcasecmp (a b : list Z) : Z :=
  let aa := OPENSSL_tolower (hd 0 a) in
  let bb := OPENSSL_tolower (hd 0 b) in
  if aa <? bb then -1 else if bb <? aa then 1 else if aa =? 0 then 0
  else match a with
       | [] => 0
       | _ :: a' => OPENSSL_strcasecmp a' (tail b)
       end.

Fixpoint OPENSSL_strncasecmp (a b : list Z) (n : nat) : Z :=
  match n with
  | O => 0
  | S n' =>
      let aa := OPENSSL_tolower (hd 0 a) in
      let bb := OPENSSL_tolower (hd 0 b) in
      if aa <? bb then -1 else if bb <? aa then 1 else if aa =? 0 then 0
      else OPENSSL_strncasecmp (tail a) (tail b) n'
  end.

(** The destination is the [dst_size] bytes at [dst] and whatever follows them;
    the result is the returned length and the memory at [dst] afterwards. *)
Fixpoint OPENSSL_strlcpy (dst src : list Z) (dst_size : Z) : Z * list Z :=
  match src with
  | c :: src' =>
      if 1 <? dst_size then
        let '(l, d) := OPENSSL_strlcpy (tail dst) src' (dst_size - 1) in (1 + l, c :: d)
      else (zlen src, if dst_size =? 0 then dst else 0 :: tail dst)
  | [] => (zlen src, if dst_size =? 0 then dst else 0 :: tail dst)
  end.

(** Skip the bytes of the string already in [dst], as far as [dst_size] allows. *)
Fixpoint OPENSSL_strlcat (dst src : list Z) (dst_size : Z) : Z * list Z :=
  match dst with
  | b :: dst' =>
      if (0 <? dst_size) && negb (b =? 0) then
        let '(l, d) := OPENSSL_strlcat dst' src (dst_size - 1) in (1 + l, b :: d)
      else OPENSSL_strlcpy dst src dst_size
  | [] => OPENSSL_strlcpy dst src dst_size
  end.

Definition OPENSSL_strndup `{Malloc} (h : heap) (str : list Z) (size : Z)
  : option (list Z) * heap :=
  let size := OPENSSL_strnlen str size in
  let alloc_size := u64 (size + 1) in
  if alloc_size <? size then (None, h)
  else match OPENSSL_malloc h alloc_size with
       | (None, h') => (None, h')
       | (Some _, h') => (Some (ztake size str ++ [0]), h')
       end.

Definition OPENSSL_strdup `{Malloc} (h : heap) (s : list Z) : option (list Z) * heap :=
  match OPENSSL_malloc h (zlen s + 1) with
  | (None, h') => (None, h')
  | (Some _, h') => (Some (s ++ [0]), h')
  end.

(** * Byte order *)

Definition CRYPTO_bswap2 (x : Z) : Z := u16 (Z.lor (Z.shiftr x 8) (Z.shiftl x 8)).

Definition CRYPTO_bswap4 (x : Z) : Z :=
  let x := Z.lor (Z.shiftr x 16) (u32 (Z.shiftl x 16)) in
  Z.lor (Z.shiftr (Z.land x 4278255360) 8) (u32 (Z.shiftl (Z.land x 16711935) 8)).

Definition CRYPTO_bswap8 (x : Z) : Z :=
  Z.lor (CRYPTO_bswap4 (Z.shiftr x 32)) (Z.shiftl (CRYPTO_bswap4 (u32 x)) 32).

(** * Lemmas *)

Section AllocLemmas.
Context `{Malloc}.

Lemma OPENSSL_malloc_Some h n r h' :
  0 <= n < 2 ^ 64 -> OPENSSL_malloc h n = (Some r, h') -> zlen r = n /\ bytes_ok r.
Proof.
  unfold OPENSSL_malloc, OPENSSL_MALLOC_PREFIX. intros Hn E.
  destruct (Z.ltb_spec (u64 (n + 8)) n) as [|Hlt]; [discriminate|].
  assert (Hs : u64 (n + 8) = n + 8) by (apply u64_overflow; lia).
  rewrite Hs in E. destruct (malloc h (n + 8)) as [[p|] h1] eqn:Em; [|discriminate].
  injection E as <- <-. 
  assert (Hl : zlen p = n + 8) by (eapply malloc_len; [|exact Em]; lia).
  split; [|apply bytes_ok_zdrop; eapply malloc_bytes; eauto].
  rewrite zlen_zdrop; lia.
Qed.

Lemma OPENSSL_malloc_grants lim h n :
  grants lim -> 0 <= n -> n + 8 <= lim -> lim < 2 ^ 64 ->
  exists r h', OPENSSL_malloc h n = (Some r, h') /\ zlen r = n.
Proof.
  intros G Hn Hlim Hb. unfold OPENSSL_malloc, OPENSSL_MALLOC_PREFIX.
  rewrite u64_small by lia. destruct (Z.ltb_spec (n + 8) n); [lia|].
  destruct (G h (n + 8)) as (l & h' & E); [lia|]. rewrite E.
  exists (zdrop 8 l), h'. split; [reflexivity|].
  apply malloc_len in E; [|lia]. rewrite zlen_zdrop; lia.
Qed.

Lemma OPENSSL_realloc_Some h old n r h' :
  0 <= n < 2 ^ 64 -> zlen old <= n -> OPENSSL_realloc h (Some old) n = (Some r, h') ->
  zlen r = n /\ ztake (zlen old) r = old.
Proof.
  unfold OPENSSL_realloc. intros Hn Ho E.
  destruct (OPENSSL_malloc h n) as [[b|] h1] eqn:Em; [|discriminate].
  apply OPENSSL_malloc_Some in Em as [Hb _]; [|lia].
  pose proof (zlen_nonneg old).
  destruct (Z.ltb_spec (zlen old) n); injection E as <- <-.
  - rewrite ztake_all, ztake_app, zlen_app, zlen_zdrop; lia || split; [lia|reflexivity].
  - assert (n = zlen old) as -> by lia.
    rewrite ztake_all, ztake_app, zlen_app, zlen_zdrop; lia || split; [lia|reflexivity].
Qed.

Lemma OPENSSL_realloc_grants lim h old n :
  grants lim -> 0 <= n -> n + 8 <= lim -> lim < 2 ^ 64 -> zlen old <= n ->
  exists r h', OPENSSL_realloc h (Some old) n = (Some r, h') /\
               zlen r = n /\ ztake (zlen old) r = old.
Proof.
  intros G Hn Hlim Hb Ho.
  destruct (OPENSSL_malloc_grants lim h n G Hn Hlim Hb) as (b & h' & E & _).
  destruct (OPENSSL_realloc h (Some old) n) as [[r|] h1] eqn:Er.
  - exists r, h1. split; [reflexivity|]. eapply OPENSSL_realloc_Some; eauto. lia.
  - exfalso. unfold OPENSSL_realloc in Er. rewrite E in Er. discriminate.
Qed.
End AllocLemmas.

Lemma zlen_cells n b : 0 <= n -> zlen (cells n b) = n.
Proof. intros Hn. unfold cells, zlen. rewrite length_map, length_seqZ. lia. Qed.

Lemma cells_words n b : bytes_ok b -> Forall (fun w => 0 <= w < 2 ^ 64) (cells n b).
Proof.
  intros Hb. unfold cells. apply List.Forall_map, Forall_forall. intros i _. cbn beta. set (w := rev _).
  assert (Hw : bytes_ok w).
  { unfold w, zsub. apply Forall_rev. apply bytes_ok_ztake, bytes_ok_zdrop, Hb. }
  assert (Hl : zlen w <= 8).
  { unfold w, zsub, ztake, zlen. rewrite length_rev, length_take. lia. }
  pose proof (be_val_bound w Hw) as Hv. assert (256 ^ zlen w <= 256 ^ 8) by (apply Z.pow_le_mono_r; lia).
  change (2 ^ 64) with (256 ^ 8). lia.
Qed.

Lemma unlimited_grants n : @grants unlimited n.
Proof. intros h m Hm. exists (zrep m 205), tt. reflexivity. Qed.


Lemma be_val_2 a b : be_val [a; b] = a * 256 + b.
Proof. unfold be_val. cbn [fold_left]. lia. Qed.

Lemma be_val_4 a b c d : be_val [a; b; c; d] = ((a * 256 + b) * 256 + c) * 256 + d.
Proof. unfold be_val. cbn [fold_left]. lia. Qed.

Lemma CRYPTO_bswap2_rev a b :
  byte_ok a -> byte_ok b -> CRYPTO_bswap2 (be_val [a; b]) = be_val [b; a].
Proof.
  unfold byte_ok. intros Ha Hb. unfold CRYPTO_bswap2. rewrite !be_val_2.
  rewrite Z.shiftr_div_pow2 by lia. change (2 ^ 8) with 256.
  replace ((a * 256 + b) / 256) with a by dlia.
  rewrite lor_shiftl_add by lia. unfold u16. change (2 ^ 8) with 256. dlia.
Qed.

Lemma land_odd_bytes a b c d :
  byte_ok a -> byte_ok b -> byte_ok c -> byte_ok d ->
  Z.land (be_val [a; b; c; d]) 16711935 = b * 65536 + d.
Proof.
  unfold byte_ok. intros Ha Hb Hc Hd. rewrite be_val_4.
  replace (((a * 256 + b) * 256 + c) * 256 + d)
    with ((a * 2 ^ 8 + b) * 2 ^ 16 + (c * 2 ^ 8 + d)) by lia.
  change 16711935 with ((0 * 2 ^ 8 + 255) * 2 ^ 16 + (0 * 2 ^ 8 + 255)).
  rewrite land_split by lia. rewrite !land_split by lia.
  rewrite !Z.land_0_r. change 255 with (2 ^ 8 - 1). rewrite !land_mask by lia.
  rewrite !Z.mod_small by lia. lia.
Qed.

Lemma CRYPTO_bswap4_rev a b c d :
  byte_ok a -> byte_ok b -> byte_ok c -> byte_ok d ->
  CRYPTO_bswap4 (be_val [a; b; c; d]) = be_val [d; c; b; a].
Proof.
  intros Ha Hb Hc Hd. unfold CRYPTO_bswap4.
  assert (E : Z.lor (Z.shiftr (be_val [a; b; c; d]) 16)
                (u32 (Z.shiftl (be_val [a; b; c; d]) 16)) = be_val [c; d; a; b]).
  { rewrite !be_val_4. unfold byte_ok in *.
    rewrite Z.shiftr_div_pow2, (Z.shiftl_mul_pow2 _ 16) by lia.
    replace ((((a * 256 + b) * 256 + c) * 256 + d) / 2 ^ 16) with (a * 256 + b) by dlia.
    replace (u32 ((((a * 256 + b) * 256 + c) * 256 + d) * 2 ^ 16))
      with (Z.shiftl (c * 256 + d) 16).
    - rewrite lor_shiftl_add by lia. lia.
    - rewrite Z.shiftl_mul_pow2 by lia. unfold u32.
      replace ((((a * 256 + b) * 256 + c) * 256 + d) * 2 ^ 16)
        with ((c * 256 + d) * 2 ^ 16 + (a * 256 + b) * 4294967296) by lia.
      rewrite Z.mod_add by lia. symmetry. apply Z.mod_small. lia. }
  rewrite E. clear E.
  rewrite Z.shiftr_land. change (Z.shiftr 4278255360 8) with 16711935.
  rewrite land_odd_bytes by assumption.
  replace (Z.shiftr (be_val [c; d; a; b]) 8) with (be_val [0; c; d; a]).
  - rewrite land_odd_bytes by (assumption || (unfold byte_ok; lia)).
    unfold byte_ok in *. rewrite Z.shiftl_mul_pow2, u32_small by lia.
    replace ((d * 65536 + b) * 2 ^ 8) with ((d * 2 ^ 8 + 0) * 2 ^ 16 + (b * 2 ^ 8 + 0)) by lia.
    replace (c * 65536 + a) with ((0 * 2 ^ 8 + c) * 2 ^ 16 + (0 * 2 ^ 8 + a)) by lia.
    rewrite lor_split by lia. rewrite !lor_split by lia.
    rewrite !Z.lor_0_l, !Z.lor_0_r, be_val_4. lia.
  - rewrite !be_val_4. unfold byte_ok in *. rewrite Z.shiftr_div_pow2 by lia. dlia.
Qed.

Lemma CRYPTO_bswap8_rev a b c d e f g h :
  bytes_ok [a; b; c; d; e; f; g; h] ->
  CRYPTO_bswap8 (be_val [a; b; c; d; e; f; g; h]) = be_val [h; g; f; e; d; c; b; a].
Proof.
  unfold bytes_ok. rewrite !List.Forall_cons_iff.
  intros (Ha & Hb & Hc & Hd & He & Hf & Hg & Hh & _). unfold CRYPTO_bswap8.
  change [a; b; c; d; e; f; g; h] with ([a; b; c; d] ++ [e; f; g; h]).
  change [h; g; f; e; d; c; b; a] with ([h; g; f; e] ++ [d; c; b; a]).
  rewrite !be_val_app. change (256 ^ zlen [e; f; g; h]) with (2 ^ 32).
  change (256 ^ zlen [d; c; b; a]) with (2 ^ 32).
  assert (R : forall p q r s, byte_ok p -> byte_ok q -> byte_ok r -> byte_ok s ->
              0 <= be_val [p; q; r; s] < 2 ^ 32).
  { intros. apply (be_val_bound [_; _; _; _]). rewrite !bytes_ok_cons.
    auto using bytes_ok_nil. }
  pose proof (R _ _ _ _ Ha Hb Hc Hd). pose proof (R _ _ _ _ He Hf Hg Hh).
  pose proof (R _ _ _ _ Hd Hc Hb Ha). pose proof (R _ _ _ _ Hh Hg Hf He).
  rewrite Z.shiftr_div_pow2 by lia.
  rewrite Z.div_add_l, Z.div_small, Z.add_0_r by lia.
  replace (u32 (be_val [a; b; c; d] * 2 ^ 32 + be_val [e; f; g; h]))
    with (be_val [e; f; g; h])
    by (unfold u32; rewrite Z.add_comm, Z.mod_add by lia; symmetry; apply Z.mod_small; lia).
  rewrite !CRYPTO_bswap4_rev by assumption. apply lor_shiftl_add; lia.
Qed.

(** * What the string and comparison functions compute *)

Lemma CRYPTO_memcmp_loop_0 a b x :
  bytes_ok a -> bytes_ok b -> length a = length b -> 0 <= x ->
  CRYPTO_memcmp_loop a b x = 0 <-> x = 0 /\ a = b.
Proof.
  revert b x. induction a as [|p a IH]; intros [|q b] x Ha Hb Hl Hx; try discriminate Hl.
  - cbn. tauto.
  - apply bytes_ok_cons in Ha as [Hp Ha]. apply bytes_ok_cons in Hb as [Hq Hb].
    unfold byte_ok in *. cbn [CRYPTO_memcmp_loop].
    rewrite IH; [|auto|auto|injection Hl as Hl; exact Hl|
      apply Z.lor_nonneg; split; [lia|apply Z.lxor_nonneg; lia]].
    rewrite Z.lor_eq_0_iff, Z.lxor_eq_0_iff. split.
    + intros [[-> ->] ->]. auto.
    + intros [-> E]. injection E as -> ->. auto.
Qed.

(** The whole contract of [strlcpy], on a destination that has [dst_size] bytes. *)
Lemma OPENSSL_strlcpy_spec dst src n :
  0 <= n <= zlen dst ->
  OPENSSL_strlcpy dst src n =
    (zlen src,
     if n =? 0 then dst
     else ztake (n - 1) src ++ [0] ++ zdrop (Z.min (zlen src) (n - 1) + 1) dst).
Proof.
  revert dst n. induction src as [|c src IH]; intros dst n Hn.
  - cbn. unfold ztake. rewrite take_nil. destruct (Z.eqb_spec n 0); [reflexivity|].
    unfold zlen in *. destruct dst as [|x dst]; cbn in *; [lia|].
    rewrite Z.min_l by lia. reflexivity.
  - cbn [OPENSSL_strlcpy]. destruct (Z.ltb_spec 1 n).
    + unfold zlen in Hn. destruct dst as [|x dst]; cbn [length] in Hn; [lia|]. cbn [tail].
      rewrite IH by (unfold zlen; lia). rewrite !zlen_cons. f_equal.
      destruct (Z.eqb_spec n 0); [lia|]. destruct (Z.eqb_spec (n - 1) 0); [lia|].
      unfold ztake, zdrop. replace (Z.to_nat (n - 1)) with (S (Z.to_nat (n - 1 - 1))) by lia.
      pose proof (zlen_nonneg src).
      replace (Z.to_nat (Z.min (1 + zlen src) (n - 1) + 1))
        with (S (Z.to_nat (Z.min (zlen src) (n - 1 - 1) + 1))) by lia.
      reflexivity.
    + f_equal. destruct (Z.eqb_spec n 0); [reflexivity|]. replace n with 1 by lia.
      unfold zlen in Hn. destruct dst as [|x dst]; cbn [length] in Hn; [lia|].
      pose proof (zlen_nonneg (c :: src)). rewrite Z.min_r by lia. reflexivity.
Qed.

Lemma OPENSSL_strlcat_spec s rest src n :
  Forall (fun b => b <> 0) s -> zlen s < n <= zlen s + 1 + zlen rest ->
  OPENSSL_strlcat (s ++ 0 :: rest) src n =
    (zlen s + zlen src,
     s ++ ztake (n - zlen s - 1) src ++ [0] ++
     zdrop (Z.min (zlen src) (n - zlen s - 1)) rest).
Proof.
  revert n. induction s as [|b s IH]; intros n Hs Hn.
  - cbn [app OPENSSL_strlcat]. cbn [negb Z.eqb]. rewrite andb_false_r.
    unfold zlen at 1 in Hn. unfold zlen at 1 in Hn. cbn [length] in Hn.
    rewrite OPENSSL_strlcpy_spec by (rewrite zlen_cons; lia).
    destruct (Z.eqb_spec n 0); [lia|]. unfold zlen at 3 4 5. cbn [length].
    rewrite !Z.sub_0_r. f_equal. cbn [app].
    unfold zdrop. pose proof (zlen_nonneg src).
    rewrite Z2Nat.inj_add, Nat.add_comm by lia. reflexivity.
  - apply List.Forall_cons_iff in Hs as [Hb Hs]. rewrite zlen_cons in *.
    cbn [app OPENSSL_strlcat]. pose proof (zlen_nonneg s).
    destruct (Z.ltb_spec 0 n); [|lia]. destruct (Z.eqb_spec b 0); [lia|]. cbn [andb negb].
    rewrite IH by (auto; lia).
    replace (n - 1 - zlen s - 1) with (n - (1 + zlen s) - 1) by lia.
    f_equal. lia.
Qed.
