(* ===== verification/Sort.v ===== *)
(** The C library's [qsort], which is not part of the repository, as an interface.

    It returns a permutation of the array, in order when the comparison function
    is a total preorder on the elements of the array.  Which of two equal elements
    comes first is left open, and so is the order for any other function. *)
From Stdlib Require Import ZArith Lia Sorted.
From stdpp Require Import base list numbers sorting.
From S2P Require Import Prelude.

Open Scope Z_scope.

(** The comparison function puts the elements of [l] in an order. *)
Definition orders {A} (compar : A -> A -> Z) (l : list A) : Prop :=
  (forall x y, In x l -> In y l -> compar x y <= 0 \/ compar y x <= 0) /\
  (forall x y z, In x l -> In y l -> In z l ->
     compar x y <= 0 -> compar y z <= 0 -> compar x z <= 0).

Definition in_order {A} (compar : A -> A -> Z) : list A -> Prop :=
  StronglySorted (fun x y => compar x y <= 0).

Class Qsort := {
  qsort : forall {A}, list A -> (A -> A -> Z) -> list A;
  qsort_permutation : forall A (l : list A) compar, Permutation l (qsort l compar);
  qsort_sorted : forall A (l : list A) compar, orders compar l -> in_order compar (qsort l compar)
}.

(** * One such sort: insertion *)

Section Insertion.
Context {A : Type} (compar : A -> A -> Z).

Fixpoint insert (x : A) (l : list A) : list A :=
  match l with
  | [] => [x]
  | y :: l' => if compar x y <=? 0 then x :: l else y :: insert x l'
  end.

Lemma insert_permutation x l : Permutation (x :: l) (insert x l).
Proof.
  induction l as [|y l IH]; cbn [insert]; [reflexivity|].
  destruct (compar x y <=? 0); [reflexivity|]. rewrite Permutation_swap. constructor. exact IH.
Qed.

Lemma insert_sorted x l :
  orders compar (x :: l) -> in_order compar l -> in_order compar (insert x l).
Proof.
  intros Ho H. induction H as [|y l Hl IH Hy]; cbn [insert]; [repeat constructor|].
  destruct Ho as [Ht Htr]. destruct (Z.leb_spec (compar x y) 0) as [Hle|Hgt].
  - constructor; [constructor; assumption|]. constructor; [assumption|].
    rewrite List.Forall_forall in *. intros z Hz. apply (Htr x y z); cbn [In]; auto.
  - constructor; [apply IH; split; intros; [apply Ht|eapply (Htr x0 y0)]; cbn [In] in *; tauto|].
    rewrite <- (insert_permutation x l). constructor; [|exact Hy].
    destruct (Ht x y); cbn [In]; auto. lia.
Qed.
End Insertion.

#[export, refine] Instance insertion_sort : Qsort :=
  {| qsort := fun A l compar => fold_right (insert compar) [] l |}.
Proof.
  - intros A l compar. induction l as [|x l IH]; cbn [fold_right]; [reflexivity|].
    rewrite <- insert_permutation. constructor. exact IH.
  - intros A l compar. assert (Hp : forall k, Permutation k (fold_right (insert compar) [] k)).
    { induction k as [|x k IH]; cbn [fold_right]; [reflexivity|].
      rewrite <- insert_permutation. constructor. exact IH. }
    induction l as [|x l IH]; intros [Ht Htr]; cbn [fold_right]; [constructor|].
    assert (Hin : forall z, In z (x :: fold_right (insert compar) [] l) -> In z (x :: l)).
    { intros z [<-|Hz]; cbn [In]; [auto|]. right. apply (Permutation_in _ (Permutation_sym (Hp l)) Hz). }
    apply insert_sorted.
    + split; [intros; apply Ht; auto|intros x0 y0 z0 Hx Hy Hz; apply Htr; auto].
    + apply IH. split; [intros x0 y0 ? ?; apply Ht; right; assumption|].
      intros x0 y0 z0 ? ? ?; apply Htr; right; assumption.
Defined.
