(* ===== verification/Der.v ===== *)
(** The Distinguished Encoding Rules, as a specification: what the byte string
    library is meant to read and to write (ITU-T X.690, sections 8.1 and 10.1).

    [base128] is the encoding of high tag numbers and of OID components,
    [der_tag] and [der_length] the two halves of a header, [der] an element and
    [der_int] the contents of an INTEGER.  A tag is the 32-bit value of
    bytestring.h: class and constructed bits on top, the number below. *)
From Stdlib Require Import ZArith Lia.
From stdpp Require Import base list numbers.
From S2P Require Import Prelude.

Open Scope Z_scope.

(** * Base-128 integers *)

(** The groups of seven bits of [v], each with the continuation bit, and none
    for zero; [n] groups are enough below [128^n]. *)
Fixpoint base128_hi (n : nat) (v : Z) : list Z :=
  match n with
  | O => []
  | S n => if v =? 0 then [] else base128_hi n (v / 128) ++ [128 + v mod 128]
  end.

(** A 64-bit value has at most nine groups above the last one. *)
Definition base128 (v : Z) : list Z := base128_hi 9 (v / 128) ++ [v mod 128].

(** * Headers and elements *)

Definition der_tag (tag : Z) : list Z :=
  let bits := tag / 2 ^ 29 * 32 in
  let number := tag mod 2 ^ 29 in
  if number <? 31 then [bits + number] else (bits + 31) :: base128 number.

Definition der_length (n : Z) : list Z :=
  if n <? 128 then [n]
  else if n <? 256 then 129 :: be_bytes 1 n
  else if n <? 65536 then 130 :: be_bytes 2 n
  else if n <? 16777216 then 131 :: be_bytes 3 n
  else 132 :: be_bytes 4 n.

Definition der_header (tag n : Z) : list Z := der_tag tag ++ der_length n.

Definition der (tag : Z) (body : list Z) : list Z := der_header tag (zlen body) ++ body.

Definition tag_ok (tag : Z) : Prop := 0 <= tag < 2 ^ 32.

(** * Integers *)

(** The shortest two's-complement length of [v], up to nine bytes. *)
Fixpoint int_len_from (fuel n : nat) (v : Z) : nat :=
  match fuel with
  | O => n
  | S fuel =>
      if (- 2 ^ (8 * Z.of_nat n - 1) <=? v) && (v <? 2 ^ (8 * Z.of_nat n - 1))
      then n else int_len_from fuel (S n) v
  end.

Definition int_len (v : Z) : nat := int_len_from 8 1 v.

Definition der_int (v : Z) : list Z := be_bytes (int_len v) v.

(** The value of a two's-complement byte string. *)
Definition int_val (l : list Z) : Z :=
  if be_val l <? 2 ^ (8 * zlen l - 1) then be_val l else be_val l - 2 ^ (8 * zlen l).

(** [v] fits a two's-complement string of [n] bytes. *)
Definition fits (n v : Z) : Prop := - 2 ^ (8 * n - 1) <= v < 2 ^ (8 * n - 1).

(** * Lemmas *)

Lemma base128_hi_0 n : base128_hi n 0 = [].
Proof. destruct n; reflexivity. Qed.

Lemma base128_hi_S n v :
  0 <= v < 128 ^ Z.of_nat n -> base128_hi (S n) v = base128_hi n v.
Proof.
  revert v. induction n as [|n IH]; intros v Hv.
  - change (128 ^ Z.of_nat 0) with 1 in Hv. replace v with 0 by lia. reflexivity.
  - rewrite Nat2Z.inj_succ, Z.pow_succ_r in Hv by lia.
    change (base128_hi (S (S n)) v) with
      (if v =? 0 then [] else base128_hi (S n) (v / 128) ++ [128 + v mod 128]).
    cbn [base128_hi] in IH |- *. rewrite IH by dlia. reflexivity.
Qed.

(** One more group, as the parser meets it. *)
Lemma base128_hi_snoc v b :
  0 <= v < 2 ^ 57 -> 0 <= b < 128 -> v * 128 + b <> 0 ->
  base128_hi 9 v ++ [128 + b] = base128_hi 10 (v * 128 + b).
Proof.
  intros Hv Hb Hn. change (base128_hi 10 (v * 128 + b)) with
    (if v * 128 + b =? 0 then []
     else base128_hi 9 ((v * 128 + b) / 128) ++ [128 + (v * 128 + b) mod 128]).
  destruct (Z.eqb_spec (v * 128 + b) 0); [lia|].
  replace ((v * 128 + b) / 128) with v by dlia.
  replace ((v * 128 + b) mod 128) with b by dlia. reflexivity.
Qed.

Lemma base128_hi_bytes n v : bytes_ok (base128_hi n v).
Proof.
  revert v. induction n; intros v; cbn; [constructor|].
  destruct (v =? 0); [constructor|]. apply bytes_ok_app. split; [auto|].
  apply bytes_ok_cons. split; [unfold byte_ok; dlia|constructor].
Qed.

Lemma base128_bytes v : bytes_ok (base128 v).
Proof.
  apply bytes_ok_app. split; [apply base128_hi_bytes|].
  apply bytes_ok_cons. split; [unfold byte_ok; dlia|constructor].
Qed.

Lemma base128_hi_len n v : zlen (base128_hi n v) <= Z.of_nat n.
Proof.
  revert v. induction n; intros v; cbn [base128_hi]; [reflexivity|].
  destruct (v =? 0); [unfold zlen; cbn [length]; lia|].
  autorewrite with zlen. specialize (IHn (v / 128)). lia.
Qed.

Lemma base128_len v : 1 <= zlen (base128 v) <= 10.
Proof.
  unfold base128. autorewrite with zlen.
  pose proof (base128_hi_len 9 (v / 128)). pose proof (zlen_nonneg (base128_hi 9 (v / 128))).
  lia.
Qed.

Lemma der_tag_bytes tag : tag_ok tag -> bytes_ok (der_tag tag).
Proof.
  unfold tag_ok, der_tag. intros H. destruct (Z.ltb_spec (tag mod 2 ^ 29) 31);
    apply bytes_ok_cons; (split; [unfold byte_ok; dlia|]); auto using base128_bytes, bytes_ok_nil.
Qed.

Lemma der_length_bytes n : 0 <= n < 2 ^ 32 -> bytes_ok (der_length n).
Proof.
  unfold der_length. intros H. destruct (Z.ltb_spec n 128).
  { apply bytes_ok_cons. split; [unfold byte_ok; lia|constructor]. }
  repeat case_match; apply bytes_ok_cons; (split; [unfold byte_ok; lia|auto with bytes]).
Qed.

Lemma der_tag_len tag : 1 <= zlen (der_tag tag) <= 11.
Proof.
  unfold der_tag. pose proof (base128_len (tag mod 2 ^ 29)).
  destruct (_ <? _); autorewrite with zlen; lia.
Qed.

Lemma der_length_len n : 1 <= zlen (der_length n) <= 5.
Proof.
  unfold der_length.
  repeat case_match; rewrite ?zlen_cons, ?zlen_be_bytes; autorewrite with zlen; lia.
Qed.

Lemma der_header_len tag n : 2 <= zlen (der_header tag n) <= 16.
Proof.
  unfold der_header. rewrite zlen_app.
  pose proof (der_tag_len tag). pose proof (der_length_len n). lia.
Qed.

Lemma zlen_der tag body : zlen (der tag body) = zlen (der_header tag (zlen body)) + zlen body.
Proof. apply zlen_app. Qed.

Lemma der_bytes tag body :
  tag_ok tag -> zlen body < 2 ^ 32 -> bytes_ok body -> bytes_ok (der tag body).
Proof.
  intros. pose proof (zlen_nonneg body). unfold der, der_header. rewrite !bytes_ok_app.
  auto using der_tag_bytes, der_length_bytes.
Qed.

(** * Two's complement *)

Lemma pow256 n : 0 <= n -> 256 ^ n = 2 ^ (8 * n).
Proof. intros. change 256 with (2 ^ 8). rewrite <- Z.pow_mul_r by lia. reflexivity. Qed.

Lemma pow2_8 n : 1 <= n -> 2 ^ (8 * n) = 2 * 2 ^ (8 * n - 1).
Proof. intros. rewrite <- Z.pow_succ_r by lia. f_equal. lia. Qed.

Lemma int_val_fits l : bytes_ok l -> l <> [] -> fits (zlen l) (int_val l).
Proof.
  intros Hb Hn. pose proof (be_val_bound l Hb) as Hv. unfold int_val, fits.
  assert (1 <= zlen l).
  { destruct l; [congruence|]. rewrite zlen_cons. pose proof (zlen_nonneg l). lia. }
  rewrite pow256 in Hv by lia. rewrite pow2_8 in Hv by lia.
  rewrite (pow2_8 (zlen l)) by lia.
  destruct (Z.ltb_spec (be_val l) (2 ^ (8 * zlen l - 1))); lia.
Qed.

Lemma int_val_mod l : bytes_ok l -> int_val l mod 256 ^ zlen l = be_val l.
Proof.
  intros Hb. pose proof (be_val_bound l Hb) as Hv. pose proof (zlen_nonneg l).
  unfold int_val. rewrite <- pow256 by lia. destruct (be_val l <? _).
  - apply Z.mod_small. lia.
  - rewrite <- (Z.mod_add _ 1) by lia. rewrite Z.mul_1_l, Z.sub_add. apply Z.mod_small. lia.
Qed.

Lemma fits_mono n m v : 1 <= n <= m -> fits n v -> fits m v.
Proof.
  unfold fits. intros Hn Hv.
  assert (2 ^ (8 * n - 1) <= 2 ^ (8 * m - 1)) by (apply Z.pow_le_mono_r; lia). lia.
Qed.

Lemma int_len_from_spec fuel n v :
  (1 <= n)%nat -> fits (Z.of_nat (fuel + n)) v ->
  let k := int_len_from fuel n v in
  (n <= k <= fuel + n)%nat /\ fits (Z.of_nat k) v /\
  (forall m, n <= m < k -> ~ fits (Z.of_nat m) v)%nat.
Proof.
  revert n. induction fuel as [|fuel IH]; intros n Hn Hf; cbn [int_len_from].
  - repeat split; try lia; apply Hf.
  - destruct ((- 2 ^ (8 * Z.of_nat n - 1) <=? v) && (v <? 2 ^ (8 * Z.of_nat n - 1))) eqn:E.
    + apply andb_true_iff in E as [E1 E2]. repeat split; unfold fits; lia.
    + destruct (IH (S n)) as (H1 & H2 & H3); [lia| |].
      { replace (fuel + S n)%nat with (S fuel + n)%nat by lia. exact Hf. }
      split; [lia|]. split; [exact H2|]. intros m Hm.
      destruct (decide (m = n)) as [->|]; [|apply H3; lia].
      intros Hc. unfold fits in Hc. lia.
Qed.

(** The shortest length, for the values of nine bytes. *)
Lemma int_len_spec v :
  fits 9 v -> (1 <= int_len v <= 9)%nat /\ fits (Z.of_nat (int_len v)) v /\
  (forall m, 1 <= m < int_len v -> ~ fits (Z.of_nat m) v)%nat.
Proof. intros H. apply (int_len_from_spec 8 1 v); [lia|exact H]. Qed.

Lemma int_len_unique v n :
  (1 <= n <= 9)%nat -> fits (Z.of_nat n) v ->
  (n = 1%nat \/ ~ fits (Z.of_nat n - 1) v) -> int_len v = n.
Proof.
  intros Hn Hf Hm. destruct (int_len_spec v) as (H1 & H2 & H3).
  { apply fits_mono with (Z.of_nat n); [lia|exact Hf]. }
  assert (~ (n < int_len v)%nat) by (intros ?; apply (H3 n); [lia|exact Hf]).
  assert (~ (int_len v < n)%nat); [|lia].
  intros ?. destruct Hm as [->|Hm]; [lia|]. apply Hm.
  apply fits_mono with (Z.of_nat (int_len v)); [lia|exact H2].
Qed.

Lemma der_int_len v : fits 9 v -> 1 <= zlen (der_int v) <= 9.
Proof.
  intros H. unfold der_int. rewrite zlen_be_bytes. apply int_len_spec in H as [H _]. lia.
Qed.

Lemma der_int_bytes v : bytes_ok (der_int v).
Proof. apply be_bytes_ok. Qed.

(** The bytes of a value that fits read back as the value. *)
Lemma int_val_be_bytes n v :
  (1 <= n)%nat -> fits (Z.of_nat n) v -> int_val (be_bytes n v) = v.
Proof.
  unfold fits, int_val. intros Hn Hv. rewrite zlen_be_bytes, be_val_bytes, pow256 by lia.
  rewrite pow2_8 by lia. set (P := 2 ^ (8 * Z.of_nat n - 1)) in *.
  destruct (Z.ltb_spec v 0).
  - assert (E : v mod (2 * P) = v + 2 * P)
      by (symmetry; apply Z.mod_unique with (-1); lia).
    rewrite E. destruct (Z.ltb_spec (v + 2 * P) P); lia.
  - rewrite Z.mod_small by lia. destruct (Z.ltb_spec v P); lia.
Qed.

Lemma int_val_der_int v : fits 9 v -> int_val (der_int v) = v.
Proof. intros H. apply int_len_spec in H as (? & ? & _). apply int_val_be_bytes; [lia|auto]. Qed.

(** A string that is not longer than its value needs is [der_int]. *)
Lemma der_int_minimal l :
  bytes_ok l -> l <> [] -> zlen l <= 9 -> (zlen l = 1 \/ ~ fits (zlen l - 1) (int_val l)) ->
  der_int (int_val l) = l.
Proof.
  intros Hb Hn Hl Hm. pose proof (int_val_fits l Hb Hn) as Hf. unfold der_int.
  assert (Hlen : int_len (int_val l) = length l).
  { apply int_len_unique; [|exact Hf|unfold zlen in *; destruct Hm; [left; lia|right; auto]].
    unfold zlen in *. destruct l; [congruence|]. cbn [length] in *. lia. }
  rewrite Hlen. rewrite <- (be_bytes_val l Hb) at 3. rewrite <- (int_val_mod l Hb).
  unfold zlen. generalize (int_val l) (length l). clear. intros v n. revert v.
  induction n as [|n IH]; intros v; [reflexivity|]. cbn [be_bytes].
  rewrite Nat2Z.inj_succ, Z.pow_succ_r by lia. rewrite Z.rem_mul_r by lia.
  rewrite (Z.mul_comm 256), Z.div_add, Z.mod_add by lia.
  rewrite (Z.div_small (v mod 256)), Z.add_0_l, Z.mod_mod by dlia.
  rewrite <- IH. reflexivity.
Qed.

(** Comparing a scaled value with a multiple of the scale. *)
Lemma scaled_lt x y r p : 0 <= r < p -> x * p + r < y * p <-> x < y.
Proof. intros. nia. Qed.

#[export] Hint Resolve base128_bytes der_tag_bytes der_length_bytes der_int_bytes : bytes.
