(* ===== verification/Cbs.v ===== *)
(** crypto/bytestring/cbs.c: reading from a byte string.

    A [CBS] is the bytes it spans: the pointer and the length of the C struct
    are the list and its length.  A function that advances a [CBS *cbs] is a
    computation of the state-and-failure monad on that list, so the state a
    failing call leaves behind is modelled as well; a [const CBS *] argument is
    a plain argument.  What a function stores through its out-pointers is its
    result; out-pointers are not read on failure. *)
From Stdlib Require Import ZArith Lia.
From stdpp Require Import base list numbers.
From S2P Require Import Prelude.
From S2P Require Import Mem.
From S2P Require Import Der.

Open Scope Z_scope.
Open Scope c_scope.

Abbreviation CBS := (list Z) (only parsing).

(** * Tags (bytestring.h) *)

Definition CBS_ASN1_TAG_SHIFT : Z := 24.
Definition CBS_ASN1_CONSTRUCTED : Z := Z.shiftl 32 CBS_ASN1_TAG_SHIFT.
Definition CBS_ASN1_TAG_NUMBER_MASK : Z := Z.shiftl 1 (5 + CBS_ASN1_TAG_SHIFT) - 1.
Definition CBS_ASN1_BOOLEAN : Z := 1.
Definition CBS_ASN1_INTEGER : Z := 2.
Definition CBS_ASN1_OCTETSTRING : Z := 4.

(** * Bytes and integers *)

Definition CBS_len (cbs : CBS) : Z := zlen cbs.

Definition cbs_get (n : Z) : M CBS (list Z) := fun cbs =>
  if CBS_len cbs <? n then (None, cbs)
  else (Some (ztake n cbs), zdrop n cbs).

Definition CBS_skip (len : Z) : M CBS unit :=
  let* _ := cbs_get len in ret tt.

Definition CBS_stow `{Malloc} (cbs : CBS) (h : heap) : option (list Z) * heap :=
  if CBS_len cbs =? 0 then (Some [], h)
  else OPENSSL_memdup h cbs.

Definition CBS_strdup `{Malloc} (cbs : CBS) (h : heap) : option (list Z) * heap :=
  OPENSSL_strndup h cbs (CBS_len cbs).

Definition CBS_contains_zero_byte (cbs : CBS) : bool :=
  match OPENSSL_memchr cbs 0 with Some _ => true | None => false end.

Definition CBS_mem_equal (cbs data : list Z) : bool :=
  if negb (zlen data =? CBS_len cbs) then false
  else CRYPTO_memcmp cbs data =? 0.

Definition cbs_get_u (len : Z) : M CBS Z :=
  let* data := cbs_get len in
  ret (fold_left (fun result b => Z.lor (u64 (Z.shiftl result 8)) b) data 0).

Definition CBS_get_u8 : M CBS Z :=
  let* v := cbs_get 1 in ret (znth 0 0 v).

Definition CBS_get_u16 : M CBS Z :=
  let* v := cbs_get_u 2 in ret (u16 v).

Definition CBS_get_u16le : M CBS Z :=
  let* v := CBS_get_u16 in ret (CRYPTO_bswap2 v).

Definition CBS_get_u24 : M CBS Z :=
  let* v := cbs_get_u 3 in ret (u32 v).

Definition CBS_get_u32 : M CBS Z :=
  let* v := cbs_get_u 4 in ret (u32 v).

Definition CBS_get_u32le : M CBS Z :=
  let* v := CBS_get_u32 in ret (CRYPTO_bswap4 v).

Definition CBS_get_u64 : M CBS Z := cbs_get_u 8.

Definition CBS_get_u64le : M CBS Z :=
  let* v := cbs_get_u 8 in ret (CRYPTO_bswap8 v).

Definition CBS_get_last_u8 : M CBS Z := fun cbs =>
  if CBS_len cbs =? 0 then (None, cbs)
  else (Some (znth 0 (CBS_len cbs - 1) cbs), ztake (CBS_len cbs - 1) cbs).

Definition CBS_get_bytes (len : Z) : M CBS CBS :=
  let* v := cbs_get len in ret v.

Definition CBS_copy_bytes (len : Z) : M CBS (list Z) :=
  let* v := cbs_get len in ret v.

Definition cbs_get_length_prefixed (len_len : Z) : M CBS CBS :=
  let* len := cbs_get_u len_len in CBS_get_bytes len.

Definition CBS_get_u8_length_prefixed : M CBS CBS := cbs_get_length_prefixed 1.
Definition CBS_get_u16_length_prefixed : M CBS CBS := cbs_get_length_prefixed 2.
Definition CBS_get_u24_length_prefixed : M CBS CBS := cbs_get_length_prefixed 3.

Definition CBS_get_until_first (c : Z) : M CBS CBS := fun cbs =>
  match OPENSSL_memchr cbs c with
  | None => (None, cbs)
  | Some split => CBS_get_bytes split cbs
  end.

(** * ASN.1 elements *)

(** The do-while loop, by recursion on the bytes that are left; each round
    starts with [CBS_get_u8]. *)
Fixpoint parse_base128_loop (cbs : CBS) (v : Z) : option Z * CBS :=
  match cbs with
  | [] => (None, [])
  | b :: cbs' =>
      if negb (Z.shiftr v (64 - 7) =? 0) then (None, cbs')
      else if (v =? 0) && (b =? 128) then (None, cbs')
      else
        let v := Z.lor (u64 (Z.shiftl v 7)) (Z.land b 127) in
        if negb (Z.land b 128 =? 0) then parse_base128_loop cbs' v
        else (Some v, cbs')
  end.

Definition parse_base128_integer : M CBS Z := fun cbs => parse_base128_loop cbs 0.

Definition parse_asn1_tag : M CBS Z :=
  let* tag_byte := CBS_get_u8 in
  let tag := u32 (Z.shiftl (Z.land tag_byte 224) CBS_ASN1_TAG_SHIFT) in
  let tag_number := Z.land tag_byte 31 in
  if tag_number =? 31 then
    let* v := parse_base128_integer in
    check (negb (CBS_ASN1_TAG_NUMBER_MASK <? v)) in
    check (negb (v <? 31)) in
    ret (Z.lor tag (u32 v))
  else ret (Z.lor tag tag_number).

(** What an element's header tells: the element, its tag, the header's length
    and whether the length was encoded as only BER allows. *)
Record element := {
  el_out : list Z;
  el_tag : Z;
  el_header_len : Z;
  el_ber_found : bool
}.

Definition cbs_get_any_asn1_element (ber_ok : bool) : M CBS element := fun cbs =>
  match parse_asn1_tag cbs with
  | (None, _) => (None, cbs)
  | (Some tag, header) =>
  match CBS_get_u8 header with
  | (None, _) => (None, cbs)
  | (Some length_byte, header) =>
    let header_len := CBS_len cbs - CBS_len header in
    if Z.land length_byte 128 =? 0 then
      let len := length_byte + header_len in
      (let* out := CBS_get_bytes len in
       ret {| el_out := out; el_tag := tag; el_header_len := header_len;
              el_ber_found := false |}) cbs
    else
      let num_bytes := Z.land length_byte 127 in
      if ber_ok && negb (Z.land tag CBS_ASN1_CONSTRUCTED =? 0) && (num_bytes =? 0) then
        (let* out := CBS_get_bytes header_len in
         ret {| el_out := out; el_tag := tag; el_header_len := header_len;
                el_ber_found := true |}) cbs
      else if (num_bytes =? 0) || (4 <? num_bytes) then (None, cbs)
      else match cbs_get_u num_bytes header with
      | (None, _) => (None, cbs)
      | (Some len64, _) =>
        let short := len64 <? 128 in
        let padded := Z.shiftr len64 ((num_bytes - 1) * 8) =? 0 in
        if (short || padded) && negb ber_ok then (None, cbs)
        else
          let len := len64 in
          if u64 (len + header_len + num_bytes) <? len then (None, cbs)
          else
            let len := u64 (len + (header_len + num_bytes)) in
            (let* out := CBS_get_bytes len in
             ret {| el_out := out; el_tag := tag;
                    el_header_len := header_len + num_bytes;
                    el_ber_found := short || padded |}) cbs
      end
  end
  end.

Definition CBS_get_any_asn1_element : M CBS element := cbs_get_any_asn1_element false.

Definition CBS_get_any_ber_asn1_element : M CBS element := cbs_get_any_asn1_element true.

(** Run a computation on another byte string than the one being read; a
    failure there makes the caller fail too. *)
Definition on {A} (m : M CBS A) (other : CBS) : M CBS A := fun cbs =>
  (fst (m other), cbs).

(** The same, keeping what is left of the other byte string. *)
Definition on_rest {A} (m : M CBS A) (other : CBS) : M CBS (A * CBS) := fun cbs =>
  match m other with
  | (Some a, rest) => (Some (a, rest), cbs)
  | (None, _) => (None, cbs)
  end.

Definition CBS_get_any_asn1 : M CBS (CBS * Z) :=
  let* e := CBS_get_any_asn1_element in
  let* '(_, out) := on_rest (CBS_skip (el_header_len e)) (el_out e) in
  ret (out, el_tag e).

Definition cbs_get_asn1 (tag_value : Z) (skip_header : bool) : M CBS CBS :=
  let* e := CBS_get_any_asn1_element in
  check (el_tag e =? tag_value) in
  if skip_header then
    let* '(_, out) := on_rest (CBS_skip (el_header_len e)) (el_out e) in
    ret out
  else ret (el_out e).

Definition CBS_get_asn1 (tag_value : Z) : M CBS CBS := cbs_get_asn1 tag_value true.

Definition CBS_get_asn1_element (tag_value : Z) : M CBS CBS := cbs_get_asn1 tag_value false.

Definition CBS_peek_asn1_tag (cbs : CBS) (tag_value : Z) : bool :=
  if CBS_len cbs <? 1 then false
  else match parse_asn1_tag cbs with
       | (Some actual_tag, _) => tag_value =? actual_tag
       | (None, _) => false
       end.

(** * Primitive types *)

(** The result also tells whether the integer is negative. *)
Definition CBS_is_valid_asn1_integer (cbs : CBS) : option bool :=
  match CBS_get_u8 cbs with
  | (None, _) => None
  | (Some first_byte, copy) =>
    let is_negative := negb (Z.land first_byte 128 =? 0) in
    match CBS_get_u8 copy with
    | (None, _) => Some is_negative
    | (Some second_byte, _) =>
      if ((first_byte =? 0) && (Z.land second_byte 128 =? 0)) ||
         ((first_byte =? 255) && negb (Z.land second_byte 128 =? 0))
      then None else Some is_negative
    end
  end.

Definition CBS_is_unsigned_asn1_integer (cbs : CBS) : bool :=
  match CBS_is_valid_asn1_integer cbs with
  | Some is_negative => negb is_negative
  | None => false
  end.

Fixpoint asn1_uint64_loop (data : list Z) (out : Z) : option Z :=
  match data with
  | [] => Some out
  | b :: data' =>
      if negb (Z.shiftr out 56 =? 0) then None
      else asn1_uint64_loop data' (Z.lor (u64 (Z.shiftl out 8)) b)
  end.

Definition of_option {S A} (o : option A) : M S A :=
  match o with Some a => ret a | None => fail end.

Definition CBS_get_asn1_uint64 : M CBS Z :=
  let* bytes := CBS_get_asn1 CBS_ASN1_INTEGER in
  check (CBS_is_unsigned_asn1_integer bytes) in
  of_option (asn1_uint64_loop bytes 0).

(** The union of an [int64_t] and its eight bytes, on a little-endian machine:
    [memset] fills it with the sign, the loop stores the bytes in reverse. *)
Definition CBS_get_asn1_int64 : M CBS Z :=
  let* bytes := CBS_get_asn1 CBS_ASN1_INTEGER in
  let* is_negative := of_option (CBS_is_valid_asn1_integer bytes) in
  let len := CBS_len bytes in
  check (negb (8 <? len)) in
  let u_bytes := rev bytes ++ zrep (8 - len) (if is_negative : bool then 255 else 0) in
  ret (s64 (be_val (rev u_bytes))).

Definition CBS_get_asn1_bool : M CBS bool :=
  let* bytes := CBS_get_asn1 CBS_ASN1_BOOLEAN in
  check (CBS_len bytes =? 1) in
  let value := znth 0 0 bytes in
  check (negb (negb (value =? 0) && negb (value =? 255))) in
  ret (negb (value =? 0)).

Definition CBS_get_optional_asn1 (tag : Z) : M CBS (option CBS) := fun cbs =>
  if CBS_peek_asn1_tag cbs tag then
    (let* out := CBS_get_asn1 tag in ret (Some out)) cbs
  else (Some None, cbs).

(** The result is the string, empty when absent, and whether it was present. *)
Definition CBS_get_optional_asn1_octet_string (tag : Z) : M CBS (CBS * bool) :=
  let* child := CBS_get_optional_asn1 tag in
  match child with
  | Some child =>
      let* '(out, rest) := on_rest (CBS_get_asn1 CBS_ASN1_OCTETSTRING) child in
      check (CBS_len rest =? 0) in
      ret (out, true)
  | None => ret ([], false)
  end.

Definition CBS_get_optional_asn1_uint64 (tag default_value : Z) : M CBS Z :=
  let* child := CBS_get_optional_asn1 tag in
  match child with
  | Some child =>
      let* '(out, rest) := on_rest CBS_get_asn1_uint64 child in
      check (CBS_len rest =? 0) in
      ret out
  | None => ret default_value
  end.

Definition CBS_get_optional_asn1_bool (tag default_value : Z) : M CBS Z :=
  let* child := CBS_get_optional_asn1 tag in
  match child with
  | Some child =>
      let* '(child2, rest) := on_rest (CBS_get_asn1 CBS_ASN1_BOOLEAN) child in
      check (CBS_len child2 =? 1) in
      check (CBS_len rest =? 0) in
      let boolean := znth 0 0 child2 in
      if boolean =? 0 then ret 0
      else if boolean =? 255 then ret 1
      else fail
  | None => ret default_value
  end.

Definition CBS_is_valid_asn1_bitstring (cbs : CBS) : bool :=
  match CBS_get_u8 cbs with
  | (None, _) => false
  | (Some num_unused_bits, rest) =>
    if 7 <? num_unused_bits then false
    else if num_unused_bits =? 0 then true
    else match CBS_get_last_u8 rest with
         | (None, _) => false
         | (Some last, _) => Z.land last (Z.shiftl 1 num_unused_bits - 1) =? 0
         end
  end.

Definition CBS_asn1_bitstring_has_bit (cbs : CBS) (bit : Z) : bool :=
  if negb (CBS_is_valid_asn1_bitstring cbs) then false
  else
    let byte_num := Z.shiftr bit 3 + 1 in
    let bit_num := 7 - Z.land bit 7 in
    (byte_num <? CBS_len cbs) &&
    negb (Z.land (znth 0 byte_num cbs) (Z.shiftl 1 bit_num) =? 0).

(** * Reading bytes and integers *)

Lemma cbs_get_app l rest : cbs_get (zlen l) (l ++ rest) = (Some l, rest).
Proof.
  unfold cbs_get, CBS_len. rewrite zlen_app. pose proof (zlen_nonneg rest).
  destruct (Z.ltb_spec (zlen l + zlen rest) (zlen l)); [lia|].
  rewrite ztake_app, zdrop_app. reflexivity.
Qed.

Lemma cbs_get_app_eq n l rest : n = zlen l -> cbs_get n (l ++ rest) = (Some l, rest).
Proof. intros ->. apply cbs_get_app. Qed.

Lemma cbs_get_inv n cbs l rest :
  0 <= n -> cbs_get n cbs = (Some l, rest) -> cbs = l ++ rest /\ zlen l = n.
Proof.
  unfold cbs_get, CBS_len. intros Hn E. destruct (Z.ltb_spec (zlen cbs) n); [discriminate|].
  injection E as <- <-. split; [symmetry; apply ztake_zdrop | apply zlen_ztake; lia].
Qed.

Lemma cbs_get_short n cbs : zlen cbs < n -> cbs_get n cbs = (None, cbs).
Proof. unfold cbs_get, CBS_len. intros. destruct (Z.ltb_spec (zlen cbs) n); [reflexivity|lia]. Qed.

Lemma CBS_get_u8_cons b cbs : CBS_get_u8 (b :: cbs) = (Some b, cbs).
Proof.
  unfold CBS_get_u8. change (b :: cbs) with ([b] ++ cbs).
  erewrite bind_Some by apply (cbs_get_app [b]). reflexivity.
Qed.

Lemma CBS_get_u8_nil : CBS_get_u8 [] = (None, []).
Proof. reflexivity. Qed.

Lemma CBS_get_u8_inv cbs b rest : CBS_get_u8 cbs = (Some b, rest) -> cbs = b :: rest.
Proof.
  destruct cbs as [|c cbs]; [discriminate|]. rewrite CBS_get_u8_cons.
  intros E. injection E as -> ->. reflexivity.
Qed.

(** The shift-and-or loop computes the big-endian value, within eight bytes. *)
Lemma get_u_fold data :
  bytes_ok data -> zlen data <= 8 ->
  fold_left (fun result b => Z.lor (u64 (Z.shiftl result 8)) b) data 0 = be_val data.
Proof.
  induction data as [|b data IH] using rev_ind; intros Hb Hl; [reflexivity|].
  apply bytes_ok_app in Hb as [Hd Hb]. apply bytes_ok_cons in Hb as [Hb _].
  autorewrite with zlen in Hl. rewrite fold_left_app, IH, be_val_snoc by (auto; lia).
  cbn [fold_left]. pose proof (be_val_bound data Hd). unfold byte_ok in Hb.
  assert (256 ^ zlen data <= 256 ^ 7) by (apply Z.pow_le_mono_r; lia).
  rewrite u64_small by (rewrite Z.shiftl_mul_pow2; lia).
  rewrite shiftl_lor_add by lia. lia.
Qed.

Lemma cbs_get_u_app l rest :
  bytes_ok l -> zlen l <= 8 -> cbs_get_u (zlen l) (l ++ rest) = (Some (be_val l), rest).
Proof.
  intros Hb Hl. unfold cbs_get_u. erewrite bind_Some by apply cbs_get_app.
  unfold ret. rewrite get_u_fold by assumption. reflexivity.
Qed.

Lemma cbs_get_u_app_eq n l rest :
  bytes_ok l -> n = zlen l -> zlen l <= 8 ->
  cbs_get_u n (l ++ rest) = (Some (be_val l), rest).
Proof. intros Hb -> Hl. apply cbs_get_u_app; assumption. Qed.

Lemma cbs_get_u_inv n cbs v rest :
  bytes_ok cbs -> 0 <= n <= 8 -> cbs_get_u n cbs = (Some v, rest) ->
  exists l, cbs = l ++ rest /\ zlen l = n /\ bytes_ok l /\ v = be_val l /\ bytes_ok rest.
Proof.
  unfold cbs_get_u. intros Hb Hn E. run_inv. apply cbs_get_inv in E0 as [-> Hl]; [|lia].
  apply bytes_ok_app in Hb as [Hl1 Hr]. exists v0. rewrite get_u_fold by (assumption || lia).
  auto.
Qed.

(** The loop's inlined read, with [CBS_get_u8]. *)
Lemma parse_base128_loop_unfold cbs v :
  parse_base128_loop cbs v =
  (let* b := CBS_get_u8 in
   check (Z.shiftr v (64 - 7) =? 0) in
   check (negb ((v =? 0) && (b =? 128))) in
   let v := Z.lor (u64 (Z.shiftl v 7)) (Z.land b 127) in
   if negb (Z.land b 128 =? 0) then fun cbs => parse_base128_loop cbs v
   else ret v) cbs.
Proof.
  destruct cbs as [|b cbs]; [reflexivity|].
  erewrite bind_Some by apply CBS_get_u8_cons. cbn [parse_base128_loop].
  destruct (Z.shiftr v (64 - 7) =? 0); cbn [negb]; [|reflexivity].
  rewrite guard_true by reflexivity. destruct ((v =? 0) && (b =? 128)); [reflexivity|].
  rewrite guard_true by reflexivity. destruct (negb _); reflexivity.
Qed.

(** * Base-128 integers *)

(** One round of the loop, in arithmetic. *)
Lemma base128_step v b cbs :
  0 <= v -> byte_ok b ->
  parse_base128_loop (b :: cbs) v =
    if (v <? 2 ^ 57) && negb ((v =? 0) && (b =? 128)) then
      if b <? 128 then (Some (v * 128 + b), cbs)
      else parse_base128_loop cbs (v * 128 + (b - 128))
    else (None, cbs).
Proof.
  intros Hv Hb. cbn [parse_base128_loop].
  replace (Z.shiftr v (64 - 7) =? 0) with (v <? 2 ^ 57).
  2: { rewrite Z.shiftr_div_pow2 by lia. change (2 ^ (64 - 7)) with (2 ^ 57).
       destruct (Z.ltb_spec v (2 ^ 57)), (Z.eqb_spec (v / 2 ^ 57) 0); auto; dlia. }
  destruct (Z.ltb_spec v (2 ^ 57)); cbn [negb andb]; [|reflexivity].
  destruct ((v =? 0) && (b =? 128)) eqn:Ez; cbn [negb]; [reflexivity|].
  rewrite u64_small by (rewrite Z.shiftl_mul_pow2; lia).
  change 127 with (2 ^ 7 - 1). rewrite land_mask by lia.
  rewrite shiftl_lor_add by (lia || dlia).
  replace (Z.land b 128 =? 0) with (b <? 128).
  2: { apply eqb_true_iff. apply (byte_cases (fun b => eqb (b <? 128) (Z.land b 128 =? 0)));
       [vm_compute; reflexivity | exact Hb]. }
  unfold byte_ok in Hb. destruct (Z.ltb_spec b 128); cbn [negb].
  - rewrite (Z.mod_small b) by lia. reflexivity.
  - replace (b mod 2 ^ 7) with (b - 128) by dlia. reflexivity.
Qed.

Lemma parse_base128_hi n v rest :
  0 <= v < 128 ^ Z.of_nat n -> v < 2 ^ 57 ->
  parse_base128_loop (base128_hi n v ++ rest) 0 = parse_base128_loop rest v.
Proof.
  revert v rest. induction n as [|n IH]; intros v rest Hv Hs.
  - change (128 ^ Z.of_nat 0) with 1 in Hv. replace v with 0 by lia. reflexivity.
  - rewrite Nat2Z.inj_succ, Z.pow_succ_r in Hv by lia. cbn [base128_hi].
    destruct (Z.eqb_spec v 0) as [->|Hn]; [reflexivity|].
    rewrite <- app_assoc, IH by dlia. cbn [app].
    rewrite base128_step by (unfold byte_ok; dlia).
    destruct (Z.ltb_spec (v / 128) (2 ^ 57)); [|dlia].
    destruct (Z.ltb_spec (128 + v mod 128) 128); [dlia|].
    replace (negb ((v / 128 =? 0) && (128 + v mod 128 =? 128))) with true.
    + cbn [andb]. f_equal. dlia.
    + destruct (Z.eqb_spec (v / 128) 0), (Z.eqb_spec (128 + v mod 128) 128); auto; dlia.
Qed.

Lemma parse_base128_complete v rest :
  0 <= v < 2 ^ 64 -> parse_base128_integer (base128 v ++ rest) = (Some v, rest).
Proof.
  intros Hv. unfold parse_base128_integer, base128. rewrite <- app_assoc.
  rewrite parse_base128_hi by dlia. cbn [app].
  rewrite base128_step by (unfold byte_ok; dlia).
  destruct (Z.ltb_spec (v / 128) (2 ^ 57)); [|dlia].
  destruct (Z.ltb_spec (v mod 128) 128); [|dlia].
  replace (v mod 128 =? 128) with false by (symmetry; apply Z.eqb_neq; dlia).
  rewrite andb_false_r. cbn [negb andb]. do 2 f_equal. dlia.
Qed.

Lemma parse_base128_sound_aux cbs v0 v rest :
  bytes_ok cbs -> 0 <= v0 < 2 ^ 64 ->
  parse_base128_loop cbs v0 = (Some v, rest) ->
  exists pre, cbs = pre ++ rest /\ base128_hi 10 v0 ++ pre = base128 v /\ 0 <= v < 2 ^ 64.
Proof.
  revert v0. induction cbs as [|b cbs IH]; intros v0 Hb Hv E; [discriminate|].
  apply bytes_ok_cons in Hb as [Hb Hc]. rewrite base128_step in E by (assumption || lia).
  destruct (Z.ltb_spec v0 (2 ^ 57)); [|discriminate].
  destruct ((v0 =? 0) && (b =? 128)) eqn:Ez; [discriminate|]. cbn [andb negb] in E.
  unfold byte_ok in Hb. destruct (Z.ltb_spec b 128).
  - injection E as <- <-. exists [b]. split; [reflexivity|]. split; [|lia].
    unfold base128. replace ((v0 * 128 + b) / 128) with v0 by dlia.
    replace ((v0 * 128 + b) mod 128) with b by dlia.
    rewrite (base128_hi_S 9) by (change (128 ^ Z.of_nat 9) with (2 ^ 63); lia). reflexivity.
  - apply IH in E as (pre & -> & E & Hr); [|assumption|lia].
    exists (b :: pre). split; [reflexivity|]. split; [|assumption].
    rewrite <- E. change (b :: pre) with ([b] ++ pre). rewrite app_assoc. f_equal.
    assert (v0 * 128 + (b - 128) <> 0).
    { intros Hz. assert (v0 = 0) as -> by lia. assert (b = 128) as -> by lia. discriminate Ez. }
    rewrite (base128_hi_S 9) by (change (128 ^ Z.of_nat 9) with (2 ^ 63); lia).
    rewrite <- base128_hi_snoc by lia. do 2 f_equal. lia.
Qed.

Lemma parse_base128_sound cbs v rest :
  bytes_ok cbs -> parse_base128_integer cbs = (Some v, rest) ->
  cbs = base128 v ++ rest /\ 0 <= v < 2 ^ 64.
Proof.
  intros Hb E. apply parse_base128_sound_aux in E as (pre & -> & <- & Hv); [|assumption|lia].
  auto.
Qed.

(** * Tags *)

Lemma land_byte_224 b : byte_ok b -> Z.land b 224 = b / 32 * 32.
Proof. apply (byte_eq (fun b => Z.land b 224) (fun b => b / 32 * 32)). vm_compute. reflexivity. Qed.

Lemma land_byte_31 b : Z.land b 31 = b mod 32.
Proof. apply (land_mask 5). lia. Qed.

Lemma land_byte_128 b : byte_ok b -> (Z.land b 128 =? 0) = (b <? 128).
Proof.
  intros Hb. apply eqb_true_iff.
  apply (byte_cases (fun b => eqb (Z.land b 128 =? 0) (b <? 128))); [|exact Hb].
  vm_compute. reflexivity.
Qed.

(** [parse_asn1_tag] in arithmetic. *)
Lemma parse_asn1_tag_cons b rest :
  byte_ok b ->
  parse_asn1_tag (b :: rest) =
    if b mod 32 =? 31 then
      match parse_base128_integer rest with
      | (Some v, r) => if (v <? 2 ^ 29) && (31 <=? v) then (Some (b / 32 * 2 ^ 29 + v), r)
                       else (None, r)
      | (None, r) => (None, r)
      end
    else (Some (b / 32 * 2 ^ 29 + b mod 32), rest).
Proof.
  intros Hb. unfold parse_asn1_tag. erewrite bind_Some by apply CBS_get_u8_cons.
  cbv zeta. rewrite land_byte_224, land_byte_31 by assumption.
  unfold byte_ok in Hb. unfold CBS_ASN1_TAG_SHIFT. rewrite Z.shiftl_mul_pow2 by lia.
  rewrite u32_small by dlia. replace (b / 32 * 32 * 2 ^ 24) with (b / 32 * 2 ^ 29) by lia.
  assert (Hm : b / 32 * 2 ^ 29 mod 2 ^ 29 = 0) by (apply Z.mod_mul; lia).
  destruct (b mod 32 =? 31).
  - destruct (parse_base128_integer rest) as [[v|] r] eqn:E;
      [erewrite bind_Some by exact E | erewrite bind_None by exact E; reflexivity].
    change CBS_ASN1_TAG_NUMBER_MASK with (2 ^ 29 - 1).
    destruct (Z.ltb_spec v (2 ^ 29)), (Z.ltb_spec (2 ^ 29 - 1) v); try lia; cbn [negb andb];
      [rewrite guard_true by reflexivity | reflexivity].
    destruct (Z.ltb_spec v 31), (Z.leb_spec 31 v); try lia; cbn [negb];
      [reflexivity | rewrite guard_true by reflexivity].
    unfold ret. rewrite u32_small by lia. rewrite (lor_disjoint 29) by lia. reflexivity.
  - unfold ret. rewrite (lor_disjoint 29) by (lia || dlia). reflexivity.
Qed.

Lemma parse_asn1_tag_complete tag rest :
  tag_ok tag -> parse_asn1_tag (der_tag tag ++ rest) = (Some tag, rest).
Proof.
  unfold tag_ok, der_tag. intros Ht. cbv zeta.
  destruct (Z.ltb_spec (tag mod 2 ^ 29) 31); cbn [app].
  - rewrite parse_asn1_tag_cons by (unfold byte_ok; dlia).
    replace ((tag / 2 ^ 29 * 32 + tag mod 2 ^ 29) mod 32) with (tag mod 2 ^ 29) by dlia.
    destruct (Z.eqb_spec (tag mod 2 ^ 29) 31); [lia|].
    replace ((tag / 2 ^ 29 * 32 + tag mod 2 ^ 29) / 32) with (tag / 2 ^ 29) by dlia.
    do 2 f_equal. dlia.
  - rewrite parse_asn1_tag_cons by (unfold byte_ok; dlia).
    replace ((tag / 2 ^ 29 * 32 + 31) mod 32) with 31 by dlia.
    replace ((tag / 2 ^ 29 * 32 + 31) / 32) with (tag / 2 ^ 29) by dlia.
    cbn [Z.eqb Pos.eqb]. rewrite parse_base128_complete by dlia.
    destruct (Z.ltb_spec (tag mod 2 ^ 29) (2 ^ 29)), (Z.leb_spec 31 (tag mod 2 ^ 29));
      [|lia|dlia|lia].
    cbn [andb]. do 2 f_equal. dlia.
Qed.

Lemma parse_asn1_tag_sound cbs tag rest :
  bytes_ok cbs -> parse_asn1_tag cbs = (Some tag, rest) ->
  cbs = der_tag tag ++ rest /\ tag_ok tag.
Proof.
  intros Hb E. destruct cbs as [|b cbs]; [discriminate|].
  apply bytes_ok_cons in Hb as [Hb Hc]. rewrite parse_asn1_tag_cons in E by assumption.
  unfold byte_ok in Hb. unfold der_tag, tag_ok. cbv zeta.
  destruct (Z.eqb_spec (b mod 32) 31).
  - destruct (parse_base128_integer cbs) as [[v|] r] eqn:Ep; [|discriminate].
    apply parse_base128_sound in Ep as [-> _]; [|assumption].
    destruct (Z.ltb_spec v (2 ^ 29)), (Z.leb_spec 31 v); try discriminate.
    cbn [andb] in E. injection E as <- <-.
    replace ((b / 32 * 2 ^ 29 + v) / 2 ^ 29) with (b / 32) by dlia.
    replace ((b / 32 * 2 ^ 29 + v) mod 2 ^ 29) with v by dlia.
    destruct (Z.ltb_spec v 31); [lia|]. split; [|dlia]. cbn [app]. f_equal. dlia.
  - injection E as <- <-.
    replace ((b / 32 * 2 ^ 29 + b mod 32) / 2 ^ 29) with (b / 32) by dlia.
    replace ((b / 32 * 2 ^ 29 + b mod 32) mod 2 ^ 29) with (b mod 32) by dlia.
    destruct (Z.ltb_spec (b mod 32) 31); [|dlia]. split; [|dlia]. cbn [app]. f_equal. dlia.
Qed.

(** * Elements *)

Definition take_element (cbs : CBS) (len : Z) (f : list Z -> element)
  : option element * CBS :=
  if zlen cbs <? len then (None, cbs) else (Some (f (ztake len cbs)), zdrop len cbs).

Definition constructed (tag : Z) : bool := negb (Z.land tag CBS_ASN1_CONSTRUCTED =? 0).

(** The parser after the tag, in arithmetic. *)
Definition element_of (ber_ok : bool) (tag b : Z) (h : list Z) : option element * CBS :=
  let cbs := der_tag tag ++ b :: h in
  let hl := zlen (der_tag tag) + 1 in
  if b <? 128 then take_element cbs (hl + b) (fun out => Build_element out tag hl false)
  else
    let k := b - 128 in
    if ber_ok && constructed tag && (k =? 0) then
      take_element cbs hl (fun out => Build_element out tag hl true)
    else if (k =? 0) || (4 <? k) then (None, cbs)
    else if zlen h <? k then (None, cbs)
    else
      let n := be_val (ztake k h) in
      let nonmin := (n <? 128) || (n <? 256 ^ (k - 1)) in
      if nonmin && negb ber_ok then (None, cbs)
      else take_element cbs (hl + k + n) (fun out => Build_element out tag (hl + k) nonmin).

Lemma take_element_run cbs len f :
  (let* out := CBS_get_bytes len in ret (f out)) cbs = take_element cbs len f.
Proof.
  unfold CBS_get_bytes, cbs_get, take_element, CBS_len, bind, ret.
  destruct (zlen cbs <? len); reflexivity.
Qed.

Lemma element_eq ber_ok tag b h :
  tag_ok tag -> byte_ok b -> bytes_ok h ->
  cbs_get_any_asn1_element ber_ok (der_tag tag ++ b :: h) = element_of ber_ok tag b h.
Proof.
  intros Ht Hb Hh. unfold cbs_get_any_asn1_element, element_of.
  rewrite parse_asn1_tag_complete by assumption. rewrite CBS_get_u8_cons.
  unfold CBS_len. set (cbs := der_tag tag ++ b :: h).
  replace (zlen cbs - zlen h) with (zlen (der_tag tag) + 1)
    by (unfold cbs; autorewrite with zlen; lia).
  cbv zeta. rewrite land_byte_128 by assumption. pose proof (der_tag_len tag) as Hl.
  unfold byte_ok in Hb. destruct (Z.ltb_spec b 128).
  { rewrite (take_element_run cbs _ (fun out => Build_element out tag _ false)).
    f_equal. lia. }
  replace (Z.land b 127) with (b - 128)
    by (change 127 with (2 ^ 7 - 1); rewrite land_mask by lia; dlia).
  fold (constructed tag). destruct (ber_ok && constructed tag && (b - 128 =? 0)).
  { apply (take_element_run cbs _ (fun out => Build_element out tag _ true)). }
  destruct ((b - 128 =? 0) || (4 <? b - 128)) eqn:Ek; [reflexivity|].
  apply orb_false_iff in Ek as [Ek1 Ek2]. apply Z.eqb_neq in Ek1. apply Z.ltb_ge in Ek2.
  destruct (Z.ltb_spec (zlen h) (b - 128)).
  { unfold cbs_get_u. erewrite bind_None by (apply cbs_get_short; lia). reflexivity. }
  rewrite <- (ztake_zdrop (b - 128) h) at 1.
  rewrite cbs_get_u_app_eq; [|auto with bytes|rewrite zlen_ztake; lia|rewrite zlen_ztake; lia].
  set (n := be_val (ztake (b - 128) h)).
  assert (Hn : 0 <= n < 256 ^ (b - 128)).
  { pose proof (be_val_bound (ztake (b - 128) h)) as Hv. rewrite zlen_ztake in Hv by lia.
    apply Hv. auto with bytes. }
  assert (256 ^ (b - 128) <= 2 ^ 32) by (apply (Z.pow_le_mono_r 256 _ 4); lia).
  replace (Z.shiftr n ((b - 128 - 1) * 8) =? 0) with (n <? 256 ^ (b - 128 - 1)).
  2: { rewrite Z.shiftr_div_pow2 by lia. rewrite Z.mul_comm, Z.pow_mul_r by lia.
       change (2 ^ 8) with 256. assert (0 < 256 ^ (b - 128 - 1)) by lia.
       destruct (Z.ltb_spec n (256 ^ (b - 128 - 1)));
         [rewrite Z.div_small by lia; reflexivity|].
       symmetry. apply Z.eqb_neq. intros Hz. apply Z.div_small_iff in Hz; lia. }
  destruct (((n <? 128) || (n <? 256 ^ (b - 128 - 1))) && negb ber_ok); [reflexivity|].
  rewrite !u64_small by lia.
  destruct (Z.ltb_spec (n + (zlen (der_tag tag) + 1) + (b - 128)) n); [lia|].
  rewrite (take_element_run cbs _ (fun out => Build_element out tag _ _)). f_equal. lia.
Qed.

(** Every success of the parser, whatever the input, is one of [element_of]. *)
Lemma element_inv ber_ok cbs e rest :
  bytes_ok cbs -> cbs_get_any_asn1_element ber_ok cbs = (Some e, rest) ->
  exists tag b h, cbs = der_tag tag ++ b :: h /\ tag_ok tag /\ byte_ok b /\ bytes_ok h /\
                  element_of ber_ok tag b h = (Some e, rest).
Proof.
  intros Hb E. destruct (parse_asn1_tag cbs) as [[tag|] header] eqn:Et;
    [|unfold cbs_get_any_asn1_element in E; rewrite Et in E; discriminate].
  pose proof (parse_asn1_tag_sound _ _ _ Hb Et) as [-> Ht].
  destruct header as [|b h].
  { unfold cbs_get_any_asn1_element in E. rewrite Et in E. discriminate. }
  apply bytes_ok_app in Hb as [_ Hb]. apply bytes_ok_cons in Hb as [Hb Hh].
  rewrite element_eq in E by assumption. eauto 10.
Qed.

(** The element the parser reports for [der tag body]. *)
Definition der_element (tag : Z) (body : list Z) : element :=
  {| el_out := der tag body; el_tag := tag;
     el_header_len := zlen (der_header tag (zlen body)); el_ber_found := false |}.

Lemma take_element_app l rest n f :
  n = zlen l -> take_element (l ++ rest) n f = (Some (f l), rest).
Proof.
  intros ->. unfold take_element. rewrite zlen_app. pose proof (zlen_nonneg rest).
  destruct (Z.ltb_spec (zlen l + zlen rest) (zlen l)); [lia|].
  rewrite ztake_app, zdrop_app. reflexivity.
Qed.

Lemma take_element_inv cbs n f e rest :
  0 <= n -> take_element cbs n f = (Some e, rest) ->
  exists l, cbs = l ++ rest /\ zlen l = n /\ e = f l.
Proof.
  unfold take_element. intros Hn E. destruct (Z.ltb_spec (zlen cbs) n); [discriminate|].
  injection E as <- <-. exists (ztake n cbs). rewrite ztake_zdrop, zlen_ztake by lia. auto.
Qed.

(** The minimal length octets, as [element_of] reads them. *)
Lemma der_length_cases n :
  0 <= n < 2 ^ 32 ->
  (n < 128 /\ der_length n = [n]) \/
  (exists k, 1 <= k <= 4 /\ 128 <= n /\ 256 ^ (k - 1) <= n < 256 ^ k /\
             der_length n = (128 + k) :: be_bytes (Z.to_nat k) n).
Proof.
  intros Hn. unfold der_length. destruct (Z.ltb_spec n 128); [left; auto|right].
  destruct (Z.ltb_spec n 256); [exists 1|destruct (Z.ltb_spec n 65536);
    [exists 2|destruct (Z.ltb_spec n 16777216); [exists 3|exists 4]]];
    repeat split; lia || reflexivity.
Qed.

Lemma der_length_long n k :
  1 <= k <= 4 -> 128 <= n -> 256 ^ (k - 1) <= n < 256 ^ k ->
  der_length n = (128 + k) :: be_bytes (Z.to_nat k) n.
Proof.
  intros Hk H128 Hn.
  assert (n < 2 ^ 32).
  { assert (256 ^ k <= 256 ^ 4) by (apply Z.pow_le_mono_r; lia). lia. }
  destruct (der_length_cases n) as [[? _]|(k' & Hk' & _ & Hn' & ->)]; [lia|lia|].
  assert (k = k') as ->; [|reflexivity].
  assert (~ k < k') by (intros ?; assert (256 ^ k <= 256 ^ (k' - 1)) by
    (apply Z.pow_le_mono_r; lia); lia).
  assert (~ k' < k) by (intros ?; assert (256 ^ k' <= 256 ^ (k - 1)) by
    (apply Z.pow_le_mono_r; lia); lia).
  lia.
Qed.

Lemma der_header_len_short tag n :
  0 <= n < 128 -> zlen (der_header tag n) = zlen (der_tag tag) + 1.
Proof.
  intros Hn. unfold der_header, der_length. destruct (Z.ltb_spec n 128); [|lia].
  autorewrite with zlen. lia.
Qed.

(** DER elements are accepted, with or without BER being allowed. *)
Lemma element_complete ber_ok tag body rest :
  tag_ok tag -> bytes_ok body -> bytes_ok rest -> zlen body < 2 ^ 32 ->
  cbs_get_any_asn1_element ber_ok (der tag body ++ rest) =
    (Some (der_element tag body), rest).
Proof.
  intros Ht Hb Hr Hl. pose proof (zlen_nonneg body) as H0.
  unfold der_element, der, der_header.
  destruct (der_length_cases (zlen body)) as [[Hs E]|(k & Hk & H128 & Hn & E)];
    [lia|rewrite E; rewrite <- !app_assoc; cbn [app]..].
  - rewrite element_eq by (assumption || (unfold byte_ok; lia) ||
      (apply bytes_ok_app; auto)).
    unfold element_of. destruct (Z.ltb_spec (zlen body) 128); [|lia].
    replace (der_tag tag ++ zlen body :: body ++ rest)
      with ((der_tag tag ++ zlen body :: body) ++ rest) by (rewrite <- app_assoc; reflexivity).
    rewrite take_element_app by (autorewrite with zlen; lia).
    autorewrite with zlen. rewrite Z.add_0_r. reflexivity.
  - rewrite element_eq.
    2: assumption.
    2: unfold byte_ok; lia.
    2: rewrite !bytes_ok_app; auto with bytes.
    unfold element_of. destruct (Z.ltb_spec (128 + k) 128); [lia|].
    replace (128 + k - 128) with k by lia. destruct (Z.eqb_spec k 0); [lia|].
    destruct (Z.ltb_spec 4 k); [lia|]. cbn [orb]. rewrite andb_false_r.
    rewrite zlen_app, zlen_be_bytes. pose proof (zlen_nonneg (body ++ rest)).
    destruct (Z.ltb_spec (Z.of_nat (Z.to_nat k) + zlen (body ++ rest)) k); [lia|].
    rewrite ztake_app_eq by (rewrite zlen_be_bytes; lia).
    rewrite be_val_bytes. rewrite Z2Nat.id, Z.mod_small by lia.
    destruct (Z.ltb_spec (zlen body) 128); [lia|].
    destruct (Z.ltb_spec (zlen body) (256 ^ (k - 1))); [lia|]. cbn [orb andb].
    match goal with |- take_element ?c _ _ = _ => replace c with
      ((der_tag tag ++ (128 + k) :: be_bytes (Z.to_nat k) (zlen body) ++ body) ++ rest)
      by (rewrite <- !app_assoc; cbn [app]; rewrite <- app_assoc; reflexivity) end.
    rewrite take_element_app
      by (autorewrite with zlen; rewrite zlen_be_bytes; lia).
    autorewrite with zlen. rewrite zlen_be_bytes. do 3 f_equal. lia.
Qed.

Lemma take_element_prefix p h n len f e rest :
  0 <= n -> len = zlen p + n -> take_element (p ++ h) len f = (Some e, rest) ->
  exists body, h = body ++ rest /\ zlen body = n /\ e = f (p ++ body).
Proof.
  intros Hn -> E. unfold take_element in E. rewrite zlen_app in E.
  destruct (Z.ltb_spec (zlen p + zlen h) (zlen p + n)); [discriminate|].
  injection E as <- <-. exists (ztake n h).
  assert (Hd : zdrop (zlen p + n) (p ++ h) = zdrop n h).
  { pose proof (zlen_nonneg p).
    rewrite <- (zdrop_zdrop n (zlen p)) by lia. rewrite zdrop_app. reflexivity. }
  rewrite Hd, ztake_zdrop, zlen_ztake by lia. repeat split. f_equal.
  unfold ztake, zlen. rewrite Z2Nat.inj_add, Nat2Z.id by lia. apply take_app_add.
Qed.

(** A header with minimal long-form length octets [lb]. *)
Lemma der_long tag (lb body : list Z) :
  bytes_ok lb -> 1 <= zlen lb <= 4 -> zlen body = be_val lb -> 128 <= be_val lb ->
  256 ^ (zlen lb - 1) <= be_val lb ->
  der_header tag (zlen body) = der_tag tag ++ (128 + zlen lb) :: lb.
Proof.
  intros Hb Hk Hn H128 Hm. unfold der_header. rewrite Hn.
  pose proof (be_val_bound lb Hb).
  rewrite (der_length_long (be_val lb) (zlen lb)) by lia.
  do 2 f_equal. replace (Z.to_nat (zlen lb)) with (length lb) by (unfold zlen; lia).
  apply be_bytes_val, Hb.
Qed.

Lemma element_sound_short tag b h e rest :
  tag_ok tag -> 0 <= b < 128 -> bytes_ok h -> element_of false tag b h = (Some e, rest) ->
  exists body, h = body ++ rest /\ zlen body = b /\ e = der_element tag body /\
               der_tag tag ++ b :: h = der tag body ++ rest.
Proof.
  intros Ht Hb Hh E. unfold element_of in E. destruct (Z.ltb_spec b 128); [|lia].
  replace (der_tag tag ++ b :: h) with ((der_tag tag ++ [b]) ++ h) in E
    by (rewrite <- app_assoc; reflexivity).
  apply take_element_prefix with (n := b) in E as (body & -> & <- & ->);
    [|lia|autorewrite with zlen; lia].
  exists body. unfold der_element, der, der_header, der_length.
  destruct (Z.ltb_spec (zlen body) 128); [|lia].
  autorewrite with zlen. rewrite <- !app_assoc. cbn [app]. rewrite Z.add_0_r. auto.
Qed.

Lemma element_sound_long tag b h e rest :
  tag_ok tag -> 128 <= b < 256 -> bytes_ok h -> element_of false tag b h = (Some e, rest) ->
  exists body, zlen body < 2 ^ 32 /\ bytes_ok body /\ e = der_element tag body /\
               der_tag tag ++ b :: h = der tag body ++ rest.
Proof.
  intros Ht Hb Hh E. unfold element_of in E. destruct (Z.ltb_spec b 128); [lia|].
  cbn [andb negb] in E. destruct ((b - 128 =? 0) || (4 <? b - 128)) eqn:Ek; [discriminate|].
  apply orb_false_iff in Ek as [Ek1 Ek2]. apply Z.eqb_neq in Ek1. apply Z.ltb_ge in Ek2.
  destruct (Z.ltb_spec (zlen h) (b - 128)) as [|Hlh]; [discriminate|].
  rewrite <- (ztake_zdrop (b - 128) h) in Hh. apply bytes_ok_app in Hh as [Hlb Hr].
  pose proof (zlen_ztake (b - 128) h ltac:(lia)) as Hk.
  pose proof (ztake_zdrop (b - 128) h) as Hsplit.
  set (lb := ztake (b - 128) h) in *. set (r := zdrop (b - 128) h) in *.
  rewrite andb_true_r in E. destruct ((be_val lb <? 128) || _) eqn:Em; [discriminate|].
  apply orb_false_iff in Em as [Em1 Em2]. apply Z.ltb_ge in Em1, Em2.
  pose proof (be_val_bound lb Hlb) as Hn.
  replace (der_tag tag ++ b :: h) with ((der_tag tag ++ b :: lb) ++ r) in *
    by (rewrite <- Hsplit, <- app_assoc; reflexivity).
  apply take_element_prefix with (n := be_val lb) in E as (body & -> & Hl & ->);
    [|lia|autorewrite with zlen; lia].
  assert (256 ^ zlen lb <= 256 ^ 4) by (apply Z.pow_le_mono_r; lia).
  pose proof (der_long tag lb body Hlb ltac:(lia) Hl Em1 ltac:(rewrite Hk; lia)) as Hd.
  replace (128 + zlen lb) with b in Hd by lia.
  apply bytes_ok_app in Hr as [Hbody _]. exists body. unfold der_element, der. rewrite Hd.
  split; [lia|]. split; [exact Hbody|]. split; [|apply app_assoc].
  f_equal. autorewrite with zlen. lia.
Qed.

Lemma element_sound cbs e rest :
  bytes_ok cbs -> CBS_get_any_asn1_element cbs = (Some e, rest) ->
  exists body, cbs = der (el_tag e) body ++ rest /\ e = der_element (el_tag e) body /\
               tag_ok (el_tag e) /\ bytes_ok body /\ zlen body < 2 ^ 32.
Proof.
  intros Hb E. apply element_inv in E as (tag & b & h & -> & Ht & Hbb & Hh & E); [|assumption].
  unfold byte_ok in Hbb. destruct (Z.ltb_spec b 128).
  - apply element_sound_short in E as (body & -> & Hl & -> & ->); auto; [|lia].
    apply bytes_ok_app in Hh as [Hbody _]. exists body. repeat split; auto; apply Ht || lia.
  - apply element_sound_long in E as (body & Hl & Hbody & -> & ->); auto; [|lia].
    exists body. repeat split; auto; apply Ht.
Qed.

Lemma der_element_iff cbs e rest :
  bytes_ok cbs ->
  CBS_get_any_asn1_element cbs = (Some e, rest) <->
  exists body, cbs = der (el_tag e) body ++ rest /\ e = der_element (el_tag e) body /\
               tag_ok (el_tag e) /\ zlen body < 2 ^ 32.
Proof.
  intros Hb. split.
  - intros E. apply element_sound in E as (body & ? & ? & ? & ? & ?); eauto 10.
  - intros (body & E & -> & Ht & Hl). cbn [el_tag der_element] in *. subst cbs.
    apply bytes_ok_app in Hb as [Hd Hr]. apply bytes_ok_app in Hd as [_ Hbody].
    apply element_complete; assumption.
Qed.

(** * Elements of an expected tag *)

Lemma skip_header tag body cbs :
  on_rest (CBS_skip (el_header_len (der_element tag body))) (el_out (der_element tag body)) cbs
  = (Some (tt, body), cbs).
Proof.
  unfold on_rest, CBS_skip, der_element, der. cbn [el_header_len el_out].
  erewrite bind_Some by apply cbs_get_app. reflexivity.
Qed.

Lemma CBS_get_any_asn1_complete tag body rest :
  tag_ok tag -> bytes_ok body -> bytes_ok rest -> zlen body < 2 ^ 32 ->
  CBS_get_any_asn1 (der tag body ++ rest) = (Some (body, tag), rest).
Proof.
  intros. unfold CBS_get_any_asn1, CBS_get_any_asn1_element.
  erewrite bind_Some by (apply element_complete; assumption).
  erewrite bind_Some by apply skip_header. reflexivity.
Qed.

Lemma CBS_get_asn1_complete tag body rest :
  tag_ok tag -> bytes_ok body -> bytes_ok rest -> zlen body < 2 ^ 32 ->
  CBS_get_asn1 tag (der tag body ++ rest) = (Some body, rest).
Proof.
  intros. unfold CBS_get_asn1, cbs_get_asn1, CBS_get_any_asn1_element.
  erewrite bind_Some by (apply element_complete; assumption).
  rewrite guard_true by apply Z.eqb_refl.
  erewrite bind_Some by apply skip_header. reflexivity.
Qed.

Lemma CBS_get_asn1_sound tag cbs body rest :
  bytes_ok cbs -> CBS_get_asn1 tag cbs = (Some body, rest) ->
  cbs = der tag body ++ rest /\ tag_ok tag /\ bytes_ok body /\ zlen body < 2 ^ 32.
Proof.
  intros Hb E. unfold CBS_get_asn1, cbs_get_asn1 in E.
  apply bind_inv in E as (e & s & E0 & E). apply guard_inv in E as [E1 E].
  apply Z.eqb_eq in E1. apply element_sound in E0 as (b & -> & Hv & Ht & Hbb & Hl); [|assumption].
  rewrite Hv in E. erewrite bind_Some in E by apply skip_header. unfold ret in E.
  injection E as -> ->. rewrite E1 in *. auto.
Qed.

Lemma CBS_get_asn1_iff tag cbs body rest :
  bytes_ok cbs ->
  CBS_get_asn1 tag cbs = (Some body, rest) <->
  cbs = der tag body ++ rest /\ tag_ok tag /\ zlen body < 2 ^ 32.
Proof.
  intros Hb. split; [intros E; apply CBS_get_asn1_sound in E; tauto|].
  intros (-> & Ht & Hl). apply bytes_ok_app in Hb as [Hd Hr].
  apply bytes_ok_app in Hd as [_ Hbody]. apply CBS_get_asn1_complete; assumption.
Qed.

(** * Integers *)


Lemma scaled_ge x y r p : 0 <= r < p -> y * p <= x * p + r <-> y <= x.
Proof. intros. pose proof (scaled_lt x y r p). lia. Qed.

(** The value of a string of two bytes or more, and whether it fits one byte less. *)
Lemma int_val_two a b r :
  byte_ok a -> byte_ok b -> bytes_ok r ->
  fits (zlen (a :: b :: r) - 1) (int_val (a :: b :: r)) <->
  (a = 0 /\ b < 128) \/ (a = 255 /\ 128 <= b).
Proof.
  unfold byte_ok. intros Ha Hb Hr. pose proof (be_val_bound r Hr) as HR.
  unfold fits, int_val. rewrite !be_val_cons, !zlen_cons. pose proof (zlen_nonneg r).
  rewrite !(Z.pow_add_r 256) by lia. rewrite (pow256 (zlen r)) in * by lia.
  replace (2 ^ (8 * (1 + (1 + zlen r)) - 1)) with (32768 * 2 ^ (8 * zlen r))
    by (change 32768 with (2 ^ 15); rewrite <- Z.pow_add_r by lia; f_equal; lia).
  replace (2 ^ (8 * (1 + (1 + zlen r)))) with (65536 * 2 ^ (8 * zlen r))
    by (change 65536 with (2 ^ 16); rewrite <- Z.pow_add_r by lia; f_equal; lia).
  replace (2 ^ (8 * (1 + (1 + zlen r) - 1) - 1)) with (128 * 2 ^ (8 * zlen r))
    by (change 128 with (2 ^ 7); rewrite <- Z.pow_add_r by lia; f_equal; lia).
  change (256 ^ 1) with 256. set (p := 2 ^ (8 * zlen r)) in *. set (q := be_val r) in *.
  replace (a * (256 * p) + (b * p + q)) with ((a * 256 + b) * p + q) by lia.
  destruct (Z.ltb_spec ((a * 256 + b) * p + q) (32768 * p)) as [Hc|Hc].
  - apply scaled_lt in Hc; [|lia]. rewrite scaled_lt by lia. nia.
  - apply scaled_ge in Hc; [|lia].
    replace ((a * 256 + b) * p + q - 65536 * p) with ((a * 256 + b - 65536) * p + q) by lia.
    rewrite scaled_lt by lia. replace (- (128 * p)) with (-128 * p) by lia.
    rewrite scaled_ge by lia. lia.
Qed.

(** The sign of a two's-complement string is in its first byte. *)
Lemma int_val_neg a r :
  byte_ok a -> bytes_ok r -> (int_val (a :: r) <? 0) = negb (a <? 128).
Proof.
  unfold byte_ok. intros Ha Hr. pose proof (be_val_bound r Hr) as HR.
  unfold int_val. rewrite be_val_cons, zlen_cons. pose proof (zlen_nonneg r).
  rewrite (pow256 (zlen r)) in * by lia. rewrite (pow2_8 (1 + zlen r)) by lia.
  replace (2 ^ (8 * (1 + zlen r) - 1)) with (128 * 2 ^ (8 * zlen r))
    by (change 128 with (2 ^ 7); rewrite <- Z.pow_add_r by lia; f_equal; lia).
  set (p := 2 ^ (8 * zlen r)) in *. set (q := be_val r) in *.
  destruct (Z.ltb_spec (a * p + q) (128 * p)) as [Hc|Hc].
  - apply scaled_lt in Hc; [|lia]. destruct (Z.ltb_spec a 128); [|lia].
    apply Z.ltb_ge. nia.
  - apply scaled_ge in Hc; [|lia]. destruct (Z.ltb_spec a 128); [lia|].
    apply Z.ltb_lt. nia.
Qed.

(** A valid INTEGER is a non-empty string with no superfluous leading byte. *)
Lemma CBS_is_valid_asn1_integer_iff l neg :
  bytes_ok l ->
  CBS_is_valid_asn1_integer l = Some neg <->
  l <> [] /\ (zlen l = 1 \/ ~ fits (zlen l - 1) (int_val l)) /\ neg = (int_val l <? 0).
Proof.
  intros Hb. unfold CBS_is_valid_asn1_integer. destruct l as [|a l].
  { rewrite CBS_get_u8_nil. split; [discriminate|tauto]. }
  rewrite CBS_get_u8_cons. apply bytes_ok_cons in Hb as [Ha Hb].
  rewrite int_val_neg, land_byte_128 by assumption. cbv zeta. destruct l as [|b r].
  { rewrite CBS_get_u8_nil. split; [intros E; injection E as <-|intros (_ & _ & ->); auto].
    split; [discriminate|]. split; [left; reflexivity|reflexivity]. }
  rewrite CBS_get_u8_cons. apply bytes_ok_cons in Hb as [Hb Hr].
  rewrite int_val_two, land_byte_128 by assumption. rewrite !zlen_cons.
  pose proof (zlen_nonneg r).
  destruct (((a =? 0) && (b <? 128)) || ((a =? 255) && negb (b <? 128))) eqn:E.
  - split; [discriminate|]. intros (_ & Hm & _). lia.
  - split; [intros Hs; injection Hs as <-|intros (_ & _ & ->); reflexivity].
    split; [discriminate|]. split; [right; lia|reflexivity].
Qed.

(** Such a string of at most nine bytes is the encoding of its value. *)
Lemma valid_integer_der_int l neg :
  bytes_ok l -> zlen l <= 9 -> CBS_is_valid_asn1_integer l = Some neg ->
  l = der_int (int_val l) /\ neg = (int_val l <? 0).
Proof.
  intros Hb Hl E. apply CBS_is_valid_asn1_integer_iff in E as (Hn & Hm & ->); [|assumption].
  split; [|reflexivity]. symmetry. apply der_int_minimal; assumption.
Qed.

Lemma der_int_valid v :
  fits 9 v -> CBS_is_valid_asn1_integer (der_int v) = Some (v <? 0).
Proof.
  intros Hf. pose proof (int_len_spec v Hf) as (H1 & H2 & H3).
  apply CBS_is_valid_asn1_integer_iff; [apply der_int_bytes|].
  rewrite int_val_der_int by assumption. unfold der_int. rewrite zlen_be_bytes.
  split; [|split; [|reflexivity]].
  - intros E. apply (f_equal length) in E. rewrite length_be_bytes in E. cbn [length] in E. lia.
  - destruct (decide (int_len v = 1%nat)) as [->|]; [left; reflexivity|right].
    replace (Z.of_nat (int_len v) - 1) with (Z.of_nat (int_len v - 1)) by lia. apply H3. lia.
Qed.

Lemma asn1_uint64_loop_spec data out :
  bytes_ok data -> 0 <= out < 2 ^ 64 ->
  asn1_uint64_loop data out =
    if out * 256 ^ zlen data + be_val data <? 2 ^ 64
    then Some (out * 256 ^ zlen data + be_val data) else None.
Proof.
  revert out. induction data as [|b data IH]; intros out Hb Ho.
  - cbn [asn1_uint64_loop]. change (be_val []) with 0. change (256 ^ zlen (@nil Z)) with 1.
    destruct (Z.ltb_spec (out * 1 + 0) (2 ^ 64)); [f_equal; lia|lia].
  - apply bytes_ok_cons in Hb as [Hb Hd]. cbn [asn1_uint64_loop].
    pose proof (be_val_bound data Hd). rewrite be_val_cons, zlen_cons.
    pose proof (zlen_nonneg data). rewrite Z.pow_add_r by lia. change (256 ^ 1) with 256.
    unfold byte_ok in Hb. rewrite Z.shiftr_div_pow2 by lia.
    destruct (Z.eqb_spec (out / 2 ^ 56) 0) as [Hz|Hz]; cbn [negb].
    + rewrite u64_small by (rewrite Z.shiftl_mul_pow2; dlia).
      rewrite shiftl_lor_add by lia. rewrite IH by (auto; dlia).
      replace ((out * 2 ^ 8 + b) * 256 ^ zlen data + be_val data)
        with (out * (256 * 256 ^ zlen data) + (b * 256 ^ zlen data + be_val data)) by lia.
      reflexivity.
    + destruct (Z.ltb_spec (out * (256 * 256 ^ zlen data) + (b * 256 ^ zlen data + be_val data))
        (2 ^ 64)); [|reflexivity].
      assert (2 ^ 56 <= out) by dlia. nia.
Qed.

(** The integers [CBS_get_asn1_uint64] reads are those of at most nine bytes. *)
Lemma unsigned_value_len l :
  bytes_ok l -> CBS_is_valid_asn1_integer l = Some false -> be_val l < 2 ^ 64 ->
  zlen l <= 9 /\ int_val l = be_val l.
Proof.
  intros Hb E Hv. apply CBS_is_valid_asn1_integer_iff in E as (Hn & Hm & Hneg); [|assumption].
  symmetry in Hneg. apply Z.ltb_ge in Hneg. pose proof (be_val_bound l Hb).
  assert (Hi : int_val l = be_val l).
  { unfold int_val in *. destruct (be_val l <? 2 ^ (8 * zlen l - 1)) eqn:Hlt; [reflexivity|].
    pose proof (zlen_nonneg l). rewrite <- pow256 in Hneg by lia. lia. }
  split; [|exact Hi]. rewrite Hi in Hm. destruct (Z.leb_spec (zlen l) 9); [assumption|].
  exfalso. destruct Hm as [?|Hm]; [lia|]. apply Hm. unfold fits.
  assert (2 ^ 64 <= 2 ^ (8 * (zlen l - 1) - 1)) by (apply Z.pow_le_mono_r; lia). lia.
Qed.

Lemma CBS_get_asn1_uint64_sound cbs v rest :
  bytes_ok cbs -> CBS_get_asn1_uint64 cbs = (Some v, rest) ->
  cbs = der CBS_ASN1_INTEGER (der_int v) ++ rest /\ 0 <= v < 2 ^ 64.
Proof.
  intros Hb E. unfold CBS_get_asn1_uint64 in E.
  apply bind_inv in E as (l & s & E0 & E). apply guard_inv in E as [E1 E].
  apply CBS_get_asn1_sound in E0 as (-> & Ht & Hl & Hlen); [|assumption].
  unfold CBS_is_unsigned_asn1_integer in E1.
  destruct (CBS_is_valid_asn1_integer l) as [neg|] eqn:Ev; [|discriminate].
  destruct neg; [discriminate|].
  rewrite asn1_uint64_loop_spec in E by (auto; lia). rewrite Z.mul_0_l, Z.add_0_l in E.
  destruct (Z.ltb_spec (be_val l) (2 ^ 64)); [|discriminate].
  cbn [of_option] in E. unfold ret in E. injection E as <- <-.
  destruct (unsigned_value_len l) as [H9 Hi]; [assumption..|].
  pose proof (be_val_bound l Hl). split; [|lia].
  rewrite <- Hi. f_equal. f_equal. apply (valid_integer_der_int l false Hl H9 Ev).
Qed.

Lemma der_int_short v : fits 9 v -> zlen (der_int v) < 2 ^ 32.
Proof. intros H. apply der_int_len in H. lia. Qed.

Lemma fits_uint64 v : 0 <= v < 2 ^ 64 -> fits 9 v.
Proof. unfold fits. lia. Qed.

Lemma fits_int64 v : - 2 ^ 63 <= v < 2 ^ 63 -> fits 9 v.
Proof. unfold fits. lia. Qed.

Lemma CBS_get_asn1_uint64_complete v rest :
  0 <= v < 2 ^ 64 -> bytes_ok rest ->
  CBS_get_asn1_uint64 (der CBS_ASN1_INTEGER (der_int v) ++ rest) = (Some v, rest).
Proof.
  intros Hv Hr. pose proof (fits_uint64 v Hv) as Hf. unfold CBS_get_asn1_uint64.
  erewrite bind_Some by (apply CBS_get_asn1_complete;
    [unfold tag_ok, CBS_ASN1_INTEGER; lia|apply der_int_bytes|exact Hr|apply der_int_short, Hf]).
  rewrite guard_true.
  2: { unfold CBS_is_unsigned_asn1_integer. rewrite der_int_valid by assumption.
       destruct (Z.ltb_spec v 0); [lia|reflexivity]. }
  rewrite asn1_uint64_loop_spec by (apply der_int_bytes || lia).
  rewrite Z.mul_0_l, Z.add_0_l.
  pose proof (der_int_valid v Hf) as Ev. replace (v <? 0) with false in Ev
    by (symmetry; apply Z.ltb_ge; lia).
  assert (Hbe : be_val (der_int v) = v).
  { unfold der_int. rewrite be_val_bytes. apply Z.mod_small. split; [lia|].
    apply int_len_spec in Hf as (? & Hf & _). unfold fits in Hf.
    rewrite pow256, pow2_8 by lia. lia. }
  rewrite Hbe. destruct (Z.ltb_spec v (2 ^ 64)); [reflexivity|lia].
Qed.

(** Sign extension to eight bytes does not change the value. *)
Lemma sign_extend l :
  bytes_ok l -> l <> [] -> zlen l <= 8 ->
  s64 (be_val (rev (rev l ++ zrep (8 - zlen l) (if int_val l <? 0 then 255 else 0))))
  = int_val l.
Proof.
  intros Hb Hn Hl. pose proof (int_val_fits l Hb Hn) as Hf.
  pose proof (be_val_bound l Hb) as Hv. pose proof (zlen_nonneg l).
  rewrite rev_app_distr, rev_involutive, rev_zrep, be_val_app.
  assert (Hl0 : zlen l <> 0) by (intros Hz; apply zlen_0 in Hz; congruence).
  assert (H8 : 256 ^ (8 - zlen l) * 256 ^ zlen l = 2 ^ 64)
    by (rewrite <- Z.pow_add_r by lia; replace (8 - zlen l + zlen l) with 8 by lia; reflexivity).
  assert (Hp : 256 ^ zlen l = 2 * 2 ^ (8 * zlen l - 1)) by (rewrite pow256, pow2_8 by lia; lia).
  assert (Hp8 : 2 ^ (8 * zlen l - 1) <= 2 ^ 63) by (apply Z.pow_le_mono_r; lia).
  unfold int_val, fits, s64 in *. rewrite <- !pow256 in * by lia.
  destruct (Z.ltb_spec (be_val l) (2 ^ (8 * zlen l - 1))).
  - destruct (Z.ltb_spec (be_val l) 0); [lia|]. rewrite be_val_zrep_0.
    rewrite Z.mul_0_l, Z.add_0_l.
    destruct (Z.ltb_spec (be_val l) 9223372036854775808); lia.
  - destruct (Z.ltb_spec (be_val l - 256 ^ zlen l) 0); [|lia].
    rewrite be_val_zrep_255, Z.mul_sub_distr_r, H8 by lia.
    destruct (Z.ltb_spec (2 ^ 64 - 1 * 256 ^ zlen l + be_val l) 9223372036854775808); lia.
Qed.

Lemma CBS_get_asn1_int64_sound cbs v rest :
  bytes_ok cbs -> CBS_get_asn1_int64 cbs = (Some v, rest) ->
  cbs = der CBS_ASN1_INTEGER (der_int v) ++ rest /\ - 2 ^ 63 <= v < 2 ^ 63.
Proof.
  intros Hb E. unfold CBS_get_asn1_int64 in E.
  apply bind_inv in E as (l & s & E0 & E). apply bind_inv in E as (neg & s1 & E1 & E).
  apply guard_inv in E as [E2 E].
  apply CBS_get_asn1_sound in E0 as (-> & Ht & Hl & Hlen); [|assumption].
  destruct (CBS_is_valid_asn1_integer l) as [neg'|] eqn:Ev; [|discriminate].
  unfold of_option, ret in E, E1. injection E1 as -> ->.
  apply negb_true_iff, Z.ltb_ge in E2. unfold CBS_len in *.
  pose proof Ev as Hv. apply CBS_is_valid_asn1_integer_iff in Hv as (Hn & Hm & ->); [|assumption].
  rewrite sign_extend in E by assumption. injection E as <- <-.
  pose proof (int_val_fits l Hl Hn) as Hf.
  split; [f_equal; f_equal; apply (valid_integer_der_int l _ Hl ltac:(lia) Ev)|].
  apply (fits_mono _ 8) in Hf; [exact Hf|]. destruct l; [congruence|].
  rewrite zlen_cons in *. pose proof (zlen_nonneg l). lia.
Qed.

Lemma CBS_get_asn1_int64_complete v rest :
  - 2 ^ 63 <= v < 2 ^ 63 -> bytes_ok rest ->
  CBS_get_asn1_int64 (der CBS_ASN1_INTEGER (der_int v) ++ rest) = (Some v, rest).
Proof.
  intros Hv Hr. pose proof (fits_int64 v Hv) as Hf. unfold CBS_get_asn1_int64.
  erewrite bind_Some by (apply CBS_get_asn1_complete;
    [unfold tag_ok, CBS_ASN1_INTEGER; lia|apply der_int_bytes|exact Hr|apply der_int_short, Hf]).
  rewrite der_int_valid by assumption. unfold of_option.
  erewrite bind_Some by reflexivity.
  assert (Hl : 1 <= zlen (der_int v) <= 8).
  { pose proof (der_int_len v Hf). split; [lia|].
    destruct (Z.leb_spec (zlen (der_int v)) 8); [assumption|exfalso].
    unfold der_int in *. rewrite zlen_be_bytes in *.
    apply int_len_spec in Hf as (_ & _ & H3). apply (H3 8%nat); [lia|].
    unfold fits. change (8 * Z.of_nat 8 - 1) with 63. lia. }
  rewrite guard_true by (unfold CBS_len; destruct (Z.ltb_spec 8 (zlen (der_int v))); [lia|reflexivity]).
  unfold ret, CBS_len. rewrite <- (int_val_der_int v Hf) at 3.
  rewrite sign_extend; [rewrite int_val_der_int by assumption; reflexivity|apply der_int_bytes| |lia].
  intros E. rewrite E in Hl. unfold zlen in Hl; cbn [length] in Hl. lia.
Qed.

(** * Readers stay inside their input

    A reader leaves a suffix of what it was given, whether it succeeds or not:
    the pointer only moves forward and never past the end.  The class is closed
    under the combinators, so an instance follows the shape of the code. *)
Class Reader {A} (m : M (list Z) A) : Prop :=
  reader_suffix : forall cbs r s, m cbs = (r, s) -> exists pre, cbs = pre ++ s.

#[export] Instance Reader_ret {A} (a : A) : Reader (ret a).
Proof. intros cbs r s E. injection E as _ <-. exists []. reflexivity. Qed.

#[export] Instance Reader_fail {A} : Reader (@fail _ A).
Proof. intros cbs r s E. injection E as _ <-. exists []. reflexivity. Qed.

#[export] Instance Reader_bind {A B} (m : M (list Z) A) (k : A -> M (list Z) B) :
  Reader m -> (forall a, Reader (k a)) -> Reader (bind m k).
Proof.
  intros Hm Hk cbs r s. unfold bind. destruct (m cbs) as [[a|] s1] eqn:Em.
  - intros E. apply Hm in Em as [p1 ->]. apply Hk in E as [p2 ->].
    exists (p1 ++ p2). rewrite app_assoc. reflexivity.
  - intros E. injection E as _ <-. apply Hm in Em. exact Em.
Qed.

#[export] Instance Reader_guard b : Reader (guard b).
Proof. destruct b; apply _. Qed.

#[export] Instance Reader_of_option {A} (o : option A) : Reader (of_option o).
Proof. destruct o; apply _. Qed.

#[export] Instance Reader_if {A} (b : bool) (m1 m2 : M (list Z) A) :
  Reader m1 -> Reader m2 -> Reader (if b then m1 else m2).
Proof. destruct b; auto. Qed.

#[export] Instance Reader_cbs_get n : Reader (cbs_get n).
Proof.
  intros cbs r s. unfold cbs_get. destruct (_ <? _); intros E; injection E as _ <-.
  - exists []. reflexivity.
  - exists (ztake n cbs). symmetry. apply ztake_zdrop.
Qed.

#[export] Instance Reader_on_rest {A} (m : M (list Z) A) other : Reader (on_rest m other).
Proof.
  intros cbs r s. unfold on_rest. destruct (m other) as [[a|] ?]; intros E;
    injection E as _ <-; exists []; reflexivity.
Qed.

Ltac solve_reader := repeat first
  [ apply _ | apply Reader_bind; [|intros ?] | apply Reader_if
  | match goal with |- Reader (match ?x with _ => _ end) => destruct x end ].

#[export] Instance Reader_skip n : Reader (CBS_skip n).
Proof. unfold CBS_skip. solve_reader. Qed.

#[export] Instance Reader_get_u n : Reader (cbs_get_u n).
Proof. unfold cbs_get_u. solve_reader. Qed.

#[export] Instance Reader_get_u8 : Reader CBS_get_u8.
Proof. unfold CBS_get_u8. solve_reader. Qed.

#[export] Instance Reader_get_bytes n : Reader (CBS_get_bytes n).
Proof. unfold CBS_get_bytes. solve_reader. Qed.

Lemma Reader_base128_loop v : Reader (fun cbs => parse_base128_loop cbs v).
Proof.
  intros cbs. revert v. induction cbs as [|b cbs IH]; intros v r s; cbn [parse_base128_loop].
  - intros E. injection E as _ <-. exists []. reflexivity.
  - repeat case_match; intros E; try (injection E as _ <-; exists [b]; reflexivity).
    apply IH in E as [pre ->]. exists (b :: pre). reflexivity.
Qed.

#[export] Instance Reader_base128 : Reader parse_base128_integer.
Proof. apply Reader_base128_loop. Qed.

#[export] Instance Reader_tag : Reader parse_asn1_tag.
Proof. unfold parse_asn1_tag. cbv zeta. solve_reader. Qed.

#[export] Instance Reader_element ber_ok : Reader (cbs_get_any_asn1_element ber_ok).
Proof.
  intros cbs r s. unfold cbs_get_any_asn1_element.
  assert (R0 : forall r s, (@None element, cbs) = (r, s) -> exists pre, cbs = pre ++ s)
    by (intros ? ? E; injection E as _ <-; exists []; reflexivity).
  assert (R1 : forall n (f : list Z -> element) r s,
    (let* out := CBS_get_bytes n in ret (f out)) cbs = (r, s) -> exists pre, cbs = pre ++ s).
  { intros n f r' s'.
    apply (@reader_suffix _ (bind (CBS_get_bytes n) (fun out => ret (f out))) _). }
  repeat case_match; intros E;
    first [ exact (R0 _ _ E) | exact (R1 _ (fun out => Build_element out _ _ _) _ _ E) ].
Qed.

#[export] Instance Reader_asn1 tag skip : Reader (cbs_get_asn1 tag skip).
Proof. unfold cbs_get_asn1, CBS_get_any_asn1_element. solve_reader. Qed.

#[export] Instance Reader_optional tag : Reader (CBS_get_optional_asn1 tag).
Proof.
  intros cbs r s. unfold CBS_get_optional_asn1. destruct (CBS_peek_asn1_tag _ _).
  - apply (@reader_suffix _ (bind (CBS_get_asn1 tag) (fun out => ret (Some out))) _).
  - intros E. injection E as _ <-. exists []. reflexivity.
Qed.

(** What a reader of [n] bytes does that returns [f] of them. *)
Definition fixed_reader (n : Z) (f : list Z -> Z) (cbs : list Z) : option Z * list Z :=
  if zlen cbs <? n then (None, cbs) else (Some (f (ztake n cbs)), zdrop n cbs).

Lemma cbs_get_u_eq n cbs :
  bytes_ok cbs -> 0 <= n <= 8 -> cbs_get_u n cbs = fixed_reader n be_val cbs.
Proof.
  intros Hb Hn. unfold fixed_reader. destruct (Z.ltb_spec (zlen cbs) n).
  - unfold cbs_get_u. apply bind_None, cbs_get_short. assumption.
  - rewrite <- (ztake_zdrop n cbs) at 1.
    apply cbs_get_u_app_eq; rewrite ?zlen_ztake; auto with bytes; lia.
Qed.

(** Post-processing of what a fixed-width reader returns. *)
Lemma fixed_reader_map n f g h rd cbs :
  0 <= n -> rd cbs = fixed_reader n f cbs -> bytes_ok cbs ->
  (forall l, zlen l = n -> bytes_ok l -> g (f l) = h l) ->
  (let* v := rd in ret (g v)) cbs = fixed_reader n h cbs.
Proof.
  intros Hn E Hb Hg. unfold bind. rewrite E. unfold fixed_reader.
  destruct (Z.ltb_spec (zlen cbs) n); [reflexivity|]. unfold ret. do 2 f_equal.
  apply Hg; [apply zlen_ztake; lia|auto with bytes].
Qed.

Lemma be_val_small n l : zlen l = n -> bytes_ok l -> 0 <= be_val l < 256 ^ n.
Proof. intros <-. apply be_val_bound. Qed.

Lemma bswap_rev l :
  bytes_ok l ->
  (zlen l = 2 -> CRYPTO_bswap2 (be_val l) = be_val (rev l)) /\
  (zlen l = 4 -> CRYPTO_bswap4 (be_val l) = be_val (rev l)) /\
  (zlen l = 8 -> CRYPTO_bswap8 (be_val l) = be_val (rev l)).
Proof.
  intros Hb. unfold zlen. repeat split; intros Hl.
  - destruct l as [|a [|b [|]]]; try (cbn [length] in Hl; lia). unfold bytes_ok in Hb.
    rewrite !List.Forall_cons_iff in Hb. apply CRYPTO_bswap2_rev; tauto.
  - destruct l as [|a [|b [|c [|d [|]]]]]; try (cbn [length] in Hl; lia). unfold bytes_ok in Hb.
    rewrite !List.Forall_cons_iff in Hb. apply CRYPTO_bswap4_rev; tauto.
  - destruct l as [|a [|b [|c [|d [|e [|f [|g [|h [|]]]]]]]]]; try (cbn [length] in Hl; lia).
    apply CRYPTO_bswap8_rev. assumption.
Qed.

Lemma CBS_get_u8_eq cbs : CBS_get_u8 cbs = fixed_reader 1 be_val cbs.
Proof.
  unfold fixed_reader. destruct cbs as [|b cbs]; [reflexivity|].
  rewrite CBS_get_u8_cons, zlen_cons. pose proof (zlen_nonneg cbs).
  destruct (Z.ltb_spec (1 + zlen cbs) 1); [lia|]. reflexivity.
Qed.

Lemma CBS_get_u16_eq cbs : bytes_ok cbs -> CBS_get_u16 cbs = fixed_reader 2 be_val cbs.
Proof.
  intros Hb. apply fixed_reader_map with (f := be_val); [lia|apply cbs_get_u_eq; auto; lia|auto|].
  intros l Hl Hlb. apply Z.mod_small. exact (be_val_small 2 l Hl Hlb).
Qed.

Lemma CBS_get_u24_eq cbs : bytes_ok cbs -> CBS_get_u24 cbs = fixed_reader 3 be_val cbs.
Proof.
  intros Hb. apply fixed_reader_map with (f := be_val); [lia|apply cbs_get_u_eq; auto; lia|auto|].
  intros l Hl Hlb. pose proof (be_val_small 3 l Hl Hlb). apply u32_small. lia.
Qed.

Lemma CBS_get_u32_eq cbs : bytes_ok cbs -> CBS_get_u32 cbs = fixed_reader 4 be_val cbs.
Proof.
  intros Hb. apply fixed_reader_map with (f := be_val); [lia|apply cbs_get_u_eq; auto; lia|auto|].
  intros l Hl Hlb. pose proof (be_val_small 4 l Hl Hlb). apply u32_small. lia.
Qed.

Lemma CBS_get_u16le_eq cbs :
  bytes_ok cbs -> CBS_get_u16le cbs = fixed_reader 2 (fun l => be_val (rev l)) cbs.
Proof.
  intros Hb. apply fixed_reader_map with (f := be_val); [lia|apply CBS_get_u16_eq, Hb|exact Hb|].
  intros l Hl Hlb. apply (proj1 (bswap_rev l Hlb) Hl).
Qed.

Lemma CBS_get_u32le_eq cbs :
  bytes_ok cbs -> CBS_get_u32le cbs = fixed_reader 4 (fun l => be_val (rev l)) cbs.
Proof.
  intros Hb. apply fixed_reader_map with (f := be_val); [lia|apply CBS_get_u32_eq, Hb|exact Hb|].
  intros l Hl Hlb. apply (proj1 (proj2 (bswap_rev l Hlb)) Hl).
Qed.

Lemma CBS_get_u64le_eq cbs :
  bytes_ok cbs -> CBS_get_u64le cbs = fixed_reader 8 (fun l => be_val (rev l)) cbs.
Proof.
  intros Hb. apply fixed_reader_map with (f := be_val);
    [lia|apply cbs_get_u_eq; auto; lia|exact Hb|].
  intros l Hl Hlb. apply (proj2 (proj2 (bswap_rev l Hlb)) Hl).
Qed.

(** The big-endian and the little-endian readers, with their widths. *)
Definition be_readers : list (Z * M (list Z) Z) :=
  [(1, CBS_get_u8); (2, CBS_get_u16); (3, CBS_get_u24); (4, CBS_get_u32); (8, CBS_get_u64)].
Definition le_readers : list (Z * M (list Z) Z) :=
  [(2, CBS_get_u16le); (4, CBS_get_u32le); (8, CBS_get_u64le)].

Lemma prefixed_iff n cbs body rest :
  bytes_ok cbs -> 1 <= n <= 3 ->
  cbs_get_length_prefixed n cbs = (Some body, rest) <->
  cbs = be_bytes (Z.to_nat n) (zlen body) ++ body ++ rest /\ zlen body < 256 ^ n.
Proof.
  intros Hb Hn. unfold cbs_get_length_prefixed. split.
  - intros E. apply bind_inv in E as (len & s & E0 & E).
    apply cbs_get_u_inv in E0 as (l & -> & Hl & Hlb & -> & Hs); [|assumption|lia].
    unfold CBS_get_bytes in E. apply bind_inv in E as (v & s1 & E1 & E).
    injection E as <- <-. pose proof (be_val_bound l Hlb).
    apply cbs_get_inv in E1 as [-> Hv]; [|lia]. rewrite Hv. split; [|rewrite <- Hl; lia].
    f_equal. symmetry. rewrite <- Hl. unfold zlen. rewrite Nat2Z.id. apply be_bytes_val, Hlb.
  - intros [-> Hl]. pose proof (zlen_nonneg body).
    erewrite bind_Some by (apply cbs_get_u_app_eq; rewrite ?zlen_be_bytes; auto with bytes; lia).
    rewrite be_val_bytes, Z2Nat.id, Z.mod_small by lia.
    unfold CBS_get_bytes. erewrite bind_Some by apply cbs_get_app. reflexivity.
Qed.

(** The bits of a bit string's contents: bit 0 is the top bit of the first byte. *)
Lemma bit_of_byte l i :
  bytes_ok l -> 0 <= i < 8 * zlen l ->
  Z.testbit (znth 0 (i / 8) l) (7 - i mod 8) = Z.testbit (be_val l) (8 * zlen l - 1 - i).
Proof.
  revert i. induction l as [|a r IH]; intros i Hb Hi; [unfold zlen in Hi; cbn in Hi; lia|].
  apply bytes_ok_cons in Hb as [Ha Hr]. rewrite zlen_cons in *. pose proof (zlen_nonneg r).
  pose proof (be_val_bound r Hr) as Hv. rewrite be_val_cons. rewrite pow256 in * by lia.
  rewrite testbit_split by lia. destruct (Z.ltb_spec i 8).
  - destruct (Z.ltb_spec (8 * (1 + zlen r) - 1 - i) (8 * zlen r)); [lia|].
    replace (i / 8) with 0 by dlia. rewrite Z.mod_small by lia.
    change (znth 0 0 (a :: r)) with a. f_equal. lia.
  - destruct (Z.ltb_spec (8 * (1 + zlen r) - 1 - i) (8 * zlen r)); [|lia].
    replace (8 * (1 + zlen r) - 1 - i) with (8 * zlen r - 1 - (i - 8)) by lia.
    rewrite <- IH by (auto; lia).
    replace (i mod 8) with ((i - 8) mod 8) by dlia. f_equal. unfold znth.
    replace (Z.to_nat (i / 8)) with (S (Z.to_nat ((i - 8) / 8))) by dlia. reflexivity.
Qed.

Lemma land_bit x n : 0 <= n -> negb (Z.land x (Z.shiftl 1 n) =? 0) = Z.testbit x n.
Proof.
  intros Hn. rewrite Z.shiftl_1_l. destruct (Z.testbit x n) eqn:E.
  - apply negb_true_iff, Z.eqb_neq. intros Hz. apply (f_equal (fun y => Z.testbit y n)) in Hz.
    rewrite Z.land_spec, E, Z.pow2_bits_true, Z.bits_0 in Hz by lia. discriminate.
  - apply negb_false_iff, Z.eqb_eq. apply Z.bits_inj'. intros m Hm.
    rewrite Z.land_spec, Z.bits_0. destruct (Z.eq_dec m n) as [->|Hne].
    + rewrite E. reflexivity.
    + rewrite (Z.pow2_bits_false n m) by lia. apply andb_false_r.
Qed.

(** A valid BIT STRING: a count of unused bits, which are there and are zero. *)
Lemma bitstring_valid_iff cbs :
  bytes_ok cbs ->
  CBS_is_valid_asn1_bitstring cbs = true <->
  exists u bits, cbs = u :: bits /\ 0 <= u <= 7 /\
                 (u = 0 \/ (bits <> [] /\ be_val bits mod 2 ^ u = 0)).
Proof.
  intros Hb. unfold CBS_is_valid_asn1_bitstring. destruct cbs as [|u bits].
  { rewrite CBS_get_u8_nil. split; [discriminate|]. intros (? & ? & ? & _). discriminate. }
  rewrite CBS_get_u8_cons. apply bytes_ok_cons in Hb as [Hu Hb]. unfold byte_ok in Hu.
  destruct (Z.ltb_spec 7 u).
  { split; [discriminate|]. intros (u' & b' & E & Hr & _). injection E as -> ->. lia. }
  destruct (Z.eqb_spec u 0) as [->|Hu0].
  { split; [intros _; exists 0, bits; repeat split; auto; lia|reflexivity]. }
  destruct bits as [|last bits _] using rev_ind.
  { split; [discriminate|]. intros (u' & b' & E & _ & Hc). injection E as <- <-.
    destruct Hc as [?|[? _]]; congruence. }
  unfold CBS_get_last_u8, CBS_len. autorewrite with zlen. pose proof (zlen_nonneg bits).
  destruct (Z.eqb_spec (zlen bits + (1 + 0)) 0); [lia|].
  replace (zlen bits + (1 + 0) - 1) with (zlen bits) by lia.
  replace (znth 0 (zlen bits) (bits ++ [last])) with last
    by (unfold znth, zlen; rewrite Nat2Z.id, app_nth2, Nat.sub_diag by lia; reflexivity).
  rewrite Z.shiftl_1_l, land_mask by lia.
  assert (E8 : be_val (bits ++ [last]) mod 2 ^ u = last mod 2 ^ u).
  { rewrite be_val_snoc. replace 256 with (2 ^ (8 - u) * 2 ^ u)
      by (rewrite <- Z.pow_add_r by lia; replace (8 - u + u) with 8 by lia; reflexivity).
    rewrite Z.mul_assoc, Z.add_comm, Z.mod_add by lia. reflexivity. }
  rewrite Z.eqb_eq. split.
  - intros Hz. exists u, (bits ++ [last]). repeat split; try lia. right.
    split; [destruct bits; discriminate|lia].
  - intros (u' & b' & E & _ & Hc). injection E as <- <-. lia.
Qed.

(** * Properties *)

(** The fixed-width readers take exactly their bytes off the front and fail,
    taking nothing, when there are too few; the plain ones return the big-endian
    value of the bytes and the [le] ones the little-endian value. *)
Theorem CBS_get_fixed_width (cbs : list Z) :
  bytes_ok cbs ->
  Forall (fun p => snd p cbs = fixed_reader (fst p) be_val cbs) be_readers /\
  Forall (fun p => snd p cbs = fixed_reader (fst p) (fun l => be_val (rev l)) cbs) le_readers.
Proof.
  intros Hb. unfold be_readers, le_readers. rewrite !List.Forall_cons_iff. cbn [fst snd].
  repeat split; try apply Forall_nil_2;
    auto using CBS_get_u8_eq, CBS_get_u16_eq, CBS_get_u24_eq, CBS_get_u32_eq,
      CBS_get_u16le_eq, CBS_get_u32le_eq, CBS_get_u64le_eq.
  apply cbs_get_u_eq; [exact Hb|lia].
Qed.

Lemma CBS_get_fixed_width_witness :
  Forall (fun p => snd p [1; 2; 3; 4; 5] = fixed_reader (fst p) be_val [1; 2; 3; 4; 5])
    be_readers.
Proof. apply (CBS_get_fixed_width [1; 2; 3; 4; 5]). repeat constructor; lia. Defined.

(** The readers of a string with a length of [n] bytes before it. *)
Definition prefixed_readers : list (Z * M (list Z) (list Z)) :=
  [(1, CBS_get_u8_length_prefixed); (2, CBS_get_u16_length_prefixed);
   (3, CBS_get_u24_length_prefixed)].

(** The length-prefixed readers accept exactly a big-endian length of one,
    two or three bytes followed by that many bytes, which they return. *)
Theorem CBS_get_length_prefixed_iff (cbs body rest : list Z) :
  bytes_ok cbs ->
  Forall (fun p => snd p cbs = (Some body, rest) <->
                   cbs = be_bytes (Z.to_nat (fst p)) (zlen body) ++ body ++ rest /\
                   zlen body < 256 ^ fst p) prefixed_readers.
Proof.
  intros Hb. unfold prefixed_readers. rewrite !List.Forall_cons_iff. cbn [fst snd].
  split; [|split; [|split; [|apply Forall_nil_2]]]; apply prefixed_iff; auto; lia.
Qed.

Lemma CBS_get_length_prefixed_iff_witness :
  Forall (fun p => snd p [0; 2; 7; 8; 9] = (Some [7; 8], [9]) <->
                   [0; 2; 7; 8; 9] = be_bytes (Z.to_nat (fst p)) 2 ++ [7; 8] ++ [9] /\
                   2 < 256 ^ fst p) prefixed_readers.
Proof.
  apply (CBS_get_length_prefixed_iff [0; 2; 7; 8; 9] [7; 8] [9]). repeat constructor; lia.
Defined.

(** C11: The DER parser is sound and complete: it accepts exactly the elements of
    the specification [der], with minimal tag and length octets, and reports
    the element, its tag and the length of its header. *)
Theorem CBS_get_any_asn1_element_iff (cbs rest : list Z) (e : element) :
  bytes_ok cbs ->
  CBS_get_any_asn1_element cbs = (Some e, rest) <->
  exists body, cbs = der (el_tag e) body ++ rest /\ tag_ok (el_tag e) /\
               zlen body < 2 ^ 32 /\
               e = {| el_out := der (el_tag e) body; el_tag := el_tag e;
                      el_header_len := zlen (der_header (el_tag e) (zlen body));
                      el_ber_found := false |}.
Proof.
  intros Hb. rewrite der_element_iff by assumption. unfold der_element.
  split; intros (body & H); exists body; tauto.
Qed.

Lemma CBS_get_any_asn1_element_iff_witness :
  CBS_get_any_asn1_element [48; 1; 5; 6] =
    (Some {| el_out := [48; 1; 5]; el_tag := 536870928; el_header_len := 2;
             el_ber_found := false |}, [6]).
Proof.
  apply (CBS_get_any_asn1_element_iff [48; 1; 5; 6] [6]
    {| el_out := [48; 1; 5]; el_tag := 536870928; el_header_len := 2; el_ber_found := false |}).
  - repeat constructor; lia.
  - exists [5]. cbn [el_tag]. unfold tag_ok.
    split; [reflexivity|]. split; [lia|]. split; reflexivity.
Defined.

(** An INTEGER is read by [CBS_get_asn1_uint64] and [CBS_get_asn1_int64]
    exactly when it is the canonical encoding of a value of the type, and the
    value is the one encoded. *)
Theorem CBS_get_asn1_integers_iff (cbs rest : list Z) (v : Z) :
  bytes_ok cbs ->
  (CBS_get_asn1_uint64 cbs = (Some v, rest) <->
   cbs = der CBS_ASN1_INTEGER (der_int v) ++ rest /\ 0 <= v < 2 ^ 64) /\
  (CBS_get_asn1_int64 cbs = (Some v, rest) <->
   cbs = der CBS_ASN1_INTEGER (der_int v) ++ rest /\ - 2 ^ 63 <= v < 2 ^ 63).
Proof.
  intros Hb. split; split.
  - apply CBS_get_asn1_uint64_sound, Hb.
  - intros [-> Hv]. apply bytes_ok_app in Hb as [_ Hr].
    apply CBS_get_asn1_uint64_complete; assumption.
  - apply CBS_get_asn1_int64_sound, Hb.
  - intros [-> Hv]. apply bytes_ok_app in Hb as [_ Hr].
    apply CBS_get_asn1_int64_complete; assumption.
Qed.

Lemma CBS_get_asn1_integers_iff_witness :
  CBS_get_asn1_int64 [2; 2; 255; 127] = (Some (-129), []).
Proof.
  apply (CBS_get_asn1_integers_iff [2; 2; 255; 127] [] (-129)).
  - repeat constructor; lia.
  - split; [reflexivity|lia].
Defined.

(** [CBS_asn1_bitstring_has_bit] answers, for a valid BIT STRING, whether the
    bit is there and set, counting from the most significant bit of the first
    byte; an unused or missing bit is not set. *)
Theorem CBS_asn1_bitstring_has_bit_spec (u : Z) (bits : list Z) (bit : Z) :
  bytes_ok (u :: bits) -> 0 <= bit ->
  CBS_asn1_bitstring_has_bit (u :: bits) bit = true <->
  (u = 0 \/ (0 < u <= 7 /\ bits <> [] /\ be_val bits mod 2 ^ u = 0)) /\
  bit < 8 * zlen bits /\ Z.testbit (be_val bits) (8 * zlen bits - 1 - bit) = true.
Proof.
  intros Hb Hbit. unfold CBS_asn1_bitstring_has_bit, CBS_len.
  pose proof Hb as Hb'. apply bytes_ok_cons in Hb' as [Hu Hbits]. unfold byte_ok in Hu.
  assert (Hv : CBS_is_valid_asn1_bitstring (u :: bits) = true <->
    (u = 0 \/ (0 < u <= 7 /\ bits <> [] /\ be_val bits mod 2 ^ u = 0))).
  { rewrite bitstring_valid_iff by assumption. split.
    - intros (u' & b' & E & Hr & Hc). injection E as <- <-.
      destruct (Z.eq_dec u 0); [left; assumption|right]. destruct Hc; [lia|].
      split; [lia|assumption].
    - intros Hc. exists u, bits. split; [reflexivity|]. split; [lia|]. tauto. }
  destruct (CBS_is_valid_asn1_bitstring (u :: bits)); cbn [negb].
  2: { split; [discriminate|]. intros [Hc _]. apply Hv in Hc. discriminate. }
  rewrite Z.shiftr_div_pow2 by lia. change (2 ^ 3) with 8.
  change 7 with (2 ^ 3 - 1) at 2. rewrite land_mask by lia. change (2 ^ 3) with 8.
  rewrite land_bit by dlia. rewrite zlen_cons, andb_true_iff, Z.ltb_lt.
  replace (znth 0 (bit / 8 + 1) (u :: bits)) with (znth 0 (bit / 8) bits).
  2: { unfold znth. replace (Z.to_nat (bit / 8 + 1)) with (S (Z.to_nat (bit / 8))) by dlia.
       reflexivity. }
  split.
  - intros [Hlt Ht]. assert (bit < 8 * zlen bits) by dlia.
    rewrite <- bit_of_byte by (auto; lia). tauto.
  - intros (_ & Hlt & Ht). rewrite bit_of_byte by (auto; lia). split; [dlia|assumption].
Qed.

Lemma CBS_asn1_bitstring_has_bit_spec_witness :
  CBS_asn1_bitstring_has_bit [7; 1; 128] 8 = true.
Proof.
  apply (CBS_asn1_bitstring_has_bit_spec 7 [1; 128] 8).
  - repeat constructor; lia.
  - lia.
  - split; [right; split; [lia|]; split; [discriminate|reflexivity]|].
    split; [reflexivity|reflexivity].
Defined.

(** The operations of the interface that read from a byte string. *)
Inductive public_reader : forall A, M (list Z) A -> Prop :=
  | reads_skip n : public_reader _ (CBS_skip n)
  | reads_u8 : public_reader _ CBS_get_u8
  | reads_u16 : public_reader _ CBS_get_u16
  | reads_u16le : public_reader _ CBS_get_u16le
  | reads_u24 : public_reader _ CBS_get_u24
  | reads_u32 : public_reader _ CBS_get_u32
  | reads_u32le : public_reader _ CBS_get_u32le
  | reads_u64 : public_reader _ CBS_get_u64
  | reads_u64le : public_reader _ CBS_get_u64le
  | reads_bytes n : public_reader _ (CBS_get_bytes n)
  | reads_copy n : public_reader _ (CBS_copy_bytes n)
  | reads_prefixed n : public_reader _ (cbs_get_length_prefixed n)
  | reads_until c : public_reader _ (CBS_get_until_first c)
  | reads_any : public_reader _ CBS_get_any_asn1
  | reads_element : public_reader _ CBS_get_any_asn1_element
  | reads_ber : public_reader _ CBS_get_any_ber_asn1_element
  | reads_asn1 tag : public_reader _ (CBS_get_asn1 tag)
  | reads_asn1_element tag : public_reader _ (CBS_get_asn1_element tag)
  | reads_uint64 : public_reader _ CBS_get_asn1_uint64
  | reads_int64 : public_reader _ CBS_get_asn1_int64
  | reads_bool : public_reader _ CBS_get_asn1_bool
  | reads_optional tag : public_reader _ (CBS_get_optional_asn1 tag)
  | reads_optional_octets tag : public_reader _ (CBS_get_optional_asn1_octet_string tag)
  | reads_optional_uint64 tag d : public_reader _ (CBS_get_optional_asn1_uint64 tag d)
  | reads_optional_bool tag d : public_reader _ (CBS_get_optional_asn1_bool tag d).

#[export] Instance Reader_until c : Reader (CBS_get_until_first c).
Proof.
  intros cbs r s. unfold CBS_get_until_first. destruct (OPENSSL_memchr cbs c).
  - apply (@reader_suffix _ (CBS_get_bytes z) _).
  - intros E. injection E as _ <-. exists []. reflexivity.
Qed.

(** No reader leaves its input: whatever it reads, and whether it succeeds or
    fails, what remains is a suffix of what there was. *)
Theorem CBS_readers_stay_inside A (reader : M (list Z) A) (cbs rest : list Z) r :
  public_reader A reader -> reader cbs = (r, rest) -> exists pre, cbs = pre ++ rest.
Proof.
  intros Hp. enough (H : Reader reader) by apply H.
  destruct Hp; lazymatch goal with |- Reader ?m => try unfold m end;
    unfold CBS_get_u32, CBS_get_u16, CBS_get_any_asn1_element, CBS_get_any_ber_asn1_element,
      CBS_get_asn1; try apply _; solve_reader.
Qed.

Lemma CBS_readers_stay_inside_witness :
  exists pre, [48; 1; 5; 6] = pre ++ [6].
Proof.
  apply (CBS_readers_stay_inside _ CBS_get_any_asn1 [48; 1; 5; 6] [6] (Some ([5], 536870928))).
  - constructor.
  - reflexivity.
Defined.
