(* ===== verification/Cbb.v ===== *)
(** crypto/bytestring/cbb.c: building a byte string.

    A top-level [CBB] and its chain of children share one [cbb_buffer_st].  A
    [CBB] has at most one child at a time, so the objects reachable from the
    top are a list of frames, outermost first, and a [CBB *] is its depth: 0 is
    the top and [S d] the child of [d].  A depth beyond the chain is a [CBB]
    whose [base] has been cleared; every operation on it fails.

    The buffer is the allocated block, with [len] valid bytes; a NULL block is
    [None].  Operations are computations of the state-and-failure monad on the
    whole object, so a failing operation also says what it leaves behind. *)
From Stdlib Require Import ZArith Lia.
From stdpp Require Import base list numbers.
From S2P Require Import Prelude.
From S2P Require Import Mem.
From S2P Require Import Der.
From S2P Require Import Cbs.

Open Scope Z_scope.
Open Scope c_scope.

(** * The object *)

Record cbb_buffer_st := {
  buf : option (list Z);
  len : Z;
  cap : Z;
  can_resize : bool;
  error : bool
}.

(** A child [CBB]: where its length prefix is, how long it is, and its kind. *)
Record frame := {
  offset : Z;
  pending_len_len : Z;
  pending_is_asn1 : bool
}.

(** The bytes of the block, which are none when the pointer is NULL. *)
Definition block (b : cbb_buffer_st) : list Z := default [] (buf b).

(** Stores of the code into the block, the counters and the error flag. *)
Definition store (i : Z) (bs : list Z) (b : cbb_buffer_st) : cbb_buffer_st :=
  {| buf := Some (zsplice i bs (block b)); len := len b; cap := cap b;
     can_resize := can_resize b; error := error b |}.
Definition set_len (n : Z) (b : cbb_buffer_st) : cbb_buffer_st :=
  {| buf := buf b; len := n; cap := cap b; can_resize := can_resize b; error := error b |}.
Definition set_buf (p : list Z) (c : Z) (b : cbb_buffer_st) : cbb_buffer_st :=
  {| buf := Some p; len := len b; cap := c; can_resize := can_resize b; error := error b |}.
Definition set_error (b : cbb_buffer_st) : cbb_buffer_st :=
  {| buf := buf b; len := len b; cap := cap b; can_resize := can_resize b; error := true |}.

Section CBB.
Context `{Malloc}.

(** [base] is NULL before a successful initialisation and after the end. *)
Record cbb_st := {
  base : option cbb_buffer_st;
  children : list frame;
  cbb_heap : heap
}.

(** * The shared buffer *)

(** What a buffer operation works on: the allocator and the buffer. *)
Definition bufst : Type := heap * cbb_buffer_st.

(** The result is [out], as an offset into the block. *)
Definition cbb_buffer_reserve (n : Z) : M bufst Z := fun '(h, b) =>
  let newlen := u64 (len b + n) in
  if newlen <? len b then (None, (h, set_error b))
  else if cap b <? newlen then
    let newcap := u64 (cap b * 2) in
    if negb (can_resize b) then (None, (h, set_error b))
    else
      let newcap := if (newcap <? cap b) || (newcap <? newlen) then newlen else newcap in
      match OPENSSL_realloc h (buf b) newcap with
      | (None, h) => (None, (h, set_error b))
      | (Some newbuf, h) => (Some (len b), (h, set_buf newbuf newcap b))
      end
  else (Some (len b), (h, b)).

Definition cbb_buffer_add (n : Z) : M bufst Z :=
  let* out := cbb_buffer_reserve n in
  fun '(h, b) => (Some out, (h, set_len (len b + n) b)).

(** The loop that stores [v] backwards: the bytes and what is left of [v]. *)
Fixpoint add_u_loop (n : nat) (v : Z) : list Z * Z :=
  match n with
  | O => ([], v)
  | S n => let '(bs, v') := add_u_loop n (Z.shiftr v 8) in (bs ++ [u8 v], v')
  end.

Definition cbb_buffer_add_u (v len_len : Z) : M bufst unit :=
  if len_len =? 0 then ret tt
  else
    let* out := cbb_buffer_add len_len in
    fun '(h, b) =>
      let '(bs, v') := add_u_loop (Z.to_nat len_len) v in
      let b := store out bs b in
      if negb (v' =? 0) then (None, (h, set_error b)) else (Some tt, (h, b)).

(** * Flushing *)

(** The ASN.1 length of [n] bytes: how many octets it takes and the first. *)
Definition asn1_len_len (n : Z) : option (Z * Z) :=
  if 4294967294 <? n then None
  else if 16777215 <? n then Some (5, Z.lor 128 4)
  else if 65535 <? n then Some (4, Z.lor 128 3)
  else if 255 <? n then Some (3, Z.lor 128 2)
  else if 127 <? n then Some (2, Z.lor 128 1)
  else Some (1, u8 n).

(** [CBB_flush] on the object whose chain of children is [kids]: whether it
    succeeds, the buffer, and the children that are still attached. *)
Fixpoint flush_from (kids : list frame) (s : bufst) : bool * bufst * list frame :=
  let '(h, b) := s in
  if error b then (false, (h, b), kids)
  else
  match kids with
  | [] => (true, (h, b), [])
  | child :: rest =>
    if pending_len_len child =? 0 then (true, (h, b), kids)
    else
    let child_start := u64 (offset child + pending_len_len child) in
    match flush_from rest (h, b) with
    | (false, (h, b), rest) => (false, (h, set_error b), child :: rest)
    | (true, (h, b), rest) =>
      if (child_start <? offset child) || (len b <? child_start)
      then (false, (h, set_error b), child :: rest)
      else
      let n := len b - child_start in
      if pending_is_asn1 child then
        match asn1_len_len n with
        | None => (false, (h, set_error b), child :: rest)
        | Some (len_len, initial_length_byte) =>
          let len_rest := if len_len =? 1 then 0 else n in
          let extra_bytes := len_len - 1 in
          match (if len_len =? 1 then (Some 0, (h, b))
                 else cbb_buffer_add extra_bytes (h, b)) with
          | (None, (h, b)) => (false, (h, set_error b), child :: rest)
          | (Some _, (h, b)) =>
            let b := if len_len =? 1 then b
                     else store (child_start + extra_bytes)
                            (zsub child_start n (block b)) b in
            let b := store (offset child) [initial_length_byte] b in
            let child := {| offset := offset child + 1; pending_len_len := extra_bytes;
                            pending_is_asn1 := true |} in
            let '(bs, v') := add_u_loop (Z.to_nat extra_bytes) len_rest in
            let b := store (offset child) bs b in
            if negb (v' =? 0) then (false, (h, set_error b), child :: rest)
            else (true, (h, b), [])
          end
        end
      else
        let '(bs, v') := add_u_loop (Z.to_nat (pending_len_len child)) n in
        let b := store (offset child) bs b in
        if negb (v' =? 0) then (false, (h, set_error b), child :: rest)
        else (true, (h, b), [])
    end
  end.

(** The [CBB] at depth [d] is still attached. *)
Definition attached (d : nat) (c : cbb_st) : bool := (d <=? length (children c))%nat.

Definition CBB_flush (d : nat) : M cbb_st unit := fun c =>
  match base c with
  | None => (None, c)
  | Some b =>
    if negb (attached d c) then (None, c)
    else
      let '(ok, (h, b), kids) := flush_from (drop d (children c)) (cbb_heap c, b) in
      (if ok then Some tt else None,
       {| base := Some b; children := take d (children c) ++ kids; cbb_heap := h |})
  end.

(** Run a buffer operation on the base of the object at depth [d]. *)
Definition on_base {A} (d : nat) (m : M bufst A) : M cbb_st A := fun c =>
  match base c with
  | None => (None, c)
  | Some b =>
    if negb (attached d c) then (None, c)
    else
      let '(r, (h, b)) := m (cbb_heap c, b) in
      (r, {| base := Some b; children := children c; cbb_heap := h |})
  end.

Definition store_at (i : Z) (bs : list Z) : M bufst unit := fun '(h, b) =>
  (Some tt, (h, store i bs b)).

Definition get_len : M bufst Z := fun '(h, b) => (Some (len b), (h, b)).

(** Attach a fresh child to the object at depth [d]. *)
Definition attach (d : nat) (f : frame) : M cbb_st unit := fun c =>
  (Some tt, {| base := base c; children := take d (children c) ++ [f];
               cbb_heap := cbb_heap c |}).

(** * Initialisation and the end *)

Definition sizeof_cbb_buffer_st : Z := 32.

Definition cbb_init (p : option (list Z)) (c : Z) (h : heap) : bool * cbb_st :=
  match OPENSSL_malloc h sizeof_cbb_buffer_st with
  | (None, h) => (false, {| base := None; children := []; cbb_heap := h |})
  | (Some _, h) =>
    (true, {| base := Some {| buf := p; len := 0; cap := c; can_resize := true;
                              error := false |};
              children := []; cbb_heap := h |})
  end.

Definition CBB_init (initial_capacity : Z) (h : heap) : bool * cbb_st :=
  match OPENSSL_malloc h initial_capacity with
  | (p, h) =>
    match p with
    | None => if 0 <? initial_capacity
              then (false, {| base := None; children := []; cbb_heap := h |})
              else cbb_init p initial_capacity h
    | Some _ => cbb_init p initial_capacity h
    end
  end.

(** The caller's buffer of [zlen p] bytes. *)
Definition CBB_init_fixed (p : list Z) (h : heap) : bool * cbb_st :=
  match cbb_init (Some p) (zlen p) h with
  | (false, c) => (false, c)
  | (true, c) =>
    match base c with
    | None => (false, c)
    | Some b =>
      (true, {| base := Some {| buf := buf b; len := len b; cap := cap b;
                                can_resize := false; error := error b |};
                children := children c; cbb_heap := cbb_heap c |})
    end
  end.

(** The top-level object only. *)
Definition CBB_cleanup (c : cbb_st) : cbb_st :=
  {| base := None; children := children c; cbb_heap := cbb_heap c |}.

(** [out_data] and [out_len] say whether those pointers are there; the result
    is the block and the number of valid bytes. *)
Definition CBB_finish (d : nat) (out_data out_len : bool) : M cbb_st (list Z * Z) :=
  check (Nat.eqb d 0) in
  let* _ := CBB_flush d in
  fun c =>
    match base c with
    | None => (None, c)
    | Some b =>
      if can_resize b && (negb out_data || negb out_len) then (None, c)
      else (Some (block b, len b), CBB_cleanup c)
    end.

(** * Adding data *)

Definition CBB_add_u_n (d : nat) (v n : Z) : M cbb_st unit :=
  let* _ := CBB_flush d in on_base d (cbb_buffer_add_u v n).

Definition CBB_add_u8 (d : nat) (value : Z) : M cbb_st unit := CBB_add_u_n d value 1.
Definition CBB_add_u16 (d : nat) (value : Z) : M cbb_st unit := CBB_add_u_n d value 2.
Definition CBB_add_u24 (d : nat) (value : Z) : M cbb_st unit := CBB_add_u_n d value 3.
Definition CBB_add_u32 (d : nat) (value : Z) : M cbb_st unit := CBB_add_u_n d value 4.
Definition CBB_add_u64 (d : nat) (value : Z) : M cbb_st unit := CBB_add_u_n d value 8.

Definition CBB_add_u16le (d : nat) (value : Z) : M cbb_st unit :=
  CBB_add_u16 d (CRYPTO_bswap2 value).
Definition CBB_add_u32le (d : nat) (value : Z) : M cbb_st unit :=
  CBB_add_u32 d (CRYPTO_bswap4 value).
Definition CBB_add_u64le (d : nat) (value : Z) : M cbb_st unit :=
  CBB_add_u64 d (CRYPTO_bswap8 value).

Definition CBB_add_bytes (d : nat) (data : list Z) : M cbb_st unit :=
  let* _ := CBB_flush d in
  let* dest := on_base d (cbb_buffer_add (zlen data)) in
  on_base d (store_at dest data).

(** The result is where the new space starts in the block. *)
Definition CBB_add_space (d : nat) (n : Z) : M cbb_st Z :=
  let* _ := CBB_flush d in on_base d (cbb_buffer_add n).

Definition CBB_add_zeros (d : nat) (n : Z) : M cbb_st unit :=
  let* out := CBB_add_space d n in
  on_base d (store_at out (zrep n 0)).

Definition CBB_reserve (d : nat) (n : Z) : M cbb_st Z :=
  let* _ := CBB_flush d in on_base d (cbb_buffer_reserve n).

Definition CBB_did_write (d : nat) (n : Z) : M cbb_st unit := fun c =>
  match base c with
  | None => (None, c)
  | Some b =>
    let newlen := u64 (len b + n) in
    if negb (length (children c) =? d)%nat || (newlen <? len b) || (cap b <? newlen)
    then (None, c)
    else (Some tt, {| base := Some (set_len newlen b); children := children c;
                      cbb_heap := cbb_heap c |})
  end.

(** Where the contents of the object at depth [d] start. *)
Definition contents_start (d : nat) (c : cbb_st) : Z :=
  match d with
  | O => 0
  | S d => match children c !! d with
           | Some f => offset f + pending_len_len f
           | None => 0
           end
  end.

Definition CBB_len (d : nat) (c : cbb_st) : Z :=
  match base c with None => 0 | Some b => len b - contents_start d c end.

Definition CBB_data (d : nat) (c : cbb_st) : list Z :=
  match base c with
  | None => []
  | Some b => zsub (contents_start d c) (CBB_len d c) (block b)
  end.

(** * Children *)

(** The child is the object at depth [S d]. *)
Definition cbb_add_length_prefixed (d : nat) (len_len : Z) : M cbb_st unit :=
  let* _ := CBB_flush d in
  let* off := on_base d get_len in
  let* prefix_bytes := on_base d (cbb_buffer_add len_len) in
  let* _ := on_base d (store_at prefix_bytes (zrep len_len 0)) in
  attach d {| offset := off; pending_len_len := len_len; pending_is_asn1 := false |}.

Definition CBB_add_u8_length_prefixed (d : nat) := cbb_add_length_prefixed d 1.
Definition CBB_add_u16_length_prefixed (d : nat) := cbb_add_length_prefixed d 2.
Definition CBB_add_u24_length_prefixed (d : nat) := cbb_add_length_prefixed d 3.

(** How many groups of seven bits [copy] has. *)
Fixpoint base128_len_len (fuel : nat) (copy : Z) : nat :=
  match fuel with
  | O => O
  | S fuel => if 0 <? copy then S (base128_len_len fuel (Z.shiftr copy 7)) else O
  end.

(** The loop from [i = n - 1] down to 0. *)
Fixpoint add_base128_loop (d : nat) (n : nat) (v : Z) : M cbb_st unit :=
  match n with
  | O => ret tt
  | S i =>
    let byte := Z.land (u8 (Z.shiftr v (7 * Z.of_nat i))) 127 in
    let byte := if Nat.eqb i 0 then byte else Z.lor byte 128 in
    let* _ := CBB_add_u8 d byte in
    add_base128_loop d i v
  end.

Definition add_base128_integer (d : nat) (v : Z) : M cbb_st unit :=
  let len_len := base128_len_len 10 v in
  let len_len := if Nat.eqb len_len 0 then 1%nat else len_len in
  add_base128_loop d len_len v.

Definition CBB_add_asn1 (d : nat) (tag : Z) : M cbb_st unit :=
  let* _ := CBB_flush d in
  let tag_bits := Z.land (u8 (Z.shiftr tag CBS_ASN1_TAG_SHIFT)) 224 in
  let tag_number := Z.land tag CBS_ASN1_TAG_NUMBER_MASK in
  let* _ := (if 31 <=? tag_number then
               let* _ := CBB_add_u8 d (Z.lor tag_bits 31) in
               add_base128_integer d tag_number
             else CBB_add_u8 d (u8 (Z.lor tag_bits tag_number))) in
  let* off := on_base d get_len in
  let* _ := CBB_add_u8 d 0 in
  attach d {| offset := off; pending_len_len := 1; pending_is_asn1 := true |}.

Definition CBB_discard_child (d : nat) (c : cbb_st) : cbb_st :=
  match children c !! d, base c with
  | Some f, Some b => {| base := Some (set_len (offset f) b);
                         children := take d (children c); cbb_heap := cbb_heap c |}
  | _, _ => c
  end.

(** * Primitive types *)

(** The loop over the bytes of [value], from byte [8 - n] on. *)
Fixpoint asn1_uint64_bytes (d : nat) (n : nat) (value : Z) (started : bool) : M cbb_st bool :=
  match n with
  | O => ret started
  | S n' =>
    let byte := Z.land (Z.shiftr value (8 * Z.of_nat n')) 255 in
    if negb started && (byte =? 0) then asn1_uint64_bytes d n' value started
    else
      let* _ := (if negb started && negb (Z.land byte 128 =? 0) then CBB_add_u8 d 0
                 else ret tt) in
      let* _ := CBB_add_u8 d byte in
      asn1_uint64_bytes d n' value true
  end.

Definition CBB_add_asn1_uint64 (d : nat) (value : Z) : M cbb_st unit :=
  let* _ := CBB_add_asn1 d CBS_ASN1_INTEGER in
  let* started := asn1_uint64_bytes (S d) 8 value false in
  let* _ := (if negb started then CBB_add_u8 (S d) 0 else ret tt) in
  CBB_flush d.

(** [u.bytes[i]] of the union holding [value], on a little-endian machine. *)
Definition int64_byte (value : Z) (i : nat) : Z := u8 (Z.shiftr value (8 * Z.of_nat i)).

(** The index the sign-extension loop stops at, starting from [start]. *)
Fixpoint int64_start (value : Z) (start : nat) : nat :=
  match start with
  | O => O
  | S s => if (int64_byte value start =? 255) &&
              negb (Z.land (int64_byte value s) 128 =? 0)
           then int64_start value s else start
  end.

(** Bytes [i] down to 0. *)
Fixpoint add_int64_bytes (d : nat) (value : Z) (i : nat) : M cbb_st unit :=
  let* _ := CBB_add_u8 d (int64_byte value i) in
  match i with
  | O => ret tt
  | S i => add_int64_bytes d value i
  end.

Definition CBB_add_asn1_int64 (d : nat) (value : Z) : M cbb_st unit :=
  if 0 <=? value then CBB_add_asn1_uint64 d value
  else
    let start := int64_start value 7 in
    let* _ := CBB_add_asn1 d CBS_ASN1_INTEGER in
    let* _ := add_int64_bytes (S d) value start in
    CBB_flush d.

Definition CBB_add_asn1_octet_string (d : nat) (data : list Z) : M cbb_st unit :=
  let* _ := CBB_add_asn1 d CBS_ASN1_OCTETSTRING in
  let* _ := CBB_add_bytes (S d) data in
  CBB_flush d.

Definition CBB_add_asn1_bool (d : nat) (value : bool) : M cbb_st unit :=
  let* _ := CBB_add_asn1 d CBS_ASN1_BOOLEAN in
  let* _ := CBB_add_u8 (S d) (if value then 255 else 0) in
  CBB_flush d.
End CBB.

(** * The buffer and its bytes *)

(** The valid bytes. *)
Definition data (b : cbb_buffer_st) : list Z := ztake (len b) (block b).

Definition wf (b : cbb_buffer_st) : Prop :=
  0 <= len b <= cap b /\ cap b < 2 ^ 64 /\ zlen (block b) = cap b /\ error b = false.

(** [n] bytes are certain to fit: they fit the block, or it can grow. *)
Definition room `{Malloc} (n : Z) (b : cbb_buffer_st) : Prop :=
  n <= cap b \/ can_resize b = true /\ grants (2 * n + 8) /\ 2 * n + 8 < 2 ^ 64.

Lemma add_u_loop_eq n v :
  0 <= v -> add_u_loop n v = (be_bytes n v, v / 256 ^ Z.of_nat n).
Proof.
  revert v. induction n as [|n IH]; intros v Hv; cbn [add_u_loop be_bytes].
  - rewrite Z.div_1_r. reflexivity.
  - rewrite Z.shiftr_div_pow2 by lia. change (2 ^ 8) with 256.
    rewrite IH by dlia. unfold u8.
    rewrite Nat2Z.inj_succ, Z.pow_succ_r, Z.div_div by lia. reflexivity.
Qed.

Lemma zlen_data b : wf b -> zlen (data b) = len b.
Proof. intros (Hl & _ & Hb & _). apply zlen_ztake. lia. Qed.

Lemma store_props i bs b :
  wf b -> 0 <= i -> i + zlen bs <= len b ->
  wf (store i bs b) /\ data (store i bs b) = zsplice i bs (data b).
Proof.
  intros (Hl & Hc & Hb & He) Hi Hlen.
  unfold wf, data, store, block. cbn -[zsplice]. fold (block b).
  rewrite zlen_zsplice, ztake_zsplice by lia. auto.
Qed.

Lemma room_store `{Malloc} n i bs b : room n (store i bs b) <-> room n b.
Proof. reflexivity. Qed.

Lemma room_le `{Malloc} n m b : m <= n -> room n b -> room m b.
Proof.
  unfold room, grants. intros Hm [Hn|(Hr & Hg & Hb)]; [left; lia|right].
  split; [exact Hr|]. split; [|lia]. intros h k Hk. apply Hg. lia.
Qed.

Lemma realloc_block `{Malloc} h p n r h' :
  0 <= n < 2 ^ 64 -> zlen (default [] p) <= n -> OPENSSL_realloc h p n = (Some r, h') ->
  zlen r = n /\ ztake (zlen (default [] p)) r = default [] p.
Proof.
  destruct p as [old|]; cbn [default]; intros Hn Ho E.
  - eapply OPENSSL_realloc_Some; eassumption.
  - apply OPENSSL_malloc_Some in E as [Hr _]; [auto|lia].
Qed.

Lemma realloc_grants `{Malloc} lim h p n :
  grants lim -> 0 <= n -> n + 8 <= lim -> lim < 2 ^ 64 -> zlen (default [] p) <= n ->
  exists r h', OPENSSL_realloc h p n = (Some r, h').
Proof.
  intros. destruct p as [old|].
  - edestruct OPENSSL_realloc_grants as (r & h' & E & _); eauto.
  - edestruct OPENSSL_malloc_grants as (r & h' & E & _); eauto.
Qed.

Section Buffer.
Context `{Malloc}.

(** What asking for [n] bytes of [b] may lead to. *)
Definition reserved (n : Z) (b : cbb_buffer_st) (r : option Z) (b' : cbb_buffer_st) : Prop :=
  match r with
  | Some out => out = len b /\ wf b' /\ len b' = len b /\ data b' = data b /\
                len b + n <= cap b' /\ (forall m, room m b -> room m b')
  | None => error b' = true /\ (forall m, room m b -> m < len b + n)
  end.

Lemma reserved_grown n b newcap h r h' :
  wf b -> cap b <= newcap < 2 ^ 64 -> len b + n <= newcap -> can_resize b = true ->
  OPENSSL_realloc h (buf b) newcap = (Some r, h') ->
  reserved n b (Some (len b)) (set_buf r newcap b).
Proof.
  intros (Hl & Hc & Hb & He) Hn Hfit Hres E.
  apply realloc_block in E as [Hr Ht]; [|lia|unfold block in Hb; lia].
  fold (block b) in Ht. unfold reserved, wf, data, room. cbn -[Z.pow]. rewrite Hres.
  rewrite Hb in Ht. rewrite <- Ht, ztake_ztake by lia.
  repeat split; auto; try lia. intros m [Hm|Hm]; [left; lia|right; tauto].
Qed.

Lemma cbb_buffer_reserve_spec n h b :
  wf b -> 0 <= n < 2 ^ 64 ->
  let '(r, (h', b')) := cbb_buffer_reserve n (h, b) in reserved n b r b'.
Proof.
  intros W Hn. pose proof W as (Hl & Hc & Hb & He). unfold cbb_buffer_reserve.
  destruct (Z.ltb_spec (u64 (len b + n)) (len b)) as [Ho|Ho].
  { split; [reflexivity|]. intros m Hr. pose proof (zlen_data b W).
    destruct (Z.ltb_spec (len b + n) (2 ^ 64)); [rewrite u64_small in Ho; lia|].
    destruct Hr as [Hr|(_ & _ & Hr)]; lia. }
  apply u64_overflow in Ho; [|lia|lia]. rewrite Ho. pose proof (u64_range (len b + n)).
  destruct (Z.ltb_spec (cap b) (len b + n)) as [Hg|Hg];
    [|repeat split; auto; lia].
  destruct (can_resize b) eqn:Hres; cbn [negb].
  2: { split; [reflexivity|]. unfold room. rewrite Hres.
       intros m [Hm|[Hm _]]; [lia|discriminate]. }
  set (nc := if _ || _ then _ else _).
  assert (Hnc : len b + n <= nc < 2 ^ 64 /\ nc <= Z.max (len b + n) (2 * cap b)).
  { pose proof (u64_range (cap b * 2)). unfold nc.
    destruct (Z.ltb_spec (u64 (cap b * 2)) (cap b)); [cbn [orb]; lia|].
    destruct (Z.ltb_spec (u64 (cap b * 2)) (len b + n)); cbn [orb]; [lia|].
    enough (u64 (cap b * 2) = 2 * cap b) by lia.
    replace (cap b * 2) with (cap b + cap b) by lia. replace (2 * cap b) with (cap b + cap b) by lia.
    apply u64_overflow; try lia. replace (cap b + cap b) with (cap b * 2) by lia. lia. }
  destruct (OPENSSL_realloc h (buf b) nc) as [[r|] h1] eqn:E.
  { eapply reserved_grown; eauto; lia. }
  split; [reflexivity|]. intros m Hr. destruct (Z.ltb_spec m (len b + n)); [assumption|].
  exfalso. destruct Hr as [Hr|(_ & Hgr & Hm)]; [lia|].
  destruct (realloc_grants (2 * m + 8) h (buf b) nc) as (r & h2 & E'); try lia; auto.
  - unfold block in Hb. lia.
  - rewrite E in E'. discriminate.
Qed.

(** Growing the valid bytes by [n] and filling them with [bs]. *)
Lemma cbb_buffer_add_spec n h b :
  wf b -> 0 <= n < 2 ^ 64 ->
  let '(r, (h', b')) := cbb_buffer_add n (h, b) in
  match r with
  | Some out => out = len b /\ wf b' /\ len b' = len b + n /\
                ztake (len b) (data b') = data b /\ (forall m, room m b -> room m b')
  | None => error b' = true /\ (forall m, room m b -> m < len b + n)
  end.
Proof.
  intros W Hn. unfold cbb_buffer_add, bind.
  pose proof (cbb_buffer_reserve_spec n h b W Hn) as R.
  destruct (cbb_buffer_reserve n (h, b)) as [[out|] [h1 b1]]; [|exact R].
  destruct R as (-> & (Hl & Hc & Hb & He) & Hlen & Hd & Hfit & Hroom).
  unfold set_len, wf, data, block in *. cbn. rewrite Hlen in *. fold (block b1) in *.
  rewrite ztake_ztake by lia. repeat split; auto; lia.
Qed.
End Buffer.

(** * What operations write

    An object with children still open shows, at depth [d], the bytes that
    [CBB_flush d] would leave: [None] when one of the open children is too long
    for its prefix.  [N] bytes are certain to fit. *)
Section Writes.
Context `{Malloc}.

Definition oapp (o k : option (list Z)) : option (list Z) :=
  match o, k with Some a, Some b => Some (a ++ b) | _, _ => None end.

Definition too_long (N : Z) (o : option (list Z)) : Prop :=
  forall bs, o = Some bs -> N < zlen bs.

Definition settled (N : Z) (o : option (list Z)) (r : bool * bufst * list frame) : Prop :=
  let '(ok, (h, b), kids) := r in
  if ok : bool then kids = [] /\ wf b /\ o = Some (data b) /\ room N b
  else error b = true /\ too_long N o.

Definition shows (N : Z) (fr : list frame) (o : option (list Z)) (c : cbb_st) : Prop :=
  exists b kids, base c = Some b /\ children c = fr ++ kids /\
                 settled N o (flush_from kids (cbb_heap c, b)).

(** The same, with no child below [fr]. *)
Definition rests (N : Z) (fr : list frame) (bs : list Z) (c : cbb_st) : Prop :=
  exists b, base c = Some b /\ children c = fr /\ wf b /\ data b = bs /\ room N b.

Definition failed (N : Z) (o : option (list Z)) (c : cbb_st) : Prop :=
  exists b, base c = Some b /\ error b = true /\ too_long N o.

(** The computation [m] on the object at depth [d] adds [o]. *)
Definition writes (d : nat) (m : M cbb_st unit) (o : option (list Z)) : Prop :=
  forall N fr p c, length fr = d -> shows N fr p c ->
  match m c with
  | (Some _, c') => shows N fr (oapp p o) c'
  | (None, c') => failed N (oapp p o) c'
  end.

(** [m] adds [bs] and leaves no child; [fs] are the children it adds. *)
Definition appends (d : nat) (m : M cbb_st unit) (bs : list Z) (fs : list Z -> list frame) : Prop :=
  forall N fr p c, length fr = d -> shows N fr p c ->
  match m c with
  | (Some _, c') => exists a, p = Some a /\ rests N (fr ++ fs a) (a ++ bs) c'
  | (None, c') => failed N (oapp p (Some bs)) c'
  end.

Lemma oapp_nil p : oapp p (Some []) = p.
Proof. destruct p; cbn; [rewrite app_nil_r|]; reflexivity. Qed.

Lemma oapp_assoc p q r : oapp p (oapp q r) = oapp (oapp p q) r.
Proof. destruct p, q, r; cbn; try reflexivity. rewrite app_assoc. reflexivity. Qed.

Lemma too_long_app N p q : too_long N p -> too_long N (oapp p q).
Proof.
  intros Hp bs E. destruct p as [a|], q as [b|]; try discriminate. injection E as <-.
  specialize (Hp a eq_refl). rewrite zlen_app. pose proof (zlen_nonneg b). lia.
Qed.

Lemma failed_app N p q c : failed N p c -> failed N (oapp p q) c.
Proof. intros (b & Hb & He & Ht). exists b. auto using too_long_app. Qed.

Lemma rests_shows N fr bs c : rests N fr bs c -> shows N fr (Some bs) c.
Proof.
  intros (b & Hb & Hc & W & <- & Hr). exists b, []. rewrite app_nil_r.
  repeat split; auto. cbn. pose proof W as (_ & _ & _ & He). rewrite He. cbn. auto.
Qed.

Lemma writes_ret d : writes d (ret tt) (Some []).
Proof. intros N fr p c _ Hs. cbn. rewrite oapp_nil. exact Hs. Qed.

Lemma writes_bind d m k o1 o2 :
  writes d m o1 -> writes d k o2 -> writes d (let* _ := m in k) (oapp o1 o2).
Proof.
  intros Hm Hk N fr p c Hd Hs. specialize (Hm N fr p c Hd Hs). unfold bind.
  rewrite oapp_assoc. destruct (m c) as [[[]|] c1].
  - apply Hk; assumption.
  - apply failed_app. assumption.
Qed.

Lemma appends_writes d m bs : appends d m bs (fun _ => []) -> writes d m (Some bs).
Proof.
  intros Hm N fr p c Hd Hs. specialize (Hm N fr p c Hd Hs).
  destruct (m c) as [[[]|] c1]; [|exact Hm]. destruct Hm as (a & -> & Hr).
  rewrite app_nil_r in Hr. apply rests_shows. exact Hr.
Qed.

Lemma appends_bind d m k b1 b2 f :
  writes d m (Some b1) -> appends d k b2 f ->
  appends d (let* _ := m in k) (b1 ++ b2) (fun a => f (a ++ b1)).
Proof.
  intros Hm Hk N fr p c Hd Hs. specialize (Hm N fr p c Hd Hs). unfold bind.
  destruct (m c) as [[[]|] c1].
  - specialize (Hk N fr _ c1 Hd Hm). destruct (k c1) as [[[]|] c2].
    + destruct Hk as (a & E & Hr). destruct p as [a0|]; [|discriminate]. injection E as <-.
      exists a0. rewrite app_assoc. auto.
    + rewrite <- oapp_assoc in Hk. exact Hk.
  - change (Some (b1 ++ b2)) with (oapp (Some b1) (Some b2)). rewrite oapp_assoc.
    apply failed_app. assumption.
Qed.

Lemma CBB_flush_appends d : appends d (CBB_flush d) [] (fun _ => []).
Proof.
  intros N fr p c Hd (b & kids & Hb & Hc & Hs). unfold CBB_flush, attached.
  rewrite Hb, Hc, length_app, Hd. rewrite (proj2 (Nat.leb_le d (d + _))) by lia. cbn [negb].
  rewrite drop_app_length', take_app_length' by auto.
  destruct (flush_from kids (cbb_heap c, b)) as [[[] [h' b']] kids'].
  - destruct Hs as (-> & W & -> & Hr). exists (data b'). split; [reflexivity|].
    exists b'. cbn. rewrite !app_nil_r. auto.
  - destruct Hs as (He & Ht). exists b'. rewrite oapp_nil. auto.
Qed.

(** A buffer operation that adds [bs] to the valid bytes. *)
Definition buffer_adds (m : M bufst unit) (bs : list Z) : Prop :=
  forall h b, wf b ->
  let '(r, (h', b')) := m (h, b) in
  match r with
  | Some _ => wf b' /\ data b' = data b ++ bs /\ (forall n, room n b -> room n b')
  | None => error b' = true /\ (forall n, room n b -> n < len b + zlen bs)
  end.

Lemma on_base_rests {A} d (m : M bufst A) c b :
  base c = Some b -> length (children c) = d ->
  on_base d m c = (let '(r, (h, b')) := m (cbb_heap c, b) in
                   (r, {| base := Some b'; children := children c; cbb_heap := h |})).
Proof.
  intros Hb Hl. unfold on_base, attached. rewrite Hb, Hl, Nat.leb_refl. reflexivity.
Qed.

Lemma buffer_adds_appends d m bs :
  buffer_adds m bs ->
  appends d (let* _ := CBB_flush d in on_base d m) bs (fun _ => []).
Proof.
  intros Hm N fr p c Hd Hs. pose proof (CBB_flush_appends d N fr p c Hd Hs) as Hf.
  unfold bind. destruct (CBB_flush d c) as [[[]|] c1].
  2: { rewrite oapp_nil in Hf. apply failed_app. exact Hf. }
  destruct Hf as (a & -> & b & Hb & Hc & W & Hdata & Hr). rewrite !app_nil_r in Hdata, Hc.
  rewrite (on_base_rests _ _ _ _ Hb) by (rewrite Hc; assumption).
  specialize (Hm (cbb_heap c1) b W). destruct (m (cbb_heap c1, b)) as [[[]|] [h' b']].
  - destruct Hm as (W' & Hd' & Hr'). exists a. split; [reflexivity|].
    exists b'. cbn. rewrite Hd', Hdata, app_nil_r. auto 7.
  - destruct Hm as (He & Ht). exists b'. cbn. split; [reflexivity|]. split; [assumption|].
    intros l E. injection E as <-. rewrite <- Hdata, zlen_app, (zlen_data b W). auto.
Qed.

(** Growing by the size of [bs] and storing [bs] in the new space. *)
Lemma add_store_adds bs :
  zlen bs < 2 ^ 64 ->
  buffer_adds (let* out := cbb_buffer_add (zlen bs) in store_at out bs) bs.
Proof.
  intros Hn h b W. pose proof (zlen_nonneg bs). unfold bind.
  pose proof (cbb_buffer_add_spec (zlen bs) h b W (conj (zlen_nonneg bs) Hn)) as R.
  destruct (cbb_buffer_add (zlen bs) (h, b)) as [[out|] [h1 b1]]; [|exact R].
  destruct R as (-> & W1 & Hl & Hd & Hr). cbn.
  destruct (store_props (len b) bs b1 W1) as [W2 Hd2]; [destruct W; lia|lia|].
  split; [exact W2|]. split; [|exact Hr]. rewrite Hd2. unfold zsplice. rewrite Hd.
  f_equal. replace (zdrop (len b + zlen bs) (data b1)) with (@nil Z); [apply app_nil_r|].
  symmetry. apply zlen_0. destruct W. rewrite zlen_zdrop; rewrite (zlen_data b1 W1); lia.
Qed.

Lemma cbb_buffer_add_u_adds v n :
  0 < n < 2 ^ 64 -> 0 <= v < 256 ^ n ->
  buffer_adds (cbb_buffer_add_u v n) (be_bytes (Z.to_nat n) v).
Proof.
  intros Hn Hv h b W.
  assert (Hz : zlen (be_bytes (Z.to_nat n) v) = n) by (rewrite zlen_be_bytes; lia).
  pose proof (add_store_adds (be_bytes (Z.to_nat n) v) ltac:(lia) h b W) as R.
  rewrite Hz in R. unfold cbb_buffer_add_u, bind in *.
  destruct (Z.eqb_spec n 0); [lia|].
  destruct (cbb_buffer_add n (h, b)) as [[out|] [h1 b1]]; [|rewrite Hz; exact R].
  rewrite add_u_loop_eq by lia. rewrite Z2Nat.id by lia.
  rewrite Z.div_small by lia. cbn [Z.eqb negb]. exact R.
Qed.

(** A number too large for its field is an error. *)
Lemma cbb_buffer_add_u_overflow v n h b :
  0 < n < 2 ^ 64 -> 256 ^ n <= v -> wf b ->
  exists h' b', cbb_buffer_add_u v n (h, b) = (None, (h', b')) /\ error b' = true.
Proof.
  intros Hn Hv W. unfold cbb_buffer_add_u, bind. destruct (Z.eqb_spec n 0); [lia|].
  pose proof (cbb_buffer_add_spec n h b W ltac:(lia)) as R.
  destruct (cbb_buffer_add n (h, b)) as [[out|] [h1 b1]].
  - assert (0 < 256 ^ n) by (apply Z.pow_pos_nonneg; lia).
    rewrite add_u_loop_eq by lia. rewrite Z2Nat.id by lia.
    destruct (Z.eqb_spec (v / 256 ^ n) 0); [|eauto]. 
    apply Z.div_small_iff in e; lia.
  - destruct R. eauto.
Qed.

Lemma on_base_bind {A B} d (m : M bufst A) (k : A -> M bufst B) c :
  bind (on_base d m) (fun x => on_base d (k x)) c = on_base d (bind m k) c.
Proof.
  unfold on_base, bind. destruct (base c) as [b|]; [|reflexivity].
  destruct (attached d c) eqn:Ha; [|reflexivity]. cbn [negb].
  destruct (m (cbb_heap c, b)) as [[a|] [h' b']]; [|reflexivity].
  cbn. change (attached d {| base := Some b'; children := children c; cbb_heap := h' |})
    with (attached d c). rewrite Ha. reflexivity.
Qed.

Lemma appends_ext d m m' bs fs :
  (forall c, m c = m' c) -> appends d m' bs fs -> appends d m bs fs.
Proof. intros E Hm N fr p c. rewrite E. apply Hm. Qed.

Lemma CBB_add_u_n_appends d v n :
  0 < n < 2 ^ 64 -> 0 <= v < 256 ^ n ->
  appends d (CBB_add_u_n d v n) (be_bytes (Z.to_nat n) v) (fun _ => []).
Proof. intros. apply buffer_adds_appends, cbb_buffer_add_u_adds; assumption. Qed.

Lemma CBB_add_u8_appends d v : byte_ok v -> appends d (CBB_add_u8 d v) [v] (fun _ => []).
Proof.
  unfold byte_ok. intros Hv. pose proof (CBB_add_u_n_appends d v 1 ltac:(lia) Hv) as Ha.
  change (be_bytes _ v) with [v mod 256] in Ha. rewrite Z.mod_small in Ha by lia. exact Ha.
Qed.

Lemma CBB_add_bytes_appends d bs :
  zlen bs < 2 ^ 64 -> appends d (CBB_add_bytes d bs) bs (fun _ => []).
Proof.
  intros Hn. eapply appends_ext; [|apply buffer_adds_appends, add_store_adds, Hn].
  intros c. apply bind_ext. intros _ s. apply on_base_bind.
Qed.

Lemma CBB_add_zeros_appends d n :
  0 <= n < 2 ^ 64 -> appends d (CBB_add_zeros d n) (zrep n 0) (fun _ => []).
Proof.
  intros Hn. eapply appends_ext; [|apply buffer_adds_appends, add_store_adds].
  2: { rewrite zlen_zrep; lia. }
  intros c. rewrite zlen_zrep by lia. unfold CBB_add_zeros, CBB_add_space.
  rewrite bind_bind. apply bind_ext. intros _ s. apply on_base_bind.
Qed.

(** * Base-128 integers and tags *)

Definition groups (n : nat) (v : Z) : list Z :=
  map (fun i => 128 + v / 128 ^ Z.of_nat i mod 128) (rev (seq 0 n)).

Lemma groups_S n v : groups (S n) v = groups n (v / 128) ++ [128 + v mod 128].
Proof.
  unfold groups. cbn [seq rev]. rewrite map_app, <- seq_shift, <- map_rev, map_map. cbn [map].
  change (128 ^ Z.of_nat 0) with 1. rewrite Z.div_1_r. f_equal.
  apply map_ext. intros i. rewrite Nat2Z.inj_succ, Z.pow_succ_r, Z.div_div by lia. reflexivity.
Qed.

Lemma groups_first n v : groups (S n) v = (128 + v / 128 ^ Z.of_nat n mod 128) :: groups n v.
Proof. unfold groups. rewrite seq_S, rev_app_distr. reflexivity. Qed.

Lemma base128_hi_groups fuel v :
  0 <= v -> base128_hi fuel v = groups (base128_len_len fuel v) v.
Proof.
  revert v. induction fuel as [|fuel IH]; intros v Hv; [reflexivity|].
  cbn [base128_hi base128_len_len].
  destruct (Z.eqb_spec v 0), (Z.ltb_spec 0 v); try lia; [reflexivity|].
  rewrite groups_S, Z.shiftr_div_pow2 by lia. change (2 ^ 7) with 128.
  rewrite IH by dlia. reflexivity.
Qed.

Lemma group_byte v i :
  0 <= v -> Z.land (u8 (Z.shiftr v (7 * Z.of_nat i))) 127 = v / 128 ^ Z.of_nat i mod 128.
Proof.
  intros Hv. rewrite Z.shiftr_div_pow2 by lia. rewrite Z.pow_mul_r by lia.
  change (2 ^ 7) with 128. change 127 with (2 ^ 7 - 1). rewrite land_mask by lia.
  unfold u8. change (2 ^ 7) with 128. dlia.
Qed.

Lemma lor_128 b : 0 <= b < 128 -> Z.lor b 128 = 128 + b.
Proof. intros. rewrite Z.lor_comm. apply (lor_disjoint 7 128 b); lia || reflexivity. Qed.

Lemma add_base128_loop_appends d n v :
  0 <= v ->
  appends d (add_base128_loop d (S n) v) (groups n (v / 128) ++ [v mod 128]) (fun _ => []).
Proof.
  intros Hv. induction n as [|n IH].
  - eapply appends_ext; [intros c; apply bind_ret|].
    rewrite group_byte by lia. cbn [Nat.eqb]. change (128 ^ Z.of_nat 0) with 1.
    rewrite Z.div_1_r. apply CBB_add_u8_appends. unfold byte_ok. dlia.
  - rewrite groups_first. cbn [app].
    apply (appends_bind d _ _ [128 + v / 128 / 128 ^ Z.of_nat n mod 128] _ _) with (2 := IH).
    apply appends_writes. rewrite group_byte by lia. cbn [Nat.eqb].
    rewrite Nat2Z.inj_succ, Z.pow_succ_r, <- Z.div_div by lia.
    set (g := v / 128 / 128 ^ Z.of_nat n mod 128). assert (0 <= g < 128) by (unfold g; dlia).
    rewrite lor_128 by lia. apply CBB_add_u8_appends. unfold byte_ok. lia.
Qed.

Lemma add_base128_integer_appends d v :
  0 <= v -> appends d (add_base128_integer d v) (base128 v) (fun _ => []).
Proof.
  intros Hv. unfold add_base128_integer, base128.
  cbn [base128_len_len]. destruct (Z.ltb_spec 0 v).
  - cbn [Nat.eqb]. rewrite base128_hi_groups by dlia.
    rewrite Z.shiftr_div_pow2 by lia. apply add_base128_loop_appends. lia.
  - replace v with 0 by lia. apply (add_base128_loop_appends d 0 0). lia.
Qed.

Lemma tag_fields tag :
  tag_ok tag ->
  Z.land (u8 (Z.shiftr tag CBS_ASN1_TAG_SHIFT)) 224 = tag / 2 ^ 29 * 32 /\
  Z.land tag CBS_ASN1_TAG_NUMBER_MASK = tag mod 2 ^ 29.
Proof.
  unfold tag_ok. intros Ht. split.
  - rewrite Z.shiftr_div_pow2 by (unfold CBS_ASN1_TAG_SHIFT; lia). change (2 ^ CBS_ASN1_TAG_SHIFT) with (2 ^ 24).
    rewrite u8_small by (unfold byte_ok; dlia).
    rewrite land_byte_224 by (unfold byte_ok; dlia). dlia.
  - change CBS_ASN1_TAG_NUMBER_MASK with (2 ^ 29 - 1). apply land_mask. lia.
Qed.

Lemma lor_tag_bits t n : 0 <= t < 8 -> 0 <= n < 32 -> Z.lor (t * 32) n = t * 32 + n.
Proof. intros. apply (lor_disjoint 5); [lia| |lia]. change (2 ^ 5) with 32. dlia. Qed.

(** The octets of the tag, before the length. *)
Definition add_tag (d : nat) (tag : Z) : M cbb_st unit :=
  let tag_bits := Z.land (u8 (Z.shiftr tag CBS_ASN1_TAG_SHIFT)) 224 in
  let tag_number := Z.land tag CBS_ASN1_TAG_NUMBER_MASK in
  if 31 <=? tag_number then
    let* _ := CBB_add_u8 d (Z.lor tag_bits 31) in
    add_base128_integer d tag_number
  else CBB_add_u8 d (u8 (Z.lor tag_bits tag_number)).

Lemma add_tag_appends d tag :
  tag_ok tag -> appends d (add_tag d tag) (der_tag tag) (fun _ => []).
Proof.
  intros Ht. pose proof Ht as Ht'. unfold tag_ok in Ht'.
  unfold add_tag, der_tag. cbv zeta. destruct (tag_fields tag Ht) as [-> ->].
  destruct (Z.leb_spec 31 (tag mod 2 ^ 29)), (Z.ltb_spec (tag mod 2 ^ 29) 31); try lia.
  - apply (appends_bind d _ _ [tag / 2 ^ 29 * 32 + 31] _ _)
      with (2 := add_base128_integer_appends d _ (proj1 (Z.mod_pos_bound tag (2 ^ 29) eq_refl))).
    apply appends_writes. rewrite lor_tag_bits by dlia.
    apply CBB_add_u8_appends. unfold byte_ok. dlia.
  - rewrite lor_tag_bits by dlia.
    rewrite u8_small by (unfold byte_ok; dlia). apply CBB_add_u8_appends. unfold byte_ok. dlia.
Qed.

(** * Opening a child *)

(** [k] extends an object without children at depth [d]. *)
Definition extends (d : nat) (k : M cbb_st unit) (bs : list Z) (fs : list Z -> list frame) : Prop :=
  forall N fr a c, length fr = d -> rests N fr a c ->
  match k c with
  | (Some _, c') => rests N (fr ++ fs a) (a ++ bs) c'
  | (None, c') => failed N (Some (a ++ bs)) c'
  end.

Lemma appends_extends d m k b1 b2 f :
  appends d m b1 (fun _ => []) -> extends d k b2 f ->
  appends d (let* _ := m in k) (b1 ++ b2) (fun a => f (a ++ b1)).
Proof.
  intros Hm Hk N fr p c Hd Hs. specialize (Hm N fr p c Hd Hs). unfold bind.
  destruct (m c) as [[[]|] c1].
  - destruct Hm as (a & -> & Hr). rewrite app_nil_r in Hr. specialize (Hk N fr _ c1 Hd Hr).
    rewrite <- app_assoc in Hk. destruct (k c1) as [[[]|] c2]; [|exact Hk]. eauto.
  - change (Some (b1 ++ b2)) with (oapp (Some b1) (Some b2)). rewrite oapp_assoc.
    apply failed_app. assumption.
Qed.

(** A child with header [hdr] and a placeholder of [n] bytes for its length. *)
Definition opens (d : nat) (m : M cbb_st unit) (hdr : list Z) (n : Z) (asn1 : bool) : Prop :=
  appends d m (hdr ++ zrep n 0)
    (fun a => [{| offset := zlen (a ++ hdr); pending_len_len := n; pending_is_asn1 := asn1 |}]).

Lemma attach_rests N fr bs c f :
  rests N fr bs c ->
  exists c', attach (length fr) f c = (Some tt, c') /\ rests N (fr ++ [f]) bs c'.
Proof.
  intros (b & Hb & Hc & W). unfold attach. eexists. split; [reflexivity|].
  exists b. cbn. rewrite Hc, firstn_all. auto.
Qed.

Lemma get_len_rests N fr bs c :
  rests N fr bs c -> exists c', on_base (length fr) get_len c = (Some (zlen bs), c') /\ rests N fr bs c'.
Proof.
  intros (b & Hb & Hc & W & Hd & Hr). rewrite (on_base_rests _ _ _ b) by (rewrite ?Hc; auto).
  cbn. rewrite <- Hd, (zlen_data b W). eexists. split; [reflexivity|]. exists b. auto.
Qed.

(** Whatever adds the placeholder, between reading the length and attaching. *)
Lemma open_extends d m n asn1 :
  extends d m (zrep n 0) (fun _ => []) ->
  extends d (let* off := on_base d get_len in
             let* _ := m in
             attach d {| offset := off; pending_len_len := n; pending_is_asn1 := asn1 |})
    (zrep n 0)
    (fun a => [{| offset := zlen a; pending_len_len := n; pending_is_asn1 := asn1 |}]).
Proof.
  intros Hm N fr a c <- Hr. destruct (get_len_rests _ _ _ _ Hr) as (c1 & E1 & Hr1).
  erewrite bind_Some by exact E1. specialize (Hm N fr a c1 eq_refl Hr1). unfold bind.
  destruct (m c1) as [[[]|] c2]; [|exact Hm]. rewrite app_nil_r in Hm.
  destruct (attach_rests _ _ _ _ {| offset := zlen a; pending_len_len := n;
    pending_is_asn1 := asn1 |} Hm) as (c3 & -> & Hr3). exact Hr3.
Qed.

Lemma appends_from_rest d m bs : appends d m bs (fun _ => []) -> extends d m bs (fun _ => []).
Proof.
  intros Hm N fr a c Hd Hr. specialize (Hm N fr _ c Hd (rests_shows _ _ _ _ Hr)).
  destruct (m c) as [[[]|] c']; [|exact Hm]. destruct Hm as (a' & E & Hm).
  injection E as <-. exact Hm.
Qed.

Lemma buffer_adds_extends d m bs : buffer_adds m bs -> extends d (on_base d m) bs (fun _ => []).
Proof.
  intros Hm N fr a c Hd (b & Hb & Hc & W & <- & Hr).
  rewrite (on_base_rests _ _ _ _ Hb) by (rewrite Hc; assumption).
  specialize (Hm (cbb_heap c) b W). destruct (m (cbb_heap c, b)) as [[[]|] [h' b']].
  - destruct Hm as (W' & Hd' & Hr'). exists b'. cbn. rewrite Hd', app_nil_r. auto 7.
  - destruct Hm as (He & Ht). exists b'. cbn. split; [reflexivity|]. split; [assumption|].
    intros l E. injection E as <-. rewrite zlen_app, (zlen_data b W). auto.
Qed.

Lemma appends_conv d m m' bs bs' fs fs' :
  (forall c, m c = m' c) -> bs = bs' -> (forall a, fs a = fs' a) ->
  appends d m' bs' fs' -> appends d m bs fs.
Proof.
  intros E -> Ef Hm N fr p c Hd Hs. rewrite E. specialize (Hm N fr p c Hd Hs).
  destruct (m' c) as [[?|] c']; [|exact Hm]. destruct Hm as (a & -> & Hr).
  exists a. rewrite Ef. auto.
Qed.

Lemma CBB_add_asn1_opens d tag : tag_ok tag -> opens d (CBB_add_asn1 d tag) (der_tag tag) 1 true.
Proof.
  intros Ht. eapply appends_conv; cycle 3.
  - eapply (appends_bind d (CBB_flush d) _ []); [apply appends_writes, CBB_flush_appends|].
    apply (appends_extends d (add_tag d tag)); [apply add_tag_appends; assumption|].
    apply (open_extends d (CBB_add_u8 d 0) 1 true). apply appends_from_rest, CBB_add_u8_appends.
    unfold byte_ok. lia.
  - reflexivity.
  - reflexivity.
  - intros a. cbn beta. rewrite app_nil_r. reflexivity.
Qed.

Lemma cbb_add_length_prefixed_opens d n :
  0 <= n < 2 ^ 64 -> opens d (cbb_add_length_prefixed d n) [] n false.
Proof.
  intros Hn. eapply appends_conv; cycle 3.
  - eapply (appends_extends d (CBB_flush d) _ []); [apply CBB_flush_appends|].
    apply (open_extends d (on_base d (let* p := cbb_buffer_add (zlen (zrep n 0)) in
                                      store_at p (zrep n 0))) n false).
    apply buffer_adds_extends, add_store_adds. rewrite zlen_zrep; lia.
  - intros c. rewrite zlen_zrep by lia. apply bind_ext. intros _ s. apply bind_ext. intros off s'.
    rewrite <- bind_bind. unfold bind at 1 4. rewrite on_base_bind. reflexivity.
  - reflexivity.
  - reflexivity.
Qed.

(** * Closing a child *)

(** The length octets of [k] bytes of contents, if they have any. *)
Definition length_prefix (n : Z) (asn1 : bool) (k : Z) : option (list Z) :=
  if asn1 then if k <=? 4294967294 then Some (der_length k) else None
  else if k <? 256 ^ n then Some (be_bytes (Z.to_nat n) k) else None.

Definition sealed (hdr : list Z) (n : Z) (asn1 : bool) (o : option (list Z)) : option (list Z) :=
  match o with
  | None => None
  | Some s => match length_prefix n asn1 (zlen s) with
              | None => None
              | Some lp => Some (hdr ++ lp ++ s)
              end
  end.

Lemma asn1_len_len_spec k :
  0 <= k ->
  match asn1_len_len k with
  | None => length_prefix 1 true k = None
  | Some (l, i) =>
      1 <= l <= 5 /\ k < 256 ^ l /\ (l = 1 -> i = k) /\ (l <> 1 -> k < 256 ^ (l - 1)) /\
      length_prefix 1 true k =
        Some (i :: if l =? 1 then [] else be_bytes (Z.to_nat (l - 1)) k)
  end.
Proof.
  intros Hk. unfold asn1_len_len, length_prefix, der_length.
  destruct (Z.ltb_spec 4294967294 k), (Z.leb_spec k 4294967294); try lia; [reflexivity|].
  destruct (Z.ltb_spec 16777215 k); [|destruct (Z.ltb_spec 65535 k);
    [|destruct (Z.ltb_spec 255 k); [|destruct (Z.ltb_spec 127 k)]]];
  destruct (Z.ltb_spec k 128), (Z.ltb_spec k 256), (Z.ltb_spec k 65536),
    (Z.ltb_spec k 16777216); try lia;
  rewrite ?u8_small by (unfold byte_ok; lia); repeat split; reflexivity || lia.
Qed.

Lemma flush_from_error kids h b : error b = true -> flush_from kids (h, b) = (false, (h, b), kids).
Proof. destruct kids; cbn; intros ->; reflexivity. Qed.

Lemma zsub_block b i n :
  wf b -> 0 <= i -> 0 <= n -> i + n <= len b -> zsub i n (block b) = zsub i n (data b).
Proof.
  intros (Hl & _ & Hb & _) Hi Hn Hin. unfold data. rewrite <- (ztake_zdrop (len b) (block b)) at 1.
  set (p := ztake (len b) (block b)). assert (Hp : zlen p = len b) by (apply zlen_ztake; lia).
  rewrite <- (ztake_zdrop i p). set (q := zdrop i p).
  assert (Hq : zlen (ztake i p) = i) by (apply zlen_ztake; lia).
  rewrite <- (ztake_zdrop n q).
  assert (Hz : zlen (ztake n q) = n) by (apply zlen_ztake; unfold q; rewrite zlen_zdrop; lia).
  rewrite <- !app_assoc, !(zsub_app i n) by auto. reflexivity.
Qed.

(** The contents moved up by the size of [bs], then the header stored. *)
Lemma move_and_store (a s junk bs : list Z) z i e :
  e = zlen junk -> zlen bs = e ->
  zsplice (zlen a + 1) bs (zsplice (zlen a) [i] (zsplice (zlen a + 1 + e) s (a ++ [z] ++ s ++ junk)))
  = a ++ (i :: bs) ++ s.
Proof.
  intros -> Hbs. set (m := ztake (zlen junk) (s ++ junk)). set (m' := zdrop (zlen junk) (s ++ junk)).
  assert (Hs : s ++ junk = m ++ m') by (symmetry; apply ztake_zdrop).
  pose proof (zlen_nonneg s). pose proof (zlen_nonneg junk).
  assert (Hm : zlen m = zlen junk) by (apply zlen_ztake; rewrite zlen_app; lia).
  assert (Hm' : zlen m' = zlen s) by (unfold m'; rewrite zlen_zdrop; rewrite zlen_app; lia).
  rewrite Hs. replace (a ++ [z] ++ m ++ m') with ((a ++ [z] ++ m) ++ m' ++ [])
    by (rewrite app_nil_r, <- !app_assoc; reflexivity).
  rewrite zsplice_app by (autorewrite with zlen; lia).
  rewrite app_nil_r, <- !app_assoc. rewrite (zsplice_app (zlen a) [i] a [z]) by auto.
  rewrite app_assoc. rewrite (zsplice_app (zlen a + 1) bs _ m) by (autorewrite with zlen; lia).
  rewrite <- app_assoc. reflexivity.
Qed.

Lemma store_data i bs b d d' :
  wf b /\ data b = d -> 0 <= i -> i + zlen bs <= zlen d -> zsplice i bs d = d' ->
  wf (store i bs b) /\ data (store i bs b) = d'.
Proof.
  intros [W <-] Hi Hl <-. rewrite (zlen_data b W) in Hl. apply store_props; assumption.
Qed.

(** The last steps of flushing a child whose contents are [s]. *)
Definition close_asn1 (i n : Z) (child : frame) (rest : list frame) (s : bufst)
  : bool * bufst * list frame :=
  let '(h, b) := s in
  let child_start := i + 1 in
  match asn1_len_len n with
  | None => (false, (h, set_error b), child :: rest)
  | Some (len_len, initial_length_byte) =>
    let extra_bytes := len_len - 1 in
    match (if len_len =? 1 then (Some 0, (h, b)) else cbb_buffer_add extra_bytes (h, b)) with
    | (None, (h, b)) => (false, (h, set_error b), child :: rest)
    | (Some _, (h, b)) =>
      let b := if len_len =? 1 then b
               else store (child_start + extra_bytes) (zsub child_start n (block b)) b in
      let b := store i [initial_length_byte] b in
      let '(bs, v') := add_u_loop (Z.to_nat extra_bytes) (if len_len =? 1 then 0 else n) in
      let b := store (i + 1) bs b in
      if negb (v' =? 0)
      then (false, (h, set_error b), {| offset := i + 1; pending_len_len := extra_bytes;
                                        pending_is_asn1 := true |} :: rest)
      else (true, (h, b), [])
    end
  end.

Lemma close_asn1_settled N a s child rest h b :
  wf b -> data b = a ++ [0] ++ s -> room N b ->
  settled N (sealed a 1 true (Some s)) (close_asn1 (zlen a) (zlen s) child rest (h, b)).
Proof.
  intros W Hd Hr. unfold close_asn1, sealed. cbv zeta. pose proof (zlen_nonneg s).
  pose proof (zlen_nonneg a). pose proof (zlen_data b W) as Hlen. rewrite Hd in Hlen.
  autorewrite with zlen in Hlen.
  pose proof (asn1_len_len_spec (zlen s) ltac:(lia)) as Hl.
  destruct (asn1_len_len (zlen s)) as [[l i]|].
  2: { rewrite Hl. split; [reflexivity|]. discriminate. }
  destruct Hl as (Hl & _ & Hi1 & Hn1 & ->). destruct (Z.eqb_spec l 1) as [->|Hne].
  - destruct (store_data (zlen a) [i] b (a ++ [0] ++ s) (a ++ [i] ++ s) (conj W Hd))
      as [W1 D1]; [lia| |apply zsplice_app; auto|].
    { autorewrite with zlen. lia. }
    destruct (store_data (zlen a + 1) [] _ _ (a ++ [i] ++ s) (conj W1 D1)) as [W2 D2];
      [lia| |apply zsplice_nil|]. { autorewrite with zlen. lia. }
    split; [reflexivity|]. split; [exact W2|]. split; [f_equal; symmetry; exact D2|exact Hr].
  - pose proof (cbb_buffer_add_spec (l - 1) h b W ltac:(lia)) as R.
    destruct (cbb_buffer_add (l - 1) (h, b)) as [[out|] [h1 b1]].
    2: { destruct R as [He Ht]. split; [reflexivity|]. intros bs E. injection E as <-.
         specialize (Ht N Hr). autorewrite with zlen. rewrite zlen_be_bytes. lia. }
    destruct R as (_ & W1 & Hl1 & Hd1 & Hr1).
    assert (exists junk, data b1 = a ++ [0] ++ s ++ junk /\ zlen junk = l - 1) as (junk & D1 & Hj).
    { exists (zdrop (len b) (data b1)). rewrite <- (ztake_zdrop (len b) (data b1)) at 1.
      rewrite Hd1, Hd, <- !app_assoc. split; [reflexivity|].
      rewrite zlen_zdrop; rewrite (zlen_data b1 W1); lia. }
    rewrite (zsub_block b1) by (auto; lia).
    assert (Hsub : zsub (zlen a + 1) (zlen s) (data b1) = s).
    { rewrite D1. replace (a ++ [0] ++ s ++ junk) with ((a ++ [0]) ++ s ++ junk)
        by (rewrite <- app_assoc; reflexivity). apply zsub_app; autorewrite with zlen; lia. }
    rewrite Hsub.
    destruct (store_props (zlen a + 1 + (l - 1)) s b1 W1) as [W2 D2]; [lia|lia|].
    destruct (store_props (zlen a) [i] _ W2) as [W3 D3];
      [lia|cbn [store len]; autorewrite with zlen; lia|].
    rewrite add_u_loop_eq by lia. rewrite Z2Nat.id by lia. rewrite Z.div_small by lia.
    cbn [Z.eqb negb].
    destruct (store_props (zlen a + 1) (be_bytes (Z.to_nat (l - 1)) (zlen s)) _ W3) as [W4 D4];
      [lia|rewrite zlen_be_bytes; cbn [store len]; lia|].
    rewrite D3, D2, D1, move_and_store in D4 by (rewrite ?zlen_be_bytes; lia).
    split; [reflexivity|]. split; [exact W4|]. rewrite D4. split; [reflexivity|].
    exact (Hr1 _ Hr).
Qed.

Lemma length_prefix_len n asn1 k lp :
  0 <= n -> 0 <= k -> (asn1 = true -> n = 1) -> length_prefix n asn1 k = Some lp -> n <= zlen lp.
Proof.
  unfold length_prefix. intros Hn Hk Ha E. destruct asn1.
  - destruct (k <=? 4294967294); [|discriminate]. injection E as <-.
    pose proof (der_length_len k). rewrite Ha; [lia|reflexivity].
  - destruct (k <? 256 ^ n); [|discriminate]. injection E as <-. rewrite zlen_be_bytes. lia.
Qed.

Lemma too_long_sealed N a n asn1 o :
  0 <= n -> (asn1 = true -> n = 1) ->
  too_long N (oapp (Some (a ++ zrep n 0)) o) -> too_long N (sealed a n asn1 o).
Proof.
  intros Hn Ha Ht bs E. unfold sealed in E. destruct o as [s|]; [|discriminate].
  destruct (length_prefix n asn1 (zlen s)) as [lp|] eqn:El; [|discriminate]. injection E as <-.
  specialize (Ht _ eq_refl). apply length_prefix_len in El; [|lia|apply zlen_nonneg|assumption].
  autorewrite with zlen in *. rewrite zlen_zrep in Ht by lia. lia.
Qed.

Lemma close_prefixed_settled N a n s child rest h b :
  0 <= n -> wf b -> data b = a ++ zrep n 0 ++ s -> room N b ->
  settled N (sealed a n false (Some s))
    (let '(bs, v') := add_u_loop (Z.to_nat n) (zlen s) in
     let b := store (zlen a) bs b in
     if negb (v' =? 0) then (false, (h, set_error b), child :: rest)
     else (true, (h, b), [])).
Proof.
  intros Hn W Hd Hr. pose proof (zlen_nonneg s). pose proof (zlen_nonneg a).
  rewrite add_u_loop_eq, Z2Nat.id by lia. unfold sealed, length_prefix. cbv zeta.
  assert (Hp : 0 < 256 ^ n) by (apply Z.pow_pos_nonneg; lia).
  pose proof (Z.div_small_iff (zlen s) (256 ^ n) ltac:(lia)) as Hsm.
  assert (Hz : zlen (be_bytes (Z.to_nat n) (zlen s)) = zlen (zrep n 0))
    by (rewrite zlen_be_bytes, zlen_zrep; lia).
  destruct (Z.ltb_spec (zlen s) (256 ^ n)), (Z.eqb_spec (zlen s / 256 ^ n) 0);
    try (exfalso; lia); cbn [negb].
  - destruct (store_data (zlen a) (be_bytes (Z.to_nat n) (zlen s)) b _
      (a ++ be_bytes (Z.to_nat n) (zlen s) ++ s) (conj W Hd)) as [W1 D1].
    + lia.
    + autorewrite with zlen. lia.
    + apply zsplice_app; auto.
    + split; [reflexivity|]. split; [exact W1|]. rewrite D1. auto.
  - split; [reflexivity|]. discriminate.
Qed.

(** Flushing an object whose only new child has header [a] and shows [o]. *)
Lemma close_child N a n asn1 o kids h b :
  0 < n -> (asn1 = true -> n = 1) ->
  settled N (oapp (Some (a ++ zrep n 0)) o) (flush_from kids (h, b)) ->
  settled N (sealed a n asn1 o)
    (flush_from ({| offset := zlen a; pending_len_len := n; pending_is_asn1 := asn1 |} :: kids)
       (h, b)).
Proof.
  intros Hn Ha Hs. destruct (error b) eqn:He.
  { rewrite flush_from_error in Hs |- * by assumption. destruct Hs as [_ Ht].
    split; [assumption|]. apply too_long_sealed; auto; lia. }
  cbn [flush_from pending_len_len offset pending_is_asn1]. rewrite He.
  destruct (Z.eqb_spec n 0); [lia|].
  destruct (flush_from kids (h, b)) as [[[] [h1 b1]] kids1].
  2: { destruct Hs as [_ Ht]. split; [reflexivity|]. apply too_long_sealed; auto; lia. }
  destruct Hs as (-> & W & E & Hr). destruct o as [s|]; [|discriminate]. injection E as Hd.
  symmetry in Hd. rewrite <- app_assoc in Hd. pose proof (zlen_data b1 W) as Hl.
  pose proof W as (Hl1 & Hc & _). rewrite Hd in Hl. autorewrite with zlen in Hl.
  rewrite zlen_zrep in Hl by lia. pose proof (zlen_nonneg s). pose proof (zlen_nonneg a).
  rewrite u64_small by lia.
  destruct (Z.ltb_spec (zlen a + n) (zlen a)), (Z.ltb_spec (len b1) (zlen a + n)); try lia.
  cbn [orb]. replace (len b1 - (zlen a + n)) with (zlen s) by lia. destruct asn1.
  - rewrite (Ha eq_refl) in *. apply (close_asn1_settled N a s _ [] h1 b1 W Hd Hr).
  - apply close_prefixed_settled; auto. lia.
Qed.

(** Opening a child: the frames are then [fr] and one more, the bytes [q], and
    whatever is written in the child is sealed when the child is closed. *)
Lemma opens_child d m hdr n asn1 N fr p c :
  0 < n -> (asn1 = true -> n = 1) -> opens d m hdr n asn1 -> length fr = d -> shows N fr p c ->
  match m c with
  | (Some _, c1) => exists fr1 q, length fr1 = S d /\ shows N fr1 (Some q) c1 /\
      (forall o, too_long N (oapp (Some q) o) -> too_long N (oapp p (sealed hdr n asn1 o))) /\
      (forall o c2, shows N fr1 (oapp (Some q) o) c2 -> shows N fr (oapp p (sealed hdr n asn1 o)) c2)
  | (None, c1) => forall o, failed N (oapp p (sealed hdr n asn1 o)) c1
  end.
Proof.
  intros Hn Ha Hm Hd Hs. specialize (Hm N fr p c Hd Hs). destruct (m c) as [[[]|] c1].
  - destruct Hm as (a & -> & Hr). apply rests_shows in Hr.
    set (f := {| offset := zlen (a ++ hdr); pending_len_len := n; pending_is_asn1 := asn1 |}) in *.
    assert (E : forall o, oapp (Some a) (sealed hdr n asn1 o) = sealed (a ++ hdr) n asn1 o).
    { intros [s|]; cbn; [|reflexivity].
      destruct (length_prefix n asn1 (zlen s)); cbn; [|reflexivity]. rewrite <- app_assoc. reflexivity. }
    exists (fr ++ [f]), ((a ++ hdr) ++ zrep n 0). rewrite app_assoc in Hr.
    split; [rewrite length_app; cbn; lia|]. split; [exact Hr|]. split; intros o; rewrite E.
    + apply too_long_sealed; auto; lia.
    + intros c2 (b & kids & Hb & Hc & Hk). exists b, (f :: kids). rewrite <- app_assoc in Hc.
      split; [assumption|]. split; [assumption|]. apply close_child; assumption.
  - intros o. destruct Hm as (b & Hb & He & Ht). exists b. split; [assumption|]. split; [assumption|].
    intros bs E. destruct p as [a|]; [|discriminate]. unfold sealed in E.
    destruct o as [s|]; [|discriminate].
    destruct (length_prefix n asn1 (zlen s)) as [lp|] eqn:El; [|discriminate].
    injection E as <-. specialize (Ht _ eq_refl).
    apply length_prefix_len in El; [|lia|apply zlen_nonneg|assumption].
    pose proof (zlen_nonneg s). autorewrite with zlen in *. rewrite zlen_zrep in Ht; lia.
Qed.

(** Opening a child and writing [o] into it. *)
Lemma opens_writes d m k hdr n asn1 o :
  0 < n -> (asn1 = true -> n = 1) ->
  opens d m hdr n asn1 -> writes (S d) k o -> writes d (let* _ := m in k) (sealed hdr n asn1 o).
Proof.
  intros Hn Ha Hm Hk N fr p c Hd Hs. pose proof (opens_child d m hdr n asn1 N fr p c Hn Ha Hm Hd Hs) as Ho.
  unfold bind. destruct (m c) as [[[]|] c1]; [|apply Ho].
  destruct Ho as (fr1 & q & Hfr & Hs1 & Hlong & Hclose). specialize (Hk N fr1 _ c1 Hfr Hs1).
  destruct (k c1) as [[[]|] c2]; [apply Hclose, Hk|].
  destruct Hk as (b & Hb & He & Ht). exists b. auto.
Qed.

(** * Elements and primitive types *)

Definition element_bytes (tag : Z) (o : option (list Z)) : option (list Z) :=
  match o with
  | Some s => if zlen s <=? 4294967294 then Some (der tag s) else None
  | None => None
  end.

Lemma sealed_der tag o : sealed (der_tag tag) 1 true o = element_bytes tag o.
Proof.
  destruct o as [s|]; [|reflexivity]. cbn [sealed length_prefix element_bytes].
  destruct (zlen s <=? 4294967294); [|reflexivity].
  unfold der, der_header. rewrite <- app_assoc. reflexivity.
Qed.

Lemma CBB_add_asn1_writes d tag k o :
  tag_ok tag -> writes (S d) k o ->
  writes d (let* _ := CBB_add_asn1 d tag in k) (element_bytes tag o).
Proof.
  intros Ht Hk. rewrite <- sealed_der.
  apply opens_writes; auto using CBB_add_asn1_opens. lia.
Qed.

Lemma writes_ext d m m' o o' :
  (forall c, m c = m' c) -> o = o' -> writes d m' o' -> writes d m o.
Proof. intros E -> Hm N fr p c. rewrite E. apply Hm. Qed.

(** An element that is flushed right away, as the primitive types are. *)
Lemma flushed_element_writes d tag k o :
  tag_ok tag -> writes (S d) k o ->
  writes d (let* _ := CBB_add_asn1 d tag in let* _ := k in CBB_flush d) (element_bytes tag o).
Proof.
  intros Ht Hk.
  eapply writes_ext with (o' := oapp (element_bytes tag o) (Some [])).
  3: { apply writes_bind; [apply (CBB_add_asn1_writes d tag k); eassumption|].
       apply appends_writes, CBB_flush_appends. }
  - intros c. rewrite bind_bind. reflexivity.
  - rewrite oapp_nil. reflexivity.
Qed.

Lemma element_bytes_der tag s :
  zlen s <= 4294967294 -> element_bytes tag (Some s) = Some (der tag s).
Proof. intros Hs. unfold element_bytes. rewrite (proj2 (Z.leb_le _ _) Hs). reflexivity. Qed.

Definition uint64_tail (d n : nat) (v : Z) (started : bool) : M cbb_st unit :=
  let* started := asn1_uint64_bytes d n v started in
  if negb started then CBB_add_u8 d 0 else ret tt.

Lemma byte_at v i : 0 <= v -> Z.land (Z.shiftr v (8 * Z.of_nat i)) 255 = v / 256 ^ Z.of_nat i mod 256.
Proof.
  intros. rewrite Z.shiftr_div_pow2, Z.pow_mul_r by lia. change 255 with (2 ^ 8 - 1).
  rewrite land_mask by lia. reflexivity.
Qed.

Lemma uint64_tail_step d n v st :
  0 <= v -> st = true \/ v / 256 ^ Z.of_nat n mod 256 <> 0 ->
  forall c, uint64_tail d (S n) v st c =
  (let* _ := (if negb st && negb (v / 256 ^ Z.of_nat n mod 256 <? 128)
              then CBB_add_u8 d 0 else ret tt) in
   let* _ := CBB_add_u8 d (v / 256 ^ Z.of_nat n mod 256) in
   uint64_tail d n v true) c.
Proof.
  intros Hv Hst c. unfold uint64_tail. cbn [asn1_uint64_bytes]. rewrite byte_at by assumption.
  set (b := v / 256 ^ Z.of_nat n mod 256) in *. assert (byte_ok b) by (unfold byte_ok, b; dlia).
  rewrite land_byte_128 by assumption.
  replace (negb st && (b =? 0)) with false.
  - rewrite bind_bind. apply bind_ext. intros _ s. rewrite bind_bind. reflexivity.
  - symmetry. destruct Hst as [->|Hst]; [reflexivity|].
    apply Z.eqb_neq in Hst. rewrite Hst. apply andb_false_r.
Qed.

Lemma CBB_add_u8_writes d v : byte_ok v -> writes d (CBB_add_u8 d v) (Some [v]).
Proof. intros. apply appends_writes, CBB_add_u8_appends. assumption. Qed.

Lemma uint64_started_writes d n v :
  0 <= v -> writes d (uint64_tail d n v true) (Some (be_bytes n v)).
Proof.
  intros Hv. induction n as [|n IH]; [apply writes_ret|].
  eapply writes_ext; [apply uint64_tail_step; auto| |].
  2: { cbn [negb andb]. eapply writes_bind; [apply writes_ret|].
       eapply writes_bind; [apply CBB_add_u8_writes|exact IH]. unfold byte_ok. dlia. }
  rewrite be_bytes_first. reflexivity.
Qed.

Lemma der_int_of v n :
  (1 <= n <= 9)%nat -> fits (Z.of_nat n) v -> n = 1%nat \/ ~ fits (Z.of_nat n - 1) v ->
  der_int v = be_bytes n v.
Proof. intros. unfold der_int. rewrite (int_len_unique v n); auto. Qed.

(** The shortest encoding of a number whose first byte is not zero. *)
Lemma der_int_first n v :
  (n <= 7)%nat -> 256 ^ Z.of_nat n <= v < 256 * 256 ^ Z.of_nat n ->
  der_int v = (if v / 256 ^ Z.of_nat n <? 128 then [] else [0]) ++ be_bytes (S n) v.
Proof.
  intros Hn. pose proof (pow256 (Z.of_nat n) ltac:(lia)) as HP2.
  set (P := 256 ^ Z.of_nat n) in *. intros Hv. assert (HP : 0 < P) by (unfold P; lia).
  assert (HS : 2 ^ (8 * Z.of_nat (S n) - 1) = 128 * P).
  { rewrite HP2. replace (8 * Z.of_nat (S n) - 1) with (7 + 8 * Z.of_nat n) by lia.
    apply Z.pow_add_r; lia. }
  assert (E2 : 2 ^ (8 * Z.of_nat (S (S n)) - 1) = 32768 * P).
  { rewrite HP2. replace (8 * Z.of_nat (S (S n)) - 1) with (15 + 8 * Z.of_nat n) by lia.
    apply Z.pow_add_r; lia. }
  destruct (Z.ltb_spec (v / P) 128) as [Hb|Hb].
  - assert (v < 128 * P).
    { pose proof (Z.mul_succ_div_gt v P HP). nia. }
    apply der_int_of; [lia|unfold fits; rewrite HS; lia|].
    destruct n as [|n]; [left; reflexivity|right]. unfold fits.
    replace (Z.of_nat (S (S n)) - 1) with (Z.of_nat (S n)) by lia.
    pose proof (pow2_8 (Z.of_nat (S n)) ltac:(lia)). lia.
  - assert (128 * P <= v) by (pose proof (Z.mul_div_le v P HP); nia).
    rewrite (der_int_of v (S (S n))); [|lia|unfold fits; rewrite E2; lia|].
    + rewrite be_bytes_first. cbn [app]. f_equal. rewrite Nat2Z.inj_succ, Z.pow_succ_r by lia.
      fold P. rewrite Z.div_small by lia. reflexivity.
    + right. unfold fits. replace (Z.of_nat (S (S n)) - 1) with (Z.of_nat (S n)) by lia.
      rewrite HS. lia.
Qed.

Lemma uint64_writes d n v :
  (n <= 8)%nat -> 0 <= v < 256 ^ Z.of_nat n -> writes d (uint64_tail d n v false) (Some (der_int v)).
Proof.
  intros Hn. induction n as [|n IH]; intros Hv.
  - change (256 ^ Z.of_nat 0) with 1 in Hv. replace v with 0 by lia.
    apply CBB_add_u8_writes. unfold byte_ok. lia.
  - rewrite Nat2Z.inj_succ, Z.pow_succ_r in Hv by lia.
    pose proof (Z.div_small_iff v (256 ^ Z.of_nat n) ltac:(lia)) as Hsm.
    assert (Hb : 0 <= v / 256 ^ Z.of_nat n < 256)
      by (split; [apply Z.div_pos; lia|apply Z.div_lt_upper_bound; lia]).
    destruct (Z.eq_dec (v / 256 ^ Z.of_nat n) 0) as [Hz|Hz].
    + eapply writes_ext; [|reflexivity|apply IH; lia]. intros c.
      unfold uint64_tail. cbn [asn1_uint64_bytes]. rewrite byte_at, Hz by lia. reflexivity.
    + rewrite (der_int_first n) by lia. rewrite be_bytes_first.
      set (pad := if v / 256 ^ Z.of_nat n <? 128 then [] else [0]).
      eapply (writes_ext d _ _ _ (oapp (Some pad) (oapp (Some [_]) (Some (be_bytes n v)))));
        [apply uint64_tail_step; [lia|right; rewrite Z.mod_small; lia]|reflexivity|].
      apply writes_bind; [|apply writes_bind;
        [apply CBB_add_u8_writes; unfold byte_ok; dlia|apply uint64_started_writes; lia]].
      cbn [negb andb]. rewrite Z.mod_small by lia. unfold pad.
      destruct (v / 256 ^ Z.of_nat n <? 128); cbn [negb];
        [apply writes_ret|apply CBB_add_u8_writes; unfold byte_ok; lia].
Qed.

Lemma CBB_add_asn1_uint64_writes d v :
  0 <= v < 2 ^ 64 -> writes d (CBB_add_asn1_uint64 d v) (Some (der CBS_ASN1_INTEGER (der_int v))).
Proof.
  intros Hv. pose proof (der_int_len v (fits_uint64 v Hv)).
  rewrite <- element_bytes_der by lia.
  eapply writes_ext; [|reflexivity|apply (flushed_element_writes d CBS_ASN1_INTEGER)];
    [|split; easy|apply (uint64_writes (S d) 8 v); [lia|exact Hv]].
  intros c. apply bind_ext. intros _ s. unfold uint64_tail. rewrite bind_bind. reflexivity.
Qed.

(** * Negative integers *)

Lemma int64_byte_eq v i : int64_byte v i = v / 256 ^ Z.of_nat i mod 256.
Proof.
  unfold int64_byte, u8. rewrite Z.shiftr_div_pow2, Z.pow_mul_r by lia. reflexivity.
Qed.

(** A sign-extension byte is there exactly when one byte fewer is enough. *)
Lemma sign_extension_byte v s :
  v < 0 -> fits (Z.of_nat (S (S s))) v ->
  (int64_byte v (S s) =? 255) && negb (Z.land (int64_byte v s) 128 =? 0) = true
  <-> fits (Z.of_nat (S s)) v.
Proof.
  intros Hv Hf. rewrite !int64_byte_eq. rewrite land_byte_128 by (unfold byte_ok; dlia).
  pose proof (pow256 (Z.of_nat s) ltac:(lia)) as HP2.
  assert (HS : 2 ^ (8 * Z.of_nat (S s) - 1) = 128 * 256 ^ Z.of_nat s).
  { rewrite HP2. replace (8 * Z.of_nat (S s) - 1) with (7 + 8 * Z.of_nat s) by lia.
    apply Z.pow_add_r; lia. }
  assert (E2 : 2 ^ (8 * Z.of_nat (S (S s)) - 1) = 32768 * 256 ^ Z.of_nat s).
  { rewrite HP2. replace (8 * Z.of_nat (S (S s)) - 1) with (15 + 8 * Z.of_nat s) by lia.
    apply Z.pow_add_r; lia. }
  unfold fits in Hf |- *. rewrite HS. rewrite E2 in Hf.
  rewrite Nat2Z.inj_succ, Z.pow_succ_r by lia. set (P := 256 ^ Z.of_nat s) in *.
  assert (HP : 0 < P) by (unfold P; lia).
  rewrite (Z.mul_comm 256 P), <- Z.div_div by lia. set (w := v / P).
  assert (Hw : -32768 <= w < 0).
  { unfold w. split; [apply Z.div_le_lower_bound|apply Z.div_lt_upper_bound]; lia. }
  assert (Hfit : -128 <= w <-> - (128 * P) <= v).
  { unfold w. split; intros Hx.
    - pose proof (Z.mul_div_le v P HP). nia.
    - apply Z.div_le_lower_bound; lia. }
  rewrite andb_true_iff, Z.eqb_eq, negb_true_iff, Z.ltb_ge.
  assert (Hb : w / 256 mod 256 = 255 /\ 128 <= w mod 256 <-> -128 <= w) by dlia.
  rewrite Hb, Hfit. lia.
Qed.

Lemma int64_start_len v s :
  v < 0 -> (s <= 7)%nat -> fits (Z.of_nat (S s)) v -> S (int64_start v s) = int_len v.
Proof.
  intros Hv. induction s as [|s IH]; intros Hs Hf; cbn [int64_start].
  - symmetry. apply int_len_unique; auto. lia.
  - pose proof (sign_extension_byte v s Hv Hf) as Hb.
    destruct ((int64_byte v (S s) =? 255) && negb (Z.land (int64_byte v s) 128 =? 0)).
    + apply IH; [lia|]. apply Hb. reflexivity.
    + symmetry. apply int_len_unique; auto; [lia|]. right. intros Hc.
      replace (Z.of_nat (S (S s)) - 1) with (Z.of_nat (S s)) in Hc by lia.
      apply Hb in Hc. discriminate.
Qed.

Lemma add_int64_bytes_writes d v i : writes d (add_int64_bytes d v i) (Some (be_bytes (S i) v)).
Proof.
  assert (Hb : forall i, writes d (CBB_add_u8 d (int64_byte v i))
                           (Some [v / 256 ^ Z.of_nat i mod 256])).
  { intros j. rewrite int64_byte_eq. apply CBB_add_u8_writes. unfold byte_ok. dlia. }
  induction i as [|i IH]; rewrite be_bytes_first; cbn [add_int64_bytes].
  - apply (writes_bind d _ _ (Some [_]) (Some [])); [apply Hb|apply writes_ret].
  - apply (writes_bind d _ _ (Some [_]) _ (Hb (S i)) IH).
Qed.

Lemma CBB_add_asn1_int64_writes d v :
  - 2 ^ 63 <= v < 2 ^ 63 ->
  writes d (CBB_add_asn1_int64 d v) (Some (der CBS_ASN1_INTEGER (der_int v))).
Proof.
  intros Hv. unfold CBB_add_asn1_int64. destruct (Z.leb_spec 0 v).
  - apply CBB_add_asn1_uint64_writes. lia.
  - pose proof (der_int_len v (fits_int64 v Hv)).
    rewrite <- element_bytes_der by lia. apply flushed_element_writes; [split; easy|].
    unfold der_int. rewrite <- (int64_start_len v 7) by (lia || exact Hv).
    apply add_int64_bytes_writes.
Qed.

Lemma CBB_add_asn1_octet_string_writes d bs :
  zlen bs < 2 ^ 64 ->
  writes d (CBB_add_asn1_octet_string d bs) (element_bytes CBS_ASN1_OCTETSTRING (Some bs)).
Proof.
  intros Hb. apply flushed_element_writes; [split; easy|].
  apply appends_writes, CBB_add_bytes_appends. lia.
Qed.

Lemma CBB_add_asn1_bool_writes d (v : bool) :
  writes d (CBB_add_asn1_bool d v) (Some (der CBS_ASN1_BOOLEAN [if v then 255 else 0])).
Proof.
  rewrite <- element_bytes_der by easy. apply flushed_element_writes; [split; easy|].
  apply CBB_add_u8_writes. destruct v; unfold byte_ok; lia.
Qed.

(** A field of [n] bytes; a number too large for it is refused. *)
Definition field (n v : Z) : option (list Z) :=
  if v <? 256 ^ n then Some (be_bytes (Z.to_nat n) v) else None.

Lemma CBB_add_u_n_writes d v n :
  0 < n < 2 ^ 64 -> 0 <= v -> writes d (CBB_add_u_n d v n) (field n v).
Proof.
  intros Hn Hv. unfold field. destruct (Z.ltb_spec v (256 ^ n)) as [Hl|Hl].
  { apply appends_writes, CBB_add_u_n_appends; lia. }
  intros N fr p c Hd Hs. pose proof (CBB_flush_appends d N fr p c Hd Hs) as Hf.
  unfold CBB_add_u_n, bind. replace (oapp p None) with (@None (list Z)) by (destruct p; reflexivity).
  destruct (CBB_flush d c) as [[[]|] c1].
  - destruct Hf as (a & -> & b & Hb & Hc & W & _). rewrite app_nil_r in Hc.
    rewrite (on_base_rests _ _ _ _ Hb) by (rewrite Hc; assumption).
    destruct (cbb_buffer_add_u_overflow v n (cbb_heap c1) b Hn Hl W) as (h' & b' & -> & He).
    exists b'. cbn. repeat split; auto. discriminate.
  - destruct Hf as (b & Hb & He & _). exists b. repeat split; auto. discriminate.
Qed.

(** [n] zero bytes for the length, then the contents. *)
Definition prefixed_bytes (n : Z) (o : option (list Z)) : option (list Z) := sealed [] n false o.

Lemma length_prefixed_writes d n k o :
  0 < n < 2 ^ 64 -> writes (S d) k o ->
  writes d (let* _ := cbb_add_length_prefixed d n in k) (prefixed_bytes n o).
Proof.
  intros Hn Hk. apply opens_writes; auto; [lia|discriminate|].
  apply cbb_add_length_prefixed_opens. lia.
Qed.
End Writes.
