(* ===== verification/Build.v ===== *)
(** What a sequence of [CBB] calls is meant to produce.

    [item] is what a caller wants written: numbers, bytes, length-prefixed
    children and ASN.1 elements, nested to any depth.  [serialize] says what the
    result must be, with no buffer, no capacity and no deferred lengths; [write]
    makes the calls of crypto/bytestring/cbb.c, and [read] the calls of
    crypto/bytestring/cbs.c that take the result apart again.  The last part is
    about arbitrary sequences of calls, well-nested or not. *)
From Stdlib Require Import ZArith Lia.
From stdpp Require Import base list numbers.
From S2P Require Import Prelude.
From S2P Require Import Mem.
From S2P Require Import Der.
From S2P Require Import Cbs.
From S2P Require Import Cbb.

Open Scope Z_scope.
Open Scope c_scope.

(** * Items *)

Inductive num := U8 | U16 | U24 | U32 | U64 | U16le | U32le | U64le.

Definition num_width (k : num) : Z :=
  match k with
  | U8 => 1 | U16 | U16le => 2 | U24 => 3 | U32 | U32le => 4 | U64 | U64le => 8
  end.

(** The range of the parameter's C type; a [uint32_t] for [CBB_add_u24]. *)
Definition num_param (k : num) : Z := match k with U24 => 2 ^ 32 | _ => 256 ^ num_width k end.

Inductive item :=
| Nothing
| Seq (i j : item)
| Num (k : num) (v : Z)
| Bytes (bs : list Z)
| Zeros (n : Z)
| Prefixed (n : Z) (i : item)
| Asn1 (tag : Z) (i : item)
| Uint64 (v : Z)
| Int64 (v : Z)
| Octets (bs : list Z)
| Bool (v : bool).

(** The arguments are values of the parameters' types. *)
Fixpoint item_ok (i : item) : Prop :=
  match i with
  | Nothing | Bool _ => True
  | Seq i j => item_ok i /\ item_ok j
  | Num k v => 0 <= v < num_param k
  | Bytes bs | Octets bs => bytes_ok bs /\ zlen bs < 2 ^ 64
  | Zeros n => 0 <= n < 2 ^ 64
  | Prefixed n i => 1 <= n <= 3 /\ item_ok i
  | Asn1 tag i => tag_ok tag /\ item_ok i
  | Uint64 v => 0 <= v < 2 ^ 64
  | Int64 v => - 2 ^ 63 <= v < 2 ^ 63
  end.

Definition num_bytes (k : num) (v : Z) : option (list Z) :=
  match k with
  | U16le | U32le | U64le => Some (rev (be_bytes (Z.to_nat (num_width k)) v))
  | _ => field (num_width k) v
  end.

(** What must be written; [None] when some contents do not fit their prefix. *)
Fixpoint serialize (i : item) : option (list Z) :=
  match i with
  | Nothing => Some []
  | Seq i j => oapp (serialize i) (serialize j)
  | Num k v => num_bytes k v
  | Bytes bs => Some bs
  | Zeros n => Some (zrep n 0)
  | Prefixed n i => prefixed_bytes n (serialize i)
  | Asn1 tag i => element_bytes tag (serialize i)
  | Uint64 v | Int64 v => Some (der CBS_ASN1_INTEGER (der_int v))
  | Octets bs => element_bytes CBS_ASN1_OCTETSTRING (Some bs)
  | Bool v => Some (der CBS_ASN1_BOOLEAN [if v then 255 else 0])
  end.

Section Write.
Context `{Malloc}.

Definition write_num (d : nat) (k : num) (v : Z) : M cbb_st unit :=
  match k with
  | U8 => CBB_add_u8 d v
  | U16 => CBB_add_u16 d v
  | U24 => CBB_add_u24 d v
  | U32 => CBB_add_u32 d v
  | U64 => CBB_add_u64 d v
  | U16le => CBB_add_u16le d v
  | U32le => CBB_add_u32le d v
  | U64le => CBB_add_u64le d v
  end.

(** The calls, on the object at depth [d]. *)
Fixpoint write (d : nat) (i : item) : M cbb_st unit :=
  match i with
  | Nothing => ret tt
  | Seq i j => let* _ := write d i in write d j
  | Num k v => write_num d k v
  | Bytes bs => CBB_add_bytes d bs
  | Zeros n => CBB_add_zeros d n
  | Prefixed n i => let* _ := cbb_add_length_prefixed d n in write (S d) i
  | Asn1 tag i => let* _ := CBB_add_asn1 d tag in write (S d) i
  | Uint64 v => CBB_add_asn1_uint64 d v
  | Int64 v => CBB_add_asn1_int64 d v
  | Octets bs => CBB_add_asn1_octet_string d bs
  | Bool v => CBB_add_asn1_bool d v
  end.

(** Initialise, write, finish; the bytes handed to the caller. *)
Definition finish (i : item) (start : bool * cbb_st) : option (list Z) * cbb_st :=
  match start with
  | (false, c) => (None, c)
  | (true, c) =>
    match (let* _ := write 0 i in CBB_finish 0 true true) c with
    | (Some (p, n), c') => (Some (ztake n p), c')
    | (None, c') => (None, c')
    end
  end.

Definition build (initial_capacity : Z) (i : item) (h : heap) : option (list Z) * cbb_st :=
  finish i (CBB_init initial_capacity h).
Definition build_fixed (p : list Z) (i : item) (h : heap) : option (list Z) * cbb_st :=
  finish i (CBB_init_fixed p h).
End Write.

(** * Writing *)

(** Swapping the bytes of [v] turns big-endian order into little-endian. *)
Lemma swap_bytes n f v :
  (forall l, bytes_ok l -> zlen l = Z.of_nat n -> f (be_val l) = be_val (rev l)) ->
  0 <= v < 256 ^ Z.of_nat n ->
  0 <= f v < 256 ^ Z.of_nat n /\ be_bytes n (f v) = rev (be_bytes n v).
Proof.
  intros Hf Hv. pose proof (Hf (be_bytes n v) (be_bytes_ok n v) (zlen_be_bytes n v)) as E.
  rewrite be_val_bytes, Z.mod_small in E by lia. rewrite E.
  assert (Hr : bytes_ok (rev (be_bytes n v))) by apply Forall_rev, be_bytes_ok.
  assert (Hl : length (rev (be_bytes n v)) = n) by (rewrite length_rev; apply length_be_bytes).
  split.
  - pose proof (be_val_bound _ Hr) as Hb. unfold zlen in Hb. rewrite Hl in Hb. exact Hb.
  - rewrite <- Hl at 1. apply be_bytes_val. exact Hr.
Qed.

Lemma bswap_range_bytes v :
  (0 <= v < 256 ^ 2 -> 0 <= CRYPTO_bswap2 v < 256 ^ 2 /\ be_bytes 2 (CRYPTO_bswap2 v) = rev (be_bytes 2 v)) /\
  (0 <= v < 256 ^ 4 -> 0 <= CRYPTO_bswap4 v < 256 ^ 4 /\ be_bytes 4 (CRYPTO_bswap4 v) = rev (be_bytes 4 v)) /\
  (0 <= v < 256 ^ 8 -> 0 <= CRYPTO_bswap8 v < 256 ^ 8 /\ be_bytes 8 (CRYPTO_bswap8 v) = rev (be_bytes 8 v)).
Proof.
  repeat apply conj; [apply (swap_bytes 2)|apply (swap_bytes 4)|apply (swap_bytes 8)];
    intros l Hb Hl; apply (bswap_rev l Hb); exact Hl.
Qed.

Section WriteLemmas.
Context `{Malloc}.

Lemma field_some n v : 0 <= v < 256 ^ n -> field n v = Some (be_bytes (Z.to_nat n) v).
Proof. unfold field. intros Hv. destruct (Z.ltb_spec v (256 ^ n)); [reflexivity|lia]. Qed.

Lemma write_num_writes d k v :
  0 <= v < num_param k -> writes d (write_num d k v) (num_bytes k v).
Proof.
  intros Hv. destruct (bswap_range_bytes v) as (B2 & B4 & B8).
  destruct k; cbn [write_num num_bytes num_width num_param] in *;
    try (apply CBB_add_u_n_writes; lia).
  - destruct (B2 Hv) as [Hr E]. change (Z.to_nat 2) with 2%nat. rewrite <- E.
    change 2%nat with (Z.to_nat 2). rewrite <- field_some by exact Hr.
    apply CBB_add_u_n_writes; lia.
  - destruct (B4 Hv) as [Hr E]. change (Z.to_nat 4) with 4%nat. rewrite <- E.
    change 4%nat with (Z.to_nat 4). rewrite <- field_some by exact Hr.
    apply CBB_add_u_n_writes; lia.
  - destruct (B8 Hv) as [Hr E]. change (Z.to_nat 8) with 8%nat. rewrite <- E.
    change 8%nat with (Z.to_nat 8). rewrite <- field_some by exact Hr.
    apply CBB_add_u_n_writes; lia.
Qed.

Lemma write_writes d i : item_ok i -> writes d (write d i) (serialize i).
Proof.
  revert d. induction i; intros d Hok; cbn [item_ok write serialize] in *.
  - apply writes_ret.
  - apply writes_bind; intuition auto.
  - apply write_num_writes. exact Hok.
  - apply appends_writes, CBB_add_bytes_appends. apply Hok.
  - apply appends_writes, CBB_add_zeros_appends. exact Hok.
  - apply length_prefixed_writes; [lia|]. intuition auto.
  - apply CBB_add_asn1_writes; intuition auto.
  - apply CBB_add_asn1_uint64_writes. exact Hok.
  - apply CBB_add_asn1_int64_writes. exact Hok.
  - apply CBB_add_asn1_octet_string_writes. apply Hok.
  - apply CBB_add_asn1_bool_writes.
Qed.

Lemma CBB_finish_shows N o c :
  shows N [] o c ->
  match CBB_finish 0 true true c with
  | (Some (p, n), c') => o = Some (ztake n p) /\ n <= zlen p /\ base c' = None
  | (None, c') => too_long N o
  end.
Proof.
  intros Hs. pose proof (CBB_flush_appends 0 N [] o c eq_refl Hs) as Hf.
  unfold CBB_finish. rewrite guard_true by reflexivity. unfold bind.
  destruct (CBB_flush 0 c) as [[[]|] c1].
  - destruct Hf as (a & -> & b & Hb & Hc & W & Hd & _). rewrite app_nil_r in Hd. rewrite Hb.
    cbn [negb orb]. rewrite andb_false_r, <- Hd. destruct W as (? & ? & ? & ?).
    split; [reflexivity|]. split; [lia|reflexivity].
  - destruct Hf as (b & _ & _ & Ht). rewrite oapp_nil in Ht. exact Ht.
Qed.

(** The state after a successful initialisation. *)
Definition fresh (c : cbb_st) (p : list Z) (r : bool) : Prop :=
  exists b, base c = Some b /\ children c = [] /\ block b = p /\ len b = 0 /\
            cap b = zlen p /\ can_resize b = r /\ error b = false.

Lemma fresh_rests N c p r :
  fresh c p r -> zlen p < 2 ^ 64 ->
  N <= zlen p \/ (r = true /\ grants (2 * N + 8) /\ 2 * N + 8 < 2 ^ 64) ->
  rests N [] [] c.
Proof.
  intros (b & Hb & Hc & <- & Hl & Hcap & Hr & He) Hp HN. exists b.
  pose proof (zlen_nonneg (block b)).
  split; [exact Hb|]. split; [exact Hc|]. split; [unfold wf; repeat split; auto; lia|].
  split; [unfold data; rewrite Hl; reflexivity|]. unfold room. rewrite Hr, Hcap. exact HN.
Qed.

Lemma CBB_init_fresh n h c :
  0 <= n < 2 ^ 64 -> CBB_init n h = (true, c) -> exists p, zlen p = n /\ fresh c p true.
Proof.
  intros Hn. unfold CBB_init, cbb_init.
  destruct (OPENSSL_malloc h n) as [[p|] h1] eqn:Ep.
  - apply OPENSSL_malloc_Some in Ep as [Hz _]; [|assumption].
    destruct (OPENSSL_malloc h1 sizeof_cbb_buffer_st) as [[?|] h2]; [|discriminate].
    intros E. injection E as <-. exists p. split; [assumption|]. eexists. split; [reflexivity|].
    cbn. repeat split; auto.
  - destruct (Z.ltb_spec 0 n); [discriminate|].
    destruct (OPENSSL_malloc h1 sizeof_cbb_buffer_st) as [[?|] h2]; [|discriminate].
    intros E. injection E as <-. exists []. split; [autorewrite with zlen; lia|]. eexists. split; [reflexivity|].
    cbn. repeat split; auto. autorewrite with zlen. lia.
Qed.

Lemma CBB_init_fixed_fresh p h c : CBB_init_fixed p h = (true, c) -> fresh c p false.
Proof.
  unfold CBB_init_fixed, cbb_init.
  destruct (OPENSSL_malloc h sizeof_cbb_buffer_st) as [[?|] h2]; [|discriminate].
  cbn. intros E. injection E as <-. eexists. split; [reflexivity|]. cbn. repeat split; auto.
Qed.

Lemma CBB_init_grants lim n h :
  grants lim -> 0 <= n -> n + 8 <= lim -> 40 <= lim < 2 ^ 64 -> exists c, CBB_init n h = (true, c).
Proof.
  intros G Hn Hl Hb. unfold CBB_init, cbb_init.
  destruct (OPENSSL_malloc_grants lim h n G Hn Hl) as (p & h1 & -> & _); [lia|].
  destruct (OPENSSL_malloc_grants lim h1 sizeof_cbb_buffer_st G) as (p2 & h2 & -> & _);
    unfold sizeof_cbb_buffer_st; try lia. eauto.
Qed.

Lemma CBB_init_fixed_grants p h : grants 40 -> exists c, CBB_init_fixed p h = (true, c).
Proof.
  intros G. unfold CBB_init_fixed, cbb_init.
  destruct (OPENSSL_malloc_grants 40 h sizeof_cbb_buffer_st G) as (p2 & h2 & -> & _);
    unfold sizeof_cbb_buffer_st; try lia. cbn. eauto.
Qed.

Lemma finish_rests N i c :
  item_ok i -> rests N [] [] c ->
  match finish i (true, c) with
  | (Some bs, c') => serialize i = Some bs /\ base c' = None
  | (None, c') => too_long N (serialize i)
  end.
Proof.
  intros Hi Hr. cbn [finish]. pose proof (write_writes 0 i Hi N [] _ c eq_refl (rests_shows _ _ _ _ Hr)) as Hw.
  assert (E : oapp (Some []) (serialize i) = serialize i) by (destruct (serialize i); reflexivity).
  rewrite E in Hw. unfold bind. destruct (write 0 i c) as [[[]|] c1].
  - apply CBB_finish_shows in Hw. destruct (CBB_finish 0 true true c1) as [[[p n]|] c2]; [|exact Hw].
    tauto.
  - destruct Hw as (b & _ & _ & Ht). exact Ht.
Qed.
End WriteLemmas.

(** * Reading back *)

Definition read_num (k : num) : M CBS Z :=
  match k with
  | U8 => CBS_get_u8
  | U16 => CBS_get_u16
  | U24 => CBS_get_u24
  | U32 => CBS_get_u32
  | U64 => CBS_get_u64
  | U16le => CBS_get_u16le
  | U32le => CBS_get_u32le
  | U64le => CBS_get_u64le
  end.

(** Run [m] on [body], which it must use up. *)
Definition within {A} (m : M CBS A) (body : CBS) : M CBS A :=
  let* '(a, rest) := on_rest m body in
  check (CBS_len rest =? 0) in
  ret a.

(** [i] gives the shape of what is read; the result is what was found. *)
Fixpoint read (i : item) : M CBS item :=
  match i with
  | Nothing => ret Nothing
  | Seq i j => let* a := read i in let* b := read j in ret (Seq a b)
  | Num k _ => let* v := read_num k in ret (Num k v)
  | Bytes bs => let* r := CBS_get_bytes (zlen bs) in ret (Bytes r)
  | Zeros n =>
      let* r := CBS_get_bytes n in
      check (CBS_mem_equal r (zrep n 0)) in
      ret (Zeros n)
  | Prefixed n i =>
      let* body := cbs_get_length_prefixed n in
      let* a := within (read i) body in
      ret (Prefixed n a)
  | Asn1 tag i =>
      let* body := CBS_get_asn1 tag in
      let* a := within (read i) body in
      ret (Asn1 tag a)
  | Uint64 _ => let* v := CBS_get_asn1_uint64 in ret (Uint64 v)
  | Int64 _ => let* v := CBS_get_asn1_int64 in ret (Int64 v)
  | Octets _ => let* r := CBS_get_asn1 CBS_ASN1_OCTETSTRING in ret (Octets r)
  | Bool _ => let* v := CBS_get_asn1_bool in ret (Bool v)
  end.

Lemma oapp_inv o k bs : oapp o k = Some bs -> exists a b, o = Some a /\ k = Some b /\ bs = a ++ b.
Proof. destruct o, k; try discriminate. intros E. injection E as <-. eauto. Qed.

Lemma element_bytes_inv tag o bs :
  element_bytes tag o = Some bs -> exists s, o = Some s /\ zlen s < 2 ^ 32 /\ bs = der tag s.
Proof.
  unfold element_bytes. destruct o as [s|]; [|discriminate].
  destruct (Z.leb_spec (zlen s) 4294967294); [|discriminate]. intros E. injection E as <-.
  exists s. repeat split; lia.
Qed.

Lemma prefixed_bytes_inv n o bs :
  prefixed_bytes n o = Some bs ->
  exists s, o = Some s /\ zlen s < 256 ^ n /\ bs = be_bytes (Z.to_nat n) (zlen s) ++ s.
Proof.
  unfold prefixed_bytes, sealed, length_prefix. destruct o as [s|]; [|discriminate].
  destruct (Z.ltb_spec (zlen s) (256 ^ n)); [|discriminate]. intros E. injection E as <-. eauto.
Qed.

Lemma num_bytes_inv k v bs :
  0 <= v < num_param k -> num_bytes k v = Some bs ->
  0 <= v < 256 ^ num_width k /\
  bs = match k with
       | U16le | U32le | U64le => rev (be_bytes (Z.to_nat (num_width k)) v)
       | _ => be_bytes (Z.to_nat (num_width k)) v
       end.
Proof.
  intros Hv E.
  destruct k; cbn [num_bytes num_param] in *;
    try (apply (inj Some) in E; subst bs; split; [exact Hv|reflexivity]);
    unfold field in E; match type of E with
    | (if ?x <? ?y then _ else _) = _ => destruct (Z.ltb_spec x y); [|discriminate]
    end; apply (inj Some) in E; subst bs; (split; [lia|reflexivity]).
Qed.

Lemma num_bytes_ok k v bs : num_bytes k v = Some bs -> bytes_ok bs.
Proof.
  destruct k; cbn [num_bytes]; unfold field; try (destruct (v <? _); [|discriminate]);
    intros E; apply (inj Some) in E; subst bs; try apply Forall_rev; apply be_bytes_ok.
Qed.

Lemma zrep_0_ok n : bytes_ok (zrep n 0).
Proof. apply Forall_replicate. unfold byte_ok. lia. Qed.

Lemma serialize_bytes i bs : item_ok i -> serialize i = Some bs -> bytes_ok bs.
Proof.
  revert bs. induction i; intros l Hok E; cbn [item_ok serialize] in *.
  - apply (inj Some) in E as <-. constructor.
  - apply oapp_inv in E as (a & b & Ha & Hb & ->). apply bytes_ok_app. intuition auto.
  - eauto using num_bytes_ok.
  - apply (inj Some) in E as <-. apply Hok.
  - apply (inj Some) in E as <-. apply zrep_0_ok.
  - apply prefixed_bytes_inv in E as (s & Hs & _ & ->). apply bytes_ok_app.
    split; [apply be_bytes_ok|]. intuition auto.
  - apply element_bytes_inv in E as (s & Hs & Hl & ->). apply der_bytes; intuition auto.
  - apply (inj Some) in E as <-. apply der_bytes; [split; easy|apply der_int_short, fits_uint64, Hok|].
    apply der_int_bytes.
  - apply (inj Some) in E as <-. apply der_bytes; [split; easy|apply der_int_short, fits_int64, Hok|].
    apply der_int_bytes.
  - apply element_bytes_inv in E as (s & Hs & Hl & ->). injection Hs as <-.
    apply der_bytes; [split; easy|assumption|apply Hok].
  - apply (inj Some) in E as <-. apply der_bytes; [split; easy|easy|].
    destruct v; repeat constructor; lia.
Qed.

Lemma fixed_reader_app n f l rest :
  zlen l = n -> fixed_reader n f (l ++ rest) = (Some (f l), rest).
Proof.
  intros <-. unfold fixed_reader. rewrite zlen_app, ztake_app, zdrop_app.
  pose proof (zlen_nonneg rest). destruct (Z.ltb_spec (zlen l + zlen rest) (zlen l)); [lia|reflexivity].
Qed.

Lemma read_num_eq k cbs :
  bytes_ok cbs -> read_num k cbs =
  fixed_reader (num_width k) (match k with U16le | U32le | U64le => fun l => be_val (rev l)
                              | _ => be_val end) cbs.
Proof.
  intros Hb. destruct k; cbn [read_num num_width];
    auto using CBS_get_u8_eq, CBS_get_u16_eq, CBS_get_u24_eq, CBS_get_u32_eq,
      CBS_get_u16le_eq, CBS_get_u32le_eq, CBS_get_u64le_eq.
  apply cbs_get_u_eq; [exact Hb|lia].
Qed.

Lemma read_num_complete k v bs rest :
  0 <= v < num_param k -> num_bytes k v = Some bs -> bytes_ok rest ->
  read_num k (bs ++ rest) = (Some v, rest).
Proof.
  intros Hv E Hr. pose proof (num_bytes_ok k v bs E) as Hb.
  apply num_bytes_inv in E as [Hv' ->]; [|assumption].
  rewrite read_num_eq by (apply bytes_ok_app; auto).
  assert (Hz : zlen (be_bytes (Z.to_nat (num_width k)) v) = num_width k)
    by (rewrite zlen_be_bytes; destruct k; reflexivity).
  assert (He : be_val (be_bytes (Z.to_nat (num_width k)) v) = v)
    by (rewrite be_val_bytes, Z2Nat.id by (destruct k; cbn; lia); apply Z.mod_small, Hv').
  destruct k; rewrite fixed_reader_app by (unfold zlen in *; rewrite ?length_rev; exact Hz);
    rewrite ?rev_involutive, He; reflexivity.
Qed.

Lemma within_complete {A} (m : M CBS A) body a cbs :
  m body = (Some a, []) -> within m body cbs = (Some a, cbs).
Proof.
  intros E. unfold within, on_rest, bind. rewrite E. reflexivity.
Qed.

Lemma CBS_get_asn1_bool_complete (v : bool) rest :
  bytes_ok rest ->
  CBS_get_asn1_bool (der CBS_ASN1_BOOLEAN [if v then 255 else 0] ++ rest) = (Some v, rest).
Proof.
  intros Hr. unfold CBS_get_asn1_bool.
  erewrite bind_Some by (apply CBS_get_asn1_complete; [split; easy| |exact Hr|easy];
                         destruct v; repeat constructor; lia).
  destruct v; reflexivity.
Qed.

Lemma CBS_get_bytes_app l rest : CBS_get_bytes (zlen l) (l ++ rest) = (Some l, rest).
Proof. unfold CBS_get_bytes. erewrite bind_Some by apply cbs_get_app. reflexivity. Qed.

Lemma read_complete i bs rest :
  item_ok i -> serialize i = Some bs -> bytes_ok rest -> read i (bs ++ rest) = (Some i, rest).
Proof.
  revert bs rest. induction i; intros l rest Hok E Hr; cbn [item_ok serialize read] in *.
  - apply (inj Some) in E as <-. reflexivity.
  - apply oapp_inv in E as (a & b & Ha & Hb & ->). destruct Hok as [H1 H2]. rewrite <- app_assoc.
    erewrite bind_Some by (apply IHi1; auto; apply bytes_ok_app; eauto using serialize_bytes).
    erewrite bind_Some by (apply IHi2; auto). reflexivity.
  - erewrite bind_Some by (apply read_num_complete; eauto). reflexivity.
  - apply (inj Some) in E as <-. erewrite bind_Some by apply CBS_get_bytes_app. reflexivity.
  - apply (inj Some) in E as <-. rewrite <- (zlen_zrep n 0) at 1 by lia.
    erewrite bind_Some by apply CBS_get_bytes_app. 
    rewrite guard_true; [reflexivity|]. unfold CBS_mem_equal, CBS_len. rewrite Z.eqb_refl.
    apply Z.eqb_eq, CRYPTO_memcmp_loop_0; auto using zrep_0_ok. lia.
  - apply prefixed_bytes_inv in E as (s & Hs & Hl & ->). destruct Hok as [Hn Hok].
    pose proof (serialize_bytes _ _ Hok Hs). rewrite <- app_assoc.
    erewrite bind_Some.
    2: { apply prefixed_iff; [|exact Hn|split; [reflexivity|exact Hl]].
         rewrite !bytes_ok_app. auto using be_bytes_ok. }
    erewrite bind_Some; [reflexivity|]. apply within_complete. rewrite <- (app_nil_r s).
    apply IHi; auto. constructor.
  - apply element_bytes_inv in E as (s & Hs & Hl & ->). destruct Hok as [Ht Hok].
    pose proof (serialize_bytes _ _ Hok Hs).
    erewrite bind_Some by (apply CBS_get_asn1_complete; auto).
    erewrite bind_Some; [reflexivity|]. apply within_complete. rewrite <- (app_nil_r s).
    apply IHi; auto. constructor.
  - apply (inj Some) in E as <-. erewrite bind_Some by (apply CBS_get_asn1_uint64_complete; auto). reflexivity.
  - apply (inj Some) in E as <-. erewrite bind_Some by (apply CBS_get_asn1_int64_complete; auto). reflexivity.
  - apply element_bytes_inv in E as (s & Hs & Hl & ->). injection Hs as <-. destruct Hok.
    erewrite bind_Some by (apply CBS_get_asn1_complete; auto; split; easy). reflexivity.
  - apply (inj Some) in E as <-. erewrite bind_Some by (apply CBS_get_asn1_bool_complete; auto). reflexivity.
Qed.

(** * Arbitrary sequences of calls *)

Section Calls.
Context `{Malloc}.

(** One call by the owner of the objects, on any of them, in any order. *)
Inductive call :=
| AddItem (d : nat) (i : item)
| AddSpace (d : nat) (n : Z)
| Reserve (d : nat) (n : Z)
| DidWrite (d : nat) (n : Z)
| LengthPrefixed (d : nat) (n : Z)
| AddAsn1 (d : nat) (tag : Z)
| Flush (d : nat)
| DiscardChild (d : nat).

Definition call_ok (k : call) : Prop :=
  match k with
  | AddItem _ i => item_ok i
  | AddSpace _ n | Reserve _ n | DidWrite _ n => 0 <= n < 2 ^ 64
  | LengthPrefixed _ n => 1 <= n <= 3
  | AddAsn1 _ tag => tag_ok tag
  | Flush _ | DiscardChild _ => True
  end.

(** The state a call leaves, whether it succeeds or not. *)
Definition run_call (k : call) (c : cbb_st) : cbb_st :=
  match k with
  | AddItem d i => snd (write d i c)
  | AddSpace d n => snd (CBB_add_space d n c)
  | Reserve d n => snd (CBB_reserve d n c)
  | DidWrite d n => snd (CBB_did_write d n c)
  | LengthPrefixed d n => snd (cbb_add_length_prefixed d n c)
  | AddAsn1 d tag => snd (CBB_add_asn1 d tag c)
  | Flush d => snd (CBB_flush d c)
  | DiscardChild d => CBB_discard_child d c
  end.

Definition run (ks : list call) (c : cbb_st) : cbb_st := fold_left (fun c k => run_call k c) ks c.

(** The valid bytes are inside the block, which is as large as the capacity
    says: every store so far was inside the allocation. *)
Definition in_bounds (b : cbb_buffer_st) : Prop :=
  zlen (block b) = cap b /\ 0 <= len b <= cap b /\ cap b < 2 ^ 64.

Definition frame_ok (size : Z) (f : frame) : Prop :=
  0 <= offset f <= size /\ 1 <= pending_len_len f <= 3 /\
  (pending_is_asn1 f = true -> pending_len_len f = 1).

Definition sound (c : cbb_st) : Prop :=
  match base c with
  | None => True
  | Some b => in_bounds b /\ Forall (frame_ok (cap b)) (children c)
  end.

Definition errored (c : cbb_st) : Prop := exists b, base c = Some b /\ error b = true.

(** A buffer never shrinks, and one that cannot grow keeps its size. *)
Definition same_size (b b' : cbb_buffer_st) : Prop :=
  can_resize b' = can_resize b /\ cap b <= cap b' /\ (can_resize b = false -> cap b' = cap b).

(** What a buffer operation keeps, and what its result satisfies. *)
Definition bsafe {A} (m : M bufst A) (P : A -> cbb_buffer_st -> Prop) : Prop :=
  forall h b, in_bounds b ->
  let '(r, (h', b')) := m (h, b) in
  in_bounds b' /\ (error b = true -> error b' = true) /\ same_size b b' /\
  forall a, r = Some a -> P a b'.

Definition kept (c c' : cbb_st) : Prop :=
  sound c' /\ (errored c -> errored c') /\
  forall b, base c = Some b -> exists b', base c' = Some b' /\ same_size b b'.

Definition safe {A} (m : M cbb_st A) (P : A -> Prop) : Prop :=
  forall c, sound c -> kept c (snd (m c)) /\ forall a, fst (m c) = Some a -> P a.

Lemma same_size_refl b : same_size b b.
Proof. unfold same_size. auto using Z.le_refl. Qed.

Lemma same_size_trans a b c : same_size a b -> same_size b c -> same_size a c.
Proof.
  unfold same_size. intros (E1 & L1 & H1) (E2 & L2 & H2).
  split; [congruence|]. split; [lia|]. intros E. rewrite H2, H1; congruence.
Qed.

(** What changes neither the size nor the kind of the buffer. *)
Lemma same_size_eq b b' : can_resize b' = can_resize b -> cap b' = cap b -> same_size b b'.
Proof. intros Hr Hc. unfold same_size. rewrite Hr, Hc. auto using Z.le_refl. Qed.

Lemma frames_mono n m fs : n <= m -> Forall (frame_ok n) fs -> Forall (frame_ok m) fs.
Proof. intros Hn. apply Forall_impl. intros f (Ho & Hp & Ha). split; [lia|auto]. Qed.

Lemma kept_refl c : sound c -> kept c c.
Proof. intros Hc. split; [exact Hc|]. split; [auto|]. eauto using same_size_refl. Qed.

Lemma kept_trans a b c : kept a b -> kept b c -> kept a c.
Proof.
  intros (_ & E1 & S1) (Hc & E2 & S2). split; [exact Hc|]. split; [auto|]. intros x Hx.
  destruct (S1 x Hx) as (y & Hy & Sy). destruct (S2 y Hy) as (z & Hz & Sz).
  eauto using same_size_trans.
Qed.

Lemma safe_bind {A B} (m : M cbb_st A) (k : A -> M cbb_st B) P Q :
  safe m P -> (forall a, P a -> safe (k a) Q) -> safe (bind m k) Q.
Proof.
  intros Hm Hk c Hc. destruct (Hm c Hc) as [K1 HP]. unfold bind.
  destruct (m c) as [[a|] c1]; cbn [fst snd] in *; [|split; [exact K1|discriminate]].
  destruct (Hk a (HP a eq_refl) c1 (proj1 K1)) as [K2 HQ].
  split; [|exact HQ]. eauto using kept_trans.
Qed.

Lemma safe_weaken {A} (m : M cbb_st A) (P Q : A -> Prop) : (forall a, P a -> Q a) -> safe m P -> safe m Q.
Proof. intros HPQ Hm c Hc. destruct (Hm c Hc). split; auto. Qed.

Lemma safe_ret {A} (a : A) (P : A -> Prop) : P a -> safe (ret a) P.
Proof. intros HP c Hc. split; [apply kept_refl, Hc|]. cbn. intros b E. injection E as <-. exact HP. Qed.

Lemma on_base_safe {A} d (m : M bufst A) (P : A -> cbb_buffer_st -> Prop) (Q : A -> Prop) :
  bsafe m P -> (forall a b, P a b -> Q a) -> safe (on_base d m) Q.
Proof.
  intros Hm HPQ c Hc. unfold on_base. pose proof Hc as Hc'. unfold sound in Hc'.
  destruct (base c) as [b|] eqn:Eb; [|split; [apply kept_refl, Hc|discriminate]].
  destruct (attached d c); cbn [negb]; [|split; [apply kept_refl, Hc|discriminate]].
  destruct Hc' as [Hb Hf]. specialize (Hm (cbb_heap c) b Hb).
  destruct (m (cbb_heap c, b)) as [r [h' b']].
  destruct Hm as (Hb' & He & Hs & HP). cbn [fst snd]. split; [|eauto].
  split; [split; [exact Hb'|apply (frames_mono (cap b)); [apply Hs|exact Hf]]|]. split.
  - intros (x & Hx & Ex). rewrite Eb in Hx. injection Hx as <-. exists b'. auto.
  - intros x Hx. rewrite Eb in Hx. injection Hx as <-. eauto.
Qed.

Lemma bsafe_bind {A B} (m : M bufst A) (k : A -> M bufst B) P Q :
  bsafe m P -> (forall a h b, in_bounds b -> P a b ->
    let '(r, (h', b')) := k a (h, b) in
    in_bounds b' /\ (error b = true -> error b' = true) /\ same_size b b' /\
    forall x, r = Some x -> Q x b') -> bsafe (bind m k) Q.
Proof.
  intros Hm Hk h b Hb. specialize (Hm h b Hb). unfold bind.
  destruct (m (h, b)) as [[a|] [h1 b1]]; [|destruct Hm as (? & ? & ? & ?);
    split_and!; auto; discriminate].
  destruct Hm as (Hb1 & He & Hs & HP). specialize (Hk a h1 b1 Hb1 (HP a eq_refl)).
  destruct (k a (h1, b1)) as [r [h2 b2]]. destruct Hk as (Hb2 & He2 & Hs2 & HQ).
  split_and!; eauto using same_size_trans.
Qed.

Lemma reserve_bsafe n :
  0 <= n < 2 ^ 64 ->
  bsafe (cbb_buffer_reserve n) (fun out b => out = len b /\ len b + n <= cap b).
Proof.
  intros Hn h b (Hz & Hl & Hc). unfold cbb_buffer_reserve.
  assert (Hfail : in_bounds (set_error b) /\ (error b = true -> error (set_error b) = true) /\
    same_size b (set_error b) /\
    forall a, None = Some a -> a = len (set_error b) /\ len (set_error b) + n <= cap (set_error b)).
  { split; [unfold in_bounds; auto|]. split; [auto|].
    split; [apply same_size_eq; reflexivity|discriminate]. }
  destruct (Z.ltb_spec (u64 (len b + n)) (len b)) as [|Ho]; [exact Hfail|].
  apply u64_overflow in Ho; [|lia|lia]. rewrite Ho. pose proof (u64_range (len b + n)).
  destruct (Z.ltb_spec (cap b) (len b + n)).
  - destruct (can_resize b) eqn:Er; cbn [negb]; [|exact Hfail].
    set (nc := if _ || _ then _ else _).
    assert (Hnc : len b + n <= nc < 2 ^ 64 /\ cap b <= nc).
    { pose proof (u64_range (cap b * 2)). unfold nc.
      destruct (Z.ltb_spec (u64 (cap b * 2)) (cap b)); cbn [orb]; [lia|].
      destruct (Z.ltb_spec (u64 (cap b * 2)) (len b + n)); lia. }
    destruct (OPENSSL_realloc h (buf b) nc) as [[r|] h1] eqn:E; [|exact Hfail].
    apply realloc_block in E as [Hr _]; [|lia|unfold block in Hz; lia].
    split; [unfold in_bounds, block; cbn -[Z.pow]; lia|]. split; [auto|].
    split; [split; [reflexivity|]; split; [cbn; lia|rewrite Er; discriminate]|].
    intros a E. injection E as <-. cbn. lia.
  - split; [unfold in_bounds; auto|]. split; [auto|]. split; [apply same_size_refl|].
    intros a E. injection E as <-. lia.
Qed.

Lemma add_bsafe n :
  0 <= n < 2 ^ 64 ->
  bsafe (cbb_buffer_add n) (fun out b => 0 <= out /\ out + n = len b).
Proof.
  intros Hn. eapply bsafe_bind; [apply reserve_bsafe, Hn|].
  intros out h b (Hz & Hl & Hc) [-> Hfit]. unfold set_len, in_bounds, block. cbn -[Z.pow].
  split_and!; auto using same_size_refl; try lia.
  - apply same_size_eq; reflexivity.
  - intros a E. injection E as <-. lia.
Qed.

(** A store inside the valid bytes. *)
Lemma store_in_bounds i bs b :
  in_bounds b -> 0 <= i -> i + zlen bs <= len b -> in_bounds (store i bs b).
Proof.
  intros (Hz & Hl & Hc) Hi Hb. split; [|split; [exact Hl|exact Hc]].
  change (zlen (zsplice i bs (block b)) = cap b). rewrite zlen_zsplice; lia.
Qed.

Lemma add_store_bsafe n bs :
  0 <= n < 2 ^ 64 -> zlen bs = n ->
  bsafe (let* out := cbb_buffer_add n in store_at out bs) (fun _ _ => True).
Proof.
  intros Hn Hb. eapply bsafe_bind; [apply add_bsafe, Hn|]. intros out h b Hbb [H0 H1]. cbn.
  split; [apply store_in_bounds; auto; lia|]. split_and!; auto. apply same_size_eq; reflexivity.
Qed.

Lemma add_u_loop_len n v : zlen (fst (add_u_loop n v)) = Z.of_nat n.
Proof.
  revert v. induction n as [|n IH]; intros v; [reflexivity|]. cbn [add_u_loop].
  specialize (IH (Z.shiftr v 8)). destruct (add_u_loop n (Z.shiftr v 8)) as [bs v'].
  cbn [fst] in *. autorewrite with zlen. lia.
Qed.

Lemma add_u_bsafe v n : 0 <= n < 2 ^ 64 -> bsafe (cbb_buffer_add_u v n) (fun _ _ => True).
Proof.
  intros Hn. unfold cbb_buffer_add_u. destruct (n =? 0).
  { intros h b Hb. cbn. auto using same_size_refl. }
  eapply bsafe_bind; [apply add_bsafe, Hn|]. intros out h b Hbb [H0 H1].
  pose proof (add_u_loop_len (Z.to_nat n) v) as Hl.
  destruct (add_u_loop (Z.to_nat n) v) as [bs v']. cbn [fst] in Hl.
  assert (in_bounds (store out bs b)) by (apply store_in_bounds; auto; lia).
  destruct (negb (v' =? 0)); split_and!; auto;
    apply same_size_eq; reflexivity.
Qed.

(** What a flush keeps. *)
Definition flushed (b : cbb_buffer_st) (r : bool * bufst * list frame) : Prop :=
  let '(ok, (h, b'), kids) := r in
  in_bounds b' /\ (error b = true -> error b' = true) /\ same_size b b' /\
  Forall (frame_ok (cap b')) kids /\ (ok = true -> error b' = false).

Lemma flushed_fail b b' h kids :
  in_bounds b' -> same_size b b' -> Forall (frame_ok (cap b')) kids ->
  flushed b (false, (h, set_error b'), kids).
Proof.
  intros Hb Hs Hk. split; [exact Hb|]. split; [auto|]. split; [exact Hs|].
  split; [exact Hk|discriminate].
Qed.

Lemma flushed_done b b' h :
  in_bounds b' -> same_size b b' -> error b = false -> error b' = false ->
  flushed b (true, (h, b'), []).
Proof. intros. unfold flushed. split_and!; auto. congruence. Qed.

Lemma flushed_trans b b1 r :
  error b = false -> same_size b b1 -> flushed b1 r -> flushed b r.
Proof.
  intros He Hs. destruct r as [[ok [h b']] kids]. intros (Hb & _ & Hs' & Hk & Hok).
  split; [exact Hb|]. split; [rewrite He; discriminate|]. eauto using same_size_trans.
Qed.

(** The ASN.1 branch, from the buffer the inner flush left. *)
Lemma close_asn1_flushed b child rest h :
  Forall (frame_ok (cap b)) (child :: rest) -> wf b -> 0 <= offset child ->
  offset child + 1 <= len b ->
  flushed b (close_asn1 (offset child) (len b - (offset child + 1)) child rest (h, b)).
Proof.
  intros Hch W Ho Hstart. pose proof W as (Hl & Hc & Hz & He).
  assert (Hb : in_bounds b) by (split; [assumption|split; assumption]).
  unfold close_asn1. cbv zeta. set (n := len b - (offset child + 1)).
  pose proof (asn1_len_len_spec n ltac:(lia)) as Hspec.
  destruct (asn1_len_len n) as [[l i]|]; [|apply flushed_fail; auto using same_size_refl].
  destruct Hspec as (Hl5 & _ & _ & Hsmall & _). destruct (Z.eqb_spec l 1) as [->|Hne].
  - assert (H1 : in_bounds (store (offset child) [i] b))
      by (apply store_in_bounds; [assumption|lia|autorewrite with zlen; lia]).
    apply flushed_done; [|apply same_size_eq; reflexivity|exact He|exact He].
    apply store_in_bounds; [exact H1|lia|]. autorewrite with zlen. cbn [store len]. lia.
  - pose proof (add_bsafe (l - 1) ltac:(lia) h b Hb) as Ha.
    pose proof (cbb_buffer_add_spec (l - 1) h b W ltac:(lia)) as Hadd.
    destruct (cbb_buffer_add (l - 1) (h, b)) as [[out|] [h1 b1]];
      destruct Ha as (Hb1 & He1 & Hs1 & _).
    2: { apply flushed_fail; auto. apply (frames_mono (cap b)); [apply Hs1|exact Hch]. }
    destruct Hadd as (_ & W1 & Hlen & _). rewrite add_u_loop_eq, Z2Nat.id by lia.
    rewrite Z.div_small by lia. cbn [Z.eqb negb].
    apply flushed_done; [|exact Hs1|exact He|apply W1].
    pose proof Hb1 as (Hz1 & Hl1 & _).
    repeat (apply store_in_bounds; [| |cbn [store len]]); rewrite ?zlen_be_bytes, ?zlen_zsub;
      autorewrite with zlen; auto; lia.
Qed.

Lemma flush_from_flushed kids h b :
  Forall (frame_ok (cap b)) kids -> in_bounds b -> flushed b (flush_from kids (h, b)).
Proof.
  revert h b. induction kids as [|child rest IH]; intros h b Hk Hb; destruct (error b) eqn:He;
    try (rewrite flush_from_error by exact He; unfold flushed; split_and!;
         auto using same_size_refl; discriminate).
  { cbn [flush_from]. rewrite He. apply flushed_done; auto using same_size_refl. }
  apply List.Forall_cons_iff in Hk as [(Ho & Hp & Ha) Hrest].
  cbn [flush_from]. rewrite He. destruct (Z.eqb_spec (pending_len_len child) 0); [lia|].
  specialize (IH h b Hrest Hb). destruct (flush_from rest (h, b)) as [[ok [h1 b1]] rest1].
  destruct IH as (Hb1 & He1 & Hs1 & Hr1 & Hok). pose proof Hs1 as (_ & Hcap & _).
  assert (Hch : Forall (frame_ok (cap b1)) (child :: rest1))
    by (constructor; [split; [lia|split; [lia|assumption]]|assumption]).
  destruct ok; [|apply flushed_fail; auto]. pose proof Hb1 as (Hz & Hl & Hc).
  destruct (_ || _) eqn:Eb; [apply flushed_fail; auto|].
  apply orb_false_iff in Eb as [E1 E2]. apply Z.ltb_ge in E1, E2.
  apply u64_overflow in E1; [|lia|lia]. rewrite E1 in *. pose proof (Hok eq_refl) as Eb1.
  destruct (pending_is_asn1 child).
  - rewrite (Ha eq_refl) in *. eapply flushed_trans; [exact He|exact Hs1|].
    exact (close_asn1_flushed b1 child rest1 h1 Hch (conj Hl (conj Hc (conj Hz Eb1)))
             (proj1 Ho) E2).
  - pose proof (add_u_loop_len (Z.to_nat (pending_len_len child))
      (len b1 - (offset child + pending_len_len child))) as Hu.
    destruct (add_u_loop _ _) as [bs v']. cbn [fst] in Hu.
    assert (in_bounds (store (offset child) bs b1)) by (apply store_in_bounds; auto; lia).
    destruct (negb (v' =? 0)); [apply flushed_fail; auto|apply flushed_done; auto].
Qed.

(** An operation on a buffer that is there, as a statement about the object. *)
Lemma kept_intro c b c' b' :
  base c = Some b -> base c' = Some b' -> in_bounds b' -> Forall (frame_ok (cap b')) (children c') ->
  (error b = true -> error b' = true) -> same_size b b' -> kept c c'.
Proof.
  intros Hb Hb' Hi Hf He Hs. split; [unfold sound; rewrite Hb'; auto|]. split.
  - intros (x & Hx & Ex). rewrite Hb in Hx. injection Hx as <-. exists b'. auto.
  - intros x Hx. rewrite Hb in Hx. injection Hx as <-. eauto.
Qed.

Lemma CBB_flush_safe d : safe (CBB_flush d) (fun _ => True).
Proof.
  intros c Hc. split; [|auto]. unfold CBB_flush. pose proof Hc as Hc'. unfold sound in Hc'.
  destruct (base c) as [b|] eqn:Eb; [|apply kept_refl, Hc].
  destruct (attached d c); cbn [negb]; [|apply kept_refl, Hc]. destruct Hc' as [Hb Hf].
  pose proof (flush_from_flushed (drop d (children c)) (cbb_heap c) b (Forall_drop _ _ _ Hf) Hb) as Hr.
  destruct (flush_from _ _) as [[ok [h' b']] kids]. destruct Hr as (Hb' & He & Hs & Hk & _).
  eapply kept_intro; [exact Eb|reflexivity|exact Hb'| |exact He|exact Hs].
  cbn. apply Forall_app. split; [|exact Hk].
  apply Forall_take, (frames_mono (cap b)); [apply Hs|exact Hf].
Qed.

(** Once there is an error, a flush fails and changes nothing. *)
Lemma CBB_flush_errored d c : errored c -> fst (CBB_flush d c) = None.
Proof.
  intros (b & Hb & He). unfold CBB_flush. rewrite Hb.
  destruct (attached d c); [|reflexivity]. cbn [negb]. rewrite flush_from_error by exact He.
  reflexivity.
Qed.

Lemma safe_ext {A} (m m' : M cbb_st A) P : (forall c, m c = m' c) -> safe m' P -> safe m P.
Proof. intros E Hm c. rewrite E. apply Hm. Qed.

Lemma on_base_true {A} d (m : M bufst A) P : bsafe m P -> safe (on_base d m) (fun _ => True).
Proof. intros Hm. eapply on_base_safe; eauto. Qed.

(** Reading the length, adding the placeholder, attaching the child. *)
Lemma open_safe d (m : M cbb_st unit) n asn1 :
  1 <= n <= 3 -> (asn1 = true -> n = 1) -> safe m (fun _ => True) ->
  safe (let* off := on_base d get_len in
        let* _ := m in
        attach d {| offset := off; pending_len_len := n; pending_is_asn1 := asn1 |}) (fun _ => True).
Proof.
  intros Hn Ha Hm c Hc. split; [|auto]. unfold bind at 1, on_base. pose proof Hc as Hc'.
  unfold sound in Hc'. destruct (base c) as [b|] eqn:Eb; [|apply kept_refl, Hc].
  destruct (attached d c); cbn [negb]; [|apply kept_refl, Hc]. destruct Hc' as [Hb Hf].
  cbn [get_len]. set (c1 := {| base := Some b; children := children c; cbb_heap := cbb_heap c |}).
  assert (Hc1 : sound c1) by (split; assumption). unfold bind.
  destruct (Hm c1 Hc1) as [K _]. assert (K0 : kept c c1)
    by (eapply kept_intro; eauto using same_size_refl; reflexivity).
  apply (kept_trans _ _ _ K0) in K. destruct (m c1) as [[[]|] c2]; cbn [fst snd] in *; [|exact K].
  destruct K as (Hc2 & He2 & Hs2). destruct (Hs2 b Eb) as (b2 & Eb2 & Hs).
  unfold sound in Hc2. rewrite Eb2 in Hc2. destruct Hc2 as [Hb2 Hf2].
  eapply (kept_intro c b _ b2); [exact Eb|exact Eb2|exact Hb2| | |exact Hs].
  - cbn. apply Forall_app. split; [apply Forall_take, Hf2|]. constructor; [|constructor].
    destruct Hb as (_ & Hl & _), Hs as (_ & Hcap & _). split; [cbn; lia|auto].
  - intros Ex. destruct He2 as (x & Hx & Hex); [exists b; auto|].
    rewrite Eb2 in Hx. injection Hx as <-. exact Hex.
Qed.

Lemma add_u_n_safe d v n : 0 <= n < 2 ^ 64 -> safe (CBB_add_u_n d v n) (fun _ => True).
Proof.
  intros Hn. eapply safe_bind; [apply CBB_flush_safe|]. intros _ _.
  eapply on_base_true, add_u_bsafe, Hn.
Qed.

Lemma add_bytes_safe d bs : zlen bs < 2 ^ 64 -> safe (CBB_add_bytes d bs) (fun _ => True).
Proof.
  intros Hn. eapply safe_bind; [apply CBB_flush_safe|]. intros _ _.
  eapply safe_ext; [intros c; apply on_base_bind|].
  eapply on_base_true, add_store_bsafe; [|reflexivity]. pose proof (zlen_nonneg bs). lia.
Qed.

Lemma add_zeros_safe d n : 0 <= n < 2 ^ 64 -> safe (CBB_add_zeros d n) (fun _ => True).
Proof.
  intros Hn. eapply safe_ext; [intros c; apply bind_bind|].
  eapply safe_bind; [apply CBB_flush_safe|]. intros _ _.
  eapply safe_ext; [intros c; apply on_base_bind|].
  eapply on_base_true, add_store_bsafe; [exact Hn|apply zlen_zrep; lia].
Qed.

Lemma length_prefixed_safe d n :
  1 <= n <= 3 -> safe (cbb_add_length_prefixed d n) (fun _ => True).
Proof.
  intros Hn. eapply safe_bind; [apply CBB_flush_safe|]. intros _ _.
  eapply safe_ext; [|apply (open_safe d (on_base d (let* p := cbb_buffer_add n in
                       store_at p (zrep n 0))) n false); [exact Hn|discriminate|]].
  - intros c. apply bind_ext. intros off s. rewrite <- bind_bind. unfold bind at 1 4.
    rewrite on_base_bind. reflexivity.
  - eapply on_base_true, (add_store_bsafe n); [lia|apply zlen_zrep; lia].
Qed.

Lemma base128_safe d n v : safe (add_base128_loop d n v) (fun _ => True).
Proof.
  induction n as [|n IH]; [apply safe_ret; auto|]. cbn [add_base128_loop].
  eapply safe_bind; [apply add_u_n_safe; lia|]. intros _ _. exact IH.
Qed.

Lemma add_tag_safe d tag : safe (add_tag d tag) (fun _ => True).
Proof.
  unfold add_tag. destruct (31 <=? _); [|apply add_u_n_safe; lia].
  eapply safe_bind; [apply add_u_n_safe; lia|]. intros _ _. apply base128_safe.
Qed.

Lemma add_asn1_safe d tag : safe (CBB_add_asn1 d tag) (fun _ => True).
Proof.
  eapply safe_bind; [apply CBB_flush_safe|]. intros _ _.
  eapply safe_bind; [apply (add_tag_safe d tag)|]. intros _ _.
  apply (open_safe d (CBB_add_u8 d 0) 1 true); [lia|auto|]. apply add_u_n_safe. lia.
Qed.

Lemma element_safe {A} d tag (k : M cbb_st A) :
  safe k (fun _ => True) ->
  safe (let* _ := CBB_add_asn1 d tag in let* _ := k in CBB_flush d) (fun _ => True).
Proof.
  intros Hk. eapply safe_bind; [apply add_asn1_safe|]. intros _ _.
  eapply safe_bind; [exact Hk|]. intros _ _. apply CBB_flush_safe.
Qed.

Lemma uint64_bytes_safe d n v st : safe (asn1_uint64_bytes d n v st) (fun _ => True).
Proof.
  revert st. induction n as [|n IH]; intros st; [apply safe_ret; auto|]. cbn [asn1_uint64_bytes].
  destruct (negb st && _); [apply IH|]. eapply safe_bind with (P := fun _ => True).
  { destruct (negb st && _); [apply add_u_n_safe; lia|apply safe_ret; auto]. }
  intros _ _. eapply safe_bind; [apply add_u_n_safe; lia|]. intros _ _. apply IH.
Qed.

Lemma add_asn1_uint64_safe d v : safe (CBB_add_asn1_uint64 d v) (fun _ => True).
Proof.
  eapply safe_bind; [apply add_asn1_safe|]. intros _ _.
  eapply safe_bind; [apply uint64_bytes_safe|]. intros st _.
  eapply safe_bind with (P := fun _ => True).
  { destruct (negb st); [apply add_u_n_safe; lia|apply safe_ret; auto]. }
  intros _ _. apply CBB_flush_safe.
Qed.

Lemma int64_bytes_safe d v i : safe (add_int64_bytes d v i) (fun _ => True).
Proof.
  induction i as [|i IH]; cbn [add_int64_bytes];
    (eapply safe_bind; [apply add_u_n_safe; lia|]; intros _ _); [apply safe_ret; auto|exact IH].
Qed.

Lemma write_safe d i : item_ok i -> safe (write d i) (fun _ => True).
Proof.
  revert d. induction i; intros d Hok; cbn [item_ok write] in *.
  - apply safe_ret; auto.
  - eapply safe_bind; [apply IHi1, Hok|]. intros _ _. apply IHi2, Hok.
  - destruct k; apply add_u_n_safe; lia.
  - apply add_bytes_safe, Hok.
  - apply add_zeros_safe, Hok.
  - eapply safe_bind; [apply length_prefixed_safe; lia|]. intros _ _. apply IHi, Hok.
  - eapply safe_bind; [apply add_asn1_safe|]. intros _ _. apply IHi, Hok.
  - apply add_asn1_uint64_safe.
  - unfold CBB_add_asn1_int64. destruct (0 <=? v); [apply add_asn1_uint64_safe|].
    apply element_safe, int64_bytes_safe.
  - apply element_safe, add_bytes_safe, Hok.
  - apply element_safe, add_u_n_safe. lia.
Qed.

Lemma did_write_kept d n c : sound c -> kept c (snd (CBB_did_write d n c)).
Proof.
  intros Hc. unfold CBB_did_write. pose proof Hc as Hc'. unfold sound in Hc'.
  destruct (base c) as [b|] eqn:Eb; [|apply kept_refl, Hc].
  destruct (_ || _ || _) eqn:Eo; [apply kept_refl, Hc|]. destruct Hc' as [(Hz & Hl & Hcap) Hf].
  apply orb_false_iff in Eo as [Eo E3]. apply orb_false_iff in Eo as [_ E2].
  apply Z.ltb_ge in E2, E3.
  eapply kept_intro; [exact Eb|reflexivity| |exact Hf|auto|apply same_size_eq; reflexivity].
  split; [exact Hz|]. cbn [snd set_len len cap]. lia.
Qed.

Lemma discard_kept d c : sound c -> kept c (CBB_discard_child d c).
Proof.
  intros Hc. unfold CBB_discard_child. pose proof Hc as Hc'. unfold sound in Hc'.
  destruct (children c !! d) as [f|] eqn:Ef; [|apply kept_refl, Hc].
  destruct (base c) as [b|] eqn:Eb; [|apply kept_refl, Hc]. destruct Hc' as [(Hz & Hl & Hcap) Hf].
  eapply kept_intro; [exact Eb|reflexivity| |apply Forall_take, Hf|auto|apply same_size_eq; reflexivity].
  split; [exact Hz|]. cbn [set_len len cap]. split; [|exact Hcap].
  apply (Forall_lookup_1 _ _ _ _ Hf Ef).
Qed.

Lemma run_call_kept k c : call_ok k -> sound c -> kept c (run_call k c).
Proof.
  intros Hk Hc. destruct k; cbn [run_call call_ok] in *.
  - apply write_safe; assumption.
  - refine (proj1 ((_ : safe (CBB_add_space d n) (fun _ => True)) c Hc)).
    eapply safe_bind; [apply CBB_flush_safe|]. intros _ _. eapply on_base_true, add_bsafe, Hk.
  - refine (proj1 ((_ : safe (CBB_reserve d n) (fun _ => True)) c Hc)).
    eapply safe_bind; [apply CBB_flush_safe|]. intros _ _. eapply on_base_true, reserve_bsafe, Hk.
  - apply did_write_kept. exact Hc.
  - apply length_prefixed_safe; assumption.
  - apply add_asn1_safe. exact Hc.
  - apply CBB_flush_safe. exact Hc.
  - apply discard_kept. exact Hc.
Qed.

Lemma run_kept ks c : Forall call_ok ks -> sound c -> kept c (run ks c).
Proof.
  intros Hk. revert c. induction Hk as [|k ks Hk _ IH]; intros c Hc; [apply kept_refl, Hc|].
  pose proof (run_call_kept k c Hk Hc) as K. eapply kept_trans; [exact K|apply IH, K].
Qed.

Lemma init_sound n h c : 0 <= n < 2 ^ 64 -> CBB_init n h = (true, c) -> sound c.
Proof.
  intros Hn E. apply CBB_init_fresh in E as (p & Hp & b & Hb & Hc & Hz & Hl & Hcap & _); [|exact Hn].
  unfold sound. rewrite Hb, Hc. split; [|constructor]. unfold in_bounds. rewrite Hz, Hl, Hcap.
  pose proof (zlen_nonneg p). lia.
Qed.

Lemma init_fixed_sound p h c : zlen p < 2 ^ 64 -> CBB_init_fixed p h = (true, c) -> sound c.
Proof.
  intros Hn E. apply CBB_init_fixed_fresh in E as (b & Hb & Hc & Hz & Hl & Hcap & _).
  unfold sound. rewrite Hb, Hc. split; [|constructor]. unfold in_bounds. rewrite Hz, Hl, Hcap.
  pose proof (zlen_nonneg p). lia.
Qed.
End Calls.

(** * Properties *)

Section Properties.
Context `{Malloc}.

Lemma build_sound n i h bs c :
  item_ok i -> 0 <= n < 2 ^ 64 -> build n i h = (Some bs, c) -> serialize i = Some bs.
Proof.
  intros Hi Hn E. unfold build in E.
  destruct (CBB_init n h) as [[] c0] eqn:E0; [|discriminate].
  apply CBB_init_fresh in E0 as (p & Hp & Hf); [|exact Hn].
  pose proof (finish_rests (-1) i c0 Hi) as F. rewrite E in F. apply F.
  apply (fresh_rests _ _ p true); [exact Hf|lia|].
  left. pose proof (zlen_nonneg p). lia.
Qed.

(** What does not grow hands over no more than it had room for. *)
Lemma finish_fits i c b bs c' :
  item_ok i -> sound c -> base c = Some b -> can_resize b = false ->
  finish i (true, c) = (Some bs, c') -> zlen bs <= cap b.
Proof.
  intros Hi Hc Hb Hr E. cbn [finish] in E.
  destruct ((let* _ := write 0 i in CBB_finish 0 true true) c) as [[[p n]|] c3] eqn:E3; [|discriminate]. injection E as <- _.
  apply bind_inv in E3 as ([] & c1 & E1 & E3). destruct (write_safe 0 i Hi c Hc) as [K1 _].
  rewrite E1 in K1. cbn [snd] in K1. unfold CBB_finish in E3.
  rewrite guard_true in E3 by reflexivity. apply bind_inv in E3 as ([] & c2 & E2 & E3).
  destruct (CBB_flush_safe 0 c1 (proj1 K1)) as [K2 _]. rewrite E2 in K2. cbn [snd] in K2.
  destruct (kept_trans _ _ _ K1 K2) as (Hc2 & _ & Hs). destruct (Hs b Hb) as (b2 & Hb2 & _ & _ & Hcap).
  unfold sound in Hc2. rewrite Hb2 in Hc2, E3. cbn [negb orb] in E3. rewrite andb_false_r in E3.
  injection E3 as <- <- _. destruct Hc2 as [(Hz & Hl & _) _]. specialize (Hcap Hr).
  rewrite zlen_ztake by lia. lia.
Qed.
End Properties.

(** C12: Building refines the specification, whatever the allocator does: the
    bytes handed to the caller are those of [serialize], and when these exist and
    the allocator grants requests of twice their size and of the initial size,
    every call succeeds and they are handed over. *)
Theorem CBB_build_refines `{Malloc} (i : item) (initial_capacity : Z) (h : heap) :
  item_ok i -> 0 <= initial_capacity < 2 ^ 64 ->
  (forall bs c, build initial_capacity i h = (Some bs, c) -> serialize i = Some bs) /\
  (forall bs lim, serialize i = Some bs -> grants lim ->
    Z.max 40 (Z.max (initial_capacity + 8) (2 * zlen bs + 8)) <= lim < 2 ^ 64 ->
    exists c, build initial_capacity i h = (Some bs, c)).
Proof.
  intros Hi Hn. split; [eauto using build_sound|]. intros bs lim Hs G Hl.
  destruct (CBB_init_grants lim initial_capacity h G) as [c0 E0]; [lia|lia|lia|].
  unfold build. rewrite E0. apply CBB_init_fresh in E0 as (p & Hp & Hf); [|exact Hn].
  assert (Hr : rests (zlen bs) [] [] c0).
  { apply (fresh_rests _ _ p true Hf); [lia|]. right. split; [reflexivity|]. split; [|lia].
    intros h' m Hm. apply G. lia. }
  pose proof (finish_rests _ i c0 Hi Hr) as F.
  destruct (finish i (true, c0)) as [[bs'|] c].
  - destruct F as [F _]. rewrite Hs in F. injection F as <-. eauto.
  - specialize (F bs Hs). lia.
Qed.

Definition sample : item :=
  Asn1 (CBS_ASN1_CONSTRUCTED + 16)
    (Seq (Int64 (-129)) (Seq (Uint64 200) (Seq (Prefixed 2 (Num U24 77)) (Octets (zrep 130 7))))).

Definition sample_bytes : list Z := default [] (serialize sample).

Lemma CBB_build_refines_witness :
  item_ok sample /\ zlen sample_bytes = 149 /\
  exists c, @build unlimited 1 sample tt = (Some sample_bytes, c).
Proof.
  assert (Hok : item_ok sample).
  { cbn -[Z.pow zrep]. unfold tag_ok, CBS_ASN1_CONSTRUCTED.
    split_and!; try lia; try (vm_compute; easy). apply Forall_replicate. unfold byte_ok. lia. }
  split; [exact Hok|]. split; [vm_compute; reflexivity|].
  apply (proj2 (@CBB_build_refines unlimited sample 1 tt Hok ltac:(lia)) sample_bytes 1000);
    [vm_compute; reflexivity|apply unlimited_grants|].
  vm_compute. split; discriminate || reflexivity.
Defined.

(** Building into a buffer of the caller's succeeds exactly when the bytes
    exist and fit the buffer, with no other allocation than the object itself,
    and hands over exactly those bytes. *)
Theorem CBB_fixed_buffer_iff `{Malloc} (p : list Z) (i : item) (h : heap) (bs : list Z) :
  item_ok i -> zlen p < 2 ^ 64 -> grants 40 ->
  (exists c, build_fixed p i h = (Some bs, c)) <-> serialize i = Some bs /\ zlen bs <= zlen p.
Proof.
  intros Hi Hp G. unfold build_fixed. destruct (CBB_init_fixed_grants p h G) as [c0 E0].
  rewrite E0. apply CBB_init_fixed_fresh in E0 as Hf.
  pose proof (finish_rests (zlen p) i c0 Hi (fresh_rests _ _ p false Hf Hp (or_introl (Z.le_refl _)))) as F.
  split.
  - intros [c E]. rewrite E in F. split; [apply F|].
    pose proof (init_fixed_sound p h c0 Hp E0) as Hc. destruct Hf as (b & Hb & _ & _ & _ & <- & Hr & _).
    exact (finish_fits i c0 b bs c Hi Hc Hb Hr E).
  - intros [Hs Hl]. destruct (finish i (true, c0)) as [[bs'|] c].
    + destruct F as [F _]. rewrite Hs in F. injection F as <-. eauto.
    + specialize (F bs Hs). lia.
Qed.

Lemma CBB_fixed_buffer_iff_witness :
  (exists c, @build_fixed unlimited (zrep 7 0) (Uint64 70000) tt = (Some [2; 3; 1; 17; 112], c)) /\
  ~ exists c, @build_fixed unlimited (zrep 4 0) (Uint64 70000) tt = (Some [2; 3; 1; 17; 112], c).
Proof.
  assert (Hok : item_ok (Uint64 70000)) by (cbn; lia).
  assert (Hs : serialize (Uint64 70000) = Some [2; 3; 1; 17; 112]) by (vm_compute; reflexivity).
  split.
  - apply (@CBB_fixed_buffer_iff unlimited (zrep 7 0) (Uint64 70000) tt _ Hok);
      [vm_compute; reflexivity|apply unlimited_grants|]. split; [exact Hs|vm_compute; discriminate].
  - intros E. apply (@CBB_fixed_buffer_iff unlimited (zrep 4 0) (Uint64 70000) tt _ Hok) in E;
      [|vm_compute; reflexivity|apply unlimited_grants]. destruct E as [_ E]. apply E. reflexivity.
Defined.

(** C14: What the builder writes the reader reads back: from the bytes handed
    over, followed by anything, the corresponding calls of the reading side
    recover every number, string and element, and leave what follows. *)
Theorem CBS_reads_what_CBB_writes `{Malloc} (i : item) (initial_capacity : Z) (h : heap)
    (bs rest : list Z) c :
  item_ok i -> 0 <= initial_capacity < 2 ^ 64 -> bytes_ok rest ->
  build initial_capacity i h = (Some bs, c) ->
  read i (bs ++ rest) = (Some i, rest).
Proof. intros Hi Hn Hr E. eauto using read_complete, build_sound. Qed.

Lemma CBS_reads_what_CBB_writes_witness :
  let i := Seq (Asn1 (CBS_ASN1_CONSTRUCTED + 16) (Seq (Int64 (-5)) (Bool true))) (Num U16le 513) in
  read i ([48; 6; 2; 1; 251; 1; 1; 255; 1; 2] ++ [9]) = (Some i, [9]).
Proof.
  cbv zeta. eapply (@CBS_reads_what_CBB_writes unlimited _ 0 tt).
  - cbn -[Z.pow]. unfold tag_ok, CBS_ASN1_CONSTRUCTED. split_and!; try lia; vm_compute; easy.
  - lia.
  - repeat constructor; lia.
  - vm_compute. reflexivity.
Defined.

(** C34: Whatever calls are made, in whatever order and on whatever objects of the
    chain, every store is inside the buffer: the block stays exactly as large as
    the capacity says, the valid bytes stay inside it, and a fixed buffer keeps
    its size. *)
Theorem CBB_calls_stay_in_bounds `{Malloc} (start : bool * cbb_st) (ks : list call) :
  (exists n h, 0 <= n < 2 ^ 64 /\ start = CBB_init n h) \/
  (exists p h, zlen p < 2 ^ 64 /\ start = CBB_init_fixed p h) ->
  fst start = true -> Forall call_ok ks ->
  exists b0 b, base (snd start) = Some b0 /\ base (run ks (snd start)) = Some b /\
    zlen (block b) = cap b /\ 0 <= len b <= cap b /\
    can_resize b = can_resize b0 /\ (can_resize b0 = false -> cap b = cap b0).
Proof.
  destruct start as [ok c]. cbn [fst snd]. intros Hs -> Hk.
  assert (sound c /\ exists b0, base c = Some b0) as [Hc (b0 & Hb0)].
  { destruct Hs as [(n & h & Hn & E)|(p & h & Hn & E)]; symmetry in E.
    - split; [eapply init_sound; eauto|]. apply CBB_init_fresh in E as (p & _ & b & Hb & _); eauto.
    - split; [eapply init_fixed_sound; eauto|]. apply CBB_init_fixed_fresh in E as (b & Hb & _); eauto. }
  destruct (run_kept ks c Hk Hc) as (Hc' & _ & Hb). destruct (Hb b0 Hb0) as (b & Hb1 & Hr & _ & Hcap).
  unfold sound in Hc'. rewrite Hb1 in Hc'. destruct Hc' as [(Hz & Hl & _) _].
  exists b0, b. split_and!; auto; lia.
Qed.

Lemma CBB_calls_stay_in_bounds_witness :
  let start := @CBB_init_fixed unlimited (zrep 4 0) tt in
  let ks := [AddAsn1 0 2; AddItem 1 (Bytes [1; 2; 3]); DiscardChild 0; Flush 0] in
  exists b0 b, base (snd start) = Some b0 /\ base (run ks (snd start)) = Some b /\
    zlen (block b) = cap b /\ 0 <= len b <= cap b /\
    can_resize b = can_resize b0 /\ (can_resize b0 = false -> cap b = cap b0).
Proof.
  cbv zeta. apply (@CBB_calls_stay_in_bounds unlimited).
  - right. exists (zrep 4 0), tt. split; [vm_compute|]; reflexivity.
  - reflexivity.
  - repeat constructor; cbn -[Z.pow]; unfold tag_ok; lia.
Defined.

(** An error is final: once a buffer operation has failed, whatever calls
    follow, flushing and finishing fail, so no partial output is handed over. *)
Theorem CBB_error_is_sticky `{Malloc} (c : cbb_st) (ks : list call) (d : nat) (out_data out_len : bool) :
  sound c -> errored c -> Forall call_ok ks ->
  errored (run ks c) /\ fst (CBB_flush d (run ks c)) = None /\
  fst (CBB_finish d out_data out_len (run ks c)) = None.
Proof.
  intros Hc He Hk. destruct (run_kept ks c Hk Hc) as (_ & He' & _). specialize (He' He).
  split; [exact He'|]. split; [apply CBB_flush_errored; exact He'|].
  unfold CBB_finish. destruct (Nat.eqb d 0); [|reflexivity]. rewrite guard_true by reflexivity.
  unfold bind. pose proof (CBB_flush_errored d _ He') as Hf.
  destruct (CBB_flush d (run ks c)) as [[[]|] c1]; [discriminate|reflexivity].
Qed.

(** A fixed buffer of three bytes with four bytes written to it. *)
Definition overrun : @cbb_st unlimited :=
  run [AddItem 0 (Bytes [1; 2; 3; 4])] (snd (@CBB_init_fixed unlimited [0; 0; 0] tt)).

Lemma CBB_error_is_sticky_witness :
  errored overrun /\
  fst (CBB_finish 0 true true (run [DiscardChild 0; AddItem 0 (Bytes [1])] overrun)) = None.
Proof.
  assert (Hs : sound overrun).
  { apply run_kept; [repeat constructor; cbn; auto; try lia|].
    apply (@init_fixed_sound unlimited [0; 0; 0] tt); reflexivity. }
  assert (He : errored overrun) by (eexists; split; vm_compute; reflexivity).
  split; [exact He|].
  apply (@CBB_error_is_sticky unlimited overrun _ 0 true true Hs He).
  repeat constructor; cbn -[Z.pow]; lia.
Defined.
