(* ===== verification/Oid.v ===== *)
(** Object identifiers in text form: [CBS_asn1_oid_to_text] of
    crypto/bytestring/cbs.c and [CBB_add_asn1_oid_from_text] of
    crypto/bytestring/cbb.c.

    The specification of an identifier is its list of components; it has a text,
    the components in decimal with dots between them, and contents octets, the
    components in base 128 with the first two packed into one number. *)
From Stdlib Require Import ZArith Lia.
From stdpp Require Import base list numbers.
From S2P Require Import Prelude.
From S2P Require Import Mem.
From S2P Require Import Der.
From S2P Require Import Cbs.
From S2P Require Import Cbb.
From S2P Require Import Build.

Open Scope Z_scope.
Open Scope c_scope.

(** * The code *)

(** The decimal digits of [v] as the C library prints them; twenty are enough
    for 64 bits. *)
Fixpoint digits (fuel : nat) (v : Z) : list Z :=
  match fuel with
  | O => []
  | S fuel => if v <? 10 then [48 + v] else digits fuel (v / 10) ++ [48 + v mod 10]
  end.

Definition decimal (v : Z) : list Z := digits 20 v.

(** [DECIMAL_SIZE(uint64_t)]. *)
Definition DECIMAL_SIZE : Z := (8 * 8 + 2) / 3 + 1.

(** [snprintf] keeps what fits the buffer with its NUL. *)
Definition snprintf_u64 (size v : Z) : list Z := ztake (size - 1) (decimal v).

Definition UINT64_MAX : Z := 18446744073709551615.

Section Oid.
Context `{Malloc}.

Definition add_decimal (d : nat) (v : Z) : M cbb_st unit :=
  CBB_add_bytes d (snprintf_u64 (DECIMAL_SIZE + 1) v).

(** The components after the first; each round uses up at least a byte. *)
Fixpoint oid_to_text_loop (fuel : nat) (copy : CBS) : M cbb_st unit :=
  if CBS_len copy =? 0 then ret tt
  else
    match fuel with
    | O => fail
    | S fuel =>
      match parse_base128_integer copy with
      | (None, _) => fail
      | (Some v, copy) =>
        let* _ := CBB_add_u8 0 46 in
        let* _ := add_decimal 0 v in
        oid_to_text_loop fuel copy
      end
    end.

Definition oid_to_text_body (cbs : CBS) : M cbb_st unit :=
  match parse_base128_integer cbs with
  | (None, _) => fail
  | (Some v, copy) =>
    let* _ := (if 80 <=? v then
                 let* _ := CBB_add_bytes 0 [50; 46] in add_decimal 0 (v - 80)
               else
                 let* _ := add_decimal 0 (v / 40) in
                 let* _ := CBB_add_u8 0 46 in
                 add_decimal 0 (v mod 40)) in
    let* _ := oid_to_text_loop (length copy) copy in
    CBB_add_u8 0 0
  end.

(** The NUL-terminated text. *)
Definition CBS_asn1_oid_to_text (cbs : CBS) (h : heap) : option (list Z) * heap :=
  match CBB_init 32 h with
  | (false, c) => (None, cbb_heap c)
  | (true, c) =>
    match (let* _ := oid_to_text_body cbs in CBB_finish 0 true true) c with
    | (Some (txt, txt_len), c) => (Some (ztake txt_len txt), cbb_heap c)
    | (None, c) => (None, cbb_heap (CBB_cleanup c))
    end
  end.

Fixpoint dotted_decimal_loop (cbs : CBS) (out : Z) (seen_digit : bool) : option Z * CBS :=
  match cbs with
  | [] => (if seen_digit then Some out else None, [])
  | u :: cbs =>
    if (u =? 46) && (0 <? CBS_len cbs) then (if seen_digit then Some out else None, cbs)
    else if (u <? 48) || (57 <? u) || (seen_digit && (out =? 0))
            || (UINT64_MAX / 10 <? out) || (UINT64_MAX - (u - 48) <? u64 (out * 10))
    then (None, cbs)
    else dotted_decimal_loop cbs (u64 (out * 10 + (u - 48))) true
  end.

Definition parse_dotted_decimal : M CBS Z := fun cbs => dotted_decimal_loop cbs 0 false.

(** The components after the second. *)
Fixpoint oid_from_text_loop (d : nat) (fuel : nat) (cbs : CBS) : M cbb_st unit :=
  if 0 <? CBS_len cbs then
    match fuel with
    | O => fail
    | S fuel =>
      match parse_dotted_decimal cbs with
      | (None, _) => fail
      | (Some a, cbs) =>
        let* _ := add_base128_integer d a in
        oid_from_text_loop d fuel cbs
      end
    end
  else ret tt.

Definition CBB_add_asn1_oid_from_text (d : nat) (text : list Z) : M cbb_st unit :=
  let* _ := CBB_flush d in
  match parse_dotted_decimal text with
  | (None, _) => fail
  | (Some a, cbs) =>
    match parse_dotted_decimal cbs with
    | (None, _) => fail
    | (Some b, cbs) =>
      check (negb ((2 <? a) || ((a <? 2) && (39 <? b)) || (UINT64_MAX - 80 <? b))) in
      let* _ := add_base128_integer d (u64 (40 * a + b)) in
      oid_from_text_loop d (length cbs) cbs
    end
  end.
End Oid.

(** * The specification *)

Definition arc_ok (a : Z) : Prop := 0 <= a < 2 ^ 64.

Definition oid_ok (arcs : list Z) : Prop :=
  match arcs with
  | a :: b :: rest =>
      0 <= a <= 2 /\ 0 <= b /\ (a < 2 -> b < 40) /\ b < 2 ^ 64 - 80 /\ Forall arc_ok rest
  | _ => False
  end.

Definition dotted (arcs : list Z) : list Z := concat (map (fun v => 46 :: decimal v) arcs).

(** The components in decimal with dots between them. *)
Definition oid_text (arcs : list Z) : list Z :=
  match arcs with [] => [] | a :: rest => decimal a ++ dotted rest end.

Definition oid_der (arcs : list Z) : list Z :=
  match arcs with
  | a :: b :: rest => base128 (40 * a + b) ++ concat (map base128 rest)
  | _ => []
  end.

(** * Decimal numbers *)

Lemma digits_step n v :
  digits (S n) v = if v <? 10 then [48 + v] else digits n (v / 10) ++ [48 + v mod 10].
Proof. reflexivity. Qed.

Lemma digits_S n v :
  0 <= v < 10 ^ Z.of_nat n -> (1 <= n)%nat -> digits (S n) v = digits n v.
Proof.
  revert v. induction n as [|n IH]; intros v Hv Hn; [lia|].
  rewrite Nat2Z.inj_succ, Z.pow_succ_r in Hv by lia. rewrite !(digits_step _ v).
  destruct (Z.ltb_spec v 10); [reflexivity|].
  destruct n as [|n]; [change (10 ^ Z.of_nat 0) with 1 in Hv; lia|].
  rewrite IH by (dlia || lia). reflexivity.
Qed.

Lemma decimal_small d : 0 <= d < 10 -> decimal d = [48 + d].
Proof. intros Hd. unfold decimal. cbn [digits]. rewrite (proj2 (Z.ltb_lt d 10)) by lia. reflexivity. Qed.

Lemma decimal_snoc v d :
  1 <= v -> 0 <= d < 10 -> v * 10 + d < 2 ^ 64 -> decimal (v * 10 + d) = decimal v ++ [48 + d].
Proof.
  intros Hv Hd Hb. unfold decimal. rewrite (digits_step 19 (v * 10 + d)).
  rewrite (proj2 (Z.ltb_ge _ 10)) by lia.
  replace ((v * 10 + d) / 10) with v by dlia. replace ((v * 10 + d) mod 10) with d by dlia.
  rewrite (digits_S 19); [reflexivity| |lia].
  change (10 ^ Z.of_nat 19) with 10000000000000000000. lia.
Qed.

Lemma digits_len n v : (length (digits n v) <= n)%nat.
Proof.
  revert v. induction n as [|n IH]; intros v; cbn [digits]; [auto|].
  destruct (v <? 10); [cbn; lia|]. rewrite length_app. specialize (IH (v / 10)). cbn. lia.
Qed.

Lemma decimal_nonempty v : decimal v <> [].
Proof.
  unfold decimal. cbn [digits]. destruct (v <? 10); [discriminate|]. intros E.
  apply app_eq_nil in E as [_ E]. discriminate.
Qed.

(** The buffer the code prints into is large enough. *)
Lemma snprintf_u64_all v : snprintf_u64 (DECIMAL_SIZE + 1) v = decimal v.
Proof.
  unfold snprintf_u64. apply take_ge. pose proof (digits_len 20 v). unfold decimal.
  change (Z.to_nat (DECIMAL_SIZE + 1 - 1)) with 23%nat. lia.
Qed.

(** One digit of the loop. *)
Lemma digit_step d rest out seen :
  0 <= d < 10 -> 0 <= out -> out * 10 + d < 2 ^ 64 -> (seen = true -> out <> 0) ->
  dotted_decimal_loop ((48 + d) :: rest) out seen = dotted_decimal_loop rest (out * 10 + d) true.
Proof.
  intros Hd Ho Hb Hs. cbn [dotted_decimal_loop].
  destruct (Z.eqb_spec (48 + d) 46); [lia|]. cbn [andb].
  change (UINT64_MAX / 10) with 1844674407370955161. unfold UINT64_MAX.
  rewrite (u64_small (out * 10)) by lia. replace (48 + d - 48) with d by lia.
  rewrite (u64_small (out * 10 + d)) by lia.
  rewrite (proj2 (Z.ltb_ge (48 + d) 48)), (proj2 (Z.ltb_ge 57 (48 + d))) by lia.
  rewrite (proj2 (Z.ltb_ge 1844674407370955161 out)) by lia.
  rewrite (proj2 (Z.ltb_ge (18446744073709551615 - d) (out * 10))) by lia.
  destruct seen; cbn [andb orb]; [|reflexivity].
  destruct (Z.eqb_spec out 0); [exfalso; apply Hs; auto|reflexivity].
Qed.

Lemma parse_digits n v rest :
  (1 <= n)%nat -> 0 <= v < 10 ^ Z.of_nat n -> v < 2 ^ 64 ->
  dotted_decimal_loop (digits n v ++ rest) 0 false = dotted_decimal_loop rest v true.
Proof.
  revert v rest. induction n as [|n IH]; intros v rest Hn Hv Hb; [lia|].
  rewrite Nat2Z.inj_succ, Z.pow_succ_r in Hv by lia. cbn [digits].
  destruct (Z.ltb_spec v 10).
  - cbn [app]. rewrite digit_step by (lia || discriminate). reflexivity.
  - destruct n as [|n]; [change (10 ^ Z.of_nat 0) with 1 in Hv; lia|].
    rewrite <- app_assoc, IH by (dlia || lia). cbn [app].
    rewrite digit_step by dlia. f_equal. dlia.
Qed.

(** What follows a component: the end, or a dot that is not the last byte. *)
Definition follows (tail rest : list Z) : Prop :=
  (tail = [] /\ rest = []) \/ (tail = 46 :: rest /\ rest <> []).

Lemma parse_dotted_complete v tail rest :
  arc_ok v -> follows tail rest -> parse_dotted_decimal (decimal v ++ tail) = (Some v, rest).
Proof.
  unfold arc_ok. intros Hv Hf. unfold parse_dotted_decimal, decimal.
  rewrite parse_digits; [|lia|change (10 ^ Z.of_nat 20) with 100000000000000000000; lia|lia].
  destruct Hf as [[-> ->]|[-> Hn]]; [reflexivity|]. cbn [dotted_decimal_loop Z.eqb Pos.eqb andb].
  destruct rest as [|b rest]; [congruence|]. unfold CBS_len. rewrite zlen_cons.
  pose proof (zlen_nonneg rest). rewrite (proj2 (Z.ltb_lt 0 _)) by lia. reflexivity.
Qed.

Lemma dotted_sound_aux cbs out seen v rest :
  0 <= out < 2 ^ 64 -> (seen = false -> out = 0) ->
  dotted_decimal_loop cbs out seen = (Some v, rest) ->
  exists pre tail, cbs = pre ++ tail /\ follows tail rest /\ arc_ok v /\
    (if seen then decimal out else []) ++ pre = decimal v.
Proof.
  revert out seen. induction cbs as [|u cbs IH]; intros out seen Ho Hs E; cbn [dotted_decimal_loop] in E.
  - destruct seen; [|discriminate]. injection E as <- <-. exists [], [].
    rewrite !app_nil_r. split_and!; auto. left. auto.
  - destruct (Z.eqb_spec u 46) as [->|Hu].
    { destruct (Z.ltb_spec 0 (CBS_len cbs)) as [Hl|]; [|discriminate]. cbn [andb] in E.
      destruct seen; [|discriminate]. injection E as <- <-. exists [], (46 :: cbs).
      rewrite app_nil_r. split_and!; auto. right. split; [reflexivity|]. intros ->. discriminate Hl. }
    cbn [andb] in E. destruct (_ || _ || _ || _ || _) eqn:Ec; [discriminate|].
    rewrite !orb_false_iff in Ec. destruct Ec as ((((C1 & C2) & C3) & C4) & C5).
    apply Z.ltb_ge in C1, C2, C4, C5. change (UINT64_MAX / 10) with 1844674407370955161 in C4.
    unfold UINT64_MAX in C5. rewrite u64_small in C5 by lia. rewrite u64_small in E by lia.
    apply IH in E as (pre & tail & -> & Hf & Hv & E); [|lia|discriminate].
    exists (u :: pre), tail. split_and!; auto. rewrite <- E. change (u :: pre) with ([u] ++ pre).
    rewrite app_assoc. f_equal. replace u with (48 + (u - 48)) at 1 by lia. destruct seen.
    + cbn [andb] in C3. apply Z.eqb_neq in C3. symmetry. apply decimal_snoc; lia.
    + rewrite (Hs eq_refl). cbn [app]. symmetry. apply decimal_small. lia.
Qed.

Lemma parse_dotted_sound cbs v rest :
  parse_dotted_decimal cbs = (Some v, rest) ->
  exists tail, cbs = decimal v ++ tail /\ follows tail rest /\ arc_ok v.
Proof.
  intros E. apply dotted_sound_aux in E as (pre & tail & -> & Hf & Hv & <-); [|lia|auto]. eauto.
Qed.

(** * Reading the octets *)

Lemma concat_base128_cons a rest :
  concat (map base128 (a :: rest)) = base128 a ++ concat (map base128 rest).
Proof. reflexivity. Qed.

Lemma base128_arcs_len rest : (length rest <= length (concat (map base128 rest)))%nat.
Proof.
  induction rest as [|a rest IH]; [auto|]. rewrite concat_base128_cons, length_app.
  pose proof (base128_len a) as Hl. unfold zlen in Hl. cbn [length]. lia.
Qed.

Section ToText.
Context `{Malloc}.

Lemma add_decimal_writes d v : writes d (add_decimal d v) (Some (decimal v)).
Proof.
  unfold add_decimal. rewrite snprintf_u64_all. apply appends_writes, CBB_add_bytes_appends.
  pose proof (digits_len 20 v). unfold zlen, decimal. lia.
Qed.

Lemma dot_writes d : writes d (CBB_add_u8 d 46) (Some [46]).
Proof. apply CBB_add_u8_writes. unfold byte_ok. lia. Qed.

Lemma oid_to_text_loop_writes fuel rest :
  Forall arc_ok rest -> (length rest <= fuel)%nat ->
  writes 0 (oid_to_text_loop fuel (concat (map base128 rest))) (Some (dotted rest)).
Proof.
  revert fuel. induction rest as [|a rest IH]; intros fuel Hok Hf.
  - destruct fuel; apply writes_ret.
  - apply List.Forall_cons_iff in Hok as [Ha Hok]. destruct fuel as [|fuel]; [cbn in Hf; lia|].
    cbn [length] in Hf. rewrite concat_base128_cons. cbn [oid_to_text_loop].
    pose proof (base128_len a). pose proof (zlen_nonneg (concat (map base128 rest))).
    unfold CBS_len. rewrite zlen_app. destruct (Z.eqb_spec (zlen (base128 a) + zlen (concat (map base128 rest))) 0); [lia|].
    rewrite parse_base128_complete by exact Ha.
    apply (writes_bind 0 _ _ (Some [46]) (Some (decimal a ++ dotted rest))); [apply dot_writes|].
    apply (writes_bind 0 _ _ (Some (decimal a)) (Some (dotted rest)));
      [apply add_decimal_writes|apply IH; [exact Hok|lia]].
Qed.

Lemma oid_to_text_loop_sound fuel copy c c' :
  bytes_ok copy -> oid_to_text_loop fuel copy c = (Some tt, c') ->
  exists rest, Forall arc_ok rest /\ copy = concat (map base128 rest).
Proof.
  revert copy c. induction fuel as [|fuel IH]; intros copy c Hb E; cbn [oid_to_text_loop] in E;
    destruct (Z.eqb_spec (CBS_len copy) 0) as [Hz|];
    try (apply zlen_0 in Hz as ->; exists []; split; [constructor|reflexivity]); [discriminate|].
  destruct (parse_base128_integer copy) as [[v|] copy'] eqn:Ep; [|discriminate].
  apply parse_base128_sound in Ep as [-> Hv]; [|exact Hb]. apply bytes_ok_app in Hb as [_ Hb].
  run_inv. destruct v0, v1. apply IH in E as (rest & Hok & ->); [|exact Hb].
  exists (v :: rest). split; [constructor; assumption|reflexivity].
Qed.

Lemma oid_to_text_body_writes arcs :
  oid_ok arcs -> writes 0 (oid_to_text_body (oid_der arcs)) (Some (oid_text arcs ++ [0])).
Proof.
  destruct arcs as [|a [|b rest]]; intros Hok; try contradiction.
  destruct Hok as (Ha & Hb & Hab & Hbb & Hrest). unfold oid_to_text_body, oid_der, oid_text.
  rewrite parse_base128_complete by lia.
  eapply writes_ext with (o' := oapp (Some (decimal a ++ 46 :: decimal b))
                                  (oapp (Some (dotted rest)) (Some [0]))); [reflexivity| |].
  { cbn [oapp]. unfold dotted. cbn [map concat]. rewrite <- !app_assoc. reflexivity. }
  apply writes_bind; [|apply writes_bind;
    [apply oid_to_text_loop_writes; [exact Hrest|apply base128_arcs_len]
    |apply CBB_add_u8_writes; unfold byte_ok; lia]].
  destruct (Z.leb_spec 80 (40 * a + b)).
  - assert (a = 2) as -> by lia. replace (40 * 2 + b - 80) with b by lia.
    apply (writes_bind 0 _ _ (Some [50; 46]) (Some (decimal b))); [|apply add_decimal_writes].
    apply appends_writes, CBB_add_bytes_appends. easy.
  - replace ((40 * a + b) / 40) with a by dlia. replace ((40 * a + b) mod 40) with b by dlia.
    apply (writes_bind 0 _ _ (Some (decimal a)) (Some ([46] ++ decimal b))); [apply add_decimal_writes|].
    apply (writes_bind 0 _ _ (Some [46]) (Some (decimal b))); [apply dot_writes|apply add_decimal_writes].
Qed.

Lemma oid_to_text_body_sound cbs c c' :
  bytes_ok cbs -> oid_to_text_body cbs c = (Some tt, c') ->
  exists arcs, oid_ok arcs /\ cbs = oid_der arcs.
Proof.
  intros Hb E. unfold oid_to_text_body in E.
  destruct (parse_base128_integer cbs) as [[v|] copy] eqn:Ep; [|discriminate].
  apply parse_base128_sound in Ep as [-> Hv]; [|exact Hb]. apply bytes_ok_app in Hb as [_ Hb].
  apply bind_inv in E as (? & c1 & _ & E). apply bind_inv in E as ([] & c2 & E & _).
  apply oid_to_text_loop_sound in E as (rest & Hok & ->); [|exact Hb].
  set (a := if 80 <=? v then 2 else v / 40). exists (a :: v - 40 * a :: rest).
  unfold a, oid_ok, oid_der. destruct (Z.leb_spec 80 v).
  - split; [split_and!; auto; lia|]. do 2 f_equal. lia.
  - split; [split_and!; auto; dlia|]. do 2 f_equal. lia.
Qed.

(** Writing and finishing, from a fresh object that can grow. *)
Lemma write_finish (m : M cbb_st unit) o n h c :
  writes 0 m o -> 0 <= n < 2 ^ 64 -> CBB_init n h = (true, c) ->
  match (let* _ := m in CBB_finish 0 true true) c with
  | (Some (p, k), _) => o = Some (ztake k p)
  | (None, _) => forall bs lim, o = Some bs -> grants lim -> 2 * zlen bs + 8 <= lim < 2 ^ 64 -> False
  end.
Proof.
  intros Hm Hn E. apply CBB_init_fresh in E as (p & Hp & Hf); [|exact Hn].
  assert (Ho : oapp (Some []) o = o) by (destruct o; reflexivity).
  assert (Hw : forall N, rests N [] [] c -> match (let* _ := m in CBB_finish 0 true true) c with
    | (Some (p, k), _) => o = Some (ztake k p) | (None, _) => too_long N o end).
  { intros N Hr. specialize (Hm N [] _ c eq_refl (rests_shows _ _ _ _ Hr)). rewrite Ho in Hm.
    unfold bind. destruct (m c) as [[[]|] c1].
    - apply CBB_finish_shows in Hm. destruct (CBB_finish 0 true true c1) as [[[q k]|] c2]; tauto.
    - destruct Hm as (b & _ & _ & Ht). exact Ht. }
  pose proof (Hw (-1)) as H1. assert (Hr : rests (-1) [] [] c) by (apply (fresh_rests _ _ p true Hf); [lia|]; left; pose proof (zlen_nonneg p); lia).
  specialize (H1 Hr). destruct ((let* _ := m in CBB_finish 0 true true) c) as [[[q k]|] c2]; [exact H1|].
  intros bs lim Hbs G Hl. specialize (Hw (zlen bs)).
  assert (Hr2 : rests (zlen bs) [] [] c).
  { apply (fresh_rests _ _ p true Hf); [lia|]. right. split; [reflexivity|]. split; [|lia].
    intros h' k Hk. apply G. lia. }
  specialize (Hw Hr2 bs Hbs). lia.
Qed.
End ToText.

(** * Reading the text *)

Lemma follows_dotted tail rest arcs :
  follows tail rest -> rest = oid_text arcs -> tail = dotted arcs.
Proof.
  intros [[-> ->]|[-> Hn]] E.
  - destruct arcs as [|a arcs]; [reflexivity|]. cbn [oid_text] in E. symmetry in E.
    apply app_eq_nil in E as [E _]. destruct (decimal_nonempty _ E).
  - destruct arcs as [|a arcs]; [destruct (Hn E)|]. rewrite E. reflexivity.
Qed.

Lemma dotted_follows arcs : follows (dotted arcs) (oid_text arcs).
Proof.
  destruct arcs as [|a arcs]; [left; auto|right]. split; [reflexivity|]. cbn [oid_text]. intros E.
  apply app_eq_nil in E as [E _]. destruct (decimal_nonempty _ E).
Qed.

Lemma oid_text_len arcs : (length arcs <= length (oid_text arcs))%nat.
Proof.
  assert (Hd : forall l, (length l <= length (dotted l))%nat).
  { induction l as [|a l IH]; [auto|]. unfold dotted in *. cbn [map concat app length].
    rewrite length_app. lia. }
  destruct arcs as [|a arcs]; [auto|]. cbn [oid_text length]. rewrite length_app.
  specialize (Hd arcs). destruct (decimal a) eqn:E; [destruct (decimal_nonempty a E)|].
  cbn [length]. lia.
Qed.

Section FromText.
Context `{Malloc}.

Lemma oid_from_text_loop_writes d fuel arcs :
  Forall arc_ok arcs -> (length arcs <= fuel)%nat ->
  writes d (oid_from_text_loop d fuel (oid_text arcs)) (Some (concat (map base128 arcs))).
Proof.
  revert fuel. induction arcs as [|a arcs IH]; intros fuel Hok Hf.
  - destruct fuel; apply writes_ret.
  - apply List.Forall_cons_iff in Hok as [Ha Hok]. destruct fuel as [|fuel]; [cbn in Hf; lia|].
    cbn [length] in Hf. cbn [oid_from_text_loop].
    assert (Hl : (0 <? CBS_len (oid_text (a :: arcs))) = true).
    { apply Z.ltb_lt. pose proof (oid_text_len (a :: arcs)) as Hl. unfold CBS_len, zlen.
      cbn [length] in Hl. lia. }
    rewrite Hl. cbn [oid_text].
    rewrite (parse_dotted_complete _ _ _ Ha (dotted_follows arcs)).
    apply (writes_bind d _ _ (Some (base128 a)) (Some (concat (map base128 arcs)))).
    + apply appends_writes, add_base128_integer_appends, Ha.
    + apply IH; [exact Hok|lia].
Qed.

Lemma oid_from_text_loop_sound d fuel cbs c c' :
  oid_from_text_loop d fuel cbs c = (Some tt, c') ->
  exists arcs, Forall arc_ok arcs /\ cbs = oid_text arcs.
Proof.
  revert cbs c. induction fuel as [|fuel IH]; intros cbs c E; cbn [oid_from_text_loop] in E;
    destruct (Z.ltb_spec 0 (CBS_len cbs)) as [|Hz]; try discriminate;
    try (exists []; split; [constructor|]; apply zlen_0; unfold CBS_len in Hz;
         pose proof (zlen_nonneg cbs); lia).
  destruct (parse_dotted_decimal cbs) as [[v|] rest] eqn:Ep; [|discriminate].
  apply parse_dotted_sound in Ep as (tail & -> & Hf & Hv).
  apply bind_inv in E as ([] & c1 & _ & E). apply IH in E as (arcs & Hok & E).
  exists (v :: arcs). split; [constructor; assumption|]. cbn [oid_text].
  rewrite (follows_dotted _ _ _ Hf E). reflexivity.
Qed.

Lemma oid_from_text_writes d arcs :
  oid_ok arcs -> writes d (CBB_add_asn1_oid_from_text d (oid_text arcs)) (Some (oid_der arcs)).
Proof.
  destruct arcs as [|a [|b rest]]; intros Hok; try contradiction.
  destruct Hok as (Ha & Hb & Hab & Hbb & Hrest). unfold CBB_add_asn1_oid_from_text.
  cbn [oid_text]. rewrite (parse_dotted_complete a _ _ ltac:(unfold arc_ok; lia) (dotted_follows (b :: rest))).
  cbn [oid_text]. rewrite (parse_dotted_complete b _ _ ltac:(unfold arc_ok; lia) (dotted_follows rest)).
  apply (writes_bind d _ _ (Some []) (Some (oid_der (a :: b :: rest))));
    [apply appends_writes, CBB_flush_appends|].
  eapply writes_ext; [intros c; apply guard_true|reflexivity|].
  { unfold UINT64_MAX. destruct (Z.ltb_spec 2 a), (Z.ltb_spec a 2), (Z.ltb_spec 39 b),
      (Z.ltb_spec (18446744073709551615 - 80) b); cbn [andb orb negb]; lia || reflexivity. }
  rewrite u64_small by lia. cbn [oid_der].
  apply (writes_bind d _ _ (Some (base128 (40 * a + b))) (Some (concat (map base128 rest)))).
  - apply appends_writes, add_base128_integer_appends. lia.
  - apply oid_from_text_loop_writes; [exact Hrest|apply oid_text_len].
Qed.

Lemma oid_from_text_sound d text c c' :
  CBB_add_asn1_oid_from_text d text c = (Some tt, c') ->
  exists arcs, oid_ok arcs /\ text = oid_text arcs.
Proof.
  intros E. apply bind_inv in E as ([] & c1 & _ & E).
  destruct (parse_dotted_decimal text) as [[a|] r1] eqn:E1; [|discriminate].
  destruct (parse_dotted_decimal r1) as [[b|] r2] eqn:E2; [|discriminate].
  apply guard_inv in E as [Eg E]. apply bind_inv in E as ([] & c2 & _ & E).
  apply oid_from_text_loop_sound in E as (rest & Hok & Er).
  apply parse_dotted_sound in E1 as (t1 & -> & F1 & Ha).
  apply parse_dotted_sound in E2 as (t2 & -> & F2 & Hb).
  exists (a :: b :: rest). rewrite (follows_dotted _ _ _ F2 Er) in F1.
  split; [|cbn [oid_text]; rewrite (follows_dotted _ _ (b :: rest) F1 eq_refl); reflexivity].
  unfold arc_ok, UINT64_MAX in *. apply negb_true_iff in Eg.
  destruct (Z.ltb_spec 2 a), (Z.ltb_spec a 2), (Z.ltb_spec 39 b),
    (Z.ltb_spec (18446744073709551615 - 80) b); cbn [andb orb] in Eg; try discriminate;
    unfold oid_ok; split_and!; auto; lia.
Qed.

(** A client: the contents octets of the identifier with the given text. *)
Definition oid_from_text (text : list Z) (h : heap) : option (list Z) :=
  match CBB_init 0 h with
  | (false, _) => None
  | (true, c) =>
    match (let* _ := CBB_add_asn1_oid_from_text 0 text in CBB_finish 0 true true) c with
    | (Some (p, n), _) => Some (ztake n p)
    | (None, _) => None
    end
  end.
End FromText.

(** * Properties *)

(** Text is accepted as an object identifier exactly when it is the dotted
    decimal form of one (at least two components, the first at most 2, no stray
    zeros or dots, every number in 64 bits), and what is written is the DER
    contents of that identifier; with memory enough it always is. *)
Theorem CBB_add_asn1_oid_from_text_iff `{Malloc} (text : list Z) (h : heap) :
  (forall octets, oid_from_text text h = Some octets ->
     exists arcs, oid_ok arcs /\ text = oid_text arcs /\ octets = oid_der arcs) /\
  (forall arcs lim, oid_ok arcs -> text = oid_text arcs -> grants lim ->
     Z.max 40 (2 * zlen (oid_der arcs) + 8) <= lim < 2 ^ 64 ->
     oid_from_text text h = Some (oid_der arcs)).
Proof.
  unfold oid_from_text. split.
  - intros octets. destruct (CBB_init 0 h) as [[] c] eqn:E0; [|discriminate].
    destruct ((let* _ := _ in _) c) as [[[p n]|] c2] eqn:E; [|discriminate]. intros Eo.
    injection Eo as <-. pose proof E as E'. apply bind_inv in E' as ([] & c1 & E1 & _).
    apply oid_from_text_sound in E1 as (arcs & Hok & ->). exists arcs.
    pose proof (write_finish _ _ 0 h c (oid_from_text_writes 0 arcs Hok) ltac:(lia) E0) as W.
    rewrite E in W. injection W as W. auto.
  - intros arcs lim Hok -> G Hl. destruct (CBB_init_grants lim 0 h G) as [c E0]; [lia|lia|lia|].
    rewrite E0. pose proof (write_finish _ _ 0 h c (oid_from_text_writes 0 arcs Hok) ltac:(lia) E0) as W.
    destruct ((let* _ := _ in _) c) as [[[p n]|] c2]; [symmetry; exact W|].
    destruct (W _ lim eq_refl G). lia.
Qed.

Lemma CBB_add_asn1_oid_from_text_iff_witness :
  oid_from_text (H := unlimited) [49; 46; 50; 46; 56; 52; 48] tt = Some [42; 134; 72] /\
  oid_from_text (H := unlimited) [49; 46; 52; 48] tt <> Some [80].
Proof.
  split.
  - apply (proj2 (@CBB_add_asn1_oid_from_text_iff unlimited _ tt) [1; 2; 840] 1000).
    + unfold oid_ok, arc_ok. split_and!; repeat constructor; lia.
    + vm_compute. reflexivity.
    + apply unlimited_grants.
    + vm_compute. split; discriminate || reflexivity.
  - vm_compute. discriminate.
Defined.

(** The text of an object identifier is produced exactly for well-formed
    contents octets, whose components have 64 bits, and it is the dotted decimal
    form of that identifier; with memory enough it always is. *)
Theorem CBS_asn1_oid_to_text_iff `{Malloc} (cbs : list Z) (h : heap) :
  bytes_ok cbs ->
  (forall txt h', CBS_asn1_oid_to_text cbs h = (Some txt, h') ->
     exists arcs, oid_ok arcs /\ cbs = oid_der arcs /\ txt = oid_text arcs ++ [0]) /\
  (forall arcs lim, oid_ok arcs -> cbs = oid_der arcs -> grants lim ->
     Z.max 40 (2 * zlen (oid_text arcs) + 10) <= lim < 2 ^ 64 ->
     exists h', CBS_asn1_oid_to_text cbs h = (Some (oid_text arcs ++ [0]), h')).
Proof.
  intros Hb. unfold CBS_asn1_oid_to_text. split.
  - intros txt h'. destruct (CBB_init 32 h) as [[] c] eqn:E0; [|discriminate].
    destruct ((let* _ := _ in _) c) as [[[p n]|] c2] eqn:E; [|discriminate]. intros Eo.
    injection Eo as <- _. pose proof E as E'. apply bind_inv in E' as ([] & c1 & E1 & _).
    apply oid_to_text_body_sound in E1 as (arcs & Hok & ->); [|exact Hb]. exists arcs.
    pose proof (write_finish _ _ 32 h c (oid_to_text_body_writes arcs Hok) ltac:(lia) E0) as W.
    rewrite E in W. injection W as W. auto.
  - intros arcs lim Hok -> G Hl. destruct (CBB_init_grants lim 32 h G) as [c E0]; [lia|lia|lia|].
    rewrite E0. pose proof (write_finish _ _ 32 h c (oid_to_text_body_writes arcs Hok) ltac:(lia) E0) as W.
    destruct ((let* _ := _ in _) c) as [[[p n]|] c2].
    + injection W as <-. eauto.
    + destruct (W _ lim eq_refl G). autorewrite with zlen. lia.
Qed.

Lemma CBS_asn1_oid_to_text_iff_witness :
  exists h, CBS_asn1_oid_to_text (H := unlimited) [42; 134; 72] tt =
            (Some ([49; 46; 50; 46; 56; 52; 48] ++ [0]), h).
Proof.
  apply (proj2 (@CBS_asn1_oid_to_text_iff unlimited [42; 134; 72] tt
                  ltac:(repeat constructor; lia)) [1; 2; 840] 1000).
  - unfold oid_ok, arc_ok. split_and!; repeat constructor; lia.
  - vm_compute. reflexivity.
  - apply unlimited_grants.
  - vm_compute. split; discriminate || reflexivity.
Defined.
