(* ===== verification/SetOf.v ===== *)
(** [CBB_flush_asn1_set_of] of crypto/bytestring/cbb.c: putting the elements of a
    SET OF into the order DER asks for. *)
From Stdlib Require Import ZArith Lia Sorted.
From stdpp Require Import base list numbers sorting.
From S2P Require Import Prelude.
From S2P Require Import Mem.
From S2P Require Import Sort.
From S2P Require Import Der.
From S2P Require Import Cbs.
From S2P Require Import Cbb.

Open Scope Z_scope.
Open Scope c_scope.

(** * The code *)

Definition compare_set_of_element (a b : CBS) : Z :=
  let a_len := CBS_len a in
  let b_len := CBS_len b in
  let min_len := if a_len <? b_len then a_len else b_len in
  let ret := OPENSSL_memcmp (ztake min_len a) (ztake min_len b) in
  if negb (ret =? 0) then ret
  else if a_len =? b_len then 0
  else if a_len <? b_len then -1 else 1.

(** The elements of [cbs], as the two loops of the code read them. *)
Fixpoint parse_children (fuel : nat) (cbs : CBS) : option (list CBS) :=
  if CBS_len cbs =? 0 then Some []
  else
    match fuel with
    | O => None
    | S fuel =>
      match CBS_get_any_asn1_element cbs with
      | (None, _) => None
      | (Some e, cbs) =>
        match parse_children fuel cbs with
        | Some l => Some (el_out e :: l)
        | None => None
        end
      end
    end.

(** [sizeof(CBS)]. *)
Definition sizeof_CBS : Z := 16.

Section SetOf.
Context `{Malloc} `{Qsort}.

(** The loop that writes the children back. *)
Fixpoint add_children (d : nat) (l : list CBS) : M cbb_st unit :=
  match l with
  | [] => ret tt
  | x :: l => let* _ := CBB_add_bytes d x in add_children d l
  end.

(** [cbb->base->len = cbb->offset + cbb->pending_len_len]. *)
Definition rewind (d : nat) : M cbb_st unit := fun c =>
  match base c with
  | None => (None, c)
  | Some b => (Some tt, {| base := Some (set_len (contents_start d c) b);
                           children := children c; cbb_heap := cbb_heap c |})
  end.

Definition use_heap {A} (f : heap -> A * heap) : M cbb_st A := fun c =>
  let '(a, h) := f (cbb_heap c) in
  (Some a, {| base := base c; children := children c; cbb_heap := h |}).

(** The last line is the assertion that the length is what it was. *)
Definition CBB_flush_asn1_set_of (d : nat) : M cbb_st unit :=
  let* _ := CBB_flush d in
  let* c := get in
  let cbs := CBB_data d c in
  match parse_children (length cbs) cbs with
  | None => fail
  | Some l =>
    let num_children := zlen l in
    if num_children <? 2 then ret tt
    else if SIZE_MAX / sizeof_CBS <? num_children then fail
    else
      let* buf := use_heap (fun h => OPENSSL_memdup h cbs) in
      let* array := use_heap (fun h => OPENSSL_malloc h (num_children * sizeof_CBS)) in
      match buf, array with
      | Some buf, Some _ =>
        match parse_children (length buf) buf with
        | None => fail
        | Some children =>
          let children := qsort children compare_set_of_element in
          let* _ := rewind d in
          let* _ := add_children d children in
          let* c := get in
          check (CBB_len d c =? zlen buf) in ret tt
        end
      | _, _ => fail
      end
  end.
End SetOf.

(** * The order *)

Fixpoint lex_le (a b : list Z) : Prop :=
  match a, b with
  | [], _ => True
  | _ :: _, [] => False
  | p :: a', q :: b' => p < q \/ p = q /\ lex_le a' b'
  end.

Lemma lex_le_total a b : lex_le a b \/ lex_le b a.
Proof.
  revert b. induction a as [|p a IH]; intros [|q b]; cbn; auto.
  destruct (Z.lt_total p q) as [|[->|]]; auto. destruct (IH b); auto.
Qed.

Lemma lex_le_trans a b c : lex_le a b -> lex_le b c -> lex_le a c.
Proof.
  revert b c. induction a as [|p a IH]; intros [|q b] [|r c]; cbn; try tauto.
  intros [Hpq|[-> Hab]] [Hqr|[-> Hbc]]; [left; lia|left; lia|left; lia|right; eauto].
Qed.

Lemma lex_le_antisym a b : lex_le a b -> lex_le b a -> a = b.
Proof.
  revert b. induction a as [|p a IH]; intros [|q b]; cbn; try tauto.
  intros [Hpq|[-> Hab]] [Hqp|[E Hba]]; try lia. f_equal. auto.
Qed.

Lemma compare_set_of_element_le a b : compare_set_of_element a b <= 0 <-> lex_le a b.
Proof.
  unfold compare_set_of_element, CBS_len. cbv zeta. revert b.
  induction a as [|p a IH]; intros b.
  - rewrite (zlen_nil (A := Z)). pose proof (zlen_nonneg b). cbn [lex_le].
    replace (ztake (if 0 <? zlen b then 0 else zlen b) []) with (@nil Z)
      by (unfold ztake; rewrite take_nil; reflexivity). cbn [OPENSSL_memcmp]. rewrite Z.eqb_refl. cbn [negb].
    destruct (Z.eqb_spec 0 (zlen b)); [split; [auto|lia]|].
    destruct (Z.ltb_spec 0 (zlen b)); [split; [auto|lia]|lia].
  - destruct b as [|q b].
    + rewrite (zlen_nil (A := Z)), zlen_cons. pose proof (zlen_nonneg a). cbn [lex_le].
      rewrite (proj2 (Z.ltb_ge (1 + zlen a) 0)) by lia.
      change (OPENSSL_memcmp (ztake 0 (p :: a)) (ztake 0 [])) with 0. rewrite Z.eqb_refl. cbn [negb].
      rewrite (proj2 (Z.eqb_neq (1 + zlen a) 0)) by lia. split; [lia|tauto].
    + specialize (IH b). rewrite !zlen_cons. pose proof (zlen_nonneg a). pose proof (zlen_nonneg b).
      set (m := if zlen a <? zlen b then zlen a else zlen b) in *.
      replace (if 1 + zlen a <? 1 + zlen b then 1 + zlen a else 1 + zlen b) with (1 + m).
      2: { unfold m. destruct (Z.ltb_spec (zlen a) (zlen b)), (Z.ltb_spec (1 + zlen a) (1 + zlen b)); lia. }
      assert (Hm : 0 <= m) by (unfold m; destruct (zlen a <? zlen b); lia).
      unfold ztake in *. replace (Z.to_nat (1 + m)) with (S (Z.to_nat m)) by lia.
      cbn [take OPENSSL_memcmp lex_le]. destruct (Z.eqb_spec p q) as [->|Hne].
      * replace (1 + zlen a =? 1 + zlen b) with (zlen a =? zlen b)
          by (destruct (Z.eqb_spec (zlen a) (zlen b)), (Z.eqb_spec (1 + zlen a) (1 + zlen b)); lia).
        replace (1 + zlen a <? 1 + zlen b) with (zlen a <? zlen b)
          by (destruct (Z.ltb_spec (zlen a) (zlen b)), (Z.ltb_spec (1 + zlen a) (1 + zlen b)); lia).
        rewrite IH. split; [auto|]. intros [|[_ ?]]; [lia|assumption].
      * rewrite (proj2 (Z.eqb_neq (p - q) 0)) by lia. cbn [negb]. lia.
Qed.

(** * The elements *)

Definition is_der (x : list Z) : Prop :=
  exists tag body, x = der tag body /\ tag_ok tag /\ bytes_ok body /\ zlen body < 2 ^ 32.

Lemma der_nonempty x : is_der x -> (1 <= length x)%nat.
Proof.
  intros (tag & body & -> & _). pose proof (zlen_der tag body) as Hz.
  pose proof (der_header_len tag (zlen body)). pose proof (zlen_nonneg body).
  unfold zlen in Hz at 1. lia.
Qed.

Lemma parse_children_complete fuel l :
  Forall is_der l -> bytes_ok (concat l) -> (length l <= fuel)%nat ->
  parse_children fuel (concat l) = Some l.
Proof.
  revert fuel. induction l as [|x l IH]; intros fuel Hl Hb Hf; [destruct fuel; reflexivity|].
  apply List.Forall_cons_iff in Hl as [Hx Hl]. pose proof (der_nonempty x Hx) as Hne.
  destruct fuel as [|fuel]; [cbn in Hf; lia|]. cbn [length concat] in *.
  apply bytes_ok_app in Hb as [_ Hb]. cbn [parse_children]. unfold CBS_len.
  rewrite zlen_app. pose proof (zlen_nonneg (concat l)).
  destruct (Z.eqb_spec (zlen x + zlen (concat l)) 0); [unfold zlen in *; lia|].
  destruct Hx as (tag & body & -> & Ht & Hbody & Hlen). unfold CBS_get_any_asn1_element.
  rewrite element_complete by assumption. rewrite IH by (auto; lia). reflexivity.
Qed.

Lemma parse_children_sound fuel cbs l :
  bytes_ok cbs -> parse_children fuel cbs = Some l -> cbs = concat l /\ Forall is_der l.
Proof.
  revert cbs l. induction fuel as [|fuel IH]; intros cbs l Hb E; cbn [parse_children] in E;
    destruct (Z.eqb_spec (CBS_len cbs) 0) as [Hz|];
    try (apply zlen_0 in Hz as ->; injection E as <-; split; [reflexivity|constructor]);
    [discriminate|].
  destruct (CBS_get_any_asn1_element cbs) as [[e|] rest] eqn:Ee; [|discriminate].
  apply element_sound in Ee as (body & -> & Ee & Ht & Hbody & Hlen); [|exact Hb].
  assert (Eo : el_out e = der (el_tag e) body) by (rewrite Ee at 1; reflexivity).
  apply bytes_ok_app in Hb as [_ Hb].
  destruct (parse_children fuel rest) as [l'|] eqn:Ep; [|discriminate]. injection E as <-.
  apply IH in Ep as [-> Hl]; [|exact Hb]. cbn [concat]. rewrite Eo. split; [reflexivity|].
  constructor; [|exact Hl]. exists (el_tag e), body. auto.
Qed.

Lemma concat_length l : Forall is_der l -> (length l <= length (concat l))%nat.
Proof.
  induction 1 as [|x l Hx Hl IH]; [auto|]. cbn [concat length]. rewrite length_app.
  pose proof (der_nonempty x Hx). lia.
Qed.

Lemma parse_children_iff cbs l :
  bytes_ok cbs ->
  parse_children (length cbs) cbs = Some l <-> cbs = concat l /\ Forall is_der l.
Proof.
  intros Hb. split; [apply parse_children_sound; exact Hb|]. intros [-> Hl].
  apply parse_children_complete; auto using concat_length.
Qed.

(** * Rewriting the contents *)

Section Rewrite.
Context `{Malloc} `{Qsort}.

Lemma concat_permutation_len (l k : list (list Z)) :
  Permutation l k -> zlen (concat l) = zlen (concat k).
Proof.
  induction 1 as [|x l k _ IH|x y l|l k m _ IH1 _ IH2]; cbn [concat]; autorewrite with zlen; lia.
Qed.

Lemma add_children_appends d x l :
  Forall (fun x => zlen x < 2 ^ 64) (x :: l) ->
  appends d (add_children d (x :: l)) (concat (x :: l)) (fun _ => []).
Proof.
  revert x. induction l as [|y l IH]; intros x Hl; apply List.Forall_cons_iff in Hl as [Hx Hl].
  - eapply appends_ext; [intros c; apply bind_ret|]. cbn [concat]. rewrite app_nil_r.
    apply CBB_add_bytes_appends, Hx.
  - apply (appends_bind d (CBB_add_bytes d x) (add_children d (y :: l)) x (concat (y :: l)) (fun _ => []));
      [|apply IH, Hl]. apply appends_writes, CBB_add_bytes_appends, Hx.
Qed.

(** The contents of the object are the bytes after [pre]. *)
Lemma CBB_data_rests N fr pre bs c :
  rests N fr (pre ++ bs) c -> contents_start (length fr) c = zlen pre ->
  CBB_data (length fr) c = bs.
Proof.
  intros (b & Hb & Hc & W & Hd & _) Hs. pose proof (zlen_data b W) as Hl. rewrite Hd in Hl.
  autorewrite with zlen in Hl. pose proof (zlen_nonneg pre). pose proof (zlen_nonneg bs).
  unfold CBB_data, CBB_len. rewrite Hb, Hs, zsub_block by (auto; lia). rewrite Hd.
  pose proof (zsub_app (zlen pre) (len b - zlen pre) pre bs [] eq_refl ltac:(lia)) as Hz.
  rewrite app_nil_r in Hz. exact Hz.
Qed.

Lemma CBB_len_rests N fr pre bs c :
  rests N fr (pre ++ bs) c -> contents_start (length fr) c = zlen pre -> CBB_len (length fr) c = zlen bs.
Proof.
  intros (b & Hb & Hc & W & Hd & _) Hs. pose proof (zlen_data b W) as Hl. rewrite Hd in Hl. autorewrite with zlen in Hl.
  unfold CBB_len. rewrite Hb, Hs. lia.
Qed.

Lemma use_heap_rests {A} N fr bs c (f : heap -> A * heap) :
  rests N fr bs c ->
  exists a c', use_heap f c = (Some a, c') /\ rests N fr bs c' /\ base c' = base c /\
               children c' = children c /\ a = fst (f (cbb_heap c)).
Proof.
  intros (b & Hb & Hc & W). unfold use_heap. destruct (f (cbb_heap c)) as [a h].
  eexists _, _. split; [reflexivity|]. split; [exists b; auto|auto].
Qed.

Lemma rewind_rests N fr pre bs c :
  rests N fr (pre ++ bs) c -> contents_start (length fr) c = zlen pre ->
  exists c', rewind (length fr) c = (Some tt, c') /\ rests (zlen (pre ++ bs)) fr pre c'.
Proof.
  intros (b & Hb & Hc & W & Hd & _) Hs. unfold rewind. rewrite Hb, Hs. eexists. split; [reflexivity|].
  pose proof (zlen_data b W) as Hl. pose proof W as (Hl0 & Hcap & Hz & He).
  pose proof (zlen_nonneg pre). pose proof (zlen_nonneg bs).
  assert (Hlen : zlen pre + zlen bs = len b) by (rewrite <- Hl, Hd; symmetry; apply zlen_app).
  eexists. split; [reflexivity|]. split; [exact Hc|].
  split; [unfold wf; cbn [set_len len cap error]; split_and!; auto; lia|]. split.
  - unfold data. cbn [set_len len]. change (block (set_len (zlen pre) b)) with (block b).
    rewrite <- (ztake_ztake _ (len b)) by lia. fold (data b). rewrite Hd. apply ztake_app.
  - left. cbn [set_len cap]. rewrite zlen_app. lia.
Qed.

Lemma contents_start_children d c c' : children c' = children c -> contents_start d c' = contents_start d c.
Proof. unfold contents_start. intros ->. reflexivity. Qed.

Lemma shows_rests_flush N fr bs c :
  rests N fr bs c ->
  exists c', CBB_flush (length fr) c = (Some tt, c') /\ rests N fr bs c' /\ children c' = children c.
Proof.
  intros Hr. pose proof Hr as (b & Hb & Hc & W & Hd & Hroom). unfold CBB_flush, attached.
  rewrite Hb, Hc, Nat.leb_refl, drop_all, firstn_all. cbn [negb]. pose proof W as (_ & _ & _ & He).
  cbn [flush_from]. rewrite He. eexists. split; [reflexivity|]. rewrite app_nil_r.
  split; [|reflexivity]. exists b. auto.
Qed.

Lemma StronglySorted_mono {A} (R S : A -> A -> Prop) l :
  (forall x y, R x y -> S x y) -> StronglySorted R l -> StronglySorted S l.
Proof.
  intros HRS. induction 1 as [|x l Hl IH Hx]; constructor; [exact IH|].
  apply (Forall_impl _ _ _ Hx). auto.
Qed.

Lemma qsort_lex l : StronglySorted lex_le (qsort l compare_set_of_element).
Proof.
  eapply StronglySorted_mono; [intros x y; apply compare_set_of_element_le|].
  apply qsort_sorted. split.
  - intros x y _ _. rewrite !compare_set_of_element_le. apply lex_le_total.
  - intros x y z _ _ _. rewrite !compare_set_of_element_le. apply lex_le_trans.
Qed.

Lemma sorted_short (l : list (list Z)) : zlen l < 2 -> StronglySorted lex_le l.
Proof.
  destruct l as [|x [|y l]]; rewrite ?zlen_cons; intros Hl; try (repeat constructor; fail).
  pose proof (zlen_nonneg l). lia.
Qed.

Lemma memdup_result h bs r h' :
  OPENSSL_memdup h bs = (Some r, h') -> r = bs.
Proof.
  unfold OPENSSL_memdup. destruct (zlen bs =? 0); [discriminate|].
  destruct (OPENSSL_malloc h (zlen bs)) as [[p|] h1]; [|discriminate]. congruence.
Qed.

Lemma memdup_grants lim h bs :
  grants lim -> zlen bs + 8 <= lim < 2 ^ 64 -> zlen bs <> 0 -> fst (OPENSSL_memdup h bs) <> None.
Proof.
  intros G Hl Hn. pose proof (zlen_nonneg bs). unfold OPENSSL_memdup.
  rewrite (proj2 (Z.eqb_neq _ _) Hn).
  destruct (OPENSSL_malloc_grants lim h (zlen bs) G) as (r & h' & -> & _); try lia. discriminate.
Qed.

(** The writing back, once everything is allocated. *)
Lemma rewrite_children N fr pre els c :
  rests N fr (pre ++ concat els) c -> contents_start (length fr) c = zlen pre ->
  Forall is_der els -> 2 <= zlen els ->
  exists c', (let* _ := rewind (length fr) in
              add_children (length fr) (qsort els compare_set_of_element)) c = (Some tt, c') /\
    exists N', rests N' fr (pre ++ concat (qsort els compare_set_of_element)) c'.
Proof.
  intros Hr Hs Hd H2. destruct (rewind_rests _ _ _ _ _ Hr Hs) as (c1 & E1 & Hr1).
  erewrite bind_Some by exact E1. pose proof (qsort_permutation _ els compare_set_of_element) as Hp.
  pose proof (concat_permutation_len _ _ Hp) as Hcl.
  destruct (qsort els compare_set_of_element) as [|x l].
  { apply Permutation_nil_r in Hp as ->. autorewrite with zlen in H2. lia. }
  assert (Hlen : Forall (fun x => zlen x < 2 ^ 64) (x :: l)).
  { rewrite <- Hp. apply (Forall_impl _ _ _ Hd). intros y (tag & body & -> & _ & _ & Hl).
    rewrite zlen_der. pose proof (der_header_len tag (zlen body)). lia. }
  pose proof (add_children_appends (length fr) x l Hlen _ fr _ c1 eq_refl (rests_shows _ _ _ _ Hr1)) as Hw.
  destruct (add_children (length fr) (x :: l) c1) as [[[]|] c2].
  - destruct Hw as (a & E & Hw). injection E as <-. rewrite app_nil_r in Hw. eauto.
  - destruct Hw as (b & _ & _ & Ht). specialize (Ht _ eq_refl). rewrite !zlen_app, Hcl in Ht. lia.
Qed.

(** The run, by how far it gets. *)
Lemma set_of_run N fr pre bs c :
  rests N fr (pre ++ bs) c -> contents_start (length fr) c = zlen pre -> bytes_ok bs ->
  match CBB_flush_asn1_set_of (length fr) c with
  | (Some _, c') => exists els els' N', bs = concat els /\ Forall is_der els /\
      Permutation els els' /\ StronglySorted lex_le els' /\ rests N' fr (pre ++ concat els') c'
  | (None, c') => rests N fr (pre ++ bs) c'
  end /\
  (forall els lim, bs = concat els -> Forall is_der els -> grants lim ->
     Z.max (zlen bs) (16 * zlen els) + 8 <= lim < 2 ^ 64 ->
     fst (CBB_flush_asn1_set_of (length fr) c) = Some tt).
Proof.
  intros Hr Hs Hb. destruct (shows_rests_flush _ _ _ _ Hr) as (c1 & E1 & Hr1 & Ec1).
  rewrite <- (contents_start_children _ _ _ Ec1) in Hs.
  unfold CBB_flush_asn1_set_of. erewrite bind_Some by exact E1.
  erewrite (bind_Some get) by reflexivity. rewrite (CBB_data_rests _ _ _ _ _ Hr1 Hs).
  pose proof (fun l => parse_children_iff bs l Hb) as Hp.
  destruct (parse_children (length bs) bs) as [els|] eqn:Ep.
  2: { split; [exact Hr1|]. intros els lim Hbs Hd.
       pose proof (proj2 (Hp els) (conj Hbs Hd)). discriminate. }
  destruct (proj1 (Hp els) eq_refl) as [Hbs Hd].
  assert (Huniq : forall k, bs = concat k -> Forall is_der k -> k = els).
  { intros k Hk Hdk. pose proof (proj2 (Hp k) (conj Hk Hdk)). congruence. }
  destruct (Z.ltb_spec (zlen els) 2) as [Hlt|Hge].
  { split; [|reflexivity]. exists els, els, N. rewrite <- Hbs. split_and!; auto using sorted_short. }
  destruct (Z.ltb_spec (SIZE_MAX / sizeof_CBS) (zlen els)) as [Hbig|Hfit].
  { split; [exact Hr1|]. intros k lim Hk Hdk _ Hl. rewrite (Huniq k Hk Hdk) in Hl. exfalso.
    change (SIZE_MAX / sizeof_CBS) with 1152921504606846975 in Hbig. lia. }
  destruct (use_heap_rests _ _ _ _ (fun h => OPENSSL_memdup h bs) Hr1)
    as (buf & c2 & E2 & Hr2 & _ & Ec2 & Hbuf). erewrite bind_Some by exact E2.
  destruct (use_heap_rests _ _ _ _ (fun h => OPENSSL_malloc h (zlen els * sizeof_CBS)) Hr2)
    as (arr & c3 & E3 & Hr3 & _ & Ec3 & Harr). erewrite bind_Some by exact E3.
  rewrite <- (contents_start_children _ c1 c2 Ec2), <- (contents_start_children _ c2 c3 Ec3) in Hs.
  assert (Hmem : forall lim, grants lim -> Z.max (zlen bs) (16 * zlen els) + 8 <= lim < 2 ^ 64 ->
                 buf <> None /\ arr <> None).
  { intros lim G Hl. pose proof (zlen_nonneg bs). pose proof (zlen_nonneg els). subst buf arr.
    split; [|destruct (OPENSSL_malloc_grants lim (cbb_heap c2) (zlen els * sizeof_CBS) G)
               as (r & h' & -> & _); unfold sizeof_CBS; try lia; discriminate].
    apply (memdup_grants lim); [exact G|lia|]. intros Hz. apply zlen_0 in Hz. subst bs.
    destruct els as [|x l]; [autorewrite with zlen in Hge; lia|]. apply List.Forall_cons_iff in Hd as [Hx _].
    apply der_nonempty in Hx. destruct x; [cbn in Hx; lia|discriminate Hz]. }
  destruct buf as [buf|]; [destruct arr as [arr|]|].
  - destruct (OPENSSL_memdup (cbb_heap c1) bs) as [r h'] eqn:Em. cbn [fst] in Hbuf. subst r.
    apply memdup_result in Em as ->. rewrite Ep. rewrite Hbs in Hr3.
    destruct (rewrite_children _ _ _ _ _ Hr3 Hs Hd Hge) as (c4 & E4 & N' & Hr4).
    apply bind_inv in E4 as (u & c5 & E5 & E4). erewrite bind_Some by exact E5. erewrite bind_Some by exact E4. erewrite (bind_Some get) by reflexivity.
    assert (Hs4 : contents_start (length fr) c4 = zlen pre).
    { rewrite <- Hs. apply contents_start_children. destruct Hr3 as (b3 & _ & Hc3 & _), Hr4 as (b4 & _ & Hc4 & _). congruence. }
    assert (Hl4 : CBB_len (length fr) c4 = zlen bs).
    { rewrite (CBB_len_rests _ _ _ _ _ Hr4 Hs4), Hbs. symmetry.
      exact (concat_permutation_len _ _ (qsort_permutation _ els compare_set_of_element)). }
    rewrite Hl4, Z.eqb_refl.
    split; [|reflexivity]. exists els, (qsort els compare_set_of_element), N'.
    split_and!; auto using qsort_lex, qsort_permutation.
  - split; [exact Hr3|]. intros k lim Hk Hdk G Hl. rewrite (Huniq k Hk Hdk) in Hl.
    destruct (Hmem lim G Hl) as [_ Hn]. congruence.
  - split; [exact Hr3|]. intros k lim Hk Hdk G Hl. rewrite (Huniq k Hk Hdk) in Hl.
    destruct (Hmem lim G Hl) as [Hn _]. congruence.
Qed.
End Rewrite.

(** * Properties *)

Lemma CBB_data_after `{Malloc} N N' fr pre bs bs' c c' :
  rests N fr bs c -> contents_start (length fr) c = zlen pre -> rests N' fr (pre ++ bs') c' ->
  CBB_data (length fr) c' = bs'.
Proof.
  intros (b & _ & Hc & _) Hs Hr'. pose proof Hr' as (b' & _ & Hc' & _).
  apply (CBB_data_rests _ _ _ _ _ Hr'). rewrite <- Hs. apply contents_start_children. congruence.
Qed.

(** C35: Flushing a SET OF succeeds only on contents that are DER elements, and
    leaves the same elements sorted by their encodings; on failure the contents
    are what they were; and on DER elements it does succeed when the allocator
    grants a copy of the contents and an array of the elements. *)
Theorem CBB_flush_asn1_set_of_sorts `{Malloc} `{Qsort} N fr (pre bs : list Z) (c : cbb_st) :
  rests N fr (pre ++ bs) c -> contents_start (length fr) c = zlen pre -> bytes_ok bs ->
  match CBB_flush_asn1_set_of (length fr) c with
  | (Some _, c') => exists els els', bs = concat els /\ Forall is_der els /\
      Permutation els els' /\ StronglySorted lex_le els' /\ CBB_data (length fr) c' = concat els'
  | (None, c') => CBB_data (length fr) c' = bs
  end /\
  (forall els lim, bs = concat els -> Forall is_der els -> grants lim ->
     Z.max (zlen bs) (16 * zlen els) + 8 <= lim < 2 ^ 64 ->
     fst (CBB_flush_asn1_set_of (length fr) c) = Some tt).
Proof.
  intros Hr Hs Hb. pose proof (set_of_run N fr pre bs c Hr Hs Hb) as [Hrun Hmem].
  split; [|exact Hmem]. destruct (CBB_flush_asn1_set_of (length fr) c) as [[?|] c'].
  - destruct Hrun as (els & els' & N' & Hbs & Hd & Hp & Ho & Hr').
    exists els, els'. eauto 10 using CBB_data_after.
  - eauto using CBB_data_after.
Qed.

(** A SET OF with two integers and an empty string, written out of order. *)
Definition set_object : @cbb_st unlimited :=
  match @CBB_init unlimited 0 tt with
  | (_, c) => snd ((let* _ := CBB_add_asn1 0 (CBS_ASN1_CONSTRUCTED + 17) in
                    CBB_add_bytes 1 [4; 0; 2; 1; 9; 2; 1; 5]) c)
  end.

Lemma CBB_flush_asn1_set_of_sorts_witness :
  fst (CBB_flush_asn1_set_of 1 set_object) = Some tt /\
  CBB_data 1 (snd (CBB_flush_asn1_set_of 1 set_object)) = [2; 1; 5; 2; 1; 9; 4; 0].
Proof.
  assert (Hd : Forall is_der [[4; 0]; [2; 1; 9]; [2; 1; 5]]).
  { repeat constructor.
    - exists 4, []. split_and!; [reflexivity|split; easy|constructor|easy].
    - exists 2, [9]. split_and!; [reflexivity|split; easy|repeat constructor; lia|easy].
    - exists 2, [5]. split_and!; [reflexivity|split; easy|repeat constructor; lia|easy]. }
  assert (Hr : rests (-1) [{| offset := 1; pending_len_len := 1; pending_is_asn1 := true |}]
                 ([49; 0] ++ [4; 0; 2; 1; 9; 2; 1; 5]) set_object).
  { let b := eval vm_compute in (base set_object) in
    match b with Some ?v => exists v end.
    split; [vm_compute; reflexivity|]. split; [vm_compute; reflexivity|].
    split; [vm_compute; repeat split; discriminate|]. split; [vm_compute; reflexivity|].
    left. vm_compute. discriminate. }
  assert (Hs : contents_start 1 set_object = zlen [49; 0]) by (vm_compute; reflexivity).
  assert (Hb : bytes_ok [4; 0; 2; 1; 9; 2; 1; 5]) by (repeat constructor; lia).
  split; [|vm_compute; reflexivity].
  pose proof (CBB_flush_asn1_set_of_sorts _ _ _ _ _ Hr Hs Hb) as [_ Hmem].
  apply (Hmem [[4; 0]; [2; 1; 9]; [2; 1; 5]] 1000 eq_refl Hd); [apply unlimited_grants|].
  vm_compute. split; discriminate || reflexivity.
Defined.
