(* ===== verification/Unicode.v ===== *)
(** crypto/bytestring/unicode.c: reading and writing one character in UTF-8,
    Latin-1, UCS-2 and UTF-32.

    A [codec] is what the four have in common: a reader, a writer, the characters
    it can represent and the bytes that represent one; its laws say that the
    reader accepts exactly those bytes and the writer writes them. *)
From Stdlib Require Import ZArith Lia.
From stdpp Require Import base list numbers.
From S2P Require Import Prelude.
From S2P Require Import Mem.
From S2P Require Import Der.
From S2P Require Import Cbs.
From S2P Require Import Cbb.

Open Scope Z_scope.
Open Scope c_scope.

(** * The code *)

Definition is_valid_code_point (v : Z) : bool :=
  negb ((1114111 <? v) || (Z.land v 65534 =? 65534) ||
        ((64976 <=? v) && (v <=? 65007)) || ((55296 <=? v) && (v <=? 57343))).

Definition BOTTOM_BITS (n : Z) : Z := u8 (Z.shiftl 1 n - 1).
Definition TOP_BITS (n : Z) : Z := u8 (Z.lnot (BOTTOM_BITS (8 - n))).

(** The loop over the [n] continuation bytes. *)
Fixpoint utf8_continuation (n : nat) (v : Z) : M CBS Z :=
  match n with
  | O => ret v
  | S n =>
    let* c := CBS_get_u8 in
    check (Z.land c (TOP_BITS 2) =? TOP_BITS 1) in
    utf8_continuation n (Z.lor (u32 (Z.shiftl v 6)) (Z.land c (BOTTOM_BITS 6)))
  end.

Definition cbs_get_utf8 : M CBS Z :=
  let* c := CBS_get_u8 in
  if c <=? 127 then ret c
  else
    let rest (v : Z) (len : nat) (lower_bound : Z) : M CBS Z :=
      let* v := utf8_continuation len v in
      check (negb (negb (is_valid_code_point v) || (v <? lower_bound))) in
      ret v in
    if Z.land c (TOP_BITS 3) =? TOP_BITS 2 then rest (Z.land c (BOTTOM_BITS 5)) 1%nat 128
    else if Z.land c (TOP_BITS 4) =? TOP_BITS 3 then rest (Z.land c (BOTTOM_BITS 4)) 2%nat 2048
    else if Z.land c (TOP_BITS 5) =? TOP_BITS 4 then rest (Z.land c (BOTTOM_BITS 3)) 3%nat 65536
    else fail.

Definition cbs_get_latin1 : M CBS Z := CBS_get_u8.

Definition cbs_get_ucs2_be : M CBS Z :=
  let* c := CBS_get_u16 in
  check (is_valid_code_point c) in
  ret c.

Definition cbs_get_utf32_be : M CBS Z :=
  let* out := CBS_get_u32 in
  check (is_valid_code_point out) in
  ret out.

Definition cbb_get_utf8_len (u : Z) : Z :=
  if u <=? 127 then 1 else if u <=? 2047 then 2 else if u <=? 65535 then 3 else 4.

Section Add.
Context `{Malloc}.

(** The byte stored is the low byte of the expression. *)
Definition add_u8_of (d : nat) (v : Z) : M cbb_st unit := CBB_add_u8 d (u8 v).

Definition cbb_add_utf8 (d : nat) (u : Z) : M cbb_st unit :=
  check (is_valid_code_point u) in
  if u <=? 127 then add_u8_of d u
  else if u <=? 2047 then
    let* _ := add_u8_of d (Z.lor (TOP_BITS 2) (Z.shiftr u 6)) in
    add_u8_of d (Z.lor (TOP_BITS 1) (Z.land u (BOTTOM_BITS 6)))
  else if u <=? 65535 then
    let* _ := add_u8_of d (Z.lor (TOP_BITS 3) (Z.shiftr u 12)) in
    let* _ := add_u8_of d (Z.lor (TOP_BITS 1) (Z.land (Z.shiftr u 6) (BOTTOM_BITS 6))) in
    add_u8_of d (Z.lor (TOP_BITS 1) (Z.land u (BOTTOM_BITS 6)))
  else if u <=? 1114111 then
    let* _ := add_u8_of d (Z.lor (TOP_BITS 4) (Z.shiftr u 18)) in
    let* _ := add_u8_of d (Z.lor (TOP_BITS 1) (Z.land (Z.shiftr u 12) (BOTTOM_BITS 6))) in
    let* _ := add_u8_of d (Z.lor (TOP_BITS 1) (Z.land (Z.shiftr u 6) (BOTTOM_BITS 6))) in
    add_u8_of d (Z.lor (TOP_BITS 1) (Z.land u (BOTTOM_BITS 6)))
  else fail.

Definition cbb_add_latin1 (d : nat) (u : Z) : M cbb_st unit :=
  check (u <=? 255) in CBB_add_u8 d (u8 u).

Definition cbb_add_ucs2_be (d : nat) (u : Z) : M cbb_st unit :=
  check ((u <=? 65535) && is_valid_code_point u) in CBB_add_u16 d (u16 u).

Definition cbb_add_utf32_be (d : nat) (u : Z) : M cbb_st unit :=
  check (is_valid_code_point u) in CBB_add_u32 d u.
End Add.

(** * The specification *)

(** Unicode scalar values that are not reserved. *)
Definition code_point (u : Z) : Prop :=
  0 <= u <= 1114111 /\ u mod 65536 < 65534 /\ ~ 64976 <= u <= 65007 /\ ~ 55296 <= u <= 57343.

Definition utf8 (u : Z) : list Z :=
  if u <? 128 then [u]
  else if u <? 2048 then [192 + u / 64; 128 + u mod 64]
  else if u <? 65536 then [224 + u / 4096; 128 + u / 64 mod 64; 128 + u mod 64]
  else [240 + u / 262144; 128 + u / 4096 mod 64; 128 + u / 64 mod 64; 128 + u mod 64].

Record codec `{Malloc} := {
  get_char : M (list Z) Z;
  add_char : nat -> Z -> M cbb_st unit;
  char_ok : Z -> Prop;
  encoding : Z -> list Z
}.

(** The laws, for characters of the C type [uint32_t]. *)
Definition codec_laws `{Malloc} (k : codec) : Prop :=
  (forall cbs u rest, bytes_ok cbs ->
     get_char k cbs = (Some u, rest) <-> char_ok k u /\ cbs = encoding k u ++ rest) /\
  (forall d u, char_ok k u -> writes d (add_char k d u) (Some (encoding k u))) /\
  (forall d u c, 0 <= u < 2 ^ 32 -> ~ char_ok k u -> add_char k d u c = (None, c)).

Section Codecs.
Context `{Malloc}.

Definition utf8_codec : codec :=
  {| get_char := cbs_get_utf8; add_char := cbb_add_utf8; char_ok := code_point; encoding := utf8 |}.
Definition latin1_codec : codec :=
  {| get_char := cbs_get_latin1; add_char := cbb_add_latin1;
     char_ok := fun u => 0 <= u <= 255; encoding := fun u => [u] |}.
Definition ucs2_codec : codec :=
  {| get_char := cbs_get_ucs2_be; add_char := cbb_add_ucs2_be;
     char_ok := fun u => code_point u /\ u <= 65535; encoding := be_bytes 2 |}.
Definition utf32_codec : codec :=
  {| get_char := cbs_get_utf32_be; add_char := cbb_add_utf32_be;
     char_ok := code_point; encoding := be_bytes 4 |}.
Definition codecs : list codec := [utf8_codec; latin1_codec; ucs2_codec; utf32_codec].
End Codecs.

(** * Code points *)

Lemma land_fffe v : 0 <= v -> Z.land v 65534 = v / 2 mod 32768 * 2.
Proof.
  intros Hv. rewrite (Z.div_mod v 2) at 1 by lia. rewrite (Z.mul_comm 2).
  change 65534 with (32767 * 2 ^ 1 + 0). change 2 with (2 ^ 1) at 1 2.
  rewrite land_split by (change (2 ^ 1) with 2; dlia). rewrite Z.land_0_r, Z.add_0_r.
  change 32767 with (2 ^ 15 - 1). rewrite land_mask by lia. reflexivity.
Qed.

Lemma is_valid_code_point_iff u : 0 <= u -> is_valid_code_point u = true <-> code_point u.
Proof.
  intros Hu. unfold is_valid_code_point, code_point. rewrite land_fffe by lia.
  rewrite negb_true_iff, !orb_false_iff, !andb_false_iff, Z.ltb_ge, Z.eqb_neq, !Z.leb_gt.
  split.
  - intros (((H1 & H2) & H3) & H4). split_and!; try lia. dlia.
  - intros (H1 & H2 & H3 & H4). split_and!; try lia. dlia.
Qed.

(** * UTF-8 *)

Lemma utf8_byte_classes c :
  byte_ok c ->
  (Z.land c (TOP_BITS 3) =? TOP_BITS 2) = (192 <=? c) && (c <? 224) /\
  (Z.land c (TOP_BITS 4) =? TOP_BITS 3) = (224 <=? c) && (c <? 240) /\
  (Z.land c (TOP_BITS 5) =? TOP_BITS 4) = (240 <=? c) && (c <? 248) /\
  (Z.land c (TOP_BITS 2) =? TOP_BITS 1) = (128 <=? c) && (c <? 192).
Proof.
  intros Hc. split_and!; apply eqb_true_iff;
    match goal with |- eqb ?x ?y = true => let f := eval pattern c in (eqb x y) in
      match f with ?g _ => apply (byte_cases g) end end; try exact Hc; vm_compute; reflexivity.
Qed.

Lemma land_bottom n c : 0 <= n < 8 -> Z.land c (BOTTOM_BITS n) = c mod 2 ^ n.
Proof.
  intros Hn. unfold BOTTOM_BITS. rewrite Z.shiftl_1_l, u8_small; [apply land_mask; lia|].
  assert (0 < 2 ^ n <= 2 ^ 7) by (split; [lia|apply Z.pow_le_mono_r; lia]). unfold byte_ok. lia.
Qed.

Definition continuation (c : Z) : Prop := 128 <= c < 192.

Definition cont_val (l : list Z) (v : Z) : Z := fold_left (fun v c => v * 64 + (c - 128)) l v.

Lemma utf8_continuation_step n v c cbs :
  byte_ok c -> 0 <= v < 2 ^ 26 ->
  utf8_continuation (S n) v (c :: cbs) =
  if (128 <=? c) && (c <? 192) then utf8_continuation n (v * 64 + (c - 128)) cbs else (None, cbs).
Proof.
  intros Hc Hv. cbn [utf8_continuation]. erewrite bind_Some by apply CBS_get_u8_cons.
  destruct (utf8_byte_classes c Hc) as (_ & _ & _ & ->). rewrite land_bottom by lia.
  destruct (Z.leb_spec 128 c), (Z.ltb_spec c 192); try reflexivity. cbn [andb].
  rewrite guard_true by reflexivity. rewrite u32_small by (rewrite Z.shiftl_mul_pow2; lia).
  rewrite shiftl_lor_add by (lia || dlia). f_equal. change (2 ^ 6) with 64. dlia.
Qed.

Lemma utf8_continuation_iff n v cbs w rest :
  bytes_ok cbs -> 0 <= v < 2 ^ (32 - 6 * Z.of_nat n) -> (n <= 5)%nat ->
  utf8_continuation n v cbs = (Some w, rest) <->
  exists l, cbs = l ++ rest /\ length l = n /\ Forall continuation l /\ w = cont_val l v.
Proof.
  revert v cbs. induction n as [|n IH]; intros v cbs Hb Hv Hn.
  - split.
    + intros E. injection E as -> ->. exists []. auto.
    + intros (l & -> & Hl & _ & ->). destruct l; [reflexivity|discriminate].
  - destruct cbs as [|c cbs].
    { split; [discriminate|]. intros (l & E & Hl & _). destruct l; discriminate. }
    apply bytes_ok_cons in Hb as [Hc Hb].
    assert (Hp : 2 ^ (32 - 6 * Z.of_nat n) = 64 * 2 ^ (32 - 6 * Z.of_nat (S n))).
    { change 64 with (2 ^ 6). rewrite <- Z.pow_add_r by lia. f_equal. lia. }
    assert (2 ^ (32 - 6 * Z.of_nat (S n)) <= 2 ^ 26) by (apply Z.pow_le_mono_r; lia).
    rewrite utf8_continuation_step by (auto; lia).
    destruct (Z.leb_spec 128 c), (Z.ltb_spec c 192); cbn [andb].
    2-4: split; [discriminate|]; intros (l & E & Hl & Hf & _); destruct l as [|x l]; [discriminate|];
      injection E as -> E; apply List.Forall_cons_iff in Hf as [Hx _]; unfold continuation in Hx; lia.
    rewrite IH by (auto; lia). split.
    + intros (l & -> & Hl & Hf & ->). exists (c :: l). split_and!; auto; [cbn; lia|].
      constructor; [unfold continuation; lia|exact Hf].
    + intros (l & E & Hl & Hf & ->). destruct l as [|x l]; [discriminate|]. injection E as <- ->.
      apply List.Forall_cons_iff in Hf as [_ Hf]. exists l. auto.
Qed.

(** The shapes of a sequence that starts with [c]. *)
Definition utf8_tail (c u : Z) (l : list Z) : Prop :=
  Forall continuation l /\
  ((192 <= c < 224 /\ length l = 1%nat /\ u = cont_val l (c mod 32) /\ 128 <= u) \/
   (224 <= c < 240 /\ length l = 2%nat /\ u = cont_val l (c mod 16) /\ 2048 <= u) \/
   (240 <= c < 248 /\ length l = 3%nat /\ u = cont_val l (c mod 8) /\ 65536 <= u)).

Lemma utf8_tail_iff c u l :
  0 <= u <= 1114111 -> utf8_tail c u l <-> 128 <= u /\ utf8 u = c :: l.
Proof.
  intros Hu. unfold utf8_tail, utf8. split.
  - intros (Hf & [(Hc & Hl & -> & Hb)|[(Hc & Hl & -> & Hb)|(Hc & Hl & -> & Hb)]]).
    + destruct l as [|x [|]]; try discriminate. unfold continuation in Hf.
      rewrite !List.Forall_cons_iff in Hf. unfold cont_val in *. cbn [fold_left] in *. split; [lia|].
      rewrite (proj2 (Z.ltb_ge _ 128)), (proj2 (Z.ltb_lt _ 2048)) by dlia.
      repeat f_equal; dlia.
    + destruct l as [|x [|y [|]]]; try discriminate. unfold continuation in Hf.
      rewrite !List.Forall_cons_iff in Hf. unfold cont_val in *. cbn [fold_left] in *. split; [lia|].
      rewrite (proj2 (Z.ltb_ge _ 128)), (proj2 (Z.ltb_ge _ 2048)), (proj2 (Z.ltb_lt _ 65536)) by dlia.
      repeat f_equal; dlia.
    + destruct l as [|x [|y [|z [|]]]]; try discriminate. unfold continuation in Hf.
      rewrite !List.Forall_cons_iff in Hf. unfold cont_val in *. cbn [fold_left] in *. split; [lia|].
      rewrite (proj2 (Z.ltb_ge _ 128)), (proj2 (Z.ltb_ge _ 2048)), (proj2 (Z.ltb_ge _ 65536)) by dlia.
      repeat f_equal; dlia.
  - intros (Hb & E). unfold continuation, cont_val.
    destruct (Z.ltb_spec u 128); [lia|].
    destruct (Z.ltb_spec u 2048); [|destruct (Z.ltb_spec u 65536)]; injection E as <- <-;
      rewrite !List.Forall_cons_iff; cbn [fold_left length].
    + split; [split_and!; try dlia; constructor|left]. split_and!; dlia || reflexivity.
    + split; [split_and!; try dlia; constructor|right; left]. split_and!; dlia || reflexivity.
    + split; [split_and!; try dlia; constructor|right; right]. split_and!; dlia || reflexivity.
Qed.

Lemma cont_val_nonneg l v : 0 <= v -> Forall continuation l -> 0 <= cont_val l v.
Proof.
  unfold cont_val. revert v. induction l as [|c l IH]; intros v Hv Hl; [exact Hv|].
  apply List.Forall_cons_iff in Hl as [Hc Hl]. apply IH; [unfold continuation in Hc; lia|exact Hl].
Qed.

Lemma utf8_rest_iff n v lower_bound cbs u rest :
  bytes_ok cbs -> 0 <= v < 2 ^ (32 - 6 * Z.of_nat n) -> (n <= 5)%nat ->
  (let* v := utf8_continuation n v in
   check (negb (negb (is_valid_code_point v) || (v <? lower_bound))) in ret v) cbs = (Some u, rest)
  <-> exists l, cbs = l ++ rest /\ length l = n /\ Forall continuation l /\ u = cont_val l v /\
                code_point u /\ lower_bound <= u.
Proof.
  intros Hb Hv Hn. split.
  - intros E. run_inv. apply (utf8_continuation_iff n v cbs u rest Hb Hv Hn) in E0
      as (l & -> & Hl & Hf & ->). exists l. apply negb_true_iff, orb_false_iff in E1 as [E1 E2].
    apply negb_false_iff in E1. apply Z.ltb_ge in E2.
    apply is_valid_code_point_iff in E1; [|apply cont_val_nonneg; [lia|exact Hf]]. auto 6.
  - intros (l & -> & Hl & Hf & Hu & Hc & Hlb).
    erewrite bind_Some by (apply utf8_continuation_iff; eauto).
    apply is_valid_code_point_iff in Hc; [|apply Hc]. rewrite Hc, (proj2 (Z.ltb_ge _ _) Hlb).
    reflexivity.
Qed.

(** After a byte above 127. *)
Lemma cbs_get_utf8_long c cbs u rest :
  byte_ok c -> bytes_ok cbs -> 127 < c ->
  cbs_get_utf8 (c :: cbs) = (Some u, rest) <->
  code_point u /\ exists l, cbs = l ++ rest /\ utf8_tail c u l.
Proof.
  intros Hc Hb Hlt. unfold cbs_get_utf8. erewrite bind_Some by apply CBS_get_u8_cons.
  rewrite (proj2 (Z.leb_gt c 127)) by lia.
  destruct (utf8_byte_classes c Hc) as (-> & -> & -> & _). rewrite !land_bottom by lia.
  unfold utf8_tail. unfold byte_ok in Hc. change (2 ^ 5) with 32. change (2 ^ 4) with 16.
  change (2 ^ 3) with 8.
  destruct (Z.leb_spec 192 c), (Z.ltb_spec c 224); cbn [andb];
    [rewrite (utf8_rest_iff 1) by (cbn; auto; dlia)| | |];
    try (destruct (Z.leb_spec 224 c), (Z.ltb_spec c 240); cbn [andb]);
    try lia; try (rewrite (utf8_rest_iff 2) by (cbn; auto; dlia));
    try (destruct (Z.leb_spec 240 c), (Z.ltb_spec c 248); cbn [andb]);
    try lia; try (rewrite (utf8_rest_iff 3) by (cbn; auto; dlia)).
  all: split; [intros E|intros (Hcp & l & E & Hf & D)].
  all: try discriminate.
  all: try (destruct E as (l & E & Hl & Hf & Hu & Hcp & Hlb); split; [exact Hcp|];
            exists l; split; [exact E|]; split; [exact Hf|]; auto 8; fail).
  all: try (destruct D as [D|[D|D]]; try (exfalso; lia);
            destruct D as (Hr & Hl & Hu & Hlb); exists l; auto 8; fail).
Qed.

Lemma utf8_cons u : exists c l, utf8 u = c :: l.
Proof. unfold utf8. destruct (u <? 128), (u <? 2048), (u <? 65536); eauto. Qed.

Lemma cbs_get_utf8_codec cbs u rest :
  bytes_ok cbs -> cbs_get_utf8 cbs = (Some u, rest) <-> code_point u /\ cbs = utf8 u ++ rest.
Proof.
  intros Hb. destruct cbs as [|c cbs].
  { split; [discriminate|]. intros [_ E]. destruct (utf8_cons u) as (c & l & Eu). rewrite Eu in E.
    discriminate. }
  apply bytes_ok_cons in Hb as [Hc Hb]. destruct (Z.leb_spec c 127).
  - unfold cbs_get_utf8. erewrite bind_Some by apply CBS_get_u8_cons.
    rewrite (proj2 (Z.leb_le c 127)) by lia. unfold byte_ok in Hc. split.
    + intros E. injection E as -> ->. unfold utf8. rewrite (proj2 (Z.ltb_lt u 128)) by lia.
      split; [unfold code_point; dlia|reflexivity].
    + intros [Hcp E]. unfold utf8 in E. unfold code_point in Hcp.
      destruct (Z.ltb_spec u 128); [injection E as -> ->; reflexivity|].
      destruct (Z.ltb_spec u 2048); [|destruct (Z.ltb_spec u 65536)]; injection E as E _; dlia.
  - rewrite cbs_get_utf8_long by (auto; lia). split; intros [Hcp E]; (split; [exact Hcp|]).
    + destruct E as (l & -> & Ht). apply utf8_tail_iff in Ht as [_ ->]; [reflexivity|apply Hcp].
    + destruct (utf8_cons u) as (x & l & Eu). rewrite Eu in E. injection E as -> ->.
      exists l. split; [reflexivity|]. apply utf8_tail_iff; [apply Hcp|]. split; [|exact Eu].
      unfold utf8 in Eu. destruct (Z.ltb_spec u 128); [injection Eu as <- _; lia|lia].
Qed.

(** * The other encodings *)

Lemma fixed_reader_iff n f cbs u rest :
  0 <= n -> fixed_reader n f cbs = (Some u, rest) <->
  exists l, zlen l = n /\ cbs = l ++ rest /\ u = f l.
Proof.
  intros Hn. unfold fixed_reader. split.
  - destruct (Z.ltb_spec (zlen cbs) n); [discriminate|]. intros E. injection E as <- <-.
    exists (ztake n cbs). rewrite zlen_ztake, ztake_zdrop by lia. auto.
  - intros (l & <- & -> & ->). rewrite zlen_app, ztake_app, zdrop_app. pose proof (zlen_nonneg rest).
    rewrite (proj2 (Z.ltb_ge _ _)) by lia. reflexivity.
Qed.

Lemma be_reader_iff n cbs u rest :
  bytes_ok cbs ->
  fixed_reader (Z.of_nat n) be_val cbs = (Some u, rest) <->
  0 <= u < 256 ^ Z.of_nat n /\ cbs = be_bytes n u ++ rest.
Proof.
  intros Hb. rewrite fixed_reader_iff by lia. split.
  - intros (l & Hl & -> & ->). apply bytes_ok_app in Hb as [Hb _].
    pose proof (be_val_bound l Hb) as Hv. rewrite Hl in Hv. split; [exact Hv|].
    rewrite <- (be_bytes_val l Hb) at 1. do 2 f_equal. unfold zlen in Hl. lia.
  - intros [Hu ->]. exists (be_bytes n u). rewrite zlen_be_bytes, be_val_bytes, Z.mod_small by lia. auto.
Qed.

(** A fixed-width character set: read the number, then check it. *)
Lemma checked_reader_iff rd n ok cbs u rest :
  rd cbs = fixed_reader (Z.of_nat n) be_val cbs -> bytes_ok cbs ->
  (let* c := rd in check (ok c) in ret c) cbs = (Some u, rest) <->
  (0 <= u < 256 ^ Z.of_nat n /\ ok u = true) /\ cbs = be_bytes n u ++ rest.
Proof.
  intros Er Hb. unfold bind at 1. rewrite Er. pose proof (be_reader_iff n cbs) as Hi.
  destruct (fixed_reader (Z.of_nat n) be_val cbs) as [[v|] r] eqn:E.
  - destruct (proj1 (Hi v r Hb) eq_refl) as [Hv ->]. split.
    + intros Eo. apply guard_inv in Eo as [Ho Eo]. injection Eo as <- <-. auto.
    + intros [[Hu Ho] Eb]. assert (Some v = Some u /\ r = rest) as [E1 ->].
      { assert (E2 : (Some v, r) = (Some u, rest)) by (apply Hi; auto). injection E2 as -> ->. auto. }
      injection E1 as ->. rewrite guard_true by exact Ho. reflexivity.
  - split; [discriminate|]. intros [[Hu _] Eb].
    assert (E2 : (None, r) = (Some u, rest)) by (apply Hi; auto). discriminate.
Qed.

Section Writers.
Context `{Malloc}.

Lemma add_u8_of_writes d v b : u8 v = b -> writes d (add_u8_of d v) (Some [b]).
Proof. intros <-. apply CBB_add_u8_writes, u8_byte. Qed.

Lemma writes_guard d b m o : b = true -> writes d m o -> writes d (check b in m) o.
Proof. intros -> Hm. eapply writes_ext; [intros c; apply guard_true; reflexivity|reflexivity|exact Hm]. Qed.

Lemma lead_byte n t : 2 <= n <= 4 -> 0 <= t < 2 ^ (7 - n) -> u8 (Z.lor (TOP_BITS n) t) = TOP_BITS n + t.
Proof.
  intros Hn Ht. assert (n = 2 \/ n = 3 \/ n = 4) as [->|[->| ->]] by lia.
  - change (TOP_BITS 2) with 192. rewrite (lor_disjoint 5) by (reflexivity || lia).
    apply u8_small. unfold byte_ok. lia.
  - change (TOP_BITS 3) with 224. rewrite (lor_disjoint 4) by (reflexivity || lia).
    apply u8_small. unfold byte_ok. lia.
  - change (TOP_BITS 4) with 240. rewrite (lor_disjoint 3) by (reflexivity || lia).
    apply u8_small. unfold byte_ok. lia.
Qed.

Lemma tail_byte v : u8 (Z.lor (TOP_BITS 1) (Z.land v (BOTTOM_BITS 6))) = 128 + v mod 64.
Proof.
  rewrite land_bottom by lia. change (2 ^ 6) with 64. change (TOP_BITS 1) with 128.
  rewrite (lor_disjoint 7) by (reflexivity || dlia). apply u8_small. unfold byte_ok. dlia.
Qed.

Lemma cbb_add_utf8_writes d u : code_point u -> writes d (cbb_add_utf8 d u) (Some (utf8 u)).
Proof.
  intros Hu. pose proof Hu as (Hr & _). unfold cbb_add_utf8.
  apply writes_guard; [apply is_valid_code_point_iff; [lia|exact Hu]|].
  rewrite !Z.shiftr_div_pow2 by lia. change (2 ^ 6) with 64. change (2 ^ 12) with 4096.
  change (2 ^ 18) with 262144. unfold utf8.
  destruct (Z.leb_spec u 127), (Z.ltb_spec u 128); try lia.
  { apply add_u8_of_writes, u8_small. unfold byte_ok. lia. }
  destruct (Z.leb_spec u 2047), (Z.ltb_spec u 2048); try lia.
  { apply (writes_bind d _ _ (Some [_]) (Some [_])); apply add_u8_of_writes; [|apply tail_byte].
    change (2 ^ 5) with 32. rewrite lead_byte; [reflexivity|lia|change (2 ^ (7 - 2)) with 32; dlia]. }
  destruct (Z.leb_spec u 65535), (Z.ltb_spec u 65536); try lia.
  { apply (writes_bind d _ _ (Some [_]) (Some [_; _])); [apply add_u8_of_writes|].
    - rewrite lead_byte; [reflexivity|lia|change (2 ^ (7 - 3)) with 16; dlia].
    - apply (writes_bind d _ _ (Some [_]) (Some [_])); apply add_u8_of_writes, tail_byte. }
  destruct (Z.leb_spec u 1114111); [|lia].
  apply (writes_bind d _ _ (Some [_]) (Some [_; _; _])); [apply add_u8_of_writes|].
  - rewrite lead_byte; [reflexivity|lia|change (2 ^ (7 - 4)) with 8; dlia].
  - apply (writes_bind d _ _ (Some [_]) (Some [_; _])); [apply add_u8_of_writes, tail_byte|].
    apply (writes_bind d _ _ (Some [_]) (Some [_])); apply add_u8_of_writes, tail_byte.
Qed.

Lemma guard_false {S B} (b : bool) (k : M S B) s :
  b = false -> bind (guard b) (fun _ => k) s = (None, s).
Proof. intros ->. reflexivity. Qed.

Lemma not_code_point u : 0 <= u -> ~ code_point u -> is_valid_code_point u = false.
Proof.
  intros Hu Hn. destruct (is_valid_code_point u) eqn:E; [|reflexivity].
  apply is_valid_code_point_iff in E; [contradiction|exact Hu].
Qed.

Lemma utf8_laws : codec_laws utf8_codec.
Proof.
  split; [|split]; cbn [get_char add_char char_ok encoding utf8_codec].
  - intros cbs u rest Hb. apply cbs_get_utf8_codec, Hb.
  - apply cbb_add_utf8_writes.
  - intros d u c Hu Hn. apply guard_false, not_code_point; [lia|exact Hn].
Qed.

Lemma latin1_laws : codec_laws latin1_codec.
Proof.
  split; [|split]; cbn [get_char add_char char_ok encoding latin1_codec].
  - intros cbs u rest Hb. unfold cbs_get_latin1. rewrite CBS_get_u8_eq.
    rewrite (be_reader_iff 1 cbs u rest Hb). cbn [be_bytes app].
    split; intros [Hu ->]; (split; [lia|]); rewrite Z.mod_small by lia; reflexivity.
  - intros d u Hu. apply writes_guard; [lia|]. rewrite u8_small by (unfold byte_ok; lia).
    apply CBB_add_u8_writes. unfold byte_ok. lia.
  - intros d u c Hu Hn. apply guard_false. lia.
Qed.

Lemma ucs2_laws : codec_laws ucs2_codec.
Proof.
  split; [|split]; cbn [get_char add_char char_ok encoding ucs2_codec].
  - intros cbs u rest Hb. unfold cbs_get_ucs2_be.
    rewrite (checked_reader_iff CBS_get_u16 2) by (auto using CBS_get_u16_eq).
    split; intros [Hu ->]; (split; [|reflexivity]).
    + destruct Hu as [Hu Hv]. apply is_valid_code_point_iff in Hv; [|lia]. split; [exact Hv|lia].
    + destruct Hu as [Hv Hu]. pose proof Hv as (Hr & _). split; [lia|].
      apply is_valid_code_point_iff; [lia|exact Hv].
  - intros d u [Hv Hu]. pose proof Hv as (Hr & _). apply writes_guard.
    { apply andb_true_iff. split; [lia|]. apply is_valid_code_point_iff; [lia|exact Hv]. }
    unfold u16. rewrite Z.mod_small by lia. apply appends_writes.
    apply (CBB_add_u_n_appends d u 2); lia.
  - intros d u c Hu Hn. apply guard_false, andb_false_iff. destruct (Z.leb_spec u 65535); [|auto].
    right. apply not_code_point; [lia|]. intros Hc. apply Hn. auto.
Qed.

Lemma utf32_laws : codec_laws utf32_codec.
Proof.
  split; [|split]; cbn [get_char add_char char_ok encoding utf32_codec].
  - intros cbs u rest Hb. unfold cbs_get_utf32_be.
    rewrite (checked_reader_iff CBS_get_u32 4) by (auto using CBS_get_u32_eq).
    split; intros [Hu ->]; (split; [|reflexivity]).
    + destruct Hu as [Hu Hv]. apply is_valid_code_point_iff in Hv; [exact Hv|lia].
    + pose proof Hu as (Hr & _). split; [lia|]. apply is_valid_code_point_iff; [lia|exact Hu].
  - intros d u Hv. pose proof Hv as (Hr & _).
    apply writes_guard; [apply is_valid_code_point_iff; [lia|exact Hv]|].
    apply appends_writes. apply (CBB_add_u_n_appends d u 4); lia.
  - intros d u c Hu Hn. apply guard_false, not_code_point; [lia|exact Hn].
Qed.
End Writers.

(** * Properties *)

(** C36: Each of the four character encodings reads exactly its own encodings of
    the characters it can represent (for UTF-8: no overlong forms, no surrogates,
    nothing above 0x10ffff), writes exactly those, and refuses every other
    character without writing anything; and the UTF-8 length is the one written. *)
Theorem unicode_codecs_lawful `{Malloc} :
  Forall codec_laws codecs /\
  forall u, code_point u -> cbb_get_utf8_len u = zlen (utf8 u).
Proof.
  split; [unfold codecs; rewrite !List.Forall_cons_iff;
          auto using utf8_laws, latin1_laws, ucs2_laws, utf32_laws, Forall_nil_2|].
  intros u Hu. unfold cbb_get_utf8_len, utf8.
  destruct (Z.leb_spec u 127), (Z.ltb_spec u 128); try lia; [reflexivity|].
  destruct (Z.leb_spec u 2047), (Z.ltb_spec u 2048); try lia; [reflexivity|].
  destruct (Z.leb_spec u 65535), (Z.ltb_spec u 65536); try lia; reflexivity.
Qed.

Lemma unicode_codecs_lawful_witness :
  code_point 8364 /\ cbb_get_utf8_len 8364 = zlen (utf8 8364) /\
  cbs_get_utf8 ([226; 130; 172] ++ [65]) = (Some 8364, [65]).
Proof.
  assert (Hc : code_point 8364) by (unfold code_point; split_and!; try lia; vm_compute; reflexivity).
  split; [exact Hc|]. pose proof (@unicode_codecs_lawful unlimited) as [HF HL].
  split; [exact (HL 8364 Hc)|]. apply List.Forall_cons_iff in HF as [HF _].
  apply (proj1 HF); [repeat constructor; lia|]. split; [exact Hc|reflexivity].
Defined.
