(* ===== verification/Ber.v ===== *)
(** crypto/bytestring/ber.c: turning BER into DER.

    The specification is a parsed form, [forest]: a list of elements, each
    primitive, constructed with a definite length, or constructed with an
    indefinite one, with the length octets that were used.  [encode] gives the
    bytes, [convert] the DER of the same elements. *)
From Stdlib Require Import ZArith Lia.
From stdpp Require Import base list numbers.
From S2P Require Import Prelude.
From S2P Require Import Mem.
From S2P Require Import Der.
From S2P Require Import Cbs.
From S2P Require Import Cbb.
From S2P Require Import Build.
From S2P Require Import Oid.

Open Scope Z_scope.
Open Scope c_scope.

(** * The code *)

Definition kMaxDepth : Z := 2048.

Definition primitive_tag (tag : Z) : Z := Z.land tag (u32 (Z.lnot CBS_ASN1_CONSTRUCTED)).

(** OCTET STRING, UTF8String, NumericString, PrintableString, T61String,
    VideotexString, IA5String, GraphicString, VisibleString, GeneralString,
    UniversalString and BMPString. *)
Definition is_string_type (tag : Z) : bool :=
  existsb (Z.eqb (primitive_tag tag)) [4; 12; 18; 19; 20; 21; 22; 25; 26; 27; 28; 30].

(** The result is the last value of [*ber_found]. *)
Fixpoint cbs_find_ber_loop (fuel : nat) (cin : CBS) (ber_found : bool) (depth : Z) : option bool :=
  if negb (0 <? CBS_len cin) then Some ber_found
  else
    match fuel with
    | O => None
    | S fuel =>
      match CBS_get_any_ber_asn1_element cin with
      | (None, _) => None
      | (Some e, cin) =>
        if el_ber_found e then Some true
        else if negb (Z.land (el_tag e) CBS_ASN1_CONSTRUCTED =? 0) then
          if is_string_type (el_tag e) then Some true
          else
            match CBS_skip (el_header_len e) (el_out e) with
            | (None, _) => None
            | (Some _, contents) =>
              if kMaxDepth <? depth + 1 then None
              else match cbs_find_ber_loop fuel contents false (depth + 1) with
                   | None => None
                   | Some ber_found => cbs_find_ber_loop fuel cin ber_found depth
                   end
            end
        else cbs_find_ber_loop fuel cin false depth
      end
    end.

Definition cbs_find_ber (orig_in : CBS) (depth : Z) : option bool :=
  if kMaxDepth <? depth then None
  else cbs_find_ber_loop (length orig_in) orig_in false depth.

Definition is_eoc (header_len : Z) (contents : CBS) : bool :=
  (header_len =? 2) && (CBS_len contents =? 2) && (OPENSSL_memcmp contents [0; 0] =? 0).

Section Ber.
Context `{Malloc}.

(** The result is what is left of [*in].  The depth is checked on entry; it is
    the same in every round of the loop. *)
Fixpoint cbs_convert_ber (fuel : nat) (out : nat) (string_tag : Z) (looking_for_eoc : bool)
    (depth : Z) (cin : CBS) : M cbb_st CBS :=
  if kMaxDepth <? depth then fail
  else if negb (0 <? CBS_len cin) then check (negb looking_for_eoc) in ret cin
  else
    match fuel with
    | O => fail
    | S fuel =>
      match CBS_get_any_ber_asn1_element cin with
      | (None, _) => fail
      | (Some e, cin) =>
        let contents := el_out e in
        let tag := el_tag e in
        let header_len := el_header_len e in
        let constructed := negb (Z.land tag CBS_ASN1_CONSTRUCTED =? 0) in
        if is_eoc header_len contents then check looking_for_eoc in ret cin
        else
          let string := constructed && is_string_type tag in
          let out_tag := if string then primitive_tag tag else tag in
          let child_string_tag :=
            if negb (string_tag =? 0) then string_tag else if string then out_tag else 0 in
          let* out_contents :=
            (if negb (string_tag =? 0) then
               check (primitive_tag tag =? string_tag) in ret out
             else
               let* _ := CBB_add_asn1 out out_tag in ret (S out)) in
          let* cin :=
            (if (CBS_len contents =? header_len) && (0 <? header_len)
                && (znth 0 (header_len - 1) contents =? 128)
             then cbs_convert_ber fuel out_contents child_string_tag true (depth + 1) cin
             else
               match CBS_skip header_len contents with
               | (None, _) => fail
               | (Some _, contents) =>
                 if constructed then
                   let* _ := cbs_convert_ber fuel out_contents child_string_tag false
                               (depth + 1) contents in
                   ret cin
                 else
                   let* _ := CBB_add_bytes out_contents contents in ret cin
               end) in
          let* _ := CBB_flush out in
          cbs_convert_ber fuel out string_tag looking_for_eoc depth cin
      end
    end.

(** The result is [*out], whether it is in storage of its own, and what is left
    of [*in]. *)
Definition CBS_asn1_ber_to_der (cin : CBS) (h : heap) : option (CBS * bool * CBS) :=
  match cbs_find_ber cin 0 with
  | None => None
  | Some false =>
    match CBS_get_any_asn1_element cin with
    | (None, _) => None
    | (Some e, rest) => Some (el_out e, false, rest)
    end
  | Some true =>
    match CBB_init (CBS_len cin) h with
    | (false, _) => None
    | (true, c) =>
      match (let* rest := cbs_convert_ber (S (length cin)) 0 0 false 0 cin in
             let* '(p, n) := CBB_finish 0 true true in
             ret (ztake n p, true, rest)) c with
      | (Some r, _) => Some r
      | (None, _) => None
      end
    end
  end.

(** The loop over the chunks of a constructed string. *)
Fixpoint implicit_string_loop (fuel : nat) (child : CBS) (inner_tag : Z) : M cbb_st unit :=
  if negb (0 <? CBS_len child) then ret tt
  else
    match fuel with
    | O => fail
    | S fuel =>
      match CBS_get_asn1 inner_tag child with
      | (None, _) => fail
      | (Some chunk, child) =>
        let* _ := CBB_add_bytes 0 chunk in
        implicit_string_loop fuel child inner_tag
      end
    end.

Definition CBS_get_asn1_implicit_string (cin : CBS) (outer_tag inner_tag : Z) (h : heap)
  : option (CBS * bool * CBS) :=
  if CBS_peek_asn1_tag cin outer_tag then
    match CBS_get_asn1 outer_tag cin with
    | (None, _) => None
    | (Some out, rest) => Some (out, false, rest)
    end
  else
    match CBB_init (CBS_len cin) h with
    | (false, _) => None
    | (true, c) =>
      match CBS_get_asn1 (Z.lor outer_tag CBS_ASN1_CONSTRUCTED) cin with
      | (None, _) => None
      | (Some child, rest) =>
        match (let* _ := implicit_string_loop (length child) child inner_tag in
               CBB_finish 0 true true) c with
        | (Some (data, len), _) => Some (ztake len data, true, rest)
        | (None, _) => None
        end
      end
    end.
End Ber.

(** * The specification *)

Inductive forest :=
| Done
| Prim (tag : Z) (lo body : list Z) (next : forest)
| Cons (tag : Z) (lo : list Z) (kids next : forest)
| Indef (tag : Z) (kids next : forest).

(** Length octets for [n] bytes, minimal or not. *)
Definition length_octets (lo : list Z) (n : Z) : Prop :=
  (lo = [n] /\ 0 <= n < 128) \/
  (exists bs, lo = (128 + zlen bs) :: bs /\ 1 <= zlen bs <= 4 /\ bytes_ok bs /\ be_val bs = n).

Fixpoint encode (f : forest) : list Z :=
  match f with
  | Done => []
  | Prim tag lo body next => der_tag tag ++ lo ++ body ++ encode next
  | Cons tag lo kids next => der_tag tag ++ lo ++ encode kids ++ encode next
  | Indef tag kids next => der_tag tag ++ 128 :: encode kids ++ 0 :: 0 :: encode next
  end.

Fixpoint forest_ok (f : forest) : Prop :=
  match f with
  | Done => True
  | Prim tag lo body next =>
      tag_ok tag /\ constructed tag = false /\ length_octets lo (zlen body) /\ bytes_ok body /\
      ~ (tag = 0 /\ lo = [0]) /\ forest_ok next
  | Cons tag lo kids next =>
      tag_ok tag /\ constructed tag = true /\ length_octets lo (zlen (encode kids)) /\
      forest_ok kids /\ forest_ok next
  | Indef tag kids next =>
      tag_ok tag /\ constructed tag = true /\ forest_ok kids /\ forest_ok next
  end.

Fixpoint height (f : forest) : Z :=
  match f with
  | Done => 0
  | Prim _ _ _ next => height next
  | Cons _ _ kids next | Indef _ kids next => Z.max (1 + height kids) (height next)
  end.

Definition child_tag (string_tag tag : Z) : Z :=
  if negb (string_tag =? 0) then string_tag
  else if constructed tag && is_string_type tag then primitive_tag tag else 0.

(** What an element with contents [o] becomes: a chunk of the string being put
    together, or an element, a constructed string losing its constructed bit. *)
Definition convert_element (string_tag tag : Z) (o : option (list Z)) : option (list Z) :=
  if negb (string_tag =? 0) then if primitive_tag tag =? string_tag then o else None
  else element_bytes (if constructed tag && is_string_type tag then primitive_tag tag else tag) o.

(** The DER of the elements; [None] when a string has a chunk of another type or
    an element is too long. *)
Fixpoint convert (string_tag : Z) (f : forest) : option (list Z) :=
  match f with
  | Done => Some []
  | Prim tag _ body next => oapp (convert_element string_tag tag (Some body)) (convert string_tag next)
  | Cons tag _ kids next | Indef tag kids next =>
      oapp (convert_element string_tag tag (convert (child_tag string_tag tag) kids))
           (convert string_tag next)
  end.

(** * Headers *)

(** Length octets that are not the shortest. *)
Definition nonminimal (lo : list Z) : bool :=
  match tail lo with
  | [] => false
  | bs => (be_val bs <? 128) || (be_val bs <? 256 ^ (zlen bs - 1))
  end.

Definition definite (tag : Z) (lo body : list Z) : element :=
  {| el_out := der_tag tag ++ lo ++ body; el_tag := tag;
     el_header_len := zlen (der_tag tag ++ lo); el_ber_found := nonminimal lo |}.

Definition indefinite (tag : Z) : element :=
  {| el_out := der_tag tag ++ [128]; el_tag := tag; el_header_len := zlen (der_tag tag) + 1;
     el_ber_found := true |}.

Lemma get_indefinite tag r :
  tag_ok tag -> constructed tag = true -> bytes_ok r ->
  CBS_get_any_ber_asn1_element (der_tag tag ++ 128 :: r) = (Some (indefinite tag), r).
Proof.
  intros Ht Hc Hr. unfold CBS_get_any_ber_asn1_element.
  rewrite element_eq by (auto; unfold byte_ok; lia). unfold element_of. cbn [Z.ltb Z.compare Pos.compare Pos.compare_cont].
  rewrite Hc. cbn [Z.sub Z.add Z.opp Z.pos_sub Pos.pred_double Z.eqb andb].
  replace (der_tag tag ++ 128 :: r) with ((der_tag tag ++ [128]) ++ r)
    by (rewrite <- app_assoc; reflexivity).
  rewrite take_element_app by (autorewrite with zlen; lia). reflexivity.
Qed.

Lemma get_definite tag lo body r :
  tag_ok tag -> length_octets lo (zlen body) -> bytes_ok body -> bytes_ok r ->
  CBS_get_any_ber_asn1_element (der_tag tag ++ lo ++ body ++ r) = (Some (definite tag lo body), r).
Proof.
  intros Ht Hl Hb Hr. unfold CBS_get_any_ber_asn1_element, definite.
  destruct Hl as [[-> Hn]|(bs & -> & Hk & Hbs & Hv)]; cbn [app].
  - rewrite element_eq by (auto; rewrite ?bytes_ok_app; auto; unfold byte_ok; lia).
    unfold element_of. rewrite (proj2 (Z.ltb_lt _ 128)) by lia.
    replace (der_tag tag ++ zlen body :: body ++ r) with ((der_tag tag ++ zlen body :: body) ++ r)
      by (rewrite <- app_assoc; reflexivity).
    rewrite take_element_app by (autorewrite with zlen; lia).
    f_equal. f_equal. f_equal. autorewrite with zlen. lia.
  - rewrite element_eq by (rewrite ?bytes_ok_app; auto; unfold byte_ok; lia).
    unfold element_of. rewrite (proj2 (Z.ltb_ge _ 128)) by lia.
    replace (128 + zlen bs - 128) with (zlen bs) by lia.
    rewrite (proj2 (Z.eqb_neq (zlen bs) 0)), (proj2 (Z.ltb_ge 4 (zlen bs))) by lia.
    rewrite andb_false_r. cbn [orb]. rewrite zlen_app, ztake_app. pose proof (zlen_nonneg (body ++ r)).
    rewrite (proj2 (Z.ltb_ge _ (zlen bs))) by lia. cbn [negb]. rewrite andb_false_r, Hv.
    replace (der_tag tag ++ (128 + zlen bs) :: bs ++ body ++ r)
      with ((der_tag tag ++ (128 + zlen bs) :: bs ++ body) ++ r)
      by (rewrite <- app_assoc; cbn [app]; rewrite <- app_assoc; reflexivity).
    rewrite take_element_app by (autorewrite with zlen; lia).
    f_equal. f_equal. f_equal; [autorewrite with zlen; lia|]. unfold nonminimal.
    destruct bs as [|b bs]; [autorewrite with zlen in Hk; lia|]. cbn [tail]. rewrite Hv. reflexivity.
Qed.

(** Every element the parser accepts is one of the two. *)
Lemma get_any_ber_inv cbs e rest :
  bytes_ok cbs -> CBS_get_any_ber_asn1_element cbs = (Some e, rest) ->
  exists tag, tag_ok tag /\
    ((constructed tag = true /\ e = indefinite tag /\ cbs = der_tag tag ++ 128 :: rest) \/
     exists lo body, length_octets lo (zlen body) /\ bytes_ok body /\ e = definite tag lo body /\
                     cbs = der_tag tag ++ lo ++ body ++ rest).
Proof.
  intros Hb E. apply element_inv in E as (tag & b & h & -> & Ht & Hbb & Hh & E); [|exact Hb].
  exists tag. split; [exact Ht|]. unfold element_of in E. unfold byte_ok in Hbb.
  assert (Htake : forall n f, 0 <= n -> take_element (der_tag tag ++ b :: h) (zlen (der_tag tag) + 1 + n) f = (Some e, rest) ->
    exists x, h = x ++ rest /\ zlen x = n /\ e = f (der_tag tag ++ b :: x)).
  { intros n f Hn Et. replace (der_tag tag ++ b :: h) with ((der_tag tag ++ [b]) ++ h) in Et
      by (rewrite <- app_assoc; reflexivity).
    apply take_element_prefix with (n := n) in Et as (x & -> & Hx & ->);
      [|exact Hn|autorewrite with zlen; lia].
    exists x. rewrite <- app_assoc. auto. }
  destruct (Z.ltb_spec b 128).
  - right. apply Htake in E as (body & -> & Hn & ->); [|lia]. apply bytes_ok_app in Hh as [Hbo _].
    exists [b], body. split; [left; rewrite Hn; split; [reflexivity|lia]|]. split; [exact Hbo|].
    split; [|reflexivity]. unfold definite. f_equal. autorewrite with zlen. lia.
  - destruct (true && constructed tag && (b - 128 =? 0)) eqn:Ei.
    + left. apply andb_true_iff in Ei as [Hc Hk]. apply Z.eqb_eq in Hk. assert (b = 128) as -> by lia.
      split; [exact Hc|]. rewrite <- (Z.add_0_r (zlen _ + 1)) in E at 1.
      apply Htake in E as (x & -> & Hx & ->); [|lia]. apply zlen_0 in Hx as ->. auto.
    + destruct ((b - 128 =? 0) || (4 <? b - 128)) eqn:Ek; [discriminate|].
      apply orb_false_iff in Ek as [Ek1 Ek2]. apply Z.eqb_neq in Ek1. apply Z.ltb_ge in Ek2.
      destruct (Z.ltb_spec (zlen h) (b - 128)) as [|Hlh]; [discriminate|].
      cbn [negb] in E. rewrite andb_false_r in E. set (bs := ztake (b - 128) h) in *.
      assert (Hbs : bytes_ok bs) by (apply bytes_ok_ztake, Hh). pose proof (be_val_bound bs Hbs) as Hv.
      assert (Hzb : zlen bs = b - 128) by (apply zlen_ztake; lia).
      rewrite <- Z.add_assoc in E. apply Htake in E as (x & Eh & Hx & ->); [|lia]. right.
      assert (Hx' : x = bs ++ zdrop (b - 128) x).
      { rewrite <- (ztake_zdrop (b - 128) x) at 1. f_equal. unfold bs. rewrite Eh.
        symmetry. apply ztake_app_le. lia. }
      set (body := zdrop (b - 128) x) in *. rewrite Eh, Hx' in Hh. rewrite !bytes_ok_app in Hh.
      assert (Hzbody : zlen body = be_val bs) by (unfold body; rewrite zlen_zdrop; lia).
      exists (b :: bs), body. split; [right; exists bs|].
      { rewrite Hzb. split; [f_equal; lia|]. split; [lia|]. auto. }
      split; [tauto|]. split; [|rewrite Eh, Hx', <- app_assoc; reflexivity].
      unfold definite. rewrite Hx' at 1. f_equal; [autorewrite with zlen; lia|].
      unfold nonminimal. destruct bs as [|p bs']; [autorewrite with zlen in Hzb; lia|].
      cbn [tail]. rewrite Hzb. reflexivity.
Qed.

(** * The tests of the converter *)

Lemma constructed_0 tag : constructed tag = true -> tag <> 0.
Proof. intros H ->. discriminate. Qed.

Lemma der_tag_0 tag : tag_ok tag -> hd 0 (der_tag tag) = 0 -> tag = 0.
Proof.
  unfold tag_ok, der_tag. cbv zeta. intros Ht. destruct (Z.ltb_spec (tag mod 2 ^ 29) 31); cbn [hd]; dlia.
Qed.

Lemma eoc_bytes hl out : is_eoc hl out = true -> hl = 2 /\ out = [0; 0].
Proof.
  unfold is_eoc, CBS_len. rewrite !andb_true_iff, !Z.eqb_eq. intros [[Hh Hl] Hm]. split; [exact Hh|].
  destruct out as [|a [|b [|]]]; try (unfold zlen in Hl; cbn [length] in Hl; lia).
  cbn [OPENSSL_memcmp] in Hm. destruct (Z.eqb_spec a 0); [|lia]. destruct (Z.eqb_spec b 0); [|lia].
  congruence.
Qed.

Lemma length_octets_nonempty lo n : length_octets lo n -> 1 <= zlen lo.
Proof.
  intros [[-> _]|(bs & -> & Hk & _)]; autorewrite with zlen; lia.
Qed.

Lemma eoc_definite tag lo body :
  tag_ok tag -> length_octets lo (zlen body) ->
  is_eoc (el_header_len (definite tag lo body)) (el_out (definite tag lo body)) = true <->
  tag = 0 /\ lo = [0].
Proof.
  intros Ht Hl. cbn [definite el_header_len el_out]. split.
  - intros E. apply eoc_bytes in E as [Hh E]. pose proof (der_tag_len tag).
    pose proof (length_octets_nonempty lo _ Hl). autorewrite with zlen in Hh.
    assert (tag = 0) as -> by (apply der_tag_0; [exact Ht|]; destruct (der_tag tag);
      [autorewrite with zlen in *; lia|injection E as -> _; reflexivity]).
    change (der_tag 0) with [0] in *. injection E as E. split; [reflexivity|].
    destruct lo as [|x [|]]; autorewrite with zlen in *; try lia. injection E as -> _. reflexivity.
    pose proof (zlen_nonneg l). lia.
  - intros [-> ->]. destruct Hl as [[E Hn]|(bs & E & Hk & _)]; injection E as E; [|lia].
    symmetry in E. apply zlen_0 in E as ->. reflexivity.
Qed.

Lemma eoc_indefinite tag :
  is_eoc (el_header_len (indefinite tag)) (el_out (indefinite tag)) = false.
Proof.
  destruct (is_eoc _ _) eqn:E; [|reflexivity]. apply eoc_bytes in E as [_ E].
  cbn [indefinite el_out] in E. exfalso.
  destruct (der_tag tag) as [|x [|y [|z l]]]; discriminate.
Qed.

(** The test for an indefinite length. *)
Definition looks_indefinite (e : element) : bool :=
  (CBS_len (el_out e) =? el_header_len e) && (0 <? el_header_len e)
  && (znth 0 (el_header_len e - 1) (el_out e) =? 128).

Lemma znth_app {A} (d : A) i l k : i = zlen l -> znth d i (l ++ k) = hd d k.
Proof.
  intros ->. unfold znth, zlen. rewrite Nat2Z.id, app_nth2, Nat.sub_diag by lia.
  destruct k; reflexivity.
Qed.

Lemma looks_indefinite_indefinite tag : looks_indefinite (indefinite tag) = true.
Proof.
  unfold looks_indefinite, CBS_len. cbn [indefinite el_out el_header_len]. autorewrite with zlen.
  pose proof (zlen_nonneg (der_tag tag)). rewrite znth_app by lia. cbn [hd].
  rewrite Z.add_0_r, Z.eqb_refl, (proj2 (Z.ltb_lt 0 _)) by lia. reflexivity.
Qed.

Lemma be_val_zero_last bs : bytes_ok bs -> be_val bs = 0 -> Forall (fun b => b = 0) bs.
Proof.
  induction bs as [|b bs IH]; intros Hb Hv; constructor; apply bytes_ok_cons in Hb as [Hb Hbs];
    rewrite be_val_cons in Hv; pose proof (be_val_bound bs Hbs); unfold byte_ok in Hb;
    assert (0 < 256 ^ zlen bs) by lia; assert (b * 256 ^ zlen bs = 0) by nia; [nia|apply IH; auto; lia].
Qed.

Lemma looks_indefinite_definite tag lo body :
  length_octets lo (zlen body) -> looks_indefinite (definite tag lo body) = false.
Proof.
  intros Hl. unfold looks_indefinite, CBS_len. cbn [definite el_out el_header_len].
  destruct (Z.eqb_spec (zlen (der_tag tag ++ lo ++ body)) (zlen (der_tag tag ++ lo))) as [E|];
    [|reflexivity].
  autorewrite with zlen in *. assert (Hz : zlen body = 0) by lia. rewrite Hz in Hl.
  apply zlen_0 in Hz as ->. rewrite app_nil_r. cbn [andb].
  apply andb_false_iff. right. apply Z.eqb_neq.
  destruct Hl as [[-> _]|(bs & -> & Hk & Hb & Hv)].
  - autorewrite with zlen. rewrite znth_app by lia. discriminate.
  - apply be_val_zero_last in Hv; [|exact Hb].
    destruct bs as [|b bs _] using rev_ind; [autorewrite with zlen in Hk; lia|].
    apply Forall_app in Hv as [_ Hv]. apply List.Forall_cons_iff in Hv as [-> _].
    replace (der_tag tag ++ (128 + zlen (bs ++ [0])) :: bs ++ [0])
      with ((der_tag tag ++ (128 + zlen (bs ++ [0])) :: bs) ++ [0])
      by (rewrite <- app_assoc; reflexivity).
    rewrite znth_app by (autorewrite with zlen; lia). discriminate.
Qed.

Lemma skip_definite tag lo body :
  CBS_skip (el_header_len (definite tag lo body)) (el_out (definite tag lo body)) = (Some tt, body).
Proof.
  cbn [definite el_out el_header_len]. unfold CBS_skip. rewrite app_assoc.
  erewrite bind_Some by apply cbs_get_app. reflexivity.
Qed.

Lemma get_eoc r :
  bytes_ok r -> CBS_get_any_ber_asn1_element (0 :: 0 :: r) = (Some (definite 0 [0] []), r).
Proof.
  intros Hr. apply (get_definite 0 [0] [] r); auto with bytes; [split; easy|].
  left. split; [reflexivity|split; easy].
Qed.

(** * Computations with a result *)

Section Yields.
Context `{Malloc}.

(** On success the result is [a] and [o] is written; it fails only when there is
    not room enough, or [o] is [None]. *)
Definition yields {A} (d : nat) (m : M cbb_st A) (a : A) (o : option (list Z)) : Prop :=
  forall N fr p c, length fr = d -> shows N fr p c ->
  match m c with
  | (Some a', c') => a' = a /\ shows N fr (oapp p o) c'
  | (None, _) => too_long N (oapp p o)
  end.

Lemma writes_yields d m o : writes d m o -> yields d m tt o.
Proof.
  intros Hm N fr p c Hd Hs. specialize (Hm N fr p c Hd Hs). destruct (m c) as [[[]|] c']; [auto|].
  destruct Hm as (b & _ & _ & Ht). exact Ht.
Qed.

Lemma yields_ret {A} d (a : A) : yields d (ret a) a (Some []).
Proof. intros N fr p c _ Hs. cbn. rewrite oapp_nil. auto. Qed.

Lemma yields_fail {A} d (a : A) : yields d fail a None.
Proof. intros N fr p c _ _. cbn. destruct p; discriminate. Qed.

Lemma yields_bind {A B} d (m : M cbb_st A) (k : A -> M cbb_st B) a b o1 o2 :
  yields d m a o1 -> yields d (k a) b o2 -> yields d (bind m k) b (oapp o1 o2).
Proof.
  intros Hm Hk N fr p c Hd Hs. specialize (Hm N fr p c Hd Hs). unfold bind. rewrite oapp_assoc.
  destruct (m c) as [[a'|] c1].
  - destruct Hm as [-> Hs1]. apply Hk; assumption.
  - apply too_long_app, Hm.
Qed.

Lemma yields_ext {A} d (m m' : M cbb_st A) a o o' :
  (forall c, m c = m' c) -> o = o' -> yields d m' a o' -> yields d m a o.
Proof. intros E -> Hm N fr p c. rewrite E. apply Hm. Qed.

Lemma opens_yields {A} d m (k : M cbb_st A) hdr n asn1 a o :
  0 < n -> (asn1 = true -> n = 1) ->
  opens d m hdr n asn1 -> yields (S d) k a o ->
  yields d (let* _ := m in k) a (sealed hdr n asn1 o).
Proof.
  intros Hn Ha Hm Hk N fr p c Hd Hs. pose proof (opens_child d m hdr n asn1 N fr p c Hn Ha Hm Hd Hs) as Ho.
  unfold bind. destruct (m c) as [[[]|] c1].
  - destruct Ho as (fr1 & q & Hfr & Hs1 & Hlong & Hclose). specialize (Hk N fr1 _ c1 Hfr Hs1).
    destruct (k c1) as [[a'|] c2]; [split; [apply Hk|apply Hclose, Hk]|apply Hlong, Hk].
  - destruct (Ho o) as (b & _ & _ & Ht). exact Ht.
Qed.

Lemma CBB_add_asn1_yields {A} d tag (k : M cbb_st A) a o :
  tag_ok tag -> yields (S d) k a o ->
  yields d (let* _ := CBB_add_asn1 d tag in k) a (element_bytes tag o).
Proof.
  intros Ht Hk. rewrite <- sealed_der.
  apply opens_yields; auto using CBB_add_asn1_opens. lia.
Qed.
End Yields.

(** * The converter accepts every forest *)

Lemma length_octets_ok lo n : length_octets lo n -> bytes_ok lo /\ 0 <= n < 2 ^ 32.
Proof.
  intros [[-> Hn]|(bs & -> & Hk & Hb & <-)].
  - split; [|lia]. constructor; [unfold byte_ok; lia|constructor].
  - split; [constructor; [unfold byte_ok; lia|exact Hb]|]. pose proof (be_val_bound bs Hb).
    assert (256 ^ zlen bs <= 256 ^ 4) by (apply Z.pow_le_mono_r; lia). lia.
Qed.

Lemma encode_bytes f : forest_ok f -> bytes_ok (encode f).
Proof.
  induction f as [|tag lo body next IH|tag lo kids IHk next IHn|tag kids IHk next IHn];
    cbn [forest_ok encode]; intros Hok; [constructor|..].
  - destruct Hok as (Ht & _ & Hl & Hb & _ & Hn). apply length_octets_ok in Hl as [Hl _].
    rewrite !bytes_ok_app. auto using der_tag_bytes.
  - destruct Hok as (Ht & _ & Hl & Hk & Hn). apply length_octets_ok in Hl as [Hl _].
    rewrite !bytes_ok_app. auto using der_tag_bytes.
  - destruct Hok as (Ht & _ & Hk & Hn). rewrite bytes_ok_app, bytes_ok_cons, bytes_ok_app, !bytes_ok_cons.
    unfold byte_ok. repeat split; auto using der_tag_bytes; lia.
Qed.

Lemma primitive_tag_ok tag : tag_ok tag -> tag_ok (primitive_tag tag).
Proof.
  unfold tag_ok, primitive_tag. intros Ht. split; [apply Z.land_nonneg; lia|].
  rewrite <- (Z.mod_small tag (2 ^ 32)) by lia. rewrite <- land_mask by lia.
  rewrite <- Z.land_assoc, (Z.land_comm (2 ^ 32 - 1)), Z.land_assoc, land_mask by lia.
  apply Z.mod_pos_bound. lia.
Qed.

Section Convert.
Context `{Malloc}.

(** What a round of the loop does with the contents of an element. *)
Definition convert_contents (fuel out : nat) (child_string_tag depth : Z) (e : element) (cin : CBS)
  : M cbb_st CBS :=
  if looks_indefinite e then cbs_convert_ber fuel out child_string_tag true (depth + 1) cin
  else
    match CBS_skip (el_header_len e) (el_out e) with
    | (None, _) => fail
    | (Some _, contents) =>
      if constructed (el_tag e) then
        let* _ := cbs_convert_ber fuel out child_string_tag false (depth + 1) contents in ret cin
      else let* _ := CBB_add_bytes out contents in ret cin
    end.

Lemma convert_round fuel out st eoc depth cin e rest :
  depth <= kMaxDepth -> CBS_get_any_ber_asn1_element cin = (Some e, rest) -> 0 < zlen cin ->
  is_eoc (el_header_len e) (el_out e) = false ->
  cbs_convert_ber (S fuel) out st eoc depth cin =
  (let* out_contents :=
     (if negb (st =? 0) then check (primitive_tag (el_tag e) =? st) in ret out
      else let* _ := CBB_add_asn1 out (if constructed (el_tag e) && is_string_type (el_tag e)
                                       then primitive_tag (el_tag e) else el_tag e) in ret (S out)) in
   let* cin := convert_contents fuel out_contents (child_tag st (el_tag e)) depth e rest in
   let* _ := CBB_flush out in
   cbs_convert_ber fuel out st eoc depth cin).
Proof.
  intros Hd Hg Hl He. cbn [cbs_convert_ber]. rewrite (proj2 (Z.ltb_ge kMaxDepth depth)) by lia.
  unfold CBS_len at 1. rewrite (proj2 (Z.ltb_lt 0 (zlen cin))) by lia. cbn [negb].
  rewrite Hg, He. unfold child_tag, convert_contents, looks_indefinite, constructed.
  destruct (negb (Z.land (el_tag e) CBS_ASN1_CONSTRUCTED =? 0) && is_string_type (el_tag e));
    reflexivity.
Qed.

Lemma round_yields fuel d st eoc depth cin e rest after final o1 o2 :
  depth <= kMaxDepth -> CBS_get_any_ber_asn1_element cin = (Some e, rest) -> 0 < zlen cin ->
  is_eoc (el_header_len e) (el_out e) = false -> tag_ok (el_tag e) ->
  (forall d', yields d' (convert_contents fuel d' (child_tag st (el_tag e)) depth e rest) after o1) ->
  yields d (cbs_convert_ber fuel d st eoc depth after) final o2 ->
  yields d (cbs_convert_ber (S fuel) d st eoc depth cin) final
    (oapp (convert_element st (el_tag e) o1) o2).
Proof.
  intros Hd Hg Hl He Ht Hc Hn. erewrite convert_round by eassumption. unfold convert_element.
  assert (Hrest : yields d (let* _ := CBB_flush d in
      cbs_convert_ber fuel d st eoc depth after) final o2).
  { eapply yields_ext with (o' := oapp (Some []) o2); [reflexivity|destruct o2; reflexivity|].
    eapply yields_bind; [apply writes_yields, appends_writes, CBB_flush_appends|exact Hn]. }
  destruct (negb (st =? 0)).
  - destruct (primitive_tag (el_tag e) =? st).
    + eapply yields_ext with (o' := oapp (Some []) (oapp o1 o2)); [reflexivity| |].
      { destruct o1, o2; reflexivity. }
      eapply yields_bind; [apply (yields_ret d d)|]. eapply yields_bind; [apply Hc|apply Hrest].
    + eapply yields_ext with (o' := oapp None (oapp o1 o2)); [reflexivity|reflexivity|].
      eapply yields_bind; [apply (yields_fail d d)|]. eapply yields_bind; [apply Hc|apply Hrest].
  - set (t := if constructed _ && _ then _ else _).
    eapply yields_ext with (m' := let* r := (let* _ := CBB_add_asn1 d t in
        convert_contents fuel (S d) (child_tag st (el_tag e)) depth e rest) in
      let* _ := CBB_flush d in cbs_convert_ber fuel d st eoc depth r); [|reflexivity|].
    + intros c. rewrite !bind_bind. reflexivity.
    + eapply yields_bind; [apply CBB_add_asn1_yields|apply Hrest]; [|apply Hc].
      unfold t. destruct (_ && _); auto using primitive_tag_ok.
Qed.

Lemma height_nonneg f : 0 <= height f.
Proof. induction f; cbn [height]; lia. Qed.

Definition eoc_tail (eoc : bool) (rest : list Z) : list Z := if eoc then 0 :: 0 :: rest else [].

Lemma eoc_tail_bytes eoc rest : bytes_ok rest -> bytes_ok (eoc_tail eoc rest).
Proof. intros Hr. destruct eoc; repeat constructor; auto; lia. Qed.

Lemma convert_done fuel d st (eoc : bool) depth rest :
  depth <= kMaxDepth -> bytes_ok rest -> (length (eoc_tail eoc rest) < fuel)%nat ->
  yields d (cbs_convert_ber fuel d st eoc depth (eoc_tail eoc rest)) (if eoc then rest else []) (Some []).
Proof.
  intros Hd Hr Hf. destruct fuel as [|fuel]; [lia|]. cbn [cbs_convert_ber].
  rewrite (proj2 (Z.ltb_ge kMaxDepth depth)) by lia. destruct eoc; cbn [eoc_tail].
  - unfold CBS_len at 1. rewrite !zlen_cons. pose proof (zlen_nonneg rest).
    rewrite (proj2 (Z.ltb_lt 0 _)) by lia. cbn [negb]. rewrite get_eoc by exact Hr.
    change (is_eoc _ _) with true. apply yields_ret.
  - apply yields_ret.
Qed.

Lemma encode_front tag lo body next tail :
  (der_tag tag ++ lo ++ body ++ next) ++ tail = der_tag tag ++ lo ++ body ++ (next ++ tail).
Proof. rewrite <- !app_assoc. reflexivity. Qed.

Lemma front_len tag (lo body r : list Z) : (1 <= zlen lo)%Z ->
  (length r < length (der_tag tag ++ lo ++ body ++ r))%nat /\
  (length body < length (der_tag tag ++ lo ++ body ++ r))%nat.
Proof.
  intros Hl. pose proof (der_tag_len tag) as Ht. unfold zlen in *. rewrite !length_app. lia.
Qed.

Lemma convert_yields f fuel d st (eoc : bool) depth rest :
  forest_ok f -> bytes_ok rest -> (length (encode f ++ eoc_tail eoc rest) < fuel)%nat ->
  depth + height f <= kMaxDepth ->
  yields d (cbs_convert_ber fuel d st eoc depth (encode f ++ eoc_tail eoc rest))
    (if eoc then rest else []) (convert st f).
Proof.
  revert fuel d st eoc depth rest.
  induction f as [|tag lo body next IH|tag lo kids IHk next IHn|tag kids IHk next IHn];
    intros fuel d st eoc depth rest Hok Hr Hf Hh; cbn [encode forest_ok height convert] in *.
  - cbn [app] in *. apply convert_done; auto. lia.
  - destruct Hok as (Ht & Hc & Hl & Hb & Hne & Hok). rewrite encode_front in *.
    pose proof (length_octets_nonempty _ _ Hl) as Hlo. pose proof (length_octets_ok _ _ Hl) as [_ Hlen].
    assert (Hnb : bytes_ok (encode next ++ eoc_tail eoc rest))
      by (apply bytes_ok_app; auto using encode_bytes, eoc_tail_bytes).
    destruct fuel as [|fuel]; [lia|].
    pose proof (front_len tag lo body (encode next ++ eoc_tail eoc rest) Hlo) as [Hfl _].
    eapply (round_yields fuel d st eoc depth _ (definite tag lo body) _ _ _ (Some body) (convert st next)); [|apply get_definite; assumption| | |exact Ht| |apply IH; auto; lia].
    + pose proof (height_nonneg next). lia.
    + unfold zlen. lia.
    + destruct (is_eoc _ _) eqn:E; [|reflexivity]. apply eoc_definite in E; tauto.
    + intros d'. unfold convert_contents. rewrite looks_indefinite_definite by exact Hl.
      rewrite skip_definite. cbn [definite el_tag]. rewrite Hc.
      eapply yields_ext with (o' := oapp (Some body) (Some [])); [reflexivity|symmetry; apply oapp_nil|].
      eapply yields_bind; [|apply yields_ret].
      apply writes_yields, appends_writes, CBB_add_bytes_appends. lia.
  - destruct Hok as (Ht & Hc & Hl & Hk & Hok). rewrite encode_front in *.
    pose proof (length_octets_nonempty _ _ Hl) as Hlo. pose proof (encode_bytes _ Hk) as Hb.
    assert (Hnb : bytes_ok (encode next ++ eoc_tail eoc rest))
      by (apply bytes_ok_app; auto using encode_bytes, eoc_tail_bytes).
    destruct fuel as [|fuel]; [lia|].
    pose proof (front_len tag lo (encode kids) (encode next ++ eoc_tail eoc rest) Hlo) as [Hfl Hfk].
    eapply (round_yields fuel d st eoc depth _ (definite tag lo (encode kids)) _ _ _
      (convert (child_tag st tag) kids) (convert st next)); [|apply get_definite; assumption| | |exact Ht| |apply IHn; auto; lia].
    + pose proof (height_nonneg next). lia.
    + unfold zlen. lia.
    + destruct (is_eoc _ _) eqn:E; [|reflexivity]. apply eoc_definite in E as [E _]; [|exact Ht|exact Hl].
      destruct (constructed_0 tag Hc E).
    + intros d'. unfold convert_contents. rewrite looks_indefinite_definite by exact Hl.
      rewrite skip_definite. cbn [definite el_tag]. rewrite Hc.
      eapply yields_ext with (o' := oapp (convert (child_tag st tag) kids) (Some []));
        [reflexivity|symmetry; apply oapp_nil|].
      eapply yields_bind; [|apply yields_ret].
      specialize (IHk fuel d' (child_tag st tag) false (depth + 1) []). rewrite app_nil_r in IHk.
      apply IHk; auto with bytes; lia.
  - destruct Hok as (Ht & Hc & Hk & Hok). pose proof (encode_bytes _ Hk) as Hb.
    rewrite <- app_assoc in *. cbn [app] in *. rewrite <- app_assoc in *. cbn [app] in *.
    set (after := encode next ++ eoc_tail eoc rest) in *.
    assert (Hnb : bytes_ok after) by (apply bytes_ok_app; auto using encode_bytes, eoc_tail_bytes).
    pose proof (der_tag_len tag) as Htl. unfold zlen in Htl.
    destruct fuel as [|fuel]; [lia|]. rewrite length_app in Hf. cbn [length] in Hf.
    rewrite length_app in Hf. cbn [length] in Hf.
    eapply (round_yields fuel d st eoc depth _ (indefinite tag) _ _ _
      (convert (child_tag st tag) kids) (convert st next)); [|apply get_indefinite; auto| |apply eoc_indefinite|exact Ht| |apply IHn; auto; fold after; lia].
    + pose proof (height_nonneg next). lia.
    + rewrite bytes_ok_app, !bytes_ok_cons. unfold byte_ok. repeat split; auto; lia.
    + autorewrite with zlen. unfold zlen. lia.
    + intros d'. unfold convert_contents. rewrite looks_indefinite_indefinite.
      apply (IHk fuel d' (child_tag st tag) true (depth + 1) after); auto; [|lia].
      cbn [eoc_tail]. rewrite length_app. cbn [length]. lia.
Qed.

(** * It accepts nothing else *)

Lemma convert_contents_inv fuel out st depth tag lo body cin c a c' :
  length_octets lo (zlen body) ->
  convert_contents fuel out st depth (definite tag lo body) cin c = (Some a, c') ->
  a = cin /\ (constructed tag = true -> exists b c1,
    cbs_convert_ber fuel out st false (depth + 1) body c = (Some b, c1)).
Proof.
  intros Hl E. unfold convert_contents in E. rewrite looks_indefinite_definite in E by exact Hl.
  rewrite skip_definite in E. cbn [definite el_tag] in E. destruct (constructed tag); run_inv;
    (split; [reflexivity|]); [eauto|discriminate].
Qed.

(** What the parser found, and what the two recursive calls accepted. *)
Lemma convert_sound_round tag e depth (eoc : bool) cin rest after final :
  bytes_ok cin -> tag_ok tag -> is_eoc (el_header_len e) (el_out e) = false -> depth <= kMaxDepth ->
  (exists f r, forest_ok f /\ after = encode f ++ eoc_tail eoc r /\ final = (if eoc then r else []) /\
               depth + height f <= kMaxDepth) ->
  (constructed tag = true /\ e = indefinite tag /\ cin = der_tag tag ++ 128 :: rest /\
   exists k, forest_ok k /\ rest = encode k ++ eoc_tail true after /\ depth + 1 + height k <= kMaxDepth) \/
  (exists lo body, length_octets lo (zlen body) /\ bytes_ok body /\ e = definite tag lo body /\
     cin = der_tag tag ++ lo ++ body ++ after /\
     (constructed tag = true -> exists k, forest_ok k /\ body = encode k /\ depth + 1 + height k <= kMaxDepth)) ->
  exists f r, forest_ok f /\ cin = encode f ++ eoc_tail eoc r /\ final = (if eoc then r else []) /\
              depth + height f <= kMaxDepth.
Proof.
  intros Hb Ht He Hd (f & r & Hf & Ea & Er & Hh) [(Hc & -> & -> & k & Hk & -> & Hhk)|(lo & body & Hl & Hbo & -> & -> & Hcons)].
  - exists (Indef tag k f), r. cbn [forest_ok encode height]. split; [auto|]. split; [|split; [exact Er|lia]].
    rewrite Ea, <- app_assoc. cbn [app eoc_tail]. rewrite <- app_assoc. reflexivity.
  - destruct (constructed tag) eqn:Hc.
    + destruct (Hcons eq_refl) as (k & Hk & -> & Hhk). exists (Cons tag lo k f), r.
      cbn [forest_ok encode height]. split; [auto|]. split; [rewrite Ea, <- !app_assoc; reflexivity|].
      split; [exact Er|lia].
    + exists (Prim tag lo body f), r. cbn [forest_ok encode height]. split.
      * split_and!; auto. intros Heoc. apply (eoc_definite tag lo body Ht Hl) in Heoc. congruence.
      * split; [rewrite Ea, <- !app_assoc; reflexivity|]. auto.
Qed.

Lemma convert_sound fuel d st (eoc : bool) depth cin c a c' :
  bytes_ok cin -> cbs_convert_ber fuel d st eoc depth cin c = (Some a, c') ->
  exists f r, forest_ok f /\ cin = encode f ++ eoc_tail eoc r /\ a = (if eoc then r else []) /\
              depth + height f <= kMaxDepth.
Proof.
  revert d st eoc depth cin c a c'.
  induction fuel as [|fuel IH]; intros d st eoc depth cin c a c' Hb E; pose proof E as E0;
    cbn [cbs_convert_ber] in E; unfold fail in E;
    destruct (Z.ltb_spec kMaxDepth depth); try discriminate;
    (destruct (Z.ltb_spec 0 (CBS_len cin)) as [Hl|Hl]; cbn [negb] in E;
     [|assert (cin = []) as -> by (apply zlen_0; unfold CBS_len in Hl; pose proof (zlen_nonneg cin); lia);
       run_inv; destruct eoc; [discriminate|]; exists Done, []; cbn [height forest_ok]; split_and!; auto; lia]);
    [discriminate|].
  destruct (CBS_get_any_ber_asn1_element cin) as [[e|] rest] eqn:Eg; [|discriminate].
  pose proof (get_any_ber_inv _ _ _ Hb Eg) as (tag & Ht & Hform).
  assert (Htag : el_tag e = tag) by (destruct Hform as [(_ & -> & _)|(? & ? & _ & _ & -> & _)]; reflexivity).
  assert (Hrest : bytes_ok rest).
  { destruct Hform as [(_ & _ & ->)|(lo & body & _ & _ & _ & ->)];
      rewrite ?bytes_ok_app, ?bytes_ok_cons in Hb; tauto. }
  destruct (is_eoc (el_header_len e) (el_out e)) eqn:Ee.
  - apply guard_inv in E as [-> E]. unfold ret in E. injection E as -> _. exists Done, a. cbn [encode eoc_tail app height].
    split; [exact I|]. split; [|split; [reflexivity|lia]].
    destruct Hform as [(_ & -> & _)|(lo & body & Hlo & _ & -> & ->)]; [rewrite eoc_indefinite in Ee; discriminate|].
    pose proof Ee as Ee'. apply eoc_definite in Ee' as [-> ->]; auto.
    apply eoc_bytes in Ee as [_ Ee]. cbn [definite el_out] in Ee. injection Ee as ->. reflexivity.
  - rewrite (convert_round _ _ _ _ _ _ _ _ H0 Eg Hl Ee) in E0.
    apply bind_inv in E0 as (oc & c1 & _ & E0). apply bind_inv in E0 as (after & c2 & E1 & E0).
    apply bind_inv in E0 as ([] & c3 & _ & E0). rewrite Htag in E1.
    destruct Hform as [(Hc & -> & ->)|(lo & body & Hlo & Hbo & -> & ->)].
    + unfold convert_contents in E1. rewrite looks_indefinite_indefinite in E1.
      apply IH in E1 as (k & r & Hk & -> & -> & Hhk); [|exact Hrest].
      apply bytes_ok_app in Hrest as [_ Hr]. cbn [eoc_tail] in Hr. rewrite !bytes_ok_cons in Hr.
      apply IH in E0; [|tauto].
      apply (convert_sound_round tag (indefinite tag) depth eoc _ (encode k ++ eoc_tail true r) r a); auto.
      left. split_and!; auto. exists k. auto.
    + apply convert_contents_inv in E1 as [-> Hcons]; [|exact Hlo].
      apply IH in E0; [|exact Hrest].
      apply (convert_sound_round tag (definite tag lo body) depth eoc _ rest rest a); auto.
      right. exists lo, body. split_and!; auto. intros Hc. destruct (Hcons Hc) as (b & c4 & E4).
      apply IH in E4 as (k & r & Hk & E4 & _ & Hhk); [|exact Hbo]. cbn [eoc_tail] in E4.
      rewrite app_nil_r in E4. exists k. auto.
Qed.
End Convert.

(** * Looking for BER *)

(** What [cbs_find_ber] reports: its flag is overwritten by the element after a
    constructed one. *)
Fixpoint flag (f : forest) : bool :=
  match f with
  | Done => false
  | Prim _ lo _ next => nonminimal lo || flag next
  | Cons tag lo kids next =>
      nonminimal lo || is_string_type tag || match next with Done => flag kids | _ => flag next end
  | Indef _ _ _ => true
  end.

(** What its comment promises: there is something for [convert] to change. *)
Fixpoint has_ber (f : forest) : bool :=
  match f with
  | Done => false
  | Prim _ lo _ next => nonminimal lo || has_ber next
  | Cons tag lo kids next => nonminimal lo || is_string_type tag || has_ber kids || has_ber next
  | Indef _ _ _ => true
  end.

Lemma flag_has_ber f : flag f = true -> has_ber f = true.
Proof.
  induction f as [|tag lo body next IH|tag lo kids IHk next IHn|tag kids IHk next IHn]; cbn [flag has_ber]; auto.
  - rewrite !orb_true_iff. tauto.
  - rewrite !orb_true_iff. destruct next; tauto.
Qed.

Lemma find_loop f fuel b depth :
  forest_ok f -> (length (encode f) <= fuel)%nat -> depth + height f <= kMaxDepth ->
  cbs_find_ber_loop fuel (encode f) b depth = Some (match f with Done => b | _ => flag f end).
Proof.
  revert fuel b depth.
  induction f as [|tag lo body next IH|tag lo kids IHk next IHn|tag kids IHk next IHn];
    intros fuel b depth Hok Hf Hh; cbn [encode forest_ok height flag] in *.
  - destruct fuel; reflexivity.
  - destruct Hok as (Ht & Hc & Hl & Hb & _ & Hok). pose proof (length_octets_nonempty _ _ Hl) as Hlo.
    pose proof (front_len tag lo body (encode next) Hlo) as [Hfl _]. destruct fuel as [|fuel]; [lia|].
    cbn [cbs_find_ber_loop]. unfold CBS_len, zlen at 1. rewrite (proj2 (Z.ltb_lt 0 _)) by lia. cbn [negb].
    rewrite get_definite by auto using encode_bytes. cbn [definite el_ber_found el_tag].
    destruct (nonminimal lo); [reflexivity|]. unfold constructed in Hc. rewrite Hc. cbn [orb].
    rewrite IH by (auto; lia). destruct next; reflexivity.
  - destruct Hok as (Ht & Hc & Hl & Hk & Hok). pose proof (length_octets_nonempty _ _ Hl) as Hlo.
    pose proof (front_len tag lo (encode kids) (encode next) Hlo) as [Hfl Hfk]. destruct fuel as [|fuel]; [lia|].
    cbn [cbs_find_ber_loop]. unfold CBS_len, zlen at 1. rewrite (proj2 (Z.ltb_lt 0 _)) by lia. cbn [negb].
    rewrite get_definite by auto using encode_bytes. rewrite skip_definite.
    cbn [definite el_ber_found el_tag].
    destruct (nonminimal lo); [reflexivity|]. unfold constructed in Hc. rewrite Hc. cbn [orb].
    destruct (is_string_type tag); [reflexivity|]. pose proof (height_nonneg kids).
    rewrite (proj2 (Z.ltb_ge kMaxDepth (depth + 1))) by lia.
    rewrite IHk by (auto; lia). replace (match kids with Done => false | _ => flag kids end) with (flag kids)
      by (destruct kids; reflexivity).
    rewrite IHn by (auto; lia). reflexivity.
  - destruct Hok as (Ht & Hc & Hk & Hok). rewrite length_app in Hf. cbn [length] in Hf.
    destruct fuel as [|fuel]; [lia|].
    cbn [cbs_find_ber_loop]. unfold CBS_len, zlen at 1. rewrite length_app. cbn [length].
    rewrite (proj2 (Z.ltb_lt 0 _)) by lia. cbn [negb]. rewrite get_indefinite; auto.
    rewrite bytes_ok_app, !bytes_ok_cons. unfold byte_ok. repeat split; auto using encode_bytes; lia.
Qed.

Lemma cbs_find_ber_flag f :
  forest_ok f -> height f <= kMaxDepth -> cbs_find_ber (encode f) 0 = Some (flag f).
Proof.
  intros Hok Hh. unfold cbs_find_ber. change (kMaxDepth <? 0) with false. cbv iota.
  rewrite find_loop by (auto; lia). destruct f; reflexivity.
Qed.

(** * What comes out *)

(** DER, as far as lengths and constructed strings go: shortest definite lengths,
    and no string in pieces. *)
Inductive der_list : list Z -> Prop :=
| der_nil : der_list []
| der_prim tag body next :
    tag_ok tag -> constructed tag = false -> zlen body < 2 ^ 32 ->
    der_list next -> der_list (der tag body ++ next)
| der_cons tag kids next :
    tag_ok tag -> constructed tag = true -> is_string_type tag = false -> zlen kids < 2 ^ 32 ->
    der_list kids -> der_list next -> der_list (der tag kids ++ next).

Lemma constructed_primitive tag : constructed (primitive_tag tag) = false.
Proof.
  unfold constructed, primitive_tag.
  replace (Z.land (Z.land tag (u32 (Z.lnot CBS_ASN1_CONSTRUCTED))) CBS_ASN1_CONSTRUCTED) with 0; [reflexivity|].
  rewrite <- Z.land_assoc. change (Z.land _ CBS_ASN1_CONSTRUCTED) with 0. symmetry. apply Z.land_0_r.
Qed.

(** An element with children, in [convert 0]. *)
Lemma convert_constructed tag kids x next :
  tag_ok tag -> constructed tag = true ->
  (forall out, convert 0 kids = Some out -> der_list out) ->
  convert_element 0 tag (convert (child_tag 0 tag) kids) = Some x ->
  der_list next -> der_list (x ++ next).
Proof.
  intros Ht Hc Hk E Hn. unfold convert_element, child_tag in E. cbn [Z.eqb negb] in E. rewrite Hc in E.
  cbn [andb] in E. apply element_bytes_inv in E as (s & Es & Hs & ->). destruct (is_string_type tag) eqn:Hst.
  - apply der_prim; auto using primitive_tag_ok, constructed_primitive.
  - apply der_cons; auto.
Qed.

Lemma convert_der f out : forest_ok f -> convert 0 f = Some out -> der_list out.
Proof.
  revert out.
  induction f as [|tag lo body next IH|tag lo kids IHk next IHn|tag kids IHk next IHn];
    cbn [forest_ok convert]; intros out Hok E.
  - injection E as <-. constructor.
  - destruct Hok as (Ht & Hc & _ & _ & _ & Hn). apply oapp_inv in E as (x & y & Ex & Ey & ->).
    unfold convert_element in Ex. cbn [Z.eqb negb] in Ex. rewrite Hc in Ex. cbn [andb] in Ex.
    apply element_bytes_inv in Ex as (s & Es & Hs & ->). injection Es as <-. apply der_prim; auto.
  - destruct Hok as (Ht & Hc & _ & Hk & Hn). apply oapp_inv in E as (x & y & Ex & Ey & ->).
    eapply convert_constructed; eauto.
  - destruct Hok as (Ht & Hc & Hk & Hn). apply oapp_inv in E as (x & y & Ex & Ey & ->).
    eapply convert_constructed; eauto.
Qed.

(** The first element of a forest and the others. *)
Definition first_element (f : forest) : list Z :=
  match f with
  | Done => []
  | Prim tag lo body _ => der_tag tag ++ lo ++ body
  | Cons tag lo kids _ => der_tag tag ++ lo ++ encode kids
  | Indef tag kids _ => der_tag tag ++ 128 :: encode kids ++ [0; 0]
  end.
Definition others (f : forest) : forest :=
  match f with Done => Done | Prim _ _ _ n => n | Cons _ _ _ n => n | Indef _ _ n => n end.

Lemma minimal_octets lo n : length_octets lo n -> nonminimal lo = false -> lo = der_length n.
Proof.
  intros [[-> Hn]|(bs & -> & Hk & Hb & Hv)] Hm.
  - unfold der_length. rewrite (proj2 (Z.ltb_lt n 128)) by lia. reflexivity.
  - unfold nonminimal in Hm. cbn [tail] in Hm. pose proof (be_val_bound bs Hb) as Hbv.
    destruct bs as [|b bs]; [autorewrite with zlen in Hk; lia|]. apply orb_false_iff in Hm as [H1 H2].
    apply Z.ltb_ge in H1, H2. rewrite Hv in *.
    rewrite (der_length_long n (zlen (b :: bs))) by lia. f_equal. rewrite <- Hv.
    rewrite <- (be_bytes_val _ Hb) at 1. f_equal. unfold zlen. lia.
Qed.

(** Without BER at the top, the first element is DER. *)
Lemma first_element_der f :
  forest_ok f -> f <> Done -> flag f = false ->
  exists e, CBS_get_any_asn1_element (encode f) = (Some e, encode (others f)) /\ el_out e = first_element f.
Proof.
  intros Hok Hne Hf. assert (Hshape : exists tag lo body, tag_ok tag /\ length_octets lo (zlen body) /\
    bytes_ok body /\ nonminimal lo = false /\ encode f = der_tag tag ++ lo ++ body ++ encode (others f) /\
    first_element f = der_tag tag ++ lo ++ body /\ forest_ok (others f)).
  { destruct f as [|tag lo body next|tag lo kids next|tag kids next]; cbn [flag forest_ok] in *; try congruence.
    - apply orb_false_iff in Hf as [Hf _]. exists tag, lo, body. tauto.
    - rewrite !orb_false_iff in Hf. exists tag, lo, (encode kids).
      destruct Hok as (? & ? & ? & ? & ?). split_and!; auto using encode_bytes; tauto. }
  destruct Hshape as (tag & lo & body & Ht & Hl & Hb & Hm & -> & -> & Hn).
  pose proof (length_octets_ok _ _ Hl) as [_ Hlen]. rewrite (minimal_octets lo _ Hl Hm).
  exists (der_element tag body). split.
  - rewrite !app_assoc. apply element_complete; auto using encode_bytes. lia.
  - cbn [der_element el_out]. unfold der, der_header. rewrite <- app_assoc. reflexivity.
Qed.

Section Top.
Context `{Malloc}.

Definition finished {A} (m : M cbb_st A) (c : cbb_st) : option (list Z * A) :=
  match m c with
  | (Some a, c) =>
    match CBB_finish 0 true true c with (Some (p, k), _) => Some (ztake k p, a) | (None, _) => None end
  | (None, _) => None
  end.

Lemma yields_finish {A} (m : M cbb_st A) a o n h c :
  yields 0 m a o -> 0 <= n < 2 ^ 64 -> CBB_init n h = (true, c) ->
  match finished m c with
  | Some (out, r) => r = a /\ o = Some out
  | None => forall bs lim, o = Some bs -> grants lim -> 2 * zlen bs + 8 <= lim < 2 ^ 64 -> False
  end.
Proof.
  intros Hm Hn E. apply CBB_init_fresh in E as (p & Hp & Hf); [|exact Hn].
  assert (Hw : forall N, rests N [] [] c -> match finished m c with
    | Some (out, r) => r = a /\ o = Some out | None => too_long N o end).
  { intros N Hr. specialize (Hm N [] _ c eq_refl (rests_shows _ _ _ _ Hr)). unfold finished.
    replace (oapp (Some []) o) with o in Hm by (destruct o; reflexivity).
    destruct (m c) as [[r|] c1]; [|exact Hm]. destruct Hm as [-> Hm]. apply CBB_finish_shows in Hm.
    destruct (CBB_finish 0 true true c1) as [[[q k]|] c2]; [|exact Hm]. split; [reflexivity|tauto]. }
  assert (Hr : rests (-1) [] [] c) by (apply (fresh_rests _ _ p true Hf); [lia|]; left; pose proof (zlen_nonneg p); lia).
  pose proof (Hw (-1) Hr) as H1. destruct (finished m c) as [[out r]|]; [exact H1|].
  intros bs lim Hbs G Hl. assert (Hr2 : rests (zlen bs) [] [] c).
  { apply (fresh_rests _ _ p true Hf); [lia|]. right. split; [reflexivity|]. split; [|lia].
    intros h' k Hk. apply G. lia. }
  specialize (Hw (zlen bs) Hr2 bs Hbs). lia.
Qed.

Lemma encode_convert f :
  forest_ok f -> height f <= kMaxDepth ->
  yields 0 (cbs_convert_ber (S (length (encode f))) 0 0 false 0 (encode f)) [] (convert 0 f).
Proof.
  intros Hok Hh. pose proof (convert_yields f (S (length (encode f))) 0 0 false 0 []) as Hc.
  cbn [eoc_tail] in Hc. rewrite app_nil_r in Hc. apply Hc; auto with bytes; lia.
Qed.

Lemma ber_to_der_eq cin h :
  CBS_asn1_ber_to_der cin h =
  match cbs_find_ber cin 0 with
  | None => None
  | Some false =>
    match CBS_get_any_asn1_element cin with
    | (None, _) => None
    | (Some e, rest) => Some (el_out e, false, rest)
    end
  | Some true =>
    match CBB_init (CBS_len cin) h with
    | (false, _) => None
    | (true, c) =>
      match finished (cbs_convert_ber (S (length cin)) 0 0 false 0 cin) c with
      | Some (out, rest) => Some (out, true, rest)
      | None => None
      end
    end
  end.
Proof.
  unfold CBS_asn1_ber_to_der, finished, bind, ret. destruct (cbs_find_ber cin 0) as [[]|]; try reflexivity.
  destruct (CBB_init (CBS_len cin) h) as [[] c]; [|reflexivity].
  destruct (cbs_convert_ber _ _ _ _ _ _ c) as [[r|] c1]; [|reflexivity].
  destruct (CBB_finish 0 true true c1) as [[[p k]|] c2]; reflexivity.
Qed.

(** The input of a conversion that succeeds is a forest. *)
Lemma converted_forest cin h out rest :
  bytes_ok cin -> CBS_asn1_ber_to_der cin h = Some (out, true, rest) ->
  cbs_find_ber cin 0 = Some true /\
  exists f, forest_ok f /\ height f <= kMaxDepth /\ cin = encode f.
Proof.
  intros Hb E. rewrite ber_to_der_eq in E. destruct (cbs_find_ber cin 0) as [[]|]; [|..].
  - split; [reflexivity|]. destruct (CBB_init (CBS_len cin) h) as [[] c]; [|discriminate].
    unfold finished in E. destruct (cbs_convert_ber _ _ _ _ _ _ c) as [[r|] c1] eqn:Ec; [|discriminate].
    apply convert_sound in Ec as (f & r0 & Hf & -> & _ & Hh); [|exact Hb].
    cbn [eoc_tail]. rewrite app_nil_r. exists f. split_and!; auto; lia.
  - destruct (CBS_get_any_asn1_element cin) as [[e|] r]; discriminate.
  - discriminate.
Qed.

(** What is written into new storage is the conversion of the whole input. *)
Lemma converted_output f h out own rest :
  forest_ok f -> height f <= kMaxDepth -> zlen (encode f) < 2 ^ 64 -> flag f = true ->
  CBS_asn1_ber_to_der (encode f) h = Some (out, own, rest) ->
  convert 0 f = Some out /\ own = true /\ rest = [].
Proof.
  intros Hok Hh Hlen Hf E. pose proof (encode_convert f Hok Hh) as Hy.
  pose proof (zlen_nonneg (encode f)) as H0. rewrite ber_to_der_eq in E. unfold CBS_len in E.
  rewrite cbs_find_ber_flag, Hf in E by assumption.
  destruct (CBB_init (zlen (encode f)) h) as [[] c] eqn:E0; [|discriminate].
  pose proof (yields_finish _ _ _ _ _ _ Hy (conj H0 Hlen) E0) as W.
  destruct (finished _ c) as [[o r]|]; [|discriminate]. injection E as -> <- <-. tauto.
Qed.
End Top.

(** * Properties *)

(** Where an element is that has to be converted, so that the call notices it: it is of
    indefinite length, a constructed string, or has a length that is not in the
    shortest form, and each element around it is the last of its siblings. *)
Inductive noticed : forest -> Prop :=
| noticed_indefinite tag kids next : noticed (Indef tag kids next)
| noticed_length tag lo body next : nonminimal lo = true -> noticed (Prim tag lo body next)
| noticed_constructed tag lo kids next : nonminimal lo || is_string_type tag = true -> noticed (Cons tag lo kids next)
| noticed_inside tag lo kids : noticed kids -> noticed (Cons tag lo kids Done)
| noticed_after_prim tag lo body next : noticed next -> noticed (Prim tag lo body next)
| noticed_after_cons tag lo kids next : noticed next -> noticed (Cons tag lo kids next).

Lemma flag_noticed f : flag f = true <-> noticed f.
Proof.
  split.
  - induction f as [|tag lo body next IH|tag lo kids IHk next IHn|tag kids IHk next IHn]; cbn [flag]; [discriminate| | |constructor].
    + intros E. apply orb_prop in E as [E|E]; [apply noticed_length, E|apply noticed_after_prim, IH, E].
    + intros E. apply orb_prop in E as [E|E]; [apply noticed_constructed, E|].
      destruct next; [apply noticed_inside, IHk, E|apply noticed_after_cons, IHn, E..].
  - induction 1 as [| |tag lo kids next E| |tag lo body next _ IH|tag lo kids next _ IH]; cbn [flag]; rewrite ?IHnoticed, ?IH, ?orb_true_r; auto.
    + rewrite H. reflexivity.
    + rewrite E. reflexivity.
    + destruct next; [discriminate|apply orb_true_r..].
Qed.

(** C22: What becomes of any well-formed BER, of nesting depth at most 2048.  When there
    is something to convert that is [noticed] -- not inside of an element that another
    one follows -- the output is the DER of all the elements: definite minimal lengths,
    constructed strings put together; and with memory enough it is produced.  Without
    any such element the first element is returned as it is, without storage, and the
    input is advanced over it.  That is right for DER, where there is none; but BER
    that is not noticed is returned as it is as well. *)
Theorem CBS_asn1_ber_to_der_correct `{Malloc} (f : forest) (h : heap) :
  forest_ok f -> height f <= kMaxDepth -> zlen (encode f) < 2 ^ 64 ->
  (noticed f ->
     (forall out own rest, CBS_asn1_ber_to_der (encode f) h = Some (out, own, rest) ->
        convert 0 f = Some out /\ own = true /\ rest = []) /\
     (forall out lim, convert 0 f = Some out -> grants lim ->
        Z.max 40 (Z.max (zlen (encode f) + 8) (2 * zlen out + 8)) <= lim < 2 ^ 64 ->
        CBS_asn1_ber_to_der (encode f) h = Some (out, true, []))) /\
  (~ noticed f -> f <> Done ->
     CBS_asn1_ber_to_der (encode f) h = Some (first_element f, false, encode (others f))) /\
  (has_ber f = false -> ~ noticed f).
Proof.
  intros Hok Hh Hlen. pose proof (encode_convert f Hok Hh) as Hy. pose proof (zlen_nonneg (encode f)) as H0.
  split; [|split].
  - intros Hf. apply flag_noticed in Hf. split.
    + intros out own rest E. eapply converted_output; eassumption.
    + rewrite ber_to_der_eq. unfold CBS_len. rewrite cbs_find_ber_flag, Hf by assumption. intros out lim Ho G Hl. destruct (CBB_init_grants lim (zlen (encode f)) h G) as [c E0]; [lia|lia|lia|].
      rewrite E0. pose proof (yields_finish _ _ _ _ _ _ Hy (conj H0 Hlen) E0) as W.
      destruct (finished _ c) as [[o r]|].
      * destruct W as [-> Ho']. congruence.
      * destruct (W out lim Ho G). lia.
  - intros Hn Hne. unfold CBS_asn1_ber_to_der. rewrite cbs_find_ber_flag by assumption.
    destruct (flag f) eqn:Hf; [apply flag_noticed in Hf; contradiction|].
    destruct (first_element_der f Hok Hne Hf) as (e & -> & ->). reflexivity.
  - intros Hn Hf. apply flag_noticed, flag_has_ber in Hf. congruence.
Qed.

(** A SEQUENCE of indefinite length with a constructed OCTET STRING in it. *)
Definition ber_sample : forest :=
  Indef (CBS_ASN1_CONSTRUCTED + 16)
    (Cons (CBS_ASN1_CONSTRUCTED + 4) [8]
       (Prim 4 [2] [1; 2] (Prim 4 [129; 1] [3] Done))
       (Prim 2 [1] [9] Done)) Done.

Lemma short_octets n : 0 <= n < 128 -> length_octets [n] n.
Proof. left. auto. Qed.

Lemma long_octets n : 0 <= n < 256 -> length_octets [129; n] n.
Proof.
  intros Hn. right. exists [n]. split; [reflexivity|]. split; [split; easy|].
  split; [repeat constructor; lia|]. cbn. lia.
Qed.

Ltac forest_tac :=
  cbn [forest_ok encode]; split_and?;
  first [exact I | reflexivity | apply short_octets; split; easy | apply long_octets; split; easy
        | repeat constructor; easy | intros [? ?]; easy | split; easy | idtac].

Lemma ber_sample_ok : forest_ok ber_sample.
Proof. unfold ber_sample. forest_tac. Qed.

Lemma CBS_asn1_ber_to_der_correct_witness :
  encode ber_sample = [48; 128; 36; 8; 4; 2; 1; 2; 4; 129; 1; 3; 2; 1; 9; 0; 0] /\
  @CBS_asn1_ber_to_der unlimited (encode ber_sample) tt = Some ([48; 8; 4; 3; 1; 2; 3; 2; 1; 9], true, []).
Proof.
  split; [reflexivity|].
  apply (proj1 (@CBS_asn1_ber_to_der_correct unlimited ber_sample tt ber_sample_ok
    ltac:(vm_compute; discriminate) ltac:(vm_compute; reflexivity)) (noticed_indefinite _ _ _))
    with (lim := 1000).
  - vm_compute. reflexivity.
  - apply unlimited_grants.
  - vm_compute. split; discriminate || reflexivity.
Defined.

(** Storage is only returned for an input that is well-formed BER to its last
    byte, with no more than 2048 levels, and what it holds is DER: definite
    lengths in the shortest form, no constructed strings, the same elements. *)
Theorem CBS_asn1_ber_to_der_output_is_der `{Malloc} (cin out rest : list Z) (h : heap) :
  bytes_ok cin -> zlen cin < 2 ^ 64 ->
  CBS_asn1_ber_to_der cin h = Some (out, true, rest) ->
  der_list out /\ rest = [] /\
  exists f, forest_ok f /\ height f <= kMaxDepth /\ cin = encode f /\ convert 0 f = Some out.
Proof.
  intros Hb Hl E. pose proof (converted_forest _ _ _ _ Hb E) as (Hf & f & Hok & Hh & ->).
  rewrite cbs_find_ber_flag in Hf by assumption. injection Hf as Hf.
  apply converted_output in E as (Ho & _ & ->); auto.
  split; [eapply convert_der; eassumption|]. split; [reflexivity|]. exists f. auto.
Qed.

Lemma CBS_asn1_ber_to_der_output_is_der_witness :
  der_list [48; 8; 4; 3; 1; 2; 3; 2; 1; 9].
Proof.
  apply (@CBS_asn1_ber_to_der_output_is_der unlimited (encode ber_sample) _ [] tt).
  - apply encode_bytes, ber_sample_ok.
  - vm_compute. reflexivity.
  - vm_compute. reflexivity.
Defined.

(** The scan forgets what it found: BER inside a constructed element is missed
    whenever another element with nothing to convert follows, because the flag is
    overwritten.  The call then succeeds and hands back the BER unchanged. *)
Theorem CBS_asn1_ber_to_der_misses_nested_ber `{Malloc} (h : heap) (tag tag' : Z) (lo lo' : list Z) (f next : forest) :
  let input := Cons tag lo (Cons tag' lo' f next) Done in
  forest_ok input -> height input <= kMaxDepth ->
  nonminimal lo = false -> is_string_type tag = false ->
  nonminimal lo' = false -> is_string_type tag' = false ->
  next <> Done -> has_ber f = true -> has_ber next = false ->
  has_ber input = true /\
  cbs_find_ber (encode input) 0 = Some false /\
  CBS_asn1_ber_to_der (encode input) h = Some (encode input, false, []).
Proof.
  intros input Hok Hh Hm Hs Hm' Hs' Hne Hf Hn. assert (Hfl : flag input = false).
  { cbn [input flag]. rewrite Hm, Hs, Hm', Hs'. destruct (flag next) eqn:E; [apply flag_has_ber in E; congruence|].
    destruct next; [congruence|reflexivity..]. }
  assert (E : cbs_find_ber (encode input) 0 = Some false)
    by (rewrite cbs_find_ber_flag by assumption; rewrite Hfl; reflexivity).
  split; [cbn [input has_ber]; rewrite Hf, !orb_true_r; reflexivity|].
  split; [exact E|]. unfold CBS_asn1_ber_to_der. rewrite E.
  destruct (first_element_der input Hok) as (e & -> & ->); [discriminate|exact Hfl|].
  cbn [input first_element others encode]. rewrite !app_nil_r. reflexivity.
Qed.

(** An INTEGER whose length is not in the shortest form, and a NULL. *)
Lemma CBS_asn1_ber_to_der_misses_nested_ber_witness :
  @CBS_asn1_ber_to_der unlimited [48; 8; 48; 4; 2; 129; 1; 9; 5; 0] tt =
    Some ([48; 8; 48; 4; 2; 129; 1; 9; 5; 0], false, []).
Proof.
  apply (@CBS_asn1_ber_to_der_misses_nested_ber unlimited tt
    (CBS_ASN1_CONSTRUCTED + 16) (CBS_ASN1_CONSTRUCTED + 16) [8] [4]
    (Prim 2 [129; 1] [9] Done) (Prim 5 [0] [] Done));
    try reflexivity; [forest_tac|vm_compute; discriminate|discriminate].
Defined.

(** * Constructed strings with an implicit tag *)

(** The strings in pieces: each an element with the tag of the string type. *)
Definition pieces (tag : Z) (chunks : list (list Z)) : list Z := concat (map (der tag) chunks).
Definition piece_ok (tag : Z) (chunk : list Z) : Prop := tag_ok tag /\ zlen chunk < 2 ^ 32.

Lemma constructed_lor tag : constructed (Z.lor tag CBS_ASN1_CONSTRUCTED) = true.
Proof.
  unfold constructed. rewrite Z.land_lor_distr_l, Z.land_diag. destruct (Z.eqb_spec (Z.lor (Z.land tag CBS_ASN1_CONSTRUCTED) CBS_ASN1_CONSTRUCTED) 0) as [E|]; [|reflexivity].
  apply Z.lor_eq_0_iff in E as [_ E]. discriminate.
Qed.

Section Pieces.
Context `{Malloc}.

Lemma peek_der tag t body rest :
  tag_ok t -> CBS_peek_asn1_tag (der t body ++ rest) tag = (tag =? t).
Proof.
  intros Ht. unfold CBS_peek_asn1_tag, CBS_len, der, der_header. rewrite <- !app_assoc.
  pose proof (der_tag_len t). rewrite zlen_app.
  pose proof (zlen_nonneg (der_length (zlen body) ++ body ++ rest)).
  rewrite (proj2 (Z.ltb_ge _ 1)), parse_asn1_tag_complete by (assumption || lia). reflexivity.
Qed.

Lemma der_shrinks tag body rest : (length rest < length (der tag body ++ rest))%nat.
Proof.
  pose proof (der_tag_len tag) as Ht. unfold der, der_header, zlen in *. rewrite !length_app. lia.
Qed.

Lemma pieces_yields fuel tag chunks :
  bytes_ok (pieces tag chunks) -> Forall (piece_ok tag) chunks ->
  (length (pieces tag chunks) <= fuel)%nat ->
  yields 0 (implicit_string_loop fuel (pieces tag chunks) tag) tt (Some (concat chunks)).
Proof.
  revert fuel. induction chunks as [|ch chs IH]; intros fuel Hb Hc Hf.
  - destruct fuel; apply yields_ret.
  - unfold pieces in *. cbn [map concat] in *. apply List.Forall_cons_iff in Hc as [[Ht Hc] Hcs].
    apply bytes_ok_app in Hb as [Hb Hbs]. pose proof (der_shrinks tag ch (concat (map (der tag) chs))) as Hn.
    destruct fuel as [|fuel]; [lia|]. cbn [implicit_string_loop]. unfold CBS_len, zlen at 1.
    rewrite (proj2 (Z.ltb_lt 0 _)) by lia. cbn [negb].
    apply bytes_ok_app in Hb as [_ Hb]. rewrite CBS_get_asn1_complete by assumption.
    eapply yields_ext with (o' := oapp (Some ch) (Some (concat chs))); [reflexivity|reflexivity|].
    eapply yields_bind; [|apply IH; auto; lia].
    apply writes_yields, appends_writes, CBB_add_bytes_appends. lia.
Qed.

Lemma pieces_sound fuel child tag c r c' :
  bytes_ok child -> implicit_string_loop fuel child tag c = (Some r, c') ->
  exists chunks, child = pieces tag chunks /\ Forall (piece_ok tag) chunks.
Proof.
  revert child c. induction fuel as [|fuel IH]; intros child c Hb E; cbn [implicit_string_loop] in E;
    (destruct (Z.ltb_spec 0 (CBS_len child)) as [Hl|Hl]; cbn [negb] in E;
     [|exists []; split; [apply zlen_0; unfold CBS_len in Hl; pose proof (zlen_nonneg child); lia|constructor]]);
    [discriminate|].
  destruct (CBS_get_asn1 tag child) as [[chunk|] rest] eqn:Eg; [|discriminate].
  apply CBS_get_asn1_sound in Eg as (-> & Ht & Hbc & Hlc); [|exact Hb].
  apply bytes_ok_app in Hb as [_ Hr]. apply bind_inv in E as (x & c1 & _ & E).
  apply IH in E as (chunks & -> & Hc); [|exact Hr]. exists (chunk :: chunks). split; [reflexivity|].
  constructor; [split|]; assumption.
Qed.

Lemma implicit_eq cin outer inner h :
  CBS_get_asn1_implicit_string cin outer inner h =
  if CBS_peek_asn1_tag cin outer then
    match CBS_get_asn1 outer cin with
    | (None, _) => None
    | (Some out, rest) => Some (out, false, rest)
    end
  else
    match CBB_init (CBS_len cin) h, CBS_get_asn1 (Z.lor outer CBS_ASN1_CONSTRUCTED) cin with
    | (true, c), (Some child, rest) =>
      match finished (implicit_string_loop (length child) child inner) c with
      | Some (out, _) => Some (out, true, rest)
      | None => None
      end
    | _, _ => None
    end.
Proof.
  unfold CBS_get_asn1_implicit_string, finished, bind. destruct (CBS_peek_asn1_tag cin outer); [reflexivity|].
  destruct (CBB_init (CBS_len cin) h) as [[] c]; [|reflexivity].
  destruct (CBS_get_asn1 _ cin) as [[child|] rest]; [|reflexivity].
  destruct (implicit_string_loop _ _ _ c) as [[r|] c1]; [|reflexivity].
  destruct (CBB_finish 0 true true c1) as [[[p k]|] c2]; reflexivity.
Qed.
End Pieces.

(** An implicitly tagged string is read in either of its forms and in no other:
    primitive, as a view of the input, or constructed one level deep, as the
    pieces put together in new storage; with memory enough no such string is refused. *)
Theorem CBS_get_asn1_implicit_string_forms `{Malloc} (cin : list Z) (outer inner : Z) (h : heap) :
  bytes_ok cin -> zlen cin < 2 ^ 64 -> constructed outer = false ->
  (forall out own rest, CBS_get_asn1_implicit_string cin outer inner h = Some (out, own, rest) ->
     (own = false /\ cin = der outer out ++ rest) \/
     (own = true /\ exists chunks, cin = der (Z.lor outer CBS_ASN1_CONSTRUCTED) (pieces inner chunks) ++ rest /\
                                   out = concat chunks)) /\
  (forall out rest, tag_ok outer -> cin = der outer out ++ rest -> zlen out < 2 ^ 32 ->
     CBS_get_asn1_implicit_string cin outer inner h = Some (out, false, rest)) /\
  (forall chunks rest lim, tag_ok (Z.lor outer CBS_ASN1_CONSTRUCTED) ->
     cin = der (Z.lor outer CBS_ASN1_CONSTRUCTED) (pieces inner chunks) ++ rest ->
     zlen (pieces inner chunks) < 2 ^ 32 -> Forall (piece_ok inner) chunks ->
     grants lim -> Z.max 40 (Z.max (zlen cin + 8) (2 * zlen (concat chunks) + 8)) <= lim < 2 ^ 64 ->
     CBS_get_asn1_implicit_string cin outer inner h = Some (concat chunks, true, rest)).
Proof.
  intros Hb Hl Hc. rewrite implicit_eq. pose proof (zlen_nonneg cin) as H0. split_and!.
  - intros out own rest E. destruct (CBS_peek_asn1_tag cin outer).
    + destruct (CBS_get_asn1 outer cin) as [[o|] r] eqn:Eg; [|discriminate]. injection E as <- <- <-.
      left. apply CBS_get_asn1_sound in Eg; tauto.
    + destruct (CBB_init (CBS_len cin) h) as [[] c] eqn:E0; [|discriminate].
      destruct (CBS_get_asn1 _ cin) as [[child|] r] eqn:Eg; [|discriminate]. right.
      apply CBS_get_asn1_sound in Eg as (-> & Ht & Hbc & Hlc); [|exact Hb].
      destruct (finished _ c) as [[o u]|] eqn:Ef; [|discriminate]. injection E as <- <- <-.
      split; [reflexivity|]. pose proof Ef as Ef'. unfold finished in Ef'.
      destruct (implicit_string_loop _ _ _ c) as [[u'|] c1] eqn:El; [|discriminate].
      apply pieces_sound in El as (chunks & -> & Hcs); [|exact Hbc]. exists chunks. split; [reflexivity|].
      pose proof (yields_finish _ _ _ _ _ _ (pieces_yields _ _ _ Hbc Hcs (le_n _)) (conj H0 Hl) E0) as W.
      rewrite Ef in W. destruct W as [_ W]. injection W as ->. reflexivity.
  - intros out rest Ht -> Hlo. rewrite peek_der, Z.eqb_refl by exact Ht.
    rewrite !bytes_ok_app in Hb. destruct Hb as [Hb Hr]. rewrite CBS_get_asn1_complete; auto.
    apply bytes_ok_app in Hb. tauto.
  - intros chunks rest lim Ht -> Hlp Hcs G Hlim. rewrite peek_der by exact Ht.
    replace (outer =? Z.lor outer CBS_ASN1_CONSTRUCTED) with false.
    2: { symmetry. apply Z.eqb_neq. intros E. rewrite E, constructed_lor in Hc. discriminate. }
    destruct (CBB_init_grants lim (CBS_len (der (Z.lor outer CBS_ASN1_CONSTRUCTED) (pieces inner chunks) ++ rest)) h G) as [c E0];
      [unfold CBS_len; lia..|]. rewrite E0.
    rewrite !bytes_ok_app in Hb. destruct Hb as [Hb Hr]. apply bytes_ok_app in Hb as [_ Hb].
    rewrite CBS_get_asn1_complete by assumption.
    pose proof (yields_finish _ _ _ _ _ _ (pieces_yields _ _ _ Hb Hcs (le_n _)) (conj H0 Hl) E0) as W.
    destruct (finished _ c) as [[o u]|]; [destruct W as [_ W]; injection W as ->; reflexivity|].
    destruct (W (concat chunks) lim eq_refl G). lia.
Qed.

Lemma CBS_get_asn1_implicit_string_forms_witness :
  @CBS_get_asn1_implicit_string unlimited [160; 7; 4; 2; 1; 2; 4; 1; 3; 9] (Z.shiftl 128 24) 4 tt
    = Some ([1; 2; 3], true, [9]).
Proof.
  apply (@CBS_get_asn1_implicit_string_forms unlimited [160; 7; 4; 2; 1; 2; 4; 1; 3; 9] (Z.shiftl 128 24) 4 tt)
    with (lim := 1000) (chunks := [[1; 2]; [3]]).
  - repeat constructor; easy.
  - vm_compute. reflexivity.
  - reflexivity.
  - split; easy.
  - reflexivity.
  - reflexivity.
  - repeat constructor; easy.
  - apply unlimited_grants.
  - vm_compute. split; discriminate || reflexivity.
Defined.
