(* ===== verification/ConstTime.v ===== *)
(** The constant-time helpers of crypto/internal.h, on the 64-bit
    [crypto_word_t]: comparisons that return a mask, and selection by a mask. *)
From Stdlib Require Import ZArith Lia.
From stdpp Require Import base list numbers.
From S2P Require Import Prelude.

Open Scope Z_scope.

(** * The code *)

Definition CONSTTIME_TRUE_W : Z := u64 (Z.lnot 0).
Definition CONSTTIME_FALSE_W : Z := 0.
Definition CONSTTIME_TRUE_8 : Z := 255.
Definition CONSTTIME_FALSE_8 : Z := 0.

(** The barrier only hides the value from the compiler. *)
Definition value_barrier_w (a : Z) : Z := a.

Definition constant_time_msb_w (a : Z) : Z := u64 (0 - Z.shiftr a 63).

Definition constant_time_lt_w (a b : Z) : Z :=
  constant_time_msb_w (Z.lxor a (Z.lor (Z.lxor a b) (Z.lxor (u64 (a - b)) a))).

Definition constant_time_lt_8 (a b : Z) : Z := u8 (constant_time_lt_w a b).

Definition constant_time_ge_w (a b : Z) : Z := u64 (Z.lnot (constant_time_lt_w a b)).

Definition constant_time_ge_8 (a b : Z) : Z := u8 (constant_time_ge_w a b).

Definition constant_time_is_zero_w (a : Z) : Z :=
  constant_time_msb_w (Z.land (u64 (Z.lnot a)) (u64 (a - 1))).

Definition constant_time_is_zero_8 (a : Z) : Z := u8 (constant_time_is_zero_w a).

Definition constant_time_eq_w (a b : Z) : Z := constant_time_is_zero_w (Z.lxor a b).

Definition constant_time_eq_8 (a b : Z) : Z := u8 (constant_time_eq_w a b).

(** Conversion of an [int] to the word is modulo [2^64]. *)
Definition constant_time_eq_int (a b : Z) : Z := constant_time_eq_w (u64 a) (u64 b).

Definition constant_time_eq_int_8 (a b : Z) : Z := constant_time_eq_8 (u64 a) (u64 b).

Definition constant_time_select_w (mask a b : Z) : Z :=
  Z.lor (Z.land (value_barrier_w mask) a) (Z.land (value_barrier_w (u64 (Z.lnot mask))) b).

Definition constant_time_select_8 (mask a b : Z) : Z := u8 (constant_time_select_w mask a b).

Definition constant_time_select_int (mask a b : Z) : Z :=
  s32 (constant_time_select_w mask (u64 a) (u64 b)).

(** * Lemmas *)

Definition word (a : Z) : Prop := 0 <= a < 2 ^ 64.

(** The masks. *)
Definition mask_w (b : bool) : Z := if b then CONSTTIME_TRUE_W else CONSTTIME_FALSE_W.
Definition mask_8 (b : bool) : Z := if b then CONSTTIME_TRUE_8 else CONSTTIME_FALSE_8.

Lemma lxor_range n b q :
  0 <= n -> 0 <= b < 2 ^ n -> 0 <= q < 2 ^ n -> 0 <= Z.lxor b q < 2 ^ n.
Proof.
  intros Hn Hb Hq. replace (Z.lxor b q) with (Z.lxor b q mod 2 ^ n); [apply Z.mod_pos_bound; lia|].
  apply Z.bits_inj'. intros i Hi. destruct (Z.ltb_spec i n).
  - apply Z.mod_pow2_bits_low. lia.
  - rewrite Z.mod_pow2_bits_high, Z.lxor_spec, !(testbit_high n) by lia. reflexivity.
Qed.

Lemma u64_word x : word (u64 x).
Proof. apply u64_range. Qed.

(** The top bit, as a comparison. *)
Lemma top_bit a : word a -> Z.testbit a 63 = (2 ^ 63 <=? a).
Proof.
  intros Ha. unfold word in Ha. rewrite Z.testbit_eqb by lia. destruct (Z.leb_spec (2 ^ 63) a).
  - replace (a / 2 ^ 63) with 1; [reflexivity|]. apply Z.div_unique with (a - 2 ^ 63); lia.
  - rewrite Z.div_small by lia. reflexivity.
Qed.

Lemma msb_mask a : word a -> constant_time_msb_w a = mask_w (Z.testbit a 63).
Proof.
  intros Ha. unfold constant_time_msb_w. rewrite top_bit, Z.shiftr_div_pow2 by (exact Ha || lia).
  unfold word in Ha. destruct (Z.leb_spec (2 ^ 63) a).
  - replace (a / 2 ^ 63) with 1; [reflexivity|]. apply Z.div_unique with (a - 2 ^ 63); lia.
  - rewrite Z.div_small by lia. reflexivity.
Qed.

Lemma u64_sub a b : word a -> word b -> u64 (a - b) = if a <? b then a - b + 2 ^ 64 else a - b.
Proof.
  unfold word, u64. intros Ha Hb. destruct (Z.ltb_spec a b); symmetry.
  - apply Z.mod_unique with (-1); lia.
  - apply Z.mod_unique with 0; lia.
Qed.

Lemma lt_w_mask a b : word a -> word b -> constant_time_lt_w a b = mask_w (a <? b).
Proof.
  intros Ha Hb. unfold constant_time_lt_w. pose proof (u64_word (a - b)) as Hd. unfold word in *.
  assert (Hw : word (Z.lxor a (Z.lor (Z.lxor a b) (Z.lxor (u64 (a - b)) a))))
    by (repeat (apply lxor_range || apply lor_range); lia).
  rewrite msb_mask by exact Hw. f_equal.
  rewrite Z.lxor_spec, Z.lor_spec, !Z.lxor_spec, !top_bit by (unfold word; lia).
  rewrite u64_sub by (unfold word; lia).
  destruct (Z.ltb_spec a b), (Z.leb_spec (2 ^ 63) a), (Z.leb_spec (2 ^ 63) b);
    try reflexivity; repeat (match goal with |- context [?x <=? ?y] => destruct (Z.leb_spec x y) end);
    try reflexivity; lia.
Qed.

Lemma u64_lnot a : word a -> u64 (Z.lnot a) = 2 ^ 64 - 1 - a.
Proof.
  unfold word, u64, Z.lnot. intros Ha. symmetry. apply Z.mod_unique with (-1); lia.
Qed.

Lemma is_zero_w_mask a : word a -> constant_time_is_zero_w a = mask_w (a =? 0).
Proof.
  intros Ha. unfold constant_time_is_zero_w. pose proof (u64_word (Z.lnot a)) as H1.
  pose proof (u64_word (a - 1)) as H2. unfold word in *. rewrite msb_mask.
  - f_equal. rewrite Z.land_spec, !top_bit by assumption. rewrite u64_lnot by exact Ha.
    destruct (Z.eqb_spec a 0) as [->|]; [reflexivity|]. rewrite (u64_small (a - 1)) by lia.
    destruct (Z.leb_spec (2 ^ 63) (2 ^ 64 - 1 - a)), (Z.leb_spec (2 ^ 63) (a - 1)); try reflexivity; lia.
  - split; [apply Z.land_nonneg; lia|]. rewrite <- (Z.mod_small (u64 (a - 1)) (2 ^ 64)) by exact H2.
    rewrite <- Z.land_ones, Z.land_assoc, Z.land_ones by lia. apply Z.mod_pos_bound. lia.
Qed.

Lemma eq_w_mask a b : word a -> word b -> constant_time_eq_w a b = mask_w (a =? b).
Proof.
  intros Ha Hb. unfold constant_time_eq_w. rewrite is_zero_w_mask by (apply lxor_range; assumption || lia).
  f_equal. destruct (Z.eqb_spec a b) as [->|Hne]; [rewrite Z.lxor_nilpotent; reflexivity|].
  apply Z.eqb_neq. intros E. apply Hne, Z.lxor_eq, E.
Qed.

Lemma ge_w_mask a b : word a -> word b -> constant_time_ge_w a b = mask_w (b <=? a).
Proof.
  intros Ha Hb. unfold constant_time_ge_w. rewrite lt_w_mask by assumption.
  destruct (Z.ltb_spec a b), (Z.leb_spec b a); try lia; reflexivity.
Qed.

Lemma select_w_mask (m : bool) a b :
  word a -> word b -> constant_time_select_w (mask_w m) a b = if m then a else b.
Proof.
  intros Ha Hb. unfold constant_time_select_w, value_barrier_w. destruct m; unfold mask_w.
  - change (u64 (Z.lnot CONSTTIME_TRUE_W)) with 0. change CONSTTIME_TRUE_W with (Z.ones 64).
    rewrite Z.land_0_l, Z.lor_0_r, Z.land_comm, Z.land_ones, Z.mod_small by (exact Ha || lia). reflexivity.
  - change (u64 (Z.lnot CONSTTIME_FALSE_W)) with (Z.ones 64). unfold CONSTTIME_FALSE_W.
    rewrite Z.land_0_l, Z.lor_0_l, Z.land_comm, Z.land_ones, Z.mod_small by (exact Hb || lia). reflexivity.
Qed.

Lemma u8_mask b : u8 (mask_w b) = mask_8 b.
Proof. destruct b; reflexivity. Qed.

Lemma byte_word a : byte_ok a -> word a.
Proof. unfold byte_ok, word. lia. Qed.

Lemma select_8_mask (m : bool) a b :
  byte_ok a -> byte_ok b -> constant_time_select_8 (mask_8 m) a b = if m then a else b.
Proof.
  intros Ha Hb. unfold constant_time_select_8, constant_time_select_w, value_barrier_w.
  replace (u8 _) with (Z.lor (Z.land (Z.land (mask_8 m) a) 255) (Z.land (Z.land (u64 (Z.lnot (mask_8 m))) b) 255))
    by (rewrite <- Z.land_lor_distr_l; apply (land_mask 8); lia).
  assert (Hl : forall x, byte_ok x -> Z.land 255 x = x)
    by (intros x Hx; rewrite Z.land_comm; etransitivity; [apply (land_mask 8); lia|apply u8_small, Hx]).
  rewrite <- !Z.land_assoc, !(Z.land_comm _ 255), !Hl by assumption.
  destruct m; cbn [mask_8].
  - change CONSTTIME_TRUE_8 with 255. rewrite Hl by assumption.
    rewrite <- (Hl b Hb), Z.land_assoc. change (Z.land _ 255) with 0. rewrite Z.land_0_l. apply Z.lor_0_r.
  - change CONSTTIME_FALSE_8 with 0. rewrite Z.land_0_l, Z.lor_0_l.
    rewrite <- (Hl b Hb), Z.land_assoc. change (Z.land _ 255) with 255. rewrite !Hl by assumption. reflexivity.
Qed.

(** * Properties *)

(** The branch-free comparisons and selections mean what their names say, for
    all 64-bit words: the mask is all ones or all zeros by the comparison, and a
    mask selects the one argument or the other. *)
Theorem constant_time_masks (a b c d : Z) (m : bool) :
  word a -> word b -> byte_ok c -> byte_ok d ->
  constant_time_lt_w a b = mask_w (a <? b) /\
  constant_time_ge_w a b = mask_w (b <=? a) /\
  constant_time_eq_w a b = mask_w (a =? b) /\
  constant_time_is_zero_w a = mask_w (a =? 0) /\
  constant_time_lt_8 a b = mask_8 (a <? b) /\
  constant_time_ge_8 a b = mask_8 (b <=? a) /\
  constant_time_eq_8 a b = mask_8 (a =? b) /\
  constant_time_select_w (mask_w m) a b = (if m then a else b) /\
  constant_time_select_8 (mask_8 m) c d = (if m then c else d).
Proof.
  intros. unfold constant_time_lt_8, constant_time_ge_8, constant_time_eq_8.
  rewrite lt_w_mask, ge_w_mask, eq_w_mask, is_zero_w_mask, select_w_mask, select_8_mask, !u8_mask by assumption.
  split_and!; reflexivity.
Qed.

Lemma constant_time_masks_witness :
  constant_time_lt_w 3 (2 ^ 63 + 1) = 2 ^ 64 - 1 /\ constant_time_eq_w 3 (2 ^ 63 + 1) = 0.
Proof.
  pose proof (constant_time_masks 3 (2 ^ 63 + 1) 7 9 true) as H.
  destruct H as (-> & _ & -> & _); try (split; [discriminate|reflexivity]). split; reflexivity.
Defined.
