(* ===== verification/Base64.v ===== *)
(** crypto/base64/base64.c: one-shot and streaming base64.

    A pointer to write through is a block of memory and an offset into it, so
    the model shows every byte stored, the trailing NUL that the next line
    overwrites included.  The specification is in digits to the base 64:
    [base64] for the encoder, [spells] for what the decoder accepts. *)
From Stdlib Require Import ZArith Lia.
From stdpp Require Import base list numbers.
From S2P Require Import Prelude.
From S2P Require Import Mem.
From S2P Require Import ConstTime.

Open Scope Z_scope.

(** * The code: encoding *)

Definition constant_time_lt_args_8 (a b : Z) : Z := u8 (constant_time_msb_w (u64 (a - b))).

Definition constant_time_in_range_8 (a min max : Z) : Z :=
  let a := u8 (a - min) in
  constant_time_lt_args_8 a (u8 (max - min + 1)).

Definition conv_bin2ascii (a : Z) : Z :=
  let a := Z.land (u8 a) 63 in
  let r := constant_time_select_8 (constant_time_eq_8 a 62) 43 47 in
  let r := constant_time_select_8 (constant_time_lt_args_8 a 62) (u8 (a - 52 + 48)) r in
  let r := constant_time_select_8 (constant_time_lt_args_8 a 52) (u8 (a - 26 + 97)) r in
  constant_time_select_8 (constant_time_lt_args_8 a 26) (u8 (a + 65)) r.

Definition EVP_EncodedLength (len : Z) : option Z :=
  if u64 (len + 2) <? len then None
  else
    let len := u64 (len + 2) / 3 in
    if negb (Z.shiftr (u64 (Z.shiftl len 2)) 2 =? len) then None
    else
      let len := u64 (Z.shiftl len 2) in
      if u64 (len + 1) <? len then None else Some (u64 (len + 1)).

(** One object serves for encoding and for decoding. *)
Record EVP_ENCODE_CTX := {
  data_used : Z;
  data : list Z;
  eof_seen : bool;
  error_encountered : bool
}.

Definition sizeof_data : Z := 48.

Definition EVP_EncodeInit : EVP_ENCODE_CTX :=
  {| data_used := 0; data := zrep sizeof_data 0; eof_seen := false; error_encountered := false |}.

Definition EVP_ENCODE_CTX_new `{Malloc} (h : heap) : option EVP_ENCODE_CTX * heap :=
  match OPENSSL_malloc h 56 with
  | (None, h) => (None, h)
  | (Some _, h) => (Some EVP_EncodeInit, h)
  end.

(** [dst] is an offset into [out], and grows by as much as [ret]. *)
Fixpoint EVP_EncodeBlock_loop (out : list Z) (dst : Z) (src : list Z) (ret : Z) : list Z * Z * Z :=
  match src with
  | [] => (out, dst, ret)
  | [a] =>
    let l := Z.shiftl a 16 in
    let out := zsplice dst [conv_bin2ascii (Z.shiftr l 18)] out in
    let out := zsplice (dst + 1) [conv_bin2ascii (Z.shiftr l 12)] out in
    let out := zsplice (dst + 2) [61] out in
    let out := zsplice (dst + 3) [61] out in
    (out, dst + 4, ret + 4)
  | [a; b] =>
    let l := Z.lor (Z.shiftl a 16) (Z.shiftl b 8) in
    let out := zsplice dst [conv_bin2ascii (Z.shiftr l 18)] out in
    let out := zsplice (dst + 1) [conv_bin2ascii (Z.shiftr l 12)] out in
    let out := zsplice (dst + 2) [conv_bin2ascii (Z.shiftr l 6)] out in
    let out := zsplice (dst + 3) [61] out in
    (out, dst + 4, ret + 4)
  | a :: b :: c :: src =>
    let l := Z.lor (Z.lor (Z.shiftl a 16) (Z.shiftl b 8)) c in
    let out := zsplice dst [conv_bin2ascii (Z.shiftr l 18)] out in
    let out := zsplice (dst + 1) [conv_bin2ascii (Z.shiftr l 12)] out in
    let out := zsplice (dst + 2) [conv_bin2ascii (Z.shiftr l 6)] out in
    let out := zsplice (dst + 3) [conv_bin2ascii l] out in
    EVP_EncodeBlock_loop out (dst + 4) src (ret + 4)
  end.

(** The memory afterwards and the number of bytes, without the NUL. *)
Definition EVP_EncodeBlock (out : list Z) (dst : Z) (src : list Z) : list Z * Z :=
  let '(out, dst, ret) := EVP_EncodeBlock_loop out dst src 0 in
  (zsplice dst [0] out, ret).

(** A line: the block, a newline and a NUL. *)
Definition encode_line (out : list Z) (pos : Z) (block : list Z) : list Z * Z :=
  let '(out, encoded) := EVP_EncodeBlock out pos block in
  let out := zsplice (pos + encoded) [10] out in
  let out := zsplice (pos + encoded + 1) [0] out in
  (out, encoded).

(** The loop over whole blocks; the results are the memory, [total] and what is
    left of [in], or nothing when [total] overflows. *)
Fixpoint encode_lines (fuel : nat) (out : list Z) (pos : Z) (total : Z) (cin : list Z)
  : list Z * option (Z * list Z) :=
  if negb (sizeof_data <=? zlen cin) then (out, Some (total, cin))
  else
    match fuel with
    | O => (out, None)
    | S fuel =>
      let '(out, encoded) := encode_line out pos (ztake sizeof_data cin) in
      if u64 (total + encoded + 1) <? total then (out, None)
      else encode_lines fuel out (pos + encoded + 1) (u64 (total + encoded + 1)) (zdrop sizeof_data cin)
    end.

(** The object and the memory afterwards, and [*out_len]. *)
Definition EVP_EncodeUpdate (ctx : EVP_ENCODE_CTX) (out : list Z) (cin : list Z)
  : EVP_ENCODE_CTX * list Z * Z :=
  let in_len := zlen cin in
  if in_len =? 0 then (ctx, out, 0)
  else if in_len <? sizeof_data - data_used ctx then
    ({| data_used := data_used ctx + in_len; data := zsplice (data_used ctx) cin (data ctx);
        eof_seen := eof_seen ctx; error_encountered := error_encountered ctx |}, out, 0)
  else
    let '(d, out, pos, cin) :=
      if negb (data_used ctx =? 0) then
        let todo := sizeof_data - data_used ctx in
        let d := zsplice (data_used ctx) (ztake todo cin) (data ctx) in
        let '(out, encoded) := encode_line out 0 d in
        (d, out, encoded + 1, zdrop todo cin)
      else (data ctx, out, 0, cin) in
    match encode_lines (length cin) out pos pos cin with
    | (out, None) =>
      ({| data_used := 0; data := d;
          eof_seen := eof_seen ctx; error_encountered := error_encountered ctx |}, out, 0)
    | (out, Some (total, cin)) =>
      ({| data_used := zlen cin; data := if negb (zlen cin =? 0) then zsplice 0 cin d else d;
          eof_seen := eof_seen ctx; error_encountered := error_encountered ctx |},
       out, if INT_MAX <? total then 0 else total)
    end.

Definition EVP_EncodeFinal (ctx : EVP_ENCODE_CTX) (out : list Z) : EVP_ENCODE_CTX * list Z * Z :=
  if data_used ctx =? 0 then (ctx, out, 0)
  else
    let '(out, encoded) := encode_line out 0 (ztake (data_used ctx) (data ctx)) in
    ({| data_used := 0; data := data ctx;
        eof_seen := eof_seen ctx; error_encountered := error_encountered ctx |}, out, encoded + 1).

(** * The code: decoding *)

Definition EVP_DecodedLength (len : Z) : option Z :=
  if negb (len mod 4 =? 0) then None else Some (u64 (len / 4 * 3)).

Definition EVP_DecodeInit : EVP_ENCODE_CTX := EVP_EncodeInit.

Definition base64_ascii_to_bin (a : Z) : Z :=
  let is_upper := constant_time_in_range_8 a 65 90 in
  let is_lower := constant_time_in_range_8 a 97 122 in
  let is_digit := constant_time_in_range_8 a 48 57 in
  let is_plus := constant_time_eq_8 a 43 in
  let is_slash := constant_time_eq_8 a 47 in
  let is_equals := constant_time_eq_8 a 61 in
  let r := 0 in
  let r := u8 (Z.lor r (Z.land is_upper (a - 65))) in
  let r := u8 (Z.lor r (Z.land is_lower (a - 97 + 26))) in
  let r := u8 (Z.lor r (Z.land is_digit (a - 48 + 52))) in
  let r := u8 (Z.lor r (Z.land is_plus 62)) in
  let r := u8 (Z.lor r (Z.land is_slash 63)) in
  let is_valid := Z.lor (Z.lor (Z.lor (Z.lor (Z.lor is_upper is_lower) is_digit) is_plus) is_slash) is_equals in
  u8 (Z.lor r (Z.lnot is_valid)).

(** The bytes stored at [out]; [*out_num_bytes] is how many. *)
Definition base64_decode_quad (i0 i1 i2 i3 : Z) : option (list Z) :=
  let a := base64_ascii_to_bin i0 in
  let b := base64_ascii_to_bin i1 in
  let c := base64_ascii_to_bin i2 in
  let d := base64_ascii_to_bin i3 in
  if (a =? 255) || (b =? 255) || (c =? 255) || (d =? 255) then None
  else
    let v := Z.lor (Z.lor (Z.lor (Z.shiftl a 18) (Z.shiftl b 12)) (Z.shiftl c 6)) d in
    let padding_pattern :=
      Z.lor (Z.lor (Z.lor (Z.shiftl (Z.b2z (i0 =? 61)) 3) (Z.shiftl (Z.b2z (i1 =? 61)) 2))
                   (Z.shiftl (Z.b2z (i2 =? 61)) 1)) (Z.b2z (i3 =? 61)) in
    if padding_pattern =? 0 then Some [u8 (Z.shiftr v 16); u8 (Z.shiftr v 8); u8 v]
    else if padding_pattern =? 1 then Some [u8 (Z.shiftr v 16); u8 (Z.shiftr v 8)]
    else if padding_pattern =? 3 then Some [u8 (Z.shiftr v 16)]
    else None.

Definition is_space (c : Z) : bool := (c =? 32) || (c =? 9) || (c =? 13) || (c =? 10).

Definition set_error (ctx : EVP_ENCODE_CTX) : EVP_ENCODE_CTX :=
  {| data_used := data_used ctx; data := data ctx; eof_seen := eof_seen ctx; error_encountered := true |}.

(** The loop over the input; [None] for a return of -1. *)
Fixpoint DecodeUpdate_loop (ctx : EVP_ENCODE_CTX) (out : list Z) (bytes_out : Z) (cin : list Z)
  : EVP_ENCODE_CTX * list Z * option Z :=
  match cin with
  | [] => (ctx, out, Some bytes_out)
  | c :: cin =>
    if is_space c then DecodeUpdate_loop ctx out bytes_out cin
    else if eof_seen ctx then (set_error ctx, out, None)
    else
      let d := zsplice (data_used ctx) [c] (data ctx) in
      let ctx := {| data_used := data_used ctx + 1; data := d;
                    eof_seen := eof_seen ctx; error_encountered := error_encountered ctx |} in
      if data_used ctx =? 4 then
        match base64_decode_quad (znth 0 0 d) (znth 0 1 d) (znth 0 2 d) (znth 0 3 d) with
        | None => (set_error ctx, out, None)
        | Some bytes =>
          let ctx := {| data_used := 0; data := d;
                        eof_seen := if zlen bytes <? 3 then true else eof_seen ctx;
                        error_encountered := error_encountered ctx |} in
          DecodeUpdate_loop ctx (zsplice bytes_out bytes out) (bytes_out + zlen bytes) cin
        end
      else DecodeUpdate_loop ctx out bytes_out cin
  end.

(** The object and the memory afterwards, [*out_len] and the result. *)
Definition EVP_DecodeUpdate (ctx : EVP_ENCODE_CTX) (out : list Z) (cin : list Z)
  : EVP_ENCODE_CTX * list Z * Z * Z :=
  if error_encountered ctx then (ctx, out, 0, -1)
  else
    match DecodeUpdate_loop ctx out 0 cin with
    | (ctx, out, None) => (ctx, out, 0, -1)
    | (ctx, out, Some bytes_out) =>
      if INT_MAX <? bytes_out then (set_error ctx, out, 0, -1)
      else (ctx, out, bytes_out, if eof_seen ctx then 0 else 1)
    end.

Definition EVP_DecodeFinal (ctx : EVP_ENCODE_CTX) : Z :=
  if error_encountered ctx || negb (data_used ctx =? 0) then -1 else 1.

(** Four characters a round. *)
Fixpoint DecodeBase64_loop (out : list Z) (dst bytes_out : Z) (cin : list Z) : list Z * option Z :=
  match cin with
  | a :: b :: c :: d :: cin =>
    match base64_decode_quad a b c d with
    | None => (out, None)
    | Some bytes =>
      let out := zsplice (dst + bytes_out) bytes out in
      if negb (zlen bytes =? 3) && negb (zlen cin =? 0) then (out, None)
      else DecodeBase64_loop out dst (bytes_out + zlen bytes) cin
    end
  | _ => (out, Some bytes_out)
  end.

(** The memory afterwards, and [*out_len] on success. *)
Definition EVP_DecodeBase64 (out : list Z) (dst max_out : Z) (cin : list Z) : list Z * option Z :=
  if negb (zlen cin mod 4 =? 0) then (out, None)
  else
    match EVP_DecodedLength (zlen cin) with
    | None => (out, None)
    | Some max_len =>
      if max_out <? max_len then (out, None) else DecodeBase64_loop out dst 0 cin
    end.

(** Spaces and tabs at the front. *)
Fixpoint trim_front (src : list Z) : list Z :=
  match src with
  | c :: rest => if (c =? 32) || (c =? 9) then trim_front rest else src
  | [] => []
  end.

(** White space at the end. *)
Fixpoint trim_back (fuel : nat) (src : list Z) (src_len : Z) : Z :=
  match fuel with
  | O => src_len
  | S fuel =>
    if (0 <? src_len) && is_space (znth 0 (src_len - 1) src) then trim_back fuel src (src_len - 1)
    else src_len
  end.

Fixpoint pad_loop (fuel : nat) (dst : list Z) (dst_len : Z) : list Z * Z :=
  match fuel with
  | O => (dst, dst_len)
  | S fuel =>
    if negb (dst_len mod 3 =? 0) then pad_loop fuel (zsplice dst_len [0] dst) (dst_len + 1)
    else (dst, dst_len)
  end.

(** The memory afterwards and the result. *)
Definition EVP_DecodeBlock (dst : list Z) (src : list Z) : list Z * Z :=
  let src := trim_front src in
  let src := ztake (trim_back (length src) src (zlen src)) src in
  match EVP_DecodedLength (zlen src) with
  | None => (dst, -1)
  | Some dst_len =>
    if INT_MAX <? dst_len then (dst, -1)
    else
      match EVP_DecodeBase64 dst 0 dst_len src with
      | (dst, None) => (dst, -1)
      | (dst, Some dst_len) => pad_loop 2 dst dst_len
      end
  end.

(** * The specification *)

Definition alphabet : list Z :=
  seqZ 65 26 ++ seqZ 97 26 ++ seqZ 48 10 ++ [43; 47].

(** The character of a digit to the base 64. *)
Definition char (d : Z) : Z := znth 0 d alphabet.

(** The [n] low-order digits of [v], most significant first. *)
Fixpoint digits (n : nat) (v : Z) : list Z :=
  match n with
  | O => []
  | S n => digits n (v / 64) ++ [char (v mod 64)]
  end.

(** The value of a character that is not the padding. *)
Definition sextet (c : Z) : option Z :=
  match list_find (fun d => d = c) alphabet with
  | Some (i, _) => Some (Z.of_nat i)
  | None => None
  end.

Fixpoint base64 (l : list Z) : list Z :=
  match l with
  | [] => []
  | [a] => digits 2 (be_val [a] * 16) ++ [61; 61]
  | [a; b] => digits 3 (be_val [a; b] * 4) ++ [61]
  | a :: b :: c :: l => digits 4 (be_val [a; b; c]) ++ base64 l
  end.

(** Four characters and the bytes they stand for; the low bits of the last
    digit before the padding do not matter. *)
Inductive quad : list Z -> list Z -> Prop :=
| quad_3 v : 0 <= v < 2 ^ 24 -> quad (digits 4 v) (be_bytes 3 v)
| quad_2 v : 0 <= v < 2 ^ 18 -> quad (digits 3 v ++ [61]) (be_bytes 2 (v / 4))
| quad_1 v : 0 <= v < 2 ^ 12 -> quad (digits 2 v ++ [61; 61]) (be_bytes 1 (v / 16)).

(** Padding is allowed at the end only. *)
Inductive spells : list Z -> list Z -> Prop :=
| spells_nil : spells [] []
| spells_last q l : quad q l -> spells q l
| spells_more q l s k : quad q l -> zlen l = 3 -> spells s k -> spells (q ++ s) (l ++ k).

Definition lines (l : list Z) : list Z := base64 l ++ [10].

(** Base64 in lines of 64 characters. *)
Fixpoint wrap_loop (fuel : nat) (l : list Z) : list Z :=
  match fuel with
  | O => []
  | S fuel =>
    match l with
    | [] => []
    | _ => lines (ztake 48 l) ++ wrap_loop fuel (zdrop 48 l)
    end
  end.

Definition wrap (l : list Z) : list Z := wrap_loop (length l) l.

Definition strip (l : list Z) : list Z := List.filter (fun c => negb (is_space c)) l.

(** * Characters *)

Lemma conv_bin2ascii_char a : conv_bin2ascii a = char (a mod 64).
Proof.
  assert (E : conv_bin2ascii a = conv_bin2ascii (a mod 256)).
  { unfold conv_bin2ascii. replace (u8 (a mod 256)) with (u8 a); [reflexivity|].
    unfold u8. rewrite Z.mod_mod by lia. reflexivity. }
  rewrite E. replace (a mod 64) with ((a mod 256) mod 64) by dlia.
  apply (byte_eq conv_bin2ascii (fun b => char (b mod 64))); [vm_compute; reflexivity|].
  apply u8_byte.
Qed.

Lemma ascii_to_bin_sextet c :
  byte_ok c ->
  base64_ascii_to_bin c = match sextet c with Some d => d | None => if c =? 61 then 0 else 255 end.
Proof.
  apply (byte_eq base64_ascii_to_bin
    (fun c => match sextet c with Some d => d | None => if c =? 61 then 0 else 255 end)).
  vm_compute. reflexivity.
Qed.

Lemma digit_cases (P : Z -> bool) :
  forallb P (seqZ 0 64) = true -> forall d, 0 <= d < 64 -> P d = true.
Proof.
  intros H d Hd. rewrite forallb_forall in H. apply H, list_elem_of_In, elem_of_seqZ. lia.
Qed.

Lemma char_props d : 0 <= d < 64 ->
  base64_ascii_to_bin (char d) = d /\ char d <> 61 /\ is_space (char d) = false /\ byte_ok (char d).
Proof.
  intros Hd. pose proof (digit_cases (fun d => (base64_ascii_to_bin (char d) =? d) && negb (char d =? 61)
    && negb (is_space (char d)) && (0 <=? char d) && (char d <? 256)) ltac:(vm_compute; reflexivity) d Hd) as H.
  cbv beta in H. rewrite !andb_true_iff, !negb_true_iff, Z.eqb_eq, Z.eqb_neq in H. unfold byte_ok.
  destruct H as ((((? & ?) & Hs) & ?) & ?). split_and!; [assumption|assumption|exact Hs|lia|lia].
Qed.

Lemma sextet_char c d : byte_ok c -> sextet c = Some d -> 0 <= d < 64 /\ c = char d.
Proof.
  intros Hc E. pose proof (byte_cases (fun c => match sextet c with
    Some d => (0 <=? d) && (d <? 64) && (c =? char d) | None => true end) ltac:(vm_compute; reflexivity) c Hc) as H.
  cbv beta in H. rewrite E in H. lia.
Qed.

(** A character that is accepted. *)
Lemma ascii_to_bin_ok c :
  byte_ok c -> base64_ascii_to_bin c <> 255 ->
  (c = 61 /\ base64_ascii_to_bin c = 0) \/
  exists d, 0 <= d < 64 /\ c = char d /\ base64_ascii_to_bin c = d.
Proof.
  intros Hc E. rewrite ascii_to_bin_sextet in * by exact Hc.
  destruct (sextet c) as [d|] eqn:Es; [right; exists d; apply sextet_char in Es; tauto|].
  destruct (Z.eqb_spec c 61); [auto|congruence].
Qed.

(** * Four characters *)

Definition digit (d : Z) : Prop := 0 <= d < 64.

Lemma digits_snoc n v d : digit d -> digits (S n) (v * 64 + d) = digits n v ++ [char d].
Proof.
  unfold digit. intros Hd. cbn [digits].
  replace ((v * 64 + d) / 64) with v by dlia. replace ((v * 64 + d) mod 64) with d by dlia. reflexivity.
Qed.

Lemma digits_2 a b : digit a -> digit b -> digits 2 (a * 64 + b) = [char a; char b].
Proof.
  intros Ha Hb. rewrite digits_snoc by exact Hb. replace a with (0 * 64 + a) at 1 by lia.
  rewrite digits_snoc by exact Ha. reflexivity.
Qed.

Lemma digits_3 a b c : digit a -> digit b -> digit c ->
  digits 3 ((a * 64 + b) * 64 + c) = [char a; char b; char c].
Proof. intros. rewrite digits_snoc, digits_2 by assumption. reflexivity. Qed.

Lemma digits_4 a b c d : digit a -> digit b -> digit c -> digit d ->
  digits 4 (((a * 64 + b) * 64 + c) * 64 + d) = [char a; char b; char c; char d].
Proof. intros. rewrite digits_snoc, digits_3 by assumption. reflexivity. Qed.

(** A number as its digits. *)
Lemma as_digits v k : 0 <= k -> 0 <= v < 64 * k -> exists a d, 0 <= a < k /\ digit d /\ v = a * 64 + d.
Proof. intros Hk Hv. exists (v / 64), (v mod 64). unfold digit. split_and!; dlia. Qed.

Lemma quad_value a b c d : digit a -> digit b -> digit c -> digit d ->
  Z.lor (Z.lor (Z.lor (Z.shiftl a 18) (Z.shiftl b 12)) (Z.shiftl c 6)) d = ((a * 64 + b) * 64 + c) * 64 + d.
Proof.
  unfold digit. intros Ha Hb Hc Hd. rewrite !Z.shiftl_mul_pow2 by lia.
  rewrite (lor_disjoint 18 (a * 2 ^ 18)) by (lia || (apply Z.mod_mul; lia)).
  rewrite (lor_disjoint 12 _ (c * 2 ^ 6)); [|lia| |lia].
  2: { replace (a * 2 ^ 18 + b * 2 ^ 12) with ((a * 64 + b) * 2 ^ 12) by lia. apply Z.mod_mul. lia. }
  rewrite (lor_disjoint 6); [lia|lia| |lia].
  replace (a * 2 ^ 18 + b * 2 ^ 12 + c * 2 ^ 6) with (((a * 64 + b) * 64 + c) * 2 ^ 6) by lia. apply Z.mod_mul. lia.
Qed.

(** [i] is the padding, with value 0, or the character of [v]. *)
Definition reads (pad : bool) (i v : Z) : Prop :=
  if pad then i = 61 /\ v = 0 else digit v /\ i = char v.

Lemma reads_value p i v : reads p i v -> base64_ascii_to_bin i = v /\ digit v /\ (i =? 61) = p.
Proof.
  destruct p; cbn [reads].
  - intros [-> ->]. split; [reflexivity|]. unfold digit. split; [lia|reflexivity].
  - intros [Hv ->]. pose proof (char_props v Hv) as (H1 & H2 & _). split_and!; [exact H1|exact Hv|].
    apply Z.eqb_neq, H2.
Qed.

Lemma reads_exists i : byte_ok i -> base64_ascii_to_bin i <> 255 -> exists p v, reads p i v.
Proof.
  intros Hi E. apply ascii_to_bin_ok in E as [[-> _]|(d & Hd & -> & _)]; [exists true, 0|exists false, d|exact Hi];
    cbn [reads]; auto.
Qed.

Lemma decode_quad_eq p0 p1 p2 p3 i0 i1 i2 i3 a b c d :
  reads p0 i0 a -> reads p1 i1 b -> reads p2 i2 c -> reads p3 i3 d ->
  base64_decode_quad i0 i1 i2 i3 =
    if p0 || p1 then None
    else if p2 then if p3 then Some (be_bytes 1 ((a * 64 + b) / 16)) else None
    else if p3 then Some (be_bytes 2 (((a * 64 + b) * 64 + c) / 4))
    else Some (be_bytes 3 (((a * 64 + b) * 64 + c) * 64 + d)).
Proof.
  intros H0 H1 H2 H3. pose proof (reads_value _ _ _ H0) as (E0 & Ha & P0).
  pose proof (reads_value _ _ _ H1) as (E1 & Hb & P1). pose proof (reads_value _ _ _ H2) as (E2 & Hc & P2).
  pose proof (reads_value _ _ _ H3) as (E3 & Hd & P3). unfold base64_decode_quad.
  rewrite E0, E1, E2, E3, P0, P1, P2, P3, quad_value by assumption. unfold digit in *.
  rewrite !(proj2 (Z.eqb_neq _ 255)) by lia. cbn [orb].
  set (v := ((a * 64 + b) * 64 + c) * 64 + d). unfold u8.
  rewrite !Z.shiftr_div_pow2 by lia. unfold v.
  destruct p0, p1, p2, p3; try reflexivity; cbn [orb be_bytes app reads] in *; cbn [Z.b2z]; 
    cbv [Z.shiftl Pos.iter Z.lor Pos.lor Z.eqb Pos.eqb]; apply f_equal; repeat (apply (f_equal2 cons); [dlia|]); reflexivity.
Qed.

Lemma quad_iff i0 i1 i2 i3 l :
  bytes_ok [i0; i1; i2; i3] ->
  base64_decode_quad i0 i1 i2 i3 = Some l <-> quad [i0; i1; i2; i3] l.
Proof.
  unfold bytes_ok. rewrite !List.Forall_cons_iff. intros (B0 & B1 & B2 & B3 & _). split.
  - intros E. assert (Hn : forall x, In x [i0; i1; i2; i3] -> base64_ascii_to_bin x <> 255).
    { unfold base64_decode_quad in E. intros x Hx Hv. destruct (_ || _) eqn:Eo; [discriminate|].
      rewrite !orb_false_iff, !Z.eqb_neq in Eo. cbn [In] in Hx. destruct Hx as [<-|[<-|[<-|[<-|[]]]]]; tauto. }
    assert (Hr : forall x, byte_ok x -> In x [i0; i1; i2; i3] -> exists p v, reads p x v)
      by (intros x Hb Hx; apply reads_exists; auto).
    cbn [In] in Hr. destruct (Hr i0) as (p0 & a & H0), (Hr i1) as (p1 & b & H1), (Hr i2) as (p2 & c & H2),
      (Hr i3) as (p3 & d & H3); auto.
    rewrite (decode_quad_eq _ _ _ _ _ _ _ _ _ _ _ _ H0 H1 H2 H3) in E.
    destruct p0, p1, p2, p3; try discriminate; cbn [orb reads] in *; apply (inj Some) in E as <-;
      destruct H0 as [Ha ->], H1 as [Hb ->], H2 as [Hc ->], H3 as [Hd ->]; subst.
    + change [char a; char b; 61; 61] with ([char a; char b] ++ [61; 61]). rewrite <- digits_2 by assumption. apply (quad_1 (a * 64 + b)). unfold digit in *. lia.
    + change [char a; char b; char c; 61] with ([char a; char b; char c] ++ [61]).
      rewrite <- digits_3 by assumption. apply quad_2. unfold digit in *. lia.
    + rewrite <- digits_4 by assumption. apply quad_3. unfold digit in *. lia.
  - intros Hq. remember [i0; i1; i2; i3] as q eqn:E. destruct Hq as [v Hv|v Hv|v Hv].
    + destruct (as_digits v (2 ^ 18)) as (w & d & Hw & Hd & ->); [lia..|].
      destruct (as_digits w (2 ^ 12)) as (x & c & Hx & Hc & ->); [lia..|].
      destruct (as_digits x (2 ^ 6)) as (a & b & Ha & Hb & ->); [lia..|].
      rewrite digits_4 in E by assumption. injection E as <- <- <- <-.
      apply (decode_quad_eq false false false false); split; auto.
    + destruct (as_digits v (2 ^ 12)) as (x & c & Hx & Hc & ->); [lia..|].
      destruct (as_digits x (2 ^ 6)) as (a & b & Ha & Hb & ->); [lia..|].
      rewrite digits_3 in E by assumption. injection E as <- <- <- <-.
      apply (decode_quad_eq false false false true _ _ _ _ a b c 0); split; auto.
    + destruct (as_digits v (2 ^ 6)) as (a & b & Ha & Hb & ->); [lia..|].
      rewrite digits_2 in E by assumption. injection E as <- <- <- <-.
      apply (decode_quad_eq false false true true _ _ _ _ a b 0 0); split; auto.
Qed.

(** * Encoding a block *)

(** Four stores in a row. *)
Lemma store_four i (a b c d : Z) m :
  0 <= i -> i + 4 <= zlen m ->
  zsplice (i + 3) [d] (zsplice (i + 2) [c] (zsplice (i + 1) [b] (zsplice i [a] m))) = zsplice i [a; b; c; d] m.
Proof.
  intros Hi Hm. rewrite (zsplice_append i [a] [b]), (zsplice_append i [a; b] [c]), (zsplice_append i [a; b; c] [d]);
    autorewrite with zlen; try lia; reflexivity.
Qed.

Lemma zlen_base64 l : zlen (base64 l) = 4 * ((zlen l + 2) / 3).
Proof.
  induction l as [|a|a b|a b c l IH] using list_ind3; try reflexivity.
  cbn [base64 digits app]. autorewrite with zlen. rewrite IH.
  replace (1 + (1 + (1 + zlen l)) + 2) with (zlen l + 2 + 1 * 3) by lia. rewrite Z.div_add by lia. lia.
Qed.

(** The characters of three, two or one bytes. *)
Lemma chars_3 a b c : byte_ok a -> byte_ok b -> byte_ok c ->
  let l := Z.lor (Z.lor (Z.shiftl a 16) (Z.shiftl b 8)) c in
  [conv_bin2ascii (Z.shiftr l 18); conv_bin2ascii (Z.shiftr l 12); conv_bin2ascii (Z.shiftr l 6); conv_bin2ascii l]
  = digits 4 (be_val [a; b; c]).
Proof.
  intros Ha Hb Hc l. unfold byte_ok in *. assert (Hl : l = be_val [a; b; c]).
  { unfold l. rewrite !Z.shiftl_mul_pow2 by lia.
    rewrite (lor_disjoint 16 (a * 2 ^ 16)) by (lia || (apply Z.mod_mul; lia)).
    replace (a * 2 ^ 16 + b * 2 ^ 8) with ((a * 2 ^ 8 + b) * 2 ^ 8) by lia.
    rewrite (lor_disjoint 8) by (lia || (apply Z.mod_mul; lia)). unfold be_val. cbn [fold_left]. lia. }
  rewrite Hl. rewrite !conv_bin2ascii_char, !Z.shiftr_div_pow2 by lia. cbn [digits app].
  rewrite !Z.div_div by lia. reflexivity.
Qed.

Lemma chars_1 a :
  let l := Z.shiftl a 16 in
  [conv_bin2ascii (Z.shiftr l 18); conv_bin2ascii (Z.shiftr l 12); 61; 61] = base64 [a].
Proof.
  intros l. unfold l. rewrite !conv_bin2ascii_char, !Z.shiftr_div_pow2, Z.shiftl_mul_pow2 by lia.
  cbn [base64 digits app]. unfold be_val. cbn [fold_left].
  repeat (apply (f_equal2 cons); [apply (f_equal char); dlia|]). reflexivity.
Qed.

Lemma chars_2 a b : byte_ok a -> byte_ok b ->
  let l := Z.lor (Z.shiftl a 16) (Z.shiftl b 8) in
  [conv_bin2ascii (Z.shiftr l 18); conv_bin2ascii (Z.shiftr l 12); conv_bin2ascii (Z.shiftr l 6); 61] = base64 [a; b].
Proof.
  intros Ha Hb l. unfold byte_ok in *. assert (Hl : l = (a * 256 + b) * 256).
  { unfold l. rewrite !Z.shiftl_mul_pow2 by lia.
    rewrite (lor_disjoint 16 (a * 2 ^ 16)) by (lia || (apply Z.mod_mul; lia)). lia. }
  rewrite Hl, !conv_bin2ascii_char, !Z.shiftr_div_pow2 by lia.
  cbn [base64 digits app]. unfold be_val. cbn [fold_left].
  repeat (apply (f_equal2 cons); [apply (f_equal char); dlia|]). reflexivity.
Qed.

Lemma encode_loop src : forall out dst r,
  bytes_ok src -> 0 <= dst -> dst + zlen (base64 src) <= zlen out ->
  EVP_EncodeBlock_loop out dst src r =
    (zsplice dst (base64 src) out, dst + zlen (base64 src), r + zlen (base64 src)).
Proof.
  induction src as [|a|a b|a b c src IH] using list_ind3; intros out dst r Hb Hd Hl.
  - cbn. rewrite zsplice_nil, zlen_nil. repeat f_equal; lia.
  - rewrite zlen_base64 in *. change (4 * ((zlen [a] + 2) / 3)) with 4 in *. cbn [EVP_EncodeBlock_loop].
    rewrite store_four by lia. rewrite chars_1. reflexivity.
  - rewrite zlen_base64 in *. change (4 * ((zlen [a; b] + 2) / 3)) with 4 in *. cbn [EVP_EncodeBlock_loop].
    rewrite !bytes_ok_cons in Hb. rewrite store_four by lia. rewrite chars_2 by tauto. reflexivity.
  - rewrite !bytes_ok_cons in Hb. destruct Hb as (Ha & Hb & Hc & Hs).
    cbn [EVP_EncodeBlock_loop]. rewrite store_four by (cbn [base64] in Hl; rewrite zlen_app in Hl; change (zlen (digits 4 (be_val [a; b; c]))) with 4 in Hl; pose proof (zlen_nonneg (base64 src)); lia).
    rewrite chars_3 by assumption. cbn [base64] in *.
    set (q := digits 4 (be_val [a; b; c])) in *. rewrite zlen_app in *. change (zlen q) with 4 in *.
    rewrite IH; [|exact Hs|lia|rewrite zlen_zsplice by (change (zlen q) with 4; pose proof (zlen_nonneg (base64 src)); lia); lia].
    change 4 with (zlen q) at 1. rewrite zsplice_append by (change (zlen q) with 4; lia).
    f_equal; [f_equal|]; lia.
Qed.

Lemma EVP_EncodeBlock_eq out dst src :
  bytes_ok src -> 0 <= dst -> dst + zlen (base64 src) + 1 <= zlen out ->
  EVP_EncodeBlock out dst src = (zsplice dst (base64 src ++ [0]) out, zlen (base64 src)).
Proof.
  intros Hb Hd Hl. unfold EVP_EncodeBlock. rewrite encode_loop by (auto; lia).
  rewrite zsplice_append by (autorewrite with zlen; lia). rewrite Z.add_0_l. reflexivity.
Qed.

Lemma encode_line_eq out pos block :
  bytes_ok block -> 0 <= pos -> pos + zlen (lines block) + 1 <= zlen out ->
  encode_line out pos block = (zsplice pos (lines block ++ [0]) out, zlen (base64 block)).
Proof.
  intros Hb Hp Hl. unfold lines in *. rewrite zlen_app in Hl. autorewrite with zlen in Hl.
  unfold encode_line. rewrite EVP_EncodeBlock_eq by (auto; lia).
  rewrite zsplice_over by (autorewrite with zlen; lia).
  replace (pos + zlen (base64 block) + 1) with (pos + zlen (base64 block ++ [10]))
    by (autorewrite with zlen; lia).
  rewrite zsplice_append by (autorewrite with zlen; lia). reflexivity.
Qed.

(** * Lines *)

(** The lines of the whole blocks of 48 bytes, and the bytes left. *)
Inductive lines_of : list Z -> list Z -> list Z -> Prop :=
| rest_of r : zlen r < 48 -> lines_of r [] r
| line_of b l e r : zlen b = 48 -> lines_of l e r -> lines_of (b ++ l) (lines b ++ e) r.

Lemma zlen_lines b : zlen b = 48 -> zlen (lines b) = 65.
Proof. intros Hb. unfold lines. rewrite zlen_app, zlen_base64, Hb. reflexivity. Qed.

Lemma lines_of_exist l : exists e r, lines_of l e r.
Proof.
  remember (length l) as n eqn:Hn. revert l Hn. induction (lt_wf n) as [n _ IH]. intros l ->.
  destruct (Z.ltb_spec (zlen l) 48); [exists [], l; constructor; assumption|].
  rewrite <- (ztake_zdrop 48 l). assert (Hz : zlen (ztake 48 l) = 48) by (apply zlen_ztake; lia).
  destruct (IH (length (zdrop 48 l))) with (l := zdrop 48 l) as (e & r & He); [|reflexivity|].
  - pose proof (zlen_zdrop 48 l ltac:(lia)). unfold zlen in *. lia.
  - exists (lines (ztake 48 l) ++ e), r. constructor; assumption.
Qed.

Lemma lines_of_len l e r : lines_of l e r -> zlen r < 48 /\ exists n, 0 <= n /\ zlen l = 48 * n + zlen r /\ zlen e = 65 * n.
Proof.
  induction 1 as [r Hr|b l e r Hb _ [Hr (n & Hn & Hl & He)]].
  - split; [exact Hr|]. exists 0. autorewrite with zlen. lia.
  - split; [exact Hr|]. exists (1 + n). rewrite !zlen_app, zlen_lines by exact Hb. lia.
Qed.

Lemma lines_of_short l e r : lines_of l e r -> zlen l < 48 -> e = [] /\ r = l.
Proof.
  intros [?|b l' e' r' Hb H]; [auto|]. rewrite zlen_app. pose proof (zlen_nonneg l'). lia.
Qed.

Lemma app_same_zlen {A} (a b c d : list A) : zlen a = zlen c -> a ++ b = c ++ d -> a = c /\ b = d.
Proof. unfold zlen. intros Hl E. apply app_inj_1; [lia|exact E]. Qed.

Lemma lines_of_long b l e r :
  zlen b = 48 -> lines_of (b ++ l) e r -> exists e', e = lines b ++ e' /\ lines_of l e' r.
Proof.
  intros Hb H. inversion H as [r' Hr E1 E2 E3|b' l' e' r' Hb' Hl E1 E2 E3].
  - subst. rewrite zlen_app in Hr. pose proof (zlen_nonneg l). lia.
  - apply app_same_zlen in E1 as [-> ->]; [|lia]. eauto.
Qed.

Lemma lines_of_app l e r k e' r' :
  lines_of l e r -> lines_of (r ++ k) e' r' -> lines_of (l ++ k) (e ++ e') r'.
Proof.
  induction 1 as [r Hr|b l e r Hb _ IH]; intros Hk; [exact Hk|].
  rewrite <- !app_assoc. constructor; auto.
Qed.

(** The line of what is left. *)
Definition last_line (r : list Z) : list Z := match r with [] => [] | _ => lines r end.

Lemma lines_of_wrap_loop l e r : lines_of l e r -> forall fuel,
  (length l <= fuel)%nat -> wrap_loop fuel l = e ++ last_line r.
Proof.
  induction 1 as [r Hr|b l e r Hb _ IH]; intros fuel Hf.
  - destruct r as [|x r]; [destruct fuel; reflexivity|]. destruct fuel as [|fuel]; cbn [length] in Hf; [lia|].
    cbn [wrap_loop last_line]. replace (ztake 48 (x :: r)) with (x :: r).
    + replace (zdrop 48 (x :: r)) with (@nil Z); [destruct fuel; apply app_nil_r|].
      symmetry. apply drop_ge. unfold zlen in Hr. lia.
    + symmetry. apply take_ge. unfold zlen in Hr. lia.
  - destruct b as [|x b]; [discriminate|]. destruct fuel as [|fuel]; [cbn in Hf; lia|]. cbn [wrap_loop app].
    change (x :: b ++ l) with ((x :: b) ++ l). rewrite ztake_app_eq, zdrop_app_eq by lia.
    rewrite IH, app_assoc; [reflexivity|]. cbn [app length] in Hf. rewrite length_app in Hf. lia.
Qed.

Lemma lines_of_wrap l e r : lines_of l e r -> wrap l = e ++ last_line r.
Proof. intros H. eapply lines_of_wrap_loop; eauto. Qed.

(** Lines in memory, with the NUL after them. *)
Definition ends (e : list Z) : list Z := match e with [] => [] | _ => e ++ [0] end.

Lemma zlen_ends e : zlen e <= zlen (ends e) <= zlen e + 1.
Proof. destruct e; cbn [ends]; autorewrite with zlen; lia. Qed.

Lemma ends_app i e e' (m : list Z) :
  0 <= i -> i + zlen e + zlen e' + 1 <= zlen m ->
  zsplice (i + zlen e) (ends e') (zsplice i (ends e) m) = zsplice i (ends (e ++ e')) m.
Proof.
  intros Hi Hm. pose proof (zlen_nonneg e). pose proof (zlen_nonneg e').
  destruct e' as [|x e']; [cbn [ends]; rewrite zsplice_nil, app_nil_r; reflexivity|].
  destruct e as [|y e]; [cbn [ends app]; rewrite zsplice_nil, zlen_nil, Z.add_0_r; reflexivity|].
  cbn [ends]. rewrite zsplice_over by (autorewrite with zlen in *; lia). f_equal. rewrite app_assoc. reflexivity.
Qed.

Lemma encode_lines_spec cin e r : lines_of cin e r -> forall fuel out pos,
  bytes_ok cin -> (length cin <= fuel)%nat -> 0 <= pos -> pos + zlen e + 1 <= zlen out < 2 ^ 64 ->
  encode_lines fuel out pos pos cin = (zsplice pos (ends e) out, Some (pos + zlen e, r)).
Proof.
  induction 1 as [r Hr|b l e r Hb _ IH]; intros fuel out pos Hok Hf Hp Ho.
  - unfold encode_lines. destruct fuel; rewrite (proj2 (Z.leb_gt sizeof_data (zlen r))) by (unfold sizeof_data; lia);
      cbn [negb ends]; rewrite zsplice_nil, zlen_nil, Z.add_0_r; reflexivity.
  - apply bytes_ok_app in Hok as [Hbb Hok]. rewrite zlen_app, zlen_lines in Ho by exact Hb.
    pose proof (zlen_nonneg e). pose proof (zlen_nonneg l). destruct fuel as [|fuel].
    { rewrite length_app in Hf. unfold zlen in Hb. lia. }
    cbn [encode_lines]. unfold sizeof_data. rewrite zlen_app, (proj2 (Z.leb_le 48 _)) by lia. cbn [negb].
    rewrite ztake_app_eq, zdrop_app_eq by lia.
    rewrite encode_line_eq by (rewrite ?zlen_lines by exact Hb; auto; lia).
    rewrite zlen_base64, Hb. change (4 * ((48 + 2) / 3)) with 64. rewrite u64_small by lia.
    rewrite (proj2 (Z.ltb_ge (pos + 64 + 1) pos)) by lia.
    rewrite IH; [|exact Hok|rewrite length_app in Hf; unfold zlen in Hb; lia|lia|].
    2: { rewrite zlen_zsplice; autorewrite with zlen; rewrite ?zlen_lines; lia. }
    replace (pos + 64 + 1) with (pos + zlen (lines b)) by (rewrite zlen_lines; lia).
    replace (lines b ++ [0]) with (ends (lines b)) by (destruct b; reflexivity || (unfold ends; destruct (lines _) eqn:E; [|reflexivity]; apply (f_equal zlen) in E; rewrite zlen_lines in E by exact Hb; discriminate)).
    rewrite ends_app by (rewrite ?zlen_lines; lia). rewrite zlen_app, Z.add_assoc. reflexivity.
Qed.

(** * Streaming: encoding *)

(** The object holds the bytes [p] of an unfinished line. *)
Definition holds (ctx : EVP_ENCODE_CTX) (p : list Z) : Prop :=
  data_used ctx = zlen p /\ zlen p < 48 /\ zlen (data ctx) = 48 /\ ztake (zlen p) (data ctx) = p.

Lemma holds_store ctx p k n :
  holds ctx p -> zlen p + zlen k <= 48 -> n = zlen p + zlen k ->
  ztake n (zsplice (data_used ctx) k (data ctx)) = p ++ k /\ zlen (zsplice (data_used ctx) k (data ctx)) = 48.
Proof.
  intros (-> & Hp & Hd & Ht) Hk ->. pose proof (zlen_nonneg p). pose proof (zlen_nonneg k).
  split; [|rewrite zlen_zsplice; lia]. unfold zsplice. rewrite Ht. rewrite app_assoc.
  apply ztake_app_eq. rewrite zlen_app. lia.
Qed.

Lemma holds_fresh d r eof err :
  zlen d = 48 -> zlen r < 48 ->
  holds {| data_used := zlen r; data := if negb (zlen r =? 0) then zsplice 0 r d else d;
           eof_seen := eof; error_encountered := err |} r.
Proof.
  intros Hd Hr. unfold holds. cbn [data_used data]. destruct (Z.eqb_spec (zlen r) 0) as [E|]; cbn [negb].
  - apply zlen_0 in E as ->. auto.
  - pose proof (zlen_nonneg r). rewrite zlen_zsplice by lia. split_and!; auto.
    unfold zsplice. change (ztake 0 d) with (@nil Z). rewrite app_nil_l. apply ztake_app.
Qed.

(** The first line, when some of it was in the object already. *)
Lemma first_line ctx p cin e r out :
  holds ctx p -> bytes_ok (p ++ cin) -> 48 - zlen p <= zlen cin -> lines_of (p ++ cin) e r ->
  zlen e + 1 <= zlen out ->
  exists d e1 e2 cin',
    (if negb (data_used ctx =? 0) then
       let todo := sizeof_data - data_used ctx in
       let d := zsplice (data_used ctx) (ztake todo cin) (data ctx) in
       let '(out, encoded) := encode_line out 0 d in
       (d, out, encoded + 1, zdrop todo cin)
     else (data ctx, out, 0, cin)) = (d, zsplice 0 (ends e1) out, zlen e1, cin') /\
    zlen d = 48 /\ e = e1 ++ e2 /\ lines_of cin' e2 r /\ bytes_ok cin'.
Proof.
  intros Hh Hb Hl He Ho. pose proof Hh as (Hu & Hp & Hd & Ht). pose proof (zlen_nonneg p). rewrite Hu.
  apply bytes_ok_app in Hb as [Hbp Hbc]. destruct (Z.eqb_spec (zlen p) 0) as [E|]; cbn [negb].
  - apply zlen_0 in E as ->. exists (data ctx), [], e, cin. cbn [ends app] in *. rewrite zsplice_nil. auto.
  - cbv zeta. change sizeof_data with 48. set (k := ztake (48 - zlen p) cin).
    assert (Hk : zlen k = 48 - zlen p) by (apply zlen_ztake; lia).
    destruct (holds_store ctx p k 48 Hh) as [E1 E2]; [lia|lia|]. rewrite Hu in *.
    set (d := zsplice (zlen p) k (data ctx)) in *.
    assert (Hdk : d = p ++ k) by (rewrite <- E1, <- E2; symmetry; apply ztake_all).
    rewrite <- (ztake_zdrop (48 - zlen p) cin) in He. fold k in He. rewrite app_assoc, <- Hdk in He.
    apply lines_of_long in He as (e2 & -> & He); [|exact E2]. rewrite zlen_app in Ho. pose proof (zlen_nonneg e2).
    rewrite encode_line_eq; [|rewrite Hdk; apply bytes_ok_app; split; [exact Hbp|apply bytes_ok_ztake, Hbc]|lia|lia].
    exists d, (lines d), e2, (zdrop (48 - zlen p) cin). rewrite zlen_lines by exact E2.
    rewrite zlen_base64, E2. split_and!; auto using bytes_ok_zdrop.
    do 3 f_equal. assert (Hn : zlen (lines d) = 65) by (apply zlen_lines, E2).
    destruct (lines d); [discriminate|reflexivity].
Qed.

Lemma EVP_EncodeUpdate_spec ctx p cin e r out :
  holds ctx p -> bytes_ok (p ++ cin) -> lines_of (p ++ cin) e r ->
  zlen e + 1 <= zlen out < 2 ^ 64 -> zlen e <= INT_MAX ->
  exists ctx', EVP_EncodeUpdate ctx out cin = (ctx', zsplice 0 (ends e) out, zlen e) /\ holds ctx' r.
Proof.
  intros Hh Hb He Ho Hi. pose proof Hh as (Hu & Hp & Hd & Ht). pose proof (zlen_nonneg p). pose proof (zlen_nonneg cin).
  unfold EVP_EncodeUpdate. destruct (Z.eqb_spec (zlen cin) 0) as [E|].
  { apply zlen_0 in E as ->. rewrite app_nil_r in He. apply lines_of_short in He as [-> ->]; [|exact Hp].
    exists ctx. cbn [ends]. rewrite zsplice_nil. auto. }
  rewrite Hu. unfold sizeof_data. destruct (Z.ltb_spec (zlen cin) (48 - zlen p)).
  { apply lines_of_short in He as [-> ->]; [|rewrite zlen_app; lia]. eexists. cbn [ends]. rewrite zsplice_nil.
    split; [reflexivity|]. destruct (holds_store ctx p cin (zlen p + zlen cin) Hh) as [E1 E2]; [lia|reflexivity|].
    rewrite Hu in *. unfold holds. cbn [data_used data]. rewrite zlen_app. split_and!; auto; lia. }
  destruct (first_line ctx p cin e r out Hh Hb) as (d & e1 & e2 & cin' & E & Hzd & -> & Hl & Hbc); [lia|exact He|lia|].
  rewrite Hu in E. unfold sizeof_data in E. cbv zeta in E. rewrite E. clear E.
  rewrite zlen_app in *. pose proof (zlen_nonneg e1). pose proof (zlen_nonneg e2). pose proof (zlen_ends e1).
  erewrite encode_lines_spec; [|exact Hl|exact Hbc|reflexivity|lia|rewrite zlen_zsplice; lia].
  pose proof (ends_app 0 e1 e2 out) as Hend. rewrite Z.add_0_l in Hend. rewrite Hend by lia.
  rewrite (proj2 (Z.ltb_ge INT_MAX _)) by lia. eexists. split; [reflexivity|].
  apply holds_fresh; [exact Hzd|]. apply lines_of_len in Hl. tauto.
Qed.

(** All the updates and the final call, each with a buffer of its own: what is
    written, as the callers collect it. *)
Fixpoint encode_chunks (ctx : EVP_ENCODE_CTX) (out : list Z) (chunks : list (list Z)) : list Z :=
  match chunks with
  | [] => let '(_, out, n) := EVP_EncodeFinal ctx out in ztake n out
  | c :: chunks =>
    let '(ctx, out', n) := EVP_EncodeUpdate ctx out c in ztake n out' ++ encode_chunks ctx out chunks
  end.

(** The room [EVP_EncodeUpdate] needs for [n] bytes of input. *)
Definition update_room (n : Z) : Z := 65 * ((n + 47) / 48) + 1.

Lemma ztake_ends e out : zlen e + 1 <= zlen out -> ztake (zlen e) (zsplice 0 (ends e) out) = e.
Proof.
  intros Ho. destruct e as [|x e]; [reflexivity|]. cbn [ends]. unfold zsplice.
  change (ztake 0 out) with (@nil Z). rewrite app_nil_l, <- app_assoc. apply ztake_app.
Qed.

Lemma EVP_EncodeFinal_spec ctx p out :
  holds ctx p -> bytes_ok p -> 66 <= zlen out ->
  let '(_, out', n) := EVP_EncodeFinal ctx out in
  out' = zsplice 0 (ends (last_line p)) out /\ n = zlen (last_line p).
Proof.
  intros (Hu & Hp & Hd & Ht) Hb Ho. unfold EVP_EncodeFinal. rewrite Hu, Ht.
  destruct p as [|x p]; [change (zlen [] =? 0) with true; cbn [last_line ends]; rewrite zsplice_nil; split; reflexivity|]. set (q := x :: p) in *.
  assert (Hq : 1 <= zlen q) by (unfold q; rewrite zlen_cons; pose proof (zlen_nonneg p); lia).
  rewrite (proj2 (Z.eqb_neq (zlen q) 0)) by lia.
  assert (Hll : zlen (lines q) <= 65) by (unfold lines; rewrite zlen_app, zlen_base64; change (zlen [10]) with 1; dlia).
  rewrite encode_line_eq by (auto; lia). change (last_line q) with (lines q). split.
  - f_equal. unfold lines. destruct (base64 q); reflexivity.
  - unfold lines. rewrite zlen_app. reflexivity.
Qed.

Lemma lines_of_bytes l e r : lines_of l e r -> bytes_ok l -> bytes_ok r.
Proof. induction 1; [auto|]. rewrite bytes_ok_app. tauto. Qed.

Lemma encode_chunks_spec chunks : forall ctx p out,
  holds ctx p -> bytes_ok (p ++ concat chunks) ->
  Forall (fun c => update_room (zlen c) <= Z.min INT_MAX (zlen out)) chunks -> 66 <= zlen out < 2 ^ 64 ->
  encode_chunks ctx out chunks = wrap (p ++ concat chunks).
Proof.
  induction chunks as [|c chunks IH]; intros ctx p out Hh Hb Hc Ho; cbn [encode_chunks concat] in *.
  - rewrite app_nil_r in *. pose proof Hh as (_ & Hp & _). rewrite (lines_of_wrap p [] p) by (constructor; exact Hp).
    pose proof (EVP_EncodeFinal_spec ctx p out Hh Hb) as Hf. destruct (EVP_EncodeFinal ctx out) as [[ctx' out'] n].
    destruct Hf as [-> ->]; [lia|]. rewrite app_nil_l. apply ztake_ends. destruct p as [|x p]; [cbn; lia|].
    change (last_line (x :: p)) with (base64 (x :: p) ++ [10]). rewrite zlen_app. rewrite zlen_base64. change (zlen [10]) with 1. dlia.
  - apply List.Forall_cons_iff in Hc as [Hc Hcs]. rewrite app_assoc in *. apply bytes_ok_app in Hb as [Hb1 Hb2].
    destruct (lines_of_exist (p ++ c)) as (e1 & r1 & H1), (lines_of_exist (r1 ++ concat chunks)) as (e2 & r2 & H2).
    pose proof (lines_of_app _ _ _ _ _ _ H1 H2) as H12. pose proof (lines_of_len _ _ _ H1) as (Hr1 & n & Hn & Hl1 & Hz1).
    assert (Hroom : zlen e1 + 1 <= update_room (zlen c)).
    { destruct Hh as (_ & Hp & _). rewrite zlen_app in Hl1. unfold update_room. pose proof (zlen_nonneg r1). dlia. }
    destruct (EVP_EncodeUpdate_spec ctx p c e1 r1 out Hh Hb1 H1) as (ctx' & -> & Hh'); [lia|lia|].
    rewrite ztake_ends by lia. rewrite (lines_of_wrap _ _ _ H12), <- app_assoc. f_equal.
    rewrite <- (lines_of_wrap _ _ _ H2). apply IH; auto. apply bytes_ok_app. split; [|exact Hb2].
    eapply lines_of_bytes; eassumption.
Qed.

(** * Decoding in one go *)

Lemma quad_len q l : quad q l -> zlen q = 4 /\ 1 <= zlen l <= 3.
Proof. intros [v|v|v]; cbn [digits be_bytes app]; autorewrite with zlen; lia. Qed.

Lemma quad_four q l : quad q l -> exists a b c d, q = [a; b; c; d].
Proof. intros [v|v|v]; cbn [digits app]; eauto. Qed.

Lemma spells_len s l : spells s l -> exists n, 0 <= n /\ zlen s = 4 * n /\ zlen l <= 3 * n.
Proof.
  induction 1 as [|q l Hq|q l s k Hq Hl _ (n & Hn & Hs & Hk)].
  - exists 0. split_and!; reflexivity || lia.
  - apply quad_len in Hq. exists 1. lia.
  - apply quad_len in Hq. exists (1 + n). rewrite !zlen_app. lia.
Qed.

(** The first four characters. *)
Lemma spells_cons a b c d s l :
  spells (a :: b :: c :: d :: s) l <->
  exists k, quad [a; b; c; d] k /\ ((zlen k = 3 /\ exists l', spells s l' /\ l = k ++ l') \/ (s = [] /\ l = k)).
Proof.
  split.
  - inversion 1 as [|q k Hq E|q k s' l' Hq Hl Hs E]; subst.
    + pose proof (quad_four _ _ Hq) as (? & ? & ? & ? & E). injection E as -> -> -> -> ->. eauto.
    + pose proof (quad_four _ _ Hq) as (? & ? & ? & ? & ->). injection E as -> -> -> -> ->. eauto 7.
  - intros (k & Hq & [(Hk & l' & Hs & ->)|(-> & ->)]); [apply (spells_more [a; b; c; d]); auto|].
    apply spells_last, Hq.
Qed.

(** A string in groups of four. *)
Lemma in_fours (l : list Z) : zlen l mod 4 = 0 ->
  l = [] \/ exists a b c d s, l = a :: b :: c :: d :: s /\ zlen s mod 4 = 0.
Proof.
  destruct l as [|a [|b [|c [|d s]]]]; auto; intros Hl; [discriminate..|right].
  exists a, b, c, d, s. split; [reflexivity|]. rewrite !zlen_cons in Hl.
  replace (1 + (1 + (1 + (1 + zlen s)))) with (zlen s + 1 * 4) in Hl by lia. rewrite Z.mod_add in Hl; lia.
Qed.

Lemma decode_loop n : forall s out dst k,
  (length s <= n)%nat -> bytes_ok s -> zlen s mod 4 = 0 -> 0 <= dst -> 0 <= k ->
  4 * (dst + k) + 3 * zlen s <= 4 * zlen out ->
  match DecodeBase64_loop out dst k s with
  | (out', Some k') => exists l, spells s l /\ out' = zsplice (dst + k) l out /\ k' = k + zlen l
  | (_, None) => forall l, ~ spells s l
  end.
Proof.
  induction n as [|n IH]; intros s out dst k Hn Hb Hm Hd Hk Ho;
    (destruct (in_fours s Hm) as [->|(a & b & c & d & t & -> & Ht)];
     [exists []; rewrite zsplice_nil, zlen_nil, Z.add_0_r; split; [constructor|auto]|]);
    cbn [length] in Hn; [lia|].
  rewrite !bytes_ok_cons in Hb. destruct Hb as (Ha & Hb & Hc & Hdd & Hbt). rewrite !zlen_cons in Ho.
  assert (Hq : bytes_ok [a; b; c; d]) by (rewrite !bytes_ok_cons; auto using bytes_ok_nil).
  cbn [DecodeBase64_loop]. destruct (base64_decode_quad a b c d) as [bytes|] eqn:E.
  2: { intros l Hs. apply spells_cons in Hs as (k0 & Hq' & _). apply quad_iff in Hq'; [congruence|exact Hq]. }
  apply quad_iff in E; [|exact Hq]. pose proof (quad_len _ _ E) as [_ Hl]. pose proof (zlen_nonneg t).
  assert (Hall : forall l, spells (a :: b :: c :: d :: t) l ->
    (zlen bytes = 3 /\ exists l', spells t l') \/ t = []).
  { intros l Hs. apply spells_cons in Hs as (k0 & Hq' & Hs). apply quad_iff in E, Hq'; [|exact Hq..].
    rewrite E in Hq'. injection Hq' as <-. destruct Hs as [(? & l' & ? & _)|[? _]]; eauto. }
  destruct (negb (zlen bytes =? 3) && negb (zlen t =? 0)) eqn:Eg.
  - apply andb_true_iff in Eg as [E1 E2]. rewrite negb_true_iff, Z.eqb_neq in E1, E2.
    intros l Hs. destruct (Hall l Hs) as [[? _]| ->]; [contradiction|]. apply E2. reflexivity.
  - assert (Hz : zlen (zsplice (dst + k) bytes out) = zlen out) by (apply zlen_zsplice; lia).
    specialize (IH t (zsplice (dst + k) bytes out) dst (k + zlen bytes)).
    destruct (DecodeBase64_loop _ _ _ t) as [out' [k'|]].
    + destruct IH as (l & Hs & -> & ->); [lia|exact Hbt|exact Ht|exact Hd|lia|lia|].
      exists (bytes ++ l). pose proof (spells_len _ _ Hs) as (m & Hm0 & Hm1 & Hm2).
      rewrite Z.add_assoc, zsplice_append, zlen_app, Z.add_assoc by lia. split; [|auto].
      apply spells_cons. exists bytes. split; [exact E|]. destruct (Z.eqb_spec (zlen bytes) 3); [left; eauto|right].
      destruct (Z.eqb_spec (zlen t) 0) as [H0|]; [|discriminate]. apply zlen_0 in H0 as ->.
      inversion Hs; subst; [rewrite app_nil_r; auto|..].
      * match goal with Hx : quad [] _ |- _ => apply quad_len in Hx as [Hx _]; discriminate Hx end.
      * match goal with Hx : quad ?q _, Ex : ?q ++ _ = [] |- _ => apply app_nil in Ex as [-> _]; apply quad_len in Hx as [Hx _]; discriminate Hx end.
    + intros l Hs. destruct (Hall l Hs) as [(_ & l' & Hs')| ->].
      * refine (IH _ _ _ _ _ _ l' Hs'); auto; lia.
      * refine (IH _ _ _ _ _ _ [] spells_nil); auto; lia.
Qed.

Lemma spells_nil_inv l : spells [] l -> l = [].
Proof.
  intros H. apply spells_len in H as (n & Hn & Hs & Hl). rewrite zlen_nil in Hs. apply zlen_0.
  pose proof (zlen_nonneg l). lia.
Qed.

Lemma quad_fun q l l' : bytes_ok q -> quad q l -> quad q l' -> l = l'.
Proof.
  intros Hb H H'. pose proof (quad_four _ _ H) as (a & b & c & d & ->).
  apply quad_iff in H, H'; [|exact Hb..]. congruence.
Qed.

Lemma spells_fun s l l' : bytes_ok s -> spells s l -> spells s l' -> l = l'.
Proof.
  intros Hb H. revert l' Hb. induction H as [|q l Hq|q l s k Hq Hl Hs IH]; intros l' Hb H'.
  - symmetry. apply spells_nil_inv, H'.
  - pose proof (quad_four _ _ Hq) as (a & b & c & d & ->).
    apply spells_cons in H' as (k & Hk & H'). rewrite (quad_fun _ _ _ Hb Hq Hk).
    destruct H' as [(_ & r & Hr & ->)|[_ ->]]; [|reflexivity].
    rewrite (spells_nil_inv _ Hr), app_nil_r. reflexivity.
  - apply bytes_ok_app in Hb as [Hbq Hb]. pose proof (quad_four _ _ Hq) as (a & b & c & d & ->).
    apply spells_cons in H' as (k' & Hk & H'). rewrite (quad_fun _ _ _ Hbq Hq Hk).
    destruct H' as [(_ & r & Hr & ->)|[E ->]].
    + f_equal. apply IH; assumption.
    + cbn [app] in E. subst s. rewrite (spells_nil_inv _ Hs), app_nil_r. reflexivity.
Qed.

Lemma decoded_len (s : list Z) : zlen s < 2 ^ 64 -> zlen s mod 4 = 0 -> EVP_DecodedLength (zlen s) = Some (3 * (zlen s / 4)).
Proof.
  intros Hs Hm. pose proof (zlen_nonneg s). unfold EVP_DecodedLength. rewrite Hm. cbn [Z.eqb negb].
  rewrite u64_small by dlia. f_equal. lia.
Qed.

Lemma DecodeBase64_spec out dst max_out s :
  bytes_ok s -> zlen s < 2 ^ 64 -> 0 <= dst -> 0 <= max_out -> dst + max_out <= zlen out ->
  match EVP_DecodeBase64 out dst max_out s with
  | (out', Some n) => exists l, spells s l /\ 3 * (zlen s / 4) <= max_out /\ out' = zsplice dst l out /\ n = zlen l
  | (_, None) => forall l, spells s l -> 3 * (zlen s / 4) <= max_out -> False
  end.
Proof.
  intros Hb Hs Hd Hm Ho. unfold EVP_DecodeBase64. destruct (Z.eqb_spec (zlen s mod 4) 0) as [E|E]; cbn [negb].
  - rewrite decoded_len by assumption. destruct (Z.ltb_spec max_out (3 * (zlen s / 4))); [lia|].
    pose proof (decode_loop (length s) s out dst 0 (le_n _) Hb E Hd (Z.le_refl 0) ltac:(dlia)) as Hl.
    destruct (DecodeBase64_loop out dst 0 s) as [out' [n|]].
    + destruct Hl as (l & Hl & -> & ->). rewrite Z.add_0_r. eauto.
    + intros l Hsp _. exact (Hl l Hsp).
  - intros l Hsp _. apply spells_len in Hsp as (n & Hn & Hl & _). rewrite Hl, Z.mul_comm, Z.mod_mul in E by lia. congruence.
Qed.

(** * What is encoded decodes *)

Lemma base64_spells l : bytes_ok l -> spells (base64 l) l.
Proof.
  induction l as [|a|a b|a b c l IH] using list_ind3; intros Hb; rewrite ?bytes_ok_cons in Hb; unfold byte_ok in Hb.
  - constructor.
  - apply spells_last. replace [a] with (be_bytes 1 (be_val [a] * 16 / 16)) at 2.
    + apply quad_1. unfold be_val. cbn [fold_left]. lia.
    + rewrite Z.div_mul by lia. apply (be_bytes_val [a]). repeat constructor; lia.
  - apply spells_last. replace [a; b] with (be_bytes 2 (be_val [a; b] * 4 / 4)) at 2.
    + apply quad_2. unfold be_val. cbn [fold_left]. lia.
    + rewrite Z.div_mul by lia. apply (be_bytes_val [a; b]). repeat constructor; lia.
  - change (a :: b :: c :: l) with ([a; b; c] ++ l). cbn [base64]. apply spells_more; [|reflexivity|apply IH; tauto].
    rewrite <- (be_bytes_val [a; b; c]) at 2 by (repeat constructor; lia). apply quad_3.
    unfold be_val. cbn [fold_left]. lia.
Qed.

Lemma base64_bytes l : bytes_ok (base64 l) /\ Forall (fun c => is_space c = false) (base64 l).
Proof.
  assert (Hd : forall n v, bytes_ok (digits n v) /\ Forall (fun c => is_space c = false) (digits n v)).
  { induction n as [|n IH]; intros v; cbn [digits]; [split; constructor|]. destruct (IH (v / 64)) as [H1 H2].
    pose proof (char_props (v mod 64) ltac:(dlia)) as (_ & _ & H3 & H4).
    split; apply Forall_app; split; auto; repeat constructor; auto. }
  assert (He : bytes_ok [61] /\ Forall (fun c => is_space c = false) [61]) by (split; repeat constructor; lia).
  induction l as [|a|a b|a b c l IH] using list_ind3; cbn [base64]; [split; constructor|..];
    (split; apply Forall_app; split; try apply Hd); try apply IH; try apply He; repeat constructor; lia.
Qed.

Lemma base64_app b l n : zlen b = 3 * n -> base64 (b ++ l) = base64 b ++ base64 l.
Proof.
  revert n. induction b as [|a|a c|a c d b IH] using list_ind3; intros n Hn; autorewrite with zlen in Hn; try lia;
    [reflexivity|]. cbn [app base64]. rewrite (IH (n - 1)) by lia. rewrite app_assoc. reflexivity.
Qed.

Lemma strip_app a b : strip (a ++ b) = strip a ++ strip b.
Proof. apply List.filter_app. Qed.

Lemma strip_base64 l : strip (base64 l) = base64 l.
Proof.
  destruct (base64_bytes l) as [_ H]. unfold strip. induction H as [|c s Hc _ IH]; [reflexivity|].
  cbn [List.filter]. rewrite Hc. cbn [negb]. f_equal. exact IH.
Qed.

Lemma strip_lines b : strip (lines b) = base64 b.
Proof. unfold lines. rewrite strip_app, strip_base64. apply app_nil_r. Qed.

Lemma strip_wrap l : strip (wrap l) = base64 l.
Proof.
  destruct (lines_of_exist l) as (e & r & H). rewrite (lines_of_wrap _ _ _ H).
  induction H as [r Hr|b l e r Hb _ IH].
  - cbn [app]. destruct r; [reflexivity|apply strip_lines].
  - rewrite <- app_assoc, strip_app, strip_lines, IH. symmetry. apply (base64_app b l 16). lia.
Qed.

(** * Streaming: decoding *)

(** The decoder on characters that are not space: [p] are those of an unfinished
    group, [eof] tells whether padding was seen.  The results are the bytes and
    the new state. *)
Fixpoint feed (p : list Z) (eof : bool) (t : list Z) : option (list Z * list Z * bool) :=
  match t with
  | [] => Some ([], p, eof)
  | c :: t =>
    if eof then None
    else
      match p with
      | [i0; i1; i2] =>
        match base64_decode_quad i0 i1 i2 c with
        | None => None
        | Some k =>
          match feed [] (zlen k <? 3) t with
          | None => None
          | Some (l, p, e) => Some (k ++ l, p, e)
          end
        end
      | _ => feed (p ++ [c]) false t
      end
  end.

Lemma feed_app s : forall p e t,
  feed p e (s ++ t) =
  match feed p e s with
  | None => None
  | Some (l, p1, e1) => match feed p1 e1 t with None => None | Some (k, p2, e2) => Some (l ++ k, p2, e2) end
  end.
Proof.
  induction s as [|c s IH]; intros p e t; [cbn; destruct (feed p e t) as [[[? ?] ?]|]; reflexivity|].
  cbn [app feed]. destruct e; [reflexivity|].
  destruct p as [|i0 [|i1 [|i2 [|i3 p]]]]; try apply IH.
  destruct (base64_decode_quad i0 i1 i2 c) as [k|]; [|reflexivity]. rewrite IH.
  destruct (feed [] (zlen k <? 3) s) as [[[l p1] e1]|]; [|reflexivity].
  destruct (feed p1 e1 t) as [[[l' p2] e2]|]; [rewrite app_assoc|]; reflexivity.
Qed.

Lemma feed_eof t l p e : feed [] true t = Some (l, p, e) -> t = [] /\ l = [] /\ p = [] /\ e = true.
Proof. destruct t; [|discriminate]. intros E. injection E as <- <- <-. auto. Qed.

(** Whole groups. *)
Lemma feed_spells_aux n : forall t l, (length t <= n)%nat -> bytes_ok t ->
  (exists e, feed [] false t = Some (l, [], e)) <-> spells t l.
Proof.
  induction n as [|n IH]; intros t l Hn Hb.
  { destruct t; [|cbn in Hn; lia]. split; [intros [e E]; injection E as <- <-; constructor|].
    intros H. apply spells_nil_inv in H as ->. eexists. reflexivity. }
  destruct t as [|a [|b [|c [|d t]]]].
  { split; [intros [e E]; injection E as <- <-; constructor|].
    intros H. apply spells_nil_inv in H as ->. eexists. reflexivity. }
  1-3: split; [intros [e E]; discriminate|intros H; apply spells_len in H as (m & _ & H & _);
    unfold zlen in H; cbn [length] in H; lia].
  rewrite spells_cons. cbn [feed app]. rewrite !bytes_ok_cons in Hb. cbn [length] in Hn.
  destruct Hb as (Ba & Bb & Bc & Bd & Hbt).
  assert (Hq : bytes_ok [a; b; c; d]) by (rewrite !bytes_ok_cons; auto using bytes_ok_nil).
  destruct (base64_decode_quad a b c d) as [k|] eqn:E.
  2: { split; [intros [e Ee]; discriminate|]. intros (k & Hk & _). apply quad_iff in Hk; [congruence|exact Hq]. }
  apply quad_iff in E; [|exact Hq]. pose proof (quad_len _ _ E) as [_ Hk].
  destruct (Z.ltb_spec (zlen k) 3) as [Hlt|Hge].
  - split.
    + intros [e Ee]. destruct (feed [] true t) as [[[l0 p0] e0]|] eqn:Ef; [|discriminate].
      apply feed_eof in Ef as (-> & -> & -> & ->). injection Ee as <- <-. exists k. split; [exact E|].
      rewrite app_nil_r. auto.
    + intros (k' & Hk' & H). rewrite (quad_fun _ _ _ Hq E Hk') in *. destruct H as [[? _]|[-> ->]]; [lia|].
      cbn [feed]. rewrite app_nil_r. eauto.
  - specialize (IH t). split.
    + intros [e Ee]. destruct (feed [] false t) as [[[l0 p0] e0]|] eqn:Ef; [|discriminate].
      injection Ee as <- -> <-. exists k. split; [exact E|]. left. split; [lia|]. exists l0. split; [|reflexivity].
      apply IH; [lia|exact Hbt|]. eauto.
    + intros (k' & Hk' & H). rewrite (quad_fun _ _ _ Hq E Hk') in *. destruct H as [(_ & l' & H & ->)|[-> ->]].
      * apply IH in H as [e He]; [|lia|exact Hbt]. rewrite He. eauto.
      * cbn [feed]. rewrite app_nil_r. eauto.
Qed.

Lemma feed_spells t l : bytes_ok t -> (exists e, feed [] false t = Some (l, [], e)) <-> spells t l.
Proof. apply (feed_spells_aux (length t)). lia. Qed.

(** What is written, at most: three bytes for each group. *)
Lemma feed_len t : forall p e l p' e',
  zlen p < 4 -> feed p e t = Some (l, p', e') -> zlen p' < 4 /\ 4 * zlen l + 3 * zlen p' <= 3 * (zlen p + zlen t).
Proof.
  induction t as [|c t IH]; intros p e l p' e' Hp E; cbn [feed] in E.
  - injection E as <- <- <-. change (zlen (@nil Z)) with 0. lia.
  - destruct e; [discriminate|]. rewrite zlen_cons.
    assert (Hstep : forall q, zlen q = zlen p + 1 -> zlen q < 4 -> feed q false t = Some (l, p', e') ->
      zlen p' < 4 /\ 4 * zlen l + 3 * zlen p' <= 3 * (zlen p + (1 + zlen t))).
    { intros q Hq Hq4 Eq. apply IH in Eq; lia. }
    destruct p as [|i0 [|i1 [|i2 [|i3 p]]]]; try (apply Hstep in E; [exact E|reflexivity|cbn; unfold zlen; cbn; lia]).
    + destruct (base64_decode_quad i0 i1 i2 c) as [k|] eqn:Eq; [|discriminate].
      destruct (feed [] (zlen k <? 3) t) as [[[l0 p0] e0]|] eqn:Ef; [|discriminate].
      injection E as <- <- <-. apply IH in Ef; [|reflexivity]. rewrite zlen_app. change (zlen (@nil Z)) with 0 in Ef.
      assert (zlen k <= 3).
      { unfold base64_decode_quad in Eq. repeat (destruct (_ || _) in Eq; [discriminate|]).
        repeat match type of Eq with (if ?b then _ else _) = _ => destruct b end; try discriminate;
          injection Eq as <-; unfold zlen; cbn [length]; lia. }
      change (zlen [i0; i1; i2]) with 3. lia.
    + pose proof (zlen_nonneg p). rewrite !zlen_cons in Hp. lia.
Qed.

(** The object holds the characters [p], and [e] tells whether padding was seen. *)
Definition keeps (ctx : EVP_ENCODE_CTX) (p : list Z) (e : bool) : Prop :=
  data_used ctx = zlen p /\ zlen p < 4 /\ zlen (data ctx) = 48 /\ ztake (zlen p) (data ctx) = p /\
  eof_seen ctx = e /\ error_encountered ctx = false.

Lemma keeps_store ctx p e c :
  keeps ctx p e ->
  exists r, zsplice (data_used ctx) [c] (data ctx) = (p ++ [c]) ++ r /\ zlen ((p ++ [c]) ++ r) = 48.
Proof.
  intros (-> & Hp & Hd & Ht & _). pose proof (zlen_nonneg p).
  exists (zdrop (zlen p + zlen [c]) (data ctx)).
  assert (E : zsplice (zlen p) [c] (data ctx) = (p ++ [c]) ++ zdrop (zlen p + zlen [c]) (data ctx))
    by (unfold zsplice; rewrite Ht, app_assoc; reflexivity).
  split; [exact E|]. rewrite <- E, zlen_zsplice by (autorewrite with zlen; lia). exact Hd.
Qed.

Lemma DecodeUpdate_loop_spec cin : forall ctx out n p e,
  keeps ctx p e -> 0 <= n -> 4 * n + 3 * (zlen p + zlen (strip cin)) <= 4 * zlen out ->
  match DecodeUpdate_loop ctx out n cin with
  | (ctx', out', Some n') =>
    exists l p' e', feed p e (strip cin) = Some (l, p', e') /\ keeps ctx' p' e' /\
                    out' = zsplice n l out /\ n' = n + zlen l
  | (ctx', _, None) => feed p e (strip cin) = None /\ error_encountered ctx' = true
  end.
Proof.
  induction cin as [|c cin IH]; intros ctx out n p e Hk Hn Ho.
  { cbn. exists [], p, e. rewrite zsplice_nil. split_and!; auto. change (zlen (@nil Z)) with 0. lia. }
  cbn [DecodeUpdate_loop strip List.filter] in *. fold (strip cin) in *. destruct (is_space c); [apply IH; assumption|].
  cbn [negb] in *. rewrite zlen_cons in Ho. pose proof Hk as (Hu & Hp & Hd & Ht & He & Herr). rewrite He. cbn [feed].
  destruct e; [split; reflexivity|]. destruct (keeps_store ctx p false c Hk) as (r & -> & Hr). rewrite Hu. cbn [data_used].
  destruct (Z.eqb_spec (zlen p + 1) 4) as [H4|H4].
  - assert (exists i0 i1 i2, p = [i0; i1; i2]) as (i0 & i1 & i2 & ->).
    { destruct p as [|i0 [|i1 [|i2 [|i3 p]]]]; unfold zlen in H4; cbn [length] in H4; try lia. eauto. }
    change (znth 0 0 _) with i0. change (znth 0 1 _) with i1. change (znth 0 2 _) with i2. change (znth 0 3 _) with c.
    destruct (base64_decode_quad i0 i1 i2 c) as [k|] eqn:Eq; [|split; reflexivity].
    assert (Hz : zlen k <= 3).
    { pose proof (feed_len [c] [i0; i1; i2] false) as Hf. cbn [feed] in Hf. rewrite Eq in Hf.
      specialize (Hf _ _ _ ltac:(reflexivity) eq_refl). rewrite app_nil_r in Hf. unfold zlen in *. cbn [length] in Hf. lia. }
    pose proof (zlen_nonneg k). change (zlen [i0; i1; i2]) with 3 in Ho. pose proof (zlen_nonneg (strip cin)).
    set (ctx1 := {| data_used := 0; data := _; eof_seen := _; error_encountered := _ |}).
    assert (Hk1 : keeps ctx1 [] (zlen k <? 3)).
    { unfold ctx1, keeps. cbn [data_used data eof_seen error_encountered].
      split_and!; auto. destruct (zlen k <? 3); auto. }
    specialize (IH ctx1 (zsplice n k out) (n + zlen k) [] _ Hk1 ltac:(lia)). rewrite zlen_zsplice in IH by lia.
    change (zlen (@nil Z)) with 0 in IH. specialize (IH ltac:(lia)).
    destruct (DecodeUpdate_loop ctx1 _ _ cin) as [[ctx' out'] [n'|]]; [|destruct IH as [-> IH]; auto].
    destruct IH as (l & p' & e' & Ef & Hk' & -> & ->). rewrite Ef. apply feed_len in Ef as Hl; [|reflexivity].
    change (zlen (@nil Z)) with 0 in Hl. destruct Hl as [_ Hl]. pose proof (zlen_nonneg p').
    exists (k ++ l), p', e'. rewrite zsplice_append, zlen_app by lia. split_and!; auto. lia.
  - replace (match p with [i0; i1; i2] => _ | _ => feed (p ++ [c]) false (strip cin) end)
      with (feed (p ++ [c]) false (strip cin)).
    2: { destruct p as [|i0 [|i1 [|i2 [|i3 p]]]]; try reflexivity. unfold zlen in H4. cbn in H4. lia. }
    apply IH; [|exact Hn|autorewrite with zlen; lia]. unfold keeps. cbn [data_used data eof_seen error_encountered].
    split_and!; auto; autorewrite with zlen; try lia. apply ztake_app_eq. autorewrite with zlen. lia.
Qed.

Lemma EVP_DecodeUpdate_spec ctx p e out cin :
  keeps ctx p e -> 3 * (zlen p + zlen cin) <= 4 * Z.min (zlen out) INT_MAX ->
  match EVP_DecodeUpdate ctx out cin with
  | (ctx', out', n, r) =>
    match feed p e (strip cin) with
    | Some (l, p', e') => r <> -1 /\ keeps ctx' p' e' /\ out' = zsplice 0 l out /\ n = zlen l
    | None => r = -1 /\ error_encountered ctx' = true
    end
  end.
Proof.
  intros Hk Ho. assert (Hs : zlen (strip cin) <= zlen cin).
  { unfold zlen, strip. pose proof (List.filter_length_le (fun c => negb (is_space c)) cin). lia. }
  pose proof (DecodeUpdate_loop_spec cin ctx out 0 p e Hk ltac:(lia) ltac:(lia)) as H.
  unfold EVP_DecodeUpdate. pose proof Hk as (_ & Hp & _ & _ & _ & ->).
  destruct (DecodeUpdate_loop ctx out 0 cin) as [[ctx' out'] [n|]].
  - destruct H as (l & p' & e' & Ef & Hk' & -> & ->). rewrite Ef. apply feed_len in Ef as [_ Hl]; [|exact Hp].
    pose proof (zlen_nonneg p'). rewrite (proj2 (Z.ltb_ge INT_MAX _)) by lia. split_and!; auto.
    destruct (eof_seen ctx'); discriminate.
  - destruct H as [-> H]. auto.
Qed.

(** All the updates, each with a buffer of its own, and the final call: the
    bytes the callers collect, or [None] if a call fails. *)
Fixpoint decode_chunks (ctx : EVP_ENCODE_CTX) (out : list Z) (chunks : list (list Z)) : option (list Z) :=
  match chunks with
  | [] => if EVP_DecodeFinal ctx =? -1 then None else Some []
  | c :: chunks =>
    match EVP_DecodeUpdate ctx out c with
    | (ctx, out', n, r) =>
      if r =? -1 then None
      else match decode_chunks ctx out chunks with Some l => Some (ztake n out' ++ l) | None => None end
    end
  end.

Lemma decode_chunks_spec chunks : forall ctx p e out,
  keeps ctx p e -> Forall (fun c => 3 * (3 + zlen c) <= 4 * Z.min (zlen out) INT_MAX) chunks ->
  decode_chunks ctx out chunks =
  match feed p e (strip (concat chunks)) with Some (l, [], _) => Some l | _ => None end.
Proof.
  induction chunks as [|c chunks IH]; intros ctx p e out Hk Hc; cbn [decode_chunks concat].
  - cbn [strip List.filter feed]. unfold EVP_DecodeFinal. destruct Hk as (-> & _ & _ & _ & _ & ->).
    destruct p; [reflexivity|]. destruct (Z.eqb_spec (zlen (z :: p)) 0) as [E|]; [|reflexivity].
    apply zlen_0 in E. discriminate.
  - apply List.Forall_cons_iff in Hc as [Hc Hcs]. rewrite strip_app, feed_app. pose proof Hk as (_ & Hp & _).
    pose proof (EVP_DecodeUpdate_spec ctx p e out c Hk ltac:(lia)) as H.
    destruct (EVP_DecodeUpdate ctx out c) as [[[ctx' out'] n] r].
    destruct (feed p e (strip c)) as [[[l p'] e']|] eqn:Ef; [|destruct H as [-> _]; reflexivity].
    destruct H as (Hr & Hk' & -> & ->). rewrite (proj2 (Z.eqb_neq r (-1))) by exact Hr.
    rewrite (IH _ _ _ _ Hk' Hcs). destruct (feed p' e' _) as [[[k [|x p2]] e2]|]; try reflexivity.
    do 2 f_equal. unfold zsplice. change (ztake 0 out) with (@nil Z). rewrite app_nil_l. apply ztake_app.
Qed.

(** * Sizes and white space *)

Lemma EVP_EncodedLength_eq len :
  0 <= len < 2 ^ 64 ->
  EVP_EncodedLength len =
    if 4 * ((len + 2) / 3) + 1 <? 2 ^ 64 then Some (4 * ((len + 2) / 3) + 1) else None.
Proof.
  intros Hl. unfold EVP_EncodedLength. destruct (Z.ltb_spec (len + 2) (2 ^ 64)) as [H1|H1].
  - rewrite (u64_small (len + 2)) by lia. rewrite (proj2 (Z.ltb_ge (len + 2) len)) by lia.
    set (q := (len + 2) / 3). assert (Hq : 0 <= q < 2 ^ 63) by (unfold q; dlia).
    rewrite Z.shiftl_mul_pow2, Z.shiftr_div_pow2 by lia. change (2 ^ 2) with 4.
    assert (Hu : 4 * q < 2 ^ 64 \/ u64 (q * 4) / 4 <> q) by (unfold u64; dlia).
    destruct (Z.ltb_spec (4 * q + 1) (2 ^ 64)) as [H2|H2].
    + rewrite (u64_small (q * 4)), Z.div_mul, Z.eqb_refl by lia. cbn [negb].
      rewrite u64_small by lia. rewrite (proj2 (Z.ltb_ge _ _)) by lia. f_equal. lia.
    + destruct Hu as [Hu|Hu]; [lia|]. rewrite (proj2 (Z.eqb_neq _ _)) by exact Hu. reflexivity.
  - replace (u64 (len + 2)) with (len + 2 - 2 ^ 64) by (unfold u64; apply Z.mod_unique with 1; lia).
    rewrite (proj2 (Z.ltb_lt _ len)) by lia.
    destruct (Z.ltb_spec (4 * ((len + 2) / 3) + 1) (2 ^ 64)); [dlia|reflexivity].
Qed.

(** [t] is [s] without spaces and tabs in front and white space behind. *)
Definition trimmed (s t : list Z) : Prop :=
  exists a b, s = a ++ t ++ b /\ Forall (fun c => c = 32 \/ c = 9) a /\ Forall (fun c => is_space c = true) b /\
    (forall c r, t = c :: r -> c <> 32 /\ c <> 9) /\ (forall r c, t = r ++ [c] -> is_space c = false).

Lemma trim_front_spec s : exists a, s = a ++ trim_front s /\ Forall (fun c => c = 32 \/ c = 9) a /\
  (forall c r, trim_front s = c :: r -> c <> 32 /\ c <> 9).
Proof.
  induction s as [|c s (a & E & Ha & Hc)]; [exists []; split_and!; [reflexivity|constructor|discriminate]|].
  cbn [trim_front]. destruct ((c =? 32) || (c =? 9)) eqn:Eo.
  - exists (c :: a). split_and!; [cbn; f_equal; exact E|constructor; [lia|exact Ha]|exact Hc].
  - exists []. split_and!; [reflexivity|constructor|]. intros x r Er. injection Er as <- _. lia.
Qed.

Lemma trim_back_spec s b : forall fuel, (length s <= fuel)%nat ->
  exists t b', s = t ++ b' /\ trim_back fuel (s ++ b) (zlen s) = zlen t /\
    Forall (fun c => is_space c = true) b' /\ (forall r c, t = r ++ [c] -> is_space c = false).
Proof.
  revert b. induction s as [|c s IH] using rev_ind; intros b fuel Hf.
  - exists [], []. split_and!; [reflexivity|destruct fuel; reflexivity|constructor|]. intros [|x r] c E; discriminate.
  - rewrite length_app in Hf. cbn [length] in Hf. destruct fuel as [|fuel]; [lia|]. cbn [trim_back].
    pose proof (zlen_nonneg s). autorewrite with zlen. rewrite (proj2 (Z.ltb_lt 0 _)) by lia. cbn [andb].
    replace (znth 0 (zlen s + (1 + 0) - 1) ((s ++ [c]) ++ b)) with c.
    2: { unfold znth. replace (Z.to_nat _) with (length s) by (unfold zlen; lia).
         rewrite <- app_assoc, app_nth2, Nat.sub_diag by lia. reflexivity. }
    destruct (is_space c) eqn:Ec.
    + destruct (IH (c :: b) fuel) as (t & b' & E & Et & Hb & Ht); [lia|]. exists t, (b' ++ [c]).
      rewrite <- app_assoc. replace (zlen s + (1 + 0) - 1) with (zlen s) by lia. split_and!; auto.
      * rewrite E at 1. symmetry. apply app_assoc.
      * apply Forall_app. auto.
    + exists (s ++ [c]), []. rewrite app_nil_r. split_and!; auto; [autorewrite with zlen; lia|].
      intros r x E. apply app_inj_tail in E as [_ <-]. exact Ec.
Qed.

Lemma trimmed_exists s :
  trimmed s (ztake (trim_back (length (trim_front s)) (trim_front s) (zlen (trim_front s))) (trim_front s)).
Proof.
  destruct (trim_front_spec s) as (a & E & Ha & Hc). set (t := trim_front s) in *.
  destruct (trim_back_spec t [] (length t) (le_n _)) as (u & b & Et & El & Hb & Hu). rewrite app_nil_r in El.
  rewrite El. rewrite Et at 1. rewrite ztake_app. exists a, b. rewrite <- Et. split_and!; auto.
  intros c r Er. apply (Hc c (r ++ b)). rewrite Et, Er. reflexivity.
Qed.

(** Zeros up to a multiple of three. *)
Definition padded (l : list Z) : list Z := l ++ zrep ((- zlen l) mod 3) 0.

Lemma zlen_padded l : zlen (padded l) = 3 * ((zlen l + 2) / 3).
Proof. unfold padded. rewrite zlen_app, zlen_zrep; dlia. Qed.

Lemma pad_loop_spec l (m : list Z) : zlen (padded l) <= zlen m ->
  pad_loop 2 (zsplice 0 l m) (zlen l) = (zsplice 0 (padded l) m, zlen (padded l)).
Proof.
  intros Hm. rewrite zlen_padded in *. unfold padded. pose proof (zlen_nonneg l).
  assert (Hs : forall x, zlen l + zlen x <= zlen m -> zsplice (zlen l) x (zsplice 0 l m) = zsplice 0 (l ++ x) m)
    by (intros x Hx; apply (zsplice_append 0 l x m); lia).
  assert (H3 : zlen l mod 3 = 0 \/ zlen l mod 3 = 1 \/ zlen l mod 3 = 2) by dlia.
  cbn [pad_loop]. destruct H3 as [E|[E|E]].
  - rewrite E. replace ((- zlen l) mod 3) with 0 by dlia. cbn [Z.eqb negb]. change (zrep 0 0) with (@nil Z).
    rewrite app_nil_r. f_equal. dlia.
  - rewrite E. replace ((- zlen l) mod 3) with 2 by dlia. replace ((zlen l + 1) mod 3) with 2 by dlia. cbn [Z.eqb Pos.eqb negb].
    rewrite Hs by (autorewrite with zlen; dlia). replace (zlen l + 1) with (0 + zlen (l ++ [0])) at 1 by (autorewrite with zlen; lia).
    rewrite zsplice_append by (autorewrite with zlen; dlia). rewrite <- app_assoc. f_equal. dlia.
  - rewrite E. replace ((- zlen l) mod 3) with 1 by dlia. replace ((zlen l + 1) mod 3) with 0 by dlia. cbn [Z.eqb Pos.eqb negb].
    rewrite Hs by (autorewrite with zlen; dlia). f_equal. dlia.
Qed.

Lemma spells_padded s l : spells s l -> zlen (padded l) = 3 * (zlen s / 4).
Proof.
  intros H. rewrite zlen_padded. assert (Hn : exists n, 0 <= n /\ zlen s = 4 * n /\ 3 * n - 2 <= zlen l <= 3 * n).
  { induction H as [|q l Hq|q l s k Hq Hl _ (n & Hn & Hs & Hk)]; [exists 0; change (zlen (@nil Z)) with 0; lia|..];
      apply quad_len in Hq as [Hq Hz]; [exists 1; lia|]. exists (1 + n). rewrite !zlen_app. lia. }
  destruct Hn as (n & Hn & -> & Hk). dlia.
Qed.

Lemma zlen_base64_digits src : zlen (base64 src) mod 4 = 0 /\ zlen src <= 3 * (zlen (base64 src) / 4).
Proof. rewrite zlen_base64. dlia. Qed.

Lemma EVP_DecodeBlock_spec dst src :
  bytes_ok src -> zlen src < 2 ^ 64 -> 3 * (zlen src / 4) <= zlen dst ->
  exists t, trimmed src t /\
    let '(dst', r) := EVP_DecodeBlock dst src in
    (exists l, spells t l /\ dst' = zsplice 0 (padded l) dst /\ r = zlen (padded l)) \/
    (r = -1 /\ (INT_MAX < 3 * (zlen t / 4) \/ forall l, ~ spells t l)).
Proof.
  intros Hb Hs Hd. eexists. split; [apply trimmed_exists|]. unfold EVP_DecodeBlock.
  set (t := ztake _ (trim_front src)). assert (Ht : zlen t <= zlen src /\ bytes_ok t).
  { destruct (trimmed_exists src) as (a & b & E & _). fold t in E. rewrite E in Hb. apply (f_equal zlen) in E.
    rewrite !zlen_app in E. pose proof (zlen_nonneg a). pose proof (zlen_nonneg b).
    rewrite !bytes_ok_app in Hb. split; [lia|tauto]. }
  pose proof (zlen_nonneg t). destruct (Z.eq_dec (zlen t mod 4) 0) as [E|E].
  - rewrite decoded_len by (auto; lia). destruct (Z.ltb_spec INT_MAX (3 * (zlen t / 4))) as [|Hi]; [auto|].
    pose proof (DecodeBase64_spec dst 0 (3 * (zlen t / 4)) t (proj2 Ht)) as H'.
    specialize (H' ltac:(lia) ltac:(lia) ltac:(dlia) ltac:(dlia)).
    destruct (EVP_DecodeBase64 dst 0 (3 * (zlen t / 4)) t) as [dst' [n|]].
    + destruct H' as (l & Hl & _ & -> & ->).
      pose proof (spells_padded _ _ Hl). rewrite pad_loop_spec by dlia. left. exists l. auto.
    + right. split; [reflexivity|]. right. intros l Hl. apply (H' l Hl). lia.
  - unfold EVP_DecodedLength. rewrite (proj2 (Z.eqb_neq _ 0)) by exact E. right. split; [reflexivity|]. right.
    intros l Hl. apply spells_len in Hl as (n & _ & Hn & _). dlia.
Qed.

(** * Properties *)

(** The size computed for an input is exact, NUL included, and is refused only
    when it does not fit a [size_t]; in that much room the encoder stores the
    base64 text of the input and a NUL, touches nothing else, and the decoder
    gives the input back. *)
Theorem EVP_EncodeBlock_correct (out out2 src : list Z) (dst dst2 max_out n : Z) :
  bytes_ok src -> zlen src < 2 ^ 64 ->
  (EVP_EncodedLength (zlen src) = None <-> 2 ^ 64 <= zlen (base64 src ++ [0])) /\
  (EVP_EncodedLength (zlen src) = Some n -> 0 <= dst -> dst + n <= zlen out ->
   n = zlen (base64 src ++ [0]) /\
   EVP_EncodeBlock out dst src = (zsplice dst (base64 src ++ [0]) out, n - 1) /\
   (0 <= dst2 -> 3 * ((n - 1) / 4) <= max_out -> dst2 + max_out <= zlen out2 ->
    EVP_DecodeBase64 out2 dst2 max_out (base64 src) = (zsplice dst2 src out2, Some (zlen src)))).
Proof.
  intros Hb Hs. pose proof (zlen_nonneg src). rewrite EVP_EncodedLength_eq by lia.
  assert (Hz : zlen (base64 src ++ [0]) = 4 * ((zlen src + 2) / 3) + 1) by (rewrite zlen_app, zlen_base64; reflexivity).
  rewrite Hz. pose proof (zlen_base64 src) as Hb64. split.
  - destruct (Z.ltb_spec (4 * ((zlen src + 2) / 3) + 1) (2 ^ 64)); split; intros; discriminate || reflexivity || lia.
  - destruct (Z.ltb_spec (4 * ((zlen src + 2) / 3) + 1) (2 ^ 64)) as [Hn|]; [|discriminate].
    intros E Hd Hl. injection E as <-. split; [reflexivity|]. rewrite EVP_EncodeBlock_eq by (auto; lia).
    split; [f_equal; lia|]. intros Hd2 Hm Ho. destruct (base64_bytes src) as [Hbb _].
    pose proof (DecodeBase64_spec out2 dst2 max_out (base64 src) Hbb) as HD. rewrite Hb64 in HD.
    specialize (HD ltac:(lia) ltac:(lia) ltac:(dlia) ltac:(lia)).
    destruct (EVP_DecodeBase64 out2 dst2 max_out (base64 src)) as [out' [k|]].
    + destruct HD as (l & Hl2 & _ & -> & ->).
      rewrite (spells_fun _ _ _ Hbb Hl2 (base64_spells src Hb)). reflexivity.
    + destruct (HD src (base64_spells src Hb)). dlia.
Qed.

(** "base64" itself. *)
Lemma EVP_EncodeBlock_correct_witness :
  EVP_EncodeBlock (zrep 12 7) 1 [98; 97; 115; 101; 54; 52] =
    ([7; 89; 109; 70; 122; 90; 84; 89; 48; 0; 7; 7], 8).
Proof.
  pose proof (EVP_EncodeBlock_correct (zrep 12 7) [] [98; 97; 115; 101; 54; 52] 1 0 0 9
    ltac:(repeat constructor; easy) ltac:(reflexivity)) as [_ H].
  destruct H as (_ & E & _); [reflexivity|discriminate|discriminate|]. rewrite E. reflexivity.
Defined.

(** The decoders accept exactly the strings that spell bytes: groups of four
    characters of the alphabet, with padding in the last group only.  The one-shot
    decoder gives those bytes if there is room for three a group;
    [EVP_DecodeBlock] first trims white space and fills up with zeros.  On
    success nothing else is touched. *)
Theorem base64_decoders_accept (out dst src : list Z) (at_ max_out : Z) :
  bytes_ok src -> zlen src < 2 ^ 64 -> 0 <= at_ -> 0 <= max_out -> at_ + max_out <= zlen out ->
  3 * (zlen src / 4) <= zlen dst ->
  (forall l, spells src l -> 3 * (zlen src / 4) <= max_out ->
     EVP_DecodeBase64 out at_ max_out src = (zsplice at_ l out, Some (zlen l))) /\
  (forall out' n, EVP_DecodeBase64 out at_ max_out src = (out', Some n) ->
     exists l, spells src l /\ 3 * (zlen src / 4) <= max_out /\ n = zlen l /\ out' = zsplice at_ l out) /\
  (exists t, trimmed src t /\
    let '(dst', r) := EVP_DecodeBlock dst src in
    (exists l, spells t l /\ dst' = zsplice 0 (padded l) dst /\ r = zlen (padded l)) \/
    (r = -1 /\ (INT_MAX < 3 * (zlen t / 4) \/ forall l, ~ spells t l))).
Proof.
  intros Hb Hs Ha Hm Ho Hd. pose proof (DecodeBase64_spec out at_ max_out src Hb Hs Ha Hm Ho) as H.
  split; [|split; [|apply EVP_DecodeBlock_spec; assumption]].
  - intros l Hl Hr. destruct (EVP_DecodeBase64 out at_ max_out src) as [out' [n|]]; [|destruct (H l Hl Hr)].
    destruct H as (k & Hk & _ & -> & ->). rewrite (spells_fun _ _ _ Hb Hl Hk). reflexivity.
  - intros out' n E. rewrite E in H. destruct H as (l & Hl & Hr & -> & ->). eauto.
Qed.

(** " YmE= " and a newline. *)
Lemma base64_decoders_accept_witness :
  EVP_DecodeBase64 (zrep 3 7) 0 3 [89; 109; 69; 61] = ([98; 97; 7], Some 2) /\
  exists t, trimmed [89; 109; 69; 61] t.
Proof.
  pose proof (base64_decoders_accept (zrep 3 7) (zrep 3 7) [89; 109; 69; 61] 0 3
    ltac:(repeat constructor; easy) ltac:(reflexivity) ltac:(discriminate) ltac:(discriminate)
    ltac:(discriminate) ltac:(discriminate)) as (H & _ & t & Ht & _).
  split; [|exists t; exact Ht]. apply (H [98; 97]); [|discriminate].
  apply spells_last, quad_iff; [repeat constructor; easy|vm_compute; reflexivity].
Defined.

(** The sizes of the buffers and the inputs of a stream. *)
Definition encoder_room (out : list Z) (chunks : list (list Z)) : Prop :=
  66 <= zlen out < 2 ^ 64 /\ Forall (fun c => update_room (zlen c) <= Z.min INT_MAX (zlen out)) chunks.

Definition decoder_room (out : list Z) (chunks : list (list Z)) : Prop :=
  Forall (fun c => 3 * (3 + zlen c) <= 4 * Z.min (zlen out) INT_MAX) chunks.

(** C37: However the input is cut into pieces, the streaming encoder writes the same:
    the base64 of the input in lines of 64 characters, each with its newline. *)
Theorem encode_stream_wraps (out : list Z) (chunks : list (list Z)) :
  bytes_ok (concat chunks) -> encoder_room out chunks ->
  encode_chunks EVP_EncodeInit out chunks = wrap (concat chunks).
Proof.
  intros Hb [Ho Hc]. apply (encode_chunks_spec chunks EVP_EncodeInit []); auto.
  split_and!; reflexivity.
Qed.

Lemma encode_stream_wraps_witness :
  encode_chunks EVP_EncodeInit (zrep 70 7) [[98]; []; [97; 115]] = [89; 109; 70; 122; 10].
Proof.
  apply (encode_stream_wraps (zrep 70 7) [[98]; []; [97; 115]]).
  - repeat constructor; easy.
  - split; [vm_compute; split; discriminate || reflexivity|repeat constructor; vm_compute; discriminate].
Defined.

(** C33: The streaming decoder, however its input is cut, accepts exactly the inputs
    that without their white space spell bytes, and writes those bytes; so it gives
    back whatever the streaming encoder was given, cut in any other way. *)
Theorem decode_stream_iff (out : list Z) (chunks : list (list Z)) :
  bytes_ok (concat chunks) -> decoder_room out chunks ->
  (forall l, decode_chunks EVP_DecodeInit out chunks = Some l <-> spells (strip (concat chunks)) l) /\
  (forall out' chunks', bytes_ok (concat chunks') -> encoder_room out' chunks' ->
     concat chunks = encode_chunks EVP_EncodeInit out' chunks' ->
     decode_chunks EVP_DecodeInit out chunks = Some (concat chunks')).
Proof.
  intros Hb Hr. assert (Hk : keeps EVP_DecodeInit [] false) by (split_and!; reflexivity).
  assert (Hs : bytes_ok (strip (concat chunks))).
  { apply List.Forall_forall. intros c Hc. apply List.filter_In in Hc as [Hc _].
    revert c Hc. apply List.Forall_forall. exact Hb. }
  assert (Hiff : forall l, decode_chunks EVP_DecodeInit out chunks = Some l <-> spells (strip (concat chunks)) l).
  { intros l. rewrite (decode_chunks_spec _ _ _ _ _ Hk Hr), <- feed_spells by exact Hs.
    destruct (feed [] false _) as [[[k [|x p]] e]|]; split; try (intros [? E]); try discriminate;
      [intros E|]; injection E as <-; eauto. }
  split; [exact Hiff|]. intros out' chunks' Hb' [Ho Hc] E. apply Hiff. rewrite E.
  rewrite (encode_chunks_spec chunks' EVP_EncodeInit []); auto; [|split_and!; reflexivity].
  cbn [app]. rewrite strip_wrap. apply base64_spells, Hb'.
Qed.

Lemma decode_stream_iff_witness :
  decode_chunks EVP_DecodeInit (zrep 9 7) [[89; 109]; [70; 122; 10]] = Some [98; 97; 115].
Proof.
  apply (proj2 (decode_stream_iff (zrep 9 7) [[89; 109]; [70; 122; 10]]
    ltac:(repeat constructor; easy) ltac:(repeat constructor; vm_compute; discriminate)) (zrep 70 7) [[98]; []; [97; 115]]).
  - repeat constructor; easy.
  - split; [vm_compute; split; discriminate || reflexivity|repeat constructor; vm_compute; discriminate].
  - vm_compute. reflexivity.
Defined.
