(* ===== verification/Stack.v ===== *)
(** crypto/stack/stack.c: growable arrays of pointers.

    A pointer is a number and NULL is 0; a stack object is [option _STACK], since
    every operation takes NULL.  What the elements mean is the callers' business:
    the comparison functions behind the pointers in [comp] are the interface
    [Elements].  The specification is a list with a flag and a function. *)
From Stdlib Require Import ZArith Lia Sorted.
From stdpp Require Import base list numbers.
From S2P Require Import Prelude.
From S2P Require Import Mem.
From S2P Require Import Sort.

Open Scope Z_scope.

(** What [call_cmp_func(comp, &a, &b)] returns. *)
Class Elements := { call_cmp_func : Z -> Z -> Z -> Z }.

(** * The code *)

Definition kMinSize : Z := 4.

Record _STACK := {
  num : Z;
  data : list Z;
  sorted : bool;
  num_alloc : Z;
  comp : Z
}.

Definition sizeof_STACK : Z := 40.
Definition sizeof_ptr : Z := 8.

Section Code.
Context `{Malloc} `{Qsort} `{Elements}.

Definition sk_new (c : Z) (h : heap) : option _STACK * heap :=
  match OPENSSL_malloc h sizeof_STACK with
  | (None, h) => (None, h)
  | (Some _, h) =>
    match OPENSSL_malloc h (sizeof_ptr * kMinSize) with
    | (None, h) => (None, h)
    | (Some _, h) =>
      (Some {| num := 0; data := zrep kMinSize 0; sorted := false; num_alloc := kMinSize; comp := c |}, h)
    end
  end.

Definition sk_new_null (h : heap) : option _STACK * heap := sk_new 0 h.

Definition sk_num (sk : option _STACK) : Z :=
  match sk with None => 0 | Some sk => num sk end.

Definition sk_zero (sk : option _STACK) : option _STACK :=
  match sk with
  | None => None
  | Some s =>
    if num s =? 0 then sk
    else Some {| num := 0; data := zsplice 0 (zrep (num s) 0) (data s); sorted := false;
                 num_alloc := num_alloc s; comp := comp s |}
  end.

Definition sk_value (sk : option _STACK) (i : Z) : Z :=
  match sk with
  | None => 0
  | Some s => if num s <=? i then 0 else znth 0 i (data s)
  end.

Definition sk_set (sk : option _STACK) (i value : Z) : Z * option _STACK :=
  match sk with
  | None => (0, sk)
  | Some s =>
    if num s <=? i then (0, sk)
    else (value, Some {| num := num s; data := zsplice i [value] (data s); sorted := sorted s;
                         num_alloc := num_alloc s; comp := comp s |})
  end.

(** The pointers handed to [call_free_func], in order. *)
Definition sk_pop_free_ex (sk : option _STACK) : list Z :=
  match sk with
  | None => []
  | Some s => List.filter (fun p => negb (p =? 0)) (ztake (num s) (data s))
  end.

Definition sk_pop_free (sk : option _STACK) : list Z := sk_pop_free_ex sk.

(** [OPENSSL_realloc] of an array of pointers. *)
Definition realloc_cells (h : heap) (old : list Z) (alloc_size : Z) : option (list Z) * heap :=
  match OPENSSL_malloc h alloc_size with
  | (None, h) => (None, h)
  | (Some r, h) =>
    let n := alloc_size / sizeof_ptr in
    let to_copy := if zlen old <? n then zlen old else n in
    (Some (ztake to_copy old ++ zdrop to_copy (cells n r)), h)
  end.

(** The new size in pointers, or nothing when the sizes overflow. *)
Definition new_alloc_size (num_alloc : Z) : option Z :=
  let overflows new_alloc :=
    (new_alloc <? num_alloc) || negb (u64 (new_alloc * sizeof_ptr) / sizeof_ptr =? new_alloc) in
  let new_alloc := u64 (Z.shiftl num_alloc 1) in
  let new_alloc := if overflows new_alloc then u64 (num_alloc + 1) else new_alloc in
  if overflows new_alloc then None else Some new_alloc.

Definition grow (s : _STACK) (h : heap) : option _STACK * heap :=
  if num_alloc s <=? u64 (num s + 1) then
    match new_alloc_size (num_alloc s) with
    | None => (None, h)
    | Some new_alloc =>
      match realloc_cells h (data s) (u64 (new_alloc * sizeof_ptr)) with
      | (None, h) => (None, h)
      | (Some d, h) =>
        (Some {| num := num s; data := d; sorted := sorted s; num_alloc := new_alloc; comp := comp s |}, h)
      end
    end
  else (Some s, h).

Definition sk_insert (sk : option _STACK) (p where_ : Z) (h : heap) : Z * option _STACK * heap :=
  match sk with
  | None => (0, sk, h)
  | Some s =>
    match grow s h with
    | (None, h) => (0, sk, h)
    | (Some s, h) =>
      let d :=
        if num s <=? where_ then zsplice (num s) [p] (data s)
        else
          zsplice where_ [p] (zsplice (where_ + 1) (zsub where_ (num s - where_) (data s)) (data s)) in
      (u64 (num s + 1),
       Some {| num := u64 (num s + 1); data := d; sorted := false; num_alloc := num_alloc s; comp := comp s |}, h)
    end
  end.

Definition sk_delete (sk : option _STACK) (where_ : Z) : Z * option _STACK :=
  match sk with
  | None => (0, sk)
  | Some s =>
    if num s <=? where_ then (0, sk)
    else
      let r := znth 0 where_ (data s) in
      let d :=
        if negb (where_ =? num s - 1) then
          zsplice where_ (zsub (where_ + 1) (num s - where_ - 1) (data s)) (data s)
        else data s in
      (r, Some {| num := num s - 1; data := d; sorted := sorted s; num_alloc := num_alloc s; comp := comp s |})
  end.

(** The first index from [i] on where [f] holds, of the [n] elements left. *)
Fixpoint search (f : Z -> bool) (l : list Z) (i : Z) : option Z :=
  match l with
  | [] => None
  | x :: l => if f x then Some i else search f l (i + 1)
  end.

Definition sk_delete_ptr (sk : option _STACK) (p : Z) : Z * option _STACK :=
  match sk with
  | None => (0, sk)
  | Some s =>
    match search (fun x => x =? p) (ztake (num s) (data s)) 0 with
    | Some i => sk_delete sk i
    | None => (0, sk)
    end
  end.

Definition sk_is_sorted (sk : option _STACK) : bool :=
  match sk with None => true | Some s => sorted s end.

(** The loop of the binary search. *)
Fixpoint binary_search (fuel : nat) (s : _STACK) (p lo hi : Z) : option Z :=
  if negb (lo <? hi) then None
  else
    match fuel with
    | O => None
    | S fuel =>
      let mid := lo + (hi - lo - 1) / 2 in
      let elem := znth 0 mid (data s) in
      let r := call_cmp_func (comp s) p elem in
      if 0 <? r then binary_search fuel s p (mid + 1) hi
      else if r <? 0 then binary_search fuel s p lo mid
      else if hi - lo =? 1 then Some mid
      else binary_search fuel s p lo (mid + 1)
    end.

(** [*out_index], when the result is 1. *)
Definition sk_find (sk : option _STACK) (p : Z) : option Z :=
  match sk with
  | None => None
  | Some s =>
    if comp s =? 0 then search (fun x => x =? p) (ztake (num s) (data s)) 0
    else if p =? 0 then None
    else if negb (sk_is_sorted sk) then
      search (fun elem => call_cmp_func (comp s) p elem =? 0) (ztake (num s) (data s)) 0
    else binary_search (Z.to_nat (num s)) s p 0 (num s)
  end.

Definition sk_shift (sk : option _STACK) : Z * option _STACK :=
  match sk with
  | None => (0, sk)
  | Some s => if num s =? 0 then (0, sk) else sk_delete sk 0
  end.

(** The argument reads the number of elements, so NULL is not allowed here. *)
Definition sk_push (s : _STACK) (p : Z) (h : heap) : Z * option _STACK * heap :=
  sk_insert (Some s) p (num s) h.

Definition sk_pop (sk : option _STACK) : Z * option _STACK :=
  match sk with
  | None => (0, sk)
  | Some s => if num s =? 0 then (0, sk) else sk_delete sk (num s - 1)
  end.

Definition sk_dup (sk : option _STACK) (h : heap) : option _STACK * heap :=
  match sk with
  | None => (None, h)
  | Some s =>
    match OPENSSL_malloc h sizeof_STACK with
    | (None, h) => (None, h)
    | (Some _, h) =>
      match OPENSSL_malloc h (u64 (sizeof_ptr * num_alloc s)) with
      | (None, h) => (None, h)
      | (Some r, h) =>
        (Some {| num := num s; data := zsplice 0 (ztake (num s) (data s)) (cells (num_alloc s) r);
                 sorted := sorted s; num_alloc := num_alloc s; comp := comp s |}, h)
      end
    end
  end.

Definition sk_sort (sk : option _STACK) : option _STACK :=
  match sk with
  | None => None
  | Some s =>
    if (comp s =? 0) || sorted s then sk
    else
      Some {| num := num s;
              data := if 2 <=? num s then
                        zsplice 0 (qsort (ztake (num s) (data s)) (call_cmp_func (comp s))) (data s)
                      else data s;
              sorted := true; num_alloc := num_alloc s; comp := comp s |}
  end.

Definition sk_set_cmp_func (s : _STACK) (c : Z) : Z * _STACK :=
  (comp s,
   {| num := num s; data := data s; sorted := if negb (comp s =? c) then false else sorted s;
      num_alloc := num_alloc s; comp := c |}).

Section DeepCopy.
(** [call_copy_func(copy_func, p)], in a world of its own. *)
Context {world : Type} (call_copy_func : world -> Z -> Z * world).

(** The loop from index [i] on, for [fuel] elements; the results are the object,
    or what was given to [call_free_func]. *)
Fixpoint copy_loop (fuel : nat) (s : _STACK) (i : Z) (w : world) : (_STACK + list Z) * world :=
  match fuel with
  | O => (inl s, w)
  | S fuel =>
    if znth 0 i (data s) =? 0 then copy_loop fuel s (i + 1) w
    else
      let '(c, w) := call_copy_func w (znth 0 i (data s)) in
      let s := {| num := num s; data := zsplice i [c] (data s); sorted := sorted s;
                  num_alloc := num_alloc s; comp := comp s |} in
      if znth 0 i (data s) =? 0 then
        (inr (List.filter (fun p => negb (p =? 0)) (ztake i (data s))), w)
      else copy_loop fuel s (i + 1) w
  end.

(** The copy, the pointers freed, and what the allocator and the world became. *)
Definition sk_deep_copy (sk : option _STACK) (h : heap) (w : world)
  : option _STACK * list Z * heap * world :=
  match sk_dup sk h with
  | (None, h) => (None, [], h, w)
  | (Some s, h) =>
    match copy_loop (Z.to_nat (num s)) s 0 w with
    | (inl s, w) => (Some s, [], h, w)
    | (inr freed, w) => (None, freed, h, w)
    end
  end.
End DeepCopy.
End Code.

(** * The specification: a list, whether it is known to be sorted, a function *)

Record view := { elems : list Z; flag : bool; cmp : Z }.

Definition contents (s : _STACK) : list Z := ztake (num s) (data s).

Definition view_of (s : _STACK) : view :=
  {| elems := contents s; flag := sorted s; cmp := comp s |}.

(** One place is always left, and the size of the array in bytes fits. *)
Definition stack_ok (s : _STACK) : Prop :=
  0 <= num s < num_alloc s /\ zlen (data s) = num_alloc s /\ num_alloc s < 2 ^ 61.

Inductive op :=
| Insert (p where_ : Z) | Push (p : Z) | Delete (where_ : Z) | DeletePtr (p : Z) | Shift | Pop
| Set_ (i value : Z) | Zero | Sort | SetCmp (c : Z).

Definition op_ok (o : op) : Prop :=
  match o with Insert _ i | Delete i | Set_ i _ => 0 <= i < 2 ^ 64 | _ => True end.

Definition insertion (o : op) : bool :=
  match o with Insert _ _ | Push _ => true | _ => false end.

Section Spec.
Context `{Qsort} `{Elements}.

Definition remove (i : Z) (v : view) : Z * view :=
  if zlen (elems v) <=? i then (0, v)
  else (znth 0 i (elems v),
        {| elems := ztake i (elems v) ++ zdrop (i + 1) (elems v); flag := flag v; cmp := cmp v |}).

Definition add (p i : Z) (v : view) : Z * view :=
  (zlen (elems v) + 1,
   {| elems := ztake i (elems v) ++ [p] ++ zdrop i (elems v); flag := false; cmp := cmp v |}).

Definition spec (o : op) (v : view) : Z * view :=
  match o with
  | Insert p i => add p i v
  | Push p => add p (zlen (elems v)) v
  | Delete i => remove i v
  | DeletePtr p => match search (fun x => x =? p) (elems v) 0 with Some i => remove i v | None => (0, v) end
  | Shift => remove 0 v
  | Pop => if zlen (elems v) =? 0 then (0, v) else remove (zlen (elems v) - 1) v
  | Set_ i x =>
    if zlen (elems v) <=? i then (0, v)
    else (x, {| elems := zsplice i [x] (elems v); flag := flag v; cmp := cmp v |})
  | Zero => (0, if zlen (elems v) =? 0 then v else {| elems := []; flag := false; cmp := cmp v |})
  | Sort =>
    (0, if (cmp v =? 0) || flag v then v
        else {| elems := qsort (elems v) (call_cmp_func (cmp v)); flag := true; cmp := cmp v |})
  | SetCmp c =>
    (cmp v, {| elems := elems v; flag := if cmp v =? c then flag v else false; cmp := c |})
  end.

(** The functions of the code, on an object that exists. *)
Definition run `{Malloc} (o : op) (s : _STACK) (h : heap) : Z * option _STACK * heap :=
  match o with
  | Insert p i => sk_insert (Some s) p i h
  | Push p => sk_push s p h
  | Delete i => (sk_delete (Some s) i, h)
  | DeletePtr p => (sk_delete_ptr (Some s) p, h)
  | Shift => (sk_shift (Some s), h)
  | Pop => (sk_pop (Some s), h)
  | Set_ i x => (sk_set (Some s) i x, h)
  | Zero => (0, sk_zero (Some s), h)
  | Sort => (0, sk_sort (Some s), h)
  | SetCmp c => let '(r, s) := sk_set_cmp_func s c in (r, Some s, h)
  end.
End Spec.

(** * Arrays *)

Lemma contents_len s : stack_ok s -> zlen (contents s) = num s.
Proof. intros (Hn & Hd & _). apply zlen_ztake. lia. Qed.

(** * Growing *)

Lemma size_overflow x : 0 <= x < 2 ^ 64 -> (u64 (x * sizeof_ptr) / sizeof_ptr =? x) = (x <? 2 ^ 61).
Proof.
  intros Hx. unfold sizeof_ptr, u64. change 18446744073709551616 with (2 ^ 61 * 8).
  rewrite Z.mul_mod_distr_r, Z.div_mul by lia.
  destruct (Z.ltb_spec x (2 ^ 61)); [apply Z.eqb_eq, Z.mod_small; lia|].
  apply Z.eqb_neq. pose proof (Z.mod_pos_bound x (2 ^ 61)). lia.
Qed.

Lemma new_alloc_size_spec n :
  0 < n < 2 ^ 61 ->
  match new_alloc_size n with Some m => n < m <= 2 * n /\ m < 2 ^ 61 | None => n = 2 ^ 61 - 1 end.
Proof.
  intros Hn. unfold new_alloc_size. rewrite Z.shiftl_mul_pow2 by lia. rewrite (u64_small (n * 2 ^ 1)) by lia.
  rewrite (u64_small (n + 1)) by lia. rewrite !size_overflow by lia.
  rewrite (proj2 (Z.ltb_ge (n * 2 ^ 1) n)) by lia. cbn [orb].
  destruct (Z.ltb_spec (n * 2 ^ 1) (2 ^ 61)) as [H1|H1]; cbn [negb].
  - rewrite size_overflow, (proj2 (Z.ltb_ge (n * 2 ^ 1) n)), (proj2 (Z.ltb_lt _ _) H1) by lia. cbn [orb negb]. lia.
  - rewrite size_overflow, (proj2 (Z.ltb_ge (n + 1) n)) by lia. cbn [orb].
    destruct (Z.ltb_spec (n + 1) (2 ^ 61)); cbn [negb]; lia.
Qed.

Section Lemmas.
Context `{Malloc} `{Qsort} `{Elements}.

Lemma grow_spec s h :
  stack_ok s ->
  match grow s h with
  | (Some s', _) =>
    stack_ok s' /\ num s + 1 < num_alloc s' /\ num s' = num s /\ contents s' = contents s /\
    sorted s' = sorted s /\ comp s' = comp s
  | (None, _) => forall lim, ~ (grants lim /\ 16 * (num s + 1) + 8 <= lim < 2 ^ 64)
  end.
Proof.
  intros (Hn & Hd & Ha). unfold grow. rewrite u64_small by lia.
  destruct (Z.leb_spec (num_alloc s) (num s + 1)) as [Hg|Hg]; [|split_and!; auto; unfold stack_ok; lia].
  pose proof (new_alloc_size_spec (num_alloc s) ltac:(lia)) as Hs.
  destruct (new_alloc_size (num_alloc s)) as [m|]; [|intros lim [_ Hl]; lia].
  unfold sizeof_ptr. rewrite u64_small by lia. unfold realloc_cells. change sizeof_ptr with 8. rewrite Z.div_mul by lia.
  destruct (OPENSSL_malloc h (m * 8)) as [[r|] h'] eqn:E.
  - rewrite Hd. rewrite (proj2 (Z.ltb_lt _ m)) by lia. unfold stack_ok, contents. cbn [num data sorted num_alloc comp].
    rewrite zlen_app, zlen_ztake, zlen_zdrop by (rewrite ?zlen_cells; lia). rewrite zlen_cells by lia.
    rewrite ztake_app_le by (rewrite zlen_ztake; lia). rewrite ztake_ztake by lia. split_and!; auto; lia.
  - intros lim [G Hl]. destruct (OPENSSL_malloc_grants lim h (m * 8) G) as (r & h1 & E' & _); [lia..|]. congruence.
Qed.

Lemma insert_contents s p i :
  stack_ok s -> num s + 1 < num_alloc s -> 0 <= i ->
  let d := if num s <=? i then zsplice (num s) [p] (data s)
           else zsplice i [p] (zsplice (i + 1) (zsub i (num s - i) (data s)) (data s)) in
  ztake (num s + 1) d = ztake i (contents s) ++ [p] ++ zdrop i (contents s) /\ zlen d = num_alloc s.
Proof.
  intros Hok Hr Hi. pose proof (contents_len s Hok) as Hc. destruct Hok as (Hn & Hd & _).
  destruct (Z.leb_spec (num s) i) as [Hge|Hlt]; intros d.
  - unfold d. rewrite zlen_zsplice by (autorewrite with zlen; lia). split; [|exact Hd].
    rewrite ztake_zsplice_end by (autorewrite with zlen; lia). fold (contents s).
    unfold ztake at 1, zdrop. rewrite take_ge, drop_ge, app_nil_r by (unfold zlen in Hc; lia). reflexivity.
  - set (b := zsub i (num s - i) (data s)) in *.
    assert (Hb : zlen b = num s - i) by (unfold b, zsub; rewrite zlen_ztake; rewrite ?zlen_zdrop; lia).
    assert (Hz : zlen (zsplice (i + 1) b (data s)) = num_alloc s) by (rewrite zlen_zsplice; lia).
    unfold d. rewrite zlen_zsplice by (autorewrite with zlen; lia). split; [|exact Hz].
    rewrite ztake_zsplice by (autorewrite with zlen; lia). rewrite ztake_zsplice_end by lia.
    assert (Hz1 : zlen (ztake (i + 1) (data s)) = i + 1) by (apply zlen_ztake; lia).
    unfold zsplice. change (zlen [p]) with 1. rewrite zdrop_app_eq by lia. rewrite ztake_app_le by lia.
    rewrite ztake_ztake by lia. unfold contents. rewrite ztake_ztake, zdrop_ztake by lia. reflexivity.
Qed.

Lemma sk_insert_spec s p i h :
  stack_ok s -> 0 <= i ->
  let '(r, os, h') := sk_insert (Some s) p i h in
  exists s', os = Some s' /\ stack_ok s' /\
    (((r, view_of s') = add p i (view_of s)) \/
     (r = 0 /\ s' = s /\ forall lim, ~ (grants lim /\ 16 * (num s + 1) + 8 <= lim < 2 ^ 64))).
Proof.
  intros Hok Hi. unfold sk_insert. pose proof (grow_spec s h Hok) as Hg.
  destruct (grow s h) as [[s1|] h1]; [|exists s; split; [reflexivity|]; split; [exact Hok|]; right; auto].
  destruct Hg as (Hok1 & Hr & En & Ec & Es & Ef). rewrite <- En in Hr.
  destruct (insert_contents s1 p i Hok1 Hr Hi) as [E Hz]. destruct Hok1 as (Hn & Hd & Ha).
  rewrite u64_small by lia. eexists. split; [reflexivity|]. split.
  - unfold stack_ok. cbn [num data num_alloc]. rewrite Hz. lia.
  - left. unfold add, view_of, contents at 1. cbn [num data sorted comp elems cmp]. rewrite E, Ec, Ef.
    rewrite contents_len by exact Hok. rewrite En. reflexivity.
Qed.

Lemma sk_delete_spec s i :
  stack_ok s -> 0 <= i ->
  exists s', sk_delete (Some s) i = (fst (remove i (view_of s)), Some s') /\
             stack_ok s' /\ view_of s' = snd (remove i (view_of s)).
Proof.
  intros Hok Hi. pose proof (contents_len s Hok) as Hc. pose proof Hok as (Hn & Hd & Ha). unfold sk_delete, remove.
  cbn [view_of elems]. rewrite Hc. destruct (Z.leb_spec (num s) i) as [|Hlt]; [exists s; auto|].
  cbn [fst snd]. unfold contents at 1. rewrite znth_ztake by lia.
  set (b := zsub (i + 1) (num s - i - 1) (data s)).
  assert (Hb : zlen b = num s - i - 1) by (unfold b, zsub; rewrite zlen_ztake; rewrite ?zlen_zdrop; lia).
  eexists. split; [reflexivity|]. unfold stack_ok, view_of. cbn [num data sorted num_alloc comp elems].
  assert (E : zdrop (i + 1) (contents s) = b) by (unfold contents; rewrite zdrop_ztake by lia; unfold b; f_equal; lia).
  rewrite E. destruct (Z.eqb_spec i (num s - 1)) as [->|Hne]; cbn [negb].
  - split; [lia|]. f_equal. unfold contents. cbn [num data]. assert (b = []) as -> by (apply zlen_0; lia).
    rewrite app_nil_r, ztake_ztake by lia. reflexivity.
  - rewrite zlen_zsplice by lia. split; [lia|]. f_equal. unfold contents at 1. cbn [num data].
    rewrite ztake_zsplice_end by lia. unfold contents. rewrite ztake_ztake by lia. reflexivity.
Qed.

Lemma search_range f l i : search f l 0 = Some i -> 0 <= i < zlen l.
Proof.
  assert (Hs : forall k j, search f l k = Some j -> k <= j < k + zlen l).
  { induction l as [|x l IH]; intros k j; cbn [search]; [discriminate|]. rewrite zlen_cons.
    pose proof (zlen_nonneg l). destruct (f x); [intros E; injection E as <-; lia|]. intros E. apply IH in E. lia. }
  intros E. apply Hs in E. lia.
Qed.

Lemma sk_sort_spec s :
  stack_ok s ->
  exists s', sk_sort (Some s) = Some s' /\ stack_ok s' /\ view_of s' = snd (spec Sort (view_of s)).
Proof.
  intros Hok. pose proof (contents_len s Hok) as Hc. pose proof Hok as (Hn & Hd & Ha).
  cbn [spec snd view_of elems flag cmp]. unfold sk_sort.
  destruct ((comp s =? 0) || sorted s); [exists s; auto|]. eexists. split; [reflexivity|].
  set (q := qsort (ztake (num s) (data s)) (call_cmp_func (comp s))).
  pose proof (qsort_permutation _ (ztake (num s) (data s)) (call_cmp_func (comp s))) as Hp. fold q in Hp.
  assert (Hq : zlen q = num s) by (transitivity (zlen (contents s)); [unfold zlen; rewrite <- (Permutation_length Hp); reflexivity|exact Hc]).
  unfold stack_ok, view_of. cbn [num data sorted num_alloc comp].
  destruct (Z.leb_spec 2 (num s)) as [H2|H2].
  - rewrite zlen_zsplice by lia. split; [lia|]. f_equal. unfold contents at 1. cbn [num data].
    rewrite ztake_zsplice_end by lia. reflexivity.
  - split; [lia|]. f_equal. unfold contents at 1. cbn [num data]. fold (contents s) in *. fold q.
    destruct (contents s) as [|x [|y l]]; [symmetry; apply Permutation_nil, Hp|symmetry; apply Permutation_length_1_inv, Hp|].
    rewrite !zlen_cons in Hc. pose proof (zlen_nonneg l). lia.
Qed.

Lemma sk_set_spec s i x :
  stack_ok s -> 0 <= i ->
  exists s', sk_set (Some s) i x = (fst (spec (Set_ i x) (view_of s)), Some s') /\
             stack_ok s' /\ view_of s' = snd (spec (Set_ i x) (view_of s)).
Proof.
  intros Hok Hi. pose proof (contents_len s Hok) as Hc. pose proof Hok as (Hn & Hd & Ha).
  cbn [spec view_of elems flag cmp]. rewrite Hc. unfold sk_set.
  destruct (Z.leb_spec (num s) i); [exists s; auto|]. cbn [fst snd]. eexists. split; [reflexivity|].
  unfold stack_ok, view_of. cbn [num data sorted num_alloc comp].
  rewrite zlen_zsplice by (autorewrite with zlen; lia). split; [lia|]. f_equal. unfold contents at 1. cbn [num data].
  apply ztake_zsplice; autorewrite with zlen; lia.
Qed.

Lemma sk_zero_spec s :
  stack_ok s ->
  exists s', sk_zero (Some s) = Some s' /\ stack_ok s' /\ view_of s' = snd (spec Zero (view_of s)).
Proof.
  intros Hok. pose proof (contents_len s Hok) as Hc. pose proof Hok as (Hn & Hd & Ha).
  cbn [spec view_of elems flag cmp snd]. rewrite Hc. unfold sk_zero.
  destruct (Z.eqb_spec (num s) 0); [exists s; auto|]. eexists. split; [reflexivity|].
  unfold stack_ok, view_of. cbn [num data sorted num_alloc comp].
  rewrite zlen_zsplice; rewrite ?zlen_zrep; try lia. split; [lia|]. reflexivity.
Qed.

(** Every operation does what the specification says, or is an insertion that had
    no memory and changed nothing. *)
Lemma run_spec o s h :
  stack_ok s -> op_ok o ->
  let '(r, os, h') := run o s h in
  exists s', os = Some s' /\ stack_ok s' /\
    ((r, view_of s') = spec o (view_of s) \/
     (insertion o = true /\ r = 0 /\ s' = s /\
      forall lim, ~ (grants lim /\ 16 * (num s + 1) + 8 <= lim < 2 ^ 64))).
Proof.
  intros Hok Ho. pose proof (contents_len s Hok) as Hc. pose proof Hok as (Hn & _).
  assert (Hdel : forall i, 0 <= i -> exists s', sk_delete (Some s) i = (fst (remove i (view_of s)), Some s') /\
    stack_ok s' /\ (fst (remove i (view_of s)), view_of s') = remove i (view_of s)).
  { intros i Hi. destruct (sk_delete_spec s i Hok Hi) as (s' & E & Hs' & Ev). exists s'. rewrite Ev.
    split; [exact E|]. split; [exact Hs'|]. destruct (remove i (view_of s)). reflexivity. }
  destruct o; cbn [run op_ok spec insertion] in *; unfold sk_push, sk_delete_ptr, sk_shift, sk_pop; cbn [view_of elems];
    fold (contents s); rewrite ?Hc.
  - pose proof (sk_insert_spec s p where_ h Hok ltac:(lia)) as Hi. destruct (sk_insert _ _ _ _) as [[r os] h'].
    destruct Hi as (s' & E & Hs' & [Ev|(? & ? & ?)]); exists s'; auto 7.
  - pose proof (sk_insert_spec s p (num s) h Hok ltac:(lia)) as Hi. destruct (sk_insert _ _ _ _) as [[r os] h'].
    destruct Hi as (s' & E & Hs' & [Ev|(? & ? & ?)]); exists s'; auto 7.
  - destruct (Hdel where_) as (s' & -> & Hs' & Ev); [lia|]. exists s'. auto.
  - destruct (search _ (contents s) 0) as [i|] eqn:E; [|exists s; auto].
    apply search_range in E. destruct (Hdel i) as (s' & -> & Hs' & Ev); [lia|]. exists s'. auto.
  - destruct (Z.eqb_spec (num s) 0) as [E|E].
    + exists s. split; [reflexivity|]. split; [exact Hok|]. left. unfold remove. cbn [view_of elems]. rewrite Hc.
      rewrite (proj2 (Z.leb_le _ 0)) by lia. reflexivity.
    + destruct (Hdel 0) as (s' & -> & Hs' & Ev); [lia|]. exists s'. auto.
  - destruct (Z.eqb_spec (num s) 0) as [E|E]; [exists s; auto|].
    destruct (Hdel (num s - 1)) as (s' & -> & Hs' & Ev); [lia|]. exists s'. auto.
  - destruct (sk_set_spec s i value Hok) as (s' & E & Hs' & Ev); [lia|]. rewrite E. exists s'. rewrite Ev.
    split; [reflexivity|]. split; [exact Hs'|]. left. cbn [spec view_of elems]. rewrite Hc. destruct (num s <=? i); reflexivity.
  - destruct (sk_zero_spec s Hok) as (s' & -> & Hs' & Ev). exists s'. rewrite Ev. cbn [spec view_of elems snd]. rewrite Hc. auto.
  - destruct (sk_sort_spec s Hok) as (s' & -> & Hs' & Ev). exists s'. rewrite Ev. auto.
  - eexists. split; [reflexivity|]. split; [exact Hok|]. left. unfold view_of. cbn [comp sorted num data]. f_equal. f_equal.
    cbn [cmp flag]. destruct (comp s =? c); reflexivity.
Qed.

(** * Any sequence of operations *)

Fixpoint run_all (ops : list op) (sk : option _STACK) (h : heap) : list Z * option _STACK :=
  match ops, sk with
  | o :: ops, Some s =>
    let '(r, sk, h) := run o s h in
    let '(rs, sk) := run_all ops sk h in (r :: rs, sk)
  | _, _ => ([], sk)
  end.

Fixpoint spec_all (ops : list op) (v : view) : list Z * view :=
  match ops with
  | [] => ([], v)
  | o :: ops => let '(r, v) := spec o v in let '(rs, v) := spec_all ops v in (r :: rs, v)
  end.

(** The specification with insertions that may be refused. *)
Inductive behaves : view -> list op -> list Z -> view -> Prop :=
| behaves_nil v : behaves v [] [] v
| behaves_step v o ops r rs v1 v2 :
    spec o v = (r, v1) -> behaves v1 ops rs v2 -> behaves v (o :: ops) (r :: rs) v2
| behaves_refused v o ops rs v2 :
    insertion o = true -> behaves v ops rs v2 -> behaves v (o :: ops) (0 :: rs) v2.

Lemma spec_len o v : zlen (elems (snd (spec o v))) <= zlen (elems v) + 1.
Proof.
  pose proof (zlen_nonneg (elems v)) as Hv.
  assert (Ht : forall i, zlen (ztake i (elems v)) <= zlen (elems v))
    by (intros i; unfold ztake, zlen; rewrite length_take; lia).
  assert (Htd : forall i, zlen (ztake i (elems v)) + zlen (zdrop i (elems v)) = zlen (elems v))
    by (intros i; unfold ztake, zdrop, zlen; rewrite length_take, length_drop; lia).
  assert (Hr : forall i, zlen (elems (snd (remove i v))) <= zlen (elems v) + 1).
  { intros i. unfold remove. destruct (Z.leb_spec (zlen (elems v)) i); cbn [snd elems]; [lia|]. rewrite zlen_app.
    pose proof (Htd i). unfold zdrop, zlen in *. rewrite !length_drop in *. lia. }
  destruct o; cbn [spec]; auto; unfold add; cbn [snd elems]; autorewrite with zlen; try (pose proof (Htd where_); lia).
  - pose proof (Htd (zlen (elems v))). lia.
  - destruct (search _ _ _); [apply Hr|cbn [snd]; lia].
  - destruct (_ =? 0); [cbn [snd]; lia|apply Hr].
  - destruct (Z.leb_spec (zlen (elems v)) i); cbn [snd elems]; [lia|]. unfold zsplice, zlen, ztake, zdrop. rewrite !length_app, length_take, length_drop. cbn [length]. lia.
  - destruct (_ =? 0); cbn [elems]; change (zlen (@nil Z)) with 0; lia.
  - destruct (_ || _); cbn [elems]; [lia|]. unfold zlen. rewrite <- (Permutation_length (qsort_permutation _ (elems v) (call_cmp_func (cmp v)))). lia.
  - lia.
Qed.

Lemma run_all_spec ops : forall s h,
  stack_ok s -> Forall op_ok ops ->
  let '(rs, sk) := run_all ops (Some s) h in
  exists s', sk = Some s' /\ stack_ok s' /\ behaves (view_of s) ops rs (view_of s') /\
    forall lim, grants lim -> 16 * (num s + zlen ops) + 8 <= lim < 2 ^ 64 ->
      (rs, view_of s') = spec_all ops (view_of s).
Proof.
  induction ops as [|o ops IH]; intros s h Hok Ho; cbn [run_all spec_all].
  - exists s. repeat split; try apply Hok. constructor.
  - apply List.Forall_cons_iff in Ho as [Ho Hos]. pose proof (run_spec o s h Hok Ho) as Hr.
    destruct (run o s h) as [[r os] h1]. destruct Hr as (s1 & -> & Hok1 & Hr).
    specialize (IH s1 h1 Hok1 Hos). destruct (run_all ops (Some s1) h1) as [rs sk].
    destruct IH as (s2 & -> & Hok2 & Hb & Hm). exists s2. split; [reflexivity|]. split; [exact Hok2|].
    destruct Hr as [E|(Hi & -> & -> & Hno)].
    + split; [econstructor; [symmetry; exact E|exact Hb]|]. intros lim G Hl. rewrite <- E.
      pose proof (spec_len o (view_of s)) as Hlen. rewrite <- E in Hlen. cbn [snd view_of elems] in Hlen.
      rewrite !contents_len in Hlen by assumption. rewrite zlen_cons in Hl.
      rewrite <- (Hm lim G) by lia. reflexivity.
    + split; [constructor; assumption|]. intros lim G Hl. rewrite zlen_cons in Hl. pose proof (zlen_nonneg ops).
      destruct (Hno lim). split; [exact G|lia].
Qed.

Lemma sk_new_ok c h s h' :
  sk_new c h = (Some s, h') -> stack_ok s /\ view_of s = {| elems := []; flag := false; cmp := c |} /\ num s = 0.
Proof.
  unfold sk_new. destruct (OPENSSL_malloc h sizeof_STACK) as [[?|] h1]; [|discriminate].
  destruct (OPENSSL_malloc h1 _) as [[?|] h2]; [|discriminate]. intros E. injection E as <- _.
  split; [|auto]. unfold stack_ok. cbn [num data num_alloc]. unfold kMinSize. rewrite zlen_zrep; lia.
Qed.

(** * Finding *)

(** The flag tells the truth. *)
Definition honest (v : view) : Prop :=
  flag v = true -> in_order (call_cmp_func (cmp v)) (elems v).

(** The place of [p] in the order of the elements of [l]. *)
Definition places (cmp : Z -> Z -> Z) (p : Z) (l : list Z) : Prop :=
  forall x y, In x l -> In y l -> cmp x y <= 0 -> (cmp p x < 0 -> cmp p y < 0) /\ (cmp p y > 0 -> cmp p x > 0).

(** What [sk_find] looks for, one element after the other. *)
Definition linear_search (v : view) (p : Z) : option Z :=
  if cmp v =? 0 then search (fun x => x =? p) (elems v) 0
  else if p =? 0 then None
  else search (fun x => call_cmp_func (cmp v) p x =? 0) (elems v) 0.

Lemma in_order_nth f (l : list Z) : in_order f l -> forall i j d, (i < j < length l)%nat -> f (nth i l d) (nth j l d) <= 0.
Proof.
  induction 1 as [|x l Hl IH Hx]; intros i j d Hj; cbn [length] in Hj; [lia|].
  destruct j as [|j]; [lia|]. destruct i as [|i]; cbn [nth]; [|apply IH; lia].
  rewrite List.Forall_forall in Hx. apply Hx, nth_In. lia.
Qed.

Lemma search_at f l i : search f l 0 = Some i <->
  0 <= i < zlen l /\ f (znth 0 i l) = true /\ forall j, 0 <= j < i -> f (znth 0 j l) = false.
Proof.
  assert (Hs : forall k, search f l k = Some i <->
    k <= i < k + zlen l /\ f (znth 0 (i - k) l) = true /\ forall j, k <= j < i -> f (znth 0 (j - k) l) = false).
  { induction l as [|x l IH]; intros k; cbn [search]; [change (zlen (@nil Z)) with 0; split; [discriminate|lia]|].
    rewrite zlen_cons. pose proof (zlen_nonneg l). assert (H0' : znth 0 (k - k) (x :: l) = x) by (rewrite Z.sub_diag; reflexivity).
    assert (Hnext : forall j, k < j -> znth 0 (j - k) (x :: l) = znth 0 (j - (k + 1)) l).
    { intros j Hj. unfold znth. replace (Z.to_nat (j - k)) with (S (Z.to_nat (j - (k + 1)))) by lia. reflexivity. }
    destruct (f x) eqn:Ef.
    - split; [intros E; injection E as <-; rewrite H0'; split; [lia|split; [exact Ef|lia]]|].
      intros (Hi & Hf & Hb). destruct (Z.eq_dec i k) as [->|]; [reflexivity|].
      specialize (Hb k ltac:(lia)). rewrite H0' in Hb. congruence.
    - rewrite IH. split; intros (Hi & Hf & Hb).
      + split; [lia|]. rewrite Hnext by lia. split; [exact Hf|]. intros j Hj.
        destruct (Z.eq_dec j k) as [->|]; [rewrite H0'; exact Ef|]. rewrite Hnext by lia. apply Hb. lia.
      + assert (i <> k) by (intros ->; rewrite H0' in Hf; congruence). rewrite Hnext in Hf by lia.
        split; [lia|]. split; [exact Hf|]. intros j Hj. rewrite <- Hnext by lia. apply Hb. lia. }
  rewrite Hs, Z.sub_0_r. split; intros (Hi & Hf & Hb); (split; [lia|]; split; [exact Hf|]); intros j Hj;
    specialize (Hb j Hj); rewrite Z.sub_0_r in *; exact Hb.
Qed.

Lemma search_none f l : (forall j, 0 <= j < zlen l -> f (znth 0 j l) = false) -> search f l 0 = None.
Proof.
  intros Hf. destruct (search f l 0) as [i|] eqn:E; [|reflexivity].
  apply search_at in E as (Hi & E & _). rewrite Hf in E by exact Hi. discriminate.
Qed.

(** The element at [k], compared with [p]. *)
Definition rank (s : _STACK) (p k : Z) : Z := call_cmp_func (comp s) p (znth 0 k (contents s)).

(** The signs do not grow with the index; the binary search finds the first zero. *)
Definition descends (s : _STACK) (p : Z) : Prop :=
  forall i j, 0 <= i < j -> j < num s -> (rank s p i < 0 -> rank s p j < 0) /\ (rank s p j > 0 -> rank s p i > 0).

Lemma binary_search_spec s p fuel : forall lo hi,
  stack_ok s -> descends s p -> 0 <= lo <= hi -> hi <= num s -> hi - lo <= Z.of_nat fuel ->
  (forall j, 0 <= j < lo -> rank s p j > 0) ->
  ((forall j, hi <= j < num s -> rank s p j < 0) \/ (lo < hi /\ rank s p (hi - 1) = 0)) ->
  binary_search fuel s p lo hi = search (fun x => call_cmp_func (comp s) p x =? 0) (contents s) 0.
Proof.
  induction fuel as [|fuel IH]; intros lo hi Hok Hmono Hlo Hhi Hf Hbelow Habove;
    pose proof (contents_len s Hok) as Hc; cbn [binary_search];
    (destruct (Z.ltb_spec lo hi) as [Hlt|Hge]; cbn [negb];
     [|symmetry; apply search_none; intros j Hj; apply Z.eqb_neq; fold (rank s p j);
       destruct Habove as [Ha|[? _]]; [|lia]; destruct (Z.lt_ge_cases j lo);
       [pose proof (Hbelow j ltac:(lia)); lia|pose proof (Ha j ltac:(lia)); lia]]); [lia|].
  set (mid := lo + (hi - lo - 1) / 2). assert (Hmid : lo <= mid < hi) by (unfold mid; dlia).
  assert (Hmid2 : hi - lo <> 1 -> mid < hi - 1) by (unfold mid; dlia).
  replace (znth 0 mid (data s)) with (znth 0 mid (contents s)) by (apply znth_ztake; lia). fold (rank s p mid).
  destruct (Z.ltb_spec 0 (rank s p mid)) as [Hpos|Hpos];
    [|destruct (Z.ltb_spec (rank s p mid) 0) as [Hneg|Hneg]; [|destruct (Z.eqb_spec (hi - lo) 1)]].
  - apply IH; auto; try lia.
    + intros j Hj. destruct (Z.eq_dec j mid) as [->|]; [lia|]. apply (Hmono j mid); lia.
    + destruct Habove as [Ha|[Hl Hz]]; [auto|]. right. split; [|exact Hz].
      destruct (Z.eq_dec mid (hi - 1)) as [E|]; [|lia]. rewrite E in Hpos. lia.
  - apply IH; auto; try lia. left. intros j Hj. destruct (Z.eq_dec j mid) as [->|]; [exact Hneg|].
    apply (Hmono mid j); lia.
  - symmetry. apply search_at. rewrite Hc. split; [lia|]. fold (rank s p mid). split; [apply Z.eqb_eq; lia|].
    intros j Hj. apply Z.eqb_neq. fold (rank s p j). pose proof (Hbelow j ltac:(lia)). lia.
  - apply IH; auto; try lia. right. replace (mid + 1 - 1) with mid by lia. split; lia.
Qed.

Lemma sk_find_spec s p :
  stack_ok s -> honest (view_of s) ->
  (comp s <> 0 -> places (call_cmp_func (comp s)) p (contents s)) ->
  sk_find (Some s) p = linear_search (view_of s) p.
Proof.
  intros Hok Hh Hp. pose proof (contents_len s Hok) as Hc. unfold sk_find, linear_search. cbn [view_of elems cmp].
  fold (contents s). destruct (Z.eqb_spec (comp s) 0) as [|Hne]; [reflexivity|].
  destruct (p =? 0); [reflexivity|]. cbn [sk_is_sorted]. destruct (sorted s) eqn:Es; [|reflexivity]. cbn [negb].
  pose proof Hok as (Hn & _). apply binary_search_spec; auto; try lia; [|left; lia].
  intros i j Hi Hj. apply (Hp Hne); [apply nth_In; unfold zlen in Hc; lia..|].
  apply in_order_nth; [apply (Hh Es)|]. unfold zlen in Hc. lia.
Qed.

Lemma in_order_remove f (a : list Z) x b : in_order f (a ++ x :: b) -> in_order f (a ++ b).
Proof.
  intros Hh. induction a as [|y a IH]; cbn [app] in *; apply StronglySorted_inv in Hh as [Ha Hy]; [exact Ha|].
  constructor; [apply IH, Ha|]. apply Forall_app in Hy as [Hy Hb]. apply List.Forall_cons_iff in Hb as [_ Hb].
  apply Forall_app. auto.
Qed.

Lemma honest_remove i v : 0 <= i -> honest v -> honest (snd (remove i v)).
Proof.
  intros Hi Hh. unfold remove. destruct (Z.leb_spec (zlen (elems v)) i) as [|Hlt]; [exact Hh|].
  intros Hf. cbn [snd flag cmp elems] in *. specialize (Hh Hf).
  destruct (zcut i 1 (elems v)) as (a & m & b & E & Ha & Hm); [lia..|].
  destruct m as [|x [|]]; unfold zlen in Hm; cbn [length] in Hm; try lia.
  rewrite E in *. rewrite ztake_app_eq by lia. replace (i + 1) with (zlen a + 1) by lia.
  rewrite zdrop_app_add by lia. eapply in_order_remove, Hh.
Qed.

(** What keeps the flag honest: not storing into a stack marked as sorted, and
    sorting by a function that orders the elements. *)
Definition keeps_order (o : op) (v : view) : Prop :=
  match o with
  | Set_ _ _ => flag v = false
  | Sort => orders (call_cmp_func (cmp v)) (elems v)
  | _ => True
  end.

Lemma honest_spec o v : op_ok o -> honest v -> keeps_order o v -> honest (snd (spec o v)).
Proof.
  intros Hok Hh Ho. destruct o; cbn [spec op_ok keeps_order] in *; unfold add; try (intros E; discriminate E);
    try (apply honest_remove; [lia|exact Hh]).
  - destruct (search _ _ _) as [i|] eqn:E; [|exact Hh]. apply search_range in E. apply honest_remove; [lia|exact Hh].
  - destruct (Z.eqb_spec (zlen (elems v)) 0); [exact Hh|]. pose proof (zlen_nonneg (elems v)). apply honest_remove; [lia|exact Hh].
  - destruct (_ <=? _); [exact Hh|]. intros E. cbn [snd flag] in E. congruence.
  - destruct (_ =? 0); [exact Hh|]. intros E. discriminate E.
  - destruct (_ || _); [exact Hh|]. intros _. cbn [snd elems cmp]. apply qsort_sorted, Ho.
  - intros E. cbn [snd flag] in E. destruct (Z.eqb_spec (cmp v) c) as [<-|]; [apply Hh, E|discriminate].
Qed.

(** * Copies *)

Section Copies.
Context {world : Type} (call_copy_func : world -> Z -> Z * world).

(** The copies in order, as long as they succeed; NULL is its own copy. *)
Fixpoint copies (l : list Z) (w : world) : list Z * bool * world :=
  match l with
  | [] => ([], true, w)
  | x :: l =>
    if x =? 0 then let '(r, ok, w) := copies l w in (0 :: r, ok, w)
    else
      let '(c, w) := call_copy_func w x in
      if c =? 0 then ([], false, w) else let '(r, ok, w) := copies l w in (c :: r, ok, w)
  end.

Definition live (l : list Z) : list Z := List.filter (fun p => negb (p =? 0)) l.

Lemma copy_loop_spec l : forall s done w,
  contents s = done ++ l -> stack_ok s ->
  let '(r, ok, w') := copies l w in
  if ok then exists s', copy_loop call_copy_func (length l) s (zlen done) w = (inl s', w') /\ stack_ok s' /\ contents s' = done ++ r /\ sorted s' = sorted s /\ comp s' = comp s
  else copy_loop call_copy_func (length l) s (zlen done) w = (inr (live (done ++ r)), w').
Proof.
  induction l as [|x l IH]; intros s done w Hl Hok; cbn [copies length copy_loop].
  - exists s. split_and!; auto; apply Hok.
  - pose proof (contents_len s Hok) as Hc. pose proof Hok as (Hn & Hd & Ha). rewrite Hl in Hc. autorewrite with zlen in Hc.
    pose proof (zlen_nonneg done). pose proof (zlen_nonneg l).
    assert (Hx : znth 0 (zlen done) (data s) = x).
    { rewrite <- (znth_ztake 0 (zlen done) (num s)) by lia. fold (contents s). rewrite Hl. unfold znth, zlen.
      rewrite Nat2Z.id, app_nth2, Nat.sub_diag by lia. reflexivity. }
    rewrite Hx. replace (done ++ x :: l) with ((done ++ [x]) ++ l) in Hl by (rewrite <- app_assoc; reflexivity).
    destruct (Z.eqb_spec x 0) as [->|Hx0].
    + specialize (IH s (done ++ [0]) w Hl Hok). replace (zlen done + 1) with (zlen (done ++ [0])) by (autorewrite with zlen; lia).
      destruct (copies l w) as [[r [|]] w']; rewrite <- app_assoc in IH; exact IH.
    + destruct (call_copy_func w x) as [c w1]. cbn [data num].
      set (s1 := {| num := num s; data := zsplice (zlen done) [c] (data s); sorted := _; num_alloc := _; comp := _ |}).
      assert (Hz : zlen (zsplice (zlen done) [c] (data s)) = zlen (data s)) by (apply zlen_zsplice; autorewrite with zlen; lia).
      assert (Hok1 : stack_ok s1) by (unfold stack_ok, s1; cbn [num data num_alloc]; lia).
      assert (Hc1 : contents s1 = (done ++ [c]) ++ l).
      { unfold contents, s1. cbn [num data]. rewrite ztake_zsplice by (autorewrite with zlen; lia). fold (contents s).
        rewrite Hl, <- !app_assoc. apply zsplice_app; reflexivity. }
      replace (znth 0 (zlen done) (zsplice (zlen done) [c] (data s))) with c.
      2: { unfold zsplice, znth. rewrite app_nth2; unfold ztake; rewrite length_take; unfold zlen in *; [|lia].
           replace (_ - _)%nat with 0%nat by lia. reflexivity. }
      destruct (Z.eqb_spec c 0) as [->|Hc0].
      * rewrite app_nil_r. do 2 f_equal. unfold live. f_equal. unfold zsplice.
        rewrite ztake_app_eq by (rewrite zlen_ztake; lia). rewrite <- (ztake_ztake _ (num s)) by lia. fold (contents s).
        rewrite Hl, <- app_assoc. apply ztake_app.
      * specialize (IH s1 (done ++ [c]) w1 Hc1 Hok1). replace (zlen done + 1) with (zlen (done ++ [c])) by (autorewrite with zlen; lia).
        destruct (copies l w1) as [[r [|]] w']; rewrite <- app_assoc in IH; exact IH.
Qed.
End Copies.

Lemma sk_dup_spec s h :
  stack_ok s ->
  match sk_dup (Some s) h with
  | (Some s', _) => stack_ok s' /\ view_of s' = view_of s
  | (None, _) => forall lim, ~ (grants lim /\ 8 * num_alloc s + 48 <= lim < 2 ^ 64)
  end.
Proof.
  intros Hok. pose proof (contents_len s Hok) as Hc. pose proof Hok as (Hn & Hd & Ha). unfold sk_dup, sizeof_STACK, sizeof_ptr.
  rewrite u64_small by lia.
  destruct (OPENSSL_malloc h 40) as [[p|] h1] eqn:E1.
  - destruct (OPENSSL_malloc h1 (8 * num_alloc s)) as [[r|] h2] eqn:E2.
    + unfold stack_ok, view_of, contents at 1. cbn [num data sorted num_alloc comp]. fold (contents s).
      rewrite zlen_zsplice, zlen_cells by (rewrite ?zlen_cells; lia). split; [lia|]. f_equal.
      rewrite ztake_zsplice_end by (rewrite ?zlen_cells; lia). reflexivity.
    + intros lim [G Hl]. destruct (OPENSSL_malloc_grants lim h1 (8 * num_alloc s) G) as (? & ? & E & _); [lia..|]. congruence.
  - intros lim [G Hl]. destruct (OPENSSL_malloc_grants lim h 40 G) as (? & ? & E & _); [lia..|]. congruence.
Qed.

Lemma sk_deep_copy_eq {world : Type} (call_copy_func : world -> Z -> Z * world) s h w :
  stack_ok s ->
  match sk_dup (Some s) h with
  | (None, h') => sk_deep_copy call_copy_func (Some s) h w = (None, [], h', w)
  | (Some _, h') =>
    let '(r, ok, w') := copies call_copy_func (contents s) w in
    if ok then exists s', sk_deep_copy call_copy_func (Some s) h w = (Some s', [], h', w') /\
      stack_ok s' /\ view_of s' = {| elems := r; flag := sorted s; cmp := comp s |}
    else sk_deep_copy call_copy_func (Some s) h w = (None, live r, h', w')
  end.
Proof.
  intros Hok. pose proof (sk_dup_spec s h Hok) as Hd. unfold sk_deep_copy.
  destruct (sk_dup (Some s) h) as [[s1|] h']; [|reflexivity]. destruct Hd as [Hok1 Ev].
  injection Ev as Ec Es Ef. pose proof (copy_loop_spec call_copy_func (contents s) s1 [] w Ec Hok1) as Hl.
  pose proof (contents_len s1 Hok1) as Hn. rewrite Ec in Hn. unfold zlen in Hn. rewrite <- Hn, Nat2Z.id.
  destruct (copies call_copy_func (contents s) w) as [[r [|]] w'].
  - destruct Hl as (s' & E & Hok' & Ec' & Es' & Ef'). change (zlen []) with 0 in E. rewrite E. exists s'.
    split; [reflexivity|]. split; [exact Hok'|]. unfold view_of. rewrite Ec', Es', Ef', Es, Ef. reflexivity.
  - change (zlen []) with 0 in Hl. rewrite Hl. reflexivity.
Qed.
End Lemmas.

(** * Properties *)

(** C38: A stack is a list: whatever sequence of operations runs on a new stack,
    the results and the contents are those of the list operations, except that an
    insertion may be refused, which returns 0 and changes nothing; with memory
    for the largest size none is refused.  The array never overflows. *)
Theorem sk_operations_refine_list `{Malloc} `{Qsort} `{Elements} (c : Z) (ops : list op) (h h' : heap) (s : _STACK) :
  sk_new c h = (Some s, h') -> Forall op_ok ops ->
  let start := {| elems := []; flag := false; cmp := c |} in
  let '(rs, sk) := run_all ops (Some s) h' in
  exists s', sk = Some s' /\ stack_ok s' /\ behaves start ops rs (view_of s') /\
    forall lim, grants lim -> 16 * zlen ops + 8 <= lim < 2 ^ 64 -> (rs, view_of s') = spec_all ops start.
Proof.
  intros E Ho. apply sk_new_ok in E as (Hok & Hv & Hn). cbv zeta.
  pose proof (run_all_spec ops s h' Hok Ho) as Hr. rewrite Hv, Hn in Hr. exact Hr.
Qed.

(** Comparison functions to run the definitions with: by value. *)
#[export] Instance by_value : Elements := {| call_cmp_func := fun _ a b => a - b |}.

Lemma sk_operations_refine_list_witness :
  exists s, @sk_new unlimited 1 tt = (Some s, tt) /\
    fst (@run_all unlimited insertion_sort by_value [Push 7; Push 9; Insert 8 1; Sort; Shift] (Some s) tt) = [1; 2; 3; 0; 7].
Proof.
  destruct (@sk_new unlimited 1 tt) as [[s|] []] eqn:E; [|discriminate]. exists s. split; [reflexivity|].
  pose proof (@sk_operations_refine_list unlimited insertion_sort by_value 1
    [Push 7; Push 9; Insert 8 1; Sort; Shift] tt tt s E ltac:(repeat constructor; easy)) as H.
  cbv zeta in H. destruct (@run_all unlimited insertion_sort by_value _ (Some s) tt) as [rs sk]. destruct H as (s' & _ & _ & _ & Hm).
  specialize (Hm 1000 (unlimited_grants _) ltac:(vm_compute; split; [discriminate|reflexivity])).
  apply (f_equal fst) in Hm. cbn [fst] in Hm. rewrite Hm. vm_compute. reflexivity.
Defined.

(** C39: [sk_find] is a linear search for the first match, also when it searches by
    halves: the flag that allows that is only set while the elements are in order,
    as no operation but [sk_set] on a sorted stack breaks that. *)
Theorem sk_find_is_linear_search `{Malloc} `{Qsort} `{Elements} (s : _STACK) :
  stack_ok s -> honest (view_of s) ->
  (forall p, (comp s <> 0 -> places (call_cmp_func (comp s)) p (contents s)) ->
     sk_find (Some s) p = linear_search (view_of s) p) /\
  (forall o h r s' h', op_ok o -> keeps_order o (view_of s) -> run o s h = (r, Some s', h') ->
     stack_ok s' /\ honest (view_of s')).
Proof.
  intros Hok Hh. split; [intros p Hp; apply sk_find_spec; assumption|].
  intros o h r s' h' Ho Hk E. pose proof (run_spec o s h Hok Ho) as Hr. rewrite E in Hr.
  destruct Hr as (s1 & E1 & Hok1 & [Ev|(_ & _ & -> & _)]); injection E1 as ->; [|auto].
  split; [exact Hok1|]. pose proof (honest_spec o (view_of s) Ho Hh Hk) as Hs. rewrite <- Ev in Hs. exact Hs.
Qed.

Definition sorted_sample : _STACK :=
  {| num := 4; data := [2; 5; 5; 8; 0]; sorted := true; num_alloc := 5; comp := 1 |}.

Lemma sorted_sample_ok : stack_ok sorted_sample /\ honest (view_of sorted_sample).
Proof.
  split; [unfold stack_ok; cbn [num data num_alloc sorted_sample]; unfold zlen; cbn [length]; lia|].
  intros _. cbn. repeat constructor; cbn; lia.
Qed.

Lemma sk_find_is_linear_search_witness : @sk_find by_value (Some sorted_sample) 5 = Some 1.
Proof.
  destruct (@sk_find_is_linear_search unlimited insertion_sort by_value sorted_sample
    (proj1 sorted_sample_ok) (proj2 sorted_sample_ok)) as [H _].
  rewrite H; [reflexivity|]. intros _ x y _ _. cbn. lia.
Defined.

(** A deep copy has a copy of each element, in order, NULL for NULL, and the
    same flag and function; when a copy fails, exactly the copies made before it are
    freed, and the originals never are; the copying function is called once for each
    element.  It fails for no other reason than the copying function or memory. *)
Theorem sk_deep_copy_copies `{Malloc} `{Qsort} `{Elements} {world : Type}
    (call_copy_func : world -> Z -> Z * world) (s : _STACK) (h : heap) (w : world) :
  stack_ok s ->
  let '(r, ok, w') := copies call_copy_func (contents s) w in
  let '(sk, freed, h1, w1) := sk_deep_copy call_copy_func (Some s) h w in
  match sk with
  | Some s' => ok = true /\ w1 = w' /\ freed = [] /\ stack_ok s' /\
               view_of s' = {| elems := r; flag := sorted s; cmp := comp s |}
  | None => (ok = false /\ w1 = w' /\ freed = live r) \/
            (w1 = w /\ freed = [] /\ forall lim, ~ (grants lim /\ 8 * num_alloc s + 48 <= lim < 2 ^ 64))
  end.
Proof.
  intros Hok. pose proof (sk_deep_copy_eq call_copy_func s h w Hok) as Hd. pose proof (sk_dup_spec s h Hok) as Hp.
  destruct (sk_dup (Some s) h) as [[s1|] h'].
  - destruct (copies call_copy_func (contents s) w) as [[r [|]] w'].
    + destruct Hd as (s' & -> & Hok' & Ev). auto.
    + rewrite Hd. auto.
  - rewrite Hd. destruct (copies call_copy_func (contents s) w) as [[r ok] w']. auto.
Qed.

(** Copies at new addresses, until they run out at 107. *)
Definition copy_up (w p : Z) : Z * Z := if p =? 8 then (0, w) else (w, w + 1).

Lemma sk_deep_copy_copies_witness :
  let '(sk, freed, _, w) := @sk_deep_copy unlimited Z copy_up (Some sorted_sample) tt 100 in
  sk = None /\ freed = [100; 101; 102] /\ w = 103.
Proof.
  pose proof (@sk_deep_copy_copies unlimited insertion_sort by_value Z copy_up sorted_sample tt 100
    (proj1 sorted_sample_ok)) as H.
  replace (copies copy_up (contents sorted_sample) 100) with ([100; 101; 102], false, 103) in H by reflexivity.
  destruct (@sk_deep_copy unlimited Z copy_up (Some sorted_sample) tt 100) as [[[[s'|] freed] h1] w1].
  - destruct H as [H _]. discriminate.
  - destruct H as [(_ & -> & ->)|(_ & _ & H)]; [auto|].
    destruct (H 1000). split; [apply unlimited_grants|]. vm_compute. split; [discriminate|reflexivity].
Defined.

(** Storing into a sorted stack leaves it marked as sorted, whatever is stored:
    an element that is in the stack is then not found. *)
Theorem sk_set_breaks_sk_find `{Qsort} `{Elements} (s : _STACK) (a b v : Z) :
  stack_ok s -> comp s <> 0 -> sorted s = true -> contents s = [a; b] -> v <> 0 ->
  call_cmp_func (comp s) v a < 0 ->
  exists s', sk_set (Some s) 1 v = (v, Some s') /\ sk_is_sorted (Some s') = true /\
             contents s' = [a; v] /\ sk_find (Some s') v = None.
Proof.
  intros Hok Hc Hs Hl Hv Hva. destruct (sk_set_spec s 1 v Hok) as (s' & E & Hok' & Ev); [lia|].
  pose proof (contents_len s Hok) as Hn. rewrite Hl in Hn. unfold zlen in Hn. cbn in Hn.
  unfold spec in E, Ev. cbn [view_of elems flag cmp] in E, Ev. rewrite Hl in E, Ev. cbn in E.
  exists s'. split; [exact E|]. change (zlen [a; b] <=? 1) with false in Ev. cbn [snd] in Ev.
  injection Ev as Ec Es Ef. cbn [sk_is_sorted]. rewrite Es, Hs.
  split; [reflexivity|]. split; [exact Ec|]. unfold sk_find. cbn [sk_is_sorted]. rewrite Ef, Es, Hs.
  rewrite (proj2 (Z.eqb_neq (comp s) 0)), (proj2 (Z.eqb_neq v 0)) by assumption. cbn [negb].
  pose proof (contents_len s' Hok') as Hn'. rewrite Ec in Hn'. change (2 = num s') in Hn'. rewrite <- Hn'.
  replace (binary_search _ s' v 0 2) with (@None Z); [reflexivity|].
  change (Z.to_nat 2) with 2%nat. cbn [binary_search]. change (negb (0 <? 2)) with false. cbv iota.
  change (0 + (2 - 0 - 1) / 2) with 0. rewrite <- (znth_ztake 0 0 (num s')) by lia. fold (contents s'). rewrite Ec, Ef.
  change (znth 0 0 (zsplice 1 [v] [a; b])) with a.
  rewrite (proj2 (Z.ltb_ge 0 _)), (proj2 (Z.ltb_lt _ 0)) by lia. reflexivity.
Qed.

Lemma sk_set_breaks_sk_find_witness :
  exists s', @sk_find by_value (Some s') 1 = None /\ contents s' = [5; 1].
Proof.
  destruct (@sk_set_breaks_sk_find insertion_sort by_value
    {| num := 2; data := [5; 7; 0]; sorted := true; num_alloc := 3; comp := 1 |} 5 7 1) as (s' & _ & _ & Ec & Ef);
    try reflexivity; try discriminate; [unfold stack_ok; cbn [num data num_alloc]; unfold zlen; cbn [length]; lia|].
  exists s'. auto.
Defined.
