(* ===== verification/Lhash.v ===== *)
(** crypto/lhash/lhash.c: a chained hash table that resizes itself.

    The items of the chains are in a store, a finite map from addresses, and a
    chain is a list linked by the addresses in [next]; NULL is 0.  Reading or
    writing an address that is not in the store is an error ([None]), so that a
    result is also a proof of memory safety.  The specification is a finite map
    from keys, a key being what the comparison function compares. *)
From Stdlib Require Import ZArith Lia.
From stdpp Require Import base list numbers gmap.
From S2P Require Import Prelude.
From S2P Require Import Mem.

Open Scope Z_scope.

(** What [call_hash_func(f, a)] and [call_cmp_func(f, a, b)] return. *)
Class HashFuncs := {
  call_hash_func : Z -> Z -> Z;
  call_cmp_func : Z -> Z -> Z -> Z
}.

(** * The code *)

Definition kMinNumBuckets : Z := 16.
Definition kMaxAverageChainLength : Z := 2.
Definition kMinAverageChainLength : Z := 1.

Record LHASH_ITEM := { it_data : Z; next : Z; it_hash : Z }.

Record lhash_st := {
  num_items : Z;
  buckets : list Z;
  num_buckets : Z;
  callback_depth : Z;
  comp : Z;
  hash : Z
}.

Definition sizeof_LHASH : Z := 48.
Definition sizeof_LHASH_ITEM : Z := 24.
Definition sizeof_ptr : Z := 8.
Definition UINT_MAX : Z := 4294967295.

Abbreviation store := (gmap Z LHASH_ITEM).

(** Where the allocator puts a new item: anywhere that is free. *)
Class Addresses := {
  pick : store -> Z;
  pick_free : forall σ : store, pick σ <> 0 /\ σ !! pick σ = None
}.

(** A pointer to a pointer to an item: into the array, or to a [next] field. *)
Inductive slot := Bucket (i : nat) | Next (a : Z).

Definition set_next (v : Z) (it : LHASH_ITEM) : LHASH_ITEM :=
  {| it_data := it_data it; next := v; it_hash := it_hash it |}.

Definition load (lh : lhash_st) (σ : store) (r : slot) : option Z :=
  match r with
  | Bucket i => buckets lh !! i
  | Next a => it ← σ !! a; Some (next it)
  end.

Definition with_buckets (b : list Z) (lh : lhash_st) : lhash_st :=
  {| num_items := num_items lh; buckets := b; num_buckets := num_buckets lh;
     callback_depth := callback_depth lh; comp := comp lh; hash := hash lh |}.

Definition with_num_items (n : Z) (lh : lhash_st) : lhash_st :=
  {| num_items := n; buckets := buckets lh; num_buckets := num_buckets lh;
     callback_depth := callback_depth lh; comp := comp lh; hash := hash lh |}.

Definition with_callback_depth (d : Z) (lh : lhash_st) : lhash_st :=
  {| num_items := num_items lh; buckets := buckets lh; num_buckets := num_buckets lh;
     callback_depth := d; comp := comp lh; hash := hash lh |}.

Definition save (lh : lhash_st) (σ : store) (r : slot) (v : Z) : option (lhash_st * store) :=
  match r with
  | Bucket i => _ ← buckets lh !! i; Some (with_buckets (<[i := v]> (buckets lh)) lh, σ)
  | Next a => it ← σ !! a; Some (lh, <[a := set_next v it]> σ)
  end.

(** The loop of the two search functions; [found] is the test on the data. *)
Fixpoint search_loop (fuel : nat) (found : Z -> bool) (lh : lhash_st) (σ : store) (r : slot) : option slot :=
  cur ← load lh σ r;
  if cur =? 0 then Some r
  else
    it ← σ !! cur;
    if found (it_data it) then Some r
    else match fuel with O => None | S fuel => search_loop fuel found lh σ (Next cur) end.

(** A chain is no longer than the store is large. *)
Definition search_from (found : Z -> bool) (lh : lhash_st) (σ : store) (r : slot) : option slot :=
  search_loop (size σ) found lh σ r.

Definition bucket_of (lh : lhash_st) (h : Z) : slot := Bucket (Z.to_nat (h mod num_buckets lh)).

Section Code.
Context `{Malloc} `{HashFuncs} `{Addresses}.

Definition OPENSSL_lh_new (hash_ comp_ : Z) (h : heap) : option lhash_st * heap :=
  match OPENSSL_malloc h sizeof_LHASH with
  | (None, h) => (None, h)
  | (Some _, h) =>
    match OPENSSL_malloc h (sizeof_ptr * kMinNumBuckets) with
    | (None, h) => (None, h)
    | (Some _, h) =>
      (Some {| num_items := 0; buckets := zrep kMinNumBuckets 0; num_buckets := kMinNumBuckets;
               callback_depth := 0; comp := comp_; hash := hash_ |}, h)
    end
  end.

(** The items of a chain are freed one after the other; freeing what is not
    there is an error. *)
Fixpoint free_chain (fuel : nat) (σ : store) (n : Z) : option store :=
  if n =? 0 then Some σ
  else
    it ← σ !! n;
    match fuel with O => None | S fuel => free_chain fuel (delete n σ) (next it) end.

Fixpoint free_chains (heads : list Z) (σ : store) : option store :=
  match heads with
  | [] => Some σ
  | n :: heads => σ ← free_chain (size σ) σ n; free_chains heads σ
  end.

Definition OPENSSL_lh_free (lh : option lhash_st) (σ : store) : option store :=
  match lh with None => Some σ | Some lh => free_chains (buckets lh) σ end.

Definition OPENSSL_lh_num_items (lh : lhash_st) : Z := num_items lh.

(** The pointer to the pointer, and [*out_hash]. *)
Definition get_next_ptr_and_hash (lh : lhash_st) (σ : store) (data : Z) : option (slot * Z) :=
  let h := call_hash_func (hash lh) data in
  r ← search_from (fun d => call_cmp_func (comp lh) d data =? 0) lh σ (bucket_of lh h);
  Some (r, h).

Definition get_next_ptr_by_key (lh : lhash_st) (σ : store) (key key_hash : Z) (cmp_key : Z -> Z -> Z) : option slot :=
  search_from (fun d => cmp_key key d =? 0) lh σ (bucket_of lh key_hash).

(** [*next_ptr == NULL ? NULL : ( *next_ptr)->data] *)
Definition data_at (lh : lhash_st) (σ : store) (next_ptr : slot) : option Z :=
  cur ← load lh σ next_ptr;
  if cur =? 0 then Some 0 else it ← σ !! cur; Some (it_data it).

Definition OPENSSL_lh_retrieve (lh : lhash_st) (σ : store) (data : Z) : option Z :=
  '(next_ptr, _) ← get_next_ptr_and_hash lh σ data;
  data_at lh σ next_ptr.

Definition OPENSSL_lh_retrieve_key (lh : lhash_st) (σ : store) (key key_hash : Z) (cmp_key : Z -> Z -> Z) : option Z :=
  next_ptr ← get_next_ptr_by_key lh σ key key_hash cmp_key;
  data_at lh σ next_ptr.

(** One chain moved to the new array. *)
Fixpoint move_chain (fuel : nat) (n : Z) (σ : store) (new_buckets : list Z) (cur : Z) : option (store * list Z) :=
  if cur =? 0 then Some (σ, new_buckets)
  else
    it ← σ !! cur;
    let new_bucket := Z.to_nat (it_hash it mod n) in
    head ← new_buckets !! new_bucket;
    match fuel with
    | O => None
    | S fuel => move_chain fuel n (<[cur := set_next head it]> σ) (<[new_bucket := cur]> new_buckets) (next it)
    end.

Fixpoint move_chains (n : Z) (heads : list Z) (σ : store) (new_buckets : list Z) : option (store * list Z) :=
  match heads with
  | [] => Some (σ, new_buckets)
  | cur :: heads =>
    '(σ, new_buckets) ← move_chain (size σ) n σ new_buckets cur;
    move_chains n heads σ new_buckets
  end.

Definition lh_rebucket (lh : lhash_st) (σ : store) (new_num_buckets : Z) (h : heap) : option (lhash_st * store * heap) :=
  let alloc_size := u64 (sizeof_ptr * new_num_buckets) in
  if negb (alloc_size / sizeof_ptr =? new_num_buckets) then Some (lh, σ, h)
  else
    match OPENSSL_malloc h alloc_size with
    | (None, h) => Some (lh, σ, h)
    | (Some _, h) =>
      '(σ, new_buckets) ← move_chains new_num_buckets (buckets lh) σ (zrep new_num_buckets 0);
      Some ({| num_items := num_items lh; buckets := new_buckets; num_buckets := new_num_buckets;
               callback_depth := callback_depth lh; comp := comp lh; hash := hash lh |}, σ, h)
    end.

Definition lh_maybe_resize (lh : lhash_st) (σ : store) (h : heap) : option (lhash_st * store * heap) :=
  if 0 <? callback_depth lh then Some (lh, σ, h)
  else if num_buckets lh <? kMinNumBuckets then None
  else
    let avg_chain_length := num_items lh / num_buckets lh in
    if kMaxAverageChainLength <? avg_chain_length then
      let new_num_buckets := u64 (num_buckets lh * 2) in
      if num_buckets lh <? new_num_buckets then lh_rebucket lh σ new_num_buckets h else Some (lh, σ, h)
    else if (avg_chain_length <? kMinAverageChainLength) && (kMinNumBuckets <? num_buckets lh) then
      let new_num_buckets := num_buckets lh / 2 in
      let new_num_buckets := if new_num_buckets <? kMinNumBuckets then kMinNumBuckets else new_num_buckets in
      lh_rebucket lh σ new_num_buckets h
    else Some (lh, σ, h).

(** The result, [*old_data], and the table, the store and the allocator afterwards. *)
Definition OPENSSL_lh_insert (lh : lhash_st) (σ : store) (data : Z) (h : heap)
  : option (Z * Z * lhash_st * store * heap) :=
  '(next_ptr, hash_) ← get_next_ptr_and_hash lh σ data;
  cur ← load lh σ next_ptr;
  if negb (cur =? 0) then
    it ← σ !! cur;
    Some (1, it_data it, lh, <[cur := {| it_data := data; next := next it; it_hash := it_hash it |}]> σ, h)
  else
    match OPENSSL_malloc h sizeof_LHASH_ITEM with
    | (None, h) => Some (0, 0, lh, σ, h)
    | (Some _, h) =>
      let item := pick σ in
      let σ := <[item := {| it_data := data; next := 0; it_hash := hash_ |}]> σ in
      '(lh, σ) ← save lh σ next_ptr item;
      '(lh, σ, h) ← lh_maybe_resize (with_num_items (u64 (num_items lh + 1)) lh) σ h;
      Some (1, 0, lh, σ, h)
    end.

Definition OPENSSL_lh_delete (lh : lhash_st) (σ : store) (data : Z) (h : heap)
  : option (Z * lhash_st * store * heap) :=
  '(next_ptr, _) ← get_next_ptr_and_hash lh σ data;
  item ← load lh σ next_ptr;
  if item =? 0 then Some (0, lh, σ, h)
  else
    it ← σ !! item;
    '(lh, σ) ← save lh σ next_ptr (next it);
    let σ := delete item σ in
    '(lh, σ, h) ← lh_maybe_resize (with_num_items (u64 (num_items lh - 1)) lh) σ h;
    Some (it_data it, lh, σ, h).

Section Doall.
(** [func], which may use the table; the state has the caller's data in it. *)
Context {world : Type} (func : Z -> lhash_st * store * heap * world -> option (lhash_st * store * heap * world)).

Fixpoint doall_chain (fuel : nat) (cur : Z) (s : lhash_st * store * heap * world)
  : option (lhash_st * store * heap * world) :=
  if cur =? 0 then Some s
  else
    let '(_, σ, _, _) := s in
    it ← σ !! cur;
    let next_ := next it in
    s ← func (it_data it) s;
    match fuel with O => None | S fuel => doall_chain fuel next_ s end.

(** From bucket [i] on; the array is read in every round, since [func] may have
    changed it. *)
Fixpoint doall_buckets (fuel : nat) (i : nat) (s : lhash_st * store * heap * world)
  : option (lhash_st * store * heap * world) :=
  let '(lh, σ, _, _) := s in
  if negb (Z.of_nat i <? num_buckets lh) then Some s
  else
    cur ← buckets lh !! i;
    s ← doall_chain (size σ) cur s;
    match fuel with O => None | S fuel => doall_buckets fuel (S i) s end.

Definition OPENSSL_lh_doall_arg (lh : option lhash_st) (σ : store) (h : heap) (w : world)
  : option (option lhash_st * store * heap * world) :=
  match lh with
  | None => Some (None, σ, h, w)
  | Some lh =>
    let lh := if callback_depth lh <? UINT_MAX then with_callback_depth (callback_depth lh + 1) lh else lh in
    '(lh, σ, h, w) ← doall_buckets (Z.to_nat (num_buckets lh)) 0 (lh, σ, h, w);
    let lh := if callback_depth lh <? UINT_MAX then with_callback_depth (callback_depth lh - 1) lh else lh in
    '(lh, σ, h) ← lh_maybe_resize lh σ h;
    Some (Some lh, σ, h, w)
  end.
End Doall.
End Code.

(** * Chains *)

(** [l] is the list of the addresses of the items linked from [p] on. *)
Fixpoint chain (σ : store) (p : Z) (l : list Z) : Prop :=
  match l with
  | [] => p = 0
  | a :: l => p = a /\ a <> 0 /\ exists q, next <$> σ !! a = Some q /\ chain σ q l
  end.

Definition slot_at (i : nat) (l : list Z) : slot :=
  match last l with None => Bucket i | Some a => Next a end.

Lemma chain_ext σ σ' p l :
  chain σ p l -> (forall a, a ∈ l -> next <$> σ' !! a = next <$> σ !! a) -> chain σ' p l.
Proof.
  revert p. induction l as [|a l IH]; intros p; cbn [chain]; [auto|]. intros (-> & Ha & q & Hq & Hc) He.
  split; [reflexivity|]. split; [exact Ha|]. exists q. rewrite He by left. split; [exact Hq|].
  apply IH; [exact Hc|]. intros b Hb. apply He. right. exact Hb.
Qed.

Lemma chain_nonzero σ p l : chain σ p l -> Forall (fun a => a <> 0 /\ is_Some (σ !! a)) l.
Proof.
  revert p. induction l as [|a l IH]; intros p; cbn [chain]; [constructor|]. intros (-> & Ha & q & Hq & Hc).
  constructor; [|eauto]. split; [exact Ha|]. apply fmap_Some in Hq as (it & E & _). rewrite E. eauto.
Qed.

(** The pointer after [l1] points to what follows. *)
Lemma load_after σ p l1 l2 :
  chain σ p (l1 ++ l2) ->
  match last l1 with None => p = hd 0 l2 | Some a => next <$> σ !! a = Some (hd 0 l2) end.
Proof.
  revert p. induction l1 as [|a l1 IH]; intros p; cbn [app].
  - destruct l2; cbn [chain hd last]; [auto|tauto].
  - cbn [chain]. intros (-> & Ha & q & Hq & Hc). apply IH in Hc. destruct l1 as [|b l1]; [cbn [last] in *; congruence|].
    change (last (a :: b :: l1)) with (last (b :: l1)). destruct (last (b :: l1)) eqn:El; [exact Hc|].
    apply last_None in El. discriminate.
Qed.

Lemma load_slot lh σ i p l1 l2 :
  buckets lh !! i = Some p -> chain σ p (l1 ++ l2) -> load lh σ (slot_at i l1) = Some (hd 0 l2).
Proof.
  intros Hi Hc. apply load_after in Hc. unfold slot_at. destruct (last l1) as [a|]; cbn [load]; [|congruence].
  apply fmap_Some in Hc as (it & E & ->). rewrite E. reflexivity.
Qed.

(** The item at [a] passes the test. *)
Definition passes (found : Z -> bool) (σ : store) (a : Z) : Prop :=
  exists it, σ !! a = Some it /\ found (it_data it) = true.

Lemma search_loop_spec found lh σ i p l2 : forall l1 fuel,
  buckets lh !! i = Some p -> chain σ p (l1 ++ l2) -> (length l2 <= fuel)%nat ->
  exists l3 l4, l2 = l3 ++ l4 /\ Forall (fun a => ~ passes found σ a) l3 /\
    (forall a l, l4 = a :: l -> passes found σ a) /\
    search_loop fuel found lh σ (slot_at i l1) = Some (slot_at i (l1 ++ l3)).
Proof.
  induction l2 as [|a l2 IH]; intros l1 fuel Hi Hc Hf.
  - exists [], []. rewrite (app_nil_r l1). split_and!; [reflexivity|constructor|discriminate|].
    pose proof (load_slot _ _ _ _ _ _ Hi Hc) as Hl. destruct fuel; cbn [search_loop]; rewrite Hl; reflexivity.
  - pose proof (load_slot _ _ _ _ _ _ Hi Hc) as Hl. cbn [hd] in Hl. pose proof (chain_nonzero _ _ _ Hc) as Hn.
    apply Forall_app in Hn as [_ Hn]. apply List.Forall_cons_iff in Hn as [[Ha [it Hit]] _].
    destruct fuel as [|fuel]; cbn [length] in Hf; [lia|]. cbn [search_loop]. rewrite Hl. cbn [mbind option_bind].
    rewrite (proj2 (Z.eqb_neq a 0)) by exact Ha. rewrite Hit. cbn [mbind option_bind]. destruct (found (it_data it)) eqn:Ef.
    + exists [], (a :: l2). rewrite (app_nil_r l1). split_and!; [reflexivity|constructor| |reflexivity].
      intros b l E. injection E as <- <-. exists it. auto.
    + replace (l1 ++ a :: l2) with ((l1 ++ [a]) ++ l2) in Hc by (rewrite <- app_assoc; reflexivity).
      destruct (IH (l1 ++ [a]) fuel Hi Hc) as (l3 & l4 & -> & Hno & Hyes & E); [lia|].
      exists (a :: l3), l4. rewrite <- app_assoc in E. split_and!; [reflexivity| |exact Hyes|].
      * constructor; [|exact Hno]. intros (it' & Hit' & Hf'). congruence.
      * change (a :: l3) with ([a] ++ l3). rewrite <- E. unfold slot_at. rewrite last_snoc. reflexivity.
Qed.

(** What a store through a pointer in a chain changes. *)
Lemma chain_save σ p l1 l2 l2' v :
  chain σ p (l1 ++ l2) -> chain σ v l2' -> NoDup (l1 ++ l2') ->
  match last l1 with
  | None => chain σ v (l1 ++ l2')
  | Some a => exists it, σ !! a = Some it /\ chain (<[a := set_next v it]> σ) p (l1 ++ l2')
  end.
Proof.
  revert p. induction l1 as [|a l1 IH]; intros p Hc Hv Hnd; [exact Hv|].
  cbn [app chain] in Hc. destruct Hc as (-> & Ha & q & Hq & Hc). apply NoDup_cons in Hnd as [Hna Hnd].
  specialize (IH q Hc Hv Hnd). destruct l1 as [|b l1].
  - cbn [last]. apply fmap_Some in Hq as (it & E & ->). exists it. split; [exact E|].
    cbn [app chain]. split; [reflexivity|]. split; [exact Ha|]. exists v.
    rewrite lookup_insert_eq. split; [reflexivity|]. apply (chain_ext σ); [exact Hv|].
    intros c Hcin. rewrite lookup_insert_ne; [reflexivity|]. intros ->. apply Hna, Hcin.
  - change (last (a :: b :: l1)) with (last (b :: l1)). destruct (last (b :: l1)) as [z|] eqn:El.
    + destruct IH as (it & E & IH). exists it. split; [exact E|]. cbn [app chain] in *.
      split; [reflexivity|]. split; [exact Ha|]. exists q. split; [|exact IH].
      rewrite lookup_insert_ne; [exact Hq|]. intros ->. apply last_Some in El as (l' & El).
      assert (Hin : a ∈ (b :: l1) ++ l2'); [|exact (Hna Hin)].
      rewrite El. apply elem_of_app. left. apply elem_of_app. right. left.
    + apply last_None in El. discriminate.
Qed.

(** * Tables *)

Definition info (it : LHASH_ITEM) : Z * Z := (it_data it, it_hash it).

(** The same items, linked in another way. *)
Definition same_data (σ σ' : store) : Prop := forall a, info <$> σ' !! a = info <$> σ !! a.

(** The array [heads] of [n] chains holds the items at the addresses [ls], each in
    its place. *)
Record linked (heads : list Z) (n : Z) (σ : store) (ls : list (list Z)) : Prop := {
  lk_chains : Forall2 (chain σ) heads ls;
  lk_nodup : NoDup (concat ls);
  lk_place : forall i l a it, ls !! i = Some l -> a ∈ l -> σ !! a = Some it -> Z.to_nat (it_hash it mod n) = i;
  lk_len : zlen heads = n
}.

Lemma same_data_refl σ : same_data σ σ.
Proof. intros a. reflexivity. Qed.

Lemma same_data_trans σ1 σ2 σ3 : same_data σ1 σ2 -> same_data σ2 σ3 -> same_data σ1 σ3.
Proof. intros H1 H2 a. rewrite H2. apply H1. Qed.

Lemma same_data_some σ σ' a it' :
  same_data σ σ' -> σ' !! a = Some it' -> exists it, σ !! a = Some it /\ info it = info it'.
Proof.
  intros Hs E. specialize (Hs a). rewrite E in Hs. destruct (σ !! a) as [it|]; [|discriminate].
  exists it. injection Hs as Hs1 Hs2. unfold info. rewrite Hs1, Hs2. auto.
Qed.

Lemma same_data_sym σ σ' : same_data σ σ' -> same_data σ' σ.
Proof. intros H a. symmetry. apply H. Qed.

Lemma same_data_set_next σ a it v : σ !! a = Some it -> same_data σ (<[a := set_next v it]> σ).
Proof.
  intros E b. destruct (decide (a = b)) as [<-|Hne]; [|rewrite lookup_insert_ne by exact Hne; reflexivity].
  rewrite lookup_insert_eq, E. reflexivity.
Qed.

Lemma same_data_size σ σ' : same_data σ σ' -> size σ' = size σ.
Proof.
  intros Hs. rewrite <- !size_dom. f_equal. apply set_eq. intros a. rewrite !elem_of_dom. specialize (Hs a).
  destruct (σ' !! a), (σ !! a); try discriminate; split; eauto; intros [? ?]; discriminate.
Qed.

Lemma concat_insert {A} (ls : list (list A)) i l :
  ls !! i = Some l ->
  exists rest, Permutation (concat ls) (l ++ rest) /\ forall k, Permutation (concat (<[i := k]> ls)) (k ++ rest).
Proof.
  revert i. induction ls as [|x ls IH]; intros [|i] E; try discriminate.
  - injection E as ->. exists (concat ls). split; [reflexivity|]. intros k. reflexivity.
  - destruct (IH i E) as (rest & H1 & H2). exists (x ++ rest). cbn [concat]. split.
    + rewrite H1. rewrite !app_assoc. apply Permutation_app_tail, Permutation_app_comm.
    + intros k. cbn. change (x ++ concat (<[i:=k]> ls) ≡ₚ k ++ x ++ rest). rewrite H2, !app_assoc. apply Permutation_app_tail, Permutation_app_comm.
Qed.

Lemma elem_of_concat_lookup (ls : list (list Z)) a : a ∈ concat ls -> exists i l, ls !! i = Some l /\ a ∈ l.
Proof.
  induction ls as [|l ls IH]; cbn [concat]; [intros H; inversion H|]. intros H. apply elem_of_app in H as [H|H].
  - exists 0%nat, l. auto.
  - destruct (IH H) as (i & k & E & Hk). exists (S i), k. auto.
Qed.

Lemma lookup_concat_elem (ls : list (list Z)) i l a : ls !! i = Some l -> a ∈ l -> a ∈ concat ls.
Proof.
  intros E Ha. destruct (concat_insert ls i l E) as (rest & -> & _). apply elem_of_app. auto.
Qed.

(** Two places for one address are the same. *)
Lemma linked_same_list heads n σ ls i j l k a :
  linked heads n σ ls -> ls !! i = Some l -> ls !! j = Some k -> a ∈ l -> a ∈ k -> i = j.
Proof.
  intros Hk Hi Hj Ha Hb. destruct Hk as [Hc _ Hp _].
  destruct (Forall2_lookup_r _ _ _ _ _ Hc Hi) as (p & _ & Hcp). apply chain_nonzero in Hcp.
  rewrite Forall_forall in Hcp. destruct (Hcp a Ha) as [_ [it Hit]].
  rewrite <- (Hp _ _ _ _ Hi Ha Hit). apply (Hp _ _ _ _ Hj Hb Hit).
Qed.

(** One chain is replaced, the others stay. *)
Lemma linked_update heads n σ ls i l p' l' σ' :
  linked heads n σ ls -> ls !! i = Some l ->
  chain σ' p' l' -> NoDup l' ->
  (forall a, a ∈ concat ls -> a ∉ l -> σ' !! a = σ !! a) ->
  (forall a, a ∈ l' -> a ∈ concat ls -> a ∈ l) ->
  (forall a it, a ∈ l' -> σ' !! a = Some it -> Z.to_nat (it_hash it mod n) = i) ->
  linked (<[i := p']> heads) n σ' (<[i := l']> ls).
Proof.
  intros Hk Hi Hc' Hnd Hout Hin Hplace. pose proof Hk as [Hc Hn Hp Hl].
  assert (Hother : forall j k, ls !! j = Some k -> j <> i -> forall a, a ∈ k -> σ' !! a = σ !! a).
  { intros j k Hj Hji a Ha. apply Hout; [eapply lookup_concat_elem; eassumption|].
    intros Hal. apply Hji. symmetry. eapply linked_same_list; eassumption. }
  assert (Hlen : (i < length ls)%nat) by (apply lookup_lt_Some in Hi; exact Hi).
  constructor.
  - pose proof (Forall2_length _ _ _ Hc) as Hlh.
    apply Forall2_same_length_lookup_2; [rewrite !length_insert; exact Hlh|]. intros j p k Hj Hk'.
    destruct (decide (i = j)) as [<-|Hij].
    + rewrite list_lookup_insert_eq in Hj by lia. rewrite list_lookup_insert_eq in Hk' by lia. injection Hj as <-. injection Hk' as <-. exact Hc'.
    + rewrite list_lookup_insert_ne in Hj by exact Hij. rewrite list_lookup_insert_ne in Hk' by exact Hij. apply (chain_ext σ).
      * apply (Forall2_lookup_lr _ _ _ _ _ _ Hc Hj Hk').
      * intros a Ha. rewrite (Hother j k Hk') by auto. reflexivity.
  - destruct (concat_insert ls i l Hi) as (rest & E1 & E2). rewrite E2. rewrite E1 in Hn.
    apply NoDup_app in Hn as (_ & Hd & Hr). apply NoDup_app. split_and!; auto.
    intros a Ha Har. apply (Hd a); [|exact Har]. apply Hin; [exact Ha|]. rewrite E1. apply elem_of_app. auto.
  - intros j k a it Hj Ha Hit. destruct (decide (i = j)) as [<-|Hij].
    + rewrite list_lookup_insert_eq in Hj by exact Hlen. injection Hj as <-. eapply Hplace; eassumption.
    + rewrite list_lookup_insert_ne in Hj by exact Hij. rewrite (Hother j k Hj) in Hit by auto. eapply Hp; eassumption.
  - unfold zlen in *. rewrite length_insert. exact Hl.
Qed.

(** An element of a list without repetition is at one place. *)
Lemma nodup_split {A} (l1 l2 k1 k2 : list A) a :
  NoDup (l1 ++ a :: l2) -> l1 ++ a :: l2 = k1 ++ a :: k2 -> l1 = k1 /\ l2 = k2.
Proof.
  revert k1. induction l1 as [|x l1 IH]; intros [|y k1] Hn E; cbn [app] in *.
  - injection E as ->. auto.
  - injection E as <- E. apply NoDup_cons in Hn as [Hn _]. destruct Hn. rewrite E. apply elem_of_app. right. left.
  - injection E as -> E. apply NoDup_cons in Hn as [Hn _]. destruct Hn. apply elem_of_app. right. left.
  - injection E as <- E. apply NoDup_cons in Hn as [_ Hn]. destruct (IH k1 Hn E) as [-> ->]. auto.
Qed.

(** * Keys *)

(** What the hash function [h] and the comparison function [c] look at. *)
Class Keyed (K : Type) `{Countable K} `{HashFuncs} (h c : Z) := {
  key : Z -> K;
  key_hash : K -> Z;
  compares : forall a b, call_cmp_func c a b = 0 <-> key a = key b;
  hashes : forall a, call_hash_func h a = key_hash (key a)
}.

Section Keys.
Context {K : Type} `{Countable K} `{HashFuncs} {hf cf : Z} `{!Keyed K hf cf}.

(** The items of the store have their hashes, and no two of them have one key. *)
Record keyed (σ : store) : Prop := {
  kd_hash : forall a it, σ !! a = Some it -> it_hash it = key_hash (key (it_data it));
  kd_inj : forall a b ia ib, σ !! a = Some ia -> σ !! b = Some ib -> key (it_data ia) = key (it_data ib) -> a = b
}.

(** The table with the chains [ls]. *)
Record table (lh : lhash_st) (σ : store) (ls : list (list Z)) : Prop := {
  tb_linked : linked (buckets lh) (num_buckets lh) σ ls;
  tb_all : forall a, is_Some (σ !! a) -> a ∈ concat ls;
  tb_size : kMinNumBuckets <= num_buckets lh < 2 ^ 61;
  tb_count : num_items lh = Z.of_nat (size σ);
  tb_keyed : keyed σ;
  tb_funcs : hash lh = hf /\ comp lh = cf
}.

(** The map a store stands for. *)
Definition stands_for (σ : store) (m : gmap K Z) : Prop :=
  forall k d, m !! k = Some d <-> exists a it, σ !! a = Some it /\ it_data it = d /\ key d = k.

Lemma same_data_keyed σ σ' : same_data σ σ' -> keyed σ -> keyed σ'.
Proof.
  intros Hs [Hh Hi]. split.
  - intros a it E. destruct (same_data_some _ _ _ _ Hs E) as (it0 & E0 & Ei). injection Ei as E1 E2.
    rewrite <- E1, <- E2. apply Hh with a, E0.
  - intros a b ia ib Ea Eb Ek. destruct (same_data_some _ _ _ _ Hs Ea) as (ja & Ja & Ia).
    destruct (same_data_some _ _ _ _ Hs Eb) as (jb & Jb & Ib). injection Ia as Ia _. injection Ib as Ib _.
    apply (Hi a b ja jb Ja Jb). congruence.
Qed.

Lemma same_data_stands σ σ' m : same_data σ σ' -> stands_for σ m -> stands_for σ' m.
Proof.
  intros Hs Hm k d. etransitivity; [apply Hm|]. split; intros (a & it & E & Ed & Ek).
  - destruct (same_data_some _ _ _ _ (same_data_sym _ _ Hs) E) as (it' & E' & Ei). injection Ei as Ei _.
    exists a, it'. split_and!; auto. congruence.
  - destruct (same_data_some _ _ _ _ Hs E) as (it' & E' & Ei). injection Ei as Ei _.
    exists a, it'. split_and!; auto. congruence.
Qed.

Lemma nodup_size (σ : store) l : NoDup l -> (forall a, a ∈ l -> is_Some (σ !! a)) -> (length l <= size σ)%nat.
Proof.
  intros Hn Hs. rewrite <- size_dom. rewrite <- (size_list_to_set (C := gset Z) l Hn).
  apply subseteq_size. intros a Ha. apply elem_of_list_to_set in Ha. apply elem_of_dom, Hs, Ha.
Qed.

(** The chain a hash belongs to. *)
Lemma table_bucket lh σ ls h :
  table lh σ ls -> exists p l, let i := Z.to_nat (h mod num_buckets lh) in
    buckets lh !! i = Some p /\ ls !! i = Some l /\ chain σ p l /\ NoDup l /\ (length l <= size σ)%nat.
Proof.
  intros [[Hc Hn Hp Hl] _ Hsz _ _ _]. set (i := Z.to_nat (h mod num_buckets lh)). cbv zeta.
  assert (Hi : (i < length (buckets lh))%nat).
  { unfold i. pose proof (Z.mod_pos_bound h (num_buckets lh)). unfold kMinNumBuckets, zlen in *. lia. }
  destruct (lookup_lt_is_Some_2 _ _ Hi) as [p Hp']. destruct (Forall2_lookup_l _ _ _ _ _ Hc Hp') as (l & Hl' & Hcl).
  exists p, l. assert (Hnl : NoDup l).
  { destruct (concat_insert ls i l Hl') as (rest & E & _). rewrite E in Hn. apply NoDup_app in Hn. tauto. }
  split_and!; auto. apply nodup_size; [exact Hnl|]. intros a Ha. apply chain_nonzero in Hcl.
  rewrite Forall_forall in Hcl. apply Hcl, Ha.
Qed.

(** Looking for a key. *)
Lemma find_spec lh σ ls found k h :
  table lh σ ls -> (forall d, found d = true <-> key d = k) -> h = key_hash k ->
  exists p l1 l2, let i := Z.to_nat (h mod num_buckets lh) in
    buckets lh !! i = Some p /\ ls !! i = Some (l1 ++ l2) /\ chain σ p (l1 ++ l2) /\ NoDup (l1 ++ l2) /\
    search_from found lh σ (bucket_of lh h) = Some (slot_at i l1) /\
    match l2 with
    | [] => forall a it, σ !! a = Some it -> key (it_data it) <> k
    | a :: _ => exists it, σ !! a = Some it /\ key (it_data it) = k
    end.
Proof.
  intros Ht Hf ->. destruct (table_bucket lh σ ls (key_hash k) Ht) as (p & l & Hi & Hl & Hc & Hn & Hlen).
  set (i := Z.to_nat (key_hash k mod num_buckets lh)) in *.
  destruct (search_loop_spec found lh σ i p l [] (size σ) Hi Hc Hlen) as (l1 & l2 & -> & Hno & Hyes & E).
  exists p, l1, l2. cbv zeta. split_and!; auto. destruct l2 as [|a l2].
  - intros a it Ea Ek. rewrite app_nil_r in *. pose proof Ht as [Hlk Hall _ _ Hkd _].
    destruct (elem_of_concat_lookup ls a) as (j & l' & Hj & Ha); [eauto|].
    pose proof (lk_place _ _ _ _ Hlk _ _ _ _ Hj Ha Ea) as Hp. rewrite (kd_hash _ Hkd _ _ Ea), Ek in Hp. fold i in Hp. subst j.
    rewrite Hl in Hj. injection Hj as <-. rewrite Forall_forall in Hno. apply (Hno a Ha). exists it.
    split; [exact Ea|]. apply Hf, Ek.
  - destruct (Hyes a l2 eq_refl) as (it & Ea & Ef). exists it. split; [exact Ea|]. apply Hf, Ef.
Qed.

Lemma stands_none σ m k : stands_for σ m -> (forall a it, σ !! a = Some it -> key (it_data it) <> k) -> m !! k = None.
Proof.
  intros Hm Hn. destruct (m !! k) as [d|] eqn:E; [|reflexivity]. apply Hm in E as (a & it & E & <- & Ek).
  destruct (Hn a it E Ek).
Qed.

Lemma stands_some σ m a it : stands_for σ m -> σ !! a = Some it -> m !! key (it_data it) = Some (it_data it).
Proof. intros Hm E. apply Hm. eauto. Qed.

(** * Storing and resizing *)

Lemma save_slot lh σ i p l1 l2 l2' v :
  buckets lh !! i = Some p -> chain σ p (l1 ++ l2) -> chain σ v l2' -> NoDup (l1 ++ l2') ->
  exists p' σ', save lh σ (slot_at i l1) v = Some (with_buckets (<[i := p']> (buckets lh)) lh, σ') /\
    chain σ' p' (l1 ++ l2') /\ (forall b, b ∉ l1 -> σ' !! b = σ !! b) /\ same_data σ σ'.
Proof.
  intros Hi Hc Hv Hn. pose proof (chain_save σ p l1 l2 l2' v Hc Hv Hn) as Hs. unfold slot_at.
  destruct (last l1) as [a|] eqn:El; cbn [save].
  - destruct Hs as (it & E & Hs). exists p, (<[a := set_next v it]> σ). rewrite E. cbn [mbind option_bind].
    rewrite list_insert_id by exact Hi. split_and!; auto using same_data_set_next.
    + destruct lh. reflexivity.
    + intros b Hb. rewrite lookup_insert_ne; [reflexivity|]. intros ->. apply Hb.
      apply last_Some in El as (l' & ->). apply elem_of_app. right. left.
  - exists v, σ. rewrite Hi. cbn [mbind option_bind]. split_and!; auto using same_data_refl.
Qed.

Lemma move_chain_spec n l : forall fuel σ nb nls cur,
  0 < n -> chain σ cur l -> (length l <= fuel)%nat -> linked nb n σ nls -> NoDup l ->
  (forall a, a ∈ l -> a ∉ concat nls) ->
  exists σ' nb' nls', move_chain fuel n σ nb cur = Some (σ', nb') /\ linked nb' n σ' nls' /\
    Permutation (concat nls') (l ++ concat nls) /\ same_data σ σ' /\ (forall a, a ∉ l -> σ' !! a = σ !! a).
Proof.
  induction l as [|a l IH]; intros fuel σ nb nls cur Hn Hc Hf Hk Hnd Hdis; cbn [chain] in Hc.
  - exists σ, nb, nls. subst cur. split_and!; auto using same_data_refl. destruct fuel; reflexivity.
  - destruct Hc as (-> & Ha & q & Hq & Hc). apply fmap_Some in Hq as (it & E & ->). apply NoDup_cons in Hnd as [Hal Hnd].
    destruct fuel as [|fuel]; cbn [length] in Hf; [lia|]. cbn [move_chain].
    rewrite (proj2 (Z.eqb_neq a 0)), E by exact Ha. cbn [mbind option_bind].
    set (j := Z.to_nat (it_hash it mod n)). pose proof Hk as [Hkc Hkn Hkp Hkl].
    assert (Hj : (j < length nb)%nat) by (unfold j; pose proof (Z.mod_pos_bound (it_hash it) n Hn); unfold zlen in Hkl; lia).
    destruct (lookup_lt_is_Some_2 _ _ Hj) as [p Hp]. destruct (Forall2_lookup_l _ _ _ _ _ Hkc Hp) as (k & Hjk & Hck).
    rewrite Hp. cbn [mbind option_bind]. set (σ1 := <[a := set_next p it]> σ).
    assert (Hna : a ∉ concat nls) by (apply Hdis; left).
    assert (Hne : forall b, b <> a -> σ1 !! b = σ !! b) by (intros b Hb; apply lookup_insert_ne; congruence).
    assert (Hak : a ∉ k) by (intros Hin; apply Hna; eapply lookup_concat_elem; eassumption).
    assert (Hk1 : linked (<[j := a]> nb) n σ1 (<[j := a :: k]> nls)).
    { apply (linked_update nb n σ nls j k); auto.
      - cbn [chain]. split_and!; auto. exists p. unfold σ1 at 1. rewrite lookup_insert_eq. split; [reflexivity|].
        apply (chain_ext σ); [exact Hck|]. intros b Hb. rewrite Hne; [reflexivity|congruence].
      - apply NoDup_cons. split; [exact Hak|]. destruct (concat_insert nls j k Hjk) as (rest & Er & _).
        rewrite Er in Hkn. apply NoDup_app in Hkn. tauto.
      - intros b Hb _. apply Hne. congruence.
      - intros b Hb Hbin. apply elem_of_cons in Hb as [->|Hb]; [contradiction|exact Hb].
      - intros b ib Hb Eb. apply elem_of_cons in Hb as [->|Hb].
        + unfold σ1 in Eb. rewrite lookup_insert_eq in Eb. injection Eb as <-. reflexivity.
        + rewrite Hne in Eb by congruence. apply (Hkp _ _ _ _ Hjk Hb Eb). }
    destruct (concat_insert nls j k Hjk) as (rest & Er1 & Er2).
    destruct (IH fuel σ1 (<[j := a]> nb) (<[j := a :: k]> nls) (next it)) as (σ' & nb' & nls' & Em & Hl' & Hp' & Hs' & Ho'); auto; try lia.
    + apply (chain_ext σ); [exact Hc|]. intros b Hb. rewrite Hne; [reflexivity|congruence].
    + intros b Hb. rewrite Er2. cbn [app]. rewrite <- Er1. intros Hin. apply elem_of_cons in Hin as [->|Hin]; [contradiction|].
      apply (Hdis b); [right; exact Hb|exact Hin].
    + exists σ', nb', nls'. split_and!; auto.
      * rewrite Hp', Er2. cbn [app]. rewrite <- Er1. symmetry. apply Permutation_middle.
      * apply (same_data_trans _ σ1); [apply same_data_set_next, E|exact Hs'].
      * intros b Hb. apply not_elem_of_cons in Hb as [Hb1 Hb2]. rewrite Ho' by exact Hb2. apply Hne, Hb1.
Qed.

Lemma move_chains_spec n ls : forall heads σ nb nls,
  0 < n -> Forall2 (chain σ) heads ls -> linked nb n σ nls -> NoDup (concat ls ++ concat nls) ->
  exists σ' nb' nls', move_chains n heads σ nb = Some (σ', nb') /\ linked nb' n σ' nls' /\
    Permutation (concat nls') (concat ls ++ concat nls) /\ same_data σ σ'.
Proof.
  induction ls as [|l ls IH]; intros heads σ nb nls Hn Hc Hk Hnd.
  - apply Forall2_nil_inv_r in Hc as ->. exists σ, nb, nls. auto using same_data_refl.
  - apply Forall2_cons_inv_r in Hc as (p & heads' & Hp & Hc & ->). cbn [concat] in *.
    rewrite <- app_assoc in Hnd. apply NoDup_app in Hnd as (Hnl & Hd & Hnd).
    assert (Hsome : forall a, a ∈ l -> is_Some (σ !! a)).
    { intros a Ha. apply chain_nonzero in Hp. rewrite Forall_forall in Hp. apply Hp, Ha. }
    destruct (move_chain_spec n l (size σ) σ nb nls p Hn Hp (nodup_size σ l Hnl Hsome) Hk Hnl) as (σ1 & nb1 & nls1 & E & Hk1 & Hp1 & Hs1 & Ho1).
    { intros a Ha Hin. apply (Hd a Ha). apply elem_of_app. right. exact Hin. }
    destruct (IH heads' σ1 nb1 nls1) as (σ' & nb' & nls' & E' & Hk' & Hp' & Hs'); auto.
    + apply Forall2_same_length_lookup_2; [eapply Forall2_length, Hc|]. intros i x y Hx Hy.
      apply (chain_ext σ); [apply (Forall2_lookup_lr _ _ _ _ _ _ Hc Hx Hy)|]. intros a Ha. rewrite Ho1; [reflexivity|].
      intros Hal. apply (Hd a Hal). apply elem_of_app. left. eapply lookup_concat_elem; eassumption.
    + rewrite Hp1. rewrite app_assoc, (Permutation_app_comm (concat ls) l), <- app_assoc. apply NoDup_app. auto.
    + exists σ', nb', nls'. cbn [move_chains]. rewrite E. cbn [mbind option_bind]. split_and!; auto.
      * rewrite Hp', Hp1. rewrite !app_assoc. apply Permutation_app_tail, Permutation_app_comm.
      * eapply same_data_trans; eassumption.
Qed.

(** The array of empty chains. *)
Lemma linked_empty n σ : 0 <= n -> linked (zrep n 0) n σ (replicate (Z.to_nat n) []).
Proof.
  intros Hn. assert (He : concat (replicate (Z.to_nat n) (@nil Z)) = []) by (induction (Z.to_nat n); auto).
  constructor.
  - unfold zrep. apply Forall2_replicate. reflexivity.
  - rewrite He. constructor.
  - intros i l a it Hi Ha. apply lookup_replicate in Hi as [-> _]. inversion Ha.
  - apply zlen_zrep, Hn.
Qed.

Lemma lh_rebucket_spec `{Malloc} lh σ ls n h :
  table lh σ ls -> kMinNumBuckets <= n < 2 ^ 64 ->
  exists lh' σ' h' ls', lh_rebucket lh σ n h = Some (lh', σ', h') /\ table lh' σ' ls' /\ same_data σ σ' /\
    callback_depth lh' = callback_depth lh.
Proof.
  intros Ht Hn. unfold kMinNumBuckets in Hn. unfold lh_rebucket, sizeof_ptr.
  assert (Hstay : forall h' : heap, exists (lh' : lhash_st) (σ' : store) (h1 : heap) ls', Some (lh, σ, h') = Some (lh', σ', h1) /\ table lh' σ' ls' /\
    same_data σ σ' /\ callback_depth lh' = callback_depth lh).
  { intros h'. exists lh, σ, h', ls. auto using same_data_refl. }
  destruct (Z.eqb_spec (u64 (8 * n) / 8) n) as [E|]; cbn [negb]; [|apply Hstay].
  assert (Hn61 : n < 2 ^ 61) by (unfold u64 in E; dlia).
  destruct (OPENSSL_malloc h _) as [[p|] h1]; [|apply Hstay].
  destruct Ht as [Hk Hall Hsz Hcnt Hkd Hf]. pose proof Hk as [Hc Hnd _ _].
  pose proof (linked_empty n σ ltac:(lia)) as He.
  assert (Hce : concat (replicate (Z.to_nat n) (@nil Z)) = []) by (clear; induction (Z.to_nat n); auto).
  destruct (move_chains_spec n ls (buckets lh) σ (zrep n 0) _ ltac:(lia) Hc He) as (σ' & nb' & nls' & -> & Hk' & Hp & Hs).
  { rewrite Hce, app_nil_r. exact Hnd. }
  rewrite Hce, app_nil_r in Hp. cbn [mbind option_bind]. eexists _, σ', h1, nls'. split; [reflexivity|].
  split; [|auto]. constructor; cbn [buckets num_buckets num_items hash comp]; auto.
  - intros a [it' Ea]. destruct (same_data_some _ _ _ _ Hs Ea) as (it & Ea' & _). rewrite Hp. apply Hall. eauto.
  - unfold kMinNumBuckets. lia.
  - rewrite (same_data_size _ _ Hs). exact Hcnt.
  - eapply same_data_keyed; eassumption.
Qed.

Lemma lh_maybe_resize_spec `{Malloc} lh σ ls h :
  table lh σ ls ->
  exists lh' σ' h' ls', lh_maybe_resize lh σ h = Some (lh', σ', h') /\ table lh' σ' ls' /\ same_data σ σ' /\
    callback_depth lh' = callback_depth lh.
Proof.
  intros Ht. pose proof Ht as [_ _ Hsz _ _ _]. unfold lh_maybe_resize.
  assert (Hstay : exists (lh' : lhash_st) (σ' : store) (h' : heap) ls', Some (lh, σ, h) = Some (lh', σ', h') /\ table lh' σ' ls' /\
    same_data σ σ' /\ callback_depth lh' = callback_depth lh) by (exists lh, σ, h, ls; auto using same_data_refl).
  destruct (0 <? callback_depth lh); [exact Hstay|]. rewrite (proj2 (Z.ltb_ge _ _)) by lia.
  destruct (kMaxAverageChainLength <? _).
  - rewrite u64_small by (unfold kMinNumBuckets in *; lia). destruct (Z.ltb_spec (num_buckets lh) (num_buckets lh * 2)); [|exact Hstay].
    apply (lh_rebucket_spec lh σ ls); [exact Ht|]. unfold kMinNumBuckets in *. lia.
  - destruct (_ && _); [|exact Hstay]. apply (lh_rebucket_spec lh σ ls); [exact Ht|].
    destruct (Z.ltb_spec (num_buckets lh / 2) kMinNumBuckets); unfold kMinNumBuckets in *; [lia|]. dlia.
Qed.

(** * The operations *)

(** The search for the key of [data], and what the map has for it. *)
Lemma get_next_ptr_spec lh σ ls m data :
  table lh σ ls -> stands_for σ m ->
  exists p l1 l2, let i := Z.to_nat (key_hash (key data) mod num_buckets lh) in
    buckets lh !! i = Some p /\ ls !! i = Some (l1 ++ l2) /\ chain σ p (l1 ++ l2) /\ NoDup (l1 ++ l2) /\
    get_next_ptr_and_hash lh σ data = Some (slot_at i l1, key_hash (key data)) /\
    load lh σ (slot_at i l1) = Some (hd 0 l2) /\
    match l2 with
    | [] => m !! key data = None
    | a :: _ => exists it, σ !! a = Some it /\ key (it_data it) = key data /\ m !! key data = Some (it_data it)
    end.
Proof.
  intros Ht Hm. pose proof (tb_funcs _ _ _ Ht) as [Hh Hc0].
  destruct (find_spec lh σ ls (fun d => call_cmp_func (comp lh) d data =? 0) (key data) (key_hash (key data)) Ht)
    as (p & l1 & l2 & Hi & Hl & Hc & Hn & Es & Hl2); [|reflexivity|].
  { intros d. rewrite Z.eqb_eq, Hc0. apply compares. }
  exists p, l1, l2. cbv zeta. split_and!; auto.
  - unfold get_next_ptr_and_hash. rewrite Hh, hashes, Es. reflexivity.
  - apply (load_slot lh σ _ p); assumption.
  - destruct l2 as [|a l2]; [apply (stands_none σ); assumption|]. destruct Hl2 as (it & E & Ek).
    exists it. split_and!; auto. rewrite <- Ek. apply (stands_some σ m a it Hm E).
Qed.

Lemma OPENSSL_lh_retrieve_spec lh σ ls m data :
  table lh σ ls -> stands_for σ m -> OPENSSL_lh_retrieve lh σ data = Some (default 0 (m !! key data)).
Proof.
  intros Ht Hm. destruct (get_next_ptr_spec lh σ ls m data Ht Hm) as (p & l1 & l2 & _ & _ & Hc & _ & Eg & El & Hl2).
  unfold OPENSSL_lh_retrieve. rewrite Eg. cbn [mbind option_bind]. unfold data_at. rewrite El. cbn [mbind option_bind].
  apply chain_nonzero, Forall_app in Hc as [_ Hc]. destruct l2 as [|a l2]; cbn [hd].
  - rewrite Hl2. reflexivity.
  - destruct Hl2 as (it & E & _ & ->). apply List.Forall_cons_iff in Hc as [[Ha _] _].
    rewrite (proj2 (Z.eqb_neq a 0) Ha), E. reflexivity.
Qed.

(** [cmp_key] tests for the key [k] the way the table's function does. *)
Lemma OPENSSL_lh_retrieve_key_spec lh σ ls m kp k cmp_key :
  table lh σ ls -> stands_for σ m -> (forall d, cmp_key kp d = 0 <-> key d = k) ->
  OPENSSL_lh_retrieve_key lh σ kp (key_hash k) cmp_key = Some (default 0 (m !! k)).
Proof.
  intros Ht Hm Hk.
  destruct (find_spec lh σ ls (fun d => cmp_key kp d =? 0) k (key_hash k) Ht)
    as (p & l1 & l2 & Hi & Hl & Hc & Hn & Es & Hl2); [|reflexivity|].
  { intros d. rewrite Z.eqb_eq. apply Hk. }
  unfold OPENSSL_lh_retrieve_key, get_next_ptr_by_key. rewrite Es. cbn [mbind option_bind]. unfold data_at.
  rewrite (load_slot lh σ _ p l1 l2 Hi Hc). cbn [mbind option_bind].
  apply chain_nonzero, Forall_app in Hc as [_ Hc]. destruct l2 as [|a l2]; cbn [hd].
  - rewrite (stands_none σ m k Hm Hl2). reflexivity.
  - destruct Hl2 as (it & E & Ek). apply List.Forall_cons_iff in Hc as [[Ha _] _].
    rewrite (proj2 (Z.eqb_neq a 0) Ha), E. cbn [mbind option_bind]. rewrite <- Ek, (stands_some σ m a it Hm E). reflexivity.
Qed.

(** An item gets other data of the same key. *)
Lemma table_replace lh σ ls m a it data :
  table lh σ ls -> stands_for σ m -> σ !! a = Some it -> key (it_data it) = key data ->
  let σ' := <[a := {| it_data := data; next := next it; it_hash := it_hash it |}]> σ in
  table lh σ' ls /\ stands_for σ' (<[key data := data]> m).
Proof.
  intros Ht Hm E Ek σ'. destruct Ht as [[Hc Hn Hp Hl] Hall Hsz Hcnt [Hh Hi] Hf].
  assert (Hold : forall b ib', σ' !! b = Some ib' -> exists ib, σ !! b = Some ib /\ next ib = next ib' /\
    it_hash ib = it_hash ib' /\ key (it_data ib) = key (it_data ib')).
  { intros b ib'. unfold σ'. destruct (decide (a = b)) as [<-|Hne].
    - rewrite lookup_insert_eq. intros Eb. injection Eb as <-. eauto.
    - rewrite lookup_insert_ne by exact Hne. eauto 6. }
  split; [constructor; auto|].
  - constructor; auto.
    + apply Forall2_same_length_lookup_2; [eapply Forall2_length, Hc|]. intros i x y Hx Hy.
      apply (chain_ext σ); [apply (Forall2_lookup_lr _ _ _ _ _ _ Hc Hx Hy)|]. intros b _. unfold σ'.
      destruct (decide (a = b)) as [<-|Hne]; [rewrite lookup_insert_eq, E; reflexivity|rewrite lookup_insert_ne by exact Hne; reflexivity].
    + intros i l b ib' Hli Hb Eb. destruct (Hold _ _ Eb) as (ib & Eb' & _ & <- & _). apply (Hp _ _ _ _ Hli Hb Eb').
  - intros b [ib' Eb]. destruct (Hold _ _ Eb) as (ib & Eb' & _). eauto.
  - unfold σ'. rewrite map_size_insert_Some by eauto. exact Hcnt.
  - split.
    + intros b ib' Eb. destruct (Hold _ _ Eb) as (ib & Eb' & _ & <- & <-). apply (Hh b), Eb'.
    + intros b c ib ic Eb Ec Ekk. destruct (Hold _ _ Eb) as (jb & Jb & _ & _ & Kb). destruct (Hold _ _ Ec) as (jc & Jc & _ & _ & Kc).
      apply (Hi b c jb jc Jb Jc). congruence.
  - intros k d. destruct (decide (key data = k)) as [<-|Hk].
    + rewrite lookup_insert_eq. split.
      * intros Ed. injection Ed as <-. exists a, {| it_data := data; next := next it; it_hash := it_hash it |}.
        unfold σ'. rewrite lookup_insert_eq. auto.
      * intros (b & ib' & Eb & <- & Ekb). destruct (Hold _ _ Eb) as (ib & Eb' & _ & _ & Ekb').
        assert (a = b) as <- by (apply (Hi a b it ib E Eb'); congruence).
        unfold σ' in Eb. rewrite lookup_insert_eq in Eb. injection Eb as <-. reflexivity.
    + rewrite lookup_insert_ne by exact Hk. etransitivity; [apply Hm|].
      split; intros (b & ib & Eb & <- & Ekb); exists b, ib; (split; [|auto]); unfold σ' in *.
      * rewrite lookup_insert_ne; [exact Eb|]. intros <-. congruence.
      * destruct (decide (a = b)) as [<-|Hne]; [|rewrite lookup_insert_ne in Eb by exact Hne; exact Eb].
        rewrite lookup_insert_eq in Eb. injection Eb as <-. cbn in Ekb. congruence.
Qed.

(** An item of a new key. *)
Lemma table_add σ m data b :
  let σ1 := <[b := {| it_data := data; next := 0; it_hash := key_hash (key data) |}]> σ in
  keyed σ -> stands_for σ m -> m !! key data = None -> σ !! b = None ->
  keyed σ1 /\ stands_for σ1 (<[key data := data]> m).
Proof.
  intros σ1 [Hh Hi] Hm Hmk Hb.
  assert (Hno : forall a it, σ !! a = Some it -> key (it_data it) <> key data).
  { intros a it E Ek. pose proof (stands_some σ m a it Hm E) as Es. congruence. }
  assert (Hne : forall a, is_Some (σ !! a) -> b <> a) by (intros a [x Ex] ->; congruence).
  split; [split|].
  - intros a it. unfold σ1. destruct (decide (b = a)) as [<-|Ha].
    + rewrite lookup_insert_eq. intros E. injection E as <-. reflexivity.
    + rewrite lookup_insert_ne by exact Ha. apply Hh.
  - intros a c ia ic. unfold σ1. destruct (decide (b = a)) as [<-|Ha], (decide (b = c)) as [<-|Hc]; auto.
    + rewrite lookup_insert_eq, lookup_insert_ne by exact Hc. intros E Ec Ek. injection E as <-. destruct (Hno c ic Ec). auto.
    + rewrite lookup_insert_eq, lookup_insert_ne by exact Ha. intros Ea E Ek. injection E as <-. destruct (Hno a ia Ea). auto.
    + rewrite !lookup_insert_ne by assumption. apply Hi.
  - intros k d. destruct (decide (key data = k)) as [<-|Hk].
    + rewrite lookup_insert_eq. split.
      * intros E. injection E as <-. exists b, {| it_data := data; next := 0; it_hash := key_hash (key data) |}.
        unfold σ1. rewrite lookup_insert_eq. auto.
      * intros (a & it & Ea & <- & Ek). unfold σ1 in Ea. destruct (decide (b = a)) as [<-|Ha].
        -- rewrite lookup_insert_eq in Ea. injection Ea as <-. reflexivity.
        -- rewrite lookup_insert_ne in Ea by exact Ha. destruct (Hno a it Ea Ek).
    + rewrite lookup_insert_ne by exact Hk. etransitivity; [apply Hm|].
      split; intros (a & it & Ea & <- & Ek); exists a, it; (split; [|auto]); unfold σ1 in *.
      * rewrite lookup_insert_ne; [exact Ea|]. apply Hne. eauto.
      * destruct (decide (b = a)) as [<-|Ha]; [|rewrite lookup_insert_ne in Ea by exact Ha; exact Ea].
        rewrite lookup_insert_eq in Ea. injection Ea as <-. cbn in Ek. congruence.
Qed.

(** A new item at the end of its chain. *)
Lemma table_append lh σ ls m data p l b :
  let k := key data in
  let i := Z.to_nat (key_hash k mod num_buckets lh) in
  table lh σ ls -> stands_for σ m -> m !! k = None ->
  buckets lh !! i = Some p -> ls !! i = Some l -> chain σ p l -> NoDup l ->
  b <> 0 -> σ !! b = None -> num_items lh + 1 < 2 ^ 64 ->
  exists lh' σ', save lh (<[b := {| it_data := data; next := 0; it_hash := key_hash k |}]> σ) (slot_at i l) b = Some (lh', σ') /\
    let lh' := with_num_items (u64 (num_items lh' + 1)) lh' in
    table lh' σ' (<[i := l ++ [b]]> ls) /\ stands_for σ' (<[k := data]> m) /\ callback_depth lh' = callback_depth lh.
Proof.
  intros k i Ht Hm Hmk Hi Hl Hc Hn Hb Hbσ Hmax. pose proof Ht as [Hlk Hall Hsz Hcnt Hkd Hf].
  set (new := {| it_data := data; next := 0; it_hash := key_hash k |}). set (σ1 := <[b := new]> σ).
  assert (Hnew : forall a, is_Some (σ !! a) -> a <> b) by (intros a [x Ex] ->; congruence).
  assert (Hbl : forall a, a ∈ concat ls -> a <> b).
  { intros a Ha. apply Hnew. destruct (elem_of_concat_lookup ls a Ha) as (j & l' & Hj & Hin).
    destruct (Forall2_lookup_r _ _ _ _ _ (lk_chains _ _ _ _ Hlk) Hj) as (q & _ & Hcq). apply chain_nonzero in Hcq.
    rewrite Forall_forall in Hcq. apply Hcq, Hin. }
  assert (Hin : forall a, a ∈ l -> a ∈ concat ls) by (intros a; eapply lookup_concat_elem; eassumption).
  assert (Hc1 : chain σ1 p (l ++ [])).
  { rewrite (app_nil_r l). apply (chain_ext σ); [exact Hc|]. intros a Ha. unfold σ1. rewrite lookup_insert_ne; [reflexivity|].
    intros E. apply (Hbl a (Hin a Ha)). congruence. }
  assert (Hcb : chain σ1 b [b]).
  { split_and!; auto. exists 0. unfold σ1. rewrite lookup_insert_eq. split; reflexivity. }
  assert (Hnb : NoDup (l ++ [b])).
  { apply NoDup_app. split_and!; [exact Hn| |apply NoDup_singleton]. intros a Ha E. apply list_elem_of_singleton in E. apply (Hbl a (Hin a Ha) E). }
  destruct (save_slot lh σ1 i p l [] [b] b Hi Hc1 Hcb Hnb) as (p' & σ' & Es & Hc' & Ho & Hsd).
  exists (with_buckets (<[i := p']> (buckets lh)) lh), σ'. split; [exact Es|]. cbv zeta.
  destruct (table_add σ m data b Hkd Hm Hmk Hbσ) as (Hkd1 & Hm1).
  split_and!; [|apply (same_data_stands σ1); assumption|destruct lh; reflexivity].
  constructor; cbn [with_num_items with_buckets num_items buckets num_buckets hash comp].
  - apply (linked_update _ _ σ ls i l); auto.
    + intros a Ha Hal. rewrite Ho by exact Hal. apply lookup_insert_ne. intros E. apply (Hbl a Ha). congruence.
    + intros a Ha Hac. apply elem_of_app in Ha as [Ha|Ha]; [exact Ha|]. apply list_elem_of_singleton in Ha as ->. destruct (Hbl b Hac eq_refl).
    + intros a it' Ha Ea. destruct (same_data_some _ _ _ _ Hsd Ea) as (it & Ei & Ef). injection Ef as _ <-.
      apply elem_of_app in Ha as [Ha|Ha].
      * unfold σ1 in Ei. rewrite lookup_insert_ne in Ei by (intros E; apply (Hbl a (Hin a Ha)); congruence).
        apply (lk_place _ _ _ _ Hlk _ _ _ _ Hl Ha Ei).
      * apply list_elem_of_singleton in Ha as ->. unfold σ1 in Ei. rewrite lookup_insert_eq in Ei. injection Ei as <-. reflexivity.
  - destruct (concat_insert ls i l Hl) as (rest & Er1 & Er2). intros a [it' Ea].
    destruct (same_data_some _ _ _ _ Hsd Ea) as (it & Ei & _). rewrite Er2. destruct (decide (a = b)) as [->|Hne].
    + apply elem_of_app. left. apply elem_of_app. right. left.
    + unfold σ1 in Ei. rewrite lookup_insert_ne in Ei by congruence. rewrite <- app_assoc. apply elem_of_app.
      assert (Hac : a ∈ concat ls) by (apply Hall; eauto). rewrite Er1 in Hac. apply elem_of_app in Hac as [|]; [auto|].
      right. apply elem_of_app. auto.
  - exact Hsz.
  - rewrite (same_data_size _ _ Hsd). unfold σ1. rewrite map_size_insert_None by exact Hbσ. rewrite u64_small by lia. lia.
  - apply (same_data_keyed σ1); assumption.
  - exact Hf.
Qed.

Lemma delete_stands σ m a it :
  keyed σ -> stands_for σ m -> σ !! a = Some it ->
  keyed (delete a σ) /\ stands_for (delete a σ) (delete (key (it_data it)) m).
Proof.
  intros [Hh Hi] Hm E.
  assert (Hsub : forall b ib, delete a σ !! b = Some ib <-> b <> a /\ σ !! b = Some ib).
  { intros b ib. rewrite lookup_delete_Some. split; intros [? ?]; auto. }
  split; [split|].
  - intros b ib Eb. apply Hsub in Eb as [_ Eb]. apply Hh with b, Eb.
  - intros b c ib ic Eb Ec. apply Hsub in Eb as [_ Eb]. apply Hsub in Ec as [_ Ec]. apply Hi; assumption.
  - intros k d. rewrite lookup_delete_Some. rewrite (Hm k d). split.
    + intros (Hk & b & ib & Eb & Ed & Ek). exists b, ib. rewrite Hsub. split_and!; auto. intros ->. apply Hk. congruence.
    + intros (b & ib & Eb & Ed & Ek). apply Hsub in Eb as [Hb Eb]. split; [|eauto]. intros Hk. apply Hb.
      apply (Hi b a ib it Eb E). congruence.
Qed.

(** An item is taken out of its chain and freed. *)
Lemma table_remove lh σ ls m p l1 a l2 it i :
  table lh σ ls -> stands_for σ m -> buckets lh !! i = Some p -> ls !! i = Some (l1 ++ a :: l2) ->
  chain σ p (l1 ++ a :: l2) -> NoDup (l1 ++ a :: l2) -> σ !! a = Some it -> num_items lh < 2 ^ 64 ->
  exists lh' σ', save lh σ (slot_at i l1) (next it) = Some (lh', σ') /\ same_data σ σ' /\
    let lh' := with_num_items (u64 (num_items lh' - 1)) lh' in
    table lh' (delete a σ') (<[i := l1 ++ l2]> ls) /\ stands_for (delete a σ') (delete (key (it_data it)) m) /\
    callback_depth lh' = callback_depth lh /\ num_buckets lh' = num_buckets lh.
Proof.
  intros Ht Hm Hi Hl Hc Hn E Hmax. pose proof Ht as [Hlk Hall Hsz Hcnt Hkd Hf].
  assert (Hn' : NoDup (l1 ++ l2) /\ a ∉ l1 ++ l2).
  { rewrite <- Permutation_middle in Hn. apply NoDup_cons in Hn. tauto. }
  destruct Hn' as [Hn' Ha].
  assert (Hc2 : chain σ (next it) l2).
  { clear -Hc E. revert p Hc. induction l1 as [|b l1 IH]; intros p; cbn [app chain].
    - intros (-> & _ & q & Eq & Hc). rewrite E in Eq. injection Eq as <-. exact Hc.
    - intros (_ & _ & q & _ & Hc). apply (IH q Hc). }
  destruct (save_slot lh σ i p l1 (a :: l2) l2 (next it) Hi Hc Hc2 Hn') as (p' & σ' & Es & Hc' & Ho & Hsd).
  exists (with_buckets (<[i := p']> (buckets lh)) lh), σ'. split; [exact Es|]. split; [exact Hsd|]. cbv zeta.
  destruct (same_data_some _ _ a it (same_data_sym _ _ Hsd) E) as (it' & E' & Ei).
  assert (Ek : it_data it' = it_data it) by (injection Ei; auto).
  destruct (delete_stands σ' m a it' (same_data_keyed _ _ Hsd Hkd) (same_data_stands _ _ _ Hsd Hm) E') as [Hkd' Hm'].
  rewrite Ek in Hm'. split_and!; [|exact Hm'|destruct lh; reflexivity..].
  destruct (concat_insert ls i _ Hl) as (rest & Er1 & Er2).
  assert (Hrest : a ∉ rest).
  { pose proof (lk_nodup _ _ _ _ Hlk) as Hnd. rewrite Er1, <- app_assoc in Hnd. cbn [app] in Hnd. rewrite <- Permutation_middle in Hnd.
    apply NoDup_cons in Hnd as [Hnd _]. intros Hin. apply Hnd. rewrite !elem_of_app. auto. }
  constructor; cbn [with_num_items with_buckets num_items buckets num_buckets hash comp]; auto.
  - apply (linked_update _ _ σ ls i (l1 ++ a :: l2)); auto.
    + apply (chain_ext σ'); [exact Hc'|]. intros b Hb. rewrite lookup_delete_ne; [reflexivity|congruence].
    + intros b Hb Hbl. rewrite elem_of_app, elem_of_cons in Hbl. rewrite lookup_delete_ne by (intros ->; tauto). apply Ho. tauto.
    + intros b Hb _. rewrite elem_of_app, elem_of_cons. apply elem_of_app in Hb. tauto.
    + intros b ib Hb Eb. apply lookup_delete_Some in Eb as [_ Eb]. destruct (same_data_some _ _ _ _ Hsd Eb) as (jb & Jb & Ef).
      injection Ef as _ <-. apply (lk_place _ _ _ _ Hlk _ _ b _ Hl); [|exact Jb]. rewrite elem_of_app, elem_of_cons. apply elem_of_app in Hb. tauto.
  - intros b [ib Eb]. apply lookup_delete_Some in Eb as [Hba Eb]. destruct (same_data_some _ _ _ _ Hsd Eb) as (jb & Jb & _).
    assert (Hb : b ∈ concat ls) by (apply Hall; eauto). rewrite Er1 in Hb. rewrite Er2. rewrite !elem_of_app, elem_of_cons in *.
    destruct Hb as [[|[Hb|]]|]; auto. destruct (Hba (eq_sym Hb)).
  - rewrite map_size_delete_Some by eauto. rewrite (same_data_size _ _ Hsd).
    assert (size σ <> 0%nat) by (apply map_size_non_empty_iff; intros ->; discriminate).
    rewrite u64_small by lia. lia.
Qed.

(** The table is [m]; [size] bounds what [u64] can count. *)
Definition is_map (lh : lhash_st) (σ : store) (m : gmap K Z) : Prop :=
  (exists ls, table lh σ ls) /\ stands_for σ m.

Section Operations.
Context `{Malloc} `{!Addresses}.

(** An insertion with a key that is there replaces the data and returns the old
    ones; else it adds an item, or fails for lack of memory and changes nothing. *)
Lemma OPENSSL_lh_insert_spec lh σ m data h :
  is_map lh σ m -> num_items lh + 1 < 2 ^ 64 ->
  exists r lh' σ' h', OPENSSL_lh_insert lh σ data h = Some (r, default 0 (m !! key data), lh', σ', h') /\
    callback_depth lh' = callback_depth lh /\
    (r = 1 /\ is_map lh' σ' (<[key data := data]> m) \/
     r = 0 /\ m !! key data = None /\ lh' = lh /\ σ' = σ /\ forall lim, ~ (grants lim /\ sizeof_LHASH_ITEM + 8 <= lim < 2 ^ 64)).
Proof.
  intros [[ls Ht] Hm] Hmax. destruct (get_next_ptr_spec lh σ ls m data Ht Hm) as (p & l1 & l2 & Hi & Hl & Hc & Hn & Eg & El & Hl2).
  unfold OPENSSL_lh_insert. rewrite Eg. cbn [mbind option_bind]. rewrite El. cbn [mbind option_bind].
  pose proof (chain_nonzero _ _ _ Hc) as Hz. apply Forall_app in Hz as [_ Hz]. destruct l2 as [|a l2]; cbn [hd].
  - rewrite Hl2. cbn [Z.eqb negb]. destruct (OPENSSL_malloc h sizeof_LHASH_ITEM) as [[q|] h1] eqn:Em.
    + rewrite (app_nil_r l1) in *. destruct (pick_free σ) as [Hp0 Hpσ].
      destruct (table_append lh σ ls m data p l1 (pick σ) Ht Hm Hl2 Hi Hl Hc Hn Hp0 Hpσ Hmax) as (lh' & σ' & -> & Ht' & Hm' & Hd).
      cbn [mbind option_bind]. destruct (lh_maybe_resize_spec _ σ' _ h1 Ht') as (lh2 & σ2 & h2 & ls2 & -> & Ht2 & Hs2 & Hd2).
      cbn [mbind option_bind]. exists 1, lh2, σ2, h2. split; [reflexivity|]. split; [congruence|]. left. split; [reflexivity|].
      split; [eauto|]. apply (same_data_stands σ'); assumption.
    + exists 0, lh, σ, h1. split_and!; auto. right. split_and!; auto. intros lim [G Hlim]. unfold sizeof_LHASH_ITEM in *.
      destruct (OPENSSL_malloc_grants lim h 24 G) as (? & ? & E & _); [lia..|]. congruence.
  - destruct Hl2 as (it & E & Ek & ->). apply List.Forall_cons_iff in Hz as [[Ha _] _].
    rewrite (proj2 (Z.eqb_neq a 0) Ha), E. cbn [negb mbind option_bind]. eexists 1, lh, _, h. split; [reflexivity|]. split; [reflexivity|].
    left. split; [reflexivity|]. destruct (table_replace lh σ ls m a it data Ht Hm E Ek) as [Ht' Hm']. split; eauto.
Qed.

Lemma lh_maybe_resize_none lh σ h : 0 < callback_depth lh -> lh_maybe_resize lh σ h = Some (lh, σ, h).
Proof. intros Hd. unfold lh_maybe_resize. rewrite (proj2 (Z.ltb_lt 0 _) Hd). reflexivity. Qed.

(** A deletion returns the data, or NULL if there are none with the key. *)
Lemma OPENSSL_lh_delete_spec lh σ m data h :
  is_map lh σ m -> num_items lh < 2 ^ 64 ->
  exists lh' σ' h', OPENSSL_lh_delete lh σ data h = Some (default 0 (m !! key data), lh', σ', h') /\
    is_map lh' σ' (delete (key data) m) /\ callback_depth lh' = callback_depth lh.
Proof.
  intros [[ls Ht] Hm] Hmax. destruct (get_next_ptr_spec lh σ ls m data Ht Hm) as (p & l1 & l2 & Hi & Hl & Hc & Hn & Eg & El & Hl2).
  unfold OPENSSL_lh_delete. rewrite Eg. cbn [mbind option_bind]. rewrite El. cbn [mbind option_bind].
  pose proof (chain_nonzero _ _ _ Hc) as Hz. apply Forall_app in Hz as [_ Hz]. destruct l2 as [|a l2]; cbn [hd].
  - rewrite Hl2. cbn [Z.eqb]. exists lh, σ, h. split; [reflexivity|]. rewrite delete_id by exact Hl2. unfold is_map. eauto.
  - destruct Hl2 as (it & E & Ek & ->). apply List.Forall_cons_iff in Hz as [[Ha _] _].
    rewrite (proj2 (Z.eqb_neq a 0) Ha), E. cbn [mbind option_bind].
    destruct (table_remove lh σ ls m p l1 a l2 it _ Ht Hm Hi Hl Hc Hn E Hmax) as (lh' & σ' & -> & _ & Ht' & Hm' & Hd & _).
    cbn [mbind option_bind]. destruct (lh_maybe_resize_spec _ _ _ h Ht') as (lh2 & σ2 & h2 & ls2 & -> & Ht2 & Hs2 & Hd2).
    cbn [mbind option_bind]. exists lh2, σ2, h2. split; [reflexivity|]. split; [|congruence]. split; [eauto|].
    rewrite <- Ek. apply (same_data_stands (delete a σ')); assumption.
Qed.

(** During an iteration nothing is resized: the chains stay where they are. *)
Lemma OPENSSL_lh_delete_in_place lh σ ls m i l1 a l2 it h :
  table lh σ ls -> stands_for σ m -> ls !! i = Some (l1 ++ a :: l2) -> σ !! a = Some it ->
  num_items lh < 2 ^ 64 -> 0 < callback_depth lh ->
  exists lh' σ', OPENSSL_lh_delete lh σ (it_data it) h = Some (it_data it, lh', σ', h) /\
    table lh' σ' (<[i := l1 ++ l2]> ls) /\ stands_for σ' (delete (key (it_data it)) m) /\
    callback_depth lh' = callback_depth lh /\ num_buckets lh' = num_buckets lh /\
    (forall b, b <> a -> info <$> σ' !! b = info <$> σ !! b).
Proof.
  intros Ht Hm Hli E Hmax Hdep. destruct (get_next_ptr_spec lh σ ls m (it_data it) Ht Hm) as (p & k1 & k2 & Hi & Hl & Hc & Hn & Eg & El & Hl2).
  set (j := Z.to_nat _) in *. pose proof (chain_nonzero _ _ _ Hc) as Hz. apply Forall_app in Hz as [_ Hz]. destruct k2 as [|b k2].
  { rewrite (stands_some σ m a it Hm E) in Hl2. discriminate. }
  destruct Hl2 as (it' & E' & Ek & Em). rewrite (stands_some σ m a it Hm E) in Em. injection Em as Em.
  assert (b = a) as -> by (apply (kd_inj _ (tb_keyed _ _ _ Ht) b a it' it E' E Ek)).
  assert (j = i) as Hji.
  { apply (linked_same_list _ _ _ _ j i _ _ a (tb_linked _ _ _ Ht) Hl Hli); rewrite elem_of_app, elem_of_cons; auto. }
  clearbody j. subst j. rewrite Hli in Hl. injection Hl as Hl.
  destruct (nodup_split l1 l2 k1 k2 a) as [-> ->]; [rewrite Hl; exact Hn|exact Hl|]. rewrite E in E'. injection E' as <-.
  apply List.Forall_cons_iff in Hz as [[Ha _] _].
  destruct (table_remove lh σ ls m p k1 a k2 it i Ht Hm Hi Hli Hc Hn E Hmax) as (lh' & σ' & Es & Hsd & Ht' & Hm' & Hd & Hb).
  unfold OPENSSL_lh_delete. rewrite Eg. cbn [mbind option_bind]. rewrite El. cbn [mbind option_bind hd].
  rewrite (proj2 (Z.eqb_neq a 0) Ha), E. cbn [mbind option_bind]. rewrite Es. cbn [mbind option_bind].
  rewrite lh_maybe_resize_none by (rewrite Hd; exact Hdep). cbn [mbind option_bind]. eexists _, _. split; [reflexivity|].
  split_and!; auto. intros c Hca. rewrite lookup_delete_ne by congruence. apply Hsd.
Qed.

Lemma OPENSSL_lh_new_spec h h' lh :
  OPENSSL_lh_new hf cf h = (Some lh, h') -> is_map lh ∅ ∅ /\ num_items lh = 0 /\ callback_depth lh = 0.
Proof.
  unfold OPENSSL_lh_new. destruct (OPENSSL_malloc h _) as [[p|] h1]; [|discriminate].
  destruct (OPENSSL_malloc h1 _) as [[q|] h2]; [|discriminate]. intros E. apply (f_equal fst) in E. cbn [fst] in E.
  apply (inj Some) in E as <-. split; [|auto]. split.
  - exists (replicate 16 []). constructor; cbn [num_items buckets num_buckets hash comp]; auto.
    + apply (linked_empty 16 ∅). lia.
    + intros a [it E]. discriminate.
    + unfold kMinNumBuckets. lia.
    + split; intros *; discriminate.
  - intros k d. split; [discriminate|]. intros (a & it & E & _). discriminate.
Qed.

(** * Freeing *)

Lemma free_chain_spec l : forall fuel σ n,
  chain σ n l -> NoDup l -> (length l <= fuel)%nat ->
  exists σ', free_chain fuel σ n = Some σ' /\ (forall a, a ∈ l -> σ' !! a = None) /\ (forall a, a ∉ l -> σ' !! a = σ !! a).
Proof.
  induction l as [|a l IH]; intros fuel σ n Hc Hn Hf; cbn [chain] in Hc.
  - subst n. exists σ. split_and!; auto; [destruct fuel; reflexivity|]. intros a Ha. inversion Ha.
  - destruct Hc as (-> & Ha & q & Hq & Hc). apply fmap_Some in Hq as (it & E & ->). apply NoDup_cons in Hn as [Hal Hn].
    destruct fuel as [|fuel]; cbn [length] in Hf; [lia|]. cbn [free_chain].
    rewrite (proj2 (Z.eqb_neq a 0) Ha), E. cbn [mbind option_bind].
    destruct (IH fuel (delete a σ) (next it)) as (σ' & E' & Hin & Hout); auto; [|lia|].
    + apply (chain_ext σ); [exact Hc|]. intros b Hb. rewrite lookup_delete_ne; [reflexivity|]. congruence.
    + exists σ'. split; [exact E'|]. split.
      * intros b Hb. apply elem_of_cons in Hb as [->|Hb]; [|auto]. rewrite Hout by exact Hal. apply lookup_delete_eq.
      * intros b Hb. apply not_elem_of_cons in Hb as [Hba Hb]. rewrite Hout by exact Hb. apply lookup_delete_ne. congruence.
Qed.

Lemma free_chains_spec ls : forall heads σ,
  Forall2 (chain σ) heads ls -> NoDup (concat ls) ->
  exists σ', free_chains heads σ = Some σ' /\ (forall a, a ∈ concat ls -> σ' !! a = None) /\
    (forall a, a ∉ concat ls -> σ' !! a = σ !! a).
Proof.
  induction ls as [|l ls IH]; intros heads σ Hc Hn.
  - apply Forall2_nil_inv_r in Hc as ->. exists σ. split_and!; auto. intros a Ha. inversion Ha.
  - apply Forall2_cons_inv_r in Hc as (p & heads' & Hp & Hc & ->). cbn [concat free_chains] in *.
    apply NoDup_app in Hn as (Hnl & Hd & Hn). pose proof (chain_nonzero _ _ _ Hp) as Hz. rewrite Forall_forall in Hz.
    destruct (free_chain_spec l (size σ) σ p Hp Hnl) as (σ1 & -> & Hin & Hout).
    { apply nodup_size; [exact Hnl|]. intros a Ha. apply Hz, Ha. }
    cbn [mbind option_bind]. destruct (IH heads' σ1) as (σ' & E' & Hin' & Hout'); auto.
    + apply Forall2_same_length_lookup_2; [eapply Forall2_length, Hc|]. intros i x y Hx Hy.
      apply (chain_ext σ); [apply (Forall2_lookup_lr _ _ _ _ _ _ Hc Hx Hy)|]. intros a Ha. rewrite Hout; [reflexivity|].
      intros Hal. apply (Hd a Hal). eapply lookup_concat_elem; eassumption.
    + exists σ'. split; [exact E'|]. split; intros a Ha.
      * apply elem_of_app in Ha as [Ha|Ha]; [|auto]. rewrite Hout' by (apply Hd, Ha). auto.
      * rewrite elem_of_app in Ha. rewrite Hout' by tauto. apply Hout. tauto.
Qed.

Lemma OPENSSL_lh_free_spec lh σ ls : table lh σ ls -> OPENSSL_lh_free (Some lh) σ = Some ∅.
Proof.
  intros [[Hc Hn _ _] Hall _ _ _ _]. destruct (free_chains_spec ls (buckets lh) σ Hc Hn) as (σ' & E & Hin & Hout).
  cbn [OPENSSL_lh_free]. rewrite E. f_equal. apply map_empty. intros a.
  destruct (decide (a ∈ concat ls)) as [Ha|Ha]; [auto|]. rewrite Hout by exact Ha.
  destruct (σ !! a) eqn:Ea; [|reflexivity]. destruct Ha. apply Hall. eauto.
Qed.

(** * Sequences of operations *)

Inductive lh_op := Insert (data : Z) | Delete (data : Z) | Retrieve (data : Z) | NumItems.

(** Results: what is returned and what is stored in [*old_data]. *)
Definition lh_run (o : lh_op) (lh : lhash_st) (σ : store) (h : heap) : option (Z * Z * lhash_st * store * heap) :=
  match o with
  | Insert d => OPENSSL_lh_insert lh σ d h
  | Delete d => '(r, lh, σ, h) ← OPENSSL_lh_delete lh σ d h; Some (r, 0, lh, σ, h)
  | Retrieve d => r ← OPENSSL_lh_retrieve lh σ d; Some (r, 0, lh, σ, h)
  | NumItems => Some (OPENSSL_lh_num_items lh, 0, lh, σ, h)
  end.

Fixpoint lh_run_all (ops : list lh_op) (lh : lhash_st) (σ : store) (h : heap) : option (list (Z * Z) * lhash_st * store * heap) :=
  match ops with
  | [] => Some ([], lh, σ, h)
  | o :: ops =>
    '(r, old, lh, σ, h) ← lh_run o lh σ h;
    '(rs, lh, σ, h) ← lh_run_all ops lh σ h;
    Some ((r, old) :: rs, lh, σ, h)
  end.

(** The same on a map. *)
Definition lh_spec (o : lh_op) (m : gmap K Z) : Z * Z * gmap K Z :=
  match o with
  | Insert d => (1, default 0 (m !! key d), <[key d := d]> m)
  | Delete d => (default 0 (m !! key d), 0, delete (key d) m)
  | Retrieve d => (default 0 (m !! key d), 0, m)
  | NumItems => (Z.of_nat (size m), 0, m)
  end.

(** An insertion of a new key may be lh_refused. *)
Definition lh_refused (o : lh_op) (m : gmap K Z) : Prop :=
  match o with Insert d => m !! key d = None | _ => False end.

Inductive lh_behaves : gmap K Z -> list lh_op -> list (Z * Z) -> gmap K Z -> Prop :=
| lh_behaves_nil m : lh_behaves m [] [] m
| lh_behaves_step m o ops r old m1 rs m' :
    lh_spec o m = (r, old, m1) -> lh_behaves m1 ops rs m' -> lh_behaves m (o :: ops) ((r, old) :: rs) m'
| lh_behaves_refused m o ops rs m' :
    lh_refused o m -> lh_behaves m ops rs m' -> lh_behaves m (o :: ops) ((0, 0) :: rs) m'.

Fixpoint lh_spec_all (ops : list lh_op) (m : gmap K Z) : list (Z * Z) * gmap K Z :=
  match ops with
  | [] => ([], m)
  | o :: ops => let '(r, old, m) := lh_spec o m in let '(rs, m) := lh_spec_all ops m in ((r, old) :: rs, m)
  end.

Lemma is_map_size lh σ m : is_map lh σ m -> num_items lh = Z.of_nat (size m).
Proof.
  intros [[ls Ht] Hm]. rewrite (tb_count _ _ _ Ht). f_equal. rewrite <- (size_dom m), <- length_map_to_list.
  pose proof (tb_keyed _ _ _ Ht) as [_ Hi]. set (ks := (fun p : Z * LHASH_ITEM => key (it_data p.2)) <$> map_to_list σ).
  replace (dom m) with (list_to_set (C := gset K) ks).
  - rewrite size_list_to_set; unfold ks; [rewrite length_fmap; reflexivity|].
    apply NoDup_fmap_2_strong; [|apply NoDup_map_to_list]. intros [a ia] [b ib] Ha Hb Ek.
    apply elem_of_map_to_list in Ha, Hb. cbn [snd] in Ek. assert (a = b) as <- by (apply (Hi a b ia ib); assumption). congruence.
  - apply set_eq. intros k. rewrite elem_of_list_to_set. unfold ks. rewrite list_elem_of_fmap, elem_of_dom. split.
    + intros ([a it] & -> & Ha). apply elem_of_map_to_list in Ha. exists (it_data it). apply (stands_some σ m a it Hm Ha).
    + intros [d Hd]. apply Hm in Hd as (a & it & E & <- & Ek). exists (a, it). split; [auto|]. apply elem_of_map_to_list, E.
Qed.

Lemma lh_run_spec o lh σ m h :
  is_map lh σ m -> num_items lh + 1 < 2 ^ 64 ->
  exists r old lh' σ' h', lh_run o lh σ h = Some (r, old, lh', σ', h') /\ callback_depth lh' = callback_depth lh /\
    ((exists m', lh_spec o m = (r, old, m') /\ is_map lh' σ' m') \/
     (r = 0 /\ old = 0 /\ lh' = lh /\ σ' = σ /\ lh_refused o m /\ forall lim, ~ (grants lim /\ sizeof_LHASH_ITEM + 8 <= lim < 2 ^ 64))).
Proof.
  intros Hm Hmax. pose proof Hm as [[ls Ht] Hst]. destruct o as [d|d|d|]; cbn [lh_run lh_spec lh_refused].
  - destruct (OPENSSL_lh_insert_spec lh σ m d h Hm Hmax) as (r & lh' & σ' & h' & E & Hd & [[-> Hm']|(-> & Hn & -> & -> & Hg)]).
    + eexists _, _, lh', σ', h'. split; [exact E|]. eauto.
    + eexists _, _, lh, σ, h'. split; [exact E|]. rewrite Hn. split; [reflexivity|]. right. split_and!; auto.
  - destruct (OPENSSL_lh_delete_spec lh σ m d h Hm) as (lh' & σ' & h' & E & Hm' & Hd); [lia|]. rewrite E.
    eexists _, _, lh', σ', h'. split; [reflexivity|]. eauto.
  - rewrite (OPENSSL_lh_retrieve_spec lh σ ls m d Ht Hst). eexists _, _, lh, σ, h. split; [reflexivity|]. eauto.
  - eexists _, _, lh, σ, h. split; [reflexivity|]. split; [reflexivity|]. left. exists m. unfold OPENSSL_lh_num_items.
    rewrite (is_map_size lh σ m Hm). auto.
Qed.

Lemma lh_spec_size o m r old m' : lh_spec o m = (r, old, m') -> (size m' <= S (size m))%nat.
Proof.
  destruct o as [d|d|d|]; cbn [lh_spec]; intros E; injection E as _ _ <-; try lia.
  - rewrite map_size_insert. destruct (m !! key d); cbn; lia.
  - rewrite map_size_delete. destruct (m !! key d); cbn; lia.
Qed.

Lemma lh_run_all_spec ops : forall lh σ m h,
  is_map lh σ m -> num_items lh + zlen ops < 2 ^ 64 ->
  exists rs lh' σ' h' m', lh_run_all ops lh σ h = Some (rs, lh', σ', h') /\ is_map lh' σ' m' /\ lh_behaves m ops rs m' /\
    (forall lim, grants lim -> sizeof_LHASH_ITEM + 8 <= lim < 2 ^ 64 -> lh_spec_all ops m = (rs, m')).
Proof.
  induction ops as [|o ops IH]; intros lh σ m h Hm Hmax.
  - exists [], lh, σ, h, m. split_and!; auto. constructor.
  - autorewrite with zlen in Hmax. pose proof (zlen_nonneg ops).
    destruct (lh_run_spec o lh σ m h Hm) as (r & old & lh1 & σ1 & h1 & E & _ & Hr); [lia|]. cbn [lh_run_all]. rewrite E. cbn [mbind option_bind].
    destruct Hr as [(m1 & Es & Hm1)|(-> & -> & -> & -> & Href & Hg)].
    + destruct (IH lh1 σ1 m1 h1 Hm1) as (rs & lh' & σ' & h' & m' & -> & Hm' & Hb & Hall).
      { rewrite (is_map_size _ _ _ Hm) in Hmax. rewrite (is_map_size _ _ _ Hm1). pose proof (lh_spec_size o m _ _ _ Es). lia. }
      cbn [mbind option_bind]. eexists _, lh', σ', h', m'. split; [reflexivity|]. split_and!; auto.
      * eapply lh_behaves_step; eassumption.
      * intros lim Hg Hlim. cbn [lh_spec_all]. rewrite Es. rewrite (Hall lim Hg Hlim). reflexivity.
    + destruct (IH lh σ m h1 Hm) as (rs & lh' & σ' & h' & m' & -> & Hm' & Hb & _); [lia|].
      cbn [mbind option_bind]. eexists _, lh', σ', h', m'. split; [reflexivity|]. split_and!; auto.
      * apply lh_behaves_refused; assumption.
      * intros lim G Hlim. destruct (Hg lim); auto.
Qed.
End Operations.

(** * Iteration *)

Definition data_of (σ : store) (a : Z) : Z := match σ !! a with Some it => it_data it | None => 0 end.

Lemma data_of_info σ σ' a : info <$> σ' !! a = info <$> σ !! a -> data_of σ' a = data_of σ a.
Proof.
  unfold data_of. destruct (σ' !! a) as [x|], (σ !! a) as [y|]; cbn; intros E; try discriminate; [|reflexivity].
  apply (inj Some) in E. apply (f_equal fst) in E. exact E.
Qed.

Lemma chain_suffix σ l2 : forall l1 p, chain σ p (l1 ++ l2) -> chain σ (hd 0 l2) l2.
Proof.
  induction l1 as [|a l1 IH]; intros p; cbn [app].
  - destruct l2; cbn [chain hd]; tauto.
  - cbn [chain]. intros (_ & _ & q & _ & Hc). apply (IH q Hc).
Qed.

(** The data of the chains are the values of the map. *)
Lemma datas_permutation lh σ ls m :
  table lh σ ls -> stands_for σ m -> Permutation (data_of σ <$> concat ls) (map_to_list m).*2.
Proof.
  intros [[Hc Hn _ _] Hall _ _ [_ Hi] _] Hm.
  assert (P1 : Permutation (concat ls) (map_to_list σ).*1).
  { apply NoDup_Permutation; [exact Hn|apply NoDup_fst_map_to_list|]. intros a. rewrite list_elem_of_fmap. split.
    - intros Ha. destruct (elem_of_concat_lookup ls a Ha) as (j & l & Hj & Hin).
      destruct (Forall2_lookup_r _ _ _ _ _ Hc Hj) as (q & _ & Hcq). apply chain_nonzero in Hcq. rewrite Forall_forall in Hcq.
      destruct (Hcq a Hin) as [_ [it E]]. exists (a, it). split; [reflexivity|]. apply elem_of_map_to_list, E.
    - intros ([b it] & -> & E). apply elem_of_map_to_list in E. apply Hall. cbn. eauto. }
  assert (P2 : Permutation (map_to_list m) ((fun p : Z * LHASH_ITEM => (key (it_data p.2), it_data p.2)) <$> map_to_list σ)).
  { apply NoDup_Permutation; [apply NoDup_map_to_list| |].
    - apply NoDup_fmap_2_strong; [|apply NoDup_map_to_list]. intros [a ia] [b ib] Ha Hb Ek.
      apply elem_of_map_to_list in Ha, Hb. cbn [snd] in Ek. apply (f_equal fst) in Ek. cbn [fst] in Ek.
      assert (a = b) as <- by (apply (Hi a b ia ib); assumption). congruence.
    - intros [k d]. rewrite elem_of_map_to_list, list_elem_of_fmap, (Hm k d). split.
      + intros (a & it & E & <- & <-). exists (a, it). split; [reflexivity|]. apply elem_of_map_to_list, E.
      + intros ([a it] & Ep & E). injection Ep as -> ->. apply elem_of_map_to_list in E. eauto. }
  rewrite P1, P2, <- !list_fmap_compose. apply reflexive_eq. apply list_fmap_ext. intros i [a it] E.
  apply list_elem_of_lookup_2, elem_of_map_to_list in E. cbn. unfold data_of. rewrite E. reflexivity.
Qed.

Section Visits.
Context `{Malloc} `{!Addresses} {world : Type} (visit : Z -> world -> bool * world).

(** A callback that does as it likes with its own data, and may delete the
    element it is called for. *)
Definition callback (d : Z) (s : lhash_st * store * heap * world) : option (lhash_st * store * heap * world) :=
  let '(lh, σ, h, w) := s in
  let '(del, w) := visit d w in
  if del then '(_, lh, σ, h) ← OPENSSL_lh_delete lh σ d h; Some (lh, σ, h, w) else Some (lh, σ, h, w).

Lemma callback_eq d lh σ h w :
  callback d (lh, σ, h, w) =
  let '(del, w) := visit d w in
  if del then '(_, lh, σ, h) ← OPENSSL_lh_delete lh σ d h; Some (lh, σ, h, w) else Some (lh, σ, h, w).
Proof. reflexivity. Qed.

(** The same on a list of elements and a map. *)
Fixpoint visit_all (ds : list Z) (w : world) (m : gmap K Z) : world * gmap K Z :=
  match ds with
  | [] => (w, m)
  | d :: ds => let '(del, w) := visit d w in visit_all ds w (if del then delete (key d) m else m)
  end.

Lemma visit_all_app ds1 ds2 w m :
  visit_all (ds1 ++ ds2) w m = let '(w1, m1) := visit_all ds1 w m in visit_all ds2 w1 m1.
Proof.
  revert w m. induction ds1 as [|d ds1 IH]; intros w m; cbn [app visit_all]; [reflexivity|].
  destruct (visit d w) as [del w1]. apply IH.
Qed.

Lemma doall_chain_spec i l2 : forall fuel l1 lh σ ls m h w,
  table lh σ ls -> stands_for σ m -> ls !! i = Some (l1 ++ l2) -> (length l2 <= fuel)%nat ->
  0 < callback_depth lh -> num_items lh < 2 ^ 64 ->
  exists lh' σ' k, let '(w', m') := visit_all (data_of σ <$> l2) w m in
    doall_chain callback fuel (hd 0 l2) (lh, σ, h, w) = Some (lh', σ', h, w') /\
    table lh' σ' (<[i := k]> ls) /\ stands_for σ' m' /\ callback_depth lh' = callback_depth lh /\
    num_buckets lh' = num_buckets lh /\ num_items lh' <= num_items lh /\
    (forall b, b ∉ l2 -> info <$> σ' !! b = info <$> σ !! b).
Proof.
  induction l2 as [|a l2 IH]; intros fuel l1 lh σ ls m h w Ht Hm Hl Hf Hd Hmax.
  - exists lh, σ, l1. cbn. rewrite (app_nil_r l1) in Hl. rewrite list_insert_id by exact Hl. split_and!; auto; [destruct fuel; reflexivity|lia].
  - destruct (Forall2_lookup_r _ _ _ _ _ (lk_chains _ _ _ _ (tb_linked _ _ _ Ht)) Hl) as (p & _ & Hc).
    pose proof (chain_suffix σ (a :: l2) l1 p Hc) as Hc2. cbn [chain hd] in Hc2. destruct Hc2 as (_ & Ha & q & Hq & Hc2).
    apply fmap_Some in Hq as (it & E & ->). assert (En : next it = hd 0 l2) by (destruct l2; cbn [chain hd] in *; tauto).
    destruct fuel as [|fuel]; cbn [length] in Hf; [lia|]. cbn [doall_chain hd]. rewrite (proj2 (Z.eqb_neq a 0) Ha), E.
    cbn [mbind option_bind fmap list_fmap visit_all]. assert (Ed : data_of σ a = it_data it) by (unfold data_of; rewrite E; reflexivity).
    rewrite Ed. rewrite callback_eq. destruct (visit (it_data it) w) as [[|] w1].
    + destruct (OPENSSL_lh_delete_in_place lh σ ls m i l1 a l2 it h Ht Hm Hl E Hmax Hd) as (lh1 & σ1 & -> & Ht1 & Hm1 & Hd1 & Hb1 & Hi1).
      cbn [mbind option_bind]. rewrite En.
      assert (Hni : num_items lh1 <= num_items lh).
      { rewrite (is_map_size lh σ m), (is_map_size lh1 σ1 (delete (key (it_data it)) m)) by (split; eauto).
        rewrite map_size_delete. destruct (m !! key (it_data it)); cbn; lia. }
      assert (Hli : (i < length ls)%nat) by (apply lookup_lt_Some in Hl; exact Hl).
      destruct (IH fuel l1 lh1 σ1 _ _ h w1 Ht1 Hm1) as (lh' & σ' & k & Hr); [apply list_lookup_insert_eq; exact Hli|lia|lia|lia|].
      assert (Hal : a ∉ l2).
      { pose proof (lk_nodup _ _ _ _ (tb_linked _ _ _ Ht)) as Hnd. destruct (concat_insert ls i _ Hl) as (rest & Er & _).
        rewrite Er in Hnd. apply NoDup_app in Hnd as (Hnd & _ & _). apply NoDup_app in Hnd as (_ & _ & Hnd). apply NoDup_cons in Hnd. tauto. }
      replace (data_of σ1 <$> l2) with (data_of σ <$> l2) in Hr.
      2: { apply list_fmap_ext. intros j b Hj. symmetry. apply data_of_info, Hi1. intros ->. apply Hal. apply list_elem_of_lookup. eauto. }
      exists lh', σ', k. destruct (visit_all _ _ _) as [w' m']. rewrite list_insert_insert_eq in Hr.
      destruct Hr as (E' & Ht' & Hm' & Hd' & Hb' & Hn' & Hi'). split_and!; auto; try congruence; [lia|].
      intros b Hb. apply not_elem_of_cons in Hb as [Hba Hb]. rewrite Hi' by exact Hb. apply Hi1, Hba.
    + cbn [mbind option_bind]. rewrite En. replace (l1 ++ a :: l2) with ((l1 ++ [a]) ++ l2) in Hl by (rewrite <- app_assoc; reflexivity).
      destruct (IH fuel (l1 ++ [a]) lh σ ls m h w1 Ht Hm Hl) as (lh' & σ' & k & Hr); [lia..|]. exists lh', σ', k.
      destruct (visit_all _ _ _) as [w' m']. destruct Hr as (E' & Ht' & Hm' & Hd' & Hb' & Hn' & Hi'). split_and!; auto.
      intros b Hb. apply not_elem_of_cons in Hb as [_ Hb]. apply Hi', Hb.
Qed.

Lemma doall_buckets_spec fuel : forall i lh σ ls m h w,
  table lh σ ls -> stands_for σ m -> 0 < callback_depth lh -> num_items lh < 2 ^ 64 ->
  (i + fuel)%nat = length ls ->
  exists lh' σ', let '(w', m') := visit_all (data_of σ <$> concat (drop i ls)) w m in
    doall_buckets callback fuel i (lh, σ, h, w) = Some (lh', σ', h, w') /\
    is_map lh' σ' m' /\ callback_depth lh' = callback_depth lh.
Proof.
  induction fuel as [|fuel IH]; intros i lh σ ls m h w Ht Hm Hd Hmax Hi;
    pose proof Ht as [[Hc Hn _ Hlen] _ _ _ _ _]; pose proof (Forall2_length _ _ _ Hc) as Hcl; unfold zlen in Hlen.
  - exists lh, σ. rewrite drop_ge by lia. cbn. destruct (Z.ltb_spec (Z.of_nat i) (num_buckets lh)); [lia|].
    unfold is_map. split_and!; eauto.
  - destruct (lookup_lt_is_Some_2 ls i ltac:(lia)) as [l Hl]. destruct (Forall2_lookup_r _ _ _ _ _ Hc Hl) as (p & Hp & Hcp).
    rewrite (drop_S _ _ _ Hl). cbn [concat]. rewrite fmap_app, visit_all_app. cbn [doall_buckets].
    destruct (Z.ltb_spec (Z.of_nat i) (num_buckets lh)); [|lia]. cbn [negb]. rewrite Hp. cbn [mbind option_bind].
    destruct (concat_insert ls i l Hl) as (rest & Er & _). pose proof Hn as Hnl. rewrite Er in Hnl. apply NoDup_app in Hnl as (Hnl & _ & _).
    pose proof (chain_nonzero _ _ _ Hcp) as Hz. rewrite Forall_forall in Hz.
    destruct (doall_chain_spec i l (size σ) [] lh σ ls m h w Ht Hm Hl) as (lh1 & σ1 & k & Hr); auto.
    { apply nodup_size; [exact Hnl|]. intros a Ha. apply Hz, Ha. }
    destruct (visit_all (data_of σ <$> l) w m) as [w1 m1]. destruct Hr as (E1 & Ht1 & Hm1 & Hd1 & Hb1 & Hn1 & Hi1).
    replace (hd 0 l) with p in E1 by (destruct l; cbn [chain hd] in *; tauto). rewrite E1. cbn [mbind option_bind].
    destruct (IH (S i) lh1 σ1 (<[i := k]> ls) m1 h w1 Ht1 Hm1) as (lh' & σ' & Hr); [lia|lia|rewrite length_insert; lia|].
    rewrite drop_insert_lt in Hr by lia. exists lh', σ'.
    replace (data_of σ1 <$> concat (drop (S i) ls)) with (data_of σ <$> concat (drop (S i) ls)) in Hr.
    + destruct (visit_all _ w1 m1) as [w' m']. destruct Hr as (E' & Hm' & Hd'). split_and!; auto. congruence.
    + apply list_fmap_ext. intros j b Hj. symmetry. apply data_of_info, Hi1. intros Hb. apply list_elem_of_lookup_2 in Hj.
      rewrite <- (take_drop_middle _ _ _ Hl), concat_app in Hn. cbn [concat] in Hn. apply NoDup_app in Hn as (_ & _ & Hn).
      apply NoDup_app in Hn as (_ & Hn & _). apply (Hn b Hb Hj).
Qed.

Lemma is_map_depth lh σ m d : is_map lh σ m -> is_map (with_callback_depth d lh) σ m.
Proof. intros [[ls [? ? ? ? ? ?]] Hm]. split; [exists ls; constructor; assumption|exact Hm]. Qed.

Lemma OPENSSL_lh_doall_arg_spec lh σ m h w :
  is_map lh σ m -> 0 <= callback_depth lh < UINT_MAX - 1 -> num_items lh < 2 ^ 64 ->
  exists ds lh' σ' h', Permutation ds (map_to_list m).*2 /\
    let '(w', m') := visit_all ds w m in
    OPENSSL_lh_doall_arg callback (Some lh) σ h w = Some (Some lh', σ', h', w') /\
    is_map lh' σ' m' /\ callback_depth lh' = callback_depth lh.
Proof.
  intros Hmap Hd Hmax. unfold OPENSSL_lh_doall_arg. rewrite (proj2 (Z.ltb_lt _ _)) by (unfold UINT_MAX in *; lia).
  set (lh1 := with_callback_depth (callback_depth lh + 1) lh).
  destruct (is_map_depth lh σ m (callback_depth lh + 1) Hmap) as [[ls Ht] Hm]. fold lh1 in Ht.
  destruct (doall_buckets_spec (length ls) 0 lh1 σ ls m h w Ht Hm) as (lh2 & σ2 & Hr); auto.
  { unfold lh1. cbn. lia. }
  pose proof Ht as [[Hc _ _ Hlen] _ _ _ _ _]. apply Forall2_length in Hc. unfold zlen in Hlen.
  replace (Z.to_nat (num_buckets lh1)) with (length ls) by lia. rewrite drop_0 in Hr.
  pose proof (datas_permutation lh1 σ ls m Ht Hm) as Hp. set (ds := data_of σ <$> concat ls) in *.
  destruct (visit_all ds w m) as [w' m'] eqn:Ev. destruct Hr as (E & Hm2 & Hd2). rewrite E. cbn [mbind option_bind].
  assert (Hd3 : callback_depth lh2 = callback_depth lh + 1) by (rewrite Hd2; reflexivity).
  rewrite (proj2 (Z.ltb_lt _ _)) by (unfold UINT_MAX in *; lia). rewrite Hd3, Z.add_simpl_r.
  destruct (is_map_depth lh2 σ2 m' (callback_depth lh) Hm2) as [[ls2 Ht2] Hm2'].
  destruct (lh_maybe_resize_spec _ σ2 ls2 h Ht2) as (lh3 & σ3 & h3 & ls3 & -> & Ht3 & Hs3 & Hd4). cbn [mbind option_bind].
  exists ds, lh3, σ3, h3. split; [exact Hp|]. rewrite Ev. split_and!; [reflexivity| |exact Hd4].
  split; [eauto|]. apply (same_data_stands σ2); assumption.
Qed.
End Visits.

(** * The number of buckets *)

(** Chains are shorter than three on average, and unless there are only the first
    sixteen buckets there are as many items as buckets. *)
Definition load_ok (lh : lhash_st) : Prop :=
  kMinNumBuckets <= num_buckets lh /\ 0 <= num_items lh < 3 * num_buckets lh /\
  (num_buckets lh = kMinNumBuckets \/ num_buckets lh <= num_items lh).

Section Load.
Context `{Malloc} `{!Addresses} (lim : Z) (Hgrants : grants lim).

Lemma lh_rebucket_size lh σ n h lh' σ' h' :
  0 < n -> 8 * n + 8 <= lim < 2 ^ 64 -> lh_rebucket lh σ n h = Some (lh', σ', h') ->
  num_buckets lh' = n /\ num_items lh' = num_items lh /\ callback_depth lh' = callback_depth lh.
Proof.
  intros Hn Hl. unfold lh_rebucket, sizeof_ptr. rewrite u64_small by lia. rewrite (Z.mul_comm 8 n), Z.div_mul, Z.eqb_refl by lia.
  cbn [negb]. destruct (OPENSSL_malloc_grants lim h (n * 8) Hgrants) as (q & h1 & -> & _); [lia..|].
  destruct (move_chains _ _ _ _) as [[σ1 nb]|]; [|discriminate]. cbn [mbind option_bind]. intros E.
  apply (inj Some) in E. apply (f_equal (fun x => fst (fst x))) in E. cbn [fst] in E. subst lh'. auto.
Qed.

(** After one insertion or deletion, resizing puts the load back in its bounds. *)
Lemma lh_maybe_resize_load lh σ h lh' σ' h' :
  kMinNumBuckets <= num_buckets lh -> 0 <= num_items lh <= 3 * num_buckets lh ->
  num_buckets lh = kMinNumBuckets \/ num_buckets lh <= num_items lh + 1 -> callback_depth lh = 0 ->
  16 * num_buckets lh + 8 <= lim < 2 ^ 64 -> lh_maybe_resize lh σ h = Some (lh', σ', h') ->
  load_ok lh' /\ num_items lh' = num_items lh /\ callback_depth lh' = 0.
Proof.
  unfold load_ok, kMinNumBuckets. intros Hb Hi Hlow Hd Hl. unfold lh_maybe_resize, kMaxAverageChainLength, kMinAverageChainLength, kMinNumBuckets.
  rewrite Hd. change (0 <? 0) with false. cbn iota. rewrite (proj2 (Z.ltb_ge _ _) Hb). set (nb := num_buckets lh) in *. set (ni := num_items lh) in *.
  pose proof (Z.div_mod ni nb ltac:(lia)) as Hq. pose proof (Z.mod_pos_bound ni nb ltac:(lia)) as Hr.
  destruct (Z.ltb_spec 2 (ni / nb)).
  - rewrite u64_small by lia. destruct (Z.ltb_spec nb (nb * 2)); [|lia]. intros E.
    apply lh_rebucket_size in E as (-> & -> & ->); [|lia..]. fold ni. nia.
  - destruct (Z.ltb_spec (ni / nb) 1), (Z.ltb_spec 16 nb); cbn [andb]; intros E.
    + apply lh_rebucket_size in E as (-> & -> & ->); fold ni; destruct (Z.ltb_spec (nb / 2) 16); try (Z.div_mod_to_equations; nia).
    + apply (inj Some) in E. injection E as <- <- <-. fold nb ni. nia.
    + apply (inj Some) in E. injection E as <- <- <-. fold nb ni. nia.
    + apply (inj Some) in E. injection E as <- <- <-. fold nb ni. nia.
Qed.

Lemma save_fields lh σ r v lh' σ' :
  save lh σ r v = Some (lh', σ') ->
  num_items lh' = num_items lh /\ num_buckets lh' = num_buckets lh /\ callback_depth lh' = callback_depth lh.
Proof.
  destruct r as [i|a]; cbn [save]; [destruct (buckets lh !! i)|destruct (σ !! a)]; cbn [mbind option_bind]; intros E;
    try discriminate; apply (inj Some) in E; injection E as <- _; auto.
Qed.

Lemma run_load o lh σ m h r old lh' σ' h' :
  is_map lh σ m -> load_ok lh -> callback_depth lh = 0 -> num_items lh + 1 < 2 ^ 64 -> 16 * num_buckets lh + 8 <= lim < 2 ^ 64 ->
  lh_run o lh σ h = Some (r, old, lh', σ', h') -> load_ok lh' /\ callback_depth lh' = 0.
Proof.
  intros [[ls Ht] Hm] (Hb & Hi & Hlow) Hd Hmax Hl. assert (Hself : load_ok lh) by (unfold load_ok; auto).
  destruct o as [d|d|d|]; cbn [lh_run].
  - destruct (get_next_ptr_spec lh σ ls m d Ht Hm) as (p & l1 & l2 & _ & _ & _ & _ & Eg & El & Hl2).
    unfold OPENSSL_lh_insert. rewrite Eg. cbn [mbind option_bind]. rewrite El. cbn [mbind option_bind].
    destruct (negb _).
    + destruct (σ !! hd 0 l2); cbn [mbind option_bind]; intros E; [|discriminate]. apply (inj Some) in E. injection E as <- <- <- <- <-. auto.
    + destruct (OPENSSL_malloc h _) as [[q|] h1]; intros E; [|apply (inj Some) in E; injection E as <- <- <- <- <-; auto].
      destruct (save _ _ _ _) as [[lh1 σ1]|] eqn:Es; [|discriminate]. apply save_fields in Es as (Ei & Eb & Ed). cbn [mbind option_bind] in E.
      destruct (lh_maybe_resize _ _ _) as [[[lh2 σ2] h2]|] eqn:Er; [|discriminate]. apply (inj Some) in E. injection E as _ _ <- _ _.
      rewrite Ei, u64_small in Er by lia. apply lh_maybe_resize_load in Er as (Hok & _ & Hd'); cbn [with_num_items num_items num_buckets callback_depth] in *; try lia. auto.
  - destruct (get_next_ptr_spec lh σ ls m d Ht Hm) as (p & l1 & l2 & _ & _ & _ & _ & Eg & El & Hl2).
    unfold OPENSSL_lh_delete. rewrite Eg. cbn [mbind option_bind]. rewrite El. cbn [mbind option_bind].
    destruct (Z.eqb_spec (hd 0 l2) 0) as [E0|E0]; [intros E; apply (inj Some) in E; injection E as <- <- <- <- <-; auto|].
    destruct (σ !! hd 0 l2) as [it|] eqn:Ei; [|discriminate]. cbn [mbind option_bind].
    assert (Hpos : 0 < num_items lh).
    { rewrite (tb_count _ _ _ Ht). assert (size σ <> 0%nat) by (apply map_size_non_empty_iff; intros ->; discriminate). lia. }
    destruct (save _ _ _ _) as [[lh1 σ1]|] eqn:Es; [|discriminate]. apply save_fields in Es as (Ei' & Eb & Ed). cbn [mbind option_bind].
    destruct (lh_maybe_resize _ _ _) as [[[lh2 σ2] h2]|] eqn:Er; [|discriminate]. cbn [mbind option_bind]. intros E.
    apply (inj Some) in E. injection E as _ _ <- _ _.
    rewrite Ei', u64_small in Er by lia. apply lh_maybe_resize_load in Er as (Hok & _ & Hd'); cbn [with_num_items num_items num_buckets callback_depth] in *; try lia. auto.
  - destruct (OPENSSL_lh_retrieve lh σ d); [|discriminate]. cbn [mbind option_bind]. intros E. apply (inj Some) in E. injection E as <- <- <- <- <-. auto.
  - intros E. apply (inj Some) in E. injection E as <- <- <- <- <-. auto.
Qed.

Lemma run_all_load ops : forall lh σ m h,
  is_map lh σ m -> load_ok lh -> callback_depth lh = 0 ->
  16 * (num_items lh + zlen ops + kMinNumBuckets) + 8 <= lim < 2 ^ 64 ->
  exists rs lh' σ' h', lh_run_all ops lh σ h = Some (rs, lh', σ', h') /\ load_ok lh'.
Proof.
  induction ops as [|o ops IH]; intros lh σ m h Hm Hok Hd Hl; [exists [], lh, σ, h; split; [reflexivity|exact Hok]|].
  autorewrite with zlen in Hl. pose proof (zlen_nonneg ops). unfold kMinNumBuckets in *.
  assert (Hnb : num_buckets lh <= num_items lh + 16 /\ 0 <= num_items lh) by (unfold load_ok, kMinNumBuckets in Hok; lia).
  destruct (lh_run_spec o lh σ m h Hm) as (r & old & lh1 & σ1 & h1 & E & _ & Hr); [lia|].
  destruct (run_load o lh σ m h r old lh1 σ1 h1 Hm Hok Hd ltac:(lia) ltac:(lia) E) as [Hok1 Hd1].
  assert (Hm1 : exists m1, is_map lh1 σ1 m1 /\ num_items lh1 <= num_items lh + 1).
  { destruct Hr as [(m1 & Es & Hm1)|(_ & _ & -> & -> & _)]; [|exists m; split; [exact Hm|lia]].
    exists m1. split; [exact Hm1|]. rewrite (is_map_size _ _ _ Hm), (is_map_size _ _ _ Hm1). pose proof (lh_spec_size o m _ _ _ Es). lia. }
  destruct Hm1 as (m1 & Hm1 & Hc). destruct (IH lh1 σ1 m1 h1 Hm1 Hok1 Hd1) as (rs & lh' & σ' & h' & E' & Hok'); [lia|].
  cbn [lh_run_all]. rewrite E. cbn [mbind option_bind]. rewrite E'. cbn [mbind option_bind].
  eexists _, lh', σ', h'. split; [reflexivity|exact Hok'].
Qed.

Lemma new_load h h' lh : OPENSSL_lh_new hf cf h = (Some lh, h') -> load_ok lh.
Proof.
  unfold OPENSSL_lh_new. destruct (OPENSSL_malloc h _) as [[p|] h1]; [|discriminate].
  destruct (OPENSSL_malloc h1 _) as [[q|] h2]; [|discriminate]. intros E. apply (f_equal fst) in E. cbn [fst] in E.
  apply (inj Some) in E as <-. unfold load_ok, kMinNumBuckets. cbn. lia.
Qed.
End Load.
End Keys.

(** Functions and addresses to lh_run the definitions with: the key is the last two
    digits, the hash the tens. *)
#[export] Instance digits : HashFuncs :=
  {| call_hash_func := fun _ a => a mod 100 / 10; call_cmp_func := fun _ a b => a mod 100 - b mod 100 |}.

#[export, refine] Instance digits_keyed : Keyed Z 1 2 :=
  {| key := fun d => d mod 100; key_hash := fun k => k / 10 |}.
Proof.
  - intros a b. cbn. lia.
  - reflexivity.
Defined.

Definition above (σ : store) : Z := map_fold (fun a _ m => Z.max (a + 1) m) 1 σ.

Lemma above_all σ : 0 < above σ /\ forall a, is_Some (σ !! a) -> a < above σ.
Proof.
  unfold above. apply (map_fold_weak_ind (fun r (σ : store) => 0 < r /\ forall a, is_Some (σ !! a) -> a < r)).
  - split; [lia|]. intros a [x E]. discriminate.
  - intros i x m r _ [Hr Ha]. split; [lia|]. intros a [y E]. destruct (decide (i = a)) as [<-|Hne]; [lia|].
    rewrite lookup_insert_ne in E by exact Hne. specialize (Ha a). rewrite E in Ha. specialize (Ha ltac:(eauto)). lia.
Qed.

#[export, refine] Instance next_address : Addresses := {| pick := above |}.
Proof.
  intros σ. destruct (above_all σ) as [Hp Ha]. split; [lia|]. destruct (σ !! above σ) eqn:E; [|reflexivity].
  specialize (Ha (above σ)). rewrite E in Ha. specialize (Ha ltac:(eauto)). lia.
Defined.

(** * Properties *)

(** C18: Whatever sequence of insertions, deletions and look-ups runs on a new table,
    it touches no freed or unknown memory, and the results are those of a finite
    map from keys, through collisions and changes of the number of buckets; only an
    insertion of a new key may be lh_refused, which changes nothing, and with memory
    none is.  Freeing the table frees every item exactly once. *)
Theorem lh_operations_refine_map {K : Type} `{Countable K} `{HashFuncs} {hf cf : Z} `{!Keyed K hf cf}
    `{Malloc} `{!Addresses} (ops : list lh_op) (h h' : heap) (lh : lhash_st) :
  OPENSSL_lh_new hf cf h = (Some lh, h') -> zlen ops < 2 ^ 64 ->
  exists rs lh' σ' h'' m, lh_run_all ops lh ∅ h' = Some (rs, lh', σ', h'') /\
    lh_behaves (K := K) ∅ ops rs m /\
    (forall data, OPENSSL_lh_retrieve lh' σ' data = Some (default 0 (m !! key data))) /\
    (forall kp k cmp_key, (forall d, cmp_key kp d = 0 <-> key d = k) ->
       OPENSSL_lh_retrieve_key lh' σ' kp (key_hash k) cmp_key = Some (default 0 (m !! k))) /\
    OPENSSL_lh_num_items lh' = Z.of_nat (size m) /\
    OPENSSL_lh_free (Some lh') σ' = Some ∅ /\
    (forall lim, grants lim -> sizeof_LHASH_ITEM + 8 <= lim < 2 ^ 64 -> lh_spec_all ops ∅ = (rs, m)).
Proof.
  intros E Hl. apply OPENSSL_lh_new_spec in E as (Hm & Hn & _).
  destruct (lh_run_all_spec ops lh ∅ ∅ h' Hm) as (rs & lh' & σ' & h'' & m & Er & Hm' & Hb & Hall); [lia|].
  exists rs, lh', σ', h'', m. pose proof Hm' as [[ls Ht] Hst]. split_and!; auto.
  - intros data. apply (OPENSSL_lh_retrieve_spec lh' σ' ls m data Ht Hst).
  - intros kp k cmp_key. apply (OPENSSL_lh_retrieve_key_spec lh' σ' ls m kp k cmp_key Ht Hst).
  - apply (is_map_size lh' σ' m Hm').
  - apply (OPENSSL_lh_free_spec lh' σ' ls Ht).
Qed.

Definition lh_sample : list lh_op := [Insert 107; Insert 208; Insert 307; Delete 408; Retrieve 507; Insert 115; NumItems].

Lemma lh_operations_refine_map_witness :
  exists lh, @OPENSSL_lh_new unlimited 1 2 tt = (Some lh, tt) /\
    exists lh' σ' h, @lh_run_all digits unlimited next_address lh_sample lh ∅ tt =
      Some ([(1, 0); (1, 0); (1, 107); (208, 0); (307, 0); (1, 0); (2, 0)], lh', σ', h).
Proof.
  destruct (@OPENSSL_lh_new unlimited 1 2 tt) as [[lh|] []] eqn:E; [|discriminate]. exists lh. split; [reflexivity|].
  destruct (@lh_operations_refine_map Z _ _ digits 1 2 digits_keyed unlimited next_address lh_sample tt tt lh E ltac:(vm_compute; reflexivity))
    as (rs & lh' & σ' & h & m & Er & _ & _ & _ & _ & _ & Hall).
  exists lh', σ', h. specialize (Hall 1000 (unlimited_grants _) ltac:(vm_compute; split; [discriminate|reflexivity])).
  rewrite Er. apply (f_equal fst) in Hall. cbn [fst] in Hall. rewrite <- Hall. vm_compute. reflexivity.
Defined.

(** C31: An iteration calls the function once for each element the table had, in some
    order, whether or not the function deletes the elements it is called for; what
    is left is the table without the deleted ones, and the chains that the loop
    still has to visit are never cut or moved under it. *)
Theorem lh_doall_visits_each_once {K : Type} `{Countable K} `{HashFuncs} {hf cf : Z} `{!Keyed K hf cf}
    `{Malloc} `{!Addresses} {world : Type} (visit : Z -> world -> bool * world)
    (lh : lhash_st) (σ : store) (m : gmap K Z) (h : heap) (w : world) :
  is_map lh σ m -> 0 <= callback_depth lh < UINT_MAX - 1 -> num_items lh < 2 ^ 64 ->
  exists ds lh' σ' h', Permutation ds (map_to_list m).*2 /\
    let '(w', m') := visit_all visit ds w m in
    OPENSSL_lh_doall_arg (callback visit) (Some lh) σ h w = Some (Some lh', σ', h', w') /\
    is_map lh' σ' m' /\ callback_depth lh' = callback_depth lh.
Proof. apply OPENSSL_lh_doall_arg_spec. Qed.

(** Deletes the odd ones and adds up what it sees. *)
Definition drop_odd (d w : Z) : bool * Z := (Z.odd d, w + d).

Lemma lh_doall_visits_each_once_witness :
  exists lh σ h, @lh_run_all digits unlimited next_address [Insert 107; Insert 208; Insert 115]
      {| num_items := 0; buckets := zrep 16 0; num_buckets := 16; callback_depth := 0; comp := 2; hash := 1 |} ∅ tt =
      Some ([(1, 0); (1, 0); (1, 0)], lh, σ, h) /\
    exists ds lh' σ' h', Permutation ds [107; 208; 115] /\
      @OPENSSL_lh_doall_arg unlimited Z (@callback digits unlimited Z drop_odd) (Some lh) σ h 0 = Some (Some lh', σ', h', 430).
Proof.
  destruct (@OPENSSL_lh_new unlimited 1 2 tt) as [[lh0|] []] eqn:E; [|discriminate].
  pose proof E as E'. apply (@OPENSSL_lh_new_spec Z _ _ digits 1 2 digits_keyed unlimited) in E' as (Hm & Hn & Hd).
  apply (f_equal fst), (inj Some) in E. cbn [fst] in E. subst lh0.
  destruct (@lh_run_all_spec Z _ _ digits 1 2 digits_keyed unlimited next_address [Insert 107; Insert 208; Insert 115] _ ∅ ∅ tt Hm
    ltac:(vm_compute; reflexivity)) as (rs & lh & σ & h & m & Er & Hm' & _ & Hall).
  specialize (Hall 1000 (unlimited_grants _) ltac:(vm_compute; split; [discriminate|reflexivity])).
  assert (Hd' : 0 <= callback_depth lh < UINT_MAX - 1 /\ num_items lh < 2 ^ 64).
  { vm_compute in Er. injection Er as _ <- _ _. vm_compute. repeat split; discriminate. }
  exists lh, σ, h. split; [etransitivity; [exact Er|]; apply (f_equal fst) in Hall; cbn [fst] in Hall; rewrite <- Hall; vm_compute; reflexivity|].
  destruct (@lh_doall_visits_each_once Z _ _ digits 1 2 digits_keyed unlimited next_address Z drop_odd lh σ m h 0 Hm' (proj1 Hd') (proj2 Hd'))
    as (ds & lh' & σ' & h' & Hp & Hv).
  apply (f_equal snd) in Hall. cbn [snd] in Hall. exists ds, lh', σ', h'.
  assert (Hp' : Permutation ds [107; 208; 115]).
  { rewrite Hp, <- Hall. vm_compute. solve_Permutation. }
  split; [exact Hp'|].
  assert (Hw : forall l w (q : gmap Z Z), fst (visit_all drop_odd l w q) = w + foldr Z.add 0 l).
  { induction l as [|d l IH]; intros w q; cbn [visit_all drop_odd foldr fst]; [lia|]. rewrite IH. lia. }
  specialize (Hw ds 0 m). destruct (visit_all drop_odd ds 0 m) as [w' m']. cbn [fst] in Hw. destruct Hv as [-> _].
  repeat f_equal. rewrite Hw, (foldr_permutation_proper' eq Z.add 0 ds [107; 208; 115] Hp'). reflexivity.
Defined.

(** The number of buckets follows the number of items: while memory lasts, after any
    operations on a new table there are fewer than three items per bucket, and
    either the first 16 buckets or at least one item per bucket. *)
Theorem lh_load_stays_bounded {K : Type} `{Countable K} `{HashFuncs} {hf cf : Z} `{!Keyed K hf cf}
    `{Malloc} `{!Addresses} (lim : Z) (ops : list lh_op) (h h' : heap) (lh : lhash_st) :
  OPENSSL_lh_new hf cf h = (Some lh, h') -> grants lim -> 16 * (zlen ops + kMinNumBuckets) + 8 <= lim < 2 ^ 64 ->
  exists rs lh' σ' h'', lh_run_all ops lh ∅ h' = Some (rs, lh', σ', h'') /\ load_ok lh'.
Proof.
  intros E Hg Hl. pose proof (OPENSSL_lh_new_spec (K := K) _ _ _ E) as (Hm & Hn & Hd).
  destruct (run_all_load lim Hg ops lh ∅ ∅ h' Hm) as (rs & lh' & σ' & h'' & Er & Hok); [|exact Hd|lia|].
  - apply new_load in E. exact E.
  - exists rs, lh', σ', h''. split; [exact Er|exact Hok].
Qed.

Lemma lh_load_stays_bounded_witness :
  exists lh, @OPENSSL_lh_new unlimited 1 2 tt = (Some lh, tt) /\
    exists rs lh' σ' h', @lh_run_all digits unlimited next_address lh_sample lh ∅ tt = Some (rs, lh', σ', h') /\ load_ok lh'.
Proof.
  destruct (@OPENSSL_lh_new unlimited 1 2 tt) as [[lh|] []] eqn:E; [|discriminate]. exists lh. split; [reflexivity|].
  apply (@lh_load_stays_bounded Z _ _ digits 1 2 digits_keyed unlimited next_address 1000 lh_sample tt tt lh E (unlimited_grants _)).
  vm_compute. split; [discriminate|reflexivity].
Defined.
