(* ===== verification/Buf.v ===== *)
(** crypto/buf/buf.c: growable buffers ([BUF_MEM]).

    A [char *] into a buffer is the block it points into and the offset; the block
    of a buffer that grows is its own, and [data] points to its start.  What the
    code does with another pointer, or past the end of a block, has no meaning in C:
    the result is [None] then. *)
From Stdlib Require Import ZArith Lia.
From stdpp Require Import base list numbers.
From S2P Require Import Prelude.
From S2P Require Import Mem.

Open Scope Z_scope.

(** * The code *)

(** A pointer that is not NULL. *)
Record place := { block : list Z; at_ : Z }.

Record BUF_MEM := { length_ : Z; data : option place; max : Z }.

Definition sizeof_BUF_MEM : Z := 24.

(** [n] bytes from offset [i] of what [p] points to, where they are in the block. *)
Definition load (p : option place) (i n : Z) : option (list Z) :=
  if n =? 0 then Some []
  else p ← p;
       if (0 <=? at_ p + i) && (at_ p + i + n <=? zlen (block p)) then Some (zsub (at_ p + i) n (block p))
       else None.

(** Bytes stored at offset [i]. *)
Definition store (p : option place) (i : Z) (bs : list Z) : option (option place) :=
  if zlen bs =? 0 then Some p
  else p ← p;
       if (0 <=? at_ p + i) && (at_ p + i + zlen bs <=? zlen (block p)) then
         Some (Some {| block := zsplice (at_ p + i) bs (block p); at_ := at_ p |})
       else None.

Section Code.
Context `{Malloc}.

Definition BUF_MEM_new (h : heap) : option BUF_MEM * heap :=
  match OPENSSL_malloc h sizeof_BUF_MEM with
  | (None, h) => (None, h)
  | (Some _, h) => (Some {| length_ := 0; data := None; max := 0 |}, h)
  end.

(** [OPENSSL_realloc] wants the start of a block. *)
Definition realloc_place (h : heap) (p : option place) (n : Z) : option (option place * heap) :=
  match p with
  | None => let '(r, h) := OPENSSL_realloc h None n in Some ((fun b => {| block := b; at_ := 0 |}) <$> r, h)
  | Some p =>
    if at_ p =? 0 then
      let '(r, h) := OPENSSL_realloc h (Some (block p)) n in Some ((fun b => {| block := b; at_ := 0 |}) <$> r, h)
    else None
  end.

Definition BUF_MEM_reserve (buf : BUF_MEM) (cap : Z) (h : heap) : option (Z * BUF_MEM * heap) :=
  if cap <=? max buf then Some (1, buf, h)
  else
    let n := u64 (cap + 3) in
    if n <? cap then Some (0, buf, h)
    else
      let n := n / 3 in
      let alloc_size := u64 (n * 4) in
      if negb (alloc_size / 4 =? n) then Some (0, buf, h)
      else
        '(new_buf, h) ← realloc_place h (data buf) alloc_size;
        match new_buf with
        | None => Some (0, buf, h)
        | Some p => Some (1, {| length_ := length_ buf; data := Some p; max := alloc_size |}, h)
        end.

Definition BUF_MEM_grow (buf : BUF_MEM) (len : Z) (h : heap) : option (Z * BUF_MEM * heap) :=
  '(ok, buf, h) ← BUF_MEM_reserve buf len h;
  if ok =? 0 then Some (0, buf, h)
  else
    d ← (if length_ buf <? len then store (data buf) (length_ buf) (zrep (len - length_ buf) 0) else Some (data buf));
    Some (len, {| length_ := len; data := d; max := max buf |}, h).

Definition BUF_MEM_grow_clean (buf : BUF_MEM) (len : Z) (h : heap) : option (Z * BUF_MEM * heap) :=
  BUF_MEM_grow buf len h.

Definition BUF_MEM_append (buf : BUF_MEM) (bs : list Z) (h : heap) : option (Z * BUF_MEM * heap) :=
  let len := zlen bs in
  if len =? 0 then Some (1, buf, h)
  else
    let new_len := u64 (length_ buf + len) in
    if new_len <? len then Some (0, buf, h)
    else
      '(ok, buf, h) ← BUF_MEM_reserve buf new_len h;
      if ok =? 0 then Some (0, buf, h)
      else
        d ← store (data buf) (length_ buf) bs;
        Some (1, {| length_ := new_len; data := d; max := max buf |}, h).

Definition BUF_strdup (h : heap) (str : list Z) : option (list Z) * heap := OPENSSL_strdup h str.
Definition BUF_strndup (h : heap) (str : list Z) (size : Z) : option (list Z) * heap := OPENSSL_strndup h str size.
Definition BUF_memdup (h : heap) (d : list Z) : option (list Z) * heap := OPENSSL_memdup h d.
End Code.

Definition BUF_strnlen (str : list Z) (max_len : Z) : Z := OPENSSL_strnlen str max_len.
Definition BUF_strlcpy (dst src : list Z) (dst_size : Z) : Z * list Z := OPENSSL_strlcpy dst src dst_size.
Definition BUF_strlcat (dst src : list Z) (dst_size : Z) : Z * list Z := OPENSSL_strlcat dst src dst_size.

(** * What a buffer holds *)

(** The block is the buffer's own and [max] bytes long; the first [length_] of them
    are [l]. *)
Definition holds (b : BUF_MEM) (l : list Z) : Prop :=
  length_ b = zlen l /\ zlen l <= max b < 2 ^ 64 /\
  match data b with
  | None => max b = 0
  | Some p => at_ p = 0 /\ zlen (block p) = max b /\ ztake (zlen l) (block p) = l
  end.

Lemma holds_empty : holds {| length_ := 0; data := None; max := 0 |} [].
Proof. unfold holds. cbn. change (zlen (@nil Z)) with 0. split_and!; lia. Qed.

Lemma holds_load b l n i : holds b l -> 0 <= i -> 0 <= n -> i + n <= zlen l -> load (data b) i n = Some (zsub i n l).
Proof.
  intros (Hl & Hm & Hd) Hi Hn Hle. unfold load. destruct (Z.eqb_spec n 0) as [->|].
  - unfold zsub, ztake. rewrite take_0. reflexivity.
  - destruct (data b) as [p|]; [|lia]. destruct Hd as (Ha & Hz & Ht). cbn [mbind option_bind]. rewrite Ha, Z.add_0_l.
    destruct (Z.leb_spec 0 i); [|lia]. destruct (Z.leb_spec (i + n) (zlen (block p))); [|lia]. cbn [andb]. f_equal.
    rewrite <- Ht. rewrite <- (ztake_zdrop (zlen l) (block p)) at 1. rewrite Ht. unfold zsub.
    unfold zdrop. rewrite drop_app_le by (unfold zlen in *; lia). apply ztake_app_le.
    unfold zlen in *. rewrite length_drop. lia.
Qed.

Lemma store_own b l i bs :
  holds b l -> 0 <= i <= zlen l -> i + zlen bs <= max b ->
  exists d, store (data b) i bs = Some d /\
    match d with
    | None => max b = 0
    | Some p => at_ p = 0 /\ zlen (block p) = max b /\ ztake (i + zlen bs) (block p) = ztake i l ++ bs
    end.
Proof.
  intros (Hl & Hm & Hd) Hi Hle. unfold store. pose proof (zlen_nonneg bs). destruct (Z.eqb_spec (zlen bs) 0) as [E|].
  - exists (data b). split; [reflexivity|]. apply zlen_0 in E as ->. rewrite app_nil_r. change (zlen (@nil Z)) with 0.
    rewrite Z.add_0_r. destruct (data b) as [p|]; [|exact Hd]. destruct Hd as (Ha & Hz & Ht). split_and!; auto.
    rewrite <- Ht. rewrite ztake_ztake by lia. reflexivity.
  - destruct (data b) as [p|]; [|lia]. destruct Hd as (Ha & Hz & Ht). cbn [mbind option_bind]. rewrite Ha, Z.add_0_l.
    destruct (Z.leb_spec 0 i); [|lia]. destruct (Z.leb_spec (i + zlen bs) (zlen (block p))); [|lia]. cbn [andb].
    eexists. split; [reflexivity|]. cbn [at_ block]. rewrite zlen_zsplice by lia. split_and!; auto.
    rewrite ztake_zsplice_end by lia. rewrite <- Ht at 1. rewrite ztake_ztake by lia. reflexivity.
Qed.

Section Facts.
Context `{Malloc}.

(** Room for the next [cap] bytes, or the buffer as it was. *)
Lemma BUF_MEM_reserve_spec b l cap h :
  holds b l -> 0 <= cap < 2 ^ 64 ->
  exists ok b' h', BUF_MEM_reserve b cap h = Some (ok, b', h') /\ holds b' l /\
    (ok = 0 /\ b' = b /\ max b < cap \/ ok = 1 /\ cap <= max b') /\
    (forall lim, grants lim -> cap <= max b \/ (cap + 3) / 3 * 4 + 8 <= lim < 2 ^ 64 -> ok = 1).
Proof.
  intros Hb Hc. pose proof Hb as (Hl & Hm & Hd). unfold BUF_MEM_reserve. pose proof (zlen_nonneg l).
  destruct (Z.leb_spec cap (max b)); [exists 1, b, h; split_and!; auto|].
  pose proof (u64_range (cap + 3)). destruct (Z.ltb_spec (u64 (cap + 3)) cap) as [|Hn].
  { exists 0, b, h. split_and!; auto. intros lim _ Hlim. exfalso. rewrite u64_small in * by dlia. lia. }
  assert (E3 : u64 (cap + 3) = cap + 3).
  { unfold u64 in *. destruct (Z.lt_ge_cases (cap + 3) (2 ^ 64)); [apply Z.mod_small; lia|]. exfalso. dlia. }
  rewrite E3. set (n := (cap + 3) / 3). assert (Hn3 : cap < n * 4 /\ 0 <= n) by (unfold n; dlia).
  destruct (Z.eqb_spec (u64 (n * 4) / 4) n) as [E4|E4]; cbn [negb].
  2:{ exists 0, b, h. split_and!; auto. intros lim _ Hlim. exfalso. apply E4. fold n in Hlim.
      rewrite u64_small by lia. apply Z.div_mul. lia. }
  assert (Ea : u64 (n * 4) = n * 4) by (pose proof (u64_range (n * 4)); unfold u64 in *; dlia).
  rewrite Ea. assert (Hn4 : n * 4 < 2 ^ 64) by (pose proof (u64_range (n * 4)); lia).
  unfold realloc_place. destruct (data b) as [p|] eqn:Ed.
  - destruct Hd as (Ha & Hz & Ht). rewrite Ha. cbn [Z.eqb mbind option_bind].
    destruct (OPENSSL_realloc h (Some (block p)) (n * 4)) as [[r|] h'] eqn:Er; cbn [fmap option_fmap option_map].
    + apply OPENSSL_realloc_Some in Er as [Hr Hp]; [|lia..].
      eexists 1, _, h'. split_and!; [reflexivity| |right; cbn [max]; lia|auto].
      unfold holds. cbn [length_ data max at_ block]. split_and!; auto; try lia.
      rewrite <- Ht at 2. rewrite <- Hp. rewrite ztake_ztake by lia. reflexivity.
    + exists 0, b, h'. split_and!; auto. intros lim G Hlim. exfalso.
      destruct (OPENSSL_realloc_grants lim h (block p) (n * 4)) as (? & ? & Eg & _); auto; try (fold n in Hlim; lia). congruence.
  - cbn [mbind option_bind OPENSSL_realloc]. destruct (OPENSSL_malloc h (n * 4)) as [[r|] h'] eqn:Er; cbn [fmap option_fmap option_map].
    + apply OPENSSL_malloc_Some in Er as [Hr _]; [|lia].
      assert (l = []) as -> by (apply zlen_0; lia).
      eexists 1, _, h'. split_and!; [reflexivity| |right; cbn [max]; lia|auto].
      unfold holds. cbn [length_ data max at_ block]. change (zlen (@nil Z)) with 0 in *. split_and!; auto; lia.
    + exists 0, b, h'. split_and!; auto. intros lim G Hlim. exfalso.
      destruct (OPENSSL_malloc_grants lim h (n * 4)) as (? & ? & Eg & _); auto; try (fold n in Hlim; lia). congruence.
Qed.

(** The contents cut to [n] bytes, or zeros after them. *)
Definition resized (n : Z) (l : list Z) : list Z := ztake n (l ++ zrep (n - zlen l) 0).

Lemma BUF_MEM_grow_spec b l n h :
  holds b l -> 0 <= n < 2 ^ 64 ->
  exists r b' h', BUF_MEM_grow b n h = Some (r, b', h') /\
    (r = 0 /\ holds b' l /\ max b < n \/ r = n /\ holds b' (resized n l)) /\
    (forall lim, grants lim -> n <= max b \/ (n + 3) / 3 * 4 + 8 <= lim < 2 ^ 64 -> r = n).
Proof.
  intros Hb Hn. destruct (BUF_MEM_reserve_spec b l n h Hb Hn) as (ok & b1 & h1 & Er & Hb1 & Hok & Hg).
  unfold BUF_MEM_grow. rewrite Er. cbn [mbind option_bind]. destruct Hok as [(-> & -> & Hlt)|(-> & Hcap)].
  - cbn [Z.eqb]. exists 0, b, h1. split_and!; auto. intros lim G Hlim. specialize (Hg lim G Hlim). discriminate.
  - cbn [Z.eqb]. pose proof Hb1 as (Hl & Hm & Hd). pose proof (zlen_nonneg l). unfold resized. rewrite Hl.
    destruct (Z.ltb_spec (zlen l) n).
    + destruct (store_own b1 l (zlen l) (zrep (n - zlen l) 0) Hb1) as (d & Es & Hd'); [lia|rewrite zlen_zrep; lia|].
      rewrite Es. cbn [mbind option_bind]. eexists n, _, h1. split_and!; [reflexivity| |auto]. right. split; [reflexivity|].
      rewrite zlen_zrep in Hd' by lia. replace (zlen l + (n - zlen l)) with n in Hd' by lia. rewrite ztake_all in Hd'.
      assert (En : zlen (l ++ zrep (n - zlen l) 0) = n) by (rewrite zlen_app, zlen_zrep; lia).
      assert (Et : ztake n (l ++ zrep (n - zlen l) 0) = l ++ zrep (n - zlen l) 0) by (rewrite <- En at 1; apply ztake_all).
      rewrite Et. unfold holds. cbn [length_ data max]. rewrite En. split_and!; auto; lia.
    + cbn [mbind option_bind]. eexists n, _, h1. split_and!; [reflexivity| |auto]. right. split; [reflexivity|].
      rewrite ztake_app_le by lia. unfold holds. cbn [length_ data max]. rewrite zlen_ztake by lia. split_and!; try lia.
      destruct (data b1) as [p|]; [|lia]. destruct Hd as (Ha & Hz & Ht). split_and!; auto.
      rewrite <- Ht. rewrite ztake_ztake by lia. reflexivity.
Qed.

Lemma BUF_MEM_append_spec b l bs h :
  holds b l -> zlen bs < 2 ^ 64 ->
  exists ok b' h', BUF_MEM_append b bs h = Some (ok, b', h') /\
    (ok = 0 /\ holds b' l /\ max b < zlen l + zlen bs \/ ok = 1 /\ holds b' (l ++ bs)) /\
    (forall lim, grants lim -> zlen l + zlen bs < 2 ^ 64 ->
       zlen l + zlen bs <= max b \/ (zlen l + zlen bs + 3) / 3 * 4 + 8 <= lim < 2 ^ 64 -> ok = 1).
Proof.
  intros Hb Hbs. pose proof Hb as (Hl & Hm & Hd). pose proof (zlen_nonneg l). pose proof (zlen_nonneg bs).
  unfold BUF_MEM_append. destruct (Z.eqb_spec (zlen bs) 0) as [E|].
  - apply zlen_0 in E as ->. exists 1, b, h. rewrite app_nil_r. auto.
  - rewrite Hl. pose proof (u64_overflow (zlen l) (zlen bs)) as Ho.
    destruct (Z.ltb_spec (u64 (zlen l + zlen bs)) (zlen bs)) as [Hlt|Hge].
    { exists 0, b, h. split_and!; auto.
      - left. split_and!; auto. destruct (Z.lt_ge_cases (zlen l + zlen bs) (2 ^ 64)); [rewrite u64_small in Hlt by lia; lia|lia].
      - intros lim _ Hs. rewrite u64_small in Hlt by lia. lia. }
    assert (Es : u64 (zlen l + zlen bs) = zlen l + zlen bs) by (unfold u64 in *; dlia).
    rewrite Es. assert (zlen l + zlen bs < 2 ^ 64) by (pose proof (u64_range (zlen l + zlen bs)); lia).
    destruct (BUF_MEM_reserve_spec b l (zlen l + zlen bs) h Hb) as (ok & b1 & h1 & Er & Hb1 & Hok & Hg); [lia|].
    rewrite Er. cbn [mbind option_bind]. destruct Hok as [(-> & -> & Hlt)|(-> & Hcap)]; cbn [Z.eqb].
    + exists 0, b, h1. split_and!; auto. intros lim G _ Hlim. specialize (Hg lim G Hlim). discriminate.
    + pose proof Hb1 as (Hl1 & Hm1 & Hd1). rewrite Hl1.
      destruct (store_own b1 l (zlen l) bs Hb1) as (d & Est & Hd'); [lia..|]. rewrite Est. cbn [mbind option_bind].
      eexists 1, _, h1. split_and!; [reflexivity| |auto]. right. split; [reflexivity|]. rewrite ztake_all in Hd'.
      unfold holds. cbn [length_ data max]. rewrite zlen_app. split_and!; auto; lia.
Qed.
End Facts.
