(* ===== verification/Bio.v ===== *)
(** crypto/bio: byte streams.  The generic interface (bio.c) and two of its
    implementations, memory buffers (bio_mem.c) and pairs (pair.c).

    A [BIO *] is an address; the objects live in a [world], with the private states
    of the two implementations and the allocator.  Reading or writing through an
    address where there is no object, freeing what is not there, and a failed
    [assert] in a build that has assertions have no result. *)
From Stdlib Require Import ZArith Lia.
From stdpp Require Import base list numbers gmap.
From S2P Require Import Prelude.
From S2P Require Import Mem.
From S2P Require Import Buf.

Open Scope Z_scope.
Open Scope c_scope.

(** * The code *)

(** Whether the build is without assertions. *)
Class Debug := { NDEBUG : bool }.

(** Where the allocator puts a new object: anywhere that is free. *)
Class Placement := {
  place_for : gset Z -> Z;
  place_free : forall s, place_for s <> 0 /\ place_for s ∉ s
}.

Inductive BIO_METHOD := methods_biop | mem_method.

Record BIO := {
  method : BIO_METHOD; init : Z; shutdown : Z; flags : Z; retry_reason : Z; num : Z;
  references : Z; ptr : Z; next_bio : Z; num_read : Z; num_write : Z
}.

Record bio_bio_st := {
  peer : Z; closed : Z; len : Z; offset : Z; bsize : Z; buf : option place; request : Z
}.

Definition set_init v b := {| method := method b; init := v; shutdown := shutdown b; flags := flags b; retry_reason := retry_reason b; num := num b; references := references b; ptr := ptr b; next_bio := next_bio b; num_read := num_read b; num_write := num_write b |}.
Definition set_shutdown v b := {| method := method b; init := init b; shutdown := v; flags := flags b; retry_reason := retry_reason b; num := num b; references := references b; ptr := ptr b; next_bio := next_bio b; num_read := num_read b; num_write := num_write b |}.
Definition set_flags v b := {| method := method b; init := init b; shutdown := shutdown b; flags := v; retry_reason := retry_reason b; num := num b; references := references b; ptr := ptr b; next_bio := next_bio b; num_read := num_read b; num_write := num_write b |}.
Definition set_retry_reason v b := {| method := method b; init := init b; shutdown := shutdown b; flags := flags b; retry_reason := v; num := num b; references := references b; ptr := ptr b; next_bio := next_bio b; num_read := num_read b; num_write := num_write b |}.
Definition set_num v b := {| method := method b; init := init b; shutdown := shutdown b; flags := flags b; retry_reason := retry_reason b; num := v; references := references b; ptr := ptr b; next_bio := next_bio b; num_read := num_read b; num_write := num_write b |}.
Definition set_references v b := {| method := method b; init := init b; shutdown := shutdown b; flags := flags b; retry_reason := retry_reason b; num := num b; references := v; ptr := ptr b; next_bio := next_bio b; num_read := num_read b; num_write := num_write b |}.
Definition set_ptr v b := {| method := method b; init := init b; shutdown := shutdown b; flags := flags b; retry_reason := retry_reason b; num := num b; references := references b; ptr := v; next_bio := next_bio b; num_read := num_read b; num_write := num_write b |}.
Definition set_next v b := {| method := method b; init := init b; shutdown := shutdown b; flags := flags b; retry_reason := retry_reason b; num := num b; references := references b; ptr := ptr b; next_bio := v; num_read := num_read b; num_write := num_write b |}.
Definition set_num_read v b := {| method := method b; init := init b; shutdown := shutdown b; flags := flags b; retry_reason := retry_reason b; num := num b; references := references b; ptr := ptr b; next_bio := next_bio b; num_read := v; num_write := num_write b |}.
Definition set_num_write v b := {| method := method b; init := init b; shutdown := shutdown b; flags := flags b; retry_reason := retry_reason b; num := num b; references := references b; ptr := ptr b; next_bio := next_bio b; num_read := num_read b; num_write := v |}.

Definition set_peer v b := {| peer := v; closed := closed b; len := len b; offset := offset b; bsize := bsize b; buf := buf b; request := request b |}.
Definition set_closed v b := {| peer := peer b; closed := v; len := len b; offset := offset b; bsize := bsize b; buf := buf b; request := request b |}.
Definition set_ring v o b := {| peer := peer b; closed := closed b; len := v; offset := o; bsize := bsize b; buf := buf b; request := request b |}.
Definition set_buf n v b := {| peer := peer b; closed := closed b; len := len b; offset := offset b; bsize := n; buf := v; request := request b |}.
Definition set_request v b := {| peer := peer b; closed := closed b; len := len b; offset := offset b; bsize := bsize b; buf := buf b; request := v |}.

Definition BIO_FLAGS_READ : Z := 1.
Definition BIO_FLAGS_WRITE : Z := 2.
Definition BIO_FLAGS_IO_SPECIAL : Z := 4.
Definition BIO_FLAGS_RWS : Z := 7.
Definition BIO_FLAGS_SHOULD_RETRY : Z := 8.
Definition BIO_FLAGS_MEM_RDONLY : Z := 512.
Definition kRetryFlags : Z := Z.lor BIO_FLAGS_RWS BIO_FLAGS_SHOULD_RETRY.

Definition BIO_CTRL_RESET : Z := 1.
Definition BIO_CTRL_EOF : Z := 2.
Definition BIO_CTRL_INFO : Z := 3.
Definition BIO_CTRL_GET_CLOSE : Z := 8.
Definition BIO_CTRL_SET_CLOSE : Z := 9.
Definition BIO_CTRL_PENDING : Z := 10.
Definition BIO_CTRL_FLUSH : Z := 11.
Definition BIO_CTRL_WPENDING : Z := 13.
Definition BIO_C_SET_BUF_MEM : Z := 114.
Definition BIO_C_GET_BUF_MEM_PTR : Z := 115.
Definition BIO_C_SET_BUF_MEM_EOF_RETURN : Z := 130.
Definition BIO_C_GET_WRITE_BUF_SIZE : Z := 137.
Definition BIO_C_GET_WRITE_GUARANTEE : Z := 140.
Definition BIO_C_GET_READ_REQUEST : Z := 141.
Definition BIO_C_SHUTDOWN_WR : Z := 142.
Definition BIO_C_RESET_READ_REQUEST : Z := 147.

Definition sizeof_BIO : Z := 64.
Definition sizeof_bio_bio_st : Z := 56.
Definition CRYPTO_REFCOUNT_MAX : Z := 4294967295.

(** What a [ctrl] function stores through its last argument. *)
Inductive out := Contents (p : option place) | Buffer (a : Z).

(** The reference counts; no other thread is at work. *)
Definition CRYPTO_refcount_inc (count : Z) : Z :=
  if count =? CRYPTO_REFCOUNT_MAX then count else count + 1.

Definition CRYPTO_refcount_dec_and_test_zero (count : Z) : option (bool * Z) :=
  if count =? 0 then None
  else if count =? CRYPTO_REFCOUNT_MAX then Some (false, count)
  else Some (count - 1 =? 0, count - 1).

Section Code.
Context `{Malloc} `{Debug} `{Placement}.

Record world := {
  bios : gmap Z BIO; pairs : gmap Z bio_bio_st; bufs : gmap Z BUF_MEM; mem : heap
}.

Definition with_bios v (w : world) := {| bios := v; pairs := pairs w; bufs := bufs w; mem := mem w |}.
Definition with_pairs v (w : world) := {| bios := bios w; pairs := v; bufs := bufs w; mem := mem w |}.
Definition with_bufs v (w : world) := {| bios := bios w; pairs := pairs w; bufs := v; mem := mem w |}.
Definition with_mem v (w : world) := {| bios := bios w; pairs := pairs w; bufs := bufs w; mem := v |}.

Abbreviation IO := (M world).

Definition assert_ (b : bool) : IO unit := if NDEBUG then ret tt else guard b.

(** Reading and writing an object, and freeing it. *)
Definition bio_at (a : Z) : IO BIO := fun w => (bios w !! a, w).
Definition put_bio (a : Z) (b : BIO) : IO unit := fun w => (Some tt, with_bios (<[a := b]> (bios w)) w).
Definition change_bio (f : BIO -> BIO) (a : Z) : IO unit := let* b := bio_at a in put_bio a (f b).
Definition pair_at (a : Z) : IO bio_bio_st := fun w => (pairs w !! a, w).
Definition put_pair (a : Z) (b : bio_bio_st) : IO unit := fun w => (Some tt, with_pairs (<[a := b]> (pairs w)) w).
Definition change_pair (f : bio_bio_st -> bio_bio_st) (a : Z) : IO unit := let* b := pair_at a in put_pair a (f b).
Definition buf_at (a : Z) : IO BUF_MEM := fun w => (bufs w !! a, w).
Definition put_buf (a : Z) (b : BUF_MEM) : IO unit := fun w => (Some tt, with_bufs (<[a := b]> (bufs w)) w).
Definition free_bio (a : Z) : IO unit := let* _ := bio_at a in fun w => (Some tt, with_bios (delete a (bios w)) w).
Definition free_pair (a : Z) : IO unit := let* _ := pair_at a in fun w => (Some tt, with_pairs (delete a (pairs w)) w).
Definition free_buf (a : Z) : IO unit := let* _ := buf_at a in fun w => (Some tt, with_bufs (delete a (bufs w)) w).

(** A partial operation on memory. *)
Definition try {A} (o : option A) : IO A := fun w => (o, w).

(** Memory for an object, or a block. *)
Definition malloc_io (n : Z) : IO (option (list Z)) :=
  fun w => let '(r, h) := OPENSSL_malloc (mem w) n in (Some r, with_mem h w).
Definition realloc_io (p : list Z) (n : Z) : IO (option (list Z)) :=
  fun w => let '(r, h) := OPENSSL_realloc (mem w) (Some p) n in (Some r, with_mem h w).

(** An operation on a buffer, in place; its result. *)
Definition on_buf (a : Z) (f : BUF_MEM -> heap -> option (Z * BUF_MEM * heap)) : IO Z :=
  let* b := buf_at a in
  fun w => match f b (mem w) with
           | None => (None, w)
           | Some (r, b, h) => (Some r, with_bufs (<[a := b]> (bufs w)) (with_mem h w))
           end.

(** Freeing a buffer frees its block, which must be the start of one. *)
Definition BUF_MEM_free (a : Z) : IO unit :=
  if a =? 0 then ret tt else
  let* b := buf_at a in
  let* _ := guard (match data b with None => true | Some p => at_ p =? 0 end) in
  free_buf a.

(** Flags. *)
Definition BIO_set_flags (bio flags_ : Z) : IO unit := change_bio (fun b => set_flags (Z.lor (flags b) flags_) b) bio.
Definition BIO_clear_flags (bio flags_ : Z) : IO unit :=
  change_bio (fun b => set_flags (Z.land (flags b) (Z.lnot flags_)) b) bio.
Definition BIO_test_flags (bio flags_ : Z) : IO Z := let* b := bio_at bio in ret (Z.land (flags b) flags_).
Definition BIO_should_read (bio : Z) : IO Z := BIO_test_flags bio BIO_FLAGS_READ.
Definition BIO_should_write (bio : Z) : IO Z := BIO_test_flags bio BIO_FLAGS_WRITE.
Definition BIO_should_retry (bio : Z) : IO Z := BIO_test_flags bio BIO_FLAGS_SHOULD_RETRY.
Definition BIO_should_io_special (bio : Z) : IO Z := BIO_test_flags bio BIO_FLAGS_IO_SPECIAL.
Definition BIO_get_retry_reason (bio : Z) : IO Z := let* b := bio_at bio in ret (retry_reason b).
Definition BIO_set_retry_reason (bio reason : Z) : IO unit := change_bio (set_retry_reason reason) bio.
Definition BIO_set_retry_read (bio : Z) : IO unit := BIO_set_flags bio (Z.lor BIO_FLAGS_READ BIO_FLAGS_SHOULD_RETRY).
Definition BIO_set_retry_write (bio : Z) : IO unit := BIO_set_flags bio (Z.lor BIO_FLAGS_WRITE BIO_FLAGS_SHOULD_RETRY).
Definition BIO_set_retry_special (bio : Z) : IO unit := BIO_set_flags bio (Z.lor BIO_FLAGS_READ BIO_FLAGS_IO_SPECIAL).
Definition BIO_get_retry_flags (bio : Z) : IO Z := BIO_test_flags bio kRetryFlags.
Definition BIO_clear_retry_flags (bio : Z) : IO unit :=
  change_bio (fun b => set_retry_reason 0 (set_flags (Z.land (flags b) (Z.lnot kRetryFlags)) b)) bio.

Definition BIO_copy_next_retry (bio : Z) : IO unit :=
  let* _ := BIO_clear_retry_flags bio in
  let* b := bio_at bio in
  let* fl := BIO_get_retry_flags (next_bio b) in
  let* _ := BIO_set_flags bio fl in
  let* n := bio_at (next_bio b) in
  BIO_set_retry_reason bio (retry_reason n).

(** ** Pairs: crypto/bio/pair.c *)

Definition bio_new (bio : Z) : IO Z :=
  let* b := malloc_io sizeof_bio_bio_st in
  match b with
  | None => ret 0
  | Some _ =>
    fun w =>
      let a := place_for (dom (pairs w)) in
      let b := {| peer := 0; closed := 0; len := 0; offset := 0; bsize := 17 * 1024; buf := None; request := 0 |} in
      (let* _ := put_pair a b in let* _ := change_bio (set_ptr a) bio in ret 1) w
  end.

Definition bio_destroy_pair (bio : Z) : IO unit :=
  let* B := bio_at bio in
  if ptr B =? 0 then ret tt else
  let* b := pair_at (ptr B) in
  let peer_bio := peer b in
  if peer_bio =? 0 then ret tt else
  let* peer_B := bio_at peer_bio in
  let* _ := assert_ (negb (ptr peer_B =? 0)) in
  let* peer_b := pair_at (ptr peer_B) in
  let* _ := assert_ (peer peer_b =? bio) in
  let* _ := change_pair (set_peer 0) (ptr peer_B) in
  let* _ := change_bio (set_init 0) peer_bio in
  let* _ := assert_ (match buf peer_b with None => false | Some _ => true end) in
  let* _ := change_pair (set_ring 0 0) (ptr peer_B) in
  let* _ := change_pair (set_peer 0) (ptr B) in
  let* _ := change_bio (set_init 0) bio in
  let* _ := assert_ (match buf b with None => false | Some _ => true end) in
  change_pair (set_ring 0 0) (ptr B).

Definition bio_free (bio : Z) : IO Z :=
  let* B := bio_at bio in
  let* _ := assert_ (negb (ptr B =? 0)) in
  let* b := pair_at (ptr B) in
  let* _ := if negb (peer b =? 0) then bio_destroy_pair bio else ret tt in
  let* _ := free_pair (ptr B) in
  ret 1.

(** The reading loop; [fuel] rounds suffice when it is 2. *)
Fixpoint read_loop (fuel : nat) (pb rest : Z) (got : list Z) : IO (list Z) :=
  match fuel with
  | O => fail
  | S fuel =>
    let* p := pair_at pb in
    let* _ := assert_ (rest <=? len p) in
    let chunk := if u64 (offset p + rest) <=? bsize p then rest else u64 (bsize p - offset p) in
    let* _ := assert_ (u64 (offset p + chunk) <=? bsize p) in
    let* bs := try (load (buf p) (offset p) chunk) in
    let len_ := u64 (len p - chunk) in
    let* _ :=
      if negb (len_ =? 0) then
        let offset_ := u64 (offset p + chunk) in
        let* _ := assert_ (offset_ <=? bsize p) in
        put_pair pb (set_ring len_ (if offset_ =? bsize p then 0 else offset_) p)
      else
        let* _ := assert_ (chunk =? rest) in
        put_pair pb (set_ring len_ 0 p) in
    let rest := u64 (rest - chunk) in
    if rest =? 0 then ret (got ++ bs) else read_loop fuel pb rest (got ++ bs)
  end.

(** The result and the bytes stored from [buf] on; [nonnull] is [buf != NULL]. *)
Definition bio_read (bio : Z) (nonnull : bool) (size_ : Z) : IO (Z * list Z) :=
  let size := u64 size_ in
  let* _ := BIO_clear_retry_flags bio in
  let* B := bio_at bio in
  if init B =? 0 then ret (0, []) else
  let* b := pair_at (ptr B) in
  let* _ := assert_ (negb (peer b =? 0)) in
  let* peer_B := bio_at (peer b) in
  let pb := ptr peer_B in
  let* peer_b := pair_at pb in
  let* _ := assert_ (match buf peer_b with None => false | Some _ => true end) in
  let* _ := put_pair pb (set_request 0 peer_b) in
  if negb nonnull || (size =? 0) then ret (0, []) else
  if len peer_b =? 0 then
    if negb (closed peer_b =? 0) then ret (0, [])
    else
      let* _ := BIO_set_retry_read bio in
      let* _ := change_pair (set_request (if size <=? bsize peer_b then size else bsize peer_b)) pb in
      ret (-1, [])
  else
    let size := if len peer_b <? size then len peer_b else size in
    let* _ := assert_ (0 <? size) in
    let* bs := read_loop 2 pb size [] in
    ret (s32 size, bs).

Fixpoint write_loop (fuel : nat) (a rest : Z) (bs : list Z) : IO unit :=
  match fuel with
  | O => fail
  | S fuel =>
    let* b := pair_at a in
    let* _ := assert_ (u64 (len b + rest) <=? bsize b) in
    let write_offset := u64 (offset b + len b) in
    let write_offset := if bsize b <=? write_offset then u64 (write_offset - bsize b) else write_offset in
    let chunk := if u64 (write_offset + rest) <=? bsize b then rest else u64 (bsize b - write_offset) in
    let* d := try (store (buf b) write_offset (ztake chunk bs)) in
    let len_ := u64 (len b + chunk) in
    let* _ := put_pair a (set_ring len_ (offset b) (set_buf (bsize b) d b)) in
    let* _ := assert_ (len_ <=? bsize b) in
    let rest := u64 (rest - chunk) in
    if rest =? 0 then ret tt else write_loop fuel a rest (zdrop chunk bs)
  end.

(** [in_] is the memory at [buf]; the caller has [num_] bytes there. *)
Definition bio_write (bio : Z) (in_ : option (list Z)) (num_ : Z) : IO Z :=
  let num := u64 num_ in
  let* _ := BIO_clear_retry_flags bio in
  let* B := bio_at bio in
  match in_ with
  | None => ret 0
  | Some bs =>
    if (init B =? 0) || (num =? 0) then ret 0 else
    let* b := pair_at (ptr B) in
    let* _ := assert_ (negb (peer b =? 0)) in
    let* _ := assert_ (match buf b with None => false | Some _ => true end) in
    let* _ := put_pair (ptr B) (set_request 0 b) in
    if negb (closed b =? 0) then ret (-1) else
    let* _ := assert_ (len b <=? bsize b) in
    if len b =? bsize b then let* _ := BIO_set_retry_write bio in ret (-1) else
    let num := if u64 (bsize b - len b) <? num then u64 (bsize b - len b) else num in
    let* _ := assert_ (0 <? num) in
    let* _ := write_loop 2 (ptr B) num bs in
    ret (s32 num)
  end.

(** One half of [bio_make_pair]: the buffer of [b], if it has none. *)
Definition make_buf (a writebuf_len : Z) : IO Z :=
  let* b := pair_at a in
  match buf b with
  | Some _ => ret 1
  | None =>
    let n := if negb (writebuf_len =? 0) then writebuf_len else bsize b in
    let* r := malloc_io n in
    match r with
    | None => let* _ := put_pair a (set_buf n None b) in ret 0
    | Some r => let* _ := put_pair a (set_ring 0 0 (set_buf n (Some {| block := r; at_ := 0 |}) b)) in ret 1
    end
  end.

Definition bio_make_pair (bio1 bio2 writebuf1_len writebuf2_len : Z) : IO Z :=
  let* B1 := bio_at bio1 in
  let* B2 := bio_at bio2 in
  let* b1 := pair_at (ptr B1) in
  let* b2 := pair_at (ptr B2) in
  if negb (peer b1 =? 0) || negb (peer b2 =? 0) then ret 0 else
  let* ok := make_buf (ptr B1) writebuf1_len in
  if ok =? 0 then ret 0 else
  let* ok := make_buf (ptr B2) writebuf2_len in
  if ok =? 0 then ret 0 else
  let* _ := change_pair (fun b => set_request 0 (set_closed 0 (set_peer bio2 b))) (ptr B1) in
  let* _ := change_pair (fun b => set_request 0 (set_closed 0 (set_peer bio1 b))) (ptr B2) in
  let* _ := change_bio (set_init 1) bio1 in
  let* _ := change_bio (set_init 1) bio2 in
  ret 1.

Definition bio_ctrl (bio cmd num_ ptr_ : Z) : IO (Z * option out) :=
  let* B := bio_at bio in
  let* b := pair_at (ptr B) in
  let done v := ret (v, None) in
  if cmd =? BIO_C_GET_WRITE_BUF_SIZE then done (s64 (bsize b))
  else if cmd =? BIO_C_GET_WRITE_GUARANTEE then
    done (if (peer b =? 0) || negb (closed b =? 0) then 0 else s64 (u64 (bsize b - len b)))
  else if cmd =? BIO_C_GET_READ_REQUEST then done (s64 (request b))
  else if cmd =? BIO_C_RESET_READ_REQUEST then let* _ := put_pair (ptr B) (set_request 0 b) in done 1
  else if cmd =? BIO_C_SHUTDOWN_WR then let* _ := put_pair (ptr B) (set_closed 1 b) in done 1
  else if cmd =? BIO_CTRL_GET_CLOSE then done (shutdown B)
  else if cmd =? BIO_CTRL_SET_CLOSE then let* _ := put_bio bio (set_shutdown (s32 num_) B) in done 1
  else if cmd =? BIO_CTRL_PENDING then
    if peer b =? 0 then done 0
    else let* peer_B := bio_at (peer b) in let* peer_b := pair_at (ptr peer_B) in done (s64 (len peer_b))
  else if cmd =? BIO_CTRL_WPENDING then done (match buf b with None => 0 | Some _ => s64 (len b) end)
  else if cmd =? BIO_CTRL_FLUSH then done 1
  else if cmd =? BIO_CTRL_EOF then
    if ptr_ =? 0 then done 1
    else
      let* other_B := bio_at ptr_ in
      let* other_b := pair_at (ptr other_B) in
      done (if (len other_b =? 0) && negb (closed other_b =? 0) then 1 else 0)
  else done 0.

(** ** Memory buffers: crypto/bio/bio_mem.c *)

Definition mem_new (bio : Z) : IO Z :=
  fun w =>
    let '(r, h) := BUF_MEM_new (mem w) in
    let w := with_mem h w in
    match r with
    | None => ret 0 w
    | Some b =>
      let a := place_for (dom (bufs w)) in
      (let* _ := put_buf a b in
       let* _ := change_bio (fun B => set_ptr a (set_num (-1) (set_init 1 (set_shutdown 1 B)))) bio in
       ret 1) w
    end.

Definition read_only (B : BIO) : bool := negb (Z.land (flags B) BIO_FLAGS_MEM_RDONLY =? 0).

Definition mem_free (bio : Z) : IO Z :=
  let* B := bio_at bio in
  if (shutdown B =? 0) || (init B =? 0) || (ptr B =? 0) then ret 1 else
  let* b := buf_at (ptr B) in
  let* _ := if read_only B then put_buf (ptr B) {| length_ := length_ b; data := None; max := max b |} else ret tt in
  let* _ := BUF_MEM_free (ptr B) in
  let* _ := change_bio (set_ptr 0) bio in
  ret 1.

Definition advance (n : Z) (p : option place) : option place :=
  p ← p; Some {| block := block p; at_ := at_ p + n |}.

Definition mem_read (bio outl : Z) : IO (Z * list Z) :=
  let* B := bio_at bio in
  let* b := buf_at (ptr B) in
  let* _ := BIO_clear_retry_flags bio in
  let ret_ := if (length_ b <? INT_MAX) && (length_ b <? outl) then length_ b else outl in
  if 0 <? ret_ then
    let* bs := try (load (data b) 0 ret_) in
    let length' := u64 (length_ b - ret_) in
    let* _ :=
      if read_only B then put_buf (ptr B) {| length_ := length'; data := advance ret_ (data b); max := max b |}
      else
        let* kept := try (load (data b) ret_ length') in
        let* d := try (store (data b) 0 kept) in
        put_buf (ptr B) {| length_ := length'; data := d; max := max b |} in
    ret (ret_, bs)
  else if length_ b =? 0 then
    let* _ := if negb (num B =? 0) then BIO_set_retry_read bio else ret tt in
    ret (num B, [])
  else ret (ret_, []).

Definition mem_write (bio : Z) (in_ : list Z) (inl : Z) : IO Z :=
  let* B := bio_at bio in
  if read_only B then ret (-1) else
  let* _ := BIO_clear_retry_flags bio in
  let* b := buf_at (ptr B) in
  let blen := s32 (length_ b) in
  if INT_MAX - blen <? inl then ret (-1) else
  let* r := on_buf (ptr B) (fun b => BUF_MEM_grow_clean b (u64 (blen + inl))) in
  if negb (r =? u64 (blen + inl)) then ret (-1) else
  let* b := buf_at (ptr B) in
  let* d := try (store (data b) blen (ztake inl in_)) in
  let* _ := put_buf (ptr B) {| length_ := length_ b; data := d; max := max b |} in
  ret inl.

(** How many bytes there are up to the first newline, at most [j]. *)
Fixpoint line_length (p : list Z) (j : nat) : Z :=
  match j, p with
  | S j, c :: p => if c =? 10 then 1 else 1 + line_length p j
  | _, _ => 0
  end.

Definition mem_gets (bio size_ : Z) : IO (Z * list Z) :=
  let* B := bio_at bio in
  let* b := buf_at (ptr B) in
  let* _ := BIO_clear_retry_flags bio in
  let j := s32 (length_ b) in
  let j := if size_ - 1 <? j then size_ - 1 else j in
  if j <=? 0 then ret (0, if 0 <? size_ then [0] else [])
  else
    let* p := try (load (data b) 0 j) in
    let i := line_length p (Z.to_nat j) in
    let* r := mem_read bio i in
    let '(i, bs) := r in
    ret (i, if 0 <? i then bs ++ [0] else bs).

Definition mem_ctrl (bio cmd num_ ptr_ : Z) : IO (Z * option out) :=
  let* B := bio_at bio in
  let* b := buf_at (ptr B) in
  let done v := ret (v, None) in
  if cmd =? BIO_CTRL_RESET then
    let* _ :=
      match data b with
      | None => ret tt
      | Some p =>
        if read_only B then
          put_buf (ptr B) {| length_ := max b; data := advance (- (max b - length_ b)) (data b); max := max b |}
        else
          let* d := try (store (data b) 0 (zrep (max b) 0)) in
          put_buf (ptr B) {| length_ := 0; data := d; max := max b |}
      end in
    done 1
  else if cmd =? BIO_CTRL_EOF then done (if length_ b =? 0 then 1 else 0)
  else if cmd =? BIO_C_SET_BUF_MEM_EOF_RETURN then let* _ := put_bio bio (set_num (s32 num_) B) in done 1
  else if cmd =? BIO_CTRL_INFO then ret (s64 (length_ b), if negb (ptr_ =? 0) then Some (Contents (data b)) else None)
  else if cmd =? BIO_C_SET_BUF_MEM then
    let* _ := mem_free bio in
    let* _ := change_bio (fun B => set_ptr ptr_ (set_shutdown (s32 num_) B)) bio in
    done 1
  else if cmd =? BIO_C_GET_BUF_MEM_PTR then ret (1, if negb (ptr_ =? 0) then Some (Buffer (ptr B)) else None)
  else if cmd =? BIO_CTRL_GET_CLOSE then done (shutdown B)
  else if cmd =? BIO_CTRL_SET_CLOSE then let* _ := put_bio bio (set_shutdown (s32 num_) B) in done 1
  else if cmd =? BIO_CTRL_WPENDING then done 0
  else if cmd =? BIO_CTRL_PENDING then done (s64 (length_ b))
  else if cmd =? BIO_CTRL_FLUSH then done 1
  else done 0.

(** ** The generic interface: crypto/bio/bio.c *)

(** The method tables. *)
Definition type (m : BIO_METHOD) : Z :=
  match m with methods_biop => Z.lor 19 1024 | mem_method => Z.lor 1 1024 end.
Definition bwrite (m : BIO_METHOD) (bio : Z) (in_ : option (list Z)) (inl : Z) : IO Z :=
  match m with methods_biop => bio_write bio in_ inl
             | mem_method => let* bs := try in_ in mem_write bio bs inl end.
Definition bread (m : BIO_METHOD) (bio : Z) (nonnull : bool) (outl : Z) : IO (Z * list Z) :=
  match m with methods_biop => bio_read bio nonnull outl
             | mem_method => let* r := mem_read bio outl in
                             let* _ := guard (nonnull || (zlen (snd r) =? 0)) in ret r end.
Definition bgets (m : BIO_METHOD) : option (Z -> Z -> IO (Z * list Z)) :=
  match m with methods_biop => None | mem_method => Some mem_gets end.
Definition ctrl (m : BIO_METHOD) : Z -> Z -> Z -> Z -> IO (Z * option out) :=
  match m with methods_biop => bio_ctrl | mem_method => mem_ctrl end.
Definition create (m : BIO_METHOD) : Z -> IO Z := match m with methods_biop => bio_new | mem_method => mem_new end.
Definition destroy (m : BIO_METHOD) : Z -> IO Z := match m with methods_biop => bio_free | mem_method => mem_free end.

Definition BIO_new (method_ : BIO_METHOD) : IO Z :=
  let* r := malloc_io sizeof_BIO in
  match r with
  | None => ret 0
  | Some _ =>
    fun w =>
      let a := place_for (dom (bios w)) in
      (let* _ := put_bio a {| method := method_; init := 0; shutdown := 1; flags := 0; retry_reason := 0; num := 0;
                              references := 1; ptr := 0; next_bio := 0; num_read := 0; num_write := 0 |} in
       let* ok := create method_ a in
       if ok =? 0 then let* _ := free_bio a in ret 0 else ret a) w
  end.

Definition BIO_pop (bio : Z) : IO Z :=
  if bio =? 0 then ret 0
  else let* b := bio_at bio in let* _ := put_bio bio (set_next 0 b) in ret (next_bio b).

Fixpoint free_loop (fuel : nat) (bio : Z) : IO Z :=
  if bio =? 0 then ret 1
  else
    match fuel with
    | O => fail
    | S fuel =>
      let* b := bio_at bio in
      let* r := try (CRYPTO_refcount_dec_and_test_zero (references b)) in
      let '(zero, count) := r in
      let* _ := put_bio bio (set_references count b) in
      if negb zero then ret 0
      else
        let* next := BIO_pop bio in
        let* _ := destroy (method b) bio in
        let* _ := free_bio bio in
        free_loop fuel next
    end.

(** A chain is no longer than there are objects. *)
Definition BIO_free (bio : Z) : IO Z := fun w => free_loop (size (bios w)) bio w.
Definition BIO_vfree (bio : Z) : IO unit := let* _ := BIO_free bio in ret tt.
Definition BIO_free_all (bio : Z) : IO unit := let* _ := BIO_free bio in ret tt.
Definition BIO_up_ref (bio : Z) : IO Z :=
  let* _ := change_bio (fun b => set_references (CRYPTO_refcount_inc (references b)) b) bio in ret 1.

Definition BIO_read (bio : Z) (nonnull : bool) (len_ : Z) : IO (Z * list Z) :=
  if bio =? 0 then ret (-2, []) else
  let* b := bio_at bio in
  if init b =? 0 then ret (-2, []) else
  if len_ <=? 0 then ret (0, []) else
  let* r := bread (method b) bio nonnull len_ in
  let* _ := if 0 <? fst r then change_bio (fun b => set_num_read (u64 (num_read b + fst r)) b) bio else ret tt in
  ret r.

Definition BIO_gets (bio len_ : Z) : IO (Z * list Z) :=
  if bio =? 0 then ret (-2, []) else
  let* b := bio_at bio in
  match bgets (method b) with
  | None => ret (-2, [])
  | Some gets =>
    if init b =? 0 then ret (-2, []) else
    if len_ <=? 0 then ret (0, []) else
    let* r := gets bio len_ in
    let* _ := if 0 <? fst r then change_bio (fun b => set_num_read (u64 (num_read b + fst r)) b) bio else ret tt in
    ret r
  end.

Definition BIO_write (bio : Z) (in_ : option (list Z)) (inl : Z) : IO Z :=
  if bio =? 0 then ret (-2) else
  let* b := bio_at bio in
  if init b =? 0 then ret (-2) else
  if inl <=? 0 then ret 0 else
  let* r := bwrite (method b) bio in_ inl in
  let* _ := if 0 <? r then change_bio (fun b => set_num_write (u64 (num_write b + r)) b) bio else ret tt in
  ret r.

Fixpoint write_all_loop (fuel : nat) (bio : Z) (bs : list Z) : IO Z :=
  if zlen bs <=? 0 then ret 1
  else
    match fuel with
    | O => fail
    | S fuel =>
      let* r := BIO_write bio (Some bs) (if INT_MAX <? zlen bs then INT_MAX else zlen bs) in
      if r <=? 0 then ret 0 else write_all_loop fuel bio (zdrop r bs)
    end.

Definition BIO_write_all (bio : Z) (bs : list Z) : IO Z := write_all_loop (length bs) bio bs.
Definition BIO_puts (bio : Z) (in_ : list Z) : IO Z := BIO_write bio (Some in_) (s32 (zlen in_)).

Definition BIO_ctrl (bio cmd larg parg : Z) : IO (Z * option out) :=
  if bio =? 0 then ret (0, None) else
  let* b := bio_at bio in
  ctrl (method b) bio cmd larg parg.

(** For the calls that use the result only. *)
Definition ctrl_result (bio cmd larg parg : Z) : IO Z := let* r := BIO_ctrl bio cmd larg parg in ret (fst r).

Definition BIO_flush (bio : Z) : IO Z := let* r := ctrl_result bio BIO_CTRL_FLUSH 0 0 in ret (s32 r).
Definition BIO_reset (bio : Z) : IO Z := let* r := ctrl_result bio BIO_CTRL_RESET 0 0 in ret (s32 r).
Definition BIO_eof (bio : Z) : IO Z := let* r := ctrl_result bio BIO_CTRL_EOF 0 0 in ret (s32 r).
Definition BIO_pending (bio : Z) : IO Z :=
  let* r := ctrl_result bio BIO_CTRL_PENDING 0 0 in
  let* _ := assert_ (0 <=? r) in ret (if r <? 0 then 0 else r).
Definition BIO_ctrl_pending (bio : Z) : IO Z := BIO_pending bio.
Definition BIO_wpending (bio : Z) : IO Z :=
  let* r := ctrl_result bio BIO_CTRL_WPENDING 0 0 in
  let* _ := assert_ (0 <=? r) in ret (if r <? 0 then 0 else r).
Definition BIO_set_close (bio close_flag : Z) : IO Z :=
  let* r := ctrl_result bio BIO_CTRL_SET_CLOSE close_flag 0 in ret (s32 r).
Definition BIO_number_read (bio : Z) : IO Z := let* b := bio_at bio in ret (num_read b).
Definition BIO_number_written (bio : Z) : IO Z := let* b := bio_at bio in ret (num_write b).
Definition BIO_method_type (bio : Z) : IO Z := let* b := bio_at bio in ret (type (method b)).
Definition BIO_get_data (bio : Z) : IO Z := let* b := bio_at bio in ret (ptr b).
Definition BIO_get_init (bio : Z) : IO Z := let* b := bio_at bio in ret (init b).
Definition BIO_get_shutdown (bio : Z) : IO Z := let* b := bio_at bio in ret (shutdown b).

Definition BIO_next (bio : Z) : IO Z := if bio =? 0 then ret 0 else let* b := bio_at bio in ret (next_bio b).

Fixpoint last_loop (fuel : nat) (last_bio : Z) : IO Z :=
  let* b := bio_at last_bio in
  if next_bio b =? 0 then ret last_bio
  else match fuel with O => fail | S fuel => last_loop fuel (next_bio b) end.

Definition BIO_push (bio appended_bio : Z) : IO Z :=
  if bio =? 0 then ret bio
  else fun w => (let* last_bio := last_loop (size (bios w)) bio in
                 let* _ := change_bio (set_next appended_bio) last_bio in ret bio) w.

Fixpoint find_loop (fuel : nat) (type_ mask bio : Z) : IO Z :=
  let* b := bio_at bio in
  let method_type := type (method b) in
  if (if mask =? 0 then negb (Z.land method_type type_ =? 0) else method_type =? type_) then ret bio
  else if next_bio b =? 0 then ret 0
  else match fuel with O => fail | S fuel => find_loop fuel type_ mask (next_bio b) end.

Definition BIO_find_type (bio type_ : Z) : IO Z :=
  if bio =? 0 then ret 0 else fun w => find_loop (size (bios w)) type_ (Z.land type_ 255) bio w.

Fixpoint indent_loop (indent : nat) (bio : Z) : IO Z :=
  match indent with
  | O => ret 1
  | S indent => let* r := BIO_puts bio [32] in if negb (r =? 1) then ret 0 else indent_loop indent bio
  end.

Definition BIO_indent (bio indent max_indent : Z) : IO Z :=
  indent_loop (Z.to_nat (if max_indent <? indent then max_indent else indent)) bio.

Definition BIO_new_bio_pair (writebuf1_len writebuf2_len : Z) : IO (Z * Z * Z) :=
  let* bio1 := BIO_new methods_biop in
  let* bio2 := BIO_new methods_biop in
  let* ok := if (bio1 =? 0) || (bio2 =? 0) then ret 0 else bio_make_pair bio1 bio2 writebuf1_len writebuf2_len in
  if ok =? 0 then
    let* _ := BIO_free bio1 in
    let* _ := BIO_free bio2 in
    ret (0, 0, 0)
  else ret (1, bio1, bio2).

Definition BIO_ctrl_get_read_request (bio : Z) : IO Z := let* r := ctrl_result bio BIO_C_GET_READ_REQUEST 0 0 in ret (u64 r).
Definition BIO_ctrl_get_write_guarantee (bio : Z) : IO Z :=
  let* r := ctrl_result bio BIO_C_GET_WRITE_GUARANTEE 0 0 in ret (u64 r).
Definition BIO_shutdown_wr (bio : Z) : IO Z := let* r := ctrl_result bio BIO_C_SHUTDOWN_WR 0 0 in ret (s32 r).

(** [buf] is the memory the caller points to, with the terminating NUL of a string. *)
Definition BIO_new_mem_buf (buf_ : option place) (len_ : Z) : IO Z :=
  let* size_ :=
    if len_ <? 0 then try (p ← buf_; i ← OPENSSL_memchr (zdrop (at_ p) (block p)) 0; Some i) else ret len_ in
  match buf_ with
  | None => if negb (len_ =? 0) then ret 0 else
    let* bio := BIO_new mem_method in
    if bio =? 0 then ret 0 else
    let* B := bio_at bio in
    let* _ := put_buf (ptr B) {| length_ := size_; data := buf_; max := size_ |} in
    let* _ := put_bio bio (set_num 0 (set_flags (Z.lor (flags B) BIO_FLAGS_MEM_RDONLY) B)) in
    ret bio
  | Some _ =>
    let* bio := BIO_new mem_method in
    if bio =? 0 then ret 0 else
    let* B := bio_at bio in
    let* _ := put_buf (ptr B) {| length_ := size_; data := buf_; max := size_ |} in
    let* _ := put_bio bio (set_num 0 (set_flags (Z.lor (flags B) BIO_FLAGS_MEM_RDONLY) B)) in
    ret bio
  end.

Definition BIO_mem_contents (bio : Z) : IO (Z * option (option place * Z)) :=
  let* B := bio_at bio in
  match method B with
  | methods_biop => ret (0, None)
  | mem_method => let* b := buf_at (ptr B) in ret (1, Some (data b, length_ b))
  end.

Definition BIO_get_mem_data (bio : Z) : IO (Z * option out) := BIO_ctrl bio BIO_CTRL_INFO 0 1.
Definition BIO_get_mem_ptr (bio : Z) : IO (Z * option out) := BIO_ctrl bio BIO_C_GET_BUF_MEM_PTR 0 1.
Definition BIO_set_mem_buf (bio b take_ownership : Z) : IO Z :=
  let* r := ctrl_result bio BIO_C_SET_BUF_MEM take_ownership b in ret (s32 r).
Definition BIO_set_mem_eof_return (bio eof_value : Z) : IO Z :=
  let* r := ctrl_result bio BIO_C_SET_BUF_MEM_EOF_RETURN eof_value 0 in ret (s32 r).

Definition kChunkSize : Z := 4096.

(** Bytes put at offset [i] of a block. *)
Definition put (i : Z) (bs out_ : list Z) : option (list Z) :=
  p ← store (Some {| block := out_; at_ := 0 |}) i bs; (fun q => block q) <$> p.

(** The loop of [bio_read_all]: [out_] is the block, of [len] bytes. *)
Fixpoint read_all_loop (fuel : nat) (bio : Z) (out_ : list Z) (len_ done max_len : Z) : IO (option (list Z * Z)) :=
  match fuel with
  | O => fail
  | S fuel =>
    if done =? len_ then ret None
    else
      let todo := u64 (len_ - done) in
      let* _ := assert_ (todo <? INT_MAX) in
      let* r := BIO_read bio true (s32 todo) in
      let '(n, bs) := r in
      let* out_ := try (put done bs out_) in
      if n =? 0 then ret (Some (out_, done))
      else if n =? -1 then ret None
      else
        let done := u64 (done + n) in
        if (len_ <? max_len) && (u64 (len_ - done) <? kChunkSize / 2) then
          let len' := u64 (len_ + kChunkSize) in
          let len' := if (len' <? kChunkSize) || (max_len <? len') then max_len else len' in
          let* new_buf := realloc_io out_ len' in
          match new_buf with
          | None => ret None
          | Some out_ => read_all_loop fuel bio out_ len' done max_len
          end
        else read_all_loop fuel bio out_ len_ done max_len
  end.

(** The block and [*out_len], or failure. *)
Definition bio_read_all (fuel : nat) (bio : Z) (prefix : list Z) (max_len : Z) : IO (option (list Z * Z)) :=
  let len_ := u64 (zlen prefix + kChunkSize) in
  let len_ := if max_len <? len_ then max_len else len_ in
  if len_ <? zlen prefix then ret None
  else
    let* r := malloc_io len_ in
    match r with
    | None => ret None
    | Some out_ =>
      let* out_ := try (put 0 prefix out_) in
      read_all_loop fuel bio out_ len_ (zlen prefix) max_len
    end.

(** The bytes read, or failure with [*out_eof_on_first_read]. *)
Fixpoint read_full_loop (fuel : nat) (bio len_ : Z) (first_read : bool) (got : list Z) : IO (bool + list Z) :=
  if len_ <=? 0 then ret (inr got)
  else
    match fuel with
    | O => fail
    | S fuel =>
      let todo := if len_ <=? INT_MAX then len_ else INT_MAX in
      let* r := BIO_read bio true todo in
      let '(n, bs) := r in
      if n <=? 0 then ret (inl (first_read && (n =? 0)))
      else read_full_loop fuel bio (u64 (len_ - n)) false (got ++ bs)
    end.

Definition bio_read_full (bio len_ : Z) : IO (bool + list Z) := read_full_loop (Z.to_nat len_) bio len_ true [].

(** The errors [BIO_read_asn1] puts on the queue. *)
Inductive asn1_error := HEADER_TOO_LONG | NOT_ENOUGH_DATA | DECODE_ERROR | TOO_LONG | MALLOC_FAILURE.

(** The reading after the length is known. *)
Definition read_contents (bio : Z) (header : list Z) (len_ max_len : Z) : IO (asn1_error + list Z * Z) :=
  let header_len := zlen header in
  if (u64 (len_ + header_len) <? len_) || (max_len <? u64 (len_ + header_len)) || (INT_MAX <? len_) then ret (inl TOO_LONG)
  else
    let len_ := u64 (len_ + header_len) in
    let* r := malloc_io len_ in
    match r with
    | None => ret (inl MALLOC_FAILURE)
    | Some out_ =>
      let* out_ := try (put 0 header out_) in
      let* r := bio_read_full bio (len_ - header_len) in
      match r with
      | inl _ => ret (inl NOT_ENOUGH_DATA)
      | inr bs => let* out_ := try (put header_len bs out_) in ret (inr (out_, len_))
      end
    end.

(** [*out] and [*out_len], or an error; [fuel] is for the object of indefinite length. *)
Definition BIO_read_asn1 (fuel : nat) (bio max_len : Z) : IO (asn1_error + list Z * Z) :=
  let* r := bio_read_full bio 2 in
  match r with
  | inl true => ret (inl HEADER_TOO_LONG)
  | inl false => ret (inl NOT_ENOUGH_DATA)
  | inr header =>
    let tag := znth 0 0 header in
    let length_byte := znth 0 1 header in
    if Z.land tag 31 =? 31 then ret (inl DECODE_ERROR)
    else if Z.land length_byte 128 =? 0 then read_contents bio header length_byte max_len
    else
      let num_bytes := Z.land length_byte 127 in
      if negb (Z.land tag 32 =? 0) && (num_bytes =? 0) then
        let* r := bio_read_all fuel bio header max_len in
        ret (match r with None => inl NOT_ENOUGH_DATA | Some o => inr o end)
      else if (num_bytes =? 0) || (4 <? num_bytes) then ret (inl DECODE_ERROR)
      else
        let* r := bio_read_full bio num_bytes in
        match r with
        | inl _ => ret (inl NOT_ENOUGH_DATA)
        | inr bs =>
          let len32 := fold_left (fun v b => Z.lor (u32 (Z.shiftl v 8)) b) bs 0 in
          if len32 <? 128 then ret (inl DECODE_ERROR)
          else if Z.shiftr len32 ((num_bytes - 1) * 8) =? 0 then ret (inl DECODE_ERROR)
          else read_contents bio (header ++ bs) len32 max_len
        end
  end.
End Code.

(** Objects are placed at the first free address. *)
#[export] Instance next_place : Placement.
Proof.
  refine {| place_for := fun s => fresh (s ∪ {[0]}) |}. intros s. pose proof (is_fresh (s ∪ {[0]})) as Hf.
  rewrite elem_of_union, elem_of_singleton in Hf. split; tauto.
Defined.

Definition debug_build : Debug := {| NDEBUG := false |}.
Definition release_build : Debug := {| NDEBUG := true |}.
