(* ===== verification/BioPair.v ===== *)
(** A pair of BIOs (crypto/bio/pair.c) as two bounded queues of bytes.

    [half] is what one end of a pair looks like to its user: what it has written
    that the other end has not read, whether it has been shut down, how much the
    other end asked for, and the flags and counters.  [half_write] and [half_read]
    are the specification; a ring buffer holds a queue when [ring] holds. *)
From Stdlib Require Import ZArith Lia.
From stdpp Require Import base list numbers gmap.
From S2P Require Import Prelude.
From S2P Require Import Mem.
From S2P Require Import Buf.
From S2P Require Import Bio.

Open Scope Z_scope.
Open Scope c_scope.

(** * Ring buffers *)

(** The [n] bytes from offset [o] on, around the end. *)
Definition view (blk : list Z) (o n : Z) : list Z := ztake n (zdrop o blk ++ ztake o blk).

Definition wrap (o cap : Z) : Z := if o =? cap then 0 else o.

Lemma zlen_view blk o n : 0 <= o <= zlen blk -> 0 <= n <= zlen blk -> zlen (view blk o n) = n.
Proof. intros Ho Hn. unfold view. apply zlen_ztake. rewrite zlen_app, zlen_zdrop, zlen_ztake by lia. lia. Qed.

(** The first bytes, as far as the end of the block. *)
Lemma view_first blk o n k :
  0 <= o -> 0 <= k <= n -> o + k <= zlen blk -> ztake k (view blk o n) = zsub o k blk.
Proof.
  intros Ho Hk Hl. unfold view, zsub. rewrite ztake_ztake by lia. apply ztake_app_le.
  rewrite zlen_zdrop by lia. lia.
Qed.

(** What is left without them. *)
Lemma view_rest blk o n k :
  0 <= o -> 0 <= k <= n -> n <= zlen blk -> o + k <= zlen blk ->
  zdrop k (view blk o n) = view blk (wrap (o + k) (zlen blk)) (n - k).
Proof.
  intros Ho Hk Hn Hl. destruct (zcut o k blk) as (x & m & s & -> & Hx & Hm); [lia..|]. subst o k.
  rewrite !zlen_app in *. pose proof (zlen_nonneg x). pose proof (zlen_nonneg m). pose proof (zlen_nonneg s).
  unfold view at 1. rewrite zdrop_app, ztake_app, <- app_assoc. rewrite zdrop_ztake by (rewrite ?zlen_app; lia).
  unfold zsub. rewrite zdrop_app. unfold wrap. destruct (Z.eqb_spec (zlen x + zlen m) (zlen x + (zlen m + zlen s))).
  - assert (s = []) as -> by (apply zlen_0; lia). unfold view. rewrite app_nil_l, app_nil_r.
    replace (zdrop 0 (x ++ m) ++ ztake 0 (x ++ m)) with (x ++ m)
      by (unfold zdrop, ztake; change (Z.to_nat 0) with O; cbn [take drop]; rewrite app_nil_r; reflexivity).
    symmetry. apply ztake_app_le. lia.
  - unfold view. rewrite (app_assoc x m s). rewrite <- zlen_app, zdrop_app, ztake_app.
    rewrite (app_assoc s x m). symmetry. apply ztake_app_le. rewrite zlen_app. lia.
Qed.

(** Bytes stored after the last one. *)
Lemma view_store blk o n i bs :
  0 <= o < zlen blk -> 0 <= n -> n + zlen bs <= zlen blk ->
  i = (if zlen blk <=? o + n then o + n - zlen blk else o + n) -> i + zlen bs <= zlen blk ->
  view (zsplice i bs blk) o (n + zlen bs) = view blk o n ++ bs.
Proof.
  intros Ho Hn Hl Hi Hb. pose proof (zlen_nonneg bs). destruct (Z.leb_spec (zlen blk) (o + n)).
  - destruct (zcut i (zlen bs) blk) as (x & m & s & -> & Hx & Hm); [lia..|].
    rewrite zsplice_app by lia. subst i. rewrite !zlen_app in *. pose proof (zlen_nonneg s).
    set (y := ztake (o - zlen x - zlen m) s). set (v := zdrop (o - zlen x - zlen m) s).
    assert (Es : s = y ++ v) by (symmetry; apply ztake_zdrop).
    assert (Hy : zlen y = o - zlen x - zlen m) by (apply zlen_ztake; lia).
    rewrite Es in *. rewrite zlen_app in *. unfold view.
    replace (x ++ bs ++ y ++ v) with ((x ++ bs ++ y) ++ v) by (rewrite <- !app_assoc; reflexivity).
    replace (x ++ m ++ y ++ v) with ((x ++ m ++ y) ++ v) by (rewrite <- !app_assoc; reflexivity).
    rewrite !(zdrop_app_eq o), !(ztake_app_eq o) by (rewrite !zlen_app; lia).
    replace (v ++ x ++ bs ++ y) with (((v ++ x) ++ bs) ++ y) by (rewrite <- !app_assoc; reflexivity).
    replace (v ++ x ++ m ++ y) with ((v ++ x) ++ m ++ y) by (rewrite <- !app_assoc; reflexivity).
    rewrite !ztake_app_eq by (rewrite ?zlen_app; lia). reflexivity.
  - destruct (zcut o n blk) as (x & v & s & -> & Hx & Hv); [lia..|]. subst i. rewrite !zlen_app in *.
    pose proof (zlen_nonneg s). set (m := ztake (zlen bs) s). set (t := zdrop (zlen bs) s).
    assert (Es : s = m ++ t) by (symmetry; apply ztake_zdrop).
    assert (Hm : zlen m = zlen bs) by (apply zlen_ztake; lia).
    rewrite Es in *. rewrite zlen_app in *.
    replace (x ++ v ++ m ++ t) with ((x ++ v) ++ m ++ t) by (rewrite <- !app_assoc; reflexivity).
    rewrite zsplice_app by (rewrite ?zlen_app; lia). unfold view. rewrite <- !app_assoc.
    rewrite !(zdrop_app_eq o) by lia.
    replace ((v ++ bs ++ t) ++ ztake o (x ++ v ++ bs ++ t)) with ((v ++ bs) ++ t ++ ztake o (x ++ v ++ bs ++ t))
      by (rewrite <- !app_assoc; reflexivity).
    rewrite <- (app_assoc v (m ++ t)). rewrite !ztake_app_eq by (rewrite ?zlen_app; lia). reflexivity.
Qed.

(** * The specification *)

Record half := {
  cap : Z;          (* how many bytes it can hold *)
  queue : list Z;   (* written here and not yet read at the other end *)
  shut : bool;      (* no more writing *)
  want : Z;         (* what the other end asked for in vain *)
  fl : Z;           (* the flags of this end *)
  nread : Z;        (* bytes read here *)
  nwritten : Z      (* bytes written here *)
}.

Definition with_queue v h := {| cap := cap h; queue := v; shut := shut h; want := want h; fl := fl h; nread := nread h; nwritten := nwritten h |}.
Definition with_shut v h := {| cap := cap h; queue := queue h; shut := v; want := want h; fl := fl h; nread := nread h; nwritten := nwritten h |}.
Definition with_want v h := {| cap := cap h; queue := queue h; shut := shut h; want := v; fl := fl h; nread := nread h; nwritten := nwritten h |}.
Definition with_fl v h := {| cap := cap h; queue := queue h; shut := shut h; want := want h; fl := v; nread := nread h; nwritten := nwritten h |}.
Definition more_read n h := {| cap := cap h; queue := queue h; shut := shut h; want := want h; fl := fl h; nread := u64 (nread h + n); nwritten := nwritten h |}.
Definition more_written n h := {| cap := cap h; queue := queue h; shut := shut h; want := want h; fl := fl h; nread := nread h; nwritten := u64 (nwritten h + n) |}.

Definition retry_read : Z := 9.
Definition retry_write : Z := 10.

(** As many bytes as there is room for; none and a retry when there is no room;
    an error after a shutdown. *)
Definition half_write (bs : list Z) (me : half) : Z * half :=
  if zlen bs =? 0 then (0, me)
  else
    let me := with_want 0 (with_fl 0 me) in
    if shut me then (-1, me)
    else if zlen (queue me) =? cap me then (-1, with_fl retry_write me)
    else let n := Z.min (zlen bs) (cap me - zlen (queue me)) in
         (n, more_written n (with_queue (queue me ++ ztake n bs) me)).

(** As many bytes as there are; with none, the end of the stream after a shutdown,
    and otherwise a retry that lets the other end know. *)
Definition half_read (n : Z) (me other : half) : Z * list Z * half * half :=
  if n <=? 0 then (0, [], me, other)
  else
    let me := with_fl 0 me in
    let other := with_want 0 other in
    if zlen (queue other) =? 0 then
      if shut other then (0, [], me, other)
      else (-1, [], with_fl retry_read me, with_want (Z.min n (cap other)) other)
    else
      let k := Z.min n (zlen (queue other)) in
      (k, ztake k (queue other), more_read k me, with_queue (zdrop k (queue other)) other).

(** The ring buffer [p] holds the queue of [h]; what the comments in [bio_bio_st]
    say about its fields. *)
Record ring (p : bio_bio_st) (h : half) : Prop := {
  r_closed : closed p = if shut h then 1 else 0;
  r_size : bsize p = cap h;
  r_cap : 0 < cap h < 2 ^ 63;
  r_len : len p = zlen (queue h);
  r_fits : zlen (queue h) <= cap h;
  r_offset : 0 <= offset p < cap h;
  r_empty : len p = 0 -> offset p = 0;
  r_block : exists blk, buf p = Some {| block := blk; at_ := 0 |} /\ zlen blk = cap h /\
              view blk (offset p) (len p) = queue h;
  r_want : request p = want h;
  r_asked : 0 <= want h <= cap h;
  r_quiet : len p <> 0 -> want h = 0
}.

(** * Two ends in the store *)

Section Two.
Context `{Malloc} `{Debug} `{Placement}.
Variables (a b pa pb : Z) (w0 : world).
Hypothesis Hab : a <> b.
Hypothesis Hp : pa <> pb.

Definition two (A B : BIO) (p q : bio_bio_st) : world :=
  {| bios := <[a := A]> (<[b := B]> (bios w0)); pairs := <[pa := p]> (<[pb := q]> (pairs w0));
     bufs := bufs w0; mem := mem w0 |}.

Lemma assert_ok {A} (c : bool) (k : unit -> M world A) w : c = true -> bind (assert_ c) k w = k tt w.
Proof. intros ->. unfold assert_. destruct NDEBUG; reflexivity. Qed.

Lemma try_ok {A B} (x : A) (k : A -> M world B) w : bind (try (Some x)) k w = k x w.
Proof. reflexivity. Qed.

Lemma ret_ok {A B} (x : A) (k : A -> M world B) w : bind (ret x) k w = k x w.
Proof. reflexivity. Qed.

Context {T : Type}.
Implicit Type k : BIO -> M world T.

Lemma at_a k A B p q : bind (bio_at a) k (two A B p q) = k A (two A B p q).
Proof. unfold bind, bio_at, two. cbn [bios]. rewrite lookup_insert_eq. reflexivity. Qed.

Lemma at_b k A B p q : bind (bio_at b) k (two A B p q) = k B (two A B p q).
Proof. unfold bind, bio_at, two. cbn [bios]. rewrite lookup_insert_ne, lookup_insert_eq by auto. reflexivity. Qed.

Lemma change_a f (k : unit -> M world T) A B p q :
  bind (change_bio f a) k (two A B p q) = k tt (two (f A) B p q).
Proof.
  unfold change_bio. rewrite bind_bind, at_a. unfold bind, put_bio, two, with_bios. cbn. rewrite insert_insert_eq. reflexivity.
Qed.

Lemma change_b f (k : unit -> M world T) A B p q :
  bind (change_bio f b) k (two A B p q) = k tt (two A (f B) p q).
Proof.
  unfold change_bio. rewrite bind_bind, at_b. unfold bind, put_bio, two, with_bios. cbn.
  rewrite (insert_insert_ne _ b a) by auto. rewrite insert_insert_eq. rewrite (insert_insert_ne _ a b) by auto.  reflexivity.
Qed.

Lemma put_a_ B' (k : unit -> M world T) A B p q : bind (put_bio a B') k (two A B p q) = k tt (two B' B p q).
Proof. unfold bind, put_bio, two, with_bios. cbn. rewrite insert_insert_eq. reflexivity. Qed.

Lemma at_pa (k : bio_bio_st -> M world T) A B p q : bind (pair_at pa) k (two A B p q) = k p (two A B p q).
Proof. unfold bind, pair_at, two. cbn [pairs]. rewrite lookup_insert_eq. reflexivity. Qed.

Lemma at_pb (k : bio_bio_st -> M world T) A B p q : bind (pair_at pb) k (two A B p q) = k q (two A B p q).
Proof. unfold bind, pair_at, two. cbn [pairs]. rewrite lookup_insert_ne, lookup_insert_eq by auto. reflexivity. Qed.

Lemma put_pa p' (k : unit -> M world T) A B p q : bind (put_pair pa p') k (two A B p q) = k tt (two A B p' q).
Proof. unfold bind, put_pair, two, with_pairs. cbn. rewrite insert_insert_eq. reflexivity. Qed.

Lemma put_pb q' (k : unit -> M world T) A B p q : bind (put_pair pb q') k (two A B p q) = k tt (two A B p q').
Proof.
  unfold bind, put_pair, two, with_pairs. cbn. rewrite (insert_insert_ne _ pb pa) by auto. rewrite insert_insert_eq.
  reflexivity.
Qed.

Lemma change_pa f (k : unit -> M world T) A B p q : bind (change_pair f pa) k (two A B p q) = k tt (two A B (f p) q).
Proof.
  unfold change_pair. rewrite bind_bind. unfold bind at 1, pair_at, two. cbn [pairs]. rewrite lookup_insert_eq.
  apply put_pa.
Qed.

Lemma change_pb f (k : unit -> M world T) A B p q : bind (change_pair f pb) k (two A B p q) = k tt (two A B p (f q)).
Proof.
  unfold change_pair. rewrite bind_bind. unfold bind at 1, pair_at, two. cbn [pairs].
  rewrite lookup_insert_ne, lookup_insert_eq by auto. apply put_pb.
Qed.
End Two.

Lemma two_swap `{Malloc} a b pa pb w0 A B p q :
  a <> b -> pa <> pb -> two a b pa pb w0 A B p q = two b a pb pa w0 B A q p.
Proof.
  intros Hab Hp. unfold two. rewrite (insert_insert_ne _ a b) by auto. rewrite (insert_insert_ne _ pa pb) by auto. reflexivity.
Qed.

(** Decides the comparisons of constants. *)
Ltac consts :=
  repeat match goal with
  | |- context [Z.eqb ?x ?y] =>
    let v := eval vm_compute in (Z.eqb x y) in
    match v with true => change (Z.eqb x y) with true | false => change (Z.eqb x y) with false end
  end; cbv match.

(** Runs the accesses to the two ends. *)
Ltac ends :=
  repeat first [ rewrite at_a | rewrite at_b by assumption | rewrite change_a | rewrite change_b by assumption
               | rewrite put_a_ | rewrite at_pa | rewrite at_pb by assumption | rewrite put_pa
               | rewrite put_pb by assumption | rewrite change_pa | rewrite change_pb by assumption
               | rewrite bind_bind | rewrite try_ok | rewrite ret_ok ].

(** * Reading and writing the ring *)

Section Loops.
Context `{Malloc} `{Debug} `{Placement}.
Variables (a b pa pb : Z) (w0 : world).
Hypothesis Hab : a <> b.
Hypothesis Hp : pa <> pb.
Abbreviation two := (two a b pa pb w0).

Lemma load_block blk i n :
  0 <= i -> 0 < n -> i + n <= zlen blk -> load (Some {| block := blk; at_ := 0 |}) i n = Some (zsub i n blk).
Proof.
  intros Hi Hn Hl. unfold load. destruct (Z.eqb_spec n 0); [lia|]. cbn [mbind option_bind at_ block].
  rewrite Z.add_0_l. destruct (Z.leb_spec 0 i); [|lia]. destruct (Z.leb_spec (i + n) (zlen blk)); [|lia]. reflexivity.
Qed.

Lemma store_block blk i bs :
  0 <= i -> 0 < zlen bs -> i + zlen bs <= zlen blk ->
  store (Some {| block := blk; at_ := 0 |}) i bs = Some (Some {| block := zsplice i bs blk; at_ := 0 |}).
Proof.
  intros Hi Hn Hl. unfold store. destruct (Z.eqb_spec (zlen bs) 0); [lia|]. cbn [mbind option_bind at_ block].
  rewrite Z.add_0_l. destruct (Z.leb_spec 0 i); [|lia]. destruct (Z.leb_spec (i + zlen bs) (zlen blk)); [|lia]. reflexivity.
Qed.

(** One round: up to the end of the block at most. *)
Lemma read_round fuel rest got A B p q h blk :
  ring q h -> buf q = Some {| block := blk; at_ := 0 |} -> zlen blk = cap h -> 0 < rest <= zlen (queue h) ->
  let chunk := Z.min rest (cap h - offset q) in
  let q' := set_ring (len q - chunk) (if len q - chunk =? 0 then 0 else wrap (offset q + chunk) (cap h)) q in
  read_loop (S fuel) pb rest got (two A B p q) =
    if rest - chunk =? 0 then (Some (got ++ ztake chunk (queue h)), two A B p q')
    else read_loop fuel pb (rest - chunk) (got ++ ztake chunk (queue h)) (two A B p q').
Proof.
  intros [Rc Rs Rcap Rl Rf Ro Re (blk' & Rb & Rz & Rv) Rw Ra Rq] Eb Ez Hr chunk q'. rewrite Eb in Rb. injection Rb as <-.
  assert (Hc : 0 < chunk <= rest /\ offset q + chunk <= cap h) by (unfold chunk; lia).
  cbn [read_loop]. ends. rewrite Rs, Rl, Eb. rewrite assert_ok by (apply Z.leb_le; lia).
  assert (Ech : (if u64 (offset q + rest) <=? cap h then rest else u64 (cap h - offset q)) = chunk).
  { rewrite !u64_small by lia. unfold chunk. destruct (Z.leb_spec (offset q + rest) (cap h)); lia. }
  rewrite Ech, (u64_small (offset q + chunk)) by lia. rewrite assert_ok by (apply Z.leb_le; lia).
  rewrite load_block by lia. rewrite try_ok. rewrite !u64_small by lia.
  assert (Ev : zsub (offset q) chunk blk = ztake chunk (queue h)) by (rewrite <- Rv; symmetry; apply view_first; lia).
  rewrite Ev. unfold q'. rewrite Rl. destruct (Z.eqb_spec (zlen (queue h) - chunk) 0) as [E|E]; cbn [negb].
  - rewrite bind_bind. rewrite assert_ok by (apply Z.eqb_eq; lia). ends. destruct (rest - chunk =? 0); reflexivity.
  - rewrite bind_bind. rewrite assert_ok by (apply Z.leb_le; lia). ends. unfold wrap. destruct (rest - chunk =? 0); reflexivity.
Qed.

(** What a round leaves. *)
Lemma ring_read q h blk k :
  ring q h -> want h = 0 -> buf q = Some {| block := blk; at_ := 0 |} -> zlen blk = cap h ->
  0 < k <= zlen (queue h) -> offset q + k <= cap h ->
  ring (set_ring (len q - k) (if len q - k =? 0 then 0 else wrap (offset q + k) (cap h)) q)
       (with_queue (zdrop k (queue h)) h).
Proof.
  intros [Rc Rs Rcap Rl Rf Ro Re (blk' & Rb & Rz & Rv) Rw Ra Rq] Hw Eb Ez Hk Hok. rewrite Eb in Rb. injection Rb as <-.
  assert (Hd : zlen (zdrop k (queue h)) = zlen (queue h) - k) by (apply zlen_zdrop; lia).
  constructor; cbn; auto; try lia.
  - destruct (_ =? 0); [lia|]. unfold wrap. destruct (Z.eqb_spec (offset q + k) (cap h)); lia.
  - intros E. rewrite (proj2 (Z.eqb_eq _ 0) E). reflexivity.
  - exists blk. split_and!; auto. destruct (Z.eqb_spec (len q - k) 0) as [E|E].
    + rewrite E. unfold view, ztake at 1. cbn [Z.to_nat take]. symmetry. apply zlen_0. lia.
    + rewrite <- Rv, <- Ez. symmetry. apply view_rest; lia.
Qed.

(** Two rounds are enough, as the code says. *)
Lemma read_loop_spec rest A B p q h :
  ring q h -> want h = 0 -> 0 < rest <= zlen (queue h) ->
  exists q', read_loop 2 pb rest [] (two A B p q) = (Some (ztake rest (queue h)), two A B p q') /\
    ring q' (with_queue (zdrop rest (queue h)) h) /\ peer q' = peer q.
Proof.
  intros R Hw Hr. pose proof R as [Rc Rs Rcap Rl Rf Ro Re (blk & Rb & Rz & Rv) Rw Ra Rq].
  rewrite (read_round 1 rest [] A B p q h blk) by auto. cbn zeta.
  set (k := Z.min rest (cap h - offset q)). assert (Hk : 0 < k <= rest /\ offset q + k <= cap h) by (unfold k; lia).
  pose proof (ring_read q h blk k R Hw Rb Rz) as R1. specialize (R1 ltac:(lia) ltac:(lia)).
  set (q1 := set_ring _ _ q) in *. destruct (Z.eqb_spec (rest - k) 0) as [E|E].
  { exists q1. replace rest with k by lia. auto. }
  assert (Hlen : zlen (queue (with_queue (zdrop k (queue h)) h)) = zlen (queue h) - k) by (apply zlen_zdrop; lia).
  assert (Ho : offset q1 = 0).
  { unfold q1. cbn. destruct (_ =? 0); [reflexivity|]. unfold wrap. destruct (Z.eqb_spec (offset q + k) (cap h)); lia. }
  rewrite (read_round 0 (rest - k) _ A B p q1 (with_queue (zdrop k (queue h)) h) blk) by (auto; lia). cbn zeta.
  cbn [cap with_queue]. rewrite Ho. rewrite Z.sub_0_r. rewrite (Z.min_l (rest - k)) by lia.
  rewrite Z.sub_diag. cbn [Z.eqb]. eexists. split; [|split].
  - f_equal. f_equal. cbn [queue with_queue app]. unfold ztake, zdrop. 
    replace (Z.to_nat rest) with (Z.to_nat k + Z.to_nat (rest - k))%nat by lia. rewrite take_drop_commute.
    transitivity (take (Z.to_nat k) (take (Z.to_nat k + Z.to_nat (rest - k)) (queue h)) ++
                  drop (Z.to_nat k) (take (Z.to_nat k + Z.to_nat (rest - k)) (queue h))); [|apply take_drop].
    rewrite take_take. do 2 f_equal. lia.
  - pose proof (ring_read q1 (with_queue (zdrop k (queue h)) h) blk (rest - k) R1 Hw Rb Rz) as R2.
    rewrite Ho in R2. specialize (R2 ltac:(lia) ltac:(cbn [cap with_queue]; lia)). cbn [queue with_queue] in R2. rewrite zdrop_zdrop in R2 by lia.
    replace (k + (rest - k)) with rest in R2 by lia. exact R2.
  - reflexivity.
Qed.

(** The first free place. *)
Definition tail_of (p : bio_bio_st) (n : Z) : Z :=
  if n <=? offset p + len p then offset p + len p - n else offset p + len p.

Definition stored (i : Z) (bs blk : list Z) (p : bio_bio_st) : bio_bio_st :=
  set_ring (len p + zlen bs) (offset p) (set_buf (bsize p) (Some {| block := zsplice i bs blk; at_ := 0 |}) p).

Lemma write_round fuel rest bs A B p q h blk :
  ring p h -> buf p = Some {| block := blk; at_ := 0 |} -> zlen blk = cap h ->
  0 < rest <= zlen bs -> rest <= cap h - zlen (queue h) ->
  let chunk := Z.min rest (cap h - tail_of p (cap h)) in
  let p' := stored (tail_of p (cap h)) (ztake chunk bs) blk p in
  write_loop (S fuel) pa rest bs (two A B p q) =
    if rest - chunk =? 0 then (Some tt, two A B p' q) else write_loop fuel pa (rest - chunk) (zdrop chunk bs) (two A B p' q).
Proof.
  intros [Rc Rs Rcap Rl Rf Ro Re (blk' & Rb & Rz & Rv) Rw Ra Rq] Eb Ez Hr Hfit chunk p'.
  pose proof (zlen_nonneg (queue h)) as Hq0.
  assert (Ht : 0 <= tail_of p (cap h) < cap h) by (unfold tail_of; destruct (Z.leb_spec (cap h) (offset p + len p)); lia).
  assert (Hc : 0 < chunk <= rest /\ tail_of p (cap h) + chunk <= cap h) by (unfold chunk; lia).
  assert (Hl : zlen (ztake chunk bs) = chunk) by (apply zlen_ztake; lia).
  cbn [write_loop]. ends. rewrite (u64_small (len p + rest)), (u64_small (offset p + len p)), Rs, Rl by lia.
  rewrite assert_ok by (apply Z.leb_le; lia).
  assert (Ew : (if cap h <=? offset p + zlen (queue h) then u64 (offset p + zlen (queue h) - cap h)
                else offset p + zlen (queue h)) = tail_of p (cap h)).
  { unfold tail_of. rewrite Rl. destruct (Z.leb_spec (cap h) (offset p + zlen (queue h))); [|reflexivity]. apply u64_small. lia. }
  rewrite Ew. assert (Ech : (if u64 (tail_of p (cap h) + rest) <=? cap h then rest else u64 (cap h - tail_of p (cap h))) = chunk).
  { rewrite !u64_small by lia. unfold chunk. destruct (Z.leb_spec (tail_of p (cap h) + rest) (cap h)); lia. }
  rewrite Ech, Eb, store_block by lia. rewrite try_ok. rewrite !u64_small by lia. ends.
  rewrite assert_ok by (apply Z.leb_le; lia). unfold p', stored. rewrite Hl, Rs, Rl. destruct (rest - chunk =? 0); reflexivity.
Qed.

Lemma ring_write p h blk bs :
  ring p h -> want h = 0 -> buf p = Some {| block := blk; at_ := 0 |} -> zlen blk = cap h ->
  zlen bs <= cap h - zlen (queue h) -> tail_of p (cap h) + zlen bs <= cap h ->
  0 < zlen bs -> ring (stored (tail_of p (cap h)) bs blk p) (with_queue (queue h ++ bs) h).
Proof.
  intros [Rc Rs Rcap Rl Rf Ro Re (blk' & Rb & Rz & Rv) Rw Ra Rq] Hw Eb Ez Hfit Ht Hbs. rewrite Eb in Rb. injection Rb as <-.
  pose proof (zlen_nonneg (queue h)) as Hq0.
  assert (H0t : 0 <= tail_of p (cap h)) by (unfold tail_of; destruct (Z.leb_spec (cap h) (offset p + len p)); lia).
  constructor; cbn; rewrite ?zlen_app; auto; try lia.
  eexists. split; [reflexivity|]. rewrite zlen_zsplice by lia. split; [exact Ez|].
  rewrite view_store; [rewrite Rv; reflexivity|lia..| |lia].
  unfold tail_of. rewrite Ez. reflexivity.
Qed.

Lemma write_loop_spec rest bs A B p q h :
  ring p h -> want h = 0 -> 0 < rest <= zlen bs -> rest <= cap h - zlen (queue h) ->
  exists p', write_loop 2 pa rest bs (two A B p q) = (Some tt, two A B p' q) /\
    ring p' (with_queue (queue h ++ ztake rest bs) h) /\ peer p' = peer p.
Proof.
  intros R Hw Hr Hfit. pose proof R as [Rc Rs Rcap Rl Rf Ro Re (blk & Rb & Rz & Rv) Rw Ra Rq].
  pose proof (zlen_nonneg (queue h)) as Hq0.
  rewrite (write_round 1 rest bs A B p q h blk) by auto. cbn zeta. set (k := Z.min rest (cap h - tail_of p (cap h))).
  assert (Ht : 0 <= tail_of p (cap h) < cap h) by (unfold tail_of; destruct (Z.leb_spec (cap h) (offset p + len p)); lia).
  assert (Hk : 0 < k <= rest /\ tail_of p (cap h) + k <= cap h) by (unfold k; lia).
  assert (Hl : zlen (ztake k bs) = k) by (apply zlen_ztake; lia).
  pose proof (ring_write p h blk (ztake k bs) R Hw Rb Rz) as R1. specialize (R1 ltac:(lia) ltac:(lia) ltac:(lia)).
  destruct (Z.eqb_spec (rest - k) 0) as [E|E].
  { eexists. split; [reflexivity|]. replace rest with k by lia. auto. }
  set (p1 := stored _ _ blk p) in *. set (blk1 := zsplice (tail_of p (cap h)) (ztake k bs) blk).
  assert (Ez1 : zlen blk1 = cap h) by (unfold blk1; rewrite zlen_zsplice; lia).
  assert (Hd : zlen (zdrop k bs) = zlen bs - k) by (apply zlen_zdrop; lia).
  assert (Hk2 : k = cap h - tail_of p (cap h)) by (unfold k in *; lia). clearbody k.
  assert (Ho : tail_of p1 (cap h) = 0).
  { unfold p1, tail_of, stored. cbn. rewrite Hl, Rl. unfold tail_of in *. rewrite Rl in *.
    destruct (Z.leb_spec (cap h) (offset p + zlen (queue h)));
      destruct (Z.leb_spec (cap h) (offset p + (zlen (queue h) + k))); lia. }
  rewrite (write_round 0 (rest - k) (zdrop k bs) A B p1 q (with_queue (queue h ++ ztake k bs) h) blk1)
    by (auto; cbn [cap queue with_queue]; rewrite ?zlen_app; lia).
  cbn zeta. cbn [cap with_queue]. rewrite Ho, Z.sub_0_r, (Z.min_l (rest - k)) by lia.
  rewrite Z.sub_diag. cbn [Z.eqb]. eexists. split; [reflexivity|].
  assert (Hl2 : zlen (ztake (rest - k) (zdrop k bs)) = rest - k) by (apply zlen_ztake; lia).
  pose proof (ring_write p1 (with_queue (queue h ++ ztake k bs) h) blk1 (ztake (rest - k) (zdrop k bs)) R1 Hw eq_refl Ez1) as R2.
  cbn [cap queue with_queue] in R2. rewrite Ho in R2. rewrite zlen_app in R2. specialize (R2 ltac:(lia) ltac:(lia) ltac:(lia)).
  split; [|reflexivity]. rewrite <- app_assoc in R2.
  replace (ztake k bs ++ ztake (rest - k) (zdrop k bs)) with (ztake rest bs) in R2; [exact R2|].
  rewrite <- (ztake_zdrop k (ztake rest bs)). rewrite ztake_ztake by lia. rewrite zdrop_ztake by lia. reflexivity.
Qed.
End Loops.

(** * The two ends of a pair *)

Record is_end `{Malloc} (w0 : world) (a pa : Z) (A : BIO) (h : half) : Prop := {
  e_addr : a <> 0 /\ bios w0 !! a = None;
  e_priv : pa <> 0 /\ pairs w0 !! pa = None;
  e_method : method A = methods_biop;
  e_init : init A = 1;
  e_refs : references A = 1;
  e_next : next_bio A = 0;
  e_ptr : ptr A = pa;
  e_flags : flags A = fl h;
  e_fl : fl h = 0 \/ fl h = retry_read \/ fl h = retry_write;
  e_read : num_read A = nread h;
  e_written : num_write A = nwritten h
}.

(** In [w], [a] and [b] are the ends of a pair, next to what there was in [w0]. *)
Definition paired `{Malloc} (w0 : world) (a b : Z) (ha hb : half) (w : world) : Prop :=
  exists pa pb A B p q, w = two a b pa pb w0 A B p q /\ a <> b /\ pa <> pb /\
    is_end w0 a pa A ha /\ is_end w0 b pb B hb /\ ring p ha /\ ring q hb /\ peer p = b /\ peer q = a.

Lemma paired_swap `{Malloc} w0 a b ha hb w : paired w0 a b ha hb w -> paired w0 b a hb ha w.
Proof.
  intros (pa & pb & A & B & p & q & -> & Hab & Hp & HA & HB & Rp & Rq & Pp & Pq).
  exists pb, pa, B, A, q, p. rewrite (two_swap a b) by assumption. split_and!; auto.
Qed.

Lemma clear_flags x : x = 0 \/ x = retry_read \/ x = retry_write -> Z.land x (Z.lnot kRetryFlags) = 0.
Proof. intros [->|[->| ->]]; reflexivity. Qed.

(** A ring does not depend on the flags and counters of its end. *)
Lemma ring_ext p h h' :
  ring p h -> cap h' = cap h -> queue h' = queue h -> shut h' = shut h -> want h' = want h -> ring p h'.
Proof. intros [] E1 E2 E3 E4. constructor; rewrite ?E1, ?E2, ?E3, ?E4; assumption. Qed.

Lemma ring_request p h v :
  ring p h -> 0 <= v <= cap h -> (zlen (queue h) <> 0 -> v = 0) -> ring (set_request v p) (with_want v h).
Proof. intros [] Hv H0. constructor; cbn; auto. rewrite r_len0. exact H0. Qed.

Section Ops.
Context `{Malloc} `{Debug} `{Placement}.

(** The object after its retry flags have been set to [v]. *)
Definition reflagged (v : Z) (A : BIO) : BIO := set_retry_reason 0 (set_flags v A).

Lemma clear_retry a b pa pb w0 A B p q {T} (k : unit -> M world T) h :
  flags A = fl h -> fl h = 0 \/ fl h = retry_read \/ fl h = retry_write ->
  bind (BIO_clear_retry_flags a) k (two a b pa pb w0 A B p q) = k tt (two a b pa pb w0 (reflagged 0 A) B p q).
Proof. intros E Hf. unfold BIO_clear_retry_flags. rewrite change_a, E, clear_flags by exact Hf. reflexivity. Qed.

Lemma bio_write_spec a b pa pb w0 A B p q h bs :
  a <> b -> pa <> pb -> ptr A = pa -> init A = 1 -> flags A = fl h ->
  fl h = 0 \/ fl h = retry_read \/ fl h = retry_write -> peer p <> 0 -> ring p h -> 0 < zlen bs <= INT_MAX ->
  let '(r, h') := half_write bs h in
  exists p', bio_write a (Some bs) (zlen bs) (two a b pa pb w0 A B p q) =
      (Some r, two a b pa pb w0 (reflagged (fl h') A) B p' q) /\ ring p' h' /\ peer p' = peer p.
Proof.
  intros Hab Hp Ep Ei Ef Hf Hpeer R Hbs. pose proof R as [Rc Rs Rcap Rl Rf Ro Re (blk & Rb & Rz & Rv) Rw Ra Rq].
  pose proof (zlen_nonneg (queue h)) as Hq0. unfold INT_MAX in Hbs.
  unfold half_write. rewrite (proj2 (Z.eqb_neq (zlen bs) 0)) by lia. cbn zeta. cbn [shut queue cap with_want with_fl].
  unfold bio_write. rewrite u64_small by lia. rewrite (clear_retry a b pa pb w0 A B p q _ h) by auto. ends.
  cbn [reflagged init set_retry_reason set_flags ptr]. rewrite Ei, Ep. rewrite (proj2 (Z.eqb_neq (zlen bs) 0)) by lia.
  cbn [orb Z.eqb]. ends. rewrite assert_ok by (apply negb_true_iff, Z.eqb_neq; exact Hpeer). rewrite Rb, assert_ok by reflexivity.
  ends. rewrite Rc. assert (R0 : ring (set_request 0 p) (with_want 0 h)) by (apply ring_request; auto; lia).
  assert (R1 : ring (set_request 0 p) (with_want 0 (with_fl 0 h))) by (eapply ring_ext; [exact R0|reflexivity..]).
  destruct (shut h); cbn [negb Z.eqb].
  { eexists. split; [reflexivity|]. auto. }
  rewrite assert_ok by (apply Z.leb_le; lia). rewrite Rl, Rs.
  destruct (Z.eqb_spec (zlen (queue h)) (cap h)) as [Efull|Efull].
  { unfold BIO_set_retry_write, BIO_set_flags. ends. eexists. split; [reflexivity|]. split; [|reflexivity].
    eapply ring_ext; [exact R0|reflexivity..]. }
  rewrite (u64_small (cap h - _)) by lia.
  set (n := if cap h - zlen (queue h) <? zlen bs then cap h - zlen (queue h) else zlen bs).
  assert (En : n = Z.min (zlen bs) (cap h - zlen (queue h)))
    by (unfold n; destruct (Z.ltb_spec (cap h - zlen (queue h)) (zlen bs)); lia).
  rewrite assert_ok by (apply Z.ltb_lt; lia).
  destruct (write_loop_spec a b pa pb w0 n bs (reflagged 0 A) B (set_request 0 p) q (with_want 0 (with_fl 0 h)))
    as (p' & Ew & R' & Pp'); [exact R1|reflexivity|lia|cbn; lia|].
  unfold bind. rewrite Ew. unfold ret. rewrite s32_small by lia. rewrite <- En. exists p'. split; [reflexivity|].
  split; [|exact Pp']. eapply ring_ext; [exact R'|reflexivity..].
Qed.

Lemma bio_read_spec a b pa pb w0 A B p q h h2 n :
  a <> b -> pa <> pb -> ptr A = pa -> ptr B = pb -> init A = 1 -> flags A = fl h ->
  fl h = 0 \/ fl h = retry_read \/ fl h = retry_write -> peer p = b -> b <> 0 -> ring q h2 -> 0 < n <= INT_MAX ->
  let '(r, bs, h', h2') := half_read n h h2 in
  exists q', bio_read a true n (two a b pa pb w0 A B p q) =
      (Some (r, bs), two a b pa pb w0 (reflagged (fl h') A) B p q') /\ ring q' h2' /\ peer q' = peer q.
Proof.
  intros Hab Hp Ep Epb Ei Ef Hf Hpeer Hb R Hn. pose proof R as [Rc Rs Rcap Rl Rf Ro Re (blk & Rb & Rz & Rv) Rw Ra Rq].
  pose proof (zlen_nonneg (queue h2)) as Hq0. unfold INT_MAX in Hn.
  unfold half_read. rewrite (proj2 (Z.leb_gt n 0)) by lia. cbn zeta. cbn [shut queue cap with_want with_fl].
  unfold bio_read. rewrite u64_small by lia. rewrite (clear_retry a b pa pb w0 A B p q _ h) by auto. ends.
  cbn [reflagged init set_retry_reason set_flags ptr]. rewrite Ei, Ep. cbn [Z.eqb]. ends.
  rewrite Hpeer. rewrite assert_ok by (apply negb_true_iff, Z.eqb_neq; exact Hb). ends. rewrite Epb. ends. rewrite Rb.
  rewrite assert_ok by reflexivity. ends. cbn [negb orb]. rewrite (proj2 (Z.eqb_neq n 0)) by lia.
  assert (R0 : ring (set_request 0 q) (with_want 0 h2)) by (apply ring_request; auto; lia).
  rewrite Rl, Rc. destruct (Z.eqb_spec (zlen (queue h2)) 0) as [E0|E0].
  - destruct (shut h2); cbn [negb Z.eqb].
    { eexists. split; [reflexivity|]. auto. }
    unfold BIO_set_retry_read, BIO_set_flags. ends. rewrite Rs.
    assert (Em : (if n <=? cap h2 then n else cap h2) = Z.min n (cap h2)) by (destruct (Z.leb_spec n (cap h2)); lia).
    rewrite Em. eexists. split; [reflexivity|]. split; [|reflexivity].
    eapply ring_ext; [apply (ring_request _ _ (Z.min n (cap h2)) R0); cbn; lia|reflexivity..].
  - set (k := if zlen (queue h2) <? n then zlen (queue h2) else n).
    assert (Ek : k = Z.min n (zlen (queue h2))) by (unfold k; destruct (Z.ltb_spec (zlen (queue h2)) n); lia).
    rewrite assert_ok by (apply Z.ltb_lt; lia).
    destruct (read_loop_spec a b pa pb w0 Hp k (reflagged 0 A) B p (set_request 0 q) (with_want 0 h2))
      as (q' & Er & R' & Pq'); [exact R0|reflexivity|cbn; lia|].
    unfold bind. rewrite Er. unfold ret. rewrite s32_small by lia. rewrite <- Ek. exists q'. auto.
Qed.

(** The two ends after an operation on the first. *)
Lemma paired_after w0 a b pa pb A B p q ha hb A' p' q' ha' hb' :
  a <> b -> pa <> pb -> is_end w0 a pa A ha -> is_end w0 b pb B hb -> peer p = b -> peer q = a ->
  ring p' ha' -> ring q' hb' -> peer p' = peer p -> peer q' = peer q -> fl hb' = fl hb ->
  nread hb' = nread hb -> nwritten hb' = nwritten hb -> is_end w0 a pa A' ha' ->
  paired w0 a b ha' hb' (two a b pa pb w0 A' B p' q').
Proof.
  intros Hab Hp HA HB Pp Pq Rp Rq Pp' Pq' E1 E2 E3 HA'. exists pa, pb, A', B, p', q'.
  split_and!; try assumption; try congruence. destruct HB. constructor; try congruence; rewrite ?E1; assumption.
Qed.

(** Half operations as computations. *)
Inductive pair_op :=
  | Write (bs : list Z) | Read (n : Z) | Shutdown | Pending | WPending | ReadRequest | WriteGuarantee
  | ResetReadRequest | RetryFlags | NumberRead | NumberWritten.

Definition run_op (bio : Z) (op : pair_op) : M world (Z * list Z) :=
  let only (m : M world Z) := let* r := m in ret (r, []) in
  match op with
  | Write bs => only (BIO_write bio (Some bs) (zlen bs))
  | Read n => BIO_read bio true n
  | Shutdown => only (BIO_shutdown_wr bio)
  | Pending => only (BIO_pending bio)
  | WPending => only (BIO_wpending bio)
  | ReadRequest => only (BIO_ctrl_get_read_request bio)
  | WriteGuarantee => only (BIO_ctrl_get_write_guarantee bio)
  | ResetReadRequest => only (ctrl_result bio BIO_C_RESET_READ_REQUEST 0 0)
  | RetryFlags => only (BIO_get_retry_flags bio)
  | NumberRead => only (BIO_number_read bio)
  | NumberWritten => only (BIO_number_written bio)
  end.

Definition op_spec (op : pair_op) (me other : half) : (Z * list Z) * half * half :=
  match op with
  | Write bs => let '(r, me) := half_write bs me in (r, [], me, other)
  | Read n => half_read n me other
  | Shutdown => (1, [], with_shut true me, other)
  | Pending => (zlen (queue other), [], me, other)
  | WPending => (zlen (queue me), [], me, other)
  | ReadRequest => (want me, [], me, other)
  | WriteGuarantee => (if shut me then 0 else cap me - zlen (queue me), [], me, other)
  | ResetReadRequest => (1, [], with_want 0 me, other)
  | RetryFlags => (fl me, [], me, other)
  | NumberRead => (nread me, [], me, other)
  | NumberWritten => (nwritten me, [], me, other)
  end.

(** An [int] argument. *)
Definition op_ok (op : pair_op) : Prop :=
  match op with Write bs => zlen bs <= INT_MAX | Read n => n <= INT_MAX | _ => True end.

(** The operation does to the store and returns what it does to the two halves. *)
Definition does (op : pair_op) (w0 : world) (a b : Z) (ha hb : half) (w : world) : Prop :=
  let '(r, ha', hb') := op_spec op ha hb in exists w', run_op a op w = (Some r, w') /\ paired w0 a b ha' hb' w'.

Definition fl_ok (h : half) : Prop := fl h = 0 \/ fl h = retry_read \/ fl h = retry_write.

Lemma half_write_counts bs h :
  zlen (queue h) <= cap h -> 0 < zlen bs ->
  let '(r, h') := half_write bs h in
  nread h' = nread h /\ nwritten h' = (if 0 <? r then u64 (nwritten h + r) else nwritten h) /\ (fl_ok h -> fl_ok h').
Proof.
  intros Hc Hbs. unfold half_write, fl_ok. rewrite (proj2 (Z.eqb_neq (zlen bs) 0)) by lia.
  cbn zeta. cbn [shut queue cap with_want with_fl]. destruct (shut h); [cbn; auto|].
  destruct (Z.eqb_spec (zlen (queue h)) (cap h)); [cbn; auto|]. cbn.
  rewrite (proj2 (Z.ltb_lt 0 _)) by lia. auto.
Qed.

Lemma half_read_counts n h h2 :
  0 < n ->
  let '(r, _, h', h2') := half_read n h h2 in
  nwritten h' = nwritten h /\ nread h' = (if 0 <? r then u64 (nread h + r) else nread h) /\ (fl_ok h -> fl_ok h') /\
  fl h2' = fl h2 /\ nread h2' = nread h2 /\ nwritten h2' = nwritten h2.
Proof.
  intros Hn. unfold half_read, fl_ok. rewrite (proj2 (Z.leb_gt n 0)) by lia. pose proof (zlen_nonneg (queue h2)).
  cbn zeta. cbn [shut queue cap with_want with_fl].
  destruct (Z.eqb_spec (zlen (queue h2)) 0); [destruct (shut h2); cbn; auto 10|]. cbn.
  rewrite (proj2 (Z.ltb_lt 0 _)) by lia. auto 10.
Qed.

Lemma does_write bs w0 a b ha hb w : paired w0 a b ha hb w -> zlen bs <= INT_MAX -> does (Write bs) w0 a b ha hb w.
Proof.
  intros (pa & pb & A & B & p & q & -> & Hab & Hp & HA & HB & Rp & Rq & Pp & Pq) Hbs. pose proof (zlen_nonneg bs).
  pose proof HA as [(Ha & Hf) (Hpa & Hg) Em Ei Er En Ep Ef Efl Enr Enw]. pose proof HB as [[Hb _] _ _ _ _ _ _ _ _ _ _].
  unfold does, op_spec, run_op, BIO_write. rewrite (proj2 (Z.eqb_neq a 0)) by auto. ends. rewrite Ei.
  cbn [Z.eqb]. destruct (Z.leb_spec (zlen bs) 0).
  { unfold half_write. replace (zlen bs =? 0) with true by (symmetry; apply Z.eqb_eq; lia).
    eexists. split; [reflexivity|]. exists pa, pb, A, B, p, q. auto 10. }
  rewrite Em. cbn [bwrite]. pose proof (bio_write_spec a b pa pb w0 A B p q ha bs) as Hw.
  pose proof (half_write_counts bs ha (r_fits _ _ Rp)) as Hc. destruct (half_write bs ha) as [r h'] eqn:Eh.
  rewrite Pp in Hw. destruct (Hw Hab Hp Ep Ei Ef Efl Hb Rp ltac:(lia)) as (p' & Ew & R' & Pp').
  destruct Hc as (Hc1 & Hc2 & Hc3); [lia|]. ends. rewrite (bind_Some _ _ _ _ _ Ew).
  destruct (Z.ltb_spec 0 r); ends; (eexists; split; [reflexivity|]); eapply paired_after; eauto; try congruence;
    constructor; cbn; auto; first [exact (Hc3 Efl) | congruence].
Qed.

Lemma does_read n w0 a b ha hb w : paired w0 a b ha hb w -> n <= INT_MAX -> does (Read n) w0 a b ha hb w.
Proof.
  intros (pa & pb & A & B & p & q & -> & Hab & Hp & HA & HB & Rp & Rq & Pp & Pq) Hn.
  pose proof HA as [(Ha & Hf) (Hpa & Hg) Em Ei Er En Ep Ef Efl Enr Enw]. pose proof HB as [[Hb _] _ _ _ _ _ Epb _ _ _ _].
  unfold does, op_spec, run_op, BIO_read. rewrite (proj2 (Z.eqb_neq a 0)) by auto. ends. rewrite Ei.
  cbn [Z.eqb]. destruct (Z.leb_spec n 0).
  { unfold half_read. rewrite (proj2 (Z.leb_le n 0)) by lia.
    eexists. split; [reflexivity|]. exists pa, pb, A, B, p, q. auto 10. }
  rewrite Em. cbn [bread]. pose proof (bio_read_spec a b pa pb w0 A B p q ha hb n) as Hw.
  pose proof (half_read_counts n ha hb) as Hc. destruct (half_read n ha hb) as [[[r bs] h'] h2'] eqn:Eh.
  destruct (Hw Hab Hp Ep Epb Ei Ef Efl Pp Hb Rq ltac:(lia)) as (q' & Ew & R' & Pp').
  destruct Hc as (Hc1 & Hc2 & Hc3 & Hc4 & Hc5 & Hc6); [lia|]. rewrite (bind_Some _ _ _ _ _ Ew).
  assert (Rp' : ring p h').
  { unfold half_read in Eh. rewrite (proj2 (Z.leb_gt n 0)) in Eh by lia. cbn zeta in Eh.
    destruct (zlen _ =? 0); [destruct (shut _)|]; injection Eh as <- <- <- <-; (eapply ring_ext; [exact Rp|reflexivity..]). }
  cbn [fst]. destruct (Z.ltb_spec 0 r); ends; (eexists; split; [reflexivity|]); eapply paired_after; eauto; try congruence;
    constructor; cbn; auto; first [exact (Hc3 Efl) | congruence].
Qed.

(** What reading the state is, on the first end. *)
Lemma ctrl_at a b pa pb w0 A B p q cmd larg parg {T} (k : Z * option out -> M world T) :
  a <> 0 -> method A = methods_biop ->
  bind (BIO_ctrl a cmd larg parg) k (two a b pa pb w0 A B p q) = bind (bio_ctrl a cmd larg parg) k (two a b pa pb w0 A B p q).
Proof. intros Ha Em. unfold BIO_ctrl. rewrite (proj2 (Z.eqb_neq a 0)) by auto. ends. rewrite Em. reflexivity. Qed.

Lemma does_others op w0 a b ha hb w :
  paired w0 a b ha hb w -> (forall bs, op <> Write bs) -> (forall n, op <> Read n) -> does op w0 a b ha hb w.
Proof.
  intros P Hw Hr. pose proof P as (pa & pb & A & B & p & q & -> & Hab & Hp & HA & HB & Rp & Rq & Pp & Pq).
  pose proof HA as [(Ha & Hf) (Hpa & Hg) Em Ei Er En Ep Ef Efl Enr Enw].
  pose proof HB as [[Hb _] _ _ _ _ _ Epb _ _ _ _].
  assert (Es : forall x, 0 <= x < 2 ^ 63 -> s64 x = x)
    by (intros x Hx; unfold s64; destruct (Z.ltb_spec x 9223372036854775808); lia).
  pose proof Rp as [Rc Rs Rcap Rl Rf Ro Re (blk & Rb & Rz & Rv) Rw Ra Rq'].
  pose proof Rq as [Qc Qs Qcap Ql Qf Qo Qe (blk2 & Qb & Qz & Qv) Qw Qa Qq].
  pose proof (zlen_nonneg (queue ha)). pose proof (zlen_nonneg (queue hb)).
  destruct op; try solve [exfalso; eapply Hw; reflexivity|exfalso; eapply Hr; reflexivity]; unfold does, op_spec, run_op;
    unfold BIO_shutdown_wr, BIO_pending, BIO_wpending, BIO_ctrl_get_read_request, BIO_ctrl_get_write_guarantee,
      ctrl_result, BIO_get_retry_flags, BIO_test_flags, BIO_number_read, BIO_number_written; ends;
    [rewrite ctrl_at by auto; unfold bio_ctrl; ends; rewrite Ep; ends; consts; ends..| | |].
  - eexists. split; [reflexivity|]. eapply paired_after; eauto; try congruence; [|constructor; auto].
    constructor; cbn; auto. eexists. eauto.
  - rewrite Pp, (proj2 (Z.eqb_neq b 0)) by auto. ends. rewrite Epb. ends. rewrite Ql, Es by lia. cbn [fst].
    rewrite assert_ok by (apply Z.leb_le; lia). rewrite (proj2 (Z.ltb_ge _ 0)) by lia. exists (two a b pa pb w0 A B p q). auto.
  - rewrite Rb, Rl, Es by lia. cbn [fst].
    rewrite assert_ok by (apply Z.leb_le; lia). rewrite (proj2 (Z.ltb_ge _ 0)) by lia. exists (two a b pa pb w0 A B p q). auto.
  - rewrite Rw, Es by lia. cbn [fst]. rewrite u64_small by lia. exists (two a b pa pb w0 A B p q). auto.
  - rewrite Pp, (proj2 (Z.eqb_neq b 0)), Rc by auto. exists (two a b pa pb w0 A B p q). split; [|exact P].
    destruct (shut ha); cbn [orb negb Z.eqb fst]; [reflexivity|]. rewrite Rs, Rl, (u64_small (cap ha - _)), Es, u64_small by lia. reflexivity.
  - eexists. split; [reflexivity|]. eapply paired_after; eauto; try congruence; [|constructor; auto].
    apply ring_request; auto; lia.
  - rewrite Ef. exists (two a b pa pb w0 A B p q). split; [|exact P]. destruct Efl as [->|[->| ->]]; reflexivity.
  - rewrite Enr. exists (two a b pa pb w0 A B p q). auto.
  - rewrite Enw. exists (two a b pa pb w0 A B p q). auto.
Qed.

Lemma run_op_spec op w0 a b ha hb w : paired w0 a b ha hb w -> op_ok op -> does op w0 a b ha hb w.
Proof.
  intros P Hop. destruct op; try (apply does_others; [exact P|discriminate..]); cbn [op_ok] in Hop.
  - apply does_write; assumption.
  - apply does_read; assumption.
Qed.
End Ops.

(** * Making and freeing a pair *)

Section Lifetime.
Context `{Malloc} `{Debug} `{Placement}.

(** A single object in the store. *)
Definition one (a pa : Z) (w0 : world) (A : BIO) (p : bio_bio_st) : world :=
  {| bios := <[a := A]> (bios w0); pairs := <[pa := p]> (pairs w0); bufs := bufs w0; mem := mem w0 |}.

Lemma two_one a b pa pb w0 A B p q : two a b pa pb w0 A B p q = one a pa (one b pb w0 B q) A p.
Proof. reflexivity. Qed.

Lemma at_one {T} (k : BIO -> M world T) a pa w0 A p : bind (bio_at a) k (one a pa w0 A p) = k A (one a pa w0 A p).
Proof. unfold bind, bio_at, one. cbn [bios]. rewrite lookup_insert_eq. reflexivity. Qed.

Lemma put_one {T} (k : unit -> M world T) a pa w0 A A' p :
  bind (put_bio a A') k (one a pa w0 A p) = k tt (one a pa w0 A' p).
Proof. unfold bind, put_bio, one, with_bios. cbn. rewrite insert_insert_eq. reflexivity. Qed.

Lemma pair_one {T} (k : bio_bio_st -> M world T) a pa w0 A p :
  bind (pair_at pa) k (one a pa w0 A p) = k p (one a pa w0 A p).
Proof. unfold bind, pair_at, one. cbn [pairs]. rewrite lookup_insert_eq. reflexivity. Qed.

(** Freeing both parts. *)
Lemma free_one {T} (k : Z -> M world T) a pa w0 A p :
  bios w0 !! a = None -> pairs w0 !! pa = None ->
  bind (free_pair pa) (fun _ => bind (free_bio a) (fun _ => k 1)) (one a pa w0 A p) = k 1 w0.
Proof.
  intros Hf Hg. unfold free_pair. rewrite bind_bind, pair_one. unfold bind, free_bio, bio_at, with_pairs, with_bios, one. cbn.
  rewrite lookup_insert_eq. cbn. rewrite !delete_insert_id by assumption. destruct w0. reflexivity.
Qed.

(** What an unconnected end must be like for its memory to be found and freed. *)
Definition lone (a pa : Z) (w0 : world) (A : BIO) : Prop :=
  a <> 0 /\ bios w0 !! a = None /\ pa <> 0 /\ pairs w0 !! pa = None /\
  method A = methods_biop /\ references A = 1 /\ next_bio A = 0 /\ ptr A = pa.

(** [BIO_free] of an object that is in no chain and has no other reference. *)
Lemma BIO_free_last a pa w0 A p :
  lone a pa w0 A ->
  BIO_free a (one a pa w0 A p) =
    bind (bio_free a) (fun _ => bind (free_bio a) (fun _ => ret 1)) (one a pa w0 (set_references 0 A) p).
Proof.
  intros (Ha & Hf & Hpa & Hg & Em & Er & En & Ep). unfold BIO_free.
  assert (Hsz : exists n, size (bios (one a pa w0 A p)) = S n).
  { destruct (size (bios (one a pa w0 A p))) eqn:E; [|eauto]. exfalso.
    apply map_size_empty_inv in E. apply (f_equal (fun m => m !! a)) in E. cbn [bios one] in E.
    rewrite lookup_insert_eq, lookup_empty in E. discriminate. }
  destruct Hsz as [n ->]. cbn [free_loop]. rewrite (proj2 (Z.eqb_neq a 0)) by auto.
  unfold BIO_pop. rewrite (proj2 (Z.eqb_neq a 0)) by auto. rewrite at_one, Er.
  change (CRYPTO_refcount_dec_and_test_zero 1) with (Some (true, 0)). rewrite try_ok, put_one. cbn [negb].
  rewrite !bind_bind, at_one, bind_bind, put_one, ret_ok. cbn [next_bio set_references]. rewrite En, Em. cbn [destroy].
  replace (set_next 0 (set_references 0 A)) with (set_references 0 A) by (destruct A; cbn in *; subst; reflexivity).
  apply bind_ext. intros r s. apply bind_ext. intros u s'. destruct n; reflexivity.
Qed.

Lemma BIO_free_lone a pa w0 A p :
  lone a pa w0 A -> peer p = 0 -> BIO_free a (one a pa w0 A p) = (Some 1, w0).
Proof.
  intros L Hpeer. rewrite BIO_free_last by exact L. destruct L as (Ha & Hf & Hpa & Hg & Em & Er & En & Ep).
  unfold bio_free. rewrite bind_bind, at_one. cbn [ptr set_references]. rewrite Ep.
  rewrite bind_bind, assert_ok by (apply negb_true_iff, Z.eqb_neq; exact Hpa). rewrite bind_bind, pair_one, Hpeer.
  cbn [Z.eqb negb]. rewrite bind_bind, ret_ok, bind_bind. rewrite (bind_ext _ _ (fun _ => bind (free_bio a) (fun _ => ret 1)))
    by (intros; reflexivity). rewrite (free_one (fun r => ret r)) by assumption. reflexivity.
Qed.

(** Freeing one end of a pair disconnects the other. *)
Lemma BIO_free_two a b pa pb w0 A B p q :
  a <> b -> pa <> pb -> lone a pa (one b pb w0 B q) A -> ptr B = pb -> pb <> 0 -> b <> 0 ->
  peer p = b -> peer q = a -> (exists x, buf p = Some x) -> (exists x, buf q = Some x) ->
  BIO_free a (two a b pa pb w0 A B p q) = (Some 1, one b pb w0 (set_init 0 B) (set_ring 0 0 (set_peer 0 q))).
Proof.
  intros Hab Hp L Epb Hpb Hb Pp Pq [x Bp] [y Bq]. rewrite two_one, BIO_free_last by exact L. rewrite <- two_one.
  destruct L as (Ha & Hf & Hpa & Hg & Em & Er & En & Ep). unfold bio_free. ends. cbn [ptr set_references]. rewrite Ep.
  rewrite assert_ok by (apply negb_true_iff, Z.eqb_neq; exact Hpa). ends. rewrite Pp, (proj2 (Z.eqb_neq b 0)) by exact Hb.
  cbn [negb]. unfold bio_destroy_pair. ends. cbn [ptr set_references]. rewrite Ep, (proj2 (Z.eqb_neq pa 0)) by exact Hpa. ends.
  rewrite Pp, (proj2 (Z.eqb_neq b 0)) by exact Hb. ends. rewrite Epb.
  rewrite assert_ok by (apply negb_true_iff, Z.eqb_neq; exact Hpb). ends. rewrite assert_ok by (apply Z.eqb_eq; exact Pq).
  ends. rewrite Bq, assert_ok by reflexivity. ends. rewrite Bp, assert_ok by reflexivity. ends.
  rewrite two_one. rewrite (bind_ext _ _ (fun _ => bind (free_bio a) (fun _ => ret 1))) by (intros; reflexivity).
  cbn [bios pairs one] in Hf, Hg. rewrite lookup_insert_ne in Hf by auto. rewrite lookup_insert_ne in Hg by auto.
  rewrite (free_one (fun r => ret r)); [reflexivity|cbn [bios pairs one]; rewrite lookup_insert_ne by auto; assumption..].
Qed.

(** ** Making *)

Definition fresh_bio (pa : Z) : BIO :=
  {| method := methods_biop; init := 0; shutdown := 1; flags := 0; retry_reason := 0; num := 0; references := 1;
     ptr := pa; next_bio := 0; num_read := 0; num_write := 0 |}.

Definition fresh_pair : bio_bio_st :=
  {| peer := 0; closed := 0; len := 0; offset := 0; bsize := 17408; buf := None; request := 0 |}.

(** [BIO_new] makes an object, or leaves the store as it was. *)
Lemma BIO_new_spec w :
  exists h, BIO_new methods_biop w = (Some 0, with_mem h w) /\
      (forall lim, grants lim -> sizeof_BIO + 8 <= lim < 2 ^ 64 -> False) \/
    exists a pa, BIO_new methods_biop w = (Some a, one a pa (with_mem h w) (fresh_bio pa) fresh_pair) /\
      lone a pa (with_mem h w) (fresh_bio pa).
Proof.
  remember (BIO_new methods_biop w) as r eqn:E. unfold BIO_new, malloc_io, bind at 1 in E.
  destruct (OPENSSL_malloc (mem w) sizeof_BIO) as [[blk|] h] eqn:E1.
  2:{ exists h. left. split; [exact E|]. intros lim G Hlim. unfold sizeof_BIO in *.
      destruct (OPENSSL_malloc_grants lim (mem w) 64 G) as (? & ? & Eg & _); [lia..|]. congruence. }
  change (dom (bios (with_mem h w))) with (dom (bios w)) in E.
  destruct (place_free (dom (bios w))) as [Ha Hf]. set (a := place_for (dom (bios w))) in *. apply not_elem_of_dom in Hf.
  cbn [create] in E. unfold bind at 1, put_bio at 1, bio_new, malloc_io in E. rewrite bind_bind in E. unfold bind at 1 in E.
  change (mem (with_bios ?v (with_mem h w))) with h in E. cbn beta in E.
  destruct (OPENSSL_malloc h sizeof_bio_bio_st) as [[blk2|] h2] eqn:E2.
  - destruct (place_free (dom (pairs w))) as [Hpa Hg]. apply not_elem_of_dom in Hg.
    exists h2. right. exists a, (place_for (dom (pairs w))). split; [|unfold lone; cbn; auto 10]. rewrite E. clear E.
    unfold bind, change_bio, bind, put_pair, bio_at, put_bio, ret. cbn -[a]. rewrite lookup_insert_eq. cbn -[a].
    rewrite insert_insert_eq. reflexivity.
  - exists h2. left. split.
    2:{ intros lim G Hlim. unfold sizeof_BIO, sizeof_bio_bio_st in *.
        destruct (OPENSSL_malloc_grants lim h 56 G) as (? & ? & Eg & _); [lia..|]. congruence. }
    rewrite E. cbn -[a]. unfold bind, ret, free_bio, bind, bio_at. cbn -[a]. rewrite lookup_insert_eq. cbn -[a].
    rewrite delete_insert_id by exact Hf. reflexivity.
Qed.

Definition new_half (n : Z) : half :=
  {| cap := if n =? 0 then 17408 else n; queue := []; shut := false; want := 0; fl := 0; nread := 0; nwritten := 0 |}.

(** The ring an end gets. *)
Definition new_ring (n peer_ : Z) (blk : list Z) : bio_bio_st :=
  {| peer := peer_; closed := 0; len := 0; offset := 0; bsize := cap (new_half n);
     buf := Some {| block := blk; at_ := 0 |}; request := 0 |}.

Lemma ring_new n x blk : 0 <= n < 2 ^ 63 -> zlen blk = cap (new_half n) -> ring (new_ring n x blk) (new_half n).
Proof.
  intros Hn Hb. assert (0 < cap (new_half n) < 2 ^ 63) by (cbn; destruct (Z.eqb_spec n 0); lia).
  constructor; cbn [closed len bsize offset buf request new_ring shut queue want new_half]; change (zlen (@nil Z)) with 0; auto; try lia.
  exists blk. split_and!; auto. 
Qed.

Lemma malloc_two {T} (k : option (list Z) -> M world T) n a b pa pb w0 A B p q :
  bind (malloc_io n) k (two a b pa pb w0 A B p q) =
  let '(r, h) := OPENSSL_malloc (mem w0) n in k r (two a b pa pb (with_mem h w0) A B p q).
Proof. unfold bind, malloc_io. cbn [mem two]. destruct (OPENSSL_malloc (mem w0) n). reflexivity. Qed.

Definition room (n : Z) : Z := cap (new_half n).

Lemma bio_make_pair_spec a b pa pb w0 n1 n2 :
  a <> b -> pa <> pb -> 0 <= n1 < 2 ^ 63 -> 0 <= n2 < 2 ^ 63 ->
  exists h, let W := two a b pa pb (with_mem h w0) in
    let run := bio_make_pair a b n1 n2 (two a b pa pb w0 (fresh_bio pa) (fresh_bio pb) fresh_pair fresh_pair) in
    ((exists blk1 blk2, zlen blk1 = room n1 /\ zlen blk2 = room n2 /\
       run = (Some 1, W (set_init 1 (fresh_bio pa)) (set_init 1 (fresh_bio pb)) (new_ring n1 b blk1) (new_ring n2 a blk2))) \/
     (exists p q, peer p = 0 /\ peer q = 0 /\ run = (Some 0, W (fresh_bio pa) (fresh_bio pb) p q) /\
       forall lim, grants lim -> Z.max (room n1) (room n2) + 8 <= lim < 2 ^ 64 -> False)).
Proof.
  intros Hab Hp Hn1 Hn2. assert (Hr : forall n, 0 <= n < 2 ^ 63 -> 0 <= room n < 2 ^ 63)
    by (intros n Hn; unfold room; cbn; destruct (Z.eqb_spec n 0); lia).
  assert (Er : forall n, (if negb (n =? 0) then n else 17408) = room n) by (intros n; unfold room; cbn; destruct (n =? 0); reflexivity).
  pose proof (Hr n1 Hn1). pose proof (Hr n2 Hn2).
  remember (bio_make_pair a b n1 n2 _) as run eqn:E. unfold bio_make_pair in E. revert E. ends. cbn [peer fresh_pair Z.eqb negb orb].
  cbn [ptr fresh_bio]. unfold make_buf at 1. ends. cbn [buf fresh_pair bsize]. rewrite Er, bind_bind, malloc_two.
  destruct (OPENSSL_malloc (mem w0) (room n1)) as [[blk1|] h1] eqn:E1; ends; cbn [Z.eqb].
  2:{ intros ->. exists h1. right. do 2 eexists. split; [|split; [|split; [reflexivity|]]]; [reflexivity..|].
      intros lim G Hlim. destruct (OPENSSL_malloc_grants lim (mem w0) (room n1) G) as (? & ? & E & _); [lia..|]. congruence. }
  apply OPENSSL_malloc_Some in E1 as [Hl1 _]; [|lia].
  unfold make_buf. ends. cbn [buf fresh_pair bsize]. rewrite Er, bind_bind, malloc_two.
  change (mem (with_mem h1 w0)) with h1. destruct (OPENSSL_malloc h1 (room n2)) as [[blk2|] h2] eqn:E2; ends; cbn [Z.eqb].
  2:{ intros ->. exists h2. right. do 2 eexists. split; [|split; [|split; [reflexivity|]]]; [reflexivity..|].
      intros lim G Hlim. destruct (OPENSSL_malloc_grants lim h1 (room n2) G) as (? & ? & E & _); [lia..|]. congruence. }
  apply OPENSSL_malloc_Some in E2 as [Hl2 _]; [|lia].
  ends. intros ->. exists h2. left. exists blk1, blk2. split; [exact Hl1|]. split; [exact Hl2|]. reflexivity.
Qed.

Lemma BIO_free_0 w : BIO_free 0 w = (Some 1, w).
Proof. unfold BIO_free. destruct (size (bios w)); reflexivity. Qed.

(** All or nothing: a pair, or the store as it was. *)
Lemma BIO_new_bio_pair_spec n1 n2 w :
  0 <= n1 < 2 ^ 63 -> 0 <= n2 < 2 ^ 63 ->
  exists h, (BIO_new_bio_pair n1 n2 w = (Some (0, 0, 0), with_mem h w) /\
      (forall lim, grants lim -> Z.max (sizeof_BIO + 8) (Z.max (room n1) (room n2) + 8) <= lim < 2 ^ 64 -> False) \/
    exists a b w', BIO_new_bio_pair n1 n2 w = (Some (1, a, b), w') /\
      paired (with_mem h w) a b (new_half n1) (new_half n2) w').
Proof.
  intros Hn1 Hn2. unfold BIO_new_bio_pair.
  destruct (BIO_new_spec w) as (h1 & [[E1 G1]|(a & pa & E1 & L1)]); rewrite (bind_Some _ _ _ _ _ E1).
  - destruct (BIO_new_spec (with_mem h1 w)) as (h2 & [[E2 G2]|(b & pb & E2 & L2)]); rewrite (bind_Some _ _ _ _ _ E2);
      cbn [Z.eqb orb]; rewrite ret_ok; cbn [Z.eqb]; rewrite (bind_Some _ _ _ _ _ (BIO_free_0 _)).
    + rewrite (bind_Some _ _ _ _ _ (BIO_free_0 _)). exists h2. left. split; [reflexivity|]. intros lim G Hlim. (eapply G1 + eapply G2); [exact G|lia].
    + rewrite (bind_Some _ _ _ _ _ (BIO_free_lone b pb _ _ fresh_pair L2 eq_refl)). exists h2. left. split; [reflexivity|]. intros lim G Hlim. (eapply G1 + eapply G2); [exact G|lia].
  - pose proof L1 as (Ha & Hf1 & Hpa & Hg1 & _).
    destruct (BIO_new_spec (one a pa (with_mem h1 w) (fresh_bio pa) fresh_pair)) as (h2 & [[E2 G2]|(b & pb & E2 & L2)]);
      rewrite (bind_Some _ _ _ _ _ E2).
    + cbn [Z.eqb orb]. rewrite orb_true_r, ret_ok. cbn [Z.eqb].
      change (with_mem h2 (one a pa (with_mem h1 w) (fresh_bio pa) fresh_pair)) with (one a pa (with_mem h2 w) (fresh_bio pa) fresh_pair).
      rewrite (bind_Some _ _ _ _ _ (BIO_free_lone a pa (with_mem h2 w) (fresh_bio pa) fresh_pair L1 eq_refl)).
      rewrite (bind_Some _ _ _ _ _ (BIO_free_0 _)). exists h2. left. split; [reflexivity|]. intros lim G Hlim. (eapply G1 + eapply G2); [exact G|lia].
    + pose proof L2 as (Hb & Hf2 & Hpb & Hg2 & _). cbn [bios pairs one with_mem] in Hf2, Hg2.
      apply lookup_insert_None in Hf2 as [Hf2 Hab], Hg2 as [Hg2 Hp].
      rewrite (proj2 (Z.eqb_neq a 0)), (proj2 (Z.eqb_neq b 0)) by auto. cbn [orb].
      change (one b pb (with_mem h2 (one a pa (with_mem h1 w) (fresh_bio pa) fresh_pair)) (fresh_bio pb) fresh_pair)
        with (two b a pb pa (with_mem h2 w) (fresh_bio pb) (fresh_bio pa) fresh_pair fresh_pair).
      rewrite two_swap by auto.
      destruct (bio_make_pair_spec a b pa pb (with_mem h2 w) n1 n2) as (h3 & Hm); [auto..|]. exists h3. cbn zeta in Hm.
      change (with_mem h3 (with_mem h2 w)) with (with_mem h3 w) in Hm.
      destruct Hm as [(blk1 & blk2 & Hl1 & Hl2 & Em)|(p & q & Pp & Pq & Em & G3)]; rewrite (bind_Some _ _ _ _ _ Em); cbn [Z.eqb].
      * right. exists a, b. eexists. split; [reflexivity|]. do 6 eexists. split; [reflexivity|].
        split_and!; auto; try (apply ring_new; auto); constructor; cbn; auto.
      * left. rewrite two_one. assert (L3 : lone a pa (one b pb (with_mem h3 w) (fresh_bio pb) q) (fresh_bio pa)).
        { unfold lone. cbn. rewrite !lookup_insert_ne by auto. auto 10. }
        rewrite (bind_Some _ _ _ _ _ (BIO_free_lone _ _ _ _ _ L3 Pp)).
        assert (L4 : lone b pb (with_mem h3 w) (fresh_bio pb)) by (unfold lone; cbn; auto 10).
        rewrite (bind_Some _ _ _ _ _ (BIO_free_lone _ _ _ _ _ L4 Pq)). split; [reflexivity|]. intros lim G Hlim. apply (G3 lim G). lia.
Qed.
End Lifetime.

(** * Sequences of operations *)

Section Runs.
Context `{Malloc} `{Debug} `{Placement}.

(** [true] is the first end. *)
Fixpoint run_pair (a b : Z) (ops : list (bool * pair_op)) : M world (list (Z * list Z)) :=
  match ops with
  | [] => ret []
  | (e, op) :: ops =>
    let* r := run_op (if e : bool then a else b) op in
    let* rs := run_pair a b ops in
    ret (r :: rs)
  end.

Fixpoint pair_spec (ops : list (bool * pair_op)) (ha hb : half) : list (Z * list Z) * half * half :=
  match ops with
  | [] => ([], ha, hb)
  | (true, op) :: ops =>
    let '(r, ha, hb) := op_spec op ha hb in let '(rs, ha, hb) := pair_spec ops ha hb in (r :: rs, ha, hb)
  | (false, op) :: ops =>
    let '(r, hb, ha) := op_spec op hb ha in let '(rs, ha, hb) := pair_spec ops ha hb in (r :: rs, ha, hb)
  end.

Lemma run_pair_spec w0 a b ops : forall ha hb w,
  paired w0 a b ha hb w -> Forall (fun o => op_ok (snd o)) ops ->
  let '(rs, ha', hb') := pair_spec ops ha hb in
  exists w', run_pair a b ops w = (Some rs, w') /\ paired w0 a b ha' hb' w'.
Proof.
  induction ops as [|[e op] ops IH]; intros ha hb w P Hops; [exists w; auto|].
  apply List.Forall_cons_iff in Hops as [Hop Hops]. cbn [snd] in Hop. cbn [run_pair pair_spec]. destruct e.
  - pose proof (run_op_spec op w0 a b ha hb w P Hop) as D. unfold does in D.
    destruct (op_spec op ha hb) as [[r ha1] hb1]. destruct D as (w1 & E1 & P1). specialize (IH ha1 hb1 w1 P1 Hops).
    destruct (pair_spec ops ha1 hb1) as [[rs ha2] hb2]. destruct IH as (w2 & E2 & P2). exists w2. split; [|exact P2].
    rewrite (bind_Some _ _ _ _ _ E1), (bind_Some _ _ _ _ _ E2). reflexivity.
  - pose proof (run_op_spec op w0 b a hb ha w (paired_swap _ _ _ _ _ _ P) Hop) as D. unfold does in D.
    destruct (op_spec op hb ha) as [[r hb1] ha1]. destruct D as (w1 & E1 & P1). apply paired_swap in P1.
    specialize (IH ha1 hb1 w1 P1 Hops).
    destruct (pair_spec ops ha1 hb1) as [[rs ha2] hb2]. destruct IH as (w2 & E2 & P2). exists w2. split; [|exact P2].
    rewrite (bind_Some _ _ _ _ _ E1), (bind_Some _ _ _ _ _ E2). reflexivity.
Qed.

(** Freeing an end: the other one is no longer usable, and freeing it leaves
    nothing behind. *)
Lemma paired_free w0 a b ha hb w :
  paired w0 a b ha hb w ->
  exists w1, BIO_free a w = (Some 1, w1) /\ BIO_free b w1 = (Some 1, w0) /\
    (forall nonnull n, BIO_read b nonnull n w1 = (Some (-2, []), w1)) /\
    (forall bs n, BIO_write b bs n w1 = (Some (-2), w1)).
Proof.
  intros (pa & pb & A & B & p & q & -> & Hab & Hp & HA & HB & Rp & Rq & Pp & Pq).
  destruct HA as [(Ha & Hf) (Hpa & Hg) Em Ei Er En Ep _ _ _ _]. destruct HB as [(Hb & Hf2) (Hpb & Hg2) Em2 Ei2 Er2 En2 Ep2 _ _ _ _].
  destruct (r_block _ _ Rp) as (blk1 & B1 & _). destruct (r_block _ _ Rq) as (blk2 & B2 & _).
  assert (L : lone a pa (one b pb w0 B q) A).
  { unfold lone. cbn [bios pairs one]. rewrite !lookup_insert_ne by auto. auto 10. }
  rewrite (BIO_free_two a b pa pb w0 A B p q) by eauto. eexists. split; [reflexivity|]. split; [|split].
  - apply BIO_free_lone; [|reflexivity]. unfold lone. auto 10.
  - intros nonnull n. unfold BIO_read. rewrite (proj2 (Z.eqb_neq b 0)), at_one by auto. reflexivity.
  - intros bs n. unfold BIO_write. rewrite (proj2 (Z.eqb_neq b 0)), at_one by auto. reflexivity.
Qed.

(** ** Moving a message *)

(** Rounds of a write of at most [i] bytes of what is left and a read of at most
    [j]; what is left to write and what has been read. *)
Fixpoint pump (a b : Z) (rounds : list (Z * Z)) (todo got : list Z) : M world (list Z * list Z) :=
  match rounds with
  | [] => ret (todo, got)
  | (i, j) :: rounds =>
    let bs := ztake i todo in
    let* r := BIO_write a (Some bs) (zlen bs) in
    let* s := BIO_read b true j in
    pump a b rounds (if 0 <? r then zdrop r todo else todo) (got ++ snd s)
  end.

Lemma half_write_moves i todo h :
  shut h = false -> zlen (queue h) <= cap h -> 0 < cap h -> 1 <= i ->
  let '(r, h') := half_write (ztake i todo) h in
  shut h' = false /\ queue h' ++ (if 0 <? r then zdrop r todo else todo) = queue h ++ todo /\
  (queue h ++ todo <> [] -> queue h' <> []).
Proof.
  intros Hs Hf Hc Hi. unfold half_write. pose proof (zlen_nonneg (queue h)). pose proof (zlen_nonneg todo).
  destruct (Z.eqb_spec (zlen (ztake i todo)) 0) as [E|E].
  - split_and!; auto. apply zlen_0 in E. destruct todo as [|x todo]; [rewrite app_nil_r; auto|].
    exfalso. unfold ztake in E. replace (Z.to_nat i) with (S (Z.to_nat (i - 1))) in E by lia. discriminate.
  - cbn zeta. cbn [shut queue cap with_want with_fl]. rewrite Hs.
    destruct (Z.eqb_spec (zlen (queue h)) (cap h)) as [Ef|Ef].
    + cbn. split_and!; auto. intros _ Eq. rewrite Eq in Ef. change (zlen (@nil Z)) with 0 in Ef. lia.
    + set (bs := ztake i todo) in *. set (n := Z.min (zlen bs) (cap h - zlen (queue h))).
      assert (Hb : 0 < zlen bs <= i /\ zlen bs <= zlen todo).
      { pose proof (zlen_nonneg bs). unfold bs, ztake, zlen in *. rewrite length_take in *. lia. }
      assert (Hn : 0 < n <= zlen bs) by lia. rewrite (proj2 (Z.ltb_lt 0 n)) by lia.
      cbn [shut queue more_written with_queue with_want with_fl].
      assert (Et : ztake n bs = ztake n todo) by (unfold bs; apply ztake_ztake; lia). rewrite Et.
      split_and!; auto.
      * rewrite <- app_assoc, ztake_zdrop. reflexivity.
      * intros _ Eq. apply (f_equal zlen) in Eq. rewrite zlen_app, zlen_ztake in Eq by lia. change (zlen (@nil Z)) with 0 in Eq. lia.
Qed.

Lemma half_read_moves j me other :
  1 <= j ->
  let '(_, bs, _, other') := half_read j me other in
  shut other' = shut other /\ bs ++ queue other' = queue other /\ (queue other <> [] -> bs <> []).
Proof.
  intros Hj. unfold half_read. rewrite (proj2 (Z.leb_gt j 0)) by lia. pose proof (zlen_nonneg (queue other)) as Hq.
  cbn zeta. cbn [shut queue cap with_want with_fl]. destruct (Z.eqb_spec (zlen (queue other)) 0) as [E|E].
  - apply zlen_0 in E. destruct (shut other) eqn:Es; cbn; rewrite ?Es; split_and!; auto.
  - cbn. split_and!; auto.
    + apply ztake_zdrop.
    + intros _ Eq. apply (f_equal zlen) in Eq. rewrite zlen_ztake in Eq by lia. change (zlen (@nil Z)) with 0 in Eq. lia.
Qed.

Lemma pump_spec w0 a b rounds : forall ha hb todo got w,
  paired w0 a b ha hb w -> shut ha = false -> Forall (fun c => 1 <= fst c <= INT_MAX /\ 1 <= snd c <= INT_MAX) rounds ->
  zlen (queue ha ++ todo) <= zlen rounds ->
  exists ha' hb' w', pump a b rounds todo got w = (Some ([], got ++ queue ha ++ todo), w') /\ paired w0 a b ha' hb' w'.
Proof.
  induction rounds as [|[i j] rounds IH]; intros ha hb todo got w P Hs Hr Hl.
  - change (zlen (@nil (Z * Z))) with 0 in Hl. pose proof (zlen_nonneg (queue ha ++ todo)).
    assert (E : queue ha ++ todo = []) by (apply zlen_0; lia). rewrite E. apply app_eq_nil in E as [_ ->].
    exists ha, hb, w. rewrite app_nil_r. auto.
  - apply List.Forall_cons_iff in Hr as [[Hi Hj] Hr]. cbn [fst snd] in Hi, Hj. rewrite zlen_cons in Hl. cbn [pump].
    assert (Hring : zlen (queue ha) <= cap ha /\ 0 < cap ha).
    { destruct P as (? & ? & ? & ? & ? & ? & _ & _ & _ & _ & _ & R & _). destruct R. lia. }
    assert (Hb : zlen (ztake i todo) <= INT_MAX) by (unfold ztake, zlen; rewrite length_take; lia).
    pose proof (half_write_moves i todo ha Hs (proj1 Hring) (proj2 Hring) (proj1 Hi)) as Hw.
    pose proof (does_write (ztake i todo) w0 a b ha hb w P Hb) as D. unfold does in D. cbn [op_spec run_op] in D.
    destruct (half_write (ztake i todo) ha) as [r ha1]. destruct Hw as (Hs1 & Eq1 & Hne1). destruct D as (w1 & E1 & P1).
    apply bind_inv in E1 as (r' & w1' & E1 & Er). injection Er as -> ->. rewrite (bind_Some _ _ _ _ _ E1).
    pose proof (half_read_moves j hb ha1 (proj1 Hj)) as Hd.
    pose proof (does_read j w0 b a hb ha1 w1 (paired_swap _ _ _ _ _ _ P1) (proj2 Hj)) as D. unfold does in D. cbn [op_spec run_op] in D.
    destruct (half_read j hb ha1) as [[[k bs] hb2] ha2]. destruct Hd as (Hs2 & Eq2 & Hne2). destruct D as (w2 & E2 & P2).
    rewrite (bind_Some _ _ _ _ _ E2). cbn [snd]. set (todo' := if 0 <? r then zdrop r todo else todo) in *.
    assert (Eall : queue ha ++ todo = bs ++ queue ha2 ++ todo') by (rewrite <- Eq1, <- Eq2, <- app_assoc; reflexivity).
    destruct (IH ha2 hb2 todo' (got ++ bs) w2) as (ha' & hb' & w' & E & P').
    + apply paired_swap, P2.
    + congruence.
    + exact Hr.
    + rewrite Eall, zlen_app in Hl. destruct (decide (queue ha ++ todo = [])) as [En|En].
      * rewrite En in Eall. symmetry in Eall. apply app_eq_nil in Eall as [-> ->]. apply zlen_nonneg.
      * specialize (Hne2 (Hne1 En)). assert (0 < zlen bs); [|lia]. destruct bs; [congruence|]. rewrite zlen_cons.
        pose proof (zlen_nonneg bs). lia.
    + exists ha', hb', w'. split; [|exact P']. rewrite E, Eall, <- app_assoc. reflexivity.
Qed.
End Runs.

(** * Properties *)

(** C15: A new pair behaves as two bounded queues of bytes, whatever sequence of writes,
    reads, shutdowns and queries its two ends see: each call returns what the queues
    say, no assertion fails and no byte outside the ring buffers is touched.  Freeing
    one end makes calls on the other fail cleanly, and freeing both frees everything. *)
Theorem bio_pair_refines_queues `{Malloc} `{Debug} `{Placement} (n1 n2 a b : Z) (w w' : world)
    (ops : list (bool * pair_op)) :
  0 <= n1 < 2 ^ 63 -> 0 <= n2 < 2 ^ 63 -> BIO_new_bio_pair n1 n2 w = (Some (1, a, b), w') ->
  Forall (fun o => op_ok (snd o)) ops ->
  exists h w1, (let '(rs, _, _) := pair_spec ops (new_half n1) (new_half n2) in run_pair a b ops w' = (Some rs, w1)) /\
    exists w2, BIO_free a w1 = (Some 1, w2) /\ BIO_free b w2 = (Some 1, with_mem h w) /\
      (forall nonnull n, BIO_read b nonnull n w2 = (Some (-2, []), w2)) /\
      (forall bs n, BIO_write b bs n w2 = (Some (-2), w2)).
Proof.
  intros Hn1 Hn2 E Hops. destruct (BIO_new_bio_pair_spec n1 n2 w Hn1 Hn2) as (h & [[E' _]|(a' & b' & w1 & E' & P)]);
    rewrite E' in E; [discriminate|]. injection E as -> -> ->. exists h.
  pose proof (run_pair_spec _ a b ops _ _ _ P Hops) as R. destruct (pair_spec ops (new_half n1) (new_half n2)) as [[rs ha] hb].
  destruct R as (w2 & Er & P2). exists w2. split; [exact Er|]. apply paired_free in P2. exact P2.
Qed.

Definition pair_sample : list (bool * pair_op) :=
  [(true, Write [1; 2; 3]); (false, Read 2); (true, Write [4; 5; 6; 7]); (true, RetryFlags); (false, Read 9); (false, Read 9);
   (false, RetryFlags); (true, ReadRequest); (true, Shutdown); (false, Read 9); (true, Write [8]); (false, Write [9])].

Definition empty_world `{Malloc} (h : heap) : world := {| bios := ∅; pairs := ∅; bufs := ∅; mem := h |}.

Lemma bio_pair_refines_queues_witness :
  exists w a b w1, @BIO_new_bio_pair unlimited debug_build next_place 4 0 (@empty_world unlimited tt) = (Some (1, a, b), w) /\
    @run_pair unlimited debug_build a b pair_sample w =
      (Some [(3, []); (2, [1; 2]); (3, []); (0, []); (4, [3; 4; 5; 6]); (-1, []); (9, []); (4, []); (1, []); (0, []); (-1, []);
             (1, [])], w1).
Proof.
  destruct (@BIO_new_bio_pair unlimited debug_build next_place 4 0 (@empty_world unlimited tt)) as [[[[r a] b]|] w] eqn:E;
    [|apply (f_equal fst) in E; vm_compute in E; discriminate].
  assert (r = 1) as -> by (apply (f_equal fst) in E; vm_compute in E; congruence).
  destruct (@bio_pair_refines_queues unlimited debug_build next_place 4 0 a b (@empty_world unlimited tt) w pair_sample)
    as (h & w1 & Er & _); [lia..|exact E|repeat constructor; vm_compute; discriminate|].
  exists w, a, b, w1. split; [reflexivity|exact Er].
Defined.

(** What the comments in [bio_bio_st] say: an end that is initialised has a peer whose
    peer it is, [offset] and [len] stay in the buffer, an empty buffer starts at 0,
    and there is a [request] only while the buffer is empty, of at most its size. *)
Definition sound `{Malloc} (w : world) (e other : Z) : Prop :=
  exists B p, bios w !! e = Some B /\ init B = 1 /\ pairs w !! ptr B = Some p /\ peer p = other /\
    0 <= offset p < bsize p /\ 0 <= len p <= bsize p /\ (len p = 0 -> offset p = 0) /\
    (len p <> 0 -> request p = 0) /\ 0 <= request p <= bsize p - len p /\
    exists blk, buf p = Some {| block := blk; at_ := 0 |} /\ zlen blk = bsize p.

Lemma paired_sound `{Malloc} w0 a b ha hb w : paired w0 a b ha hb w -> sound w a b.
Proof.
  intros (pa & pb & A & B & p & q & -> & Hab & Hp & HA & HB & Rp & Rq & Pp & Pq).
  destruct HA. destruct Rp. exists A, p. cbn [bios pairs two]. rewrite e_ptr0, !lookup_insert_eq.
  pose proof (zlen_nonneg (queue ha)). destruct r_block0 as (blk & B1 & B2 & _).
  destruct (Z.eq_dec (len p) 0) as [E|E].
  - split_and!; auto; try lia; try congruence. exists blk. split; congruence.
  - specialize (r_quiet0 E). split_and!; auto; try lia; try congruence. exists blk. split; congruence.
Qed.

(** C24: The comments on the fields of the private state hold, for both ends, in every
    state that calls on a new pair lead to. *)
Theorem bio_pair_keeps_its_invariants `{Malloc} `{Debug} `{Placement} (n1 n2 a b : Z) (w w' w1 : world)
    (ops : list (bool * pair_op)) (rs : list (Z * list Z)) :
  0 <= n1 < 2 ^ 63 -> 0 <= n2 < 2 ^ 63 -> BIO_new_bio_pair n1 n2 w = (Some (1, a, b), w') ->
  Forall (fun o => op_ok (snd o)) ops -> run_pair a b ops w' = (Some rs, w1) ->
  sound w1 a b /\ sound w1 b a.
Proof.
  intros Hn1 Hn2 E Hops Er. destruct (BIO_new_bio_pair_spec n1 n2 w Hn1 Hn2) as (h & [[E' _]|(a' & b' & w2 & E' & P)]);
    rewrite E' in E; [discriminate|]. injection E as -> -> ->.
  pose proof (run_pair_spec _ a b ops _ _ _ P Hops) as R. destruct (pair_spec ops (new_half n1) (new_half n2)) as [[rs' ha] hb].
  destruct R as (w3 & Er' & P3). rewrite Er' in Er. injection Er as _ ->.
  split; eapply paired_sound; [exact P3|]. apply paired_swap. exact P3.
Qed.

Lemma bio_pair_keeps_its_invariants_witness :
  exists w a b rs w1, @BIO_new_bio_pair unlimited debug_build next_place 4 0 (@empty_world unlimited tt) = (Some (1, a, b), w) /\
    @run_pair unlimited debug_build a b (take 5 pair_sample) w = (Some rs, w1) /\ @sound unlimited w1 a b.
Proof.
  destruct (@BIO_new_bio_pair unlimited debug_build next_place 4 0 (@empty_world unlimited tt)) as [[[[r a] b]|] w] eqn:E;
    [|apply (f_equal fst) in E; vm_compute in E; discriminate].
  assert (r = 1) as -> by (apply (f_equal fst) in E; vm_compute in E; congruence).
  exists w, a, b. destruct (@run_pair unlimited debug_build a b (take 5 pair_sample) w) as [[rs|] w1] eqn:Er.
  - exists rs, w1. split; [reflexivity|]. split; [reflexivity|].
    exact (proj1 (@bio_pair_keeps_its_invariants unlimited debug_build next_place 4 0 a b _ w w1 (take 5 pair_sample) rs
      ltac:(lia) ltac:(lia) E ltac:(repeat constructor; vm_compute; discriminate) Er)).
  - exfalso. assert (a = 1 /\ b = 2) as [-> ->] by (apply (f_equal fst) in E; vm_compute in E; injection E as <- <-; auto).
    assert (Ew : w = snd (@BIO_new_bio_pair unlimited debug_build next_place 4 0 (@empty_world unlimited tt))) by (rewrite E; reflexivity).
    rewrite Ew in Er. apply (f_equal fst) in Er. vm_compute in Er. discriminate.
Defined.

(** C21: A message gets through: when a writer that retries what was not accepted and a
    reader take turns, with pieces of any sizes and a buffer of any size, the reader
    has the whole message, in order, after at most as many turns as it has bytes. *)
Theorem bio_pair_delivers `{Malloc} `{Debug} `{Placement} (n1 n2 a b : Z) (w w' : world)
    (m : list Z) (rounds : list (Z * Z)) :
  0 <= n1 < 2 ^ 63 -> 0 <= n2 < 2 ^ 63 -> BIO_new_bio_pair n1 n2 w = (Some (1, a, b), w') ->
  Forall (fun c => 1 <= fst c <= INT_MAX /\ 1 <= snd c <= INT_MAX) rounds -> zlen m <= zlen rounds ->
  exists w1, pump a b rounds m [] w' = (Some ([], m), w1) /\ sound w1 a b.
Proof.
  intros Hn1 Hn2 E Hr Hl. destruct (BIO_new_bio_pair_spec n1 n2 w Hn1 Hn2) as (h & [[E' _]|(a' & b' & w2 & E' & P)]);
    rewrite E' in E; [discriminate|]. injection E as -> -> ->.
  destruct (pump_spec _ a b rounds _ _ m [] _ P eq_refl Hr) as (ha & hb & w1 & Ep & P1); [exact Hl|].
  exists w1. split; [exact Ep|]. eapply paired_sound. exact P1.
Qed.

Lemma bio_pair_delivers_witness :
  exists w a b w1, @BIO_new_bio_pair unlimited release_build next_place 2 1 (@empty_world unlimited tt) = (Some (1, a, b), w) /\
    @pump unlimited release_build a b [(3, 1); (1, 1); (5, 2); (1, 1); (1, 1)] [10; 20; 30; 40; 50] [] w = (Some ([], [10; 20; 30; 40; 50]), w1).
Proof.
  destruct (@BIO_new_bio_pair unlimited release_build next_place 2 1 (@empty_world unlimited tt)) as [[[[r a] b]|] w] eqn:E;
    [|apply (f_equal fst) in E; vm_compute in E; discriminate].
  assert (r = 1) as -> by (apply (f_equal fst) in E; vm_compute in E; congruence).
  destruct (@bio_pair_delivers unlimited release_build next_place 2 1 a b (@empty_world unlimited tt) w [10; 20; 30; 40; 50]
    [(3, 1); (1, 1); (5, 2); (1, 1); (1, 1)]) as (w1 & Ep & _);
    [lia..|exact E|repeat constructor; vm_compute; discriminate|vm_compute; discriminate|].
  exists w, a, b, w1. split; [reflexivity|exact Ep].
Defined.
