(* ===== verification/BioMem.v ===== *)
(** Memory BIOs (crypto/bio/bio_mem.c) as streams of bytes, and reading ASN.1
    elements from a BIO ([BIO_read_asn1] of crypto/bio/bio.c).

    A memory BIO is writable, and then a queue without a bound but memory, or it reads a
    caller's buffer, and then it can be reset to the start. *)
From Stdlib Require Import ZArith Lia.
From stdpp Require Import base list numbers gmap.
From S2P Require Import Prelude.
From S2P Require Import Mem.
From S2P Require Import Der.
From S2P Require Import Cbs.
From S2P Require Import Buf.
From S2P Require Import Bio.
From S2P Require Import BioPair.

Open Scope Z_scope.
Open Scope c_scope.

(** * What a memory BIO holds *)

(** The caller's bytes [all], of which the last ones, [l], are still to be read. *)
Definition reads_from (b : BUF_MEM) (all l : list Z) : Prop :=
  max b = zlen all /\ length_ b = zlen l /\ zlen l <= zlen all /\ l = zdrop (zlen all - zlen l) all /\
  match data b with
  | None => all = []
  | Some p => exists o, at_ p = o + (zlen all - zlen l) /\ 0 <= o /\ o + zlen all <= zlen (block p) /\
      zsub o (zlen all) (block p) = all
  end.

(** What the user of a memory BIO sees. *)
Record stream := {
  contents : list Z;            (* still to be read *)
  source : option (list Z);     (* the caller's buffer, if it reads one *)
  eof : Z;                      (* what reading returns at the end *)
  marks : Z;                    (* the retry flags *)
  taken : Z;                    (* bytes read *)
  given : Z                     (* bytes written *)
}.

Definition mark (v : Z) (s : stream) : stream :=
  {| contents := contents s; source := source s; eof := eof s; marks := v; taken := taken s; given := given s |}.
Definition count_read (n : Z) (s : stream) : stream :=
  {| contents := contents s; source := source s; eof := eof s; marks := marks s;
     taken := if 0 <? n then u64 (taken s + n) else taken s; given := given s |}.
Definition count_write (n : Z) (s : stream) : stream :=
  {| contents := contents s; source := source s; eof := eof s; marks := marks s;
     taken := taken s; given := if 0 <? n then u64 (given s + n) else given s |}.
Definition with_contents (l : list Z) (s : stream) : stream :=
  {| contents := l; source := source s; eof := eof s; marks := marks s; taken := taken s; given := given s |}.
Definition with_eof (v : Z) (s : stream) : stream :=
  {| contents := contents s; source := source s; eof := v; marks := marks s; taken := taken s; given := given s |}.

Definition flags_of (s : stream) : Z :=
  match source s with None => marks s | Some _ => Z.lor (marks s) BIO_FLAGS_MEM_RDONLY end.

Definition marks_ok (s : stream) : Prop := marks s = 0 \/ marks s = retry_read.

Section Streams.
Context `{Malloc} `{Debug} `{Placement}.

(** The object and its buffer in the store. *)
Definition mem_world (a pa : Z) (w0 : world) (A : BIO) (b : BUF_MEM) : world :=
  {| bios := <[a := A]> (bios w0); pairs := pairs w0; bufs := <[pa := b]> (bufs w0); mem := mem w0 |}.

Record is_mem (w0 : world) (a pa : Z) (A : BIO) (b : BUF_MEM) (s : stream) : Prop := {
  m_addr : a <> 0 /\ bios w0 !! a = None;
  m_priv : pa <> 0 /\ bufs w0 !! pa = None;
  m_method : method A = mem_method;
  m_init : init A = 1;
  m_shutdown : shutdown A = 1;
  m_refs : references A = 1;
  m_next : next_bio A = 0;
  m_ptr : ptr A = pa;
  m_flags : flags A = flags_of s;
  m_marks : marks_ok s;
  m_eof : num A = eof s;
  m_read : num_read A = taken s;
  m_written : num_write A = given s;
  m_small : zlen (contents s) <= INT_MAX;
  m_buf : match source s with None => holds b (contents s) | Some all => reads_from b all (contents s) /\ zlen all <= INT_MAX end
}.

(** In [w] there is a memory BIO [a] that holds [s], next to what there was in [w0];
    the state of the allocator may differ. *)
Definition streams (w0 : world) (a : Z) (s : stream) (w : world) : Prop :=
  exists pa A b h, w = mem_world a pa (with_mem h w0) A b /\ is_mem w0 a pa A b s.

Variables (a pa : Z).

Lemma mat {T} (k : BIO -> M world T) w0 A b : bind (bio_at a) k (mem_world a pa w0 A b) = k A (mem_world a pa w0 A b).
Proof. unfold bind, bio_at, mem_world. cbn [bios]. rewrite lookup_insert_eq. reflexivity. Qed.

Lemma mput {T} (k : unit -> M world T) w0 A A' b :
  bind (put_bio a A') k (mem_world a pa w0 A b) = k tt (mem_world a pa w0 A' b).
Proof. unfold bind, put_bio, mem_world, with_bios. cbn. rewrite insert_insert_eq. reflexivity. Qed.

Lemma mchange {T} f (k : unit -> M world T) w0 A b :
  bind (change_bio f a) k (mem_world a pa w0 A b) = k tt (mem_world a pa w0 (f A) b).
Proof. unfold change_bio. rewrite bind_bind, mat. apply mput. Qed.

Lemma mbuf {T} (k : BUF_MEM -> M world T) w0 A b :
  bind (buf_at pa) k (mem_world a pa w0 A b) = k b (mem_world a pa w0 A b).
Proof. unfold bind, buf_at, mem_world. cbn [bufs]. rewrite lookup_insert_eq. reflexivity. Qed.

Lemma mputbuf {T} (k : unit -> M world T) w0 A b b' :
  bind (put_buf pa b') k (mem_world a pa w0 A b) = k tt (mem_world a pa w0 A b').
Proof. unfold bind, put_buf, mem_world, with_bufs. cbn. rewrite insert_insert_eq. reflexivity. Qed.

Lemma mon_buf {T} f (k : Z -> M world T) w0 A b r b' h :
  f b (mem w0) = Some (r, b', h) ->
  bind (on_buf pa f) k (mem_world a pa w0 A b) = k r (mem_world a pa (with_mem h w0) A b').
Proof.
  intros E. unfold on_buf. rewrite bind_bind, mbuf. unfold bind. cbn [mem mem_world]. rewrite E.
  unfold mem_world, with_bufs, with_mem. cbn. rewrite insert_insert_eq. reflexivity.
Qed.
End Streams.

Ltac mems :=
  repeat first [ rewrite mat | rewrite mput | rewrite mchange | rewrite mbuf | rewrite mputbuf
               | rewrite bind_bind | rewrite try_ok | rewrite ret_ok ].

Lemma read_only_flags `{Malloc} w0 a pa A b s :
  is_mem w0 a pa A b s -> read_only A = match source s with None => false | Some _ => true end.
Proof.
  intros []. unfold read_only. rewrite m_flags0. unfold flags_of.
  destruct (source s); destruct m_marks0 as [->| ->]; reflexivity.
Qed.

(** Clearing the retry flags. *)
Lemma clear_marks s : marks_ok s -> Z.land (flags_of s) (Z.lnot kRetryFlags) = flags_of (mark 0 s).
Proof. intros Hm. unfold flags_of. cbn [source mark]. destruct (source s); destruct Hm as [->| ->]; reflexivity. Qed.

(** * Reading and writing *)

(** What reading [n] bytes does. *)
Definition stream_read (n : Z) (s : stream) : Z * list Z * stream :=
  let s := mark 0 s in
  if zlen (contents s) =? 0 then (eof s, [], mark (if eof s =? 0 then 0 else retry_read) s)
  else
    let k := Z.min n (zlen (contents s)) in
    (k, ztake k (contents s), with_contents (zdrop k (contents s)) s).

Section Operations.
Context `{Malloc} `{Debug} `{Placement}.
Variables (w0 : world) (a pa : Z).

(** The buffer after [k] bytes have been taken out. *)
Lemma reads_from_take b all l k :
  reads_from b all l -> 0 < k <= zlen l -> zlen all < 2 ^ 64 ->
  load (data b) 0 k = Some (ztake k l) /\
  reads_from {| length_ := u64 (length_ b - k); data := advance k (data b); max := max b |} all (zdrop k l).
Proof.
  intros (Hm & Hl & Hle & El & Hd) Hk Hall. destruct (data b) as [p|]; [|subst all; change (zlen (@nil Z)) with 0 in *; lia].
  destruct Hd as (o & Ho & Ho0 & Hb & Ez). split.
  - unfold load. destruct (Z.eqb_spec k 0); [lia|]. cbn [mbind option_bind]. rewrite Z.add_0_r, Ho.
    destruct (Z.leb_spec 0 (o + (zlen all - zlen l))); [|lia].
    destruct (Z.leb_spec (o + (zlen all - zlen l) + k) (zlen (block p))); [|lia]. cbn [andb]. f_equal.
    assert (Ec : forall c, 0 <= c <= zlen all -> zdrop c all = zsub (o + c) (zlen all - c) (block p)).
    { intros c Hc. rewrite <- Ez at 1. unfold zsub at 1. rewrite zdrop_ztake by (rewrite ?zlen_zdrop; lia).
      unfold zsub. rewrite zdrop_zdrop by lia. reflexivity. }
    rewrite Ec in El by lia. rewrite El at 2. unfold zsub. rewrite ztake_ztake by lia. reflexivity.
  - assert (Hd : zlen (zdrop k l) = zlen l - k) by (apply zlen_zdrop; lia). unfold reads_from. cbn [max length_ data advance mbind option_bind at_ block].
    rewrite Hd, Hl, u64_small by lia. split_and!; auto; try lia.
    + rewrite El at 1. rewrite zdrop_zdrop by lia. f_equal. lia.
    + exists o. split_and!; auto. lia.
Qed.

Lemma holds_take b l k :
  holds b l -> 0 < k <= zlen l ->
  load (data b) 0 k = Some (ztake k l) /\
  exists kept d, load (data b) k (u64 (length_ b - k)) = Some kept /\ store (data b) 0 kept = Some d /\
    holds {| length_ := u64 (length_ b - k); data := d; max := max b |} (zdrop k l).
Proof.
  intros Hb Hk. pose proof Hb as (Hl & Hm & Hd). split; [apply (holds_load b l k 0 Hb); lia|].
  rewrite Hl, u64_small by lia. exists (zsub k (zlen l - k) l). rewrite (holds_load b l (zlen l - k) k Hb) by lia.
  assert (Ez : zsub k (zlen l - k) l = zdrop k l).
  { unfold zsub. rewrite <- (zlen_zdrop k l) by lia. apply ztake_all. }
  assert (Hz : zlen (zdrop k l) = zlen l - k) by (apply zlen_zdrop; lia). rewrite Ez.
  destruct (store_own b l 0 (zdrop k l) Hb) as (d & Es & Hs); [lia..|].
  exists d. split_and!; auto. unfold holds. cbn [length_ data max]. rewrite Hz. split_and!; try lia.
  rewrite Hz in Hs. destruct d as [p|]; [|exact Hs]. destruct Hs as (Hs1 & Hs2 & Hs3). split_and!; auto.
Qed.

Lemma mem_read_spec A b s n :
  is_mem w0 a pa A b s -> 0 < n <= INT_MAX ->
  let '(r, bs, s') := stream_read n s in
  exists b', mem_read a n (mem_world a pa w0 A b) =
      (Some (r, bs), mem_world a pa w0 (reflagged (flags_of s') A) b') /\
    match source s with None => holds b' (contents s') | Some all => reads_from b' all (contents s') end.
Proof.
  intros M Hn. pose proof (read_only_flags _ _ _ _ _ _ M) as Ero. pose proof M as [[Ha _] [Hpa _] Em Ei Es Er En Ep Ef Emk Ee Enr Enw Hs Hb].
  assert (Elen : length_ b = zlen (contents s)).
  { destruct (source s); [destruct Hb as [(? & ? & _) _]|destruct Hb as [? _]]; assumption. }
  pose proof (zlen_nonneg (contents s)). unfold mem_read. mems. rewrite Ep. mems. unfold BIO_clear_retry_flags. mems.
  rewrite Ef, clear_marks, Elen by exact Emk. unfold stream_read. cbn zeta. cbn [contents mark eof].
  set (k := if (zlen (contents s) <? INT_MAX) && (zlen (contents s) <? n) then zlen (contents s) else n).
  assert (Ek : k = Z.min n (zlen (contents s))).
  { unfold k. destruct (Z.ltb_spec (zlen (contents s)) INT_MAX); destruct (Z.ltb_spec (zlen (contents s)) n); cbn [andb]; lia. }
  destruct (Z.eqb_spec (zlen (contents s)) 0) as [E0|E0].
  - rewrite (proj2 (Z.ltb_ge 0 k)) by lia. rewrite Ee. destruct (Z.eqb_spec (eof s) 0) as [Ez|Ez]; cbn [negb]; mems.
    + exists b. split; [reflexivity|]. destruct (source s); [apply Hb|exact Hb].
    + exists b. unfold BIO_set_retry_read, BIO_set_flags. mems.
      cbn [flags set_retry_reason set_flags]. replace (Z.lor (flags_of (mark 0 s)) (Z.lor BIO_FLAGS_READ BIO_FLAGS_SHOULD_RETRY))
        with (flags_of (mark retry_read (mark 0 s))) by (unfold flags_of; cbn [source mark marks]; destruct (source s); reflexivity).
      split; [reflexivity|]. destruct (source s); [apply Hb|exact Hb].
  - rewrite (proj2 (Z.ltb_lt 0 k)) by lia. rewrite <- Ek, Ero. destruct (source s) as [all|] eqn:Esrc.
    + destruct Hb as [Hb Hall]. destruct (reads_from_take b all (contents s) k Hb) as [El Hb']; [lia|unfold INT_MAX in *; lia|].
      rewrite Elen in Hb'. rewrite El. mems. eexists. split; [|exact Hb']. unfold flags_of. cbn [source with_contents mark marks]. rewrite Esrc. reflexivity.
    + destruct (holds_take b (contents s) k Hb) as (El & kept & d & E1 & E2 & Hb'); [lia|]. rewrite Elen in *. rewrite El. mems.
      rewrite E1. mems. rewrite E2. mems. eexists. split; [|exact Hb']. unfold flags_of. cbn [source with_contents mark marks]. rewrite Esrc. reflexivity.
Qed.

(** Everything but the buffer and the flags is as before. *)
Lemma is_mem_after A b s A' b' s' :
  is_mem w0 a pa A b s -> source s' = source s -> marks_ok s' -> flags A' = flags_of s' ->
  method A' = method A -> init A' = init A -> shutdown A' = shutdown A -> references A' = references A ->
  next_bio A' = next_bio A -> ptr A' = ptr A -> num A' = eof s' -> num_read A' = taken s' -> num_write A' = given s' ->
  zlen (contents s') <= INT_MAX ->
  match source s with None => holds b' (contents s') | Some all => reads_from b' all (contents s') end ->
  is_mem w0 a pa A' b' s'.
Proof.
  intros [] Es Hmk E1 E2 E3 E4 E5 E6 E7 E8 E9 E10 Hs Hb. constructor; try congruence; auto.
  rewrite Es. destruct (source s); [split; [exact Hb|apply m_buf0]|exact Hb].
Qed.

Lemma stream_read_facts n s :
  marks_ok s -> zlen (contents s) <= INT_MAX -> 0 < n ->
  let '(r, _, s') := stream_read n s in
  source s' = source s /\ marks_ok s' /\ eof s' = eof s /\ taken s' = taken s /\ given s' = given s /\ zlen (contents s') <= INT_MAX.
Proof.
  intros Hm Hs Hn. unfold stream_read. cbn zeta. cbn [contents mark eof]. pose proof (zlen_nonneg (contents s)).
  destruct (Z.eqb_spec (zlen (contents s)) 0).
  - cbn. split_and!; auto. unfold marks_ok. cbn. destruct (eof s =? 0); auto.
  - cbn. split_and!; auto; [left; reflexivity|]. rewrite zlen_zdrop by lia. lia.
Qed.

Lemma BIO_read_stream A b s n :
  is_mem w0 a pa A b s -> n <= INT_MAX ->
  let '(r, bs, s') := if n <=? 0 then (0, [], s) else let '(r, bs, s) := stream_read n s in (r, bs, count_read r s) in
  exists A' b', BIO_read a true n (mem_world a pa w0 A b) = (Some (r, bs), mem_world a pa w0 A' b') /\
    is_mem w0 a pa A' b' s'.
Proof.
  intros M Hn. pose proof M as [[Ha _] [Hpa _] Em Ei Es Er En Ep Ef Emk Ee Enr Enw Hs Hb].
  unfold BIO_read. rewrite (proj2 (Z.eqb_neq a 0)) by exact Ha. mems. rewrite Ei. change (1 =? 0) with false. cbv match.
  destruct (Z.leb_spec n 0); [exists A, b; auto|]. rewrite Em. cbn [bread].
  pose proof (mem_read_spec A b s n M ltac:(lia)) as R. pose proof (stream_read_facts n s Emk Hs ltac:(lia)) as F.
  destruct (stream_read n s) as [[r bs] s1]. destruct R as (b' & E & Hb'). destruct F as (F1 & F2 & F3 & F4 & F5 & F6).
  rewrite bind_bind, (bind_Some _ _ _ _ _ E). cbn [orb]. unfold guard at 1. mems. cbn [fst].
  destruct (Z.ltb_spec 0 r) as [Hr|Hr]; mems; do 2 eexists; (split; [reflexivity|]).
  - eapply is_mem_after; try exact M; cbn; auto; try congruence. rewrite Enr, F4, (proj2 (Z.ltb_lt 0 r)) by lia. reflexivity.
  - eapply is_mem_after; try exact M; cbn; auto; try congruence. rewrite Enr, F4, (proj2 (Z.ltb_ge 0 r)) by lia. reflexivity.
Qed.

(** What writing does; [granted] is whether there was memory. *)
Definition stream_write (granted : bool) (bs : list Z) (s : stream) : Z * stream :=
  if zlen bs =? 0 then (0, s)
  else
    match source s with
    | Some _ => (-1, s)
    | None =>
      let s := mark 0 s in
      if INT_MAX - zlen (contents s) <? zlen bs then (-1, s)
      else if granted then (zlen bs, count_write (zlen bs) (with_contents (contents s ++ bs) s))
      else (-1, s)
    end.

Definition enough (lim : Z) : Prop := 2863311540 <= lim < 2 ^ 64.
End Operations.

Lemma with_mem_same `{Malloc} w : with_mem (mem w) w = w.
Proof. destruct w. reflexivity. Qed.

Lemma BIO_write_stream `{Malloc} `{Debug} `{Placement} w0 a pa A b s bs :
  is_mem w0 a pa A b s -> zlen bs <= INT_MAX ->
  exists granted h A' b', BIO_write a (Some bs) (zlen bs) (mem_world a pa w0 A b) =
      (Some (fst (stream_write granted bs s)), mem_world a pa (with_mem h w0) A' b') /\
    is_mem w0 a pa A' b' (snd (stream_write granted bs s)) /\
    (forall lim, grants lim -> enough lim -> granted = true).
Proof.
  intros M Hbs. pose proof (read_only_flags _ _ _ _ _ _ M) as Ero. pose proof (zlen_nonneg bs).
  pose proof M as [[Ha _] [Hpa _] Em Ei Es Er En Ep Ef Emk Ee Enr Enw Hs Hb]. pose proof (zlen_nonneg (contents s)).
  unfold BIO_write. rewrite (proj2 (Z.eqb_neq a 0)) by exact Ha. mems. rewrite Ei. change (1 =? 0) with false. cbv match.
  unfold stream_write. destruct (Z.leb_spec (zlen bs) 0); destruct (Z.eqb_spec (zlen bs) 0) as [?|Hne]; try lia.
  { exists true, (mem w0), A, b. rewrite with_mem_same. auto. }
  rewrite Em. cbn [bwrite]. mems. unfold mem_write. mems. rewrite Ero. destruct (source s) as [all|] eqn:Esrc.
  { exists true, (mem w0), A, b. mems. change (0 <? -1) with false. rewrite with_mem_same. auto. }
  cbn zeta. unfold BIO_clear_retry_flags. mems. cbn [ptr set_retry_reason set_flags]. rewrite Ep. mems. rewrite Ef, clear_marks by exact Emk.
  pose proof Hb as (Elen & Hmax & Hd). rewrite Elen. cbn [contents mark].
  rewrite (s32_small (zlen (contents s))) by (unfold INT_MAX in *; lia).
  assert (Hkeep : is_mem w0 a pa (set_retry_reason 0 (set_flags (flags_of (mark 0 s)) A)) b (mark 0 s)).
  { eapply is_mem_after; try exact M; cbn; auto; [left; reflexivity|]. rewrite Esrc. exact Hb. }
  destruct (Z.ltb_spec (INT_MAX - zlen (contents s)) (zlen bs)) as [Hov|Hov].
  { exists true, (mem w0). do 2 eexists. rewrite with_mem_same. mems. change (0 <? -1) with false. mems. split; [reflexivity|]. auto. }
  set (n := zlen (contents s) + zlen bs). assert (En64 : u64 n = n) by (apply u64_small; unfold n, INT_MAX in *; lia).
  destruct (BUF_MEM_grow_spec b (contents s) n (mem w0) Hb) as (r & b1 & h & Eg & Hr & Hg); [unfold n, INT_MAX in *; lia|].
  mems. rewrite (mon_buf a pa _ _ w0 _ b r b1 h) by (unfold BUF_MEM_grow_clean; rewrite En64; exact Eg). rewrite En64.
  destruct Hr as [(-> & Hb1 & _)|(-> & Hb1)].
  { exists false. rewrite (proj2 (Z.eqb_neq 0 n)) by (unfold n; lia). cbn [negb]. mems. change (0 <? -1) with false. mems.
    do 3 eexists. split; [reflexivity|]. split.
    - eapply is_mem_after; try exact M; cbn; auto; [left; reflexivity|]. rewrite Esrc. exact Hb1.
    - intros lim G Hlim. specialize (Hg lim G). unfold enough, n, INT_MAX in *.
      assert (0 = zlen (contents s) + zlen bs); [|lia]. apply Hg. right. clear - Hlim Hov H2 H3. dlia. }
  rewrite Z.eqb_refl. cbn [negb]. mems. assert (Erz : resized n (contents s) = contents s ++ zrep (zlen bs) 0).
  { unfold resized, n. replace (zlen (contents s) + zlen bs - zlen (contents s)) with (zlen bs) by lia.
    rewrite ztake_app_add by lia. f_equal. rewrite <- (zlen_zrep (zlen bs) 0) at 1 by lia. apply ztake_all. }
  rewrite Erz in Hb1. pose proof Hb1 as (Hl1 & Hm1 & _). rewrite zlen_app, zlen_zrep in Hl1, Hm1 by lia. rewrite ztake_all.
  destruct (store_own b1 _ (zlen (contents s)) bs Hb1) as (d & Est & Hst); [rewrite zlen_app, zlen_zrep; lia|lia|].
  rewrite Est. mems. rewrite (proj2 (Z.ltb_lt 0 (zlen bs))) by lia. mems. exists true. do 3 eexists. split; [reflexivity|]. split; [|auto].
  eapply is_mem_after; try exact M; cbn; auto; try congruence.
  - left. reflexivity.
  - rewrite Enw, (proj2 (Z.ltb_lt 0 (zlen bs))) by lia. reflexivity.
  - rewrite zlen_app. lia.
  - rewrite Esrc. rewrite ztake_app in Hst. unfold holds. cbn [length_ data max]. rewrite zlen_app. split_and!; auto; lia.
Qed.

(** What reading a line into [n] bytes does: up to and with the newline, and a
    NUL after it. *)
Definition stream_gets (n : Z) (s : stream) : Z * list Z * stream :=
  let s := mark 0 s in
  let j := Z.min (n - 1) (zlen (contents s)) in
  if j <=? 0 then (0, [0], s)
  else let '(i, bs, s) := stream_read (line_length (contents s) (Z.to_nat j)) s in (i, bs ++ [0], s).

Lemma line_length_take : forall j p, line_length (take j p) j = line_length p j.
Proof. induction j as [|j IH]; intros [|c p]; cbn [take line_length]; try reflexivity. rewrite IH. reflexivity. Qed.

Lemma line_length_bounds j : forall p, p <> [] -> (0 < j)%nat -> 1 <= line_length p j <= Z.min (Z.of_nat j) (zlen p).
Proof.
  induction j as [|j IH]; intros [|c p] Hp Hj; try congruence; try lia. cbn [line_length]. rewrite zlen_cons. pose proof (zlen_nonneg p).
  destruct (c =? 10); [lia|]. destruct (decide (p = [])) as [->|Hne].
  - change (zlen (@nil Z)) with 0. destruct j; cbn [line_length]; lia.
  - destruct j as [|j]; [destruct p; cbn [line_length]; lia|]. specialize (IH p Hne ltac:(lia)). lia.
Qed.

Section Lines.
Context `{Malloc} `{Debug} `{Placement}.

Lemma load_front w0 a pa A b s k :
  is_mem w0 a pa A b s -> 0 < k <= zlen (contents s) -> load (data b) 0 k = Some (ztake k (contents s)).
Proof.
  intros [] Hk. destruct (source s) as [all|].
  - destruct m_buf0 as [Hb Hall]. apply (reads_from_take b all (contents s) k Hb Hk). unfold INT_MAX in *. lia.
  - apply (holds_take b (contents s) k m_buf0 Hk).
Qed.

Lemma is_mem_length w0 a pa A b s : is_mem w0 a pa A b s -> length_ b = zlen (contents s).
Proof. intros []. destruct (source s); [destruct m_buf0 as [(? & ? & _) _]|destruct m_buf0 as [? _]]; assumption. Qed.

(** The object with its flags cleared. *)
Lemma is_mem_clear w0 a pa A b s :
  is_mem w0 a pa A b s -> is_mem w0 a pa (reflagged (flags_of (mark 0 s)) A) b (mark 0 s).
Proof.
  intros M. eapply is_mem_after; try exact M; destruct M; cbn; auto; [left; reflexivity|].
  destruct (source s); [apply m_buf0|exact m_buf0].
Qed.

Lemma BIO_gets_stream w0 a pa A b s n :
  is_mem w0 a pa A b s -> n <= INT_MAX ->
  let '(r, bs, s') := if n <=? 0 then (0, [], s) else let '(r, bs, s) := stream_gets n s in (r, bs, count_read r s) in
  exists A' b', BIO_gets a n (mem_world a pa w0 A b) = (Some (r, bs), mem_world a pa w0 A' b') /\
    is_mem w0 a pa A' b' s'.
Proof.
  intros M Hn. pose proof (is_mem_length _ _ _ _ _ _ M) as Elen. pose proof M as [[Ha _] [Hpa _] Em Ei Es Er En Ep Ef Emk Ee Enr Enw Hs Hb].
  pose proof (zlen_nonneg (contents s)). unfold BIO_gets. rewrite (proj2 (Z.eqb_neq a 0)) by exact Ha. mems. rewrite Em. cbn [bgets].
  rewrite Ei. change (1 =? 0) with false. cbv match. destruct (Z.leb_spec n 0); [exists A, b; auto|].
  unfold mem_gets. mems. rewrite Ep. mems. unfold BIO_clear_retry_flags. mems. rewrite Ef, clear_marks, Elen by exact Emk.
  rewrite s32_small by (unfold INT_MAX in *; lia). unfold stream_gets. cbn zeta. cbn [contents mark].
  assert (Ej : (if n - 1 <? zlen (contents s) then n - 1 else zlen (contents s)) = Z.min (n - 1) (zlen (contents s)))
    by (destruct (Z.ltb_spec (n - 1) (zlen (contents s))); lia).
  rewrite Ej. set (j := Z.min (n - 1) (zlen (contents s))). pose proof (is_mem_clear _ _ _ _ _ _ M) as M0.
  change (set_retry_reason 0 (set_flags (flags_of (mark 0 s)) A)) with (reflagged (flags_of (mark 0 s)) A).
  destruct (Z.leb_spec j 0) as [Hj|Hj].
  - mems. rewrite (proj2 (Z.ltb_lt 0 n)) by lia. cbn [fst]. change (0 <? 0) with false. mems. do 2 eexists. split; [reflexivity|].
    replace (count_read 0 (mark 0 s)) with (mark 0 s) by reflexivity. exact M0.
  - rewrite (load_front w0 a pa A b s j M) by lia. mems. unfold ztake. rewrite line_length_take.
    set (i := line_length (contents s) (Z.to_nat j)).
    assert (Hi : 1 <= i <= j).
    { pose proof (line_length_bounds (Z.to_nat j) (contents s)) as Hll. fold i in Hll.
      assert (contents s <> []) by (intros E; apply (f_equal zlen) in E; change (zlen (@nil Z)) with 0 in E; unfold j in Hj; lia). specialize (Hll ltac:(auto) ltac:(lia)). lia. }
    pose proof (mem_read_spec w0 a pa _ b _ i M0 ltac:(lia)) as R. pose proof (stream_read_facts i (mark 0 s) ltac:(left; reflexivity) Hs ltac:(lia)) as F.
    assert (Hr : fst (fst (stream_read i (mark 0 s))) = i).
    { unfold stream_read. cbn zeta. cbn [contents mark]. rewrite (proj2 (Z.eqb_neq (zlen (contents s)) 0)) by lia. cbn [fst]. lia. }
    destruct (stream_read i (mark 0 s)) as [[r bs] s1]. cbn [fst] in Hr. subst r. destruct R as (b' & E & Hb'). destruct F as (F1 & F2 & F3 & F4 & F5 & F6).
    cbn [source eof taken given mark] in F1, F3, F4, F5.
    rewrite (bind_Some _ _ _ _ _ E). mems. cbn [fst]. rewrite (proj2 (Z.ltb_lt 0 i)) by lia. mems. do 2 eexists. split; [reflexivity|].
    eapply is_mem_after; try exact M; cbn; auto; try congruence.
    rewrite Enr, F4, (proj2 (Z.ltb_lt 0 i)) by lia. reflexivity.
Qed.
End Lines.

(** * Queries and the lifetime of a memory BIO *)

Section Lifetime.
Context `{Malloc} `{Debug} `{Placement}.

Definition stream_reset (s : stream) : stream :=
  with_contents (match source s with None => [] | Some all => all end) s.

Lemma holds_reset b l : holds b l -> data b <> None ->
  exists d, store (data b) 0 (zrep (max b) 0) = Some d /\ holds {| length_ := 0; data := d; max := max b |} [].
Proof.
  intros Hb Hd. pose proof Hb as (Hl & Hm & _). pose proof (zlen_nonneg l).
  destruct (store_own b l 0 (zrep (max b) 0) Hb) as (d & Es & Hs); [lia|rewrite zlen_zrep; lia|].
  exists d. split; [exact Es|]. unfold holds. cbn [length_ data max]. change (zlen (@nil Z)) with 0. split_and!; try lia.
  destruct d as [p|]; [|exact Hs]. destruct Hs as (Ha & Hz & _). auto.
Qed.

Lemma reads_from_reset b all l :
  reads_from b all l ->
  reads_from {| length_ := max b; data := advance (- (max b - length_ b)) (data b); max := max b |} all all.
Proof.
  intros (Hm & Hl & Hle & El & Hd). unfold reads_from. cbn [length_ data max]. rewrite Hm, Hl, Z.sub_diag. split_and!; auto; try lia.
  destruct (data b) as [p|]; [|exact Hd]. destruct Hd as (o & Ho & Ho0 & Hb & Ez). cbn [advance mbind option_bind at_ block].
  exists o. split_and!; auto. lia.
Qed.

Lemma mctrl_at {T} (k : Z * option out -> M world T) w0 a pa A b s cmd larg parg :
  is_mem w0 a pa A b s ->
  bind (BIO_ctrl a cmd larg parg) k (mem_world a pa w0 A b) = bind (mem_ctrl a cmd larg parg) k (mem_world a pa w0 A b).
Proof. intros []. unfold BIO_ctrl. rewrite (proj2 (Z.eqb_neq a 0)) by apply m_addr0. mems. rewrite m_method0. reflexivity. Qed.

Lemma BIO_reset_stream w0 a pa A b s :
  is_mem w0 a pa A b s ->
  exists A' b', BIO_reset a (mem_world a pa w0 A b) = (Some 1, mem_world a pa w0 A' b') /\ is_mem w0 a pa A' b' (stream_reset s).
Proof.
  intros M. pose proof (read_only_flags _ _ _ _ _ _ M) as Ero. pose proof M as [[Ha _] [Hpa _] Em Ei Es Er En Ep Ef Emk Ee Enr Enw Hs Hb].
  unfold BIO_reset, ctrl_result. mems. rewrite (mctrl_at _ _ _ _ _ _ _ _ _ _ M). unfold mem_ctrl. mems. rewrite Ep. mems. consts. mems.
  destruct (source s) as [all|] eqn:Esrc.
  - destruct Hb as [Hb Hall]. destruct (data b) as [p|] eqn:Ed.
    + rewrite Ero. mems. do 2 eexists. split; [reflexivity|]. eapply is_mem_after; try exact M; cbn; auto.
      * rewrite Esrc. exact Hall.
      * rewrite Esrc. pose proof (reads_from_reset b all (contents s) Hb) as R. rewrite Ed in R. exact R.
    + mems. do 2 eexists. split; [reflexivity|]. replace (stream_reset s) with s; [exact M|].
      destruct Hb as (_ & _ & _ & El & Hd). rewrite Ed in Hd. subst all. unfold stream_reset. rewrite Esrc.
      assert (Ec : contents s = []) by (rewrite El; apply drop_nil). destruct s. cbn in Ec. rewrite Ec. reflexivity.
  - destruct (data b) as [p|] eqn:Ed.
    + rewrite Ero. mems. destruct (holds_reset b (contents s) Hb) as (d & Est & Hd); [congruence|]. rewrite Ed in Est. rewrite Est. mems.
      do 2 eexists. split; [reflexivity|]. eapply is_mem_after; try exact M; cbn; auto.
      * rewrite Esrc. vm_compute. discriminate.
      * rewrite Esrc. exact Hd.
    + mems. do 2 eexists. split; [reflexivity|]. replace (stream_reset s) with s; [exact M|].
      destruct Hb as (Hl & Hm & Hd). rewrite Ed in Hd. unfold stream_reset. rewrite Esrc.
      assert (Ec : contents s = []) by (apply zlen_0; pose proof (zlen_nonneg (contents s)); lia). destruct s. cbn in Ec. rewrite Ec. reflexivity.
Qed.

(** Making one. *)
Definition new_stream : stream :=
  {| contents := []; source := None; eof := -1; marks := 0; taken := 0; given := 0 |}.
Definition buf_stream (bs : list Z) : stream :=
  {| contents := bs; source := Some bs; eof := 0; marks := 0; taken := 0; given := 0 |}.

Definition fresh_mem (pa : Z) : BIO :=
  {| method := mem_method; init := 1; shutdown := 1; flags := 0; retry_reason := 0; num := -1; references := 1;
     ptr := pa; next_bio := 0; num_read := 0; num_write := 0 |}.

Lemma BIO_new_mem_spec w :
  exists h, BIO_new mem_method w = (Some 0, with_mem h w) /\
      (forall lim, grants lim -> sizeof_BIO + 8 <= lim < 2 ^ 64 -> False) \/
    exists a pa, BIO_new mem_method w =
        (Some a, mem_world a pa (with_mem h w) (fresh_mem pa) {| length_ := 0; data := None; max := 0 |}) /\
      is_mem w a pa (fresh_mem pa) {| length_ := 0; data := None; max := 0 |} new_stream.
Proof.
  remember (BIO_new mem_method w) as r eqn:E. unfold BIO_new, malloc_io, bind at 1 in E.
  destruct (OPENSSL_malloc (mem w) sizeof_BIO) as [[blk|] h] eqn:E1.
  2:{ exists h. left. split; [exact E|]. intros lim G Hlim. unfold sizeof_BIO in *.
      destruct (OPENSSL_malloc_grants lim (mem w) 64 G) as (? & ? & Eg & _); [lia..|]. congruence. }
  change (dom (bios (with_mem h w))) with (dom (bios w)) in E.
  destruct (place_free (dom (bios w))) as [Ha Hf]. set (a := place_for (dom (bios w))) in *. apply not_elem_of_dom in Hf.
  cbn [create] in E. unfold bind at 1, put_bio at 1, mem_new, BUF_MEM_new in E. unfold bind at 1 in E.
  change (mem (with_bios ?v (with_mem h w))) with h in E. cbn beta in E.
  destruct (OPENSSL_malloc h sizeof_BUF_MEM) as [[blk2|] h2] eqn:E2.
  - destruct (place_free (dom (bufs w))) as [Hpa Hg]. apply not_elem_of_dom in Hg.
    exists h2. right. exists a, (place_for (dom (bufs w))). split.
    2:{ constructor; cbn; auto; [left; reflexivity|vm_compute; discriminate|apply holds_empty]. }
    rewrite E. clear E. unfold bind, change_bio, bind, put_buf, bio_at, put_bio, ret. cbn -[a]. rewrite lookup_insert_eq. cbn -[a].
    rewrite insert_insert_eq. reflexivity.
  - exists h2. left. split.
    2:{ intros lim G Hlim. unfold sizeof_BIO, sizeof_BUF_MEM in *.
        destruct (OPENSSL_malloc_grants lim h 24 G) as (? & ? & Eg & _); [lia..|]. congruence. }
    rewrite E. cbn -[a]. unfold bind, ret, free_bio, bind, bio_at. cbn -[a]. rewrite lookup_insert_eq. cbn -[a].
    rewrite delete_insert_id by exact Hf. reflexivity.
Qed.

(** The bytes a caller hands to [BIO_new_mem_buf]: [len] of them, or a string. *)
Definition handed (buf_ : option place) (len_ : Z) (bs : list Z) : Prop :=
  zlen bs <= INT_MAX /\
  match buf_ with
  | None => len_ = 0 /\ bs = []
  | Some p => 0 <= at_ p /\ at_ p + zlen bs <= zlen (block p) /\ zsub (at_ p) (zlen bs) (block p) = bs /\
      (len_ = zlen bs \/ len_ < 0 /\ OPENSSL_memchr (zdrop (at_ p) (block p)) 0 = Some (zlen bs))
  end.

Lemma BIO_new_mem_buf_spec buf_ len_ bs w :
  handed buf_ len_ bs ->
  exists h, BIO_new_mem_buf buf_ len_ w = (Some 0, with_mem h w) /\
      (forall lim, grants lim -> sizeof_BIO + 8 <= lim < 2 ^ 64 -> False) \/
    exists a pa A b, BIO_new_mem_buf buf_ len_ w = (Some a, mem_world a pa (with_mem h w) A b) /\
      is_mem w a pa A b (buf_stream bs).
Proof.
  intros (Hbs & Hh). pose proof (zlen_nonneg bs). unfold BIO_new_mem_buf.
  assert (Esz : forall (k : Z -> M world Z), bind (if len_ <? 0 then try (p ← buf_; i ← OPENSSL_memchr (zdrop (at_ p) (block p)) 0; Some i)
      else ret len_) k w = k (zlen bs) w).
  { intros k. destruct buf_ as [p|].
    - destruct Hh as (_ & _ & _ & [->|[Hn Ec]]); [rewrite (proj2 (Z.ltb_ge _ 0)) by lia; reflexivity|].
      rewrite (proj2 (Z.ltb_lt _ 0)) by lia. cbn [mbind option_bind]. rewrite Ec. reflexivity.
    - destruct Hh as (-> & ->). reflexivity. }
  rewrite Esz. clear Esz. destruct (BIO_new_mem_spec w) as (h & [[E G]|(a & pa & E & M)]); exists h; [left|right].
  - split; [|exact G]. destruct buf_; [|destruct Hh as (-> & _); cbn [Z.eqb negb]]; rewrite (bind_Some _ _ _ _ _ E); reflexivity.
  - pose proof M as [[Ha Hf] [Hpa Hg] _ _ _ _ _ _ _ _ _ _ _ _ _].
    assert (R : reads_from {| length_ := zlen bs; data := buf_; max := zlen bs |} bs bs).
    { unfold reads_from. cbn [max length_ data]. rewrite Z.sub_diag. split_and!; auto; try lia.
      destruct buf_ as [p|]; [|apply Hh]. destruct Hh as (H1' & H2' & H3' & _). exists (at_ p). split_and!; auto; lia. }
    exists a, pa. do 2 eexists. split.
    + destruct buf_ as [p|]; [|destruct Hh as (-> & _); cbn [Z.eqb negb]]; rewrite (bind_Some _ _ _ _ _ E);
        rewrite (proj2 (Z.eqb_neq a 0)) by exact Ha; mems; cbn [ptr fresh_mem]; mems; reflexivity.
    + constructor; cbn; auto. left. reflexivity.
Qed.

(** Freeing it leaves nothing behind. *)
Lemma BIO_free_mem w0 a pa A b s :
  is_mem w0 a pa A b s -> BIO_free a (mem_world a pa w0 A b) = (Some 1, w0).
Proof.
  intros IM. pose proof (read_only_flags _ _ _ _ _ _ IM) as Ero. pose proof IM as [[Ha Hf] [Hpa Hg] Em Ei Es Er En Ep Ef Emk Ee Enr Enw Hs Hb].
  unfold BIO_free. assert (Hsz : exists n, size (bios (mem_world a pa w0 A b)) = S n).
  { destruct (size (bios (mem_world a pa w0 A b))) eqn:E; [|eauto]. exfalso.
    apply map_size_empty_inv in E. apply (f_equal (fun m => m !! a)) in E. cbn [bios mem_world] in E.
    rewrite lookup_insert_eq, lookup_empty in E. discriminate. }
  destruct Hsz as [n ->]. cbn [free_loop]. unfold BIO_pop. rewrite !(proj2 (Z.eqb_neq a 0)) by auto. mems. rewrite Er.
  change (CRYPTO_refcount_dec_and_test_zero 1) with (Some (true, 0)). mems. cbn [negb]. mems. cbn [next_bio set_references]. rewrite En, Em.
  cbn [destroy]. unfold mem_free. mems. cbn [shutdown init ptr set_next set_references]. rewrite Es, Ei, Ep.
  rewrite (proj2 (Z.eqb_neq pa 0)) by exact Hpa. change (1 =? 0) with false. cbn [orb]. mems.
  change (read_only (set_next 0 (set_references 0 A))) with (read_only A). rewrite Ero. unfold BUF_MEM_free, free_buf. rewrite (proj2 (Z.eqb_neq pa 0)) by exact Hpa.
  assert (Hat : source s = None -> match data b with Some p => at_ p =? 0 | None => true end = true).
  { intros E. rewrite E in Hb. destruct Hb as (_ & _ & Hd). destruct (data b); [|reflexivity]. apply Z.eqb_eq. apply Hd. }
  assert (Hend : forall A' b', (let* _ := (fun w => (Some tt, with_bufs (delete pa (bufs w)) w)) : M world unit in
      let* _ := (let* _ := change_bio (set_ptr 0) a in ret 1) in let* _ := free_bio a in free_loop n 0) (mem_world a pa w0 A' b') = (Some 1, w0)).
  { intros A' b'. unfold bind at 1. unfold with_bufs, mem_world. cbn [bufs bios pairs mem]. rewrite delete_insert_id by exact Hg.
    unfold change_bio, free_bio. rewrite !bind_bind. unfold bind, bio_at, put_bio, with_bios, ret. cbn [bios bufs pairs mem]. rewrite lookup_insert_eq.
    cbn [bios bufs pairs mem]. rewrite insert_insert_eq, lookup_insert_eq. cbn [bios bufs pairs mem]. rewrite delete_insert_id by exact Hf.
    destruct n, w0; reflexivity. }
  destruct (source s) eqn:Esrc; mems; cbn [data].
  - unfold guard. mems. apply Hend.
  - rewrite Hat by reflexivity. unfold guard. mems. apply Hend.
Qed.
End Lifetime.

(** * Sequences of operations *)

Inductive mem_op :=
  | MWrite (bs : list Z) | MRead (n : Z) | MGets (n : Z) | MReset | MPending | MEof | MSetEof (v : Z)
  | MRetryFlags | MNumberRead | MNumberWritten.

Definition run_mem_op `{Malloc} `{Debug} `{Placement} (bio : Z) (op : mem_op) : M world (Z * list Z) :=
  let only (m : M world Z) := let* r := m in ret (r, []) in
  match op with
  | MWrite bs => only (BIO_write bio (Some bs) (zlen bs))
  | MRead n => BIO_read bio true n
  | MGets n => BIO_gets bio n
  | MReset => only (BIO_reset bio)
  | MPending => only (BIO_pending bio)
  | MEof => only (BIO_eof bio)
  | MSetEof v => only (BIO_set_mem_eof_return bio v)
  | MRetryFlags => only (BIO_get_retry_flags bio)
  | MNumberRead => only (BIO_number_read bio)
  | MNumberWritten => only (BIO_number_written bio)
  end.

(** [granted] says whether a write that needs memory got it. *)
Definition mem_op_spec (granted : bool) (op : mem_op) (s : stream) : Z * list Z * stream :=
  match op with
  | MWrite bs => let '(r, s) := stream_write granted bs s in (r, [], s)
  | MRead n => if n <=? 0 then (0, [], s) else let '(r, bs, s) := stream_read n s in (r, bs, count_read r s)
  | MGets n => if n <=? 0 then (0, [], s) else let '(r, bs, s) := stream_gets n s in (r, bs, count_read r s)
  | MReset => (1, [], stream_reset s)
  | MPending => (zlen (contents s), [], s)
  | MEof => (if zlen (contents s) =? 0 then 1 else 0, [], s)
  | MSetEof v => (1, [], with_eof (s32 v) s)
  | MRetryFlags => (marks s, [], s)
  | MNumberRead => (taken s, [], s)
  | MNumberWritten => (given s, [], s)
  end.

Definition mem_op_ok (op : mem_op) : Prop :=
  match op with MWrite bs => zlen bs <= INT_MAX | MRead n | MGets n => n <= INT_MAX | _ => True end.

Section Runs.
Context `{Malloc} `{Debug} `{Placement}.

Definition mem_does (op : mem_op) (w0 : world) (a : Z) (s : stream) (w : world) : Prop :=
  exists granted, let '(r, bs, s') := mem_op_spec granted op s in
    (exists w', run_mem_op a op w = (Some (r, bs), w') /\ streams w0 a s' w') /\
    (forall lim, grants lim -> enough lim -> granted = true).

Lemma mem_queries op w0 a s w :
  streams w0 a s w -> (match op with MPending | MEof | MSetEof _ | MRetryFlags | MNumberRead | MNumberWritten => True | _ => False end) ->
  mem_does op w0 a s w.
Proof.
  intros S Hop. exists true. pose proof S as (pa & A & b & h & -> & IM).
  assert (IM' : is_mem (with_mem h w0) a pa A b s) by (destruct IM; constructor; auto).
  pose proof IM as [[Ha _] [Hpa _] Em Ei Es Er En Ep Ef Emk Ee Enr Enw Hs Hb].
  pose proof (is_mem_length _ _ _ _ _ _ IM) as El. pose proof (zlen_nonneg (contents s)).
  assert (E64 : s64 (zlen (contents s)) = zlen (contents s))
    by (unfold s64, INT_MAX in *; destruct (Z.ltb_spec (zlen (contents s)) 9223372036854775808); lia).
  destruct op; try destruct Hop; unfold mem_op_spec, run_mem_op, BIO_pending, BIO_eof, BIO_set_mem_eof_return,
    BIO_get_retry_flags, BIO_test_flags, BIO_number_read, BIO_number_written, ctrl_result; mems;
    [rewrite (mctrl_at _ _ _ _ _ _ _ _ _ _ IM'); unfold mem_ctrl; mems; rewrite Ep; mems; consts; mems..| | |].
  - rewrite El, E64. cbn [fst]. rewrite assert_ok by (apply Z.leb_le; lia). rewrite (proj2 (Z.ltb_ge _ 0)) by lia.
    split; [|auto]. eexists. split; [reflexivity|exact S].
  - rewrite El. split; [|auto]. eexists. split; [|exact S]. destruct (zlen (contents s) =? 0); reflexivity.
  - split; [|auto]. eexists. split; [reflexivity|]. exists pa. do 3 eexists. split; [reflexivity|].
    eapply is_mem_after; try exact IM; cbn; auto. destruct (source s); [apply Hb|exact Hb].
  - split; [|auto]. eexists. split; [|exact S]. rewrite Ef. unfold flags_of. destruct (source s); destruct Emk as [->| ->]; reflexivity.
  - rewrite Enr. split; [|auto]. eexists. split; [reflexivity|exact S].
  - rewrite Enw. split; [|auto]. eexists. split; [reflexivity|exact S].
Qed.

Lemma streams_intro w0 a pa A b h h' s :
  is_mem (with_mem h w0) a pa A b s -> streams w0 a s (mem_world a pa (with_mem h' w0) A b).
Proof. intros IM. exists pa, A, b, h'. split; [reflexivity|]. destruct IM. constructor; auto. Qed.

Lemma run_mem_op_spec op w0 a s w : streams w0 a s w -> mem_op_ok op -> mem_does op w0 a s w.
Proof.
  intros S Hop. pose proof S as (pa & A & b & h & -> & IM).
  assert (IM' : is_mem (with_mem h w0) a pa A b s) by (destruct IM; constructor; auto).
  destruct op; try (apply mem_queries; [exact S|exact I]); unfold mem_does; cbn [mem_op_spec run_mem_op mem_op_ok] in *.
  - destruct (BIO_write_stream (with_mem h w0) a pa A b s bs IM' Hop) as (g & h' & A' & b' & E & M' & G). exists g.
    destruct (stream_write g bs s) as [r s']. split; [|exact G]. rewrite (bind_Some _ _ _ _ _ E). eexists. split; [reflexivity|].
    apply (streams_intro w0 a pa A' b' h h' s' M').
  - exists true. pose proof (BIO_read_stream (with_mem h w0) a pa A b s n IM' Hop) as R.
    destruct (n <=? 0); [|destruct (stream_read n s) as [[r bs] s']];
      destruct R as (A' & b' & E & M'); (split; [|auto]); (eexists; split; [exact E|]); apply (streams_intro w0 a pa A' b' h h _ M').
  - exists true. pose proof (BIO_gets_stream (with_mem h w0) a pa A b s n IM' Hop) as R.
    destruct (n <=? 0); [|destruct (stream_gets n s) as [[r bs] s']];
      destruct R as (A' & b' & E & M'); (split; [|auto]); (eexists; split; [exact E|]); apply (streams_intro w0 a pa A' b' h h _ M').
  - exists true. destruct (BIO_reset_stream (with_mem h w0) a pa A b s IM') as (A' & b' & E & M').
    split; [|auto]. rewrite (bind_Some _ _ _ _ _ E). eexists. split; [reflexivity|]. apply (streams_intro w0 a pa A' b' h h _ M').
Qed.

Fixpoint run_mem (bio : Z) (ops : list mem_op) : M world (list (Z * list Z)) :=
  match ops with
  | [] => ret []
  | op :: ops => let* r := run_mem_op bio op in let* rs := run_mem bio ops in ret (r :: rs)
  end.

(** One answer of the allocator for each operation. *)
Fixpoint mem_spec (granted : list bool) (ops : list mem_op) (s : stream) : list (Z * list Z) * stream :=
  match ops, granted with
  | op :: ops, g :: granted =>
    let '(r, s) := mem_op_spec g op s in let '(rs, s) := mem_spec granted ops s in (r :: rs, s)
  | _, _ => ([], s)
  end.

Lemma run_mem_spec w0 a ops : forall s w,
  streams w0 a s w -> Forall mem_op_ok ops ->
  exists granted w', length granted = length ops /\ run_mem a ops w = (Some (fst (mem_spec granted ops s)), w') /\
    streams w0 a (snd (mem_spec granted ops s)) w' /\
    (forall lim, grants lim -> enough lim -> Forall (eq true) granted).
Proof.
  induction ops as [|op ops IH]; intros s w S Hops.
  - exists [], w. cbn. auto.
  - apply List.Forall_cons_iff in Hops as [Hop Hops]. destruct (run_mem_op_spec op w0 a s w S Hop) as (g & D).
    destruct (mem_op_spec g op s) as [[r bs] s1] eqn:Eo. destruct D as ((w1 & E1 & S1) & G1).
    destruct (IH s1 w1 S1 Hops) as (granted & w2 & El & E2 & S2 & G2). exists (g :: granted), w2.
    cbn [length mem_spec run_mem]. rewrite Eo. destruct (mem_spec granted ops s1) as [rs s2]. cbn [fst snd] in *.
    split; [congruence|]. split; [|split; [exact S2|]].
    + rewrite (bind_Some _ _ _ _ _ E1), (bind_Some _ _ _ _ _ E2). reflexivity.
    + intros lim HG Hlim. constructor; [symmetry; eauto|eauto].
Qed.
End Runs.

(** * Reading an ASN.1 element *)

(** [a] is a memory BIO with [l] left to read, which returns [e] at the end. *)
Definition feeds `{Malloc} (w0 : world) (a : Z) (l : list Z) (e : Z) (w : world) : Prop :=
  exists s, streams w0 a s w /\ contents s = l /\ eof s = e.

Section Asn1.
Context `{Malloc} `{Debug} `{Placement}.
Variables (w0 : world) (a : Z).

Lemma feeds_small l e w : feeds w0 a l e w -> zlen l <= INT_MAX.
Proof. intros (s & (pa & A & b & h & _ & []) & <- & _). assumption. Qed.

Lemma feeds_mem l e w h : feeds w0 a l e w -> feeds w0 a l e (with_mem h w).
Proof. intros (s & (pa & A & b & h0 & -> & IM) & <- & <-). exists s. split; [|auto]. exists pa, A, b, h. auto. Qed.

Lemma BIO_read_feeds l e w n :
  feeds w0 a l e w -> 0 < n <= INT_MAX ->
  exists w', BIO_read a true n w = (Some (if zlen l =? 0 then (e, []) else (Z.min n (zlen l), ztake (Z.min n (zlen l)) l)), w') /\
    feeds w0 a (if zlen l =? 0 then l else zdrop (Z.min n (zlen l)) l) e w'.
Proof.
  intros (s & S & <- & <-) Hn. assert (Hop : mem_op_ok (MRead n)) by (cbn; lia).
  destruct (run_mem_op_spec (MRead n) w0 a s w S Hop) as (g & D). cbn [mem_op_spec run_mem_op] in D.
  rewrite (proj2 (Z.leb_gt n 0)) in D by lia. unfold stream_read in D. cbn zeta in D. cbn [contents mark eof] in D.
  destruct (zlen (contents s) =? 0); destruct D as ((w' & E & S') & _); exists w'; (split; [exact E|]); eexists; (split; [exact S'|]);
    split; reflexivity.
Qed.

Lemma read_full_feeds l e w n :
  feeds w0 a l e w -> e <= 0 -> 0 <= n <= INT_MAX ->
  exists w', bio_read_full a n w =
      (Some (if n <=? zlen l then inr (ztake n l) else inl ((zlen l =? 0) && (e =? 0))), w') /\
    feeds w0 a (zdrop n l) e w'.
Proof.
  intros F He Hn. pose proof (zlen_nonneg l). unfold bio_read_full, INT_MAX in *.
  destruct (Z.to_nat n) as [|k] eqn:Ek.
  { exists w. assert (n = 0) as -> by lia. split; [|exact F]. destruct (Z.leb_spec 0 (zlen l)); [reflexivity|lia]. }
  cbn [read_full_loop]. rewrite (proj2 (Z.leb_gt n 0)) by lia. unfold INT_MAX. rewrite (proj2 (Z.leb_le n _)) by lia.
  destruct (BIO_read_feeds l e w n F ltac:(unfold INT_MAX; lia)) as (w1 & E1 & F1). rewrite (bind_Some _ _ _ _ _ E1).
  destruct (Z.eqb_spec (zlen l) 0) as [E0|E0].
  { rewrite (proj2 (Z.leb_le e 0)) by exact He. rewrite (proj2 (Z.leb_gt n (zlen l))) by lia. exists w1. split; [reflexivity|].
    apply zlen_0 in E0 as ->. unfold zdrop. rewrite drop_nil. exact F1. }
  rewrite (proj2 (Z.leb_gt _ 0)) by lia. rewrite u64_small by lia. destruct (Z.leb_spec n (zlen l)).
  - rewrite Z.min_l in * by lia. rewrite Z.sub_diag. exists w1. split; [|exact F1]. destruct k; reflexivity.
  - rewrite Z.min_r in * by lia. unfold zdrop in F1. rewrite drop_ge in F1 by (unfold zlen; lia).
    destruct k as [|k]; [lia|]. cbn [read_full_loop]. rewrite (proj2 (Z.leb_gt (n - zlen l) 0)) by lia.
    unfold INT_MAX. rewrite (proj2 (Z.leb_le (n - zlen l) _)) by lia.
    destruct (BIO_read_feeds [] e w1 (n - zlen l) F1 ltac:(unfold INT_MAX; lia)) as (w2 & E2 & F2).
    rewrite (bind_Some _ _ _ _ _ E2). change (zlen [] =? 0) with true in *. cbv match in *. rewrite (proj2 (Z.leb_le e 0)) by exact He.
    cbn [andb]. exists w2. split; [reflexivity|]. unfold zdrop. rewrite drop_ge by (unfold zlen in *; lia). exact F2.
Qed.

Lemma put_at i bs blk :
  0 <= i -> i + zlen bs <= zlen blk -> put i bs blk = Some (zsplice i bs blk).
Proof.
  intros Hi Hl. unfold put, store. pose proof (zlen_nonneg bs). destruct (Z.eqb_spec (zlen bs) 0) as [E|E].
  - apply zlen_0 in E as ->. rewrite zsplice_nil. reflexivity.
  - cbn [mbind option_bind at_ block]. rewrite Z.add_0_l. rewrite !(proj2 (Z.leb_le _ _)) by lia. reflexivity.
Qed.

(** The contents of a definite length. *)
Lemma read_contents_feeds l e w header len_ max_len :
  feeds w0 a l e w -> e <= 0 -> 0 <= len_ < 2 ^ 32 -> zlen header <= 6 -> 0 <= max_len < 2 ^ 64 ->
  exists r w', read_contents a header len_ max_len w = (Some r, w') /\
    match r with
    | inl _ => forall lim, len_ + zlen header <= max_len -> len_ <= INT_MAX -> len_ <= zlen l -> grants lim ->
        len_ + zlen header + 8 <= lim < 2 ^ 64 -> False
    | inr (out_, n) => out_ = header ++ ztake len_ l /\ n = zlen out_ /\ len_ <= zlen l /\ n <= max_len /\ len_ <= INT_MAX /\
        feeds w0 a (zdrop len_ l) e w'
    end.
Proof.
  intros F He Hl Hh Hm. pose proof (zlen_nonneg header). pose proof (zlen_nonneg l). unfold read_contents. rewrite !u64_small by lia.
  rewrite (proj2 (Z.ltb_ge (len_ + zlen header) len_)) by lia. cbn [orb].
  destruct (Z.ltb_spec max_len (len_ + zlen header)); cbn [orb].
  { eexists _, w. split; [reflexivity|]. cbn. lia. }
  destruct (Z.ltb_spec INT_MAX len_).
  { eexists _, w. split; [reflexivity|]. cbn. lia. }
  unfold malloc_io at 1. unfold bind at 1. destruct (OPENSSL_malloc (mem w) (len_ + zlen header)) as [[blk|] h] eqn:Em.
  2:{ eexists _, _. split; [reflexivity|]. intros lim _ _ _ G Hlim.
      destruct (OPENSSL_malloc_grants lim (mem w) (len_ + zlen header) G) as (? & ? & Eg & _); [lia..|]. congruence. }
  apply OPENSSL_malloc_Some in Em as [Hb _]; [|lia]. rewrite (put_at 0 header blk) by lia. rewrite try_ok.
  replace (len_ + zlen header - zlen header) with len_ by lia.
  destruct (read_full_feeds l e (with_mem h w) len_ (feeds_mem l e w h F) He ltac:(lia)) as (w' & E & F').
  rewrite (bind_Some _ _ _ _ _ E). destruct (Z.leb_spec len_ (zlen l)).
  - rewrite put_at by (rewrite ?zlen_zsplice, ?zlen_ztake; lia). rewrite try_ok. eexists _, w'. split; [reflexivity|].
    assert (Eo : zsplice (zlen header) (ztake len_ l) (zsplice 0 header blk) = header ++ ztake len_ l).
    { change (zlen header) with (0 + zlen header). rewrite zsplice_append by (rewrite ?zlen_ztake; lia).
      unfold zsplice, ztake at 1, zdrop. cbn [take]. rewrite app_nil_l. rewrite drop_ge; [apply app_nil_r|].
      pose proof (zlen_app header (ztake len_ l)) as Ez. rewrite zlen_ztake in Ez by lia. unfold zlen in *. lia. }
    rewrite Eo. split_and!; auto; rewrite ?zlen_app, ?zlen_ztake by lia; lia.
  - eexists _, w'. split; [reflexivity|]. cbn. lia.
Qed.

(** The header of an element of definite length: its bytes, and the length they say. *)
Definition head_of (l : list Z) : option (list Z * Z) :=
  match l with
  | t :: b :: r =>
    if t mod 32 =? 31 then None
    else if b <? 128 then Some ([t; b], b)
    else if (b - 128 =? 0) || (4 <? b - 128) then None
    else if zlen r <? b - 128 then None
    else
      let lb := ztake (b - 128) r in
      if (be_val lb <? 128) || (be_val lb <? 256 ^ (b - 129)) then None else Some (t :: b :: lb, be_val lb)
  | _ => None
  end.

Lemma len32_fold bs :
  bytes_ok bs -> zlen bs <= 4 -> fold_left (fun v b => Z.lor (u32 (Z.shiftl v 8)) b) bs 0 = be_val bs.
Proof.
  induction bs as [|b bs IH] using rev_ind; intros Hb Hl; [reflexivity|].
  apply bytes_ok_app in Hb as [Hd Hb]. apply bytes_ok_cons in Hb as [Hb _]. autorewrite with zlen in Hl.
  rewrite fold_left_app, IH, be_val_snoc by (auto; lia). cbn [fold_left]. pose proof (be_val_bound bs Hd) as Hv.
  unfold byte_ok in Hb. assert (256 ^ zlen bs <= 256 ^ 3) by (apply Z.pow_le_mono_r; lia).
  rewrite u32_small by (rewrite Z.shiftl_mul_pow2; lia). rewrite shiftl_lor_add by lia. lia.
Qed.

(** Low tags have one octet. *)
Lemma der_tag_low t : byte_ok t -> t mod 32 <> 31 ->
  tag_ok (t / 32 * 2 ^ 29 + t mod 32) /\ (t / 32 * 2 ^ 29 + t mod 32) mod 2 ^ 29 < 31 /\ der_tag (t / 32 * 2 ^ 29 + t mod 32) = [t].
Proof.
  unfold byte_ok, tag_ok, der_tag. intros Hb Ht. replace ((t / 32 * 2 ^ 29 + t mod 32) mod 2 ^ 29) with (t mod 32) by dlia.
  split; [dlia|]. split; [dlia|]. rewrite (proj2 (Z.ltb_lt (t mod 32) 31)) by dlia. f_equal. dlia.
Qed.

Lemma head_of_sound l hd n :
  bytes_ok l -> head_of l = Some (hd, n) ->
  exists tag, tag_ok tag /\ tag mod 2 ^ 29 < 31 /\ hd = der_header tag n /\ l = hd ++ zdrop (zlen hd) l /\ 0 <= n < 2 ^ 32.
Proof.
  intros Hb. destruct l as [|t [|b r]]; try discriminate. apply bytes_ok_cons in Hb as [Ht Hb]. apply bytes_ok_cons in Hb as [Hb Hr].
  cbn [head_of]. destruct (Z.eqb_spec (t mod 32) 31) as [|Hlow]; [discriminate|]. destruct (der_tag_low t Ht Hlow) as (T1 & T2 & T3).
  unfold byte_ok in Hb. destruct (Z.ltb_spec b 128).
  - intros E. injection E as <- <-. exists (t / 32 * 2 ^ 29 + t mod 32). unfold der_header, der_length. rewrite T3.
    rewrite (proj2 (Z.ltb_lt b 128)) by lia. split_and!; auto; lia.
  - destruct (_ || _) eqn:Ek; [discriminate|]. apply orb_false_iff in Ek as [Ek1 Ek2]. apply Z.eqb_neq in Ek1. apply Z.ltb_ge in Ek2.
    destruct (Z.ltb_spec (zlen r) (b - 128)); [discriminate|]. cbn zeta. destruct (_ || _) eqn:Em; [discriminate|].
    apply orb_false_iff in Em as [Em1 Em2]. apply Z.ltb_ge in Em1, Em2. intros E. injection E as <- <-.
    set (lb := ztake (b - 128) r) in *. assert (Hlb : bytes_ok lb) by (apply bytes_ok_ztake, Hr).
    assert (Hk : zlen lb = b - 128) by (apply zlen_ztake; lia). pose proof (be_val_bound lb Hlb) as Hv.
    assert (256 ^ zlen lb <= 256 ^ 4) by (apply Z.pow_le_mono_r; lia).
    exists (t / 32 * 2 ^ 29 + t mod 32). unfold der_header. rewrite T3. rewrite (der_length_long _ (b - 128)).
    2-4: rewrite ?Hk in *; replace (b - 128 - 1) with (b - 129) by lia; lia.
    replace (128 + (b - 128)) with b by lia. split_and!; auto; try lia.
    + do 2 f_equal. rewrite <- Hk. unfold zlen. rewrite Nat2Z.id. symmetry. apply be_bytes_val, Hlb.
    + cbn [app]. do 2 f_equal. rewrite !zlen_cons. replace (1 + (1 + zlen lb)) with (Z.of_nat 2 + zlen lb) by lia.
      rewrite Hk. unfold zdrop. rewrite Z2Nat.inj_add by lia. cbn [Nat.add drop]. symmetry. apply ztake_zdrop.
Qed.

Lemma head_of_complete tag n rest :
  tag_ok tag -> tag mod 2 ^ 29 < 31 -> 0 <= n < 2 ^ 32 ->
  head_of (der_header tag n ++ rest) = Some (der_header tag n, n).
Proof.
  unfold tag_ok. intros Ht Hlow Hn. unfold der_header, der_tag. rewrite (proj2 (Z.ltb_lt _ 31)) by exact Hlow.
  set (t := tag / 2 ^ 29 * 32 + tag mod 2 ^ 29). assert (E31 : (t mod 32 =? 31) = false) by (apply Z.eqb_neq; unfold t; dlia).
  destruct (der_length_cases n Hn) as [[Hs ->]|(k & Hk & H128 & Hnk & ->)]; cbn [app head_of]; rewrite E31.
  - rewrite (proj2 (Z.ltb_lt n 128)) by lia. reflexivity.
  - rewrite (proj2 (Z.ltb_ge (128 + k) 128)) by lia. replace (128 + k - 128) with k by lia. replace (128 + k - 129) with (k - 1) by lia.
    rewrite (proj2 (Z.eqb_neq k 0)), (proj2 (Z.ltb_ge 4 k)) by lia. cbn [orb].
    assert (Hz : zlen (be_bytes (Z.to_nat k) n) = k) by (rewrite zlen_be_bytes; lia).
    rewrite zlen_app, Hz. pose proof (zlen_nonneg rest). rewrite (proj2 (Z.ltb_ge (k + zlen rest) k)) by lia.
    cbn zeta. rewrite ztake_app_eq by lia. rewrite be_val_bytes, Z2Nat.id, Z.mod_small by lia.
    rewrite (proj2 (Z.ltb_ge n 128)), (proj2 (Z.ltb_ge n _)) by lia. reflexivity.
Qed.

(** Reading an element of definite length is reading its header and its contents. *)
Lemma BIO_read_asn1_head fuel l e w max_len :
  feeds w0 a l e w -> e <= 0 -> bytes_ok l -> znth 0 1 l <> 128 ->
  match head_of l with
  | Some (hd, n) => exists w', (BIO_read_asn1 fuel a max_len w = read_contents a hd n max_len w') /\ feeds w0 a (zdrop (zlen hd) l) e w'
  | None => exists err w', BIO_read_asn1 fuel a max_len w = (Some (inl err), w')
  end.
Proof.
  intros F He Hb H128. unfold BIO_read_asn1.
  destruct (read_full_feeds l e w 2 F He ltac:(unfold INT_MAX; lia)) as (w1 & E1 & F1). rewrite (bind_Some _ _ _ _ _ E1).
  destruct l as [|t [|b r]]; [cbn; destruct (e =? 0); eauto|cbn; eauto|].
  assert (E2 : (2 <=? zlen (t :: b :: r)) = true) by (apply Z.leb_le; rewrite !zlen_cons; pose proof (zlen_nonneg r); lia). rewrite E2.
  change (ztake 2 (t :: b :: r)) with [t; b]. change (znth 0 0 [t; b]) with t. change (znth 0 1 [t; b]) with b.
  change (znth 0 1 (t :: b :: r)) with b in H128. change (zdrop 2 (t :: b :: r)) with r in F1.
  apply bytes_ok_cons in Hb as [Ht Hb]. apply bytes_ok_cons in Hb as [Hb Hr]. cbn [head_of]. rewrite land_byte_31, (land_byte_128 b Hb).
  destruct (t mod 32 =? 31); [eauto|]. unfold byte_ok in Hb. destruct (Z.ltb_spec b 128); [exists w1; auto|].
  assert (E127 : Z.land b 127 = b - 128) by (change 127 with (2 ^ 7 - 1); rewrite land_mask by lia; dlia). rewrite E127.
  rewrite (proj2 (Z.eqb_neq (b - 128) 0)) by lia. rewrite andb_false_r. cbn [orb].
  destruct (Z.ltb_spec 4 (b - 128)); [eauto|].
  destruct (read_full_feeds r e w1 (b - 128) F1 He ltac:(unfold INT_MAX; lia)) as (w2 & E3 & F2). rewrite (bind_Some _ _ _ _ _ E3).
  destruct (Z.leb_spec (b - 128) (zlen r)) as [Hz|Hz].
  2:{ rewrite (proj2 (Z.ltb_lt (zlen r) _)) by lia. eauto. }
  rewrite (proj2 (Z.ltb_ge (zlen r) _)) by lia. cbn zeta. set (lb := ztake (b - 128) r) in *.
  assert (Hlb : bytes_ok lb) by (apply bytes_ok_ztake, Hr). assert (Hk : zlen lb = b - 128) by (apply zlen_ztake; lia).
  rewrite len32_fold by (auto; lia). pose proof (be_val_bound lb Hlb) as Hv.
  destruct (Z.ltb_spec (be_val lb) 128); [cbn [orb]; eauto|]. cbn [orb].
  assert (Es : (Z.shiftr (be_val lb) ((b - 128 - 1) * 8) =? 0) = (be_val lb <? 256 ^ (b - 129))).
  { rewrite Z.shiftr_div_pow2 by lia. replace (2 ^ ((b - 128 - 1) * 8)) with (256 ^ (b - 129))
      by (rewrite pow256 by lia; f_equal; lia).
    assert (0 < 256 ^ (b - 129)) by (apply Z.pow_pos_nonneg; lia).
    destruct (Z.ltb_spec (be_val lb) (256 ^ (b - 129))) as [Hlt|Hge].
    - apply Z.eqb_eq, Z.div_small. lia.
    - apply Z.eqb_neq. pose proof (Z.div_le_mono (256 ^ (b - 129)) (be_val lb) (256 ^ (b - 129)) ltac:(lia) Hge) as Hd.
      rewrite Z.div_same in Hd by lia. lia. }
  rewrite Es. destruct (be_val lb <? 256 ^ (b - 129)); [eauto|]. exists w2. split; [reflexivity|].
  replace (zdrop (zlen (t :: b :: lb)) (t :: b :: r)) with (zdrop (b - 128) r); [exact F2|].
  rewrite !zlen_cons, Hk. replace (1 + (1 + (b - 128))) with (Z.of_nat 2 + (b - 128)) by lia. unfold zdrop.
  rewrite Z2Nat.inj_add by lia. reflexivity.
Qed.

(** Reading everything, from a BIO that returns 0 at the end. *)
Lemma read_all_loop_feeds max_len fuel : forall l w out_ len_ got,
  feeds w0 a l 0 w -> 0 <= max_len < 2 ^ 64 -> (length l < fuel)%nat ->
  zlen out_ = len_ -> ztake (zlen got) out_ = got -> zlen got <= len_ <= max_len -> len_ - zlen got <= 8192 ->
  (zlen got < len_ \/ len_ = max_len) -> zlen got + zlen l <= INT_MAX + 8 ->
  exists r w', read_all_loop fuel a out_ len_ (zlen got) max_len w = (Some r, w') /\
    match r with
    | Some (out', n) => ztake n out' = got ++ l /\ n = zlen (got ++ l) /\ n < max_len /\ n <= zlen out' /\ feeds w0 a [] 0 w'
    | None => forall lim, zlen got + zlen l < max_len -> grants lim -> zlen got + zlen l + 8300 <= lim < 2 ^ 64 -> False
    end.
Proof.
  induction fuel as [|fuel IH]; intros l w out_ len_ got F Hm Hf Ho Hgot Hlen Hgap Hdone Htot; [lia|].
  pose proof (zlen_nonneg l) as Hl0. pose proof (zlen_nonneg got) as Hg0. cbn [read_all_loop]. unfold INT_MAX in *.
  destruct (Z.eqb_spec (zlen got) len_) as [Ed|Ed].
  { exists None, w. split; [reflexivity|]. lia. }
  rewrite (u64_small (len_ - zlen got)) by lia. rewrite assert_ok by (apply Z.ltb_lt; unfold INT_MAX; lia).
  rewrite s32_small by lia. destruct (BIO_read_feeds l 0 w (len_ - zlen got) F ltac:(unfold INT_MAX; lia)) as (w1 & E1 & F1).
  rewrite (bind_Some _ _ _ _ _ E1). destruct (Z.eqb_spec (zlen l) 0) as [E0|E0].
  { apply zlen_0 in E0 as ->. rewrite put_at by (change (zlen (@nil Z)) with 0; lia). rewrite try_ok. cbn [Z.eqb].
    exists (Some (zsplice (zlen got) [] out_, zlen got)), w1. split; [reflexivity|]. rewrite app_nil_r, zsplice_nil. split_and!; auto; lia. }
  set (k := Z.min (len_ - zlen got) (zlen l)) in *. assert (Hk : 0 < k <= zlen l /\ k <= len_ - zlen got) by lia.
  assert (Hzk : zlen (ztake k l) = k) by (apply zlen_ztake; lia). rewrite put_at by lia. rewrite try_ok.
  rewrite (proj2 (Z.eqb_neq k 0)), (proj2 (Z.eqb_neq k (-1))) by lia. rewrite (u64_small (zlen got + k)) by lia.
  rewrite (u64_small (len_ - (zlen got + k))) by lia.
  set (out1 := zsplice (zlen got) (ztake k l) out_). set (got1 := got ++ ztake k l).
  assert (Hz1 : zlen got1 = zlen got + k) by (unfold got1; rewrite zlen_app; lia).
  assert (Ho1 : zlen out1 = len_) by (unfold out1; rewrite zlen_zsplice; lia).
  assert (Ht1 : ztake (zlen got1) out1 = got1).
  { unfold out1. rewrite ztake_zsplice_end by (rewrite ?Hz1, ?Hzk; lia). rewrite Hgot. reflexivity. }
  assert (El : got ++ l = got1 ++ zdrop k l) by (unfold got1; rewrite <- app_assoc, ztake_zdrop; reflexivity).
  assert (Hzd : zlen (zdrop k l) = zlen l - k) by (apply zlen_zdrop; lia).
  assert (Hfd : (length (zdrop k l) < fuel)%nat) by (unfold zlen in *; lia).
  rewrite <- Hz1, El. destruct (Z.ltb_spec len_ max_len); cbn [andb].
  - change (kChunkSize / 2) with 2048. destruct (Z.ltb_spec (len_ - zlen got1) 2048); cbn [andb].
    + unfold kChunkSize. rewrite (u64_small (len_ + 4096)) by lia. rewrite (proj2 (Z.ltb_ge (len_ + 4096) 4096)) by lia. cbn [orb].
      set (len2 := if max_len <? len_ + 4096 then max_len else len_ + 4096).
      assert (Hl2 : len_ < len2 <= max_len /\ len2 <= len_ + 4096 /\ (len2 = max_len \/ len2 = len_ + 4096))
        by (unfold len2; destruct (Z.ltb_spec max_len (len_ + 4096)); lia).
      unfold realloc_io at 1. unfold bind at 1. destruct (OPENSSL_realloc (mem w1) (Some out1) len2) as [[out2|] h] eqn:Er.
      * apply OPENSSL_realloc_Some in Er as [Hr1 Hr2]; [|lia..].
        destruct (IH (zdrop k l) (with_mem h w1) out2 len2 got1 (feeds_mem _ _ _ h F1)) as (r & w' & E & HR); auto; try lia.
        { rewrite <- Ht1 at 2. rewrite <- Hr2 at 1. rewrite ztake_ztake by lia. reflexivity. }
        exists r, w'. split; [exact E|]. destruct r as [[out' n]|]; [exact HR|]. intros lim H1' G H2'. apply (HR lim); lia || exact G.
      * exists None, (with_mem h w1). split; [reflexivity|]. intros lim _ G Hlim.
        destruct (OPENSSL_realloc_grants lim (mem w1) out1 len2 G) as (? & ? & Eg & _); [lia..|]. congruence.
    + destruct (IH (zdrop k l) w1 out1 len_ got1 F1) as (r & w' & E & HR); auto; try lia.
      exists r, w'. split; [exact E|]. destruct r as [[out' n]|]; [exact HR|]. intros lim H1' G H2'. apply (HR lim); lia || exact G.
  - destruct (IH (zdrop k l) w1 out1 len_ got1 F1) as (r & w' & E & HR); auto; try lia.
    exists r, w'. split; [exact E|]. destruct r as [[out' n]|]; [exact HR|]. intros lim H1' G H2'. apply (HR lim); lia || exact G.
Qed.

Lemma bio_read_all_feeds fuel prefix l w max_len :
  feeds w0 a l 0 w -> zlen prefix = 2 -> 0 <= max_len < 2 ^ 64 -> (length l < fuel)%nat ->
  exists r w', bio_read_all fuel a prefix max_len w = (Some r, w') /\
    match r with
    | Some (out', n) => ztake n out' = prefix ++ l /\ n = zlen (prefix ++ l) /\ n < max_len /\ n <= zlen out' /\ feeds w0 a [] 0 w'
    | None => forall lim, zlen prefix + zlen l < max_len -> grants lim -> zlen prefix + zlen l + 8300 <= lim < 2 ^ 64 -> False
    end.
Proof.
  intros F Hp Hm Hf. pose proof (zlen_nonneg l). unfold bio_read_all, kChunkSize. rewrite (u64_small (zlen prefix + 4096)) by lia.
  set (len_ := if max_len <? zlen prefix + 4096 then max_len else zlen prefix + 4096).
  assert (Hlen : len_ <= max_len /\ len_ <= 4098 /\ (len_ = max_len \/ len_ = 4098))
    by (unfold len_; destruct (Z.ltb_spec max_len (zlen prefix + 4096)); lia).
  destruct (Z.ltb_spec len_ (zlen prefix)).
  { exists None, w. split; [reflexivity|]. lia. }
  unfold malloc_io at 1. unfold bind at 1. destruct (OPENSSL_malloc (mem w) len_) as [[blk|] h] eqn:Em.
  2:{ exists None, (with_mem h w). split; [reflexivity|]. intros lim _ G Hlim.
      destruct (OPENSSL_malloc_grants lim (mem w) len_ G) as (? & ? & Eg & _); [lia..|]. congruence. }
  apply OPENSSL_malloc_Some in Em as [Hb _]; [|lia]. rewrite put_at by lia. rewrite try_ok.
  apply (read_all_loop_feeds max_len fuel l (with_mem h w) _ len_ prefix); auto; try lia.
  - apply (feeds_mem _ _ _ h F).
  - rewrite zlen_zsplice; lia.
  - rewrite ztake_zsplice_end by lia. reflexivity.
  - pose proof (feeds_small _ _ _ F). unfold INT_MAX in *. lia.
Qed.
End Asn1.

(** ** An end value below -1 *)

(** Once the BIO is empty, the loop of [bio_read_all] counts down to a request that is
    negative as an [int]. *)
Lemma read_all_runs_away `{Malloc} `{Debug} `{Placement} w0 a e max_len out_ len_ :
  NDEBUG = true -> -2147483648 <= e < -1 -> 0 <= len_ <= max_len -> max_len < 2 ^ 62 ->
  forall m d w, feeds w0 a [] e w -> 0 < len_ - d -> (len_ < max_len -> 2048 <= len_ - d) ->
  2147483648 - (len_ - d) <= Z.of_nat m -> len_ - d < 2 ^ 32 ->
  exists fuel n w', read_all_loop fuel a out_ len_ (u64 d) max_len w = (Some (Some (out_, n)), w') /\
    exists d', n = u64 d' /\ 2147483648 <= len_ - d' < 2 ^ 32.
Proof.
  intros ND He Hlen Hmax. induction m as [|m IH]; intros d w F Hd Hgap Hm Htop.
  - exists 1%nat. cbn [read_all_loop]. assert (Ed : u64 (len_ - u64 d) = len_ - d).
    { unfold u64. rewrite Zminus_mod_idemp_r. apply Z.mod_small. lia. }
    rewrite (proj2 (Z.eqb_neq (u64 d) len_)).
    2:{ intros E. rewrite E, Z.sub_diag in Ed. change (u64 0) with 0 in Ed. lia. }
    rewrite Ed. unfold assert_. rewrite ND. rewrite ret_ok.
    assert (Es : s32 (len_ - d) = len_ - d - 4294967296).
    { unfold s32, u32. rewrite (Z.mod_small (len_ - d)) by lia. rewrite (proj2 (Z.ltb_ge _ 2147483648)) by lia. reflexivity. }
    rewrite Es. destruct F as (s & (pa & A & b & h & -> & IM) & _ & _). unfold BIO_read at 1.
    rewrite (proj2 (Z.eqb_neq a 0)) by apply (m_addr _ _ _ _ _ _ IM). mems. rewrite (m_init _ _ _ _ _ _ IM). change (1 =? 0) with false.
    cbv match. rewrite (proj2 (Z.leb_le (len_ - d - 4294967296) 0)) by lia. mems. change (put (u64 d) [] out_) with (Some out_).
    mems. cbn [Z.eqb]. do 2 eexists. split; [reflexivity|]. exists d. split; [reflexivity|lia].
  - destruct (Z_le_gt_dec 2147483648 (len_ - d)) as [Hbig|Hsmall]; [apply (IH d w F); lia|].
    destruct (BIO_read_feeds w0 a [] e w (len_ - d) F ltac:(unfold INT_MAX; lia)) as (w1 & E1 & F1).
    destruct (IH (d + e) w1 F1) as (fuel & n & w' & E & R); [lia..|]. exists (S fuel), n, w'. split; [|exact R].
    cbn [read_all_loop]. assert (Ed : u64 (len_ - u64 d) = len_ - d).
    { unfold u64. rewrite Zminus_mod_idemp_r. apply Z.mod_small. lia. }
    rewrite (proj2 (Z.eqb_neq (u64 d) len_)).
    2:{ intros E'. rewrite E', Z.sub_diag in Ed. change (u64 0) with 0 in Ed. lia. }
    rewrite Ed. unfold assert_. rewrite ND. rewrite ret_ok, s32_small by lia. rewrite (bind_Some _ _ _ _ _ E1).
    change (put (u64 d) [] out_) with (Some out_). rewrite try_ok. change (zlen [] =? 0) with true. cbv match.
    rewrite (proj2 (Z.eqb_neq e 0)), (proj2 (Z.eqb_neq e (-1))) by lia.
    assert (Eu : u64 (u64 d + e) = u64 (d + e)) by (unfold u64; apply Zplus_mod_idemp_l). rewrite Eu.
    assert (Ed2 : u64 (len_ - u64 (d + e)) = len_ - (d + e)).
    { unfold u64. rewrite Zminus_mod_idemp_r. apply Z.mod_small. lia. }
    rewrite Ed2. change (kChunkSize / 2) with 2048. destruct (Z.ltb_spec len_ max_len); cbn [andb]; [|exact E].
    rewrite (proj2 (Z.ltb_ge (len_ - (d + e)) 2048)) by lia. exact E.
Qed.

(** * Properties *)

(** A BIO that has just been made, and what it holds. *)
Definition made `{Malloc} `{Debug} `{Placement} (w w1 : world) (a : Z) (s : stream) : Prop :=
  a <> 0 /\
  (BIO_new mem_method w = (Some a, w1) /\ s = new_stream \/
   exists buf_ len_ bs, BIO_new_mem_buf buf_ len_ w = (Some a, w1) /\ handed buf_ len_ bs /\ s = buf_stream bs).

Lemma made_streams `{Malloc} `{Debug} `{Placement} w w1 a s : made w w1 a s -> streams w a s w1.
Proof.
  intros (Ha & [[E ->]|(buf_ & len_ & bs & E & Hh & ->)]).
  - destruct (BIO_new_mem_spec w) as (h & [[E' _]|(a' & pa & E' & IM)]); rewrite E' in E.
    + apply (f_equal fst) in E. cbn in E. congruence.
    + assert (a' = a) as -> by (apply (f_equal fst) in E; cbn in E; congruence). apply (f_equal snd) in E. cbn [snd] in E. subst w1.
      exists pa. do 3 eexists. split; [reflexivity|exact IM].
  - destruct (BIO_new_mem_buf_spec buf_ len_ bs w Hh) as (h & [[E' _]|(a' & pa & A & b & E' & IM)]); rewrite E' in E.
    + apply (f_equal fst) in E. cbn in E. congruence.
    + assert (a' = a) as -> by (apply (f_equal fst) in E; cbn in E; congruence). apply (f_equal snd) in E. cbn [snd] in E. subst w1.
      exists pa, A, b, h. auto.
Qed.

(** C17: A memory BIO behaves as a stream, whatever calls are made on it: a writable one is
    a queue of bytes bounded by INT_MAX and by memory, a write is refused as a whole
    and only for lack of either, one over a caller's buffer refuses writes and starts
    again after a reset; lines, the value at the end, retry flags and counters are those
    of the stream.  Freeing it frees everything. *)
Theorem mem_bio_refines_stream `{Malloc} `{Debug} `{Placement} (w w1 : world) (a : Z) (s : stream) (ops : list mem_op) :
  made w w1 a s -> Forall mem_op_ok ops ->
  exists granted w2 h, length granted = length ops /\ run_mem a ops w1 = (Some (fst (mem_spec granted ops s)), w2) /\
    BIO_free a w2 = (Some 1, with_mem h w) /\ (forall lim, grants lim -> enough lim -> Forall (eq true) granted).
Proof.
  intros Hm Hops. apply made_streams in Hm. destruct (run_mem_spec w a ops s w1 Hm Hops) as (granted & w2 & El & E & S & G).
  destruct S as (pa & A & b & h & -> & IM). exists granted, (mem_world a pa (with_mem h w) A b), h. split_and!; auto.
  apply (BIO_free_mem (with_mem h w) a pa A b (snd (mem_spec granted ops s))). destruct IM; constructor; auto.
Qed.

Definition mem_sample : list mem_op :=
  [MWrite [104; 105; 10; 111; 107]; MGets 80; MRead 1; MEof; MWrite [33]; MPending; MRead 9; MRead 9; MRetryFlags; MSetEof 0; MRead 9; MNumberRead].

Lemma mem_bio_refines_stream_witness :
  exists w1 w2, @BIO_new unlimited next_place mem_method (@empty_world unlimited tt) = (Some 1, w1) /\
    @run_mem unlimited debug_build next_place 1 mem_sample w1 =
      (Some [(5, []); (3, [104; 105; 10; 0]); (1, [111]); (0, []); (1, []); (2, []); (2, [107; 33]); (-1, []); (9, []); (1, []); (0, []); (6, [])], w2).
Proof.
  destruct (@BIO_new unlimited next_place mem_method (@empty_world unlimited tt)) as [[a|] w1] eqn:E;
    [|apply (f_equal fst) in E; vm_compute in E; discriminate].
  assert (a = 1) as -> by (apply (f_equal fst) in E; vm_compute in E; congruence).
  destruct (@mem_bio_refines_stream unlimited debug_build next_place (@empty_world unlimited tt) w1 1 new_stream mem_sample)
    as (granted & w2 & h & El & Er & _ & G).
  - split; [discriminate|]. left. auto.
  - repeat constructor; vm_compute; discriminate.
  - exists w1, w2. split; [reflexivity|]. rewrite Er. specialize (G 4000000000 (unlimited_grants _) ltac:(unfold enough; lia)).
    assert (granted = repeat true 12) as ->; [|vm_compute; reflexivity].
    change 12%nat with (length mem_sample). rewrite <- El. clear -G. induction G as [|x l <- G IH]; [reflexivity|]. cbn. f_equal. exact IH.
Defined.

(** C23: [BIO_read_asn1] on a memory BIO whose value at the end is 0 or negative, when the
    second byte is not the 0x80 of an indefinite length, reads exactly the DER elements with a low
    tag number: what it returns is the encoding of one, with minimal length octets, of
    at most [max_len] bytes, and leaves what follows it; and with memory every such
    element is returned.  (After 0x80 it returns whatever the BIO has:
    [BIO_read_asn1_indefinite].) *)
Theorem BIO_read_asn1_reads_der `{Malloc} `{Debug} `{Placement} (w0 w : world) (a max_len e : Z) (l : list Z) (fuel : nat) :
  feeds w0 a l e w -> bytes_ok l -> e <= 0 -> 0 <= max_len < 2 ^ 64 -> znth 0 1 l <> 128 ->
  (forall out_ n w', BIO_read_asn1 fuel a max_len w = (Some (inr (out_, n)), w') ->
     exists tag body rest, l = der tag body ++ rest /\ tag_ok tag /\ tag mod 2 ^ 29 < 31 /\ zlen body <= INT_MAX /\
       out_ = der tag body /\ n = zlen out_ /\ n <= max_len /\ feeds w0 a rest e w') /\
  (forall tag body rest lim, l = der tag body ++ rest -> tag_ok tag -> tag mod 2 ^ 29 < 31 -> zlen (der tag body) <= max_len ->
     grants lim -> zlen (der tag body) + 8 <= lim < 2 ^ 64 ->
     exists w', BIO_read_asn1 fuel a max_len w = (Some (inr (der tag body, zlen (der tag body))), w') /\ feeds w0 a rest e w').
Proof.
  intros F Hb He Hm H128. pose proof (BIO_read_asn1_head w0 a fuel l e w max_len F He Hb H128) as Hh. pose proof (feeds_small _ _ _ _ _ F) as Hsm.
  split.
  - intros out_ n w' E. destruct (head_of l) as [[hd k]|] eqn:Eh; [|destruct Hh as (err & w1 & E1); congruence].
    destruct Hh as (w1 & E1 & F1). apply (head_of_sound l hd k Hb) in Eh as (tag & Ht & Hlow & -> & El & Hk).
    pose proof (der_header_len tag k).
    destruct (read_contents_feeds w0 a _ e w1 (der_header tag k) k max_len F1 He Hk) as (r & w2 & E2 & R); [|exact Hm|].
    { unfold der_header, der_tag. rewrite (proj2 (Z.ltb_lt _ 31)) by exact Hlow. rewrite zlen_app. pose proof (der_length_len k).
      rewrite zlen_cons. change (zlen (@nil Z)) with 0. lia. }
    rewrite E1, E2 in E. injection E as -> ->. destruct R as (-> & -> & R1 & R2 & R3 & R4).
    set (body := ztake k (zdrop (zlen (der_header tag k)) l)) in *. exists tag, body, (zdrop k (zdrop (zlen (der_header tag k)) l)).
    assert (Ek : zlen body = k) by (apply zlen_ztake; lia). unfold der. rewrite Ek. split_and!; auto; try lia.
    rewrite <- app_assoc. unfold body. rewrite ztake_zdrop. exact El.
  - intros tag body rest lim El Ht Hlow Hfit G Hlim. pose proof (zlen_nonneg body) as Hbody. pose proof (zlen_nonneg rest).
    pose proof (der_header_len tag (zlen body)) as Hhl. assert (Hz : zlen (der tag body) = zlen (der_header tag (zlen body)) + zlen body) by apply zlen_app.
    assert (Hsmall : zlen body <= INT_MAX) by (rewrite El, zlen_app in Hsm; lia). unfold INT_MAX in *.
    assert (El2 : l = der_header tag (zlen body) ++ body ++ rest) by (rewrite El; unfold der; rewrite <- app_assoc; reflexivity).
    assert (Eh : head_of l = Some (der_header tag (zlen body), zlen body)) by (rewrite El2; apply head_of_complete; auto; lia).
    rewrite Eh in Hh. destruct Hh as (w1 & E1 & F1). rewrite El2, zdrop_app in F1.
    destruct (read_contents_feeds w0 a _ e w1 (der_header tag (zlen body)) (zlen body) max_len F1 He) as (r & w2 & E2 & R); [lia| |exact Hm|].
    { unfold der_header, der_tag. rewrite (proj2 (Z.ltb_lt _ 31)) by exact Hlow. rewrite zlen_app. pose proof (der_length_len (zlen body)).
      rewrite zlen_cons. change (zlen (@nil Z)) with 0. lia. }
    rewrite E1, E2. rewrite ztake_app, zdrop_app in R. destruct r as [err|[out_ n]].
    + exfalso. apply (R lim); [lia|unfold INT_MAX; lia|rewrite zlen_app; lia|exact G|lia].
    + destruct R as (-> & -> & _ & _ & _ & F2). exists w2. split; [reflexivity|exact F2].
Qed.

(** A BIO over a copy of a list, and what it feeds. *)
Lemma feeds_of_made `{Malloc} `{Debug} `{Placement} w w1 a bs :
  zlen bs <= INT_MAX -> a <> 0 -> BIO_new_mem_buf (Some {| block := bs; at_ := 0 |}) (zlen bs) w = (Some a, w1) -> feeds w a bs 0 w1.
Proof.
  intros Hs Ha E. exists (buf_stream bs). split; [|auto]. apply made_streams. split; [exact Ha|]. right.
  exists (Some {| block := bs; at_ := 0 |}), (zlen bs), bs. split; [exact E|]. split; [|reflexivity].
  unfold handed. cbn [at_ block]. split; [exact Hs|]. pose proof (zlen_nonneg bs). split_and!; try lia.
  unfold zsub, zdrop. cbn. apply ztake_all.
Qed.

Lemma feeds_set_eof `{Malloc} `{Debug} `{Placement} w a l e v w1 :
  feeds w a l e w1 -> exists w2, BIO_set_mem_eof_return a v w1 = (Some 1, w2) /\ feeds w a l (s32 v) w2.
Proof.
  intros (s & S & <- & <-). destruct (run_mem_op_spec (MSetEof v) w a s w1 S I) as (g & D). cbn [mem_op_spec run_mem_op] in D.
  destruct D as ((w2 & E & S2) & _). apply bind_inv in E as (r & w2' & E & Er). injection Er as -> ->. exists w2. split; [exact E|].
  exists (with_eof (s32 v) s). auto.
Qed.

Definition der_sample : list Z := [48; 3; 2; 1; 5; 99].

Lemma BIO_read_asn1_reads_der_witness :
  exists a w w1 w2, @BIO_new_mem_buf unlimited next_place (Some {| block := der_sample; at_ := 0 |}) 6 (@empty_world unlimited tt) = (Some a, w1) /\
    @BIO_read_asn1 unlimited debug_build 0 a 100 w1 = (Some (inr ([48; 3; 2; 1; 5], 5)), w2) /\ @feeds unlimited w a [99] 0 w2.
Proof.
  destruct (@BIO_new_mem_buf unlimited next_place (Some {| block := der_sample; at_ := 0 |}) 6 (@empty_world unlimited tt)) as [[a|] w1] eqn:E;
    [|apply (f_equal fst) in E; vm_compute in E; discriminate].
  assert (Ha : a <> 0) by (apply (f_equal fst) in E; vm_compute in E; intros ->; discriminate).
  pose proof (@feeds_of_made unlimited debug_build next_place _ w1 a der_sample ltac:(vm_compute; discriminate) Ha E) as F.
  destruct (@BIO_read_asn1_reads_der unlimited debug_build next_place (@empty_world unlimited tt) w1 a 100 0 der_sample 0 F
    ltac:(repeat constructor; lia) ltac:(lia) ltac:(lia) ltac:(vm_compute; discriminate)) as [_ C].
  destruct (C 536870928 [2; 1; 5] [99] 1000 eq_refl ltac:(unfold tag_ok; lia) ltac:(vm_compute; reflexivity) ltac:(vm_compute; discriminate)
    (unlimited_grants _) ltac:(vm_compute; split; [discriminate|reflexivity])) as (w2 & E2 & F2).
  exists a, (@empty_world unlimited tt), w1, w2. split; [reflexivity|]. split; [exact E2|exact F2].
Defined.

(** [BIO_read_asn1] on a memory BIO whose value at the end is 0 and which starts with
    the header of a constructed element of indefinite length: with fuel for one round
    per byte the loop over chunks comes to its end.  Then either everything the BIO had
    is returned, in fewer than [max_len] bytes, and the BIO is empty, or the call fails
    with "not enough data", and that only when there were [max_len] bytes or more or
    memory ran out.  (With -1 for the value at the end it fails as for any error of
    the BIO; what a value below -1 does is [BIO_read_asn1_overstates_length].) *)
Theorem BIO_read_asn1_indefinite `{Malloc} `{Debug} `{Placement} (w0 w : world) (a max_len t : Z) (r : list Z) (fuel : nat) :
  feeds w0 a (t :: 128 :: r) 0 w -> byte_ok t -> t mod 32 <> 31 -> Z.land t 32 <> 0 -> 0 <= max_len < 2 ^ 64 ->
  (length r < fuel)%nat ->
  exists o w', BIO_read_asn1 fuel a max_len w = (Some o, w') /\
    match o with
    | inr (out_, n) => ztake n out_ = t :: 128 :: r /\ n = zlen (t :: 128 :: r) /\ n < max_len /\ n <= zlen out_ /\ feeds w0 a [] 0 w'
    | inl err => err = NOT_ENOUGH_DATA /\
        forall lim, zlen (t :: 128 :: r) < max_len -> grants lim -> zlen (t :: 128 :: r) + 8300 <= lim < 2 ^ 64 -> False
    end.
Proof.
  intros F Ht Hlow Hc Hm Hf. unfold BIO_read_asn1. pose proof (zlen_nonneg r).
  destruct (read_full_feeds w0 a _ 0 w 2 F ltac:(lia) ltac:(unfold INT_MAX; lia)) as (w1 & E1 & F1). rewrite (bind_Some _ _ _ _ _ E1).
  assert (E2 : (2 <=? zlen (t :: 128 :: r)) = true) by (apply Z.leb_le; rewrite !zlen_cons; lia). rewrite E2.
  change (ztake 2 (t :: 128 :: r)) with [t; 128]. change (znth 0 0 [t; 128]) with t. change (znth 0 1 [t; 128]) with 128.
  change (zdrop 2 (t :: 128 :: r)) with r in F1. rewrite land_byte_31. rewrite (proj2 (Z.eqb_neq (t mod 32) 31)) by exact Hlow.
  change (Z.land 128 128 =? 0) with false. change (Z.land 128 127 =? 0) with true. rewrite (proj2 (Z.eqb_neq (Z.land t 32) 0)) by exact Hc.
  cbn [negb andb]. destruct (bio_read_all_feeds w0 a fuel [t; 128] r w1 max_len F1 eq_refl Hm Hf) as (o & w2 & E3 & R).
  rewrite (bind_Some _ _ _ _ _ E3). destruct o as [[out_ n]|].
  - exists (inr (out_, n)), w2. split; [reflexivity|exact R].
  - exists (inl NOT_ENOUGH_DATA), w2. split; [reflexivity|]. split; [reflexivity|]. rewrite !zlen_cons. change (zlen [t; 128]) with 2 in R.
    intros lim H1' G H2'. apply (R lim); auto; lia.
Qed.

Lemma BIO_read_asn1_indefinite_witness :
  exists a w1 o w2, @BIO_new_mem_buf unlimited next_place (Some {| block := [48; 128; 7; 0; 0]; at_ := 0 |}) 5 (@empty_world unlimited tt) = (Some a, w1) /\
    @BIO_read_asn1 unlimited debug_build 4 a 100 w1 = (Some (inr o), w2) /\ ztake (snd o) (fst o) = [48; 128; 7; 0; 0].
Proof.
  destruct (@BIO_new_mem_buf unlimited next_place (Some {| block := [48; 128; 7; 0; 0]; at_ := 0 |}) 5 (@empty_world unlimited tt)) as [[a|] w1] eqn:E;
    [|apply (f_equal fst) in E; vm_compute in E; discriminate].
  assert (Ha : a <> 0) by (apply (f_equal fst) in E; vm_compute in E; intros ->; discriminate).
  pose proof (@feeds_of_made unlimited debug_build next_place _ w1 a [48; 128; 7; 0; 0] ltac:(vm_compute; discriminate) Ha E) as F.
  destruct (@BIO_read_asn1_indefinite unlimited debug_build next_place (@empty_world unlimited tt) w1 a 100 48 [7; 0; 0] 4 F
    ltac:(unfold byte_ok; lia) ltac:(vm_compute; discriminate) ltac:(vm_compute; discriminate) ltac:(lia) ltac:(cbn; lia)) as (o & w2 & E2 & R).
  destruct o as [err|[out_ n]].
  - exfalso. destruct R as [_ R]. apply (R 10000); [vm_compute; reflexivity|apply unlimited_grants|vm_compute; split; [discriminate|reflexivity]].
  - exists a, w1, (out_, n), w2. split; [reflexivity|]. split; [exact E2|]. apply R.
Defined.

(** A memory BIO may be told to return a value below -1 at the end.  When such a BIO ends in
    the middle of an element of indefinite length, [bio_read_all] takes the value for a
    number of bytes: in a build without assertions [BIO_read_asn1] reports success, with
    a length far beyond the block it returns. *)
Theorem BIO_read_asn1_overstates_length `{Malloc} `{Debug} `{Placement} (w0 w : world) (a max_len t e lim : Z) :
  feeds w0 a [t; 128] e w -> byte_ok t -> t mod 32 <> 31 -> Z.land t 32 <> 0 -> 2 < max_len < 2 ^ 62 ->
  NDEBUG = true -> -2147483648 <= e < -1 -> grants lim -> 5000 <= lim < 2 ^ 64 ->
  exists fuel out_ n w', BIO_read_asn1 fuel a max_len w = (Some (inr (out_, n)), w') /\ zlen out_ <= 4098 /\ 2 ^ 63 < n.
Proof.
  intros F Ht Hlow Hc Hm ND He G Hlim.
  destruct (read_full_feeds w0 a _ e w 2 F ltac:(lia) ltac:(unfold INT_MAX; lia)) as (w1 & E1 & F1).
  change (2 <=? zlen [t; 128]) with true in E1. change (ztake 2 [t; 128]) with [t; 128] in E1. cbv match in E1. change (zdrop 2 [t; 128]) with (@nil Z) in F1.
  set (len_ := if max_len <? 4098 then max_len else 4098).
  assert (Hlen : 2 < len_ <= max_len /\ len_ <= 4098 /\ (len_ = max_len \/ len_ = 4098))
    by (unfold len_; destruct (Z.ltb_spec max_len 4098); lia).
  destruct (OPENSSL_malloc_grants lim (mem w1) len_ G) as (blk & h & Em & Hb); [lia..|].
  destruct (read_all_runs_away w0 a e max_len (zsplice 0 [t; 128] blk) len_ ND He ltac:(lia) ltac:(lia) (Z.to_nat 2147483648) 2 (with_mem h w1)
    (feeds_mem _ _ _ _ _ h F1)) as (fuel & n & w' & E & d' & -> & Hd'); [lia..|].
  exists fuel, (zsplice 0 [t; 128] blk), (u64 d'), w'. split; [|split].
  - unfold BIO_read_asn1. rewrite (bind_Some _ _ _ _ _ E1).
    change (znth 0 0 [t; 128]) with t. change (znth 0 1 [t; 128]) with 128. rewrite land_byte_31.
    rewrite (proj2 (Z.eqb_neq (t mod 32) 31)) by exact Hlow.
    change (Z.land 128 128 =? 0) with false. change (Z.land 128 127 =? 0) with true. rewrite (proj2 (Z.eqb_neq (Z.land t 32) 0)) by exact Hc.
    cbn [negb andb]. unfold bio_read_all. change (u64 (zlen [t; 128] + kChunkSize)) with 4098. change (zlen [t; 128]) with 2. fold len_.
    rewrite (proj2 (Z.ltb_ge len_ 2)) by lia. rewrite bind_bind. unfold malloc_io, bind at 1. rewrite Em.
    rewrite put_at by (change (zlen [t; 128]) with 2; lia). rewrite bind_bind, try_ok. change (u64 2) with 2 in E. rewrite (bind_Some _ _ _ _ _ E). reflexivity.
  - rewrite zlen_zsplice by (change (zlen [t; 128]) with 2; lia). lia.
  - unfold u64. dlia.
Qed.

Lemma BIO_read_asn1_overstates_length_witness :
  exists a w1 w2 w3 out_ n fuel,
    @BIO_new_mem_buf unlimited next_place (Some {| block := [48; 128]; at_ := 0 |}) 2 (@empty_world unlimited tt) = (Some a, w1) /\
    BIO_set_mem_eof_return a (-2) w1 = (Some 1, w2) /\
    @BIO_read_asn1 unlimited release_build fuel a 100 w2 = (Some (inr (out_, n)), w3) /\ zlen out_ <= 4098 /\ 2 ^ 63 < n.
Proof.
  destruct (@BIO_new_mem_buf unlimited next_place (Some {| block := [48; 128]; at_ := 0 |}) 2 (@empty_world unlimited tt)) as [[a|] w1] eqn:E;
    [|apply (f_equal fst) in E; vm_compute in E; discriminate].
  assert (Ha : a <> 0) by (apply (f_equal fst) in E; vm_compute in E; intros ->; discriminate).
  pose proof (@feeds_of_made unlimited release_build next_place _ w1 a [48; 128] ltac:(vm_compute; discriminate) Ha E) as F.
  destruct (@feeds_set_eof unlimited release_build next_place _ a [48; 128] 0 (-2) w1 F) as (w2 & E2 & F2).
  destruct (@BIO_read_asn1_overstates_length unlimited release_build next_place _ w2 a 100 48 (-2) 100000 F2
    ltac:(unfold byte_ok; lia) ltac:(vm_compute; discriminate) ltac:(vm_compute; discriminate) ltac:(lia) eq_refl ltac:(lia)
    (unlimited_grants _) ltac:(lia)) as (fuel & out_ & n & w3 & E3 & H1 & H2).
  exists a, w1, w2, w3, out_, n, fuel. auto.
Defined.
