(* ===== verification/BnWords.v ===== *)
(** crypto/fipsmodule/bn: arithmetic on arrays of 64-bit words, least significant
    first: addition, subtraction and multiplication by a word (generic.c),
    comparison (cmp.c), the carry and borrow loops (add.c) and shifts (shift.c).
    Each is proved against the number the words stand for. *)
From Stdlib Require Import ZArith Lia.
From stdpp Require Import base list numbers.
From S2P Require Import Prelude.
From S2P Require Import ConstTime.

Open Scope Z_scope.

Abbreviation B := 18446744073709551616.

(** * The code *)

Definition BN_BITS2 : Z := 64.
Definition BN_BYTES : Z := 8.
Definition BN_MASK2 : Z := 18446744073709551615.

(** The low and the high word of a [BN_ULLONG]. *)
Definition Lw (t : Z) : Z := u64 t.
Definition Hw (t : Z) : Z := u64 (Z.shiftr t BN_BITS2).
Definition u128 (t : Z) : Z := t mod 340282366920938463463374607431768211456.

(** One word of [bn_add_words], [bn_sub_words], [bn_mul_words] and
    [bn_mul_add_words]: the word stored and what is carried on. *)
Definition add_word (ll a b : Z) : Z * Z :=
  let ll := u128 (ll + u128 (a + b)) in
  (Lw ll, Z.shiftr ll BN_BITS2).

Definition sub_word (c t1 t2 : Z) : Z * Z :=
  (u64 (t1 - t2 - c), if negb (t1 =? t2) then (if t1 <? t2 then 1 else 0) else c).

Definition mul (w c a : Z) (_ : Z) : Z * Z :=
  let t := u128 (w * a + c) in (Lw t, Hw t).

Definition mul_add (w c a r : Z) : Z * Z :=
  let t := u128 (w * a + r + c) in (Lw t, Hw t).

(** The loops: four words a round, then one by one. *)
Section Loops.
Context (step : Z -> Z -> Z -> Z * Z).

Fixpoint words1 (c : Z) (a b : list Z) : list Z * Z :=
  match a, b with
  | x :: a, y :: b => let '(r, c) := step c x y in let '(rs, c) := words1 c a b in (r :: rs, c)
  | _, _ => ([], c)
  end.

Fixpoint words4 (c : Z) (a b : list Z) : list Z * Z :=
  match a, b with
  | a0 :: a1 :: a2 :: a3 :: a', b0 :: b1 :: b2 :: b3 :: b' =>
    let '(r0, c) := step c a0 b0 in
    let '(r1, c) := step c a1 b1 in
    let '(r2, c) := step c a2 b2 in
    let '(r3, c) := step c a3 b3 in
    let '(rs, c) := words4 c a' b' in
    (r0 :: r1 :: r2 :: r3 :: rs, c)
  | _, _ => words1 c a b
  end.
End Loops.

Definition bn_add_words (a b : list Z) (n : Z) : list Z * Z :=
  let '(r, ll) := words4 add_word 0 (ztake n a) (ztake n b) in (r, u64 ll).

Definition bn_sub_words (a b : list Z) (n : Z) : list Z * Z :=
  words4 sub_word 0 (ztake n a) (ztake n b).

Definition bn_mul_words (ap : list Z) (num w : Z) : list Z * Z :=
  words4 (mul w) 0 (ztake num ap) (ztake num ap).

Definition bn_mul_add_words (rp ap : list Z) (num w : Z) : list Z * Z :=
  words4 (mul_add w) 0 (ztake num ap) (ztake num rp).

(** The rest of the longer number in [bn_uadd_consttime] and [bn_usub_consttime]. *)
Fixpoint carry_words (carry : Z) (a : list Z) : list Z * Z :=
  match a with
  | [] => ([], carry)
  | x :: a =>
    let tmp := u64 (carry + x) in
    let '(rs, c) := carry_words (if tmp <? x then 1 else 0) a in (tmp :: rs, c)
  end.

Fixpoint borrow_words (borrow : Z) (a : list Z) : list Z * Z :=
  match a with
  | [] => ([], borrow)
  | x :: a =>
    let r := u64 (x - borrow) in
    let '(rs, c) := borrow_words (if x <? r then 1 else 0) a in (r :: rs, c)
  end.

(** [mask |= words[i]] over an array. *)
Definition or_words (mask : Z) (a : list Z) : Z := fold_left Z.lor a mask.

Fixpoint cmp_loop (ret : Z) (a b : list Z) : Z :=
  match a, b with
  | x :: a, y :: b =>
    let eq := constant_time_eq_w x y in
    let lt := constant_time_lt_w x y in
    cmp_loop (constant_time_select_int eq ret (constant_time_select_int lt (-1) 1)) a b
  | _, _ => ret
  end.

Definition bn_cmp_words_consttime (a b : list Z) : Z :=
  let a_len := zlen a in
  let b_len := zlen b in
  let min := if a_len <? b_len then a_len else b_len in
  let ret := cmp_loop 0 (ztake min a) (ztake min b) in
  if a_len <? b_len then
    constant_time_select_int (constant_time_is_zero_w (or_words 0 (zdrop a_len b))) ret (-1)
  else if b_len <? a_len then
    constant_time_select_int (constant_time_is_zero_w (or_words 0 (zdrop b_len a))) ret 1
  else ret.

Definition bn_less_than_words (a b : list Z) (len : Z) : bool :=
  bn_cmp_words_consttime (ztake len a) (ztake len b) <? 0.

(** * The number an array of words stands for *)

Fixpoint val (l : list Z) : Z :=
  match l with [] => 0 | x :: l => x + B * val l end.

Abbreviation words := (Forall word).

Lemma val_app l k : val (l ++ k) = val l + B ^ zlen l * val k.
Proof.
  induction l as [|x l IH]; cbn [app val]; [change (zlen []) with 0; lia|].
  rewrite IH, zlen_cons, Z.pow_add_r by (pose proof (zlen_nonneg l); lia). lia.
Qed.

Lemma val_bound l : words l -> 0 <= val l < B ^ zlen l.
Proof.
  induction 1 as [|x l Hx Hl IH]; cbn [val]; [change (zlen []) with 0; lia|].
  rewrite zlen_cons, Z.pow_add_r by (pose proof (zlen_nonneg l); lia). change (B ^ 1) with B. unfold word in Hx. nia.
Qed.

Lemma val_zrep n : val (zrep n 0) = 0.
Proof. unfold zrep. induction (Z.to_nat n); cbn [replicate val]; lia. Qed.

Lemma val_snoc l x : val (l ++ [x]) = val l + B ^ zlen l * x.
Proof. rewrite val_app. cbn [val]. lia. Qed.

Lemma words_zrep n : words (zrep n 0).
Proof. apply Forall_replicate. unfold word. lia. Qed.

Lemma words_ztake n l : words l -> words (ztake n l).
Proof. apply Forall_take. Qed.

Lemma words_zdrop n l : words l -> words (zdrop n l).
Proof. apply Forall_drop. Qed.

Lemma words_zsplice i k l : words l -> words k -> words (zsplice i k l).
Proof. intros Hl Hk. unfold zsplice. rewrite !Forall_app. auto using words_ztake, words_zdrop. Qed.

Lemma word_u64 x : word (u64 x).
Proof. apply u64_range. Qed.

Create HintDb words.
#[export] Hint Resolve words_ztake words_zdrop words_zsplice words_zrep word_u64 : words.

(** The high words in a number: which numbers fit in [n] words. *)
Lemma val_ztake_zdrop n l : 0 <= n <= zlen l -> val l = val (ztake n l) + B ^ n * val (zdrop n l).
Proof. intros Hn. rewrite <- (ztake_zdrop n l) at 1. rewrite val_app, zlen_ztake by exact Hn. reflexivity. Qed.

Lemma val_nonneg l : words l -> 0 <= val l.
Proof. intros Hl. apply val_bound, Hl. Qed.

Lemma val_zero l : words l -> val l = 0 -> l = zrep (zlen l) 0.
Proof.
  induction 1 as [|x l Hx Hl IH]; cbn [val]; [reflexivity|]. pose proof (val_nonneg l Hl). unfold word in Hx. intros E.
  assert (x = 0) as -> by lia. rewrite IH at 1 by lia. unfold zrep. rewrite zlen_cons.
  replace (Z.to_nat (1 + zlen l)) with (S (Z.to_nat (zlen l))) by (pose proof (zlen_nonneg l); lia). reflexivity.
Qed.

Lemma B_pow_pos n : 0 <= n -> 0 < B ^ n.
Proof. intros Hn. apply Z.pow_pos_nonneg; lia. Qed.

(** A number below [B ^ n] is in its first [n] words. *)
Lemma val_fits n l : words l -> 0 <= n <= zlen l -> val l < B ^ n -> val (ztake n l) = val l.
Proof.
  intros Hl Hn. rewrite (val_ztake_zdrop n l) by exact Hn. pose proof (val_nonneg (zdrop n l) (words_zdrop n l Hl)).
  pose proof (val_nonneg (ztake n l) (words_ztake n l Hl)). destruct (Z.eq_dec (val (zdrop n l)) 0) as [->|]; [lia|].
  intros Hlt. assert (B ^ n * 1 <= B ^ n * val (zdrop n l)); [|lia]. apply Z.mul_le_mono_nonneg_l; [pose proof (B_pow_pos n)|]; lia.
Qed.

(** * The loops *)

Lemma words4_words1 step a : forall c b, words4 step c a b = words1 step c a b.
Proof.
  assert (Hind : forall n a, (length a <= n)%nat -> forall c b, words4 step c a b = words1 step c a b).
  2: { intros c b. apply (Hind (length a)). lia. }
  clear a. induction n as [|n IH]; intros a Hn c b; destruct a as [|a0 [|a1 [|a2 [|a3 a]]]]; cbn [length] in Hn; try lia;
    destruct b as [|b0 [|b1 [|b2 [|b3 b]]]]; cbn [words4]; try reflexivity.
  cbn [words1]. destruct (step c a0 b0) as [r0 c0], (step c0 a1 b1) as [r1 c1], (step c1 a2 b2) as [r2 c2], (step c2 a3 b3) as [r3 c3].
  rewrite IH by lia. destruct (words1 step c3 a b) as [rs c4]. reflexivity.
Qed.

(** What a loop computes, from what its step computes on words. *)
Lemma words1_val step (op : Z -> Z -> Z) (good : Z -> Prop) (sign : Z) :
  (forall c x y, good c -> word x -> word y ->
     let '(r, c') := step c x y in word r /\ good c' /\ r + sign * (B * c') = op x y + sign * c) ->
  forall a b c, words a -> words b -> length a = length b -> good c ->
  let '(rs, c') := words1 step c a b in
  words rs /\ zlen rs = zlen a /\ good c' /\
  val rs + sign * (B ^ zlen a * c') = foldr (fun p s => op p.1 p.2 + B * s) 0 (zip a b) + sign * c.
Proof.
  intros Hs. induction a as [|x a IH]; intros [|y b] c Ha Hb Hl Hc; try discriminate; cbn [words1 zip zip_with foldr fst snd].
  - change (zlen []) with 0. split_and!; [constructor|reflexivity|exact Hc|]. cbn [val]. lia.
  - apply List.Forall_cons_iff in Ha as [Hx Ha]. apply List.Forall_cons_iff in Hb as [Hy Hb].
    specialize (Hs c x y Hc Hx Hy). destruct (step c x y) as [r c1]. destruct Hs as (Hr & Hc1 & E).
    specialize (IH b c1 Ha Hb ltac:(cbn [length] in Hl; lia) Hc1). destruct (words1 step c1 a b) as [rs c2].
    destruct IH as (Hrs & Hlen & Hc2 & E2). split_and!; [constructor; assumption|rewrite !zlen_cons; lia|exact Hc2|].
    cbn [val]. rewrite zlen_cons, Z.pow_add_r by (pose proof (zlen_nonneg a); lia). change (B ^ 1) with B.
    change (zip a b) with (zip_with pair a b) in E2. nia.
Qed.

Lemma foldr_zip_add a : forall b, length a = length b ->
  foldr (fun p s => p.1 + p.2 + B * s) 0 (zip a b) = val a + val b.
Proof.
  induction a as [|x a IH]; intros [|y b] Hl; try discriminate; cbn [zip zip_with foldr fst snd val]; [reflexivity|].
  change (zip_with pair a b) with (zip a b). rewrite IH by (cbn [length] in Hl; lia). lia.
Qed.

Lemma foldr_zip_sub a : forall b, length a = length b ->
  foldr (fun p s => p.1 - p.2 + B * s) 0 (zip a b) = val a - val b.
Proof.
  induction a as [|x a IH]; intros [|y b] Hl; try discriminate; cbn [zip zip_with foldr fst snd val]; [reflexivity|].
  change (zip_with pair a b) with (zip a b). rewrite IH by (cbn [length] in Hl; lia). lia.
Qed.

Lemma foldr_zip_mul_add w a : forall b, length a = length b ->
  foldr (fun p s => w * p.1 + p.2 + B * s) 0 (zip a b) = w * val a + val b.
Proof.
  induction a as [|x a IH]; intros [|y b] Hl; try discriminate; cbn [zip zip_with foldr fst snd val]; [lia|].
  change (zip_with pair a b) with (zip a b). rewrite IH by (cbn [length] in Hl; lia). lia.
Qed.

(** A carry or borrow. *)
Definition bit (c : Z) : Prop := c = 0 \/ c = 1.

Lemma divB x : Z.shiftr x BN_BITS2 = x / B.
Proof. unfold BN_BITS2. rewrite Z.shiftr_div_pow2 by lia. reflexivity. Qed.

Lemma u128_small x : 0 <= x < B * B -> u128 x = x.
Proof. intros Hx. unfold u128. apply Z.mod_small. lia. Qed.

Lemma add_word_val c x y :
  bit c -> word x -> word y -> let '(r, c') := add_word c x y in word r /\ bit c' /\ r + 1 * (B * c') = x + y + 1 * c.
Proof.
  unfold bit, word, add_word, Lw. intros Hc Hx Hy. rewrite (u128_small (x + y)), u128_small, divB by lia.
  unfold u64. pose proof (Z.div_mod (c + (x + y)) B ltac:(lia)). pose proof (Z.mod_pos_bound (c + (x + y)) B ltac:(lia)).
  split; [lia|]. split; [|lia].
  assert (0 <= (c + (x + y)) / B < 2) by (split; [apply Z.div_pos; lia|apply Z.div_lt_upper_bound; lia]). lia.
Qed.

Lemma sub_word_val c x y :
  bit c -> word x -> word y -> let '(r, c') := sub_word c x y in word r /\ bit c' /\ r + (-1) * (B * c') = x - y + (-1) * c.
Proof.
  unfold bit, word, sub_word. intros Hc Hx Hy. destruct (Z.eqb_spec x y) as [->|Hne]; cbn [negb].
  - split; [apply u64_range|]. split; [exact Hc|]. replace (y - y - c) with (- c) by lia.
    destruct Hc as [-> | ->]; [change (u64 (- 0)) with 0|change (u64 (- (1))) with (B - 1)]; lia.
  - split; [apply u64_range|]. unfold u64. destruct (Z.ltb_spec x y); (split; [lia|]).
    + replace ((x - y - c) mod B) with (x - y - c + B); [lia|]. apply Z.mod_unique with (-1); lia.
    + rewrite Z.mod_small by lia. lia.
Qed.

Lemma mul_add_val w c x y :
  word w -> word c -> word x -> word y ->
  let '(r, c') := mul_add w c x y in word r /\ word c' /\ r + 1 * (B * c') = w * x + y + 1 * c.
Proof.
  unfold word. intros Hword Hc Hx Hy. unfold mul_add, Lw, Hw.
  assert (Hr : 0 <= w * x + y + c < B * B) by nia.
  rewrite u128_small, divB by exact Hr. set (t := w * x + y + c) in *.
  pose proof (Z.div_mod t B ltac:(lia)). pose proof (Z.mod_pos_bound t B ltac:(lia)).
  assert (Hd : 0 <= t / B < B) by (split; [apply Z.div_pos; lia|apply Z.div_lt_upper_bound; lia]).
  rewrite (u64_small (t / B)) by lia. unfold u64. split; [lia|]. split; [lia|]. lia.
Qed.

Lemma mul_val w c x y :
  word w -> word c -> word x -> word y ->
  let '(r, c') := mul w c x y in word r /\ word c' /\ r + 1 * (B * c') = w * x + 0 + 1 * c.
Proof.
  intros Hword Hc Hx Hy. pose proof (mul_add_val w c x 0 Hword Hc Hx) as Hm. unfold mul_add in Hm. unfold mul.
  rewrite Z.add_0_r in *. apply Hm. unfold word. lia.
Qed.

Lemma bn_add_words_spec a b n :
  words a -> words b -> 0 <= n <= zlen a -> n <= zlen b ->
  let '(rs, c) := bn_add_words a b n in
  words rs /\ zlen rs = n /\ bit c /\ val rs + B ^ n * c = val (ztake n a) + val (ztake n b).
Proof.
  intros Ha Hb Hna Hnb. unfold bn_add_words. rewrite words4_words1.
  assert (Hl : length (ztake n a) = length (ztake n b)).
  { pose proof (zlen_ztake n a ltac:(lia)). pose proof (zlen_ztake n b ltac:(lia)). unfold zlen in *. lia. }
  pose proof (words1_val add_word Z.add bit 1 add_word_val (ztake n a) (ztake n b) 0 ltac:(auto with words) ltac:(auto with words) Hl (or_introl eq_refl)) as Hv.
  destruct (words1 _ _ _ _) as [rs c]. rewrite foldr_zip_add in Hv by exact Hl. rewrite zlen_ztake in Hv by lia.
  destruct Hv as (Hrs & Hlen & Hc & E). rewrite u64_small by (unfold bit in Hc; lia). split_and!; auto. lia.
Qed.

Lemma bn_sub_words_spec a b n :
  words a -> words b -> 0 <= n <= zlen a -> n <= zlen b ->
  let '(rs, c) := bn_sub_words a b n in
  words rs /\ zlen rs = n /\ bit c /\ val rs - B ^ n * c = val (ztake n a) - val (ztake n b).
Proof.
  intros Ha Hb Hna Hnb. unfold bn_sub_words. rewrite words4_words1.
  assert (Hl : length (ztake n a) = length (ztake n b)).
  { pose proof (zlen_ztake n a ltac:(lia)). pose proof (zlen_ztake n b ltac:(lia)). unfold zlen in *. lia. }
  pose proof (words1_val sub_word Z.sub bit (-1) sub_word_val (ztake n a) (ztake n b) 0 ltac:(auto with words) ltac:(auto with words) Hl (or_introl eq_refl)) as Hv.
  destruct (words1 _ _ _ _) as [rs c]. rewrite foldr_zip_sub in Hv by exact Hl. rewrite zlen_ztake in Hv by lia.
  destruct Hv as (Hrs & Hlen & Hc & E). split_and!; auto. lia.
Qed.

Lemma bn_mul_words_spec a n w :
  words a -> word w -> 0 <= n <= zlen a ->
  let '(rs, c) := bn_mul_words a n w in
  words rs /\ zlen rs = n /\ word c /\ val rs + B ^ n * c = w * val (ztake n a).
Proof.
  intros Ha Hword Hn. unfold bn_mul_words. rewrite words4_words1.
  pose proof (words1_val (mul w) (fun x _ => w * x + 0) word 1 (fun c x y => mul_val w c x y Hword) (ztake n a) (ztake n a) 0
    ltac:(auto with words) ltac:(auto with words) eq_refl ltac:(unfold word; lia)) as Hv.
  destruct (words1 _ _ _ _) as [rs c]. rewrite zlen_ztake in Hv by lia. destruct Hv as (Hrs & Hlen & Hc & E). split_and!; auto.
  assert (Ef : forall l, foldr (fun p s => w * p.1 + 0 + B * s) 0 (zip l l) = w * val l).
  { intros l. induction l as [|x l IH]; cbn [zip zip_with foldr fst val]; [lia|]. change (zip_with pair l l) with (zip l l). rewrite IH. lia. }
  rewrite Ef in E. lia.
Qed.

Lemma bn_mul_add_words_spec r a n w :
  words r -> words a -> word w -> 0 <= n <= zlen a -> n <= zlen r ->
  let '(rs, c) := bn_mul_add_words r a n w in
  words rs /\ zlen rs = n /\ word c /\ val rs + B ^ n * c = w * val (ztake n a) + val (ztake n r).
Proof.
  intros Hr Ha Hword Hna Hnr. unfold bn_mul_add_words. rewrite words4_words1.
  assert (Hl : length (ztake n a) = length (ztake n r)).
  { pose proof (zlen_ztake n a ltac:(lia)). pose proof (zlen_ztake n r ltac:(lia)). unfold zlen in *. lia. }
  pose proof (words1_val (mul_add w) (fun x y => w * x + y) word 1 (fun c x y => mul_add_val w c x y Hword) (ztake n a) (ztake n r) 0
    ltac:(auto with words) ltac:(auto with words) Hl ltac:(unfold word; lia)) as Hv.
  destruct (words1 _ _ _ _) as [rs c]. rewrite foldr_zip_mul_add in Hv by exact Hl. rewrite zlen_ztake in Hv by lia.
  destruct Hv as (Hrs & Hlen & Hc & E). split_and!; auto. lia.
Qed.

Lemma carry_words_spec a : forall c,
  words a -> bit c ->
  let '(rs, c') := carry_words c a in words rs /\ zlen rs = zlen a /\ bit c' /\ val rs + B ^ zlen a * c' = val a + c.
Proof.
  induction a as [|x a IH]; intros c Ha Hc; cbn [carry_words].
  - change (zlen []) with 0. cbn [val]. split_and!; [constructor|reflexivity|exact Hc|lia].
  - apply List.Forall_cons_iff in Ha as [Hx Ha].
    assert (Hs : bit (if u64 (c + x) <? x then 1 else 0) /\ u64 (c + x) + B * (if u64 (c + x) <? x then 1 else 0) = x + c).
    { unfold bit, word, u64 in *. destruct (Z.ltb_spec (c + x) B).
      - rewrite Z.mod_small by lia. destruct (Z.ltb_spec (c + x) x); lia.
      - replace ((c + x) mod B) with (c + x - B) by (apply Z.mod_unique with 1; lia). destruct (Z.ltb_spec (c + x - B) x); lia. }
    destruct Hs as [Hc1 E]. specialize (IH _ Ha Hc1). destruct (carry_words _ a) as [rs c'].
    destruct IH as (Hrs & Hlen & Hc' & E'). split_and!; [constructor; [apply word_u64|exact Hrs]|rewrite !zlen_cons; lia|exact Hc'|].
    cbn [val]. rewrite zlen_cons, Z.pow_add_r by (pose proof (zlen_nonneg a); lia). change (B ^ 1) with B. lia.
Qed.

Lemma borrow_words_spec a : forall c,
  words a -> bit c ->
  let '(rs, c') := borrow_words c a in words rs /\ zlen rs = zlen a /\ bit c' /\ val rs - B ^ zlen a * c' = val a - c.
Proof.
  induction a as [|x a IH]; intros c Ha Hc; cbn [borrow_words].
  - change (zlen []) with 0. cbn [val]. split_and!; [constructor|reflexivity|exact Hc|lia].
  - apply List.Forall_cons_iff in Ha as [Hx Ha].
    assert (Hs : bit (if x <? u64 (x - c) then 1 else 0) /\ u64 (x - c) - B * (if x <? u64 (x - c) then 1 else 0) = x - c).
    { unfold bit, word, u64 in *. destruct (Z.ltb_spec x c).
      - replace ((x - c) mod B) with (x - c + B) by (apply Z.mod_unique with (-1); lia). destruct (Z.ltb_spec x (x - c + B)); lia.
      - rewrite Z.mod_small by lia. destruct (Z.ltb_spec x (x - c)); lia. }
    destruct Hs as [Hc1 E]. specialize (IH _ Ha Hc1). destruct (borrow_words _ a) as [rs c'].
    destruct IH as (Hrs & Hlen & Hc' & E'). split_and!; [constructor; [apply word_u64|exact Hrs]|rewrite !zlen_cons; lia|exact Hc'|].
    cbn [val]. rewrite zlen_cons, Z.pow_add_r by (pose proof (zlen_nonneg a); lia). change (B ^ 1) with B. lia.
Qed.

(** * Comparison *)

Lemma or_words_spec l : forall m, words l -> word m -> word (or_words m l) /\ (or_words m l = 0 <-> m = 0 /\ val l = 0).
Proof.
  unfold or_words. induction l as [|x l IH]; intros m Hl Hm; cbn [fold_left val]; [tauto|].
  apply List.Forall_cons_iff in Hl as [Hx Hl]. assert (Ho : word (Z.lor m x)) by (apply lor_range; unfold word in *; lia).
  destruct (IH _ Hl Ho) as [Hw E]. split; [exact Hw|]. rewrite E, Z.lor_eq_0_iff. pose proof (val_nonneg l Hl). unfold word in *. lia.
Qed.

(** The sign of a difference. *)
Definition cmp_val (a b : Z) : Z := match a ?= b with Lt => -1 | Eq => 0 | Gt => 1 end.

Lemma select_int_mask (b : bool) x y : -1 <= x <= 1 -> -1 <= y <= 1 ->
  constant_time_select_int (mask_w b) x y = if b then x else y.
Proof.
  intros Hx Hy. unfold constant_time_select_int. rewrite select_w_mask by apply u64_word.
  assert (E : forall z, -1 <= z <= 1 -> s32 (u64 z) = z).
  { intros z Hz. assert (z = -1 \/ z = 0 \/ z = 1) as [-> | [-> | ->]] by lia; reflexivity. }
  destruct b; apply E; assumption.
Qed.

Lemma cmp_loop_spec a : forall b ret,
  words a -> words b -> length a = length b -> -1 <= ret <= 1 ->
  cmp_loop ret a b = if val a =? val b then ret else cmp_val (val a) (val b).
Proof.
  induction a as [|x a IH]; intros [|y b] ret Ha Hb Hl Hr; try discriminate; cbn [cmp_loop val]; [reflexivity|].
  apply List.Forall_cons_iff in Ha as [Hx Ha]. apply List.Forall_cons_iff in Hb as [Hy Hb].
  rewrite eq_w_mask, lt_w_mask by assumption. rewrite (select_int_mask (x <? y)) by lia.
  rewrite select_int_mask by (try exact Hr; destruct (x <? y); lia).
  rewrite IH; auto; [|destruct (x =? y), (x <? y); lia]. unfold cmp_val, word in *.
  destruct (Z.eqb_spec (val a) (val b)) as [->|Hne].
  - destruct (Z.eqb_spec x y) as [->|Hxy]; [rewrite Z.eqb_refl; reflexivity|].
    destruct (Z.eqb_spec (x + B * val b) (y + B * val b)); [lia|].
    destruct (Z.ltb_spec x y), (Z.compare_spec (x + B * val b) (y + B * val b)); lia.
  - destruct (Z.eqb_spec (x + B * val a) (y + B * val b)); [lia|].
    destruct (Z.compare_spec (val a) (val b)), (Z.compare_spec (x + B * val a) (y + B * val b)); nia.
Qed.

Lemma bn_cmp_words_spec a b : words a -> words b -> bn_cmp_words_consttime a b = cmp_val (val a) (val b).
Proof.
  intros Ha Hb. unfold bn_cmp_words_consttime. set (n := if zlen a <? zlen b then zlen a else zlen b).
  pose proof (zlen_nonneg a). pose proof (zlen_nonneg b).
  assert (Hn : 0 <= n <= zlen a /\ n <= zlen b) by (unfold n; destruct (Z.ltb_spec (zlen a) (zlen b)); lia).
  rewrite cmp_loop_spec; auto with words; [|pose proof (zlen_ztake n a); pose proof (zlen_ztake n b); unfold zlen in *; lia|lia].
  rewrite (val_ztake_zdrop n a), (val_ztake_zdrop n b) by lia.
  assert (Hva : 0 <= val (ztake n a) < B ^ n).
  { pose proof (val_bound (ztake n a) ltac:(auto with words)) as Hv. rewrite zlen_ztake in Hv by lia. exact Hv. }
  assert (Hvb : 0 <= val (ztake n b) < B ^ n).
  { pose proof (val_bound (ztake n b) ltac:(auto with words)) as Hv. rewrite zlen_ztake in Hv by lia. exact Hv. }
  assert (Hcmp : (if val (ztake n a) =? val (ztake n b) then 0 else cmp_val (val (ztake n a)) (val (ztake n b))) = cmp_val (val (ztake n a)) (val (ztake n b))).
  { unfold cmp_val. destruct (Z.eqb_spec (val (ztake n a)) (val (ztake n b))) as [->|]; [rewrite Z.compare_refl|]; reflexivity. }
  rewrite Hcmp. assert (Hrange : -1 <= cmp_val (val (ztake n a)) (val (ztake n b)) <= 1) by (unfold cmp_val; destruct (_ ?= _); lia).
  assert (Hend : forall l, zlen l <= n -> val (zdrop n l) = 0).
  { intros l Hl. unfold zdrop. rewrite drop_ge; [reflexivity|]. unfold zlen in Hl. lia. }
  destruct (Z.ltb_spec (zlen a) (zlen b)); [|destruct (Z.ltb_spec (zlen b) (zlen a))].
  - replace n with (zlen a) in * by (unfold n; destruct (Z.ltb_spec (zlen a) (zlen b)); lia). rewrite (Hend a) by lia.
    destruct (or_words_spec (zdrop (zlen a) b) 0 ltac:(auto with words) ltac:(unfold word; lia)) as [Ho E].
    rewrite is_zero_w_mask, select_int_mask by (exact Ho || lia). pose proof (val_nonneg (zdrop (zlen a) b) ltac:(auto with words)).
    destruct (Z.eqb_spec (or_words 0 (zdrop (zlen a) b)) 0) as [E0|E0].
    + apply E in E0 as [_ ->]. rewrite !Z.mul_0_r, !Z.add_0_r. reflexivity.
    + assert (val (zdrop (zlen a) b) <> 0) by tauto. unfold cmp_val.
      destruct (Z.compare_spec (val (ztake (zlen a) a) + B ^ zlen a * 0) (val (ztake (zlen a) b) + B ^ zlen a * val (zdrop (zlen a) b))); nia.
  - replace n with (zlen b) in * by (unfold n; destruct (Z.ltb_spec (zlen a) (zlen b)); lia). rewrite (Hend b) by lia.
    destruct (or_words_spec (zdrop (zlen b) a) 0 ltac:(auto with words) ltac:(unfold word; lia)) as [Ho E].
    rewrite is_zero_w_mask, select_int_mask by (exact Ho || lia). pose proof (val_nonneg (zdrop (zlen b) a) ltac:(auto with words)).
    destruct (Z.eqb_spec (or_words 0 (zdrop (zlen b) a)) 0) as [E0|E0].
    + apply E in E0 as [_ ->]. rewrite !Z.mul_0_r, !Z.add_0_r. reflexivity.
    + assert (val (zdrop (zlen b) a) <> 0) by tauto. unfold cmp_val.
      destruct (Z.compare_spec (val (ztake (zlen b) a) + B ^ zlen b * val (zdrop (zlen b) a)) (val (ztake (zlen b) b) + B ^ zlen b * 0)); nia.
  - rewrite (Hend a), (Hend b), Z.mul_0_r, !Z.add_0_r by (unfold n; destruct (Z.ltb_spec (zlen a) (zlen b)); lia). reflexivity.
Qed.
