(* ===== verification/Bn.v ===== *)
(** crypto/fipsmodule/bn: the object [BIGNUM] (bn.c) and its comparisons (cmp.c).

    A number is a sign and an array of words, of which the first [width] count; the
    width need not be minimal.  [d] is the whole allocated array; the operands of
    an operation are passed by value, since the loops read a word before they
    write the word at the same place, so that a result may be an operand. *)
From Stdlib Require Import ZArith Lia.
From stdpp Require Import base list numbers.
From S2P Require Import Prelude.
From S2P Require Import Mem.
From S2P Require Import ConstTime.
From S2P Require Import BnWords.

Open Scope Z_scope.

(** * The code *)

Record BIGNUM := { d : list Z; width : Z; dmax : Z; neg : Z; flags : Z }.

Definition BN_FLG_MALLOCED : Z := 1.
Definition BN_FLG_STATIC_DATA : Z := 2.
Definition sizeof_BIGNUM : Z := 24.

Definition set_d (l : list Z) (b : BIGNUM) : BIGNUM :=
  {| d := l; width := width b; dmax := dmax b; neg := neg b; flags := flags b |}.
Definition set_width (w : Z) (b : BIGNUM) : BIGNUM :=
  {| d := d b; width := w; dmax := dmax b; neg := neg b; flags := flags b |}.
Definition set_neg (n : Z) (b : BIGNUM) : BIGNUM :=
  {| d := d b; width := width b; dmax := dmax b; neg := n; flags := flags b |}.

(** [b->d[i] = ...] for the words [l] from index [i] on. *)
Definition store_words (i : Z) (l : list Z) (b : BIGNUM) : BIGNUM := set_d (zsplice i l (d b)) b.

(** The words that count. *)
Definition limbs (b : BIGNUM) : list Z := ztake (width b) (d b).

Definition BN_init : BIGNUM := {| d := []; width := 0; dmax := 0; neg := 0; flags := 0 |}.

Definition bn_fits_in_words (b : BIGNUM) (num : Z) : bool := or_words 0 (zdrop num (limbs b)) =? 0.

Definition BN_is_zero (b : BIGNUM) : bool := bn_fits_in_words b 0.

Definition BN_is_negative (b : BIGNUM) : bool := negb (neg b =? 0).

Definition BN_set_negative (b : BIGNUM) (sign : bool) : BIGNUM :=
  if sign && negb (BN_is_zero b) then set_neg 1 b else set_neg 0 b.

Definition BN_zero (b : BIGNUM) : BIGNUM := set_neg 0 (set_width 0 b).

Definition BN_clear (b : BIGNUM) : BIGNUM :=
  set_neg 0 (set_width 0 (set_d (zrep (dmax b) 0) b)).

Fixpoint minimal_width_loop (n : nat) (l : list Z) : Z :=
  match n with
  | O => 0
  | S k => if znth 0 (Z.of_nat k) l =? 0 then minimal_width_loop k l else Z.of_nat n
  end.

Definition bn_minimal_width (b : BIGNUM) : Z := minimal_width_loop (Z.to_nat (width b)) (d b).

Definition bn_set_minimal_width (b : BIGNUM) : BIGNUM :=
  let b := set_width (bn_minimal_width b) b in
  if width b =? 0 then set_neg 0 b else b.

(** One halving step of [BN_num_bits_word]. *)
Definition num_bits_step (k : Z) (s : Z * Z) : Z * Z :=
  let '(bits, l) := s in
  let x := Z.shiftr l k in
  let mask := u64 (0 - x) in
  let mask := u64 (0 - Z.shiftr mask (BN_BITS2 - 1)) in
  (bits + Z.land k mask, Z.lxor l (Z.land (Z.lxor x l) mask)).

Definition BN_num_bits_word (l : Z) : Z :=
  let s := num_bits_step 32 (if l =? 0 then 0 else 1, l) in
  let s := num_bits_step 16 s in
  let s := num_bits_step 8 s in
  let s := num_bits_step 4 s in
  let s := num_bits_step 2 s in
  let '(bits, l) := s in
  let x := Z.shiftr l 1 in
  let mask := u64 (0 - x) in
  let mask := u64 (0 - Z.shiftr mask (BN_BITS2 - 1)) in
  bits + Z.land 1 mask.

Definition BN_num_bits (b : BIGNUM) : Z :=
  let w := bn_minimal_width b in
  if w =? 0 then 0 else (w - 1) * BN_BITS2 + BN_num_bits_word (znth 0 (w - 1) (d b)).

Definition BN_num_bytes (b : BIGNUM) : Z := (BN_num_bits b + 7) / 8.

Definition bn_copy_words (num : Z) (b : BIGNUM) : option (list Z) :=
  if negb (neg b =? 0) then None
  else
    let w := width b in
    if num <? w then
      if negb (bn_fits_in_words b num) then None else Some (ztake num (d b))
    else Some (ztake w (d b) ++ zrep (num - w) 0).

Definition bn_select_words (mask : Z) (a b : list Z) (num : Z) : list Z :=
  zip_with (constant_time_select_w mask) (ztake num a) (ztake num b).

(** The functions on a result: 1 is [Some tt], 0 is [None]. *)
Section Code.
Context `{Malloc}.

Definition upd (f : BIGNUM -> BIGNUM) : M (BIGNUM * heap) unit :=
  fun '(b, h) => (Some tt, (f b, h)).

Definition getb : M (BIGNUM * heap) BIGNUM := fun '(b, h) => (Some b, (b, h)).

Definition BN_new (h : heap) : option BIGNUM * heap :=
  match OPENSSL_malloc h sizeof_BIGNUM with
  | (None, h) => (None, h)
  | (Some _, h) => (Some {| d := []; width := 0; dmax := 0; neg := 0; flags := BN_FLG_MALLOCED |}, h)
  end.

Definition bn_wexpand (words : Z) : M (BIGNUM * heap) unit :=
  fun '(b, h) =>
    if words <=? dmax b then (Some tt, (b, h))
    else if INT_MAX / (4 * BN_BITS2) <? words then (None, (b, h))
    else if negb (Z.land (flags b) BN_FLG_STATIC_DATA =? 0) then (None, (b, h))
    else
      match OPENSSL_malloc h (u64 (8 * words)) with
      | (None, h) => (None, (b, h))
      | (Some p, h) =>
        let a := zsplice 0 (ztake (width b) (d b)) (cells words p) in
        (Some tt, ({| d := a; width := width b; dmax := words; neg := neg b; flags := flags b |}, h))
      end.

Definition bn_expand (bits : Z) : M (BIGNUM * heap) unit :=
  if u64 (bits + BN_BITS2 - 1) <? bits then fail
  else bn_wexpand (u64 (bits + BN_BITS2 - 1) / BN_BITS2).

Definition bn_resize_words (words : Z) : M (BIGNUM * heap) unit :=
  let* b := getb in
  if width b <=? words then
    let* _ := bn_wexpand words in
    let* _ := upd (store_words (width b) (zrep (words - width b) 0)) in
    upd (set_width words)
  else
    check bn_fits_in_words b words in
    upd (set_width words).

Definition BN_copy (src : BIGNUM) : M (BIGNUM * heap) unit :=
  let* _ := bn_wexpand (width src) in
  let* _ := upd (store_words 0 (ztake (width src) (d src))) in
  upd (fun b => set_neg (neg src) (set_width (width src) b)).

Definition BN_dup (src : BIGNUM) (h : heap) : option BIGNUM * heap :=
  match BN_new h with
  | (None, h) => (None, h)
  | (Some copy, h) =>
    match BN_copy src (copy, h) with
    | (Some _, (copy, h)) => (Some copy, h)
    | (None, (_, h)) => (None, h)
    end
  end.

Definition BN_set_word (value : Z) : M (BIGNUM * heap) unit :=
  if value =? 0 then upd BN_zero
  else
    let* _ := bn_wexpand 1 in
    let* _ := upd (set_neg 0) in
    let* _ := upd (store_words 0 [value]) in
    upd (set_width 1).

Definition BN_one : M (BIGNUM * heap) unit := BN_set_word 1.

Definition BN_set_u64 (value : Z) : M (BIGNUM * heap) unit := BN_set_word value.

Definition bn_set_words (words : list Z) (num : Z) : M (BIGNUM * heap) unit :=
  let* _ := bn_wexpand num in
  let* _ := upd (store_words 0 (ztake num words)) in
  upd (fun b => set_neg 0 (set_width num b)).

Definition bn_set_static_words (words : list Z) (num : Z) : M (BIGNUM * heap) unit :=
  upd (fun b => {| d := words; width := num; dmax := num; neg := 0; flags := Z.lor (flags b) BN_FLG_STATIC_DATA |}).
End Code.

(** cmp.c *)
Definition BN_ucmp (a b : BIGNUM) : Z := bn_cmp_words_consttime (limbs a) (limbs b).

Definition BN_cmp (a b : option BIGNUM) : Z :=
  match a, b with
  | None, None => 0
  | Some _, None => -1
  | None, Some _ => 1
  | Some a, Some b =>
    if negb (neg a =? neg b) then (if negb (neg a =? 0) then -1 else 1)
    else let ret := BN_ucmp a b in if negb (neg a =? 0) then - ret else ret
  end.

Definition BN_abs_is_word (b : BIGNUM) (w : Z) : bool :=
  if width b =? 0 then w =? 0
  else or_words (Z.lxor (znth 0 0 (d b)) w) (zdrop 1 (limbs b)) =? 0.

Definition BN_cmp_word (a : BIGNUM) (b : Z) : Z :=
  BN_cmp (Some a) (Some {| d := [b]; width := if 0 <? b then 1 else 0; dmax := 1; neg := 0; flags := BN_FLG_STATIC_DATA |}).

Definition BN_is_one (b : BIGNUM) : bool := (neg b =? 0) && BN_abs_is_word b 1.

Definition BN_is_word (b : BIGNUM) (w : Z) : bool := BN_abs_is_word b w && ((w =? 0) || (neg b =? 0)).

Definition BN_is_odd (b : BIGNUM) : bool := (0 <? width b) && (Z.land (znth 0 0 (d b)) 1 =? 1).

Definition BN_is_pow2 (b : BIGNUM) : bool :=
  let w := bn_minimal_width b in
  if (w =? 0) || negb (neg b =? 0) then false
  else if existsb (fun x => negb (x =? 0)) (ztake (w - 1) (d b)) then false
  else let x := znth 0 (w - 1) (d b) in 0 =? Z.land x (u64 (x - 1)).

Definition BN_equal_consttime (a b : BIGNUM) : bool :=
  let mask := or_words 0 (zdrop (width a) (limbs b)) in
  let mask := or_words mask (zdrop (width b) (limbs a)) in
  let min := if width a <? width b then width a else width b in
  let mask := fold_left (fun m p => Z.lor m (Z.lxor (fst p) (snd p))) (zip (ztake min (d a)) (ztake min (d b))) mask in
  Z.lor mask (Z.lxor (neg a) (neg b)) =? 0.

Definition BN_get_word (b : BIGNUM) : Z :=
  let w := bn_minimal_width b in
  if w =? 0 then 0 else if w =? 1 then znth 0 0 (d b) else BN_MASK2.

Definition BN_get_u64 (b : BIGNUM) : option Z :=
  let w := bn_minimal_width b in
  if w =? 0 then Some 0 else if w =? 1 then Some (znth 0 0 (d b)) else None.

(** * Values *)

(** No BIGNUM is larger: [bn_wexpand] refuses. *)
Definition BN_MAX_WORDS : Z := 8388607.

Definition mag (b : BIGNUM) : Z := val (limbs b).
Definition value (b : BIGNUM) : Z := if neg b =? 0 then mag b else - mag b.

(** Well-formed: the array has [dmax] words; and zero has no sign. *)
Record bn_shape (b : BIGNUM) : Prop := {
  bn_len : zlen (d b) = dmax b;
  bn_width : 0 <= width b <= dmax b;
  bn_max : dmax b <= BN_MAX_WORDS;
  bn_words : words (d b)
}.

Definition sign_ok (b : BIGNUM) : Prop := neg b = 0 \/ neg b = 1 /\ mag b <> 0.

Definition bn_ok (b : BIGNUM) : Prop := bn_shape b /\ sign_ok b.

Definition minimal (b : BIGNUM) : Prop := width b = 0 \/ znth 0 (width b - 1) (d b) <> 0.

Lemma limbs_len b : bn_shape b -> zlen (limbs b) = width b.
Proof. intros [Hl Hw _ _]. apply zlen_ztake. lia. Qed.

Lemma limbs_words b : bn_shape b -> words (limbs b).
Proof. intros Hok. apply words_ztake, bn_words, Hok. Qed.

Lemma mag_bound b : bn_shape b -> 0 <= mag b < B ^ width b.
Proof.
  intros Hok. pose proof (val_bound (limbs b) (limbs_words b Hok)) as Hv. rewrite limbs_len in Hv by exact Hok. exact Hv.
Qed.

Lemma mag_value b : bn_shape b -> mag b = Z.abs (value b).
Proof. intros Hok. pose proof (mag_bound b Hok). unfold value. destruct (neg b =? 0); lia. Qed.

Lemma neg_value b : bn_ok b -> neg b = if value b <? 0 then 1 else 0.
Proof.
  intros [Hs Hn]. pose proof (mag_bound b Hs). unfold value.
  destruct Hn as [E|[E Hz]]; rewrite E; cbn [Z.eqb]; destruct (Z.ltb_spec (mag b) 0), (Z.ltb_spec (- mag b) 0); lia.
Qed.

Create HintDb bn.
#[export] Hint Resolve limbs_words limbs_len bn_words words_ztake words_zdrop words_zsplice words_zrep word_u64 : bn.

(** A word of the array. *)
Lemma words_znth i l : words l -> word (znth 0 i l).
Proof.
  intros Hl. unfold znth. destruct (nth_in_or_default (Z.to_nat i) l 0) as [Hi| ->]; [|unfold word; lia].
  rewrite List.Forall_forall in Hl. apply Hl, Hi.
Qed.

Lemma ztake_snoc (l : list Z) i : 0 <= i < zlen l -> ztake (i + 1) l = ztake i l ++ [znth 0 i l].
Proof.
  unfold ztake, znth, zlen. intros Hi. replace (Z.to_nat (i + 1)) with (S (Z.to_nat i)) by lia.
  apply take_S_r. rewrite nth_lookup. destruct (lookup_lt_is_Some_2 l (Z.to_nat i) ltac:(lia)) as [x ->]. reflexivity.
Qed.

(** * The operations of bn.c *)

Lemma fits_spec b n : bn_shape b -> 0 <= n -> bn_fits_in_words b n = (mag b <? B ^ n).
Proof.
  intros Hs Hn. unfold bn_fits_in_words. destruct (or_words_spec (zdrop n (limbs b)) 0) as [_ E]; [auto with bn|unfold word; lia|].
  pose proof (limbs_len b Hs) as Hl. pose proof (limbs_words b Hs) as Hw. pose proof (val_nonneg (zdrop n (limbs b)) ltac:(auto with bn)).
  pose proof (bn_width b Hs). destruct (Z.leb_spec (width b) n) as [Hle|Hlt].
  - assert (Ez : zdrop n (limbs b) = []) by (unfold zdrop; apply drop_ge; unfold zlen in Hl; lia). rewrite Ez in *.
    pose proof (mag_bound b Hs). assert (B ^ width b <= B ^ n) by (apply Z.pow_le_mono_r; lia).
    destruct (Z.ltb_spec (mag b) (B ^ n)); [|lia]. apply Z.eqb_eq. tauto.
  - unfold mag. rewrite (val_ztake_zdrop n (limbs b)) by lia. pose proof (val_bound (ztake n (limbs b)) ltac:(auto with bn)) as Hv.
    rewrite zlen_ztake in Hv by lia.
    destruct (Z.eqb_spec (or_words 0 (zdrop n (limbs b))) 0) as [E0|E0], (Z.ltb_spec (val (ztake n (limbs b)) + B ^ n * val (zdrop n (limbs b))) (B ^ n)); auto.
    + apply E in E0 as [_ E0]. rewrite E0 in *. lia.
    + assert (val (zdrop n (limbs b)) <> 0) by tauto. nia.
Qed.

Lemma is_zero_spec b : bn_shape b -> BN_is_zero b = (mag b =? 0).
Proof.
  intros Hs. unfold BN_is_zero. rewrite fits_spec by (exact Hs || lia). pose proof (mag_bound b Hs). change (B ^ 0) with 1.
  destruct (Z.ltb_spec (mag b) 1), (Z.eqb_spec (mag b) 0); lia.
Qed.

Lemma is_zero_value b : bn_shape b -> BN_is_zero b = (value b =? 0).
Proof.
  intros Hs. rewrite is_zero_spec by exact Hs. unfold value. destruct (neg b =? 0); [reflexivity|].
  destruct (Z.eqb_spec (mag b) 0), (Z.eqb_spec (- mag b) 0); lia.
Qed.

Lemma minimal_width_loop_spec n l :
  Z.of_nat n <= zlen l ->
  let w := minimal_width_loop n l in
  0 <= w <= Z.of_nat n /\ val (ztake w l) = val (ztake (Z.of_nat n) l) /\ (w = 0 \/ znth 0 (w - 1) l <> 0).
Proof.
  induction n as [|n IH]; intros Hn; cbn [minimal_width_loop].
  - split_and!; auto; lia.
  - destruct (Z.eqb_spec (znth 0 (Z.of_nat n) l) 0) as [E|E].
    + destruct IH as (Hw & Hv & Hm); [lia|]. split_and!; auto; [lia..|]. rewrite Hv.
      replace (Z.of_nat (S n)) with (Z.of_nat n + 1) by lia. rewrite ztake_snoc, val_snoc, E by lia. lia.
    + split_and!; auto; [lia..|]. right. replace (Z.of_nat (S n) - 1) with (Z.of_nat n) by lia. exact E.
Qed.

Lemma minimal_width_spec b :
  bn_shape b ->
  let w := bn_minimal_width b in
  0 <= w <= width b /\ val (ztake w (d b)) = mag b /\ (w = 0 \/ znth 0 (w - 1) (d b) <> 0).
Proof.
  intros [Hl Hw _ _]. unfold bn_minimal_width. destruct (minimal_width_loop_spec (Z.to_nat (width b)) (d b)) as (H1 & H2 & H3); [lia|].
  rewrite Z2Nat.id in * by lia. auto.
Qed.

Lemma set_minimal_width_spec b :
  bn_shape b -> neg b = 0 \/ neg b = 1 ->
  let b' := bn_set_minimal_width b in
  bn_ok b' /\ value b' = value b /\ minimal b' /\ dmax b' = dmax b.
Proof.
  intros Hs Hn. destruct (minimal_width_spec b Hs) as (Hw & Hv & Hm). destruct Hs as [Hl Hwd Hmax Hws].
  unfold bn_set_minimal_width. set (w := bn_minimal_width b) in *. cbn [set_width width].
  destruct (Z.eqb_spec w 0) as [E|E].
  - rewrite E in *. change (val (ztake 0 (d b))) with 0 in Hv. split_and!; [split; [constructor; cbn; auto; lia|left; reflexivity]| |left; reflexivity|reflexivity].
    unfold value at 2. rewrite <- Hv. cbn. destruct (neg b =? 0); reflexivity.
  - assert (Hmin : mag b <> 0).
    { rewrite <- Hv. replace w with ((w - 1) + 1) by lia. rewrite ztake_snoc, val_snoc by lia.
      pose proof (words_znth (w - 1) (d b) Hws). pose proof (val_nonneg (ztake (w - 1) (d b)) ltac:(auto with bn)).
      unfold word in *. rewrite zlen_ztake by lia. pose proof (B_pow_pos (w - 1) ltac:(lia)). nia. }
    split_and!; [split; [constructor; cbn; auto; lia|]| |right; cbn; tauto|reflexivity].
    + unfold sign_ok, mag, limbs. cbn. rewrite Hv. tauto.
    + assert (Em : mag (set_width w b) = mag b) by exact Hv. unfold value. rewrite Em. reflexivity.
Qed.

(** ** Words and bits *)

Lemma num_bits_step_spec k l bits :
  0 < k <= 32 -> 0 <= l < 2 ^ (2 * k) ->
  let '(bits', l') := num_bits_step k (bits, l) in
  bits' + Z.log2 l' = bits + Z.log2 l /\ 0 <= l' < 2 ^ k.
Proof.
  intros Hk Hl. unfold num_bits_step. set (x := Z.shiftr l k).
  assert (Hx : 0 <= x < 2 ^ k).
  { unfold x. rewrite Z.shiftr_div_pow2 by lia. replace (2 * k) with (k + k) in Hl by lia. rewrite Z.pow_add_r in Hl by lia.
    split; [apply Z.div_pos; lia|apply Z.div_lt_upper_bound; nia]. }
  assert (Hk32 : 2 ^ k <= 2 ^ 32) by (apply Z.pow_le_mono_r; lia).
  assert (Hmask : u64 (0 - Z.shiftr (u64 (0 - x)) (BN_BITS2 - 1)) = if x =? 0 then 0 else 2 ^ 64 - 1).
  { destruct (Z.eqb_spec x 0) as [->|Hx0]; [reflexivity|]. unfold u64 at 2. replace ((0 - x) mod B) with (B - x) by (apply Z.mod_unique with (-1); lia).
    change (BN_BITS2 - 1) with 63. rewrite Z.shiftr_div_pow2 by lia. replace ((B - x) / 2 ^ 63) with 1 by (apply Z.div_unique with (2 ^ 63 - x); lia). reflexivity. }
  rewrite Hmask. destruct (Z.eqb_spec x 0) as [E|Hx0].
  - rewrite !Z.land_0_r, Z.lxor_0_r. split; [lia|]. unfold x in E. rewrite Z.shiftr_div_pow2 in E by lia.
    apply Z.div_small_iff in E; [|lia]. lia.
  - change (2 ^ 64 - 1) with (Z.ones 64). rewrite !Z.land_ones by lia.
    assert (Hl64 : 2 ^ (2 * k) <= 2 ^ 64) by (apply Z.pow_le_mono_r; lia).
    rewrite (Z.mod_small k), (Z.mod_small (Z.lxor x l)) by (try apply lxor_range; lia).
    rewrite (Z.lxor_comm x l), <- Z.lxor_assoc, Z.lxor_nilpotent, Z.lxor_0_l. split; [|exact Hx].
    assert (0 < l) by (destruct (Z.eq_dec l 0) as [->|]; [destruct Hx0; unfold x; apply Z.shiftr_0_l|lia]).
    unfold x. rewrite Z.log2_shiftr by lia. assert (k <= Z.log2 l); [|lia]. apply Z.log2_le_pow2; [lia|].
    unfold x in Hx0. rewrite Z.shiftr_div_pow2 in Hx0 by lia. destruct (Z.ltb_spec l (2 ^ k)); [|lia]. destruct Hx0. apply Z.div_small. lia.
Qed.

Lemma BN_num_bits_word_spec l : word l -> BN_num_bits_word l = if l =? 0 then 0 else Z.log2 l + 1.
Proof.
  unfold word. intros Hl. unfold BN_num_bits_word. set (b0 := if l =? 0 then 0 else 1).
  pose proof (num_bits_step_spec 32 l b0 ltac:(lia) ltac:(lia)) as H1. destruct (num_bits_step 32 (b0, l)) as [b1 l1]. destruct H1 as [E1 H1].
  pose proof (num_bits_step_spec 16 l1 b1 ltac:(lia) ltac:(lia)) as H2. destruct (num_bits_step 16 (b1, l1)) as [b2 l2]. destruct H2 as [E2 H2].
  pose proof (num_bits_step_spec 8 l2 b2 ltac:(lia) ltac:(lia)) as H3. destruct (num_bits_step 8 (b2, l2)) as [b3 l3]. destruct H3 as [E3 H3].
  pose proof (num_bits_step_spec 4 l3 b3 ltac:(lia) ltac:(lia)) as H4. destruct (num_bits_step 4 (b3, l3)) as [b4 l4]. destruct H4 as [E4 H4].
  pose proof (num_bits_step_spec 2 l4 b4 ltac:(lia) ltac:(lia)) as H5. destruct (num_bits_step 2 (b4, l4)) as [b5 l5]. destruct H5 as [E5 H5].
  pose proof (num_bits_step_spec 1 l5 b5 ltac:(lia) ltac:(lia)) as H6. unfold num_bits_step in H6. destruct H6 as [E6 H6].
  set (x := Z.lxor l5 _) in *. assert (Hlog : Z.log2 x = 0).
  { assert (x = 0 \/ x = 1) as [-> | ->] by lia; reflexivity. }
  rewrite Hlog in E6. unfold b0 in *. destruct (Z.eqb_spec l 0) as [->|]; [change (Z.log2 0) with 0 in *|]; lia.
Qed.

(** The number of bits of the absolute value. *)
Lemma BN_num_bits_spec b : bn_shape b -> BN_num_bits b = if mag b =? 0 then 0 else Z.log2 (mag b) + 1.
Proof.
  intros Hs. destruct (minimal_width_spec b Hs) as (Hw & Hv & Hm). pose proof (bn_width b Hs). pose proof (bn_len b Hs).
  unfold BN_num_bits. set (w := bn_minimal_width b) in *. destruct (Z.eqb_spec w 0) as [E|E].
  - rewrite E in Hv. change (val (ztake 0 (d b))) with 0 in Hv. rewrite <- Hv. reflexivity.
  - destruct Hm as [Hm|Hm]; [lia|]. pose proof (words_znth (w - 1) (d b) (bn_words b Hs)) as Ht. set (t := znth 0 (w - 1) (d b)) in *.
    rewrite BN_num_bits_word_spec by exact Ht. rewrite (proj2 (Z.eqb_neq t 0) Hm).
    assert (Em : mag b = val (ztake (w - 1) (d b)) + B ^ (w - 1) * t).
    { rewrite <- Hv. replace w with ((w - 1) + 1) at 1 by lia. rewrite ztake_snoc, val_snoc, zlen_ztake by lia. reflexivity. }
    pose proof (val_bound (ztake (w - 1) (d b)) ltac:(apply words_ztake, bn_words, Hs)) as Hlow. rewrite zlen_ztake in Hlow by lia.
    unfold word in Ht. pose proof (B_pow_pos (w - 1) ltac:(lia)). destruct (Z.eqb_spec (mag b) 0); [nia|].
    rewrite Z.add_assoc. f_equal. symmetry. apply Z.log2_unique; [pose proof (Z.log2_nonneg t); unfold BN_BITS2; lia|].
    assert (EB : forall k, 0 <= k -> 2 ^ ((w - 1) * BN_BITS2 + k) = B ^ (w - 1) * 2 ^ k).
    { intros k Hk. unfold BN_BITS2. rewrite Z.pow_add_r, (Z.mul_comm (w - 1)), Z.pow_mul_r by lia. reflexivity. }
    pose proof (Z.log2_nonneg t). rewrite <- Z.add_succ_r, !EB by lia. pose proof (Z.log2_spec t ltac:(lia)). nia.
Qed.

(** ** Room for a result *)

Section Room.
Context `{Malloc}.

(** There is memory for [n] words. *)
Definition room (n : Z) (b : BIGNUM) : Prop :=
  n <= dmax b \/
  n <= BN_MAX_WORDS /\ Z.land (flags b) BN_FLG_STATIC_DATA = 0 /\ exists lim, grants lim /\ 8 * n + 8 <= lim < 2 ^ 64.

(** The same number in an array of at least [n] words. *)
Definition expanded (n : Z) (b b' : BIGNUM) : Prop :=
  bn_shape b' /\ n <= dmax b' /\ limbs b' = limbs b /\ width b' = width b /\ neg b' = neg b /\ dmax b <= dmax b'.

Lemma bn_wexpand_spec n b h :
  bn_shape b -> 0 <= n ->
  match bn_wexpand n (b, h) with
  | (Some _, (b', _)) => expanded n b b'
  | (None, (b', _)) => b' = b /\ ~ room n b
  end.
Proof.
  intros Hs Hn. pose proof Hs as [Hl Hw Hm Hws]. unfold bn_wexpand. destruct (Z.leb_spec n (dmax b)).
  - unfold expanded. split_and!; auto. lia.
  - change (INT_MAX / (4 * BN_BITS2)) with BN_MAX_WORDS. destruct (Z.ltb_spec BN_MAX_WORDS n).
    + split; [reflexivity|]. unfold room. intros [|(? & _)]; lia.
    + destruct (Z.eqb_spec (Z.land (flags b) BN_FLG_STATIC_DATA) 0) as [E|E]; cbn [negb].
      2: { split; [reflexivity|]. unfold room. intros [|(_ & ? & _)]; [lia|contradiction]. }
      unfold BN_MAX_WORDS in *. rewrite u64_small by lia. destruct (OPENSSL_malloc h (8 * n)) as [[p|] h'] eqn:Em.
      * apply OPENSSL_malloc_Some in Em as [_ Hp]; [|lia]. pose proof (zlen_cells n p Hn) as Hc.
        assert (Ht : zlen (ztake (width b) (d b)) = width b) by (apply zlen_ztake; lia).
        unfold expanded, limbs. cbn [d width neg dmax]. split_and!; auto; try lia.
        -- constructor; cbn [d width dmax]; [rewrite zlen_zsplice; lia|lia|unfold BN_MAX_WORDS; lia|].
           apply words_zsplice; [apply cells_words, Hp|apply words_ztake, Hws].
        -- rewrite ztake_zsplice_end by lia. reflexivity.
      * split; [reflexivity|]. unfold room, BN_MAX_WORDS. intros [|(_ & _ & lim & G & Hlim)]; [lia|].
        destruct (OPENSSL_malloc_grants lim h (8 * n) G) as (? & ? & E' & _); [lia..|]. congruence.
Qed.

(** A number stored from word 0 on. *)
Lemma store_shape b l w n :
  bn_shape b -> words l -> zlen l = w -> w <= dmax b ->
  let b' := set_neg n (set_width w (store_words 0 l b)) in
  bn_shape b' /\ mag b' = val l /\ limbs b' = l /\ dmax b' = dmax b.
Proof.
  intros [Hl Hw Hm Hws] Hl' Hlen Hd b'. pose proof (zlen_nonneg l).
  assert (E : limbs b' = l).
  { unfold limbs, b'. cbn. rewrite ztake_zsplice_end by lia. reflexivity. }
  split_and!; [|unfold mag; rewrite E; reflexivity|exact E|reflexivity].
  constructor; unfold b'; cbn; auto; [rewrite zlen_zsplice; lia|lia|]. apply words_zsplice; assumption.
Qed.

Lemma room_expanded n b b' : expanded n b b' -> dmax b <= dmax b'.
Proof. unfold expanded. tauto. Qed.

Lemma value_neg0 b : neg b = 0 -> value b = mag b.
Proof. intros E. unfold value. rewrite E. reflexivity. Qed.

(** What setting a number to a value promises. *)
Definition sets (v : Z) (n : Z) (b : BIGNUM) (r : option unit * (BIGNUM * heap)) : Prop :=
  match r with
  | (Some _, (b', _)) => bn_ok b' /\ value b' = v
  | (None, _) => ~ room n b
  end.

Lemma BN_set_word_spec b h v : bn_shape b -> word v -> sets v 1 b (BN_set_word v (b, h)).
Proof.
  intros Hs Hv. unfold BN_set_word. destruct (Z.eqb_spec v 0) as [->|Hv0].
  - cbn. destruct Hs as [Hl Hw Hm Hws]. split; [split; [constructor; cbn; auto; lia|left; reflexivity]|]. reflexivity.
  - unfold bind. pose proof (bn_wexpand_spec 1 b h Hs ltac:(lia)) as Hx. destruct (bn_wexpand 1 (b, h)) as [[[]|] [b1 h1]]; [|apply Hx].
    destruct Hx as (Hs1 & Hd1 & _). cbn. destruct (store_shape b1 [v] 1 0 Hs1) as (Hs' & Em & _); [repeat constructor; apply Hv|reflexivity|exact Hd1|].
    split; [split; [exact Hs'|left; reflexivity]|]. change (mag (set_neg 0 (set_width 1 (store_words 0 [v] b1))) = v). rewrite Em. cbn [val]. lia.
Qed.

Lemma BN_copy_spec b src h : bn_shape b -> bn_ok src -> sets (value src) (width src) b (BN_copy src (b, h)).
Proof.
  intros Hs [Hss Hsn]. unfold BN_copy, bind. pose proof (bn_width src Hss) as Hw.
  pose proof (bn_wexpand_spec (width src) b h Hs ltac:(lia)) as Hx. destruct (bn_wexpand _ (b, h)) as [[[]|] [b1 h1]]; [|apply Hx].
  destruct Hx as (Hs1 & Hd1 & _). cbn. fold (limbs src).
  destruct (store_shape b1 (limbs src) (width src) (neg src) Hs1) as (Hs' & Em & _); auto with bn.
  split; [split; [exact Hs'|]|].
  - unfold sign_ok. rewrite Em. exact Hsn.
  - unfold value. rewrite Em. reflexivity.
Qed.

Lemma bn_resize_words_spec b n h :
  bn_ok b -> 0 <= n ->
  match bn_resize_words n (b, h) with
  | (Some _, (b', _)) => bn_ok b' /\ value b' = value b /\ width b' = n
  | (None, (b', _)) => b' = b /\ (B ^ n <= mag b \/ ~ room n b)
  end.
Proof.
  intros [Hs Hn] Hpos. pose proof Hs as [Hl Hw Hm Hws]. unfold bn_resize_words, bind at 1, getb. destruct (Z.leb_spec (width b) n).
  - unfold bind. pose proof (bn_wexpand_spec n b h Hs Hpos) as Hx. destruct (bn_wexpand n (b, h)) as [[[]|] [b1 h1]]; [|tauto].
    destruct Hx as (Hs1 & Hd1 & El & Ew & En & Hdm). pose proof Hs1 as [Hl1 Hw1 Hm1 Hws1]. cbn.
    assert (Elimb : limbs (set_width n (store_words (width b) (zrep (n - width b) 0) b1)) = limbs b ++ zrep (n - width b) 0).
    { unfold limbs. cbn. rewrite ztake_zsplice_end by (rewrite ?zlen_zrep; lia). rewrite <- Ew at 1. fold (limbs b1). rewrite El. reflexivity. }
    assert (Em : mag (set_width n (store_words (width b) (zrep (n - width b) 0) b1)) = mag b).
    { unfold mag at 1. rewrite Elimb, val_app, val_zrep. unfold mag. lia. }
    split_and!; [split; [constructor; cbn; auto; [rewrite zlen_zsplice; rewrite ?zlen_zrep; lia|auto with bn]|]|..|reflexivity].
    + unfold sign_ok. rewrite Em. cbn. rewrite En. exact Hn.
    + unfold value. rewrite Em. cbn. rewrite En. reflexivity.
  - unfold bind, guard. rewrite fits_spec by assumption. destruct (Z.ltb_spec (mag b) (B ^ n)) as [Hlt|Hge]; [|cbn; auto].
    cbn. assert (Em : mag (set_width n b) = mag b).
    { unfold mag. assert (El : limbs (set_width n b) = ztake n (limbs b)) by (unfold limbs; cbn; rewrite ztake_ztake by lia; reflexivity).
      rewrite El. apply val_fits; [auto with bn|rewrite limbs_len by exact Hs; lia|exact Hlt]. }
    split_and!; [split; [constructor; cbn; auto; lia|]|..|reflexivity].
    + unfold sign_ok. rewrite Em. exact Hn.
    + unfold value. rewrite Em. reflexivity.
Qed.

Lemma bn_copy_words_spec b n :
  bn_ok b -> 0 <= n ->
  match bn_copy_words n b with
  | Some out => zlen out = n /\ words out /\ val out = value b
  | None => value b < 0 \/ B ^ n <= value b
  end.
Proof.
  intros [Hs Hn] Hpos. pose proof Hs as [Hl Hw Hm Hws]. unfold bn_copy_words. pose proof (mag_bound b Hs) as Hmag.
  destruct (Z.eqb_spec (neg b) 0) as [E|E]; cbn [negb].
  - rewrite (value_neg0 b E). destruct (Z.ltb_spec n (width b)).
    + rewrite fits_spec by assumption. destruct (Z.ltb_spec (mag b) (B ^ n)) as [Hlt|]; cbn [negb]; [|auto].
      split_and!; [apply zlen_ztake; lia|auto with bn|]. unfold mag in *.
      assert (El : ztake n (limbs b) = ztake n (d b)) by (apply ztake_ztake; lia). rewrite <- El.
      apply val_fits; [auto with bn|rewrite limbs_len by exact Hs; lia|exact Hlt].
    + fold (limbs b). split_and!; [rewrite zlen_app, limbs_len, zlen_zrep by (exact Hs || lia); lia|apply Forall_app; auto with bn|].
      rewrite val_app, val_zrep. unfold mag. lia.
  - left. unfold value. rewrite (proj2 (Z.eqb_neq _ _) E). destruct Hn as [|[_ Hz]]; [contradiction|]. lia.
Qed.
Lemma room_mono n m b : m <= n -> room n b -> room m b.
Proof. unfold room. intros Hle [Hn|(Hn & Hf & lim & G & Hl)]; [left; lia|right]. split_and!; auto; [lia|]. exists lim. split; [exact G|lia]. Qed.

(** The result [r'] is the number [v]. *)
Definition gives (v : Z) (n : Z) (r : BIGNUM) (res : option unit * (BIGNUM * heap)) : Prop :=
  match res with
  | (Some _, (r', _)) => bn_ok r' /\ value r' = v /\ minimal r'
  | (None, _) => ~ room n r
  end.

(** What an operation on [a] in place does with a word. *)
Definition changes_to (v : Z) (a : BIGNUM) (res : option unit * (BIGNUM * heap)) : Prop :=
  match res with
  | (Some _, (a', _)) => bn_ok a' /\ value a' = v
  | (None, _) => ~ room (width a + 1) a
  end.

(** A number with the sign of [a] and another absolute value. *)
Definition signed (a : BIGNUM) (m : Z) : Z := if neg a =? 0 then m else - m.

Lemma value_signed a b m : neg b = neg a -> mag b = m -> value b = signed a m.
Proof. intros En <-. unfold value, signed. rewrite En. reflexivity. Qed.

Lemma sign_bit a : bn_ok a -> neg a = 0 \/ neg a = 1.
Proof. intros [_ [|[]]]; auto. Qed.

(** The end of most operations: the result in its minimal width. *)
Lemma minimal_gives a b m n r (h : heap) :
  bn_ok a -> bn_shape b -> neg b = neg a -> mag b = m -> gives (signed a m) n r (Some tt, (bn_set_minimal_width b, h)).
Proof.
  intros Ha Hb En Em. destruct (set_minimal_width_spec b Hb) as (Ho & Ev & Hm & _); [rewrite En; apply sign_bit, Ha|].
  unfold gives. split_and!; auto. rewrite Ev. apply value_signed; assumption.
Qed.
End Room.

(** ** Comparisons *)

Lemma BN_ucmp_spec a b : bn_shape a -> bn_shape b -> BN_ucmp a b = cmp_val (mag a) (mag b).
Proof. intros Ha Hb. apply bn_cmp_words_spec; auto with bn. Qed.

Lemma BN_cmp_spec a b : bn_ok a -> bn_ok b -> BN_cmp (Some a) (Some b) = cmp_val (value a) (value b).
Proof.
  intros [Ha Hna] [Hb Hnb]. unfold BN_cmp. rewrite BN_ucmp_spec by assumption. pose proof (mag_bound a Ha). pose proof (mag_bound b Hb).
  unfold value, cmp_val. destruct Hna as [Ea|[Ea Hza]], Hnb as [Eb|[Eb Hzb]]; rewrite Ea, Eb; cbn [Z.eqb Pos.eqb negb].
  - reflexivity.
  - destruct (Z.compare_spec (mag a) (- mag b)); lia.
  - destruct (Z.compare_spec (- mag a) (mag b)); lia.
  - destruct (Z.compare_spec (mag a) (mag b)), (Z.compare_spec (- mag a) (- mag b)); lia.
Qed.

Lemma mag_cons b : bn_shape b -> width b <> 0 -> limbs b = znth 0 0 (d b) :: zdrop 1 (limbs b).
Proof.
  intros [Hl Hw Hm Hws] Hne. unfold limbs, ztake, zdrop, znth, zlen in *. destruct (d b) as [|x l]; cbn [length] in Hl; [lia|].
  replace (Z.to_nat (width b)) with (S (Z.to_nat (width b - 1))) by lia. reflexivity.
Qed.

Lemma BN_abs_is_word_spec b w : bn_shape b -> word w -> BN_abs_is_word b w = (mag b =? w).
Proof.
  intros Hs Hword. unfold BN_abs_is_word. destruct (Z.eqb_spec (width b) 0) as [E|E].
  - assert (Em : mag b = 0) by (unfold mag, limbs; rewrite E; reflexivity). rewrite Em. apply Z.eqb_sym.
  - pose proof (words_znth 0 (d b) (bn_words b Hs)) as Hx. unfold mag. rewrite (mag_cons b Hs E) at 2. cbn [val]. set (x := znth 0 0 (d b)) in *.
    destruct (or_words_spec (zdrop 1 (limbs b)) (Z.lxor x w)) as [_ Eo]; [auto with bn|apply lxor_range; unfold word in *; lia|].
    rewrite Z.lxor_eq_0_iff in Eo. pose proof (val_nonneg (zdrop 1 (limbs b)) ltac:(auto with bn)). unfold word in *.
    destruct (Z.eqb_spec (or_words (Z.lxor x w) (zdrop 1 (limbs b))) 0) as [E0|E0], (Z.eqb_spec (x + B * val (zdrop 1 (limbs b))) w); auto; lia.
Qed.

Lemma BN_cmp_word_spec a w : bn_ok a -> word w -> BN_cmp_word a w = cmp_val (value a) w.
Proof.
  intros Ha Hw. unfold BN_cmp_word. set (b := {| d := _; width := _; dmax := _; neg := _; flags := _ |}).
  assert (Hb : bn_ok b /\ value b = w).
  { assert (Hs : bn_shape b).
    { constructor; unfold b; cbn; [reflexivity|destruct (0 <? w); lia|unfold BN_MAX_WORDS; lia|repeat constructor; apply Hw]. }
    split; [split; [exact Hs|left; reflexivity]|]. rewrite value_neg0 by reflexivity. unfold mag, limbs, b. cbn [width d].
    unfold word in Hw. destruct (Z.ltb_spec 0 w); [change (ztake 1 [w]) with [w]|change (ztake 0 [w]) with (@nil Z)]; cbn [val]; lia. }
  destruct Hb as [Hb Ev]. rewrite BN_cmp_spec, Ev by assumption. reflexivity.
Qed.

Lemma or_pairs_spec a : forall b m, words a -> words b -> length a = length b -> word m ->
  let r := fold_left (fun m p => Z.lor m (Z.lxor (fst p) (snd p))) (zip a b) m in
  word r /\ (r = 0 <-> m = 0 /\ val a = val b).
Proof.
  induction a as [|x a IH]; intros [|y b] m Ha Hb Hl Hm; try discriminate; cbn [zip zip_with fold_left fst snd val]; [tauto|].
  apply List.Forall_cons_iff in Ha as [Hx Ha]. apply List.Forall_cons_iff in Hb as [Hy Hb].
  assert (Ho : word (Z.lor m (Z.lxor x y))) by (apply lor_range; try apply lxor_range; unfold word in *; lia).
  destruct (IH b _ Ha Hb ltac:(cbn [length] in Hl; lia) Ho) as [Hw E]. split; [exact Hw|].
  change (zip_with pair a b) with (zip a b). rewrite E, Z.lor_eq_0_iff, Z.lxor_eq_0_iff. unfold word in *. lia.
Qed.

Lemma BN_equal_consttime_spec a b : bn_ok a -> bn_ok b -> BN_equal_consttime a b = (value a =? value b).
Proof.
  intros Ha Hb. pose proof (neg_value a Ha) as Na. pose proof (neg_value b Hb) as Nb. destruct Ha as [Ha _], Hb as [Hb _].
  unfold BN_equal_consttime. set (n := if width a <? width b then width a else width b).
  pose proof (bn_width a Ha). pose proof (bn_width b Hb). pose proof (bn_len a Ha). pose proof (bn_len b Hb).
  assert (Hn : 0 <= n <= width a /\ n <= width b /\ (n = width a \/ n = width b)) by (unfold n; destruct (Z.ltb_spec (width a) (width b)); lia).
  destruct (or_words_spec (zdrop (width a) (limbs b)) 0) as [Ho1 E1]; [auto with bn|unfold word; lia|].
  destruct (or_words_spec (zdrop (width b) (limbs a)) _ ltac:(auto with bn) Ho1) as [Ho2 E2]. set (m := or_words _ (zdrop (width b) _)) in *.
  destruct (or_pairs_spec (ztake n (d a)) (ztake n (d b)) m) as [Ho3 E3]; auto with bn.
  { pose proof (zlen_ztake n (d a)). pose proof (zlen_ztake n (d b)). unfold zlen in *. lia. }
  set (r := fold_left _ _ m) in *.
  assert (Ev : r = 0 <-> mag a = mag b).
  { rewrite E3, E2, E1. unfold mag. rewrite (val_ztake_zdrop n (limbs a)), (val_ztake_zdrop n (limbs b)) by (rewrite limbs_len by assumption; lia).
    unfold limbs at 3 5. rewrite !ztake_ztake by lia.
    assert (Hover : forall x k, bn_shape x -> width x <= k -> val (zdrop k (limbs x)) = 0).
    { intros x k Hx Hle. pose proof (limbs_len x Hx). unfold zdrop. rewrite drop_ge; [reflexivity|]. unfold zlen in *. lia. }
    assert (Eb : val (zdrop (width a) (limbs b)) = val (zdrop n (limbs b))).
    { destruct Hn as (Hna & Hnb & [En|En]); [rewrite En; reflexivity|]. rewrite !Hover; auto; lia. }
    assert (Ea : val (zdrop (width b) (limbs a)) = val (zdrop n (limbs a))).
    { destruct Hn as (Hna & Hnb & [En|En]); [|rewrite En; reflexivity]. rewrite !Hover; auto; lia. }
    rewrite Ea, Eb. assert (Hone : val (zdrop n (limbs a)) = 0 \/ val (zdrop n (limbs b)) = 0).
    { destruct Hn as (_ & _ & [En|En]); [left|right]; apply Hover; auto; lia. }
    pose proof (val_nonneg (zdrop n (limbs a)) ltac:(auto with bn)). pose proof (val_nonneg (zdrop n (limbs b)) ltac:(auto with bn)).
    pose proof (val_bound (ztake n (d a)) ltac:(auto with bn)) as Va. pose proof (val_bound (ztake n (d b)) ltac:(auto with bn)) as Vb.
    rewrite zlen_ztake in Va, Vb by lia. split; [intros (((_ & ->) & ->) & ->); reflexivity|]. intros Es.
    destruct Hone as [E0|E0]; rewrite E0 in *; nia. }
  assert (Ez : Z.lor r (Z.lxor (neg a) (neg b)) = 0 <-> value a = value b).
  { rewrite Z.lor_eq_0_iff, Z.lxor_eq_0_iff, Ev, Na, Nb, (mag_value a Ha), (mag_value b Hb).
    destruct (Z.ltb_spec (value a) 0), (Z.ltb_spec (value b) 0); lia. }
  destruct (Z.eqb_spec (Z.lor r (Z.lxor (neg a) (neg b))) 0), (Z.eqb_spec (value a) (value b)); tauto.
Qed.

Lemma BN_is_one_spec b : bn_ok b -> BN_is_one b = (value b =? 1).
Proof.
  intros [Hs Hn]. unfold BN_is_one. rewrite BN_abs_is_word_spec by (exact Hs || unfold word; lia). pose proof (mag_bound b Hs).
  unfold value. destruct (Z.eqb_spec (neg b) 0); cbn [andb]; [reflexivity|]. symmetry. apply Z.eqb_neq. lia.
Qed.

Lemma BN_is_word_spec b w : bn_ok b -> word w -> BN_is_word b w = (value b =? w).
Proof.
  intros [Hs Hn] Hw. unfold BN_is_word. rewrite BN_abs_is_word_spec by assumption. pose proof (mag_bound b Hs). unfold value, word in *.
  destruct Hn as [E|[E Hz]]; rewrite E; cbn [Z.eqb]; [rewrite orb_true_r; apply andb_true_r|].
  destruct (Z.eqb_spec w 0), (Z.eqb_spec (mag b) w), (Z.eqb_spec (- mag b) w); cbn; auto; lia.
Qed.

Lemma BN_is_odd_spec b : bn_ok b -> BN_is_odd b = Z.odd (value b).
Proof.
  intros [Hs Hn]. unfold BN_is_odd. assert (E : Z.odd (value b) = Z.odd (mag b)).
  { unfold value. destruct (neg b =? 0); [|rewrite Z.odd_opp]; reflexivity. }
  rewrite E. pose proof (bn_width b Hs). destruct (Z.ltb_spec 0 (width b)) as [Hlt|Hle]; cbn [andb].
  - unfold mag. rewrite (mag_cons b Hs) by lia. cbn [val]. rewrite Z.odd_add, Z.odd_mul. cbn [Z.odd andb]. rewrite xorb_false_r.
    change 1 with (Z.ones 1) at 1. rewrite Z.land_ones by lia. change (2 ^ 1) with 2. rewrite Zmod_odd. destruct (Z.odd (znth 0 0 (d b))); reflexivity.
  - unfold mag, limbs. replace (width b) with 0 by lia. reflexivity.
Qed.

Lemma pow2_word x : 0 < x -> Z.land x (x - 1) = 0 <-> x = 2 ^ Z.log2 x.
Proof.
  intros Hx. pose proof (Z.log2_spec x Hx) as Hl. pose proof (Z.log2_nonneg x). set (k := Z.log2 x) in *. split; intros E.
  - destruct (Z.eq_dec x (2 ^ k)) as [|Hne]; [assumption|]. apply (f_equal (fun z => Z.testbit z k)) in E.
    assert (Hbit : forall y, 2 ^ k <= y < 2 ^ Z.succ k -> Z.testbit y k = true).
    { intros y Hy. rewrite Z.pow_succ_r in Hy by lia. rewrite Z.testbit_true by lia. replace (y / 2 ^ k) with 1; [reflexivity|].
      apply Z.div_unique with (y - 2 ^ k); lia. }
    rewrite Z.land_spec, !Hbit, Z.bits_0 in E by lia. discriminate.
  - rewrite E. replace (2 ^ k - 1) with (Z.ones k) by (rewrite Z.ones_equiv; lia). rewrite Z.land_ones by lia. apply Z.mod_same. lia.
Qed.

Lemma existsb_val l : words l -> existsb (fun x => negb (x =? 0)) l = negb (val l =? 0).
Proof.
  induction 1 as [|x l Hx Hl IH]; cbn [existsb val]; [reflexivity|]. rewrite IH. pose proof (val_nonneg l Hl). unfold word in Hx.
  destruct (Z.eqb_spec x 0), (Z.eqb_spec (val l) 0), (Z.eqb_spec (x + B * val l) 0); cbn; auto; lia.
Qed.

(** The top word of the minimal width. *)
Lemma top_word b :
  bn_shape b -> mag b <> 0 ->
  let w := bn_minimal_width b in let t := znth 0 (w - 1) (d b) in
  0 < w <= width b /\ 0 < t < B /\ 0 <= val (ztake (w - 1) (d b)) < B ^ (w - 1) /\ mag b = val (ztake (w - 1) (d b)) + B ^ (w - 1) * t.
Proof.
  intros Hs Hz. destruct (minimal_width_spec b Hs) as (Hw & Hv & Hm). set (w := bn_minimal_width b) in *. cbv zeta.
  pose proof (bn_width b Hs). pose proof (bn_len b Hs). pose proof (bn_words b Hs) as Hws.
  destruct (Z.eq_dec w 0) as [E|E]; [rewrite E in Hv; change (val (ztake 0 (d b))) with 0 in Hv; lia|]. destruct Hm as [Hm|Hm]; [lia|].
  pose proof (words_znth (w - 1) (d b) Hws) as Ht. unfold word in Ht. pose proof (val_bound (ztake (w - 1) (d b)) ltac:(auto with bn)) as Hlow.
  rewrite zlen_ztake in Hlow by lia. split; [lia|]. split; [lia|]. split; [exact Hlow|].
  rewrite <- Hv. replace w with ((w - 1) + 1) at 1 by lia. rewrite ztake_snoc, val_snoc, zlen_ztake by lia. reflexivity.
Qed.

Lemma minimal_width_0 b : bn_shape b -> bn_minimal_width b = 0 <-> mag b = 0.
Proof.
  intros Hs. split; intros E.
  - destruct (minimal_width_spec b Hs) as (_ & Hv & _). rewrite E in Hv. change (val (ztake 0 (d b))) with 0 in Hv. lia.
  - destruct (minimal_width_spec b Hs) as (Hw & Hv & [Hm|Hm]); [exact Hm|]. set (w := bn_minimal_width b) in *.
    destruct (Z.eq_dec w 0) as [|Hne]; [assumption|]. pose proof (bn_width b Hs). pose proof (bn_len b Hs).
    replace w with ((w - 1) + 1) in Hv by lia. rewrite ztake_snoc, val_snoc, zlen_ztake in Hv by lia.
    pose proof (words_znth (w - 1) (d b) (bn_words b Hs)) as Ht. unfold word in Ht.
    pose proof (val_nonneg (ztake (w - 1) (d b)) ltac:(apply words_ztake, bn_words, Hs)). pose proof (B_pow_pos (w - 1) ltac:(lia)). nia.
Qed.

Lemma B_pow2 n : 0 <= n -> B ^ n = 2 ^ (64 * n).
Proof. intros Hn. rewrite Z.pow_mul_r by lia. reflexivity. Qed.

Lemma log2_top low n t : 0 <= n -> 0 <= low < B ^ n -> 0 < t -> Z.log2 (low + B ^ n * t) = 64 * n + Z.log2 t.
Proof.
  intros Hn Hl Ht. pose proof (Z.log2_spec t Ht). pose proof (Z.log2_nonneg t). pose proof (B_pow_pos n Hn).
  apply Z.log2_unique; [lia|]. rewrite <- Z.add_succ_r, !Z.pow_add_r, <- B_pow2 by lia. nia.
Qed.

Lemma BN_is_pow2_spec b : bn_ok b -> BN_is_pow2 b = true <-> exists k, 0 <= k /\ value b = 2 ^ k.
Proof.
  intros [Hs Hn]. unfold BN_is_pow2. pose proof (minimal_width_0 b Hs) as H0. pose proof (mag_bound b Hs) as Hmag.
  assert (Hpow : forall k, 0 <= k -> 0 < 2 ^ k) by (intros; apply Z.pow_pos_nonneg; lia).
  destruct (Z.eqb_spec (bn_minimal_width b) 0) as [E|E]; cbn [orb].
  { split; [discriminate|]. intros (k & Hk & Ev). pose proof (Hpow k Hk). unfold value in Ev. apply H0 in E. destruct (neg b =? 0); lia. }
  destruct (Z.eqb_spec (neg b) 0) as [En|En]; cbn [negb].
  2: { split; [discriminate|]. intros (k & Hk & Ev). pose proof (Hpow k Hk). unfold value in Ev. rewrite (proj2 (Z.eqb_neq _ _) En) in Ev. lia. }
  rewrite value_neg0 by exact En. destruct (top_word b Hs) as (Hw & Ht & Hlow & Em); [tauto|]. set (w := bn_minimal_width b) in *.
  set (t := znth 0 (w - 1) (d b)) in *. set (low := val (ztake (w - 1) (d b))) in *.
  rewrite existsb_val by (apply words_ztake, bn_words, Hs). fold low. rewrite u64_small by lia. pose proof (Z.log2_nonneg t). pose proof (B_pow_pos (w - 1) ltac:(lia)).
  assert (Hlog : mag b = 2 ^ Z.log2 (mag b) <-> low = 0 /\ t = 2 ^ Z.log2 t).
  { rewrite Em at 2. rewrite log2_top by lia. rewrite Z.pow_add_r, <- B_pow2 by lia. pose proof (Z.log2_spec t ltac:(lia)). split; [|nia].
    intros E2. assert (t = 2 ^ Z.log2 t) by nia. nia. }
  transitivity (mag b = 2 ^ Z.log2 (mag b)).
  - rewrite Hlog, <- pow2_word by lia. destruct (Z.eqb_spec low 0) as [El|El]; cbn [negb]; [|split; [discriminate|tauto]].
    rewrite Z.eqb_eq. split; [intros <-; auto|intros [_ ->]; reflexivity].
  - split; [intros E2; exists (Z.log2 (mag b)); split; [apply Z.log2_nonneg|exact E2]|].
    intros (k & Hk & ->). rewrite Z.log2_pow2 by lia. reflexivity.
Qed.

Lemma minimal_width_1 b : bn_shape b -> mag b <> 0 -> bn_minimal_width b = 1 <-> mag b < B.
Proof.
  intros Hs Hz. destruct (top_word b Hs Hz) as (Hw & Ht & Hlow & Em). set (w := bn_minimal_width b) in *. split.
  - intros E. rewrite E in *. rewrite Em. change (B ^ (1 - 1)) with 1 in *. lia.
  - intros Hlt. destruct (Z.eq_dec w 1) as [|Hne]; [assumption|]. assert (B ^ 1 <= B ^ (w - 1)) by (apply Z.pow_le_mono_r; lia).
    change (B ^ 1) with B in *. nia.
Qed.

Lemma BN_get_u64_spec b : bn_ok b -> BN_get_u64 b = if mag b <? B then Some (mag b) else None.
Proof.
  intros [Hs Hn]. unfold BN_get_u64. pose proof (minimal_width_0 b Hs) as H0. pose proof (mag_bound b Hs).
  destruct (Z.eqb_spec (bn_minimal_width b) 0) as [E|E]; [apply H0 in E; rewrite E; reflexivity|].
  pose proof (minimal_width_1 b Hs ltac:(tauto)) as H1'. destruct (top_word b Hs ltac:(tauto)) as (_ & _ & Hlow & Em).
  destruct (Z.eqb_spec (bn_minimal_width b) 1) as [E1|E1], (Z.ltb_spec (mag b) B) as [Hlt|Hge]; try tauto; [|pose proof (proj1 H1' E1); lia].
  f_equal. rewrite E1 in Em, Hlow. change (1 - 1) with 0 in Em, Hlow. change (B ^ 0) with 1 in Em, Hlow. lia.
Qed.

Lemma BN_get_word_spec b : bn_ok b -> BN_get_word b = Z.min (mag b) BN_MASK2.
Proof.
  intros Hok. pose proof (BN_get_u64_spec b Hok) as Hu. destruct Hok as [Hs _]. pose proof (mag_bound b Hs). unfold BN_get_word, BN_get_u64, BN_MASK2 in *.
  destruct (_ =? 0); [|destruct (_ =? 1)]; destruct (Z.ltb_spec (mag b) B); try discriminate; try (injection Hu as ->); lia.
Qed.

Lemma BN_set_negative_spec b s : bn_shape b -> bn_ok (BN_set_negative b s) /\ value (BN_set_negative b s) = if s then - mag b else mag b.
Proof.
  intros Hs. unfold BN_set_negative. rewrite is_zero_spec by exact Hs. destruct Hs as [Hl Hw Hm Hws].
  destruct s, (Z.eqb_spec (mag b) 0) as [E|E]; cbn [andb negb]; (split; [split; [constructor; cbn; auto|]|]);
    try (left; reflexivity); try (right; split; [reflexivity|exact E]); unfold value; cbn [neg set_neg Z.eqb]; try reflexivity.
  change (mag b = - mag b). lia.
Qed.

(** * Properties *)

(** The tests and comparisons depend on the number alone: whatever the widths, and
    leading zero words or not, they answer for the integer, its absolute value or
    its number of bits, in constant time as without. *)
Theorem bn_tests_decide_by_value (a b : BIGNUM) (w : Z) :
  bn_ok a -> bn_ok b -> word w ->
  BN_cmp (Some a) (Some b) = cmp_val (value a) (value b) /\
  BN_ucmp a b = cmp_val (Z.abs (value a)) (Z.abs (value b)) /\
  BN_equal_consttime a b = (value a =? value b) /\
  BN_cmp_word a w = cmp_val (value a) w /\
  BN_is_zero a = (value a =? 0) /\
  BN_is_one a = (value a =? 1) /\
  BN_is_word a w = (value a =? w) /\
  BN_abs_is_word a w = (Z.abs (value a) =? w) /\
  BN_is_odd a = Z.odd (value a) /\
  (BN_is_pow2 a = true <-> exists k, 0 <= k /\ value a = 2 ^ k) /\
  BN_num_bits a = (if value a =? 0 then 0 else Z.log2 (Z.abs (value a)) + 1) /\
  BN_get_u64 a = (if Z.abs (value a) <? B then Some (Z.abs (value a)) else None) /\
  BN_get_word a = Z.min (Z.abs (value a)) BN_MASK2.
Proof.
  intros Ha Hb Hw. pose proof (mag_value a (proj1 Ha)) as Ea. pose proof (mag_value b (proj1 Hb)) as Eb. rewrite <- Ea, <- Eb.
  split; [apply BN_cmp_spec; assumption|]. split; [apply BN_ucmp_spec; [apply Ha|apply Hb]|]. split; [apply BN_equal_consttime_spec; assumption|].
  split; [apply BN_cmp_word_spec; assumption|]. split; [apply is_zero_value, Ha|]. split; [apply BN_is_one_spec, Ha|].
  split; [apply BN_is_word_spec; assumption|]. split; [apply BN_abs_is_word_spec; [apply Ha|exact Hw]|].
  split; [apply BN_is_odd_spec, Ha|]. split; [apply BN_is_pow2_spec, Ha|].
  split; [|split; [apply BN_get_u64_spec, Ha|apply BN_get_word_spec, Ha]].
  rewrite (BN_num_bits_spec a (proj1 Ha)), <- is_zero_value, is_zero_spec by apply Ha. reflexivity.
Qed.

(** [-6], with two leading zero words, and [2^64]. *)
Definition bn_test_a : BIGNUM := {| d := [6; 0; 0]; width := 3; dmax := 3; neg := 1; flags := 0 |}.
Definition bn_test_b : BIGNUM := {| d := [0; 1]; width := 2; dmax := 2; neg := 0; flags := 0 |}.

Lemma bn_tests_ok : bn_ok bn_test_a /\ bn_ok bn_test_b.
Proof.
  split; (split; [constructor; cbn; try reflexivity; try lia; [unfold BN_MAX_WORDS; lia|repeat constructor; lia]|]).
  - right. split; [reflexivity|]. vm_compute. discriminate.
  - left. reflexivity.
Qed.

Lemma bn_tests_decide_by_value_witness :
  BN_cmp (Some bn_test_a) (Some bn_test_b) = -1 /\ BN_num_bits bn_test_a = 3 /\ BN_is_pow2 bn_test_b = true.
Proof.
  destruct (bn_tests_decide_by_value bn_test_a bn_test_b 6 (proj1 bn_tests_ok) (proj2 bn_tests_ok) ltac:(unfold word; lia)) as (Hc & _ & _ & _ & _ & _ & _ & _ & _ & _ & Hn & _).
  destruct (bn_tests_decide_by_value bn_test_b bn_test_a 6 (proj2 bn_tests_ok) (proj1 bn_tests_ok) ltac:(unfold word; lia)) as (_ & _ & _ & _ & _ & _ & _ & _ & _ & Hp & _).
  split; [rewrite Hc; reflexivity|]. split; [rewrite Hn; reflexivity|]. apply Hp. exists 64. split; [lia|reflexivity].
Defined.
