(* ===== verification/BnAdd.v ===== *)
(** crypto/fipsmodule/bn/add.c: addition and subtraction of numbers and of words. *)
From Stdlib Require Import ZArith Lia.
From stdpp Require Import base list numbers.
From S2P Require Import Prelude.
From S2P Require Import Mem.
From S2P Require Import ConstTime.
From S2P Require Import BnWords.
From S2P Require Import Bn.

Open Scope Z_scope.

(** * The code *)

Section Code.
Context `{Malloc}.

Definition bn_uadd_consttime (a b : BIGNUM) : M (BIGNUM * heap) unit :=
  let '(a, b) := if width a <? width b then (b, a) else (a, b) in
  let max := width a in
  let min := width b in
  let* _ := bn_wexpand (max + 1) in
  let* _ := upd (set_width (max + 1)) in
  let '(low, carry) := bn_add_words (d a) (d b) min in
  let '(high, carry) := carry_words carry (zsub min (max - min) (d a)) in
  let* _ := upd (store_words 0 low) in
  let* _ := upd (store_words min high) in
  upd (store_words max [carry]).

Definition BN_uadd (a b : BIGNUM) : M (BIGNUM * heap) unit :=
  let* _ := bn_uadd_consttime a b in
  upd bn_set_minimal_width.

Definition bn_usub_consttime (a b : BIGNUM) : M (BIGNUM * heap) unit :=
  let b_width := width b in
  check negb ((width a <? b_width) && negb (bn_fits_in_words b (width a))) in
  let b_width := if width a <? b_width then width a else b_width in
  let* _ := bn_wexpand (width a) in
  let '(low, borrow) := bn_sub_words (d a) (d b) b_width in
  let '(high, borrow) := borrow_words borrow (zsub b_width (width a - b_width) (d a)) in
  let* _ := upd (store_words 0 low) in
  let* _ := upd (store_words b_width high) in
  check borrow =? 0 in
  upd (fun r => set_neg 0 (set_width (width a) r)).

Definition BN_usub (a b : BIGNUM) : M (BIGNUM * heap) unit :=
  let* _ := bn_usub_consttime a b in
  upd bn_set_minimal_width.

Definition BN_add (a b : BIGNUM) : M (BIGNUM * heap) unit :=
  let a_neg := neg a in
  if negb (Z.lxor a_neg (neg b) =? 0) then
    let '(a, b) := if negb (a_neg =? 0) then (b, a) else (a, b) in
    if BN_ucmp a b <? 0 then
      let* _ := BN_usub b a in
      upd (set_neg 1)
    else
      let* _ := BN_usub a b in
      upd (set_neg 0)
  else
    fun s => let '(ret, (r, h)) := BN_uadd a b s in (ret, (set_neg a_neg r, h)).

Definition BN_sub (a b : BIGNUM) : M (BIGNUM * heap) unit :=
  let '(a, b, add, neg_) :=
    if negb (neg a =? 0) then
      if negb (neg b =? 0) then (b, a, false, 0) else (a, b, true, 1)
    else if negb (neg b =? 0) then (a, b, true, 0) else (a, b, false, 0) in
  if add then
    let* _ := BN_uadd a b in
    upd (set_neg neg_)
  else if BN_ucmp a b <? 0 then
    let* _ := BN_usub b a in
    upd (set_neg 1)
  else
    let* _ := BN_usub a b in
    upd (set_neg 0).

(** The loop of [BN_add_word]: the words, and the word still to add. *)
Fixpoint add_word_loop (w : Z) (l : list Z) : list Z * Z :=
  match l with
  | [] => ([], w)
  | x :: l =>
    if w =? 0 then (x :: l, w)
    else
      let s := u64 (x + w) in
      let '(l, w) := add_word_loop (if s <? w then 1 else 0) l in (s :: l, w)
  end.

(** The loop of [BN_sub_word], which stops at the first word without a borrow; [i] is
    the index of that word, counted from the start of [l]. *)
Fixpoint sub_word_loop (w : Z) (l : list Z) : list Z * Z :=
  match l with
  | [] => ([], 0)
  | x :: l =>
    if w <=? x then (x - w :: l, 0)
    else let '(l, i) := sub_word_loop 1 l in (u64 (x - w) :: l, i + 1)
  end.

(** On a number that is not negative and not zero, and [w] not zero. *)
Definition add_word_pos (w : Z) : M (BIGNUM * heap) unit :=
  let* a := getb in
  let '(l, w) := add_word_loop w (limbs a) in
  let* _ := upd (store_words 0 l) in
  if negb (w =? 0) then
    let* _ := bn_wexpand (width a + 1) in
    let* _ := upd (set_width (width a + 1)) in
    upd (store_words (width a) [w])
  else ret tt.

Definition sub_word_pos (w : Z) : M (BIGNUM * heap) unit :=
  let* a := getb in
  if (bn_minimal_width a =? 1) && (znth 0 0 (d a) <? w) then
    let* _ := upd (store_words 0 [w - znth 0 0 (d a)]) in
    upd (set_neg 1)
  else
    let '(l, i) := sub_word_loop w (limbs a) in
    let* _ := upd (store_words 0 l) in
    if (znth 0 i l =? 0) && (i =? width a - 1) then upd (set_width (width a - 1)) else ret tt.

Definition BN_sub_word_nonneg (w : Z) : M (BIGNUM * heap) unit :=
  let* a := getb in
  if BN_is_zero a then
    fun s => match BN_set_word w s with
             | (Some _, (a, h)) => (Some tt, (BN_set_negative a true, h))
             | r => r
             end
  else sub_word_pos w.

Definition BN_add_word_nonneg (w : Z) : M (BIGNUM * heap) unit :=
  let* a := getb in
  if BN_is_zero a then BN_set_word w else add_word_pos w.

(** The two functions call each other once, with the sign removed. *)
Definition BN_add_word (w : Z) : M (BIGNUM * heap) unit :=
  if w =? 0 then ret tt
  else
    let* a := getb in
    if BN_is_zero a then BN_set_word w
    else if negb (neg a =? 0) then
      let* _ := upd (set_neg 0) in
      fun s => let '(i, (a, h)) := BN_sub_word_nonneg w s in
               (i, (if negb (BN_is_zero a) then set_neg (if neg a =? 0 then 1 else 0) a else a, h))
    else BN_add_word_nonneg w.

Definition BN_sub_word (w : Z) : M (BIGNUM * heap) unit :=
  if w =? 0 then ret tt
  else
    let* a := getb in
    if BN_is_zero a then BN_sub_word_nonneg w
    else if negb (neg a =? 0) then
      let* _ := upd (set_neg 0) in
      fun s => let '(i, (a, h)) := BN_add_word_nonneg w s in (i, (set_neg 1 a, h))
    else BN_sub_word_nonneg w.
End Code.

(** * Proofs *)

Section Proofs.
Context `{Malloc}.

(** The result of an addition of absolute values before [bn_set_minimal_width]. *)
Definition stored (v : Z) (n : Z) (b b' : BIGNUM) : Prop :=
  bn_shape b' /\ mag b' = v /\ width b' = n /\ neg b' = neg b.

Lemma limbs_split a n : bn_shape a -> 0 <= n <= width a -> val (ztake n (d a)) + B ^ n * val (zsub n (width a - n) (d a)) = mag a.
Proof.
  intros Hs Hn. pose proof (bn_len a Hs). pose proof (bn_width a Hs). unfold mag, limbs.
  rewrite <- (zdrop_ztake n (width a)) by lia. rewrite <- (ztake_ztake n (width a)) by lia. symmetry. apply val_ztake_zdrop.
  rewrite zlen_ztake; lia.
Qed.

Lemma words_zsub i n l : words l -> words (zsub i n l).
Proof. intros Hl. apply words_ztake, words_zdrop, Hl. Qed.

Lemma bn_uadd_consttime_spec a b r h :
  bn_shape a -> bn_shape b -> bn_shape r ->
  match bn_uadd_consttime a b (r, h) with
  | (Some _, (r', _)) => stored (mag a + mag b) (Z.max (width a) (width b) + 1) r r'
  | (None, _) => ~ room (Z.max (width a) (width b) + 1) r
  end.
Proof.
  assert (Hwlog : forall a b, bn_shape a -> bn_shape b -> bn_shape r -> width b <= width a ->
    match (let max := width a in let min := width b in
           let* _ := bn_wexpand (max + 1) in
           let* _ := upd (set_width (max + 1)) in
           let '(low, carry) := bn_add_words (d a) (d b) min in
           let '(high, carry) := carry_words carry (zsub min (max - min) (d a)) in
           let* _ := upd (store_words 0 low) in
           let* _ := upd (store_words min high) in
           upd (store_words max [carry])) (r, h) with
    | (Some _, (r', _)) => stored (mag a + mag b) (width a + 1) r r'
    | (None, _) => ~ room (width a + 1) r
    end).
  2: { intros Ha Hb Hr. unfold bn_uadd_consttime. destruct (Z.ltb_spec (width a) (width b)).
       - rewrite (Z.max_r (width a)) by lia. rewrite (Z.add_comm (mag a)). apply Hwlog; auto. lia.
       - rewrite (Z.max_l (width a)) by lia. apply Hwlog; auto. }
  clear a b. intros a b Ha Hb Hr Hle. cbv zeta. unfold bind. pose proof (bn_width a Ha). pose proof (bn_width b Hb).
  pose proof (bn_len a Ha). pose proof (bn_len b Hb).
  pose proof (bn_wexpand_spec (width a + 1) r h Hr ltac:(lia)) as Hx. destruct (bn_wexpand _ (r, h)) as [[[]|] [r1 h1]]; [|apply Hx].
  destruct Hx as (Hs1 & Hd1 & _ & _ & En & _). unfold upd.
  pose proof (bn_add_words_spec (d a) (d b) (width b) (bn_words a Ha) (bn_words b Hb) ltac:(lia) ltac:(lia)) as Hadd.
  destruct (bn_add_words (d a) (d b) (width b)) as [low c]. destruct Hadd as (Hlw & Hll & Hc & Elow).
  pose proof (carry_words_spec (zsub (width b) (width a - width b) (d a)) c (words_zsub _ _ _ (bn_words a Ha)) Hc) as Hcar.
  destruct (carry_words c _) as [high c']. rewrite zlen_zsub in Hcar by lia. destruct Hcar as (Hhw & Hhl & Hc' & Ehigh).
  pose proof (limbs_split a (width b) Ha ltac:(lia)) as Esplit. fold (limbs b) in Elow. fold (mag b) in Elow.
  cbv beta iota. set (r2 := store_words (width a) _ _). pose proof (bn_len r1 Hs1) as Hl1.
  assert (Ed : d r2 = zsplice 0 (low ++ high ++ [c']) (d r1)).
  { unfold r2, store_words. cbn [d set_d set_width].
    rewrite <- (zsplice_append 0 low) by (rewrite ?zlen_app, ?Hll, ?Hhl; autorewrite with zlen; lia).
    rewrite Z.add_0_l, Hll. rewrite <- (zsplice_append (width b) high) by (rewrite ?zlen_zsplice, ?Hll, ?Hhl; autorewrite with zlen; lia).
    rewrite Hhl. replace (width b + (width a - width b)) with (width a) by lia. reflexivity. }
  assert (Hlen : zlen (low ++ high ++ [c']) = width a + 1) by (autorewrite with zlen; rewrite Hll, Hhl; lia).
  assert (Elimb : limbs r2 = low ++ high ++ [c']).
  { unfold limbs. change (width r2) with (width a + 1). rewrite Ed. rewrite ztake_zsplice_end by (rewrite ?Hlen; lia). reflexivity. }
  unfold stored. split_and!; [|unfold mag at 1; rewrite Elimb; rewrite val_app, val_snoc, Hll, Hhl|reflexivity|exact En].
  - constructor; [rewrite Ed, zlen_zsplice by (rewrite ?Hlen; lia); exact Hl1|cbn; lia|apply (bn_max r1 Hs1)|].
    rewrite Ed. apply words_zsplice; [apply bn_words, Hs1|]. rewrite !Forall_app. split_and!; auto. repeat constructor; unfold bit in Hc'; lia.
  - rewrite <- Esplit. nia.
Qed.

Lemma BN_uadd_spec a b r h :
  bn_shape a -> bn_shape b -> bn_shape r -> neg r = 0 \/ neg r = 1 ->
  match BN_uadd a b (r, h) with
  | (Some _, (r', _)) => bn_ok r' /\ mag r' = mag a + mag b /\ minimal r'
  | (None, _) => ~ room (Z.max (width a) (width b) + 1) r
  end.
Proof.
  intros Ha Hb Hr Hn. unfold BN_uadd, bind. pose proof (bn_uadd_consttime_spec a b r h Ha Hb Hr) as Hu.
  destruct (bn_uadd_consttime a b (r, h)) as [[[]|] [r1 h1]]; [|exact Hu]. destruct Hu as (Hs1 & Em & _ & En). cbn [upd].
  destruct (set_minimal_width_spec r1 Hs1) as (Hok & Ev & Hm & _); [congruence|]. split_and!; auto.
  rewrite (mag_value _ (proj1 Hok)), Ev, <- (mag_value r1 Hs1). exact Em.
Qed.

Lemma bn_usub_consttime_spec a b r h :
  bn_shape a -> bn_shape b -> bn_shape r ->
  match bn_usub_consttime a b (r, h) with
  | (Some _, (r', _)) => bn_shape r' /\ mag r' = mag a - mag b /\ width r' = width a /\ neg r' = 0
  | (None, _) => mag a < mag b \/ ~ room (width a) r
  end.
Proof.
  intros Ha Hb Hr. unfold bn_usub_consttime. pose proof (bn_width a Ha). pose proof (bn_width b Hb).
  pose proof (bn_len a Ha). pose proof (bn_len b Hb). pose proof (mag_bound a Ha) as Hma.
  destruct (negb ((width a <? width b) && negb (bn_fits_in_words b (width a)))) eqn:E.
  2: { apply negb_false_iff, andb_true_iff in E as [_ E]. rewrite fits_spec in E by (exact Hb || lia). apply negb_true_iff, Z.ltb_ge in E.
       cbn. left. lia. }
  rewrite guard_true by reflexivity. set (n := if width a <? width b then width a else width b).
  assert (Hn : 0 <= n <= width a /\ n <= width b /\ val (ztake n (d b)) = mag b).
  { unfold n. destruct (Z.ltb_spec (width a) (width b)); [|split_and!; auto; lia]. split_and!; try lia.
    cbn [andb] in E. rewrite negb_involutive, fits_spec in E by (exact Hb || lia). apply Z.ltb_lt in E. unfold mag in *.
    rewrite <- (val_fits (width a) (limbs b)); [|auto with bn|rewrite limbs_len by exact Hb; lia|exact E].
    unfold limbs. rewrite ztake_ztake by lia. reflexivity. }
  destruct Hn as (Hna & Hnb & Eb). clearbody n. unfold bind at 1.
  pose proof (bn_wexpand_spec (width a) r h Hr ltac:(lia)) as Hx. destruct (bn_wexpand _ (r, h)) as [[[]|] [r1 h1]]; [|right; apply Hx].
  destruct Hx as (Hs1 & Hd1 & _). pose proof (bn_len r1 Hs1) as Hl1. pose proof (bn_width r1 Hs1) as Hw1.
  pose proof (bn_sub_words_spec (d a) (d b) n (bn_words a Ha) (bn_words b Hb) ltac:(lia) ltac:(lia)) as Hsub.
  destruct (bn_sub_words (d a) (d b) n) as [low c]. destruct Hsub as (Hlw & Hll & Hc & Elow).
  pose proof (borrow_words_spec (zsub n (width a - n) (d a)) c (words_zsub _ _ _ (bn_words a Ha)) Hc) as Hbor.
  destruct (borrow_words c _) as [high c']. rewrite zlen_zsub in Hbor by lia. destruct Hbor as (Hhw & Hhl & Hc' & Ehigh).
  pose proof (limbs_split a n Ha ltac:(lia)) as Esplit. rewrite Eb in Elow.
  assert (Hlen : zlen (low ++ high) = width a) by (autorewrite with zlen; lia).
  assert (Ev : val (low ++ high) = mag a - mag b + B ^ width a * c').
  { rewrite val_app, Hll. replace (B ^ width a) with (B ^ n * B ^ (width a - n)) by (rewrite <- Z.pow_add_r by lia; f_equal; lia). nia. }
  pose proof (val_bound (low ++ high) ltac:(apply Forall_app; auto)) as Hvb. rewrite Hlen in Hvb. pose proof (mag_bound b Hb) as Hmb.
  unfold bind, upd. destruct (Z.eqb_spec c' 0) as [Ec|Ec]; cbn [guard ret fail].
  2: { left. unfold bit in Hc'. nia. }
  set (r2 := set_neg _ _).
  assert (Er : r2 = set_neg 0 (set_width (width a) (store_words 0 (low ++ high) r1))).
  { unfold r2, store_words. cbn. rewrite <- Hll, <- (zsplice_append 0 low) by (rewrite ?Hll, ?Hhl; lia). reflexivity. }
  rewrite Er. destruct (store_shape r1 (low ++ high) (width a) 0 Hs1) as (Hs' & Em & _); auto; [apply Forall_app; auto|].
  split_and!; auto. rewrite Em, Ev, Ec. lia.
Qed.

Lemma BN_usub_spec a b r h :
  bn_shape a -> bn_shape b -> bn_shape r ->
  match BN_usub a b (r, h) with
  | (Some _, (r', _)) => bn_ok r' /\ mag r' = mag a - mag b /\ minimal r'
  | (None, _) => mag a < mag b \/ ~ room (width a) r
  end.
Proof.
  intros Ha Hb Hr. unfold BN_usub, bind. pose proof (bn_usub_consttime_spec a b r h Ha Hb Hr) as Hu.
  destruct (bn_usub_consttime a b (r, h)) as [[[]|] [r1 h1]]; [|exact Hu]. destruct Hu as (Hs1 & Em & _ & En). unfold upd.
  destruct (set_minimal_width_spec r1 Hs1) as (Hok & Ev & Hm & _); [auto|]. split_and!; auto.
  rewrite (mag_value _ (proj1 Hok)), Ev, <- (mag_value r1 Hs1). exact Em.
Qed.

Lemma set_neg_ok n b : bn_ok b -> minimal b -> n = 0 \/ n = 1 /\ mag b <> 0 ->
  bn_ok (set_neg n b) /\ value (set_neg n b) = (if n =? 0 then mag b else - mag b) /\ minimal (set_neg n b).
Proof.
  intros [[Hl Hw Hm Hws] _] Hmin Hn. split_and!; [split; [constructor; assumption|exact Hn]|reflexivity|exact Hmin].
Qed.

(** The larger absolute value less the smaller one, with the sign of the difference. *)
Lemma usub_signed a b r h n :
  bn_shape a -> bn_shape b -> bn_shape r -> Z.max (width a) (width b) <= n ->
  gives (mag a - mag b) n r
    ((if BN_ucmp a b <? 0 then let* _ := BN_usub b a in upd (set_neg 1) else let* _ := BN_usub a b in upd (set_neg 0)) (r, h)).
Proof.
  intros Ha Hb Hr Hle. rewrite BN_ucmp_spec by assumption. unfold cmp_val, gives.
  destruct (Z.compare_spec (mag a) (mag b)) as [E|E|E]; cbn [Z.ltb Z.compare]; unfold bind, upd.
  - pose proof (BN_usub_spec a b r h Ha Hb Hr) as Hu. destruct (BN_usub a b (r, h)) as [[[]|] [r1 h1]].
    + destruct Hu as (Hok & Em & Hmin). destruct (set_neg_ok 0 r1 Hok Hmin (or_introl eq_refl)) as (Ho & Ev & Hmi). split_and!; auto; rewrite Ev; exact Em.
    + destruct Hu as [|Hu]; [lia|]. intros Hroom. apply Hu. apply (room_mono n); [lia|exact Hroom].
  - pose proof (BN_usub_spec b a r h Hb Ha Hr) as Hu. destruct (BN_usub b a (r, h)) as [[[]|] [r1 h1]].
    + destruct Hu as (Hok & Em & Hmin). destruct (set_neg_ok 1 r1 Hok Hmin) as (Ho & Ev & Hmi); [right; split; [reflexivity|lia]|].
      split_and!; auto; rewrite Ev; cbn [Z.eqb]; lia.
    + destruct Hu as [|Hu]; [lia|]. intros Hroom. apply Hu. apply (room_mono n); [lia|exact Hroom].
  - pose proof (BN_usub_spec a b r h Ha Hb Hr) as Hu. destruct (BN_usub a b (r, h)) as [[[]|] [r1 h1]].
    + destruct Hu as (Hok & Em & Hmin). destruct (set_neg_ok 0 r1 Hok Hmin (or_introl eq_refl)) as (Ho & Ev & Hmi). split_and!; auto; rewrite Ev; exact Em.
    + destruct Hu as [|Hu]; [lia|]. intros Hroom. apply Hu. apply (room_mono n); [lia|exact Hroom].
Qed.

Lemma uadd_signed a b r h n :
  bn_shape a -> bn_shape b -> bn_shape r -> neg r = 0 \/ neg r = 1 -> n = 0 \/ n = 1 /\ mag a + mag b <> 0 ->
  let v := if n =? 0 then mag a + mag b else - (mag a + mag b) in
  gives v (Z.max (width a) (width b) + 1) r ((let* _ := BN_uadd a b in upd (set_neg n)) (r, h)) /\
  gives v (Z.max (width a) (width b) + 1) r (let '(ret, (r, h)) := BN_uadd a b (r, h) in (ret, (set_neg n r, h))).
Proof.
  intros Ha Hb Hr Hnr Hn v. unfold gives, bind, upd. pose proof (BN_uadd_spec a b r h Ha Hb Hr Hnr) as Hu.
  destruct (BN_uadd a b (r, h)) as [[[]|] [r1 h1]]; [|auto]. destruct Hu as (Hok & Em & Hmin).
  destruct (set_neg_ok n r1 Hok Hmin) as (Ho & Ev & Hmi); [rewrite Em; exact Hn|]. rewrite Em in Ev. auto.
Qed.

Lemma sign_cases a : bn_ok a -> neg a = 0 /\ value a = mag a \/ neg a = 1 /\ value a = - mag a /\ mag a <> 0.
Proof. intros [_ [E|[E Hz]]]; unfold value; rewrite E; auto. Qed.

Lemma BN_add_spec a b r h :
  bn_ok a -> bn_ok b -> bn_shape r -> neg r = 0 \/ neg r = 1 ->
  gives (value a + value b) (Z.max (width a) (width b) + 1) r (BN_add a b (r, h)).
Proof.
  intros Ha Hb Hr Hn. pose proof (mag_bound a (proj1 Ha)). pose proof (mag_bound b (proj1 Hb)).
  destruct (sign_cases a Ha) as [[Na Va]|(Na & Va & Za)], (sign_cases b Hb) as [[Nb Vb]|(Nb & Vb & Zb)];
    destruct Ha as [Ha _], Hb as [Hb _]; rewrite Va, Vb; unfold BN_add; rewrite Na, Nb; cbn [Z.lxor Z.eqb negb].
  - apply (uadd_signed a b r h 0); auto.
  - apply usub_signed; auto. lia.
  - replace (- mag a + mag b) with (mag b - mag a) by lia. apply usub_signed; auto. lia.
  - replace (- mag a + - mag b) with (- (mag a + mag b)) by lia. apply (uadd_signed a b r h 1); auto. right. split; [reflexivity|lia].
Qed.

Lemma BN_sub_spec a b r h :
  bn_ok a -> bn_ok b -> bn_shape r -> neg r = 0 \/ neg r = 1 ->
  gives (value a - value b) (Z.max (width a) (width b) + 1) r (BN_sub a b (r, h)).
Proof.
  intros Ha Hb Hr Hn. pose proof (mag_bound a (proj1 Ha)). pose proof (mag_bound b (proj1 Hb)).
  destruct (sign_cases a Ha) as [[Na Va]|(Na & Va & Za)], (sign_cases b Hb) as [[Nb Vb]|(Nb & Vb & Zb)];
    destruct Ha as [Ha _], Hb as [Hb _]; rewrite Va, Vb; unfold BN_sub; rewrite Na, Nb; cbn [Z.eqb negb].
  - apply usub_signed; auto. lia.
  - replace (mag a - - mag b) with (mag a + mag b) by lia. apply (uadd_signed a b r h 0); auto.
  - replace (- mag a - mag b) with (- (mag a + mag b)) by lia. apply (uadd_signed a b r h 1); auto. right. split; [reflexivity|lia].
  - replace (- mag a - - mag b) with (mag b - mag a) by lia. apply usub_signed; auto. lia.
Qed.

(** ** Words *)

Lemma add_word_loop_spec l : forall w, words l -> word w ->
  let '(l', w') := add_word_loop w l in
  words l' /\ zlen l' = zlen l /\ word w' /\ val l' + B ^ zlen l * w' = val l + w.
Proof.
  induction l as [|x l IH]; intros w Hl Hw; cbn [add_word_loop].
  - change (zlen []) with 0. split_and!; auto. lia.
  - apply List.Forall_cons_iff in Hl as [Hx Hl]. destruct (Z.eqb_spec w 0) as [->|Hw0].
    + split_and!; auto. lia.
    + assert (Hs : word (if u64 (x + w) <? w then 1 else 0) /\ u64 (x + w) + B * (if u64 (x + w) <? w then 1 else 0) = x + w).
      { unfold word, u64 in *. destruct (Z.ltb_spec (x + w) B).
        - rewrite Z.mod_small by lia. destruct (Z.ltb_spec (x + w) w); lia.
        - replace ((x + w) mod B) with (x + w - B) by (apply Z.mod_unique with 1; lia). destruct (Z.ltb_spec (x + w - B) w); lia. }
      destruct Hs as [Hc Es]. specialize (IH _ Hl Hc). destruct (add_word_loop _ l) as [l' w']. destruct IH as (Hl' & Hlen & Hw' & E).
      split_and!; [constructor; auto using word_u64|rewrite !zlen_cons; lia|exact Hw'|].
      cbn [val]. rewrite zlen_cons, Z.pow_add_r by (pose proof (zlen_nonneg l); lia). change (B ^ 1) with B. nia.
Qed.

Lemma sub_word_loop_spec l : forall w, words l -> word w -> w <= val l -> l <> [] ->
  let '(l', i) := sub_word_loop w l in
  words l' /\ zlen l' = zlen l /\ val l' = val l - w /\ 0 <= i < zlen l.
Proof.
  induction l as [|x l IH]; intros w Hl Hw Hle Hne; [contradiction|]. cbn [sub_word_loop].
  apply List.Forall_cons_iff in Hl as [Hx Hl]. cbn [val] in Hle. pose proof (zlen_nonneg l). destruct (Z.leb_spec w x).
  - split_and!; [constructor; [unfold word in *; lia|exact Hl]|reflexivity|cbn [val]; lia|rewrite ?zlen_cons; lia..].
  - assert (Hv : 1 <= val l) by (unfold word in *; pose proof (val_nonneg l Hl); nia).
    assert (Hn : l <> []) by (intros ->; cbn [val] in Hv; lia).
    specialize (IH 1 Hl ltac:(unfold word; lia) Hv Hn). destruct (sub_word_loop 1 l) as [l' i]. destruct IH as (Hl' & Hlen & E & Hi).
    split_and!; [constructor; auto using word_u64|rewrite !zlen_cons; lia| |rewrite ?zlen_cons; lia..].
    cbn [val]. rewrite E. unfold u64, word in *. replace ((x - w) mod B) with (x - w + B) by (apply Z.mod_unique with (-1); lia). lia.
Qed.

(** Storing other words in place of those that count. *)
Lemma restore_spec a l :
  bn_shape a -> words l -> zlen l = width a ->
  let a' := store_words 0 l a in
  bn_shape a' /\ limbs a' = l /\ neg a' = neg a /\ dmax a' = dmax a.
Proof.
  intros [Hl Hw Hm Hws] Hwl Hlen a'. split_and!; try reflexivity.
  - constructor; unfold a'; cbn; auto; [rewrite zlen_zsplice; lia|apply words_zsplice; assumption].
  - unfold limbs, a'. cbn. rewrite ztake_zsplice_end by lia. reflexivity.
Qed.

Lemma add_word_pos_spec a h w :
  bn_ok a -> neg a = 0 -> word w ->
  match add_word_pos w (a, h) with
  | (Some _, (a', _)) => bn_ok a' /\ value a' = value a + w /\ neg a' = 0
  | (None, _) => ~ room (width a + 1) a
  end.
Proof.
  intros [Hs Hn] Hneg Hw. unfold add_word_pos, bind at 1, getb. pose proof (add_word_loop_spec (limbs a) w ltac:(auto with bn) Hw) as Hl.
  destruct (add_word_loop w (limbs a)) as [l w']. rewrite limbs_len in Hl by exact Hs. destruct Hl as (Hwl & Hlen & Hw' & E).
  unfold bind at 1, upd at 1. destruct (restore_spec a l Hs Hwl Hlen) as (Hs1 & El1 & En1 & Ed1). set (a1 := store_words 0 l a) in *.
  rewrite (value_neg0 a Hneg). fold (mag a) in E. destruct (Z.eqb_spec w' 0) as [->|Hw0]; cbn [negb].
  - cbn. assert (Em : mag a1 = mag a + w) by (unfold mag at 1; rewrite El1; lia). split; [split; [exact Hs1|left; congruence]|].
    split; [|congruence]. rewrite value_neg0 by congruence. exact Em.
  - pose proof (bn_width a Hs) as Hwa. unfold bind at 1. pose proof (bn_wexpand_spec (width a + 1) a1 h Hs1 ltac:(lia)) as Hx.
    destruct (bn_wexpand _ (a1, h)) as [[[]|] [a2 h2]].
    2: { destruct Hx as [_ Hx]. intros Hr. apply Hx. unfold room in *. rewrite Ed1. exact Hr. }
    destruct Hx as (Hs2 & Hd2 & El2 & Ew2 & En2 & _). unfold bind, upd. set (a3 := store_words (width a) [w'] _).
    pose proof (bn_len a2 Hs2) as Hl2. pose proof (bn_width a2 Hs2) as Hw2.
    assert (El3 : limbs a3 = l ++ [w']).
    { unfold limbs, a3. cbn [width d store_words set_d set_width]. rewrite ztake_zsplice_end by (autorewrite with zlen; lia).
      change (width a1) with (width a) in Ew2. rewrite <- Ew2. fold (limbs a2). rewrite El2, El1. reflexivity. }
    assert (Em3 : mag a3 = mag a + w) by (unfold mag at 1; rewrite El3, val_snoc, Hlen; lia).
    assert (En3 : neg a3 = 0) by (change (neg a3) with (neg a2); congruence).
    split; [split; [|left; exact En3]|split; [rewrite value_neg0 by exact En3; exact Em3|exact En3]].
    constructor; unfold a3; cbn; [rewrite zlen_zsplice by (autorewrite with zlen; lia); exact Hl2|lia|apply (bn_max a2 Hs2)|].
    apply words_zsplice; [apply bn_words, Hs2|repeat constructor; apply Hw'].
Qed.

Lemma sub_word_pos_spec a h w :
  bn_ok a -> neg a = 0 -> mag a <> 0 -> word w ->
  exists a', sub_word_pos w (a, h) = (Some tt, (a', h)) /\ bn_ok a' /\ value a' = value a - w.
Proof.
  intros [Hs Hn] Hneg Hz Hw. unfold sub_word_pos, bind at 1, getb. pose proof (bn_width a Hs) as Hwa. pose proof (bn_len a Hs) as Hla.
  assert (Hw0 : width a <> 0) by (intros E; apply Hz; unfold mag, limbs; rewrite E; reflexivity).
  pose proof (mag_cons a Hs Hw0) as Ec. set (x := znth 0 0 (d a)) in *. set (rest := zdrop 1 (limbs a)) in *.
  assert (Em : mag a = x + B * val rest) by (unfold mag; rewrite Ec; reflexivity).
  assert (Hx : word x) by (apply words_znth, bn_words, Hs). assert (Hrw : words rest) by (unfold rest; auto with bn).
  pose proof (val_nonneg rest Hrw) as Hr0. rewrite (value_neg0 a Hneg). pose proof (minimal_width_1 a Hs Hz) as Hm1.
  destruct (_ && _) eqn:Eb.
  - apply andb_true_iff in Eb as [E1 E2]. apply Z.eqb_eq in E1. apply Z.ltb_lt in E2. apply Hm1 in E1. unfold word in Hx.
    assert (Er : val rest = 0) by lia. unfold bind, upd. set (a' := set_neg 1 _).
    assert (El : limbs a' = (w - x) :: rest).
    { unfold limbs, a'. cbn [width d set_neg store_words set_d]. rewrite ztake_zsplice by (autorewrite with zlen; lia). fold (limbs a). rewrite Ec.
      apply (zsplice_app 0 [w - x] [] [x] rest); reflexivity. }
    assert (Em' : mag a' = w - x) by (unfold mag; rewrite El; cbn [val]; lia).
    exists a'. split; [reflexivity|]. split; [split|].
    + constructor; unfold a'; cbn; [rewrite zlen_zsplice by (autorewrite with zlen; lia); exact Hla|lia|apply (bn_max a Hs)|].
      apply words_zsplice; [apply bn_words, Hs|]. repeat constructor; unfold word in *; lia.
    + right. split; [reflexivity|]. rewrite Em'. lia.
    + unfold value. cbn [neg set_neg Z.eqb]. change (neg a' =? 0) with false. cbv iota. lia.
  - assert (Hle : w <= mag a).
    { apply andb_false_iff in Eb as [Eb|Eb]; [apply Z.eqb_neq in Eb; assert (~ mag a < B) by tauto; unfold word in Hw; lia|apply Z.ltb_ge in Eb; lia]. }
    pose proof (sub_word_loop_spec (limbs a) w ltac:(auto with bn) Hw Hle ltac:(rewrite Ec; discriminate)) as Hl.
    destruct (sub_word_loop w (limbs a)) as [l i]. rewrite limbs_len in Hl by exact Hs. destruct Hl as (Hwl & Hlen & E & Hi).
    unfold bind, upd. destruct (restore_spec a l Hs Hwl Hlen) as (Hs1 & El1 & En1 & Ed1). set (a1 := store_words 0 l a) in *.
    assert (Em1 : mag a1 = mag a - w) by (unfold mag at 1; rewrite El1; exact E).
    destruct ((znth 0 i l =? 0) && _) eqn:Ez.
    + apply andb_true_iff in Ez as [E1 E2]. apply Z.eqb_eq in E1, E2. set (a2 := set_width (width a - 1) a1).
      assert (Em2 : mag a2 = mag a - w).
      { rewrite <- Em1. unfold mag. rewrite El1. assert (El2 : limbs a2 = ztake (width a - 1) l).
        { rewrite <- El1. unfold limbs, a2. cbn [width d set_width]. symmetry. apply ztake_ztake. change (width a1) with (width a). lia. }
        rewrite El2. rewrite <- (ztake_all l) at 2. rewrite Hlen. replace (width a) with ((width a - 1) + 1) at 2 by lia.
        rewrite ztake_snoc, val_snoc by lia. rewrite <- E2, E1. lia. }
      exists a2. split; [reflexivity|]. split; [split|].
      * destruct Hs1 as [Hl1 Hw1 Hm1' Hws1]. constructor; unfold a2; cbn [width d dmax set_width]; auto. lia.
      * left. change (neg a2) with (neg a1). congruence.
      * rewrite value_neg0 by (change (neg a2) with (neg a1); congruence). exact Em2.
    + exists a1. split; [reflexivity|]. split; [split; [exact Hs1|left; congruence]|]. rewrite value_neg0 by congruence. exact Em1.
Qed.

Lemma set_neg0_ok a : bn_ok a -> bn_ok (set_neg 0 a) /\ neg (set_neg 0 a) = 0 /\ mag (set_neg 0 a) = mag a.
Proof. intros [[Hl Hw Hm Hws] _]. split_and!; try reflexivity. split; [constructor; assumption|left; reflexivity]. Qed.

Lemma value_0 a : bn_shape a -> mag a = 0 -> value a = 0.
Proof. intros Hs E. unfold value. rewrite E. destruct (neg a =? 0); reflexivity. Qed.

Lemma is_zero_false a : bn_shape a -> mag a <> 0 -> BN_is_zero a = false.
Proof. intros Hs Hz. rewrite is_zero_spec by exact Hs. apply Z.eqb_neq, Hz. Qed.

Lemma sub_word_nonneg_spec a h w :
  bn_ok a -> neg a = 0 -> mag a <> 0 -> word w ->
  exists a', BN_sub_word_nonneg w (a, h) = (Some tt, (a', h)) /\ bn_ok a' /\ value a' = value a - w.
Proof.
  intros Ha Hn Hz Hw. unfold BN_sub_word_nonneg, bind, getb. rewrite is_zero_false by (exact (proj1 Ha) || exact Hz).
  apply sub_word_pos_spec; assumption.
Qed.

Lemma add_word_nonneg_spec a h w :
  bn_ok a -> neg a = 0 -> mag a <> 0 -> word w ->
  match BN_add_word_nonneg w (a, h) with
  | (Some _, (a', _)) => bn_ok a' /\ value a' = value a + w /\ neg a' = 0
  | (None, _) => ~ room (width a + 1) a
  end.
Proof.
  intros Ha Hn Hz Hw. unfold BN_add_word_nonneg, bind, getb. rewrite is_zero_false by (exact (proj1 Ha) || exact Hz).
  apply add_word_pos_spec; assumption.
Qed.

Lemma BN_add_word_spec a h w : bn_ok a -> word w -> changes_to (value a + w) a (BN_add_word w (a, h)).
Proof.
  intros Ha Hw. pose proof Ha as [Hs Hn]. unfold BN_add_word. destruct (Z.eqb_spec w 0) as [->|Hw0].
  { cbn. split; [exact Ha|lia]. }
  unfold bind at 1, getb. rewrite is_zero_spec by exact Hs. destruct (Z.eqb_spec (mag a) 0) as [Hz|Hz].
  { rewrite (value_0 a Hs Hz). pose proof (BN_set_word_spec a h w Hs Hw) as Hset. unfold sets, changes_to in *.
    destruct (BN_set_word w (a, h)) as [[[]|] [a' h']]; [exact Hset|]. intros Hr. apply Hset. apply (room_mono (width a + 1)); [|exact Hr].
    pose proof (bn_width a Hs). lia. }
  destruct (sign_cases a Ha) as [[Na Va]|(Na & Va & _)]; rewrite Na; cbn [Z.eqb negb].
  - pose proof (add_word_nonneg_spec a h w Ha Na Hz Hw) as Hadd. unfold changes_to.
    destruct (BN_add_word_nonneg w (a, h)) as [[[]|] [a' h']]; [|exact Hadd]. tauto.
  - unfold bind, upd. destruct (set_neg0_ok a Ha) as (Ha0 & Na0 & Em0).
    destruct (sub_word_nonneg_spec (set_neg 0 a) h w Ha0 Na0 ltac:(congruence) Hw) as (a' & -> & Ha' & Ev).
    rewrite (value_neg0 _ Na0), Em0 in Ev. rewrite is_zero_value by exact (proj1 Ha'). unfold changes_to. rewrite Va.
    destruct (Z.eqb_spec (value a') 0) as [E|E]; cbn [negb]; [split; [exact Ha'|lia]|].
    pose proof (mag_value a' (proj1 Ha')) as Em'. destruct Ha' as [[Hl' Hw' Hm' Hws'] Hn'].
    assert (Ef : value (set_neg (if neg a' =? 0 then 1 else 0) a') = - value a').
    { unfold value. cbn [neg set_neg]. change (mag (set_neg _ a')) with (mag a'). destruct (neg a' =? 0); cbn [Z.eqb Pos.eqb]; lia. }
    split; [split; [constructor; assumption|]|lia]. unfold sign_ok. cbn [neg set_neg]. change (mag (set_neg _ a')) with (mag a').
    destruct (neg a' =? 0); [right; split; [reflexivity|lia]|left; reflexivity].
Qed.

Lemma BN_sub_word_spec a h w : bn_ok a -> word w -> changes_to (value a - w) a (BN_sub_word w (a, h)).
Proof.
  intros Ha Hw. pose proof Ha as [Hs Hn]. unfold BN_sub_word. destruct (Z.eqb_spec w 0) as [->|Hw0].
  { cbn. split; [exact Ha|lia]. }
  unfold bind at 1, getb. rewrite is_zero_spec by exact Hs. destruct (Z.eqb_spec (mag a) 0) as [Hz|Hz].
  { rewrite (value_0 a Hs Hz). pose proof (BN_set_word_spec a h w Hs Hw) as Hset. unfold BN_sub_word_nonneg, bind, getb.
    rewrite is_zero_spec, Hz by exact Hs. cbn [Z.eqb]. unfold sets, changes_to in *.
    destruct (BN_set_word w (a, h)) as [[[]|] [a' h']].
    - destruct Hset as [Ha' Ev]. destruct (BN_set_negative_spec a' true (proj1 Ha')) as [Ho Ev']. split; [exact Ho|].
      rewrite Ev', (mag_value a' (proj1 Ha')), Ev. unfold word in Hw. lia.
    - intros Hr. apply Hset. apply (room_mono (width a + 1)); [|exact Hr]. pose proof (bn_width a Hs). lia. }
  destruct (sign_cases a Ha) as [[Na Va]|(Na & Va & _)]; rewrite Na; cbn [Z.eqb negb].
  - destruct (sub_word_nonneg_spec a h w Ha Na Hz Hw) as (a' & -> & Ha' & Ev). split; assumption.
  - unfold bind, upd. destruct (set_neg0_ok a Ha) as (Ha0 & Na0 & Em0).
    pose proof (add_word_nonneg_spec (set_neg 0 a) h w Ha0 Na0 ltac:(congruence) Hw) as Hadd. unfold changes_to.
    destruct (BN_add_word_nonneg w (set_neg 0 a, h)) as [[[]|] [a' h']]; [|exact Hadd].
    destruct Hadd as (Ha' & Ev & Na'). rewrite (value_neg0 _ Na0), Em0, (value_neg0 _ Na') in Ev.
    pose proof (mag_bound a Hs). destruct Ha' as [[Hl' Hw' Hm' Hws'] Hn'].
    split; [split; [constructor; assumption|right; split; [reflexivity|]]|].
    + change (mag (set_neg 1 a')) with (mag a'). unfold word in Hw. lia.
    + unfold value at 1. cbn [neg set_neg Z.eqb]. change (mag (set_neg 1 a')) with (mag a'). lia.
Qed.
End Proofs.

(** * Properties *)

(** C20: Sums and differences of numbers of any signs and widths, and of a number and a
    word, are exact: whatever the result's old contents, on success it is the sum or
    difference, and zero has no sign; it may only fail for lack of room for one
    word more than the wider operand. *)
Theorem bn_add_sub_exact `{Malloc} (a b r : BIGNUM) (h : heap) (w : Z) :
  bn_ok a -> bn_ok b -> bn_ok r -> word w ->
  gives (value a + value b) (Z.max (width a) (width b) + 1) r (BN_add a b (r, h)) /\
  gives (value a - value b) (Z.max (width a) (width b) + 1) r (BN_sub a b (r, h)) /\
  changes_to (value a + w) a (BN_add_word w (a, h)) /\
  changes_to (value a - w) a (BN_sub_word w (a, h)).
Proof.
  intros Ha Hb [Hr Hn] Hw. assert (Hbit : neg r = 0 \/ neg r = 1) by (destruct Hn; tauto).
  split_and!; auto using BN_add_spec, BN_sub_spec, BN_add_word_spec, BN_sub_word_spec.
Qed.

(** [2^64 + 5], and [-7] with a width that is not minimal. *)
Definition bn_sample_a : BIGNUM := {| d := [5; 1]; width := 2; dmax := 2; neg := 0; flags := 0 |}.
Definition bn_sample_b : BIGNUM := {| d := [7; 0; 3]; width := 2; dmax := 3; neg := 1; flags := 0 |}.

Lemma bn_samples_ok : bn_ok bn_sample_a /\ bn_ok bn_sample_b.
Proof.
  split; (split; [constructor; cbn; try reflexivity; try lia; [unfold BN_MAX_WORDS; lia|repeat constructor; lia]|]).
  - left. reflexivity.
  - right. split; [reflexivity|]. vm_compute. discriminate.
Qed.

Lemma bn_add_sub_exact_witness :
  exists r, @BN_add unlimited bn_sample_a bn_sample_b (BN_init, tt) = (Some tt, (r, tt)) /\ value r = 2 ^ 64 - 2.
Proof.
  destruct (@bn_add_sub_exact unlimited bn_sample_a bn_sample_b BN_init tt 3 (proj1 bn_samples_ok) (proj2 bn_samples_ok)) as (Hadd & _).
  - split; [constructor; cbn; try lia; [reflexivity|unfold BN_MAX_WORDS; lia|constructor]|left; reflexivity].
  - unfold word. lia.
  - revert Hadd. match goal with |- gives _ _ _ ?t -> exists r, ?u = _ /\ _ => change u with t; destruct t as [[[]|] [r []]] end; intros Hadd.
    + exists r. split; [reflexivity|]. apply Hadd.
    + destruct Hadd. right. split; [vm_compute; discriminate|]. split; [reflexivity|]. exists 1000.
      split; [apply unlimited_grants|vm_compute; split; [discriminate|reflexivity]].
Defined.
