(* ===== verification/BnShift.v ===== *)
(** crypto/fipsmodule/bn/shift.c: shifts, single bits, masks and trailing zeros. *)
From Stdlib Require Import ZArith Lia.
From stdpp Require Import base list numbers.
From S2P Require Import Prelude.
From S2P Require Import Mem.
From S2P Require Import ConstTime.
From S2P Require Import BnWords.
From S2P Require Import Bn.

Open Scope Z_scope.

(** * The code *)

(** The loop of [BN_lshift] for a shift within words, from word [k - 1] down; the
    words of [t] above those written are complete. *)
Fixpoint lshift_loop (k : nat) (nw lb : Z) (f t : list Z) : list Z :=
  match k with
  | O => t
  | S i =>
    let i' := Z.of_nat i in
    let l := znth 0 i' f in
    let t := zsplice (nw + i' + 1) [Z.lor (znth 0 (nw + i' + 1) t) (Z.shiftr l (BN_BITS2 - lb))] t in
    let t := zsplice (nw + i') [u64 (Z.shiftl l lb)] t in
    lshift_loop i nw lb f t
  end.

(** The loop for a shift by whole words. *)
Fixpoint lshift_words_loop (k : nat) (nw : Z) (f t : list Z) : list Z :=
  match k with
  | O => t
  | S i => lshift_words_loop i nw f (zsplice (nw + Z.of_nat i) [znth 0 (Z.of_nat i) f] t)
  end.

Fixpoint lshift1_loop (c : Z) (a : list Z) : list Z * Z :=
  match a with
  | [] => ([], c)
  | t :: a => let '(r, c') := lshift1_loop (Z.shiftr t (BN_BITS2 - 1)) a in (Z.lor (u64 (Z.shiftl t 1)) c :: r, c')
  end.

(** The words shifted right within words; the last one has nothing above it. *)
Fixpoint rshift_loop (shift_bits : Z) (a : list Z) : list Z :=
  match a with
  | [] => []
  | x :: a' =>
    match a' with
    | [] => [Z.shiftr x shift_bits]
    | y :: _ => Z.lor (Z.shiftr x shift_bits) (u64 (Z.shiftl y (BN_BITS2 - shift_bits))) :: rshift_loop shift_bits a'
    end
  end.

Definition bn_rshift_words (a : list Z) (shift num : Z) : list Z :=
  let shift_bits := shift mod BN_BITS2 in
  let shift_words := shift / BN_BITS2 in
  if num <=? shift_words then zrep num 0
  else
    let r := zsub shift_words (num - shift_words) a in
    (if shift_bits =? 0 then r else rshift_loop shift_bits r) ++ zrep shift_words 0.

Definition bn_rshift1_words (a : list Z) (num : Z) : list Z := rshift_loop 1 (ztake num a).

Definition bn_is_bit_set_words (a : list Z) (num bit : Z) : Z :=
  let i := bit / BN_BITS2 in
  let j := bit mod BN_BITS2 in
  if num <=? i then 0 else Z.land (Z.shiftr (znth 0 i a) j) 1.

(** One halving step of [bn_count_low_zero_bits_word]. *)
Definition low_zero_step (k : Z) (s : Z * Z) : Z * Z :=
  let '(bits, l) := s in
  let mask := constant_time_is_zero_w (u64 (Z.shiftl l (BN_BITS2 - k))) in
  (bits + Z.land k mask, constant_time_select_w mask (Z.shiftr l k) l).

Definition bn_count_low_zero_bits_word (l : Z) : Z :=
  let s := low_zero_step 32 (0, l) in
  let s := low_zero_step 16 s in
  let s := low_zero_step 8 s in
  let s := low_zero_step 4 s in
  let s := low_zero_step 2 s in
  let '(bits, l) := s in
  bits + Z.land 1 (constant_time_is_zero_w (u64 (Z.shiftl l (BN_BITS2 - 1)))).

Fixpoint count_low_loop (i saw_nonzero ret : Z) (a : list Z) : Z :=
  match a with
  | [] => ret
  | x :: a =>
    let nonzero := u64 (Z.lnot (constant_time_is_zero_w x)) in
    let first_nonzero := Z.land (u64 (Z.lnot saw_nonzero)) nonzero in
    let saw_nonzero := Z.lor saw_nonzero nonzero in
    let bits := bn_count_low_zero_bits_word x in
    let ret := s32 (Z.lor (u64 ret) (Z.land first_nonzero (i * BN_BITS2 + bits))) in
    count_low_loop (i + 1) saw_nonzero ret a
  end.

Definition BN_count_low_zero_bits (b : BIGNUM) : Z := count_low_loop 0 0 0 (limbs b).

Section Code.
Context `{Malloc}.

Definition BN_lshift (a : BIGNUM) (n : Z) : M (BIGNUM * heap) unit :=
  check negb (n <? 0) in
  let* _ := upd (set_neg (neg a)) in
  let nw := n / BN_BITS2 in
  let* _ := bn_wexpand (width a + nw + 1) in
  let lb := n mod BN_BITS2 in
  let* _ := upd (fun r =>
    let t := zsplice (width a + nw) [0] (d r) in
    let t := if lb =? 0 then lshift_words_loop (Z.to_nat (width a)) nw (d a) t
             else lshift_loop (Z.to_nat (width a)) nw lb (d a) t in
    set_d t r) in
  let* _ := upd (store_words 0 (zrep nw 0)) in
  let* _ := upd (set_width (width a + nw + 1)) in
  upd bn_set_minimal_width.

(** If the result is the operand itself, its sign and width are not stored again. *)
Definition BN_lshift1 (a : BIGNUM) : M (BIGNUM * heap) unit :=
  let* _ := upd (set_neg (neg a)) in
  let* _ := bn_wexpand (width a + 1) in
  let* _ := upd (set_width (width a)) in
  let '(rp, c) := lshift1_loop 0 (limbs a) in
  let* _ := upd (store_words 0 rp) in
  if negb (c =? 0) then
    let* _ := upd (store_words (width a) [1]) in
    upd (set_width (width a + 1))
  else ret tt.

Definition BN_rshift (a : BIGNUM) (n : Z) : M (BIGNUM * heap) unit :=
  check negb (n <? 0) in
  let* _ := bn_wexpand (width a) in
  let* _ := upd (store_words 0 (bn_rshift_words (d a) n (width a))) in
  let* _ := upd (fun r => set_width (width a) (set_neg (neg a) r)) in
  upd bn_set_minimal_width.

Definition BN_rshift1 (a : BIGNUM) : M (BIGNUM * heap) unit :=
  let* _ := bn_wexpand (width a) in
  let* _ := upd (store_words 0 (bn_rshift1_words (d a) (width a))) in
  let* _ := upd (fun r => set_neg (neg a) (set_width (width a) r)) in
  upd bn_set_minimal_width.

(** The loop of [bn_rshift_secret_shift]: shifts by the powers of two in [n], as far
    as the width has bits. *)
Fixpoint secret_shift_loop (fuel : nat) (i max_bits n : Z) (r : list Z) (num : Z) : list Z :=
  if Z.shiftr max_bits i =? 0 then r
  else
    match fuel with
    | O => r
    | S fuel =>
      let mask := Z.land (Z.shiftr n i) 1 in
      let mask := u64 (0 - mask) in
      let tmp := bn_rshift_words r (u32 (Z.shiftl 1 i)) num in
      secret_shift_loop fuel (i + 1) max_bits n (bn_select_words mask tmp r num) num
    end.

(** [tmp] is the number [BN_CTX_get] returns. *)
Definition bn_rshift_secret_shift (a : BIGNUM) (n : Z) (tmp : option BIGNUM) : M (BIGNUM * heap) unit :=
  match tmp with
  | None => fail
  | Some tmp =>
    let* _ := BN_copy a in
    let* r := getb in
    let* _ := (fun '(r0, h) => let '(ok, (_, h)) := bn_wexpand (width r) (tmp, h) in (ok, (r0, h))) in
    let max_bits := u32 (BN_BITS2 * width r) in
    upd (store_words 0 (secret_shift_loop 32 0 max_bits n (limbs r) (width r)))
  end.

Definition BN_set_bit (n : Z) : M (BIGNUM * heap) unit :=
  check negb (n <? 0) in
  let i := n / BN_BITS2 in
  let j := n mod BN_BITS2 in
  let* a := getb in
  let* _ :=
    if width a <=? i then
      let* _ := bn_wexpand (i + 1) in
      let* _ := upd (store_words (width a) (zrep (i + 1 - width a) 0)) in
      upd (set_width (i + 1))
    else ret tt in
  upd (fun a => store_words i [Z.lor (znth 0 i (d a)) (u64 (Z.shiftl 1 j))] a).

Definition BN_clear_bit (n : Z) : M (BIGNUM * heap) unit :=
  check negb (n <? 0) in
  let i := n / BN_BITS2 in
  let j := n mod BN_BITS2 in
  let* a := getb in
  check negb (width a <=? i) in
  let* _ := upd (fun a => store_words i [Z.land (znth 0 i (d a)) (u64 (Z.lnot (u64 (Z.shiftl 1 j))))] a) in
  upd bn_set_minimal_width.

Definition BN_is_bit_set (a : BIGNUM) (n : Z) : Z :=
  if n <? 0 then 0 else bn_is_bit_set_words (d a) (width a) n.

Definition BN_mask_bits (n : Z) : M (BIGNUM * heap) unit :=
  check negb (n <? 0) in
  let w := n / BN_BITS2 in
  let b := n mod BN_BITS2 in
  let* a := getb in
  if width a <=? w then ret tt
  else
    let* _ :=
      if b =? 0 then upd (set_width w)
      else
        let* _ := upd (set_width (w + 1)) in
        upd (fun a => store_words w [Z.land (znth 0 w (d a)) (u64 (Z.lnot (u64 (Z.shiftl BN_MASK2 b))))] a) in
    upd bn_set_minimal_width.
End Code.

(** * Bits of an array *)

Lemma znth_zsplice1 i x l k : 0 <= i < zlen l -> 0 <= k -> znth 0 k (zsplice i [x] l) = if k =? i then x else znth 0 k l.
Proof.
  intros Hi Hk. destruct (zcut i 1 l) as (p & m & s & -> & Hp & Hm); [lia..|]. rewrite zsplice_app by (rewrite ?Hm; auto).
  unfold znth, zlen in *. destruct m as [|y [|]]; cbn [length] in Hm; try lia. destruct (Z.eqb_spec k i) as [->|Hne].
  - rewrite app_nth2 by lia. replace (Z.to_nat i - length p)%nat with 0%nat by lia. reflexivity.
  - destruct (Nat.lt_ge_cases (Z.to_nat k) (length p)); [rewrite !app_nth1 by lia; reflexivity|].
    rewrite !(app_nth2 p) by lia. replace (Z.to_nat k - length p)%nat with (S (Z.to_nat k - length p - 1)) by lia. reflexivity.
Qed.

Lemma val_testbit l : words l -> forall m, 0 <= m -> Z.testbit (val l) m = Z.testbit (znth 0 (m / 64) l) (m mod 64).
Proof.
  induction 1 as [|x l Hx Hl IH]; intros m Hm; cbn [val].
  - unfold znth. destruct (Z.to_nat (m / 64)); rewrite !Z.bits_0; reflexivity.
  - replace (x + B * val l) with (val l * 2 ^ 64 + x) by (change (2 ^ 64) with B; lia).
    rewrite testbit_split by (unfold word in Hx; lia). destruct (Z.ltb_spec m 64).
    + rewrite Z.div_small, Z.mod_small by lia. reflexivity.
    + rewrite IH by lia. replace (m / 64) with (1 + (m - 64) / 64) by dlia. replace (m mod 64) with ((m - 64) mod 64) by dlia.
      unfold znth. replace (Z.to_nat (1 + (m - 64) / 64)) with (S (Z.to_nat ((m - 64) / 64))) by (pose proof (Z.div_pos (m - 64) 64); lia).
      reflexivity.
Qed.

Lemma znth_over l k : zlen l <= k -> znth 0 k l = 0.
Proof. intros Hk. unfold znth. apply nth_overflow. unfold zlen in Hk. lia. Qed.

(** * Shifting right *)

Lemma val_rshift sb l : words l -> 0 < sb < 64 -> val (rshift_loop sb l) = val l / 2 ^ sb /\ words (rshift_loop sb l) /\ zlen (rshift_loop sb l) = zlen l.
Proof.
  intros Hl Hsb. assert (Hp : 0 < 2 ^ sb < B) by (split; [apply Z.pow_pos_nonneg; lia|change B with (2 ^ 64); apply Z.pow_lt_mono_r; lia]).
  induction Hl as [|x l Hx Hl IH]; cbn [rshift_loop val]; [rewrite Z.div_0_l by lia; split_and!; auto; constructor|].
  destruct IH as (IHv & IHw & IHl). assert (HB : B = 2 ^ (64 - sb) * 2 ^ sb).
  { rewrite <- Z.pow_add_r by lia. replace (64 - sb + sb) with 64 by lia. reflexivity. }
  assert (Hdiv : (x + B * val l) / 2 ^ sb = x / 2 ^ sb + 2 ^ (64 - sb) * val l).
  { rewrite HB. replace (x + 2 ^ (64 - sb) * 2 ^ sb * val l) with (x + (2 ^ (64 - sb) * val l) * 2 ^ sb) by lia. apply Z.div_add. lia. }
  assert (Hx' : 0 <= x / 2 ^ sb < 2 ^ (64 - sb)).
  { unfold word in Hx. split; [apply Z.div_pos; lia|]. apply Z.div_lt_upper_bound; [lia|]. rewrite Z.mul_comm, <- HB. lia. }
  assert (Hp' : 2 ^ (64 - sb) < B) by (change B with (2 ^ 64); apply Z.pow_lt_mono_r; lia).
  destruct l as [|y l].
  - rewrite Hdiv. cbn [val]. rewrite Z.shiftr_div_pow2 by lia. split_and!; [lia|repeat constructor; lia|reflexivity].
  - rewrite Hdiv. cbn [val] in IHv |- *. cbn [val]. rewrite IHv. set (V := y + B * val l) in *.
    assert (Ey : u64 (Z.shiftl y (BN_BITS2 - sb)) = (V mod 2 ^ sb) * 2 ^ (64 - sb)).
    { unfold u64, BN_BITS2. rewrite Z.shiftl_mul_pow2 by lia. rewrite HB, (Z.mul_comm (2 ^ (64 - sb)) (2 ^ sb)), Z.mul_mod_distr_r by lia.
      f_equal. unfold V. rewrite HB. replace (y + 2 ^ (64 - sb) * 2 ^ sb * val l) with (y + (2 ^ (64 - sb) * val l) * 2 ^ sb) by lia. symmetry. apply Z.mod_add. lia. }
    rewrite Ey, Z.lor_comm. rewrite Z.shiftr_div_pow2 by lia.
    pose proof (Z.mod_pos_bound V (2 ^ sb) ltac:(lia)) as Hm.
    assert (Eo : Z.lor ((V mod 2 ^ sb) * 2 ^ (64 - sb)) (x / 2 ^ sb) = (V mod 2 ^ sb) * 2 ^ (64 - sb) + x / 2 ^ sb).
    { apply (lor_disjoint (64 - sb)); [lia|apply Z.mod_mul; lia|exact Hx']. }
    rewrite Eo. pose proof (Z.div_mod V (2 ^ sb) ltac:(lia)) as Hdm. split_and!.
    + rewrite HB. clearbody V. clear -Hdm. set (q := V / 2 ^ sb) in *. set (m := V mod 2 ^ sb) in *. clearbody q m. subst V. ring.
    + constructor; [|exact IHw]. split; [nia|]. assert ((V mod 2 ^ sb) * 2 ^ (64 - sb) <= (2 ^ sb - 1) * 2 ^ (64 - sb)) by (apply Z.mul_le_mono_nonneg_r; lia).
      change (2 ^ 64) with B. nia.
    + rewrite !zlen_cons in *. lia.
Qed.

Lemma bn_rshift_words_spec a s n :
  words a -> 0 <= s -> 0 <= n <= zlen a ->
  let r := bn_rshift_words a s n in words r /\ zlen r = n /\ val r = val (ztake n a) / 2 ^ s.
Proof.
  intros Ha Hs Hn. unfold bn_rshift_words, BN_BITS2. pose proof (Z.div_mod s 64 ltac:(lia)) as Hdm. pose proof (Z.mod_pos_bound s 64 ltac:(lia)).
  assert (Hq : 0 <= s / 64) by (apply Z.div_pos; lia). set (q := s / 64) in *. set (sb := s mod 64) in *.
  pose proof (val_bound (ztake n a) ltac:(auto with words)) as Hv. rewrite zlen_ztake in Hv by lia.
  assert (H2s : 2 ^ s = B ^ q * 2 ^ sb) by (rewrite B_pow2, <- Z.pow_add_r by lia; f_equal; lia).
  destruct (Z.leb_spec n q) as [Hle|Hlt].
  - split_and!; [auto with words|apply zlen_zrep; lia|]. rewrite val_zrep. symmetry. apply Z.div_small. split; [lia|].
    rewrite H2s. assert (B ^ n <= B ^ q) by (apply Z.pow_le_mono_r; lia). assert (1 <= 2 ^ sb) by (pose proof (Z.pow_pos_nonneg 2 sb); lia). nia.
  - set (r := zsub q (n - q) a). assert (Hr : words r) by (unfold r, zsub; auto with words).
    assert (Hrl : zlen r = n - q) by (unfold r, zsub; rewrite zlen_ztake by (rewrite zlen_zdrop; lia); reflexivity).
    assert (Hrv : val r = val (ztake n a) / B ^ q).
    { rewrite (val_ztake_zdrop q (ztake n a)) by (rewrite zlen_ztake; lia). rewrite zdrop_ztake by lia. fold r.
      pose proof (val_bound (ztake q (ztake n a)) ltac:(auto with words)) as Hb. rewrite zlen_ztake in Hb by (rewrite zlen_ztake; lia).
      apply (Z.div_unique _ _ (val r) (val (ztake q (ztake n a)))); lia. }
    assert (Hmain : let r' := if sb =? 0 then r else rshift_loop sb r in words r' /\ zlen r' = n - q /\ val r' = val (ztake n a) / 2 ^ s).
    { cbv zeta. rewrite H2s, <- Z.div_div, <- Hrv by (try apply Z.pow_pos_nonneg; try apply Z.pow_nonzero; lia). destruct (Z.eqb_spec sb 0) as [->|Hsb].
      - change (2 ^ 0) with 1. rewrite Z.div_1_r. auto.
      - destruct (val_rshift sb r Hr) as (Hv' & Hw' & Hl'); [lia|]. rewrite Hl'. auto. }
    destruct Hmain as (Hw' & Hl' & Hv'). split_and!; [apply Forall_app; auto with words|rewrite zlen_app, Hl', zlen_zrep; lia|].
    rewrite val_app, val_zrep. lia.
Qed.

Lemma bn_rshift1_words_spec a n :
  words a -> 0 <= n <= zlen a ->
  let r := bn_rshift1_words a n in words r /\ zlen r = n /\ val r = val (ztake n a) / 2.
Proof.
  intros Ha Hn. unfold bn_rshift1_words. destruct (val_rshift 1 (ztake n a) ltac:(auto with words)) as (Hv & Hw & Hl); [lia|].
  rewrite zlen_ztake in Hl by lia. auto.
Qed.

(** * Shifting left *)

(** The array [t], of which [p] is not written yet and [s] is written from word
    [zlen p] on. *)
Definition written (t p s e : list Z) : Prop := t = p ++ s ++ e /\ words s.

Lemma zcut_last (p : list Z) : 0 < zlen p -> exists q x, p = q ++ [x].
Proof.
  intros Hp. destruct p as [|x p _] using rev_ind; [change (zlen []) with 0 in Hp; lia|]. eauto.
Qed.

Lemma shl_split x lb : word x -> 0 < lb < 64 ->
  u64 (Z.shiftl x lb) + B * Z.shiftr x (BN_BITS2 - lb) = x * 2 ^ lb /\ u64 (Z.shiftl x lb) mod 2 ^ lb = 0 /\
  0 <= Z.shiftr x (BN_BITS2 - lb) < 2 ^ lb.
Proof.
  unfold word. intros Hx Hlb. unfold BN_BITS2. rewrite Z.shiftl_mul_pow2, Z.shiftr_div_pow2 by lia.
  assert (HB : B = 2 ^ (64 - lb) * 2 ^ lb).
  { rewrite <- Z.pow_add_r by lia. replace (64 - lb + lb) with 64 by lia. reflexivity. }
  assert (Hp : 0 < 2 ^ lb /\ 0 < 2 ^ (64 - lb)) by (split; apply Z.pow_pos_nonneg; lia).
  assert (Eu : u64 (x * 2 ^ lb) = (x mod 2 ^ (64 - lb)) * 2 ^ lb) by (unfold u64; rewrite HB; apply Z.mul_mod_distr_r; lia).
  rewrite Eu. rewrite HB at 1. pose proof (Z.div_mod x (2 ^ (64 - lb)) ltac:(lia)) as Hdm.
  split_and!; [|apply Z.mod_mul; lia|apply Z.div_pos; lia|apply Z.div_lt_upper_bound; [lia|rewrite <- HB; lia]].
  set (q := x / 2 ^ (64 - lb)) in *. set (r := x mod 2 ^ (64 - lb)) in *. clearbody q r. rewrite Hdm. ring.
Qed.

Lemma lshift_loop_spec f lb nw w : words f -> 0 < lb < 64 -> 0 <= nw -> forall k t p y s e,
  Z.of_nat k <= w <= zlen f -> written t p (y :: s) e -> zlen p = nw + Z.of_nat k -> zlen s = w - Z.of_nat k ->
  y mod 2 ^ lb = 0 -> val (y :: s) = val (zsub (Z.of_nat k) (w - Z.of_nat k) f) * 2 ^ lb ->
  exists p' s', written (lshift_loop k nw lb f t) p' s' e /\ zlen p' = nw /\ zlen s' = w + 1 /\ val s' = val (ztake w f) * 2 ^ lb.
Proof.
  intros Hf Hlb Hnw. induction k as [|k IH]; intros t p y s e Hk [-> Hw] Hp Hs Hy Hv; cbn [lshift_loop].
  - exists p, (y :: s). change (Z.of_nat 0) with 0 in *. rewrite Z.sub_0_r in *.
    split; [split; [reflexivity|exact Hw]|]. split_and!; [lia|rewrite zlen_cons; lia|exact Hv].
  - destruct (zcut_last p) as (q & z & ->); [lia|]. rewrite zlen_app in Hp. change (zlen [z]) with 1 in Hp.
    set (x := znth 0 (Z.of_nat k) f). assert (Hx : word x) by (apply words_znth, Hf).
    apply List.Forall_cons_iff in Hw as [Hyw Hsw]. destruct (shl_split x lb Hx Hlb) as (Es & Em & Hr).
    replace (nw + Z.of_nat k + 1) with (zlen (q ++ [z])) by (rewrite zlen_app; change (zlen [z]) with 1; lia).
    assert (Enth : znth 0 (zlen (q ++ [z])) ((q ++ [z]) ++ (y :: s) ++ e) = y).
    { unfold znth. rewrite app_nth2 by (unfold zlen; lia). replace (_ - _)%nat with 0%nat by (unfold zlen; lia). reflexivity. }
    rewrite Enth. change ((y :: s) ++ e) with ([y] ++ (s ++ e)). rewrite (zsplice_app _ [_] (q ++ [z]) [y] (s ++ e)) by reflexivity.
    rewrite (lor_disjoint lb y) by (lia || exact Hy || exact Hr). rewrite <- (app_assoc q).
    rewrite (zsplice_app _ [_] q [z]) by (reflexivity || lia).
    apply (IH _ q (u64 (Z.shiftl x lb)) (y + Z.shiftr x (BN_BITS2 - lb) :: s) e); [lia|split; [reflexivity|]|lia|rewrite zlen_cons; lia|exact Em|].
    + constructor; [apply word_u64|]. constructor; [|exact Hsw]. unfold word in *. split; [lia|].
      assert (HB : B = 2 ^ (64 - lb) * 2 ^ lb).
      { rewrite <- Z.pow_add_r by lia. replace (64 - lb + lb) with 64 by lia. reflexivity. }
      assert (Hyq : y / 2 ^ lb < 2 ^ (64 - lb)) by (apply Z.div_lt_upper_bound; [lia|rewrite Z.mul_comm, <- HB; lia]).
      pose proof (Z.div_mod y (2 ^ lb) ltac:(lia)) as Hdm. rewrite Hy in Hdm. change (2 ^ 64) with B. nia.
    + assert (Ez : zsub (Z.of_nat k) (w - Z.of_nat k) f = x :: zsub (Z.of_nat (S k)) (w - Z.of_nat (S k)) f).
      { unfold zsub, x, znth, ztake, zdrop. replace (Z.to_nat (w - Z.of_nat k)) with (S (Z.to_nat (w - Z.of_nat (S k)))) by lia.
        rewrite !Nat2Z.id. destruct (lookup_lt_is_Some_2 f k) as [x' Ex]; [unfold zlen in Hk; lia|]. rewrite (drop_S _ _ _ Ex), nth_lookup, Ex. reflexivity. }
      rewrite Ez. cbn [val] in Hv |- *. nia.
Qed.

Lemma lshift_words_loop_spec f nw w : forall k t p s e,
  0 <= nw -> Z.of_nat k <= w <= zlen f -> t = p ++ s ++ e -> zlen p = nw + Z.of_nat k ->
  exists p', lshift_words_loop k nw f t = p' ++ (ztake (Z.of_nat k) f ++ s) ++ e /\ zlen p' = nw.
Proof.
  induction k as [|k IH]; intros t p s e Hnw Hk -> Hp; cbn [lshift_words_loop].
  - exists p. split; [reflexivity|lia].
  - destruct (zcut_last p) as (q & z & ->); [lia|]. rewrite zlen_app in Hp. change (zlen [z]) with 1 in Hp. rewrite <- (app_assoc q).
    rewrite (zsplice_app _ [_] q [z]) by (reflexivity || lia).
    destruct (IH (q ++ [znth 0 (Z.of_nat k) f] ++ s ++ e) q (znth 0 (Z.of_nat k) f :: s) e Hnw) as (p' & E & Hp'); [lia|reflexivity|lia|]. exists p'. rewrite E. split; [|exact Hp'].
    replace (Z.of_nat (S k)) with (Z.of_nat k + 1) by lia. rewrite ztake_snoc by lia. rewrite <- (app_assoc (ztake (Z.of_nat k) f) [_] s). reflexivity.
Qed.

Lemma lshift1_loop_spec a : forall c, words a -> bit c ->
  let '(r, c') := lshift1_loop c a in words r /\ zlen r = zlen a /\ bit c' /\ val r + B ^ zlen a * c' = 2 * val a + c.
Proof.
  induction a as [|t a IH]; intros c Ha Hc; cbn [lshift1_loop].
  - change (zlen []) with 0. cbn [val]. split_and!; auto; lia.
  - apply List.Forall_cons_iff in Ha as [Ht Ha]. destruct (shl_split t 1 Ht ltac:(lia)) as (E & Em & Hr). change (BN_BITS2 - 1) with 63 in *. change (2 ^ 1) with 2 in *.
    specialize (IH (Z.shiftr t 63) Ha ltac:(unfold bit; lia)). destruct (lshift1_loop _ a) as [r c']. destruct IH as (Hr' & Hl & Hc' & E').
    assert (Hu : word (u64 (Z.shiftl t 1))) by apply word_u64. rewrite (lor_disjoint 1) by (try exact Em; unfold bit in Hc; lia).
    split_and!; [constructor; [|exact Hr']|rewrite !zlen_cons; lia|exact Hc'|].
    + unfold word, bit in *. pose proof (Z.div_mod (u64 (Z.shiftl t 1)) 2 ltac:(lia)). lia.
    + cbn [val]. rewrite zlen_cons, Z.pow_add_r by (pose proof (zlen_nonneg a); lia). change (B ^ 1) with B. nia.
Qed.

(** * The operations *)

Section Proofs.
Context `{Malloc}.

Lemma signed_mul a k : bn_ok a -> 0 < k -> signed a (mag a * k) = value a * k.
Proof. intros Ha Hk. unfold signed, value. destruct (neg a =? 0); lia. Qed.

Lemma signed_quot a k : bn_ok a -> 0 < k -> signed a (mag a / k) = Z.quot (value a) k.
Proof.
  intros Ha Hk. pose proof (mag_bound a (proj1 Ha)). unfold signed, value. rewrite <- (Z.quot_div_nonneg (mag a) k) by lia.
  destruct (neg a =? 0); [reflexivity|]. rewrite Z.quot_opp_l by lia. reflexivity.
Qed.

Lemma BN_lshift_spec a r h n :
  bn_ok a -> bn_shape r -> 0 <= n -> gives (value a * 2 ^ n) (width a + n / 64 + 1) r (BN_lshift a n (r, h)).
Proof.
  intros Ha Hr Hn. pose proof Ha as [Hs _]. pose proof (bn_width a Hs) as Hwa. pose proof (bn_len a Hs) as Hla.
  unfold BN_lshift, BN_BITS2. rewrite guard_true by (destruct (Z.ltb_spec n 0); [lia|reflexivity]).
  pose proof (Z.div_mod n 64 ltac:(lia)) as Hdm. pose proof (Z.mod_pos_bound n 64 ltac:(lia)) as Hlb.
  assert (Hnw : 0 <= n / 64) by (apply Z.div_pos; lia). set (nw := n / 64) in *. set (lb := n mod 64) in *.
  assert (Hr' : bn_shape (set_neg (neg a) r)) by (destruct Hr; constructor; assumption).
  unfold bind at 1, upd at 1. unfold bind at 1.
  pose proof (bn_wexpand_spec (width a + nw + 1) (set_neg (neg a) r) h Hr' ltac:(lia)) as Hx.
  destruct (bn_wexpand _ _) as [[[]|] [r1 h1]]; [|exact (proj2 Hx)]. destruct Hx as (Hs1 & Hd1 & _ & _ & En1 & _).
  pose proof (bn_len r1 Hs1) as Hl1. unfold bind, upd. cbv beta iota.
  set (t := zsplice (width a + nw) [0] (d r1)).
  assert (Ht : exists p e, t = p ++ [0] ++ e /\ zlen p = nw + width a /\ words e /\ zlen p + 1 + zlen e = dmax r1).
  { destruct (zcut (width a + nw) 1 (d r1)) as (p & m & e & E & Hp & Hm); [lia..|]. exists p, e.
    unfold t. rewrite E, (zsplice_app _ [0] p m) by (rewrite ?Hm; auto). split; [reflexivity|]. split; [lia|].
    pose proof (bn_words r1 Hs1) as Hws. rewrite E, !Forall_app in Hws. split; [tauto|]. rewrite E in Hl1. autorewrite with zlen in Hl1. lia. }
  destruct Ht as (p & e & Et & Hp & Hwe & Hlen).
  assert (Hmain : exists p' s', (if lb =? 0 then lshift_words_loop (Z.to_nat (width a)) nw (d a) t
             else lshift_loop (Z.to_nat (width a)) nw lb (d a) t) = p' ++ s' ++ e /\ words s' /\ zlen p' = nw /\ zlen s' = width a + 1 /\ val s' = mag a * 2 ^ lb).
  { destruct (Z.eqb_spec lb 0) as [E0|E0].
    - destruct (lshift_words_loop_spec (d a) nw (width a) (Z.to_nat (width a)) t p [0] e) as (p' & E & Hp'); auto; [lia..|].
      exists p', (limbs a ++ [0]). rewrite E. rewrite Z2Nat.id by lia. fold (limbs a). split; [reflexivity|].
      split_and!; auto; [apply Forall_app; split; [auto with bn|repeat constructor; lia]|rewrite zlen_app, limbs_len by exact Hs; change (zlen [0]) with 1; lia|].
      rewrite val_snoc, E0. unfold mag. change (2 ^ 0) with 1. lia.
    - assert (Hk : Z.of_nat (Z.to_nat (width a)) = width a) by (apply Z2Nat.id; lia).
      destruct (lshift_loop_spec (d a) lb nw (width a) (bn_words a Hs) ltac:(lia) Hnw (Z.to_nat (width a)) t p 0 [] e)
        as (p' & s' & [E Hw'] & Hp' & Hs' & Hv'); rewrite ?Hk.
      + lia.
      + split; [exact Et|]. constructor; [unfold word; lia|constructor].
      + exact Hp.
      + change (zlen []) with 0. lia.
      + reflexivity.
      + rewrite Z.sub_diag. unfold zsub. change (ztake 0 _) with (@nil Z). reflexivity.
      + exists p', s'. auto. }
  destruct Hmain as (p' & s' & -> & Hws' & Hp' & Hs' & Hv'). set (r2 := set_width _ _).
  assert (Ed : d r2 = (zrep nw 0 ++ s') ++ e).
  { unfold r2, store_words. cbn [d set_d set_width]. rewrite <- (app_assoc (zrep nw 0)). apply (zsplice_app 0 (zrep nw 0) [] p' (s' ++ e)); [reflexivity|].
    rewrite zlen_zrep by lia. lia. }
  assert (Hz : zlen (zrep nw 0 ++ s') = width a + nw + 1) by (rewrite zlen_app, zlen_zrep by lia; lia).
  assert (El : limbs r2 = zrep nw 0 ++ s').
  { unfold limbs. rewrite Ed. change (width r2) with (width a + nw + 1). apply ztake_app_eq. lia. }
  rewrite <- signed_mul by (exact Ha || apply Z.pow_pos_nonneg; lia). apply minimal_gives; [exact Ha| |exact En1|].
  - constructor; [rewrite Ed, zlen_app, Hz; change (dmax r2) with (dmax r1); lia|change (width r2) with (width a + nw + 1); change (dmax r2) with (dmax r1); lia|apply (bn_max r1 Hs1)|].
    rewrite Ed, !Forall_app. auto with words.
  - unfold mag at 1. rewrite El, val_app, val_zrep, zlen_zrep, Hv' by lia. rewrite Hdm, Z.pow_add_r, <- B_pow2 by lia. ring.
Qed.

(** Storing a result of the operand's width and bringing it to its minimal width. *)
Lemma store_minimal a r1 l m n r (h : heap) :
  bn_ok a -> bn_shape r1 -> words l -> zlen l = width a -> width a <= dmax r1 -> val l = m ->
  gives (signed a m) n r (Some tt, (bn_set_minimal_width (set_neg (neg a) (set_width (width a) (store_words 0 l r1))), h)).
Proof.
  intros Ha Hs1 Hw Hl Hd Hv. destruct (store_shape r1 l (width a) (neg a) Hs1 Hw Hl Hd) as (Hs' & Em & _).
  apply minimal_gives; auto. congruence.
Qed.

Lemma BN_rshift_spec a r h n :
  bn_ok a -> bn_shape r -> 0 <= n -> gives (Z.quot (value a) (2 ^ n)) (width a) r (BN_rshift a n (r, h)).
Proof.
  intros Ha Hr Hn. pose proof Ha as [Hs _]. pose proof (bn_width a Hs). pose proof (bn_len a Hs).
  unfold BN_rshift. rewrite guard_true by (destruct (Z.ltb_spec n 0); [lia|reflexivity]). unfold bind at 1.
  pose proof (bn_wexpand_spec (width a) r h Hr ltac:(lia)) as Hx. destruct (bn_wexpand _ _) as [[[]|] [r1 h1]]; [|exact (proj2 Hx)].
  destruct Hx as (Hs1 & Hd1 & _). destruct (bn_rshift_words_spec (d a) n (width a) (bn_words a Hs) Hn ltac:(lia)) as (Hw & Hl & Hv).
  rewrite <- signed_quot by (exact Ha || apply Z.pow_pos_nonneg; lia).
  exact (store_minimal a r1 _ _ (width a) r h1 Ha Hs1 Hw Hl Hd1 Hv).
Qed.

Lemma BN_rshift1_spec a r h : bn_ok a -> bn_shape r -> gives (Z.quot (value a) 2) (width a) r (BN_rshift1 a (r, h)).
Proof.
  intros Ha Hr. pose proof Ha as [Hs _]. pose proof (bn_width a Hs). pose proof (bn_len a Hs).
  unfold BN_rshift1. unfold bind at 1.
  pose proof (bn_wexpand_spec (width a) r h Hr ltac:(lia)) as Hx. destruct (bn_wexpand _ _) as [[[]|] [r1 h1]]; [|exact (proj2 Hx)].
  destruct Hx as (Hs1 & Hd1 & _). destruct (bn_rshift1_words_spec (d a) (width a) (bn_words a Hs) ltac:(lia)) as (Hw & Hl & Hv).
  rewrite <- signed_quot by (exact Ha || lia).
  exact (store_minimal a r1 _ _ (width a) r h1 Ha Hs1 Hw Hl Hd1 Hv).
Qed.

Lemma BN_lshift1_spec a r h : bn_ok a -> bn_shape r -> sets (value a * 2) (width a + 1) r (BN_lshift1 a (r, h)).
Proof.
  intros Ha Hr. pose proof Ha as [Hs Hsg]. pose proof (bn_width a Hs) as Hwa. pose proof (bn_len a Hs) as Hla.
  assert (Hr' : bn_shape (set_neg (neg a) r)) by (destruct Hr; constructor; assumption).
  unfold BN_lshift1. unfold bind at 1, upd at 1. unfold bind at 1.
  pose proof (bn_wexpand_spec (width a + 1) (set_neg (neg a) r) h Hr' ltac:(lia)) as Hx.
  destruct (bn_wexpand _ _) as [[[]|] [r1 h1]]; [|exact (proj2 Hx)]. destruct Hx as (Hs1 & Hd1 & _ & _ & En1 & _).
  unfold bind at 1, upd at 1. pose proof (lshift1_loop_spec (limbs a) 0 (limbs_words a Hs) (or_introl eq_refl)) as Hl.
  destruct (lshift1_loop 0 (limbs a)) as [l c]. rewrite limbs_len in Hl by exact Hs. destruct Hl as (Hwl & Hll & Hc & Hv). fold (mag a) in Hv.
  assert (Hgo : forall b, bn_shape b -> neg b = neg a -> mag b = mag a * 2 -> bn_ok b /\ value b = value a * 2).
  { intros b Hb Nb Mb. rewrite (value_signed a b _ Nb Mb), signed_mul by (exact Ha || lia). split; [split; [exact Hb|]|reflexivity].
    unfold sign_ok in *. rewrite Nb, Mb. destruct Hsg as [|[]]; [auto|right; split; [assumption|lia]]. }
  unfold bind, upd. destruct (Z.eqb_spec c 0) as [E|E]; cbn [negb].
  - destruct (store_shape r1 l (width a) (neg a) Hs1 Hwl Hll ltac:(lia)) as (Hs' & Em & _).
    cbn [ret sets]. change (neg a) with (neg (set_neg (neg a) r)) in Hs', Em. rewrite <- En1 in Hs', Em.
    destruct Hs' as [H1' H2' H3' H4']. apply Hgo; [constructor; assumption|exact En1|]. rewrite E in Hv. etransitivity; [exact Em|lia].
  - assert (Ec : c = 1) by (destruct Hc; tauto). cbn [sets].
    assert (Hwl' : words (l ++ [1])) by (apply Forall_app; split; [exact Hwl|repeat constructor; lia]).
    assert (Hll' : zlen (l ++ [1]) = width a + 1) by (rewrite zlen_app; change (zlen [1]) with 1; lia).
    destruct (store_shape r1 (l ++ [1]) (width a + 1) (neg a) Hs1 Hwl' Hll' Hd1) as (Hs' & Em & _).
    set (b := set_width (width a + 1) _). assert (Eb : b = set_neg (neg a) (set_width (width a + 1) (store_words 0 (l ++ [1]) r1))).
    { unfold b, store_words. cbn. rewrite <- (zsplice_append 0 l [1]) by (rewrite ?Hll; pose proof (bn_len r1 Hs1); change (zlen [1]) with 1; lia).
      rewrite Z.add_0_l, Hll. change (neg a) with (neg (set_neg (neg a) r)). rewrite <- En1. reflexivity. }
    rewrite Eb. apply Hgo; [exact Hs'|reflexivity|]. rewrite Em, val_snoc, Hll. lia.
Qed.

(** ** Bits *)

Lemma is_bit_set_spec a n : bn_ok a -> BN_is_bit_set a n = if (0 <=? n) && Z.testbit (mag a) n then 1 else 0.
Proof.
  intros [Hs _]. pose proof (bn_width a Hs). unfold BN_is_bit_set, bn_is_bit_set_words, BN_BITS2. destruct (Z.ltb_spec n 0), (Z.leb_spec 0 n); try lia; [reflexivity|]. cbn [andb].
  unfold mag. rewrite val_testbit by (auto with bn). pose proof (limbs_len a Hs). destruct (Z.leb_spec (width a) (n / 64)).
  - rewrite znth_over, Z.bits_0 by lia. reflexivity.
  - unfold limbs. rewrite znth_ztake by (split; [apply Z.div_pos; lia|lia]).
    change 1 with (Z.ones 1) at 1. rewrite Z.land_ones by lia. change (2 ^ 1) with 2. pose proof (Z.mod_pos_bound n 64 ltac:(lia)).
    rewrite Z.testbit_odd, Zmod_odd. destruct (Z.odd _); reflexivity.
Qed.

(** One word of a number is replaced. *)
Lemma set_one_word b i x :
  bn_shape b -> 0 <= i < width b -> word x ->
  let b' := store_words i [x] b in
  bn_shape b' /\ neg b' = neg b /\
  forall m, 0 <= m -> Z.testbit (mag b') m = if m / 64 =? i then Z.testbit x (m mod 64) else Z.testbit (mag b) m.
Proof.
  intros Hs Hi Hx b'. pose proof (bn_width b Hs). pose proof (bn_len b Hs). pose proof (limbs_len b Hs) as Hll.
  assert (El : limbs b' = zsplice i [x] (limbs b)).
  { unfold limbs, b'. cbn. apply ztake_zsplice; change (zlen [x]) with 1; lia. }
  split_and!; [|reflexivity|].
  - constructor; unfold b'; cbn; [rewrite zlen_zsplice by (change (zlen [x]) with 1; lia); assumption|lia|apply (bn_max b Hs)|].
    apply words_zsplice; [apply bn_words, Hs|repeat constructor; apply Hx].
  - intros m Hm. unfold mag. rewrite El. rewrite !val_testbit by (try apply words_zsplice; auto with bn).
    rewrite znth_zsplice1 by (try apply Z.div_pos; lia). destruct (m / 64 =? i); reflexivity.
Qed.

Lemma testbit_index m n : 0 <= m -> 0 <= n -> (m =? n) = (m / 64 =? n / 64) && (m mod 64 =? n mod 64).
Proof.
  intros Hm Hn. destruct (Z.eqb_spec (m / 64) (n / 64)), (Z.eqb_spec (m mod 64) (n mod 64)), (Z.eqb_spec m n); cbn; auto; try congruence.
  - pose proof (Z.div_mod m 64 ltac:(lia)). pose proof (Z.div_mod n 64 ltac:(lia)). lia.
Qed.

Lemma shl1_word j : 0 <= j < 64 -> word (u64 (Z.shiftl 1 j)) /\ u64 (Z.shiftl 1 j) = 2 ^ j.
Proof.
  intros Hj. split; [apply word_u64|]. rewrite Z.shiftl_mul_pow2, Z.mul_1_l by lia. apply u64_small.
  split; [apply Z.pow_nonneg; lia|apply Z.pow_lt_mono_r; lia].
Qed.

(** The word that counts for bit [m]. *)
Lemma mag_testbit b m : bn_shape b -> 0 <= m -> m / 64 < width b -> Z.testbit (mag b) m = Z.testbit (znth 0 (m / 64) (d b)) (m mod 64).
Proof.
  intros Hs Hm Hw. unfold mag. rewrite val_testbit by auto with bn. unfold limbs. rewrite znth_ztake; [reflexivity|].
  split; [apply Z.div_pos; lia|exact Hw].
Qed.

Lemma mag_testbit_high b m : bn_shape b -> 0 <= m -> width b <= m / 64 -> Z.testbit (mag b) m = false.
Proof.
  intros Hs Hm Hw. unfold mag. rewrite val_testbit by auto with bn. rewrite znth_over by (rewrite limbs_len; assumption). apply Z.bits_0.
Qed.

Lemma testbit_u64 x k : 0 <= k < 64 -> Z.testbit (u64 x) k = Z.testbit x k.
Proof. intros Hk. unfold u64. change B with (2 ^ 64). apply Z.mod_pow2_bits_low. lia. Qed.

(** Bit [n] of a number in place. *)
Lemma bit_word b n x (f : bool -> bool) :
  bn_shape b -> 0 <= n -> n / 64 < width b -> word x ->
  (forall k, 0 <= k < 64 -> Z.testbit x k = if k =? n mod 64 then f (Z.testbit (znth 0 (n / 64) (d b)) k) else Z.testbit (znth 0 (n / 64) (d b)) k) ->
  let b' := store_words (n / 64) [x] b in
  bn_shape b' /\ neg b' = neg b /\
  forall m, 0 <= m -> Z.testbit (mag b') m = if m =? n then f (Z.testbit (mag b) m) else Z.testbit (mag b) m.
Proof.
  intros Hs Hn Hw Hx Hbits b'. destruct (set_one_word b (n / 64) x Hs) as (Hs' & En & Ht); auto; [split; [apply Z.div_pos; lia|exact Hw]|].
  split_and!; auto. intros m Hm. rewrite Ht by exact Hm. rewrite (testbit_index m n Hm Hn).
  destruct (Z.eqb_spec (m / 64) (n / 64)) as [E|E]; cbn [andb]; [|reflexivity].
  rewrite Hbits by (apply Z.mod_pos_bound; lia). rewrite mag_testbit by (auto; lia). rewrite E. reflexivity.
Qed.

Lemma mag_ext a b : bn_shape a -> 0 <= b -> (forall m, 0 <= m -> Z.testbit (mag a) m = Z.testbit b m) -> mag a = b.
Proof. intros Hs Hb Ht. apply Z.bits_inj'. exact Ht. Qed.

Lemma BN_set_bit_spec a h n :
  bn_ok a -> 0 <= n ->
  match BN_set_bit n (a, h) with
  | (Some _, (a', _)) => bn_ok a' /\ value a' = signed a (Z.setbit (mag a) n)
  | (None, _) => ~ room (n / 64 + 1) a
  end.
Proof.
  intros Ha Hn. pose proof Ha as [Hs Hsg]. unfold BN_set_bit, BN_BITS2. rewrite guard_true by (destruct (Z.ltb_spec n 0); [lia|reflexivity]).
  set (i := n / 64). set (j := n mod 64). assert (Hi : 0 <= i) by (apply Z.div_pos; lia). pose proof (Z.mod_pos_bound n 64 ltac:(lia)) as Hj. fold j in Hj.
  unfold bind at 1, getb. unfold bind at 1. set (first := if width a <=? i then _ else _).
  assert (Hfirst : match first (a, h) with
    | (Some _, (a1, _)) => bn_shape a1 /\ mag a1 = mag a /\ neg a1 = neg a /\ i < width a1
    | (None, _) => ~ room (i + 1) a
    end).
  { unfold first. destruct (Z.leb_spec (width a) i) as [Hle|Hlt]; [|cbn; auto].
    pose proof (bn_resize_words_spec a (i + 1) h Ha ltac:(lia)) as Hr. unfold bn_resize_words in Hr. unfold bind at 1, getb in Hr.
    destruct (Z.leb_spec (width a) (i + 1)); [|lia]. fold first in Hr |- *. destruct (first (a, h)) as [[[]|] [a1 h1]].
    - destruct Hr as (Ha1 & Ev & Ew). split_and!; [exact (proj1 Ha1)| |rewrite (neg_value a1 Ha1), (neg_value a Ha), Ev; reflexivity|lia].
      rewrite (mag_value a1 (proj1 Ha1)), (mag_value a Hs), Ev. reflexivity.
    - destruct Hr as [_ [Hb|Hr]]; [|exact Hr]. pose proof (mag_bound a Hs). assert (B ^ width a <= B ^ (i + 1)) by (apply Z.pow_le_mono_r; lia). lia. }
  destruct (first (a, h)) as [[[]|] [a1 h1]]; [|exact Hfirst]. destruct Hfirst as (Hs1 & Em & En & Hw1). unfold upd.
  destruct (shl1_word j Hj) as [Hword Epow]. destruct (bit_word a1 n (Z.lor (znth 0 i (d a1)) (u64 (Z.shiftl 1 j))) (fun _ => true) Hs1 Hn Hw1) as (Hs2 & En2 & Ht).
  - apply lor_range; [lia|apply words_znth, bn_words, Hs1|exact Hword].
  - intros k Hk. rewrite Z.lor_spec, Epow, Z.pow2_bits_eqb by lia. fold i j. rewrite (Z.eqb_sym j k). destruct (k =? j); [apply orb_true_r|apply orb_false_r].
  - fold i in Hs2, En2, Ht. set (a2 := store_words _ _ a1) in *. assert (Em2 : mag a2 = Z.setbit (mag a) n).
    { apply Z.bits_inj'. intros m Hm. rewrite Ht, Em, Z.setbit_eqb, (Z.eqb_sym n m) by lia. destruct (m =? n); reflexivity. }
    split; [split; [exact Hs2|]|apply value_signed; congruence]. unfold sign_ok. rewrite En2, En, Em2. destruct Hsg as [|[E _]]; [auto|right].
    split; [exact E|]. intros E0. apply (f_equal (fun z => Z.testbit z n)) in E0. rewrite Z.setbit_eqb, Z.eqb_refl, Z.bits_0 in E0 by lia. discriminate.
Qed.

Lemma BN_clear_bit_spec a h n :
  bn_ok a -> 0 <= n ->
  if width a <=? n / 64 then BN_clear_bit n (a, h) = (None, (a, h)) /\ Z.testbit (mag a) n = false
  else exists a', BN_clear_bit n (a, h) = (Some tt, (a', h)) /\ bn_ok a' /\ value a' = signed a (Z.clearbit (mag a) n).
Proof.
  intros Ha Hn. pose proof Ha as [Hs Hsg]. unfold BN_clear_bit, BN_BITS2. rewrite guard_true by (destruct (Z.ltb_spec n 0); [lia|reflexivity]).
  set (i := n / 64). set (j := n mod 64). assert (Hi : 0 <= i) by (apply Z.div_pos; lia). pose proof (Z.mod_pos_bound n 64 ltac:(lia)) as Hj. fold j in Hj.
  destruct (Z.leb_spec (width a) i) as [Hle|Hlt].
  - unfold bind at 1, getb. rewrite (proj2 (Z.leb_le _ _) Hle). split; [reflexivity|]. apply mag_testbit_high; assumption.
  - unfold bind at 1, getb. rewrite (proj2 (Z.leb_gt _ _) Hlt). cbn [negb]. rewrite guard_true by reflexivity. unfold bind, upd. destruct (shl1_word j Hj) as [Hword Epow].
    destruct (bit_word a n (Z.land (znth 0 i (d a)) (u64 (Z.lnot (u64 (Z.shiftl 1 j))))) (fun _ => false) Hs Hn Hlt) as (Hs2 & En2 & Ht).
    + pose proof (words_znth i (d a) (bn_words a Hs)) as Hx. split; [apply Z.land_nonneg; left; unfold word in Hx; lia|].
      unfold u64. change B with (2 ^ 64). rewrite <- Z.land_ones, Z.land_assoc, Z.land_ones by lia. apply Z.mod_pos_bound. lia.
    + intros k Hk. rewrite Z.land_spec, testbit_u64, Z.lnot_spec, Epow, Z.pow2_bits_eqb by lia. fold i j. rewrite (Z.eqb_sym j k).
      destruct (k =? j); [apply andb_false_r|apply andb_true_r].
    + fold i in Hs2, En2, Ht. set (a2 := store_words _ _ a) in *. eexists. split; [reflexivity|].
      destruct (minimal_gives a a2 (Z.clearbit (mag a) n) 0 a h Ha Hs2 En2) as (Ho & Ev & _); [|auto].
      apply Z.bits_inj'. intros m Hm. rewrite Ht, Z.clearbit_eqb, (Z.eqb_sym n m) by lia. destruct (m =? n); [rewrite andb_false_r|rewrite andb_true_r]; reflexivity.
Qed.

Lemma BN_mask_bits_spec a h n :
  bn_ok a -> 0 <= n -> exists a', BN_mask_bits n (a, h) = (Some tt, (a', h)) /\ bn_ok a' /\ value a' = signed a (mag a mod 2 ^ n).
Proof.
  intros Ha Hn. pose proof Ha as [Hs Hsg]. pose proof (bn_width a Hs) as Hwa. unfold BN_mask_bits, BN_BITS2. rewrite guard_true by (destruct (Z.ltb_spec n 0); [lia|reflexivity]).
  set (w := n / 64). set (b := n mod 64). assert (Hw : 0 <= w) by (apply Z.div_pos; lia). pose proof (Z.mod_pos_bound n 64 ltac:(lia)) as Hb. fold b in Hb.
  pose proof (Z.div_mod n 64 ltac:(lia)) as Hdm. fold w b in Hdm. unfold bind at 1, getb. destruct (Z.leb_spec (width a) w) as [Hle|Hlt].
  - exists a. split; [reflexivity|]. split; [exact Ha|]. apply value_signed; [reflexivity|]. symmetry. apply Z.mod_small.
    pose proof (mag_bound a Hs) as Hm. rewrite B_pow2 in Hm by lia. assert (2 ^ (64 * width a) <= 2 ^ n) by (apply Z.pow_le_mono_r; lia). lia.
  - unfold bind at 1. set (first := if b =? 0 then _ else _).
    assert (Hfirst : exists a1, first (a, h) = (Some tt, (a1, h)) /\ bn_shape a1 /\ neg a1 = neg a /\ mag a1 = mag a mod 2 ^ n).
    { assert (Hset : forall k, 0 <= k <= width a -> bn_shape (set_width k a)) by (intros k Hk; destruct Hs; constructor; cbn; auto; lia).
      unfold first. destruct (Z.eqb_spec b 0) as [E|E].
      - exists (set_width w a). split; [reflexivity|]. split; [apply Hset; lia|]. split; [reflexivity|]. apply Z.bits_inj'. intros m Hm.
        destruct (Z.ltb_spec (m / 64) w).
        + rewrite Z.mod_pow2_bits_low by dlia. rewrite !mag_testbit by (auto; cbn [width set_width]; lia || (apply Hset; lia)). reflexivity.
        + rewrite Z.mod_pow2_bits_high by dlia. apply mag_testbit_high; [apply Hset; lia|exact Hm|cbn [width set_width]; lia].
      - set (x := Z.land (znth 0 w (d a)) (u64 (Z.lnot (u64 (Z.shiftl BN_MASK2 b))))). set (a0 := set_width (w + 1) a).
        exists (store_words w [x] a0). split; [reflexivity|]. assert (Hx : word x).
        { pose proof (words_znth w (d a) (bn_words a Hs)) as Hx. split; [apply Z.land_nonneg; left; unfold word in Hx; lia|].
          unfold x, u64 at 1. change B with (2 ^ 64). rewrite <- Z.land_ones, Z.land_assoc, Z.land_ones by lia. apply Z.mod_pos_bound. lia. }
        destruct (set_one_word a0 w x (Hset (w + 1) ltac:(lia))) as (Hs2 & En2 & Ht); [unfold a0; cbn; lia|exact Hx|].
        split; [exact Hs2|]. split; [exact En2|]. apply Z.bits_inj'. intros m Hm. rewrite Ht by exact Hm. pose proof (Z.mod_pos_bound m 64 ltac:(lia)).
        pose proof (Z.div_mod m 64 ltac:(lia)). destruct (Z.eqb_spec (m / 64) w) as [Em|Em].
        + unfold x. rewrite Z.land_spec, testbit_u64, Z.lnot_spec, testbit_u64, Z.shiftl_spec by lia. change BN_MASK2 with (Z.ones 64). destruct (Z.ltb_spec m n).
          * rewrite (Z.testbit_neg_r (Z.ones 64)), Z.mod_pow2_bits_low, andb_true_r by lia. rewrite mag_testbit by (auto; lia). rewrite Em. reflexivity.
          * rewrite Z.ones_spec_low, Z.mod_pow2_bits_high by lia. apply andb_false_r.
        + destruct (Z.ltb_spec (m / 64) w).
          * rewrite Z.mod_pow2_bits_low by lia. rewrite !mag_testbit by (auto; try (apply Hset; lia); unfold a0; cbn; lia). reflexivity.
          * rewrite Z.mod_pow2_bits_high by lia. apply mag_testbit_high; [apply Hset; lia|exact Hm|unfold a0; cbn; lia]. }
    destruct Hfirst as (a1 & -> & Hs1 & En1 & Em1). unfold upd. eexists. split; [reflexivity|].
    destruct (minimal_gives a a1 (mag a mod 2 ^ n) 0 a h Ha Hs1 En1 Em1) as (Ho & Ev & _). auto.
Qed.

(** ** Trailing zeros *)

(** [k] is the number of factors 2 of [v]. *)
Definition lowest (v k : Z) : Prop := 0 <= k /\ exists u, v = (2 * u + 1) * 2 ^ k.

Lemma low_zero_step_spec k l bits :
  0 < k <= 32 -> word l -> l mod 2 ^ (2 * k) <> 0 ->
  let '(bits', l') := low_zero_step k (bits, l) in
  word l' /\ l' mod 2 ^ k <> 0 /\ exists c, 0 <= c <= k /\ bits' = bits + c /\ l = l' * 2 ^ c.
Proof.
  intros Hk Hl Hne. unfold low_zero_step. assert (Hp : 0 < 2 ^ k) by (apply Z.pow_pos_nonneg; lia).
  assert (HB : B = 2 ^ k * 2 ^ (64 - k)).
  { rewrite <- Z.pow_add_r by lia. replace (k + (64 - k)) with 64 by lia. reflexivity. }
  assert (Eu : u64 (Z.shiftl l (BN_BITS2 - k)) = (l mod 2 ^ k) * 2 ^ (64 - k)).
  { unfold u64, BN_BITS2. rewrite Z.shiftl_mul_pow2, HB by lia. apply Z.mul_mod_distr_r; lia. }
  rewrite is_zero_w_mask by apply word_u64. rewrite Eu. assert (Hp' : 0 < 2 ^ (64 - k)) by (apply Z.pow_pos_nonneg; lia).
  pose proof (Z.div_mod l (2 ^ k) ltac:(lia)) as Hdm. pose proof (Z.mod_pos_bound l (2 ^ k) ltac:(lia)).
  assert (Hsh : word (Z.shiftr l k)).
  { rewrite Z.shiftr_div_pow2 by lia. unfold word in *. split; [apply Z.div_pos; lia|]. apply Z.div_lt_upper_bound; nia. }
  rewrite select_w_mask by assumption. destruct (Z.eqb_spec (l mod 2 ^ k * 2 ^ (64 - k)) 0) as [E|E]; cbn [mask_w].
  - assert (E0 : l mod 2 ^ k = 0) by nia. split; [exact Hsh|]. rewrite Z.shiftr_div_pow2 by lia.
    assert (Ek : Z.land k CONSTTIME_TRUE_W = k).
    { change CONSTTIME_TRUE_W with (Z.ones 64). rewrite Z.land_ones by lia. apply Z.mod_small. lia. }
    rewrite Ek. split; [|exists k; split; [lia|split; [reflexivity|lia]]].
    intros E1. apply Hne. replace (2 * k) with (k + k) by lia. rewrite Z.pow_add_r by lia.
    pose proof (Z.div_mod (l / 2 ^ k) (2 ^ k) ltac:(lia)) as Hdm2. rewrite E1, Z.add_0_r in Hdm2.
    rewrite Hdm, E0, Hdm2, Z.add_0_r, Z.mul_assoc, (Z.mul_comm (2 ^ k * 2 ^ k)). apply Z.mod_mul. nia.
  - change CONSTTIME_FALSE_W with 0. rewrite Z.land_0_r. split; [exact Hl|]. split; [intros E0; rewrite E0 in E; lia|].
    exists 0. change (2 ^ 0) with 1. lia.
Qed.

Lemma count_word_spec l : word l -> l <> 0 -> lowest l (bn_count_low_zero_bits_word l) /\ bn_count_low_zero_bits_word l < 64.
Proof.
  intros Hl Hne. unfold bn_count_low_zero_bits_word.
  pose proof (low_zero_step_spec 32 l 0 ltac:(lia) Hl) as S1. destruct (low_zero_step 32 (0, l)) as [b1 l1].
  destruct S1 as (W1 & N1 & c1 & C1 & E1 & D1). { change (2 * 32) with 64. rewrite Z.mod_small by (unfold word in Hl; lia). exact Hne. }
  pose proof (low_zero_step_spec 16 l1 b1 ltac:(lia) W1 N1) as S2. destruct (low_zero_step 16 (b1, l1)) as [b2 l2]. destruct S2 as (W2 & N2 & c2 & C2 & E2 & D2).
  pose proof (low_zero_step_spec 8 l2 b2 ltac:(lia) W2 N2) as S3. destruct (low_zero_step 8 (b2, l2)) as [b3 l3]. destruct S3 as (W3 & N3 & c3 & C3 & E3 & D3).
  pose proof (low_zero_step_spec 4 l3 b3 ltac:(lia) W3 N3) as S4. destruct (low_zero_step 4 (b3, l3)) as [b4 l4]. destruct S4 as (W4 & N4 & c4 & C4 & E4 & D4).
  pose proof (low_zero_step_spec 2 l4 b4 ltac:(lia) W4 N4) as S5. destruct (low_zero_step 2 (b4, l4)) as [b5 l5]. destruct S5 as (W5 & N5 & c5 & C5 & E5 & D5).
  pose proof (low_zero_step_spec 1 l5 b5 ltac:(lia) W5 N5) as S6. unfold low_zero_step in S6. destruct S6 as (W6 & N6 & c6 & C6 & E6 & D6).
  rewrite E6. set (l6 := constant_time_select_w _ _ _) in *. change (2 ^ 1) with 2 in N6.
  assert (Ed : l = l6 * 2 ^ (b5 + c6)).
  { rewrite D1, D2, D3, D4, D5, D6. rewrite <- !Z.mul_assoc, <- !Z.pow_add_r by lia. f_equal. f_equal. lia. }
  split; [split; [lia|]|].
  - exists (l6 / 2). rewrite Ed. f_equal. pose proof (Z.div_mod l6 2 ltac:(lia)). pose proof (Z.mod_pos_bound l6 2 ltac:(lia)). lia.
  - destruct (Z.ltb_spec (b5 + c6) 64); [assumption|]. assert (2 ^ 64 <= 2 ^ (b5 + c6)) by (apply Z.pow_le_mono_r; lia).
    assert (l6 <> 0) by (intros E0; rewrite E0 in N6; apply N6; reflexivity). unfold word in *. nia.
Qed.

Lemma not_mask b : u64 (Z.lnot (mask_w b)) = mask_w (negb b).
Proof. destruct b; reflexivity. Qed.

Lemma land_true x : word x -> Z.land (mask_w true) x = x.
Proof.
  intros Hx. change (mask_w true) with (Z.ones 64). rewrite Z.land_comm, Z.land_ones by lia. apply Z.mod_small, Hx.
Qed.

Lemma count_word_range l : word l -> 0 <= bn_count_low_zero_bits_word l < 64.
Proof.
  intros Hl. destruct (Z.eq_dec l 0) as [->|Hne]; [vm_compute; split; [discriminate|reflexivity]|].
  destruct (count_word_spec l Hl Hne) as [[H0 _] Hlt]. lia.
Qed.

Lemma count_low_seen a : forall i ret, words a -> 0 <= ret < 2147483648 -> 0 <= i -> 64 * (i + zlen a) < 2 ^ 32 ->
  count_low_loop i (mask_w true) ret a = ret.
Proof.
  induction a as [|x a IH]; intros i ret Ha Hr Hi Hb; cbn [count_low_loop]; [reflexivity|].
  apply List.Forall_cons_iff in Ha as [Hx Ha]. rewrite zlen_cons in Hb. pose proof (zlen_nonneg a). rewrite not_mask. cbn [negb].
  change (mask_w false) with 0. rewrite !Z.land_0_l, Z.lor_0_r. rewrite (u64_small ret), s32_small by lia.
  replace (Z.lor (mask_w true) _) with (mask_w true); [apply IH; auto; lia|].
  rewrite is_zero_w_mask, not_mask by exact Hx. destruct (negb (x =? 0)); reflexivity.
Qed.

Lemma count_low_spec a : forall i, words a -> 0 <= i -> 64 * (i + zlen a) < 2 ^ 31 ->
  if val a =? 0 then count_low_loop i 0 0 a = 0 else exists k, count_low_loop i 0 0 a = 64 * i + k /\ lowest (val a) k.
Proof.
  induction a as [|x a IH]; intros i Ha Hi Hb; cbn [count_low_loop val]; [reflexivity|].
  apply List.Forall_cons_iff in Ha as [Hx Ha]. rewrite zlen_cons in Hb. pose proof (zlen_nonneg a). pose proof (val_nonneg a Ha).
  rewrite is_zero_w_mask, not_mask by exact Hx. pose proof (count_word_range x Hx) as Hrange. unfold BN_BITS2.
  change (u64 (Z.lnot 0)) with (mask_w true). change (u64 0) with 0. rewrite !Z.lor_0_l. destruct (Z.eqb_spec x 0) as [->|Hx0]; cbn [negb].
  - change (mask_w false) with 0. rewrite Z.land_0_r, Z.land_0_l. change (s32 0) with 0. rewrite Z.add_0_l.
    specialize (IH (i + 1) Ha ltac:(lia) ltac:(lia)). destruct (Z.eqb_spec (val a) 0) as [E|E].
    + rewrite E, Z.mul_0_r. exact IH.
    + destruct (Z.eqb_spec (B * val a) 0); [lia|]. destruct IH as (k & -> & Hk & u & Eu). exists (64 + k). split; [lia|].
      split; [lia|]. exists u. rewrite Z.pow_add_r, Eu by lia. change (2 ^ 64) with B. ring.
  - rewrite Z.land_diag, land_true by (unfold word; lia). rewrite s32_small by lia.
    destruct (Z.eqb_spec (x + B * val a) 0); [unfold word in Hx; lia|]. rewrite count_low_seen by (auto; lia).
    destruct (count_word_spec x Hx Hx0) as [[Hk (u & Eu)] Hlt]. set (k := bn_count_low_zero_bits_word x) in *. exists k. split; [lia|].
    split; [exact Hk|]. exists (u + 2 ^ (63 - k) * val a). rewrite Eu.
    assert (HB : B = 2 ^ (63 - k) * 2 * 2 ^ k).
    { rewrite <- (Z.mul_assoc _ 2), <- Z.pow_succ_r, <- Z.pow_add_r by lia. replace (63 - k + Z.succ k) with 64 by lia. reflexivity. }
    rewrite HB. ring.
Qed.

Lemma BN_count_low_zero_bits_spec a :
  bn_ok a -> if mag a =? 0 then BN_count_low_zero_bits a = 0 else lowest (mag a) (BN_count_low_zero_bits a).
Proof.
  intros [Hs _]. pose proof (bn_width a Hs). pose proof (bn_max a Hs). unfold BN_MAX_WORDS in *. unfold BN_count_low_zero_bits, mag.
  pose proof (count_low_spec (limbs a) 0 (limbs_words a Hs) ltac:(lia) ltac:(rewrite limbs_len by exact Hs; lia)) as Hc.
  destruct (val (limbs a) =? 0); [exact Hc|]. destruct Hc as (k & -> & Hk). exact Hk.
Qed.

(** ** The shift by a secret number *)

Lemma bn_select_words_mask (f : bool) a b n :
  words a -> words b -> zlen a = n -> zlen b = n -> bn_select_words (mask_w f) a b n = if f then a else b.
Proof.
  intros Ha Hb Hla Hlb. unfold bn_select_words. rewrite <- Hla at 1. rewrite <- Hlb at 1. rewrite !ztake_all.
  assert (Hl : length a = length b) by (unfold zlen in *; lia). clear Hla Hlb. revert b Hb Hl.
  induction Ha as [|x a Hx Ha IH]; intros [|y b] Hb Hl; try discriminate; cbn [zip_with]; [destruct f; reflexivity|].
  apply List.Forall_cons_iff in Hb as [Hy Hb]. rewrite select_w_mask by assumption. rewrite IH by (auto; cbn [length] in Hl; lia).
  destruct f; reflexivity.
Qed.

Lemma secret_shift_loop_spec mb n w : forall fuel i r,
  0 <= mb < 2 ^ 32 -> 0 <= n -> 0 <= i <= Z.log2 mb + 1 -> words r -> zlen r = w -> 0 < mb -> Z.log2 mb < i + Z.of_nat fuel ->
  let r' := secret_shift_loop fuel i mb n r w in
  words r' /\ zlen r' = w /\ val r' = val r / 2 ^ (n mod 2 ^ (Z.log2 mb + 1) - n mod 2 ^ i).
Proof.
  induction fuel as [|fuel IH]; intros i r Hmb Hn Hi Hr Hlen Hpos Hf; cbn [secret_shift_loop];
    assert (Hsh : Z.shiftr mb i = 0 <-> i = Z.log2 mb + 1) by (rewrite Z.shiftr_div_pow2, Z.div_small_iff by (try apply Z.pow_nonzero; lia);
      assert (0 < 2 ^ i) by (apply Z.pow_pos_nonneg; lia); pose proof (Z.log2_lt_pow2 mb i Hpos); lia).
  - destruct (Z.eqb_spec (Z.shiftr mb i) 0) as [E|E]; [|lia]. apply Hsh in E. rewrite E, Z.sub_diag. change (2 ^ 0) with 1. rewrite Z.div_1_r. auto.
  - destruct (Z.eqb_spec (Z.shiftr mb i) 0) as [E|E].
    + apply Hsh in E. rewrite E, Z.sub_diag. change (2 ^ 0) with 1. rewrite Z.div_1_r. auto.
    + assert (Hlog : Z.log2 mb < 32) by (apply Z.log2_lt_pow2; lia). assert (Hi' : 0 <= i < 32) by lia.
      assert (Hp : 0 < 2 ^ i) by (apply Z.pow_pos_nonneg; lia). assert (Ep : u32 (Z.shiftl 1 i) = 2 ^ i).
      { rewrite Z.shiftl_mul_pow2, Z.mul_1_l by lia. apply u32_small. split; [lia|]. apply Z.pow_lt_mono_r; lia. }
      rewrite Ep. destruct (bn_rshift_words_spec r (2 ^ i) w Hr ltac:(lia)) as (Hw & Hl & Hv); [pose proof (zlen_nonneg r); lia|].
      rewrite <- Hlen in Hv at 2. rewrite ztake_all in Hv. set (bt := Z.testbit n i).
      assert (Em : u64 (0 - Z.land (Z.shiftr n i) 1) = mask_w bt).
      { change 1 with (Z.ones 1). rewrite Z.land_ones by lia. change (2 ^ 1) with 2. unfold bt. rewrite Z.testbit_odd, Zmod_odd. destruct (Z.odd _); reflexivity. }
      rewrite Em, bn_select_words_mask by auto. set (r1 := if bt then _ else r).
      assert (H1 : words r1 /\ zlen r1 = w /\ val r1 = val r / 2 ^ (n mod 2 ^ (i + 1) - n mod 2 ^ i)).
      { assert (Emod : n mod 2 ^ (i + 1) - n mod 2 ^ i = if bt then 2 ^ i else 0).
        { rewrite Z.pow_add_r, (Z.rem_mul_r n (2 ^ i) (2 ^ 1)) by lia. change (2 ^ 1) with 2. unfold bt. rewrite Z.testbit_odd, Z.shiftr_div_pow2, Zmod_odd by lia.
          destruct (Z.odd _); lia. }
        rewrite Emod. unfold r1. destruct bt; [auto|]. change (2 ^ 0) with 1. rewrite Z.div_1_r. auto. }
      destruct H1 as (Hw1 & Hl1 & Hv1). destruct (IH (i + 1) r1) as (Hw2 & Hl2 & Hv2); auto; [lia..|]. split_and!; auto.
      rewrite Hv2, Hv1. assert (Hmono : forall x y, 0 <= x <= y -> n mod 2 ^ x <= n mod 2 ^ y).
      { intros x y Hxy. replace y with (x + (y - x)) by lia. rewrite Z.pow_add_r, (Z.rem_mul_r n (2 ^ x) (2 ^ (y - x))) by (try apply Z.pow_nonzero; try apply Z.pow_pos_nonneg; lia).
        pose proof (Z.mod_pos_bound (n / 2 ^ x) (2 ^ (y - x)) ltac:(apply Z.pow_pos_nonneg; lia)). pose proof (Z.pow_pos_nonneg 2 x). nia. }
      pose proof (Hmono i (i + 1) ltac:(lia)). pose proof (Hmono (i + 1) (Z.log2 mb + 1) ltac:(lia)).
      rewrite Z.div_div, <- Z.pow_add_r by (try apply Z.pow_nonzero; try apply Z.pow_pos_nonneg; lia). f_equal. f_equal. lia.
Qed.

(** The bits of the shift that the loop looks at: as many as the number of bits of the
    operand's width has. *)
Definition shift_bits (w : Z) : Z := Z.log2 (64 * w) + 1.

Lemma store_same i l b : store_words i l b = set_neg (neg b) (set_width (width b) (store_words i l b)).
Proof. unfold store_words. generalize (zsplice i l (d b)). intros k. reflexivity. Qed.

Lemma copy_then a r tmp h r' h' (g : BIGNUM -> list Z) :
  bn_ok a -> bn_shape r ->
  (let* _ := BN_copy a in
   let* r := getb in
   let* _ := (fun '(r0, h) => let '(ok, (_, h)) := bn_wexpand (width r) (tmp, h) in (ok, (r0, h))) in
   upd (store_words 0 (g r))) (r, h) = (Some tt, (r', h')) ->
  exists r1, bn_shape r1 /\ limbs r1 = limbs a /\ width r1 = width a /\ neg r1 = neg a /\ r' = store_words 0 (g r1) r1.
Proof.
  intros Ha Hr E. apply bind_inv in E as ([] & [r1 h1] & Ec & E). pose proof (bn_width a (proj1 Ha)).
  unfold BN_copy in Ec. apply bind_inv in Ec as ([] & [r0 h0] & Ex & Ec).
  pose proof (bn_wexpand_spec (width a) r h Hr ltac:(lia)) as Hx. rewrite Ex in Hx. destruct Hx as (Hs0 & Hd0 & _). cbn in Ec.
  apply (f_equal (fun p => fst (snd p))) in Ec. cbn in Ec.
  destruct (store_shape r0 (limbs a) (width a) (neg a) Hs0 (limbs_words a (proj1 Ha)) (limbs_len a (proj1 Ha)) Hd0) as (Hs1 & Em1 & El1 & _).
  fold (limbs a) in Ec. rewrite Ec in Hs1, Em1, El1. exists r1. split_and!; auto; [rewrite <- Ec; reflexivity..|].
  unfold bind, getb in E. destruct (bn_wexpand (width r1) (tmp, h1)) as [[[]|] [t2 h2]]; [|discriminate].
  unfold upd in E. apply (f_equal (fun p => fst (snd p))) in E. cbn [fst snd] in E. auto.
Qed.

Lemma secret_shift_then a r tmp h n r' h' :
  bn_ok a -> bn_shape r -> bn_rshift_secret_shift a n (Some tmp) (r, h) = (Some tt, (r', h')) ->
  exists r1, bn_shape r1 /\ limbs r1 = limbs a /\ width r1 = width a /\ neg r1 = neg a /\
    r' = store_words 0 (secret_shift_loop 32 0 (u32 (BN_BITS2 * width a)) n (limbs a) (width a)) r1.
Proof.
  intros Ha Hr E.
  destruct (copy_then a r tmp h r' h' (fun r => secret_shift_loop 32 0 (u32 (BN_BITS2 * width r)) n (limbs r) (width r)) Ha Hr E)
    as (r1 & Hs1 & El1 & Ew1 & En1 & Er). exists r1. rewrite El1, Ew1 in Er. auto.
Qed.

Lemma secret_shift_words a n l :
  bn_shape a -> 0 <= n -> 0 < width a ->
  l = secret_shift_loop 32 0 (u32 (BN_BITS2 * width a)) n (limbs a) (width a) ->
  words l /\ zlen l = width a /\ val l = mag a / 2 ^ (n mod 2 ^ shift_bits (width a)).
Proof.
  intros Hs Hn Hwa ->. pose proof (bn_max a Hs) as Hmax. pose proof (bn_width a Hs). unfold BN_MAX_WORDS in Hmax.
  rewrite u32_small by (unfold BN_BITS2; lia). unfold BN_BITS2.
  assert (Hlog : Z.log2 (64 * width a) < 32) by (apply Z.log2_lt_pow2; lia). pose proof (Z.log2_nonneg (64 * width a)).
  destruct (secret_shift_loop_spec (64 * width a) n (width a) 32 0 (limbs a)) as (Hw & Hl & Hv);
    [lia|exact Hn|lia|apply limbs_words, Hs|apply limbs_len, Hs|lia|lia|].
  split; [exact Hw|]. split; [exact Hl|]. rewrite Hv. unfold mag, shift_bits. do 2 f_equal.
  replace (n mod 2 ^ 0) with 0 by (symmetry; apply Z.mod_1_r). lia.
Qed.

Lemma secret_shift_spec a r tmp h n r' h' :
  bn_ok a -> bn_shape r -> bn_shape tmp -> 0 <= n -> 0 < width a ->
  bn_rshift_secret_shift a n (Some tmp) (r, h) = (Some tt, (r', h')) ->
  bn_shape r' /\ neg r' = neg a /\ mag r' = mag a / 2 ^ (n mod 2 ^ shift_bits (width a)).
Proof.
  intros Ha Hr Ht Hn Hwa E.
  destruct (secret_shift_then a r tmp h n r' h' Ha Hr E) as (r1 & Hs1 & El1 & Ew1 & En1 & Er). clear E.
  remember (secret_shift_loop 32 0 (u32 (BN_BITS2 * width a)) n (limbs a) (width a)) as l eqn:El.
  destruct (secret_shift_words a n l (proj1 Ha) Hn Hwa El) as (Hw & Hl & Hv). clear El.
  destruct (store_shape r1 l (width a) (neg r1) Hs1 Hw Hl) as (Hs' & Em' & _); [pose proof (bn_width r1 Hs1); lia|].
  assert (Er' : r' = set_neg (neg r1) (set_width (width a) (store_words 0 l r1))) by (rewrite Er, <- Ew1; apply store_same).
  rewrite Er'. split_and!; auto. rewrite Em'. exact Hv.
Qed.
End Proofs.

(** * Properties *)

(** C32: Shifting left multiplies by a power of two exactly and shifting right divides,
    rounding toward zero, for numbers of any sign and width; zero has no sign, and
    only lack of room makes them fail. *)
Theorem bn_shifts_exact `{Malloc} (a r : BIGNUM) (h : heap) (n : Z) :
  bn_ok a -> bn_ok r -> 0 <= n ->
  gives (value a * 2 ^ n) (width a + n / 64 + 1) r (BN_lshift a n (r, h)) /\
  sets (value a * 2) (width a + 1) r (BN_lshift1 a (r, h)) /\
  gives (Z.quot (value a) (2 ^ n)) (width a) r (BN_rshift a n (r, h)) /\
  gives (Z.quot (value a) 2) (width a) r (BN_rshift1 a (r, h)).
Proof.
  intros Ha [Hr _] Hn. split_and!; auto using BN_lshift_spec, BN_lshift1_spec, BN_rshift_spec, BN_rshift1_spec.
Qed.

(** [-(2^64 + 5)]. *)
Definition bn_shift_sample : BIGNUM := {| d := [5; 1; 9]; width := 2; dmax := 3; neg := 1; flags := 0 |}.

Lemma bn_shift_sample_ok : bn_ok bn_shift_sample.
Proof.
  split; [constructor; cbn; try reflexivity; try lia; [unfold BN_MAX_WORDS; lia|repeat constructor; lia]|].
  right. split; [reflexivity|]. vm_compute. discriminate.
Qed.

Lemma BN_init_ok : bn_ok BN_init.
Proof. split; [constructor; cbn; try lia; [reflexivity|unfold BN_MAX_WORDS; lia|constructor]|left; reflexivity]. Qed.

Lemma bn_shifts_exact_witness :
  match @BN_lshift unlimited bn_shift_sample 67 (BN_init, tt) with
  | (Some _, (r, _)) => value r = - (2 ^ 64 + 5) * 2 ^ 67
  | _ => False
  end.
Proof.
  destruct (@bn_shifts_exact unlimited bn_shift_sample BN_init tt 67 bn_shift_sample_ok BN_init_ok ltac:(lia)) as (Hl & _).
  revert Hl. unfold gives. change (value bn_shift_sample) with (- (2 ^ 64 + 5)).
  match goal with |- (let (_, _) := ?t in _) -> (let (_, _) := ?u in _) => change u with t; destruct t as [[[]|] [r h]]; [intros (_ & Hv & _); exact Hv|] end.
  intros Hn. apply Hn. right. split; [vm_compute; discriminate|]. split; [reflexivity|]. exists 1000.
  split; [apply unlimited_grants|vm_compute; split; [discriminate|reflexivity]].
Defined.

(** Single bits: setting, clearing, testing and masking act on the binary
    expansion of the absolute value, and the count of trailing zeros is the
    exponent of two in it; clearing a bit returns 0 exactly when the bit lies
    beyond the width, and then it was clear. *)
Theorem bn_bits_exact `{Malloc} (a : BIGNUM) (h : heap) (n : Z) :
  bn_ok a -> 0 <= n ->
  BN_is_bit_set a n = (if Z.testbit (mag a) n then 1 else 0) /\
  match BN_set_bit n (a, h) with
  | (Some _, (a', _)) => bn_ok a' /\ value a' = signed a (Z.setbit (mag a) n)
  | (None, _) => ~ room (n / 64 + 1) a
  end /\
  (if width a <=? n / 64 then BN_clear_bit n (a, h) = (None, (a, h)) /\ Z.testbit (mag a) n = false
   else exists a', BN_clear_bit n (a, h) = (Some tt, (a', h)) /\ bn_ok a' /\ value a' = signed a (Z.clearbit (mag a) n)) /\
  (exists a', BN_mask_bits n (a, h) = (Some tt, (a', h)) /\ bn_ok a' /\ value a' = signed a (mag a mod 2 ^ n)) /\
  (if mag a =? 0 then BN_count_low_zero_bits a = 0 else lowest (mag a) (BN_count_low_zero_bits a)).
Proof.
  intros Ha Hn. split; [rewrite is_bit_set_spec, (proj2 (Z.leb_le 0 n) Hn) by exact Ha; reflexivity|].
  split; [apply BN_set_bit_spec; assumption|]. split; [apply BN_clear_bit_spec; assumption|].
  split; [apply BN_mask_bits_spec; assumption|apply BN_count_low_zero_bits_spec, Ha].
Qed.

Lemma bn_bits_exact_witness :
  BN_is_bit_set bn_shift_sample 64 = 1 /\ BN_count_low_zero_bits bn_shift_sample = 0 /\
  exists a', @BN_mask_bits unlimited 3 (bn_shift_sample, tt) = (Some tt, (a', tt)) /\ value a' = -5.
Proof.
  destruct (@bn_bits_exact unlimited bn_shift_sample tt 64 bn_shift_sample_ok ltac:(lia)) as (Hb & _ & _ & _ & Hc).
  destruct (@bn_bits_exact unlimited bn_shift_sample tt 3 bn_shift_sample_ok ltac:(lia)) as (_ & _ & _ & (a' & E & _ & Hv) & _).
  split; [rewrite Hb; vm_compute; reflexivity|]. split.
  - destruct Hc as (Hk & u & Eu). change (mag bn_shift_sample) with (2 ^ 64 + 5) in Eu.
    destruct (Z.eq_dec (BN_count_low_zero_bits bn_shift_sample) 0) as [|Hne]; [assumption|].
    replace (BN_count_low_zero_bits bn_shift_sample) with (1 + (BN_count_low_zero_bits bn_shift_sample - 1)) in Eu by lia.
    rewrite Z.pow_add_r in Eu by lia. lia.
  - exists a'. split; [exact E|]. rewrite Hv. vm_compute. reflexivity.
Defined.

(** The shift by a secret number looks only at as many bits of the shift as the
    number of bits of the operand's width has: it divides by the power of two of
    the remainder, so that it differs from [BN_rshift] on larger shifts. *)
Theorem bn_secret_shift_reduces_the_shift `{Malloc} (a r tmp r' : BIGNUM) (h h' : heap) (n : Z) :
  bn_ok a -> bn_ok r -> bn_ok tmp -> 0 <= n -> 0 < width a ->
  bn_rshift_secret_shift a n (Some tmp) (r, h) = (Some tt, (r', h')) ->
  value r' = Z.quot (value a) (2 ^ (n mod 2 ^ shift_bits (width a))).
Proof.
  intros Ha [Hr _] [Ht _] Hn Hw E. destruct (secret_shift_spec a r tmp h n r' h' Ha Hr Ht Hn Hw E) as (Hs & En & Em).
  assert (Hp : 0 < 2 ^ (n mod 2 ^ shift_bits (width a))).
  { apply Z.pow_pos_nonneg; [lia|]. apply Z.mod_pos_bound, Z.pow_pos_nonneg; [lia|]. unfold shift_bits. pose proof (Z.log2_nonneg (64 * width a)). lia. }
  rewrite <- signed_quot by assumption. apply value_signed; assumption.
Qed.

Definition bn_five : BIGNUM := {| d := [5]; width := 1; dmax := 1; neg := 0; flags := 0 |}.

Lemma bn_five_ok : bn_ok bn_five.
Proof. split; [constructor; cbn; try lia; [reflexivity|unfold BN_MAX_WORDS; lia|repeat constructor; lia]|left; reflexivity]. Qed.

Lemma bn_secret_shift_reduces_the_shift_witness :
  exists r', @bn_rshift_secret_shift unlimited bn_five 128 (Some bn_five) (bn_five, tt) = (Some tt, (r', tt)) /\ value r' = 5 /\
  exists r2, @BN_rshift unlimited bn_five 128 (bn_five, tt) = (Some tt, (r2, tt)) /\ value r2 = 0.
Proof.
  eexists. split; [vm_compute; reflexivity|]. split.
  - refine (@bn_secret_shift_reduces_the_shift unlimited bn_five bn_five bn_five _ tt tt 128 bn_five_ok bn_five_ok bn_five_ok _ _ _);
      [lia|cbn; lia|vm_compute; reflexivity].
  - eexists. split; vm_compute; reflexivity.
Defined.
