(* ===== verification/BnBytes.v ===== *)
(** crypto/fipsmodule/bn/bytes.c: numbers to and from bytes, big-endian and
    little-endian, minimal and padded. *)
From Stdlib Require Import ZArith Lia.
From stdpp Require Import base list numbers.
From S2P Require Import Prelude.
From S2P Require Import Mem.
From S2P Require Import ConstTime.
From S2P Require Import BnWords.
From S2P Require Import Bn.
From S2P Require Import BnShift.

Open Scope Z_scope.

(** * The code *)

(** An array of words as bytes in memory, and back. *)
Definition array_bytes (l : list Z) : list Z := concat (map (fun w => rev (be_bytes 8 w)) l).
Definition array_words (n : Z) (b : list Z) : list Z := cells n b.

(** The loop of [BN_bin2bn]. *)
Fixpoint bin_loop (l : list Z) (word_ m num_words : Z) (dst : list Z) : list Z :=
  match l with
  | [] => dst
  | b :: l =>
    let word_ := Z.lor (u64 (Z.shiftl word_ 8)) b in
    if m =? 0 then bin_loop l 0 (BN_BYTES - 1) (num_words - 1) (zsplice (num_words - 1) [word_] dst)
    else bin_loop l word_ (m - 1) num_words dst
  end.

Definition fits_in_bytes (bytes : list Z) (num_bytes len : Z) : bool :=
  or_words 0 (zsub len (num_bytes - len) bytes) =? 0.

Section Code.
Context `{Malloc}.

(** [bn] or the number given; [None] for a failed allocation. *)
Definition or_new (ret_ : option BIGNUM) (h : heap) : option BIGNUM * heap :=
  match ret_ with Some r => (Some r, h) | None => BN_new h end.

Definition BN_bin2bn (l : list Z) (ret_ : option BIGNUM) (h : heap) : option BIGNUM * heap :=
  match or_new ret_ h with
  | (None, h) => (None, h)
  | (Some r, h) =>
    let len := zlen l in
    if len =? 0 then (Some (set_width 0 r), h)
    else
      let num_words := (len - 1) / BN_BYTES + 1 in
      let m := (len - 1) mod BN_BYTES in
      match bn_wexpand num_words (r, h) with
      | (None, (_, h)) => (None, h)
      | (Some _, (r, h)) =>
        let r := set_neg 0 (set_width num_words r) in
        (Some (set_d (bin_loop l 0 m num_words (d r)) r), h)
      end
  end.

Definition BN_le2bn (l : list Z) (ret_ : option BIGNUM) (h : heap) : option BIGNUM * heap :=
  match or_new ret_ h with
  | (None, h) => (None, h)
  | (Some r, h) =>
    let len := zlen l in
    if len =? 0 then (Some (set_neg 0 (set_width 0 r)), h)
    else
      let num_words := (len - 1) / BN_BYTES + 1 in
      match bn_wexpand num_words (r, h) with
      | (None, (_, h)) => (None, h)
      | (Some _, (r, h)) =>
        let r := set_width num_words r in
        let r := store_words (num_words - 1) [0] r in
        (Some (set_d (array_words (dmax r) (zsplice 0 l (array_bytes (d r)))) r), h)
      end
  end.
End Code.

(** The bytes written; their number is the result. *)
Definition BN_bn2bin (b : BIGNUM) : list Z :=
  let n := BN_num_bytes b in
  map (fun i => Z.land (u8 (Z.shiftr (znth 0 (i / BN_BYTES) (d b)) (8 * (i mod BN_BYTES)))) 255) (rev (seqZ 0 n)).

Definition BN_bn2le_padded (len : Z) (b : BIGNUM) : option (list Z) :=
  let bytes := array_bytes (d b) in
  let num_bytes := width b * BN_BYTES in
  if (len <? num_bytes) && negb (fits_in_bytes bytes num_bytes len) then None
  else
    let num_bytes := if len <? num_bytes then len else num_bytes in
    Some (ztake num_bytes bytes ++ zrep (len - num_bytes) 0).

Definition BN_bn2bin_padded (len : Z) (b : BIGNUM) : option (list Z) :=
  let bytes := array_bytes (d b) in
  let num_bytes := width b * BN_BYTES in
  if (len <? num_bytes) && negb (fits_in_bytes bytes num_bytes len) then None
  else
    let num_bytes := if len <? num_bytes then len else num_bytes in
    Some (zrep (len - num_bytes) 0 ++ rev (ztake num_bytes bytes)).

(** * Bytes of an array *)

Lemma B_256 n : 0 <= n -> B ^ n = 256 ^ (8 * n).
Proof. intros Hn. rewrite Z.pow_mul_r by lia. reflexivity. Qed.

Lemma zlen_word_bytes x : zlen (rev (be_bytes 8 x)) = 8.
Proof. unfold zlen. rewrite length_rev, length_be_bytes. reflexivity. Qed.

Lemma zlen_array_bytes l : zlen (array_bytes l) = 8 * zlen l.
Proof.
  unfold array_bytes. induction l as [|x l IH]; cbn [map concat]; [reflexivity|]. rewrite zlen_app, zlen_word_bytes, IH, zlen_cons. lia.
Qed.

Lemma array_bytes_app l k : array_bytes (l ++ k) = array_bytes l ++ array_bytes k.
Proof. unfold array_bytes. rewrite map_app, concat_app. reflexivity. Qed.

Lemma array_bytes_ok l : bytes_ok (array_bytes l).
Proof.
  unfold array_bytes. induction l as [|x l IH]; cbn [map concat]; [constructor|]. apply bytes_ok_app.
  split; [apply Forall_rev, be_bytes_ok|exact IH].
Qed.

Lemma le_val_array l : words l -> le_val (array_bytes l) = val l.
Proof.
  induction 1 as [|x l Hx Hl IH]; [reflexivity|]. change (array_bytes (x :: l)) with (rev (be_bytes 8 x) ++ array_bytes l).
  rewrite le_val_app, IH. unfold le_val. rewrite rev_involutive, be_val_bytes. cbn [val].
  rewrite zlen_word_bytes. change (256 ^ Z.of_nat 8) with B. change (256 ^ 8) with B. rewrite Z.mod_small by (unfold word in Hx; lia). reflexivity.
Qed.

(** Words read from bytes. *)
Lemma cells_S n b : cells (Z.of_nat (S n)) b = be_val (rev (ztake 8 b)) :: cells (Z.of_nat n) (zdrop 8 b).
Proof.
  unfold cells. rewrite (seqZ_cons 0) by lia. cbn [map]. f_equal.
  replace (Z.pred (Z.of_nat (S n))) with (Z.of_nat n) by lia. change (Z.succ 0) with 1.
  unfold seqZ. rewrite !Nat2Z.id, <- !list_fmap_compose. apply list_fmap_ext. intros i k _. cbn. unfold zsub.
  rewrite zdrop_zdrop by lia. do 4 f_equal. lia.
Qed.

Lemma val_cells n : forall b, bytes_ok b -> 8 * Z.of_nat n <= zlen b -> val (cells (Z.of_nat n) b) = le_val (ztake (8 * Z.of_nat n) b).
Proof.
  induction n as [|n IH]; intros b Hb Hl; [reflexivity|]. rewrite cells_S. cbn [val].
  rewrite IH by (try apply bytes_ok_zdrop; try exact Hb; rewrite zlen_zdrop; lia).
  assert (E : ztake (8 * Z.of_nat (S n)) b = ztake 8 b ++ ztake (8 * Z.of_nat n) (zdrop 8 b)).
  { rewrite <- (ztake_zdrop 8 b) at 1. replace (8 * Z.of_nat (S n)) with (zlen (ztake 8 b) + 8 * Z.of_nat n) by (rewrite zlen_ztake; lia).
    apply ztake_app_add. lia. }
  rewrite E, le_val_app, zlen_ztake by lia. reflexivity.
Qed.

Lemma ztake_cells k n b : 0 <= k <= n -> ztake k (cells n b) = cells k b.
Proof.
  intros Hk. unfold ztake, cells, seqZ. change @map with (fun A B (f : A -> B) (l : list A) => f <$> l). cbv beta.
  rewrite <- !fmap_take, take_seq. do 3 f_equal. lia.
Qed.

(** * Reading bytes *)

Lemma bin_loop_spec l : forall word_ m nw dst p s e,
  dst = p ++ s ++ e -> zlen p = nw -> zlen l = 8 * nw - 7 + m -> 0 <= m <= 7 -> 0 <= word_ < 256 ^ (7 - m) ->
  bytes_ok l -> words s ->
  exists s', bin_loop l word_ m nw dst = s' ++ e /\ zlen s' = nw + zlen s /\ words s' /\
    val s' = B ^ nw * val s + word_ * 256 ^ zlen l + be_val l.
Proof.
  induction l as [|b l IH]; intros word_ m nw dst p s e -> Hp Hl Hm Hw Hb Hs; cbn [bin_loop].
  - change (zlen []) with 0 in Hl. pose proof (zlen_nonneg p). assert (nw = 0 /\ m = 7) as [-> ->] by lia.
    apply zlen_0 in Hp as ->. exists s. change (256 ^ (7 - 7)) with 1 in Hw. assert (word_ = 0) as -> by lia.
    split_and!; auto. change (be_val []) with 0. change (B ^ 0) with 1. lia.
  - rewrite zlen_cons in Hl. apply bytes_ok_cons in Hb as [Hb Hbl]. pose proof (zlen_nonneg l) as Hll. unfold byte_ok in Hb.
    assert (Hpow : 256 ^ (7 - m) <= 256 ^ 7) by (apply Z.pow_le_mono_r; lia). change (256 ^ 7) with (2 ^ 56) in Hpow.
    assert (Ew : Z.lor (u64 (Z.shiftl word_ 8)) b = word_ * 256 + b).
    { rewrite Z.shiftl_mul_pow2 by lia. change (2 ^ 8) with 256. rewrite u64_small by lia. apply (lor_disjoint 8); [lia|apply Z.mod_mul; lia|exact Hb]. }
    rewrite Ew. assert (Ebe : forall q, word_ * 256 ^ (1 + zlen l) + (b * 256 ^ zlen l + q) = (word_ * 256 + b) * 256 ^ zlen l + q).
    { intros q. rewrite Z.pow_add_r by lia. change (256 ^ 1) with 256. ring. }
    assert (Hw' : 0 <= word_ * 256 + b < 256 ^ (7 - m) * 256) by lia.
    destruct (Z.eqb_spec m 0) as [->|Hm0].
    + change (256 ^ (7 - 0) * 256) with B in Hw'. destruct (zcut_last p) as (q & z & ->); [lia|]. rewrite zlen_app in Hp. change (zlen [z]) with 1 in Hp.
      rewrite <- (app_assoc q), (zsplice_app _ [_] q [z]) by (reflexivity || lia). change (BN_BYTES - 1) with 7.
      destruct (IH 0 7 (nw - 1) (q ++ [word_ * 256 + b] ++ s ++ e) q (word_ * 256 + b :: s) e) as (s' & E & Hs' & Hws' & Hv); auto; try lia; try (constructor; [unfold word; lia|exact Hs]).
      exists s'. split; [exact E|]. rewrite zlen_cons in Hs'. split_and!; [lia|exact Hws'|]. rewrite Hv, be_val_cons, zlen_cons, <- (Z.add_assoc (B ^ nw * val s)), Ebe. cbn [val].
      replace (zlen l) with (8 * (nw - 1)) by lia. rewrite <- B_256 by lia. replace nw with (nw - 1 + 1) at 3 by lia. rewrite Z.pow_add_r by lia. change (B ^ 1) with B. ring.
    + destruct (IH (word_ * 256 + b) (m - 1) nw (p ++ s ++ e) p s e) as (s' & E & Hs' & Hws' & Hv); auto; try lia.
      { replace (7 - (m - 1)) with (7 - m + 1) by lia. rewrite Z.pow_add_r by lia. change (256 ^ 1) with 256. lia. }
      exists s'. split_and!; auto. rewrite Hv, be_val_cons, zlen_cons, <- (Z.add_assoc (B ^ nw * val s)), <- Ebe. lia.
Qed.

Section Proofs.
Context `{Malloc}.

(** The number to store into. *)
Definition target (ret_ : option BIGNUM) : BIGNUM :=
  match ret_ with Some r => r | None => {| d := []; width := 0; dmax := 0; neg := 0; flags := BN_FLG_MALLOCED |} end.

Lemma or_new_target ret_ h r h' : or_new ret_ h = (Some r, h') -> r = target ret_.
Proof.
  unfold or_new, BN_new. destruct ret_ as [r0|].
  { intros E. apply (f_equal fst) in E. cbn [fst] in E. apply (inj Some) in E. auto. }
  destruct (OPENSSL_malloc h _) as [[p|] h1]; [|discriminate].
  intros E. apply (f_equal fst) in E. cbn [fst] in E. apply (inj Some) in E. auto.
Qed.

Lemma target_shape ret_ : (forall r, ret_ = Some r -> bn_shape r) -> bn_shape (target ret_).
Proof. intros Hr. destruct ret_; [auto|]. constructor; cbn; [reflexivity|lia|unfold BN_MAX_WORDS; lia|constructor]. Qed.

Lemma words_for len : 0 < len -> let n := (len - 1) / 8 + 1 in 0 < n /\ len <= 8 * n < len + 8 /\ (len - 1) mod 8 = len - 8 * n + 7.
Proof. intros Hl. cbv zeta. pose proof (Z.div_mod (len - 1) 8 ltac:(lia)). pose proof (Z.mod_pos_bound (len - 1) 8 ltac:(lia)). lia. Qed.

Lemma BN_bin2bn_spec l ret_ h :
  (forall r, ret_ = Some r -> bn_shape r) -> bytes_ok l ->
  match BN_bin2bn l ret_ h with
  | (Some r, _) => bn_shape r /\ mag r = be_val l /\ (neg r = if zlen l =? 0 then neg (target ret_) else 0)
  | (None, _) => ret_ = None \/ ~ room ((zlen l + 7) / 8) (target ret_)
  end.
Proof.
  intros Hr Hl. unfold BN_bin2bn. destruct (or_new ret_ h) as [[r|] h1] eqn:En.
  2: { destruct ret_; [discriminate|auto]. }
  apply or_new_target in En as ->. pose proof (target_shape ret_ Hr) as Hs. set (r := target ret_) in *. pose proof (zlen_nonneg l).
  destruct (Z.eqb_spec (zlen l) 0) as [E|E].
  - apply zlen_0 in E as ->. destruct Hs as [Hs1 Hs2 Hs3 Hs4]. split_and!; [constructor; cbn; auto; lia|reflexivity..].
  - unfold BN_BYTES. destruct (words_for (zlen l) ltac:(lia)) as (Hn & Hlen & Hmod). set (n := (zlen l - 1) / 8 + 1) in *.
    assert (En : (zlen l + 7) / 8 = n) by (unfold n; rewrite <- (Z.div_add _ 1) by lia; f_equal; lia).
    pose proof (bn_wexpand_spec n r h1 Hs ltac:(lia)) as Hx. destruct (bn_wexpand n (r, h1)) as [[[]|] [r1 h2]]; [|right; rewrite En; apply Hx].
    destruct Hx as (Hs1 & Hd1 & _). pose proof (bn_len r1 Hs1) as Hl1. 
    assert (Hp0 : 0 < 256 ^ (7 - (zlen l - 1) mod 8)) by (apply Z.pow_pos_nonneg; lia).
    destruct (bin_loop_spec l 0 ((zlen l - 1) mod 8) n (d r1) (ztake n (d r1)) [] (zdrop n (d r1))) as (s' & Ed & Hls & Hws & Hv);
      [cbn [app]; rewrite ztake_zdrop; reflexivity|apply zlen_ztake; lia|lia..|exact Hl|constructor|].
    cbn [set_neg set_width d]. rewrite Ed. cbn [val] in Hv. change (zlen []) with 0 in Hls.
    assert (Elimb : forall b, limbs (set_d (s' ++ zdrop n (d r1)) (set_neg 0 (set_width n b))) = s').
    { intros b. unfold limbs. cbn. apply ztake_app_eq. lia. }
    split_and!; [|unfold mag; rewrite Elimb; lia|reflexivity].
    constructor; cbn; [rewrite zlen_app, zlen_zdrop; lia|lia|apply (bn_max r1 Hs1)|].
    apply Forall_app. split; [exact Hws|apply words_zdrop, bn_words, Hs1].
Qed.

Lemma zsplice_0 {A} (k l : list A) : zsplice 0 k l = k ++ zdrop (zlen k) l.
Proof. reflexivity. Qed.

Lemma cells_words' n b : bytes_ok b -> words (cells n b).
Proof. apply cells_words. Qed.

Lemma zrep_0_le n : le_val (zrep n 0) = 0.
Proof. unfold le_val. rewrite rev_zrep. apply be_val_zrep_0. Qed.

(** Bytes copied over words of which the last one was cleared. *)
Lemma le_store l (dd : list Z) n :
  words dd -> bytes_ok l -> 0 < n <= zlen dd -> zlen l <= 8 * n < zlen l + 8 ->
  let d0 := zsplice (n - 1) [0] dd in
  let d' := array_words (zlen dd) (zsplice 0 l (array_bytes d0)) in
  words d' /\ zlen d' = zlen dd /\ val (ztake n d') = le_val l.
Proof.
  intros Hd Hl Hn Hlen d0 d'. assert (Hd0 : zlen d0 = zlen dd) by (apply zlen_zsplice; change (zlen [0]) with 1; lia).
  assert (Hbytes : bytes_ok (zsplice 0 l (array_bytes d0))) by (rewrite zsplice_0; apply bytes_ok_app; split; [exact Hl|apply bytes_ok_zdrop, array_bytes_ok]).
  assert (Hbl : zlen (zsplice 0 l (array_bytes d0)) = 8 * zlen dd) by (rewrite zlen_zsplice; rewrite ?zlen_array_bytes; lia).
  split; [apply cells_words, Hbytes|]. split; [apply zlen_cells; lia|].
  unfold d', array_words. rewrite ztake_cells by lia. replace n with (Z.of_nat (Z.to_nat n)) at 1 by lia.
  rewrite val_cells by (auto; lia). rewrite Z2Nat.id by lia. rewrite zsplice_0.
  destruct (zcut (n - 1) 1 dd) as (p & m & s & E & Hp & Hm); [lia..|].
  assert (Ed0 : d0 = p ++ [0] ++ s) by (unfold d0; rewrite E; apply zsplice_app; [lia|rewrite Hm; reflexivity]).
  replace (8 * n) with (zlen l + (8 * n - zlen l)) by lia. rewrite ztake_app_add by lia. rewrite le_val_app.
  assert (Etail : ztake (8 * n - zlen l) (zdrop (zlen l) (array_bytes d0)) = zrep (8 * n - zlen l) 0).
  { rewrite Ed0, !array_bytes_app. change (array_bytes [0]) with (zrep 8 0 : list Z).
    replace (zlen l) with (zlen (array_bytes p) + (zlen l - 8 * (n - 1))) at 2 by (rewrite zlen_array_bytes; lia).
    rewrite zdrop_app_add by lia. set (k := zlen l - 8 * (n - 1)). replace (8 * n - zlen l) with (8 - k) by lia.
    unfold zdrop, ztake, zrep. rewrite drop_app_le by (rewrite length_replicate; lia). rewrite drop_replicate, take_app_le by (rewrite length_replicate; lia).
    rewrite take_replicate. f_equal. lia. }
  rewrite Etail, zrep_0_le. lia.
Qed.

Lemma BN_le2bn_spec l ret_ h :
  (forall r, ret_ = Some r -> bn_shape r) -> bytes_ok l ->
  match BN_le2bn l ret_ h with
  | (Some r, _) => bn_shape r /\ mag r = le_val l /\ (neg r = if zlen l =? 0 then 0 else neg (target ret_))
  | (None, _) => ret_ = None \/ ~ room ((zlen l + 7) / 8) (target ret_)
  end.
Proof.
  intros Hr Hl. unfold BN_le2bn. destruct (or_new ret_ h) as [[r|] h1] eqn:En.
  2: { destruct ret_; [discriminate|auto]. }
  apply or_new_target in En as ->. pose proof (target_shape ret_ Hr) as Hs. set (r := target ret_) in *. pose proof (zlen_nonneg l).
  destruct (Z.eqb_spec (zlen l) 0) as [E|E].
  - apply zlen_0 in E as ->. destruct Hs as [Hs1 Hs2 Hs3 Hs4]. split_and!; [constructor; cbn; auto; lia|reflexivity..].
  - unfold BN_BYTES. destruct (words_for (zlen l) ltac:(lia)) as (Hn & Hlen & Hmod). set (n := (zlen l - 1) / 8 + 1) in *.
    assert (En : (zlen l + 7) / 8 = n) by (unfold n; rewrite <- (Z.div_add _ 1) by lia; f_equal; lia).
    pose proof (bn_wexpand_spec n r h1 Hs ltac:(lia)) as Hx. destruct (bn_wexpand n (r, h1)) as [[[]|] [r1 h2]]; [|right; rewrite En; apply Hx].
    destruct Hx as (Hs1 & Hd1 & _ & _ & En1 & _). pose proof (bn_len r1 Hs1) as Hl1. cbn [store_words set_d set_width d dmax width neg flags].
    destruct (le_store l (d r1) n (bn_words r1 Hs1) Hl ltac:(lia) Hlen) as (Hws & Hlw & Hv). rewrite Hl1 in Hws, Hlw, Hv.
    split_and!; [constructor; cbn; auto; [lia|apply (bn_max r1 Hs1)]|exact Hv|exact En1].
Qed.

(** * Writing bytes *)

Lemma val_byte l i : words l -> 0 <= i -> val l / 256 ^ i mod 256 = Z.land (u8 (Z.shiftr (znth 0 (i / 8) l) (8 * (i mod 8)))) 255.
Proof.
  intros Hl Hi. change 255 with (2 ^ 8 - 1). rewrite land_mask by lia. unfold u8. change (2 ^ 8) with 256. rewrite Z.mod_mod by lia.
  replace (256 ^ i) with (2 ^ (8 * i)) by (rewrite Z.pow_mul_r by lia; reflexivity). rewrite <- Z.shiftr_div_pow2 by lia.
  change 256 with (2 ^ 8). apply Z.bits_inj'. intros j Hj. pose proof (Z.mod_pos_bound i 8 ltac:(lia)). pose proof (Z.div_mod i 8 ltac:(lia)).
  destruct (Z.ltb_spec j 8); [|rewrite !Z.mod_pow2_bits_high by lia; reflexivity].
  rewrite !Z.mod_pow2_bits_low, !Z.shiftr_spec, val_testbit by (auto; lia).
  replace ((j + 8 * i) / 64) with (i / 8) by (apply Z.div_unique with (j + 8 * (i mod 8)); lia).
  replace ((j + 8 * i) mod 64) with (j + 8 * (i mod 8)) by (apply Z.mod_unique with (i / 8); lia). reflexivity.
Qed.

Lemma be_bytes_map f n v : (forall i, 0 <= i < Z.of_nat n -> f i = v / 256 ^ i mod 256) -> map f (rev (seqZ 0 (Z.of_nat n))) = be_bytes n v.
Proof.
  induction n as [|n IH]; intros Hf; [reflexivity|]. rewrite be_bytes_first.
  replace (Z.of_nat (S n)) with (Z.of_nat n + 1) by lia. rewrite seqZ_app by lia. rewrite rev_app_distr. change (rev (seqZ (0 + Z.of_nat n) 1)) with [0 + Z.of_nat n].
  cbn [app map]. f_equal; [apply Hf; lia|]. apply IH. intros i Hi. apply Hf. lia.
Qed.

Lemma BN_num_bytes_spec b :
  bn_ok b -> let n := BN_num_bytes b in 0 <= n <= 8 * width b /\ mag b < 256 ^ n /\ (mag b = 0 -> n = 0) /\ (mag b <> 0 -> 0 < n /\ 256 ^ (n - 1) <= mag b).
Proof.
  intros [Hs _]. unfold BN_num_bytes. rewrite BN_num_bits_spec by exact Hs. pose proof (mag_bound b Hs) as Hm. pose proof (bn_width b Hs).
  destruct (Z.eqb_spec (mag b) 0) as [E|E].
  - rewrite E. change ((0 + 7) / 8) with 0. change (256 ^ 0) with 1. lia.
  - cbv zeta. pose proof (Z.log2_spec (mag b) ltac:(lia)) as Hl. pose proof (Z.log2_nonneg (mag b)). set (k := Z.log2 (mag b)) in *.
    assert (Hk : k < 64 * width b) by (apply Z.log2_lt_pow2; [lia|]; rewrite <- B_pow2 by lia; lia).
    set (n := (k + 1 + 7) / 8). assert (Hn : 8 * n <= k + 8 < 8 * n + 8) by (unfold n; dlia).
    assert (E256 : forall x, 0 <= x -> 256 ^ x = 2 ^ (8 * x)) by (intros x Hx; rewrite Z.pow_mul_r by lia; reflexivity).
    rewrite !E256 by lia. assert (2 ^ Z.succ k <= 2 ^ (8 * n)) by (apply Z.pow_le_mono_r; lia).
    assert (2 ^ (8 * (n - 1)) <= 2 ^ k) by (apply Z.pow_le_mono_r; lia). split_and!; lia || (intros; lia).
Qed.

Lemma BN_bn2bin_spec b : bn_ok b -> BN_bn2bin b = be_bytes (Z.to_nat (BN_num_bytes b)) (mag b).
Proof.
  intros Hb. destruct (BN_num_bytes_spec b Hb) as (Hn & _). destruct Hb as [Hs _]. unfold BN_bn2bin.
  replace (BN_num_bytes b) with (Z.of_nat (Z.to_nat (BN_num_bytes b))) at 1 by lia. apply be_bytes_map. intros i Hi. unfold mag.
  rewrite val_byte by (auto with bn; lia). unfold limbs. rewrite znth_ztake; [reflexivity|]. split; [apply Z.div_pos; lia|].
  apply Z.div_lt_upper_bound; lia.
Qed.

Lemma bytes_words l : bytes_ok l -> words l.
Proof. apply List.Forall_impl. unfold byte_ok, word. intros x Hx. lia. Qed.

Lemma val_le_zero l : bytes_ok l -> val l = 0 <-> le_val l = 0.
Proof.
  induction 1 as [|x l Hx Hl IH]; [split; reflexivity|]. change (x :: l) with ([x] ++ l) at 2. rewrite le_val_app. cbn [val].
  change (le_val [x]) with (0 * 256 + x). change (256 ^ zlen [x]) with 256. pose proof (le_val_bound l Hl).
  pose proof (val_nonneg l) as Hv. specialize (Hv (bytes_words l Hl)). unfold byte_ok in Hx. lia.
Qed.

Lemma ztake_array w l : 0 <= w <= zlen l -> ztake (w * 8) (array_bytes l) = array_bytes (ztake w l).
Proof.
  intros Hw. rewrite <- (ztake_zdrop w l) at 1. rewrite array_bytes_app. apply ztake_app_eq. rewrite zlen_array_bytes, zlen_ztake; lia.
Qed.

Lemma le_val_ztake n l : bytes_ok l -> 0 <= n <= zlen l -> le_val l = le_val (ztake n l) + 256 ^ n * le_val (zdrop n l).
Proof. intros Hl Hn. rewrite <- (ztake_zdrop n l) at 1. rewrite le_val_app, zlen_ztake by exact Hn. reflexivity. Qed.

(** The bytes that both padded conversions write. *)
Lemma padded_bytes b len :
  bn_ok b -> 0 <= len ->
  let bytes := array_bytes (d b) in
  let num_bytes := width b * BN_BYTES in
  if (len <? num_bytes) && negb (fits_in_bytes bytes num_bytes len) then 256 ^ len <= mag b
  else
    let num_bytes := if len <? num_bytes then len else num_bytes in
    mag b < 256 ^ len /\ ztake num_bytes bytes ++ zrep (len - num_bytes) 0 = rev (be_bytes (Z.to_nat len) (mag b)).
Proof.
  intros [Hs _] Hlen. cbv zeta. unfold BN_BYTES. set (nb := width b * 8). pose proof (bn_width b Hs). pose proof (bn_len b Hs).
  pose proof (ztake_array (width b) (d b) ltac:(lia)) as Et. fold nb in Et. fold (limbs b) in Et. set (bs := array_bytes (limbs b)) in *.
  assert (Hbs : bytes_ok bs) by apply array_bytes_ok. assert (Hbl : zlen bs = nb) by (unfold bs; rewrite zlen_array_bytes, limbs_len by exact Hs; lia).
  assert (Hbv : le_val bs = mag b) by (unfold bs; apply le_val_array; auto with bn). pose proof (le_val_bound bs Hbs) as Hbb. rewrite Hbl in Hbb.
  assert (Hu : forall out, bytes_ok out -> zlen out = len -> le_val out = mag b -> out = rev (be_bytes (Z.to_nat len) (mag b))).
  { intros out Ho Hl Hv. rewrite <- Hv. unfold le_val. replace (Z.to_nat len) with (length (rev out)) by (rewrite length_rev; unfold zlen in Hl; lia).
    rewrite be_bytes_val by (apply Forall_rev, Ho). rewrite rev_involutive. reflexivity. }
  destruct (Z.ltb_spec len nb) as [Hlt|Hge]; cbn [andb].
  - assert (Ef : fits_in_bytes (array_bytes (d b)) nb len = (mag b <? 256 ^ len)).
    { unfold fits_in_bytes. replace (zsub len (nb - len) (array_bytes (d b))) with (zdrop len bs).
      2: { rewrite <- Et. apply zdrop_ztake; [lia|]. rewrite zlen_array_bytes. lia. }
      pose proof (bytes_words (zdrop len bs) (bytes_ok_zdrop _ _ Hbs)) as Hw.
      destruct (or_words_spec (zdrop len bs) 0 Hw ltac:(unfold word; lia)) as [_ Eo]. rewrite val_le_zero in Eo by (apply bytes_ok_zdrop, Hbs).
      rewrite <- Hbv, (le_val_ztake len bs) by (auto; lia). pose proof (le_val_bound (ztake len bs) ltac:(apply bytes_ok_ztake, Hbs)) as Hb1. rewrite zlen_ztake in Hb1 by lia.
      pose proof (le_val_bound (zdrop len bs) ltac:(apply bytes_ok_zdrop, Hbs)) as Hb2. set (hi := le_val (zdrop len bs)) in *. set (lo := le_val (ztake len bs)) in *.
      assert (0 < 256 ^ len) by (apply Z.pow_pos_nonneg; lia).
      destruct (Z.eqb_spec (or_words 0 (zdrop len bs)) 0) as [E|E], (Z.ltb_spec (lo + 256 ^ len * hi) (256 ^ len)); auto.
      - apply Eo in E as [_ E]. rewrite E in *. lia.
      - assert (hi <> 0) by tauto. nia. }
    rewrite Ef. destruct (Z.ltb_spec (mag b) (256 ^ len)) as [Hm|Hm]; cbn [negb]; [|exact Hm]. split; [exact Hm|].
    rewrite Z.sub_diag. change (zrep 0 0) with (@nil Z). rewrite app_nil_r.
    assert (E2 : ztake len (array_bytes (d b)) = ztake len bs) by (rewrite <- Et, ztake_ztake by lia; reflexivity). rewrite E2.
    apply Hu; [apply bytes_ok_ztake, Hbs|apply zlen_ztake; lia|]. rewrite (le_val_ztake len bs) in Hbv by (auto; lia).
    pose proof (le_val_bound (ztake len bs) ltac:(apply bytes_ok_ztake, Hbs)). pose proof (le_val_bound (zdrop len bs) ltac:(apply bytes_ok_zdrop, Hbs)).
    set (hi := le_val (zdrop len bs)) in *. assert (hi = 0); [|nia]. destruct (Z.eq_dec hi 0); [assumption|nia].
  - split; [assert (256 ^ nb <= 256 ^ len) by (apply Z.pow_le_mono_r; lia); lia|]. rewrite Et. apply Hu.
    + apply bytes_ok_app. split; [exact Hbs|]. apply Forall_replicate. unfold byte_ok. lia.
    + rewrite zlen_app, zlen_zrep by lia. lia.
    + rewrite le_val_app, zrep_0_le. lia.
Qed.

Lemma BN_bn2le_padded_spec b len :
  bn_ok b -> 0 <= len -> BN_bn2le_padded len b = if mag b <? 256 ^ len then Some (rev (be_bytes (Z.to_nat len) (mag b))) else None.
Proof.
  intros Hb Hl. pose proof (padded_bytes b len Hb Hl) as Hp. cbv zeta in Hp. unfold BN_bn2le_padded.
  destruct (_ && _); [destruct (Z.ltb_spec (mag b) (256 ^ len)); [lia|reflexivity]|]. destruct Hp as [Hlt ->].
  rewrite (proj2 (Z.ltb_lt _ _) Hlt). reflexivity.
Qed.

Lemma BN_bn2bin_padded_spec b len :
  bn_ok b -> 0 <= len -> BN_bn2bin_padded len b = if mag b <? 256 ^ len then Some (be_bytes (Z.to_nat len) (mag b)) else None.
Proof.
  intros Hb Hl. pose proof (padded_bytes b len Hb Hl) as Hp. cbv zeta in Hp. unfold BN_bn2bin_padded.
  destruct (_ && _); [destruct (Z.ltb_spec (mag b) (256 ^ len)); [lia|reflexivity]|]. destruct Hp as [Hlt E].
  rewrite (proj2 (Z.ltb_lt _ _) Hlt). f_equal. apply (f_equal (@rev Z)) in E. rewrite rev_involutive, rev_app_distr, rev_zrep in E. exact E.
Qed.
End Proofs.

(** * Properties *)

(** C40: The absolute value survives every conversion to bytes and back: the
    minimal form has no leading zero byte, the padded forms have exactly the length
    asked for and are refused only when the number does not fit, and reading the
    bytes into a new or non-negative number gives the absolute value again. *)
Theorem bn_bytes_roundtrip `{Malloc} (a r : BIGNUM) (h : heap) (len : Z) :
  bn_ok a -> bn_ok r -> neg r = 0 -> 0 <= len ->
  let v := Z.abs (value a) in
  let out := BN_bn2bin a in
  zlen out = BN_num_bytes a /\ be_val out = v /\ (out = [] \/ exists b l, out = b :: l /\ b <> 0) /\
  BN_bn2bin_padded len a = (if v <? 256 ^ len then Some (be_bytes (Z.to_nat len) v) else None) /\
  BN_bn2le_padded len a = (if v <? 256 ^ len then Some (rev (be_bytes (Z.to_nat len) v)) else None) /\
  (forall ret_, ret_ = None \/ ret_ = Some r ->
     (forall r' h', BN_bin2bn out ret_ h = (Some r', h') -> value r' = v) /\
     (forall k r' h', 0 <= k -> v < 256 ^ k -> BN_bin2bn (be_bytes (Z.to_nat k) v) ret_ h = (Some r', h') -> value r' = v) /\
     (forall k r' h', 0 <= k -> v < 256 ^ k -> BN_le2bn (rev (be_bytes (Z.to_nat k) v)) ret_ h = (Some r', h') -> value r' = v)).
Proof.
  intros Ha [Hr _] Hn Hl. cbv zeta. rewrite <- (mag_value a (proj1 Ha)). pose proof (mag_bound a (proj1 Ha)) as Hm.
  destruct (BN_num_bytes_spec a Ha) as (Hn0 & Hlt & Hz & Hnz). rewrite BN_bn2bin_spec by exact Ha. set (n := BN_num_bytes a) in *.
  assert (Hv : forall k, 0 <= k -> mag a < 256 ^ k -> be_val (be_bytes (Z.to_nat k) (mag a)) = mag a).
  { intros k Hk Hlt'. rewrite be_val_bytes, Z2Nat.id, Z.mod_small by lia. reflexivity. }
  split; [rewrite zlen_be_bytes; lia|]. split; [apply Hv; lia|]. split.
  { destruct (Z.eq_dec (mag a) 0) as [E|E]; [left; rewrite (Hz E); reflexivity|right]. destruct (Hnz E) as [Hpos Hge].
    replace (Z.to_nat n) with (S (Z.to_nat (n - 1))) by lia. rewrite be_bytes_first. eexists _, _. split; [reflexivity|].
    rewrite Z2Nat.id by lia. assert (Hp : 0 < 256 ^ (n - 1)) by (apply Z.pow_pos_nonneg; lia).
    assert (1 <= mag a / 256 ^ (n - 1) < 256); [|rewrite Z.mod_small; lia].
    split; [apply Z.div_le_lower_bound; lia|]. apply Z.div_lt_upper_bound; [lia|]. replace n with (1 + (n - 1)) in Hlt by lia.
    rewrite Z.pow_add_r in Hlt by lia. change (256 ^ 1) with 256 in Hlt. lia. }
  split; [apply BN_bn2bin_padded_spec; assumption|]. split; [apply BN_bn2le_padded_spec; assumption|].
  intros ret_ Hret. assert (Hshape : forall r0, ret_ = Some r0 -> bn_shape r0) by (intros r0 E; destruct Hret; congruence).
  assert (Hneg : neg (target ret_) = 0) by (destruct Hret as [-> | ->]; [reflexivity|exact Hn]).
  assert (Hbin : forall k r' h', 0 <= k -> mag a < 256 ^ k -> BN_bin2bn (be_bytes (Z.to_nat k) (mag a)) ret_ h = (Some r', h') -> value r' = mag a).
  { intros k r' h' Hk Hk' E. pose proof (BN_bin2bn_spec _ ret_ h Hshape (be_bytes_ok (Z.to_nat k) (mag a))) as Hs. rewrite E in Hs.
    destruct Hs as (_ & Em & En). rewrite value_neg0; [rewrite Em; apply Hv; assumption|]. rewrite En. destruct (_ =? 0); [exact Hneg|reflexivity]. }
  split; [intros r' h'; apply Hbin; lia|]. split; [exact Hbin|].
  intros k r' h' Hk Hk' E. pose proof (BN_le2bn_spec _ ret_ h Hshape (Forall_rev (be_bytes_ok (Z.to_nat k) (mag a)))) as Hs. rewrite E in Hs.
  destruct Hs as (_ & Em & En). rewrite value_neg0.
  - rewrite Em. unfold le_val. rewrite rev_involutive. apply Hv; assumption.
  - rewrite En. destruct (_ =? 0); [reflexivity|exact Hneg].
Qed.

(** [-258]. *)
Definition bn_bytes_sample : BIGNUM := {| d := [258; 0]; width := 2; dmax := 2; neg := 1; flags := 0 |}.

Lemma bn_bytes_sample_ok : bn_ok bn_bytes_sample.
Proof.
  split; [constructor; cbn; try reflexivity; try lia; [unfold BN_MAX_WORDS; lia|repeat constructor; lia]|].
  right. split; [reflexivity|]. vm_compute. discriminate.
Qed.

Lemma bn_bytes_roundtrip_witness :
  BN_bn2bin_padded 3 bn_bytes_sample = Some [0; 1; 2] /\ BN_bn2le_padded 1 bn_bytes_sample = None /\ be_val (BN_bn2bin bn_bytes_sample) = 258.
Proof.
  destruct (@bn_bytes_roundtrip unlimited bn_bytes_sample BN_init tt 3 bn_bytes_sample_ok BN_init_ok eq_refl ltac:(lia)) as (_ & Hv & _ & Hp & _).
  destruct (@bn_bytes_roundtrip unlimited bn_bytes_sample BN_init tt 1 bn_bytes_sample_ok BN_init_ok eq_refl ltac:(lia)) as (_ & _ & _ & _ & Hl & _).
  split; [rewrite Hp; vm_compute; reflexivity|]. split; [rewrite Hl; vm_compute; reflexivity|]. rewrite Hv. vm_compute. reflexivity.
Defined.

(** The readers do not always reset the sign: [BN_le2bn] into a negative number
    gives minus the number in the bytes, and [BN_bin2bn] of no bytes into a negative
    number gives a zero that is marked as negative. *)
Theorem bn_readers_keep_the_sign `{Malloc} (r : BIGNUM) (l : list Z) (h : heap) :
  bn_ok r -> neg r = 1 -> bytes_ok l -> 0 < zlen l ->
  (forall r' h', BN_le2bn l (Some r) h = (Some r', h') -> value r' = - le_val l) /\
  (exists r', BN_bin2bn [] (Some r) h = (Some r', h) /\ value r' = 0 /\ BN_is_negative r' = true).
Proof.
  intros [Hr _] Hn Hl Hlen. assert (Hshape : forall r0, Some r = Some r0 -> bn_shape r0) by (intros r0 E; congruence). split.
  - intros r' h' E. pose proof (BN_le2bn_spec l (Some r) h Hshape Hl) as Hs. rewrite E in Hs. destruct Hs as (_ & Em & En).
    cbn [target] in En. destruct (Z.eqb_spec (zlen l) 0); [lia|]. unfold value. rewrite En, Hn. cbn [Z.eqb]. rewrite Em. reflexivity.
  - exists (set_width 0 r). split; [reflexivity|]. unfold value, BN_is_negative. cbn [neg set_width]. rewrite Hn. split; reflexivity.
Qed.

Lemma bn_readers_keep_the_sign_witness :
  match @BN_le2bn unlimited [7; 1] (Some bn_bytes_sample) tt with
  | (Some r', _) => value r' = -263
  | _ => False
  end.
Proof.
  destruct (@bn_readers_keep_the_sign unlimited bn_bytes_sample [7; 1] tt bn_bytes_sample_ok eq_refl) as [Hle _].
  - repeat constructor; unfold byte_ok; lia.
  - reflexivity.
  - assert (E : fst (@BN_le2bn unlimited [7; 1] (Some bn_bytes_sample) tt) <> None) by (vm_compute; discriminate).
    destruct (@BN_le2bn unlimited [7; 1] (Some bn_bytes_sample) tt) as [[r'|] h']; [|contradiction]. apply (Hle r' h' eq_refl).
Defined.
