(* ===== verification/LdbCoding.v ===== *)
(** leveldb/util/coding.{h,cc}: fixed-width and variable-length integers and
    length-prefixed strings, the encodings that every file of the database uses.

    A range [p, limit) and a [Slice] are the list of bytes they span.  A function
    that moves an input [Slice] is a computation on that list, so that a failing
    call says what it leaves; a pointer-based function returns what follows the
    bytes it read.  A function that writes through a pointer, or appends to a
    string, returns the bytes it writes. *)
From Stdlib Require Import ZArith Lia.
From stdpp Require Import base list numbers.
From S2P Require Import Prelude.

Open Scope Z_scope.
Open Scope c_scope.

(** What the build says about the machine. *)
Class Port := { kLittleEndian : bool }.

(** The bytes of an object of [n] bytes in memory. *)
Definition memory_bytes {P : Port} (n : nat) (v : Z) : list Z :=
  if kLittleEndian then le_bytes n v else be_bytes n v.
Definition memory_value {P : Port} (l : list Z) : Z :=
  if kLittleEndian then le_val l else be_val l.

(** * The code *)

Section Code.
Context {P : Port}.

Definition EncodeFixed32 (value : Z) : list Z :=
  if kLittleEndian then memory_bytes 4 value
  else [Z.land value 255; Z.land (Z.shiftr value 8) 255; Z.land (Z.shiftr value 16) 255;
        Z.land (Z.shiftr value 24) 255].

Definition EncodeFixed64 (value : Z) : list Z :=
  if kLittleEndian then memory_bytes 8 value
  else [Z.land value 255; Z.land (Z.shiftr value 8) 255; Z.land (Z.shiftr value 16) 255;
        Z.land (Z.shiftr value 24) 255; Z.land (Z.shiftr value 32) 255;
        Z.land (Z.shiftr value 40) 255; Z.land (Z.shiftr value 48) 255;
        Z.land (Z.shiftr value 56) 255].

Definition PutFixed32 (dst : list Z) (value : Z) : list Z := dst ++ EncodeFixed32 value.
Definition PutFixed64 (dst : list Z) (value : Z) : list Z := dst ++ EncodeFixed64 value.

(** The functions look at the first four, or eight, bytes only. *)
Definition DecodeFixed32 (ptr : list Z) : Z :=
  if kLittleEndian then memory_value (ztake 4 ptr)
  else Z.lor (Z.lor (Z.lor (znth 0 0 ptr) (Z.shiftl (znth 0 1 ptr) 8)) (Z.shiftl (znth 0 2 ptr) 16))
             (Z.shiftl (znth 0 3 ptr) 24).

Definition DecodeFixed64 (ptr : list Z) : Z :=
  if kLittleEndian then memory_value (ztake 8 ptr)
  else let lo := DecodeFixed32 ptr in
       let hi := DecodeFixed32 (zdrop 4 ptr) in
       Z.lor (Z.shiftl hi 32) lo.
End Code.

Definition EncodeVarint32 (v : Z) : list Z :=
  let B := 128 in
  if v <? Z.shiftl 1 7 then [u8 v]
  else if v <? Z.shiftl 1 14 then [u8 (Z.lor v B); u8 (Z.shiftr v 7)]
  else if v <? Z.shiftl 1 21 then [u8 (Z.lor v B); u8 (Z.lor (Z.shiftr v 7) B); u8 (Z.shiftr v 14)]
  else if v <? Z.shiftl 1 28 then
    [u8 (Z.lor v B); u8 (Z.lor (Z.shiftr v 7) B); u8 (Z.lor (Z.shiftr v 14) B); u8 (Z.shiftr v 21)]
  else [u8 (Z.lor v B); u8 (Z.lor (Z.shiftr v 7) B); u8 (Z.lor (Z.shiftr v 14) B);
        u8 (Z.lor (Z.shiftr v 21) B); u8 (Z.shiftr v 28)].

Definition PutVarint32 (dst : list Z) (v : Z) : list Z := dst ++ EncodeVarint32 v.

(** The loop of [EncodeVarint64]; each round shifts [v] right by seven bits. *)
Fixpoint EncodeVarint64_loop (fuel : nat) (v : Z) : list Z :=
  let B := 128 in
  match fuel with
  | O => [u8 v]
  | S fuel =>
    if B <=? v then u8 (Z.lor v B) :: EncodeVarint64_loop fuel (Z.shiftr v 7) else [u8 v]
  end.

(** Ten rounds are more than a 64-bit number needs. *)
Definition EncodeVarint64 (v : Z) : list Z := EncodeVarint64_loop 10 v.

Definition PutVarint64 (dst : list Z) (v : Z) : list Z := dst ++ EncodeVarint64 v.

Definition PutLengthPrefixedSlice (dst value : list Z) : list Z :=
  PutVarint32 dst (u32 (zlen value)) ++ value.

Fixpoint VarintLength_loop (fuel : nat) (v len : Z) : Z :=
  match fuel with
  | O => len
  | S fuel => if 128 <=? v then VarintLength_loop fuel (Z.shiftr v 7) (len + 1) else len
  end.

Definition VarintLength (v : Z) : Z := VarintLength_loop 10 v 1.

(** The loop of [GetVarint32PtrFallback] and of [GetVarint64Ptr], with the width
    and the last shift of each; the result is the value and what follows it. *)
Fixpoint GetVarint_loop (trunc : Z -> Z) (last : Z) (p : list Z) (shift result : Z) : option (Z * list Z) :=
  if shift <=? last then
    match p with
    | [] => None
    | byte :: p =>
      if negb (Z.land byte 128 =? 0)
      then GetVarint_loop trunc last p (shift + 7) (Z.lor result (trunc (Z.shiftl (Z.land byte 127) shift)))
      else Some (Z.lor result (trunc (Z.shiftl byte shift)), p)
    end
  else None.

Definition GetVarint32PtrFallback (p : list Z) : option (Z * list Z) := GetVarint_loop u32 28 p 0 0.

Definition GetVarint32Ptr (p : list Z) : option (Z * list Z) :=
  match p with
  | result :: q => if Z.land result 128 =? 0 then Some (result, q) else GetVarint32PtrFallback p
  | [] => GetVarint32PtrFallback p
  end.

Definition GetVarint64Ptr (p : list Z) : option (Z * list Z) := GetVarint_loop u64 63 p 0 0.

Definition GetVarint32 : M (list Z) Z := fun input =>
  match GetVarint32Ptr input with
  | None => (None, input)
  | Some (value, q) => (Some value, q)
  end.

Definition GetVarint64 : M (list Z) Z := fun input =>
  match GetVarint64Ptr input with
  | None => (None, input)
  | Some (value, q) => (Some value, q)
  end.

(** [GetLengthPrefixedSlice] on a range: the string and what follows it. *)
Definition GetLengthPrefixedSlicePtr (p : list Z) : option (list Z * list Z) :=
  match GetVarint32Ptr p with
  | None => None
  | Some (len, p) => if zlen p <? len then None else Some (ztake len p, zdrop len p)
  end.

Definition GetLengthPrefixedSlice : M (list Z) (list Z) :=
  let* len := GetVarint32 in
  let* input := get in
  if len <=? zlen input then fun _ => (Some (ztake len input), zdrop len input) else fail.

(** * Fixed width *)

#[export] Instance big : Port := {| kLittleEndian := false |}.
#[export] Instance little : Port := {| kLittleEndian := true |}.

Lemma land_255 x : Z.land x 255 = x mod 256.
Proof. apply (land_mask 8). lia. Qed.

Lemma land_127 x : Z.land x 127 = x mod 128.
Proof. apply (land_mask 7). lia. Qed.

Section Fixed.
Context {P : Port}.

Lemma EncodeFixed32_le v : EncodeFixed32 v = le_bytes 4 v.
Proof.
  unfold EncodeFixed32, memory_bytes. destruct kLittleEndian; [reflexivity|].
  rewrite !land_255, !Z.shiftr_div_pow2 by lia. cbn [le_bytes]. rewrite !Z.div_div by lia. reflexivity.
Qed.

Lemma EncodeFixed64_le v : EncodeFixed64 v = le_bytes 8 v.
Proof.
  unfold EncodeFixed64, memory_bytes. destruct kLittleEndian; [reflexivity|].
  rewrite !land_255, !Z.shiftr_div_pow2 by lia. cbn [le_bytes]. rewrite !Z.div_div by lia. reflexivity.
Qed.

Lemma DecodeFixed32_le p : bytes_ok p -> 4 <= zlen p -> DecodeFixed32 p = le_val (ztake 4 p).
Proof.
  intros Hp Hl. unfold DecodeFixed32, memory_value. destruct kLittleEndian; [reflexivity|].
  destruct p as [|a [|b [|c [|d p]]]]; [autorewrite with zlen in Hl; lia..|].
  repeat (apply bytes_ok_cons in Hp as [? Hp]). unfold byte_ok in *.
  change (ztake 4 (a :: b :: c :: d :: p)) with [a; b; c; d]. rewrite !le_val_cons. change (le_val []) with 0.
  change (znth 0 0 (a :: b :: c :: d :: p)) with a. change (znth 0 1 (a :: b :: c :: d :: p)) with b.
  change (znth 0 2 (a :: b :: c :: d :: p)) with c. change (znth 0 3 (a :: b :: c :: d :: p)) with d.
  rewrite (lor_shiftl_add 8) by lia. rewrite (lor_shiftl_add 16) by lia. rewrite (lor_shiftl_add 24) by lia. lia.
Qed.

Lemma DecodeFixed64_le p : bytes_ok p -> 8 <= zlen p -> DecodeFixed64 p = le_val (ztake 8 p).
Proof.
  intros Hp Hl. unfold DecodeFixed64. destruct kLittleEndian eqn:E; [unfold memory_value; rewrite E; reflexivity|].
  destruct (zcut 4 4 p) as (u & m & s & -> & Hu & Hm); [lia..|].
  apply bytes_ok_app in Hp as [Hu' Hp]. pose proof Hp as Hms. apply bytes_ok_app in Hp as [Hm' Hs].
  rewrite !DecodeFixed32_le by (rewrite ?zdrop_app_eq by lia; autorewrite with zlen; rewrite ?bytes_ok_app;
    pose proof (zlen_nonneg s); auto; lia).
  rewrite zdrop_app_eq, (ztake_app_eq 4 m), (ztake_app_eq 4 u) by lia.
  rewrite (app_assoc u m s), (ztake_app_eq 8) by (autorewrite with zlen; lia). rewrite le_val_app, Hu.
  pose proof (le_val_bound u Hu') as Hb. rewrite Hu in Hb. rewrite (shiftl_lor_add 32) by lia. lia.
Qed.

Lemma DecodeFixed32_Encode v s : 0 <= v < 2 ^ 32 -> bytes_ok s -> DecodeFixed32 (EncodeFixed32 v ++ s) = v.
Proof.
  intros Hv Hs. rewrite EncodeFixed32_le. rewrite DecodeFixed32_le.
  - rewrite ztake_app_eq by (rewrite zlen_le_bytes; lia). rewrite le_val_bytes. apply Z.mod_small. exact Hv.
  - apply bytes_ok_app. auto with bytes.
  - autorewrite with zlen. pose proof (zlen_nonneg s). lia.
Qed.

Lemma DecodeFixed64_Encode v s : 0 <= v < 2 ^ 64 -> bytes_ok s -> DecodeFixed64 (EncodeFixed64 v ++ s) = v.
Proof.
  intros Hv Hs. rewrite EncodeFixed64_le. rewrite DecodeFixed64_le.
  - rewrite ztake_app_eq by (rewrite zlen_le_bytes; lia). rewrite le_val_bytes. apply Z.mod_small. exact Hv.
  - apply bytes_ok_app. auto with bytes.
  - autorewrite with zlen. pose proof (zlen_nonneg s). lia.
Qed.

Lemma zlen_EncodeFixed32 v : zlen (EncodeFixed32 v) = 4.
Proof. rewrite EncodeFixed32_le. apply zlen_le_bytes. Qed.

Lemma zlen_EncodeFixed64 v : zlen (EncodeFixed64 v) = 8.
Proof. rewrite EncodeFixed64_le. apply zlen_le_bytes. Qed.

Lemma EncodeFixed32_ok v : bytes_ok (EncodeFixed32 v).
Proof. rewrite EncodeFixed32_le. auto with bytes. Qed.

Lemma EncodeFixed64_ok v : bytes_ok (EncodeFixed64 v).
Proof. rewrite EncodeFixed64_le. auto with bytes. Qed.

Lemma DecodeFixed32_range p : bytes_ok p -> 4 <= zlen p -> 0 <= DecodeFixed32 p < 2 ^ 32.
Proof.
  intros Hp Hl. rewrite DecodeFixed32_le by auto.
  pose proof (le_val_bound (ztake 4 p) (bytes_ok_ztake 4 p Hp)) as Hb. rewrite zlen_ztake in Hb by lia. exact Hb.
Qed.

(** An array of numbers of 32 bits. *)
Lemma zlen_fixed (l : list Z) : zlen (concat (map EncodeFixed32 l)) = 4 * zlen l.
Proof. induction l as [|x l IH]; [reflexivity|]. cbn [map concat]. rewrite zlen_app, zlen_EncodeFixed32, IH, zlen_cons. lia. Qed.

Lemma fixed_ok (l : list Z) : bytes_ok (concat (map EncodeFixed32 l)).
Proof. induction l as [|x l IH]; [constructor|]. cbn [map concat]. apply bytes_ok_app. split; [apply EncodeFixed32_ok|exact IH]. Qed.

Lemma foldl_PutFixed32 l : forall dst, foldl PutFixed32 dst l = dst ++ concat (map EncodeFixed32 l).
Proof. induction l as [|x l IH]; intros dst; [cbn; rewrite app_nil_r; reflexivity|]. cbn [foldl map concat]. rewrite IH. unfold PutFixed32. rewrite <- app_assoc. reflexivity. Qed.

Lemma DecodeFixed32_nth l i v s : 0 <= i -> l !! Z.to_nat i = Some v -> 0 <= v < 2 ^ 32 -> bytes_ok s -> DecodeFixed32 (zdrop (i * 4) (concat (map EncodeFixed32 l) ++ s)) = v.
Proof.
  intros Hi Hl Hv Hs. apply list_elem_of_split_length in Hl as (l1 & l2 & -> & El). rewrite map_app, concat_app. cbn [map concat].
  replace (i * 4) with (zlen (concat (map EncodeFixed32 l1))) by (rewrite zlen_fixed; unfold zlen; lia). rewrite <- !app_assoc, zdrop_app.
  apply DecodeFixed32_Encode; [exact Hv|]. apply bytes_ok_app. split; [apply fixed_ok|exact Hs].
Qed.
End Fixed.

#[export] Hint Rewrite @zlen_EncodeFixed32 @zlen_EncodeFixed64 : zlen.
#[export] Hint Resolve EncodeFixed32_ok EncodeFixed64_ok : bytes.

(** * Variable length *)

(** The specification: seven bits a byte, least significant first; all bytes but
    the last have their top bit set. *)
Fixpoint varint (l : list Z) : bool :=
  match l with
  | [] => false
  | b :: l => match l with [] => b <? 128 | _ => (128 <=? b) && varint l end
  end.

Fixpoint varint_val (l : list Z) : Z :=
  match l with
  | [] => 0
  | b :: l => b mod 128 + 128 * varint_val l
  end.

(** The varint of at most [n] bytes in front of [p], and what follows it. *)
Fixpoint varint_split (n : nat) (p : list Z) : option (list Z * list Z) :=
  match n, p with
  | S n, b :: p =>
    if b <? 128 then Some ([b], p)
    else match varint_split n p with Some (e, r) => Some (b :: e, r) | None => None end
  | _, _ => None
  end.

Lemma varint_cons b l : varint (b :: l) = true -> l <> [] -> 128 <= b /\ varint l = true.
Proof.
  cbn [varint]. destruct l as [|c l]; [congruence|]. intros Hv _. apply andb_prop in Hv as [Hb Hv].
  split; [lia|exact Hv].
Qed.

Lemma varint_split_Some n p e r :
  varint_split n p = Some (e, r) <-> p = e ++ r /\ varint e = true /\ zlen e <= Z.of_nat n.
Proof.
  revert p e r. induction n as [|n IH]; intros [|b p] e r; cbn [varint_split].
  - split; [discriminate|]. intros (E & He & Hl). destruct e; [discriminate|]. autorewrite with zlen in Hl.
    pose proof (zlen_nonneg e). lia.
  - split; [discriminate|]. intros (E & He & Hl). destruct e; [discriminate|]. autorewrite with zlen in Hl.
    pose proof (zlen_nonneg e). lia.
  - split; [discriminate|]. intros (E & He & Hl). destruct e; discriminate.
  - destruct (Z.ltb_spec b 128) as [Hb|Hb].
    + split.
      * intros [= <- <-]. cbn [app varint]. rewrite (proj2 (Z.ltb_lt b 128) Hb). autorewrite with zlen. auto with lia.
      * intros (E & He & Hl). destruct e as [|c e]; [discriminate|]. injection E as <- ->.
        destruct e as [|d e]; [reflexivity|]. apply varint_cons in He as [? _]; [lia|discriminate].
    + destruct (varint_split n p) as [[e' r']|] eqn:E'.
      * apply IH in E' as (-> & He' & Hl'). split.
        -- intros [= <- <-]. split; [reflexivity|]. split; [|autorewrite with zlen; lia].
           destruct e' as [|c e']; [discriminate|]. cbn [varint] in *. rewrite He'. replace (128 <=? b) with true by (symmetry; apply Z.leb_le; lia).
           reflexivity.
        -- intros (E & He & Hl). destruct e as [|c e]; [discriminate|]. injection E as <- E.
           assert (Hne : e <> []) by (intros ->; cbn [varint] in He; lia).
           apply varint_cons in He as [_ He]; [|exact Hne]. autorewrite with zlen in Hl.
           assert (varint_split n (e' ++ r') = Some (e, r)) as H by (apply IH; split; [exact E|split; [exact He|lia]]).
           assert (varint_split n (e' ++ r') = Some (e', r')) as H' by (apply IH; split; [reflexivity|split; [exact He'|lia]]).
           rewrite H in H'. injection H' as -> ->. reflexivity.
      * split; [discriminate|]. intros (E & He & Hl). destruct e as [|c e]; [discriminate|]. injection E as <- ->.
        assert (Hne : e <> []) by (intros ->; cbn [varint] in He; lia).
        apply varint_cons in He as [_ He]; [|exact Hne]. autorewrite with zlen in Hl.
        assert (varint_split n (e ++ r) = Some (e, r)) as H by (apply IH; split; [reflexivity|split; [exact He|lia]]).
        congruence.
Qed.

Lemma varint_val_nonneg e : 0 <= varint_val e.
Proof. induction e as [|b e IH]; cbn [varint_val]; [lia|dlia]. Qed.

(** One round: the seven new bits do not meet the ones there are. *)
Lemma varint_round w shift result c :
  0 <= shift <= w -> 0 <= result < 2 ^ shift -> 0 <= c ->
  Z.lor result (Z.shiftl c shift mod 2 ^ w) = (result + 2 ^ shift * c) mod 2 ^ w.
Proof.
  intros Hs Hr Hc. assert (Hw : 2 ^ w = 2 ^ shift * 2 ^ (w - shift)) by (rewrite <- Z.pow_add_r by lia; f_equal; lia).
  assert (0 < 2 ^ shift) by lia. assert (0 < 2 ^ (w - shift)) by lia.
  rewrite Z.shiftl_mul_pow2 by lia. rewrite Hw at 1. rewrite (Z.mul_comm c), Z.mul_mod_distr_l by lia.
  rewrite (Z.mul_comm (2 ^ shift) (c mod _)), <- Z.shiftl_mul_pow2 by lia. rewrite lor_shiftl_add by lia.
  rewrite Hw, Z.rem_mul_r by lia.
  replace ((result + 2 ^ shift * c) mod 2 ^ shift) with result
    by (rewrite (Z.mul_comm (2 ^ shift)), Z.mod_add, Z.mod_small; lia).
  replace ((result + 2 ^ shift * c) / 2 ^ shift) with c by (rewrite (Z.mul_comm (2 ^ shift)), Z.div_add, Z.div_small; lia).
  lia.
Qed.

Lemma byte_top b : byte_ok b -> (Z.land b 128 =? 0) = (b <? 128).
Proof.
  intros Hb. apply eqb_prop.
  apply (byte_cases (fun b => Bool.eqb (Z.land b 128 =? 0) (b <? 128))); [reflexivity|exact Hb].
Qed.

Lemma GetVarint_loop_split w n last p shift result :
  0 <= shift -> last = shift + 7 * (Z.of_nat n - 1) -> last <= w -> 0 <= result < 2 ^ shift -> bytes_ok p ->
  GetVarint_loop (fun x => x mod 2 ^ w) last p shift result =
  match varint_split n p with
  | Some (e, r) => Some ((result + 2 ^ shift * varint_val e) mod 2 ^ w, r)
  | None => None
  end.
Proof.
  revert p shift result. induction n as [|n IH]; intros p shift result Hs -> Hw Hr Hp.
  - destruct p; cbn [GetVarint_loop varint_split]; rewrite (proj2 (Z.leb_gt _ _)) by lia; reflexivity.
  - destruct p as [|b p]; cbn [GetVarint_loop varint_split]; rewrite (proj2 (Z.leb_le _ _)) by lia; [reflexivity|].
    apply bytes_ok_cons in Hp as [Hb Hp]. rewrite byte_top by exact Hb. unfold byte_ok in Hb.
    destruct (Z.ltb_spec b 128) as [Hb'|Hb']; cbn [negb].
    + rewrite varint_round by lia. cbn [varint_val].
      replace (b mod 128) with b by (rewrite Z.mod_small; lia). do 3 f_equal. lia.
    + rewrite land_127, varint_round by dlia.
      assert (H128 : 2 ^ (shift + 7) = 2 ^ shift * 128) by (rewrite Z.pow_add_r by lia; reflexivity).
      assert (Hlt : result + 2 ^ shift * (b mod 128) < 2 ^ (shift + 7)).
      { rewrite H128. assert (b mod 128 <= 127) by dlia. nia. }
      rewrite IH; [|lia|lia|exact Hw| |exact Hp].
      * destruct (varint_split n p) as [[e r]|]; [|reflexivity]. do 2 f_equal. rewrite Z.add_mod_idemp_l by lia.
        f_equal. cbn [varint_val]. rewrite H128. ring.
      * pose proof (Z.mod_pos_bound (result + 2 ^ shift * (b mod 128)) (2 ^ w) ltac:(lia)).
        pose proof (Z.mod_le (result + 2 ^ shift * (b mod 128)) (2 ^ w)). assert (0 <= b mod 128) by dlia. nia.
Qed.

Lemma GetVarint32Ptr_split p : bytes_ok p ->
  GetVarint32Ptr p = match varint_split 5 p with Some (e, r) => Some (varint_val e mod 2 ^ 32, r) | None => None end.
Proof.
  intros Hp. assert (E : GetVarint32PtrFallback p =
    match varint_split 5 p with Some (e, r) => Some (varint_val e mod 2 ^ 32, r) | None => None end).
  { unfold GetVarint32PtrFallback. change u32 with (fun x => x mod 2 ^ 32).
    rewrite (GetVarint_loop_split 32 5) by (auto; lia).
    destruct (varint_split 5 p) as [[e r]|]; [|reflexivity]. do 3 f_equal. lia. }
  unfold GetVarint32Ptr. destruct p as [|b p]; [exact E|]. apply bytes_ok_cons in Hp as [Hb Hp].
  rewrite byte_top by exact Hb. destruct (b <? 128) eqn:Hb'; [|exact E].
  cbn [varint_split]. rewrite Hb'. cbn [varint_val]. unfold byte_ok in Hb. do 2 f_equal.
  rewrite !Z.mod_small; try rewrite Z.mod_small; lia.
Qed.

Lemma GetVarint64Ptr_split p : bytes_ok p ->
  GetVarint64Ptr p = match varint_split 10 p with Some (e, r) => Some (varint_val e mod 2 ^ 64, r) | None => None end.
Proof.
  intros Hp. unfold GetVarint64Ptr. change u64 with (fun x => x mod 2 ^ 64).
  rewrite (GetVarint_loop_split 64 10) by (auto; lia).
  destruct (varint_split 10 p) as [[e r]|]; [|reflexivity]. do 3 f_equal. lia.
Qed.

(** ** Writing *)

Lemma EncodeVarint64_byte v : 0 <= v -> u8 (Z.lor v 128) = 128 + v mod 128.
Proof.
  intros Hv. change 128 with (2 ^ 7) at 1. unfold u8.
  rewrite (Z.div_mod v 256) at 1 by lia. change 256 with (2 ^ 8) at 1. rewrite Z.mul_comm.
  change (2 ^ 7) with (0 * 2 ^ 8 + 128). rewrite lor_split by dlia. rewrite Z.add_comm, Z.lor_0_r.
  change (2 ^ 8) with 256. rewrite Z.mod_add by lia.
  assert (Hb : byte_ok (v mod 256)) by (unfold byte_ok; dlia).
  pose proof (byte_eq (fun b => Z.lor b 128 mod 256) (fun b => 128 + b mod 128) eq_refl _ Hb) as E. cbn beta in E.
  rewrite E. f_equal. apply Z.mod_mod_divide. exists 2. reflexivity.
Qed.

Lemma EncodeVarint64_loop_step fuel v : 0 <= v ->
  EncodeVarint64_loop (S fuel) v =
  if 128 <=? v then (128 + v mod 128) :: EncodeVarint64_loop fuel (v / 128) else [u8 v].
Proof.
  intros Hv. cbn [EncodeVarint64_loop]. rewrite EncodeVarint64_byte, Z.shiftr_div_pow2 by lia. reflexivity.
Qed.

Lemma EncodeVarint64_loop_spec fuel v :
  0 <= v < 128 ^ (Z.of_nat fuel + 1) ->
  let e := EncodeVarint64_loop fuel v in
  varint e = true /\ varint_val e = v /\ bytes_ok e /\ zlen e = VarintLength_loop fuel v 1 /\
  zlen e <= Z.of_nat fuel + 1 /\ 1 <= zlen e /\ (2 <= zlen e -> 128 ^ (zlen e - 1) <= v).
Proof.
  revert v. induction fuel as [|fuel IH]; intros v Hv e.
  - change (128 ^ (Z.of_nat 0 + 1)) with 128 in Hv. unfold e. cbn [EncodeVarint64_loop VarintLength_loop].
    rewrite u8_small by (unfold byte_ok; lia). cbn [varint varint_val]. autorewrite with zlen.
    rewrite Z.mod_small by lia. split_and!; try lia. constructor; [unfold byte_ok; lia|constructor].
  - unfold e. rewrite EncodeVarint64_loop_step by lia. cbn [VarintLength_loop]. destruct (Z.leb_spec 128 v) as [Hb|Hb].
    + assert (Hv' : 0 <= v / 128 < 128 ^ (Z.of_nat fuel + 1)).
      { rewrite Nat2Z.inj_succ, Z.add_1_r, Z.pow_succ_r in Hv by lia. rewrite Z.add_1_r in *. unfold Z.succ in *. dlia. }
      specialize (IH _ Hv'). cbn zeta in IH. set (e' := EncodeVarint64_loop fuel (v / 128)) in *.
      destruct IH as (Hvar & Hval & Hok & Hlen & Hmax & Hmin & Hbig).
      assert (HL : forall fuel v len, VarintLength_loop fuel v len = len - 1 + VarintLength_loop fuel v 1).
      { clear. induction fuel as [|fuel IH]; intros v len; cbn [VarintLength_loop]; [lia|].
        destruct (128 <=? v); [|lia]. rewrite IH. rewrite (IH _ (1 + 1)). lia. }
      rewrite Z.shiftr_div_pow2 by lia. change (2 ^ 7) with 128. rewrite (HL _ _ (1 + 1)).
      autorewrite with zlen. assert (Hne : e' <> []) by (intros E; rewrite E in Hmin; autorewrite with zlen in Hmin; lia).
      split_and!; try lia.
      * cbn [varint]. destruct e' as [|c e']; [congruence|]. rewrite Hvar. replace (128 <=? 128 + v mod 128) with true by (symmetry; apply Z.leb_le; dlia).
        reflexivity.
      * cbn [varint_val]. rewrite Hval. dlia.
      * apply bytes_ok_cons. split; [unfold byte_ok; dlia|exact Hok].
      * intros _. replace (1 + zlen e' - 1) with (Z.succ (zlen e' - 1)) by lia. rewrite Z.pow_succ_r by lia.
        destruct (Z.eq_dec (zlen e') 1) as [->|Hn]; [cbn; lia|]. specialize (Hbig ltac:(lia)). dlia.
    + rewrite u8_small by (unfold byte_ok; lia). cbn [varint varint_val]. autorewrite with zlen.
      rewrite Z.mod_small by lia. split_and!; try lia. constructor; [unfold byte_ok; lia|constructor].
Qed.

(** The unrolled writer is the loop. *)
Lemma EncodeVarint32_64 v : 0 <= v < 2 ^ 32 -> EncodeVarint32 v = EncodeVarint64 v.
Proof.
  intros Hv. unfold EncodeVarint32, EncodeVarint64. rewrite !Z.shiftl_mul_pow2 by lia. rewrite !Z.shiftr_div_pow2 by lia.
  change (1 * 2 ^ 7) with 128. change (1 * 2 ^ 14) with (128 * 128). change (1 * 2 ^ 21) with (128 * 128 * 128).
  change (1 * 2 ^ 28) with (128 * 128 * 128 * 128). change (2 ^ 7) with 128. change (2 ^ 14) with (128 * 128).
  change (2 ^ 21) with (128 * 128 * 128). change (2 ^ 28) with (128 * 128 * 128 * 128).
  rewrite <- !(Z.div_div v) by lia. rewrite !EncodeVarint64_byte by dlia.
  destruct (Z.ltb_spec v 128) as [H1|H1].
  { rewrite EncodeVarint64_loop_step, (proj2 (Z.leb_gt 128 v)) by lia. reflexivity. }
  rewrite EncodeVarint64_loop_step, (proj2 (Z.leb_le 128 v)) by lia.
  destruct (Z.ltb_spec v (128 * 128)) as [H2|H2].
  { rewrite EncodeVarint64_loop_step, (proj2 (Z.leb_gt 128 _)) by dlia. reflexivity. }
  rewrite EncodeVarint64_loop_step, (proj2 (Z.leb_le 128 _)) by dlia.
  destruct (Z.ltb_spec v (128 * 128 * 128)) as [H3|H3].
  { rewrite EncodeVarint64_loop_step, (proj2 (Z.leb_gt 128 _)) by dlia. reflexivity. }
  rewrite EncodeVarint64_loop_step, (proj2 (Z.leb_le 128 _)) by dlia.
  destruct (Z.ltb_spec v (128 * 128 * 128 * 128)) as [H4|H4].
  { rewrite EncodeVarint64_loop_step, (proj2 (Z.leb_gt 128 _)) by dlia. reflexivity. }
  rewrite EncodeVarint64_loop_step, (proj2 (Z.leb_le 128 _)) by dlia.
  rewrite EncodeVarint64_loop_step, (proj2 (Z.leb_gt 128 _)) by dlia. reflexivity.
Qed.

Lemma varint_val_bound e : varint_val e < 128 ^ zlen e.
Proof.
  induction e as [|b e IH]; cbn [varint_val]; [reflexivity|]. rewrite zlen_cons, Z.add_comm.
  pose proof (zlen_nonneg e). rewrite Z.pow_add_r by lia. change (128 ^ 1) with 128. dlia.
Qed.

(** What a writer of [v] writes: a varint for [v], the shortest, as long as
    [VarintLength] says. *)
Lemma EncodeVarint64_spec v : 0 <= v < 2 ^ 64 ->
  let e := EncodeVarint64 v in
  varint e = true /\ varint_val e = v /\ bytes_ok e /\ zlen e = VarintLength v /\ 1 <= zlen e <= 10 /\
  (v < 2 ^ 32 -> zlen e <= 5) /\ (forall e', e' <> [] -> varint_val e' = v -> zlen e <= zlen e').
Proof.
  intros Hv e. unfold e, EncodeVarint64. destruct (EncodeVarint64_loop_spec 10 v) as (H1 & H2 & H3 & H4 & H5 & H6 & H7).
  { change (Z.of_nat 10 + 1) with 11. lia. }
  set (e0 := EncodeVarint64_loop 10 v) in *.
  assert (Hshort : forall k, 0 <= k -> v < 128 ^ k -> 1 <= k -> zlen e0 <= k).
  { intros k Hk Hlt Hk1. destruct (Z.le_gt_cases (zlen e0) k) as [|Hgt]; [assumption|].
    specialize (H7 ltac:(lia)). pose proof (Z.pow_le_mono_r 128 k (zlen e0 - 1) ltac:(lia) ltac:(lia)). lia. }
  split_and!; auto.
  - apply Hshort; lia.
  - intros Hv32. apply Hshort; lia.
  - intros e' Hne <-. assert (1 <= zlen e') by (destruct e'; [congruence|autorewrite with zlen; pose proof (zlen_nonneg e'); lia]).
    apply Hshort; [lia|apply varint_val_bound|lia].
Qed.

Lemma varint_app_split n e r : varint e = true -> zlen e <= Z.of_nat n -> varint_split n (e ++ r) = Some (e, r).
Proof. intros He Hl. apply varint_split_Some. auto. Qed.

Lemma GetVarint32_Encode v s : 0 <= v < 2 ^ 32 -> bytes_ok s -> GetVarint32 (EncodeVarint32 v ++ s) = (Some v, s).
Proof.
  intros Hv Hs. rewrite EncodeVarint32_64 by exact Hv. destruct (EncodeVarint64_spec v ltac:(lia)) as (H1 & H2 & H3 & _ & _ & H5 & _).
  unfold GetVarint32. rewrite GetVarint32Ptr_split by (apply bytes_ok_app; auto).
  rewrite varint_app_split by (auto; apply H5; lia). rewrite H2, Z.mod_small by lia. reflexivity.
Qed.

Lemma GetVarint32Ptr_Encode v s : 0 <= v < 2 ^ 32 -> bytes_ok s -> GetVarint32Ptr (EncodeVarint32 v ++ s) = Some (v, s).
Proof.
  intros Hv Hs. pose proof (GetVarint32_Encode v s Hv Hs) as E. unfold GetVarint32 in E.
  destruct (GetVarint32Ptr (EncodeVarint32 v ++ s)) as [[v' q]|]; congruence.
Qed.

Lemma GetVarint64_Encode v s : 0 <= v < 2 ^ 64 -> bytes_ok s -> GetVarint64 (EncodeVarint64 v ++ s) = (Some v, s).
Proof.
  intros Hv Hs. destruct (EncodeVarint64_spec v Hv) as (H1 & H2 & H3 & _ & [_ H4] & _).
  unfold GetVarint64. rewrite GetVarint64Ptr_split by (apply bytes_ok_app; auto).
  rewrite varint_app_split by auto. rewrite H2, Z.mod_small by lia. reflexivity.
Qed.

Lemma EncodeVarint32_ok v : 0 <= v < 2 ^ 32 -> bytes_ok (EncodeVarint32 v).
Proof. intros Hv. rewrite EncodeVarint32_64 by exact Hv. apply EncodeVarint64_spec. lia. Qed.

Lemma zlen_EncodeVarint32 v : 0 <= v < 2 ^ 32 -> zlen (EncodeVarint32 v) = VarintLength v /\ 1 <= VarintLength v <= 5.
Proof.
  intros Hv. rewrite EncodeVarint32_64 by exact Hv.
  destruct (EncodeVarint64_spec v ltac:(lia)) as (_ & _ & _ & H4 & H5 & H6 & _). specialize (H6 ltac:(lia)). lia.
Qed.

Lemma GetVarint32_inv p v r : bytes_ok p -> GetVarint32 p = (Some v, r) ->
  exists e, p = e ++ r /\ varint e = true /\ zlen e <= 5 /\ v = varint_val e mod 2 ^ 32.
Proof.
  intros Hp. unfold GetVarint32. rewrite GetVarint32Ptr_split by exact Hp.
  destruct (varint_split 5 p) as [[e r']|] eqn:E; [|discriminate]. intros [= <- <-].
  apply varint_split_Some in E as (-> & He & Hl). exists e. auto.
Qed.

Lemma GetLengthPrefixedSlice_Put s r : zlen s < 2 ^ 32 -> bytes_ok s -> bytes_ok r ->
  GetLengthPrefixedSlice (PutLengthPrefixedSlice [] s ++ r) = (Some s, r).
Proof.
  intros Hl Hs Hr. pose proof (zlen_nonneg s). pose proof (zlen_nonneg r).
  unfold GetLengthPrefixedSlice, PutLengthPrefixedSlice, PutVarint32. rewrite u32_small by lia.
  rewrite app_nil_l, <- app_assoc. rewrite (bind_Some _ _ _ _ _ (GetVarint32_Encode (zlen s) (s ++ r) ltac:(lia) (proj2 (bytes_ok_app s r) (conj Hs Hr)))).
  unfold bind, get. rewrite (proj2 (Z.leb_le _ _)) by (autorewrite with zlen; lia). rewrite ztake_app, zdrop_app. reflexivity.
Qed.

Lemma PutLengthPrefixedSlice_app d s : PutLengthPrefixedSlice d s = d ++ PutLengthPrefixedSlice [] s.
Proof. unfold PutLengthPrefixedSlice, PutVarint32. rewrite app_nil_l, app_assoc. reflexivity. Qed.

Lemma PutLengthPrefixedSlice_ok s : zlen s < 2 ^ 32 -> bytes_ok s -> bytes_ok (PutLengthPrefixedSlice [] s).
Proof.
  intros Hl Hs. pose proof (zlen_nonneg s). unfold PutLengthPrefixedSlice, PutVarint32. rewrite u32_small by lia.
  apply bytes_ok_app. split; [apply EncodeVarint32_ok; lia|exact Hs].
Qed.

(** C29: The encodings of the database are exact on every machine.  Numbers of 32 and 64
    bits written with fixed or variable width, and strings with a length prefix,
    are read back from in front of anything, whatever the byte order of the
    machine.  A variable-length number is written in the shortest form, of
    [VarintLength] bytes, the same for both widths; the readers accept exactly
    the varints that are at most five, or ten, bytes long (shortest or not), with
    their value reduced to the width, and otherwise leave the input as it is. *)
Theorem integer_coding_exact (P : Port) (input r : list Z) (v w : Z) :
  bytes_ok input -> bytes_ok r -> 0 <= v < 2 ^ 64 -> 0 <= w < 2 ^ 32 ->
  DecodeFixed32 (EncodeFixed32 w ++ r) = w /\ DecodeFixed64 (EncodeFixed64 v ++ r) = v /\
  GetVarint32 (EncodeVarint32 w ++ r) = (Some w, r) /\ GetVarint64 (EncodeVarint64 v ++ r) = (Some v, r) /\
  (forall s, bytes_ok s -> zlen s < 2 ^ 32 -> GetLengthPrefixedSlice (PutLengthPrefixedSlice [] s ++ r) = (Some s, r)) /\
  EncodeVarint32 w = EncodeVarint64 w /\
  zlen (EncodeVarint64 v) = VarintLength v /\ varint (EncodeVarint64 v) = true /\ varint_val (EncodeVarint64 v) = v /\
  (forall e, varint e = true -> varint_val e = v -> VarintLength v <= zlen e) /\
  (forall x s, GetVarint32 input = (x, s) ->
     match x with
     | Some x => exists e, input = e ++ s /\ varint e = true /\ zlen e <= 5 /\ x = varint_val e mod 2 ^ 32
     | None => s = input /\ forall e q, input = e ++ q -> varint e = true -> 5 < zlen e
     end) /\
  (forall x s, GetVarint64 input = (x, s) ->
     match x with
     | Some x => exists e, input = e ++ s /\ varint e = true /\ zlen e <= 10 /\ x = varint_val e mod 2 ^ 64
     | None => s = input /\ forall e q, input = e ++ q -> varint e = true -> 10 < zlen e
     end).
Proof.
  intros Hi Hr Hv Hw. destruct (EncodeVarint64_spec v Hv) as (H1 & H2 & H3 & H4 & H5 & H6 & H7).
  assert (Hnone : forall n, varint_split n input = None -> forall e q, input = e ++ q -> varint e = true -> Z.of_nat n < zlen e).
  { intros n E e q Eq He. destruct (Z.lt_ge_cases (Z.of_nat n) (zlen e)) as [|Hle]; [assumption|].
    rewrite Eq, varint_app_split in E by auto. discriminate. }
  split_and!; auto using DecodeFixed32_Encode, DecodeFixed64_Encode, GetVarint32_Encode, GetVarint64_Encode, EncodeVarint32_64.
  - intros s Hs Hl. apply GetLengthPrefixedSlice_Put; auto.
  - intros e He Hval. rewrite <- H4. apply H7; [intros ->; discriminate|exact Hval].
  - intros x s. unfold GetVarint32. rewrite GetVarint32Ptr_split by exact Hi.
    destruct (varint_split 5 input) as [[e q]|] eqn:E; intros [= <- <-]; [|split; [reflexivity|exact (Hnone 5%nat E)]].
    apply varint_split_Some in E as (-> & He & Hl). exists e. auto.
  - intros x s. unfold GetVarint64. rewrite GetVarint64Ptr_split by exact Hi.
    destruct (varint_split 10 input) as [[e q]|] eqn:E; intros [= <- <-]; [|split; [reflexivity|exact (Hnone 10%nat E)]].
    apply varint_split_Some in E as (-> & He & Hl). exists e. auto.
Qed.

Lemma integer_coding_exact_witness :
  GetVarint32 ([172; 2] ++ [7]) = (Some 300, [7]) /\ EncodeVarint32 300 = [172; 2] /\
  DecodeFixed32 (P := big) (EncodeFixed32 (P := big) 300 ++ [7]) = 300 /\ zlen (EncodeVarint64 (2 ^ 40)) = VarintLength (2 ^ 40).
Proof.
  destruct (integer_coding_exact big [] [7] (2 ^ 40) 300) as (H1 & _ & H3 & _ & _ & _ & H6 & _).
  - constructor.
  - repeat constructor; unfold byte_ok; lia.
  - lia.
  - lia.
  - exact (conj H3 (conj eq_refl (conj H1 H6))).
Defined.
