(* ===== verification/LdbLog.v ===== *)
(** leveldb/db/log_format.h, log_writer.{h,cc} and log_reader.{h,cc}: the log of
    records that a database can be recovered from after a crash.

    The files are interfaces with the operations of env.h that the log uses; a
    [Status] is whether it is ok.  A [Reader] carries what it has reported.  The
    checksum does not depend on where the bytes are, but the code does: the
    address of the bytes is whatever the interface [Address] says. *)
From Stdlib Require Import ZArith Lia String.
From stdpp Require Import base list numbers.
From S2P Require Import Prelude.
From S2P Require Import LdbCoding.
From S2P Require Import LdbCrc.

Open Scope Z_scope.

#[local] Arguments ztake : simpl never.
#[local] Arguments zdrop : simpl never.
#[local] Arguments zlen : simpl never.

(** * The interfaces *)

Class Address := { addr : list Z -> Z; addr_ok : forall l, 0 <= addr l /\ addr l + 3 < 2 ^ 64 }.

(** include/leveldb/env.h: a file that is written at its end. *)
Class WritableFile (F : Type) := {
  file_Append : list Z -> F -> bool * F;
  file_Flush : F -> bool * F }.

(** What env.h promises: [Append] adds the data, or fails after some of it. *)
Class WritableFileLaws (F : Type) {W : WritableFile F} := {
  contents : F -> list Z;
  Append_contents : forall s f, exists k,
    contents (snd (file_Append s f)) = contents f ++ (if fst (file_Append s f) then s else ztake k s);
  Flush_contents : forall f, contents (snd (file_Flush f)) = contents f }.

(** A file that is read from its start. *)
Class SequentialFile (F : Type) := {
  file_Read : Z -> F -> bool * list Z * F;
  file_Skip : Z -> F -> bool * F }.

(** What env.h promises of a file without errors: [Read] returns [n] bytes, or all
    there are; [Skip] stops at the end. *)
Class SequentialFileLaws (F : Type) {SF : SequentialFile F} := {
  unread : F -> list Z;
  Read_unread : forall n f, 0 <= n ->
    fst (file_Read n f) = (true, ztake n (unread f)) /\ unread (snd (file_Read n f)) = zdrop n (unread f);
  Skip_unread : forall n f, 0 <= n -> fst (file_Skip n f) = true /\ unread (snd (file_Skip n f)) = zdrop n (unread f) }.

(** * The code *)

(** enum RecordType, and what the reader adds to it. *)
Definition kZeroType : Z := 0.
Definition kFullType : Z := 1.
Definition kFirstType : Z := 2.
Definition kMiddleType : Z := 3.
Definition kLastType : Z := 4.
Definition kMaxRecordType : Z := kLastType.
Definition kBlockSize : Z := 32768.
Definition kHeaderSize : Z := 4 + 2 + 1.
Definition kEof : Z := kMaxRecordType + 1.
Definition kBadRecord : Z := kMaxRecordType + 2.

(** A [char] as an [unsigned int]. *)
Definition char_to_uint (b : Z) : Z := if b <? 128 then b else u32 (b - 256).

Section Writing.
Context {P : Port} {A : Address} {F : Type} {W : WritableFile F}.

Record Writer := { dest_ : F; block_offset_ : Z; type_crc_ : list Z }.

Definition InitTypeCrc : list Z := map (fun i => Value (addr [i]) [i]) (seqZ 0 (kMaxRecordType + 1)).

(** The two constructors. *)
Definition new_Writer (dest : F) : Writer :=
  {| dest_ := dest; block_offset_ := 0; type_crc_ := InitTypeCrc |}.
Definition new_Writer_at (dest : F) (dest_length : Z) : Writer :=
  {| dest_ := dest; block_offset_ := dest_length mod kBlockSize; type_crc_ := InitTypeCrc |}.

Definition EmitPhysicalRecord (t : Z) (ptr : list Z) (w : Writer) : bool * Writer :=
  let length := zlen ptr in
  let crc := Extend (addr ptr) (at_ (type_crc_ w) t) ptr in
  let crc := Mask crc in
  let buf := EncodeFixed32 crc ++ [u8 (Z.land length 255); u8 (Z.shiftr length 8); u8 t] in
  let '(s, f) := file_Append buf (dest_ w) in
  let '(s, f) :=
    if (s : bool) then
      let '(s, f) := file_Append ptr f in
      if (s : bool) then file_Flush f else (s, f)
    else (s, f) in
  (s, {| dest_ := f; block_offset_ := block_offset_ w + (kHeaderSize + length); type_crc_ := type_crc_ w |}).

(** Switch to a new block if there is no room for a header. *)
Definition switch_block (w : Writer) : Writer :=
  let leftover := kBlockSize - block_offset_ w in
  if leftover <? kHeaderSize then
    let f := if 0 <? leftover then snd (file_Append (ztake leftover (zrep 6 0)) (dest_ w)) else dest_ w in
    {| dest_ := f; block_offset_ := 0; type_crc_ := type_crc_ w |}
  else w.

Fixpoint AddRecord_loop (fuel : nat) (begin : bool) (ptr : list Z) (w : Writer) : bool * Writer :=
  match fuel with
  | O => (false, w)
  | S fuel =>
    let left := zlen ptr in
    let w := switch_block w in
    let avail := kBlockSize - block_offset_ w - kHeaderSize in
    let fragment_length := if left <? avail then left else avail in
    let end_ := left =? fragment_length in
    let type := if begin && end_ then kFullType else if begin then kFirstType
                else if end_ then kLastType else kMiddleType in
    let '(s, w) := EmitPhysicalRecord type (ztake fragment_length ptr) w in
    let ptr := zdrop fragment_length ptr in
    let left := left - fragment_length in
    if s && (0 <? left) then AddRecord_loop fuel false ptr w else (s, w)
  end.

(** A round writes at least one byte, but for one at the end of a block. *)
Definition AddRecord (slice : list Z) (w : Writer) : bool * Writer :=
  AddRecord_loop (S (S (length slice))) true slice w.
End Writing.

(** Why bytes were dropped: a text, the status of the file, or an unknown type. *)
Inductive reason := Corruption (text : string) | FileStatus | UnknownType (record_type : Z).

Section Reading.
Context {P : Port} {A : Address} {F : Type} {SF : SequentialFile F}.

Record Reader := {
  file_ : F;
  reporter_ : option (list (Z * reason));
  checksum_ : bool;
  buffer_ : list Z;
  eof_ : bool;
  last_record_offset_ : Z;
  end_of_buffer_offset_ : Z;
  initial_offset_ : Z;
  resyncing_ : bool }.

Definition new_Reader (file : F) (reporter : option (list (Z * reason))) (checksum : bool) (initial_offset : Z) : Reader :=
  {| file_ := file; reporter_ := reporter; checksum_ := checksum; buffer_ := []; eof_ := false;
     last_record_offset_ := 0; end_of_buffer_offset_ := 0; initial_offset_ := initial_offset;
     resyncing_ := 0 <? initial_offset |}.

(** Assignments to one member. *)
Definition set_file (f : F) (r : Reader) : Reader :=
  {| file_ := f; reporter_ := reporter_ r; checksum_ := checksum_ r; buffer_ := buffer_ r; eof_ := eof_ r;
     last_record_offset_ := last_record_offset_ r; end_of_buffer_offset_ := end_of_buffer_offset_ r;
     initial_offset_ := initial_offset_ r; resyncing_ := resyncing_ r |}.
Definition set_reporter (l : option (list (Z * reason))) (r : Reader) : Reader :=
  {| file_ := file_ r; reporter_ := l; checksum_ := checksum_ r; buffer_ := buffer_ r; eof_ := eof_ r;
     last_record_offset_ := last_record_offset_ r; end_of_buffer_offset_ := end_of_buffer_offset_ r;
     initial_offset_ := initial_offset_ r; resyncing_ := resyncing_ r |}.
Definition set_buffer (b : list Z) (r : Reader) : Reader :=
  {| file_ := file_ r; reporter_ := reporter_ r; checksum_ := checksum_ r; buffer_ := b; eof_ := eof_ r;
     last_record_offset_ := last_record_offset_ r; end_of_buffer_offset_ := end_of_buffer_offset_ r;
     initial_offset_ := initial_offset_ r; resyncing_ := resyncing_ r |}.
Definition set_eof (e : bool) (r : Reader) : Reader :=
  {| file_ := file_ r; reporter_ := reporter_ r; checksum_ := checksum_ r; buffer_ := buffer_ r; eof_ := e;
     last_record_offset_ := last_record_offset_ r; end_of_buffer_offset_ := end_of_buffer_offset_ r;
     initial_offset_ := initial_offset_ r; resyncing_ := resyncing_ r |}.
Definition set_last_record_offset (o : Z) (r : Reader) : Reader :=
  {| file_ := file_ r; reporter_ := reporter_ r; checksum_ := checksum_ r; buffer_ := buffer_ r; eof_ := eof_ r;
     last_record_offset_ := o; end_of_buffer_offset_ := end_of_buffer_offset_ r;
     initial_offset_ := initial_offset_ r; resyncing_ := resyncing_ r |}.
Definition set_end_of_buffer_offset (o : Z) (r : Reader) : Reader :=
  {| file_ := file_ r; reporter_ := reporter_ r; checksum_ := checksum_ r; buffer_ := buffer_ r; eof_ := eof_ r;
     last_record_offset_ := last_record_offset_ r; end_of_buffer_offset_ := o;
     initial_offset_ := initial_offset_ r; resyncing_ := resyncing_ r |}.
Definition set_resyncing (b : bool) (r : Reader) : Reader :=
  {| file_ := file_ r; reporter_ := reporter_ r; checksum_ := checksum_ r; buffer_ := buffer_ r; eof_ := eof_ r;
     last_record_offset_ := last_record_offset_ r; end_of_buffer_offset_ := end_of_buffer_offset_ r;
     initial_offset_ := initial_offset_ r; resyncing_ := b |}.

Definition ReportDrop (bytes : Z) (why : reason) (r : Reader) : Reader :=
  match reporter_ r with
  | Some l =>
    if initial_offset_ r <=? u64 (end_of_buffer_offset_ r - zlen (buffer_ r) - bytes)
    then set_reporter (Some (l ++ [(bytes, why)])) r else r
  | None => r
  end.

Definition ReportCorruption (bytes : Z) (why : reason) (r : Reader) : Reader := ReportDrop bytes why r.

Definition SkipToInitialBlock (r : Reader) : bool * Reader :=
  let offset_in_block := initial_offset_ r mod kBlockSize in
  let block_start_location := u64 (initial_offset_ r - offset_in_block) in
  let block_start_location :=
    if kBlockSize - 6 <? offset_in_block then u64 (block_start_location + kBlockSize) else block_start_location in
  let r := set_end_of_buffer_offset block_start_location r in
  if 0 <? block_start_location then
    let '(ok, f) := file_Skip block_start_location (file_ r) in
    let r := set_file f r in
    if (ok : bool) then (true, r) else (false, ReportDrop block_start_location FileStatus r)
  else (true, r).

(** The part of [ReadPhysicalRecord] after the header is known to be there: the
    type, [*result] and the reader. *)
Definition parse_physical (result : list Z) (r : Reader) : Z * list Z * Reader :=
  let header := buffer_ r in
  let a := Z.land (u32 (char_to_uint (znth 0 4 header))) 255 in
  let b := Z.land (u32 (char_to_uint (znth 0 5 header))) 255 in
  let type := char_to_uint (znth 0 6 header) in
  let length := Z.lor a (u32 (Z.shiftl b 8)) in
  if zlen (buffer_ r) <? kHeaderSize + length then
    let drop_size := zlen (buffer_ r) in
    let r := set_buffer [] r in
    if negb (eof_ r) then (kBadRecord, result, ReportCorruption drop_size (Corruption "bad record length") r)
    else (kEof, result, r)
  else if (type =? kZeroType) && (length =? 0) then (kBadRecord, result, set_buffer [] r)
  else if checksum_ r && negb (Value (addr (zdrop 6 header)) (zsub 6 (1 + length) header) =? Unmask (DecodeFixed32 header)) then
    let drop_size := zlen (buffer_ r) in
    let r := set_buffer [] r in
    (kBadRecord, result, ReportCorruption drop_size (Corruption "checksum mismatch") r)
  else
    let r := set_buffer (zdrop (kHeaderSize + length) (buffer_ r)) r in
    if u64 (end_of_buffer_offset_ r - zlen (buffer_ r) - kHeaderSize - length) <? initial_offset_ r
    then (kBadRecord, [], r)
    else (type, zsub kHeaderSize length header, r).

(** In this and in the loops below [None] means that the fuel has run out. *)
Fixpoint ReadPhysicalRecord_loop (fuel : nat) (result : list Z) (r : Reader) : option (Z * list Z * Reader) :=
  match fuel with
  | O => None
  | S fuel =>
    if zlen (buffer_ r) <? kHeaderSize then
      if negb (eof_ r) then
        let '(ok, data, f) := file_Read kBlockSize (file_ r) in
        let r := set_buffer data (set_file f r) in
        let r := set_end_of_buffer_offset (u64 (end_of_buffer_offset_ r + zlen (buffer_ r))) r in
        if negb ok then Some (kEof, result, set_eof true (ReportDrop kBlockSize FileStatus (set_buffer [] r)))
        else if zlen (buffer_ r) <? kBlockSize then ReadPhysicalRecord_loop fuel result (set_eof true r)
        else ReadPhysicalRecord_loop fuel result r
      else Some (kEof, result, set_buffer [] r)
    else Some (parse_physical result r)
  end.

(** One round reads a block, the next parses it or finds the end. *)
Definition ReadPhysicalRecord (result : list Z) (r : Reader) : option (Z * list Z * Reader) := ReadPhysicalRecord_loop 2 result r.

(** The loop of [ReadRecord]: the record, if there is one, or [None] inside for false.
    [fragment] and [scratch] are the variables of that name. *)
Fixpoint ReadRecord_loop (fuel : nat) (in_fragmented_record : bool) (prospective_record_offset : Z)
    (fragment scratch : list Z) (r : Reader) : option (option (list Z) * Reader) :=
  match fuel with
  | O => None
  | S fuel =>
    '(record_type, fragment, r) ← ReadPhysicalRecord fragment r;
    let physical_record_offset :=
      u64 (end_of_buffer_offset_ r - zlen (buffer_ r) - kHeaderSize - zlen fragment) in
    let again := ReadRecord_loop fuel in
    if resyncing_ r && (record_type =? kMiddleType) then
      again in_fragmented_record prospective_record_offset fragment scratch r
    else if resyncing_ r && (record_type =? kLastType) then
      again in_fragmented_record prospective_record_offset fragment scratch (set_resyncing false r)
    else
    let r := set_resyncing false r in
    if record_type =? kFullType then
      let r := if in_fragmented_record && (0 <? zlen scratch)
               then ReportCorruption (zlen scratch) (Corruption "partial record without end(1)") r else r in
      Some (Some fragment, set_last_record_offset physical_record_offset r)
    else if record_type =? kFirstType then
      let r := if in_fragmented_record && (0 <? zlen scratch)
               then ReportCorruption (zlen scratch) (Corruption "partial record without end(2)") r else r in
      again true physical_record_offset fragment fragment r
    else if record_type =? kMiddleType then
      if negb in_fragmented_record then
        again in_fragmented_record prospective_record_offset fragment scratch
          (ReportCorruption (zlen fragment) (Corruption "missing start of fragmented record(1)") r)
      else again in_fragmented_record prospective_record_offset fragment (scratch ++ fragment) r
    else if record_type =? kLastType then
      if negb in_fragmented_record then
        again in_fragmented_record prospective_record_offset fragment scratch
          (ReportCorruption (zlen fragment) (Corruption "missing start of fragmented record(2)") r)
      else Some (Some (scratch ++ fragment), set_last_record_offset prospective_record_offset r)
    else if record_type =? kEof then Some (None, r)
    else if record_type =? kBadRecord then
      if in_fragmented_record then
        again false prospective_record_offset fragment []
          (ReportCorruption (zlen scratch) (Corruption "error in middle of record") r)
      else again in_fragmented_record prospective_record_offset fragment scratch r
    else
      again false prospective_record_offset fragment []
        (ReportCorruption (zlen fragment + (if in_fragmented_record then zlen scratch else 0)) (UnknownType record_type) r)
  end.

Definition ReadRecord (fuel : nat) (r : Reader) : option (option (list Z) * Reader) :=
  if last_record_offset_ r <? initial_offset_ r then
    match SkipToInitialBlock r with
    | (false, r) => Some (None, r)
    | (true, r) => ReadRecord_loop fuel false 0 [] [] r
    end
  else ReadRecord_loop fuel false 0 [] [] r.

Definition LastRecordOffset (r : Reader) : Z := last_record_offset_ r.

(** [while (reader.ReadRecord(&record, &scratch)) ...]: the records, and the reader
    that has found the end. *)
Fixpoint read_all (fuel fuel' : nat) (r : Reader) : option (list (list Z) * Reader) :=
  match fuel with
  | O => None
  | S fuel =>
    '(found, r) ← ReadRecord fuel' r;
    match found with
    | None => Some ([], r)
    | Some record => '(l, r) ← read_all fuel fuel' r; Some (record :: l, r)
    end
  end.
End Reading.
Arguments Writer : clear implicits.
Arguments Reader : clear implicits.

(** * The format of the log *)

(** A physical record: checksum of type and data, length, type, data. *)
Definition header (t : Z) (p : list Z) : list Z :=
  le_bytes 4 (Mask (crc32c 0 (t :: p))) ++ le_bytes 2 (zlen p) ++ [t].
Definition physical (t : Z) (p : list Z) : list Z := header t p ++ p.

(** What stands between the offset [off] of a block and the next header. *)
Definition trailer (off : Z) : list Z := if kBlockSize - off <? kHeaderSize then zrep (kBlockSize - off) 0 else [].
Definition item (off t : Z) (p : list Z) : list Z := trailer off ++ physical t p.
Definition next (off : Z) (p : list Z) : Z := (if kBlockSize - off <? kHeaderSize then 0 else off) + kHeaderSize + zlen p.

(** A record that goes from the offset [off] of a block to [off']: its data in one
    piece, or in pieces that each end in its own block. *)
Inductive fragmented : bool -> Z -> list Z -> list Z -> Z -> Prop :=
| fragmented_end begin off p :
    next off p <= kBlockSize ->
    fragmented begin off p (item off (if begin then kFullType else kLastType) p) (next off p)
| fragmented_more begin off p q bytes off' :
    next off p <= kBlockSize -> fragmented false (next off p) q bytes off' ->
    fragmented begin off (p ++ q) (item off (if begin then kFirstType else kMiddleType) p ++ bytes) off'.

(** Records one after another. *)
Inductive logged : Z -> list (list Z) -> list Z -> Z -> Prop :=
| logged_nil off : logged off [] [] off
| logged_cons off r bytes off1 rs rest off2 :
    fragmented true off r bytes off1 -> logged off1 rs rest off2 -> logged off (r :: rs) (bytes ++ rest) off2.

Lemma zlen_header t p : zlen (header t p) = kHeaderSize.
Proof. unfold header. autorewrite with zlen. reflexivity. Qed.

Lemma zlen_physical t p : zlen (physical t p) = kHeaderSize + zlen p.
Proof. unfold physical. rewrite zlen_app, zlen_header. reflexivity. Qed.

#[export] Hint Rewrite zlen_header zlen_physical : zlen.

Lemma zlen_trailer off : 0 <= off <= kBlockSize ->
  zlen (trailer off) = if kBlockSize - off <? kHeaderSize then kBlockSize - off else 0.
Proof. intros Ho. unfold trailer. destruct (_ <? _); [apply zlen_zrep; lia|reflexivity]. Qed.

Lemma next_range off p : 0 <= off -> kHeaderSize <= next off p.
Proof. intros Ho. unfold next. pose proof (zlen_nonneg p). destruct (_ <? _); lia. Qed.

Lemma fragmented_next begin off r bytes off' : 0 <= off <= kBlockSize -> fragmented begin off r bytes off' ->
  kHeaderSize <= off' <= kBlockSize.
Proof.
  intros Ho H. revert Ho. induction H as [begin off p Hn|begin off p q bytes off' Hn H IH]; intros Ho.
  - pose proof (next_range off p ltac:(lia)). lia.
  - apply IH. pose proof (next_range off p ltac:(lia)). unfold kHeaderSize in *. lia.
Qed.

(** The length of what is written, and where it ends in a block. *)
Lemma zlen_item off t p : 0 <= off <= kBlockSize ->
  (off + zlen (item off t p)) mod kBlockSize = next off p mod kBlockSize.
Proof.
  intros Ho. unfold item, next. rewrite zlen_app, zlen_physical, zlen_trailer by exact Ho. destruct (_ <? _).
  - replace (off + (kBlockSize - off + (kHeaderSize + zlen p))) with (0 + kHeaderSize + zlen p + 1 * kBlockSize) by lia.
    apply Z.mod_add. discriminate.
  - f_equal. lia.
Qed.

Lemma fragmented_mod begin off r bytes off' : 0 <= off <= kBlockSize -> fragmented begin off r bytes off' ->
  (off + zlen bytes) mod kBlockSize = off' mod kBlockSize.
Proof.
  intros Ho H. revert Ho. induction H as [begin off p Hn|begin off p q bytes off' Hn H IH]; intros Ho; [apply zlen_item, Ho|].
  pose proof (next_range off p ltac:(lia)). unfold kHeaderSize in *. rewrite <- IH by lia.
  rewrite zlen_app, Z.add_assoc, <- Z.add_mod_idemp_l, zlen_item, Z.add_mod_idemp_l by (auto; discriminate). reflexivity.
Qed.

(** * Writing *)

(** A file whose operations do not fail. *)
Class ReliableFile (F : Type) {W : WritableFile F} := {
  Append_reliable : forall s f, fst (file_Append s f) = true;
  Flush_reliable : forall f, fst (file_Flush f) = true }.

Section WritingProofs.
Context {P : Port} {A : Address} {F : Type} {W : WritableFile F} {WL : WritableFileLaws F}.

Lemma Append_ok s f f' : file_Append s f = (true, f') -> contents f' = contents f ++ s.
Proof. intros E. destruct (Append_contents s f) as [k H]. rewrite E in H. exact H. Qed.

Lemma Flush_ok f b f' : file_Flush f = (b, f') -> contents f' = contents f.
Proof. intros E. pose proof (Flush_contents f) as H. rewrite E in H. exact H. Qed.

Definition types_ok (w : Writer F) : Prop := type_crc_ w = InitTypeCrc.

Lemma type_crc_value w t : types_ok w -> 0 <= t <= 4 -> at_ (type_crc_ w) t = crc32c 0 [t].
Proof.
  intros -> Ht. assert (E : at_ InitTypeCrc t = Value (addr [t]) [t]).
  { assert (t = 0 \/ t = 1 \/ t = 2 \/ t = 3 \/ t = 4) as [-> | [-> | [-> | [-> | ->]]]] by lia; reflexivity. }
  rewrite E. destruct (addr_ok [t]). apply Extend_crc32c; try lia. constructor; [unfold byte_ok; lia|constructor].
Qed.

Lemma EmitPhysicalRecord_ok t p w w' : types_ok w -> 1 <= t <= 4 -> bytes_ok p -> zlen p < 65536 ->
  EmitPhysicalRecord t p w = (true, w') ->
  contents (dest_ w') = contents (dest_ w) ++ physical t p /\
  block_offset_ w' = block_offset_ w + (kHeaderSize + zlen p) /\ types_ok w'.
Proof.
  intros Hw Ht Hp Hl. unfold EmitPhysicalRecord. cbn zeta. destruct (addr_ok p).
  rewrite type_crc_value by (auto; lia). assert (Hb : bytes_ok [t]) by (constructor; [unfold byte_ok; lia|constructor]).
  rewrite Extend_crc32c by (auto; apply crc32c_range; auto; lia). rewrite crc32c_app. cbn [app].
  pose proof (zlen_nonneg p).
  replace (EncodeFixed32 (Mask (crc32c 0 (t :: p))) ++ [u8 (Z.land (zlen p) 255); u8 (Z.shiftr (zlen p) 8); u8 t])
    with (header t p).
  2: { unfold header. rewrite EncodeFixed32_le, land_255, Z.shiftr_div_pow2 by lia. cbn [le_bytes].
       rewrite !u8_small by (unfold byte_ok; dlia). change (2 ^ 8) with 256.
       rewrite (Z.mod_small (zlen p / 256)) by dlia. reflexivity. }
  destruct (file_Append (header t p) (dest_ w)) as [[|] f1] eqn:E1; [|discriminate].
  destruct (file_Append p f1) as [[|] f2] eqn:E2; [|discriminate].
  destruct (file_Flush f2) as [b f3] eqn:E3. intros [= -> <-]. cbn [dest_ block_offset_ type_crc_].
  rewrite (Flush_ok _ _ _ E3), (Append_ok _ _ _ E2), (Append_ok _ _ _ E1), <- app_assoc. auto.
Qed.

Context {R : ReliableFile F}.

Lemma Append_true s f b f' : file_Append s f = (b, f') -> b = true.
Proof. intros E. pose proof (Append_reliable s f) as H. rewrite E in H. exact H. Qed.

Lemma EmitPhysicalRecord_reliable t p w : fst (EmitPhysicalRecord t p w) = true.
Proof.
  unfold EmitPhysicalRecord. cbn zeta. destruct (file_Append _ (dest_ w)) as [b f1] eqn:E1.
  apply Append_true in E1 as ->. destruct (file_Append p f1) as [b f2] eqn:E2. apply Append_true in E2 as ->.
  destruct (file_Flush f2) as [b f3] eqn:E3. pose proof (Flush_reliable f2) as H3. rewrite E3 in H3. exact H3.
Qed.

Lemma switch_block_ok w : 0 <= block_offset_ w <= kBlockSize -> types_ok w ->
  contents (dest_ (switch_block w)) = contents (dest_ w) ++ trailer (block_offset_ w) /\
  block_offset_ (switch_block w) = (if kBlockSize - block_offset_ w <? kHeaderSize then 0 else block_offset_ w) /\
  types_ok (switch_block w).
Proof.
  intros Ho Hw. unfold switch_block, trailer. cbn zeta.
  destruct (Z.ltb_spec (kBlockSize - block_offset_ w) kHeaderSize) as [Hl|Hl]; [|rewrite app_nil_r; auto].
  split; [|auto]. cbn [dest_]. destruct (Z.ltb_spec 0 (kBlockSize - block_offset_ w)) as [Hp|Hp].
  - destruct (file_Append _ (dest_ w)) as [b f1] eqn:E1. pose proof (Append_true _ _ _ _ E1) as ->. cbn [snd]. rewrite (Append_ok _ _ _ E1). f_equal. unfold ztake, zrep. rewrite take_replicate.
    unfold kHeaderSize in Hl. f_equal. lia.
  - replace (kBlockSize - block_offset_ w) with 0 by lia. symmetry. apply app_nil_r.
Qed.

Lemma AddRecord_loop_ok fuel : forall begin ptr w,
  types_ok w -> 0 <= block_offset_ w <= kBlockSize -> bytes_ok ptr ->
  (length ptr + (if (kBlockSize - block_offset_ w =? kHeaderSize)%Z then 1 else 0) < fuel)%nat ->
  exists w' bytes, AddRecord_loop fuel begin ptr w = (true, w') /\ types_ok w' /\
    contents (dest_ w') = contents (dest_ w) ++ bytes /\ fragmented begin (block_offset_ w) ptr bytes (block_offset_ w').
Proof.
  induction fuel as [|fuel IH]; intros begin ptr w Hw Ho Hp Hf; [lia|]. cbn [AddRecord_loop].
  destruct (switch_block_ok w Ho Hw) as (Hc & Hb & Hw1). set (w1 := switch_block w) in *.
  set (off := block_offset_ w) in *. pose proof (zlen_nonneg ptr) as Hl0.
  assert (Ha : 0 <= kBlockSize - block_offset_ w1 - kHeaderSize <= kBlockSize - kHeaderSize).
  { rewrite Hb. destruct (Z.ltb_spec (kBlockSize - off) kHeaderSize); unfold kBlockSize, kHeaderSize in *; lia. }
  set (avail := kBlockSize - block_offset_ w1 - kHeaderSize) in *.
  set (n := if zlen ptr <? avail then zlen ptr else avail).
  assert (Hn : 0 <= n <= zlen ptr /\ n <= avail) by (unfold n; destruct (Z.ltb_spec (zlen ptr) avail); lia).
  set (type := if begin && (zlen ptr =? n) then kFullType else _).
  assert (Ht : 1 <= type <= 4) by (unfold type; destruct begin, (zlen ptr =? n); cbn; unfold kFullType, kFirstType, kLastType, kMiddleType; lia).
  pose proof (EmitPhysicalRecord_reliable type (ztake n ptr) w1) as Hok.
  destruct (EmitPhysicalRecord type (ztake n ptr) w1) as [ok w2] eqn:E2. cbn in Hok. subst ok.
  assert (Hz : zlen (ztake n ptr) = n) by (apply zlen_ztake; lia).
  apply EmitPhysicalRecord_ok in E2 as (Hc2 & Hb2 & Hw2); auto with bytes; [|unfold kBlockSize, kHeaderSize in *; lia].
  rewrite Hz in Hb2.
  assert (Hnext : next off (ztake n ptr) = block_offset_ w2) by (unfold next; rewrite Hz, Hb2, Hb; lia).
  assert (Hroom : next off (ztake n ptr) <= kBlockSize) by (rewrite Hnext; lia).
  assert (Hc' : contents (dest_ w2) = contents (dest_ w) ++ item off type (ztake n ptr)).
  { rewrite Hc2, Hc, <- app_assoc. reflexivity. }
  cbn [andb]. destruct (Z.ltb_spec 0 (zlen ptr - n)) as [Hleft|Hleft].
  - assert (En : (zlen ptr =? n) = false) by lia. unfold type in *. rewrite En, !andb_false_r in *. cbn in Hc'.
    assert (Hav : n = avail) by (unfold n in *; destruct (Z.ltb_spec (zlen ptr) avail); lia).
    destruct (IH false (zdrop n ptr) w2 Hw2) as (w' & bytes & E & Hw' & Hc'' & Hfr); [lia|auto with bytes| |].
    + assert (Hld : Z.of_nat (length (zdrop n ptr)) = zlen ptr - n) by (apply (zlen_zdrop n ptr); lia).
      assert ((kBlockSize - block_offset_ w2 =? kHeaderSize) = false) as -> by (unfold kHeaderSize in *; lia).
      unfold zlen in *. destruct (Z.eqb_spec (kBlockSize - off) kHeaderSize) as [He|He]; [lia|].
      assert (0 < n); [|lia]. rewrite Hav. unfold avail. rewrite Hb. unfold kBlockSize, kHeaderSize in *.
      destruct (Z.ltb_spec (32768 - off) (4 + 2 + 1)); lia.
    + exists w', (item off (if begin then kFirstType else kMiddleType) (ztake n ptr) ++ bytes).
      split; [exact E|]. split; [exact Hw'|]. split; [rewrite Hc'', Hc', <- app_assoc; destruct begin; reflexivity|].
      rewrite <- (ztake_zdrop n ptr) at 1. apply fragmented_more; [exact Hroom|]. rewrite Hnext. exact Hfr.
  - assert (n = zlen ptr) as Hen by lia.
    exists w2, (item off (if begin then kFullType else kLastType) (ztake n ptr)). split; [reflexivity|]. split; [exact Hw2|].
    assert (En : (zlen ptr =? n) = true) by lia. unfold type in *. rewrite En, !andb_true_r in *.
    split; [rewrite Hc'; destruct begin; reflexivity|]. rewrite <- Hnext. rewrite Hen, ztake_all in *. apply fragmented_end. exact Hroom.
Qed.

Lemma AddRecord_ok r w : types_ok w -> 0 <= block_offset_ w <= kBlockSize -> bytes_ok r ->
  exists w' bytes, AddRecord r w = (true, w') /\ types_ok w' /\ 0 <= block_offset_ w' <= kBlockSize /\
    contents (dest_ w') = contents (dest_ w) ++ bytes /\ fragmented true (block_offset_ w) r bytes (block_offset_ w').
Proof.
  intros Hw Ho Hr. destruct (AddRecord_loop_ok (S (S (length r))) true r w Hw Ho Hr) as (w' & bytes & E & Hw' & Hc & Hf).
  { destruct (_ =? _); lia. }
  exists w', bytes. pose proof (fragmented_next _ _ _ _ _ Ho Hf). unfold kHeaderSize in *. auto with lia.
Qed.
End WritingProofs.

(** * Reading *)

Lemma char_land b : byte_ok b -> Z.land (u32 (char_to_uint b)) 255 = b.
Proof. apply (byte_eq (fun b => Z.land (u32 (char_to_uint b)) 255) (fun b => b)). reflexivity. Qed.

Section ReadingProofs.
Context {P : Port} {A : Address} {F : Type} {SF : SequentialFile F} {SL : SequentialFileLaws F}.

(** The seven bytes of a header. *)
Lemma physical_bytes t p : exists c0 c1 c2 c3,
  physical t p = c0 :: c1 :: c2 :: c3 :: zlen p mod 256 :: zlen p / 256 mod 256 :: t :: p.
Proof. unfold physical, header. cbn [le_bytes app]. eauto. Qed.

Lemma zlen_parts (p : list Z) : zlen p < 65536 ->
  Z.lor (Z.land (u32 (char_to_uint (zlen p mod 256))) 255)
        (u32 (Z.shiftl (Z.land (u32 (char_to_uint (zlen p / 256 mod 256))) 255) 8)) = zlen p.
Proof.
  intros Hl. pose proof (zlen_nonneg p). rewrite !char_land by (unfold byte_ok; dlia).
  rewrite u32_small by (rewrite Z.shiftl_mul_pow2 by lia; dlia). rewrite lor_shiftl_add by dlia. dlia.
Qed.

Lemma header_checksum t p b : 1 <= t < 128 -> bytes_ok p -> bytes_ok b ->
  Unmask (DecodeFixed32 (physical t p ++ b)) = crc32c 0 (t :: p).
Proof.
  intros Ht Hp Hb. assert (Hbt : byte_ok t) by (unfold byte_ok; lia). unfold physical, header.
  rewrite <- EncodeFixed32_le, <- !app_assoc. rewrite DecodeFixed32_Encode.
  - apply Unmask_Mask. apply crc32c_range; [lia|]. apply bytes_ok_cons. auto.
  - apply Mask_range.
  - repeat (apply bytes_ok_app; split); auto with bytes. constructor; [exact Hbt|constructor].
Qed.

Lemma parse_complete result (r : Reader F) t p b : 1 <= t < 128 -> bytes_ok p -> zlen p < 65536 -> bytes_ok b ->
  buffer_ r = physical t p ++ b -> initial_offset_ r = 0 -> parse_physical result r = (t, p, set_buffer b r).
Proof.
  intros Ht Hp Hl Hb E H0. pose proof (zlen_nonneg p). pose proof (zlen_nonneg b).
  pose proof (header_checksum t p b Ht Hp Hb) as Hsum.
  unfold parse_physical. cbn zeta. rewrite E.
  destruct (physical_bytes t p) as (c0 & c1 & c2 & c3 & Ep).
  assert (El : zlen (physical t p ++ b) = kHeaderSize + zlen p + zlen b) by (autorewrite with zlen; lia).
  assert (E4 : znth 0 4 (physical t p ++ b) = zlen p mod 256) by (rewrite Ep; reflexivity).
  assert (E5 : znth 0 5 (physical t p ++ b) = zlen p / 256 mod 256) by (rewrite Ep; reflexivity).
  assert (E6 : znth 0 6 (physical t p ++ b) = t) by (rewrite Ep; reflexivity).
  rewrite E4, E5, E6, zlen_parts by exact Hl. rewrite El, (proj2 (Z.ltb_ge _ _)) by lia.
  assert (Ec : char_to_uint t = t) by (unfold char_to_uint; rewrite (proj2 (Z.ltb_lt t 128)) by lia; reflexivity).
  rewrite Ec. unfold kZeroType. rewrite (proj2 (Z.eqb_neq t 0)) by lia. cbn [andb].
  assert (Es : zsub 6 (1 + zlen p) (physical t p ++ b) = t :: p).
  { rewrite Ep. apply (zsub_app 6 (1 + zlen p) [c0; c1; c2; c3; zlen p mod 256; zlen p / 256 mod 256] (t :: p) b);
      autorewrite with zlen; lia. }
  rewrite Es. destruct (addr_ok (zdrop 6 (physical t p ++ b))).
  assert (Hbt : bytes_ok (t :: p)) by (apply bytes_ok_cons; unfold byte_ok; auto with lia).
  unfold Value. rewrite Extend_crc32c, Hsum by (auto; lia). rewrite Z.eqb_refl, andb_false_r.
  cbn [buffer_ set_buffer initial_offset_ end_of_buffer_offset_]. rewrite H0.
  rewrite (proj2 (Z.ltb_ge _ _)) by apply u64_range.
  rewrite zdrop_app_eq by (autorewrite with zlen; lia). do 2 f_equal.
  rewrite Ep. apply (zsub_app 7 (zlen p) [c0; c1; c2; c3; zlen p mod 256; zlen p / 256 mod 256; t] p b);
    autorewrite with zlen; lia.
Qed.

(** A record of which the file does not have the end, whatever it has instead. *)
Lemma parse_cut result (r : Reader F) t p k q : zlen p < 65536 -> kHeaderSize <= k <= zlen (physical t p) ->
  k + zlen q < zlen (physical t p) ->
  buffer_ r = ztake k (physical t p) ++ q -> eof_ r = true -> parse_physical result r = (kEof, result, set_buffer [] r).
Proof.
  intros Hl Hk Hq E He. pose proof (zlen_nonneg p). rewrite zlen_physical in Hk, Hq. unfold kHeaderSize in *.
  unfold parse_physical. cbn zeta. rewrite E.
  destruct (physical_bytes t p) as (c0 & c1 & c2 & c3 & Ep).
  assert (Ek : zlen (ztake k (physical t p)) = k) by (apply zlen_ztake; autorewrite with zlen; unfold kHeaderSize; lia).
  assert (El : zlen (ztake k (physical t p) ++ q) = k + zlen q) by (rewrite zlen_app; lia).
  assert (En : forall i, 0 <= i < k -> znth 0 i (ztake k (physical t p) ++ q) = znth 0 i (physical t p)).
  { intros i Hi. rewrite <- (znth_ztake 0 i k (ztake k (physical t p) ++ q)) by lia. rewrite ztake_app_eq by lia.
    apply znth_ztake. exact Hi. }
  assert (E4 : znth 0 4 (physical t p) = zlen p mod 256) by (rewrite Ep; reflexivity).
  assert (E5 : znth 0 5 (physical t p) = zlen p / 256 mod 256) by (rewrite Ep; reflexivity).
  rewrite !En, E4, E5, zlen_parts by lia. rewrite El, (proj2 (Z.ltb_lt _ (kHeaderSize + zlen p))) by (unfold kHeaderSize; lia).
  cbn [eof_ set_buffer]. rewrite He. reflexivity.
Qed.

(** The reader stands at the offset [off] of a block, with [s] not parsed yet. *)
Record reading (rep : option (list (Z * reason))) (r : Reader F) (off : Z) (s : list Z) : Prop := {
  rd_bytes : buffer_ r ++ unread (file_ r) = s;
  rd_eof : if eof_ r then unread (file_ r) = [] /\ zlen s < kBlockSize - off
           else zlen (buffer_ r) = if off =? 0 then 0 else kBlockSize - off;
  rd_reports : reporter_ r = rep;
  rd_initial : initial_offset_ r = 0;
  rd_sync : resyncing_ r = false;
  rd_last : 0 <= last_record_offset_ r }.

(** A new block, when no header fits into what is left of the old one. *)
Lemma read_block rep r off s result fuel :
  reading rep r off s -> 0 <= off <= kBlockSize -> (off = 0 \/ kBlockSize - off < kHeaderSize) -> eof_ r = false ->
  let rest := zdrop (zlen (buffer_ r)) s in
  zlen (buffer_ r) = zlen (trailer off) /\
  exists r', ReadPhysicalRecord_loop (S fuel) result r = ReadPhysicalRecord_loop fuel result r' /\
    buffer_ r' = ztake kBlockSize rest /\ unread (file_ r') = zdrop kBlockSize rest /\ eof_ r' = (zlen rest <? kBlockSize) /\
    reporter_ r' = rep /\ initial_offset_ r' = 0 /\ resyncing_ r' = false /\
    0 <= last_record_offset_ r'.
Proof.
  intros [Hb He Hr Hi Hs Hla] Ho Hoff Heof rest. rewrite Heof in He.
  assert (Hrest : unread (file_ r) = rest) by (unfold rest; rewrite <- Hb, zdrop_app; reflexivity).
  assert (Hlb : zlen (buffer_ r) = zlen (trailer off)).
  { rewrite zlen_trailer, He by exact Ho. unfold kBlockSize, kHeaderSize in *. destruct (Z.eqb_spec off 0) as [->|]; [reflexivity|].
    destruct Hoff; [lia|]. rewrite (proj2 (Z.ltb_lt _ _)) by lia. reflexivity. }
  split; [exact Hlb|].
  assert (Hsmall : (zlen (buffer_ r) <? kHeaderSize) = true).
  { apply Z.ltb_lt. rewrite He. unfold kHeaderSize in *. destruct (Z.eqb_spec off 0); lia. }
  cbn [ReadPhysicalRecord_loop]. rewrite Hsmall, Heof. cbn [negb].
  destruct (Read_unread kBlockSize (file_ r)) as [E1 E2]; [discriminate|].
  destruct (file_Read kBlockSize (file_ r)) as [[ok data] f]. cbn in E1, E2. injection E1 as -> ->. cbn [negb].
  cbn [buffer_ set_buffer set_end_of_buffer_offset set_file]. rewrite Hrest in *. pose proof (zlen_nonneg rest).
  assert (Elen : (zlen (ztake kBlockSize rest) <? kBlockSize) = (zlen rest <? kBlockSize)).
  { unfold ztake, zlen. rewrite length_take. generalize kBlockSize. intros n.
    destruct (Z.ltb_spec (Z.of_nat (length rest)) n); [apply Z.ltb_lt|apply Z.ltb_ge]; lia. }
  rewrite Elen. destruct (zlen rest <? kBlockSize) eqn:Elt; eexists; (split; [reflexivity|]);
    cbn [buffer_ file_ eof_ reporter_ initial_offset_ resyncing_ last_record_offset_ set_eof set_end_of_buffer_offset set_buffer set_file];
    rewrite ?E2, ?Heof; split_and!; auto.
Qed.

Lemma trailer_nil off : kHeaderSize <= kBlockSize - off -> trailer off = [].
Proof. intros Ho. unfold trailer. rewrite (proj2 (Z.ltb_ge _ _)) by exact Ho. reflexivity. Qed.

(** A whole physical record. *)
Lemma read_item rep r off t p tail result :
  reading rep r off (item off t p ++ tail) -> 0 <= off <= kBlockSize -> next off p <= kBlockSize ->
  1 <= t < 128 -> bytes_ok p -> bytes_ok tail ->
  exists r', ReadPhysicalRecord result r = Some (t, p, r') /\ reading rep r' (next off p) tail.
Proof.
  intros Hr Ho Hn Ht Hp Htail. pose proof (zlen_nonneg p) as Hp0. pose proof (zlen_nonneg tail) as Ht0.
  assert (Hl : zlen p < 65536).
  { unfold next, kBlockSize, kHeaderSize in Hn. destruct (_ <? _); lia. }
  pose proof (next_range off p ltac:(lia)) as Hnr. unfold ReadPhysicalRecord.
  destruct (decide (eof_ r = false /\ (off = 0 \/ kBlockSize - off < kHeaderSize))) as [[Heof Hoff]|Hcase].
  - destruct (read_block rep r off _ result 1 Hr Ho Hoff Heof) as (Hlb & r1 & -> & Hb1 & Hu1 & He1 & Hr1 & Hi1 & Hs1 & Hla1).
    rewrite Hlb in Hb1, Hu1, He1. unfold item in Hb1, Hu1, He1. rewrite <- app_assoc, zdrop_app in Hb1, Hu1, He1.
    assert (En : next off p = kHeaderSize + zlen p).
    { unfold next. destruct Hoff as [-> |Hoff]; [reflexivity|]. rewrite (proj2 (Z.ltb_lt _ _)) by exact Hoff. lia. }
    assert (Hb : buffer_ r1 = physical t p ++ ztake (kBlockSize - zlen (physical t p)) tail).
    { rewrite Hb1. replace kBlockSize with (zlen (physical t p) + (kBlockSize - zlen (physical t p))) at 1 by lia.
      apply ztake_app_add. rewrite zlen_physical. lia. }
    cbn [ReadPhysicalRecord_loop]. rewrite (proj2 (Z.ltb_ge (zlen (buffer_ r1)) _)).
    2: { rewrite Hb, zlen_app, zlen_physical. pose proof (zlen_nonneg (ztake (kBlockSize - (kHeaderSize + zlen p)) tail)). lia. }
    rewrite (parse_complete result r1 t p _ Ht Hp Hl (bytes_ok_ztake _ _ Htail) Hb Hi1).
    eexists. split; [reflexivity|]. constructor; cbn [buffer_ file_ eof_ reporter_ initial_offset_ resyncing_ last_record_offset_ set_buffer]; auto.
    + rewrite Hu1. replace kBlockSize with (zlen (physical t p) + (kBlockSize - zlen (physical t p))) at 2 by lia.
      rewrite zdrop_app_add by (rewrite zlen_physical; lia). apply ztake_zdrop.
    + rewrite He1, zlen_app, zlen_physical, <- En. destruct (Z.ltb_spec (next off p + zlen tail) kBlockSize) as [Hlt|Hge].
      * split; [|lia]. rewrite Hu1. unfold zdrop, zlen in *. apply drop_ge. rewrite length_app.
        pose proof (zlen_physical t p) as Hz. unfold zlen in Hz. lia.
      * rewrite zlen_ztake by lia. unfold kHeaderSize in *. rewrite (proj2 (Z.eqb_neq (next off p) 0)) by lia. reflexivity.
  - assert (Hbig : kHeaderSize <= kBlockSize - off).
    { destruct Hr as [_ He _ _ _ _]. destruct (eof_ r) eqn:Heof.
      - destruct He as [_ He]. unfold item in He. autorewrite with zlen in He. pose proof (zlen_nonneg (trailer off)). lia.
      - destruct (Z.lt_ge_cases (kBlockSize - off) kHeaderSize); [|assumption]. exfalso. apply Hcase. auto. }
    assert (En : next off p = off + kHeaderSize + zlen p).
    { unfold next. rewrite (proj2 (Z.ltb_ge _ _)) by exact Hbig. reflexivity. }
    destruct Hr as [Hb He Hrep Hi Hs Hla]. unfold item in *. rewrite trailer_nil in * by exact Hbig. rewrite app_nil_l in *.
    assert (Hsplit : exists b, buffer_ r = physical t p ++ b /\ b ++ unread (file_ r) = tail /\ bytes_ok b).
    { exists (zdrop (zlen (physical t p)) (buffer_ r)).
      assert (Hle : zlen (physical t p) <= zlen (buffer_ r)).
      { destruct (eof_ r) eqn:Heof; [destruct He as [He _]; rewrite He, app_nil_r in Hb; rewrite Hb, zlen_app; lia|].
        rewrite He, zlen_physical. destruct (Z.eqb_spec off 0) as [->|]; [|lia]. exfalso. apply Hcase. auto. }
      assert (Hpre : ztake (zlen (physical t p)) (buffer_ r) = physical t p).
      { rewrite <- (ztake_app_le _ (buffer_ r) (unread (file_ r))) by exact Hle. rewrite Hb. apply ztake_app. }
      assert (Htl : zdrop (zlen (physical t p)) (buffer_ r) ++ unread (file_ r) = tail).
      { apply (app_inv_head (physical t p)). rewrite app_assoc. rewrite <- Hpre at 1. rewrite ztake_zdrop. exact Hb. }
      split; [rewrite <- Hpre at 1; symmetry; apply ztake_zdrop|]. split; [exact Htl|].
      rewrite <- Htl in Htail. apply bytes_ok_app in Htail. apply Htail. }
    destruct Hsplit as (b & Eb & Htl & Hbok). cbn [ReadPhysicalRecord_loop].
    rewrite (proj2 (Z.ltb_ge (zlen (buffer_ r)) _)).
    2: { rewrite Eb, zlen_app, zlen_physical. pose proof (zlen_nonneg b). lia. }
    rewrite (parse_complete result r t p b Ht Hp Hl Hbok Eb Hi). eexists. split; [reflexivity|].
    constructor; cbn [buffer_ file_ eof_ reporter_ initial_offset_ resyncing_ last_record_offset_ set_buffer]; auto.
    destruct (eof_ r).
    + destruct He as [He1 He2]. split; [exact He1|]. rewrite zlen_app, zlen_physical in He2. lia.
    + rewrite Eb, zlen_app, zlen_physical in He. unfold kHeaderSize in *. rewrite (proj2 (Z.eqb_neq (next off p) 0)) by lia.
      destruct (Z.eqb_spec off 0); pose proof (zlen_nonneg b); lia.
Qed.

(** The end of the file before the end of a physical record. *)
Lemma read_cut rep r off t p k result :
  reading rep r off (ztake k (item off t p)) -> 0 <= off <= kBlockSize -> next off p <= kBlockSize ->
  0 <= k < zlen (item off t p) ->
  exists r', ReadPhysicalRecord result r = Some (kEof, result, r') /\ reporter_ r' = rep.
Proof.
  intros Hr Ho Hn Hk. pose proof (zlen_nonneg p) as Hp0. pose proof (next_range off p ltac:(lia)) as Hnr.
  assert (Hl : zlen p < 65536) by (unfold next, kBlockSize, kHeaderSize in Hn; destruct (_ <? _); lia).
  assert (Hlen : zlen (ztake k (item off t p)) = k) by (apply zlen_ztake; lia). unfold ReadPhysicalRecord.
  assert (Hend : forall fuel r1 k', eof_ r1 = true -> reporter_ r1 = rep ->
    buffer_ r1 = ztake k' (physical t p) -> 0 <= k' < zlen (physical t p) ->
    exists r', ReadPhysicalRecord_loop (S fuel) result r1 = Some (kEof, result, r') /\ reporter_ r' = rep).
  { intros fuel r1 k' He Hrep Hb Hk'. cbn [ReadPhysicalRecord_loop]. rewrite He. cbn [negb].
    destruct (Z.ltb_spec (zlen (buffer_ r1)) kHeaderSize) as [Hs|Hs]; [eexists; split; [reflexivity|exact Hrep]|].
    rewrite Hb, zlen_ztake in Hs by lia. rewrite (parse_cut result r1 t p k' []) by (rewrite ?app_nil_r; change (zlen []) with 0; auto; lia). eexists. split; [reflexivity|exact Hrep]. }
  destruct (eof_ r) eqn:Heof.
  - destruct Hr as [Hb He Hrep Hi Hs Hla]. rewrite Heof in He. destruct He as [He1 He2]. rewrite He1, app_nil_r in Hb. rewrite Hlen in He2.
    destruct (Z.lt_ge_cases (kBlockSize - off) kHeaderSize) as [Hsmall|Hbig].
    + cbn [ReadPhysicalRecord_loop]. rewrite Heof, Hb, Hlen, (proj2 (Z.ltb_lt _ _)) by lia. cbn [negb].
      eexists. split; [reflexivity|exact Hrep].
    + unfold item in *. rewrite trailer_nil in * by exact Hbig. rewrite app_nil_l in *. apply (Hend _ _ k); auto; lia.
  - assert (Hoff : off = 0 \/ kBlockSize - off < kHeaderSize).
    { destruct (Z.eq_dec off 0); [auto|]. right. destruct (Z.lt_ge_cases (kBlockSize - off) kHeaderSize) as [|Hbig]; [assumption|].
      exfalso. destruct Hr as [Hb He _ _ _ _]. rewrite Heof, (proj2 (Z.eqb_neq off 0)) in He by assumption.
      apply (f_equal zlen) in Hb. rewrite zlen_app, Hlen in Hb. pose proof (zlen_nonneg (unread (file_ r))).
      unfold item in Hk. rewrite trailer_nil, app_nil_l, zlen_physical in Hk by exact Hbig.
      unfold next in Hn. rewrite (proj2 (Z.ltb_ge _ _)) in Hn by exact Hbig. lia. }
    destruct (read_block rep r off _ result 1 Hr Ho Hoff Heof) as (Hlb & r1 & -> & Hb1 & Hu1 & He1 & Hr1 & Hi1 & Hs1 & Hla1).
    rewrite Hlb in Hb1, He1. assert (Htr : zlen (trailer off) <= k).
    { rewrite <- Hlb. destruct Hr as [Hb _ _ _ _ _]. apply (f_equal zlen) in Hb. rewrite zlen_app, Hlen in Hb.
      pose proof (zlen_nonneg (unread (file_ r))). lia. }
    pose proof (zlen_nonneg (trailer off)) as Htr0.
    assert (Erest : zdrop (zlen (trailer off)) (ztake k (item off t p)) = ztake (k - zlen (trailer off)) (physical t p)).
    { unfold item. replace k with (zlen (trailer off) + (k - zlen (trailer off))) at 1 by lia.
      rewrite ztake_app_add, zdrop_app by lia. reflexivity. }
    assert (En : zlen (physical t p) <= kBlockSize).
    { rewrite zlen_physical. unfold next in Hn. destruct Hoff as [-> |Hoff]; [change (kBlockSize - 0 <? kHeaderSize) with false in Hn; cbn iota in Hn; lia|].
      rewrite (proj2 (Z.ltb_lt _ _)) in Hn by exact Hoff. lia. }
    unfold item in Hk. rewrite zlen_app in Hk. rewrite Erest in Hb1, He1.
    rewrite zlen_ztake, (proj2 (Z.ltb_lt _ _)) in He1 by lia.
    rewrite ztake_all_ge in Hb1 by (rewrite zlen_ztake; lia).
    apply (Hend _ _ (k - zlen (trailer off))); auto; lia.
Qed.

Lemma reading_set_resyncing rep r off s : reading rep r off s -> reading rep (set_resyncing false r) off s.
Proof. intros []. constructor; auto. Qed.

Lemma reading_set_last rep r off s o : 0 <= o -> reading rep r off s -> reading rep (set_last_record_offset o r) off s.
Proof. intros Ho []. constructor; auto. Qed.

Lemma item_ok off t p : byte_ok t -> bytes_ok p -> bytes_ok (item off t p).
Proof.
  intros Ht Hp. unfold item, physical, header, trailer.
  repeat (apply bytes_ok_app; split); auto with bytes; [|constructor; [exact Ht|constructor]].
  destruct (_ <? _); [|constructor]. unfold zrep. apply Forall_replicate. unfold byte_ok. lia.
Qed.

Lemma zlen_item_pos off t p : 0 < zlen (item off t p).
Proof.
  unfold item. rewrite zlen_app, zlen_physical. pose proof (zlen_nonneg (trailer off)). pose proof (zlen_nonneg p).
  unfold kHeaderSize. lia.
Qed.

Lemma fragmented_ok begin off data bytes off' : fragmented begin off data bytes off' -> bytes_ok data -> bytes_ok bytes.
Proof.
  assert (K : forall b : bool, byte_ok (if b then kFullType else kLastType) /\ byte_ok (if b then kFirstType else kMiddleType))
    by (intros []; split; unfold byte_ok, kFullType, kLastType, kFirstType, kMiddleType; lia).
  induction 1 as [begin off p Hn|begin off p q bytes off' Hn H IH]; intros Hd.
  - apply item_ok; [apply K|exact Hd].
  - apply bytes_ok_app in Hd as [Hp Hq]. apply bytes_ok_app. split; [apply item_ok; [apply K|exact Hp]|auto].
Qed.

(** The bytes of a record give back the record. *)
Lemma read_fragmented begin off data bytes off' : fragmented begin off data bytes off' ->
  forall fuel pro fragment scratch r rep tail,
  reading rep r off (bytes ++ tail) -> 0 <= pro -> 0 <= off <= kBlockSize -> bytes_ok data -> bytes_ok tail -> zlen bytes <= Z.of_nat fuel ->
  exists r', ReadRecord_loop fuel (negb begin) pro fragment scratch r = Some (Some ((if begin then [] else scratch) ++ data), r') /\
    reading rep r' off' tail.
Proof.
  induction 1 as [begin off p Hn|begin off p q bytes off' Hn H IH]; intros fuel pro fragment scratch r rep tail Hr Hpro Ho Hd Ht Hf.
  - pose proof (zlen_item_pos off (if begin then kFullType else kLastType) p).
    destruct fuel as [|fuel]; [unfold zlen in *; lia|]. cbn [ReadRecord_loop].
    destruct (read_item _ _ _ _ _ _ fragment Hr Ho Hn ltac:(destruct begin; unfold kFullType, kLastType; lia) Hd Ht) as (r1 & -> & Hr1).
    cbn [mbind option_bind]. pose proof Hr1 as [_ _ _ _ Hs _]. rewrite Hs. cbn [andb].
    destruct begin; cbn [negb]; eexists; (split; [reflexivity|]);
      (apply reading_set_last; [first [apply u64_range|exact Hpro]|apply reading_set_resyncing, Hr1]).
  - pose proof (zlen_item_pos off (if begin then kFirstType else kMiddleType) p). rewrite zlen_app in Hf.
    destruct fuel as [|fuel]; [pose proof (zlen_nonneg bytes); unfold zlen in *; lia|]. cbn [ReadRecord_loop].
    apply bytes_ok_app in Hd as [Hp Hq]. rewrite <- app_assoc in Hr. pose proof (fragmented_ok _ _ _ _ _ H Hq) as Hbytes.
    destruct (read_item _ _ _ _ _ _ fragment Hr Ho Hn ltac:(destruct begin; unfold kFirstType, kMiddleType; lia) Hp
      (proj2 (bytes_ok_app _ _) (conj Hbytes Ht))) as (r1 & -> & Hr1).
    cbn [mbind option_bind]. pose proof Hr1 as [_ _ _ _ Hs _]. rewrite Hs. cbn [andb]. pose proof (next_range off p ltac:(lia)).
    apply reading_set_resyncing in Hr1.
    assert (Ho1 : 0 <= next off p <= kBlockSize) by (unfold kHeaderSize in *; lia).
    destruct begin; cbn [negb].
    + destruct (IH fuel (u64 (end_of_buffer_offset_ r1 - zlen (buffer_ r1) - kHeaderSize - zlen p)) p p _ rep tail Hr1 ltac:(apply u64_range) Ho1 Hq Ht ltac:(lia))
        as (r' & E & Hr'). exists r'. split; [exact E|exact Hr'].
    + destruct (IH fuel pro p (scratch ++ p) _ rep tail Hr1 Hpro Ho1 Hq Ht ltac:(lia)) as (r' & E & Hr').
      exists r'. split; [rewrite app_assoc; exact E|exact Hr'].
Qed.

Lemma read_stops fuel in_fragmented pro fragment scratch rep r off t p k :
  reading rep r off (ztake k (item off t p)) -> 0 <= off <= kBlockSize -> next off p <= kBlockSize ->
  0 <= k < zlen (item off t p) -> k < Z.of_nat fuel ->
  exists r', ReadRecord_loop fuel in_fragmented pro fragment scratch r = Some (None, r') /\ reporter_ r' = rep.
Proof.
  intros Hr Ho Hn Hk Hf. destruct fuel as [|fuel]; [lia|]. cbn [ReadRecord_loop].
  destruct (read_cut _ _ _ _ _ _ fragment Hr Ho Hn Hk) as (r' & -> & Hrep). cbn [mbind option_bind]. rewrite !andb_false_r. cbn. eexists. split; [reflexivity|exact Hrep].
Qed.

(** A record of which the end is missing is not there, and not reported. *)
Lemma read_fragmented_cut begin off data bytes off' : fragmented begin off data bytes off' ->
  forall fuel k pro fragment scratch r rep,
  reading rep r off (ztake k bytes) -> 0 <= off <= kBlockSize -> bytes_ok data -> 0 <= k < zlen bytes -> k < Z.of_nat fuel ->
  exists r', ReadRecord_loop fuel (negb begin) pro fragment scratch r = Some (None, r') /\ reporter_ r' = rep.
Proof.
  induction 1 as [begin off p Hn|begin off p q bytes off' Hn H IH]; intros fuel k pro fragment scratch r rep Hr Ho Hd Hk Hf.
  - eapply read_stops; eassumption.
  - set (t := if begin then kFirstType else kMiddleType) in *. rewrite zlen_app in Hk. pose proof (zlen_item_pos off t p) as Hpos.
    destruct (Z.lt_ge_cases k (zlen (item off t p))) as [Hlt|Hge].
    + rewrite ztake_app_le in Hr by lia. eapply read_stops; eauto; lia.
    + apply bytes_ok_app in Hd as [Hp Hq]. pose proof (fragmented_ok _ _ _ _ _ H Hq) as Hbytes.
      replace k with (zlen (item off t p) + (k - zlen (item off t p))) in Hr by lia. rewrite ztake_app_add in Hr by lia.
      destruct fuel as [|fuel]; [lia|]. cbn [ReadRecord_loop].
      destruct (read_item _ _ _ _ _ _ fragment Hr Ho Hn ltac:(unfold t; destruct begin; unfold kFirstType, kMiddleType; lia) Hp
        (bytes_ok_ztake _ _ Hbytes)) as (r1 & -> & Hr1).
      cbn [mbind option_bind]. pose proof Hr1 as [_ _ _ _ Hs _]. rewrite Hs. cbn [andb]. pose proof (next_range off p ltac:(lia)).
      apply reading_set_resyncing in Hr1. assert (Ho1 : 0 <= next off p <= kBlockSize) by (unfold kHeaderSize in *; lia).
      unfold t. destruct begin; cbn [negb];
        (eapply IH; [exact Hr1|exact Ho1|exact Hq|unfold t in *; lia|unfold t in *; lia]).
Qed.

Lemma ReadRecord_loop_0 fuel rep r off s : reading rep r off s -> ReadRecord fuel r = ReadRecord_loop fuel false 0 [] [] r.
Proof. intros [_ _ _ Hi _ Hl]. unfold ReadRecord. rewrite Hi, (proj2 (Z.ltb_ge _ _)) by exact Hl. reflexivity. Qed.

Lemma logged_bytes off rs bytes off1 : logged off rs bytes off1 -> Forall bytes_ok rs -> bytes_ok bytes.
Proof.
  induction 1 as [|off r0 bytes off1 rs rest off2 Hf _ IH]; intros Hrs; [constructor|]. apply List.Forall_cons_iff in Hrs as [Hr Hrs].
  apply bytes_ok_app. split; [eapply fragmented_ok; eassumption|apply IH, Hrs].
Qed.

(** The next record, when it is whole. *)
Lemma ReadRecord_next off r0 bytes off1 rest fuel r rep :
  fragmented true off r0 bytes off1 -> reading rep r off (bytes ++ rest) -> 0 <= off <= kBlockSize -> bytes_ok r0 -> bytes_ok rest ->
  zlen bytes < Z.of_nat fuel ->
  exists r', ReadRecord fuel r = Some (Some r0, r') /\ reading rep r' off1 rest /\ 0 <= off1 <= kBlockSize.
Proof.
  intros Hfr Hr Ho Hr0 Hrest Hf. rewrite (ReadRecord_loop_0 _ _ _ _ _ Hr).
  destruct (read_fragmented _ _ _ _ _ Hfr fuel 0 [] [] r rep _ Hr ltac:(lia) Ho Hr0 Hrest ltac:(lia)) as (r' & E & Hr').
  cbn [negb app] in E. rewrite E. pose proof (fragmented_next _ _ _ _ _ Ho Hfr) as Hn. unfold kHeaderSize in Hn. eauto with lia.
Qed.

(** The end, where only the beginning of a record is left. *)
Lemma ReadRecord_end off last last_bytes off1 k fuel r rep :
  fragmented true off last last_bytes off1 -> reading rep r off (ztake k last_bytes) -> 0 <= off <= kBlockSize -> bytes_ok last ->
  0 <= k < zlen last_bytes -> k < Z.of_nat fuel -> exists r', ReadRecord fuel r = Some (None, r') /\ reporter_ r' = rep.
Proof.
  intros Hfr Hr Ho Hok Hk Hf. rewrite (ReadRecord_loop_0 _ _ _ _ _ Hr).
  destruct (read_fragmented_cut _ _ _ _ _ Hfr fuel k 0 [] [] r rep Hr Ho Hok Hk ltac:(lia)) as (r' & E & Hrep).
  cbn [negb] in E. rewrite E. eauto.
Qed.

(** Whole records, and then what the reader takes for the end. *)
Lemma read_whole off rs bytes off1 : logged off rs bytes off1 ->
  forall fuel fuel' rest r rep, reading rep r off (bytes ++ rest) -> 0 <= off <= kBlockSize -> Forall bytes_ok rs -> bytes_ok rest ->
  (length rs < fuel)%nat -> zlen bytes < Z.of_nat fuel' ->
  (forall r', reading rep r' off1 rest -> 0 <= off1 <= kBlockSize -> exists r2, ReadRecord fuel' r' = Some (None, r2) /\ reporter_ r2 = rep) ->
  exists r', read_all fuel fuel' r = Some (rs, r') /\ reporter_ r' = rep.
Proof.
  induction 1 as [off|off r0 bytes off1 rs rest off2 Hfr Hlog IH]; intros fuel fuel' tail r rep Hr Ho Hrs Hok Hf Hf' Hend;
    (destruct fuel as [|fuel]; [cbn in Hf; lia|]); cbn [read_all].
  - rewrite app_nil_l in Hr. destruct (Hend r Hr Ho) as (r' & -> & Hrep). cbn [mbind option_bind]. eauto.
  - apply List.Forall_cons_iff in Hrs as [Hr0 Hrs]. rewrite <- app_assoc in Hr. rewrite zlen_app in Hf'. pose proof (zlen_nonneg rest).
    pose proof (zlen_nonneg bytes). assert (Htail : bytes_ok (rest ++ tail)) by (apply bytes_ok_app; split; [exact (logged_bytes _ _ _ _ Hlog Hrs)|exact Hok]).
    destruct (ReadRecord_next _ _ _ _ _ fuel' r rep Hfr Hr Ho Hr0 Htail ltac:(lia)) as (r' & -> & Hr' & Ho'). cbn [mbind option_bind].
    destruct (IH fuel fuel' tail r' rep Hr' Ho' Hrs Hok ltac:(cbn in Hf; lia) ltac:(lia) Hend) as (r2 & -> & Hrep). cbn [mbind option_bind]. eauto.
Qed.

(** Whole records, and the beginning of one more. *)
Lemma read_logged off rs bytes off1 : logged off rs bytes off1 ->
  forall fuel fuel' k last last_bytes off2 r rep,
  fragmented true off1 last last_bytes off2 -> 0 <= k < zlen last_bytes ->
  reading rep r off (bytes ++ ztake k last_bytes) -> 0 <= off <= kBlockSize -> Forall bytes_ok rs -> bytes_ok last ->
  (length rs < fuel)%nat -> zlen bytes + k < Z.of_nat fuel' ->
  exists r', read_all fuel fuel' r = Some (rs, r') /\ reporter_ r' = rep.
Proof.
  intros Hlog fuel fuel' k last last_bytes off3 r rep Hlast Hk Hr Ho Hrs Hok Hf Hf'. pose proof (zlen_nonneg bytes).
  apply (read_whole off rs bytes off1 Hlog fuel fuel' (ztake k last_bytes)); auto; [|lia|].
  - apply bytes_ok_ztake, (fragmented_ok _ _ _ _ _ Hlast Hok).
  - intros r' Hr' Ho'. exact (ReadRecord_end _ _ _ _ k fuel' r' rep Hlast Hr' Ho' Hok Hk ltac:(lia)).
Qed.

(** The beginning of a log: some of its records, and the beginning of another. *)
Lemma logged_cut off rs bytes off1 : logged off rs bytes off1 -> 0 <= off <= kBlockSize ->
  forall n, 0 <= n <= zlen bytes ->
  exists rs1 rs2 b1 offm last last_bytes off2 k, rs = rs1 ++ rs2 /\ logged off rs1 b1 offm /\
    fragmented true offm last last_bytes off2 /\ 0 <= k < zlen last_bytes /\ ztake n bytes = b1 ++ ztake k last_bytes /\
    n = zlen b1 + k /\ (n = zlen bytes -> rs2 = []) /\ (last = [] \/ head rs2 = Some last).
Proof.
  assert (Hany : forall off, 0 <= off <= kBlockSize -> exists bytes off', fragmented true off [] bytes off' /\ 0 < zlen bytes).
  { intros o Ho. exists (item o kFullType []), (next o []). split; [|apply zlen_item_pos].
    apply (fragmented_end true). unfold next. change (zlen []) with 0. unfold kBlockSize, kHeaderSize in *.
    destruct (Z.ltb_spec (32768 - o) (4 + 2 + 1)); lia. }
  induction 1 as [off|off r0 bytes off1 rs rest off2 Hfr Hlog IH]; intros Ho n Hn.
  - destruct (Hany off Ho) as (last & o & Hf & Hp). change (zlen []) with 0 in Hn.
    exists [], [], [], off, [], last, o, 0. split; [reflexivity|]. split; [constructor|]. split; [exact Hf|]. split; [lia|].
    replace n with 0 by lia. auto.
  - destruct (Z.lt_ge_cases n (zlen bytes)) as [Hlt|Hge].
    + exists [], (r0 :: rs), [], off, r0, bytes, off1, n. split; [reflexivity|]. split; [constructor|]. split; [exact Hfr|].
      split; [lia|]. rewrite ztake_app_le by lia. split; [reflexivity|]. split; [reflexivity|]. split; [|auto].
      rewrite zlen_app. pose proof (zlen_nonneg rest). lia.
    + pose proof (fragmented_next _ _ _ _ _ Ho Hfr) as Hnx. unfold kHeaderSize in Hnx. rewrite zlen_app in Hn.
      destruct (IH ltac:(lia) (n - zlen bytes) ltac:(lia)) as (rs1 & rs2 & b1 & offm & last & lb & o & k & -> & Hl & Hf & Hk & E & En & Hall & Hh).
      exists (r0 :: rs1), rs2, (bytes ++ b1), offm, last, lb, o, k. split; [reflexivity|]. split; [econstructor; eassumption|].
      split; [exact Hf|]. split; [exact Hk|]. rewrite !zlen_app. replace n with (zlen bytes + (n - zlen bytes)) at 1 by lia.
      rewrite ztake_app_add, E, app_assoc by lia. split; [reflexivity|]. split; [lia|]. split; [intros ->; apply Hall; lia|exact Hh].
Qed.

Lemma reading_new g s rep checksum : unread g = s -> reading rep (new_Reader g rep checksum 0) 0 s.
Proof. intros <-. constructor; reflexivity. Qed.
End ReadingProofs.

(** * The log as a whole *)

(** The records added by one writer, until one fails. *)
Fixpoint AddRecords {P : Port} {A : Address} {F} {W : WritableFile F} (rs : list (list Z)) (w : Writer F) : bool * Writer F :=
  match rs with
  | [] => (true, w)
  | r :: rs => match AddRecord r w with (true, w) => AddRecords rs w | (false, w) => (false, w) end
  end.

(** The records of several writers, each of which takes up the file where it ends. *)
Fixpoint write_sessions {P : Port} {A : Address} {F} {W : WritableFile F} {WL : WritableFileLaws F}
    (sessions : list (list (list Z))) (f : F) : bool * F :=
  match sessions with
  | [] => (true, f)
  | rs :: sessions =>
    match AddRecords rs (new_Writer_at f (zlen (contents f))) with
    | (true, w) => write_sessions sessions (dest_ w)
    | (false, w) => (false, dest_ w)
    end
  end.

Lemma logged_app off rs1 b1 off1 rs2 b2 off2 : logged off rs1 b1 off1 -> logged off1 rs2 b2 off2 ->
  logged off (rs1 ++ rs2) (b1 ++ b2) off2.
Proof. induction 1; intros Hl; [exact Hl|]. cbn [app]. rewrite <- app_assoc. econstructor; eauto. Qed.

(** The end of a block is the start of the next. *)
Lemma fragmented_wrap begin data bytes off' : fragmented begin 0 data bytes off' -> fragmented begin kBlockSize data bytes off'.
Proof.
  assert (Ei : forall t p, item 0 t p = item kBlockSize t p) by (intros; unfold item; reflexivity).
  assert (En : forall p, next 0 p = next kBlockSize p) by reflexivity.
  inversion 1 as [? ? p Hn|? ? p q b ? Hn Hq]; subst; rewrite ?Ei, ?En in *; constructor; assumption.
Qed.

Lemma logged_mod off rs bytes off' : 0 <= off <= kBlockSize -> logged off rs bytes off' ->
  0 <= off' <= kBlockSize /\ (off + zlen bytes) mod kBlockSize = off' mod kBlockSize.
Proof.
  intros Ho H. revert Ho. induction H as [off|off r0 bytes off1 rs rest off2 Hfr Hlog IH]; intros Ho.
  - rewrite Z.add_0_r. auto.
  - pose proof (fragmented_next _ _ _ _ _ Ho Hfr) as Hn. unfold kHeaderSize in Hn. destruct IH as [IH1 IH2]; [lia|].
    split; [exact IH1|]. rewrite <- IH2. rewrite zlen_app, Z.add_assoc, <- Z.add_mod_idemp_l, (fragmented_mod _ _ _ _ _ Ho Hfr) by discriminate.
    apply Z.add_mod_idemp_l. discriminate.
Qed.

Section Log.
Context {P : Port} {A : Address} {F : Type} {W : WritableFile F} {WL : WritableFileLaws F} {R : ReliableFile F}.

Lemma AddRecords_ok rs : forall w, types_ok w -> 0 <= block_offset_ w <= kBlockSize -> Forall bytes_ok rs ->
  exists w' bytes, AddRecords rs w = (true, w') /\ contents (dest_ w') = contents (dest_ w) ++ bytes /\
    logged (block_offset_ w) rs bytes (block_offset_ w').
Proof.
  induction rs as [|r rs IH]; intros w Hw Ho Hrs; cbn [AddRecords].
  - exists w, []. rewrite app_nil_r. split; [reflexivity|split; [reflexivity|constructor]].
  - apply List.Forall_cons_iff in Hrs as [Hr Hrs].
    destruct (AddRecord_ok r w Hw Ho Hr) as (w1 & b1 & -> & Hw1 & Ho1 & Hc1 & Hf1).
    destruct (IH w1 Hw1 Ho1 Hrs) as (w' & b2 & -> & Hc2 & Hl2). exists w', (b1 ++ b2). split; [reflexivity|].
    rewrite Hc2, Hc1, app_assoc. split; [reflexivity|]. econstructor; eassumption.
Qed.

Lemma logged_take_up off rs bytes off' : 0 <= off <= kBlockSize -> logged (off mod kBlockSize) rs bytes off' ->
  exists off'', logged off rs bytes off''.
Proof.
  intros Ho Hl. destruct (Z.eq_dec off kBlockSize) as [->|Hne]; [|rewrite Z.mod_small in Hl by lia; eauto].
  rewrite Z.mod_same in Hl by discriminate. inversion Hl; subst; [exists kBlockSize; constructor|].
  exists off'. econstructor; [apply fragmented_wrap; eassumption|assumption].
Qed.

Lemma write_sessions_ok sessions : forall f off,
  0 <= off <= kBlockSize -> zlen (contents f) mod kBlockSize = off mod kBlockSize -> Forall (Forall bytes_ok) sessions ->
  exists f' b' off', write_sessions sessions f = (true, f') /\ contents f' = contents f ++ b' /\
    logged off (concat sessions) b' off'.
Proof.
  induction sessions as [|s sessions IH]; intros f off Ho Hmod Hs; cbn [write_sessions concat].
  - exists f, [], off. rewrite app_nil_r. split; [reflexivity|split; [reflexivity|constructor]].
  - apply List.Forall_cons_iff in Hs as [Hs Hss].
    set (w0 := new_Writer_at f (zlen (contents f))).
    assert (Ho0 : block_offset_ w0 = off mod kBlockSize) by exact Hmod.
    destruct (AddRecords_ok s w0) as (w' & b1 & E & Hc' & Hl'); [reflexivity| |exact Hs|].
    { rewrite Ho0. pose proof (Z.mod_pos_bound off kBlockSize ltac:(reflexivity)). lia. }
    rewrite E. rewrite Ho0 in Hl'. destruct (logged_take_up _ _ _ _ Ho Hl') as [off1 Hl1].
    destruct (logged_mod _ _ _ _ Ho Hl1) as [Ho1 Hm1]. change (contents (dest_ w0)) with (contents f) in Hc'.
    destruct (IH (dest_ w') off1 Ho1) as (f' & b' & off' & E' & Hc & Hl2); [|exact Hss|].
    + rewrite Hc', zlen_app, <- Hm1, <- Z.add_mod_idemp_l, Hmod, Z.add_mod_idemp_l by discriminate. reflexivity.
    + exists f', (b1 ++ b'), off'. split; [exact E'|]. rewrite Hc, Hc', app_assoc. split; [reflexivity|].
      eapply logged_app; eassumption.
Qed.
End Log.

(** C4: What a log gives back after a crash.  Records are added by any number of
    writers, each opened at the length the file has.  Then all records added
    before some point are read back, in order and unchanged, from every state of
    the file that is at least as long as it was at that point: from the whole file,
    and from the file cut anywhere, in the middle of a record, of a header or of
    the bytes at the end of a block.  What follows them is the beginning of the
    records added later; nothing else is read, and nothing is reported. *)
Theorem log_recovers_prefix (P : Port) (A : Address) F (W : WritableFile F) (WL : WritableFileLaws F) (R : ReliableFile F)
    G (SF : SequentialFile G) (SL : SequentialFileLaws G) (f0 : F) (before after : list (list (list Z))) :
  contents f0 = [] -> Forall (Forall bytes_ok) before -> Forall (Forall bytes_ok) after ->
  exists f1 f2, write_sessions before f0 = (true, f1) /\ write_sessions after f1 = (true, f2) /\
  forall (g : G) n rep checksum, zlen (contents f1) <= n <= zlen (contents f2) -> unread g = ztake n (contents f2) ->
  exists found lost, concat after = found ++ lost /\ (n = zlen (contents f2) -> lost = []) /\
  forall fuel fuel', (length (concat before) + length (concat after) < fuel)%nat -> n < Z.of_nat fuel' ->
  exists r, read_all fuel fuel' (new_Reader g rep checksum 0) = Some (concat before ++ found, r) /\ reporter_ r = rep.
Proof.
  intros Hc0 Hb Ha. assert (H0 : 0 <= 0 <= kBlockSize) by (unfold kBlockSize; lia).
  destruct (write_sessions_ok before f0 0 H0 ltac:(rewrite Hc0; reflexivity) Hb) as (f1 & b1 & off1 & E1 & Hc1 & Hl1).
  destruct (logged_mod _ _ _ _ H0 Hl1) as [Ho1 Hm1]. rewrite Hc0, app_nil_l in Hc1. rewrite Z.add_0_l in Hm1.
  destruct (write_sessions_ok after f1 off1 Ho1 ltac:(rewrite Hc1; exact Hm1) Ha) as (f2 & b2 & off2 & E2 & Hc2 & Hl2).
  exists f1, f2. split; [exact E1|]. split; [exact E2|]. intros g n rep checksum Hn Hg. rewrite Hc2, Hc1 in *. rewrite zlen_app in *.
  destruct (logged_cut _ _ _ _ Hl2 Ho1 (n - zlen b1) ltac:(lia)) as
    (found & lost & bf & offm & last & lb & offl & k & Ef & Hlf & Hfr & Hk & Ecut & En & Hall & Hlast).
  exists found, lost. split; [exact Ef|]. split; [intros ->; apply Hall; lia|]. intros fuel fuel' Hf Hf'.
  assert (Hfl : Forall bytes_ok (found ++ lost)) by (rewrite <- Ef; apply Forall_concat; exact Ha). apply Forall_app in Hfl as [Hff Hfl].
  assert (Hlok : bytes_ok last).
  { destruct Hlast as [->|Hh]; [constructor|]. destruct lost as [|x lost]; [discriminate|]. injection Hh as ->. apply List.Forall_cons_iff in Hfl. apply Hfl. }
  rewrite Ef in Hf. rewrite length_app in Hf.
  apply (read_logged 0 (concat before ++ found) (b1 ++ bf) offm) with (k := k) (last := last) (last_bytes := lb) (off2 := offl); auto.
  - eapply logged_app; eassumption.
  - apply reading_new. rewrite Hg. replace n with (zlen b1 + (n - zlen b1)) by lia. rewrite ztake_app_add, Ecut, app_assoc by lia. reflexivity.
  - apply Forall_app. split; [apply Forall_concat; exact Hb|exact Hff].
  - rewrite length_app. lia.
  - rewrite zlen_app. lia.
Qed.

(** * Any file at all *)

(** Decide whether a type that is known is [kBadRecord]. *)
Ltac known_type :=
  match goal with |- context [?a =? kBadRecord] =>
    let v := eval vm_compute in (a =? kBadRecord) in change (a =? kBadRecord) with v; cbn iota
  end.

Section AnyFile.
Context {P : Port} {A : Address} {F : Type} {SF : SequentialFile F} {SL : SequentialFileLaws F}.

(** What the reader has not parsed yet. *)
Definition pending (r : Reader F) : Z := zlen (buffer_ r) + zlen (unread (file_ r)).

Lemma pending_nonneg r : 0 <= pending r.
Proof. unfold pending. pose proof (zlen_nonneg (buffer_ r)). pose proof (zlen_nonneg (unread (file_ r))). lia. Qed.

Lemma pending_report bytes why r : pending (ReportCorruption bytes why r) = pending r.
Proof. unfold ReportCorruption, ReportDrop. destruct (reporter_ r); [|reflexivity]. destruct (_ <=? _); reflexivity. Qed.

(** A physical record takes its header and its data off the input; what is bad takes
    at least a header. *)
Definition parsed (fragment : list Z) (r : Reader F) (x : Z * list Z * Reader F) : Prop :=
  let '(t, fragment', r') := x in
  (t = kEof /\ pending r' <= pending r) \/
  (t = kBadRecord /\ kHeaderSize + pending r' <= pending r) \/
  kHeaderSize + zlen fragment' + pending r' <= pending r.

Lemma parse_parsed fragment r : kHeaderSize <= zlen (buffer_ r) -> parsed fragment r (parse_physical fragment r).
Proof.
  intros Hb. unfold parse_physical. cbn zeta.
  set (len := Z.lor (Z.land (u32 (char_to_uint (znth 0 4 (buffer_ r)))) 255) _).
  assert (Hlen : 0 <= len).
  { apply Z.lor_nonneg. rewrite land_255. split; [|unfold u32]; dlia. }
  pose proof (zlen_nonneg (unread (file_ r))) as Hu. set (t := char_to_uint _). clearbody len t.
  destruct (Z.ltb_spec (zlen (buffer_ r)) (kHeaderSize + len)) as [Hs|Hs].
  { destruct (negb (eof_ (set_buffer [] r))); cbv beta iota delta [parsed]; rewrite ?pending_report; [right; left|left]; (split; [reflexivity|]);
      unfold pending in *; cbn [buffer_ file_ set_buffer]; change (zlen []) with 0; unfold kHeaderSize in *; lia. }
  destruct ((t =? kZeroType) && (len =? 0)).
  { cbv beta iota delta [parsed]. right. left. split; [reflexivity|]. unfold pending. cbn [buffer_ file_ set_buffer]. change (zlen []) with 0. lia. }
  destruct (checksum_ r && _).
  { cbv beta iota delta [parsed]. right. left. split; [reflexivity|]. rewrite pending_report. unfold pending. cbn [buffer_ file_ set_buffer]. change (zlen []) with 0. lia. }
  destruct (_ <? _); cbv beta iota delta [parsed]; [right; left; split; [reflexivity|]|right; right];
    unfold pending; cbn [buffer_ file_ set_buffer]; rewrite zlen_zdrop by (unfold kHeaderSize in *; lia); [lia|].
  rewrite zlen_zsub by (unfold kHeaderSize in *; lia). lia.
Qed.

(** Two rounds are enough: the first reads a block, if it has to, and the second parses
    it or finds the end. *)
Lemma ReadPhysicalRecord_parsed fragment r : exists x, ReadPhysicalRecord fragment r = Some x /\ parsed fragment r x.
Proof.
  unfold ReadPhysicalRecord. cbn [ReadPhysicalRecord_loop]. pose proof (pending_nonneg r) as Hp.
  destruct (Z.ltb_spec (zlen (buffer_ r)) kHeaderSize) as [Hs|Hs]; [|eexists; split; [reflexivity|apply parse_parsed, Hs]].
  destruct (eof_ r) eqn:He; cbn [negb].
  { eexists. split; [reflexivity|]. left. split; [reflexivity|]. unfold pending. cbn [buffer_ file_ set_buffer]. change (zlen []) with 0.
    pose proof (zlen_nonneg (buffer_ r)). lia. }
  destruct (Read_unread kBlockSize (file_ r)) as [E1 E2]; [discriminate|].
  destruct (file_Read kBlockSize (file_ r)) as [[ok data] f]. cbn in E1, E2. injection E1 as -> Hdata. cbn [negb].
  cbn [buffer_ set_buffer set_end_of_buffer_offset set_file].
  set (r1 := set_end_of_buffer_offset _ _).
  assert (Hr1 : pending r1 <= pending r).
  { unfold pending, r1. cbn [buffer_ file_ set_buffer set_end_of_buffer_offset set_file]. rewrite E2, Hdata.
    rewrite <- (ztake_zdrop kBlockSize (unread (file_ r))) at 3. rewrite zlen_app. pose proof (zlen_nonneg (buffer_ r)). lia. }
  assert (K : forall r2, pending r2 = pending r1 -> kHeaderSize <= zlen (buffer_ r2) -> parsed fragment r (parse_physical fragment r2)).
  { intros r2 E2' Hb. pose proof (parse_parsed fragment r2 Hb) as Hx. unfold parsed in *.
    destruct (parse_physical fragment r2) as [[t p] r3]. destruct Hx as [[? ?]|[[? ?]|?]]; [left|right; left|right; right]; auto with lia. }
  change (zlen data) with (zlen (buffer_ r1)).
  destruct (Z.ltb_spec (zlen (buffer_ r1)) kBlockSize) as [Hlt|Hge].
  - change (buffer_ (set_eof true r1)) with (buffer_ r1). destruct (Z.ltb_spec (zlen (buffer_ r1)) kHeaderSize) as [Hs1|Hs1].
    + cbn [negb eof_ set_eof]. eexists. split; [reflexivity|]. left. split; [reflexivity|]. pose proof (zlen_nonneg (buffer_ r1)).
      unfold pending in *. cbn [buffer_ file_ set_buffer set_eof] in *. change (zlen []) with 0. lia.
    + eexists. split; [reflexivity|]. apply K; [reflexivity|exact Hs1].
  - assert (Hs1 : kHeaderSize <= zlen (buffer_ r1)) by (unfold kBlockSize, kHeaderSize in *; lia).
    destruct (Z.ltb_spec (zlen (buffer_ r1)) kHeaderSize) as [Hs2|_]; [lia|]. eexists. split; [reflexivity|]. apply K; [reflexivity|exact Hs1].
Qed.

(** What a reader may have after a record or the end. *)
Definition took (scratch : list Z) (r : Reader F) (x : option (list Z) * Reader F) : Prop :=
  match x with
  | (Some record, r') => kHeaderSize + zlen record + pending r' <= pending r + zlen scratch
  | (None, r') => pending r' <= pending r
  end.

(** Fuel for every byte is enough, and a record is not longer than what it is made of. *)
Lemma ReadRecord_loop_bounded fuel : forall extra in_fragmented pro fragment scratch r,
  pending r < Z.of_nat fuel ->
  exists x, ReadRecord_loop fuel in_fragmented pro fragment scratch r = Some x /\
    ReadRecord_loop (fuel + extra) in_fragmented pro fragment scratch r = Some x /\ took scratch r x.
Proof.
  induction fuel as [|fuel IH]; intros extra infrag pro fragment scratch r Hf; [pose proof (pending_nonneg r); lia|].
  change (S fuel + extra)%nat with (S (fuel + extra)). cbn [ReadRecord_loop].
  destruct (ReadPhysicalRecord_parsed fragment r) as ([[t p] r1] & -> & Hx). unfold parsed in Hx. cbn [mbind option_bind]. cbv zeta.
  pose proof (pending_nonneg r1) as Hr1. pose proof (zlen_nonneg p) as Hp. pose proof (zlen_nonneg scratch) as Hscr.
  assert (Hnil : zlen (@nil Z) = 0) by reflexivity.
  assert (Stop : forall x, took scratch r x -> exists x', Some x = Some x' /\ Some x = Some x' /\ took scratch r x') by eauto.
  assert (K : forall infrag' pro' scratch' r2, pending r2 = pending r1 -> t <> kEof ->
    zlen scratch' <= zlen scratch + (if t =? kBadRecord then 0 else zlen p) ->
    exists x, ReadRecord_loop fuel infrag' pro' p scratch' r2 = Some x /\
      ReadRecord_loop (fuel + extra) infrag' pro' p scratch' r2 = Some x /\ took scratch r x).
  { intros infrag' pro' scratch' r2 Hr2 Ht Hs'.
    assert (Hdec : kHeaderSize + (if t =? kBadRecord then 0 else zlen p) + pending r1 <= pending r).
    { destruct Hx as [[? ?]|[[-> ?]|?]]; [contradiction|rewrite Z.eqb_refl; lia|destruct (t =? kBadRecord); lia]. }
    destruct (IH extra infrag' pro' p scratch' r2) as (x & E1 & E2 & Hk); [unfold kHeaderSize in *; destruct (t =? kBadRecord); lia|].
    exists x. split; [exact E1|]. split; [exact E2|]. destruct x as [[record|] r']; unfold took, kHeaderSize in *; destruct (t =? kBadRecord); lia. }
  destruct (Z.eqb_spec t kMiddleType) as [->|Hm].
  { change (kMiddleType =? kLastType) with false. change (kMiddleType =? kFullType) with false. change (kMiddleType =? kFirstType) with false.
    rewrite andb_true_r, andb_false_r. destruct (resyncing_ r1); [apply K; try discriminate; [reflexivity|known_type; lia]|].
    destruct infrag; cbn [negb]; apply K; try discriminate; rewrite ?pending_report; try reflexivity; known_type; rewrite ?zlen_app; lia. }
  rewrite andb_false_r. destruct (Z.eqb_spec t kLastType) as [->|Hla].
  { change (kLastType =? kFullType) with false. change (kLastType =? kFirstType) with false. rewrite andb_true_r.
    destruct (resyncing_ r1); [apply K; try discriminate; [reflexivity|known_type; lia]|].
    destruct infrag; cbn [negb]; [|apply K; try discriminate; rewrite ?pending_report; [reflexivity|known_type; lia]].
    apply Stop. unfold took. rewrite zlen_app. change (pending (set_last_record_offset pro (set_resyncing false r1))) with (pending r1).
    destruct Hx as [[? ?]|[[? ?]|?]]; [discriminate|discriminate|lia]. }
  rewrite andb_false_r. destruct (Z.eqb_spec t kFullType) as [->|Hfu].
  { apply Stop. unfold took. assert (E : pending (if infrag && (0 <? zlen scratch)
      then ReportCorruption (zlen scratch) (Corruption "partial record without end(1)") (set_resyncing false r1)
      else set_resyncing false r1) = pending r1) by (destruct (infrag && _); rewrite ?pending_report; reflexivity).
    unfold pending in *. cbn [buffer_ file_ set_last_record_offset] in *. rewrite E.
    destruct Hx as [[? ?]|[[? ?]|?]]; [discriminate|discriminate|lia]. }
  destruct (Z.eqb_spec t kFirstType) as [->|Hfi].
  { apply K; try discriminate; [destruct (infrag && _); rewrite ?pending_report; reflexivity|known_type; lia]. }
  destruct (Z.eqb_spec t kEof) as [->|He].
  { apply Stop. unfold took. change (pending (set_resyncing false r1)) with (pending r1). unfold kHeaderSize in *.
    destruct Hx as [[? ?]|[[? ?]|?]]; lia. }
  destruct (Z.eqb_spec t kBadRecord) as [->|Hba].
  { destruct infrag; apply K; try assumption; rewrite ?pending_report; try reflexivity; rewrite ?Hnil; lia. }
  apply K; try assumption; rewrite ?pending_report; try reflexivity. rewrite Hnil. destruct (t =? kBadRecord); lia.
Qed.

Lemma SkipToInitialBlock_pending r : pending (snd (SkipToInitialBlock r)) <= pending r.
Proof.
  unfold SkipToInitialBlock. cbv zeta.
  set (start := if kBlockSize - 6 <? _ then _ else _). assert (Hs : 0 <= start) by (unfold start; destruct (_ <? _); apply u64_range).
  clearbody start. destruct (0 <? start); [|apply Z.le_refl].
  cbn [file_ set_end_of_buffer_offset]. destruct (Skip_unread start (file_ r) Hs) as [E1 E2].
  destruct (file_Skip start (file_ r)) as [ok f]. cbn in E1, E2. subst ok. unfold pending. cbn [snd buffer_ file_ set_file set_end_of_buffer_offset].
  rewrite E2. rewrite <- (ztake_zdrop start (unread (file_ r))) at 2. rewrite zlen_app.
  pose proof (zlen_nonneg (ztake start (unread (file_ r)))). lia.
Qed.

Lemma ReadRecord_bounded extra fuel r : pending r < Z.of_nat fuel ->
  exists x, ReadRecord fuel r = Some x /\ ReadRecord (fuel + extra) r = Some x /\ took [] r x.
Proof.
  intros Hf. unfold ReadRecord. pose proof (SkipToInitialBlock_pending r) as Hs.
  assert (K : forall r1, pending r1 <= pending r -> exists x, ReadRecord_loop fuel false 0 [] [] r1 = Some x /\
    ReadRecord_loop (fuel + extra) false 0 [] [] r1 = Some x /\ took [] r x).
  { intros r1 Hr1. destruct (ReadRecord_loop_bounded fuel extra false 0 [] [] r1 ltac:(lia)) as (x & E1 & E2 & Hk).
    exists x. split; [exact E1|]. split; [exact E2|]. destruct x as [[record|] r']; unfold took in *; lia. }
  destruct (_ <? _); [|apply K; lia]. destruct (SkipToInitialBlock r) as [[|] r1]; [apply K; exact Hs|].
  eexists. split; [reflexivity|]. split; [reflexivity|]. exact Hs.
Qed.

(** The bytes of the headers and of the records. *)
Definition weight (rs : list (list Z)) : Z := foldr (fun r n => kHeaderSize + zlen r + n) 0 rs.

Lemma read_all_bounded fuel : forall extra fuel' extra' r,
  pending r < Z.of_nat fuel -> pending r < Z.of_nat fuel' ->
  exists rs r', read_all fuel fuel' r = Some (rs, r') /\ read_all (fuel + extra) (fuel' + extra') r = Some (rs, r') /\
    weight rs + pending r' <= pending r.
Proof.
  induction fuel as [|fuel IH]; intros extra fuel' extra' r Hf Hf'; [pose proof (pending_nonneg r); lia|].
  change (S fuel + extra)%nat with (S (fuel + extra)). cbn [read_all].
  destruct (ReadRecord_bounded extra' fuel' r Hf') as ([[record|] r1] & -> & -> & Hr); cbn [mbind option_bind took] in *; [|eexists _, _; split; [reflexivity|split; [reflexivity|exact Hr]]].
  pose proof (zlen_nonneg record). pose proof (pending_nonneg r1). change (zlen (@nil Z)) with 0 in Hr. unfold kHeaderSize in Hr.
  destruct (IH extra fuel' extra' r1 ltac:(lia) ltac:(lia)) as (rs & r' & -> & -> & Hw). cbn [mbind option_bind]. eexists _, _. split; [reflexivity|]. split; [reflexivity|].
  unfold weight in *. cbn [foldr]. unfold kHeaderSize in *. lia.
Qed.
End AnyFile.

(** C27: Reading ends, whatever the file contains and wherever it starts.  A loop whose
    fuel runs out returns [None]; with a round for each byte of the file, for the loop
    over records and for the loop over the pieces of each, none does, nor the loop
    over blocks with its two rounds: reading comes to an end of its own, with the
    records it has found, and more fuel changes nothing.  The records have together
    no more bytes than the file, less a header for each. *)
Theorem log_reader_terminates (P : Port) (A : Address) F (SF : SequentialFile F) (SL : SequentialFileLaws F)
    (f : F) (rep : option (list (Z * reason))) (checksum : bool) (initial_offset : Z) (fuel fuel' extra extra' : nat) :
  zlen (unread f) < Z.of_nat fuel -> zlen (unread f) < Z.of_nat fuel' ->
  let r := new_Reader f rep checksum initial_offset in
  exists rs r', read_all fuel fuel' r = Some (rs, r') /\ read_all (fuel + extra) (fuel' + extra') r = Some (rs, r') /\
    weight rs <= zlen (unread f).
Proof.
  intros Hf Hf' r. destruct (read_all_bounded fuel extra fuel' extra' r Hf Hf') as (rs & r' & E1 & E2 & Hw).
  exists rs, r'. split; [exact E1|]. split; [exact E2|]. pose proof (pending_nonneg r') as Hp. change (pending r) with (zlen (unread f)) in Hw. lia.
Qed.

(** * What the log loses *)

Section Losses.
Context {P : Port} {A : Address} {F : Type} {SF : SequentialFile F} {SL : SequentialFileLaws F}.

(** A physical record of the type that stands for the end of the file inside the
    reader ends the log without a report, although its checksum is right. *)
Lemma record_type_5_ends_the_log rep r off p tail fuel pro fragment scratch :
  reading rep r off (item off kEof p ++ tail) -> 0 <= off <= kBlockSize -> next off p <= kBlockSize ->
  bytes_ok p -> bytes_ok tail ->
  exists r', ReadRecord_loop (S fuel) false pro fragment scratch r = Some (None, r') /\ reporter_ r' = rep.
Proof.
  intros Hr Ho Hn Hp Ht. cbn [ReadRecord_loop].
  destruct (read_item rep r off kEof p tail fragment Hr Ho Hn ltac:(unfold kEof, kMaxRecordType, kLastType; lia) Hp Ht)
    as (r1 & -> & [_ _ Hrep _ Hs _]).
  cbn [mbind option_bind]. rewrite Hs. cbn. eauto.
Qed.
(** A record that is cut, with other bytes in the place of its end. *)
Lemma read_overwritten rep r off p k q fuel pro fragment scratch :
  reading rep r off (ztake k (physical kFullType p) ++ q) -> 0 <= off -> off + kHeaderSize + zlen p <= kBlockSize -> kHeaderSize <= k <= zlen (physical kFullType p) ->
  k + zlen q < zlen (physical kFullType p) ->
  exists r', ReadRecord_loop (S fuel) false pro fragment scratch r = Some (None, r') /\ reporter_ r' = rep.
Proof.
  intros Hr Ho Hn Hk Hq. cbn [ReadRecord_loop]. unfold ReadPhysicalRecord.
  set (s := ztake k (physical kFullType p) ++ q) in *.
  assert (Hs : zlen s = k + zlen q) by (unfold s; rewrite zlen_app, zlen_ztake by (unfold kHeaderSize in *; lia); reflexivity).
  assert (En : off + zlen (physical kFullType p) <= kBlockSize) by (rewrite zlen_physical; lia).
  assert (Hp : zlen p < 65536) by (rewrite zlen_physical in En; unfold kBlockSize, kHeaderSize in En; lia).
  assert (Hend : forall fuel r1, eof_ r1 = true -> reporter_ r1 = rep -> buffer_ r1 = s ->
    exists r', ReadPhysicalRecord_loop (S fuel) fragment r1 = Some (kEof, fragment, r') /\ reporter_ r' = rep).
  { intros fuel0 r1 He Hrep Hb. cbn [ReadPhysicalRecord_loop]. rewrite Hb, Hs, (proj2 (Z.ltb_ge _ _)) by (pose proof (zlen_nonneg q); lia).
    rewrite (parse_cut fragment r1 kFullType p k q) by auto. eauto. }
  assert (Hread : exists r', ReadPhysicalRecord_loop 2 fragment r = Some (kEof, fragment, r') /\ reporter_ r' = rep).
  { destruct (eof_ r) eqn:Heof.
    - pose proof Hr as [Hb He Hrep _ _ _]. rewrite Heof in He. destruct He as [He _]. rewrite He, app_nil_r in Hb.
      apply Hend; assumption.
    - assert (off = 0) as ->.
      { destruct (Z.eq_dec off 0) as [|Hne]; [assumption|exfalso]. pose proof Hr as [Hb He _ _ _ _]. rewrite Heof, (proj2 (Z.eqb_neq off 0)) in He by exact Hne.
        apply (f_equal zlen) in Hb. rewrite zlen_app, Hs in Hb. pose proof (zlen_nonneg (unread (file_ r))). lia. }
      destruct (read_block rep r 0 s fragment 1 Hr ltac:(unfold kBlockSize; lia) ltac:(auto) Heof)
        as (Hlb & r1 & -> & Hb1 & _ & He1 & Hr1 & _ & _ & _).
      rewrite Hlb in Hb1, He1. change (zlen (trailer 0)) with 0 in Hb1, He1. change (zdrop 0 s) with s in Hb1, He1.
      rewrite ztake_all_ge in Hb1 by lia. apply Hend; auto. rewrite He1. apply Z.ltb_lt. lia. }
  destruct Hread as (r' & -> & Hrep). cbn [mbind option_bind]. rewrite !andb_false_r. cbn. eauto.
Qed.
End Losses.

Section Reopening.
Context {P : Port} {A : Address} {F : Type} {W : WritableFile F} {WL : WritableFileLaws F} {R : ReliableFile F}.

(** A record for which the block has room is written in one piece. *)
Lemma AddRecord_one q w : types_ok w -> 0 <= block_offset_ w -> block_offset_ w + kHeaderSize + zlen q <= kBlockSize -> bytes_ok q ->
  exists w', AddRecord q w = (true, w') /\ contents (dest_ w') = contents (dest_ w) ++ physical kFullType q.
Proof.
  intros Hw Ho Hroom Hq. pose proof (zlen_nonneg q). unfold AddRecord. cbn [AddRecord_loop].
  assert (Es : switch_block w = w).
  { unfold switch_block. cbv zeta. rewrite (proj2 (Z.ltb_ge _ _)) by lia. reflexivity. }
  rewrite Es. set (avail := kBlockSize - block_offset_ w - kHeaderSize).
  assert (En : (if zlen q <? avail then zlen q else avail) = zlen q) by (destruct (Z.ltb_spec (zlen q) avail); lia).
  rewrite En, Z.eqb_refl, ztake_all. cbn [andb].
  pose proof (EmitPhysicalRecord_reliable kFullType q w) as Hok.
  destruct (EmitPhysicalRecord kFullType q w) as [ok w'] eqn:E. cbn in Hok. subst ok.
  apply EmitPhysicalRecord_ok in E as (Hc & _ & _); auto; [|unfold kFullType; lia|unfold kBlockSize, kHeaderSize in *; lia].
  cbn [andb]. rewrite (proj2 (Z.ltb_ge 0 _)) by lia. eauto.
Qed.
End Reopening.

(** C28: A log that ends in a part of a record must not be continued.  Let a log of the
    records [rs] end in the first [k] bytes of a record [p] that was to be written in
    one piece, its header and perhaps some of its data, and let a new writer take the
    file up at its length and add a record [q] that does not reach to where [p] was to
    end.  The writer is told that all went well; but the bytes of [q] pass for the end
    of [p], and reading finds [rs] and no more, without a report.  (Where the new
    records do reach to the end of [p], it is its checksum that is compared.) *)
Theorem reopened_log_loses_records (P : Port) (A : Address) F (W : WritableFile F) (WL : WritableFileLaws F) (R : ReliableFile F)
    G (SF : SequentialFile G) (SL : SequentialFileLaws G) (f : F) (rs : list (list Z)) (bytes p q : list Z) (off k : Z) :
  logged 0 rs bytes off -> Forall bytes_ok rs -> bytes_ok p -> bytes_ok q ->
  contents f = bytes ++ ztake k (physical kFullType p) -> off + kHeaderSize + zlen p <= kBlockSize ->
  kHeaderSize <= k -> k + kHeaderSize + zlen q < kHeaderSize + zlen p ->
  exists w, AddRecord q (new_Writer_at f (zlen (contents f))) = (true, w) /\
    contents (dest_ w) = contents f ++ physical kFullType q /\
    forall (g : G) rep checksum fuel fuel', unread g = contents (dest_ w) -> (length rs < fuel)%nat -> zlen (contents f) < Z.of_nat fuel' ->
    exists r, read_all fuel fuel' (new_Reader g rep checksum 0) = Some (rs, r) /\ reporter_ r = rep.
Proof.
  intros Hlog Hrs Hpok Hqok Hc Hp Hk Hq. pose proof (zlen_nonneg q). pose proof (zlen_nonneg bytes).
  assert (Hz : 0 <= 0 <= kBlockSize) by (unfold kBlockSize; lia). destruct (logged_mod _ _ _ _ Hz Hlog) as [Ho Hm]. assert (Ek : zlen (contents f) = zlen bytes + k).
  { rewrite Hc, zlen_app. f_equal. apply zlen_ztake. rewrite zlen_physical. unfold kHeaderSize in *. lia. }
  assert (Eo : zlen (contents f) mod kBlockSize = off + k).
  { rewrite Ek, <- Z.add_mod_idemp_l by discriminate. rewrite Z.add_0_l in Hm. rewrite Hm, Z.add_mod_idemp_l by discriminate. apply Z.mod_small. unfold kHeaderSize in *. lia. }
  destruct (AddRecord_one q (new_Writer_at f (zlen (contents f)))) as (w & E & Hcw); [reflexivity| | |exact Hqok|].
  - apply Z.mod_pos_bound. reflexivity.
  - cbn [new_Writer_at block_offset_]. rewrite Eo. lia.
  - exists w. split; [exact E|]. split; [exact Hcw|]. intros g rep checksum fuel fuel' Hg Hf Hf'.
    pose proof (reading_new g _ rep checksum Hg) as Hr. rewrite Hcw in Hr. cbn [new_Writer_at dest_] in Hr. rewrite Hc, <- app_assoc in Hr.
    apply (read_whole 0 rs bytes off Hlog fuel fuel' _ _ rep Hr Hz Hrs); [| exact Hf|unfold kHeaderSize in *; lia|].
    + apply bytes_ok_app. split; [apply bytes_ok_ztake|]; apply (item_ok 0 kFullType); auto; unfold byte_ok, kFullType; lia.
    + intros r' Hr' _. rewrite (ReadRecord_loop_0 _ _ _ _ _ Hr'). destruct fuel' as [|fuel']; [unfold kHeaderSize in *; lia|].
      apply (read_overwritten rep r' off p k (physical kFullType q) fuel' 0 [] [] Hr'); [lia|exact Hp|rewrite zlen_physical; unfold kHeaderSize in *; lia|rewrite !zlen_physical; lia].
Qed.

(** * A file as the list of its bytes *)

#[export] Instance bytes_writable : WritableFile (list Z) :=
  {| file_Append s f := (true, f ++ s); file_Flush f := (true, f) |}.

#[export] Program Instance bytes_writable_laws : WritableFileLaws (list Z) := {| contents f := f |}.
Next Obligation. intros s f. exists 0. reflexivity. Qed.
Next Obligation. reflexivity. Qed.

#[export] Program Instance bytes_reliable : ReliableFile (list Z).
Next Obligation. reflexivity. Qed.
Next Obligation. reflexivity. Qed.

#[export] Instance bytes_sequential : SequentialFile (list Z) :=
  {| file_Read n f := (true, ztake n f, zdrop n f); file_Skip n f := (true, zdrop n f) |}.

#[export] Program Instance bytes_sequential_laws : SequentialFileLaws (list Z) := {| unread f := f |}.
Next Obligation. split; reflexivity. Qed.
Next Obligation. split; reflexivity. Qed.

#[export] Program Instance anywhere : Address := {| addr _ := 0 |}.
Next Obligation. intros. lia. Qed.

Lemma log_recovers_prefix_witness :
  exists f1 f2, write_sessions [[[1; 2; 3]]; [[4]]] [] = (true, f1) /\ write_sessions [[[5; 6]; []]] f1 = (true, f2) /\
  zlen f1 = 18 /\ zlen f2 = 34 /\
  exists found lost r, [[5; 6]; []] = found ++ lost /\
    read_all 5 40 (new_Reader (ztake 29 f2) (Some []) true 0) = Some ([[1; 2; 3]; [4]] ++ found, r) /\ reporter_ r = Some [].
Proof.
  destruct (log_recovers_prefix little anywhere (list Z) _ _ _ (list Z) _ _ [] [[[1; 2; 3]]; [[4]]] [[[5; 6]; []]])
    as (f1 & f2 & E1 & E2 & H).
  - reflexivity.
  - repeat constructor; unfold byte_ok; lia.
  - repeat constructor; unfold byte_ok; lia.
  - exists f1, f2. split; [exact E1|]. split; [exact E2|].
    assert (L1 : zlen f1 = 18) by (vm_compute in E1; injection E1 as E; rewrite <- E; reflexivity).
    assert (L2 : zlen f2 = 34) by (vm_compute in E1; injection E1 as E; rewrite <- E in E2; vm_compute in E2; injection E2 as E'; rewrite <- E'; reflexivity).
    split; [exact L1|]. split; [exact L2|].
    destruct (H (ztake 29 f2) 29 (Some []) true) as (found & lost & Ef & _ & Hr).
    + change (zlen f1 <= 29 <= zlen f2). lia.
    + reflexivity.
    + destruct (Hr 5%nat 40%nat) as (r & Er & Hrep); [cbn; lia|lia|]. exists found, lost, r. auto.
Defined.

Lemma log_reader_terminates_witness :
  let f := [1; 2; 3; 4; 2; 0; 1; 9; 9; 7] in
  exists rs r, read_all 20 20 (new_Reader f (Some []) false 2) = Some (rs, r) /\ read_all (20 + 5) (20 + 3) (new_Reader f (Some []) false 2) = Some (rs, r) /\
    weight rs <= zlen f.
Proof.
  intros f. destruct (log_reader_terminates little anywhere (list Z) bytes_sequential bytes_sequential_laws f (Some []) false 2 20 20 5 3) as (rs & r & E1 & E2 & Hw); [reflexivity|reflexivity|].
  exists rs, r. split; [exact E1|]. split; [exact E2|exact Hw].
Defined.

Lemma reopened_log_loses_records_witness :
  let p := zrep 20 7 in let f := physical kFullType [5] ++ ztake 9 (physical kFullType p) in
  exists w, AddRecord [1; 2; 3] (new_Writer_at f 17) = (true, w) /\ zlen (dest_ w) = 27 /\
    exists r, read_all 5 40 (new_Reader (dest_ w) (Some []) true 0) = Some ([[5]], r) /\ reporter_ r = Some [].
Proof.
  intros p f. destruct (reopened_log_loses_records little anywhere (list Z) _ _ _ (list Z) _ _
    f [[5]] (physical kFullType [5]) p [1; 2; 3] 8 9) as (w & E & Hc & H).
  - change (physical kFullType [5]) with (item 0 (if true then kFullType else kLastType) [5] ++ []). change 8 with (next 0 [5]).
    eapply logged_cons; [apply (fragmented_end true); vm_compute; discriminate|constructor].
  - repeat constructor; unfold byte_ok; lia.
  - repeat constructor; unfold byte_ok; lia.
  - repeat constructor; unfold byte_ok; lia.
  - reflexivity.
  - vm_compute. discriminate.
  - unfold kHeaderSize. lia.
  - vm_compute. reflexivity.
  - exists w. split; [exact E|]. split; [change (contents (dest_ w)) with (dest_ w) in Hc; rewrite Hc; vm_compute; reflexivity|].
    apply (H (dest_ w) (Some []) true 5%nat 40%nat eq_refl); [cbn; lia|vm_compute; reflexivity].
Defined.
