(* ===== verification/LdbFormat.v ===== *)
(** leveldb/include/leveldb/slice.h, util/comparator.cc and db/dbformat.{h,cc}: the
    order of keys, and internal keys, which carry a sequence number and a type.

    A comparator is an interface with the laws that comparator.h states; the
    bytewise comparator and the comparator of internal keys are instances. *)
From Stdlib Require Import ZArith Lia.
From stdpp Require Import base list numbers.
From S2P Require Import Prelude.
From S2P Require Import LdbCoding.

Open Scope Z_scope.

(** * The interface *)

Class Comparator := {
  Compare : list Z -> list Z -> Z;
  FindShortestSeparator : list Z -> list Z -> list Z;
  FindShortSuccessor : list Z -> list Z }.

(** A total order, up to keys that compare equal, on the keys that are allowed. *)
Class ComparatorLaws (C : Comparator) := {
  key_ok : list Z -> Prop;
  Compare_refl : forall a, key_ok a -> Compare a a = 0;
  Compare_sym : forall a b, key_ok a -> key_ok b -> Compare a b < 0 <-> 0 < Compare b a;
  Compare_trans : forall a b c, key_ok a -> key_ok b -> key_ok c -> Compare a b <= 0 -> Compare b c <= 0 -> Compare a c <= 0;
  Separator_ok : forall start limit, key_ok start -> key_ok limit -> Compare start limit < 0 ->
    let s := FindShortestSeparator start limit in key_ok s /\ Compare start s <= 0 /\ Compare s limit < 0;
  Separator_same : forall start limit, key_ok start -> key_ok limit -> Compare start limit = 0 ->
    FindShortestSeparator start limit = start;
  Successor_ok : forall key, key_ok key -> key_ok (FindShortSuccessor key) /\ Compare key (FindShortSuccessor key) <= 0 }.

(** * The code *)

(** The C library's [memcmp] on ranges of the same length: the difference of the
    first bytes that differ. *)
Fixpoint memcmp (a b : list Z) : Z :=
  match a, b with
  | x :: a, y :: b => if x =? y then memcmp a b else x - y
  | _, _ => 0
  end.

(** [Slice::compare]. *)
Definition slice_compare (a b : list Z) : Z :=
  let min_len := if zlen a <? zlen b then zlen a else zlen b in
  let r := memcmp (ztake min_len a) (ztake min_len b) in
  if r =? 0 then (if zlen a <? zlen b then -1 else if zlen b <? zlen a then 1 else r) else r.

Module Bytewise.
(** The loop that finds the first difference. *)
Fixpoint diff_index (start limit : list Z) : Z :=
  match start, limit with
  | x :: start, y :: limit => if x =? y then 1 + diff_index start limit else 0
  | _, _ => 0
  end.

Definition FindShortestSeparator (start limit : list Z) : list Z :=
  let min_length := Z.min (zlen start) (zlen limit) in
  let diff_index := diff_index start limit in
  if min_length <=? diff_index then start
  else
    let diff_byte := znth 0 diff_index start in
    if (diff_byte <? 255) && (diff_byte + 1 <? znth 0 diff_index limit)
    then ztake diff_index start ++ [u8 (diff_byte + 1)] else start.

Fixpoint FindShortSuccessor (key : list Z) : list Z :=
  match key with
  | [] => []
  | byte :: rest => if negb (byte =? 255) then [byte + 1] else byte :: FindShortSuccessor rest
  end.
End Bytewise.

#[export] Instance BytewiseComparator : Comparator :=
  {| Compare := slice_compare; FindShortestSeparator := Bytewise.FindShortestSeparator;
     FindShortSuccessor := Bytewise.FindShortSuccessor |}.

(** enum ValueType. *)
Inductive ValueType := kTypeDeletion | kTypeValue.
Definition type_byte (t : ValueType) : Z := match t with kTypeDeletion => 0 | kTypeValue => 1 end.
Definition kValueTypeForSeek : ValueType := kTypeValue.
Definition kMaxSequenceNumber : Z := Z.shiftl 1 56 - 1.

#[export] Instance ValueType_eq_dec : EqDecision ValueType.
Proof. solve_decision. Defined.

(** The type is a byte: [ParseInternalKey] also stores one that is not a
    [ValueType]. *)
Record ParsedInternalKey := { user_key : list Z; sequence : Z; type : Z }.

Section Internal.
Context {P : Port}.

Definition PackSequenceAndType (seq : Z) (t : ValueType) : Z := Z.lor (u64 (Z.shiftl seq 8)) (type_byte t).

Definition InternalKeyEncodingLength (key : ParsedInternalKey) : Z := zlen (user_key key) + 8.

Definition AppendInternalKey (result : list Z) (u : list Z) (seq : Z) (t : ValueType) : list Z :=
  PutFixed64 (result ++ u) (PackSequenceAndType seq t).

(** [InternalKey(user_key, s, t)]. *)
Definition InternalKey (u : list Z) (s : Z) (t : ValueType) : list Z := AppendInternalKey [] u s t.

Definition ExtractUserKey (internal_key : list Z) : list Z := ztake (zlen internal_key - 8) internal_key.

Definition ParseInternalKey (internal_key : list Z) : bool * option ParsedInternalKey :=
  let n := zlen internal_key in
  if n <? 8 then (false, None)
  else
    let num := DecodeFixed64 (zdrop (n - 8) internal_key) in
    let c := u8 (Z.land num 255) in
    (c <=? type_byte kTypeValue,
     Some {| sequence := Z.shiftr num 8; type := c; user_key := ztake (n - 8) internal_key |}).

Context {C : Comparator}.

Definition internal_Compare (akey bkey : list Z) : Z :=
  let r := Compare (ExtractUserKey akey) (ExtractUserKey bkey) in
  if r =? 0 then
    let anum := DecodeFixed64 (zdrop (zlen akey - 8) akey) in
    let bnum := DecodeFixed64 (zdrop (zlen bkey - 8) bkey) in
    if bnum <? anum then -1 else if anum <? bnum then 1 else r
  else r.

Definition internal_FindShortestSeparator (start limit : list Z) : list Z :=
  let user_start := ExtractUserKey start in
  let user_limit := ExtractUserKey limit in
  let tmp := FindShortestSeparator user_start user_limit in
  if (zlen tmp <? zlen user_start) && (Compare user_start tmp <? 0)
  then PutFixed64 tmp (PackSequenceAndType kMaxSequenceNumber kValueTypeForSeek)
  else start.

Definition internal_FindShortSuccessor (key : list Z) : list Z :=
  let user_key := ExtractUserKey key in
  let tmp := FindShortSuccessor user_key in
  if (zlen tmp <? zlen user_key) && (Compare user_key tmp <? 0)
  then PutFixed64 tmp (PackSequenceAndType kMaxSequenceNumber kValueTypeForSeek)
  else key.

(** Not an instance: it would be one for itself. *)
Definition InternalKeyComparator : Comparator :=
  {| Compare := internal_Compare; FindShortestSeparator := internal_FindShortestSeparator;
     FindShortSuccessor := internal_FindShortSuccessor |}.

(** [LookupKey]: the whole buffer; [kstart_] is where the user key starts. *)
Record LookupKey := { start_ : list Z; kstart_ : Z }.

Definition new_LookupKey (user_key : list Z) (s : Z) : LookupKey :=
  let usize := zlen user_key in
  let prefix := EncodeVarint32 (u32 (usize + 8)) in
  {| start_ := prefix ++ user_key ++ EncodeFixed64 (PackSequenceAndType s kValueTypeForSeek); kstart_ := zlen prefix |}.

Definition memtable_key (k : LookupKey) : list Z := start_ k.
Definition internal_key (k : LookupKey) : list Z := zdrop (kstart_ k) (start_ k).
Definition LookupKey_user_key (k : LookupKey) : list Z :=
  zsub (kstart_ k) (zlen (start_ k) - kstart_ k - 8) (start_ k).
End Internal.

(** * The bytewise order *)

Lemma slice_compare_nil : slice_compare [] [] = 0.
Proof. reflexivity. Qed.

Lemma slice_compare_nil_cons y b : slice_compare [] (y :: b) = -1.
Proof. unfold slice_compare. autorewrite with zlen. pose proof (zlen_nonneg b). rewrite (proj2 (Z.ltb_lt _ _)) by lia. reflexivity. Qed.

Lemma slice_compare_cons_nil x a : slice_compare (x :: a) [] = 1.
Proof.
  unfold slice_compare. autorewrite with zlen. pose proof (zlen_nonneg a).
  rewrite (proj2 (Z.ltb_ge (1 + zlen a) 0)) by lia. rewrite (proj2 (Z.ltb_lt _ _)) by lia. reflexivity.
Qed.

Lemma slice_compare_cons x a y b : slice_compare (x :: a) (y :: b) = if x =? y then slice_compare a b else x - y.
Proof.
  unfold slice_compare. rewrite !zlen_cons. pose proof (zlen_nonneg a). pose proof (zlen_nonneg b).
  replace (1 + zlen a <? 1 + zlen b) with (zlen a <? zlen b) by (destruct (Z.ltb_spec (zlen a) (zlen b)), (Z.ltb_spec (1 + zlen a) (1 + zlen b)); lia).
  replace (1 + zlen b <? 1 + zlen a) with (zlen b <? zlen a) by (destruct (Z.ltb_spec (zlen b) (zlen a)), (Z.ltb_spec (1 + zlen b) (1 + zlen a)); lia).
  set (m := if zlen a <? zlen b then zlen a else zlen b).
  assert (Hm : (if zlen a <? zlen b then 1 + zlen a else 1 + zlen b) = 1 + m) by (unfold m; destruct (_ <? _); reflexivity).
  rewrite Hm. assert (0 <= m) by (unfold m; destruct (_ <? _); lia).
  assert (Ht : forall {T} (z : T) l, ztake (1 + m) (z :: l) = z :: ztake m l).
  { intros T z l. unfold ztake. rewrite Z2Nat.inj_add by lia. reflexivity. }
  rewrite !Ht. cbn [memcmp]. destruct (Z.eqb_spec x y); [reflexivity|].
  destruct (Z.eqb_spec (x - y) 0); [lia|reflexivity].
Qed.

(** One step of a comparison. *)
Ltac cmp_step :=
  rewrite ?slice_compare_nil, ?slice_compare_nil_cons, ?slice_compare_cons_nil, ?slice_compare_cons in *.

Lemma slice_compare_refl a : slice_compare a a = 0.
Proof. induction a as [|x a IH]; [reflexivity|]. cmp_step. rewrite Z.eqb_refl. exact IH. Qed.

Lemma slice_compare_sym a : forall b, slice_compare a b < 0 <-> 0 < slice_compare b a.
Proof.
  induction a as [|x a IH]; intros [|y b]; cmp_step; [lia|lia|lia|]. rewrite (Z.eqb_sym y x).
  destruct (Z.eqb_spec x y); [apply IH|lia].
Qed.

Lemma slice_compare_trans a : forall b c, slice_compare a b <= 0 -> slice_compare b c <= 0 -> slice_compare a c <= 0.
Proof.
  induction a as [|x a IH]; intros [|y b] [|z c]; cmp_step; try lia.
  destruct (Z.eqb_spec x y), (Z.eqb_spec y z), (Z.eqb_spec x z); subst; try lia. apply IH.
Qed.

Lemma slice_compare_eq a : forall b, slice_compare a b = 0 -> a = b.
Proof.
  induction a as [|x a IH]; intros [|y b]; cmp_step; try lia; [reflexivity|].
  destruct (Z.eqb_spec x y) as [->|]; [|lia]. intros E. rewrite (IH _ E). reflexivity.
Qed.

Lemma slice_compare_app p : forall a b, slice_compare (p ++ a) (p ++ b) = slice_compare a b.
Proof. induction p as [|x p IH]; intros a b; [reflexivity|]. cbn [app]. cmp_step. rewrite Z.eqb_refl. apply IH. Qed.

Lemma diff_index_spec start : forall limit,
  let d := Bytewise.diff_index start limit in
  d = Z.min (zlen start) (zlen limit) \/
  exists p x s y l, start = p ++ x :: s /\ limit = p ++ y :: l /\ x <> y /\ d = zlen p /\ d < Z.min (zlen start) (zlen limit).
Proof.
  induction start as [|x s IH]; intros [|y l]; cbn [Bytewise.diff_index]; autorewrite with zlen.
  - auto.
  - left. pose proof (zlen_nonneg l). lia.
  - left. pose proof (zlen_nonneg s). lia.
  - pose proof (zlen_nonneg l). pose proof (zlen_nonneg s). destruct (Z.eqb_spec x y) as [->|Hne].
    + destruct (IH l) as [E|(p & a & s' & b & l' & -> & -> & Hab & Hd & Hlt)].
      * left. rewrite E. lia.
      * right. exists (y :: p), a, s', b, l'. rewrite zlen_cons. split_and!; auto; lia.
    + right. exists [], x, s, y, l. split_and!; auto; try reflexivity. lia.
Qed.

Lemma bytewise_separator start limit : bytes_ok start -> bytes_ok limit -> slice_compare start limit < 0 ->
  let s := Bytewise.FindShortestSeparator start limit in
  bytes_ok s /\ slice_compare start s <= 0 /\ slice_compare s limit < 0 /\ zlen s <= zlen start.
Proof.
  intros Hs Hl Hlt s. unfold s, Bytewise.FindShortestSeparator. cbv zeta.
  assert (K : bytes_ok start /\ slice_compare start start <= 0 /\ slice_compare start limit < 0 /\ zlen start <= zlen start)
    by (rewrite slice_compare_refl; auto with lia).
  destruct (diff_index_spec start limit) as [E|(p & x & s' & y & l & -> & -> & Hxy & Hd & Hmin)].
  - rewrite E, (proj2 (Z.leb_le _ _)) by lia. exact K.
  - rewrite Hd in *. rewrite (proj2 (Z.leb_gt _ _)) by exact Hmin.
    assert (Hn : forall z (r : list Z), znth 0 (zlen p) (p ++ z :: r) = z).
    { intros z r. unfold znth, zlen. rewrite Nat2Z.id, nth_middle. reflexivity. }
    rewrite !Hn. destruct ((x <? 255) && (x + 1 <? y)) eqn:Ex; [|exact K]. apply andb_prop in Ex as [Hx Hy].
    rewrite ztake_app. apply bytes_ok_app in Hs as [Hp Hs]. apply bytes_ok_cons in Hs as [Hxok Hs']. unfold byte_ok in Hxok.
    rewrite u8_small by (unfold byte_ok; lia). rewrite !slice_compare_app. cmp_step.
    rewrite (proj2 (Z.eqb_neq x (x + 1))), (proj2 (Z.eqb_neq (x + 1) y)) by lia. autorewrite with zlen.
    pose proof (zlen_nonneg s'). split_and!; try lia. apply bytes_ok_app. split; [exact Hp|]. constructor; [unfold byte_ok; lia|constructor].
Qed.

Lemma bytewise_successor key : bytes_ok key ->
  bytes_ok (Bytewise.FindShortSuccessor key) /\ slice_compare key (Bytewise.FindShortSuccessor key) <= 0 /\
  zlen (Bytewise.FindShortSuccessor key) <= zlen key.
Proof.
  induction 1 as [|x key Hx Hk IH]; [split_and!; [apply bytes_ok_nil|reflexivity..]|]. cbn [Bytewise.FindShortSuccessor]. unfold byte_ok in Hx.
  destruct IH as (I1 & I2 & I3). destruct (Z.eqb_spec x 255) as [->|Hne]; cbn [negb]; cmp_step; autorewrite with zlen.
  - rewrite Z.eqb_refl. split_and!; auto; [|lia]. apply bytes_ok_cons. split; [unfold byte_ok; lia|exact I1].
  - rewrite (proj2 (Z.eqb_neq x (x + 1))) by lia. pose proof (zlen_nonneg key). split_and!; try lia.
    constructor; [unfold byte_ok; lia|constructor].
Qed.

#[export] Program Instance BytewiseLaws : ComparatorLaws BytewiseComparator := {| key_ok := bytes_ok |}.
Next Obligation. intros a _. apply slice_compare_refl. Qed.
Next Obligation. intros a b _ _. apply slice_compare_sym. Qed.
Next Obligation. intros a b c _ _ _. apply slice_compare_trans. Qed.
Next Obligation. intros a b Ha Hb Hlt. destruct (bytewise_separator a b Ha Hb Hlt) as (? & ? & ? & _). auto. Qed.
Next Obligation.
  intros a b _ _ E. apply slice_compare_eq in E as <-. cbn. unfold Bytewise.FindShortestSeparator. cbv zeta.
  destruct (diff_index_spec a a) as [E|(p & x & s & y & l & E1 & E2 & Hne & _)].
  - rewrite E, (proj2 (Z.leb_le _ _)) by lia. reflexivity.
  - rewrite E1 in E2. apply app_inv_head in E2. congruence.
Qed.
Next Obligation. intros a Ha. destruct (bytewise_successor a Ha) as (? & ? & _). auto. Qed.

(** * Internal keys *)

(** What follows from the laws of an order. *)
Section Order.
Context {C : Comparator} {L : ComparatorLaws C}.

Lemma Compare_eq_sym a b : key_ok a -> key_ok b -> Compare a b = 0 -> Compare b a = 0.
Proof. intros Ha Hb E. pose proof (Compare_sym a b Ha Hb). pose proof (Compare_sym b a Hb Ha). lia. Qed.

Lemma Compare_le_ge a b : key_ok a -> key_ok b -> Compare a b <= 0 <-> 0 <= Compare b a.
Proof. intros Ha Hb. pose proof (Compare_sym a b Ha Hb). pose proof (Compare_sym b a Hb Ha). lia. Qed.

Lemma Compare_lt_le a b c : key_ok a -> key_ok b -> key_ok c -> Compare a b < 0 -> Compare b c <= 0 -> Compare a c < 0.
Proof.
  intros Ha Hb Hc Hab Hbc. destruct (Z.lt_ge_cases (Compare a c) 0) as [|Hge]; [assumption|exfalso].
  assert (Hca : Compare c a <= 0) by (apply Compare_le_ge; auto).
  pose proof (Compare_trans b c a Hb Hc Ha Hbc Hca). pose proof (Compare_sym a b Ha Hb). lia.
Qed.

Lemma Compare_eq_trans a b c : key_ok a -> key_ok b -> key_ok c -> Compare a b = 0 -> Compare b c = 0 -> Compare a c = 0.
Proof.
  intros Ha Hb Hc Hab Hbc. pose proof (Compare_trans a b c Ha Hb Hc ltac:(lia) ltac:(lia)).
  pose proof (Compare_trans c b a Hc Hb Ha ltac:(rewrite (Compare_eq_sym b c); auto; lia) ltac:(rewrite (Compare_eq_sym a b); auto; lia)).
  pose proof (Compare_le_ge c a Hc Ha). lia.
Qed.

Lemma Compare_le_lt a b c : key_ok a -> key_ok b -> key_ok c -> Compare a b <= 0 -> Compare b c < 0 -> Compare a c < 0.
Proof.
  intros Ha Hb Hc Hab Hbc. destruct (Z.lt_ge_cases (Compare a c) 0) as [|Hge]; [assumption|exfalso].
  assert (Hca : Compare c a <= 0) by (apply Compare_le_ge; auto).
  pose proof (Compare_trans c a b Hc Ha Hb Hca Hab). pose proof (Compare_sym b c Hb Hc). lia.
Qed.
End Order.

Section InternalProofs.
Context {P : Port}.

Lemma PackSequenceAndType_val s t : 0 <= s <= kMaxSequenceNumber -> PackSequenceAndType s t = s * 256 + type_byte t.
Proof.
  unfold kMaxSequenceNumber. change (Z.shiftl 1 56 - 1) with (2 ^ 56 - 1). intros Hs. unfold PackSequenceAndType.
  rewrite u64_small by (rewrite Z.shiftl_mul_pow2 by lia; lia). apply (shiftl_lor_add 8); [lia|]. destruct t; cbn; lia.
Qed.

Lemma Pack_range s t : 0 <= s <= kMaxSequenceNumber -> 0 <= PackSequenceAndType s t < 2 ^ 64.
Proof.
  intros Hs. rewrite PackSequenceAndType_val by exact Hs. unfold kMaxSequenceNumber in Hs.
  change (Z.shiftl 1 56 - 1) with (2 ^ 56 - 1) in Hs. destruct t; cbn [type_byte]; lia.
Qed.

Lemma InternalKey_eq u s t : InternalKey u s t = u ++ EncodeFixed64 (PackSequenceAndType s t).
Proof. reflexivity. Qed.

Lemma AppendInternalKey_eq r u s t : AppendInternalKey r u s t = r ++ InternalKey u s t.
Proof. unfold InternalKey, AppendInternalKey, PutFixed64. rewrite app_nil_l, app_assoc. reflexivity. Qed.

(** A key with its last eight bytes. *)
Definition tagged (u : list Z) (n : Z) : list Z := u ++ EncodeFixed64 n.

Lemma zlen_tagged u n : zlen (tagged u n) = zlen u + 8.
Proof. unfold tagged. autorewrite with zlen. reflexivity. Qed.

Lemma ExtractUserKey_tagged u n : ExtractUserKey (tagged u n) = u.
Proof. unfold ExtractUserKey. rewrite zlen_tagged. apply ztake_app_eq. lia. Qed.

Lemma tagged_number u n : 0 <= n < 2 ^ 64 -> DecodeFixed64 (zdrop (zlen (tagged u n) - 8) (tagged u n)) = n.
Proof.
  intros Hn. rewrite zlen_tagged. unfold tagged. rewrite zdrop_app_eq by lia.
  rewrite <- (app_nil_r (EncodeFixed64 n)). apply DecodeFixed64_Encode; [exact Hn|constructor].
Qed.

(** Every key of eight bytes or more is of that form. *)
Lemma tagged_exists k : bytes_ok k -> 8 <= zlen k ->
  exists u n, k = tagged u n /\ bytes_ok u /\ 0 <= n < 2 ^ 64.
Proof.
  intros Hk Hl. exists (ztake (zlen k - 8) k), (le_val (zdrop (zlen k - 8) k)).
  pose proof (le_val_bound (zdrop (zlen k - 8) k) ltac:(auto with bytes)) as Hb. rewrite zlen_zdrop in Hb by lia.
  replace (zlen k - (zlen k - 8)) with 8 in Hb by lia.
  split; [|split; [auto with bytes|exact Hb]]. unfold tagged. rewrite EncodeFixed64_le.
  rewrite <- (ztake_zdrop (zlen k - 8) k) at 1. f_equal.
  pose proof (le_bytes_val (zdrop (zlen k - 8) k) ltac:(auto with bytes)) as E. symmetry.
  replace (length (zdrop (zlen k - 8) k)) with 8%nat in E; [exact E|].
  pose proof (zlen_zdrop (zlen k - 8) k ltac:(lia)) as Hz. unfold zlen in *. lia.
Qed.

Lemma ParseInternalKey_InternalKey u s t : 0 <= s <= kMaxSequenceNumber ->
  ParseInternalKey (InternalKey u s t) = (true, Some {| user_key := u; sequence := s; type := type_byte t |}).
Proof.
  intros Hs. rewrite InternalKey_eq. pose proof (Pack_range s t Hs) as Hn. set (n := PackSequenceAndType s t) in *.
  change (u ++ EncodeFixed64 n) with (tagged u n). unfold ParseInternalKey. cbv zeta.
  rewrite tagged_number, zlen_tagged by exact Hn. pose proof (zlen_nonneg u). rewrite (proj2 (Z.ltb_ge _ _)) by lia.
  replace (zlen u + 8 - 8) with (zlen u) by lia. unfold tagged. rewrite ztake_app.
  assert (En : n = s * 256 + type_byte t) by (apply PackSequenceAndType_val, Hs).
  assert (Ht : byte_ok (type_byte t)) by (destruct t; unfold byte_ok; cbn; lia). unfold byte_ok in Ht.
  rewrite Z.shiftr_div_pow2, land_255 by lia. change (2 ^ 8) with 256.
  replace (n / 256) with s by (rewrite En; dlia). replace (n mod 256) with (type_byte t) by (rewrite En; dlia).
  rewrite u8_small by exact Ht. destruct t; reflexivity.
Qed.

Section User.
Context {C : Comparator} {L : ComparatorLaws C}.

Lemma internal_Compare_tagged u m v n : 0 <= m < 2 ^ 64 -> 0 <= n < 2 ^ 64 ->
  internal_Compare (tagged u m) (tagged v n) =
  if Compare u v =? 0 then (if n <? m then -1 else if m <? n then 1 else 0) else Compare u v.
Proof.
  intros Hm Hn. unfold internal_Compare. cbv zeta. rewrite !ExtractUserKey_tagged, !tagged_number by assumption.
  destruct (Z.eqb_spec (Compare u v) 0) as [->|]; reflexivity.
Qed.

Definition internal_ok (k : list Z) : Prop := exists u n, k = tagged u n /\ key_ok u /\ 0 <= n < 2 ^ 64.

Lemma internal_separated u m v : key_ok u -> key_ok v -> 0 <= m < 2 ^ 64 -> Compare u v < 0 ->
  forall n, 0 <= n < 2 ^ 64 -> internal_Compare (tagged u m) (tagged v n) < 0.
Proof.
  intros Hu Hv Hm Hlt n Hn. rewrite internal_Compare_tagged by assumption. rewrite (proj2 (Z.eqb_neq _ _)) by lia. exact Hlt.
Qed.

Lemma internal_refl a : internal_ok a -> internal_Compare a a = 0.
Proof.
  intros (u & n & -> & Hu & Hn). rewrite internal_Compare_tagged, Compare_refl by assumption.
  cbn. rewrite Z.ltb_irrefl. reflexivity.
Qed.

Lemma internal_sym a b : internal_ok a -> internal_ok b -> internal_Compare a b < 0 <-> 0 < internal_Compare b a.
Proof.
  intros (u & m & -> & Hu & Hm) (v & n & -> & Hv & Hn). rewrite !internal_Compare_tagged by assumption.
  pose proof (Compare_sym u v Hu Hv). pose proof (Compare_sym v u Hv Hu).
  destruct (Z.eqb_spec (Compare u v) 0), (Z.eqb_spec (Compare v u) 0), (Z.ltb_spec m n), (Z.ltb_spec n m); lia.
Qed.

Lemma internal_trans a b c : internal_ok a -> internal_ok b -> internal_ok c ->
  internal_Compare a b <= 0 -> internal_Compare b c <= 0 -> internal_Compare a c <= 0.
Proof.
  intros (u & m & -> & Hu & Hm) (v & n & -> & Hv & Hn) (w & o & -> & Hw & Ho). rewrite !internal_Compare_tagged by assumption.
  pose proof (Compare_trans u v w Hu Hv Hw). pose proof (Compare_lt_le u v w Hu Hv Hw).
  pose proof (Compare_le_lt u v w Hu Hv Hw). pose proof (Compare_eq_trans u v w Hu Hv Hw).
  destruct (Z.eqb_spec (Compare u v) 0), (Z.eqb_spec (Compare v w) 0), (Z.eqb_spec (Compare u w) 0),
    (Z.ltb_spec m n), (Z.ltb_spec n m), (Z.ltb_spec n o), (Z.ltb_spec o n), (Z.ltb_spec m o), (Z.ltb_spec o m); lia.
Qed.

Lemma seek_number_range : 0 <= PackSequenceAndType kMaxSequenceNumber kValueTypeForSeek < 2 ^ 64.
Proof. apply Pack_range. split; [discriminate|apply Z.le_refl]. Qed.

Lemma internal_separator start limit : internal_ok start -> internal_ok limit -> internal_Compare start limit < 0 ->
  let s := internal_FindShortestSeparator start limit in
  internal_ok s /\ internal_Compare start s <= 0 /\ internal_Compare s limit < 0 /\ zlen s <= zlen start.
Proof.
  intros Hs Hl Hlt. cbv zeta. assert (K : internal_ok start /\ internal_Compare start start <= 0 /\ internal_Compare start limit < 0 /\ zlen start <= zlen start)
    by (rewrite internal_refl by exact Hs; auto with lia).
  destruct Hs as (u & m & Es & Hu & Hm). destruct Hl as (v & n & El & Hv & Hn).
  unfold internal_FindShortestSeparator. cbv zeta. rewrite Es, El, !ExtractUserKey_tagged. rewrite <- Es, <- El.
  set (tmp := FindShortestSeparator u v). destruct ((zlen tmp <? zlen u) && (Compare u tmp <? 0)) eqn:Et; [|exact K].
  apply andb_prop in Et as [Hlen Hcmp]. apply Z.ltb_lt in Hlen, Hcmp. pose proof seek_number_range as Hseek.
  set (N := PackSequenceAndType kMaxSequenceNumber kValueTypeForSeek) in *. clearbody N.
  change (PutFixed64 tmp N) with (tagged tmp N). rewrite Es, El in *. rewrite internal_Compare_tagged in Hlt by assumption.
  assert (Huv : Compare u v < 0).
  { destruct (Z.eqb_spec (Compare u v) 0) as [E|E]; [|exact Hlt]. exfalso.
    unfold tmp in Hlen. rewrite Separator_same in Hlen by assumption. lia. }
  destruct (Separator_ok u v Hu Hv Huv) as (Htok & Hut & Htv). fold tmp in Htok, Hut, Htv.
  split; [exists tmp, N; auto|]. split; [apply Z.lt_le_incl, internal_separated; assumption|].
  split; [apply internal_separated; assumption|]. rewrite !zlen_tagged. lia.
Qed.

Lemma internal_successor key : internal_ok key ->
  let s := internal_FindShortSuccessor key in internal_ok s /\ internal_Compare key s <= 0 /\ zlen s <= zlen key.
Proof.
  intros Hk. cbv zeta. assert (K : internal_ok key /\ internal_Compare key key <= 0 /\ zlen key <= zlen key)
    by (rewrite internal_refl by exact Hk; auto with lia).
  destruct Hk as (u & m & E & Hu & Hm). unfold internal_FindShortSuccessor. cbv zeta. rewrite E, ExtractUserKey_tagged, <- E.
  set (tmp := FindShortSuccessor u). destruct ((zlen tmp <? zlen u) && (Compare u tmp <? 0)) eqn:Et; [|exact K].
  apply andb_prop in Et as [Hlen Hcmp]. apply Z.ltb_lt in Hlen, Hcmp. pose proof seek_number_range as Hseek.
  set (N := PackSequenceAndType kMaxSequenceNumber kValueTypeForSeek) in *. clearbody N.
  change (PutFixed64 tmp N) with (tagged tmp N). destruct (Successor_ok u Hu) as [Htok _]. fold tmp in Htok.
  split; [exists tmp, N; auto|]. rewrite E, !zlen_tagged. split; [apply Z.lt_le_incl, internal_separated; assumption|lia].
Qed.
End User.
End InternalProofs.

#[export] Program Instance InternalLaws {P : Port} (C : Comparator) (L : ComparatorLaws C) : ComparatorLaws InternalKeyComparator :=
  {| key_ok := internal_ok |}.
Next Obligation. intros P C L a. apply internal_refl. Qed.
Next Obligation. intros P C L a b. apply internal_sym. Qed.
Next Obligation. intros P C L a b c. apply internal_trans. Qed.
Next Obligation. intros P C L a b Ha Hb Hlt. destruct (internal_separator a b Ha Hb Hlt) as (? & ? & ? & _). auto. Qed.
Next Obligation.
  intros P C L a b (u & m & -> & Hu & Hm) (v & n & -> & Hv & Hn) E. cbn in *. rewrite internal_Compare_tagged in E by assumption.
  unfold internal_FindShortestSeparator. cbv zeta. rewrite !ExtractUserKey_tagged.
  destruct (Z.eqb_spec (Compare u v) 0) as [E0|]; [|contradiction]. rewrite Separator_same by assumption.
  rewrite Z.ltb_irrefl. reflexivity.
Qed.
Next Obligation. intros P C L a Ha. destruct (internal_successor a Ha) as (? & ? & _). auto. Qed.

(** ** The key of a lookup *)

Lemma type_byte_range t : 0 <= type_byte t <= 1.
Proof. destruct t; cbn; lia. Qed.

Section Keys.
Context {P : Port} {C : Comparator} {L : ComparatorLaws C}.

(** Newest first among the entries of one user key. *)
Lemma internal_Compare_keys u s t v s' t' : 0 <= s <= kMaxSequenceNumber -> 0 <= s' <= kMaxSequenceNumber ->
  internal_Compare (InternalKey u s t) (InternalKey v s' t') < 0 <->
  Compare u v < 0 \/ Compare u v = 0 /\ (s' < s \/ s' = s /\ type_byte t' < type_byte t).
Proof.
  intros Hs Hs'. pose proof (Pack_range s t Hs). pose proof (Pack_range s' t' Hs').
  pose proof (internal_Compare_tagged u (PackSequenceAndType s t) v (PackSequenceAndType s' t') ltac:(assumption) ltac:(assumption)) as E.
  change (tagged u (PackSequenceAndType s t)) with (InternalKey u s t) in E.
  change (tagged v (PackSequenceAndType s' t')) with (InternalKey v s' t') in E. rewrite E.
  rewrite !PackSequenceAndType_val by assumption. pose proof (type_byte_range t). pose proof (type_byte_range t').
  destruct (Z.eqb_spec (Compare u v) 0), (Z.ltb_spec (s' * 256 + type_byte t') (s * 256 + type_byte t)),
    (Z.ltb_spec (s * 256 + type_byte t) (s' * 256 + type_byte t')); lia.
Qed.

Lemma LookupKey_parts u s : zlen u + 8 < 2 ^ 32 ->
  let k := new_LookupKey u s in
  memtable_key k = EncodeVarint32 (zlen u + 8) ++ InternalKey u s kValueTypeForSeek /\
  internal_key k = InternalKey u s kValueTypeForSeek /\ LookupKey_user_key k = u.
Proof.
  intros Hl k. pose proof (zlen_nonneg u). unfold k, memtable_key, internal_key, LookupKey_user_key, new_LookupKey.
  cbn [start_ kstart_]. rewrite u32_small by lia. split; [reflexivity|]. rewrite zdrop_app. split; [reflexivity|].
  apply zsub_app; [reflexivity|]. autorewrite with zlen. lia.
Qed.
End Keys.

(** C25: The order of keys.  For every user comparator with the laws of comparator.h, the
    bytewise one among them, internal keys are parsed back as they were made; they
    are ordered by user key and then newest first; the key of a lookup at a
    snapshot stands before exactly those entries of its user key that the snapshot
    can see; and the shortened keys that index blocks use lie between the keys they
    separate and are not longer than the first. *)
Theorem internal_keys_lawful (P : Port) (C : Comparator) (L : ComparatorLaws C) (u v : list Z) (s s' : Z) (t t' : ValueType)
    (start limit : list Z) :
  0 <= s <= kMaxSequenceNumber -> 0 <= s' <= kMaxSequenceNumber -> zlen u + 8 < 2 ^ 32 -> key_ok u -> key_ok v ->
  internal_ok start -> internal_ok limit -> internal_Compare start limit < 0 ->
  ParseInternalKey (InternalKey u s t) = (true, Some {| user_key := u; sequence := s; type := type_byte t |}) /\
  (internal_Compare (InternalKey u s t) (InternalKey v s' t') < 0 <->
     Compare u v < 0 \/ Compare u v = 0 /\ (s' < s \/ s' = s /\ type_byte t' < type_byte t)) /\
  (internal_Compare (internal_key (new_LookupKey u s)) (InternalKey u s' t') <= 0 <-> s' <= s) /\
  LookupKey_user_key (new_LookupKey u s) = u /\
  (let m := internal_FindShortestSeparator start limit in
     internal_ok m /\ internal_Compare start m <= 0 /\ internal_Compare m limit < 0 /\ zlen m <= zlen start) /\
  (let m := internal_FindShortSuccessor start in internal_ok m /\ internal_Compare start m <= 0 /\ zlen m <= zlen start).
Proof.
  intros Hs Hs' Hl Hu Hv Hst Hli Hlt. destruct (LookupKey_parts u s Hl) as (_ & Ek & Euk).
  split; [apply ParseInternalKey_InternalKey, Hs|]. split; [apply internal_Compare_keys; assumption|].
  split; [|split; [exact Euk|split; [apply internal_separator; assumption|apply internal_successor; assumption]]].
  rewrite Ek. pose proof (internal_Compare_keys u s' t' u s kValueTypeForSeek Hs' Hs) as Hk. rewrite (Compare_refl u Hu) in Hk.
  assert (Hok : forall s t, 0 <= s <= kMaxSequenceNumber -> internal_ok (InternalKey u s t)).
  { intros s0 t0 H0. exists u, (PackSequenceAndType s0 t0). split; [reflexivity|]. split; [exact Hu|apply Pack_range, H0]. }
  pose proof (internal_sym (InternalKey u s' t') (InternalKey u s kValueTypeForSeek) (Hok _ _ Hs') (Hok _ _ Hs)) as Hsym.
  pose proof (type_byte_range t'). change (type_byte kValueTypeForSeek) with 1 in Hk. lia.
Qed.

Lemma internal_keys_lawful_witness :
  internal_Compare (InternalKey [1; 2] 7 kTypeValue) (InternalKey [1; 2] 6 kTypeDeletion) < 0 /\
  internal_FindShortestSeparator (InternalKey [1; 2; 9] 7 kTypeValue) (InternalKey [1; 5] 6 kTypeDeletion)
    = InternalKey [1; 3] kMaxSequenceNumber kTypeValue /\
  internal_Compare (InternalKey [1; 3] kMaxSequenceNumber kTypeValue) (InternalKey [1; 5] 6 kTypeDeletion) < 0.
Proof.
  destruct (internal_keys_lawful little BytewiseComparator BytewiseLaws [1; 2] [1; 2] 7 6 kTypeValue kTypeDeletion
    (InternalKey [1; 2; 9] 7 kTypeValue) (InternalKey [1; 5] 6 kTypeDeletion)) as (_ & H1 & _ & _ & (_ & _ & H2 & _) & _).
  - split; [discriminate|vm_compute; discriminate].
  - split; [discriminate|vm_compute; discriminate].
  - reflexivity.
  - repeat constructor; unfold byte_ok; lia.
  - repeat constructor; unfold byte_ok; lia.
  - exists [1; 2; 9], (PackSequenceAndType 7 kTypeValue). split; [reflexivity|].
    split; [repeat constructor; unfold byte_ok; lia|vm_compute; split; [discriminate|reflexivity]].
  - exists [1; 5], (PackSequenceAndType 6 kTypeDeletion). split; [reflexivity|].
    split; [repeat constructor; unfold byte_ok; lia|vm_compute; split; [discriminate|reflexivity]].
  - vm_compute. reflexivity.
  - split; [apply H1; right; split; [reflexivity|left; reflexivity]|]. split; [vm_compute; reflexivity|exact H2].
Defined.
