(* ===== verification/LdbSkip.v ===== *)
(** leveldb/db/skiplist.h and util/random.h: the sorted set behind a memtable, which
    one thread inserts into while others read it without a lock.

    Nodes are in a store of addresses; reading through a pointer to nothing, or a
    link a node does not have, fails.  An insertion is a sequence of stores, one
    step each, so that readers can be interleaved with them.  Loads and stores are
    those of one memory that all threads see in the same order; what the acquire
    and release operations must guarantee for that is not modelled. *)
From Stdlib Require Import ZArith Lia.
From Stdlib Require Sorted.
From stdpp Require Import base list numbers gmap option sorting.
From S2P Require Import Prelude.

Open Scope Z_scope.

(** * The interfaces *)

(** The comparator of the keys that are used, a total order. *)
Class KeyOrder (K : Type) := {
  compare_ : K -> K -> Z;
  key_valid : K -> Prop;
  compare_refl : forall a, key_valid a -> compare_ a a = 0;
  compare_sym : forall a b, key_valid a -> key_valid b -> compare_ a b < 0 <-> 0 < compare_ b a;
  compare_trans : forall a b c, key_valid a -> key_valid b -> key_valid c ->
    compare_ a b <= 0 -> compare_ b c <= 0 -> compare_ a c <= 0 }.

(** A node: a key (the head has none that is looked at) and as many links as it is
    high. *)
Record Node (K : Type) := mkNode { key : option K; next_ : list (option Z) }.
Arguments mkNode {K} _ _.
Arguments key {K} _.
Arguments next_ {K} _.

(** Where the arena puts a new node: nowhere where there is one. *)
Class Arena (K : Type) := {
  node_at : gmap Z (Node K) -> Z;
  node_at_fresh : forall m, m !! node_at m = None }.

(** * The code *)

(** ** Random *)

Definition new_Random (s : Z) : Z :=
  let seed := Z.land s 0x7fffffff in
  if (seed =? 0) || (seed =? 2147483647) then 1 else seed.

Definition Random_Next (seed : Z) : Z :=
  let M := 2147483647 in
  let A := 16807 in
  let product := u64 (seed * A) in
  let seed := u32 (Z.shiftr product 31 + Z.land product M) in
  if M <? seed then u32 (seed - M) else seed.

Definition kMaxHeight : nat := 12.

Section Code.
Context {K : Type} {KO : KeyOrder K} {AR : Arena K}.

Record SkipList := mkSkipList {
  nodes : gmap Z (Node K);
  head_ : Z;
  max_height_ : nat;
  rnd_ : Z }.

Definition NewNode (k : option K) (height : nat) (m : gmap Z (Node K)) : Z * gmap Z (Node K) :=
  let x := node_at m in (x, <[x := mkNode k (replicate height None)]> m).

(** [SkipList(cmp, arena)]: the links of the head are set to null. *)
Definition new_SkipList : SkipList :=
  let '(x, m) := NewNode None kMaxHeight ∅ in
  {| nodes := m; head_ := x; max_height_ := 1; rnd_ := new_Random 0xdeadbeef |}.

(** [x->Next(n)]. *)
Definition Next (m : gmap Z (Node K)) (x : Z) (n : nat) : option (option Z) := node ← m !! x; next_ node !! n.

(** [x->SetNext(n, y)]. *)
Definition SetNext (m : gmap Z (Node K)) (x : Z) (n : nat) (y : option Z) : option (gmap Z (Node K)) :=
  node ← m !! x;
  if decide (n < length (next_ node))%nat then Some (<[x := mkNode (key node) (<[n := y]> (next_ node))]> m) else None.

Definition node_key (m : gmap Z (Node K)) (x : Z) : option K := node ← m !! x; key node.

Definition Equal (a b : K) : bool := compare_ a b =? 0.

Definition KeyIsAfterNode (m : gmap Z (Node K)) (k : K) (n : option Z) : option bool :=
  match n with
  | None => Some false
  | Some n => nk ← node_key m n; Some (compare_ nk k <? 0)
  end.

(** A search stands at a node on a level; one round of its loop goes on to the next
    node, goes down, or returns. *)
Inductive position := At (x : Z) (level : nat) | Found (next : option Z) (x : Z).

(** A null [prev] is the empty list; an array holds what it holds until it is assigned.
    A round of [FindGreaterOrEqual]; the second part of the result is whether
    [prev[level]] is set to [x]. *)
Definition ge_round (m : gmap Z (Node K)) (k : K) (x : Z) (level : nat) : option (position * bool) :=
  next ← Next m x level;
  after ← KeyIsAfterNode m k next;
  if (after : bool) then
    match next with Some y => Some (At y level, false) | None => None end
  else match level with O => Some (Found next x, true) | S l => Some (At x l, true) end.

Fixpoint ge_loop (fuel : nat) (m : gmap Z (Node K)) (k : K) (x : Z) (level : nat) (prev : list (option Z)) : option (option Z * list (option Z)) :=
  match fuel with
  | O => None
  | S fuel =>
    '(p, set_prev) ← ge_round m k x level;
    let prev := if (set_prev : bool) then <[level := Some x]> prev else prev in
    match p with
    | At y l => ge_loop fuel m k y l prev
    | Found next _ => Some (next, prev)
    end
  end.

(** Each round passes a node or goes down a level. *)
Definition search_fuel (s : SkipList) : nat := size (nodes s) + kMaxHeight.

Definition FindGreaterOrEqual (k : K) (prev : list (option Z)) (s : SkipList) : option (option Z * list (option Z)) :=
  ge_loop (search_fuel s) (nodes s) k (head_ s) (max_height_ s - 1) prev.

(** [FindLessThan]. *)
Fixpoint lt_loop (fuel : nat) (m : gmap Z (Node K)) (k : K) (x : Z) (level : nat) : option Z :=
  match fuel with
  | O => None
  | S fuel =>
    next ← Next m x level;
    stop ← match next with None => Some true | Some y => nk ← node_key m y; Some (0 <=? compare_ nk k) end;
    if (stop : bool) then match level with O => Some x | S l => lt_loop fuel m k x l end
    else match next with Some y => lt_loop fuel m k y level | None => None end
  end.

Definition FindLessThan (k : K) (s : SkipList) : option Z :=
  lt_loop (search_fuel s) (nodes s) k (head_ s) (max_height_ s - 1).

(** [FindLast]. *)
Fixpoint last_loop (fuel : nat) (m : gmap Z (Node K)) (x : Z) (level : nat) : option Z :=
  match fuel with
  | O => None
  | S fuel =>
    next ← Next m x level;
    match next with
    | None => match level with O => Some x | S l => last_loop fuel m x l end
    | Some y => last_loop fuel m y level
    end
  end.

Definition FindLast (s : SkipList) : option Z := last_loop (search_fuel s) (nodes s) (head_ s) (max_height_ s - 1).

Fixpoint RandomHeight_loop (fuel : nat) (height : nat) (rnd : Z) : nat * Z :=
  match fuel with
  | O => (height, rnd)
  | S fuel =>
    if (height <? kMaxHeight)%nat then
      let rnd := Random_Next rnd in
      if rnd mod 4 =? 0 then RandomHeight_loop fuel (S height) rnd else (height, rnd)
    else (height, rnd)
  end.

Definition RandomHeight (rnd : Z) : nat * Z := RandomHeight_loop kMaxHeight 1 rnd.

(** An insertion between two of its stores: the new node, its predecessors, the
    level that is linked next and whether the node has its own link there. *)
Record insertion := mkInsertion { new_node : Z; preds : list (option Z); height : nat; level : nat; own_link : bool }.

(** Everything up to the loop that links the new node; [None] is also the failed
    assertion that the key is not there. *)
Definition Insert_begin (k : K) (s : SkipList) : option (SkipList * insertion) :=
  '(x, prev) ← FindGreaterOrEqual k (replicate kMaxHeight None) s;
  duplicate ← (match x with None => Some false | Some x => nk ← node_key (nodes s) x; Some (Equal k nk) end);
  if (duplicate : bool) then None else
  let '(height, rnd) := RandomHeight (rnd_ s) in
  let prev := if (max_height_ s <? height)%nat
              then foldl (fun prev i => <[i := Some (head_ s)]> prev) prev (seq (max_height_ s) (height - max_height_ s)) else prev in
  let max_height := if (max_height_ s <? height)%nat then height else max_height_ s in
  let '(x, m) := NewNode (Some k) height (nodes s) in
  Some (mkSkipList m (head_ s) max_height rnd, mkInsertion x prev height 0 false).

(** The next store. *)
Definition Insert_step (s : SkipList) (w : insertion) : option (SkipList * insertion) :=
  prev ← mjoin (preds w !! level w);
  if own_link w then
    m ← SetNext (nodes s) prev (level w) (Some (new_node w));
    Some (mkSkipList m (head_ s) (max_height_ s) (rnd_ s), mkInsertion (new_node w) (preds w) (height w) (S (level w)) false)
  else
    y ← Next (nodes s) prev (level w);
    m ← SetNext (nodes s) (new_node w) (level w) y;
    Some (mkSkipList m (head_ s) (max_height_ s) (rnd_ s), mkInsertion (new_node w) (preds w) (height w) (level w) true).

Fixpoint Insert_loop (fuel : nat) (s : SkipList) (w : insertion) : option SkipList :=
  match fuel with
  | O => None
  | S fuel => if (level w <? height w)%nat then '(s, w) ← Insert_step s w; Insert_loop fuel s w else Some s
  end.

Definition Insert (k : K) (s : SkipList) : option SkipList :=
  '(s, w) ← Insert_begin k s; Insert_loop (S (2 * kMaxHeight)) s w.

Definition Contains (k : K) (s : SkipList) : option bool :=
  '(x, _) ← FindGreaterOrEqual k [] s;
  match x with
  | None => Some false
  | Some x => nk ← node_key (nodes s) x; Some (Equal k nk)
  end.

(** ** The iterator: the node it stands at *)

Definition Iterator_Valid (node : option Z) : bool := match node with Some _ => true | None => false end.
Definition Iterator_key (s : SkipList) (node : option Z) : option K := x ← node; node_key (nodes s) x.
Definition Iterator_Next (s : SkipList) (node : option Z) : option (option Z) := x ← node; Next (nodes s) x 0.

Definition Iterator_Prev (s : SkipList) (node : option Z) : option (option Z) :=
  x ← node;
  k ← node_key (nodes s) x;
  y ← FindLessThan k s;
  Some (if y =? head_ s then None else Some y).

Definition Iterator_Seek (s : SkipList) (target : K) : option (option Z) :=
  '(x, _) ← FindGreaterOrEqual target [] s; Some x.

Definition Iterator_SeekToFirst (s : SkipList) : option (option Z) := Next (nodes s) (head_ s) 0.

Definition Iterator_SeekToLast (s : SkipList) : option (option Z) :=
  y ← FindLast s; Some (if y =? head_ s then None else Some y).
End Code.
Arguments SkipList : clear implicits.

(** * The shape of the lists *)

Section Shape.
Context {K : Type} {KO : KeyOrder K} {AR : Arena K}.
Implicit Types (m : gmap Z (Node K)) (s : SkipList K) (k a b : K) (x y z : Z) (l A B : list Z).

(** The list of a level, from a node on. *)
Fixpoint chain m (i : nat) x l : Prop :=
  match l with
  | [] => Next m x i = Some None
  | y :: l => Next m x i = Some (Some y) /\ chain m i y l
  end.

Definition before m k x : Prop := exists a, node_key m x = Some a /\ key_valid a /\ compare_ a k < 0.
Definition not_before m k x : Prop := exists a, node_key m x = Some a /\ key_valid a /\ 0 <= compare_ a k.
Definition node_lt m x y : Prop :=
  exists a b, node_key m x = Some a /\ node_key m y = Some b /\ key_valid a /\ key_valid b /\ compare_ a b < 0.

(** The lists of all levels: each is sorted and part of the one below.  It holds
    between any two stores of an insertion. *)
Record skip_ok s (L : nat -> list Z) : Prop := {
  ok_chain : forall i, (i < kMaxHeight)%nat -> chain (nodes s) i (head_ s) (L i);
  ok_sub : forall i, L (S i) ⊆ L i;
  ok_sorted : forall i, StronglySorted (node_lt (nodes s)) (L i);
  ok_keys : forall x, x ∈ L 0%nat -> exists a, node_key (nodes s) x = Some a /\ key_valid a;
  ok_head : head_ s ∉ L 0%nat;
  ok_height : (1 <= max_height_ s <= kMaxHeight)%nat;
  ok_empty : forall i, (max_height_ s <= i)%nat -> L i = [] }.

Lemma compare_le_lt a b c : key_valid a -> key_valid b -> key_valid c ->
  compare_ a b <= 0 -> compare_ b c < 0 -> compare_ a c < 0.
Proof.
  intros Ha Hb Hc Hab Hbc. destruct (Z.lt_ge_cases (compare_ a c) 0) as [|Hge]; [assumption|exfalso].
  pose proof (compare_sym c a Hc Ha). pose proof (compare_sym a c Ha Hc). pose proof (compare_sym b c Hb Hc).
  pose proof (compare_trans c a b Hc Ha Hb ltac:(lia) Hab). lia.
Qed.

Lemma compare_lt_le a b c : key_valid a -> key_valid b -> key_valid c ->
  compare_ a b < 0 -> compare_ b c <= 0 -> compare_ a c < 0.
Proof.
  intros Ha Hb Hc Hab Hbc. destruct (Z.lt_ge_cases (compare_ a c) 0) as [|Hge]; [assumption|exfalso].
  pose proof (compare_sym c a Hc Ha). pose proof (compare_sym a c Ha Hc). pose proof (compare_sym a b Ha Hb).
  pose proof (compare_trans b c a Hb Hc Ha Hbc ltac:(lia)). lia.
Qed.

Lemma node_lt_irrefl m x : ~ node_lt m x x.
Proof. intros (a & b & Ha & Hb & Va & Vb & Hab). rewrite Ha in Hb. injection Hb as <-. rewrite compare_refl in Hab by exact Va. lia. Qed.

Lemma node_lt_trans m x y z : node_lt m x y -> node_lt m y z -> node_lt m x z.
Proof.
  intros (a & b & Ha & Hb & Va & Vb & Hab) (b' & c & Hb' & Hc & _ & Vc & Hbc). rewrite Hb in Hb'. injection Hb' as <-.
  exists a, c. split_and!; auto. apply (compare_lt_le a b c); auto. lia.
Qed.

Lemma before_lt m k x y : key_valid k -> node_lt m x y -> before m k y -> before m k x.
Proof.
  intros Hk (a & b & Ha & Hb & Va & Vb & Hab) (b' & Hb' & _ & Hbk). rewrite Hb in Hb'. injection Hb' as <-.
  exists a. split_and!; auto. apply (compare_lt_le a b k); auto. lia.
Qed.

Lemma not_before_lt m k x y : key_valid k -> node_lt m x y -> not_before m k x -> not_before m k y.
Proof.
  intros Hk (a & b & Ha & Hb & Va & Vb & Hab) (a' & Ha' & _ & Hak). rewrite Ha in Ha'. injection Ha' as <-.
  exists b. split_and!; auto. destruct (Z.lt_ge_cases (compare_ b k) 0) as [Hlt|]; [|assumption].
  pose proof (compare_lt_le a b k Va Vb Hk Hab ltac:(lia)). lia.
Qed.

Lemma before_not m k x : before m k x -> not_before m k x -> False.
Proof. intros (a & Ha & _ & ?) (a' & Ha' & _ & ?). rewrite Ha in Ha'. injection Ha' as <-. lia. Qed.

(** A list cut where its nodes are no longer before a key. *)
Definition cut m k l A B : Prop := l = A ++ B /\ Forall (before m k) A /\ Forall (not_before m k) B.

Lemma sorted_app_inv m A B : StronglySorted (node_lt m) (A ++ B) ->
  StronglySorted (node_lt m) A /\ StronglySorted (node_lt m) B /\ forall x y, x ∈ A -> y ∈ B -> node_lt m x y.
Proof.
  induction A as [|x A IH]; cbn [app]; intros H; [split; [constructor|split; [exact H|intros x y Hx; inversion Hx]]|].
  apply StronglySorted_inv in H as [H Hx]. destruct (IH H) as (H1 & H2 & H3). apply Forall_app in Hx as [Hx1 Hx2].
  split; [constructor; auto|split; [exact H2|]]. intros y z Hy Hz. apply elem_of_cons in Hy as [->|Hy]; [|auto].
  rewrite Forall_forall in Hx2. auto.
Qed.

Lemma sorted_app m A B : StronglySorted (node_lt m) A -> StronglySorted (node_lt m) B ->
  (forall x y, x ∈ A -> y ∈ B -> node_lt m x y) -> StronglySorted (node_lt m) (A ++ B).
Proof.
  induction 1 as [|x A HA IH Hx]; intros HB H; [exact HB|]. cbn [app]. constructor.
  - apply IH; [exact HB|]. intros y z Hy Hz. apply H; [apply elem_of_cons; auto|exact Hz].
  - apply Forall_app. split; [exact Hx|]. apply Forall_forall. intros z Hz. apply H; [apply elem_of_cons; auto|exact Hz].
Qed.

Lemma sorted_NoDup m l : StronglySorted (node_lt m) l -> NoDup l.
Proof.
  induction 1 as [|x l Hl IH Hx]; constructor; [|exact IH]. intros Hin. rewrite Forall_forall in Hx.
  exact (node_lt_irrefl m x (Hx x Hin)).
Qed.

(** A node of a chain, and what follows it. *)
Lemma chain_from m i h l x : chain m i h l -> x ∈ h :: l -> exists A B, h :: l = A ++ x :: B /\ chain m i x B.
Proof.
  revert h. induction l as [|y l IH]; intros h Hc Hx.
  - apply list_elem_of_singleton in Hx as ->. exists [], []. auto.
  - apply elem_of_cons in Hx as [->|Hx]; [exists [], (y :: l); auto|].
    destruct Hc as [Hn Hc]. destruct (IH y Hc Hx) as (A & B & E & HB). exists (h :: A), B. rewrite E. auto.
Qed.

Lemma chain_Next m i h l : chain m i h l -> Next m h i = Some (head l).
Proof. destruct l; cbn; [auto|tauto]. Qed.

(** ** Searching *)

(** Where a search for [k] may stand. *)
Definition at_position s (L : nat -> list Z) k x (level : nat) : Prop :=
  (level < kMaxHeight)%nat /\ (x = head_ s \/ x ∈ L level /\ before (nodes s) k x).

Lemma level_0 s L i x : skip_ok s L -> x ∈ L i -> x ∈ L 0%nat.
Proof. intros Hs. induction i as [|i IH]; [auto|]. intros Hx. apply IH, (ok_sub s L Hs), Hx. Qed.

Lemma level_keys s L i x : skip_ok s L -> x ∈ L i -> exists a, node_key (nodes s) x = Some a /\ key_valid a.
Proof. intros Hs Hx. apply (ok_keys s L Hs), (level_0 s L i x Hs Hx). Qed.

Lemma position_next s L k x i : skip_ok s L -> key_valid k -> at_position s L k x i ->
  exists A B, L i = A ++ B /\ List.last A (head_ s) = x /\ Forall (before (nodes s) k) A /\ Next (nodes s) x i = Some (head B) /\
  match B with
  | [] => cut (nodes s) k (L i) A B
  | y :: B' => exists b, node_key (nodes s) y = Some b /\ key_valid b /\ node_key (nodes s) y = Some b /\
      (if compare_ b k <? 0 then before (nodes s) k y else cut (nodes s) k (L i) A B)
  end.
Proof.
  intros Hs Hk [Hi Hx]. pose proof (ok_chain s L Hs i Hi) as Hc. pose proof (ok_sorted s L Hs i) as Hsort.
  assert (H : exists A B, L i = A ++ B /\ List.last A (head_ s) = x /\ Forall (before (nodes s) k) A /\ chain (nodes s) i x B).
  { destruct Hx as [->|[Hx Hb]]; [exists [], (L i); auto|].
    destruct (chain_from _ _ _ _ x Hc ltac:(apply elem_of_cons; auto)) as (A & B & E & HB).
    destruct A as [|h A]; injection E as E0 E.
    { exfalso. apply (ok_head s L Hs). rewrite E0. apply (level_0 s L i x Hs Hx). }
    exists (A ++ [x]), B. rewrite <- app_assoc. split; [exact E|]. split; [apply List.last_last|]. split; [|exact HB].
    apply Forall_app. split; [|constructor; [exact Hb|constructor]]. rewrite E in Hsort.
    apply sorted_app_inv in Hsort as (_ & _ & Hlt). apply Forall_forall. intros z Hz.
    apply (before_lt _ k z x Hk); [apply Hlt; [exact Hz|apply elem_of_cons; auto]|exact Hb]. }
  destruct H as (A & B & E & Hlast & HA & HB). exists A, B. split; [exact E|]. split; [exact Hlast|]. split; [exact HA|].
  split; [apply chain_Next, HB|]. destruct B as [|y B]; [split; auto|].
  assert (Hy : y ∈ L i) by (rewrite E; apply elem_of_app; right; apply elem_of_cons; auto).
  destruct (level_keys s L i y Hs Hy) as (b & Hb & Vb). exists b. split; [exact Hb|]. split; [exact Vb|]. split; [exact Hb|].
  destruct (Z.ltb_spec (compare_ b k) 0) as [Hlt|Hge]; [exists b; auto|].
  assert (Hnb : not_before (nodes s) k y) by (exists b; auto). split; [exact E|]. split; [exact HA|]. constructor; [exact Hnb|].
  rewrite E in Hsort. apply sorted_app_inv in Hsort as (_ & Hsort & _). apply StronglySorted_inv in Hsort as [_ Hall].
  eapply Forall_impl; [exact Hall|]. intros z Hz. exact (not_before_lt _ k y z Hk Hz Hnb).
Qed.

(** A round of a search never reads a link that is not there, and ends at the first
    node that is not before the key. *)
Lemma ge_round_ok s L k x i : skip_ok s L -> key_valid k -> at_position s L k x i ->
  exists p (b : bool), ge_round (nodes s) k x i = Some (p, b) /\
  match p with
  | At y j => at_position s L k y j /\
      (if b then i = S j /\ y = x else j = i /\ exists A B, L i = A ++ y :: B /\ List.last A (head_ s) = x)
  | Found next y => b = true /\ i = O /\ y = x /\ exists A B, cut (nodes s) k (L 0%nat) A B /\ next = head B
  end /\
  (b = true -> exists A B, cut (nodes s) k (L i) A B /\ List.last A (head_ s) = x).
Proof.
  intros Hs Hk Hpos. destruct (position_next s L k x i Hs Hk Hpos) as (A & B & E & Hlast & HA & Hn & HB).
  unfold ge_round. rewrite Hn. cbn [mbind option_bind].
  assert (Hdown : cut (nodes s) k (L i) A B -> exists p, (match i with O => Some (Found (head B) x, true) | S l => Some (At x l, true) end) = Some (p, true) /\
    match p with
    | At y j => at_position s L k y j /\ i = S j /\ y = x
    | Found next y => i = O /\ y = x /\ exists A B, cut (nodes s) k (L 0%nat) A B /\ next = head B
    end).
  { intros Hcut. destruct Hpos as [Hi Hx]. destruct i as [|j]; eexists; (split; [reflexivity|]).
    - split; [reflexivity|]. split; [reflexivity|]. exists A, B. auto.
    - split; [|auto]. split; [lia|]. destruct Hx as [|[Hx Hb]]; [auto|]. right. split; [apply (ok_sub s L Hs), Hx|exact Hb]. }
  destruct B as [|y B]; cbn [head KeyIsAfterNode mbind option_bind].
  - destruct (Hdown HB) as (p & Ep & Hp). exists p, true. split; [exact Ep|]. split; [|eauto].
    destruct p; [exact Hp|]. destruct Hp as (? & ? & ?). auto.
  - destruct HB as (b & Hb & Vb & _ & HB). rewrite Hb. cbn [mbind option_bind]. destruct (compare_ b k <? 0).
    + exists (At y i), false. split; [reflexivity|]. split; [|discriminate]. destruct Hpos as [Hi _].
      split; [split; [exact Hi|right; split; [rewrite E; apply elem_of_app; right; apply elem_of_cons; auto|exact HB]]|].
      split; [reflexivity|]. exists A, B. auto.
    + destruct (Hdown HB) as (p & Ep & Hp). exists p, true. split; [exact Ep|]. split; [|eauto].
      destruct p; [exact Hp|]. destruct Hp as (? & ? & ?). auto.
Qed.

(** ** Termination: what a search has not passed yet *)

Definition ahead s (L : nat -> list Z) x (R : list Z) : Prop :=
  (x = head_ s /\ R = L 0%nat) \/ exists Q, L 0%nat = Q ++ x :: R.

Lemma ahead_move s L i A y B R : skip_ok s L -> L i = A ++ y :: B -> ahead s L (List.last A (head_ s)) R ->
  exists R', ahead s L y R' /\ (length R' < length R)%nat.
Proof.
  intros Hs E Hx. assert (Hy : y ∈ L 0%nat).
  { apply (level_0 s L i y Hs). rewrite E. apply elem_of_app. right. apply elem_of_cons. auto. }
  pose proof (ok_sorted s L Hs 0) as H0. destruct Hx as [[Hx ->]|[Q E0]].
  - apply list_elem_of_split in Hy as (Q & R' & EQ). exists R'. split; [right; eauto|]. rewrite EQ, length_app. cbn. lia.
  - assert (HA : exists A', A = A' ++ [List.last A (head_ s)]).
    { destruct A as [|a A _] using rev_ind; [|rewrite List.last_last; eauto]. exfalso. apply (ok_head s L Hs). rewrite E0.
      apply elem_of_app. right. apply elem_of_cons. auto. }
    destruct HA as [A' EA]. set (x := List.last A (head_ s)) in *.
    assert (Hlt : node_lt (nodes s) x y).
    { pose proof (ok_sorted s L Hs i) as Hi. rewrite E, EA, <- app_assoc in Hi. apply sorted_app_inv in Hi as (_ & Hi & _).
      apply StronglySorted_inv in Hi as [_ Hi]. inversion Hi. assumption. }
    rewrite E0 in Hy, H0. apply sorted_app_inv in H0 as (_ & _ & H0). apply elem_of_app in Hy as [Hy|Hy].
    + exfalso. apply (node_lt_irrefl (nodes s) x). apply (node_lt_trans _ _ y _ Hlt). apply H0; [exact Hy|apply elem_of_cons; auto].
    + apply elem_of_cons in Hy as [->|Hy]; [exfalso; exact (node_lt_irrefl _ _ Hlt)|].
      apply list_elem_of_split in Hy as (R1 & R2 & ER). exists R2. split; [|rewrite ER, length_app; cbn; lia].
      right. exists (Q ++ x :: R1). rewrite E0, ER, <- app_assoc. reflexivity.
Qed.

(** The predecessor of a key on a level. *)
Definition pred_at s (L : nat -> list Z) k (i : nat) (p : Z) : Prop :=
  exists A B, cut (nodes s) k (L i) A B /\ List.last A (head_ s) = p.

Lemma ge_loop_ok s L k : skip_ok s L -> key_valid k -> forall fuel x i prev R,
  at_position s L k x i -> ahead s L x R -> (length R + i < fuel)%nat ->
  exists A B prev', cut (nodes s) k (L 0%nat) A B /\
    ge_loop fuel (nodes s) k x i prev = Some (head B, prev') /\ length prev' = length prev /\
    (forall j, (i < j)%nat -> prev' !! j = prev !! j) /\
    (forall j, (j <= i)%nat -> (j < length prev)%nat -> exists p, prev' !! j = Some (Some p) /\ pred_at s L k j p).
Proof.
  intros Hs Hk. induction fuel as [|fuel IH]; intros x i prev R Hpos HR Hf; [lia|].
  destruct (ge_round_ok s L k x i Hs Hk Hpos) as (p & b & E & Hp & Hpred). cbn [ge_loop]. rewrite E. cbn [mbind option_bind].
  destruct p as [y j|next y].
  - destruct Hp as [Hpos' Hb]. destruct b.
    + destruct Hb as [-> ->].
      destruct (IH x j (<[S j := Some x]> prev) R Hpos' HR ltac:(lia)) as (A & B & prev' & Hc & Hg & Hl & Hhi & Hlo).
      rewrite length_insert in Hl, Hlo. exists A, B, prev'. split; [exact Hc|]. split; [exact Hg|]. split; [exact Hl|].
      split; [intros n Hn; rewrite Hhi, list_lookup_insert_ne by lia; reflexivity|].
      intros n Hn Hlen. destruct (decide (n = S j)) as [->|Hne]; [|apply Hlo; lia].
      exists x. rewrite Hhi, list_lookup_insert by lia. split; [|apply Hpred; reflexivity].
      rewrite decide_True by (split; [reflexivity|exact Hlen]). reflexivity.
    + destruct Hb as [-> (A & B & EL & Hlast)]. subst x.
      destruct (ahead_move s L i A y B R Hs EL HR) as (R' & HR' & Hlt). apply (IH y i prev R' Hpos' HR'). lia.
  - destruct Hp as (-> & -> & -> & A & B & Hc & ->). exists A, B, (<[0%nat := Some x]> prev). split; [exact Hc|].
    split; [reflexivity|]. split; [apply length_insert|].
    split; [intros n Hn; apply list_lookup_insert_ne; lia|]. intros n Hn Hlen. assert (n = 0%nat) as -> by lia.
    exists x. split; [|apply Hpred; reflexivity]. rewrite list_lookup_insert. rewrite decide_True by (split; [reflexivity|exact Hlen]). reflexivity.
Qed.

Lemma node_exists_key m x a : node_key m x = Some a -> is_Some (m !! x).
Proof. unfold node_key. destruct (m !! x); [eauto|discriminate]. Qed.

Lemma node_exists_next m x i n : Next m x i = Some n -> is_Some (m !! x).
Proof. unfold Next. destruct (m !! x); [eauto|discriminate]. Qed.

Lemma length_level_0 s L : skip_ok s L -> (length (L 0%nat) < size (nodes s))%nat.
Proof.
  intros Hs. assert (Hnd : NoDup (head_ s :: L 0%nat)).
  { constructor; [apply (ok_head s L Hs)|apply (sorted_NoDup (nodes s)), (ok_sorted s L Hs)]. }
  assert (E : length (head_ s :: L 0%nat) = size (list_to_set (head_ s :: L 0%nat) : gset Z)).
  { symmetry. apply size_list_to_set, Hnd. }
  cbn [length] in E. rewrite <- (size_dom (nodes s)). unfold lt. rewrite E. apply subseteq_size. intros x Hx.
  apply elem_of_list_to_set, elem_of_cons in Hx as [->|Hx]; apply elem_of_dom.
  - eapply node_exists_next, chain_Next, (ok_chain s L Hs 0%nat). unfold kMaxHeight. lia.
  - destruct (ok_keys s L Hs x Hx) as (a & Ha & _). exact (node_exists_key _ _ _ Ha).
Qed.

Lemma start_position s L k : skip_ok s L ->
  at_position s L k (head_ s) (max_height_ s - 1) /\ ahead s L (head_ s) (L 0%nat) /\
  (length (L 0%nat) + (max_height_ s - 1) < search_fuel s)%nat.
Proof.
  intros Hs. pose proof (ok_height s L Hs). pose proof (length_level_0 s L Hs).
  split; [split; [lia|auto]|]. split; [left; auto|]. unfold search_fuel. lia.
Qed.

Lemma FindGreaterOrEqual_ok s L k prev : skip_ok s L -> key_valid k ->
  exists A B prev', cut (nodes s) k (L 0%nat) A B /\
    FindGreaterOrEqual k prev s = Some (head B, prev') /\ length prev' = length prev /\
    (forall j, (max_height_ s <= j)%nat -> prev' !! j = prev !! j) /\
    (forall j, (j < max_height_ s)%nat -> (j < length prev)%nat -> exists p, prev' !! j = Some (Some p) /\ pred_at s L k j p).
Proof.
  intros Hs Hk. destruct (start_position s L k Hs) as (Hp & Ha & Hf). pose proof (ok_height s L Hs) as Hh.
  destruct (ge_loop_ok s L k Hs Hk _ _ _ prev _ Hp Ha Hf) as (A & B & prev' & Hc & E & Hl & Hhi & Hlo).
  exists A, B, prev'. split; [exact Hc|]. split; [exact E|]. split; [exact Hl|].
  split; [intros j Hj; apply Hhi; lia|intros j Hj; apply Hlo; lia].
Qed.

(** The loop of [FindLessThan] makes the same rounds. *)
Lemma lt_loop_round fuel m k x i : lt_loop (S fuel) m k x i =
  '(p, _) ← ge_round m k x i; match p with At y j => lt_loop fuel m k y j | Found _ y => Some y end.
Proof.
  cbn [lt_loop]. unfold ge_round. destruct (Next m x i) as [[y|]|]; [|destruct i; reflexivity|reflexivity].
  cbn [mbind option_bind KeyIsAfterNode]. destruct (node_key m y) as [b|]; [|reflexivity]. cbn [mbind option_bind].
  destruct (Z.leb_spec 0 (compare_ b k)), (Z.ltb_spec (compare_ b k) 0); try lia; destruct i; reflexivity.
Qed.

Lemma lt_loop_ok s L k : skip_ok s L -> key_valid k -> forall fuel x i R,
  at_position s L k x i -> ahead s L x R -> (length R + i < fuel)%nat ->
  exists p, lt_loop fuel (nodes s) k x i = Some p /\ pred_at s L k 0 p.
Proof.
  intros Hs Hk. induction fuel as [|fuel IH]; intros x i R Hpos HR Hf; [lia|].
  destruct (ge_round_ok s L k x i Hs Hk Hpos) as (p & b & E & Hp & Hpred). rewrite lt_loop_round, E. cbn [mbind option_bind].
  destruct p as [y j|next y].
  - destruct Hp as [Hpos' Hb]. destruct b.
    + destruct Hb as [-> ->]. apply (IH x j R Hpos' HR). lia.
    + destruct Hb as [-> (A & B & EL & Hlast)]. subst x.
      destruct (ahead_move s L i A y B R Hs EL HR) as (R' & HR' & Hlt). apply (IH y i R' Hpos' HR'). lia.
  - destruct Hp as (-> & -> & -> & _). exists x. split; [reflexivity|]. apply Hpred. reflexivity.
Qed.

Lemma FindLessThan_ok s L k : skip_ok s L -> key_valid k -> exists p, FindLessThan k s = Some p /\ pred_at s L k 0 p.
Proof.
  intros Hs Hk. destruct (start_position s L k Hs) as (Hp & Ha & Hf). exact (lt_loop_ok s L k Hs Hk _ _ _ _ Hp Ha Hf).
Qed.

Lemma last_loop_ok s L : skip_ok s L -> forall fuel x i R,
  (i < kMaxHeight)%nat -> (x = head_ s \/ x ∈ L i) -> ahead s L x R -> (length R + i < fuel)%nat ->
  last_loop fuel (nodes s) x i = Some (List.last (L 0%nat) (head_ s)).
Proof.
  intros Hs. induction fuel as [|fuel IH]; intros x i R Hi Hx HR Hf; [lia|].
  pose proof (ok_chain s L Hs i Hi) as Hc. destruct (chain_from _ _ _ _ x Hc) as (A & B & E & HB).
  { apply elem_of_cons. exact Hx. }
  cbn [last_loop]. rewrite (chain_Next _ _ _ _ HB). cbn [mbind option_bind]. destruct B as [|y B]; cbn [head].
  - destruct i as [|j].
    + f_equal. assert (El : List.last (head_ s :: L 0%nat) (head_ s) = x) by (rewrite E; apply List.last_last).
      rewrite <- El. destruct (L 0%nat); reflexivity.
    + apply (IH x j R); [lia| |exact HR|lia]. destruct Hx as [|Hx]; [auto|]. right. apply (ok_sub s L Hs), Hx.
  - assert (EL : exists A', L i = A' ++ y :: B /\ List.last A' (head_ s) = x).
    { destruct A as [|h A]; injection E as E0 E; [exists []; subst x; auto|]. exists (A ++ [x]). rewrite <- app_assoc.
      split; [exact E|apply List.last_last]. }
    destruct EL as (A' & EL & Hlast). rewrite <- Hlast in HR. destruct (ahead_move s L i A' y B R Hs EL HR) as (R' & HR' & Hlt).
    apply (IH y i R'); [exact Hi|right; rewrite EL; apply elem_of_app; right; apply elem_of_cons; auto|exact HR'|lia].
Qed.

Lemma FindLast_ok s L : skip_ok s L -> FindLast s = Some (List.last (L 0%nat) (head_ s)).
Proof.
  intros Hs. pose proof (ok_height s L Hs) as Hh. pose proof (length_level_0 s L Hs).
  apply (last_loop_ok s L Hs _ _ _ (L 0%nat)); [lia|auto|left; auto|unfold search_fuel; lia].
Qed.
End Shape.

(** * An insertion, store by store *)

Section Insertion.
Context {K : Type} {KO : KeyOrder K} {AR : Arena K}.
Implicit Types (m : gmap Z (Node K)) (s : SkipList K) (k a b : K) (x y z : Z) (l A B : list Z).

Lemma last_cons {T} (e : T) (t : list T) (d : T) : List.last (e :: t) d = List.last t e.
Proof. revert e d. induction t as [|b t IH]; intros e d; [reflexivity|]. change (List.last (e :: b :: t) d) with (List.last (b :: t) d). rewrite !IH. reflexivity. Qed.

Lemma last_in l h : List.last l h ∈ h :: l.
Proof.
  revert h. induction l as [|a l IH]; intros h; [apply elem_of_cons; auto|]. rewrite last_cons. apply elem_of_cons. right. apply IH.
Qed.

Lemma chain_split m i h A B : chain m i h (A ++ B) -> chain m i (List.last A h) B.
Proof. revert h. induction A as [|a A IH]; intros h; [auto|]. intros [_ Hc]. rewrite last_cons. apply IH, Hc. Qed.

Lemma links_ext m m' i h l : (forall z, z ∈ h :: l -> Next m' z i = Next m z i) -> chain m i h l -> chain m' i h l.
Proof.
  revert h. induction l as [|y l IH]; intros h He; cbn [chain].
  - rewrite He by (apply elem_of_cons; auto). auto.
  - intros [Hn Hc]. rewrite He by (apply elem_of_cons; auto). split; [exact Hn|]. apply IH; [|exact Hc].
    intros z Hz. apply He, elem_of_cons. auto.
Qed.

Lemma chain_insert m m' i x B : forall A h,
  chain m i h (A ++ B) -> NoDup (h :: A ++ B) -> x ∉ h :: A ++ B -> Next m x i = Some (head B) ->
  Next m' (List.last A h) i = Some (Some x) -> (forall z, z <> List.last A h -> Next m' z i = Next m z i) ->
  chain m' i h (A ++ x :: B).
Proof.
  induction A as [|a A IH]; intros h Hc Hnd Hx Hxn Hp Hz; cbn [app chain] in *.
  - split; [exact Hp|]. cbn [List.last] in Hz. assert (Hxh : x <> h) by (intros ->; apply Hx, elem_of_cons; auto).
    apply NoDup_cons in Hnd as [Hh Hnd]. destruct B as [|y B]; cbn [chain head] in *.
    + rewrite Hz by exact Hxh. exact Hxn.
    + rewrite Hz by exact Hxh. split; [exact Hxn|]. apply (links_ext m); [|apply Hc]. intros z Hin. apply Hz. intros ->. contradiction.
  - rewrite last_cons in *. apply NoDup_cons in Hnd as [Hh Hnd]. destruct Hc as [Hn Hc]. split.
    + rewrite Hz; [exact Hn|]. intros ->. apply Hh. pose proof (last_in A a) as Hl. apply elem_of_cons in Hl as [->|Hl];
        [apply elem_of_cons; auto|apply elem_of_cons; right; apply elem_of_app; auto].
    + apply IH; auto. intros Hin. apply Hx, elem_of_cons. auto.
Qed.

(** ** Stores *)

Lemma SetNext_ok m x n (y : option Z) h : (match m !! x with Some node => length (next_ node) = h | None => False end) -> (n < h)%nat ->
  exists m', SetNext m x n y = Some m' /\ (forall z, node_key m' z = node_key m z) /\
    Next m' x n = Some y /\ (forall z i, z <> x \/ i <> n -> Next m' z i = Next m z i) /\
    (forall z, (z ∈ dom m' <-> z ∈ dom m)) /\
    (forall z, match m' !! z with Some node => length (next_ node) | None => 0%nat end =
               match m !! z with Some node => length (next_ node) | None => 0%nat end).
Proof.
  intros Hx Hn. unfold SetNext. destruct (m !! x) as [node|] eqn:E; [|contradiction]. cbn [mbind option_bind].
  rewrite decide_True by lia. eexists. split; [reflexivity|]. split_and!.
  - intros z. unfold node_key. destruct (decide (z = x)) as [->|Hne]; [rewrite lookup_insert_eq, E; reflexivity|].
    rewrite lookup_insert_ne by congruence. reflexivity.
  - unfold Next. rewrite lookup_insert_eq. cbn [mbind option_bind next_]. apply list_lookup_insert_eq. lia.
  - intros z i Hzi. unfold Next. destruct (decide (z = x)) as [->|Hne].
    + rewrite lookup_insert_eq, E. cbn [mbind option_bind next_]. apply list_lookup_insert_ne. destruct Hzi; congruence.
    + rewrite lookup_insert_ne by congruence. reflexivity.
  - intros z. rewrite dom_insert. split; [|set_solver]. intros Hz. apply elem_of_union in Hz as [Hz|Hz]; [|exact Hz].
    apply elem_of_singleton in Hz as ->. apply elem_of_dom. eauto.
  - intros z. destruct (decide (z = x)) as [->|Hne]; [rewrite lookup_insert_eq, E; cbn [next_]; apply length_insert|].
    rewrite lookup_insert_ne by congruence. reflexivity.
Qed.

(** An insertion of [k] between two stores. *)
Record linking s (L : nat -> list Z) k (w : insertion) : Prop := {
  lk_valid : key_valid k;
  lk_key : node_key (nodes s) (new_node w) = Some k;
  lk_node : match nodes s !! new_node w with Some node => length (next_ node) = height w | None => False end;
  lk_height : (1 <= height w <= max_height_ s)%nat;
  lk_level : (level w <= height w)%nat;
  lk_head : new_node w <> head_ s;
  lk_fresh : forall i, (level w <= i)%nat -> new_node w ∉ L i;
  lk_in : forall i, (i < level w)%nat -> new_node w ∈ L i;
  lk_pred : forall i, (level w <= i < height w)%nat -> exists A B, L i = A ++ B /\
    preds w !! i = Some (Some (List.last A (head_ s))) /\
    Forall (fun y => node_lt (nodes s) y (new_node w)) A /\ Forall (node_lt (nodes s) (new_node w)) B;
  lk_own : own_link w = true -> (level w < height w)%nat /\
    forall p, preds w !! level w = Some (Some p) -> Next (nodes s) (new_node w) (level w) = Next (nodes s) p (level w) }.

(** What readers rely on: nodes keep their keys and lists only grow. *)
Definition grows s (L : nat -> list Z) s' (L' : nat -> list Z) : Prop :=
  head_ s' = head_ s /\ (forall i, L i ⊆ L' i) /\ forall z a, node_key (nodes s) z = Some a -> node_key (nodes s') z = Some a.

Lemma node_lt_keys m m' x y : (forall z a, node_key m z = Some a -> node_key m' z = Some a) -> node_lt m x y -> node_lt m' x y.
Proof. intros He (a & b & Ha & Hb & H). exists a, b. split; [auto|split; [auto|exact H]]. Qed.

Lemma sorted_keys m m' l : (forall z a, node_key m z = Some a -> node_key m' z = Some a) ->
  StronglySorted (node_lt m) l -> StronglySorted (node_lt m') l.
Proof.
  intros He. induction 1 as [|x l Hl IH Hx]; constructor; [exact IH|]. eapply Forall_impl; [exact Hx|]. intros y. apply node_lt_keys, He.
Qed.

Lemma pred_has_link s L i A B : skip_ok s L -> (i < kMaxHeight)%nat -> L i = A ++ B ->
  Next (nodes s) (List.last A (head_ s)) i = Some (head B).
Proof.
  intros Hs Hi E. apply chain_Next. apply (chain_split _ _ _ A B). rewrite <- E. apply (ok_chain s L Hs), Hi.
Qed.

Lemma Next_height m x i n : Next m x i = Some n -> match m !! x with Some node => (i < length (next_ node))%nat | None => False end.
Proof. unfold Next. destruct (m !! x) as [node|]; [|discriminate]. cbn. intros E. apply lookup_lt_Some in E. exact E. Qed.

(** The level that a store publishes. *)
Definition publish (L : nat -> list Z) (i : nat) (l : list Z) : nat -> list Z := fun j => if decide (j = i) then l else L j.

Lemma publish_eq L i l : publish L i l i = l.
Proof. unfold publish. rewrite decide_True; auto. Qed.

Lemma publish_ne L i l j : j <> i -> publish L i l j = L j.
Proof. intros Hj. unfold publish. rewrite decide_False; auto. Qed.

Lemma Insert_step_own s L k w : skip_ok s L -> linking s L k w -> (level w < height w)%nat -> own_link w = false ->
  exists s' w', Insert_step s w = Some (s', w') /\ skip_ok s' L /\ linking s' L k w' /\ grows s L s' L /\
    height w' = height w /\ level w' = level w /\ own_link w' = true /\ new_node w' = new_node w.
Proof.
  intros Hs Hw Hlv Hown. pose proof (ok_height s L Hs) as Hmh. pose proof (lk_height _ _ _ _ Hw) as Hh.
  destruct (lk_pred _ _ _ _ Hw (level w) ltac:(lia)) as (A & B & EL & Hp & HA & HB).
  pose proof (pred_has_link s L (level w) A B Hs ltac:(lia) EL) as Hpn. set (p := List.last A (head_ s)) in *.
  destruct (SetNext_ok (nodes s) (new_node w) (level w) (head B) (height w) (lk_node _ _ _ _ Hw) Hlv)
    as (m' & Em & Hkey & Hnx & Hother & Hdom & Hlen).
  unfold Insert_step. rewrite Hp. cbn [mjoin option_join mbind option_bind]. rewrite Hown, Hpn. cbn [mbind option_bind]. rewrite Em.
  cbn [mbind option_bind]. eexists _, _. split; [reflexivity|].
  assert (Hk' : forall z a, node_key (nodes s) z = Some a -> node_key m' z = Some a) by (intros z a <-; apply Hkey).
  assert (Hpx : p <> new_node w).
  { intros E. pose proof (last_in A (head_ s)) as Hin. fold p in Hin. rewrite E in Hin. apply elem_of_cons in Hin as [Hin|Hin].
    - exact (lk_head _ _ _ _ Hw Hin).
    - apply (lk_fresh _ _ _ _ Hw (level w)); [lia|]. rewrite EL. apply elem_of_app. auto. }
  split; [|split; [|split; [|split; [reflexivity|split; [reflexivity|split; [reflexivity|]]]]]].
  - constructor; cbn [nodes head_ max_height_]; try apply Hs.
    + intros i Hi. apply (links_ext (nodes s)); [|apply (ok_chain s L Hs), Hi]. intros z Hz. apply Hother.
      destruct (decide (i = level w)) as [->|]; [left|auto]. intros ->. apply elem_of_cons in Hz as [Hz|Hz].
      * exact (lk_head _ _ _ _ Hw Hz).
      * apply (lk_fresh _ _ _ _ Hw (level w)); [lia|exact Hz].
    + intros i. apply (sorted_keys (nodes s)); [exact Hk'|apply Hs].
    + intros z Hz. destruct (ok_keys s L Hs z Hz) as (a & Ha & Va). eauto.
  - constructor; cbn [nodes head_ max_height_ new_node preds height level own_link]; try apply Hw.
    + apply Hk', Hw.
    + pose proof (lk_node _ _ _ _ Hw) as Hn. pose proof (Hlen (new_node w)) as Hl.
      assert (Hin : new_node w ∈ dom m') by (apply Hdom, elem_of_dom; destruct (nodes s !! new_node w); [eauto|contradiction]).
      apply elem_of_dom in Hin as [node E]. rewrite E in *. destruct (nodes s !! new_node w); [congruence|contradiction].
    + intros i Hi. destruct (lk_pred _ _ _ _ Hw i Hi) as (A' & B' & E' & Hp' & HA' & HB'). exists A', B'. split; [exact E'|]. split; [exact Hp'|].
      split; (eapply Forall_impl; [eassumption|]; intros y; apply node_lt_keys, Hk').
    + intros _. split; [exact Hlv|]. intros p' Hp'. rewrite Hp in Hp'. injection Hp' as <-. rewrite Hnx, Hother by auto. auto.
  - split; [reflexivity|]. split; [auto|exact Hk'].
  - reflexivity.
Qed.

Lemma subset_insert A B x : A ++ B ⊆ A ++ x :: B.
Proof. intros z. rewrite !elem_of_app, elem_of_cons. tauto. Qed.

Lemma elem_of_insert A B x z : z ∈ A ++ x :: B <-> z = x \/ z ∈ A ++ B.
Proof. rewrite !elem_of_app, elem_of_cons. tauto. Qed.

Lemma head_not_in s L i : skip_ok s L -> head_ s ∉ L i.
Proof. intros Hs Hin. apply (ok_head s L Hs), (level_0 s L i _ Hs Hin). Qed.

Lemma sorted_insert m x A B : StronglySorted (node_lt m) (A ++ B) -> Forall (fun y => node_lt m y x) A -> Forall (node_lt m x) B ->
  StronglySorted (node_lt m) (A ++ x :: B).
Proof.
  intros H HA HB. apply sorted_app_inv in H as (H1 & H2 & H3). apply sorted_app; [exact H1|constructor; assumption|].
  intros y z Hy Hz. apply elem_of_cons in Hz as [->|Hz]; [|auto]. rewrite Forall_forall in HA. auto.
Qed.

(** A level with one node more, and the others as they were. *)
Lemma publish_ok s L m' x k i A B :
  skip_ok s L -> (i < max_height_ s)%nat -> L i = A ++ B -> key_valid k -> node_key (nodes s) x = Some k -> x <> head_ s ->
  (forall j, (j < i)%nat -> x ∈ L j) -> x ∉ L i ->
  Forall (fun y => node_lt (nodes s) y x) A -> Forall (node_lt (nodes s) x) B ->
  Next (nodes s) x i = Some (head B) -> Next m' (List.last A (head_ s)) i = Some (Some x) ->
  (forall z, node_key m' z = node_key (nodes s) z) ->
  (forall z j, z <> List.last A (head_ s) \/ j <> i -> Next m' z j = Next (nodes s) z j) ->
  skip_ok (mkSkipList m' (head_ s) (max_height_ s) (rnd_ s)) (publish L i (A ++ x :: B)).
Proof.
  intros Hs Hi EL Vk Hk Hxh Hin Hnin HA HB Hnx Hp Hkey Hother. pose proof (ok_height s L Hs) as Hmh.
  assert (Hk' : forall z a, node_key (nodes s) z = Some a -> node_key m' z = Some a) by (intros z a <-; apply Hkey).
  assert (Hsub : forall j, L j ⊆ publish L i (A ++ x :: B) j).
  { intros j. destruct (decide (j = i)) as [->|Hne]; [|rewrite publish_ne by exact Hne; reflexivity]. rewrite publish_eq, EL. apply subset_insert. }
  constructor; cbn [nodes head_ max_height_].
  - intros j Hj. destruct (decide (j = i)) as [->|Hne].
    + rewrite publish_eq. apply (chain_insert (nodes s)); [rewrite <- EL; apply Hs, Hj| | |exact Hnx|exact Hp|auto]; rewrite <- EL.
      * constructor; [apply head_not_in, Hs|]. apply (sorted_NoDup (nodes s)), Hs.
      * intros Hz. apply elem_of_cons in Hz as [?|?]; contradiction.
    + rewrite publish_ne by exact Hne. apply (links_ext (nodes s)); [auto|]. apply Hs, Hj.
  - intros j. destruct (decide (S j = i)) as [<-|Hne].
    + rewrite publish_eq, publish_ne by lia. intros z Hz. apply elem_of_insert in Hz as [->|Hz]; [apply Hin; lia|].
      apply (ok_sub s L Hs). rewrite EL. exact Hz.
    + rewrite publish_ne by exact Hne. etransitivity; [apply Hs|apply Hsub].
  - intros j. apply (sorted_keys (nodes s)); [exact Hk'|]. destruct (decide (j = i)) as [->|Hne].
    + rewrite publish_eq. apply sorted_insert; [rewrite <- EL; apply Hs|exact HA|exact HB].
    + rewrite publish_ne by exact Hne. apply Hs.
  - intros z Hz. assert (Hz' : z = x \/ z ∈ L 0%nat).
    { destruct (decide (0%nat = i)) as [<-|Hne]; [rewrite publish_eq in Hz; rewrite EL; apply elem_of_insert, Hz|].
      rewrite publish_ne in Hz by exact Hne. auto. }
    destruct Hz' as [->|Hz']; [eauto|]. destruct (ok_keys s L Hs z Hz') as (a & Ha & Va). eauto.
  - intros Hz. assert (Hz' : head_ s = x \/ head_ s ∈ L 0%nat).
    { destruct (decide (0%nat = i)) as [<-|Hne]; [rewrite publish_eq in Hz; rewrite EL; apply elem_of_insert, Hz|].
      rewrite publish_ne in Hz by exact Hne. auto. }
    destruct Hz' as [Hz'|Hz']; [congruence|]. exact (ok_head s L Hs Hz').
  - exact Hmh.
  - intros j Hj. rewrite publish_ne by lia. apply Hs, Hj.
Qed.

Lemma Insert_step_publish s L k w : skip_ok s L -> linking s L k w -> own_link w = true ->
  exists s' w' A B, Insert_step s w = Some (s', w') /\ L (level w) = A ++ B /\
    let L' := publish L (level w) (A ++ new_node w :: B) in
    skip_ok s' L' /\ linking s' L' k w' /\ grows s L s' L' /\
    Forall (fun y => node_lt (nodes s) y (new_node w)) A /\ Forall (node_lt (nodes s) (new_node w)) B /\
    height w' = height w /\ level w' = S (level w) /\ own_link w' = false /\ new_node w' = new_node w.
Proof.
  intros Hs Hw Hown. destruct (lk_own _ _ _ _ Hw Hown) as [Hlv Hnx]. pose proof (ok_height s L Hs) as Hmh.
  pose proof (lk_height _ _ _ _ Hw) as Hh. destruct (lk_pred _ _ _ _ Hw (level w) ltac:(lia)) as (A & B & EL & Hp & HA & HB).
  pose proof (pred_has_link s L (level w) A B Hs ltac:(lia) EL) as Hpn.
  specialize (Hnx _ Hp). rewrite Hpn in Hnx. pose proof (Next_height _ _ _ _ Hpn) as Hph.
  destruct (nodes s !! List.last A (head_ s)) as [pn|] eqn:Epn; [|contradiction].
  destruct (SetNext_ok (nodes s) (List.last A (head_ s)) (level w) (Some (new_node w)) (length (next_ pn)) ltac:(rewrite Epn; reflexivity) Hph)
    as (m' & Em & Hkey & Hpx & Hother & Hdom & Hlen).
  assert (Hk' : forall z a, node_key (nodes s) z = Some a -> node_key m' z = Some a) by (intros z a <-; apply Hkey).
  unfold Insert_step. rewrite Hp. cbn [mjoin option_join mbind option_bind]. rewrite Hown, Em. cbn [mbind option_bind].
  eexists _, _, A, B. split; [reflexivity|]. split; [exact EL|]. cbn zeta. split; [|split; [|split; [|split; [exact HA|split; [exact HB|auto]]]]].
  - apply (publish_ok s L m' (new_node w) k); auto; try apply Hw; lia.
  - constructor; cbn [nodes head_ max_height_ new_node preds height level own_link]; try lia; try apply Hw.
    + apply Hk', Hw.
    + pose proof (lk_node _ _ _ _ Hw) as Hn. pose proof (Hlen (new_node w)) as Hl.
      assert (Hin : new_node w ∈ dom m') by (apply Hdom, elem_of_dom; destruct (nodes s !! new_node w); [eauto|contradiction]).
      apply elem_of_dom in Hin as [node E]. rewrite E in *. destruct (nodes s !! new_node w); [congruence|contradiction].
    + intros i Hi. rewrite publish_ne by lia. apply Hw. lia.
    + intros i Hi. destruct (decide (i = level w)) as [->|Hne]; [rewrite publish_eq; apply elem_of_insert; auto|].
      rewrite publish_ne by exact Hne. apply Hw. lia.
    + intros i Hi. destruct (lk_pred _ _ _ _ Hw i ltac:(lia)) as (A' & B' & E' & Hp' & HA' & HB'). exists A', B'. rewrite publish_ne by lia.
      split; [exact E'|]. split; [exact Hp'|]. split; (eapply Forall_impl; [eassumption|]; intros y; apply node_lt_keys, Hk').
  - split; [reflexivity|]. split; [|exact Hk']. intros i. destruct (decide (i = level w)) as [->|Hne].
    + rewrite publish_eq, EL. apply subset_insert.
    + rewrite publish_ne by exact Hne. reflexivity.
Qed.

(** ** The beginning of an insertion *)

Lemma RandomHeight_loop_range fuel h rnd : (h <= kMaxHeight)%nat -> (h <= fst (RandomHeight_loop fuel h rnd) <= kMaxHeight)%nat.
Proof.
  revert h rnd. induction fuel as [|fuel IH]; intros h rnd Hh; cbn [RandomHeight_loop]; [cbn; lia|].
  destruct (Nat.ltb_spec h kMaxHeight) as [Hlt|]; [|cbn; lia]. destruct (Random_Next rnd mod 4 =? 0); [|cbn; lia].
  specialize (IH (S h) (Random_Next rnd) Hlt). lia.
Qed.

Lemma RandomHeight_range rnd : (1 <= fst (RandomHeight rnd) <= kMaxHeight)%nat.
Proof. apply RandomHeight_loop_range. unfold kMaxHeight. lia. Qed.

Lemma lookup_foldl_insert {T} (h : T) n : forall (l : list T) (i j : nat), (i + n <= length l)%nat ->
  foldl (fun r i => <[i := h]> r) l (seq i n) !! j = if decide (i <= j < i + n)%nat then Some h else l !! j.
Proof.
  induction n as [|n IH]; intros l i j Hl; cbn [seq foldl]; [rewrite decide_False by lia; reflexivity|].
  rewrite IH by (rewrite length_insert; lia). destruct (decide (i = j)) as [->|Hne].
  - rewrite decide_False, list_lookup_insert_eq, decide_True by lia. reflexivity.
  - rewrite list_lookup_insert_ne by exact Hne. destruct (decide (S i <= j < S i + n)%nat), (decide (i <= j < i + S n)%nat); auto; lia.
Qed.

(** No node of the list has an equal key. *)
Definition absent s (L : nat -> list Z) k : Prop := forall z a, z ∈ L 0%nat -> node_key (nodes s) z = Some a -> compare_ a k <> 0.

Lemma cut_around s L k x m A B i : skip_ok s L -> key_valid k -> absent s L k -> cut (nodes s) k (L i) A B ->
  (forall z a, node_key (nodes s) z = Some a -> node_key m z = Some a) -> node_key m x = Some k ->
  Forall (fun y => node_lt m y x) A /\ Forall (node_lt m x) B.
Proof.
  intros Hs Vk Habs (EL & HA & HB) Hkeys Hx. split.
  - eapply Forall_impl; [exact HA|]. intros y (a & Ha & Va & Hlt). exists a, k. split_and!; auto.
  - apply Forall_forall. intros y Hy. rewrite Forall_forall in HB. destruct (HB y Hy) as (b & Hb & Vb & Hge).
    assert (Hy0 : y ∈ L 0%nat) by (apply (level_0 s L i y Hs); rewrite EL; apply elem_of_app; auto).
    pose proof (Habs y b Hy0 Hb). exists k, b. split_and!; auto. apply compare_sym; auto. lia.
Qed.

Lemma NewNode_ok k h m : let '(x, m') := NewNode (Some k) h m in
  m !! x = None /\ m' !! x = Some (mkNode (Some k) (replicate h None)) /\ forall z, z <> x -> m' !! z = m !! z.
Proof.
  cbn. split; [apply node_at_fresh|]. split; [apply lookup_insert_eq|]. intros z Hz. apply lookup_insert_ne. congruence.
Qed.

Lemma skip_ok_new_node s L k x m h rnd : skip_ok s L -> (nodes s) !! x = None ->
  m !! x = Some (mkNode (Some k) (replicate h None)) -> (forall z, z <> x -> m !! z = nodes s !! z) ->
  forall mh, (max_height_ s <= mh <= kMaxHeight)%nat ->
  skip_ok (mkSkipList m (head_ s) mh rnd) L /\ grows s L (mkSkipList m (head_ s) mh rnd) L /\ x <> head_ s /\
  (forall i, x ∉ L i) /\ (forall z i n, Next (nodes s) z i = Some n -> Next m z i = Some n).
Proof.
  intros Hs Hx Hm Hz mh Hmh. pose proof (ok_height s L Hs).
  assert (Hnx : forall z i n, Next (nodes s) z i = Some n -> Next m z i = Some n).
  { intros z i n E. unfold Next in *. rewrite Hz; [exact E|]. intros ->. rewrite Hx in E. discriminate. }
  assert (Hk : forall z a, node_key (nodes s) z = Some a -> node_key m z = Some a).
  { intros z a E. unfold node_key in *. rewrite Hz; [exact E|]. intros ->. rewrite Hx in E. discriminate. }
  assert (Hc : forall i l h0, chain (nodes s) i h0 l -> chain m i h0 l).
  { intros i l. induction l as [|y l IH]; intros h0; cbn [chain]; [apply Hnx|]. intros [E Hc]. split; [apply Hnx, E|apply IH, Hc]. }
  assert (Hhead : x <> head_ s).
  { intros ->. destruct (node_exists_next _ _ _ _ (chain_Next _ _ _ _ (ok_chain s L Hs 0%nat ltac:(lia)))) as [n E]. congruence. }
  assert (Hin : forall i, x ∉ L i).
  { intros i Hi. destruct (level_keys s L i x Hs Hi) as (a & Ha & _). destruct (node_exists_key _ _ _ Ha). congruence. }
  split; [|split; [|auto]].
  - constructor; cbn [nodes head_ max_height_]; try apply Hs.
    + intros i Hi. apply Hc, Hs, Hi.
    + intros i. apply (sorted_keys (nodes s)); [exact Hk|apply Hs].
    + intros z Hzl. destruct (ok_keys s L Hs z Hzl) as (a & Ha & Va). eauto.
    + lia.
    + intros i Hi. apply Hs. lia.
  - split; [reflexivity|]. split; [auto|exact Hk].
Qed.

Lemma Insert_begin_ok s L k : skip_ok s L -> key_valid k -> absent s L k ->
  exists s' w, Insert_begin k s = Some (s', w) /\ skip_ok s' L /\ linking s' L k w /\ grows s L s' L /\
    level w = 0%nat /\ own_link w = false /\ (height w <= kMaxHeight)%nat.
Proof.
  intros Hs Vk Habs. pose proof (ok_height s L Hs) as Hmh. pose proof (RandomHeight_range (rnd_ s)) as Hh.
  destruct (FindGreaterOrEqual_ok s L k (replicate kMaxHeight None) Hs Vk) as (A0 & B0 & prev & Hcut & E & Hlen & _ & Hlo).
  unfold Insert_begin. rewrite E. cbn [mbind option_bind].
  assert (Hdup : (match head B0 with None => Some false | Some x => nk ← node_key (nodes s) x; Some (Equal k nk) end) = Some false).
  { destruct B0 as [|z B0]; [reflexivity|]. cbn [head]. destruct Hcut as (El & _ & _). assert (Hz : z ∈ L 0%nat) by (rewrite El; apply elem_of_app; right; apply elem_of_cons; auto).
    destruct (ok_keys s L Hs z Hz) as (a & Ha & Va). rewrite Ha. cbn [mbind option_bind]. f_equal. unfold Equal. apply Z.eqb_neq. intros E0. apply (Habs z a Hz Ha).
    pose proof (compare_sym a k Va Vk). pose proof (compare_sym k a Vk Va). lia. }
  rewrite Hdup. cbn [mbind option_bind]. destruct (RandomHeight (rnd_ s)) as [h rnd]. cbn [fst] in Hh.
  pose proof (NewNode_ok k h (nodes s)) as Hn. destruct (NewNode (Some k) h (nodes s)) as [x m]. destruct Hn as (Hx & Hm & Hz).
  rewrite length_replicate in Hlen, Hlo.
  set (mh := if (max_height_ s <? h)%nat then h else max_height_ s).
  assert (Hmh' : (max_height_ s <= mh <= kMaxHeight)%nat /\ (h <= mh)%nat) by (subst mh; destruct (Nat.ltb_spec (max_height_ s) h); lia).
  destruct (skip_ok_new_node s L k x m h rnd Hs Hx Hm Hz mh (proj1 Hmh')) as (Hs' & Hg & Hhead & Hin & Hnx).
  assert (Hxk : node_key m x = Some k) by (unfold node_key; rewrite Hm; reflexivity).
  eexists _, _. split; [reflexivity|]. split; [exact Hs'|]. split; [|split; [exact Hg|cbn; split; [auto|split; [auto|lia]]]].
  constructor; cbn [nodes head_ max_height_ new_node preds height level own_link]; try lia; auto; try discriminate.
  - rewrite Hm. cbn. apply length_replicate.
  - intros i Hi.
    assert (Hp : exists A B, cut (nodes s) k (L i) A B /\
      (if (max_height_ s <? h)%nat then foldl (fun prev i => <[i := Some (head_ s)]> prev) prev (seq (max_height_ s) (h - max_height_ s)) else prev) !! i =
      Some (Some (List.last A (head_ s)))).
    { destruct (Nat.ltb_spec i (max_height_ s)) as [Hlt|Hge].
      - destruct (Hlo i ltac:(lia) ltac:(lia)) as (p & Hp & A & B & Hc & <-). exists A, B. split; [exact Hc|].
        destruct (Nat.ltb_spec (max_height_ s) h); [|exact Hp]. rewrite lookup_foldl_insert, decide_False by lia. exact Hp.
      - exists [], []. rewrite (ok_empty s L Hs i Hge). split; [split_and!; auto|].
        destruct (Nat.ltb_spec (max_height_ s) h); [|lia]. rewrite lookup_foldl_insert, decide_True by lia. reflexivity. }
    destruct Hp as (A & B & Hc & Hp). exists A, B. split; [apply Hc|]. split; [exact Hp|].
    apply (cut_around s L k x m A B i Hs Vk Habs Hc); [apply Hg|exact Hxk].
Qed.

(** ** All of it *)

(** The stores that are left. *)
Definition stores_left (w : insertion) : nat := 2 * (height w - level w) - (if own_link w then 1 else 0).

Lemma Insert_step_ok s L k w : skip_ok s L -> linking s L k w -> (level w < height w)%nat ->
  exists s' w' L', Insert_step s w = Some (s', w') /\ skip_ok s' L' /\ linking s' L' k w' /\ grows s L s' L' /\
    height w' = height w /\ new_node w' = new_node w /\ S (stores_left w') = stores_left w /\
    (L' 0%nat = L 0%nat /\ (level w' = 0%nat <-> level w = 0%nat) \/
     level w = 0%nat /\ level w' <> 0%nat /\ exists A B, L 0%nat = A ++ B /\ L' 0%nat = A ++ new_node w :: B /\
       Forall (fun y => node_lt (nodes s) y (new_node w)) A /\ Forall (node_lt (nodes s) (new_node w)) B).
Proof.
  intros Hs Hw Hlv. unfold stores_left. destruct (own_link w) eqn:Hown.
  - destruct (Insert_step_publish s L k w Hs Hw Hown) as (s' & w' & A & B & E & EL & Hs' & Hw' & Hg & HA & HB & Eh & El & Eo & En).
    exists s', w', (publish L (level w) (A ++ new_node w :: B)). rewrite Eh, El, Eo. split_and!; auto; [lia|].
    destruct (decide (level w = 0%nat)) as [E0|Hne].
    + right. split; [exact E0|]. split; [lia|]. exists A, B. rewrite E0 in *. rewrite publish_eq. auto.
    + left. rewrite publish_ne by congruence. split; [reflexivity|lia].
  - destruct (Insert_step_own s L k w Hs Hw Hlv Hown) as (s' & w' & E & Hs' & Hw' & Hg & Eh & El & Eo & En).
    exists s', w', L. rewrite Eh, El, Eo. split_and!; auto; lia.
Qed.

(** The keys of a list of nodes. *)
Definition keys_are m (l : list Z) (ks : list K) : Prop := Forall2 (fun x a => node_key m x = Some a) l ks.

(** The list holds these keys, in this order. *)
Definition represents s (ks : list K) : Prop := exists L, skip_ok s L /\ keys_are (nodes s) (L 0%nat) ks.

Fixpoint insert_sorted k (ks : list K) : list K :=
  match ks with [] => [k] | a :: r => if compare_ a k <? 0 then a :: insert_sorted k r else k :: ks end.

Lemma keys_are_grows m m' l ks : (forall z a, node_key m z = Some a -> node_key m' z = Some a) -> keys_are m l ks -> keys_are m' l ks.
Proof. intros Hk H. eapply Forall2_impl; [exact H|]. intros x a. apply Hk. Qed.

Lemma insert_sorted_at k (KA KB : list K) : Forall (fun a => compare_ a k < 0) KA -> Forall (fun b => 0 <= compare_ b k) KB ->
  insert_sorted k (KA ++ KB) = KA ++ k :: KB.
Proof.
  intros HA HB. induction HA as [|a KA Ha HA IH]; cbn [app insert_sorted].
  - destruct HB as [|b KB Hb HB]; [reflexivity|]. cbn [insert_sorted]. destruct (Z.ltb_spec (compare_ b k) 0); [lia|reflexivity].
  - destruct (Z.ltb_spec (compare_ a k) 0); [|lia]. rewrite IH. reflexivity.
Qed.

Lemma keys_are_insert m A B x k ks : keys_are m (A ++ B) ks -> node_key m x = Some k ->
  Forall (fun y => node_lt m y x) A -> Forall (node_lt m x) B -> keys_are m (A ++ x :: B) (insert_sorted k ks).
Proof.
  intros H Hx HA HB. apply Forall2_app_inv_l in H as (KA & KB & H1 & H2 & ->). rewrite insert_sorted_at.
  - apply Forall2_app; [exact H1|]. constructor; [exact Hx|exact H2].
  - clear -H1 HA Hx. induction H1 as [|y a A KA Hy H1 IH]; constructor.
    + apply Forall_inv in HA as (a' & k' & Ha & Hk & _ & _ & Hlt). congruence.
    + apply Forall_inv_tail in HA. auto.
  - clear -H2 HB Hx. induction H2 as [|y b B KB Hy H2 IH]; constructor.
    + apply Forall_inv in HB as (k' & b' & Hk & Hb & Vk & Vb & Hlt). assert (b' = b) as -> by congruence. assert (k' = k) as -> by congruence.
      apply compare_sym in Hlt; auto. lia.
    + apply Forall_inv_tail in HB. auto.
Qed.

Lemma Insert_loop_ok k : forall fuel s L w ks, skip_ok s L -> linking s L k w -> (stores_left w < fuel)%nat ->
  keys_are (nodes s) (L 0%nat) ks ->
  exists s' L', Insert_loop fuel s w = Some s' /\ skip_ok s' L' /\
    keys_are (nodes s') (L' 0%nat) (if decide (level w = 0%nat) then insert_sorted k ks else ks).
Proof.
  induction fuel as [|fuel IH]; intros s L w ks Hs Hw Hf Hks; [lia|]. cbn [Insert_loop].
  pose proof (lk_height _ _ _ _ Hw). destruct (Nat.ltb_spec (level w) (height w)) as [Hlv|Hlv].
  - destruct (Insert_step_ok s L k w Hs Hw Hlv) as (s' & w' & L' & E & Hs' & Hw' & Hg & Eh & En & Hm & Hcase).
    rewrite E. cbn [mbind option_bind]. destruct Hg as (_ & _ & Hkeys).
    pose proof (keys_are_grows _ _ _ _ Hkeys Hks) as Hks'. destruct Hcase as [[E0 Hl]|(Hl & Hl' & A & B & EL & EL' & HA & HB)].
    + rewrite <- E0 in Hks'. destruct (IH s' L' w' ks Hs' Hw' ltac:(lia) Hks') as (s2 & L2 & E2 & Hs2 & Hk2).
      exists s2, L2. split; [exact E2|]. split; [exact Hs2|].
      destruct (decide (level w = 0%nat)), (decide (level w' = 0%nat)); auto; tauto.
    + destruct (IH s' L' w' (insert_sorted k ks) Hs' Hw' ltac:(lia)) as (s2 & L2 & E2 & Hs2 & Hk2).
      { rewrite EL'. rewrite EL in Hks'. rewrite <- En. apply keys_are_insert; [exact Hks'|apply Hw'| |];
        (eapply Forall_impl; [eassumption|]; intros y; rewrite En; apply node_lt_keys, Hkeys). }
      exists s2, L2. split; [exact E2|]. split; [exact Hs2|]. rewrite decide_True by exact Hl. rewrite decide_False in Hk2 by exact Hl'. exact Hk2.
  - exists s, L. rewrite decide_False by lia. auto.
Qed.

Lemma absent_keys s L k ks : keys_are (nodes s) (L 0%nat) ks -> Forall (fun a => compare_ a k <> 0) ks -> absent s L k.
Proof.
  intros Hks Hk z a Hz Ha. apply list_elem_of_lookup in Hz as [i Hi]. destruct (Forall2_lookup_l _ _ _ _ _ Hks Hi) as (b & Hb & Eb).
  rewrite Forall_forall in Hk. assert (a = b) as -> by congruence. apply Hk, (list_elem_of_lookup_2 _ i), Hb.
Qed.

(** An insertion ends, and adds the key. *)
Lemma Insert_represents s ks k : represents s ks -> key_valid k -> Forall (fun a => compare_ a k <> 0) ks ->
  exists s', Insert k s = Some s' /\ represents s' (insert_sorted k ks).
Proof.
  intros (L & Hs & Hks) Vk Hk. destruct (Insert_begin_ok s L k Hs Vk (absent_keys s L k ks Hks Hk)) as (s1 & w & E & Hs1 & Hw & Hg & El & Eo & Hh).
  unfold Insert. rewrite E. cbn [mbind option_bind].
  destruct (Insert_loop_ok k (S (2 * kMaxHeight)) s1 L w ks Hs1 Hw) as (s2 & L2 & E2 & Hs2 & Hk2).
  - unfold stores_left. lia.
  - eapply keys_are_grows; [apply Hg|exact Hks].
  - rewrite E2, decide_True in * by exact El. exists s2. split; [reflexivity|]. exists L2. auto.
Qed.

Lemma new_SkipList_represents : represents new_SkipList [].
Proof.
  exists (fun _ => []). split; [|constructor].
  assert (Hn : forall i, (i < kMaxHeight)%nat -> Next (nodes new_SkipList) (head_ new_SkipList) i = Some None).
  { intros i Hi. unfold new_SkipList, NewNode, Next. cbn [nodes head_]. rewrite lookup_insert_eq. cbn [mbind option_bind next_].
    apply lookup_replicate. auto. }
  constructor; auto; try (intros; reflexivity).
  - intros i. constructor.
  - intros x Hx. inversion Hx.
  - intros Hx. inversion Hx.
  - cbn. unfold kMaxHeight. lia.
Qed.
End Insertion.

(** * Reading, in terms of the keys *)

Section Reading.
Context {K : Type} {KO : KeyOrder K} {AR : Arena K}.
Implicit Types (m : gmap Z (Node K)) (s : SkipList K) (k a b t : K) (ks KA KB : list K) (x y z : Z) (l A B : list Z).

(** The keys an iterator that stands at a node passes until its end. *)
Fixpoint walk (fuel : nat) m (node : option Z) : option (list K) :=
  match fuel, node with
  | _, None => Some []
  | O, _ => None
  | S fuel, Some x => a ← node_key m x; next ← Next m x 0; r ← walk fuel m next; Some (a :: r)
  end.

Definition keys_from s (node : option Z) : option (list K) := walk (size (nodes s)) (nodes s) node.

Lemma walk_ok m fuel : forall B KB x, chain m 0 x B -> keys_are m B KB -> (length B <= fuel)%nat -> walk fuel m (head B) = Some KB.
Proof.
  induction fuel as [|fuel IH]; intros B KB x Hc Hk Hf.
  - destruct B; [|cbn in Hf; lia]. inversion Hk. reflexivity.
  - destruct Hk as [|y a B KB Hy Hk]; [reflexivity|]. destruct Hc as [_ Hc]. cbn [head walk length] in *. rewrite Hy. cbn [mbind option_bind].
    rewrite (chain_Next _ _ _ _ Hc). cbn [mbind option_bind]. rewrite (IH B KB y Hc Hk) by lia. reflexivity.
Qed.

Lemma keys_from_ok s L A B KB : skip_ok s L -> L 0%nat = A ++ B -> keys_are (nodes s) B KB -> keys_from s (head B) = Some KB.
Proof.
  intros Hs E Hk. pose proof (length_level_0 s L Hs) as Hl. rewrite E, length_app in Hl.
  apply (walk_ok _ _ _ _ (List.last A (head_ s))); [|exact Hk|lia]. apply chain_split. rewrite <- E. apply Hs. unfold kMaxHeight. lia.
Qed.

(** The keys from the first that is not before [t]. *)
Definition keys_at t ks : list K := List.filter (fun a => 0 <=? compare_ a t) ks.

Lemma keys_at_cut t KA KB : Forall (fun a => compare_ a t < 0) KA -> Forall (fun b => 0 <= compare_ b t) KB -> keys_at t (KA ++ KB) = KB.
Proof.
  intros HA HB. unfold keys_at. induction HA as [|a KA Ha HA IH]; cbn [app List.filter].
  - induction HB as [|b KB Hb HB IH]; [reflexivity|]. cbn [List.filter]. rewrite IH. destruct (Z.leb_spec 0 (compare_ b t)); [reflexivity|lia].
  - rewrite IH. destruct (Z.leb_spec 0 (compare_ a t)); [lia|reflexivity].
Qed.

Lemma cut_keys m t l A B ks : cut m t l A B -> keys_are m l ks ->
  exists KA KB, ks = KA ++ KB /\ keys_are m A KA /\ keys_are m B KB /\
    Forall (fun a => key_valid a /\ compare_ a t < 0) KA /\ Forall (fun b => key_valid b /\ 0 <= compare_ b t) KB.
Proof.
  intros (-> & HA & HB) Hk. apply Forall2_app_inv_l in Hk as (KA & KB & H1 & H2 & ->). exists KA, KB. split_and!; auto.
  - clear -H1 HA. induction H1 as [|x a A KA Hx H1 IH]; constructor; [|apply IH, (Forall_inv_tail HA)].
    apply Forall_inv in HA as (a' & Ha & Va & Hlt). assert (a = a') as -> by congruence. auto.
  - clear -H2 HB. induction H2 as [|x b B KB Hx H2 IH]; constructor; [|apply IH, (Forall_inv_tail HB)].
    apply Forall_inv in HB as (b' & Hb & Vb & Hle). assert (b = b') as -> by congruence. auto.
Qed.

Lemma Seek_ok s L ks t prev : skip_ok s L -> keys_are (nodes s) (L 0%nat) ks -> key_valid t ->
  exists A B KB prev', cut (nodes s) t (L 0%nat) A B /\ FindGreaterOrEqual t prev s = Some (head B, prev') /\
    keys_are (nodes s) B KB /\ keys_at t ks = KB /\ keys_from s (head B) = Some KB.
Proof.
  intros Hs Hk Vt. destruct (FindGreaterOrEqual_ok s L t prev Hs Vt) as (A & B & prev' & Hc & E & _).
  destruct (cut_keys _ _ _ _ _ _ Hc Hk) as (KA & KB & -> & HKA & HKB & HA & HB).
  exists A, B, KB, prev'. split; [exact Hc|]. split; [exact E|]. split; [exact HKB|].
  split; [apply keys_at_cut; (eapply Forall_impl; [eassumption|]; cbn; tauto)|].
  exact (keys_from_ok s L A B KB Hs (proj1 Hc) HKB).
Qed.

(** Strictly sorted. *)
Definition keys_sorted ks : Prop := StronglySorted (fun a b => compare_ a b < 0) ks.

Lemma represents_sorted s ks : represents s ks -> keys_sorted ks /\ Forall key_valid ks.
Proof.
  intros (L & Hs & Hk). pose proof (ok_sorted s L Hs 0%nat) as Hsort. pose proof (ok_keys s L Hs) as Hv. split.
  - clear Hv. unfold keys_sorted. induction Hk as [|x a l ks Hx Hk IH]; constructor.
    + apply IH. apply StronglySorted_inv in Hsort. tauto.
    + apply StronglySorted_inv in Hsort as [_ Hsort]. clear IH. induction Hk as [|y b l ks Hy Hk IH]; constructor; [|apply IH, (Forall_inv_tail Hsort)].
      apply Forall_inv in Hsort as (a' & b' & Ha & Hb & _ & _ & Hlt). congruence.
  - apply Forall_forall. intros a Ha. apply list_elem_of_lookup in Ha as [i Hi]. destruct (Forall2_lookup_r _ _ _ _ _ Hk Hi) as (x & Hx & Ex).
    destruct (Hv x (list_elem_of_lookup_2 _ _ _ Hx)) as (b & Hb & Vb). congruence.
Qed.

Lemma Iterator_Seek_ok s ks t : represents s ks -> key_valid t ->
  exists n, Iterator_Seek s t = Some n /\ keys_from s n = Some (keys_at t ks).
Proof.
  intros (L & Hs & Hk) Vt. destruct (Seek_ok s L ks t [] Hs Hk Vt) as (A & B & KB & prev' & _ & E & _ & EK & Hf).
  exists (head B). unfold Iterator_Seek. rewrite E, EK. auto.
Qed.

(** An iterator that has keys to pass stands at a node with the first of them. *)
Lemma keys_from_node s node a r : keys_from s node = Some (a :: r) -> exists x, node = Some x /\ node_key (nodes s) x = Some a.
Proof.
  unfold keys_from. destruct (size (nodes s)); cbn [walk]; (destruct node as [x|]; [|discriminate]); [discriminate|]. intros E.
  exists x. split; [reflexivity|]. destruct (node_key (nodes s) x); [|discriminate]. cbn [mbind option_bind] in E.
  destruct (Next (nodes s) x 0); [|discriminate]. cbn [mbind option_bind] in E. destruct (walk _ _ _); [|discriminate]. cbn in E. congruence.
Qed.

Lemma keys_from_end s node : keys_from s node = Some [] -> node = None.
Proof.
  unfold keys_from. destruct (size (nodes s)); cbn [walk]; (destruct node as [x|]; [|reflexivity]); [discriminate|].
  destruct (node_key (nodes s) x); [|discriminate]. cbn [mbind option_bind]. destruct (Next (nodes s) x 0); [|discriminate]. cbn [mbind option_bind].
  destruct (walk _ _ _); discriminate.
Qed.

Lemma walk_S fuel m x : walk (S fuel) m (Some x) = a ← node_key m x; next ← Next m x 0; r ← walk fuel m next; Some (a :: r).
Proof. reflexivity. Qed.

Lemma walk_more fuel m : forall node r, walk fuel m node = Some r -> walk (S fuel) m node = Some r.
Proof.
  induction fuel as [|fuel IH]; intros node r; [destruct node; [discriminate|auto]|].
  destruct node as [x|]; [|auto]. rewrite !walk_S.
  destruct (node_key m x); [|auto]. cbn [mbind option_bind]. destruct (Next m x 0) as [n|]; [|auto]. cbn [mbind option_bind].
  destruct (walk fuel m n) as [q|] eqn:E; [|discriminate]. rewrite (IH n q E). auto.
Qed.

Lemma Next_keys_from s x a r : keys_from s (Some x) = Some (a :: r) -> exists n, Iterator_Next s (Some x) = Some n /\ keys_from s n = Some r.
Proof.
  unfold keys_from, Iterator_Next. cbn [mbind option_bind]. destruct (size (nodes s)) as [|f]; [discriminate|]. rewrite walk_S.
  destruct (node_key (nodes s) x); [|discriminate]. cbn [mbind option_bind]. destruct (Next (nodes s) x 0) as [n|]; [|discriminate].
  cbn [mbind option_bind]. destruct (walk f (nodes s) n) as [q|] eqn:E; [|discriminate]. intros Eq. exists n. split; [reflexivity|].
  injection Eq as _ <-. apply walk_more, E.
Qed.

Lemma keys_at_head t ks : keys_sorted ks -> Forall key_valid ks -> key_valid t ->
  existsb (Equal t) ks = match keys_at t ks with a :: _ => Equal t a | [] => false end.
Proof.
  intros Hs Hv Vt. induction Hs as [|a ks Hs IH Ha]; [reflexivity|]. apply List.Forall_cons_iff in Hv as [Va Hv].
  unfold keys_at. cbn [existsb List.filter]. unfold Equal at 1. pose proof (compare_sym a t Va Vt). pose proof (compare_sym t a Vt Va).
  destruct (Z.leb_spec 0 (compare_ a t)).
  - unfold Equal at 2. destruct (Z.eqb_spec (compare_ t a) 0) as [|Hne]; [reflexivity|]. cbn [orb].
    assert (Hlt : compare_ t a < 0) by lia. clear IH Hs.
    induction ks as [|b ks IH]; [reflexivity|]. apply List.Forall_cons_iff in Ha as [Hab Ha]. apply List.Forall_cons_iff in Hv as [Vb Hv].
    cbn [existsb]. rewrite (IH Ha Hv). unfold Equal. pose proof (compare_lt_le t a b Vt Va Vb Hlt ltac:(lia)).
    destruct (Z.eqb_spec (compare_ t b) 0); [lia|reflexivity].
  - destruct (Z.eqb_spec (compare_ t a) 0); [lia|]. apply (IH Hv).
Qed.

Lemma Contains_ok s ks t : represents s ks -> key_valid t -> Contains t s = Some (existsb (Equal t) ks).
Proof.
  intros Hr Vt. destruct (represents_sorted s ks Hr) as [Hsort Hv]. destruct Hr as (L & Hs & Hk).
  destruct (Seek_ok s L ks t [] Hs Hk Vt) as (A & B & KB & prev' & _ & E & HKB & EK & Hf).
  rewrite (keys_at_head t ks Hsort Hv Vt), EK. unfold Contains. rewrite E. cbn [mbind option_bind].
  destruct HKB as [|x a B KB Hx HKB]; [reflexivity|]. cbn [head]. rewrite Hx. reflexivity.
Qed.

Lemma SeekToFirst_ok s ks : represents s ks -> exists n, Iterator_SeekToFirst s = Some n /\ keys_from s n = Some ks.
Proof.
  intros (L & Hs & Hk). exists (head (L 0%nat)). split.
  - apply (chain_Next _ _ _ (L 0%nat)), Hs. unfold kMaxHeight. lia.
  - exact (keys_from_ok s L [] (L 0%nat) ks Hs eq_refl Hk).
Qed.

(** The node an iterator goes to when it goes back over a list of nodes. *)
Lemma back_ok s L A B KA KB : skip_ok s L -> L 0%nat = A ++ B -> keys_are (nodes s) A KA -> keys_are (nodes s) B KB ->
  keys_from s (if List.last A (head_ s) =? head_ s then None else Some (List.last A (head_ s))) =
  Some (match last KA with Some a => a :: KB | None => [] end).
Proof.
  intros Hs E HA HB. destruct A as [|x A _] using rev_ind.
  - inversion HA. subst KA. cbn [List.last last]. rewrite Z.eqb_refl. unfold keys_from. destruct (size _); reflexivity.
  - apply Forall2_app_inv_l in HA as (KA' & Ka & HA & Hx & ->). inversion Hx as [|? a ? ? Ha Hnil]. subst. inversion Hnil. subst.
    rewrite List.last_last, last_snoc. destruct (Z.eqb_spec x (head_ s)) as [->|Hne].
    + exfalso. apply (ok_head s L Hs). rewrite E. apply elem_of_app. left. apply elem_of_app. right. apply elem_of_cons. auto.
    + rewrite <- app_assoc in E. change (Some x) with (head ([x] ++ B)). apply (keys_from_ok s L A ([x] ++ B)); [exact Hs|exact E|].
      constructor; [exact Ha|exact HB].
Qed.

Lemma Prev_ok s KA b KB : represents s (KA ++ b :: KB) -> key_valid b ->
  exists n n', Iterator_Seek s b = Some n /\ keys_from s n = Some (b :: KB) /\ Iterator_Prev s n = Some n' /\
    keys_from s n' = Some (match last KA with Some a => a :: b :: KB | None => [] end).
Proof.
  intros Hr Vb. destruct (represents_sorted s _ Hr) as [Hsort Hv]. destruct (Iterator_Seek_ok s _ b Hr Vb) as (n & En & Hn).
  assert (EK : keys_at b (KA ++ b :: KB) = b :: KB).
  { apply keys_at_cut.
    - clear -Hsort. induction KA as [|a KA IH]; constructor; apply StronglySorted_inv in Hsort as [Hsort Ha]; [|apply IH, Hsort].
      apply Forall_app in Ha as [_ Ha]. exact (Forall_inv Ha).
    - apply Forall_app in Hv as [_ Hv]. apply List.Forall_cons_iff in Hv as [_ Hv].
      constructor; [rewrite compare_refl by exact Vb; lia|]. clear -Hsort Hv Vb. induction KA as [|a KA IH]; apply StronglySorted_inv in Hsort as [Hsort Ha].
      + rewrite Forall_forall in Ha, Hv. apply Forall_forall. intros c Hc. pose proof (compare_sym b c Vb (Hv c Hc)). pose proof (Ha c Hc). lia.
      + apply IH, Hsort. }
  rewrite EK in Hn. destruct (keys_from_node _ _ _ _ Hn) as (x & -> & Hx). destruct Hr as (L & Hs & Hk).
  destruct (FindLessThan_ok s L b Hs Vb) as (p & Ep & A & B & Hc & <-). destruct (cut_keys _ _ _ _ _ _ Hc Hk) as (KA' & KB' & E & HA & HB & HA' & HB').
  exists (Some x). unfold Iterator_Prev. cbn [mbind option_bind]. rewrite Hx. cbn [mbind option_bind]. rewrite Ep. cbn [mbind option_bind].
  eexists. split; [exact En|]. split; [exact Hn|]. split; [reflexivity|].
  assert (Hsame : KB' = b :: KB).
  { rewrite <- EK, E. symmetry. apply keys_at_cut; (eapply Forall_impl; [eassumption|]; cbn; tauto). }
  subst KB'. apply app_inv_tail in E as <-. exact (back_ok s L A B KA (b :: KB) Hs (proj1 Hc) HA HB).
Qed.

Lemma SeekToLast_ok s ks : represents s ks ->
  exists n, Iterator_SeekToLast s = Some n /\ keys_from s n = Some (match last ks with Some a => [a] | None => [] end).
Proof.
  intros (L & Hs & Hk). unfold Iterator_SeekToLast. rewrite (FindLast_ok s L Hs). cbn [mbind option_bind]. eexists. split; [reflexivity|].
  apply (back_ok s L (L 0%nat) [] ks []); [exact Hs|rewrite app_nil_r; reflexivity|exact Hk|constructor].
Qed.

Lemma existsb_perm {T} (f : T -> bool) (l1 l2 : list T) : l1 ≡ₚ l2 -> existsb f l1 = existsb f l2.
Proof.
  induction 1 as [|x l1 l2 _ IH|x y l|l1 l2 l3 _ IH1 _ IH2]; cbn [existsb]; [reflexivity|rewrite IH; reflexivity| |congruence].
  destruct (f x), (f y); reflexivity.
Qed.

Lemma insert_sorted_perm k ks : insert_sorted k ks ≡ₚ k :: ks.
Proof.
  induction ks as [|a ks IH]; cbn [insert_sorted]; [reflexivity|]. destruct (compare_ a k <? 0); [|reflexivity].
  rewrite IH. apply Permutation_swap.
Qed.
End Reading.

(** * A node stays where it is *)

Section Standing.
Context {K : Type} {KO : KeyOrder K} {AR : Arena K}.
Implicit Types (m : gmap Z (Node K)) (s : SkipList K) (k a b : K) (ks KA KB : list K) (x y z : Z) (l A B : list Z).

(** A node that a reader can be at: one of the bottom list. *)
Definition listed s (node : option Z) : Prop := match node with Some x => exists L, skip_ok s L /\ x ∈ L 0%nat | None => True end.

Lemma chain_unique m i l : forall l' x, chain m i x l -> chain m i x l' -> l = l'.
Proof.
  induction l as [|y l IH]; intros [|z l'] x; cbn [chain]; [reflexivity|intros E [E' _]; congruence|intros [E _] E'; congruence|].
  intros [E H] [E' H']. assert (z = y) as -> by congruence. f_equal. apply (IH _ y); assumption.
Qed.

Lemma level_0_unique s L L' : skip_ok s L -> skip_ok s L' -> L 0%nat = L' 0%nat.
Proof. intros H H'. apply (chain_unique (nodes s) 0 _ _ (head_ s)); [apply (ok_chain s L H)|apply (ok_chain s L' H')]; unfold kMaxHeight; lia. Qed.

Lemma listed_head s L A B : skip_ok s L -> L 0%nat = A ++ B -> listed s (head B).
Proof. intros Hs E. destruct B as [|x B]; [exact Logic.I|]. exists L. split; [exact Hs|]. rewrite E. apply elem_of_app. right. apply elem_of_cons. auto. Qed.

Lemma listed_back s L A B : skip_ok s L -> L 0%nat = A ++ B -> listed s (if List.last A (head_ s) =? head_ s then None else Some (List.last A (head_ s))).
Proof.
  intros Hs E. destruct (Z.eqb_spec (List.last A (head_ s)) (head_ s)) as [_|Hne]; [exact Logic.I|]. exists L. split; [exact Hs|].
  rewrite E. apply elem_of_app. left. pose proof (last_in A (head_ s)) as Hl. apply elem_of_cons in Hl as [Hl|Hl]; [contradiction|exact Hl].
Qed.

Lemma SeekToFirst_listed s ks n : represents s ks -> Iterator_SeekToFirst s = Some n -> listed s n.
Proof.
  intros (L & Hs & _) E. unfold Iterator_SeekToFirst in E. rewrite (chain_Next _ _ _ (L 0%nat)) in E by (apply Hs; unfold kMaxHeight; lia).
  injection E as <-. apply (listed_head s L [] (L 0%nat) Hs eq_refl).
Qed.

Lemma SeekToLast_listed s ks n : represents s ks -> Iterator_SeekToLast s = Some n -> listed s n.
Proof.
  intros (L & Hs & _) E. unfold Iterator_SeekToLast in E. rewrite (FindLast_ok s L Hs) in E. cbn [mbind option_bind] in E. injection E as <-.
  apply (listed_back s L (L 0%nat) [] Hs). rewrite app_nil_r. reflexivity.
Qed.

Lemma Seek_listed s ks t n : represents s ks -> key_valid t -> Iterator_Seek s t = Some n -> listed s n.
Proof.
  intros (L & Hs & Hk) Vt E. unfold Iterator_Seek in E. destruct (Seek_ok s L ks t [] Hs Hk Vt) as (A & B & _ & prev' & Hc & E' & _).
  rewrite E' in E. cbn [mbind option_bind] in E. injection E as <-. exact (listed_head s L A B Hs (proj1 Hc)).
Qed.

Lemma Next_listed s x n : listed s (Some x) -> Iterator_Next s (Some x) = Some n -> listed s n.
Proof.
  intros (L & Hs & Hx) E. cbn [Iterator_Next mbind option_bind] in E. destruct (chain_from (nodes s) 0 (head_ s) (L 0%nat) x) as (A & B & EL & Hc);
    [apply Hs; unfold kMaxHeight; lia|apply elem_of_cons; auto|]. rewrite (chain_Next _ _ _ B Hc) in E. injection E as <-.
  destruct A as [|h A]; injection EL as Eh EL.
  - exfalso. apply (ok_head s L Hs). rewrite Eh. exact Hx.
  - apply (listed_head s L (A ++ [x]) B Hs). rewrite EL, <- app_assoc. reflexivity.
Qed.

Lemma Prev_listed s ks x k n : represents s ks -> node_key (nodes s) x = Some k -> key_valid k -> Iterator_Prev s (Some x) = Some n -> listed s n.
Proof.
  intros (L & Hs & _) Hx Vk E. unfold Iterator_Prev in E. cbn [mbind option_bind] in E. rewrite Hx in E. cbn [mbind option_bind] in E.
  destruct (FindLessThan_ok s L k Hs Vk) as (p & Ep & A & B & Hc & <-). rewrite Ep in E. cbn [mbind option_bind] in E. injection E as <-.
  exact (listed_back s L A B Hs (proj1 Hc)).
Qed.

(** ** While keys are inserted *)

Lemma skip_grows_trans s1 L1 s2 L2 s3 L3 : grows s1 L1 s2 L2 -> grows s2 L2 s3 L3 -> grows s1 L1 s3 L3.
Proof. intros (H1 & I1 & K1) (H2 & I2 & K2). split; [congruence|]. split; [intros i; etransitivity; [apply I1|apply I2]|]. intros z a Ha. apply K2, K1, Ha. Qed.

Lemma Insert_loop_grows k : forall fuel s L w s', skip_ok s L -> linking s L k w -> Insert_loop fuel s w = Some s' -> exists L', skip_ok s' L' /\ grows s L s' L'.
Proof.
  induction fuel as [|fuel IH]; intros s L w s' Hs Hw; cbn [Insert_loop]; [discriminate|].
  destruct (Nat.ltb_spec (level w) (height w)) as [Hlv|Hlv].
  - destruct (Insert_step_ok s L k w Hs Hw Hlv) as (s1 & w1 & L1 & E & Hs1 & Hw1 & Hg & _). rewrite E. cbn [mbind option_bind]. intros E'.
    destruct (IH s1 L1 w1 s' Hs1 Hw1 E') as (L' & Hs' & Hg'). exists L'. split; [exact Hs'|]. eapply skip_grows_trans; eassumption.
  - intros [= <-]. exists L. split; [exact Hs|]. split; [reflexivity|]. split; [intros i; reflexivity|auto].
Qed.

(** What is said of a node holds of it from then on. *)
Definition later s s' : Prop :=
  (forall z a, node_key (nodes s) z = Some a -> node_key (nodes s') z = Some a) /\ forall node, listed s node -> listed s' node.

Lemma later_refl s : later s s.
Proof. split; auto. Qed.

Lemma later_trans s1 s2 s3 : later s1 s2 -> later s2 s3 -> later s1 s3.
Proof. intros [K1 N1] [K2 N2]. split; auto. Qed.

Lemma Insert_later s ks k s' : represents s ks -> key_valid k -> Forall (fun a => compare_ a k <> 0) ks -> Insert k s = Some s' -> later s s'.
Proof.
  intros (L & Hs & Hks) Vk Hk E. destruct (Insert_begin_ok s L k Hs Vk (absent_keys s L k ks Hks Hk)) as (s1 & w & E1 & Hs1 & Hw & Hg & _).
  unfold Insert in E. rewrite E1 in E. cbn [mbind option_bind] in E. destruct (Insert_loop_grows k _ s1 L w s' Hs1 Hw E) as (L' & Hs' & Hg').
  destruct (skip_grows_trans _ _ _ _ _ _ Hg Hg') as (_ & Hsub & Hkeys). split; [exact Hkeys|]. intros [x|]; [|auto].
  intros (L0 & Hs0 & Hx). exists L'. split; [exact Hs'|]. apply Hsub. rewrite (level_0_unique s L L0 Hs Hs0). exact Hx.
Qed.

(** From its node on, the keys that are not smaller. *)
Lemma listed_keys s KA a KB x : represents s (KA ++ a :: KB) -> listed s (Some x) -> node_key (nodes s) x = Some a -> keys_from s (Some x) = Some (a :: KB).
Proof.
  intros Hr (L' & Hs' & Hx) Ha. destruct (represents_sorted s _ Hr) as [Hsort Hv]. destruct Hr as (L & Hs & Hk).
  rewrite (level_0_unique s L' L Hs' Hs) in Hx. apply list_elem_of_split in Hx as (A & B & EL). rewrite EL in Hk.
  apply Forall2_app_inv_l in Hk as (KA' & KB' & _ & HB & E). inversion HB as [|? a' ? KB2 Ha' HB2]; subst. assert (a' = a) as -> by congruence.
  assert (Hsame : KB = KB2).
  { clear -E Hsort Hv. revert KA' E. induction KA as [|c KA IH]; intros [|c' KA'] E; cbn [app] in *; apply List.Forall_cons_iff in Hv as [Vc Hv]; apply StronglySorted_inv in Hsort as [Hsort Hc].
    - injection E as ->. reflexivity.
    - injection E as <- ->. exfalso. apply Forall_app in Hc as [_ Hc]. apply Forall_inv in Hc. rewrite compare_refl in Hc by exact Vc. lia.
    - injection E as -> <-. exfalso. apply Forall_app in Hc as [_ Hc]. apply Forall_inv in Hc. rewrite compare_refl in Hc by exact Vc. lia.
    - injection E as <- E. exact (IH Hsort Hv KA' E). }
  subst KB2. exact (keys_from_ok s L A (x :: B) (a :: KB) Hs EL HB).
Qed.
End Standing.

(** * Insertions one after the other *)

Section Sequential.
Context {K : Type} {KO : KeyOrder K} {AR : Arena K}.

(** Keys inserted into a new list, and the sorted list they make. *)
Definition inserts (ks : list K) : option (SkipList K) := foldl (fun s k => s ← s; Insert k s) (Some new_SkipList) ks.

Definition sort_keys (ks : list K) : list K := foldl (fun r k => insert_sorted k r) [] ks.

Lemma sort_keys_perm_from (ks r : list K) : foldl (fun r k => insert_sorted k r) r ks ≡ₚ r ++ ks.
Proof.
  revert r. induction ks as [|k ks IH]; intros r; cbn [foldl]; [rewrite app_nil_r; reflexivity|].
  rewrite IH, insert_sorted_perm. apply Permutation_middle.
Qed.

Lemma inserts_from (ks : list K) : forall s r, represents s r -> Forall key_valid ks ->
  ForallOrdPairs (fun a b => compare_ a b <> 0) ks -> Forall (fun a => Forall (fun b => compare_ a b <> 0) ks) r ->
  exists s', foldl (fun s k => s ← s; Insert k s) (Some s) ks = Some s' /\ represents s' (foldl (fun r k => insert_sorted k r) r ks).
Proof.
  induction ks as [|k ks IH]; intros s r Hr Hv Hd Hn; cbn [foldl mbind option_bind]; [eauto|].
  apply List.Forall_cons_iff in Hv as [Vk Hv]. inversion Hd as [|? ? Hk Hd']. subst.
  destruct (Insert_represents s r k Hr Vk) as (s' & E & Hr').
  { eapply Forall_impl; [exact Hn|]. intros a Ha. exact (Forall_inv Ha). }
  rewrite E. apply IH; auto. rewrite insert_sorted_perm. constructor; [exact Hk|].
  eapply Forall_impl; [exact Hn|]. intros a Ha. exact (Forall_inv_tail Ha).
Qed.

(** C19: keys that are all different, inserted in any order, are what a sorted list of
    them holds: no insertion fails whatever heights the nodes get; [Contains] tells
    whether a key was inserted; an iterator sent to the first node passes all the keys
    in order, one sent to a key passes those that are not before it, one sent to the
    last node passes the last key, and [Prev] goes back to the key before. *)
Theorem skiplist_is_a_sorted_set (ks : list K) :
  Forall key_valid ks -> ForallOrdPairs (fun a b => compare_ a b <> 0) ks ->
  exists s, inserts ks = Some s /\ sort_keys ks ≡ₚ ks /\ keys_sorted (sort_keys ks) /\
    (exists n, Iterator_SeekToFirst s = Some n /\ keys_from s n = Some (sort_keys ks)) /\
    (exists n, Iterator_SeekToLast s = Some n /\ keys_from s n = Some (match last (sort_keys ks) with Some a => [a] | None => [] end)) /\
    (forall t, key_valid t -> Contains t s = Some (existsb (Equal t) ks) /\
      exists n, Iterator_Seek s t = Some n /\ keys_from s n = Some (keys_at t (sort_keys ks))) /\
    (forall KA b KB, sort_keys ks = KA ++ b :: KB -> exists n n', Iterator_Seek s b = Some n /\ Iterator_key s n = Some b /\
      (exists n1, Iterator_Next s n = Some n1 /\ keys_from s n1 = Some KB) /\
      Iterator_Prev s n = Some n' /\ keys_from s n' = Some (match last KA with Some a => a :: b :: KB | None => [] end)).
Proof.
  intros Hv Hd. destruct (inserts_from ks new_SkipList [] new_SkipList_represents Hv Hd ltac:(constructor)) as (s & E & Hr).
  change (foldl _ [] ks) with (sort_keys ks) in Hr. exists s. split; [exact E|].
  assert (Hp : sort_keys ks ≡ₚ ks) by apply (sort_keys_perm_from ks []). split; [exact Hp|].
  destruct (represents_sorted s _ Hr) as [Hsort Hv']. split; [exact Hsort|].
  split; [exact (SeekToFirst_ok s _ Hr)|]. split; [exact (SeekToLast_ok s _ Hr)|]. split.
  - intros t Vt. split; [|exact (Iterator_Seek_ok s _ t Hr Vt)]. rewrite (Contains_ok s _ t Hr Vt). f_equal. apply existsb_perm, Hp.
  - intros KA b KB EK. rewrite EK in Hr, Hv'. apply Forall_app in Hv' as [_ Hv']. pose proof (Forall_inv Hv') as Vb.
    destruct (Prev_ok s KA b KB Hr Vb) as (n & n' & En & Hn & Ep & Hn'). exists n, n'. split; [exact En|].
    destruct (keys_from_node _ _ _ _ Hn) as (x & -> & Hx). split; [exact Hx|]. split; [|auto]. exact (Next_keys_from s x b KB Hn).
Qed.
End Sequential.

(** * One writer and any number of readers *)

Section Concurrent.
Context {K : Type} {KO : KeyOrder K} {AR : Arena K}.

(** The list, the insertion under way, the key every search looks for and where it
    stands, and the keys that were inserted. *)
Record system := mkSystem {
  shared : SkipList K;
  writer : option (K * insertion);
  readers : list (K * position);
  finished : list K }.

Definition initial : system := mkSystem new_SkipList None [] [].

(** A writer inserts keys the list does not contain, one at a time.  A search starts on
    any level, since the height of the list it reads may be one the list had before. *)
Inductive step : system -> system -> Prop :=
| writer_begins c k s' w : writer c = None -> key_valid k -> Contains k (shared c) = Some false ->
    Insert_begin k (shared c) = Some (s', w) -> step c (mkSystem s' (Some (k, w)) (readers c) (finished c))
| writer_stores c k w s' w' : writer c = Some (k, w) -> (level w < height w)%nat -> Insert_step (shared c) w = Some (s', w') ->
    step c (mkSystem s' (Some (k, w')) (readers c) (finished c))
| writer_ends c k w : writer c = Some (k, w) -> (height w <= level w)%nat ->
    step c (mkSystem (shared c) None (readers c) (finished c ++ [k]))
| reader_begins c t lv : key_valid t -> (lv < kMaxHeight)%nat ->
    step c (mkSystem (shared c) (writer c) (readers c ++ [(t, At (head_ (shared c)) lv)]) (finished c))
| reader_moves c i t x lv p b : readers c !! i = Some (t, At x lv) -> ge_round (nodes (shared c)) t x lv = Some (p, b) ->
    step c (mkSystem (shared c) (writer c) (<[i := (t, p)]> (readers c)) (finished c)).

Definition reader_ok (s : SkipList K) (L : nat -> list Z) (r : K * position) : Prop :=
  key_valid (fst r) /\ match snd r with At x lv => at_position s L (fst r) x lv | Found _ _ => True end.

(** The key that is inserted but whose insertion has not ended. *)
Definition published (wr : option (K * insertion)) : list K :=
  match wr with Some (k, w) => if decide (level w = 0%nat) then [] else [k] | None => [] end.

Definition consistent (c : system) : Prop := exists L ks,
  skip_ok (shared c) L /\ keys_are (nodes (shared c)) (L 0%nat) ks /\ ks ≡ₚ finished c ++ published (writer c) /\
  match writer c with Some (k, w) => linking (shared c) L k w | None => True end /\
  Forall (reader_ok (shared c) L) (readers c).

Lemma reader_ok_grows s L s' L' r : grows s L s' L' -> reader_ok s L r -> reader_ok s' L' r.
Proof.
  intros (Hh & Hin & Hk) (Vt & Hr). split; [exact Vt|]. destruct r as [t [x lv|n x]]; cbn [fst snd] in *; [|exact I].
  destruct Hr as [Hlv Hx]. split; [exact Hlv|]. destruct Hx as [->|[Hx (a & Ha & Va & Hlt)]]; [auto|]. right.
  split; [apply Hin, Hx|]. exists a. auto.
Qed.

Lemma readers_grow s L s' L' rs : grows s L s' L' -> Forall (reader_ok s L) rs -> Forall (reader_ok s' L') rs.
Proof. intros Hg Hr. eapply Forall_impl; [exact Hr|]. intros r. apply reader_ok_grows, Hg. Qed.

Lemma not_contained (s : SkipList K) ks k : represents s ks -> key_valid k -> Contains k s = Some false -> Forall (fun a => compare_ a k <> 0) ks.
Proof.
  intros Hr Vk E. rewrite (Contains_ok s ks k Hr Vk) in E. injection E as E. destruct (represents_sorted s ks Hr) as [_ Hv].
  apply Forall_forall. intros a Ha H0. rewrite Forall_forall in Hv. specialize (Hv a Ha).
  assert (Ht : existsb (Equal k) ks = true).
  { apply List.existsb_exists. exists a. split; [apply list_elem_of_In, Ha|]. unfold Equal. pose proof (compare_sym a k Hv Vk).
    pose proof (compare_sym k a Vk Hv). apply Z.eqb_eq. lia. }
  congruence.
Qed.

Lemma step_consistent c c' : step c c' -> consistent c -> consistent c'.
Proof.
  intros Hst (L & ks & Hs & Hk & Hp & Hw & Hr). destruct Hst as [c k s' w Ew Vk Ec E|c k w s' w' Ew Hlv E|c k w Ew Hlv|c t lv Vt Hlv|c i t x lv p b Ei E];
    unfold consistent; cbn [shared writer readers finished].
  - rewrite Ew in *. cbn [published] in Hp. rewrite app_nil_r in Hp.
    pose proof (absent_keys _ L k ks Hk (not_contained _ ks k (ex_intro _ L (conj Hs Hk)) Vk Ec)) as Habs.
    destruct (Insert_begin_ok _ L k Hs Vk Habs) as (s2 & w2 & E2 & Hs2 & Hw2 & Hg & El & _). rewrite E in E2. injection E2 as <- <-.
    exists L, ks. split; [exact Hs2|]. split; [eapply keys_are_grows; [apply Hg|exact Hk]|]. unfold published.
    rewrite decide_True by exact El. rewrite app_nil_r. split; [exact Hp|]. split; [exact Hw2|exact (readers_grow _ _ _ _ _ Hg Hr)].
  - rewrite Ew in *. destruct (Insert_step_ok _ L k w Hs Hw Hlv) as (s2 & w2 & L' & E2 & Hs2 & Hw2 & Hg & _ & En & _ & Hcase).
    rewrite E in E2. injection E2 as <- <-. pose proof (keys_are_grows _ _ _ _ (proj2 (proj2 Hg)) Hk) as Hk'.
    destruct Hcase as [[E0 Hl]|(Hl & Hl' & A & B & EL & EL' & HA & HB)].
    + exists L', ks. split; [exact Hs2|]. rewrite E0. split; [exact Hk'|]. split; [|split; [exact Hw2|exact (readers_grow _ _ _ _ _ Hg Hr)]].
      unfold published in *. destruct (decide (level w = 0%nat)), (decide (level w' = 0%nat)); auto; tauto.
    + exists L', (insert_sorted k ks). split; [exact Hs2|]. split; [|split; [|split; [exact Hw2|exact (readers_grow _ _ _ _ _ Hg Hr)]]].
      * rewrite EL'. rewrite EL in Hk'. rewrite <- En. apply keys_are_insert; [exact Hk'|apply Hw2| |];
        (eapply Forall_impl; [eassumption|]; intros y; rewrite En; apply node_lt_keys, Hg).
      * unfold published in *. rewrite decide_True in Hp by exact Hl. rewrite decide_False by exact Hl'. rewrite app_nil_r in Hp.
        rewrite insert_sorted_perm, Hp. apply Permutation_cons_append.
  - rewrite Ew in *. exists L, ks. split; [exact Hs|]. split; [exact Hk|]. cbn [published]. rewrite app_nil_r. split; [|auto].
    pose proof (lk_height _ _ _ _ Hw). unfold published in Hp. rewrite decide_False in Hp by lia. exact Hp.
  - exists L, ks. split; [exact Hs|]. split; [exact Hk|]. split; [exact Hp|]. split; [exact Hw|]. apply Forall_app. split; [exact Hr|].
    constructor; [|constructor]. split; [exact Vt|]. cbn. split; auto.
  - exists L, ks. split; [exact Hs|]. split; [exact Hk|]. split; [exact Hp|]. split; [exact Hw|]. apply Forall_insert; [exact Hr|].
    pose proof (Forall_lookup_1 _ _ _ _ Hr Ei) as [Vt Hpos]. cbn [fst snd] in *. split; [exact Vt|]. cbn [fst snd].
    destruct (ge_round_ok _ L t x lv Hs Vt Hpos) as (p2 & b2 & E2 & Hp2 & _). rewrite E in E2. injection E2 as <- <-.
    destruct p; [apply Hp2|exact I].
Qed.

Lemma reachable_consistent c : rtc step initial c -> consistent c.
Proof.
  intros H. revert H. apply (rtc_ind_r (R := step) consistent initial); [|intros y z _ Hyz Hy; exact (step_consistent _ _ Hyz Hy)].
  destruct (new_SkipList_represents (K := K)) as (L & Hs & Hk). exists L, []. cbn. split_and!; auto.
Qed.

(** C5: readers that run while a writer inserts, one load or one store at a time in any
    order, never follow a link that is not there, and neither does the writer.  At any
    moment the list is sorted and holds the keys whose insertion has ended and at most
    the one that is being inserted, so that it only grows; a search that ends finds
    the first key that is not before its target among those the list holds at the
    moment it ends, and an iterator it gives passes the ones after it. *)
Theorem skiplist_readers_need_no_lock (c : system) : rtc step initial c ->
  exists ks first, Iterator_SeekToFirst (shared c) = Some first /\ keys_from (shared c) first = Some ks /\ keys_sorted ks /\
    finished c ⊆ ks /\ (forall k, k ∈ ks -> k ∈ finished c \/ exists w, writer c = Some (k, w)) /\
    (forall k, writer c = None -> key_valid k -> exists r, Contains k (shared c) = Some r /\
      (r = false -> exists s' w, Insert_begin k (shared c) = Some (s', w))) /\
    (forall k w, writer c = Some (k, w) -> (level w < height w)%nat -> exists s' w', Insert_step (shared c) w = Some (s', w') /\
      S (stores_left w') = stores_left w) /\
    (forall i t x lv, readers c !! i = Some (t, At x lv) -> exists p b, ge_round (nodes (shared c)) t x lv = Some (p, b) /\
      forall n y, p = Found n y -> keys_from (shared c) n = Some (keys_at t ks)).
Proof.
  intros Hc. destruct (reachable_consistent c Hc) as (L & ks & Hs & Hk & Hp & Hw & Hr).
  pose proof (ex_intro _ L (conj Hs Hk) : represents (shared c) ks) as Hrep.
  destruct (SeekToFirst_ok _ _ Hrep) as (first & E1 & E2). exists ks, first. split; [exact E1|]. split; [exact E2|].
  split; [apply (represents_sorted _ _ Hrep)|]. split; [intros k Hin; rewrite Hp; apply elem_of_app; auto|]. split; [|split; [|split]].
  - intros k Hin. rewrite Hp in Hin. apply elem_of_app in Hin as [Hin|Hin]; [auto|]. right. unfold published in Hin.
    destruct (writer c) as [[k' w]|]; [|inversion Hin]. destruct (decide _); [inversion Hin|]. apply list_elem_of_singleton in Hin as ->. eauto.
  - intros k _ Vk. exists (existsb (Equal k) ks). split; [exact (Contains_ok _ _ _ Hrep Vk)|]. intros Er.
    assert (Ec : Contains k (shared c) = Some false) by (rewrite <- Er; exact (Contains_ok _ _ _ Hrep Vk)).
    destruct (Insert_begin_ok _ L k Hs Vk (absent_keys _ L k ks Hk (not_contained _ ks k Hrep Vk Ec))) as (s' & w & E & _). eauto.
  - intros k w Ew Hlv. rewrite Ew in Hw. destruct (Insert_step_ok _ L k w Hs Hw Hlv) as (s' & w' & L' & E & _ & _ & _ & _ & _ & Hm & _). eauto.
  - intros i t x lv Ei. destruct (Forall_lookup_1 _ _ _ _ Hr Ei) as [Vt Hpos]. cbn [fst snd] in *.
    destruct (ge_round_ok _ L t x lv Hs Vt Hpos) as (p & b & E & Hfound & _). exists p, b. split; [exact E|]. intros n y ->.
    destruct Hfound as (_ & _ & _ & A & B & Hcut & ->). destruct (cut_keys _ _ _ _ _ _ Hcut Hk) as (KA & KB & -> & _ & HKB & HA & HB).
    rewrite keys_at_cut by (eapply Forall_impl; [eassumption|]; cbn; tauto). exact (keys_from_ok _ L A B KB Hs (proj1 Hcut) HKB).
Qed.
End Concurrent.

(** * Witnesses: a list of integers *)

Lemma Z_minus_sym a b : True -> True -> a - b < 0 <-> 0 < b - a.
Proof. lia. Qed.

Lemma Z_minus_trans a b c : True -> True -> True -> a - b <= 0 -> b - c <= 0 -> a - c <= 0.
Proof. lia. Qed.

#[local] Instance Z_order : KeyOrder Z :=
  {| compare_ a b := a - b; key_valid _ := True; compare_refl a _ := Z.sub_diag a; compare_sym := Z_minus_sym;
     compare_trans := Z_minus_trans |}.

Definition first_address (m : gmap Z (Node Z)) : Z := fresh (dom m : gset Z).

Lemma first_address_fresh m : m !! first_address m = None.
Proof. apply (not_elem_of_dom (D := gset Z)). exact (is_fresh (dom m : gset Z)). Qed.

#[local] Instance Z_arena : Arena Z := {| node_at := first_address; node_at_fresh := first_address_fresh |}.

Lemma skiplist_is_a_sorted_set_witness : sort_keys [5; 1; 9; 3] = [1; 3; 5; 9] /\
  exists s, inserts [5; 1; 9; 3] = Some s /\ Contains 3 s = Some true /\ Contains 4 s = Some false.
Proof.
  split; [reflexivity|]. destruct (skiplist_is_a_sorted_set [5; 1; 9; 3]) as (s & E & _ & _ & _ & _ & Hc & _).
  - repeat constructor.
  - repeat constructor; cbn; lia.
  - exists s. split; [exact E|]. destruct (Hc 3 I) as [H3 _]. destruct (Hc 4 I) as [H4 _]. split; [exact H3|exact H4].
Defined.

(** A search that starts while 5 is half inserted. *)
Definition begun : SkipList Z * insertion := default (new_SkipList, mkInsertion 0 [] 0 0 false) (Insert_begin 5 new_SkipList).
Definition stored : SkipList Z * insertion := default begun (Insert_step (fst begun) (snd begun)).
Definition half_way : system := mkSystem (fst stored) (Some (5, snd stored)) [(3, At (head_ (fst begun)) 0)] [].

Lemma half_way_reached : rtc step initial half_way.
Proof.
  eapply rtc_l; [apply (writer_begins initial 5 (fst begun) (snd begun)); [reflexivity|exact I|vm_compute; reflexivity|vm_compute; reflexivity]|].
  eapply rtc_l; [apply (reader_begins _ 3 0); [exact I|unfold kMaxHeight; lia]|].
  apply rtc_once. apply (writer_stores (mkSystem (fst begun) (Some (5, snd begun)) [(3, At (head_ (fst begun)) 0)] []) 5 (snd begun));
    [reflexivity|vm_compute; lia|vm_compute; reflexivity].
Qed.

Lemma skiplist_readers_need_no_lock_witness : own_link (snd stored) = true /\
  exists p b, ge_round (nodes (fst stored)) 3 (head_ (fst begun)) 0 = Some (p, b).
Proof.
  split; [vm_compute; reflexivity|].
  destruct (skiplist_readers_need_no_lock half_way half_way_reached) as (ks & first & _ & _ & _ & _ & _ & _ & _ & Hr).
  destruct (Hr 0%nat 3 _ 0%nat eq_refl) as (p & b & E & _). exists p, b. exact E.
Defined.
