(* ===== verification/LdbArena.v ===== *)
(** leveldb/util/arena.{h,cc}: the memory of a memtable, taken from the heap in blocks
    and handed out from their front.

    Addresses are integers, a null pointer is 0.  [new char[]] is the interface
    [Heap]; a block is kept with its size, which the heap knows. *)
From Stdlib Require Import ZArith Lia.
From stdpp Require Import base list numbers option sorting.
From S2P Require Import Prelude.

Open Scope Z_scope.

(** Where [new char[n]] puts a block, given the blocks there are; it may throw. *)
Class Heap := { new_char : list (Z * Z) -> Z -> option Z }.

(** Two ranges, each an address and a size, have no byte in common. *)
Definition apart (r q : Z * Z) : Prop := fst r + snd r <= fst q \/ fst q + snd q <= fst r.

(** What C++ promises of it: memory that is in the address space, aligned for any
    object and not in use. *)
Class HeapLaws (H : Heap) := {
  new_char_range : forall blocks n p, 0 < n -> new_char blocks n = Some p -> 0 < p /\ p + n < 2 ^ 64;
  new_char_aligned : forall blocks n p, 0 < n -> new_char blocks n = Some p -> p mod 8 = 0;
  new_char_apart : forall blocks n p b, 0 < n -> new_char blocks n = Some p -> b ∈ blocks -> apart b (p, n) }.

(** How a request can fail: an assertion, or the exception of [new]. *)
Inductive failure := assertion | bad_alloc.

(** * The code *)

Section Code.
Context {H : Heap}.

Definition kBlockSize : Z := 4096.
Definition sizeof_pointer : Z := 8.

Record ArenaState := mkArena {
  alloc_ptr_ : Z;
  alloc_bytes_remaining_ : Z;
  blocks_ : list (Z * Z);
  memory_usage_ : Z }.

Definition new_Arena : ArenaState := mkArena 0 0 [] 0.

Definition AllocateNewBlock (block_bytes : Z) (a : ArenaState) : failure + Z * ArenaState :=
  match new_char (blocks_ a) block_bytes with
  | None => inl bad_alloc
  | Some result =>
    inr (result, mkArena (alloc_ptr_ a) (alloc_bytes_remaining_ a) (blocks_ a ++ [(result, block_bytes)])
                   (u64 (memory_usage_ a + u64 (block_bytes + sizeof_pointer))))
  end.

Definition AllocateFallback (bytes : Z) (a : ArenaState) : failure + Z * ArenaState :=
  if kBlockSize / 4 <? bytes then AllocateNewBlock bytes a
  else
    match AllocateNewBlock kBlockSize a with
    | inl e => inl e
    | inr (ptr, a) => inr (ptr, mkArena (ptr + bytes) (u64 (kBlockSize - bytes)) (blocks_ a) (memory_usage_ a))
    end.

Definition Allocate (bytes : Z) (a : ArenaState) : failure + Z * ArenaState :=
  if negb (0 <? bytes) then inl assertion
  else if bytes <=? alloc_bytes_remaining_ a then
    inr (alloc_ptr_ a, mkArena (alloc_ptr_ a + bytes) (u64 (alloc_bytes_remaining_ a - bytes)) (blocks_ a) (memory_usage_ a))
  else AllocateFallback bytes a.

Definition align : Z := if 8 <? sizeof_pointer then sizeof_pointer else 8.

Definition AllocateAligned (bytes : Z) (a : ArenaState) : failure + Z * ArenaState :=
  let current_mod := Z.land (alloc_ptr_ a) (align - 1) in
  let slop := if current_mod =? 0 then 0 else align - current_mod in
  let needed := u64 (bytes + slop) in
  let allocated :=
    if needed <=? alloc_bytes_remaining_ a then
      inr (alloc_ptr_ a + slop,
           mkArena (alloc_ptr_ a + needed) (u64 (alloc_bytes_remaining_ a - needed)) (blocks_ a) (memory_usage_ a))
    else AllocateFallback bytes a in
  match allocated with
  | inl e => inl e
  | inr (result, a) => if Z.land result (align - 1) =? 0 then inr (result, a) else inl assertion
  end.

Definition MemoryUsage (a : ArenaState) : Z := memory_usage_ a.
End Code.

(** * What the arena hands out *)

Section Proofs.
Context {H : Heap} {L : HeapLaws H}.
Implicit Types (a : ArenaState) (r q b : Z * Z) (rs : list (Z * Z)).

Definition within r b : Prop := fst b <= fst r /\ fst r + snd r <= fst b + snd b.

Lemma within_apart r q b : within r b -> apart b q -> apart r q.
Proof. unfold within, apart. lia. Qed.

Lemma apart_sym r q : apart r q -> apart q r.
Proof. unfold apart. lia. Qed.

(** The blocks do not overlap; the ranges handed out are in blocks and do not
    overlap; what is left of the current block is in a block and not handed out. *)
Record arena_ok a rs : Prop := {
  ar_blocks : Forall (fun b => 0 < fst b /\ 0 < snd b /\ fst b + snd b < 2 ^ 64) (blocks_ a);
  ar_within : Forall (fun r => 0 < snd r /\ exists b, b ∈ blocks_ a /\ within r b) rs;
  ar_apart : ForallOrdPairs apart rs;
  ar_rest : 0 <= alloc_bytes_remaining_ a /\
    (0 < alloc_bytes_remaining_ a -> (exists b, b ∈ blocks_ a /\ within (alloc_ptr_ a, alloc_bytes_remaining_ a) b) /\
       Forall (fun r => apart r (alloc_ptr_ a, alloc_bytes_remaining_ a)) rs);
  ar_usage : memory_usage_ a = foldr (fun b n => snd b + sizeof_pointer + n) 0 (blocks_ a) mod 2 ^ 64 }.

Lemma new_Arena_ok : arena_ok new_Arena [].
Proof. constructor; cbn; try constructor; try lia; reflexivity. Qed.

Lemma rest_range a rs : arena_ok a rs -> alloc_bytes_remaining_ a < 2 ^ 64.
Proof.
  intros Ha. destruct (ar_rest a rs Ha) as [Hn Hr]. destruct (Z.eq_dec (alloc_bytes_remaining_ a) 0) as [->|Hne]; [lia|].
  destruct (Hr ltac:(lia)) as [(b & Hb & Hw) _]. pose proof (proj1 (Forall_forall _ _) (ar_blocks a rs Ha) b Hb). unfold within in Hw. cbn in *. lia.
Qed.

(** [n] bytes from what is left, after [slop] of them. *)
Lemma take_rest a rs slop n : arena_ok a rs -> 0 < n -> 0 <= slop -> slop + n <= alloc_bytes_remaining_ a ->
  arena_ok (mkArena (alloc_ptr_ a + (slop + n)) (u64 (alloc_bytes_remaining_ a - (slop + n))) (blocks_ a) (memory_usage_ a))
           ((alloc_ptr_ a + slop, n) :: rs).
Proof.
  intros Ha Hn Hs Hr. pose proof (rest_range a rs Ha) as Hlt. destruct (ar_rest a rs Ha) as [_ Hrest].
  destruct (Hrest ltac:(lia)) as [(b & Hb & Hw) Hap]. rewrite u64_small by lia.
  constructor; cbn [alloc_ptr_ alloc_bytes_remaining_ blocks_ memory_usage_].
  - apply (ar_blocks a rs Ha).
  - constructor; [|apply (ar_within a rs Ha)]. split; [exact Hn|]. exists b. split; [exact Hb|]. unfold within in *. cbn in *. lia.
  - constructor; [|apply (ar_apart a rs Ha)]. eapply Forall_impl; [exact Hap|]. intros q. unfold apart. cbn. lia.
  - split; [lia|]. intros Hpos. split; [exists b; split; [exact Hb|unfold within in *; cbn in *; lia]|].
    constructor; [unfold apart; cbn; lia|]. eapply Forall_impl; [exact Hap|]. intros q. unfold apart. cbn. lia.
  - apply (ar_usage a rs Ha).
Qed.

Lemma foldr_usage_app (l : list (Z * Z)) b :
  foldr (fun b n => snd b + sizeof_pointer + n) 0 (l ++ [b]) = foldr (fun b n => snd b + sizeof_pointer + n) 0 l + snd b + sizeof_pointer.
Proof. induction l as [|c l IH]; cbn [app foldr]; [lia|]. rewrite IH. lia. Qed.

Lemma AllocateNewBlock_ok a rs n p a' : arena_ok a rs -> 0 < n < 2 ^ 63 -> AllocateNewBlock n a = inr (p, a') ->
  arena_ok a' rs /\ p mod 8 = 0 /\ (p, n) ∈ blocks_ a' /\ Forall (fun r => apart r (p, n)) rs /\
  0 < p /\ p + n < 2 ^ 64 /\ alloc_ptr_ a' = alloc_ptr_ a /\ alloc_bytes_remaining_ a' = alloc_bytes_remaining_ a /\
  (0 < alloc_bytes_remaining_ a -> apart (alloc_ptr_ a, alloc_bytes_remaining_ a) (p, n)).
Proof.
  intros Ha Hn. unfold AllocateNewBlock. destruct (new_char (blocks_ a) n) as [q|] eqn:Eq; [|discriminate]. intros E. injection E as -> <-.
  destruct (new_char_range (blocks_ a) n p ltac:(lia) Eq) as [Hp Hp']. pose proof (new_char_aligned (blocks_ a) n p ltac:(lia) Eq) as Hal.
  pose proof (fun b => new_char_apart (blocks_ a) n p b ltac:(lia) Eq) as Hap.
  cbn [alloc_ptr_ alloc_bytes_remaining_ blocks_]. destruct (ar_rest a rs Ha) as [Hr0 Hrest].
  split; [|split; [exact Hal|split; [apply elem_of_app; right; apply list_elem_of_singleton; reflexivity|split; [|split; [exact Hp|split; [exact Hp'|split; [reflexivity|split; [reflexivity|]]]]]]]].
  - constructor; cbn [alloc_ptr_ alloc_bytes_remaining_ blocks_ memory_usage_].
    + apply Forall_app. split; [apply (ar_blocks a rs Ha)|]. constructor; [cbn; lia|constructor].
    + eapply Forall_impl; [apply (ar_within a rs Ha)|]. intros r (Hr & b & Hb & Hw). split; [exact Hr|]. exists b.
      split; [apply elem_of_app; auto|exact Hw].
    + apply (ar_apart a rs Ha).
    + split; [exact Hr0|]. intros Hpos. destruct (Hrest Hpos) as [(b & Hb & Hw) Hall]. split; [exists b; split; [apply elem_of_app; auto|exact Hw]|exact Hall].
    + rewrite foldr_usage_app, (ar_usage a rs Ha). cbn [snd]. unfold u64. change 18446744073709551616 with (2 ^ 64). rewrite <- Z.add_assoc.
      rewrite Zplus_mod_idemp_r, Zplus_mod_idemp_l. reflexivity.
  - eapply Forall_impl; [apply (ar_within a rs Ha)|]. intros r (Hr & b & Hb & Hw). apply (within_apart _ _ _ Hw), Hap, Hb.
  - intros Hpos. destruct (Hrest Hpos) as [(b & Hb & Hw) _]. apply (within_apart _ _ _ Hw), Hap, Hb.
Qed.

Lemma AllocateNewBlock_fails n a e : AllocateNewBlock n a = inl e -> e = bad_alloc.
Proof. unfold AllocateNewBlock. destruct (new_char (blocks_ a) n); congruence. Qed.

Lemma AllocateFallback_ok a rs n : arena_ok a rs -> 0 < n < 2 ^ 63 ->
  match AllocateFallback n a with inl e => e = bad_alloc | inr (p, a') => arena_ok a' ((p, n) :: rs) /\ p mod 8 = 0 end.
Proof.
  intros Ha Hn. unfold AllocateFallback. change (kBlockSize / 4) with 1024. destruct (Z.ltb_spec 1024 n) as [Hbig|Hsmall].
  - destruct (AllocateNewBlock n a) as [e|[p a']] eqn:E; [apply (AllocateNewBlock_fails _ _ _ E)|].
    destruct (AllocateNewBlock_ok a rs n p a' Ha Hn E) as (Ha' & Hal & Hin & Hap & Hp & Hp' & Ep & Er & Hrest). split; [|exact Hal].
    constructor; [apply (ar_blocks a' rs Ha')| | | |apply (ar_usage a' rs Ha')].
    + constructor; [|apply (ar_within a' rs Ha')]. split; [cbn; lia|]. exists (p, n). split; [exact Hin|]. unfold within. lia.
    + constructor; [|apply (ar_apart a' rs Ha')]. eapply Forall_impl; [exact Hap|]. intros r. apply apart_sym.
    + destruct (ar_rest a' rs Ha') as [Hr0 Hr]. split; [exact Hr0|]. intros Hpos. destruct (Hr Hpos) as [Hw Hall]. split; [exact Hw|].
      constructor; [|exact Hall]. rewrite Ep, Er in *. apply apart_sym, Hrest, Hpos.
  - destruct (AllocateNewBlock kBlockSize a) as [e|[p a']] eqn:E; [apply (AllocateNewBlock_fails _ _ _ E)|].
    destruct (AllocateNewBlock_ok a rs kBlockSize p a' Ha ltac:(unfold kBlockSize; lia) E) as (Ha' & Hal & Hin & Hap & Hp & Hp' & _ & _ & _).
    split; [|exact Hal]. unfold kBlockSize in *. rewrite u64_small by lia.
    constructor; cbn [alloc_ptr_ alloc_bytes_remaining_ blocks_ memory_usage_]; [apply (ar_blocks a' rs Ha')| | | |apply (ar_usage a' rs Ha')].
    + constructor; [|apply (ar_within a' rs Ha')]. split; [cbn; lia|]. exists (p, 4096). split; [exact Hin|]. unfold within. cbn. lia.
    + constructor; [|apply (ar_apart a' rs Ha')]. eapply Forall_impl; [exact Hap|]. intros r. unfold apart. cbn. lia.
    + split; [lia|]. intros _. split; [exists (p, 4096); split; [exact Hin|unfold within; cbn; lia]|].
      constructor; [unfold apart; cbn; lia|]. eapply Forall_impl; [exact Hap|]. intros r. unfold apart. cbn. lia.
Qed.

Lemma Allocate_ok a rs n : arena_ok a rs -> 0 < n < 2 ^ 63 ->
  match Allocate n a with inl e => e = bad_alloc | inr (p, a') => arena_ok a' ((p, n) :: rs) end.
Proof.
  intros Ha Hn. unfold Allocate. rewrite (proj2 (Z.ltb_lt 0 n)) by lia. cbn [negb]. destruct (Z.leb_spec n (alloc_bytes_remaining_ a)).
  - pose proof (take_rest a rs 0 n Ha ltac:(lia) ltac:(lia) ltac:(lia)) as Ht. rewrite Z.add_0_r, Z.add_0_l in Ht. exact Ht.
  - pose proof (AllocateFallback_ok a rs n Ha Hn) as Hf. destruct (AllocateFallback n a) as [e|[p a']]; [exact Hf|apply Hf].
Qed.

Lemma land_7 x : Z.land x 7 = x mod 8.
Proof. change 7 with (Z.ones 3). rewrite Z.land_ones by lia. reflexivity. Qed.

Lemma AllocateAligned_ok a rs n : arena_ok a rs -> 0 < n < 2 ^ 63 ->
  match AllocateAligned n a with inl e => e = bad_alloc | inr (p, a') => arena_ok a' ((p, n) :: rs) /\ p mod 8 = 0 end.
Proof.
  intros Ha Hn. unfold AllocateAligned. change (align - 1) with 7. change align with 8. rewrite land_7.
  set (slop := if alloc_ptr_ a mod 8 =? 0 then 0 else 8 - alloc_ptr_ a mod 8).
  pose proof (Z.mod_pos_bound (alloc_ptr_ a) 8 ltac:(lia)) as Hm.
  assert (Hs : 0 <= slop < 8) by (unfold slop; destruct (Z.eqb_spec (alloc_ptr_ a mod 8) 0); lia).
  assert (Hal : (alloc_ptr_ a + slop) mod 8 = 0).
  { unfold slop. destruct (Z.eqb_spec (alloc_ptr_ a mod 8) 0) as [E|_]; [rewrite Z.add_0_r; exact E|].
    rewrite <- Zplus_mod_idemp_l. replace (alloc_ptr_ a mod 8 + (8 - alloc_ptr_ a mod 8)) with 8 by lia. reflexivity. }
  rewrite (u64_small (n + slop)) by lia. destruct (Z.leb_spec (n + slop) (alloc_bytes_remaining_ a)).
  - rewrite land_7, Hal. split; [|exact Hal].
    pose proof (take_rest a rs slop n Ha ltac:(lia) ltac:(lia) ltac:(lia)) as Ht. rewrite (Z.add_comm slop n) in Ht. exact Ht.
  - pose proof (AllocateFallback_ok a rs n Ha Hn) as Hf. destruct (AllocateFallback n a) as [e|[p a']]; [exact Hf|]. destruct Hf as [Ha' Hp].
    rewrite land_7, Hp. exact (conj Ha' Hp).
Qed.
End Proofs.

(** ** Any number of requests, the latest first *)

Inductive request := Plain (bytes : Z) | Aligned (bytes : Z).
Definition request_bytes (q : request) : Z := match q with Plain n | Aligned n => n end.

Definition serve {H : Heap} (q : request) (a : ArenaState) : failure + Z * ArenaState :=
  match q with Plain n => Allocate n a | Aligned n => AllocateAligned n a end.

Fixpoint serve_all {H : Heap} (qs : list request) : failure + list (Z * Z) * ArenaState :=
  match qs with
  | [] => inr ([], new_Arena)
  | q :: qs =>
    match serve_all qs with
    | inl e => inl e
    | inr (rs, a) => match serve q a with inl e => inl e | inr (p, a) => inr ((p, request_bytes q) :: rs, a) end
    end
  end.

(** C30: whatever is asked for, in whatever order: unless the heap has no memory left,
    every request is served with a range of its size, aligned where that was asked
    for, that lies in one block of the heap and has no byte in common with another;
    and the usage the arena reports is the size of its blocks, each with a pointer. *)
Theorem arena_ranges_are_apart (H : Heap) (L : HeapLaws H) (qs : list request) :
  Forall (fun q => 0 < request_bytes q < 2 ^ 63) qs ->
  match serve_all qs with
  | inl e => e = bad_alloc
  | inr (rs, a) =>
    Forall2 (fun q r => snd r = request_bytes q /\ match q with Aligned _ => fst r mod 8 = 0 | Plain _ => True end) qs rs /\
    ForallOrdPairs apart rs /\ Forall (fun r => exists b, b ∈ blocks_ a /\ within r b) rs /\
    MemoryUsage a = u64 (foldr (fun b n => snd b + sizeof_pointer + n) 0 (blocks_ a))
  end.
Proof.
  intros Hqs. assert (K : match serve_all qs with inl e => e = bad_alloc | inr (rs, a) => arena_ok a rs /\
    Forall2 (fun q r => snd r = request_bytes q /\ match q with Aligned _ => fst r mod 8 = 0 | Plain _ => True end) qs rs end).
  { induction Hqs as [|q qs Hq Hqs IH]; [cbn [serve_all]; auto using new_Arena_ok|].
    cbn [serve_all]. destruct (serve_all qs) as [e|[rs a]]; [exact IH|]. destruct IH as [Ha Hrs].
    destruct q as [n|n]; cbn [serve request_bytes] in *.
    - pose proof (Allocate_ok a rs n Ha Hq) as Hn. destruct (Allocate n a) as [e|[p a']]; [exact Hn|]. split; [exact Hn|].
      constructor; [cbn; auto|exact Hrs].
    - pose proof (AllocateAligned_ok a rs n Ha Hq) as Hn. destruct (AllocateAligned n a) as [e|[p a']]; [exact Hn|]. destruct Hn as [Ha' Hp].
      split; [exact Ha'|]. constructor; [cbn; auto|exact Hrs]. }
  destruct (serve_all qs) as [e|[rs a]]; [exact K|]. destruct K as [Ha Hrs]. split; [exact Hrs|]. split; [apply Ha|].
  split; [eapply Forall_impl; [apply (ar_within a rs Ha)|]; cbn; tauto|]. apply (ar_usage a rs Ha).
Qed.

(** * A heap of 2^63 bytes that does not reuse memory *)

Definition heap_end (blocks : list (Z * Z)) : Z := foldr (fun b n => Z.max n (fst b + snd b)) 8 blocks.

#[export] Instance bump_heap : Heap :=
  {| new_char blocks n := let p := (heap_end blocks + 7) / 8 * 8 in if p + n <? 2 ^ 63 then Some p else None |}.

Lemma heap_end_above (b : Z * Z) blocks : b ∈ blocks -> fst b + snd b <= heap_end blocks.
Proof.
  induction blocks as [|c blocks IH]; intros Hb; [inversion Hb|]. cbn [heap_end foldr]. fold (heap_end blocks).
  apply elem_of_cons in Hb as [->|Hb]; [lia|]. specialize (IH Hb). lia.
Qed.

Lemma heap_end_8 blocks : 8 <= heap_end blocks.
Proof. induction blocks as [|b blocks IH]; cbn [heap_end foldr]; [lia|]. fold (heap_end blocks). lia. Qed.

#[export] Program Instance bump_heap_laws : HeapLaws bump_heap.
Next Obligation.
  intros blocks n p Hn E. cbn in E. pose proof (heap_end_8 blocks). destruct (Z.ltb_spec ((heap_end blocks + 7) / 8 * 8 + n) (2 ^ 63)); [|discriminate].
  injection E as <-. dlia.
Qed.
Next Obligation.
  intros blocks n p Hn E. cbn in E. destruct (_ <? _); [|discriminate]. injection E as <-. apply Z.mod_mul. lia.
Qed.
Next Obligation.
  intros blocks n p b Hn E Hb. cbn in E. destruct (_ <? _); [|discriminate]. injection E as <-. pose proof (heap_end_above b blocks Hb).
  unfold apart. cbn. left. dlia.
Qed.

Lemma arena_ranges_are_apart_witness : exists rs a, serve_all [Aligned 24; Plain 5000; Plain 5] = inr (rs, a) /\
  ForallOrdPairs apart rs /\ MemoryUsage a = 9112.
Proof.
  pose proof (arena_ranges_are_apart bump_heap bump_heap_laws [Aligned 24; Plain 5000; Plain 5]) as H.
  assert (E : serve_all [Aligned 24; Plain 5000; Plain 5] = inr ([(16, 24); (4104, 5000); (8, 5)], mkArena 40 4064 [(8, 4096); (4104, 5000)] 9112))
    by (vm_compute; reflexivity).
  rewrite E in H. eexists _, _. split; [reflexivity|]. destruct H as (_ & Ha & _ & Hu).
  - repeat constructor; cbn; lia.
  - split; [exact Ha|reflexivity].
Defined.
