(* ===== verification/LdbMemTable.v ===== *)
(** leveldb/db/memtable.{h,cc}: the writes that are not in a table file yet, in a skip
    list of encoded entries.

    The key of a node is a pointer to an entry in the arena; here it is the bytes that
    start there.  The arena of [LdbArena] counts the memory; where a node of the skip
    list is put is the interface [Arena] of [LdbSkip]. *)
From Stdlib Require Import ZArith Lia.
From Stdlib Require Sorted.
From stdpp Require Import base list numbers gmap option sorting.
From S2P Require Import Prelude LdbCoding LdbFormat LdbSkip LdbArena.

Open Scope Z_scope.

#[local] Arguments ztake : simpl never.
#[local] Arguments zdrop : simpl never.
#[local] Arguments zlen : simpl never.

(** [GetLengthPrefixedSlice] of memtable.cc, on the bytes at [data]: the string and
    what follows it.  A null pointer, or a string that goes beyond the memory, is
    [None]. *)
Definition SliceAt (data : list Z) : option (list Z * list Z) :=
  let near := ztake 5 data in
  '(len, q) ← GetVarint32Ptr near;
  let p := zdrop (zlen near - zlen q) data in
  if zlen p <? len then None else Some (ztake len p, zdrop len p).

(** [MemTable::KeyComparator]. *)
Definition KeyComparator {P : Port} {C : Comparator} (aptr bptr : list Z) : Z :=
  match SliceAt aptr, SliceAt bptr with
  | Some (a, _), Some (b, _) => internal_Compare a b
  | _, _ => 0
  end.

(** * The order of the entries *)

Section EntryOrder.
Context {P : Port} {C : Comparator} {L : ComparatorLaws C}.

Lemma SliceAt_Encode k r : zlen k < 2 ^ 32 -> bytes_ok (k ++ r) -> SliceAt (EncodeVarint32 (zlen k) ++ k ++ r) = Some (k, r).
Proof.
  intros Hk Hok. pose proof (zlen_nonneg k). destruct (zlen_EncodeVarint32 (zlen k)) as [Ev Hv]; [lia|].
  set (v := EncodeVarint32 (zlen k)) in *. unfold SliceAt. cbv zeta.
  assert (En : ztake 5 (v ++ k ++ r) = v ++ ztake (5 - zlen v) (k ++ r)).
  { unfold ztake. rewrite take_app. replace (Z.to_nat 5 - length v)%nat with (Z.to_nat (5 - zlen v)) by (unfold zlen; lia).
    f_equal. apply take_ge. unfold zlen in *. lia. }
  assert (Eg : GetVarint32Ptr (v ++ ztake (5 - zlen v) (k ++ r)) = Some (zlen k, ztake (5 - zlen v) (k ++ r)))
    by (apply GetVarint32Ptr_Encode; [lia|auto with bytes]).
  rewrite En, Eg. cbn [mbind option_bind].
  replace (zlen (v ++ ztake (5 - zlen v) (k ++ r)) - zlen (ztake (5 - zlen v) (k ++ r))) with (zlen v) by (rewrite zlen_app; lia).
  rewrite zdrop_app, zlen_app, (proj2 (Z.ltb_ge _ _)) by (pose proof (zlen_nonneg r); lia). rewrite ztake_app, zdrop_app. reflexivity.
Qed.

(** An encoded internal key, with anything behind it. *)
Definition entry_ok (e : list Z) : Prop :=
  exists k r, e = EncodeVarint32 (zlen k) ++ k ++ r /\ internal_ok k /\ zlen k < 2 ^ 32 /\ bytes_ok (k ++ r).

Lemma KeyComparator_entries k r k' r' : zlen k < 2 ^ 32 -> zlen k' < 2 ^ 32 -> bytes_ok (k ++ r) -> bytes_ok (k' ++ r') ->
  KeyComparator (EncodeVarint32 (zlen k) ++ k ++ r) (EncodeVarint32 (zlen k') ++ k' ++ r') = internal_Compare k k'.
Proof. intros. unfold KeyComparator. rewrite !SliceAt_Encode by assumption. reflexivity. Qed.

Ltac entries := repeat match goal with H : entry_ok _ |- _ => destruct H as (? & ? & -> & ? & ? & ?) end; rewrite !KeyComparator_entries by assumption.

Lemma KeyComparator_refl a : entry_ok a -> KeyComparator a a = 0.
Proof. intros. entries. apply internal_refl. assumption. Qed.

Lemma KeyComparator_sym a b : entry_ok a -> entry_ok b -> KeyComparator a b < 0 <-> 0 < KeyComparator b a.
Proof. intros. entries. apply internal_sym; assumption. Qed.

Lemma KeyComparator_trans a b c : entry_ok a -> entry_ok b -> entry_ok c ->
  KeyComparator a b <= 0 -> KeyComparator b c <= 0 -> KeyComparator a c <= 0.
Proof. intros ? ? ?. entries. apply internal_trans; assumption. Qed.

#[export] Instance EntryOrder : KeyOrder (list Z) :=
  {| compare_ := KeyComparator; key_valid := entry_ok; compare_refl := KeyComparator_refl;
     compare_sym := KeyComparator_sym; compare_trans := KeyComparator_trans |}.
End EntryOrder.

(** * The code *)

Section Code.
Context {P : Port} {C : Comparator} {L : ComparatorLaws C} {H : Heap} {AR : Arena (list Z)}.

Record MemTable := mkMemTable { refs_ : Z; arena_ : ArenaState; table_ : SkipList (list Z) }.

(** The size of a node of the skip list. *)
Definition node_bytes (height : nat) : Z := 16 + 8 * (Z.of_nat height - 1).

Definition new_MemTable : failure + MemTable :=
  match AllocateAligned (node_bytes kMaxHeight) new_Arena with
  | inl e => inl e
  | inr (_, ar) => inr (mkMemTable 0 ar new_SkipList)
  end.

Definition Ref (t : MemTable) : MemTable := mkMemTable (refs_ t + 1) (arena_ t) (table_ t).

(** The memtable that is left, if any. *)
Definition Unref (t : MemTable) : failure + option MemTable :=
  let t := mkMemTable (refs_ t - 1) (arena_ t) (table_ t) in
  if negb (0 <=? refs_ t) then inl assertion
  else if refs_ t <=? 0 then inr None else inr (Some t).

Definition ApproximateMemoryUsage (t : MemTable) : Z := MemoryUsage (arena_ t).

(** What [Add] writes at [buf]. *)
Definition entry_bytes (s : Z) (type : ValueType) (key value : list Z) : list Z :=
  EncodeVarint32 (u32 (zlen key + 8)) ++ key ++ EncodeFixed64 (Z.lor (u64 (Z.shiftl s 8)) (type_byte type)) ++
  EncodeVarint32 (u32 (zlen value)) ++ value.

Definition Add (s : Z) (type : ValueType) (key value : list Z) (t : MemTable) : failure + MemTable :=
  let key_size := zlen key in
  let val_size := zlen value in
  let internal_key_size := u64 (key_size + 8) in
  let encoded_len := u64 (VarintLength internal_key_size + internal_key_size + VarintLength val_size + val_size) in
  match Allocate encoded_len (arena_ t) with
  | inl e => inl e
  | inr (_, ar) =>
    let buf := entry_bytes s type key value in
    if negb (zlen buf =? encoded_len) then inl assertion
    else
      let '(height, _) := RandomHeight (rnd_ (table_ t)) in
      match AllocateAligned (node_bytes height) ar with
      | inl e => inl e
      | inr (_, ar) =>
        match Insert buf (table_ t) with
        | None => inl assertion
        | Some table => inr (mkMemTable (refs_ t) ar table)
        end
      end
  end.

(** True and a value, true and the status NotFound, or false. *)
Inductive found := Value (v : list Z) | Deleted | Absent.

Definition Get (key : LookupKey) (t : MemTable) : option found :=
  let memkey := memtable_key key in
  iter ← Iterator_Seek (table_ t) memkey;
  if Iterator_Valid iter then
    entry ← Iterator_key (table_ t) iter;
    let near := ztake 5 entry in
    '(key_length, q) ← GetVarint32Ptr near;
    let key_ptr := zdrop (zlen near - zlen q) entry in
    if Compare (ztake (key_length - 8) key_ptr) (LookupKey_user_key key) =? 0 then
      let tag := DecodeFixed64 (zdrop (key_length - 8) key_ptr) in
      let type := Z.land tag 255 in
      if type =? type_byte kTypeValue then '(v, _) ← SliceAt (zdrop key_length key_ptr); Some (Value v)
      else if type =? type_byte kTypeDeletion then Some Deleted
      else Some Absent
    else Some Absent
  else Some Absent.

(** ** The iterator *)

Definition EncodeKey (target : list Z) : list Z := PutVarint32 [] (u32 (zlen target)) ++ target.

Definition MemTableIterator_Seek (t : MemTable) (k : list Z) : option (option Z) := Iterator_Seek (table_ t) (EncodeKey k).

Definition MemTableIterator_key (t : MemTable) (iter : option Z) : option (list Z) :=
  e ← Iterator_key (table_ t) iter; '(k, _) ← SliceAt e; Some k.

Definition MemTableIterator_value (t : MemTable) (iter : option Z) : option (list Z) :=
  e ← Iterator_key (table_ t) iter; '(_, r) ← SliceAt e; '(v, _) ← SliceAt r; Some v.
End Code.

(** * What a memtable holds *)

(** A write: its sequence number, whether it is a value or a deletion, key, value. *)
Record op := mkOp { op_seq : Z; op_type : ValueType; op_key : list Z; op_value : list Z }.

Section Spec.
Context {P : Port} {C : Comparator}.

Definition matches (u : list Z) (s : Z) (o : op) : bool := (Compare (op_key o) u =? 0) && (op_seq o <=? s).

(** The newest write of a key that a snapshot can see. *)
Definition visible (u : list Z) (s : Z) (ops : list op) : option op :=
  foldr (fun o best => if matches u s o then
                         match best with Some b => if op_seq b <? op_seq o then Some o else best | None => Some o end
                       else best) None ops.

Definition outcome (o : option op) : found :=
  match o with
  | Some o => match op_type o with kTypeValue => Value (op_value o) | kTypeDeletion => Deleted end
  | None => Absent
  end.

Definition op_entry (o : op) : list Z := entry_bytes (op_seq o) (op_type o) (op_key o) (op_value o).
Definition op_ikey (o : op) : list Z := InternalKey (op_key o) (op_seq o) (op_type o).

Lemma visible_None u s ops : Forall (fun o => matches u s o = false) ops -> visible u s ops = None.
Proof. induction 1 as [|o ops Ho Hops IH]; [reflexivity|]. cbn [visible foldr]. rewrite Ho. exact IH. Qed.

Lemma visible_in u s ops o : visible u s ops = Some o -> o ∈ ops /\ matches u s o = true.
Proof.
  induction ops as [|a ops IH]; cbn [visible foldr]; [discriminate|]. fold (visible u s ops). destruct (matches u s a) eqn:Ea.
  - destruct (visible u s ops) as [b|]; [destruct (op_seq b <? op_seq a)|]; intros E; injection E as <-; try (split; [apply elem_of_cons; auto|exact Ea]).
    destruct (IH eq_refl) as [Hb Eb]. split; [apply elem_of_cons; auto|exact Eb].
  - intros E. destruct (IH E) as [Hb Eb]. split; [apply elem_of_cons; auto|exact Eb].
Qed.

Lemma visible_max u s ops o : o ∈ ops -> matches u s o = true -> exists b, visible u s ops = Some b /\ op_seq o <= op_seq b.
Proof.
  induction ops as [|a ops IH]; intros Hin Ho; [inversion Hin|]. cbn [visible foldr]. fold (visible u s ops).
  apply elem_of_cons in Hin as [<-|Hin].
  - rewrite Ho. destruct (visible u s ops) as [b|]; [destruct (Z.ltb_spec (op_seq b) (op_seq o))|]; eexists; (split; [reflexivity|lia]).
  - destruct (IH Hin Ho) as (b & -> & Hb). destruct (matches u s a); [|eauto].
    destruct (Z.ltb_spec (op_seq b) (op_seq a)); eexists; (split; [reflexivity|lia]).
Qed.

Lemma seq_inj (ops : list op) a b : NoDup (map op_seq ops) -> a ∈ ops -> b ∈ ops -> op_seq a = op_seq b -> a = b.
Proof.
  induction ops as [|o ops IH]; cbn [map]; intros Hnd Ha Hb E; [inversion Ha|]. apply NoDup_cons in Hnd as [Ho Hnd].
  apply elem_of_cons in Ha as [->|Ha], Hb as [->|Hb]; auto; exfalso; apply Ho; [rewrite E|rewrite <- E]; apply list_elem_of_fmap_2; assumption.
Qed.

Lemma visible_eq u s ops o : NoDup (map op_seq ops) -> o ∈ ops -> matches u s o = true ->
  (forall b, b ∈ ops -> matches u s b = true -> op_seq b <= op_seq o) -> visible u s ops = Some o.
Proof.
  intros Hnd Ho Hm Hmax. destruct (visible_max u s ops o Ho Hm) as (b & E & Hb). rewrite E. f_equal.
  destruct (visible_in u s ops b E) as [Hbin Hbm]. apply (seq_inj ops); auto. specialize (Hmax b Hbin Hbm). lia.
Qed.
End Spec.

Section Proofs.
Context {P : Port} {C : Comparator} {L : ComparatorLaws C} {H : Heap} {HL : HeapLaws H} {AR : Arena (list Z)}.
Implicit Types (t : MemTable) (o : op) (ops : list op) (u : list Z).

(** Lengths are what 32 bits can say. *)
Record op_ok o : Prop := {
  op_seq_ok : 0 <= op_seq o <= kMaxSequenceNumber;
  op_key_ok : key_ok (op_key o);
  op_bytes_ok : bytes_ok (op_key o) /\ bytes_ok (op_value o);
  op_size_ok : zlen (op_key o) + 8 < 2 ^ 32 /\ zlen (op_value o) < 2 ^ 32 }.

Lemma zlen_InternalKey u s ty : zlen (InternalKey u s ty) = zlen u + 8.
Proof. apply zlen_tagged. Qed.

Lemma InternalKey_bytes u s ty : bytes_ok u -> bytes_ok (InternalKey u s ty).
Proof. intros Hu. rewrite InternalKey_eq. apply bytes_ok_app. split; [exact Hu|apply EncodeFixed64_ok]. Qed.

Lemma InternalKey_ok u s ty : key_ok u -> 0 <= s <= kMaxSequenceNumber -> internal_ok (InternalKey u s ty).
Proof. intros Hu Hs. exists u, (PackSequenceAndType s ty). split; [reflexivity|]. split; [exact Hu|apply Pack_range, Hs]. Qed.

(** The value behind an internal key in an entry. *)
Definition value_bytes (v : list Z) : list Z := EncodeVarint32 (zlen v) ++ v.

Lemma value_bytes_ok v : zlen v < 2 ^ 32 -> bytes_ok v -> bytes_ok (value_bytes v).
Proof. intros Hv Hb. pose proof (zlen_nonneg v). apply bytes_ok_app. split; [apply EncodeVarint32_ok; lia|exact Hb]. Qed.

Lemma op_entry_eq o : op_ok o -> op_entry o = EncodeVarint32 (zlen (op_ikey o)) ++ op_ikey o ++ value_bytes (op_value o).
Proof.
  intros [_ _ _ [Hk Hv]]. pose proof (zlen_nonneg (op_key o)). pose proof (zlen_nonneg (op_value o)).
  unfold op_entry, entry_bytes, op_ikey, value_bytes. rewrite zlen_InternalKey, !u32_small by lia. rewrite InternalKey_eq, <- app_assoc. reflexivity.
Qed.

Lemma op_entry_parts o : op_ok o -> internal_ok (op_ikey o) /\ zlen (op_ikey o) < 2 ^ 32 /\ bytes_ok (op_ikey o ++ value_bytes (op_value o)).
Proof.
  intros [Hs Hk [Hbk Hbv] [Hlk Hlv]]. unfold op_ikey. rewrite zlen_InternalKey. split; [apply InternalKey_ok; assumption|]. split; [exact Hlk|].
  apply bytes_ok_app. split; [apply InternalKey_bytes, Hbk|apply value_bytes_ok; assumption].
Qed.

Lemma op_entry_valid o : op_ok o -> entry_ok (op_entry o).
Proof.
  intros Ho. destruct (op_entry_parts o Ho) as (H1 & H2 & H3). exists (op_ikey o), (value_bytes (op_value o)).
  split; [apply op_entry_eq, Ho|auto].
Qed.

Lemma compare_entries a b : op_ok a -> op_ok b -> compare_ (op_entry a) (op_entry b) = internal_Compare (op_ikey a) (op_ikey b).
Proof.
  intros Ha Hb. rewrite (op_entry_eq a Ha), (op_entry_eq b Hb). destruct (op_entry_parts a Ha) as (_ & A2 & A3).
  destruct (op_entry_parts b Hb) as (_ & B2 & B3). apply KeyComparator_entries; assumption.
Qed.

Lemma entries_differ a b : op_ok a -> op_ok b -> op_seq a <> op_seq b -> compare_ (op_entry a) (op_entry b) <> 0.
Proof.
  intros Ha Hb Hne. rewrite compare_entries by assumption. pose proof (op_seq_ok a Ha) as Sa. pose proof (op_seq_ok b Hb) as Sb.
  pose proof (Pack_range (op_seq a) (op_type a) Sa). pose proof (Pack_range (op_seq b) (op_type b) Sb).
  unfold op_ikey. change (InternalKey ?u ?s ?y) with (tagged u (PackSequenceAndType s y)). rewrite internal_Compare_tagged by assumption.
  rewrite !PackSequenceAndType_val by assumption. pose proof (type_byte_range (op_type a)). pose proof (type_byte_range (op_type b)).
  destruct (Z.eqb_spec (Compare (op_key a) (op_key b)) 0); [|assumption].
  destruct (Z.ltb_spec (op_seq b * 256 + type_byte (op_type b)) (op_seq a * 256 + type_byte (op_type a)));
  destruct (Z.ltb_spec (op_seq a * 256 + type_byte (op_type a)) (op_seq b * 256 + type_byte (op_type b))); lia.
Qed.

(** The memtable after these writes. *)
Record holds t ops : Prop := {
  ho_table : exists ks, represents (table_ t) ks /\ ks ≡ₚ map op_entry ops;
  ho_ops : Forall op_ok ops;
  ho_seq : NoDup (map op_seq ops);
  ho_arena : exists rs, arena_ok (arena_ t) rs }.

Lemma new_MemTable_holds : match new_MemTable with inl e => e = bad_alloc | inr t => holds t [] /\ refs_ t = 0 end.
Proof.
  unfold new_MemTable. pose proof (AllocateAligned_ok new_Arena [] (node_bytes kMaxHeight) new_Arena_ok ltac:(unfold node_bytes, kMaxHeight; lia)) as Ha.
  destruct (AllocateAligned _ _) as [e|[p ar]]; [exact Ha|]. split; [|reflexivity]. constructor; [|constructor|constructor|eexists; apply Ha].
  exists []. split; [apply new_SkipList_represents|reflexivity].
Qed.

Lemma zlen_entry o : op_ok o -> zlen (op_entry o) =
  VarintLength (zlen (op_key o) + 8) + (zlen (op_key o) + 8) + VarintLength (zlen (op_value o)) + zlen (op_value o).
Proof.
  intros Ho. rewrite op_entry_eq by exact Ho. destruct Ho as [_ _ _ [Hk Hv]]. unfold value_bytes, op_ikey. rewrite !zlen_app, zlen_InternalKey.
  pose proof (zlen_nonneg (op_key o)). pose proof (zlen_nonneg (op_value o)).
  rewrite (proj1 (zlen_EncodeVarint32 (zlen (op_key o) + 8) ltac:(lia))), (proj1 (zlen_EncodeVarint32 (zlen (op_value o)) ltac:(lia))). lia.
Qed.

Lemma Add_holds t ops o : holds t ops -> op_ok o -> op_seq o ∉ map op_seq ops ->
  match Add (op_seq o) (op_type o) (op_key o) (op_value o) t with
  | inl e => e = bad_alloc
  | inr t' => holds t' (ops ++ [o]) /\ refs_ t' = refs_ t
  end.
Proof.
  intros Ht Ho Hseq. destruct Ht as [(ks & Hr & Hp) Hops Hnd [rs Har]]. pose proof (zlen_entry o Ho) as Hlen.
  pose proof (op_size_ok o Ho) as [Hk Hv]. pose proof (zlen_nonneg (op_key o)). pose proof (zlen_nonneg (op_value o)).
  destruct (zlen_EncodeVarint32 (zlen (op_key o) + 8) ltac:(lia)) as [_ V1]. destruct (zlen_EncodeVarint32 (zlen (op_value o)) ltac:(lia)) as [_ V2].
  unfold Add. cbv zeta. rewrite (u64_small (zlen (op_key o) + 8)) by lia. fold (op_entry o). rewrite <- Hlen, u64_small by lia.
  assert (Hpos : 0 < zlen (op_entry o) < 2 ^ 63) by lia.
  pose proof (Allocate_ok (arena_ t) rs (zlen (op_entry o)) Har Hpos) as Ha.
  destruct (Allocate _ _) as [e|[p ar]]; [exact Ha|]. rewrite Z.eqb_refl. cbn [negb].
  pose proof (RandomHeight_range (rnd_ (table_ t))) as Hh. destruct (RandomHeight (rnd_ (table_ t))) as [h rnd]. cbn [fst] in Hh.
  pose proof (AllocateAligned_ok ar _ (node_bytes h) Ha ltac:(unfold node_bytes, kMaxHeight in *; lia)) as Ha2.
  destruct (AllocateAligned _ _) as [e|[p2 ar2]]; [exact Ha2|].
  destruct (Insert_represents (table_ t) ks (op_entry o) Hr (op_entry_valid o Ho)) as (s' & E & Hr').
  { apply Forall_forall. intros e He. rewrite Hp in He. apply list_elem_of_fmap in He as (a & -> & Ha'). rewrite Forall_forall in Hops.
    apply entries_differ; [apply Hops, Ha'|exact Ho|]. intros Es. apply Hseq. rewrite <- Es. apply list_elem_of_fmap_2, Ha'. }
  rewrite E. split; [|reflexivity]. constructor; cbn [table_ arena_].
  - eexists. split; [exact Hr'|]. rewrite insert_sorted_perm, Hp, map_app. apply Permutation_cons_append.
  - apply Forall_app. auto.
  - rewrite map_app. apply NoDup_app. split; [exact Hnd|]. split; [|apply NoDup_singleton]. intros x Hx Hx'.
    apply list_elem_of_singleton in Hx' as ->. contradiction.
  - eexists. apply Ha2.
Qed.

(** The nodes stay where they are. *)
Lemma Add_later t ops o t' : holds t ops -> op_ok o -> op_seq o ∉ map op_seq ops ->
  Add (op_seq o) (op_type o) (op_key o) (op_value o) t = inr t' -> later (table_ t) (table_ t').
Proof.
  intros [(ks & Hr & Hp) Hops Hnd _] Ho Hseq. unfold Add. cbv zeta. fold (op_entry o). destruct (Allocate _ _) as [e|[p ar]]; [discriminate|].
  destruct (negb _); [discriminate|]. destruct (RandomHeight _) as [h rnd]. destruct (AllocateAligned _ _) as [e|[p2 ar2]]; [discriminate|].
  destruct (Insert (op_entry o) (table_ t)) as [s'|] eqn:E; [|discriminate]. intros [= <-]. cbn [table_].
  apply (Insert_later _ ks (op_entry o) s' Hr (op_entry_valid o Ho)); [|exact E]. apply Forall_forall. intros e He. rewrite Hp in He.
  apply list_elem_of_fmap in He as (a & -> & Ha'). rewrite Forall_forall in Hops.
  apply entries_differ; [apply Hops, Ha'|exact Ho|]. intros Es. apply Hseq. rewrite <- Es. apply list_elem_of_fmap_2, Ha'.
Qed.

(** ** Looking up *)

Lemma lookup_key_parts u s : zlen u + 8 < 2 ^ 32 -> bytes_ok u ->
  SliceAt (memtable_key (new_LookupKey u s)) = Some (InternalKey u s kValueTypeForSeek, []) /\
  memtable_key (new_LookupKey u s) = EncodeVarint32 (zlen (InternalKey u s kValueTypeForSeek)) ++ InternalKey u s kValueTypeForSeek ++ [].
Proof.
  intros Hl Hu. destruct (LookupKey_parts u s Hl) as (-> & _ & _). rewrite <- (zlen_InternalKey u s kValueTypeForSeek).
  assert (E : SliceAt (EncodeVarint32 (zlen (InternalKey u s kValueTypeForSeek)) ++ InternalKey u s kValueTypeForSeek ++ []) =
    Some (InternalKey u s kValueTypeForSeek, [])).
  { apply SliceAt_Encode; [rewrite zlen_InternalKey; exact Hl|]. rewrite app_nil_r. apply InternalKey_bytes, Hu. }
  rewrite !app_nil_r in *. auto.
Qed.

Lemma lookup_key_valid u s : zlen u + 8 < 2 ^ 32 -> bytes_ok u -> key_ok u -> 0 <= s <= kMaxSequenceNumber ->
  entry_ok (memtable_key (new_LookupKey u s)).
Proof.
  intros Hl Hb Hu Hs. destruct (lookup_key_parts u s Hl Hb) as [_ ->]. eexists _, _. split; [reflexivity|].
  split; [apply InternalKey_ok; assumption|]. rewrite zlen_InternalKey, app_nil_r. split; [exact Hl|apply InternalKey_bytes, Hb].
Qed.

(** An entry stands before a lookup when its key is smaller, or the same and newer
    than the snapshot. *)
Lemma entry_before_lookup o u s : op_ok o -> zlen u + 8 < 2 ^ 32 -> bytes_ok u -> 0 <= s <= kMaxSequenceNumber ->
  compare_ (op_entry o) (memtable_key (new_LookupKey u s)) < 0 <->
  Compare (op_key o) u < 0 \/ Compare (op_key o) u = 0 /\ s < op_seq o.
Proof.
  intros Ho Hl Hb Hs. cbn [compare_ EntryOrder]. unfold KeyComparator. rewrite (proj1 (lookup_key_parts u s Hl Hb)), (op_entry_eq o Ho).
  destruct (op_entry_parts o Ho) as (_ & H2 & H3). rewrite SliceAt_Encode by assumption. unfold op_ikey.
  rewrite internal_Compare_keys by (apply Ho || exact Hs). change (type_byte kValueTypeForSeek) with 1. pose proof (type_byte_range (op_type o)). lia.
Qed.

(** Two entries in order: the first key is smaller, or the same and newer. *)
Lemma entry_before_entry a b : op_ok a -> op_ok b -> compare_ (op_entry a) (op_entry b) < 0 ->
  Compare (op_key a) (op_key b) < 0 \/ Compare (op_key a) (op_key b) = 0 /\ op_seq b <= op_seq a.
Proof.
  intros Ha Hb. rewrite compare_entries by assumption. unfold op_ikey. rewrite internal_Compare_keys by (apply Ha || apply Hb). lia.
Qed.

(** What [Get] makes of the entry it finds. *)
Lemma Get_entry t u s x o : zlen u + 8 < 2 ^ 32 -> op_ok o -> Iterator_Seek (table_ t) (memtable_key (new_LookupKey u s)) = Some (Some x) ->
  Iterator_key (table_ t) (Some x) = Some (op_entry o) ->
  Get (new_LookupKey u s) t = Some (if Compare (op_key o) u =? 0 then outcome (Some o) else Absent).
Proof.
  intros Hl Ho E Ek. unfold Get. rewrite E. cbn [mbind option_bind Iterator_Valid]. rewrite Ek. cbn [mbind option_bind].
  destruct (op_entry_parts o Ho) as (_ & Hlen & Hbytes). pose proof Ho as [Hs _ _ [Hk Hv]].
  pose proof (zlen_nonneg (op_key o)). pose proof (zlen_nonneg (op_value o)).
  rewrite (op_entry_eq o Ho). set (k := op_ikey o) in *. set (r := value_bytes (op_value o)) in *.
  assert (Hk' : zlen k = zlen (op_key o) + 8) by apply zlen_InternalKey.
  destruct (zlen_EncodeVarint32 (zlen k) ltac:(lia)) as [Ev Hv5]. set (v := EncodeVarint32 (zlen k)) in *.
  assert (En : ztake 5 (v ++ k ++ r) = v ++ ztake (5 - zlen v) (k ++ r)).
  { unfold ztake. rewrite take_app. replace (Z.to_nat 5 - length v)%nat with (Z.to_nat (5 - zlen v)) by (unfold zlen; lia).
    f_equal. apply take_ge. unfold zlen in *. lia. }
  assert (Eg : GetVarint32Ptr (v ++ ztake (5 - zlen v) (k ++ r)) = Some (zlen k, ztake (5 - zlen v) (k ++ r)))
    by (apply GetVarint32Ptr_Encode; [lia|auto with bytes]).
  cbv zeta. rewrite En, Eg. cbn [mbind option_bind].
  replace (zlen (v ++ ztake (5 - zlen v) (k ++ r)) - zlen (ztake (5 - zlen v) (k ++ r))) with (zlen v) by (rewrite zlen_app; lia).
  rewrite zdrop_app, (proj2 (proj2 (LookupKey_parts u s Hl))). replace (zlen k - 8) with (zlen (op_key o)) by lia.
  set (n := PackSequenceAndType (op_seq o) (op_type o)).
  assert (Ekr : k ++ r = op_key o ++ EncodeFixed64 n ++ r) by (unfold k, op_ikey; rewrite InternalKey_eq, <- app_assoc; reflexivity).
  rewrite (zdrop_app k r), Ekr, ztake_app, zdrop_app. destruct (Compare (op_key o) u =? 0); [|reflexivity].
  apply bytes_ok_app in Hbytes as [_ Hr]. rewrite DecodeFixed64_Encode by (exact Hr || apply Pack_range, Hs).
  assert (Et : Z.land n 255 = type_byte (op_type o)).
  { unfold n. rewrite land_255, PackSequenceAndType_val by exact Hs. pose proof (type_byte_range (op_type o)). dlia. }
  rewrite Et. unfold outcome. destruct (op_type o); [reflexivity|]. change (type_byte kTypeValue =? type_byte kTypeValue) with true. cbv iota.
  unfold r, value_bytes. rewrite <- (app_nil_r (op_value o)) at 2. rewrite SliceAt_Encode; [reflexivity|exact Hv|].
  rewrite app_nil_r. apply Ho.
Qed.

Lemma Get_holds t ops u s : holds t ops -> zlen u + 8 < 2 ^ 32 -> bytes_ok u -> key_ok u -> 0 <= s <= kMaxSequenceNumber ->
  Get (new_LookupKey u s) t = Some (outcome (visible u s ops)).
Proof.
  intros [(ks & Hr & Hp) Hops Hnd _] Hl Hb Hu Hs. rewrite Forall_forall in Hops.
  set (lk := memtable_key (new_LookupKey u s)).
  destruct (Iterator_Seek_ok (table_ t) ks lk Hr (lookup_key_valid u s Hl Hb Hu Hs)) as (n & E & Hn).
  destruct (represents_sorted _ _ Hr) as [Hsort _].
  assert (Hin : forall o, o ∈ ops -> matches u s o = true -> op_entry o ∈ keys_at lk ks).
  { intros o Ho Hm. apply andb_prop in Hm as [Hm1 Hm2]. apply Z.eqb_eq in Hm1. apply Z.leb_le in Hm2.
    unfold keys_at. apply list_elem_of_In, List.filter_In. split; [apply list_elem_of_In; rewrite Hp; apply list_elem_of_fmap_2, Ho|].
    apply Z.leb_le. destruct (Z.lt_ge_cases (compare_ (op_entry o) lk) 0) as [Hlt|]; [|assumption].
    apply (entry_before_lookup o u s (Hops o Ho) Hl Hb Hs) in Hlt. lia. }
  destruct (keys_at lk ks) as [|e r] eqn:Ek.
  - apply keys_from_end in Hn as ->. rewrite visible_None.
    + unfold Get. fold lk. rewrite E. reflexivity.
    + apply Forall_forall. intros o Ho. destruct (matches u s o) eqn:Em; [|reflexivity]. specialize (Hin o Ho Em). inversion Hin.
  - destruct (keys_from_node _ _ _ _ Hn) as (x & -> & Hx).
    assert (He : e ∈ ks /\ 0 <= compare_ e lk).
    { assert (He : List.In e (keys_at lk ks)) by (rewrite Ek; left; reflexivity). apply List.filter_In in He as [H1 H2].
      split; [apply list_elem_of_In, H1|apply Z.leb_le, H2]. }
    destruct He as [He Hge]. rewrite Hp in He. apply list_elem_of_fmap in He as (o & -> & Ho). pose proof (Hops o Ho) as Hok.
    rewrite (Get_entry t u s x o Hl Hok E Hx). f_equal.
    assert (Hnb : ~ (Compare (op_key o) u < 0 \/ Compare (op_key o) u = 0 /\ s < op_seq o)).
    { intros Hlt. apply (entry_before_lookup o u s Hok Hl Hb Hs) in Hlt. fold lk in Hlt. lia. }
    assert (Hrest : forall b, b ∈ ops -> matches u s b = true ->
      Compare (op_key o) (op_key b) < 0 \/ Compare (op_key o) (op_key b) = 0 /\ op_seq b <= op_seq o).
    { intros b Hbin Hm. specialize (Hin b Hbin Hm). apply elem_of_cons in Hin as [Eb|Hin].
      - destruct (Z.eq_dec (op_seq b) (op_seq o)) as [Es|Es].
        + rewrite (seq_inj ops b o Hnd Hbin Ho Es), Compare_refl by apply Hok. lia.
        + exfalso. apply (entries_differ b o (Hops b Hbin) Hok Es). rewrite Eb. apply compare_refl, op_entry_valid, Hok.
      - apply entry_before_entry; [exact Hok|apply Hops, Hbin|]. assert (Hs' : keys_sorted (op_entry o :: r)).
        { rewrite <- Ek. clear -Hsort. unfold keys_at, keys_sorted. induction Hsort as [|a l Hl IH Ha]; [constructor|]. cbn [List.filter].
          destruct (0 <=? compare_ a lk); [|exact IH]. constructor; [exact IH|]. rewrite Forall_forall in Ha |- *. intros b Hb.
          apply Ha. apply list_elem_of_In, List.filter_In in Hb. apply list_elem_of_In, Hb. }
        apply StronglySorted_inv in Hs' as [_ Hs']. rewrite Forall_forall in Hs'. apply Hs', Hin. }
    destruct (Z.eqb_spec (Compare (op_key o) u) 0) as [E0|E0].
    + rewrite (visible_eq u s ops o Hnd Ho); [reflexivity| |].
      * unfold matches. rewrite E0. cbn [Z.eqb]. apply Z.leb_le. lia.
      * intros b Hbin Hm. destruct (Hrest b Hbin Hm) as [Hlt|[_ Hle]]; [|exact Hle]. exfalso.
        apply andb_prop in Hm as [Hm _]. apply Z.eqb_eq in Hm. pose proof (op_key_ok b (Hops b Hbin)) as Kb. pose proof (op_key_ok o Hok) as Ko.
        pose proof (Compare_lt_le (op_key o) (op_key b) u Ko Kb Hu Hlt ltac:(lia)). lia.
    + rewrite visible_None; [reflexivity|]. apply Forall_forall. intros b Hbin. destruct (matches u s b) eqn:Hm; [|reflexivity]. exfalso.
      pose proof (Hrest b Hbin Hm) as Hb'. apply andb_prop in Hm as [Hm _]. apply Z.eqb_eq in Hm.
      pose proof (op_key_ok b (Hops b Hbin)) as Kb. pose proof (op_key_ok o Hok) as Ko.
      pose proof (Compare_trans (op_key o) (op_key b) u Ko Kb Hu ltac:(lia) ltac:(lia)). lia.
Qed.

(** ** Walking *)

Lemma iterator_entry t iter o : op_ok o -> Iterator_key (table_ t) iter = Some (op_entry o) ->
  MemTableIterator_key t iter = Some (op_ikey o) /\ MemTableIterator_value t iter = Some (op_value o).
Proof.
  intros Ho E. unfold MemTableIterator_key, MemTableIterator_value. rewrite E. cbn [mbind option_bind].
  destruct (op_entry_parts o Ho) as (_ & Hl & Hb). rewrite (op_entry_eq o Ho), SliceAt_Encode by assumption. cbn [mbind option_bind].
  split; [reflexivity|]. unfold value_bytes. rewrite <- (app_nil_r (op_value o)) at 2. destruct Ho as [_ _ [_ Hv] [_ Hlv]].
  rewrite SliceAt_Encode; [reflexivity|exact Hlv|]. rewrite app_nil_r. exact Hv.
Qed.

Lemma iterator_seek_key k : zlen k < 2 ^ 32 -> EncodeKey k = EncodeVarint32 (zlen k) ++ k.
Proof. intros Hk. unfold EncodeKey, PutVarint32. pose proof (zlen_nonneg k). rewrite u32_small by lia. reflexivity. Qed.

Lemma entries_sorted (sops : list op) : Forall op_ok sops -> keys_sorted (map op_entry sops) ->
  StronglySorted (fun a b => internal_Compare (op_ikey a) (op_ikey b) < 0) sops.
Proof.
  intros Hops Hsort. unfold keys_sorted in Hsort.
  induction sops as [|a sops IH]; constructor; apply List.Forall_cons_iff in Hops as [Ha Hops]; cbn [map] in Hsort;
    apply StronglySorted_inv in Hsort as [Hsort Hall]; [apply IH; assumption|].
  apply Forall_forall. intros b Hb. rewrite Forall_forall in Hall. rewrite Forall_forall in Hops. rewrite <- compare_entries by auto.
  apply Hall, list_elem_of_fmap_2, Hb.
Qed.

(** The entries in the order of their internal keys. *)
Lemma holds_sorted t ops : holds t ops -> exists sops, sops ≡ₚ ops /\
  StronglySorted (fun a b => internal_Compare (op_ikey a) (op_ikey b) < 0) sops /\ represents (table_ t) (map op_entry sops).
Proof.
  intros [(ks & Hr & Hp) Hops _ _]. destruct (Permutation_map_inv _ _ Hp) as (sops & -> & Hs). exists sops. split; [symmetry; exact Hs|].
  split; [|exact Hr]. rewrite Hs in Hops. apply (entries_sorted sops Hops). apply (represents_sorted _ _ Hr).
Qed.

(** Any writes can be put in this order. *)
Lemma sorted_writes ops : Forall op_ok ops -> NoDup (map op_seq ops) -> exists sops, sops ≡ₚ ops /\
  StronglySorted (fun a b => internal_Compare (op_ikey a) (op_ikey b) < 0) sops.
Proof.
  intros Hops Hnd. destruct (inserts_from (map op_entry ops) new_SkipList [] new_SkipList_represents) as (s & _ & Hr).
  - apply Forall_forall. intros e He. apply list_elem_of_fmap in He as (o & -> & Ho). rewrite Forall_forall in Hops. apply op_entry_valid, Hops, Ho.
  - induction ops as [|o ops IH]; cbn [map]; [constructor|]. apply List.Forall_cons_iff in Hops as [Ho Hops]. apply NoDup_cons in Hnd as [Hn Hnd].
    constructor; [|apply IH; assumption]. apply Forall_forall. intros e He. apply list_elem_of_fmap in He as (x & -> & Hx). rewrite Forall_forall in Hops.
    apply entries_differ; [exact Ho|apply Hops, Hx|]. intros E. apply Hn. rewrite E. apply list_elem_of_fmap_2, Hx.
  - constructor.
  - pose proof (sort_keys_perm_from (map op_entry ops) []) as Hp. cbn [app] in Hp. symmetry in Hp. destruct (Permutation_map_inv _ _ (symmetry Hp)) as (sops & E & Hs).
    exists sops. split; [symmetry; exact Hs|]. rewrite E in Hr. rewrite Hs in Hops. apply (entries_sorted sops Hops). apply (represents_sorted _ _ Hr).
Qed.

Lemma seek_own_entry t sops o : represents (table_ t) (map op_entry sops) ->
  StronglySorted (fun a b => internal_Compare (op_ikey a) (op_ikey b) < 0) sops -> op_ok o -> Forall op_ok sops -> o ∈ sops ->
  exists iter, MemTableIterator_Seek t (op_ikey o) = Some iter /\ MemTableIterator_key t iter = Some (op_ikey o).
Proof.
  intros Hr Hsort Ho Hops Hin. destruct (op_entry_parts o Ho) as (Hi & Hl & Hb). apply bytes_ok_app in Hb as [Hb _].
  set (target := EncodeKey (op_ikey o)). assert (Et : target = EncodeVarint32 (zlen (op_ikey o)) ++ op_ikey o ++ []).
  { unfold target. rewrite iterator_seek_key, app_nil_r by exact Hl. reflexivity. }
  assert (Hv : entry_ok target) by (rewrite Et; eexists _, _; split; [reflexivity|]; rewrite app_nil_r; auto).
  destruct (Iterator_Seek_ok (table_ t) _ target Hr Hv) as (n & E & Hn). exists n. split; [exact E|].
  assert (Hc : forall a, op_ok a -> compare_ (op_entry a) target = internal_Compare (op_ikey a) (op_ikey o)).
  { intros a Ha. rewrite Et, (op_entry_eq a Ha). destruct (op_entry_parts a Ha) as (_ & A2 & A3). apply KeyComparator_entries; auto.
    rewrite app_nil_r. exact Hb. }
  apply list_elem_of_split in Hin as (A & B & ->).
  assert (EK : keys_at target (map op_entry (A ++ o :: B)) = map op_entry (o :: B)).
  { rewrite map_app. apply Forall_app in Hops as [HA HB]. apply List.Forall_cons_iff in HB as [_ HB].
    assert (Hs : Forall (fun a => internal_Compare (op_ikey a) (op_ikey o) < 0) A /\ Forall (fun b => internal_Compare (op_ikey o) (op_ikey b) < 0) B).
    { clear -Hsort. induction A as [|a A IH]; cbn [app] in Hsort; apply StronglySorted_inv in Hsort as [Hsort Ha].
      - split; [constructor|exact Ha].
      - destruct (IH Hsort) as [H1 H2]. split; [|exact H2]. constructor; [|exact H1]. apply Forall_app in Ha as [_ Ha]. exact (Forall_inv Ha). }
    destruct Hs as [HA' HB']. apply keys_at_cut.
    - apply Forall_forall. intros e He. apply list_elem_of_fmap in He as (a & -> & Ha). rewrite Forall_forall in HA. rewrite Forall_forall in HA'. rewrite Hc by auto. auto.
    - cbn [map]. constructor; [rewrite Hc, internal_refl by assumption; lia|]. apply Forall_forall. intros e He.
      apply list_elem_of_fmap in He as (b & -> & Hb'). rewrite Forall_forall in HB. rewrite Forall_forall in HB'. rewrite Hc by auto. specialize (HB' b Hb').
      destruct (op_entry_parts b (HB b Hb')) as (Hib & _ & _). apply internal_sym in HB'; [lia|assumption|assumption]. }
  rewrite EK in Hn. destruct (keys_from_node _ _ _ _ Hn) as (x & -> & Hx). apply (iterator_entry t (Some x) o Ho Hx).
Qed.
End Proofs.

Section Filling.
Context {P : Port} {C : Comparator} {L : ComparatorLaws C} {H : Heap} {AR : Arena (list Z)}.

(** Writes added to a memtable. *)
Definition add_all (ops : list op) (t : failure + MemTable) : failure + MemTable :=
  foldl (fun t o => match t with inl e => inl e | inr t => Add (op_seq o) (op_type o) (op_key o) (op_value o) t end) t ops.

Lemma add_all_fails (ops : list op) e : add_all ops (inl e) = inl e.
Proof. induction ops as [|o ops IH]; [reflexivity|]. exact IH. Qed.

Lemma add_all_holds {HL : HeapLaws H} (ops : list op) : forall t before, holds t before -> Forall op_ok ops ->
  NoDup (map op_seq (before ++ ops)) ->
  match add_all ops (inr t) with inl e => e = bad_alloc | inr t' => holds t' (before ++ ops) /\ refs_ t' = refs_ t end.
Proof.
  induction ops as [|o ops IH]; intros t before Ht Hops Hnd; [cbn; rewrite app_nil_r; auto|].
  apply List.Forall_cons_iff in Hops as [Ho Hops].
  assert (Ho' : op_seq o ∉ map op_seq before).
  { rewrite map_app in Hnd. apply NoDup_app in Hnd as (_ & Hd & _). intros Hin. apply (Hd _ Hin). apply elem_of_cons. auto. }
  pose proof (Add_holds t before o Ht Ho Ho') as Ha. cbn [add_all foldl].
  destruct (Add _ _ _ _ t) as [e|t1].
  - fold (add_all ops (inl e)). rewrite add_all_fails. exact Ha.
  - destruct Ha as [Ht1 Er]. fold (add_all ops (inr t1)). specialize (IH t1 (before ++ [o]) Ht1 Hops). rewrite <- app_assoc in IH.
    specialize (IH Hnd). destruct (add_all ops (inr t1)); [exact IH|]. rewrite <- Er. exact IH.
Qed.

Lemma add_all_later {HL : HeapLaws H} (ops : list op) : forall t before t', holds t before -> Forall op_ok ops ->
  NoDup (map op_seq (before ++ ops)) -> add_all ops (inr t) = inr t' -> later (table_ t) (table_ t').
Proof.
  induction ops as [|o ops IH]; intros t before t' Ht Hops Hnd; [intros [= <-]; apply later_refl|].
  apply List.Forall_cons_iff in Hops as [Ho Hops].
  assert (Ho' : op_seq o ∉ map op_seq before).
  { rewrite map_app in Hnd. apply NoDup_app in Hnd as (_ & Hd & _). intros Hin. apply (Hd _ Hin). apply elem_of_cons. auto. }
  pose proof (Add_holds t before o Ht Ho Ho') as Ha. pose proof (Add_later t before o) as Hlat. cbn [add_all foldl].
  destruct (Add _ _ _ _ t) as [e|t1]; [fold (add_all ops (inl e)); rewrite add_all_fails; discriminate|]. specialize (Hlat t1 Ht Ho Ho' eq_refl).
  destruct Ha as [Ht1 _]. fold (add_all ops (inr t1)). intros E. apply (later_trans _ _ _ Hlat). apply (IH t1 (before ++ [o]) t' Ht1 Hops); [|exact E].
  rewrite <- app_assoc. exact Hnd.
Qed.
End Filling.

(** C6: a memtable that was given writes, in any order and with different sequence
    numbers, runs out of memory or holds all of them: a lookup at a snapshot gives
    the value of the newest write of the key that the snapshot sees, or that it is a
    deletion, or that there is none; and the iterator passes the writes by user key
    and then newest first, with their internal keys and values. *)
Theorem memtable_holds_the_writes (P : Port) (C : Comparator) (L : ComparatorLaws C) (H : Heap) (HL : HeapLaws H) (AR : Arena (list Z))
    (ops : list op) :
  Forall op_ok ops -> NoDup (map op_seq ops) ->
  match add_all ops new_MemTable with
  | inl e => e = bad_alloc
  | inr t =>
    (forall u s, zlen u + 8 < 2 ^ 32 -> bytes_ok u -> key_ok u -> 0 <= s <= kMaxSequenceNumber ->
       Get (new_LookupKey u s) t = Some (outcome (visible u s ops))) /\
    exists sops first, sops ≡ₚ ops /\ StronglySorted (fun a b => internal_Compare (op_ikey a) (op_ikey b) < 0) sops /\
      Iterator_SeekToFirst (table_ t) = Some first /\ keys_from (table_ t) first = Some (map op_entry sops) /\
      (forall iter o, o ∈ ops -> Iterator_key (table_ t) iter = Some (op_entry o) ->
         MemTableIterator_key t iter = Some (op_ikey o) /\ MemTableIterator_value t iter = Some (op_value o)) /\
      (forall o, o ∈ ops -> exists iter, MemTableIterator_Seek t (op_ikey o) = Some iter /\ MemTableIterator_key t iter = Some (op_ikey o))
  end.
Proof.
  intros Hops Hnd. pose proof new_MemTable_holds as Hnew. destruct new_MemTable as [e|t0]; [rewrite add_all_fails; exact Hnew|].
  pose proof (add_all_holds ops t0 [] (proj1 Hnew) Hops Hnd) as Ht. destruct (add_all ops (inr t0)) as [e|t]; [exact Ht|]. destruct Ht as [Ht _].
  split; [intros u s ? ? ? ?; apply (Get_holds t ops); assumption|].
  destruct (holds_sorted t ops Ht) as (sops & Hp & Hsort & Hr). destruct (SeekToFirst_ok _ _ Hr) as (first & E1 & E2).
  rewrite Forall_forall in Hops. exists sops, first. split_and!; auto; [intros iter o Ho; apply iterator_entry, Hops, Ho|].
  intros o Ho. apply (seek_own_entry t sops o); [exact Hr|exact Hsort|apply Hops, Ho| |rewrite Hp; exact Ho].
  rewrite Hp. apply Forall_forall, Hops.
Qed.

(** * Witness *)

Definition fresh_node (m : gmap Z (Node (list Z))) : Z := fresh (dom m : gset Z).

Lemma fresh_node_fresh m : m !! fresh_node m = None.
Proof. apply (not_elem_of_dom (D := gset Z)). exact (is_fresh (dom m : gset Z)). Qed.

#[export] Instance fresh_nodes : Arena (list Z) := {| node_at := fresh_node; node_at_fresh := fresh_node_fresh |}.

Definition some_writes : list op :=
  [mkOp 1 kTypeValue [104; 105] [1]; mkOp 2 kTypeValue [104] [2; 3]; mkOp 3 kTypeDeletion [104; 105] []].

Lemma memtable_holds_the_writes_witness : exists t, add_all some_writes new_MemTable = inr t /\
  Get (new_LookupKey [104; 105] 2) t = Some (Value [1]) /\ Get (new_LookupKey [104; 105] 9) t = Some Deleted /\
  Get (new_LookupKey [105] 9) t = Some Absent.
Proof.
  assert (Hb : forall l : list Z, forallb (fun b => (0 <=? b) && (b <? 256)) l = true -> bytes_ok l).
  { intros l Hl. apply Forall_forall. intros b Hin. apply list_elem_of_In in Hin. rewrite List.forallb_forall in Hl. specialize (Hl b Hin).
    apply andb_prop in Hl as [H1 H2]. unfold byte_ok. lia. }
  pose proof (memtable_holds_the_writes little BytewiseComparator BytewiseLaws bump_heap bump_heap_laws fresh_nodes some_writes) as H.
  destruct (add_all some_writes new_MemTable) as [e|t] eqn:E; [vm_compute in E; discriminate|].
  destruct H as [Hget _].
  - repeat constructor; try (vm_compute; discriminate); apply Hb; reflexivity.
  - apply (bool_decide_unpack _). vm_compute. exact I.
  - exists t. split; [reflexivity|].
    split; [|split]; (etransitivity; [apply Hget; first [reflexivity|apply Hb; reflexivity|split; vm_compute; discriminate]|vm_compute; reflexivity]).
Defined.
