(* ===== verification/LdbBatch.v ===== *)
(** leveldb/db/write_batch.cc: a batch of writes as the string that is logged.

    A [Slice] is the list of its bytes, and so is the string of a batch.  A handler is
    its two methods on a state of its own; a call that fails stops the program. *)
From Stdlib Require Import ZArith Lia Strings.String.
From Stdlib Require Sorted.
From stdpp Require Import base list numbers gmap option sorting.
From S2P Require Import Prelude LdbCoding LdbFormat LdbSkip LdbArena LdbMemTable.

Open Scope Z_scope.

#[local] Arguments ztake : simpl never.
#[local] Arguments zdrop : simpl never.
#[local] Arguments zlen : simpl never.

(** include/leveldb/status.h: the codes, with the text of a corruption. *)
Inductive Status := OK | NotFound | CorruptionStatus (msg : string) | IOError.

Definition status_ok (s : Status) : bool := match s with OK => true | _ => false end.

(** * The code *)

Section Code.
Context {P : Port}.

Definition kHeader : Z := 12.

Definition WriteBatch : Type := list Z.

Definition Clear : WriteBatch := zrep kHeader 0.

Definition ApproximateSize (b : WriteBatch) : Z := zlen b.

(** An [int] that is assigned 32 bits. *)
Definition to_int (n : Z) : Z := if n <? 2 ^ 31 then n else n - 2 ^ 32.

Definition Count (b : WriteBatch) : Z := to_int (DecodeFixed32 (zdrop 8 b)).

Definition SetCount (b : WriteBatch) (n : Z) : WriteBatch := ztake 8 b ++ EncodeFixed32 (u32 n) ++ zdrop 12 b.

Definition Sequence (b : WriteBatch) : Z := DecodeFixed64 b.

Definition SetSequence (b : WriteBatch) (seq : Z) : WriteBatch := EncodeFixed64 seq ++ zdrop 8 b.

Definition Put (key value : list Z) (b : WriteBatch) : WriteBatch :=
  let b := SetCount b (Count b + 1) in
  let b := b ++ [type_byte kTypeValue] in
  let b := PutLengthPrefixedSlice b key in
  PutLengthPrefixedSlice b value.

Definition Delete (key : list Z) (b : WriteBatch) : WriteBatch :=
  let b := SetCount b (Count b + 1) in
  let b := b ++ [type_byte kTypeDeletion] in
  PutLengthPrefixedSlice b key.

(** [WriteBatchInternal::Append]; the assertion is that the source has a header. *)
Definition Append (dst src : WriteBatch) : option WriteBatch :=
  let dst := SetCount dst (Count dst + Count src) in
  if negb (kHeader <=? zlen src) then None else Some (dst ++ zdrop kHeader src).

Definition Contents (b : WriteBatch) : list Z := b.
Definition ByteSize (b : WriteBatch) : Z := zlen b.

Definition SetContents (contents : list Z) : option WriteBatch := if negb (kHeader <=? zlen contents) then None else Some contents.

(** [WriteBatch::Handler]. *)
Record Handler (E S : Type) := { handle_Put : list Z -> list Z -> S -> E + S; handle_Delete : list Z -> S -> E + S }.
Arguments handle_Put {E S} _ _ _ _.
Arguments handle_Delete {E S} _ _ _.

Fixpoint Iterate_loop {E S} (handler : Handler E S) (fuel : nat) (input : list Z) (found : Z) (st : S) : E + Status * Z * S :=
  match fuel, input with
  | _, [] => inr (OK, found, st)
  | O, _ => inr (OK, found, st)
  | Datatypes.S fuel, tag :: input =>
    let found := found + 1 in
    if tag =? type_byte kTypeValue then
      match GetLengthPrefixedSlice input with
      | (None, _) => inr (CorruptionStatus "bad WriteBatch Put", found, st)
      | (Some key, input) =>
        match GetLengthPrefixedSlice input with
        | (None, _) => inr (CorruptionStatus "bad WriteBatch Put", found, st)
        | (Some value, input) =>
          match handle_Put handler key value st with
          | inl e => inl e
          | inr st => Iterate_loop handler fuel input found st
          end
        end
      end
    else if tag =? type_byte kTypeDeletion then
      match GetLengthPrefixedSlice input with
      | (None, _) => inr (CorruptionStatus "bad WriteBatch Delete", found, st)
      | (Some key, input) =>
        match handle_Delete handler key st with
        | inl e => inl e
        | inr st => Iterate_loop handler fuel input found st
        end
      end
    else inr (CorruptionStatus "unknown WriteBatch tag", found, st)
  end.

(** Every round takes a byte at least. *)
Definition Iterate {E S} (handler : Handler E S) (b : WriteBatch) (st : S) : E + Status * S :=
  if zlen b <? kHeader then inr (CorruptionStatus "malformed WriteBatch (too small)", st)
  else
    let input := zdrop kHeader b in
    match Iterate_loop handler (length input) input 0 st with
    | inl e => inl e
    | inr (OK, found, st) =>
      if negb (found =? Count b) then inr (CorruptionStatus "WriteBatch has wrong count", st) else inr (OK, st)
    | inr (s, found, st) => inr (s, st)
    end.

(** ** MemTableInserter *)

Context {C : Comparator} {L : ComparatorLaws C} {H : Heap} {AR : Arena (list Z)}.

Definition insert_write (type : ValueType) (key value : list Z) (st : Z * MemTable) : failure + Z * MemTable :=
  let '(sequence, mem) := st in
  match Add sequence type key value mem with
  | inl e => inl e
  | inr mem => inr (u64 (sequence + 1), mem)
  end.

Definition MemTableInserter : Handler failure (Z * MemTable) :=
  {| handle_Put := insert_write kTypeValue; handle_Delete key := insert_write kTypeDeletion key [] |}.

Definition InsertInto (b : WriteBatch) (memtable : MemTable) : failure + Status * MemTable :=
  match Iterate MemTableInserter b (Sequence b, memtable) with
  | inl e => inl e
  | inr (s, (_, memtable)) => inr (s, memtable)
  end.
End Code.

(** * The writes of a batch *)

Inductive update := UPut (key value : list Z) | UDelete (key : list Z).

Definition apply_update {P : Port} (u : update) (b : WriteBatch) : WriteBatch :=
  match u with UPut k v => Put k v b | UDelete k => Delete k b end.

(** A batch that was cleared and given these writes. *)
Definition build {P : Port} (us : list update) : WriteBatch := foldl (fun b u => apply_update u b) Clear us.

Definition update_bytes (u : update) : list Z :=
  match u with
  | UPut k v => type_byte kTypeValue :: PutLengthPrefixedSlice [] k ++ PutLengthPrefixedSlice [] v
  | UDelete k => type_byte kTypeDeletion :: PutLengthPrefixedSlice [] k
  end.

(** The string of a batch, as the comment at the top of write_batch.cc has it. *)
Definition batch_bytes {P : Port} (seq : Z) (us : list update) : list Z :=
  EncodeFixed64 seq ++ EncodeFixed32 (zlen us) ++ concat (map update_bytes us).

Definition update_ok (u : update) : Prop :=
  match u with
  | UPut k v => (bytes_ok k /\ zlen k < 2 ^ 32) /\ bytes_ok v /\ zlen v < 2 ^ 32
  | UDelete k => bytes_ok k /\ zlen k < 2 ^ 32
  end.

(** What a handler is told. *)
Definition tell {E S} (h : Handler E S) (u : update) (st : S) : E + S :=
  match u with UPut k v => handle_Put _ _ h k v st | UDelete k => handle_Delete _ _ h k st end.

Fixpoint tell_all {E S} (h : Handler E S) (us : list update) (st : S) : E + S :=
  match us with
  | [] => inr st
  | u :: us => match tell h u st with inl e => inl e | inr st => tell_all h us st end
  end.

Section Proofs.
Context {P : Port}.
Implicit Types (us : list update) (u : update) (b : WriteBatch).

Lemma update_bytes_ok u : update_ok u -> bytes_ok (update_bytes u).
Proof.
  destruct u as [k v|k]; cbn [update_ok update_bytes type_byte]; [intros [[Hk Hlk] [Hv Hlv]]|intros [Hk Hlk]].
  - apply bytes_ok_cons. split; [unfold byte_ok; lia|]. apply bytes_ok_app. split; apply PutLengthPrefixedSlice_ok; assumption.
  - apply bytes_ok_cons. split; [unfold byte_ok; lia|]. apply PutLengthPrefixedSlice_ok; assumption.
Qed.

Lemma updates_bytes_ok us : Forall update_ok us -> bytes_ok (concat (map update_bytes us)).
Proof.
  induction 1 as [|u us Hu Hus IH]; [constructor|]. cbn [map concat]. apply bytes_ok_app. split; [apply update_bytes_ok, Hu|exact IH].
Qed.

(** The three parts of a batch. *)
Lemma batch_parts (h t : list Z) : zlen h = 8 -> forall c : list Z, zlen c = 4 ->
  ztake 8 (h ++ c ++ t) = h /\ zdrop 8 (h ++ c ++ t) = c ++ t /\ zdrop 12 (h ++ c ++ t) = t.
Proof.
  intros Hh c Hc. split; [apply ztake_app_eq; exact (eq_sym Hh)|]. split; [apply zdrop_app_eq; exact (eq_sym Hh)|].
  rewrite app_assoc. apply zdrop_app_eq. rewrite zlen_app. lia.
Qed.

Lemma batch_count seq us : Forall update_ok us -> zlen us < 2 ^ 31 -> Count (batch_bytes seq us) = zlen us.
Proof.
  intros Hus Hn. pose proof (zlen_nonneg us). unfold Count, batch_bytes.
  destruct (batch_parts (EncodeFixed64 seq) (concat (map update_bytes us)) (zlen_EncodeFixed64 _) (EncodeFixed32 (zlen us)) (zlen_EncodeFixed32 _)) as (_ & -> & _).
  rewrite DecodeFixed32_Encode by (try lia; apply updates_bytes_ok, Hus). unfold to_int. destruct (Z.ltb_spec (zlen us) (2 ^ 31)); lia.
Qed.

Lemma batch_set_count seq us n : SetCount (batch_bytes seq us) n = EncodeFixed64 seq ++ EncodeFixed32 (u32 n) ++ concat (map update_bytes us).
Proof.
  unfold SetCount, batch_bytes.
  destruct (batch_parts (EncodeFixed64 seq) (concat (map update_bytes us)) (zlen_EncodeFixed64 _) (EncodeFixed32 (zlen us)) (zlen_EncodeFixed32 _)) as (-> & _ & ->).
  reflexivity.
Qed.

Lemma batch_sequence seq us : Forall update_ok us -> 0 <= seq < 2 ^ 64 -> Sequence (batch_bytes seq us) = seq.
Proof.
  intros Hus Hs. apply DecodeFixed64_Encode; [exact Hs|]. apply bytes_ok_app. split; [apply EncodeFixed32_ok|apply updates_bytes_ok, Hus].
Qed.

Lemma batch_set_sequence seq seq' us : SetSequence (batch_bytes seq us) seq' = batch_bytes seq' us.
Proof.
  unfold SetSequence, batch_bytes.
  destruct (batch_parts (EncodeFixed64 seq) (concat (map update_bytes us)) (zlen_EncodeFixed64 _) (EncodeFixed32 (zlen us)) (zlen_EncodeFixed32 _)) as (_ & -> & _).
  reflexivity.
Qed.

Lemma batch_Clear : Clear = batch_bytes 0 [].
Proof. unfold Clear, batch_bytes. destruct P as [[|]]; reflexivity. Qed.

Lemma concat_snoc us u : concat (map update_bytes (us ++ [u])) = concat (map update_bytes us) ++ update_bytes u.
Proof. rewrite map_app, concat_app. cbn [map concat]. rewrite app_nil_r. reflexivity. Qed.

Lemma batch_apply seq us u : Forall update_ok us -> zlen us + 1 < 2 ^ 31 -> apply_update u (batch_bytes seq us) = batch_bytes seq (us ++ [u]).
Proof.
  intros Hus Hn. pose proof (zlen_nonneg us).
  assert (Hc : SetCount (batch_bytes seq us) (Count (batch_bytes seq us) + 1) = EncodeFixed64 seq ++ EncodeFixed32 (zlen (us ++ [u])) ++ concat (map update_bytes us)).
  { rewrite batch_count by (auto; lia). rewrite batch_set_count, u32_small by lia. rewrite zlen_app. reflexivity. }
  unfold batch_bytes at 2. rewrite concat_snoc. destruct u as [k v|k]; cbn [apply_update]; unfold Put, Delete; cbv zeta; rewrite Hc.
  - rewrite PutLengthPrefixedSlice_app, (PutLengthPrefixedSlice_app _ k), <- !app_assoc. reflexivity.
  - rewrite PutLengthPrefixedSlice_app, <- !app_assoc. reflexivity.
Qed.

Lemma build_bytes us : Forall update_ok us -> zlen us < 2 ^ 31 -> build us = batch_bytes 0 us.
Proof.
  unfold build. rewrite batch_Clear. intros Hus Hn.
  enough (K : forall before, Forall update_ok before -> zlen (before ++ us) < 2 ^ 31 ->
    foldl (fun b u => apply_update u b) (batch_bytes 0 before) us = batch_bytes 0 (before ++ us)) by (apply (K []); [constructor|exact Hn]).
  clear Hn. induction Hus as [|u us Hu Hus IH]; intros before Hb Hn; cbn [foldl]; [rewrite app_nil_r; reflexivity|].
  pose proof (zlen_nonneg us). rewrite zlen_app, zlen_cons in Hn. rewrite batch_apply by (auto; lia). rewrite IH; [rewrite <- app_assoc; reflexivity| |].
  - apply Forall_app. auto.
  - rewrite !zlen_app, zlen_cons. change (zlen (@nil update)) with 0. lia.
Qed.

Lemma batch_append seq seq' us vs : Forall update_ok us -> Forall update_ok vs -> zlen us + zlen vs < 2 ^ 31 ->
  Append (batch_bytes seq us) (batch_bytes seq' vs) = Some (batch_bytes seq (us ++ vs)).
Proof.
  intros Hus Hvs Hn. pose proof (zlen_nonneg us). pose proof (zlen_nonneg vs). unfold Append. cbv zeta.
  rewrite !batch_count by (auto; lia). rewrite batch_set_count, u32_small by lia.
  assert (Hl : 12 <= zlen (batch_bytes seq' vs)).
  { unfold batch_bytes. rewrite !zlen_app, zlen_EncodeFixed64, zlen_EncodeFixed32. pose proof (zlen_nonneg (concat (map update_bytes vs))). lia. }
  unfold kHeader. rewrite (proj2 (Z.leb_le _ _)) by exact Hl. cbn [negb]. unfold batch_bytes at 1.
  destruct (batch_parts (EncodeFixed64 seq') (concat (map update_bytes vs)) (zlen_EncodeFixed64 _) (EncodeFixed32 (zlen vs)) (zlen_EncodeFixed32 _)) as (_ & _ & ->).
  unfold batch_bytes. rewrite zlen_app, map_app, concat_app, <- !app_assoc. reflexivity.
Qed.

(** ** Iterating *)

Lemma Iterate_loop_updates {E S} (h : Handler E S) us : Forall update_ok us -> forall fuel found st, (length (concat (map update_bytes us)) <= fuel)%nat ->
  Iterate_loop h fuel (concat (map update_bytes us)) found st =
  match tell_all h us st with inl e => inl e | inr st => inr (OK, found + zlen us, st) end.
Proof.
  induction 1 as [|u us Hu Hus IH]; intros fuel found st Hf.
  - cbn [map concat tell_all]. change (zlen (@nil update)) with 0. rewrite Z.add_0_r. destruct fuel; reflexivity.
  - cbn [map concat] in *. pose proof (updates_bytes_ok us Hus) as Hr. rewrite zlen_cons.
    destruct fuel as [|fuel]; [destruct u; cbn in Hf; lia|]. rewrite length_app in Hf.
    destruct u as [k v|k]; cbn [update_bytes app update_ok length] in *; cbn [Iterate_loop].
    + destruct Hu as [[Hk Hlk] [Hv Hlv]]. change (type_byte kTypeValue =? type_byte kTypeValue) with true. cbv iota.
      rewrite <- app_assoc, GetLengthPrefixedSlice_Put; [|exact Hlk|exact Hk|apply bytes_ok_app; split; [apply PutLengthPrefixedSlice_ok; assumption|exact Hr]].
      rewrite GetLengthPrefixedSlice_Put by assumption. cbn [tell_all tell]. destruct (handle_Put _ _ h k v st) as [e|st']; [reflexivity|].
      rewrite IH by lia. replace (found + 1 + zlen us) with (found + (1 + zlen us)) by lia. reflexivity.
    + destruct Hu as [Hk Hlk]. change (type_byte kTypeDeletion =? type_byte kTypeValue) with false.
      change (type_byte kTypeDeletion =? type_byte kTypeDeletion) with true. cbv iota.
      rewrite GetLengthPrefixedSlice_Put by assumption. cbn [tell_all tell]. destruct (handle_Delete _ _ h k st) as [e|st']; [reflexivity|].
      rewrite IH by lia. replace (found + 1 + zlen us) with (found + (1 + zlen us)) by lia. reflexivity.
Qed.

Lemma Iterate_batch {E S} (h : Handler E S) seq us st : Forall update_ok us -> zlen us < 2 ^ 31 ->
  Iterate h (batch_bytes seq us) st = match tell_all h us st with inl e => inl e | inr st => inr (OK, st) end.
Proof.
  intros Hus Hn. unfold Iterate, kHeader.
  assert (Hl : 12 <= zlen (batch_bytes seq us)).
  { unfold batch_bytes. rewrite !zlen_app, zlen_EncodeFixed64, zlen_EncodeFixed32. pose proof (zlen_nonneg (concat (map update_bytes us))). lia. }
  rewrite (proj2 (Z.ltb_ge _ _)) by exact Hl. cbv zeta. rewrite batch_count by assumption. unfold batch_bytes.
  destruct (batch_parts (EncodeFixed64 seq) (concat (map update_bytes us)) (zlen_EncodeFixed64 _) (EncodeFixed32 (zlen us)) (zlen_EncodeFixed32 _)) as (_ & _ & ->).
  rewrite Iterate_loop_updates by (auto; lia). destruct (tell_all h us st); [reflexivity|]. rewrite Z.eqb_refl. reflexivity.
Qed.

(** Whatever the bytes are, a handler is told a list of writes that does not depend on
    it, and how the iteration ends does not either. *)
Lemma Iterate_loop_any fuel : forall (input : list Z) (found : Z), exists us s, forall E S (h : Handler E S) (st : S),
  Iterate_loop h fuel input found st = match tell_all h us st with inl e => inl e | inr st => inr (s, found + zlen us + (if status_ok s then 0 else 1), st) end.
Proof.
  assert (Done : forall (input : list Z) (found : Z), exists us s, forall E S (h : Handler E S) (st : S), inr (OK, found, st) =
    match tell_all h us st with inl e => inl e | inr st => inr (s, found + zlen us + (if status_ok s then 0 else 1), st) end).
  { intros _ found. exists [], OK. intros. cbn. rewrite !Z.add_0_r. reflexivity. }
  assert (Bad : forall (found : Z) m, exists us s, forall E S (h : Handler E S) (st : S), inr (CorruptionStatus m, found + 1, st) =
    match tell_all h us st with inl e => inl e | inr st => inr (s, found + zlen us + (if status_ok s then 0 else 1), st) end).
  { intros found m. exists [], (CorruptionStatus m). intros. cbn. rewrite !Z.add_0_r. reflexivity. }
  induction fuel as [|fuel IH]; intros input found; [destruct input; apply (Done [])|]. destruct input as [|tag input]; [apply (Done [])|].
  cbn [Iterate_loop].
  assert (Step : forall u (rest : list Z), exists us s, forall E S (h : Handler E S) (st : S),
    match tell h u st with inl e => inl e | inr st => Iterate_loop h fuel rest (found + 1) st end =
    match tell_all h us st with inl e => inl e | inr st => inr (s, found + zlen us + (if status_ok s then 0 else 1), st) end).
  { intros u rest. destruct (IH rest (found + 1)) as (us & s & Hus). exists (u :: us), s. intros E S h st. cbn [tell_all].
    destruct (tell h u st) as [e|st']; [reflexivity|]. rewrite Hus, zlen_cons.
    replace (found + 1 + zlen us) with (found + (1 + zlen us)) by lia. reflexivity. }
  destruct (tag =? type_byte kTypeValue).
  - destruct (GetLengthPrefixedSlice input) as [[k|] input1]; [|apply Bad]. destruct (GetLengthPrefixedSlice input1) as [[v|] input2]; [|apply Bad].
    exact (Step (UPut k v) input2).
  - destruct (tag =? type_byte kTypeDeletion); [|apply Bad]. destruct (GetLengthPrefixedSlice input) as [[k|] input1]; [|apply Bad].
    exact (Step (UDelete k) input1).
Qed.
End Proofs.


(** ** Into a memtable *)

(** The writes of a batch with their numbers. *)
Fixpoint number_from (seq : Z) (us : list update) : list op :=
  match us with
  | [] => []
  | UPut k v :: us => mkOp seq kTypeValue k v :: number_from (seq + 1) us
  | UDelete k :: us => mkOp seq kTypeDeletion k [] :: number_from (seq + 1) us
  end.

Section Inserting.
Context {P : Port} {C : Comparator} {L : ComparatorLaws C} {H : Heap} {AR : Arena (list Z)}.

Lemma tell_all_insert (us : list update) : forall seq mem, 0 <= seq -> seq + zlen us < 2 ^ 64 ->
  tell_all MemTableInserter us (seq, mem) =
  match add_all (number_from seq us) (inr mem) with inl e => inl e | inr mem => inr (seq + zlen us, mem) end.
Proof.
  induction us as [|u us IH]; intros seq mem Hs Hn.
  - cbn. change (zlen (@nil update)) with 0. rewrite Z.add_0_r. reflexivity.
  - rewrite zlen_cons in *. pose proof (zlen_nonneg us). cbn [tell_all].
    destruct u as [k v|k]; cbn [tell MemTableInserter handle_Put handle_Delete insert_write number_from add_all foldl op_seq op_type op_key op_value];
      (destruct (Add seq _ k _ mem) as [e|mem1]; [fold (add_all (number_from (seq + 1) us) (inl e)); rewrite add_all_fails; reflexivity|]);
      rewrite u64_small by lia; rewrite IH by lia; fold (add_all (number_from (seq + 1) us) (inr mem1));
      replace (seq + 1 + zlen us) with (seq + (1 + zlen us)) by lia; reflexivity.
Qed.

Lemma InsertInto_batch seq (us : list update) mem : Forall update_ok us -> zlen us < 2 ^ 31 -> 0 <= seq -> seq + zlen us < 2 ^ 64 ->
  InsertInto (batch_bytes seq us) mem =
  match add_all (number_from seq us) (inr mem) with inl e => inl e | inr mem => inr (OK, mem) end.
Proof.
  intros Hus Hn Hs Hs'. pose proof (zlen_nonneg us). unfold InsertInto. rewrite batch_sequence by (auto; lia).
  rewrite Iterate_batch by assumption. rewrite tell_all_insert by assumption. destruct (add_all _ _); reflexivity.
Qed.

Lemma number_from_app seq (us vs : list update) : number_from seq (us ++ vs) = number_from seq us ++ number_from (seq + zlen us) vs.
Proof.
  revert seq. induction us as [|u us IH]; intros seq; [change (zlen (@nil update)) with 0; rewrite Z.add_0_r; reflexivity|].
  rewrite zlen_cons. replace (seq + (1 + zlen us)) with (seq + 1 + zlen us) by lia.
  destruct u; cbn [app number_from]; rewrite IH; reflexivity.
Qed.

Lemma number_from_seq (us : list update) : forall seq, Forall (fun o => seq <= op_seq o < seq + zlen us) (number_from seq us) /\ NoDup (map op_seq (number_from seq us)).
Proof.
  induction us as [|u us IH]; intros seq; [split; constructor|]. destruct (IH (seq + 1)) as [H1 H2]. rewrite zlen_cons. pose proof (zlen_nonneg us).
  assert (K : Forall (fun o => seq <= op_seq o < seq + (1 + zlen us)) (number_from (seq + 1) us)) by (eapply Forall_impl; [exact H1|]; cbn; lia).
  assert (Hn : seq ∉ map op_seq (number_from (seq + 1) us)).
  { intros Hin. apply list_elem_of_fmap in Hin as (o & Eo & Ho). rewrite Forall_forall in H1. specialize (H1 o Ho). cbn in H1. lia. }
  destruct u; cbn [number_from map op_seq]; (split; [constructor; [cbn; lia|exact K]|constructor; [exact Hn|exact H2]]).
Qed.

(** A write that may be logged: its key is one the comparator knows. *)
Definition write_ok (u : update) : Prop :=
  match u with
  | UPut k v => key_ok k /\ (bytes_ok k /\ zlen k + 8 < 2 ^ 32) /\ bytes_ok v /\ zlen v < 2 ^ 32
  | UDelete k => key_ok k /\ bytes_ok k /\ zlen k + 8 < 2 ^ 32
  end.

Lemma write_update_ok u : write_ok u -> update_ok u.
Proof. destruct u; cbn; intuition lia. Qed.

Lemma number_from_ok (us : list update) : forall seq, Forall write_ok us -> 0 <= seq -> seq + zlen us <= kMaxSequenceNumber + 1 ->
  Forall op_ok (number_from seq us).
Proof.
  induction us as [|u us IH]; intros seq Hus Hs Hn; [constructor|]. apply List.Forall_cons_iff in Hus as [Hu Hus]. rewrite zlen_cons in Hn.
  pose proof (zlen_nonneg us).
  destruct u as [k v|k]; cbn [number_from write_ok] in *; (constructor; [|apply IH; auto; lia]); constructor; cbn; intuition (try lia).
  all: try constructor. all: change (zlen (@nil Z)) with 0; lia.
Qed.
End Inserting.

