(* ===== verification/LdbDb.v ===== *)
(** leveldb/db/db_impl.cc: writing to the database and recovering a log.

    Writers queue up; the one at the front logs a group of them with one record, adds
    it to the memtable and answers them all.  While it does, the lock is released
    and others queue up behind.  The path is modelled up to where the memtable is
    full: making a new one and writing tables is not, and neither is reading them. *)
From Stdlib Require Import ZArith Lia Strings.String.
From Stdlib Require Sorted.
From stdpp Require Import base list numbers gmap option sorting.
From S2P Require Import Prelude LdbCoding LdbCrc LdbLog LdbFormat LdbSkip LdbArena LdbMemTable LdbBatch.

Open Scope Z_scope.

#[local] Arguments ztake : simpl never.
#[local] Arguments zdrop : simpl never.
#[local] Arguments zlen : simpl never.

(** [WritableFile::Sync] of env.h: what was appended will survive a crash. *)
Class SyncFile (F : Type) := { file_Sync : F -> bool * F }.
Class SyncFileLaws (F : Type) {W : WritableFile F} {WL : WritableFileLaws F} {SY : SyncFile F} := {
  Sync_contents : forall f, contents (snd (file_Sync f)) = contents f }.

(** The options that matter here. *)
Record Options := { write_buffer_size : Z; paranoid_checks : bool; reuse_logs : bool }.

(** [DBImpl::Writer]: the writes its caller put into its batch, none for a compaction. *)
Record DbWriter := mkDbWriter { w_updates : option (list update); w_sync : bool }.

(** Where the writer at the front of the queue is. *)
Inductive stage := Logging | Syncing | Inserting | Finishing.

(** * The code *)

Section Writing.
Context {P : Port} {C : Comparator} {L : ComparatorLaws C} {H : Heap} {AR : Arena (list Z)} {A : Address}
  {F : Type} {W : WritableFile F} {SY : SyncFile F}.

Definition w_batch (w : DbWriter) : option WriteBatch := build <$> w_updates w.

(** The variables of [Write] after the group is built: the batch and whether it is
    [tmp_batch_], the number of the last write, the length of the group, ... *)
Record inflight := mkInflight {
  fl_updates : option (WriteBatch * bool);
  fl_last_sequence : Z;
  fl_group : nat;
  fl_sync : bool;
  fl_status : Status;
  fl_sync_error : bool;
  fl_stage : stage }.

(** The answers are the statuses of the writers that are done. *)
Record Db := mkDb {
  log_ : Writer F;
  mem_ : MemTable;
  imm_ : option MemTable;
  last_sequence_ : Z;
  tmp_batch_ : WriteBatch;
  bg_error_ : Status;
  writers_ : list DbWriter;
  current_ : option inflight;
  answers_ : list (DbWriter * Status) }.

(** [DB::Open] of a new database, with the file of its log. *)
Definition Open_new (lfile : F) : failure + Db :=
  match new_MemTable with
  | inl e => inl e
  | inr m => inr (mkDb (new_Writer lfile) (Ref m) None 0 Clear OK [] None [])
  end.

(** [None] where it waits for a compaction or makes a new memtable.  The delay for a
    full level 0 has no effect but time. *)
Definition MakeRoomForWrite (o : Options) (force : bool) (db : Db) : option Status :=
  if negb (status_ok (bg_error_ db)) then Some (bg_error_ db)
  else if negb force && (ApproximateMemoryUsage (mem_ db) <=? write_buffer_size o) then Some OK
  else None.

(** The loop of [BuildBatchGroup] over the writers after the first: the batch, whether
    it is [tmp_batch_], and the length of the group. *)
Fixpoint group_loop (first : DbWriter) (first_batch : WriteBatch) (tmp : WriteBatch) (iter : list DbWriter)
    (size max_size : Z) (result : WriteBatch) (is_tmp : bool) (n : nat) : option (WriteBatch * bool * nat) :=
  match iter with
  | [] => Some (result, is_tmp, n)
  | w :: iter =>
    if w_sync w && negb (w_sync first) then Some (result, is_tmp, n)
    else
      match w_batch w with
      | None => group_loop first first_batch tmp iter size max_size result is_tmp (S n)
      | Some batch =>
        let size := u64 (size + ByteSize batch) in
        if max_size <? size then Some (result, is_tmp, n)
        else
          result ← (if is_tmp then Some result
                    else if negb (Count tmp =? 0) then None else Append tmp first_batch);
          result ← Append result batch;
          group_loop first first_batch tmp iter size max_size result true (S n)
      end
  end.

Definition BuildBatchGroup (first : DbWriter) (first_batch : WriteBatch) (rest : list DbWriter) (tmp : WriteBatch) : option (WriteBatch * bool * nat) :=
  let size := ByteSize first_batch in
  let max_size := if size <=? Z.shiftl 128 10 then size + Z.shiftl 128 10 else Z.shiftl 1 20 in
  group_loop first first_batch tmp rest size max_size first_batch false 1.

(** A thread calls [Write]. *)
Definition Write_enqueue (w : DbWriter) (db : Db) : Db :=
  mkDb (log_ db) (mem_ db) (imm_ db) (last_sequence_ db) (tmp_batch_ db) (bg_error_ db) (writers_ db ++ [w]) (current_ db) (answers_ db).

Definition set_current (c : option inflight) (db : Db) : Db :=
  mkDb (log_ db) (mem_ db) (imm_ db) (last_sequence_ db) (tmp_batch_ db) (bg_error_ db) (writers_ db) c (answers_ db).

(** The writer at the front, until it releases the lock. *)
Definition Write_begin (o : Options) (db : Db) : failure + option Db :=
  match current_ db, writers_ db with
  | None, w :: rest =>
    match MakeRoomForWrite o (match w_updates w with None => true | _ => false end) db with
    | None => inr None
    | Some status =>
      match status_ok status, w_batch w with
      | true, Some batch =>
        match BuildBatchGroup w batch rest (tmp_batch_ db) with
        | None => inl assertion
        | Some (updates, is_tmp, n) =>
          let updates := SetSequence updates (u64 (last_sequence_ db + 1)) in
          let last_sequence := u64 (last_sequence_ db + Count updates) in
          let db := set_current (Some (mkInflight (Some (updates, is_tmp)) last_sequence n (w_sync w) status false Logging)) db in
          inr (Some (if is_tmp then mkDb (log_ db) (mem_ db) (imm_ db) (last_sequence_ db) updates (bg_error_ db) (writers_ db) (current_ db) (answers_ db) else db))
        end
      | _, _ => inr (Some (set_current (Some (mkInflight None (last_sequence_ db) 1 (w_sync w) status false Finishing)) db))
      end
    end
  | _, _ => inr None
  end.

Definition RecordBackgroundError (s : Status) (bg_error : Status) : Status := if status_ok bg_error then s else bg_error.

Definition set_stage (s : Status) (sync_error : bool) (st : stage) (c : inflight) : inflight :=
  mkInflight (fl_updates c) (fl_last_sequence c) (fl_group c) (fl_sync c) s sync_error st.

(** The next of its steps: the log, the disk, the memtable, the answers. *)
Definition Write_step (c : inflight) (db : Db) : failure + Db :=
  match fl_stage c, fl_updates c with
  | Logging, Some (updates, _) =>
    let '(ok, log) := AddRecord (Contents updates) (log_ db) in
    let status := if (ok : bool) then OK else IOError in
    inr (mkDb log (mem_ db) (imm_ db) (last_sequence_ db) (tmp_batch_ db) (bg_error_ db) (writers_ db)
           (Some (set_stage status false Syncing c)) (answers_ db))
  | Syncing, Some _ =>
    if status_ok (fl_status c) && fl_sync c then
      let '(ok, f) := file_Sync (dest_ (log_ db)) in
      let log := {| dest_ := f; block_offset_ := block_offset_ (log_ db); type_crc_ := type_crc_ (log_ db) |} in
      inr (mkDb log (mem_ db) (imm_ db) (last_sequence_ db) (tmp_batch_ db) (bg_error_ db) (writers_ db)
             (Some (if (ok : bool) then set_stage OK false Inserting c else set_stage IOError true Inserting c)) (answers_ db))
    else inr (set_current (Some (set_stage (fl_status c) false Inserting c)) db)
  | Inserting, Some (updates, _) =>
    if status_ok (fl_status c) then
      match InsertInto updates (mem_ db) with
      | inl e => inl e
      | inr (status, mem) =>
        inr (mkDb (log_ db) mem (imm_ db) (last_sequence_ db) (tmp_batch_ db) (bg_error_ db) (writers_ db)
               (Some (set_stage status (fl_sync_error c) Finishing c)) (answers_ db))
      end
    else inr (set_current (Some (set_stage (fl_status c) (fl_sync_error c) Finishing c)) db)
  | _, _ =>
    let bg_error := if fl_sync_error c then RecordBackgroundError (fl_status c) (bg_error_ db) else bg_error_ db in
    let tmp := match fl_updates c with Some (_, true) => Clear | _ => tmp_batch_ db end in
    inr (mkDb (log_ db) (mem_ db) (imm_ db) (fl_last_sequence c) tmp bg_error (skipn (fl_group c) (writers_ db)) None
           (answers_ db ++ map (fun w => (w, fl_status c)) (firstn (fl_group c) (writers_ db))))
  end.

(** [DBImpl::Get] until it goes on to the tables. *)
Definition Db_Get (snapshot : option Z) (key : list Z) (db : Db) : option found :=
  let snapshot := default (last_sequence_ db) snapshot in
  let lkey := new_LookupKey key snapshot in
  r ← Get lkey (mem_ db);
  match r, imm_ db with
  | Absent, Some imm => Get lkey imm
  | _, _ => Some r
  end.
End Writing.
Arguments Db : clear implicits.

(** What a recovery gives: the status, the memtable and the last number, or where it
    goes on to write the memtable to a table. *)
Inductive recovery := Recovered (status : Status) (mem : option MemTable) (max_sequence : Z) | TableNeeded (mem : MemTable) (max_sequence : Z).

Section Recovering.
Context {P : Port} {C : Comparator} {L : ComparatorLaws C} {H : Heap} {AR : Arena (list Z)} {A : Address}
  {G : Type} {SF : SequentialFile G}.

Definition MaybeIgnoreError (o : Options) (s : Status) : Status := if status_ok s || paranoid_checks o then s else OK.

Definition reason_status (why : reason) : Status :=
  match why with
  | LdbLog.Corruption text => CorruptionStatus text
  | FileStatus => IOError
  | UnknownType _ => CorruptionStatus "unknown record type"
  end.

(** [*reporter.status] after what the reader has reported. *)
Definition reported (o : Options) (r : Reader G) (status : Status) : Status :=
  if paranoid_checks o && status_ok status then
    match reporter_ r with Some ((_, why) :: _) => reason_status why | _ => status end
  else status.

Definition report (bytes : Z) (text : string) (r : Reader G) : Reader G :=
  set_reporter (match reporter_ r with Some l => Some (l ++ [(bytes, LdbLog.Corruption text)]) | None => None end) r.

(** The loop of [RecoverLogFile]; the second fuel is that of the reader.
    [None] means that one of them has run out. *)
Fixpoint recover_loop (o : Options) (fuel fuel' : nat) (r : Reader G) (status : Status) (mem : option MemTable) (max_sequence : Z) : option (failure + recovery) :=
  match fuel with
  | O => None
  | S fuel =>
    match ReadRecord fuel' r with
    | None => None
    | Some (None, r) => Some (inr (Recovered (reported o r status) mem max_sequence))
    | Some (Some record, r) =>
      let status := reported o r status in
      if negb (status_ok status) then Some (inr (Recovered status mem max_sequence))
      else if zlen record <? 12 then
        let r := report (zlen record) "log record too small" r in
        recover_loop o fuel fuel' r (reported o r status) mem max_sequence
      else
        match SetContents record with
        | None => Some (inl assertion)
        | Some batch =>
          match (match mem with Some m => inr m | None => match new_MemTable with inl e => inl e | inr m => inr (Ref m) end end) with
          | inl e => Some (inl e)
          | inr m =>
            match InsertInto batch m with
            | inl e => Some (inl e)
            | inr (status, m) =>
              let status := MaybeIgnoreError o status in
              if negb (status_ok status) then Some (inr (Recovered status (Some m) max_sequence))
              else
                let last_seq := u64 (Sequence batch + Count batch - 1) in
                let max_sequence := if max_sequence <? last_seq then last_seq else max_sequence in
                if write_buffer_size o <? ApproximateMemoryUsage m then Some (inr (TableNeeded m max_sequence))
                else recover_loop o fuel fuel' r status (Some m) max_sequence
            end
          end
        end
    end
  end.

Definition log_reader (g : G) : Reader G := new_Reader g (Some []) true 0.

(** [RecoverLogFile] from the open file on, with a log that is to be reused if there is
    one: the file to append to, of the length [lfile_size]. *)
Definition RecoverLogFile {F : Type} (o : Options) (fuel fuel' : nat) (g : G) (last_log : bool) (logfile : F) (lfile_size : Z)
    (max_sequence : Z) : option (failure + recovery * option (Writer F)) :=
  match recover_loop o fuel fuel' (log_reader g) OK None max_sequence with
  | None => None
  | Some (inl e) => Some (inl e)
  | Some (inr (TableNeeded m max_sequence)) => Some (inr (TableNeeded m max_sequence, None))
  | Some (inr (Recovered status mem max_sequence)) => Some (
    if status_ok status && reuse_logs o && last_log then
      match mem with
      | Some m => inr (Recovered status mem max_sequence, Some (new_Writer_at logfile lfile_size))
      | None =>
        match new_MemTable with
        | inl e => inl e
        | inr m => inr (Recovered status (Some (Ref m)) max_sequence, Some (new_Writer_at logfile lfile_size))
        end
      end
    else
      match mem with
      | Some m => if status_ok status then inr (TableNeeded m max_sequence, None) else inr (Recovered status None max_sequence, None)
      | None => inr (Recovered status None max_sequence, None)
      end)
  end.
End Recovering.

(** * What was written *)

Definition updates_of (w : DbWriter) : list update := match w_updates w with Some us => us | None => [] end.

(** The writes of some writers, in order. *)
Definition writes (ws : list DbWriter) : list update := concat (map updates_of ws).

Definition answered (ok : bool) (l : list (DbWriter * Status)) : list DbWriter :=
  map fst (List.filter (fun a : DbWriter * Status => Bool.eqb (status_ok (snd a)) ok) l).

(** The writers that were told that all went well, and those that were not. *)
Definition acked {F} (db : Db F) : list DbWriter := answered true (answers_ db).
Definition refused {F} (db : Db F) : list DbWriter := answered false (answers_ db).

Lemma writes_app (a b : list DbWriter) : writes (a ++ b) = writes a ++ writes b.
Proof. unfold writes. rewrite map_app, concat_app. reflexivity. Qed.

Lemma writes_cons w (ws : list DbWriter) : writes (w :: ws) = updates_of w ++ writes ws.
Proof. reflexivity. Qed.

Lemma zlen_writes_app (a b : list DbWriter) : zlen (writes (a ++ b)) = zlen (writes a) + zlen (writes b).
Proof. rewrite writes_app, zlen_app. reflexivity. Qed.

Lemma writes_concat (gs : list (list DbWriter)) : concat (map writes gs) = writes (concat gs).
Proof. induction gs as [|g gs IH]; [reflexivity|]. cbn [map concat]. rewrite IH, writes_app. reflexivity. Qed.

Lemma concat_last {X} (a : list (list X)) (g : list X) : concat (a ++ [g]) = concat a ++ g.
Proof. rewrite concat_app. cbn [concat]. rewrite app_nil_r. reflexivity. Qed.

(** What a sequence of writes leaves of a key. *)
Definition update_key (u : update) : list Z := match u with UPut k _ => k | UDelete k => k end.
Definition update_found (u : update) : found := match u with UPut _ v => Value v | UDelete _ => Deleted end.
Definition latest {C : Comparator} (k : list Z) (us : list update) : found :=
  foldl (fun r u => if Compare (update_key u) k =? 0 then update_found u else r) Absent us.

(** The records of the groups, each with the number of its first write. *)
Fixpoint records_from {P : Port} (seq : Z) (hist : list (list update)) : list (list Z) :=
  match hist with
  | [] => []
  | us :: hist => batch_bytes seq us :: records_from (seq + zlen us) hist
  end.

Lemma records_from_app {P : Port} (h1 h2 : list (list update)) : forall seq,
  records_from seq (h1 ++ h2) = records_from seq h1 ++ records_from (seq + zlen (concat h1)) h2.
Proof.
  induction h1 as [|us h1 IH]; intros seq; [change (zlen (concat (@nil (list update)))) with 0; rewrite Z.add_0_r; reflexivity|].
  cbn [app records_from concat]. rewrite IH, zlen_app. replace (seq + zlen us + zlen (concat h1)) with (seq + (zlen us + zlen (concat h1))) by lia. reflexivity.
Qed.

Lemma visible_app {C : Comparator} u s (a b : list op) : Forall (fun o => s < op_seq o) b -> visible u s (a ++ b) = visible u s a.
Proof.
  intros Hb. unfold visible. rewrite foldr_app. fold (visible u s b). rewrite visible_None; [reflexivity|].
  eapply Forall_impl; [exact Hb|]. intros o Ho. unfold matches. rewrite (proj2 (Z.leb_gt _ _)) by exact Ho. apply andb_false_r.
Qed.

Lemma visible_snoc {C : Comparator} u s (a : list op) o : Forall (fun b => op_seq b < op_seq o) a ->
  visible u s (a ++ [o]) = if matches u s o then Some o else visible u s a.
Proof.
  intros Ha. unfold visible. rewrite foldr_app. cbn [foldr]. destruct (matches u s o) eqn:Eo; [|reflexivity].
  induction Ha as [|b a Hb Ha IH]; [reflexivity|]. cbn [foldr]. rewrite IH. destruct (matches u s b); [|reflexivity].
  rewrite (proj2 (Z.ltb_ge _ _)) by lia. reflexivity.
Qed.

(** At a snapshot that sees all the writes, the newest is the last. *)
Lemma visible_latest {C : Comparator} k s (us : list update) seq : seq + zlen us <= s + 1 ->
  outcome (visible k s (number_from seq us)) = latest k us.
Proof.
  induction us as [|u us IH] using rev_ind; intros Hs; [reflexivity|]. rewrite zlen_app in Hs. change (zlen [u]) with 1 in Hs.
  rewrite number_from_app. unfold latest. rewrite foldl_app. cbn [foldl]. fold (latest k us).
  destruct (number_from_seq us seq) as [Hr _].
  assert (Ho : exists o, number_from (seq + zlen us) [u] = [o] /\ op_seq o = seq + zlen us /\ op_key o = update_key u /\ outcome (Some o) = update_found u).
  { destruct u; eexists; (split; [reflexivity|split; [reflexivity|split; reflexivity]]). }
  destruct Ho as (o & -> & Es & Ek & Eo). rewrite visible_snoc by (eapply Forall_impl; [exact Hr|]; cbn; lia).
  unfold matches. rewrite Ek, Es, (proj2 (Z.leb_le _ _)) by lia. rewrite andb_true_r. destruct (Compare (update_key u) k =? 0); [exact Eo|].
  apply IH. lia.
Qed.

(** * The invariant of the database *)

Section Invariant.
Context {P : Port} {C : Comparator} {L : ComparatorLaws C} {H : Heap} {HL : HeapLaws H} {AR : Arena (list Z)} {A : Address}
  {F : Type} {W : WritableFile F} {WL : WritableFileLaws F} {R : ReliableFile F} {SY : SyncFile F} {SL : SyncFileLaws F}.
Implicit Types (db : Db F) (w : DbWriter) (us : list update) (g : list DbWriter) (gs hist lost : list (list DbWriter)) (c : inflight).

(** Writes that make a batch of less than a gigabyte. *)
Definition writer_ok w : Prop := Forall write_ok (updates_of w) /\ 12 + zlen (concat (map update_bytes (updates_of w))) < 2 ^ 30.

Definition in_group db c : list DbWriter := firstn (fl_group c) (writers_ db).

(** The group was built. *)
Record started db c (u : WriteBatch) (is_tmp : bool) g : Prop := {
  st_group : (fl_group c <= length (writers_ db))%nat;
  st_writers : g = in_group db c;
  st_batch : u = batch_bytes (last_sequence_ db + 1) (writes g);
  st_count : zlen (writes g) < 2 ^ 31;
  st_last : fl_last_sequence c = last_sequence_ db + zlen (writes g);
  st_tmp : is_tmp = false -> tmp_batch_ db = Clear;
  st_bg : status_ok (bg_error_ db) = true;
  st_refused : refused db = [];
  st_seq : last_sequence_ db = zlen (writes (acked db)) }.

(** After a background error: the log may have a group that was refused. *)
Definition broken db lost : Prop :=
  status_ok (bg_error_ db) = false /\ (exists more, refused db = concat lost ++ more) /\
  zlen (writes (acked db)) <= last_sequence_ db <= kMaxSequenceNumber.

Definition phase_ok db hist lost : Prop :=
  match current_ db with
  | None => tmp_batch_ db = Clear /\ concat hist = acked db /\
      (status_ok (bg_error_ db) = true /\ lost = [] /\ refused db = [] /\ last_sequence_ db = zlen (writes (acked db)) \/ broken db lost)
  | Some c =>
    match fl_updates c with
    | None => fl_stage c = Finishing /\ fl_group c = 1%nat /\ status_ok (fl_status c) = false /\ fl_sync_error c = false /\
        fl_last_sequence c = last_sequence_ db /\ tmp_batch_ db = Clear /\ concat hist = acked db /\ broken db lost
    | Some (u, is_tmp) => exists g, started db c u is_tmp g /\
        match fl_stage c with
        | Logging => lost = [] /\ concat hist = acked db
        | Syncing => lost = [g] /\ concat hist = acked db /\ fl_status c = OK
        | Inserting => lost = [g] /\ concat hist = acked db /\
            (fl_status c = OK /\ fl_sync_error c = false \/ status_ok (fl_status c) = false /\ fl_sync_error c = true)
        | Finishing =>
            fl_status c = OK /\ fl_sync_error c = false /\ lost = [] /\ (exists h0, hist = h0 ++ [g] /\ concat h0 = acked db) \/
            status_ok (fl_status c) = false /\ fl_sync_error c = true /\ lost = [g] /\ concat hist = acked db
        end
    end
  end.

(** The groups that are logged and in the memtable, and one that is only logged. *)
Record db_ok db hist lost : Prop := {
  dk_types : types_ok (log_ db);
  dk_offset : 0 <= block_offset_ (log_ db) <= LdbLog.kBlockSize;
  dk_log : logged 0 (records_from 1 (map writes (hist ++ lost))) (contents (dest_ (log_ db))) (block_offset_ (log_ db));
  dk_mem : holds (mem_ db) (number_from 1 (writes (concat hist)));
  dk_imm : imm_ db = None;
  dk_writes : Forall (fun g => Forall write_ok (writes g) /\ zlen (writes g) < 2 ^ 31) (hist ++ lost);
  dk_writers : Forall writer_ok (writers_ db);
  dk_size : zlen (writes (acked db)) + zlen (writes (refused db)) + zlen (writes (writers_ db)) < kMaxSequenceNumber;
  dk_phase : phase_ok db hist lost }.

(** How the log grew: by the records of more groups. *)
Definition grows db gs db' gs' : Prop := exists more extra, gs' = gs ++ more /\
  contents (dest_ (log_ db')) = contents (dest_ (log_ db)) ++ extra /\
  logged (block_offset_ (log_ db)) (records_from (1 + zlen (writes (concat gs))) (map writes more)) extra (block_offset_ (log_ db')).

Lemma grows_same db gs db' : contents (dest_ (log_ db')) = contents (dest_ (log_ db)) ->
  block_offset_ (log_ db') = block_offset_ (log_ db) -> grows db gs db' gs.
Proof. intros E1 E2. exists [], []. rewrite !app_nil_r, E1, E2. split_and!; [reflexivity|reflexivity|constructor]. Qed.

Lemma grows_trans db1 gs1 db2 gs2 db3 gs3 : grows db1 gs1 db2 gs2 -> grows db2 gs2 db3 gs3 -> grows db1 gs1 db3 gs3.
Proof.
  intros (m1 & x1 & -> & E1 & L1) (m2 & x2 & -> & E2 & L2). exists (m1 ++ m2), (x1 ++ x2).
  rewrite E2, E1, !app_assoc, map_app, records_from_app. split_and!; [reflexivity|reflexivity|]. eapply logged_app; [exact L1|].
  rewrite concat_app, zlen_writes_app in L2. rewrite writes_concat, <- Z.add_assoc. exact L2.
Qed.

(** ** The group *)

Lemma update_bytes_pos u : 1 <= zlen (update_bytes u).
Proof. destruct u; cbn [update_bytes]; rewrite zlen_cons; [pose proof (zlen_nonneg (PutLengthPrefixedSlice [] key ++ PutLengthPrefixedSlice [] value))|pose proof (zlen_nonneg (PutLengthPrefixedSlice [] key))]; lia. Qed.

Lemma zlen_batch_bytes seq us : zlen (batch_bytes seq us) = 12 + zlen (concat (map update_bytes us)).
Proof. unfold batch_bytes. rewrite !zlen_app, zlen_EncodeFixed64, zlen_EncodeFixed32. lia. Qed.

Lemma zlen_updates us : zlen us <= zlen (concat (map update_bytes us)).
Proof.
  induction us as [|u us IH]; [cbn; reflexivity|]. cbn [map concat]. rewrite zlen_cons, zlen_app. pose proof (update_bytes_pos u). lia.
Qed.

Lemma writes_updates_ok us : Forall write_ok us -> Forall update_ok us.
Proof. intros Hus. eapply Forall_impl; [exact Hus|]. intros u. apply write_update_ok. Qed.

Lemma writer_batch w us : writer_ok w -> w_updates w = Some us -> w_batch w = Some (batch_bytes 0 us) /\ Forall write_ok us /\
  zlen us < 2 ^ 30 /\ zlen (batch_bytes 0 us) < 2 ^ 30.
Proof.
  intros [Hw Hs] E. unfold updates_of in *. rewrite E in *. pose proof (zlen_updates us). unfold w_batch. rewrite E. cbn [fmap option_fmap option_map].
  rewrite build_bytes by (first [lia|apply writes_updates_ok, Hw]). rewrite zlen_batch_bytes. split; [reflexivity|]. split; [exact Hw|lia].
Qed.

Lemma Append_zero us vs : Forall write_ok us -> Forall write_ok vs -> zlen us + zlen vs < 2 ^ 31 ->
  Append (batch_bytes 0 us) (batch_bytes 0 vs) = Some (batch_bytes 0 (us ++ vs)).
Proof. intros Hus Hvs Hn. apply batch_append; auto using writes_updates_ok. Qed.

(** The group is that of some of the writers in order, from the first on. *)
Lemma group_loop_ok first us0 iter : Forall writer_ok iter -> Forall write_ok us0 -> zlen us0 < 2 ^ 30 ->
  forall size max_size us (is_tmp : bool) n,
  0 <= max_size < 2 ^ 30 -> zlen (batch_bytes 0 us) <= size < 2 ^ 30 -> Forall write_ok us -> (is_tmp = false -> us = us0) ->
  exists k (is_tmp' : bool), (k <= length iter)%nat /\
    let us' := us ++ writes (firstn k iter) in
    group_loop first (batch_bytes 0 us0) Clear iter size max_size (batch_bytes 0 us) is_tmp n = Some (batch_bytes 0 us', is_tmp', (n + k)%nat) /\
    Forall write_ok us' /\ zlen us' < 2 ^ 31.
Proof.
  intros Hiter Hus0 Hn0. induction Hiter as [|w iter Hw Hiter IH]; intros size max_size us is_tmp n Hmax Hsize Hus Htmp.
  - exists 0%nat, is_tmp. cbn. rewrite app_nil_r, Nat.add_0_r. pose proof (zlen_updates us). rewrite zlen_batch_bytes in Hsize. split_and!; auto; lia.
  - assert (Stop : exists k (is_tmp' : bool), (k <= length (w :: iter))%nat /\
      let us' := us ++ writes (firstn k (w :: iter)) in
      Some (batch_bytes 0 us, is_tmp, n) = Some (batch_bytes 0 us', is_tmp', (n + k)%nat) /\ Forall write_ok us' /\ zlen us' < 2 ^ 31).
    { exists 0%nat, is_tmp. cbn. rewrite app_nil_r, Nat.add_0_r. pose proof (zlen_updates us). rewrite zlen_batch_bytes in Hsize. split_and!; auto; lia. }
    cbn [group_loop]. destruct (w_sync w && negb (w_sync first)); [exact Stop|]. destruct (w_updates w) as [vs|] eqn:Ew.
    + destruct (writer_batch w vs Hw Ew) as (-> & Hvs & Hvn & Hvz). unfold ByteSize. pose proof (zlen_nonneg (batch_bytes 0 vs)). pose proof (zlen_nonneg (batch_bytes 0 us)).
      rewrite u64_small by lia. destruct (Z.ltb_spec max_size (size + zlen (batch_bytes 0 vs))) as [Hbig|Hfit]; [exact Stop|].
      assert (E1 : (if is_tmp then @Some WriteBatch (batch_bytes 0 us) else if negb (Count Clear =? 0) then None else Append Clear (batch_bytes 0 us0)) = @Some WriteBatch (batch_bytes 0 us)).
      { destruct is_tmp; [reflexivity|]. rewrite (Htmp eq_refl). rewrite batch_Clear, batch_count by (try constructor; reflexivity).
        change (zlen (@nil update) =? 0) with true. cbn [negb]. rewrite Append_zero by (try constructor; auto; change (zlen (@nil update)) with 0; lia). reflexivity. }
      rewrite E1. cbn [mbind option_bind]. pose proof (zlen_updates us). rewrite zlen_batch_bytes in Hsize.
      rewrite Append_zero by (auto; lia). cbn [mbind option_bind].
      destruct (IH (size + zlen (batch_bytes 0 vs)) max_size (us ++ vs) true (S n) Hmax) as (k & t' & Hk & Eg & Hok & Hlen).
      * rewrite zlen_batch_bytes, map_app, concat_app, zlen_app. rewrite zlen_batch_bytes in *. lia.
      * apply Forall_app. auto.
      * discriminate.
      * exists (S k), t'. split; [cbn; lia|]. cbn [firstn]. rewrite writes_cons. unfold updates_of. rewrite Ew.
        rewrite app_assoc. cbv zeta in *. rewrite Eg. replace (S n + k)%nat with (n + S k)%nat by lia. auto.
    + assert (Eb : w_batch w = None) by (unfold w_batch; rewrite Ew; reflexivity). rewrite Eb.
      destruct (IH size max_size us is_tmp (S n) Hmax Hsize Hus Htmp) as (k & t' & Hk & Eg & Hok & Hlen).
      exists (S k), t'. split; [cbn; lia|]. cbn [firstn]. rewrite writes_cons. unfold updates_of. rewrite Ew. cbn [app].
      cbv zeta in *. rewrite Eg. replace (S n + k)%nat with (n + S k)%nat by lia. auto.
Qed.

Lemma BuildBatchGroup_ok w us0 rest : writer_ok w -> w_updates w = Some us0 -> Forall writer_ok rest ->
  exists n (is_tmp : bool), (n <= length (w :: rest))%nat /\
    let us := writes (firstn n (w :: rest)) in
    BuildBatchGroup w (batch_bytes 0 us0) rest Clear = Some (batch_bytes 0 us, is_tmp, n) /\ Forall write_ok us /\ zlen us < 2 ^ 31.
Proof.
  intros Hw E Hrest. destruct (writer_batch w us0 Hw E) as (_ & Hus & Hn & Hz). unfold BuildBatchGroup, ByteSize. cbv zeta.
  set (max_size := if zlen (batch_bytes 0 us0) <=? Z.shiftl 128 10 then _ else _).
  assert (Hmax : 0 <= max_size < 2 ^ 30).
  { unfold max_size. change (Z.shiftl 128 10) with 131072. change (Z.shiftl 1 20) with 1048576. pose proof (zlen_nonneg (batch_bytes 0 us0)).
    destruct (Z.leb_spec (zlen (batch_bytes 0 us0)) 131072); lia. }
  assert (Hsz : zlen (batch_bytes 0 us0) <= zlen (batch_bytes 0 us0) < 2 ^ 30) by lia.
  destruct (group_loop_ok w us0 rest Hrest Hus Hn (zlen (batch_bytes 0 us0)) max_size us0 false 1 Hmax Hsz Hus (fun _ => eq_refl)) as (k & t & Hk & Eg & Hok & Hlen).
  exists (S k), t. split; [cbn; lia|]. cbn [firstn]. rewrite writes_cons. unfold updates_of. rewrite E. cbv zeta in *. rewrite Eg. auto.
Qed.

(** ** Every step *)

Inductive db_step (o : Options) : Db F -> Db F -> Prop :=
| step_enqueue db w : writer_ok w -> zlen (writes (acked db)) + zlen (writes (refused db)) + zlen (writes (writers_ db)) + zlen (updates_of w) < kMaxSequenceNumber ->
    db_step o db (Write_enqueue w db)
| step_begin db db' : Write_begin o db = inr (Some db') -> db_step o db db'
| step_go db c db' : current_ db = Some c -> Write_step c db = inr db' -> db_step o db db'.

Lemma batch_bytes_ok seq us : Forall update_ok us -> bytes_ok (batch_bytes seq us).
Proof.
  intros Hus. apply bytes_ok_app. split; [apply EncodeFixed64_ok|]. apply bytes_ok_app. split; [apply EncodeFixed32_ok|apply updates_bytes_ok, Hus].
Qed.

Lemma writes_enqueue db w : writes (writers_ (Write_enqueue w db)) = writes (writers_ db) ++ updates_of w.
Proof. cbn [writers_ Write_enqueue]. rewrite writes_app. unfold writes at 2. cbn [map concat]. rewrite app_nil_r. reflexivity. Qed.

Lemma writes_group db c : writes (writers_ db) = writes (in_group db c) ++ writes (skipn (fl_group c) (writers_ db)).
Proof. unfold in_group. rewrite <- writes_app, take_drop. reflexivity. Qed.

Lemma Write_enqueue_ok db hist lost w : db_ok db hist lost -> writer_ok w ->
  zlen (writes (acked db)) + zlen (writes (refused db)) + zlen (writes (writers_ db)) + zlen (updates_of w) < kMaxSequenceNumber -> db_ok (Write_enqueue w db) hist lost.
Proof.
  intros Hdb Hw Hsize. destruct Hdb. constructor; try assumption.
  - cbn. apply Forall_app. auto.
  - rewrite writes_enqueue, zlen_app. change (acked (Write_enqueue w db)) with (acked db). change (refused (Write_enqueue w db)) with (refused db). lia.
  - unfold phase_ok in *. cbn [Write_enqueue current_]. destruct (current_ db) as [c|]; [|exact dk_phase0].
    destruct (fl_updates c) as [[u t]|]; [|exact dk_phase0]. destruct dk_phase0 as (g & Hst & Hstage). exists g. split; [|exact Hstage].
    destruct Hst. constructor; try assumption.
    + cbn. rewrite length_app. lia.
    + rewrite st_writers0. unfold in_group. cbn [writers_ Write_enqueue]. rewrite take_app_le by exact st_group0. reflexivity.
Qed.

(** The part of the invariant that does not look at the writers. *)
Lemma db_ok_set_current db hist lost (oc : option inflight) : db_ok db hist lost -> phase_ok (set_current oc db) hist lost -> db_ok (set_current oc db) hist lost.
Proof. intros Hdb Hp. destruct Hdb. constructor; assumption. Qed.

Lemma Write_begin_ok o db hist lost : db_ok db hist lost ->
  match Write_begin o db with inl _ => False | inr None => True | inr (Some db') => db_ok db' hist lost /\ log_ db' = log_ db end.
Proof.
  intros Hdb. unfold Write_begin. destruct (current_ db) as [c|] eqn:Ec; [exact I|]. destruct (writers_ db) as [|w rest] eqn:Ew; [exact I|].
  unfold MakeRoomForWrite. pose proof (dk_phase db hist lost Hdb) as Hph. unfold phase_ok in Hph. rewrite Ec in Hph. destruct Hph as (Htmp & Hack & Hph).
  destruct (status_ok (bg_error_ db)) eqn:Ebg; cbn [negb].
  - destruct Hph as [(_ & -> & Hrf & Hseq)|(Hbad & _)]; [|congruence].
    destruct (w_updates w) as [us0|] eqn:Eu; [|cbn; exact I]. cbn [negb andb].
    destruct (ApproximateMemoryUsage (mem_ db) <=? write_buffer_size o); [|exact I]. cbn [status_ok].
    pose proof (dk_writers db hist [] Hdb) as Hws. rewrite Ew in Hws. apply List.Forall_cons_iff in Hws as [Hw Hrest].
    destruct (writer_batch w us0 Hw Eu) as (-> & Hus0 & _). rewrite Htmp.
    destruct (BuildBatchGroup_ok w us0 rest Hw Eu Hrest) as (n & t & Hn & Eg & Hus & Hlen). cbv zeta in Eg. rewrite Eg.
    set (us := writes (firstn n (w :: rest))) in *.
    pose proof (dk_size db hist [] Hdb) as Hsize. rewrite Hrf in Hsize. change (zlen (writes [])) with 0 in Hsize.
    assert (Hwait : zlen us <= zlen (writes (writers_ db))).
    { rewrite Ew, <- (firstn_skipn n (w :: rest)), zlen_writes_app. fold us. pose proof (zlen_nonneg (writes (skipn n (w :: rest)))). lia. }
    pose proof (zlen_nonneg (writes (acked db))). pose proof (zlen_nonneg us). unfold kMaxSequenceNumber in Hsize. change (Z.shiftl 1 56 - 1) with (2 ^ 56 - 1) in Hsize.
    rewrite (u64_small (last_sequence_ db + 1)) by lia. rewrite batch_set_sequence, batch_count by (auto using writes_updates_ok).
    rewrite u64_small by lia.
    set (db1 := set_current _ db). assert (Hdb1 : db_ok db1 hist []).
    { apply db_ok_set_current; [exact Hdb|]. unfold phase_ok. cbn [set_current current_ fl_updates fl_stage]. exists (firstn n (w :: rest)).
      split; [|auto]. constructor; cbn; auto; [rewrite Ew; exact Hn|unfold in_group; cbn; rewrite Ew; reflexivity]. }
    destruct t; [|split; [exact Hdb1|reflexivity]]. split; [|reflexivity]. destruct Hdb1. constructor; try assumption. unfold phase_ok in *. cbn [current_ set_current fl_updates fl_stage db1] in *.
    destruct dk_phase0 as (g & Hst & Hrest'). exists g. split; [|exact Hrest']. destruct Hst. constructor; try assumption. discriminate.
  - cbn [status_ok]. rewrite Ebg. destruct Hph as [(Hgood & _)|Hbr]; [congruence|].
    split; [|reflexivity]. apply db_ok_set_current; [exact Hdb|]. unfold phase_ok. cbn [set_current current_ fl_updates fl_stage fl_group fl_status fl_sync_error fl_last_sequence].
    split_and!; auto.
Qed.

(** The numbers of a group that is logged. *)
Lemma started_numbers db hist lost c u t g : db_ok db hist lost -> started db c u t g -> concat hist = acked db ->
  Forall write_ok (writes g) /\ 0 <= last_sequence_ db /\ last_sequence_ db + zlen (writes g) < kMaxSequenceNumber /\
  last_sequence_ db + 1 = 1 + zlen (writes (concat hist)).
Proof.
  intros Hdb Hst Hack. pose proof (zlen_nonneg (writes (acked db))). pose proof (dk_size db hist lost Hdb) as Hsize. destruct Hst.
  rewrite st_refused0 in Hsize. change (zlen (writes [])) with 0 in Hsize. rewrite Hack.
  rewrite (writes_group db c), zlen_app, <- st_writers0 in Hsize. pose proof (zlen_nonneg (writes (skipn (fl_group c) (writers_ db)))).
  split; [|lia]. rewrite st_writers0. unfold in_group. pose proof (dk_writers db hist lost Hdb) as Hws.
  unfold writes. apply Forall_concat, List.Forall_map. apply Forall_take with (n := fl_group c) in Hws. eapply Forall_impl; [exact Hws|]. intros w. apply proj1.
Qed.

Lemma step_logging db hist lost c u t g : db_ok db hist lost -> current_ db = Some c -> fl_stage c = Logging -> fl_updates c = Some (u, t) ->
  started db c u t g -> lost = [] -> concat hist = acked db ->
  exists db', Write_step c db = inr db' /\ db_ok db' hist [g] /\ grows db hist db' (hist ++ [g]).
Proof.
  intros Hdb Ec Es Eu Hst -> Hack. destruct (started_numbers db hist [] c u t g Hdb Hst Hack) as (Hus & Hl0 & Hl & Hnum).
  assert (Eb : u = batch_bytes (1 + zlen (writes (concat hist))) (writes g)) by (rewrite <- Hnum; apply Hst).
  pose proof (dk_log db hist [] Hdb) as Hlog. rewrite app_nil_r in Hlog.
  destruct (AddRecord_ok u (log_ db) (dk_types _ _ _ Hdb) (dk_offset _ _ _ Hdb)) as (log' & bytes & Ea & Ht' & Ho' & Hc' & Hf').
  { rewrite Eb. apply batch_bytes_ok, writes_updates_ok, Hus. }
  unfold Write_step. rewrite Es, Eu. unfold Contents. rewrite Ea. eexists. split; [reflexivity|].
  assert (Hlu : logged (block_offset_ (log_ db)) (records_from (1 + zlen (writes (concat hist))) (map writes [g])) bytes (block_offset_ log')).
  { cbn [map records_from]. rewrite <- Eb, <- (app_nil_r bytes). econstructor; [exact Hf'|constructor]. }
  split; [|exists [g], bytes; auto]. constructor; cbn [log_ mem_ imm_ writers_]; try apply Hdb; auto.
  - rewrite map_app, records_from_app, writes_concat, Hc'. apply (logged_app _ _ _ _ _ _ _ Hlog Hlu).
  - pose proof (dk_writes db hist [] Hdb) as Hw. rewrite app_nil_r in Hw. apply Forall_app. split; [exact Hw|].
    constructor; [split; [exact Hus|apply Hst]|constructor].
  - unfold phase_ok. cbn [current_ set_stage fl_updates fl_stage]. rewrite Eu. exists g. split; [|auto]. destruct Hst. constructor; assumption.
Qed.

Lemma step_syncing db hist lost c u t g : db_ok db hist lost -> current_ db = Some c -> fl_stage c = Syncing -> fl_updates c = Some (u, t) ->
  started db c u t g -> lost = [g] -> concat hist = acked db -> fl_status c = OK ->
  exists db', Write_step c db = inr db' /\ db_ok db' hist lost /\ grows db (hist ++ lost) db' (hist ++ lost).
Proof.
  intros Hdb Ec Es Eu Hst Hlost Hack Hok. unfold Write_step. rewrite Es, Eu, Hok. cbn [status_ok andb].
  assert (Hst' : forall db' c', writers_ db' = writers_ db -> last_sequence_ db' = last_sequence_ db -> tmp_batch_ db' = tmp_batch_ db ->
    bg_error_ db' = bg_error_ db -> answers_ db' = answers_ db -> fl_group c' = fl_group c -> fl_last_sequence c' = fl_last_sequence c -> started db' c' u t g).
  { intros db' c' E1 E2 E3 E4 E5 E6 E7. destruct Hst. unfold in_group, refused, acked in *.
    constructor; unfold in_group, refused, acked; rewrite ?E1, ?E2, ?E3, ?E4, ?E5, ?E6, ?E7; assumption. }
  destruct (fl_sync c).
  - pose proof (Sync_contents (dest_ (log_ db))) as Hs. destruct (file_Sync (dest_ (log_ db))) as [ok f]. cbn in Hs. eexists. split; [reflexivity|].
    split; [|apply grows_same; [exact Hs|reflexivity]]. destruct Hdb. constructor; cbn [log_ mem_ imm_ writers_ dest_ block_offset_]; auto; [rewrite Hs; assumption|].
    unfold phase_ok. cbn [current_]. destruct ok; cbn [set_stage fl_updates fl_stage fl_status fl_sync_error]; rewrite Eu; exists g;
      (split; [apply Hst'; reflexivity|]); (split; [exact Hlost|split; [exact Hack|]]); auto.
  - eexists. split; [reflexivity|]. split; [|apply grows_same; reflexivity]. apply db_ok_set_current; [exact Hdb|]. unfold phase_ok.
    cbn [current_ set_current set_stage fl_updates fl_stage fl_status fl_sync_error]. rewrite Eu. exists g.
    split; [apply Hst'; reflexivity|]. auto.
Qed.

(** A group goes into the memtable after the ones before it. *)
Lemma InsertInto_group m us vs : holds m (number_from 1 us) -> Forall write_ok vs -> zlen vs < 2 ^ 31 -> zlen us + zlen vs < kMaxSequenceNumber ->
  match InsertInto (batch_bytes (1 + zlen us) vs) m with
  | inl e => e = bad_alloc
  | inr (status, m') => status = OK /\ holds m' (number_from 1 (us ++ vs))
  end.
Proof.
  intros Hm Hvs Hn Hs. unfold kMaxSequenceNumber in Hs. change (Z.shiftl 1 56 - 1) with (2 ^ 56 - 1) in Hs.
  pose proof (zlen_nonneg us). pose proof (zlen_nonneg vs).
  rewrite InsertInto_batch by (first [lia|apply writes_updates_ok, Hvs]).
  destruct (number_from_seq (us ++ vs) 1) as [_ Hnd]. rewrite number_from_app in *.
  pose proof (add_all_holds (number_from (1 + zlen us) vs) m (number_from 1 us) Hm) as Hadd.
  specialize (Hadd ltac:(apply number_from_ok; [exact Hvs|lia|unfold kMaxSequenceNumber; change (Z.shiftl 1 56 - 1) with (2 ^ 56 - 1); lia]) Hnd).
  destruct (add_all _ (inr m)) as [e|m']; [exact Hadd|]. split; [reflexivity|apply Hadd].
Qed.

Lemma InsertInto_later m us vs status m' : holds m (number_from 1 us) -> Forall write_ok vs -> zlen vs < 2 ^ 31 -> zlen us + zlen vs < kMaxSequenceNumber ->
  InsertInto (batch_bytes (1 + zlen us) vs) m = inr (status, m') -> later (table_ m) (table_ m').
Proof.
  intros Hm Hvs Hn Hs. unfold kMaxSequenceNumber in Hs. change (Z.shiftl 1 56 - 1) with (2 ^ 56 - 1) in Hs.
  pose proof (zlen_nonneg us). pose proof (zlen_nonneg vs).
  rewrite InsertInto_batch by (first [lia|apply writes_updates_ok, Hvs]).
  destruct (number_from_seq (us ++ vs) 1) as [_ Hnd]. rewrite number_from_app in Hnd.
  destruct (add_all _ (inr m)) as [e|m1] eqn:E; [discriminate|]. intros [= _ <-]. apply (add_all_later _ _ _ _ Hm) in E; [exact E| |exact Hnd].
  apply number_from_ok; [exact Hvs|lia|unfold kMaxSequenceNumber; change (Z.shiftl 1 56 - 1) with (2 ^ 56 - 1); lia].
Qed.

(** How the groups in the memtable grow while an iterator has a snapshot. *)
Definition adds db hist db' hist' : Prop := exists more, hist' = hist ++ more /\ (more = [] \/ last_sequence_ db = zlen (writes (concat hist))) /\
  later (table_ (mem_ db)) (table_ (mem_ db')) /\ last_sequence_ db <= last_sequence_ db'.

Lemma adds_same db hist db' : mem_ db' = mem_ db -> last_sequence_ db <= last_sequence_ db' -> adds db hist db' hist.
Proof. intros Em El. exists []. rewrite app_nil_r, Em. split_and!; auto using later_refl. Qed.

Lemma step_inserting db hist lost c u t g : db_ok db hist lost -> current_ db = Some c -> fl_stage c = Inserting -> fl_updates c = Some (u, t) ->
  started db c u t g -> lost = [g] -> concat hist = acked db ->
  fl_status c = OK /\ fl_sync_error c = false \/ status_ok (fl_status c) = false /\ fl_sync_error c = true ->
  match Write_step c db with inl e => e = bad_alloc | inr db' => exists hist' lost', db_ok db' hist' lost' /\ log_ db' = log_ db /\ hist' ++ lost' = hist ++ lost /\ adds db hist db' hist' end.
Proof.
  intros Hdb Ec Es Eu Hst -> Hack Hcase. destruct (started_numbers db hist [g] c u t g Hdb Hst Hack) as (Hus & Hl0 & Hl & Hnum).
  unfold Write_step. rewrite Es, Eu. destruct Hcase as [[-> Hse]|[Hbad Hse]].
  - cbn [status_ok]. rewrite (st_batch db c u t g Hst), Hnum.
    pose proof (InsertInto_group (mem_ db) (writes (concat hist)) (writes g) (dk_mem _ _ _ Hdb) Hus (st_count _ _ _ _ _ Hst) ltac:(lia)) as Hi.
    pose proof (InsertInto_later (mem_ db) (writes (concat hist)) (writes g)) as Hlater.
    destruct (InsertInto _ (mem_ db)) as [e|[status mem]]; [exact Hi|]. destruct Hi as [-> Hmem]. exists (hist ++ [g]), [].
    specialize (Hlater OK mem (dk_mem _ _ _ Hdb) Hus (st_count _ _ _ _ _ Hst) ltac:(lia) eq_refl).
    split; [|split; [reflexivity|split; [apply app_nil_r|]]].
    2:{ exists [g]. split_and!; [reflexivity|right; lia|exact Hlater|cbn [last_sequence_]; lia]. }
    destruct Hdb. constructor; cbn [log_ mem_ imm_ writers_]; auto.
    + rewrite app_nil_r. exact dk_log0.
    + rewrite concat_last, writes_app. exact Hmem.
    + rewrite app_nil_r. exact dk_writes0.
    + unfold phase_ok. cbn [current_ set_stage fl_updates fl_stage fl_status fl_sync_error]. rewrite Eu. exists g.
      split; [destruct Hst; constructor; assumption|]. left. split_and!; [reflexivity|exact Hse|reflexivity|exists hist; auto].
  - rewrite Hbad. exists hist, [g]. split; [|split; [reflexivity|split; [reflexivity|apply adds_same; [reflexivity|cbn; lia]]]]. apply db_ok_set_current; [exact Hdb|]. unfold phase_ok.
    cbn [current_ set_current set_stage fl_updates fl_stage fl_status fl_sync_error]. rewrite Eu. exists g.
    split; [destruct Hst; constructor; assumption|]. right. auto.
Qed.

Lemma answered_app ok (l1 l2 : list (DbWriter * Status)) : answered ok (l1 ++ l2) = answered ok l1 ++ answered ok l2.
Proof. unfold answered. rewrite List.filter_app, map_app. reflexivity. Qed.

Lemma answered_all ok s ws : answered ok (map (fun w => (w, s)) ws) = if Bool.eqb (status_ok s) ok then ws else [].
Proof.
  unfold answered. induction ws as [|w ws IH]; [destruct (Bool.eqb _ _); reflexivity|]. cbn [map List.filter snd].
  destruct (Bool.eqb (status_ok s) ok); cbn [map fst]; rewrite IH; reflexivity.
Qed.

(** The answers to a group. *)
Lemma answer_ok db hist lost c log mem last tmp bg :
  let db' := mkDb log mem (imm_ db) last tmp bg (skipn (fl_group c) (writers_ db)) None
               (answers_ db ++ map (fun w => (w, fl_status c)) (firstn (fl_group c) (writers_ db))) in
  db_ok db hist lost -> log = log_ db -> mem = mem_ db -> phase_ok db' hist lost -> db_ok db' hist lost.
Proof.
  intros db' Hdb -> -> Hph. destruct Hdb. constructor; try assumption.
  - cbn [writers_ db']. apply Forall_drop. assumption.
  - rewrite (writes_group db c), zlen_app in dk_size0. unfold acked, refused, in_group in *. cbn [answers_ writers_ db'].
    rewrite !answered_app, !answered_all, !zlen_writes_app. pose proof (zlen_nonneg (writes (firstn (fl_group c) (writers_ db)))).
    destruct (status_ok (fl_status c)); cbn [Bool.eqb]; change (zlen (writes [])) with 0; lia.
Qed.

Lemma step_finishing db hist lost c u t g : db_ok db hist lost -> current_ db = Some c -> fl_stage c = Finishing -> fl_updates c = Some (u, t) ->
  started db c u t g ->
  fl_status c = OK /\ fl_sync_error c = false /\ lost = [] /\ (exists h0, hist = h0 ++ [g] /\ concat h0 = acked db) \/
  status_ok (fl_status c) = false /\ fl_sync_error c = true /\ lost = [g] /\ concat hist = acked db ->
  exists db', Write_step c db = inr db' /\ db_ok db' hist lost /\ log_ db' = log_ db.
Proof.
  intros Hdb Ec Es Eu Hst Hcase. unfold Write_step. rewrite Es, Eu. eexists. split; [reflexivity|]. split; [|reflexivity].
  pose proof (dk_size _ _ _ Hdb) as Hsize. apply answer_ok; [exact Hdb|reflexivity|reflexivity|].
  pose proof (st_writers db c u t g Hst) as Eg. unfold in_group in Eg.
  unfold phase_ok. cbn [current_ tmp_batch_ bg_error_ last_sequence_]. unfold broken, acked, refused. cbn [answers_ bg_error_ last_sequence_].
  rewrite !answered_app, !answered_all, <- Eg. split; [destruct t; [reflexivity|apply Hst; reflexivity]|].
  destruct Hcase as [(-> & -> & -> & h0 & -> & Hh0)|(Hbad & -> & -> & Hack)].
  - cbn [status_ok Bool.eqb]. rewrite concat_last, Hh0, app_nil_r. split; [reflexivity|]. left.
    destruct Hst. split_and!; auto. rewrite st_last0, zlen_writes_app. unfold acked in *. lia.
  - rewrite Hbad. cbn [Bool.eqb]. rewrite app_nil_r. split; [exact Hack|]. right. destruct Hst. unfold refused in st_refused0. rewrite st_refused0.
    unfold RecordBackgroundError. rewrite st_bg0. split; [exact Hbad|]. split; [exists []; cbn [concat app]; rewrite !app_nil_r; reflexivity|].
    rewrite st_last0. unfold refused in Hsize. rewrite st_refused0 in Hsize. unfold acked in *. change (zlen (writes [])) with 0 in Hsize.
    rewrite (writes_group db c), zlen_app in Hsize. unfold in_group in Hsize. rewrite <- Eg in Hsize. pose proof (zlen_nonneg (writes g)).
    pose proof (zlen_nonneg (writes (skipn (fl_group c) (writers_ db)))). lia.
Qed.

Lemma step_refusing db hist lost c : db_ok db hist lost -> current_ db = Some c -> fl_updates c = None ->
  exists db', Write_step c db = inr db' /\ db_ok db' hist lost /\ log_ db' = log_ db.
Proof.
  intros Hdb Ec Eu. pose proof (dk_phase _ _ _ Hdb) as Hph. unfold phase_ok in Hph. rewrite Ec, Eu in Hph.
  destruct Hph as (Es & Eg & Hbad & Hse & Hl & Htmp & Hack & Hbr). unfold Write_step. rewrite Es, Eu, Hse. eexists. split; [reflexivity|]. split; [|reflexivity].
  pose proof (dk_size _ _ _ Hdb) as Hsize. apply answer_ok; [exact Hdb|reflexivity|reflexivity|].
  unfold phase_ok. cbn [current_ tmp_batch_ bg_error_ last_sequence_]. destruct Hbr as (Hb1 & (more & Hb2) & Hb3). unfold broken, acked, refused in *.
  cbn [answers_ bg_error_ last_sequence_]. rewrite !answered_app, !answered_all, Hbad. cbn [Bool.eqb]. rewrite app_nil_r.
  split; [exact Htmp|]. split; [exact Hack|]. right. split; [exact Hb1|]. split; [|rewrite Hl; exact Hb3].
  rewrite Hb2, <- app_assoc. eauto.
Qed.

(** Only a group that goes into the memtable changes it. *)
Lemma Write_step_quiet c db db' : Write_step c db = inr db' -> fl_stage c <> Inserting \/ fl_updates c = None ->
  mem_ db' = mem_ db /\ (last_sequence_ db' = last_sequence_ db \/ last_sequence_ db' = fl_last_sequence c).
Proof.
  unfold Write_step. intros E Hq. destruct (fl_stage c), (fl_updates c) as [[u t]|]; try (injection E as <-; auto; fail).
  - destruct (AddRecord _ _) as [ok log]. injection E as <-. auto.
  - destruct (status_ok _ && fl_sync c); [destruct (file_Sync _) as [ok f]|]; injection E as <-; auto.
  - destruct Hq as [Hq|Hq]; [contradiction|discriminate].
Qed.

Lemma quiet_adds c db db' hist : Write_step c db = inr db' -> fl_stage c <> Inserting \/ fl_updates c = None -> last_sequence_ db <= fl_last_sequence c ->
  adds db hist db' hist.
Proof. intros E Hq Hl. destruct (Write_step_quiet c db db' E Hq) as [Em [El|El]]; apply adds_same; auto; lia. Qed.

Lemma Write_step_ok db hist lost c : db_ok db hist lost -> current_ db = Some c ->
  match Write_step c db with
  | inl e => e = bad_alloc
  | inr db' => exists hist' lost', db_ok db' hist' lost' /\ grows db (hist ++ lost) db' (hist' ++ lost') /\ adds db hist db' hist'
  end.
Proof.
  intros Hdb Ec. assert (Same : forall db', log_ db' = log_ db -> grows db (hist ++ lost) db' (hist ++ lost)).
  { intros db' E. apply grows_same; rewrite E; reflexivity. }
  destruct (fl_updates c) as [[u t]|] eqn:Eu.
  - pose proof (dk_phase _ _ _ Hdb) as Hph. unfold phase_ok in Hph. rewrite Ec, Eu in Hph. destruct Hph as (g & Hst & Hph).
    assert (Hlast : last_sequence_ db <= fl_last_sequence c) by (rewrite (st_last _ _ _ _ _ Hst); pose proof (zlen_nonneg (writes g)); lia).
    destruct (fl_stage c) eqn:Es.
    + destruct Hph as [-> Ha]. destruct (step_logging db hist [] c u t g) as (db' & E & Hok & Hg); auto. rewrite E. exists hist, [g].
      rewrite app_nil_r. split_and!; auto. apply (quiet_adds c); auto. left. congruence.
    + destruct Hph as (Hl & Ha & Hs). destruct (step_syncing db hist lost c u t g) as (db' & E & Hok & Hg); auto. rewrite E. exists hist, lost.
      split_and!; auto. apply (quiet_adds c); auto. left. congruence.
    + destruct Hph as (Hl & Ha & Hs). pose proof (step_inserting db hist lost c u t g Hdb Ec Es Eu Hst Hl Ha Hs) as Hi.
      destruct (Write_step c db) as [e|db']; [exact Hi|]. destruct Hi as (hist' & lost' & Hok & El & Eg & Hadds). exists hist', lost'. rewrite Eg. auto.
    + destruct (step_finishing db hist lost c u t g) as (db' & E & Hok & El); auto. rewrite E. exists hist, lost.
      split_and!; auto. apply (quiet_adds c); auto. left. congruence.
  - destruct (step_refusing db hist lost c) as (db' & E & Hok & El); auto. rewrite E. exists hist, lost.
    split_and!; auto. apply (quiet_adds c); auto. pose proof (dk_phase _ _ _ Hdb) as Hph. unfold phase_ok in Hph. rewrite Ec, Eu in Hph. lia.
Qed.

Lemma Write_begin_quiet o db db' : Write_begin o db = inr (Some db') -> mem_ db' = mem_ db /\ last_sequence_ db' = last_sequence_ db.
Proof.
  unfold Write_begin. destruct (current_ db); [discriminate|]. destruct (writers_ db) as [|w rest]; [discriminate|].
  destruct (MakeRoomForWrite _ _ _) as [status|]; [|discriminate]. destruct (status_ok status), (w_batch w) as [batch|]; try (intros [= <-]; auto; fail).
  destruct (BuildBatchGroup _ _ _ _) as [[[u t] n]|]; [|discriminate]. destruct t; intros [= <-]; auto.
Qed.

Lemma db_step_ok o db db' hist lost : db_step o db db' -> db_ok db hist lost ->
  exists hist' lost', db_ok db' hist' lost' /\ grows db (hist ++ lost) db' (hist' ++ lost') /\ adds db hist db' hist'.
Proof.
  intros Hst Hdb. destruct Hst as [db w Hw Hsize|db db' E|db c db' Ec E].
  - exists hist, lost. split; [apply Write_enqueue_ok; assumption|]. split; [apply grows_same; reflexivity|apply adds_same; [reflexivity|cbn; lia]].
  - pose proof (Write_begin_ok o db hist lost Hdb) as Hb. rewrite E in Hb. destruct Hb as [Hb El]. exists hist, lost.
    split; [exact Hb|]. split; [apply grows_same; rewrite El; reflexivity|]. destruct (Write_begin_quiet o db db' E) as [Em Es]. apply adds_same; [exact Em|lia].
  - pose proof (Write_step_ok db hist lost c Hdb Ec) as Hb. rewrite E in Hb. exact Hb.
Qed.

Lemma db_steps_ok o db db' : rtc (db_step o) db db' -> forall hist lost, db_ok db hist lost ->
  exists hist' lost', db_ok db' hist' lost' /\ grows db (hist ++ lost) db' (hist' ++ lost').
Proof.
  induction 1 as [db|db db1 db' Hst _ IH]; intros hist lost Hdb; [exists hist, lost; split; [exact Hdb|apply grows_same; reflexivity]|].
  destruct (db_step_ok o db db1 hist lost Hst Hdb) as (h1 & l1 & Hdb1 & G1 & _). destruct (IH h1 l1 Hdb1) as (h2 & l2 & Hdb2 & G2).
  exists h2, l2. split; [exact Hdb2|]. eapply grows_trans; eassumption.
Qed.
Lemma Ref_holds t ops : holds t ops -> holds (Ref t) ops.
Proof. intros []. constructor; assumption. Qed.

Lemma Open_new_ok (f : F) : contents f = [] -> match Open_new f with inl e => e = bad_alloc | inr db => db_ok db [] [] end.
Proof.
  intros Hf. unfold Open_new. pose proof new_MemTable_holds as Hm. destruct new_MemTable as [e|m]; [exact Hm|]. destruct Hm as [Hm _].
  constructor; try (constructor; fail); try reflexivity.
  - cbn. unfold LdbLog.kBlockSize. lia.
  - cbn [log_ new_Writer dest_ block_offset_]. rewrite Hf. constructor.
  - apply Ref_holds, Hm.
  - split_and!; try reflexivity. left. auto.
Qed.

Lemma reachable_ok o (f : F) db0 db : contents f = [] -> Open_new f = inr db0 -> rtc (db_step o) db0 db -> exists hist lost, db_ok db hist lost.
Proof.
  intros Hf E Hst. pose proof (Open_new_ok f Hf) as H0. rewrite E in H0. destruct (db_steps_ok o db0 db Hst [] [] H0) as (h & l & Hok & _). eauto.
Qed.

(** ** Reading *)

(** What is in the memtable: all that was acknowledged, and perhaps a group that will be. *)
Lemma acked_in_memtable db hist lost : db_ok db hist lost ->
  exists more, concat hist = acked db ++ more /\ zlen (writes (acked db)) <= last_sequence_ db <= kMaxSequenceNumber /\
    (more = [] \/ last_sequence_ db = zlen (writes (acked db))).
Proof.
  intros Hdb. pose proof (zlen_nonneg (writes (acked db))) as H1. pose proof (dk_size _ _ _ Hdb) as Hsize. pose proof (zlen_nonneg (writes (refused db))).
  pose proof (zlen_nonneg (writes (writers_ db))). pose proof (dk_phase _ _ _ Hdb) as Hph. unfold phase_ok in Hph.
  assert (Same : concat hist = acked db -> zlen (writes (acked db)) <= last_sequence_ db <= kMaxSequenceNumber ->
    exists more, concat hist = acked db ++ more /\ zlen (writes (acked db)) <= last_sequence_ db <= kMaxSequenceNumber /\
    (more = [] \/ last_sequence_ db = zlen (writes (acked db)))).
  { intros E Hl. exists []. rewrite app_nil_r. auto. }
  destruct (current_ db) as [c|].
  - destruct (fl_updates c) as [[u t]|].
    + destruct Hph as (g & Hst & Hph). pose proof (st_seq _ _ _ _ _ Hst) as Hseq. destruct (fl_stage c).
      * apply Same; [apply Hph|lia].
      * apply Same; [apply Hph|lia].
      * apply Same; [apply Hph|lia].
      * destruct Hph as [(_ & _ & _ & h0 & -> & Hh0)|(_ & _ & _ & Hack)]; [|apply Same; [exact Hack|lia]].
        exists g. rewrite concat_last, Hh0. split; [reflexivity|]. split; [lia|auto].
    + destruct Hph as (_ & _ & _ & _ & _ & _ & Hack & _ & _ & Hl). apply Same; assumption.
  - destruct Hph as (_ & Hack & [(_ & _ & _ & Hl)|(_ & _ & Hl)]); apply Same; auto; lia.
Qed.

(** What is logged: all that was acknowledged, and then those that wait, in order. *)
Lemma logged_writers db hist lost : db_ok db hist lost ->
  acked db `prefix_of` concat (hist ++ lost) /\ concat (hist ++ lost) `prefix_of` acked db ++ refused db ++ writers_ db.
Proof.
  intros Hdb. rewrite concat_app. destruct (acked_in_memtable db hist lost Hdb) as (more & E & _). split; [rewrite E, <- app_assoc; apply prefix_app_r; reflexivity|].
  clear more E. pose proof (dk_phase _ _ _ Hdb) as Hph. unfold phase_ok in Hph.
  assert (Br : concat hist = acked db -> broken db lost -> concat hist ++ concat lost `prefix_of` acked db ++ refused db ++ writers_ db).
  { intros -> (_ & (more & ->) & _). apply prefix_app. rewrite <- app_assoc. apply prefix_app_r. reflexivity. }
  assert (Gr : forall c u t g, started db c u t g -> acked db ++ g `prefix_of` acked db ++ refused db ++ writers_ db).
  { intros c u t g Hst. apply prefix_app. rewrite (st_refused _ _ _ _ _ Hst), (st_writers _ _ _ _ _ Hst). unfold in_group. apply prefix_take. }
  destruct (current_ db) as [c|].
  - destruct (fl_updates c) as [[u t]|]; [|apply Br; apply Hph]. destruct Hph as (g & Hst & Hph). specialize (Gr c u t g Hst).
    destruct (fl_stage c).
    + destruct Hph as [-> ->]. apply prefix_app. apply prefix_nil.
    + destruct Hph as (-> & -> & _). cbn [concat]. rewrite app_nil_r. exact Gr.
    + destruct Hph as (-> & -> & _). cbn [concat]. rewrite app_nil_r. exact Gr.
    + destruct Hph as [(_ & _ & -> & h0 & -> & Hh0)|(_ & _ & -> & ->)]; [rewrite concat_last, Hh0|]; cbn [concat]; rewrite app_nil_r; exact Gr.
  - destruct Hph as (_ & Hack & [(_ & -> & _)|Hbr]); [|apply Br; assumption]. rewrite Hack. apply prefix_app, prefix_nil.
Qed.

Lemma Db_Get_ok db hist lost k s : db_ok db hist lost -> zlen k + 8 < 2 ^ 32 -> bytes_ok k -> key_ok k -> 0 <= s <= last_sequence_ db ->
  Db_Get (Some s) k db = Some (outcome (visible k s (number_from 1 (writes (acked db))))).
Proof.
  intros Hdb Hl Hb Hk Hs. destruct (acked_in_memtable db hist lost Hdb) as (more & Em & Hlast & Hmore).
  unfold Db_Get. cbn [default from_option id]. cbv zeta. rewrite (Get_holds _ _ k s (dk_mem _ _ _ Hdb)) by (auto; lia). cbn [mbind option_bind].
  rewrite (dk_imm _ _ _ Hdb). rewrite Em, writes_app, number_from_app, visible_app.
  - destruct (outcome _); reflexivity.
  - destruct Hmore as [->|Hmore]; [constructor|]. destruct (number_from_seq (writes more) (1 + zlen (writes (acked db)))) as [Hn _].
    eapply Forall_impl; [exact Hn|]. cbn. intros o Ho. lia.
Qed.
End Invariant.

(** * Recovering *)

Section Recovery.
Context {P : Port} {C : Comparator} {L : ComparatorLaws C} {H : Heap} {HL : HeapLaws H} {AR : Arena (list Z)} {A : Address}
  {G : Type} {SF : SequentialFile G} {GL : SequentialFileLaws G}.

(** The memtable of a recovery, which is made at the first record. *)
Definition mem_holds (mem : option MemTable) (us : list update) : Prop :=
  match mem with None => us = [] | Some m => holds m (number_from 1 us) end.

Lemma mem_holds_made mem us : mem_holds mem us ->
  match (match mem with Some m => inr m | None => match new_MemTable with inl e => inl e | inr m => inr (Ref m) end end) with
  | inl e => e = bad_alloc
  | inr m => holds m (number_from 1 us)
  end.
Proof.
  destruct mem as [m|]; [auto|]. intros ->. pose proof new_MemTable_holds as Hm. destruct new_MemTable as [e|m]; [exact Hm|].
  apply Ref_holds, Hm.
Qed.

Definition group_ok (us : list update) : Prop := Forall write_ok us /\ zlen us < 2 ^ 31.

Lemma records_ok gs : Forall group_ok gs -> forall seq, Forall bytes_ok (records_from seq gs).
Proof.
  induction 1 as [|us gs [Hus _] _ IH]; intros seq; constructor; [|apply IH]. apply batch_bytes_ok, writes_updates_ok, Hus.
Qed.

(** What the loop makes of some groups and the beginning of another. *)
Definition recovered_from (o : Options) (us : list update) (gs : list (list update)) (r : option (failure + recovery)) : Prop :=
  match r with
  | None => False
  | Some (inl e) => e = bad_alloc
  | Some (inr (Recovered status mem max_sequence)) => status = OK /\ mem_holds mem (us ++ concat gs) /\ max_sequence = zlen (us ++ concat gs)
  | Some (inr (TableNeeded m max_sequence)) => exists gs1, gs1 `prefix_of` gs /\ holds m (number_from 1 (us ++ concat gs1)) /\
      max_sequence = zlen (us ++ concat gs1) /\ write_buffer_size o < ApproximateMemoryUsage m
  end.

Lemma recovered_from_cons o us vs gs r : recovered_from o (us ++ vs) gs r -> recovered_from o us (vs :: gs) r.
Proof.
  unfold recovered_from. destruct r as [[e|[status mem mx|m mx]]|]; cbn [concat]; rewrite ?app_assoc; [auto|auto| |auto].
  intros (gs1 & Hp & Hm & Hmx & Hfull). exists (vs :: gs1). cbn [concat]. rewrite app_assoc. split; [apply prefix_cons, Hp|auto].
Qed.

Lemma recover_loop_ok o fuel' gs : forall us off bytes off1 last last_bytes off2 k fuel r mem,
  logged off (records_from (1 + zlen us) gs) bytes off1 -> fragmented true off1 last last_bytes off2 -> bytes_ok last -> 0 <= k < zlen last_bytes ->
  reading (Some []) r off (bytes ++ ztake k last_bytes) -> 0 <= off <= LdbLog.kBlockSize ->
  mem_holds mem us -> Forall group_ok gs -> zlen us + zlen (concat gs) < kMaxSequenceNumber ->
  (length gs < fuel)%nat -> zlen bytes + k < Z.of_nat fuel' ->
  recovered_from o us gs (recover_loop o fuel fuel' r OK mem (zlen us)).
Proof.
  induction gs as [|vs gs IH]; intros us off bytes off1 last last_bytes off2 k fuel r mem Hlog Hfr Hlast Hk Hr Ho Hmem Hgs Hsize Hfuel Hfuel'.
  - destruct fuel as [|fuel]; [cbn in Hfuel; lia|]. cbn [records_from] in Hlog. inversion Hlog; subst. cbn [recover_loop].
    change (zlen []) with 0 in Hfuel'. destruct (ReadRecord_end _ _ _ _ _ fuel' _ _ Hfr Hr Ho Hlast Hk Hfuel') as (r' & -> & Hrep).
    unfold reported. rewrite Hrep. unfold recovered_from. cbn [concat]. rewrite app_nil_r. destruct (paranoid_checks o); auto.
  - destruct fuel as [|fuel]; [cbn in Hfuel; lia|]. cbn [records_from] in Hlog. inversion Hlog as [|? ? b1 offm ? rest ? Hfr1 Hlog1]; subst.
    apply List.Forall_cons_iff in Hgs as [[Hvs Hn] Hgs]. rewrite <- app_assoc in Hr. rewrite zlen_app in Hfuel'. cbn [concat] in Hsize. rewrite zlen_app in Hsize.
    pose proof (zlen_nonneg rest). pose proof (zlen_nonneg us). pose proof (zlen_nonneg vs). pose proof (zlen_nonneg (concat gs)).
    assert (Hrest : bytes_ok (rest ++ ztake k last_bytes)).
    { apply bytes_ok_app. split; [eapply logged_bytes; [exact Hlog1|apply records_ok, Hgs]|]. apply bytes_ok_ztake. eapply fragmented_ok; eassumption. }
    assert (Hf1 : zlen b1 < Z.of_nat fuel') by lia.
    destruct (ReadRecord_next _ _ _ _ _ fuel' _ _ Hfr1 Hr Ho (batch_bytes_ok _ _ (writes_updates_ok _ Hvs)) Hrest Hf1) as (r' & E & Hr' & Hom).
    cbn [recover_loop]. rewrite E. unfold reported at 1 2. rewrite (rd_reports _ _ _ _ Hr'). unfold SetContents, kHeader.
    replace (if paranoid_checks o && status_ok OK then OK else OK) with OK by (destruct (_ && _); reflexivity). cbn [status_ok negb].
    pose proof (zlen_nonneg (concat (map update_bytes vs))).
    rewrite zlen_batch_bytes, (proj2 (Z.ltb_ge _ _)), (proj2 (Z.leb_le _ _)) by lia. cbn [negb].
    pose proof (mem_holds_made mem us Hmem) as Hm. destruct (match mem with Some m => inr m | None => _ end) as [e|m]; [exact Hm|].
    pose proof (InsertInto_group m us vs Hm Hvs Hn ltac:(lia)) as Hi. destruct (InsertInto _ m) as [e|[status m']]; [exact Hi|]. destruct Hi as [-> Hm'].
    unfold MaybeIgnoreError. cbn [status_ok orb negb]. unfold kMaxSequenceNumber in Hsize. change (Z.shiftl 1 56 - 1) with (2 ^ 56 - 1) in Hsize.
    rewrite batch_sequence, batch_count, u64_small by (first [apply writes_updates_ok, Hvs|exact Hn|lia]). cbv zeta.
    replace (if zlen us <? 1 + zlen us + zlen vs - 1 then 1 + zlen us + zlen vs - 1 else zlen us) with (zlen (us ++ vs))
      by (rewrite zlen_app; destruct (Z.ltb_spec (zlen us) (1 + zlen us + zlen vs - 1)); lia).
    apply recovered_from_cons. destruct (Z.ltb_spec (write_buffer_size o) (ApproximateMemoryUsage m')) as [Hfull|_].
    + exists []. cbn [concat]. rewrite app_nil_r. split; [apply prefix_nil|auto].
    + apply (IH (us ++ vs) offm rest off1 last last_bytes off2 k fuel r' (Some m')); auto.
      * rewrite zlen_app, Z.add_assoc. exact Hlog1.
      * rewrite zlen_app. unfold kMaxSequenceNumber. change (Z.shiftl 1 56 - 1) with (2 ^ 56 - 1). lia.
      * cbn in Hfuel. lia.
      * pose proof (zlen_nonneg b1). lia.
Qed.

Lemma fragmented_pos begin off data bytes off' : fragmented begin off data bytes off' -> 0 < zlen bytes.
Proof.
  intros []; [apply zlen_item_pos|]. rewrite zlen_app. pose proof (zlen_nonneg bytes0).
  match goal with |- context [item ?o ?t ?p] => pose proof (zlen_item_pos o t p) end. lia.
Qed.

(** The records are no more than the bytes. *)
Lemma logged_length off rs bytes off1 : logged off rs bytes off1 -> 0 <= off <= LdbLog.kBlockSize -> Z.of_nat (length rs) <= zlen bytes.
Proof.
  induction 1 as [off|off r0 bytes off1 rs rest off2 Hfr _ IH]; intros Ho; [cbn; reflexivity|].
  destruct (fragmented_next _ _ _ _ _ Ho Hfr) as [Hn Hb]. pose proof (fragmented_pos _ _ _ _ _ Hfr). rewrite zlen_app. cbn [length]. unfold kHeaderSize in Hn. specialize (IH ltac:(lia)). lia.
Qed.

Lemma length_records gs : forall seq, length (records_from seq gs) = length gs.
Proof. induction gs as [|us gs IH]; intros seq; [reflexivity|]. cbn. f_equal. apply IH. Qed.

(** The first records are those of the first groups. *)
Lemma records_split gs : forall seq rs1 rs2, records_from seq gs = rs1 ++ rs2 -> exists gs1 gs2, gs = gs1 ++ gs2 /\ rs1 = records_from seq gs1.
Proof.
  induction gs as [|us gs IH]; intros seq rs1 rs2 E.
  - destruct rs1; [exists [], []; auto|discriminate].
  - destruct rs1 as [|b rs1]; [exists [], (us :: gs); auto|]. injection E as Eb E. destruct (IH _ _ _ E) as (gs1 & gs2 & -> & ->).
    exists (us :: gs1), gs2. rewrite <- Eb. auto.
Qed.

(** What a client reads of the memtable of a recovery. *)
Definition reads_as (mem : option MemTable) (max_sequence : Z) (ws : list DbWriter) : Prop :=
  max_sequence = zlen (writes ws) /\
  match mem with
  | None => writes ws = []
  | Some m => forall k, zlen k + 8 < 2 ^ 32 -> bytes_ok k -> key_ok k -> Get (new_LookupKey k max_sequence) m = Some (latest k (writes ws))
  end.

Lemma mem_holds_reads mem ws : mem_holds mem (writes ws) -> zlen (writes ws) <= kMaxSequenceNumber -> reads_as mem (zlen (writes ws)) ws.
Proof.
  intros Hm Hs. split; [reflexivity|]. destruct mem as [m|]; [|exact Hm]. intros k Hl Hb Hk. pose proof (zlen_nonneg (writes ws)).
  rewrite (Get_holds _ _ k (zlen (writes ws)) Hm) by (auto; lia). rewrite visible_latest by lia. reflexivity.
Qed.
End Recovery.

(** A crash leaves the beginning of the log: what was there at [db1], and more. *)
Section Crash.
Context {P : Port} {C : Comparator} {L : ComparatorLaws C} {H : Heap} {HL : HeapLaws H} {AR : Arena (list Z)} {A : Address}
  {F : Type} {W : WritableFile F} {WL : WritableFileLaws F} {R : ReliableFile F} {SY : SyncFile F} {SL : SyncFileLaws F}
  {G : Type} {SF : SequentialFile G} {GL : SequentialFileLaws G}.
Implicit Types (db : Db F).

Lemma writes_group_ok db hist lost : db_ok db hist lost -> Forall group_ok (map writes (hist ++ lost)).
Proof. intros Hdb. apply List.Forall_map. exact (dk_writes _ _ _ Hdb). Qed.

Lemma logged_size db hist lost : db_ok db hist lost -> zlen (writes (concat (hist ++ lost))) < kMaxSequenceNumber.
Proof.
  intros Hdb. destruct (logged_writers db hist lost Hdb) as [_ [more E]]. pose proof (dk_size _ _ _ Hdb) as Hs.
  rewrite <- !zlen_writes_app, <- app_assoc, E, zlen_writes_app in Hs. pose proof (zlen_nonneg (writes more)). lia.
Qed.

(** The groups that are left, and the beginning of a record. *)
Lemma log_cut db1 h1 l1 db2 h2 l2 n : db_ok db1 h1 l1 -> db_ok db2 h2 l2 -> grows db1 (h1 ++ l1) db2 (h2 ++ l2) ->
  zlen (contents (dest_ (log_ db1))) <= n <= zlen (contents (dest_ (log_ db2))) ->
  exists gs bytes off last last_bytes off2 k, h1 ++ l1 `prefix_of` gs /\ gs `prefix_of` h2 ++ l2 /\
    logged 0 (records_from 1 (map writes gs)) bytes off /\ fragmented true off last last_bytes off2 /\ bytes_ok last /\ 0 <= k < zlen last_bytes /\
    ztake n (contents (dest_ (log_ db2))) = bytes ++ ztake k last_bytes /\ n = zlen bytes + k.
Proof.
  intros H1 H2 (more & extra & Eg & Ec & Hlog) Hn. rewrite Ec in *. rewrite zlen_app in Hn. set (b1 := contents (dest_ (log_ db1))) in *.
  destruct (logged_cut _ _ _ _ Hlog (dk_offset _ _ _ H1) (n - zlen b1) ltac:(lia)) as
    (rs1 & rs2 & bx & offm & last & lb & off2 & k & Er & Hl & Hfr & Hk & Ecut & En & _ & Hh).
  pose proof (writes_group_ok _ _ _ H2) as Hok. rewrite Eg, map_app in Hok. apply Forall_app in Hok as [_ Hok].
  pose proof (records_ok _ Hok (1 + zlen (writes (concat (h1 ++ l1))))) as Hrs. rewrite Er in Hrs. apply Forall_app in Hrs as [_ Hrs].
  destruct (records_split _ _ _ _ Er) as (gs1 & gs2 & Em & ->). apply List.map_eq_app in Em as (m1 & m2 & -> & <- & <-).
  exists ((h1 ++ l1) ++ m1), (b1 ++ bx), offm, last, lb, off2, k.
  split; [apply prefix_app_r; reflexivity|]. split; [rewrite Eg, (app_assoc (h1 ++ l1)); apply prefix_app_r; reflexivity|].
  split.
  { rewrite map_app, records_from_app, writes_concat. exact (logged_app _ _ _ _ _ _ _ (dk_log _ _ _ H1) Hl). }
  split; [exact Hfr|]. split.
  { destruct Hh as [->|Hh]; [constructor|]. destruct rs2 as [|x rs2]; [discriminate|]. injection Hh as ->. apply List.Forall_cons_iff in Hrs. apply Hrs. }
  split; [exact Hk|]. replace n with (zlen b1 + (n - zlen b1)) by lia. rewrite ztake_app_add, Ecut, app_assoc by lia.
  split; [reflexivity|]. rewrite zlen_app. lia.
Qed.

(** What [RecoverLogFile] makes of the loop's result. *)
Lemma RecoverLogFile_ok (o : Options) fuel fuel' (g : G) last_log (logfile : F) size (gs : list (list DbWriter)) :
  recovered_from o [] (map writes gs) (recover_loop o fuel fuel' (log_reader g) OK None 0) ->
  zlen (writes (concat gs)) <= kMaxSequenceNumber ->
  match RecoverLogFile o fuel fuel' g last_log logfile size 0 with
  | None => False
  | Some (inl e) => e = bad_alloc
  | Some (inr (Recovered status mem max_sequence, _)) => status = OK /\ reads_as mem max_sequence (concat gs)
  | Some (inr (TableNeeded m max_sequence, _)) => exists gs1, gs1 `prefix_of` gs /\ reads_as (Some m) max_sequence (concat gs1) /\
      (gs1 = gs \/ write_buffer_size o < ApproximateMemoryUsage m)
  end.
Proof.
  intros Hr Hs. unfold RecoverLogFile. destruct (recover_loop _ _ _ _ _ _ _) as [[e|[status mem mx|m mx]]|]; [exact Hr| | |exact Hr]; cbn [recovered_from app] in Hr.
  - destruct Hr as (-> & Hm & ->). cbn [status_ok andb]. rewrite writes_concat in *.
    destruct (reuse_logs o && last_log).
    + destruct mem as [m|]; [split; [reflexivity|apply mem_holds_reads; assumption]|]. pose proof (mem_holds_made None _ Hm) as Hn.
      cbn beta iota in Hn. destruct new_MemTable as [e|m]; [exact Hn|]. split; [reflexivity|apply mem_holds_reads; assumption].
    + destruct mem as [m|]; [|split; [reflexivity|apply mem_holds_reads; assumption]].
      exists gs. split; [reflexivity|]. split; [apply mem_holds_reads; assumption|auto].
  - destruct Hr as (us1 & [us2 E] & Hm & -> & Hfull). apply List.map_eq_app in E as (gs1 & gs2 & -> & <- & <-).
    rewrite writes_concat in *. rewrite concat_app, zlen_writes_app in Hs. pose proof (zlen_nonneg (writes (concat gs2))).
    exists gs1. split; [apply prefix_app_r; reflexivity|]. split; [apply mem_holds_reads; [exact Hm|lia]|auto].
Qed.

Lemma concat_prefix {X} (a b : list (list X)) : a `prefix_of` b -> concat a `prefix_of` concat b.
Proof. intros [k ->]. rewrite concat_app. apply prefix_app_r. reflexivity. Qed.
End Crash.

(** * Theorems *)

(** C2: Any number of threads write to a new database, in any interleaving of their
    calls with the steps of the thread at the front of the queue.  No assertion of the
    code fails: not the one on the batch of the group, nor one of the memtable.  At
    every moment, also in the middle of a group, a [Get] at a snapshot returns for
    every key what the writes acknowledged up to that number leave of it, and a [Get]
    without a snapshot what all the acknowledged writes leave of it. *)
Theorem db_writes_in_order (P : Port) (C : Comparator) (L : ComparatorLaws C) (H : Heap) (HL : HeapLaws H) (AR : Arena (list Z)) (A : Address)
    F (W : WritableFile F) (WL : WritableFileLaws F) (R : ReliableFile F) (SY : SyncFile F) (SL : SyncFileLaws F)
    (o : Options) (f : F) (db0 db : Db F) :
  contents f = [] -> Open_new f = inr db0 -> rtc (db_step o) db0 db ->
  (forall e, Write_begin o db <> inl e) /\
  (forall c e, current_ db = Some c -> Write_step c db = inl e -> e = bad_alloc) /\
  forall k, zlen k + 8 < 2 ^ 32 -> bytes_ok k -> key_ok k ->
    (forall s, 0 <= s <= last_sequence_ db -> Db_Get (Some s) k db = Some (outcome (visible k s (number_from 1 (writes (acked db)))))) /\
    Db_Get None k db = Some (latest k (writes (acked db))).
Proof.
  intros Hf E Hst. destruct (reachable_ok o f db0 db Hf E Hst) as (hist & lost & Hok).
  split; [intros e Eb; pose proof (Write_begin_ok o db hist lost Hok) as Hb; rewrite Eb in Hb; exact Hb|].
  split; [intros c e Ec Es; pose proof (Write_step_ok db hist lost c Hok Ec) as Hs; rewrite Es in Hs; exact Hs|].
  intros k Hl Hb Hk. split; [intros s Hs; apply (Db_Get_ok db hist lost); assumption|].
  destruct (acked_in_memtable db hist lost Hok) as (_ & _ & Hlast & _). pose proof (zlen_nonneg (writes (acked db))).
  change (Db_Get None k db) with (Db_Get (Some (last_sequence_ db)) k db).
  rewrite (Db_Get_ok db hist lost k (last_sequence_ db)) by (auto; lia). rewrite visible_latest by lia. reflexivity.
Qed.

(** C1: The writes that were acknowledged survive a crash.  Let the log of a new
    database be on the disk as it was at some moment [db1] -- when it was last
    synced -- and perhaps something of what was appended until the crash at [db2].
    Then recovering it gives the writes of the first callers of the queue, in order
    and each batch as a whole or not at all, among them all the ones that had been
    acknowledged at [db1]; the next number is theirs.  No corruption is reported,
    with paranoid checks or without, and the log is read to its end, unless the
    memtable gets full before: then it holds the writes of the first callers too. *)
Theorem db_recovers_the_writes (P : Port) (C : Comparator) (L : ComparatorLaws C) (H : Heap) (HL : HeapLaws H) (AR : Arena (list Z)) (A : Address)
    F (W : WritableFile F) (WL : WritableFileLaws F) (R : ReliableFile F) (SY : SyncFile F) (SL : SyncFileLaws F)
    G (SF : SequentialFile G) (GL : SequentialFileLaws G)
    (o o' : Options) (f : F) (db0 db1 db2 : Db F) (g : G) (n : Z) (fuel fuel' : nat) (last_log : bool) (logfile : F) (size : Z) :
  contents f = [] -> Open_new f = inr db0 -> rtc (db_step o) db0 db1 -> rtc (db_step o) db1 db2 ->
  zlen (contents (dest_ (log_ db1))) <= n <= zlen (contents (dest_ (log_ db2))) -> unread g = ztake n (contents (dest_ (log_ db2))) ->
  n < Z.of_nat fuel -> n < Z.of_nat fuel' ->
  match RecoverLogFile o' fuel fuel' g last_log logfile size 0 with
  | None => False
  | Some (inl e) => e = bad_alloc
  | Some (inr (r, _)) => exists ws, ws `prefix_of` acked db2 ++ refused db2 ++ writers_ db2 /\
      match r with
      | Recovered status mem max_sequence => status = OK /\ acked db1 `prefix_of` ws /\ reads_as mem max_sequence ws
      | TableNeeded m max_sequence => (acked db1 `prefix_of` ws \/ write_buffer_size o' < ApproximateMemoryUsage m) /\
          reads_as (Some m) max_sequence ws
      end
  end.
Proof.
  intros Hf E Hst1 Hst2 Hn Hg Hfuel Hfuel'. destruct (reachable_ok o f db0 db1 Hf E Hst1) as (h1 & l1 & H1).
  destruct (db_steps_ok o db1 db2 Hst2 h1 l1 H1) as (h2 & l2 & H2 & Hgrow).
  destruct (log_cut db1 h1 l1 db2 h2 l2 n H1 H2 Hgrow Hn) as (gs & bytes & off & last & lb & off2 & k & Hp1 & Hp2 & Hlog & Hfr & Hlast & Hk & Ecut & En).
  destruct (logged_writers db1 h1 l1 H1) as [Hack _]. destruct (logged_writers db2 h2 l2 H2) as [_ Hall].
  pose proof (logged_size db2 h2 l2 H2) as Hsize. pose proof (writes_group_ok db2 h2 l2 H2) as Hok. destruct Hp2 as [gs' Ep].
  rewrite Ep in *. rewrite map_app in Hok. apply Forall_app in Hok as [Hok _]. rewrite concat_app, zlen_writes_app in Hsize.
  pose proof (zlen_nonneg (writes (concat gs'))). pose proof (logged_length _ _ _ _ Hlog ltac:(unfold LdbLog.kBlockSize; lia)) as Hlen. rewrite length_records in Hlen.
  assert (Hr : recovered_from o' [] (map writes gs) (recover_loop o' fuel fuel' (log_reader g) OK None 0)).
  { apply (recover_loop_ok o' fuel' (map writes gs) [] 0 bytes off last lb off2 k); auto; try lia.
    - apply reading_new. rewrite Hg. exact Ecut.
    - unfold LdbLog.kBlockSize. lia.
    - reflexivity.
    - rewrite writes_concat. change (zlen (@nil update)) with 0. lia. }
  pose proof (RecoverLogFile_ok o' fuel fuel' g last_log logfile size gs Hr ltac:(lia)) as Hrec.
  assert (Hpre : forall gs1, gs1 `prefix_of` gs -> concat gs1 `prefix_of` acked db2 ++ refused db2 ++ writers_ db2).
  { intros gs1 Hgs1. etransitivity; [apply concat_prefix, Hgs1|]. etransitivity; [|exact Hall]. rewrite concat_app. apply prefix_app_r. reflexivity. }
  assert (Hack' : acked db1 `prefix_of` concat gs) by (etransitivity; [exact Hack|apply concat_prefix, Hp1]).
  destruct (RecoverLogFile _ _ _ _ _ _ _ _) as [[e|[[status mem mx|m mx] w]]|]; [exact Hrec| | |exact Hrec].
  - destruct Hrec as [-> Hm]. exists (concat gs). split; [apply Hpre; reflexivity|auto].
  - destruct Hrec as (gs1 & Hgs1 & Hm & Hcase). exists (concat gs1). split; [apply Hpre, Hgs1|]. split; [|exact Hm].
    destruct Hcase as [->|Hfull]; auto.
Qed.

(** * An example *)

#[export] Instance bytes_sync : SyncFile (list Z) := {| file_Sync f := (true, f) |}.

#[export] Instance bytes_sync_laws : SyncFileLaws (list Z).
Proof. constructor. reflexivity. Qed.

Definition some_options : Options := {| write_buffer_size := 4194304; paranoid_checks := true; reuse_logs := true |}.

(** The next step of the thread at the front. *)
Definition go_on {P : Port} {C : Comparator} {L : ComparatorLaws C} {H : Heap} {AR : Arena (list Z)} {A : Address}
    {F} {W : WritableFile F} {SY : SyncFile F} (o : Options) (db : Db F) : Db F :=
  match current_ db with
  | Some c => match Write_step c db with inr db' => db' | inl _ => db end
  | None => match Write_begin o db with inr (Some db') => db' | _ => db end
  end.

Lemma go_on_steps {P : Port} {C : Comparator} {L : ComparatorLaws C} {H : Heap} {AR : Arena (list Z)} {A : Address}
    {F} {W : WritableFile F} {SY : SyncFile F} (o : Options) n (db : Db F) : rtc (db_step o) db (Nat.iter n (go_on o) db).
Proof.
  induction n as [|n IH]; [reflexivity|]. cbn [Nat.iter nat_rect]. etransitivity; [exact IH|]. set (db' := Nat.iter n (go_on o) db). change (rtc (db_step o) db' (go_on o db')).
  unfold go_on. destruct (current_ db') as [c|] eqn:Ec.
  - destruct (Write_step c db') as [e|db2] eqn:E; [reflexivity|]. apply rtc_once. eapply step_go; eassumption.
  - destruct (Write_begin o db') as [e|[db2|]] eqn:E; try reflexivity. apply rtc_once. eapply step_begin; eassumption.
Qed.

Definition writer1 := mkDbWriter (Some [UPut [107] [1]]) true.
Definition writer2 := mkDbWriter (Some [UDelete [107]; UPut [108] [2; 3]]) false.
Definition writer3 := mkDbWriter (Some [UPut [107] [4]]) false.

Section Example.
#[local] Existing Instances little BytewiseComparator BytewiseLaws bump_heap bump_heap_laws fresh_nodes anywhere.

Definition start_db : Db (list Z) := match Open_new [] with inr db => db | inl _ => mkDb (new_Writer []) (mkMemTable 0 new_Arena new_SkipList) None 0 Clear OK [] None [] end.

(** Two writers in one group, answered; and a third whose record is logged. *)
Definition example_db1 : Db (list Z) := Nat.iter 5 (go_on some_options) (Write_enqueue writer2 (Write_enqueue writer1 start_db)).
Definition example_db2 : Db (list Z) := Nat.iter 2 (go_on some_options) (Write_enqueue writer3 example_db1).

Lemma example_steps1 : Open_new [] = inr start_db /\ rtc (db_step some_options) start_db example_db1.
Proof.
  split; [vm_compute; reflexivity|]. unfold example_db1. rewrite <- go_on_steps.
  apply (rtc_l _ _ (Write_enqueue writer1 start_db)); [|apply rtc_once].
  - apply (step_enqueue some_options start_db writer1); [|vm_compute; reflexivity]. split; [|vm_compute; reflexivity]. repeat constructor; unfold byte_ok; lia.
  - apply (step_enqueue some_options (Write_enqueue writer1 start_db) writer2); [|vm_compute; reflexivity].
    split; [|vm_compute; reflexivity]. repeat constructor; unfold byte_ok; lia.
Qed.

Lemma example_steps2 : rtc (db_step some_options) example_db1 example_db2.
Proof.
  unfold example_db2. rewrite <- go_on_steps. apply rtc_once. apply (step_enqueue some_options example_db1 writer3); [|vm_compute; reflexivity].
  split; [|vm_compute; reflexivity]. repeat constructor; unfold byte_ok; lia.
Qed.

Lemma db_writes_in_order_witness :
  last_sequence_ example_db1 = 3 /\ Db_Get None [107] example_db1 = Some Deleted /\ Db_Get (Some 1) [107] example_db1 = Some (LdbMemTable.Value [1]) /\
  Db_Get None [108] example_db1 = Some (LdbMemTable.Value [2; 3]).
Proof.
  destruct example_steps1 as [E Hst].
  destruct (db_writes_in_order little BytewiseComparator BytewiseLaws bump_heap bump_heap_laws fresh_nodes anywhere (list Z)
    bytes_writable bytes_writable_laws bytes_reliable bytes_sync bytes_sync_laws some_options [] start_db example_db1 eq_refl E Hst) as (_ & _ & Hget).
  split; [vm_compute; reflexivity|].
  destruct (Hget [107] eq_refl ltac:(repeat constructor; unfold byte_ok; lia) ltac:(repeat constructor; unfold byte_ok; lia)) as [H1 H2].
  destruct (Hget [108] eq_refl ltac:(repeat constructor; unfold byte_ok; lia) ltac:(repeat constructor; unfold byte_ok; lia)) as [_ H3].
  split; [rewrite H2; vm_compute; reflexivity|]. split; [rewrite (H1 1) by (vm_compute; split; discriminate); vm_compute; reflexivity|].
  rewrite H3. vm_compute. reflexivity.
Defined.

Lemma db_recovers_the_writes_witness : let log := contents (dest_ (log_ example_db2)) in
  zlen (contents (dest_ (log_ example_db1))) = 33 /\ zlen log = 57 /\
  exists mem w ws, RecoverLogFile some_options 60 60 (ztake 55 log) true log 60 0 = Some (inr (Recovered OK mem (zlen (writes ws)), w)) /\
    [writer1; writer2] `prefix_of` ws /\ ws `prefix_of` [writer1; writer2; writer3] /\ reads_as mem (zlen (writes ws)) ws.
Proof.
  destruct example_steps1 as [E Hst].
  pose proof (db_recovers_the_writes little BytewiseComparator BytewiseLaws bump_heap bump_heap_laws fresh_nodes anywhere (list Z)
    bytes_writable bytes_writable_laws bytes_reliable bytes_sync bytes_sync_laws (list Z) bytes_sequential bytes_sequential_laws
    some_options some_options [] start_db example_db1 example_db2 (ztake 55 (contents (dest_ (log_ example_db2)))) 55 60 60 true
    (contents (dest_ (log_ example_db2))) 60 eq_refl E Hst example_steps2) as Hr.
  split; [vm_compute; reflexivity|]. split; [vm_compute; reflexivity|].
  assert (Hu : forall g : list Z, unread g = g) by reflexivity.
  specialize (Hr ltac:(vm_compute; split; discriminate) (Hu _) ltac:(reflexivity) ltac:(reflexivity)).
  assert (Hd : match RecoverLogFile some_options 60 60 (ztake 55 (contents (dest_ (log_ example_db2)))) true (contents (dest_ (log_ example_db2))) 60 0 with
    Some (inr (Recovered _ _ _, _)) => true | _ => false end = true) by (vm_compute; reflexivity).
  destruct (RecoverLogFile _ _ _ _ _ _ _ _) as [[e|[[st mem mx|m mx] w]]|]; [discriminate Hd| |discriminate Hd|discriminate Hd].
  - destruct Hr as (ws & Hp & -> & Ha & Hm). exists mem, w, ws. destruct Hm as [-> Hm]. split; [reflexivity|]. split; [exact Ha|]. split; [exact Hp|].
    split; [reflexivity|exact Hm].
Defined.
End Example.
