(* ===== verification/LdbIter.v ===== *)
(** leveldb/include/leveldb/iterator.h: iterators, and those of a memtable.

    An iterator is a type with the class [Iterator]; [Iterates] is what the interface
    promises: it is somewhere in a list of entries, or nowhere, and moves in it.  What
    iterates over several iterators or shows another view of one is proved against
    this promise, and makes it in turn. *)
From Stdlib Require Import ZArith Lia Strings.String.
From Stdlib Require Sorted.
From stdpp Require Import base list numbers gmap option sorting.
From S2P Require Import Prelude LdbCoding LdbLog LdbFormat LdbSkip LdbArena LdbMemTable LdbBatch.

Open Scope Z_scope.

(** A key and a value. *)
Definition entry : Type := list Z * list Z.

(** The functions of the interface; [None] is a failed assertion. *)
Class Iterator (I : Type) := {
  it_Valid : I -> bool;
  it_SeekToFirst : I -> option I;
  it_SeekToLast : I -> option I;
  it_Seek : list Z -> I -> option I;
  it_Next : I -> option I;
  it_Prev : I -> option I;
  it_key : I -> option (list Z);
  it_value : I -> option (list Z);
  it_status : I -> Status }.

(** Which way an iterator made of others is moving. *)
Inductive Direction := kForward | kReverse.

(** * The promise *)

(** A place in a list: off it, or at an entry, with what is before it, the nearest
    first, and what is after it. *)
Inductive cursor := Off | At (before : list entry) (e : entry) (after : list entry).

Definition ahead (before after : list entry) : cursor := match after with [] => Off | e :: after => At before e after end.
Definition behind (before after : list entry) : cursor := match before with [] => Off | e :: before => At before e after end.

(** The first place where [p] holds. *)
Fixpoint scan (p : entry -> bool) (before after : list entry) : cursor :=
  match after with
  | [] => Off
  | e :: rest => if p e then At before e rest else scan p (e :: before) rest
  end.

Class Iterates {I} (IT : Iterator I) (cmp : list Z -> list Z -> Z) (target_ok : list Z -> Prop) (es : list entry) (pos : I -> cursor -> Prop) : Prop := {
  pos_at : forall i before e after, pos i (At before e after) -> rev before ++ e :: after = es /\ it_Valid i = true /\
    it_key i = Some (fst e) /\ it_value i = Some (snd e);
  pos_off : forall i, pos i Off -> it_Valid i = false;
  pos_status : forall i c, pos i c -> it_status i = OK;
  pos_SeekToFirst : forall i c, pos i c -> exists i', it_SeekToFirst i = Some i' /\ pos i' (ahead [] es);
  pos_SeekToLast : forall i c, pos i c -> exists i', it_SeekToLast i = Some i' /\ pos i' (behind (rev es) []);
  pos_Seek : forall i c k, pos i c -> target_ok k -> exists i', it_Seek k i = Some i' /\ pos i' (scan (fun e => 0 <=? cmp (fst e) k) [] es);
  pos_Next : forall i before e after, pos i (At before e after) -> exists i', it_Next i = Some i' /\ pos i' (ahead (e :: before) after);
  pos_Prev : forall i before e after, pos i (At before e after) -> exists i', it_Prev i = Some i' /\ pos i' (behind before (e :: after)) }.

Lemma Iterates_targets {I} (IT : Iterator I) cmp (target_ok target_ok' : list Z -> Prop) es pos : (forall k, target_ok' k -> target_ok k) ->
  Iterates IT cmp target_ok es pos -> Iterates IT cmp target_ok' es pos.
Proof. intros Ht []. constructor; eauto. Qed.

Lemma scan_app p : forall a before b, Forall (fun e => p e = false) a -> scan p before (a ++ b) = scan p (rev a ++ before) b.
Proof.
  induction a as [|e a IH]; intros before b Ha; [reflexivity|]. apply List.Forall_cons_iff in Ha as [He Ha].
  cbn [app scan rev]. rewrite He, IH by exact Ha. rewrite <- app_assoc. reflexivity.
Qed.

Lemma scan_ahead p before after : match after with [] => True | e :: _ => p e = true end -> scan p before after = ahead before after.
Proof. destruct after as [|e after]; [reflexivity|]. intros E. cbn. rewrite E. reflexivity. Qed.

(** * The iterator of a memtable *)

Section OfMemTable.
Context {P : Port} {C : Comparator} {L : ComparatorLaws C} {H : Heap} {AR : Arena (list Z)}.

(** The table and the node of [Table::Iterator]. *)
Record MemTableIterator := mkMemTableIterator { list_ : MemTable; node_ : option Z }.

Definition NewIterator (t : MemTable) : MemTableIterator := mkMemTableIterator t None.

Definition to_node (t : MemTable) (r : option (option Z)) : option MemTableIterator := n ← r; Some (mkMemTableIterator t n).

#[export] Instance MemTable_Iterator : Iterator MemTableIterator := {|
  it_Valid i := Iterator_Valid (node_ i);
  it_SeekToFirst i := to_node (list_ i) (Iterator_SeekToFirst (table_ (list_ i)));
  it_SeekToLast i := to_node (list_ i) (Iterator_SeekToLast (table_ (list_ i)));
  it_Seek k i := to_node (list_ i) (MemTableIterator_Seek (list_ i) k);
  it_Next i := to_node (list_ i) (Iterator_Next (table_ (list_ i)) (node_ i));
  it_Prev i := to_node (list_ i) (Iterator_Prev (table_ (list_ i)) (node_ i));
  it_key i := MemTableIterator_key (list_ i) (node_ i);
  it_value i := MemTableIterator_value (list_ i) (node_ i);
  it_status _ := OK |}.

Definition op_pair (o : op) : entry := (op_ikey o, op_value o).

(** Where the iterator is: the node has the keys from there on. *)
Definition at_node (t : MemTable) (sops : list op) (node : option Z) (c : cursor) : Prop :=
  match c with
  | Off => node = None
  | At before e after => exists b o a, before = map op_pair b /\ e = op_pair o /\ after = map op_pair a /\ rev b ++ o :: a = sops /\
      keys_from (table_ t) node = Some (map op_entry (o :: a))
  end.

Lemma at_ahead t sops node b a : rev b ++ a = sops -> keys_from (table_ t) node = Some (map op_entry a) ->
  at_node t sops node (ahead (map op_pair b) (map op_pair a)).
Proof. intros E Hk. destruct a as [|o a]; [apply keys_from_end in Hk; exact Hk|]. cbn. exists b, o, a. auto. Qed.

Lemma at_behind t sops node b a : rev b ++ a = sops ->
  keys_from (table_ t) node = Some (match last (map op_entry (rev b)) with Some e => e :: map op_entry a | None => [] end) ->
  at_node t sops node (behind (map op_pair b) (map op_pair a)).
Proof.
  intros E Hk. destruct b as [|o b]; [apply keys_from_end in Hk; exact Hk|]. cbn [rev] in *. rewrite map_app in Hk. cbn [map] in Hk. rewrite last_snoc in Hk.
  cbn. exists b, o, a. rewrite <- app_assoc in E. auto.
Qed.

Definition mem_at (t : MemTable) (sops : list op) (i : MemTableIterator) (c : cursor) : Prop :=
  list_ i = t /\ listed (table_ t) (node_ i) /\ at_node t sops (node_ i) c.

Lemma to_node_ok t sops r n c : r = Some n -> listed (table_ t) n -> at_node t sops n c -> exists i, to_node t r = Some i /\ mem_at t sops i c.
Proof. intros -> Hl Hn. exists (mkMemTableIterator t n). split; [reflexivity|split; [reflexivity|split; [exact Hl|exact Hn]]]. Qed.

(** [Prev] only looks at the key of the node. *)
Lemma Iterator_Prev_node t x y (k : list Z) : Iterator_key (table_ t) (Some x) = Some k -> Iterator_key (table_ t) (Some y) = Some k ->
  Iterator_Prev (table_ t) (Some x) = Iterator_Prev (table_ t) (Some y).
Proof. unfold Iterator_key, Iterator_Prev. cbn [mbind option_bind]. intros -> ->. reflexivity. Qed.

(** A target is an internal key. *)
Definition internal_target (k : list Z) : Prop := internal_ok k /\ bytes_ok k /\ zlen k < 2 ^ 32.

Lemma scan_sorted t k (q : entry -> bool) (a : list op) : internal_ok k -> q = (fun e => 0 <=? internal_Compare (fst e) k) -> Forall op_ok a ->
  StronglySorted (fun a b => internal_Compare (op_ikey a) (op_ikey b) < 0) a ->
  forall target sops n, (forall o, op_ok o -> compare_ (op_entry o) target = internal_Compare (op_ikey o) k) ->
  forall b, rev b ++ a = sops -> keys_from (table_ t) n = Some (keys_at target (map op_entry a)) ->
  at_node t sops n (scan q (map op_pair b) (map op_pair a)).
Proof.
  intros Hk -> Ha Hsort target sops n Hc. induction a as [|o a IH]; intros b Eb Hn; [apply keys_from_end in Hn; exact Hn|].
  apply List.Forall_cons_iff in Ha as [Ho Ha]. apply StronglySorted_inv in Hsort as [Hsort Hall]. cbn [map scan op_pair fst].
  unfold keys_at in Hn. cbn [map List.filter] in Hn. rewrite (Hc o Ho) in Hn. destruct (Z.leb_spec 0 (internal_Compare (op_ikey o) k)) as [Hge|Hlt].
  - exists b, o, a. split; [reflexivity|]. split; [reflexivity|]. split; [reflexivity|]. split; [exact Eb|].
    rewrite Hn. cbn [map]. f_equal. f_equal. rewrite List.forallb_filter_id; [reflexivity|]. apply List.forallb_forall.
    intros x Hx. apply List.in_map_iff in Hx as (o' & <- & Hx). rewrite Forall_forall in Ha. rewrite Forall_forall in Hall.
    apply list_elem_of_In in Hx. rewrite Hc by auto. specialize (Hall o' Hx). cbv beta in Hall. apply Z.leb_le.
    destruct (Z.lt_ge_cases (internal_Compare (op_ikey o') k) 0) as [Hlt|]; [exfalso|assumption].
    assert (Ho' : internal_ok (op_ikey o')) by (apply op_entry_parts, Ha, Hx). assert (Hoi : internal_ok (op_ikey o)) by (apply op_entry_parts, Ho).
    pose proof (internal_sym _ _ Hoi Hk). pose proof (internal_trans _ _ _ Hk Hoi Ho'). pose proof (internal_sym _ _ Ho' Hk). lia.
  - change (op_pair o :: map op_pair b) with (map op_pair (o :: b)). apply IH; auto. cbn [rev]. rewrite <- app_assoc. exact Eb.
Qed.

Lemma MemTable_iterates t (sops : list op) : represents (table_ t) (map op_entry sops) -> Forall op_ok sops ->
  StronglySorted (fun a b => internal_Compare (op_ikey a) (op_ikey b) < 0) sops ->
  Iterates MemTable_Iterator internal_Compare internal_target (map op_pair sops) (mem_at t sops).
Proof.
  intros Hr Hops Hsorted. constructor.
  - intros i before e after [Ei [Hli (b & o & a & -> & -> & -> & <- & Hk)]]. split; [rewrite map_app, map_rev; reflexivity|].
    destruct (keys_from_node _ _ _ _ Hk) as (x & En & Hx). cbn [it_Valid it_key it_value MemTable_Iterator]. rewrite Ei, En. split; [reflexivity|].
    apply iterator_entry; [|exact Hx]. apply Forall_app in Hops as [_ Hops]. apply List.Forall_cons_iff in Hops. apply Hops.
  - intros i (_ & _ & Hn). cbn [it_Valid MemTable_Iterator]. rewrite Hn. reflexivity.
  - reflexivity.
  - intros i c [Ei _]. destruct (SeekToFirst_ok _ _ Hr) as (n & E & Hn). cbn [it_SeekToFirst MemTable_Iterator]. rewrite Ei.
    apply (to_node_ok t sops _ n _ E (SeekToFirst_listed _ _ _ Hr E)). apply (at_ahead t sops n [] sops eq_refl Hn).
  - intros i c [Ei _]. destruct (SeekToLast_ok _ _ Hr) as (n & E & Hn). cbn [it_SeekToLast MemTable_Iterator]. rewrite Ei, <- map_rev.
    apply (to_node_ok t sops _ n _ E (SeekToLast_listed _ _ _ Hr E)).
    apply (at_behind t sops n (rev sops) []); [rewrite rev_involutive, app_nil_r; reflexivity|rewrite rev_involutive; exact Hn].
  - intros i c k [Ei _] (Hk & Hb & Hl). set (target := EncodeKey k). assert (Et : target = EncodeVarint32 (zlen k) ++ k ++ []).
    { unfold target. rewrite iterator_seek_key, app_nil_r by exact Hl. reflexivity. }
    assert (Hv : entry_ok target) by (rewrite Et; eexists _, _; split; [reflexivity|]; rewrite app_nil_r; auto).
    destruct (Iterator_Seek_ok (table_ t) _ target Hr Hv) as (n & E & Hn). cbn [it_Seek MemTable_Iterator]. rewrite Ei.
    apply (to_node_ok t sops _ n _ E (Seek_listed _ _ _ _ Hr Hv E)). refine (scan_sorted t k _ sops Hk eq_refl Hops Hsorted target sops n _ [] eq_refl Hn).
    intros o Ho. destruct (op_entry_parts o Ho) as (_ & H1 & H2). rewrite Et, (op_entry_eq o Ho). apply KeyComparator_entries; auto. rewrite app_nil_r. exact Hb.
  - intros i before e after [Ei [Hli (b & o & a & -> & -> & -> & Es & Hk)]]. cbn [it_Next MemTable_Iterator]. rewrite Ei.
    destruct (keys_from_node _ _ _ _ Hk) as (x & En & _). rewrite En in *.
    destruct (Next_keys_from _ _ _ _ Hk) as (n & E & Hn). apply (to_node_ok t sops _ n _ E (Next_listed _ _ _ Hli E)). apply (at_ahead t sops n (o :: b) a); [|exact Hn].
    cbn [rev]. rewrite <- app_assoc. exact Es.
  - intros i before e after [Ei [Hli (b & o & a & -> & -> & -> & Es & Hk)]]. cbn [it_Prev MemTable_Iterator]. rewrite Ei.
    destruct (keys_from_node _ _ _ _ Hk) as (x & En & Hx). rewrite En.
    pose proof Hr as Hr'. rewrite <- Es, map_app in Hr'. cbn [map] in Hr'. assert (Ho : op_ok o).
    { rewrite <- Es in Hops. apply Forall_app in Hops as [_ Hops]. apply List.Forall_cons_iff in Hops. apply Hops. }
    destruct (Prev_ok _ _ _ _ Hr' (op_entry_valid o Ho)) as (n & n' & _ & Hn & E & Hn').
    destruct (keys_from_node _ _ _ _ Hn) as (y & -> & Hy). rewrite <- (Iterator_Prev_node t x y _ Hx Hy) in E.
    apply (to_node_ok t sops _ n' _ E); [exact (Prev_listed _ _ _ _ _ Hr Hx (op_entry_valid o Ho) E)|].
    apply (at_behind t sops n' b (o :: a) Es). exact Hn'.
Qed.
End OfMemTable.
