(* ===== verification/LdbMerge.v ===== *)
(** leveldb/table/merger.cc, table/iterator_wrapper.h: one iterator over several.

    The children are sorted lists without a key in common; the merging iterator is
    the sorted list of all their entries, in both directions. *)
From Stdlib Require Import ZArith Lia Strings.String.
From Stdlib Require Sorted.
From stdpp Require Import base list numbers gmap option sorting.
From S2P Require Import Prelude LdbCoding LdbLog LdbFormat LdbSkip LdbBatch LdbIter.

Open Scope Z_scope.

(** * The code *)

Section Code.
Context {C : Comparator} {I : Type} {IT : Iterator I}.

(** The wrapper keeps what [Valid] and [key] return. *)
Record IteratorWrapper := mkWrapper { w_iter : I; w_valid : bool; w_key : list Z }.

Definition Update (i : I) (old : list Z) : option IteratorWrapper :=
  if it_Valid i then k ← it_key i; Some (mkWrapper i true k) else Some (mkWrapper i false old).

Definition Set_ (i : I) : option IteratorWrapper := Update i [].

Definition Wrapper_Iterator : Iterator IteratorWrapper := {|
  it_Valid := w_valid;
  it_SeekToFirst w := i ← it_SeekToFirst (w_iter w); Update i (w_key w);
  it_SeekToLast w := i ← it_SeekToLast (w_iter w); Update i (w_key w);
  it_Seek k w := i ← it_Seek k (w_iter w); Update i (w_key w);
  it_Next w := i ← it_Next (w_iter w); Update i (w_key w);
  it_Prev w := i ← it_Prev (w_iter w); Update i (w_key w);
  it_key w := if w_valid w then Some (w_key w) else None;
  it_value w := if w_valid w then it_value (w_iter w) else None;
  it_status w := it_status (w_iter w) |}.
#[local] Existing Instance Wrapper_Iterator.

(** The current child by its index. *)
Record MergingIterator := mkMerging { children_ : list IteratorWrapper; current_ : option nat; m_direction_ : Direction }.

Definition new_MergingIterator (children : list I) : option MergingIterator :=
  ws ← mapM Set_ children; Some (mkMerging ws None kForward).

(** The loops of [FindSmallest] and [FindLargest], over the children with their
    indices: [better] is what the comparison says of a child that is to be taken. *)
Fixpoint find_loop (better : Z -> bool) (l : list (nat * IteratorWrapper)) (best : option (nat * IteratorWrapper)) : option (option (nat * IteratorWrapper)) :=
  match l with
  | [] => Some best
  | (i, child) :: l =>
    if it_Valid child then
      match best with
      | None => find_loop better l (Some (i, child))
      | Some (_, other) =>
        k ← it_key child;
        k' ← it_key other;
        find_loop better l (if better (Compare k k') then Some (i, child) else best)
      end
    else find_loop better l best
  end.

Definition indexed (ws : list IteratorWrapper) : list (nat * IteratorWrapper) := imap (fun i w => (i, w)) ws.

Definition FindSmallest (d : Direction) (ws : list IteratorWrapper) : option MergingIterator :=
  best ← find_loop (fun c => c <? 0) (indexed ws) None; Some (mkMerging ws (fst <$> best) d).

Definition FindLargest (d : Direction) (ws : list IteratorWrapper) : option MergingIterator :=
  best ← find_loop (fun c => 0 <? c) (rev (indexed ws)) None; Some (mkMerging ws (fst <$> best) d).

Definition Merging_SeekToFirst (m : MergingIterator) : option MergingIterator :=
  ws ← mapM it_SeekToFirst (children_ m); FindSmallest kForward ws.

Definition Merging_SeekToLast (m : MergingIterator) : option MergingIterator :=
  ws ← mapM it_SeekToLast (children_ m); FindLargest kReverse ws.

Definition Merging_Seek (target : list Z) (m : MergingIterator) : option MergingIterator :=
  ws ← mapM (it_Seek target) (children_ m); FindSmallest kForward ws.

(** What the loops do with the children other than [current_]. *)
Fixpoint each_other (f : IteratorWrapper -> option IteratorWrapper) (j : nat) (ws : list IteratorWrapper) : option (list IteratorWrapper) :=
  match ws with
  | [] => Some []
  | w :: ws =>
    match j with
    | O => ws' ← mapM f ws; Some (w :: ws')
    | S j => w' ← f w; ws' ← each_other f j ws; Some (w' :: ws')
    end
  end.

Definition Merging_key (m : MergingIterator) : option (list Z) := j ← current_ m; w ← children_ m !! j; it_key w.
Definition Merging_value (m : MergingIterator) : option (list Z) := j ← current_ m; w ← children_ m !! j; it_value w.

Definition after_key (key : list Z) (child : IteratorWrapper) : option IteratorWrapper :=
  child ← it_Seek key child;
  if it_Valid child then k ← it_key child; if Compare key k =? 0 then it_Next child else Some child else Some child.

Definition before_key (key : list Z) (child : IteratorWrapper) : option IteratorWrapper :=
  child ← it_Seek key child;
  if it_Valid child then it_Prev child else it_SeekToLast child.

Definition Merging_Next (m : MergingIterator) : option MergingIterator :=
  j ← current_ m;
  key ← Merging_key m;
  ws ← (match m_direction_ m with kForward => Some (children_ m) | kReverse => each_other (after_key key) j (children_ m) end);
  w ← ws !! j;
  w ← it_Next w;
  FindSmallest kForward (<[j := w]> ws).

Definition Merging_Prev (m : MergingIterator) : option MergingIterator :=
  j ← current_ m;
  key ← Merging_key m;
  ws ← (match m_direction_ m with kReverse => Some (children_ m) | kForward => each_other (before_key key) j (children_ m) end);
  w ← ws !! j;
  w ← it_Prev w;
  FindLargest kReverse (<[j := w]> ws).

(** The status of the first child that has an error, if any. *)
Fixpoint first_status (ws : list IteratorWrapper) : Status :=
  match ws with
  | [] => OK
  | w :: ws => if status_ok (it_status w) then first_status ws else it_status w
  end.

Definition Merging_Iterator : Iterator MergingIterator := {|
  it_Valid m := match current_ m with Some _ => true | None => false end;
  it_SeekToFirst := Merging_SeekToFirst;
  it_SeekToLast := Merging_SeekToLast;
  it_Seek := Merging_Seek;
  it_Next := Merging_Next;
  it_Prev := Merging_Prev;
  it_key := Merging_key;
  it_value := Merging_value;
  it_status m := first_status (children_ m) |}.

(** The iterator of [NewEmptyIterator] and [NewErrorIterator] has only a status. *)
Definition EmptyIterator : Type := Status.

Definition Empty_Iterator : Iterator EmptyIterator := {|
  it_Valid _ := false;
  it_SeekToFirst e := Some e;
  it_SeekToLast e := Some e;
  it_Seek _ e := Some e;
  it_Next _ := None;
  it_Prev _ := None;
  it_key _ := None;
  it_value _ := None;
  it_status e := e |}.

Definition NewEmptyIterator : EmptyIterator := OK.
Definition NewErrorIterator (status : Status) : EmptyIterator := status.

(** What [NewMergingIterator] returns is one of three. *)
Inductive Merged := AEmpty (e : EmptyIterator) | AChild (i : I) | AMerging (m : MergingIterator).

Definition NewMergingIterator (children : list I) : option Merged :=
  match children with
  | [] => Some (AEmpty NewEmptyIterator)
  | [child] => Some (AChild child)
  | _ => m ← new_MergingIterator children; Some (AMerging m)
  end.

(** A virtual call goes to the one it is. *)
Definition on_merged {R : Type} (f : EmptyIterator -> R) (g : I -> R) (h : MergingIterator -> R) (a : Merged) : R :=
  match a with AEmpty e => f e | AChild i => g i | AMerging m => h m end.

Definition step_merged (f : EmptyIterator -> option EmptyIterator) (g : I -> option I) (h : MergingIterator -> option MergingIterator) (a : Merged) : option Merged :=
  on_merged (fun e => AEmpty <$> f e) (fun i => AChild <$> g i) (fun m => AMerging <$> h m) a.

Definition Merged_Iterator : Iterator Merged :=
  let E := Empty_Iterator in let M := Merging_Iterator in {|
  it_Valid := on_merged (@it_Valid _ E) it_Valid (@it_Valid _ M);
  it_SeekToFirst := step_merged (@it_SeekToFirst _ E) it_SeekToFirst (@it_SeekToFirst _ M);
  it_SeekToLast := step_merged (@it_SeekToLast _ E) it_SeekToLast (@it_SeekToLast _ M);
  it_Seek k := step_merged (@it_Seek _ E k) (it_Seek k) (@it_Seek _ M k);
  it_Next := step_merged (@it_Next _ E) it_Next (@it_Next _ M);
  it_Prev := step_merged (@it_Prev _ E) it_Prev (@it_Prev _ M);
  it_key := on_merged (@it_key _ E) it_key (@it_key _ M);
  it_value := on_merged (@it_value _ E) it_value (@it_value _ M);
  it_status := on_merged (@it_status _ E) it_status (@it_status _ M) |}.
End Code.
Arguments Merged : clear implicits.
Arguments IteratorWrapper : clear implicits.
Arguments MergingIterator : clear implicits.

(** * Places in sorted lists *)

Definition first_of (c : cursor) : option entry := match c with Off => None | At _ e _ => Some e end.
Definition flip (c : cursor) : cursor := match c with Off => Off | At b e a => At a e b end.

(** Going back to the nearest place where [p] holds. *)
Fixpoint rscan (p : entry -> bool) (before after : list entry) : cursor :=
  match before with
  | [] => Off
  | e :: rest => if p e then At rest e after else rscan p rest (e :: after)
  end.

Lemma rscan_flip p b : forall a, rscan p b a = flip (scan p a b).
Proof. induction b as [|e b IH]; intros a; [reflexivity|]. cbn [rscan scan]. destruct (p e); [reflexivity|apply IH]. Qed.

Lemma scan_first p l : forall b, first_of (scan p b l) = List.find p l.
Proof. induction l as [|e l IH]; intros b; [reflexivity|]. cbn [scan List.find]. destruct (p e); [reflexivity|apply IH]. Qed.

Lemma rscan_first p l b : first_of (rscan p l b) = List.find p l.
Proof. rewrite rscan_flip, <- (scan_first p l b). destruct (scan p b l); reflexivity. Qed.

Lemma scan_ext p q l : forall b, (forall e, e ∈ l -> p e = q e) -> scan p b l = scan q b l.
Proof.
  induction l as [|e l IH]; intros b Hpq; [reflexivity|]. cbn [scan]. rewrite (Hpq e) by (apply elem_of_cons; auto).
  destruct (q e); [reflexivity|]. apply IH. intros x Hx. apply Hpq, elem_of_cons. auto.
Qed.

Lemma rscan_ext p q l b : (forall e, e ∈ l -> p e = q e) -> rscan p l b = rscan q l b.
Proof. intros Hpq. rewrite !rscan_flip, (scan_ext p q) by exact Hpq. reflexivity. Qed.

Lemma scan_inv p l : forall b0 b e a, scan p b0 l = At b e a -> rev b0 ++ l = rev b ++ e :: a.
Proof.
  induction l as [|x l IH]; intros b0 b e a; [discriminate|]. cbn [scan]. destruct (p x).
  - intros [= <- <- <-]. reflexivity.
  - intros E. apply IH in E. rewrite <- E. cbn [rev]. rewrite <- app_assoc. reflexivity.
Qed.

Lemma rscan_inv p l b e a : rscan p (rev l) [] = At b e a -> l = rev b ++ e :: a.
Proof.
  rewrite rscan_flip. intros E. destruct (scan p [] (rev l)) as [|a' e' b'] eqn:Es; [discriminate|]. injection E as <- <- <-.
  apply scan_inv in Es. cbn in Es. rewrite <- (rev_involutive l), Es, rev_app_distr. cbn [rev]. rewrite rev_involutive, <- app_assoc. reflexivity.
Qed.

Lemma rscan_app p a : forall b after, Forall (fun e => p e = false) a -> rscan p (a ++ b) after = rscan p b (rev a ++ after).
Proof. intros b after Ha. rewrite rscan_flip, scan_app, <- rscan_flip by exact Ha. reflexivity. Qed.

Lemma rscan_behind p before after : match before with [] => True | e :: _ => p e = true end -> rscan p before after = behind before after.
Proof. destruct before as [|e before]; [reflexivity|]. intros E. cbn. rewrite E. reflexivity. Qed.

(** The forward and the backward order of a comparator. *)
Definition forward_order {C : Comparator} (L : ComparatorLaws C) : KeyOrder (list Z) :=
  {| compare_ := Compare; key_valid := key_ok; compare_refl := Compare_refl; compare_sym := Compare_sym; compare_trans := Compare_trans |}.

Program Definition backward_order {C : Comparator} (L : ComparatorLaws C) : KeyOrder (list Z) :=
  {| compare_ a b := Compare b a; key_valid := key_ok; compare_refl := Compare_refl |}.
Next Obligation. intros C L a b Ha Hb. apply Compare_sym; assumption. Qed.
Next Obligation. intros C L a b c Ha Hb Hc Hab Hbc. apply (Compare_trans c b a); assumption. Qed.

Section Lists.
Context {KO : KeyOrder (list Z)}.
Implicit Types (e x y : entry) (l : list entry) (q : entry -> bool).

Definition lt_ e x : Prop := compare_ (fst e) (fst x) < 0.
Definition sorted_entries l : Prop := StronglySorted lt_ l /\ Forall (fun e => key_valid (fst e)) l.

Definition upward q : Prop := forall e x, key_valid (fst e) -> key_valid (fst x) -> q e = true -> compare_ (fst e) (fst x) <= 0 -> q x = true.

Lemma in_valid l e : sorted_entries l -> e ∈ l -> key_valid (fst e).
Proof. intros [_ Hv] He. rewrite Forall_forall in Hv. apply Hv, He. Qed.

Lemma sorted_at b e a : sorted_entries (rev b ++ e :: a) -> (forall x, x ∈ b -> lt_ x e) /\ (forall x, x ∈ a -> lt_ e x).
Proof.
  intros [Hs _]. split; intros x Hx.
  - apply (StronglySorted_app_1_elem_of lt_ (rev b) (e :: a) x e Hs); [apply list_elem_of_In, in_rev; rewrite rev_involutive; apply list_elem_of_In, Hx|apply elem_of_cons; auto].
  - apply StronglySorted_app_1_r in Hs. apply StronglySorted_inv in Hs as [_ Hs]. rewrite Forall_forall in Hs. apply Hs, Hx.
Qed.

Lemma lt_asym e x : key_valid (fst e) -> key_valid (fst x) -> lt_ e x -> compare_ (fst x) (fst e) <= 0 -> False.
Proof. intros He Hx Hlt Hle. unfold lt_ in Hlt. apply compare_sym in Hlt; auto. lia. Qed.

Lemma find_least q l e : sorted_entries l -> List.find q l = Some e -> forall x, x ∈ l -> q x = true -> compare_ (fst e) (fst x) <= 0.
Proof.
  induction l as [|y l IH]; intros [Hs Hv] E x Hx Hq; [inversion Hx|]. cbn [List.find] in E. apply StronglySorted_inv in Hs as [Hs Hy].
  apply List.Forall_cons_iff in Hv as [Hvy Hv]. destruct (q y) eqn:Eq.
  - injection E as <-. apply elem_of_cons in Hx as [->|Hx]; [rewrite compare_refl by exact Hvy; reflexivity|].
    rewrite Forall_forall in Hy. specialize (Hy x Hx). unfold lt_ in Hy. lia.
  - apply elem_of_cons in Hx as [->|Hx]; [congruence|]. apply IH; auto. split; assumption.
Qed.

Lemma sorted_same l e x : sorted_entries l -> e ∈ l -> x ∈ l -> compare_ (fst e) (fst x) = 0 -> e = x.
Proof.
  induction l as [|y l IH]; intros [Hs Hv] He Hx E; [inversion He|]. apply StronglySorted_inv in Hs as [Hs Hy].
  apply List.Forall_cons_iff in Hv as [Hvy Hv]. rewrite Forall_forall in Hy. rewrite Forall_forall in Hv.
  apply elem_of_cons in He as [->|He]; apply elem_of_cons in Hx as [->|Hx]; [reflexivity| | |apply IH; auto; split; [assumption|apply Forall_forall, Hv]].
  - specialize (Hy x Hx). unfold lt_ in Hy. lia.
  - specialize (Hy e He). unfold lt_ in Hy. pose proof (compare_sym (fst y) (fst e) Hvy (Hv e He)). lia.
Qed.

(** The least of the first places of some lists is the first place of all of them. *)
Lemma merged_find n (ls : nat -> list entry) (m : list entry) q : (forall i, (i < n)%nat -> sorted_entries (ls i)) -> sorted_entries m ->
  (forall e, e ∈ m <-> exists i, (i < n)%nat /\ e ∈ ls i) -> upward q ->
  (forall j e, (j < n)%nat -> List.find q (ls j) = Some e ->
     (forall i x, (i < n)%nat -> List.find q (ls i) = Some x -> compare_ (fst e) (fst x) <= 0) -> List.find q m = Some e) /\
  ((forall i, (i < n)%nat -> List.find q (ls i) = None) -> List.find q m = None).
Proof.
  intros Hls Hm Hin Hq. split.
  - intros j e Hj E Hmin. destruct (List.find_some _ _ E) as [Hej Hqe]. apply list_elem_of_In in Hej.
    destruct (List.find q m) as [x|] eqn:Ex; [f_equal|exfalso; pose proof (List.find_none _ _ Ex e) as Hn; rewrite Hn in Hqe; [discriminate|apply list_elem_of_In, Hin; eauto]].
    destruct (List.find_some _ _ Ex) as [Hx Hqx]. apply list_elem_of_In in Hx. assert (Hem : e ∈ m) by (apply Hin; eauto).
    pose proof (find_least q m x Hm Ex e Hem Hqe) as H1. apply Hin in Hx as Hx'. destruct Hx' as (i & Hi & Hxi).
    destruct (List.find q (ls i)) as [y|] eqn:Ey; [|pose proof (List.find_none _ _ Ey x) as Hn; rewrite Hn in Hqx; [discriminate|apply list_elem_of_In, Hxi]].
    pose proof (Hmin i y Hi Ey) as H2. pose proof (find_least q (ls i) y (Hls i Hi) Ey x Hxi Hqx) as H3.
    destruct (List.find_some _ _ Ey) as [Hy _]. apply list_elem_of_In in Hy.
    pose proof (in_valid _ _ Hm Hx) as Vx. pose proof (in_valid _ _ Hm Hem) as Ve. pose proof (in_valid _ _ (Hls i Hi) Hy) as Vy.
    pose proof (compare_trans _ _ _ Ve Vy Vx H2 H3) as H4. apply (sorted_same m); auto. pose proof (compare_sym (fst x) (fst e) Vx Ve). lia.
  - intros Hno. destruct (List.find q m) as [x|] eqn:Ex; [exfalso|reflexivity]. destruct (List.find_some _ _ Ex) as [Hx Hqx].
    apply list_elem_of_In in Hx. apply Hin in Hx as (i & Hi & Hxi). apply list_elem_of_In in Hxi. pose proof (List.find_none _ _ (Hno i Hi) x Hxi). congruence.
Qed.

Definition from_key (k : list Z) : entry -> bool := fun x => 0 <=? compare_ (fst x) k.
Definition beyond_key (k : list Z) : entry -> bool := fun x => 0 <? compare_ (fst x) k.

Lemma from_key_upward k : key_valid k -> upward (from_key k).
Proof.
  intros Hk e x He Hx Hq Hle. unfold from_key in *. apply Z.leb_le in Hq. apply Z.leb_le. pose proof (compare_sym (fst e) k He Hk).
  pose proof (compare_sym (fst x) k Hx Hk). pose proof (compare_trans k (fst e) (fst x) Hk He Hx).
  destruct (Z.lt_ge_cases (compare_ (fst x) k) 0); lia.
Qed.

Lemma beyond_key_upward k : key_valid k -> upward (beyond_key k).
Proof.
  intros Hk e x He Hx Hq Hle. unfold beyond_key in *. apply Z.ltb_lt in Hq. apply Z.ltb_lt. pose proof (compare_sym k (fst e) Hk He).
  pose proof (compare_sym k (fst x) Hk Hx). pose proof (compare_trans (fst e) (fst x) k He Hx Hk). pose proof (compare_sym (fst e) k He Hk). lia.
Qed.

Lemma upward_split q l : sorted_entries l -> upward q -> exists c d, l = c ++ d /\ Forall (fun e => q e = false) c /\ Forall (fun e => q e = true) d.
Proof.
  intros [Hs Hv] Hq. induction l as [|e l IH]; [exists [], []; repeat constructor|]. apply StronglySorted_inv in Hs as [Hs He].
  apply List.Forall_cons_iff in Hv as [Ve Hv]. destruct (q e) eqn:Eq.
  - exists [], (e :: l). split; [reflexivity|]. split; [constructor|]. constructor; [exact Eq|]. rewrite Forall_forall in He. rewrite Forall_forall in Hv.
    apply Forall_forall. intros x Hx. apply (Hq e x Ve (Hv x Hx) Eq). specialize (He x Hx). unfold lt_ in He. lia.
  - destruct (IH Hs Hv) as (c & d & -> & Hc & Hd). exists (e :: c), d. split; [reflexivity|]. split; [constructor; assumption|exact Hd].
Qed.

(** One back from the first place where [q] holds is the last place where it does not. *)
Lemma scan_back q l : sorted_entries l -> upward q ->
  rscan (fun e => negb (q e)) (rev l) [] = match scan q [] l with Off => behind (rev l) [] | At b e a => behind b (e :: a) end.
Proof.
  intros Hs Hq. destruct (upward_split q l Hs Hq) as (c & d & -> & Hc & Hd). rewrite rev_app_distr, scan_app by exact Hc. rewrite app_nil_r.
  rewrite rscan_app by (apply Forall_rev; apply (Forall_impl _ _ _ Hd); intros x ->; reflexivity). rewrite rev_involutive, app_nil_r.
  rewrite rscan_behind by (apply Forall_rev in Hc; destruct (rev c) as [|x t]; [exact Logic.I|]; apply List.Forall_cons_iff in Hc as [-> _]; reflexivity).
  rewrite scan_ahead by (destruct d as [|x d]; [exact Logic.I|]; apply List.Forall_cons_iff in Hd; apply Hd).
  destruct d as [|x d]; [cbn [rev app ahead]; reflexivity|reflexivity].
Qed.

(** At an entry: the places from its key on, and beyond it. *)
Lemma scan_here b e a : sorted_entries (rev b ++ e :: a) ->
  scan (from_key (fst e)) [] (rev b ++ e :: a) = At b e a /\ scan (beyond_key (fst e)) [] (rev b ++ e :: a) = ahead (e :: b) a.
Proof.
  intros Hs. destruct (sorted_at b e a Hs) as [Hb Ha]. assert (Ve : key_valid (fst e)) by (apply (in_valid _ e Hs), elem_of_app; right; apply elem_of_cons; auto).
  assert (Hlow : forall q, (forall x, lt_ x e -> q x = false) -> Forall (fun x => q x = false) (rev b)).
  { intros q Hq. apply Forall_forall. intros x Hx. apply Hq, Hb. apply list_elem_of_In, in_rev, list_elem_of_In, Hx. }
  rewrite !scan_app, rev_involutive, app_nil_r by (apply Hlow; intros x Hx; unfold lt_, from_key, beyond_key in *; first [apply Z.leb_gt|apply Z.ltb_ge]; lia).
  split; cbn [scan]; [unfold from_key at 1|unfold beyond_key at 1]; rewrite compare_refl by exact Ve; cbn [Z.leb Z.ltb Z.compare]; [reflexivity|].
  apply scan_ahead. destruct a as [|x a]; [exact Logic.I|]. apply Z.ltb_lt. apply compare_sym; [exact Ve|apply (in_valid _ x Hs), elem_of_app; right; apply elem_of_cons; right; apply elem_of_cons; auto|].
  apply Ha, elem_of_cons. auto.
Qed.
End Lists.

Lemma first_from {KO : KeyOrder (list Z)} q m e x : sorted_entries m -> List.find q m = Some e -> upward q -> x ∈ m -> key_valid (fst x) -> key_valid (fst e) ->
  (q x = true -> compare_ (fst e) (fst x) <= 0) -> q x = from_key (fst e) x.
Proof.
  intros Hm Ee Hq Hx Vx Ve Hle. destruct (List.find_some _ _ Ee) as [_ Hqe]. unfold from_key. pose proof (compare_sym (fst x) (fst e) Vx Ve).
  destruct (q x) eqn:Hqx; symmetry; [apply Z.leb_le; specialize (Hle eq_refl); lia|apply Z.leb_gt].
  destruct (Z.lt_ge_cases (compare_ (fst x) (fst e)) 0) as [|Hge]; [assumption|]. rewrite (Hq e x Ve Vx Hqe) in Hqx by lia. discriminate.
Qed.

Lemma sorted_rev {C : Comparator} (L : ComparatorLaws C) l : sorted_entries (KO := forward_order L) l -> sorted_entries (KO := backward_order L) (rev l).
Proof.
  intros [Hs Hv]. split; [|apply Forall_rev; exact Hv]. clear Hv. induction Hs as [|e l Hs IH Hall]; [constructor|]. cbn [rev].
  apply StronglySorted_app. split_and!; [|exact IH|constructor; [constructor|constructor]]. intros x y Hx Hy.
  apply list_elem_of_singleton in Hy as ->. rewrite Forall_forall in Hall. apply Hall. apply list_elem_of_In, in_rev, list_elem_of_In, Hx.
Qed.

(** An entry of a list, seen from its end. *)
Lemma rscan_here {C : Comparator} (L : ComparatorLaws C) b e a : sorted_entries (KO := forward_order L) (rev b ++ e :: a) ->
  rscan (from_key (KO := backward_order L) (fst e)) (rev (rev b ++ e :: a)) [] = At b e a /\
  rscan (beyond_key (KO := backward_order L) (fst e)) (rev (rev b ++ e :: a)) [] = behind b (e :: a).
Proof.
  intros Hs. apply sorted_rev in Hs. assert (E : rev (rev b ++ e :: a) = rev a ++ e :: b).
  { rewrite rev_app_distr, rev_involutive. cbn [rev]. rewrite <- app_assoc. reflexivity. }
  rewrite E in *. destruct (scan_here (KO := backward_order L) a e b Hs) as [H1 H2]. rewrite !rscan_flip, H1, H2. split; [reflexivity|].
  destruct b; reflexivity.
Qed.

(** * Merging *)

Section Merging.
Context {C : Comparator} {L : ComparatorLaws C} {I : Type} {IT : Iterator I} {target_ok : list Z -> Prop}.
#[local] Existing Instance Wrapper_Iterator.
Context (n : nat) (ess : nat -> list entry) (ps : nat -> I -> cursor -> Prop) (es : list entry).
Context (IL : forall i, (i < n)%nat -> Iterates IT Compare target_ok (ess i) (ps i)).
Context (Hess : forall i, (i < n)%nat -> sorted_entries (KO := forward_order L) (ess i)) (Hes : sorted_entries (KO := forward_order L) es).
Context (Hin : forall e, e ∈ es <-> exists i, (i < n)%nat /\ e ∈ ess i).
Context (Hdistinct : forall i j e x, (i < n)%nat -> (j < n)%nat -> i <> j -> e ∈ ess i -> x ∈ ess j -> Compare (fst e) (fst x) <> 0).
Context (Htarget : forall k, target_ok k -> key_ok k) (Hkeys : forall e, e ∈ es -> target_ok (fst e)).
Abbreviation W := (IteratorWrapper I).
Implicit Types (w : W) (ws : list W) (q : entry -> bool).

(** ** The children *)

Definition wpos (i : nat) w (c : cursor) : Prop := ps i (w_iter w) c /\
  match c with Off => w_valid w = false | At _ e _ => w_valid w = true /\ w_key w = fst e end.

Lemma Update_ok i it c k : (i < n)%nat -> ps i it c -> exists w, Update it k = Some w /\ wpos i w c.
Proof.
  intros Hi Hp. pose proof (IL i Hi). unfold Update. destruct c as [|b e a].
  - rewrite (pos_off _ Hp). eexists. split; [reflexivity|]. split; [exact Hp|reflexivity].
  - destruct (pos_at _ _ _ _ Hp) as (_ & Hv & Hk & _). rewrite Hv, Hk. eexists. split; [reflexivity|]. split; [exact Hp|auto].
Qed.

Lemma Update_after i (r : option I) c k : (i < n)%nat -> (exists it, r = Some it /\ ps i it c) -> exists w, (it ← r; Update it k) = Some w /\ wpos i w c.
Proof. intros Hi (it & -> & Hp). exact (Update_ok i it c k Hi Hp). Qed.

Lemma wrapper_iterates i : (i < n)%nat -> Iterates Wrapper_Iterator Compare target_ok (ess i) (wpos i).
Proof.
  intros Hi. pose proof (IL i Hi). constructor.
  - intros w b e a [Hp [Hv Hk]]. destruct (pos_at _ _ _ _ Hp) as (E & _ & _ & Hvl). cbn [it_Valid it_key it_value Wrapper_Iterator]. rewrite Hv, Hk, Hvl. auto.
  - intros w [_ Hv]. exact Hv.
  - intros w c [Hp _]. apply (pos_status _ _ Hp).
  - intros w c [Hp _]. apply Update_after; [exact Hi|]. apply (pos_SeekToFirst _ _ Hp).
  - intros w c [Hp _]. apply Update_after; [exact Hi|]. apply (pos_SeekToLast _ _ Hp).
  - intros w c k [Hp _] Hk. apply Update_after; [exact Hi|]. apply (pos_Seek _ _ _ Hp Hk).
  - intros w b e a [Hp _]. apply Update_after; [exact Hi|]. apply (pos_Next _ _ _ _ Hp).
  - intros w b e a [Hp _]. apply Update_after; [exact Hi|]. apply (pos_Prev _ _ _ _ Hp).
Qed.

(** Each child as [Q] says. *)
Definition all_children (Q : nat -> W -> Prop) ws : Prop := length ws = n /\ forall i w, ws !! i = Some w -> Q i w.

Lemma child_lt (Q : nat -> W -> Prop) ws i w : all_children Q ws -> ws !! i = Some w -> (i < n)%nat.
Proof. intros [Hl _] Hw. rewrite <- Hl. apply lookup_lt_Some in Hw. exact Hw. Qed.

Lemma child_at (Q : nat -> W -> Prop) ws i : all_children Q ws -> (i < n)%nat -> exists w, ws !! i = Some w /\ Q i w.
Proof. intros [Hl Hq] Hi. rewrite <- Hl in Hi. destruct (lookup_lt_is_Some_2 ws i Hi) as [w Hw]. eauto. Qed.

Lemma mapM_each {A B : Type} (f : A -> option B) (l : list A) : forall (Q' : nat -> B -> Prop), (forall i x, l !! i = Some x -> exists y, f x = Some y /\ Q' i y) ->
  exists l', mapM f l = Some l' /\ length l' = length l /\ forall i y, l' !! i = Some y -> Q' i y.
Proof.
  induction l as [|x l IH]; intros Q' Hf; [exists []; split; [reflexivity|split; [reflexivity|intros i y Hy; discriminate]]|].
  destruct (Hf 0%nat x eq_refl) as (y & Ey & Hy). destruct (IH (fun i => Q' (S i)) (fun i => Hf (S i))) as (l' & El & Hl & Hq).
  exists (y :: l'). cbn [mapM]. rewrite Ey, El. cbn [mbind option_bind]. split; [reflexivity|]. split; [cbn; congruence|].
  intros [|i] z Hz; [injection Hz as <-; exact Hy|apply Hq, Hz].
Qed.

Lemma mapM_children (f : W -> option W) (Q Q' : nat -> W -> Prop) ws : all_children Q ws ->
  (forall i w, (i < n)%nat -> Q i w -> exists w', f w = Some w' /\ Q' i w') -> exists ws', mapM f ws = Some ws' /\ all_children Q' ws'.
Proof.
  intros Hall Hf. destruct (mapM_each f ws Q') as (ws' & E & Hl & Hws).
  - intros i w Hw. apply Hf; [eapply child_lt; eassumption|apply Hall, Hw].
  - exists ws'. split; [exact E|]. split; [rewrite Hl; apply Hall|exact Hws].
Qed.

Lemma each_other_children (f : W -> option W) j : forall ws (Q' : nat -> W -> Prop), (j < length ws)%nat ->
  (forall i w, ws !! i = Some w -> i <> j -> exists w', f w = Some w' /\ Q' i w') ->
  exists ws', each_other f j ws = Some ws' /\ length ws' = length ws /\ ws' !! j = ws !! j /\ forall i w, ws' !! i = Some w -> i <> j -> Q' i w.
Proof.
  induction j as [|j IH]; intros [|w ws] Q' Hj Hf; cbn in Hj; try lia; cbn [each_other].
  - destruct (mapM_each f ws (fun i => Q' (S i))) as (ws' & -> & Hl & Hws); [intros i x Hx; apply (Hf (S i)); auto|].
    cbn [mbind option_bind]. exists (w :: ws').
 split; [reflexivity|]. split; [cbn; congruence|]. split; [reflexivity|].
    intros [|i] x Hx Hne; [congruence|apply Hws, Hx].
  - destruct (Hf 0%nat w eq_refl ltac:(lia)) as (w' & -> & Hw'). cbn [mbind option_bind].
    destruct (IH ws (fun i => Q' (S i)) ltac:(lia)) as (ws' & -> & Hl & Hj' & Hws); [intros i x Hx Hne; apply (Hf (S i)); [exact Hx|congruence]|].
    exists (w' :: ws'). split; [reflexivity|]. split; [cbn; congruence|]. split; [exact Hj'|].
    intros [|i] x Hx Hne; [injection Hx as <-; exact Hw'|apply Hws; [exact Hx|congruence]].
Qed.

(** ** The best of the children *)

(** A child that is at the entry [h i], if there is one. *)
Definition reads (KO : KeyOrder (list Z)) (h : nat -> option entry) (i : nat) w : Prop :=
  match h i with None => w_valid w = false | Some e => w_valid w = true /\ w_key w = fst e /\ key_valid (fst e) end.

Definition picks (KO : KeyOrder (list Z)) (better : Z -> bool) : Prop := forall a b, key_valid a -> key_valid b -> better (Compare a b) = true <-> compare_ a b < 0.

(** The least of some candidates that are at an entry, if any is. *)
Definition least (KO : KeyOrder (list Z)) (h : nat -> option entry) (cands : list (nat * W)) (best : option (nat * W)) : Prop :=
  match best with
  | None => forall i w, (i, w) ∈ cands -> h i = None
  | Some (j, w) => (j, w) ∈ cands /\ exists e, h j = Some e /\ forall i w' x, (i, w') ∈ cands -> h i = Some x -> compare_ (fst e) (fst x) <= 0
  end.

Lemma least_more KO h cands cands' best : least KO h cands best -> (forall i w, (i, w) ∈ cands' -> reads KO h i w) -> cands ⊆ cands' ->
  (forall i w x, (i, w) ∈ cands' -> h i = Some x -> exists i0 w0 x0, (i0, w0) ∈ cands /\ h i0 = Some x0 /\ compare_ (fst x0) (fst x) <= 0) ->
  least KO h cands' best.
Proof.
  intros Hl Hr Hsub Hdom. destruct best as [[j w]|]; cbn [least] in *.
  - destruct Hl as [Hj (e & He & Hmin)]. split; [apply Hsub, Hj|]. exists e. split; [exact He|]. intros i w' x Hx Ex.
    destruct (Hdom i w' x Hx Ex) as (i0 & w0 & x0 & H0 & E0 & Hle). pose proof (Hr _ _ (Hsub _ Hj)) as R1. pose proof (Hr _ _ (Hsub _ H0)) as R2.
    pose proof (Hr _ _ Hx) as R3. unfold reads in R1, R2, R3. rewrite He in R1. rewrite E0 in R2. rewrite Ex in R3.
    apply (compare_trans _ (fst x0)); [apply R1|apply R2|apply R3|apply (Hmin i0 w0), E0; exact H0|exact Hle].
  - intros i w Hx. destruct (h i) as [x|] eqn:Ex; [|reflexivity]. destruct (Hdom i w x Hx Ex) as (i0 & w0 & x0 & H0 & E0 & _).
    rewrite (Hl i0 w0 H0) in E0. discriminate.
Qed.

Definition so_far (best : option (nat * W)) : list (nat * W) := match best with Some b => [b] | None => [] end.

Lemma find_loop_ok (KO : KeyOrder (list Z)) (better : Z -> bool) h l : picks KO better -> forall best : option (nat * W),
  (forall i w, (i, w) ∈ so_far best ++ l -> reads KO h i w) -> (forall i w, best = Some (i, w) -> is_Some (h i)) ->
  exists best', find_loop better l best = Some best' /\ least KO h (so_far best ++ l) best'.
Proof.
  intros Hb. induction l as [|[i w] l IH]; intros best Hr Hbest.
  - exists best. split; [reflexivity|]. destruct best as [[j w]|]; cbn [least so_far app]; [|intros i w Hx; inversion Hx].
    split; [apply elem_of_cons; auto|]. destruct (Hbest j w eq_refl) as [e He]. exists e. split; [exact He|].
    intros i w' x Hx Ex. apply list_elem_of_singleton in Hx as [= -> ->]. rewrite He in Ex. injection Ex as <-.
    specialize (Hr j w (proj2 (elem_of_cons _ _ _) (or_introl eq_refl))). unfold reads in Hr. rewrite He in Hr. rewrite compare_refl by apply Hr. reflexivity.
  - assert (Sub : so_far best ++ l ⊆ so_far best ++ (i, w) :: l) by (intros x; rewrite !elem_of_app, elem_of_cons; tauto).
    assert (Sub' : (i, w) :: l ⊆ so_far best ++ (i, w) :: l) by (intros x; rewrite elem_of_app; tauto).
    pose proof (Hr i w (Sub' _ (proj2 (elem_of_cons _ _ _) (or_introl eq_refl)))) as Hw. cbn [find_loop it_Valid it_key Wrapper_Iterator].
    assert (Self : forall cands i' w' x, (i', w') ∈ cands -> cands ⊆ so_far best ++ (i, w) :: l -> h i' = Some x ->
      exists i0 w0 x0, (i0, w0) ∈ cands /\ h i0 = Some x0 /\ compare_ (fst x0) (fst x) <= 0).
    { intros cands i' w' x Hx Hs Ex. exists i', w', x. split; [exact Hx|]. split; [exact Ex|]. specialize (Hr _ _ (Hs _ Hx)). unfold reads in Hr.
      rewrite Ex in Hr. rewrite compare_refl by apply Hr. reflexivity. }
    unfold reads in Hw. destruct (h i) as [e|] eqn:He.
    2:{ rewrite Hw. destruct (IH best (fun i' w' Hx => Hr i' w' (Sub _ Hx)) Hbest) as (best' & E & Hl). exists best'. split; [exact E|].
        apply (least_more _ _ _ _ _ Hl Hr Sub). intros i' w' x Hx Ex. apply (Self _ i' w' x); [|exact Sub|exact Ex].
        rewrite elem_of_app, elem_of_cons in Hx. rewrite elem_of_app. destruct Hx as [Hx|[[= -> ->]|Hx]]; auto. congruence. }
    destruct Hw as (Hv & Hk & Hke). rewrite Hv.
    assert (Take : (forall j wj, best = Some (j, wj) -> exists x, h j = Some x /\ compare_ (fst e) (fst x) <= 0) ->
      exists best', find_loop better l (Some (i, w)) = Some best' /\ least KO h (so_far best ++ (i, w) :: l) best').
    { intros Hle. destruct (IH (Some (i, w)) (fun i' w' Hx => Hr i' w' (Sub' _ Hx))) as (best' & E & Hl); [intros ? ? [= <- <-]; eauto|].
      exists best'. split; [exact E|]. apply (least_more _ _ _ _ _ Hl Hr Sub'). intros i' w' x Hx Ex. apply elem_of_app in Hx as [Hx|Hx].
      - destruct best as [[j wj]|]; [|inversion Hx]. apply list_elem_of_singleton in Hx as [= -> ->]. destruct (Hle j wj eq_refl) as (y & Ey & Hy).
        rewrite Ex in Ey. injection Ey as <-. exists i, w, e. split; [apply elem_of_cons; auto|auto].
      - apply (Self _ i' w' x); [exact Hx|exact Sub'|exact Ex]. }
    destruct best as [[j wj]|]; [|apply Take; discriminate]. destruct (Hbest j wj eq_refl) as [ej Hej].
    pose proof (Hr j wj ltac:(apply elem_of_cons; auto)) as Hj. unfold reads in Hj. rewrite Hej in Hj. destruct Hj as (Hvj & Hkj & Hkej).
    rewrite Hvj. cbn [mbind option_bind]. rewrite Hk, Hkj. pose proof (Hb (fst e) (fst ej) Hke Hkej) as Hbe.
    destruct (better (Compare (fst e) (fst ej))).
    + apply Take. intros ? ? [= <- <-]. exists ej. split; [exact Hej|]. pose proof (proj1 Hbe eq_refl). lia.
    + destruct (IH (Some (j, wj)) (fun i' w' Hx => Hr i' w' (Sub _ Hx)) Hbest) as (best' & E & Hl). exists best'. split; [exact E|].
      apply (least_more _ _ _ _ _ Hl Hr Sub). intros i' w' x Hx Ex. rewrite elem_of_app, elem_of_cons in Hx.
      destruct Hx as [Hx|[[= -> ->]|Hx]]; [apply (Self _ i' w' x); [apply elem_of_app; auto|exact Sub|exact Ex]| |apply (Self _ i' w' x); [apply elem_of_app; auto|exact Sub|exact Ex]].
      rewrite He in Ex. injection Ex as <-. exists j, wj, ej. split; [apply elem_of_app; left; apply elem_of_cons; auto|]. split; [exact Hej|].
      destruct (Z.lt_ge_cases 0 (compare_ (fst ej) (fst e))) as [Hgt|]; [|lia]. apply compare_sym in Hgt; auto. apply Hbe in Hgt. discriminate.
Qed.

(** The loop finds the child with the first place of all. *)
Lemma find_loop_first (KO : KeyOrder (list Z)) (better : Z -> bool) (ls : nat -> list entry) (m : list entry) q (l : list (nat * W)) ws :
  picks KO better -> (forall i, (i < n)%nat -> sorted_entries (ls i)) -> sorted_entries m -> (forall e, e ∈ m <-> exists i, (i < n)%nat /\ e ∈ ls i) ->
  upward q -> (forall i w, (i, w) ∈ l <-> ws !! i = Some w) ->
  all_children (fun i w => match List.find q (ls i) with None => w_valid w = false | Some e => w_valid w = true /\ w_key w = fst e end) ws ->
  exists best, find_loop better l None = Some best /\
    match List.find q m with None => best = None | Some e => exists j w, best = Some (j, w) /\ (j < n)%nat /\ List.find q (ls j) = Some e end.
Proof.
  intros Hb Hls Hm Hmem Hq Hl Hall. assert (Hr : forall i w, (i, w) ∈ l -> reads KO (fun i => List.find q (ls i)) i w).
  { intros i w Hx. apply Hl in Hx. pose proof (child_lt _ _ _ _ Hall Hx) as Hi. destruct Hall as [_ Hall]. specialize (Hall i w Hx). unfold reads.
    destruct (List.find q (ls i)) as [e|] eqn:Ee; [|exact Hall]. destruct Hall as [H1 H2]. split; [exact H1|]. split; [exact H2|].
    apply (in_valid _ e (Hls i Hi)). apply List.find_some in Ee as [Ee _]. apply list_elem_of_In, Ee. }
  destruct (find_loop_ok KO better (fun i => List.find q (ls i)) l Hb None Hr ltac:(discriminate)) as (best & E & Hbest). exists best. split; [exact E|].
  cbn [so_far app] in Hbest. destruct (merged_find n ls m q Hls Hm Hmem Hq) as [H1 H2].
  assert (Hsome : forall i, (i < n)%nat -> exists w, (i, w) ∈ l).
  { intros i Hi. destruct (child_at _ _ _ Hall Hi) as (w & Hw & _). exists w. apply Hl, Hw. }
  destruct best as [[j w]|]; cbn [least] in Hbest.
  - destruct Hbest as [Hj (e & He & Hmin)]. apply Hl in Hj. pose proof (child_lt _ _ _ _ Hall Hj) as Hjn.
    rewrite (H1 j e Hjn He); [eauto 6|]. intros i x Hi Hx. destruct (Hsome i Hi) as [w' Hw']. apply (Hmin i w' x Hw' Hx).
  - rewrite H2; [reflexivity|]. intros i Hi. destruct (Hsome i Hi) as [w' Hw']. apply (Hbest i w' Hw').
Qed.

(** ** Where the merging iterator is *)

Abbreviation FO := (forward_order L).
Abbreviation BO := (backward_order L).

Definition forward_at q ws : Prop := all_children (fun i w => wpos i w (scan q [] (ess i))) ws.
Definition backward_at q ws : Prop := all_children (fun i w => wpos i w (rscan q (rev (ess i)) [])) ws.

(** Going forward, all children are at their first entry from the current key on;
    going backward, at their last entry up to it. *)
Definition mpos (m : MergingIterator I) (c : cursor) : Prop :=
  match c with
  | Off => current_ m = None /\ all_children (fun i w => exists c, wpos i w c) (children_ m)
  | At b e a => rev b ++ e :: a = es /\ exists j bj aj, current_ m = Some j /\ (j < n)%nat /\ rev bj ++ e :: aj = ess j /\
      match m_direction_ m with
      | kForward => forward_at (from_key (KO := FO) (fst e)) (children_ m)
      | kReverse => backward_at (from_key (KO := BO) (fst e)) (children_ m)
      end
  end.

Lemma wpos_head i w c : wpos i w c -> match first_of c with None => w_valid w = false | Some e => w_valid w = true /\ w_key w = fst e end.
Proof. intros [_ Hw]. destruct c; exact Hw. Qed.

Lemma in_indexed ws i w : (i, w) ∈ indexed ws <-> ws !! i = Some w.
Proof.
  unfold indexed. rewrite elem_of_lookup_imap. split; [intros (i' & w' & [= -> ->] & Hw); exact Hw|intros Hw; exists i, w; auto].
Qed.

Lemma smaller_picks : picks FO (fun c => c <? 0).
Proof. intros a b _ _. apply Z.ltb_lt. Qed.

Lemma larger_picks : picks BO (fun c => 0 <? c).
Proof. intros a b Ha Hb. rewrite Z.ltb_lt. symmetry. apply Compare_sym; assumption. Qed.

Lemma child_find q i (e : entry) : (i < n)%nat -> List.find q (ess i) = Some e -> e ∈ ess i.
Proof. intros Hi Ee. apply List.find_some in Ee as [Ee _]. apply list_elem_of_In, Ee. Qed.

Lemma es_find_least q (e x : entry) : List.find q es = Some e -> x ∈ es -> q x = true -> Compare (fst e) (fst x) <= 0.
Proof. intros Ee Hx. apply (find_least (KO := FO) q es e Hes Ee x Hx). Qed.

Lemma in_child i (x : entry) : (i < n)%nat -> x ∈ ess i -> x ∈ es /\ key_ok (fst x).
Proof. intros Hi Hx. split; [apply Hin; eauto|]. apply (in_valid (KO := FO) _ _ (Hess i Hi) Hx). Qed.

Lemma FindSmallest_ok q ws : forward_at q ws -> upward (KO := FO) q -> exists m, FindSmallest kForward ws = Some m /\ mpos m (scan q [] es).
Proof.
  intros Hall Hq. assert (Hheads : all_children (fun i w => match List.find q (ess i) with None => w_valid w = false | Some e => w_valid w = true /\ w_key w = fst e end) ws).
  { split; [apply Hall|]. intros i w Hw. rewrite <- (scan_first q (ess i) []). apply (wpos_head i). apply Hall, Hw. }
  destruct (find_loop_first FO _ ess es q (indexed ws) ws smaller_picks Hess Hes Hin Hq (in_indexed ws) Hheads) as (best & E & Hbest).
  unfold FindSmallest. rewrite E. cbn [mbind option_bind]. eexists. split; [reflexivity|]. rewrite <- (scan_first q es []) in Hbest.
  destruct (scan q [] es) as [|b e a] eqn:Es; cbn [first_of] in Hbest.
  - subst best. split; [reflexivity|]. split; [apply Hall|]. intros i w Hw. eexists. apply Hall, Hw.
  - destruct Hbest as (j & w & -> & Hj & Ej). split; [symmetry; exact (scan_inv _ _ _ _ _ _ Es)|]. rewrite <- (scan_first q (ess j) []) in Ej.
    destruct (scan q [] (ess j)) as [|bj ej aj] eqn:Esj; [discriminate|]. injection Ej as ->. exists j, bj, aj. split; [reflexivity|]. split; [exact Hj|].
    split; [symmetry; exact (scan_inv _ _ _ _ _ _ Esj)|]. cbn [m_direction_ children_]. split; [apply Hall|]. intros i w' Hw.
    pose proof (child_lt _ _ _ _ Hall Hw) as Hi. rewrite (scan_ext (from_key (KO := FO) (fst e)) q); [apply Hall, Hw|]. intros x Hx.
    assert (Ee : List.find q es = Some e) by (rewrite <- (scan_first q es []), Es; reflexivity). destruct (in_child i x Hi Hx) as [Hxe Vx].
    assert (Ve : key_ok (fst e)) by (apply (in_valid (KO := FO) es e Hes); apply List.find_some in Ee as [Ee _]; apply list_elem_of_In, Ee).
    symmetry. apply (first_from (KO := FO) q es); auto. apply es_find_least; assumption.
Qed.

Lemma FindLargest_ok q ws : backward_at q ws -> upward (KO := BO) q -> exists m, FindLargest kReverse ws = Some m /\ mpos m (rscan q (rev es) []).
Proof.
  intros Hall Hq.
  assert (Hheads : all_children (fun i w => match List.find q (rev (ess i)) with None => w_valid w = false | Some e => w_valid w = true /\ w_key w = fst e end) ws).
  { split; [apply Hall|]. intros i w Hw. rewrite <- (rscan_first q (rev (ess i)) []). apply (wpos_head i). apply Hall, Hw. }
  assert (Hls : forall i, (i < n)%nat -> sorted_entries (KO := BO) (rev (ess i))) by (intros i Hi; apply sorted_rev, Hess, Hi).
  assert (Hm : sorted_entries (KO := BO) (rev es)) by apply sorted_rev, Hes.
  assert (Hrev : forall (x : entry) l, x ∈ rev l <-> x ∈ l) by (intros x l; rewrite !list_elem_of_In; symmetry; apply in_rev).
  assert (Hmem : forall e, e ∈ rev es <-> exists i, (i < n)%nat /\ e ∈ rev (ess i)).
  { intros e. rewrite Hrev, Hin. setoid_rewrite Hrev. reflexivity. }
  assert (Hidx : forall i w, (i, w) ∈ rev (indexed ws) <-> ws !! i = Some w).
  { intros i w. rewrite <- in_indexed, !list_elem_of_In. symmetry. apply in_rev. }
  destruct (find_loop_first BO _ (fun i => rev (ess i)) (rev es) q (rev (indexed ws)) ws larger_picks Hls Hm Hmem Hq Hidx Hheads) as (best & E & Hbest).
  unfold FindLargest. rewrite E. cbn [mbind option_bind]. eexists. split; [reflexivity|]. rewrite <- (rscan_first q (rev es) []) in Hbest.
  destruct (rscan q (rev es) []) as [|b e a] eqn:Es; cbn [first_of] in Hbest.
  - subst best. split; [reflexivity|]. split; [apply Hall|]. intros i w Hw. eexists. apply Hall, Hw.
  - destruct Hbest as (j & w & -> & Hj & Ej). split; [symmetry; exact (rscan_inv _ _ _ _ _ Es)|]. rewrite <- (rscan_first q (rev (ess j)) []) in Ej.
    destruct (rscan q (rev (ess j)) []) as [|bj ej aj] eqn:Esj; [discriminate|]. injection Ej as ->. exists j, bj, aj. split; [reflexivity|]. split; [exact Hj|].
    split; [symmetry; exact (rscan_inv _ _ _ _ _ Esj)|]. cbn [m_direction_ children_]. split; [apply Hall|]. intros i w' Hw.
    pose proof (child_lt _ _ _ _ Hall Hw) as Hi. rewrite (rscan_ext (from_key (KO := BO) (fst e)) q); [apply Hall, Hw|]. intros x Hx. apply (proj1 (Hrev _ _)) in Hx.
    assert (Ee : List.find q (rev es) = Some e) by (rewrite <- (rscan_first q (rev es) []), Es; reflexivity). destruct (in_child i x Hi Hx) as [Hxe Vx].
    assert (Ve : key_ok (fst e)) by (apply (in_valid (KO := BO) _ e Hm); apply List.find_some in Ee as [Ee _]; apply list_elem_of_In, Ee).
    symmetry. apply (first_from (KO := BO) q (rev es)); auto; [apply Hrev, Hxe|]. intros Hqx. apply (find_least (KO := BO) q (rev es) e Hm Ee); [apply Hrev, Hxe|exact Hqx].
Qed.

(** ** Moving *)

Lemma mpos_children m c : mpos m c -> all_children (fun i w => exists c, wpos i w c) (children_ m).
Proof.
  destruct c as [|b e a]; [intros [_ Hm]; exact Hm|]. intros (_ & j & bj & aj & _ & _ & _ & Hm).
  destruct (m_direction_ m); (split; [apply Hm|]; intros i w Hw; eexists; apply Hm, Hw).
Qed.

Lemma entry_valid b e a : rev b ++ e :: a = es -> e ∈ es /\ key_ok (fst e).
Proof. intros <-. assert (He : e ∈ rev b ++ e :: a) by (apply elem_of_app; right; apply elem_of_cons; auto). split; [exact He|]. apply (in_valid (KO := FO) _ e Hes He). Qed.

Lemma own_valid i b e a : (i < n)%nat -> rev b ++ e :: a = ess i -> e ∈ ess i /\ key_ok (fst e).
Proof.
  intros Hi E. assert (He : e ∈ ess i) by (rewrite <- E; apply elem_of_app; right; apply elem_of_cons; auto). split; [exact He|].
  apply (in_valid (KO := FO) _ e (Hess i Hi) He).
Qed.

(** The current child is at the current entry. *)
Lemma mpos_current m b e a : mpos m (At b e a) -> exists j bj aj w, current_ m = Some j /\ (j < n)%nat /\ rev bj ++ e :: aj = ess j /\
  children_ m !! j = Some w /\ wpos j w (At bj e aj).
Proof.
  intros (_ & j & bj & aj & Ej & Hj & Es & Hm). pose proof (Hess j Hj) as Hs. rewrite <- Es in Hs.
  destruct (m_direction_ m); (destruct (child_at _ _ _ Hm Hj) as (w & Hw & Hp); exists j, bj, aj, w; split_and!; auto; rewrite <- Es in Hp).
  - rewrite (proj1 (scan_here (KO := FO) bj e aj Hs)) in Hp. exact Hp.
  - rewrite (proj1 (rscan_here L bj e aj Hs)) in Hp. exact Hp.
Qed.

(** No other child has the key, so there from it on is beyond it. *)
Lemma other_keys (KO : KeyOrder (list Z)) i j e : (i < n)%nat -> (j < n)%nat -> i <> j -> e ∈ ess j -> (forall x, x ∈ ess i -> compare_ (fst x) (fst e) <> 0) ->
  forall x, x ∈ ess i -> from_key (fst e) x = beyond_key (fst e) x.
Proof. intros Hi Hj Hne He Hd x Hx. specialize (Hd x Hx). unfold from_key, beyond_key. destruct (Z.leb_spec 0 (compare_ (fst x) (fst e))), (Z.ltb_spec 0 (compare_ (fst x) (fst e))); lia. Qed.

Lemma forward_other i j e : (i < n)%nat -> (j < n)%nat -> i <> j -> e ∈ ess j ->
  scan (from_key (KO := FO) (fst e)) [] (ess i) = scan (beyond_key (KO := FO) (fst e)) [] (ess i).
Proof. intros Hi Hj Hne He. apply scan_ext. apply (other_keys FO i j e Hi Hj Hne He). intros x Hx. apply (Hdistinct i j x e); auto. Qed.

Lemma backward_other i j e : (i < n)%nat -> (j < n)%nat -> i <> j -> e ∈ ess j ->
  rscan (from_key (KO := BO) (fst e)) (rev (ess i)) [] = rscan (beyond_key (KO := BO) (fst e)) (rev (ess i)) [].
Proof.
  intros Hi Hj Hne He. apply rscan_ext. intros x Hx. apply (other_keys BO i j e Hi Hj Hne He); [intros y Hy; apply (Hdistinct j i e y); auto|].
  apply list_elem_of_In, in_rev, list_elem_of_In, Hx.
Qed.

Lemma moved_child (Q : nat -> W -> Prop) ws j w : length ws = n -> (forall i w, ws !! i = Some w -> i <> j -> Q i w) -> Q j w -> all_children Q (<[j := w]> ws).
Proof.
  intros Hl Hq Hw. split; [rewrite length_insert; exact Hl|]. intros i x Hx. destruct (decide (i = j)) as [->|Hne].
  - assert (Hj : (j < length ws)%nat) by (apply lookup_lt_Some in Hx; rewrite length_insert in Hx; exact Hx). rewrite list_lookup_insert_eq in Hx by exact Hj. injection Hx as <-. exact Hw.
  - rewrite list_lookup_insert_ne in Hx by congruence. apply Hq; assumption.
Qed.

Lemma Next_from ws j w b e a bj aj : rev b ++ e :: a = es -> (j < n)%nat -> rev bj ++ e :: aj = ess j -> length ws = n -> ws !! j = Some w ->
  wpos j w (At bj e aj) -> (forall i w, ws !! i = Some w -> i <> j -> wpos i w (scan (beyond_key (KO := FO) (fst e)) [] (ess i))) ->
  exists m, (w ← ws !! j; w ← it_Next w; FindSmallest kForward (<[j := w]> ws)) = Some m /\ mpos m (ahead (e :: b) a).
Proof.
  intros E Hj Ej Hl Hw Hp Hoth. pose proof (wrapper_iterates j Hj). destruct (pos_Next _ _ _ _ Hp) as (w' & Ew & Hp').
  rewrite Hw. cbn [mbind option_bind]. rewrite Ew. cbn [mbind option_bind]. pose proof (Hess j Hj) as Hsj. rewrite <- Ej in Hsj. pose proof Hes as Hs. rewrite <- E in Hs.
  rewrite <- (proj2 (scan_here (KO := FO) bj e aj Hsj)), Ej in Hp'. rewrite <- (proj2 (scan_here (KO := FO) b e a Hs)), E.
  apply FindSmallest_ok; [|apply beyond_key_upward, (entry_valid b e a E)]. apply moved_child; assumption.
Qed.

Lemma Prev_from ws j w b e a bj aj : rev b ++ e :: a = es -> (j < n)%nat -> rev bj ++ e :: aj = ess j -> length ws = n -> ws !! j = Some w ->
  wpos j w (At bj e aj) -> (forall i w, ws !! i = Some w -> i <> j -> wpos i w (rscan (beyond_key (KO := BO) (fst e)) (rev (ess i)) [])) ->
  exists m, (w ← ws !! j; w ← it_Prev w; FindLargest kReverse (<[j := w]> ws)) = Some m /\ mpos m (behind b (e :: a)).
Proof.
  intros E Hj Ej Hl Hw Hp Hoth. pose proof (wrapper_iterates j Hj). destruct (pos_Prev _ _ _ _ Hp) as (w' & Ew & Hp').
  rewrite Hw. cbn [mbind option_bind]. rewrite Ew. cbn [mbind option_bind]. pose proof (Hess j Hj) as Hsj. rewrite <- Ej in Hsj. pose proof Hes as Hs. rewrite <- E in Hs.
  rewrite <- (proj2 (rscan_here L bj e aj Hsj)), Ej in Hp'. rewrite <- (proj2 (rscan_here L b e a Hs)), E.
  apply FindLargest_ok; [|apply beyond_key_upward, (entry_valid b e a E)]. apply moved_child; assumption.
Qed.

(** The loops that turn the other children round. *)
Lemma after_key_ok i j w c e : (i < n)%nat -> (j < n)%nat -> i <> j -> e ∈ ess j -> key_ok (fst e) -> target_ok (fst e) -> wpos i w c ->
  exists w', after_key (fst e) w = Some w' /\ wpos i w' (scan (beyond_key (KO := FO) (fst e)) [] (ess i)).
Proof.
  intros Hi Hj Hne He Ve Ht Hp. pose proof (wrapper_iterates i Hi). destruct (pos_Seek _ _ _ Hp Ht) as (w' & E & Hp').
  change (fun x : entry => 0 <=? Compare (fst x) (fst e)) with (from_key (KO := FO) (fst e)) in Hp'.
  exists w'. rewrite <- (forward_other i j e Hi Hj Hne He). split; [|exact Hp']. unfold after_key. rewrite E. cbn [mbind option_bind].
  destruct (scan (from_key (KO := FO) (fst e)) [] (ess i)) as [|b x a] eqn:Es; [rewrite (pos_off _ Hp'); reflexivity|].
  destruct (pos_at _ _ _ _ Hp') as (Ei & -> & -> & _). cbn [mbind option_bind]. destruct (own_valid i b x a Hi Ei) as [Hx _].
  destruct (Z.eqb_spec (Compare (fst e) (fst x)) 0) as [Hz|]; [|reflexivity]. exfalso. apply (Hdistinct j i e x); auto.
Qed.

Lemma before_key_ok i j w c e : (i < n)%nat -> (j < n)%nat -> i <> j -> e ∈ ess j -> key_ok (fst e) -> target_ok (fst e) -> wpos i w c ->
  exists w', before_key (fst e) w = Some w' /\ wpos i w' (rscan (beyond_key (KO := BO) (fst e)) (rev (ess i)) []).
Proof.
  intros Hi Hj Hne He Ve Ht Hp. pose proof (wrapper_iterates i Hi). destruct (pos_Seek _ _ _ Hp Ht) as (w' & E & Hp').
  change (fun x : entry => 0 <=? Compare (fst x) (fst e)) with (from_key (KO := FO) (fst e)) in Hp'.
  assert (Eb : rscan (beyond_key (KO := BO) (fst e)) (rev (ess i)) [] = rscan (fun x => negb (from_key (KO := FO) (fst e) x)) (rev (ess i)) []).
  { apply rscan_ext. intros x Hx. apply list_elem_of_In, in_rev, list_elem_of_In in Hx. pose proof (in_valid (KO := FO) _ _ (Hess i Hi) Hx) as Vx.
    unfold beyond_key, from_key. cbn [compare_ forward_order backward_order]. pose proof (Compare_sym (fst x) (fst e) Vx Ve).
    destruct (Z.leb_spec 0 (Compare (fst x) (fst e))); cbn [negb]; [apply Z.ltb_ge|apply Z.ltb_lt]; lia. }
  rewrite Eb, (scan_back (KO := FO) _ (ess i) (Hess i Hi) (from_key_upward (KO := FO) _ Ve)). unfold before_key. rewrite E. cbn [mbind option_bind].
  destruct (scan (from_key (KO := FO) (fst e)) [] (ess i)) as [|b x a] eqn:Es.
  - rewrite (pos_off _ Hp'). apply (pos_SeekToLast _ _ Hp').
  - destruct (pos_at _ _ _ _ Hp') as (_ & -> & _). apply (pos_Prev _ _ _ _ Hp').
Qed.

(** After such a loop. *)
Lemma turned (f : W -> option W) (Q : nat -> W -> Prop) m b e a : mpos m (At b e a) ->
  (forall i j w c, (i < n)%nat -> (j < n)%nat -> i <> j -> e ∈ ess j -> key_ok (fst e) -> target_ok (fst e) -> wpos i w c -> exists w', f w = Some w' /\ Q i w') ->
  forall j, current_ m = Some j -> exists ws, each_other f j (children_ m) = Some ws /\ length ws = n /\ ws !! j = children_ m !! j /\
    forall i w, ws !! i = Some w -> i <> j -> Q i w.
Proof.
  intros Hm Hf j Ej. destruct (mpos_current _ _ _ _ Hm) as (j' & bj & aj & w & E' & Hj & Es & Hw & Hp). rewrite Ej in E'. injection E' as <-.
  pose proof (mpos_children _ _ Hm) as Hall. destruct (own_valid j bj e aj Hj Es) as [He Ve].
  assert (Ht : target_ok (fst e)) by (apply Hkeys, (in_child j e Hj He)).
  destruct (each_other_children f j (children_ m) Q) as (ws & E & Hl & Hwj & Hoth).
  - rewrite (proj1 Hall). exact Hj.
  - intros i x Hx Hne. pose proof (child_lt _ _ _ _ Hall Hx) as Hi. destruct Hall as [_ Hall]. destruct (Hall i x Hx) as [c Hc].
    apply (Hf i j x c Hi Hj Hne He Ve Ht Hc).
  - exists ws. split; [exact E|]. split; [rewrite Hl; apply Hall|]. split; [exact Hwj|exact Hoth].
Qed.

Lemma Merging_Next_ok m b e a : mpos m (At b e a) -> exists m', Merging_Next m = Some m' /\ mpos m' (ahead (e :: b) a).
Proof.
  intros Hm. destruct (mpos_current _ _ _ _ Hm) as (j & bj & aj & w & Ej & Hj & Es & Hw & Hp). pose proof Hm as (E & _).
  assert (Ek : Merging_key m = Some (fst e)).
  { unfold Merging_key. rewrite Ej. cbn [mbind option_bind]. rewrite Hw. cbn [mbind option_bind it_key Wrapper_Iterator]. destruct Hp as (_ & -> & ->). reflexivity. }
  unfold Merging_Next. rewrite Ej. cbn [mbind option_bind]. rewrite Ek. cbn [mbind option_bind]. destruct (m_direction_ m) eqn:Ed.
  - cbn [mbind option_bind]. destruct Hm as (_ & j' & _ & _ & _ & _ & _ & Hall). rewrite Ed in Hall.
    apply (Next_from _ j w b e a bj aj); auto; [apply Hall|]. intros i x Hx Hne. pose proof (child_lt _ _ _ _ Hall Hx) as Hi.
    rewrite <- (forward_other i j e); auto; [apply Hall, Hx|apply (own_valid j bj e aj Hj Es)].
  - destruct (turned _ _ m b e a Hm (fun i j w c Hi Hj Hne He Ve Ht => after_key_ok i j w c e Hi Hj Hne He Ve Ht) j Ej) as (ws & -> & Hl & Hwj & Hoth).
    cbn [mbind option_bind]. apply (Next_from _ j w b e a bj aj); auto. rewrite Hwj. exact Hw.
Qed.

Lemma Merging_Prev_ok m b e a : mpos m (At b e a) -> exists m', Merging_Prev m = Some m' /\ mpos m' (behind b (e :: a)).
Proof.
  intros Hm. destruct (mpos_current _ _ _ _ Hm) as (j & bj & aj & w & Ej & Hj & Es & Hw & Hp). pose proof Hm as (E & _).
  assert (Ek : Merging_key m = Some (fst e)).
  { unfold Merging_key. rewrite Ej. cbn [mbind option_bind]. rewrite Hw. cbn [mbind option_bind it_key Wrapper_Iterator]. destruct Hp as (_ & -> & ->). reflexivity. }
  unfold Merging_Prev. rewrite Ej. cbn [mbind option_bind]. rewrite Ek. cbn [mbind option_bind]. destruct (m_direction_ m) eqn:Ed.
  - destruct (turned _ _ m b e a Hm (fun i j w c Hi Hj Hne He Ve Ht => before_key_ok i j w c e Hi Hj Hne He Ve Ht) j Ej) as (ws & -> & Hl & Hwj & Hoth).
    cbn [mbind option_bind]. apply (Prev_from _ j w b e a bj aj); auto. rewrite Hwj. exact Hw.
  - cbn [mbind option_bind]. destruct Hm as (_ & j' & _ & _ & _ & _ & _ & Hall). rewrite Ed in Hall.
    apply (Prev_from _ j w b e a bj aj); auto; [apply Hall|]. intros i x Hx Hne. pose proof (child_lt _ _ _ _ Hall Hx) as Hi.
    rewrite <- (backward_other i j e); auto; [apply Hall, Hx|apply (own_valid j bj e aj Hj Es)].
Qed.

Lemma first_status_ok (ws : list W) : Forall (fun w => it_status w = OK) ws -> first_status ws = OK.
Proof. induction 1 as [|w ws Hw _ IH]; [reflexivity|]. cbn [first_status]. rewrite Hw. exact IH. Qed.

Lemma Merging_iterates : Iterates Merging_Iterator Compare target_ok es mpos.
Proof.
  constructor.
  - intros m b e a Hm. pose proof Hm as (E & _). destruct (mpos_current _ _ _ _ Hm) as (j & bj & aj & w & Ej & Hj & Es & Hw & Hp). pose proof (wrapper_iterates j Hj).
    destruct (pos_at _ _ _ _ Hp) as (_ & _ & Hk & Hv). cbn [it_Valid it_key it_value Merging_Iterator]. unfold Merging_key, Merging_value. rewrite Ej.
    cbn [mbind option_bind]. rewrite Hw. cbn [mbind option_bind]. auto.
  - intros m [Hm _]. cbn [it_Valid Merging_Iterator]. rewrite Hm. reflexivity.
  - intros m c Hm. apply first_status_ok. apply Forall_lookup. intros i w Hw. pose proof (mpos_children _ _ Hm) as Hall.
    pose proof (child_lt _ _ _ _ Hall Hw) as Hi. destruct Hall as [_ Hall]. destruct (Hall i w Hw) as [c' Hc]. pose proof (wrapper_iterates i Hi). apply (pos_status _ _ Hc).
  - intros m c Hm. destruct (mapM_children it_SeekToFirst _ (fun i w => wpos i w (scan (fun _ => true) [] (ess i))) _ (mpos_children _ _ Hm)) as (ws & E & Hws).
    { intros i w Hi [c' Hc]. pose proof (wrapper_iterates i Hi). rewrite scan_ahead by (destruct (ess i); auto). apply (pos_SeekToFirst _ _ Hc). }
    cbn [it_SeekToFirst Merging_Iterator]. unfold Merging_SeekToFirst. rewrite E. rewrite <- (scan_ahead (fun _ => true)) by (destruct es; auto).
    apply FindSmallest_ok; [exact Hws|]. intros x y _ _ _ _. reflexivity.
  - intros m c Hm. destruct (mapM_children it_SeekToLast _ (fun i w => wpos i w (rscan (fun _ => true) (rev (ess i)) [])) _ (mpos_children _ _ Hm)) as (ws & E & Hws).
    { intros i w Hi [c' Hc]. pose proof (wrapper_iterates i Hi). rewrite rscan_behind by (destruct (rev (ess i)); auto). apply (pos_SeekToLast _ _ Hc). }
    cbn [it_SeekToLast Merging_Iterator]. unfold Merging_SeekToLast. rewrite E. rewrite <- (rscan_behind (fun _ => true)) by (destruct (rev es); auto).
    apply FindLargest_ok; [exact Hws|]. intros x y _ _ _ _. reflexivity.
  - intros m c k Hm Hk. destruct (mapM_children (it_Seek k) _ (fun i w => wpos i w (scan (from_key (KO := FO) k) [] (ess i))) _ (mpos_children _ _ Hm)) as (ws & E & Hws).
    { intros i w Hi [c' Hc]. pose proof (wrapper_iterates i Hi). apply (pos_Seek _ _ _ Hc Hk). }
    cbn [it_Seek Merging_Iterator]. unfold Merging_Seek. rewrite E. apply (FindSmallest_ok (from_key (KO := FO) k)); [exact Hws|].
    apply from_key_upward, Htarget, Hk.
  - apply Merging_Next_ok.
  - apply Merging_Prev_ok.
Qed.

Lemma new_Merging_at (children : list I) : length children = n -> (forall i it, children !! i = Some it -> exists c, ps i it c) ->
  exists m, new_MergingIterator children = Some m /\ mpos m Off.
Proof.
  intros Hl Hc. destruct (mapM_each Set_ children (fun i w => exists c, wpos i w c)) as (ws & E & Hlw & Hq).
  - intros i it Hi. destruct (Hc i it Hi) as [c Hp]. apply lookup_lt_Some in Hi. rewrite Hl in Hi. destruct (Update_ok i it c [] Hi Hp) as (w & E & Hw). exists w. eauto.
  - unfold new_MergingIterator. rewrite E. eexists. split; [reflexivity|]. split; [reflexivity|]. split; [cbn; congruence|exact Hq].
Qed.

(** ** What [NewMergingIterator] returns *)

Definition apos (a : Merged I) (c : cursor) : Prop :=
  match a with
  | AEmpty e => e = OK /\ n = 0%nat /\ c = Off
  | AChild i => n = 1%nat /\ ps 0 i c
  | AMerging m => mpos m c
  end.

Lemma sorted_unique l1 l2 : sorted_entries (KO := FO) l1 -> sorted_entries (KO := FO) l2 -> (forall e, e ∈ l1 <-> e ∈ l2) -> l1 = l2.
Proof.
  revert l2. induction l1 as [|a l1 IH]; intros [|b l2] H1 H2 Hm; [reflexivity| | |].
  - pose proof (proj2 (Hm b) (proj2 (elem_of_cons _ _ _) (or_introl eq_refl))) as Hx; inversion Hx.
  - pose proof (proj1 (Hm a) (proj2 (elem_of_cons _ _ _) (or_introl eq_refl))) as Hx; inversion Hx.
  - assert (Hab : a = b).
    { pose proof (proj1 (Hm a) (proj2 (elem_of_cons _ _ _) (or_introl eq_refl))) as Ha. pose proof (proj2 (Hm b) (proj2 (elem_of_cons _ _ _) (or_introl eq_refl))) as Hb.
      apply elem_of_cons in Ha as [->|Ha]; [reflexivity|]. apply elem_of_cons in Hb as [->|Hb]; [reflexivity|]. exfalso.
      destruct H1 as [S1 V1], H2 as [S2 V2]. apply StronglySorted_inv in S1 as [_ A1]. apply StronglySorted_inv in S2 as [_ A2].
      apply List.Forall_cons_iff in V1 as [Va _]. apply List.Forall_cons_iff in V2 as [Vb _]. rewrite Forall_forall in A1. rewrite Forall_forall in A2.
      specialize (A1 b Hb). specialize (A2 a Ha). apply (lt_asym (KO := FO) a b Va Vb A1). unfold lt_ in A2. lia. }
    subst b. f_equal. destruct H1 as [S1 V1], H2 as [S2 V2]. apply StronglySorted_inv in S1 as [S1 A1]. apply StronglySorted_inv in S2 as [S2 A2].
    apply List.Forall_cons_iff in V1 as [Va V1]. apply List.Forall_cons_iff in V2 as [_ V2]. rewrite Forall_forall in A1. rewrite Forall_forall in A2.
    assert (Hne : forall x, compare_ (KeyOrder := FO) (fst a) (fst x) < 0 -> x <> a).
    { intros x Hx ->. rewrite (compare_refl (KeyOrder := FO)) in Hx by exact Va. lia. }
    apply IH; [split; assumption|split; assumption|]. intros e. specialize (Hm e). rewrite !elem_of_cons in Hm. split; intros He.
    + destruct (proj1 Hm (or_intror He)) as [->|He']; [exfalso; apply (Hne a (A1 a He)); reflexivity|exact He'].
    + destruct (proj2 Hm (or_intror He)) as [->|He']; [exfalso; apply (Hne a (A2 a He)); reflexivity|exact He'].
Qed.

(** The only child has all the entries. *)
Lemma only_child : n = 1%nat -> ess 0%nat = es.
Proof.
  intros E. apply sorted_unique; [apply Hess; lia|exact Hes|]. intros e. rewrite Hin. split; [intros He; exists 0%nat; split; [lia|exact He]|].
  intros (i & Hi & He). replace i with 0%nat in He by lia. exact He.
Qed.

Lemma no_child : n = 0%nat -> es = [].
Proof.
  intros E. destruct es as [|e l] eqn:El; [reflexivity|]. exfalso. rewrite <- El in Hin. destruct (proj1 (Hin e)) as (i & Hi & _); [rewrite El; apply elem_of_cons; auto|lia].
Qed.

Lemma step_ok f g h a c c' : (forall e, a = AEmpty e -> e = OK -> n = 0%nat -> exists e', f e = Some e' /\ e' = OK /\ c' = Off) ->
  (forall i, a = AChild i -> n = 1%nat -> ps 0 i c -> exists i', g i = Some i' /\ ps 0 i' c') ->
  (forall m, a = AMerging m -> mpos m c -> exists m', h m = Some m' /\ mpos m' c') ->
  apos a c -> exists a', step_merged f g h a = Some a' /\ apos a' c'.
Proof.
  intros Hf Hg Hh. destruct a as [e|i|m]; cbn [apos step_merged on_merged].
  - intros (Ee & En & _). destruct (Hf e eq_refl Ee En) as (e' & -> & -> & ->). eexists. split; [reflexivity|]. cbn. auto.
  - intros [En Hp]. destruct (Hg i eq_refl En Hp) as (i' & -> & Hp'). eexists. split; [reflexivity|]. cbn. auto.
  - intros Hm. destruct (Hh m eq_refl Hm) as (m' & -> & Hm'). eexists. split; [reflexivity|exact Hm'].
Qed.

Lemma Merged_iterates : Iterates Merged_Iterator Compare target_ok es apos.
Proof.
  pose proof Merging_iterates as MI. assert (CI : n = 1%nat -> Iterates IT Compare target_ok es (ps 0)).
  { intros En. rewrite <- (only_child En). apply IL. lia. }
  constructor.
  - intros [e|i|m] b x a; cbn [apos]; [intros (_ & _ & E); discriminate|intros [En Hp]; exact (@pos_at _ _ _ _ _ _ (CI En) i b x a Hp)|exact (@pos_at _ _ _ _ _ _ MI m b x a)].
  - intros [e|i|m]; cbn [apos]; [reflexivity|intros [En Hp]; exact (@pos_off _ _ _ _ _ _ (CI En) i Hp)|exact (@pos_off _ _ _ _ _ _ MI m)].
  - intros [e|i|m] c; cbn [apos]; [intros [-> _]; reflexivity|intros [En Hp]; exact (@pos_status _ _ _ _ _ _ (CI En) i c Hp)|exact (@pos_status _ _ _ _ _ _ MI m c)].
  - intros a c. apply step_ok; [intros e _ -> En; rewrite (no_child En); eexists; auto|intros i _ En; exact (@pos_SeekToFirst _ _ _ _ _ _ (CI En) i c)|intros m _; exact (@pos_SeekToFirst _ _ _ _ _ _ MI m c)].
  - intros a c. apply step_ok; [intros e _ -> En; rewrite (no_child En); eexists; auto|intros i _ En; exact (@pos_SeekToLast _ _ _ _ _ _ (CI En) i c)|intros m _; exact (@pos_SeekToLast _ _ _ _ _ _ MI m c)].
  - intros a c k Ha Hk. revert Ha. apply step_ok; [intros e _ -> En; rewrite (no_child En); eexists; auto|intros i _ En Hp; exact (@pos_Seek _ _ _ _ _ _ (CI En) i c k Hp Hk)|intros m _ Hm; exact (@pos_Seek _ _ _ _ _ _ MI m c k Hm Hk)].
  - intros a b e l Ha. generalize Ha. apply step_ok; [intros x -> _ _; destruct Ha as (_ & _ & E); discriminate|intros i _ En; exact (@pos_Next _ _ _ _ _ _ (CI En) i b e l)|intros m _; exact (@pos_Next _ _ _ _ _ _ MI m b e l)].
  - intros a b e l Ha. generalize Ha. apply step_ok; [intros x -> _ _; destruct Ha as (_ & _ & E); discriminate|intros i _ En; exact (@pos_Prev _ _ _ _ _ _ (CI En) i b e l)|intros m _; exact (@pos_Prev _ _ _ _ _ _ MI m b e l)].
Qed.

Lemma NewMergingIterator_at (children : list I) : length children = n -> (forall i it, children !! i = Some it -> ps i it Off) ->
  exists a, NewMergingIterator children = Some a /\ apos a Off.
Proof.
  intros Hl Hc. destruct children as [|i [|i' rest]].
  - eexists. split; [reflexivity|]. cbn. auto.
  - eexists. split; [reflexivity|]. cbn in *. split; [auto|]. apply Hc. reflexivity.
  - destruct (new_Merging_at (i :: i' :: rest) Hl) as (m & E & Hm); [intros j it Hj; eexists; apply Hc, Hj|].
    eexists. cbn [NewMergingIterator]. rewrite E. split; [reflexivity|exact Hm].
Qed.
End Merging.

(** * Theorem *)

(** C7: [NewMergingIterator] over any number of iterators gives the merge of what they
    iterate over.  Let the children keep the promise of the interface over sorted
    lists that have no key in common, and let [es] be the sorted list of all their
    entries.  Then what is returned -- an empty iterator, the only child or a merging
    iterator -- keeps the promise over [es]: it starts off the list; sent to the first
    or the last entry or to a key it is there; [Next] and [Prev] go one on or one
    back in [es], in any order, though each child has to be turned round first; and
    no assertion of it or of a child fails. *)
Theorem merging_iterator_is_the_merge (C : Comparator) (L : ComparatorLaws C) (I : Type) (IT : Iterator I) (target_ok : list Z -> Prop)
    (n : nat) (ess : nat -> list entry) (ps : nat -> I -> cursor -> Prop) (es : list entry) (children : list I) :
  (forall i, (i < n)%nat -> Iterates IT Compare target_ok (ess i) (ps i)) ->
  (forall i, (i < n)%nat -> sorted_entries (KO := forward_order L) (ess i)) -> sorted_entries (KO := forward_order L) es ->
  (forall e, e ∈ es <-> exists i, (i < n)%nat /\ e ∈ ess i) ->
  (forall i j e x, (i < n)%nat -> (j < n)%nat -> i <> j -> e ∈ ess i -> x ∈ ess j -> Compare (fst e) (fst x) <> 0) ->
  (forall k, target_ok k -> key_ok k) -> (forall e, e ∈ es -> target_ok (fst e)) ->
  length children = n -> (forall i it, children !! i = Some it -> ps i it Off) ->
  exists a pos, NewMergingIterator children = Some a /\ pos a Off /\ Iterates Merged_Iterator Compare target_ok es pos.
Proof.
  intros IL Hess Hes Hin Hd Ht Hk Hl Hc. destruct (NewMergingIterator_at n ess ps es IL children Hl Hc) as (a & E & Ha).
  exists a, (apos n ess ps es). split; [exact E|]. split; [exact Ha|]. apply Merged_iterates; assumption.
Qed.

(** * An example *)

(** The plainest iterator: a list and a place in it. *)
Definition Cursor_Iterator {C : Comparator} : Iterator (list entry * cursor) := {|
  it_Valid i := match snd i with Off => false | At _ _ _ => true end;
  it_SeekToFirst i := Some (fst i, ahead [] (fst i));
  it_SeekToLast i := Some (fst i, behind (rev (fst i)) []);
  it_Seek k i := Some (fst i, scan (fun e => 0 <=? Compare (fst e) k) [] (fst i));
  it_Next i := match snd i with Off => None | At b e a => Some (fst i, ahead (e :: b) a) end;
  it_Prev i := match snd i with Off => None | At b e a => Some (fst i, behind b (e :: a)) end;
  it_key i := match snd i with Off => None | At _ e _ => Some (fst e) end;
  it_value i := match snd i with Off => None | At _ e _ => Some (snd e) end;
  it_status _ := OK |}.

Definition in_place (es : list entry) (c : cursor) : Prop := match c with Off => True | At b e a => rev b ++ e :: a = es end.
Definition cursor_at (es : list entry) (i : list entry * cursor) (c : cursor) : Prop := i = (es, c) /\ in_place es c.

Lemma in_place_ahead es b a : rev b ++ a = es -> in_place es (ahead b a).
Proof. destruct a; [exact (fun _ => Logic.I)|exact (fun E => E)]. Qed.

Lemma in_place_behind es b a : rev b ++ a = es -> in_place es (behind b a).
Proof. destruct b as [|e b]; [exact (fun _ => Logic.I)|]. cbn [rev behind in_place]. intros <-. rewrite <- app_assoc. reflexivity. Qed.

Lemma Cursor_iterates {C : Comparator} (es : list entry) : Iterates Cursor_Iterator Compare (fun _ => True) es (cursor_at es).
Proof.
  constructor.
  - intros i b e a [-> E]. auto.
  - intros i [-> _]. reflexivity.
  - reflexivity.
  - intros i c [-> _]. eexists. split; [reflexivity|]. split; [reflexivity|]. apply in_place_ahead. reflexivity.
  - intros i c [-> _]. eexists. split; [reflexivity|]. split; [reflexivity|]. apply in_place_behind. rewrite rev_involutive, app_nil_r. reflexivity.
  - intros i c k [-> _] _. eexists. split; [reflexivity|]. split; [reflexivity|]. cbn [fst].
    destruct (scan _ [] es) as [|b e a] eqn:E; [exact Logic.I|]. apply scan_inv in E. symmetry. exact E.
  - intros i b e a [-> E]. eexists. split; [reflexivity|]. split; [reflexivity|]. apply in_place_ahead. cbn [rev]. rewrite <- app_assoc. exact E.
  - intros i b e a [-> E]. eexists. split; [reflexivity|]. split; [reflexivity|]. apply in_place_behind. exact E.
Qed.

Definition odd_entries : list entry := [([1], [10]); ([3], [30])].
Definition even_entries : list entry := [([2], [20])].
Definition all_entries : list entry := [([1], [10]); ([2], [20]); ([3], [30])].

Ltac small_sorted := split; repeat constructor; unfold byte_ok; vm_compute; congruence.

Section Example.
#[local] Existing Instances BytewiseComparator BytewiseLaws Cursor_Iterator.

Lemma merging_iterator_is_the_merge_witness : exists a a1 a2 a3,
  NewMergingIterator [(odd_entries, Off); (even_entries, Off)] = Some a /\
  @it_SeekToFirst _ Merged_Iterator a = Some a1 /\ @it_key _ Merged_Iterator a1 = Some [1] /\
  @it_Next _ Merged_Iterator a1 = Some a2 /\ @it_key _ Merged_Iterator a2 = Some [2] /\
  @it_Prev _ Merged_Iterator a2 = Some a3 /\ @it_value _ Merged_Iterator a3 = Some [10].
Proof.
  set (ess := fun i : nat => if decide (i = 0%nat) then odd_entries else even_entries).
  destruct (merging_iterator_is_the_merge BytewiseComparator BytewiseLaws (list entry * cursor) Cursor_Iterator bytes_ok 2 ess
    (fun i => cursor_at (ess i)) all_entries [(odd_entries, Off); (even_entries, Off)]) as (a & pos & E & Ha & Hit).
  - intros i _. apply (Iterates_targets _ _ (fun _ => True)); [auto|]. apply Cursor_iterates.
  - intros i _. unfold ess. destruct (decide (i = 0%nat)); small_sorted.
  - small_sorted.
  - intros e. split.
    + intros He. repeat (apply elem_of_cons in He as [->|He]); [exists 0%nat|exists 1%nat|exists 0%nat|inversion He];
        (split; [lia|apply list_elem_of_In; vm_compute; tauto]).
    + intros (i & _ & He). apply list_elem_of_In. unfold ess in He. destruct (decide (i = 0%nat)); apply list_elem_of_In in He; vm_compute in He |- *; tauto.
  - intros i j e x Hi Hj Hne He Hx. unfold ess in He, Hx. apply list_elem_of_In in He, Hx.
    destruct (decide (i = 0%nat)), (decide (j = 0%nat)); try lia; cbn in He, Hx;
      repeat match goal with H : _ \/ _ |- _ => destruct H as [<-|H] | H : False |- _ => destruct H end; vm_compute; congruence.
  - auto.
  - intros e He. repeat (apply elem_of_cons in He as [->|He]); try (repeat constructor; unfold byte_ok; vm_compute; congruence). inversion He.
  - reflexivity.
  - intros [|[|i]] it Hi; [injection Hi as <-; split; [reflexivity|exact Logic.I]|injection Hi as <-; split; [reflexivity|exact Logic.I]|discriminate].
  - destruct (@pos_SeekToFirst _ _ _ _ _ _ Hit _ _ Ha) as (a1 & E1 & H1). destruct (@pos_at _ _ _ _ _ _ Hit _ _ _ _ H1) as (_ & _ & K1 & _).
    destruct (@pos_Next _ _ _ _ _ _ Hit _ _ _ _ H1) as (a2 & E2 & H2). destruct (@pos_at _ _ _ _ _ _ Hit _ _ _ _ H2) as (_ & _ & K2 & _).
    destruct (@pos_Prev _ _ _ _ _ _ Hit _ _ _ _ H2) as (a3 & E3 & H3). destruct (@pos_at _ _ _ _ _ _ Hit _ _ _ _ H3) as (_ & _ & _ & V3).
    exists a, a1, a2, a3. split_and!; assumption.
Defined.
End Example.
