(* ===== verification/LdbDbIter.v ===== *)
(** leveldb/db/db_iter.cc: the iterator a client of the database sees.

    It moves over an iterator of internal keys and shows, of the writes of each user
    key, the newest that its snapshot sees, unless that is a deletion.  The sampling
    of what is read, which may start a compaction, is not modelled. *)
From Stdlib Require Import ZArith Lia Strings.String.
From Stdlib Require Sorted.
From stdpp Require Import base list numbers gmap option sorting.
From S2P Require Import Prelude LdbCoding LdbLog LdbFormat LdbSkip LdbArena LdbMemTable LdbBatch LdbIter.

Open Scope Z_scope.

#[local] Arguments zlen : simpl never.

(** * The code *)

Section Code.
Context {P : Port} {C : Comparator} {I : Type} {IT : Iterator I}.

Record DBIter := mkDBIter {
  iter_ : I;
  sequence_ : Z;
  status_ : Status;
  saved_key_ : list Z;
  saved_value_ : list Z;
  direction_ : Direction;
  valid_ : bool }.

Definition new_DBIter (iter : I) (s : Z) : DBIter := mkDBIter iter s OK [] [] kForward false.

Definition set_iter (i : I) (d : DBIter) : DBIter := mkDBIter i (sequence_ d) (status_ d) (saved_key_ d) (saved_value_ d) (direction_ d) (valid_ d).
Definition set_status (s : Status) (d : DBIter) : DBIter := mkDBIter (iter_ d) (sequence_ d) s (saved_key_ d) (saved_value_ d) (direction_ d) (valid_ d).
Definition set_saved_key (k : list Z) (d : DBIter) : DBIter := mkDBIter (iter_ d) (sequence_ d) (status_ d) k (saved_value_ d) (direction_ d) (valid_ d).
Definition set_saved_value (v : list Z) (d : DBIter) : DBIter := mkDBIter (iter_ d) (sequence_ d) (status_ d) (saved_key_ d) v (direction_ d) (valid_ d).
Definition set_direction (x : Direction) (d : DBIter) : DBIter := mkDBIter (iter_ d) (sequence_ d) (status_ d) (saved_key_ d) (saved_value_ d) x (valid_ d).
Definition set_valid (b : bool) (d : DBIter) : DBIter := mkDBIter (iter_ d) (sequence_ d) (status_ d) (saved_key_ d) (saved_value_ d) (direction_ d) b.

Definition Valid (d : DBIter) : bool := valid_ d.

Definition key (d : DBIter) : option (list Z) :=
  if negb (valid_ d) then None
  else match direction_ d with kForward => k ← it_key (iter_ d); Some (ExtractUserKey k) | kReverse => Some (saved_key_ d) end.

Definition value (d : DBIter) : option (list Z) :=
  if negb (valid_ d) then None
  else match direction_ d with kForward => it_value (iter_ d) | kReverse => Some (saved_value_ d) end.

Definition status (d : DBIter) : Status := if status_ok (status_ d) then it_status (iter_ d) else status_ d.

(** How much room the string has kept cannot be seen. *)
Definition ClearSavedValue (d : DBIter) : DBIter := set_saved_value [] d.

Definition ParseKey (d : DBIter) : option (option ParsedInternalKey * DBIter) :=
  k ← it_key (iter_ d);
  match ParseInternalKey k with
  | (true, Some ikey) => Some (Some ikey, d)
  | _ => Some (None, set_status (CorruptionStatus "corrupted internal key in DBIter") d)
  end.

(** The loop of [FindNextUserEntry]; [skip] is always [&saved_key_]. *)
Fixpoint FindNext_loop (fuel : nat) (skipping : bool) (d : DBIter) : option DBIter :=
  match fuel with
  | O => None
  | S fuel =>
    let continue (skipping : bool) (d : DBIter) :=
      i ← it_Next (iter_ d);
      let d := set_iter i d in
      if it_Valid i then FindNext_loop fuel skipping d else Some (set_valid false (set_saved_key [] d)) in
    '(r, d) ← ParseKey d;
    match r with
    | Some ikey =>
      if sequence ikey <=? sequence_ d then
        if type ikey =? type_byte kTypeDeletion then continue true (set_saved_key (user_key ikey) d)
        else if type ikey =? type_byte kTypeValue then
          if skipping && (Compare (user_key ikey) (saved_key_ d) <=? 0) then continue skipping d
          else Some (set_saved_key [] (set_valid true d))
        else continue skipping d
      else continue skipping d
    | None => continue skipping d
    end
  end.

Definition FindNextUserEntry (fuel : nat) (skipping : bool) (d : DBIter) : option DBIter :=
  if negb (it_Valid (iter_ d)) then None
  else match direction_ d with kReverse => None | kForward => FindNext_loop fuel skipping d end.

Definition DBIter_Next (fuel : nat) (d : DBIter) : option DBIter :=
  if negb (valid_ d) then None
  else
    match direction_ d with
    | kReverse =>
      let d := set_direction kForward d in
      i ← (if negb (it_Valid (iter_ d)) then it_SeekToFirst (iter_ d) else it_Next (iter_ d));
      let d := set_iter i d in
      if negb (it_Valid i) then Some (set_saved_key [] (set_valid false d))
      else FindNextUserEntry fuel true d
    | kForward =>
      k ← it_key (iter_ d);
      FindNextUserEntry fuel true (set_saved_key (ExtractUserKey k) d)
    end.

(** The loop of [FindPrevUserEntry]: the last value type, as a byte. *)
Fixpoint FindPrev_loop (fuel : nat) (value_type : Z) (d : DBIter) : option (Z * DBIter) :=
  match fuel with
  | O => None
  | S fuel =>
    let continue (value_type : Z) (d : DBIter) :=
      i ← it_Prev (iter_ d);
      let d := set_iter i d in
      if it_Valid i then FindPrev_loop fuel value_type d else Some (value_type, d) in
    '(r, d) ← ParseKey d;
    match r with
    | Some ikey =>
      if sequence ikey <=? sequence_ d then
        if negb (value_type =? type_byte kTypeDeletion) && (Compare (user_key ikey) (saved_key_ d) <? 0) then Some (value_type, d)
        else
          let value_type := type ikey in
          if value_type =? type_byte kTypeDeletion then continue value_type (ClearSavedValue (set_saved_key [] d))
          else
            raw_value ← it_value (iter_ d);
            k ← it_key (iter_ d);
            continue value_type (set_saved_value raw_value (set_saved_key (ExtractUserKey k) d))
      else continue value_type d
    | None => continue value_type d
    end
  end.

Definition FindPrevUserEntry (fuel : nat) (d : DBIter) : option DBIter :=
  match direction_ d with
  | kForward => None
  | kReverse =>
    '(value_type, d) ← (if it_Valid (iter_ d) then FindPrev_loop fuel (type_byte kTypeDeletion) d else Some (type_byte kTypeDeletion, d));
    if value_type =? type_byte kTypeDeletion then
      Some (set_direction kForward (ClearSavedValue (set_saved_key [] (set_valid false d))))
    else Some (set_valid true d)
  end.

(** The loop of [Prev] where it turns round: whether a smaller key was found. *)
Fixpoint turn_loop (fuel : nat) (d : DBIter) : option (bool * DBIter) :=
  match fuel with
  | O => None
  | S fuel =>
    i ← it_Prev (iter_ d);
    let d := set_iter i d in
    if negb (it_Valid i) then Some (false, ClearSavedValue (set_saved_key [] (set_valid false d)))
    else
      k ← it_key i;
      if Compare (ExtractUserKey k) (saved_key_ d) <? 0 then Some (true, d) else turn_loop fuel d
  end.

Definition DBIter_Prev (fuel : nat) (d : DBIter) : option DBIter :=
  if negb (valid_ d) then None
  else
    match direction_ d with
    | kForward =>
      if negb (it_Valid (iter_ d)) then None
      else
        k ← it_key (iter_ d);
        '(found, d) ← turn_loop fuel (set_saved_key (ExtractUserKey k) d);
        if negb found then Some d else FindPrevUserEntry fuel (set_direction kReverse d)
    | kReverse => FindPrevUserEntry fuel d
    end.

Definition DBIter_Seek (fuel : nat) (target : list Z) (d : DBIter) : option DBIter :=
  let d := set_direction kForward d in
  let d := ClearSavedValue d in
  let d := set_saved_key [] d in
  let d := set_saved_key (AppendInternalKey (saved_key_ d) target (sequence_ d) kValueTypeForSeek) d in
  i ← it_Seek (saved_key_ d) (iter_ d);
  let d := set_iter i d in
  if it_Valid i then FindNextUserEntry fuel false d else Some (set_valid false d).

Definition DBIter_SeekToFirst (fuel : nat) (d : DBIter) : option DBIter :=
  let d := set_direction kForward d in
  let d := ClearSavedValue d in
  i ← it_SeekToFirst (iter_ d);
  let d := set_iter i d in
  if it_Valid i then FindNextUserEntry fuel false d else Some (set_valid false d).

Definition DBIter_SeekToLast (fuel : nat) (d : DBIter) : option DBIter :=
  let d := set_direction kReverse d in
  let d := ClearSavedValue d in
  i ← it_SeekToLast (iter_ d);
  FindPrevUserEntry fuel (set_iter i d).

(** It is an iterator itself. *)
Definition DBIter_Iterator (fuel : nat) : Iterator DBIter := {|
  it_Valid := Valid;
  it_SeekToFirst := DBIter_SeekToFirst fuel;
  it_SeekToLast := DBIter_SeekToLast fuel;
  it_Seek := DBIter_Seek fuel;
  it_Next := DBIter_Next fuel;
  it_Prev := DBIter_Prev fuel;
  it_key := key;
  it_value := value;
  it_status := status |}.
End Code.
Arguments DBIter : clear implicits.

(** * What it shows *)

(** A write that the snapshot [s] sees, and the newest of its key among them. *)
Definition seen (s : Z) (o : op) : bool := op_seq o <=? s.
Definition is_value (o : op) : bool := match op_type o with kTypeValue => true | kTypeDeletion => false end.
Definition shown {C : Comparator} (s : Z) (ops : list op) (o : op) : bool :=
  is_value o && seen s o && match visible (op_key o) s ops with Some x => op_seq x =? op_seq o | None => false end.

Definition pair (o : op) : entry := (op_key o, op_value o).

(** The user keys and values at a snapshot, in order. *)
Definition view {C : Comparator} (s : Z) (sops : list op) : list entry := map pair (List.filter (shown s sops) sops).

Section Showing.
Context {P : Port} {C : Comparator} {L : ComparatorLaws C} {I : Type} {IT : Iterator I} {target_ok : list Z -> Prop}.
Context (s : Z) (sops : list op) (pos : I -> cursor -> Prop) (IL : Iterates IT internal_Compare target_ok (map op_pair sops) pos).
Context (Hops : Forall op_ok sops) (Hnd : NoDup (map op_seq sops)).
Context (Hsorted : StronglySorted (fun a b => internal_Compare (op_ikey a) (op_ikey b) < 0) sops).
Context (Hs : 0 <= s <= kMaxSequenceNumber).
Implicit Types (d : DBIter I) (o x y : op) (a b : list op).

Abbreviation G := (shown s sops).
Abbreviation vis := (seen s).

Lemma op_in_before b a x : rev b ++ a = sops -> x ∈ b -> x ∈ sops.
Proof. intros E Hx. rewrite <- E. apply elem_of_app. left. apply list_elem_of_In, in_rev. rewrite rev_involutive. apply list_elem_of_In, Hx. Qed.

Lemma op_in_after b a x : rev b ++ a = sops -> x ∈ a -> x ∈ sops.
Proof. intros E Hx. rewrite <- E. apply elem_of_app. right. exact Hx. Qed.

Lemma op_is_ok x : x ∈ sops -> op_ok x.
Proof. intros Hx. rewrite Forall_forall in Hops. apply Hops, Hx. Qed.

(** What comes first in the list has a smaller key, or is newer. *)
Lemma before_after b a y x : rev b ++ a = sops -> y ∈ b -> x ∈ a ->
  Compare (op_key y) (op_key x) < 0 \/ Compare (op_key y) (op_key x) = 0 /\ op_seq x < op_seq y.
Proof.
  intros E Hy Hx. pose proof (op_is_ok y (op_in_before _ _ _ E Hy)) as Hyo. pose proof (op_is_ok x (op_in_after _ _ _ E Hx)) as Hxo.
  assert (Hy' : y ∈ rev b) by (apply list_elem_of_In, in_rev; rewrite rev_involutive; apply list_elem_of_In, Hy).
  rewrite <- E in Hsorted, Hnd. pose proof (StronglySorted_app_1_elem_of _ _ _ _ _ Hsorted Hy' Hx) as Hlt. cbv beta in Hlt.
  unfold op_ikey in Hlt. apply internal_Compare_keys in Hlt; [|apply Hyo|apply Hxo].
  rewrite map_app in Hnd. apply NoDup_app in Hnd as (_ & Hd & _).
  assert (Hne : op_seq x <> op_seq y).
  { intros Eq. apply (Hd (op_seq y)); [apply list_elem_of_fmap_2, Hy'|rewrite <- Eq; apply list_elem_of_fmap_2, Hx]. }
  lia.
Qed.

Lemma before_le b a y x : rev b ++ a = sops -> y ∈ b -> x ∈ a -> Compare (op_key y) (op_key x) <= 0.
Proof. intros E Hy Hx. pose proof (before_after b a y x E Hy Hx). lia. Qed.

Definition same_seen o x : bool := vis x && (Compare (op_key x) (op_key o) =? 0).

(** A write is shown when none of the same key that is seen comes before it. *)
Lemma shown_first b o a : rev b ++ o :: a = sops -> G o = is_value o && vis o && negb (existsb (same_seen o) b).
Proof.
  intros E. unfold shown. destruct (is_value o && vis o) eqn:Ev; [|reflexivity]. cbn [andb]. apply andb_prop in Ev as [_ Ev].
  assert (Ho : o ∈ sops) by (apply (op_in_after b (o :: a)); [exact E|apply elem_of_cons; auto]).
  assert (Hm : matches (op_key o) s o = true) by (unfold matches; rewrite Compare_refl by apply op_is_ok, Ho; exact Ev).
  destruct (visible_max _ _ _ _ Ho Hm) as (x & Ex & Hx). rewrite Ex. destruct (existsb (same_seen o) b) eqn:Eb; cbn [negb].
  - apply List.existsb_exists in Eb as (y & Hy & Ey). apply list_elem_of_In in Hy. apply andb_prop in Ey as [Ey1 Ey2]. apply Z.eqb_eq in Ey2.
    destruct (visible_max (op_key o) s sops y (op_in_before _ _ _ E Hy)) as (x' & Ex' & Hx'); [unfold matches; rewrite Ey2; exact Ey1|].
    rewrite Ex in Ex'. injection Ex' as <-. destruct (before_after b (o :: a) y o E Hy) as [Hl|Hl]; [apply elem_of_cons; auto|lia|].
    apply Z.eqb_neq. lia.
  - apply Z.eqb_eq. destruct (visible_in _ _ _ _ Ex) as [Hin Em]. apply andb_prop in Em as [Em1 Em2]. rewrite <- E in Hin.
    apply elem_of_app in Hin as [Hin|Hin].
    + exfalso. apply list_elem_of_In, in_rev in Hin. assert (Hex : existsb (same_seen o) b = true); [|congruence].
      apply List.existsb_exists. exists x. split; [exact Hin|]. unfold same_seen, seen. rewrite Em1, Em2. reflexivity.
    + apply elem_of_cons in Hin as [->|Hin]; [reflexivity|]. apply Z.eqb_eq in Em1.
      assert (E' : rev (o :: b) ++ a = sops) by (cbn [rev]; rewrite <- app_assoc; exact E).
      destruct (before_after (o :: b) a o x E') as [Hl|Hl]; [apply elem_of_cons; auto|exact Hin| |lia].
      pose proof (Compare_eq_sym (op_key x) (op_key o)) as Hsy. rewrite Hsy in Hl; [lia| |apply op_is_ok, Ho|exact Em1].
      apply op_is_ok, (op_in_after _ _ _ E'), Hin.
Qed.

(** ** Where the iterator is *)

Definition internal_at b a : cursor := ahead (map op_pair b) (map op_pair a).
Definition internal_behind b a : cursor := behind (map op_pair b) (map op_pair a).

Lemma internal_behind_cons b o a : internal_behind (o :: b) a = internal_at b (o :: a).
Proof. reflexivity. Qed.

(** The part of the view before and after. *)
Definition viewed a : list entry := map pair (List.filter G a).

(** Forward, the internal iterator is at the write itself; in reverse, it is at the
    nearest one before it that is seen, or off the list. *)
Inductive stands d b o a : Prop :=
| stands_forward : direction_ d = kForward -> pos (iter_ d) (internal_at b (o :: a)) -> stands d b o a
| stands_reverse b1 b2 : direction_ d = kReverse -> saved_key_ d = op_key o -> saved_value_ d = op_value o -> b = b1 ++ b2 ->
    Forall (fun x => vis x = false) b1 -> pos (iter_ d) (internal_behind b2 (rev b1 ++ o :: a)) ->
    match b2 with [] => True | q :: _ => vis q = true /\ Compare (op_key q) (op_key o) < 0 end -> stands d b o a.

Definition dpos d (c : cursor) : Prop :=
  sequence_ d = s /\ status_ d = OK /\ (exists ci, pos (iter_ d) ci) /\
  match c with
  | Off => valid_ d = false
  | At before e after => valid_ d = true /\ exists b o a, rev b ++ o :: a = sops /\ G o = true /\
      before = viewed b /\ e = pair o /\ after = viewed a /\ stands d b o a
  end.

Lemma internal_parts i b o a : pos i (internal_at b (o :: a)) ->
  it_Valid i = true /\ it_key i = Some (op_ikey o) /\ it_value i = Some (op_value o).
Proof. intros Hp. apply (pos_at i _ _ _ Hp). Qed.

Definition parsed o : ParsedInternalKey := {| user_key := op_key o; sequence := op_seq o; type := type_byte (op_type o) |}.

Lemma ParseKey_ok d b o a : rev b ++ o :: a = sops -> pos (iter_ d) (internal_at b (o :: a)) -> ParseKey d = Some (Some (parsed o), d).
Proof.
  intros E Hp. destruct (internal_parts _ _ _ _ Hp) as (_ & Hk & _). unfold ParseKey. rewrite Hk. cbn [mbind option_bind].
  unfold op_ikey. rewrite ParseInternalKey_InternalKey; [reflexivity|]. apply op_is_ok, (op_in_after _ _ _ E), elem_of_cons. auto.
Qed.

Lemma ExtractUserKey_op o : ExtractUserKey (op_ikey o) = op_key o.
Proof. apply ExtractUserKey_tagged. Qed.

Lemma it_Valid_at i b a : pos i (internal_at b a) -> it_Valid i = match a with [] => false | _ => true end.
Proof. destruct a as [|o a]; intros Hp; [apply (pos_off _ Hp)|apply (internal_parts _ _ _ _ Hp)]. Qed.

Lemma it_Valid_behind i b a : pos i (internal_behind b a) -> it_Valid i = match b with [] => false | _ => true end.
Proof. destruct b as [|o b]; intros Hp; [apply (pos_off _ Hp)|]. rewrite internal_behind_cons in Hp. apply (internal_parts _ _ _ _ Hp). Qed.

(** ** Forward *)

Definition bounded (bound : option (list Z)) x : bool := match bound with Some k => Compare (op_key x) k <=? 0 | None => false end.

(** The first write that is shown and beyond the bound. *)
Fixpoint next_shown (bound : option (list Z)) b a : cursor :=
  match a with
  | [] => Off
  | o :: a => if G o && negb (bounded bound o) then At (viewed b) (pair o) (viewed a) else next_shown bound (o :: b) a
  end.

Lemma viewed_cons o a : viewed (o :: a) = (if G o then [pair o] else []) ++ viewed a.
Proof. unfold viewed. cbn [List.filter]. destruct (G o); reflexivity. Qed.

Lemma next_shown_ahead bound a : forall b, (forall x, x ∈ a -> G x = true -> bounded bound x = false) ->
  next_shown bound b a = ahead (viewed b) (viewed a).
Proof.
  induction a as [|o a IH]; intros b Hb; [reflexivity|]. cbn [next_shown]. rewrite (viewed_cons o a). destruct (G o) eqn:Eo.
  - rewrite (Hb o (proj2 (elem_of_cons _ _ _) (or_introl eq_refl)) Eo). reflexivity.
  - cbn [andb app]. rewrite IH by (intros x Hx; apply Hb, elem_of_cons; auto). rewrite viewed_cons, Eo. reflexivity.
Qed.

Lemma next_shown_skip bound a1 : forall b a, (forall x, x ∈ a1 -> G x = true -> bounded bound x = true) ->
  next_shown bound b (a1 ++ a) = next_shown bound (rev a1 ++ b) a.
Proof.
  induction a1 as [|o a1 IH]; intros b a Hb; [reflexivity|]. cbn [app next_shown rev].
  assert (Eo : G o && negb (bounded bound o) = false).
  { destruct (G o) eqn:Eo; [|reflexivity]. rewrite (Hb o (proj2 (elem_of_cons _ _ _) (or_introl eq_refl)) Eo). reflexivity. }
  rewrite Eo, IH by (intros x Hx; apply Hb, elem_of_cons; auto). rewrite <- app_assoc. reflexivity.
Qed.

Definition hides (skipping : bool) (k : list Z) x : bool := skipping && (Compare (op_key x) k <=? 0).

(** What [skip] hides from here on: what is not beyond the bound, and what is not the
    newest of its key. *)
Definition skips bound b a (skipping : bool) (k : list Z) : Prop := forall x, x ∈ a -> vis x = true ->
  hides skipping k x = true <-> bounded bound x = true \/ existsb (same_seen x) b = true.

Definition all_from (bound : option (list Z)) a : Prop :=
  match bound with Some k => key_ok k /\ forall x, x ∈ a -> vis x = true -> Compare k (op_key x) <= 0 | None => True end.

Lemma same_seen_cons x o b : existsb (same_seen x) (o :: b) = same_seen x o || existsb (same_seen x) b.
Proof. reflexivity. Qed.

Lemma op_ok_after b o a x : rev b ++ o :: a = sops -> x ∈ o :: a -> op_ok x.
Proof. intros E Hx. apply op_is_ok, (op_in_after _ _ _ E), Hx. Qed.

Lemma same_trans b o x : key_ok (op_key o) -> key_ok (op_key x) -> Compare (op_key o) (op_key x) = 0 -> Forall op_ok b ->
  existsb (same_seen o) b = true -> existsb (same_seen x) b = true.
Proof.
  intros Ho Hx Ex Hb He. apply List.existsb_exists in He as (y & Hy & Ey). apply andb_prop in Ey as [E1 E2]. apply Z.eqb_eq in E2.
  apply List.existsb_exists. exists y. split; [exact Hy|]. unfold same_seen. rewrite E1. apply Z.eqb_eq.
  rewrite Forall_forall in Hb. apply list_elem_of_In in Hy. apply (Compare_eq_trans _ (op_key o)); auto. apply Hb, Hy.
Qed.

Lemma ops_before b a : rev b ++ a = sops -> Forall op_ok b.
Proof. intros E. apply Forall_forall. intros x Hx. apply op_is_ok, (op_in_before _ _ _ E), Hx. Qed.

(** After a write that is not seen, or is hidden. *)
Lemma skips_past bound b o a skipping k : rev b ++ o :: a = sops -> all_from bound (o :: a) -> skips bound b (o :: a) skipping k ->
  vis o = false \/ hides skipping k o = true -> skips bound (o :: b) a skipping k.
Proof.
  intros E Hall Hsk Ho x Hx Hv. assert (Hx' : x ∈ o :: a) by (apply elem_of_cons; auto). assert (Ho' : o ∈ o :: a) by (apply elem_of_cons; auto).
  rewrite (Hsk x Hx' Hv), same_seen_cons. destruct (same_seen x o) eqn:Es; [|reflexivity]. cbn [orb]. split; [tauto|intros _].
  apply andb_prop in Es as [Es1 Es2]. apply Z.eqb_eq in Es2. destruct Ho as [Ho|Ho]; [congruence|].
  apply (Hsk o Ho' Es1) in Ho. pose proof (op_key_ok _ (op_ok_after b o a x E Hx')) as Kx. pose proof (op_key_ok _ (op_ok_after b o a o E Ho')) as Ko.
  destruct Ho as [Ho|Ho]; [left|right; apply (same_trans b o x); auto; apply (ops_before b (o :: a) E)].
  destruct bound as [bk|]; [|discriminate]. destruct Hall as [Hbk _]. cbn [bounded] in *. apply Z.leb_le in Ho. apply Z.leb_le.
  apply (Compare_trans _ (op_key o)); auto. rewrite (Compare_eq_sym (op_key o) (op_key x)); auto. lia.
Qed.

(** After a deletion. *)
Lemma skips_deleted bound b o a : rev b ++ o :: a = sops -> all_from bound (o :: a) -> vis o = true ->
  skips bound (o :: b) a true (op_key o).
Proof.
  intros E Hall Hvo x Hx Hv. assert (Hx' : x ∈ o :: a) by (apply elem_of_cons; auto). assert (Ho' : o ∈ o :: a) by (apply elem_of_cons; auto).
  pose proof (op_key_ok _ (op_ok_after b o a x E Hx')) as Kx. pose proof (op_key_ok _ (op_ok_after b o a o E Ho')) as Ko.
  assert (E' : rev (o :: b) ++ a = sops) by (cbn [rev]; rewrite <- app_assoc; exact E).
  assert (Hle : Compare (op_key o) (op_key x) <= 0) by (apply (before_le (o :: b) a); auto; apply elem_of_cons; auto).
  unfold hides. cbn [andb]. rewrite same_seen_cons. unfold same_seen at 1. rewrite Hvo. cbn [andb].
  pose proof (Compare_sym (op_key o) (op_key x) Ko Kx). pose proof (Compare_sym (op_key x) (op_key o) Kx Ko). split.
  - intros Hh. apply Z.leb_le in Hh. right. apply orb_true_iff. left. apply Z.eqb_eq. lia.
  - intros [Hb|Hb].
    + destruct bound as [bk|]; [|discriminate]. destruct Hall as [Hbk Hfrom]. cbn [bounded] in Hb. apply Z.leb_le in Hb. apply Z.leb_le.
      apply (Compare_trans _ bk); auto.
    + apply Z.leb_le. apply orb_true_iff in Hb as [Hb|Hb]; [apply Z.eqb_eq in Hb; lia|].
      apply List.existsb_exists in Hb as (y & Hy & Ey). apply andb_prop in Ey as [_ Ey]. apply Z.eqb_eq in Ey. apply list_elem_of_In in Hy.
      assert (Ky : key_ok (op_key y)) by apply op_is_ok, (op_in_before _ _ _ E), Hy.
      apply (Compare_trans _ (op_key y)); auto; [rewrite Compare_eq_sym; auto; lia|]. apply (before_le b (o :: a)); auto.
Qed.

Lemma rev_cons_app o b a : rev b ++ o :: a = sops -> rev (o :: b) ++ a = sops.
Proof. intros E. cbn [rev]. rewrite <- app_assoc. exact E. Qed.

Lemma all_from_tail bound o a : all_from bound (o :: a) -> all_from bound a.
Proof. destruct bound as [k|]; [|auto]. intros [Hk Hf]. split; [exact Hk|]. intros x Hx. apply Hf, elem_of_cons. auto. Qed.

Lemma FindNext_ok a : forall fuel bound b o d skipping,
  rev b ++ o :: a = sops -> (length (o :: a) <= fuel)%nat -> sequence_ d = s -> status_ d = OK -> direction_ d = kForward ->
  pos (iter_ d) (internal_at b (o :: a)) -> all_from bound (o :: a) -> skips bound b (o :: a) skipping (saved_key_ d) ->
  exists d', FindNext_loop fuel skipping d = Some d' /\ dpos d' (next_shown bound b (o :: a)).
Proof.
  induction a as [a IH] using (well_founded_induction (Wf_nat.well_founded_ltof _ (@length op))).
  intros fuel bound b o d skipping E Hf Hsq Hst Hdir Hp Hall Hsk. destruct fuel as [|fuel]; [cbn in Hf; lia|]. cbn [length] in Hf.
  assert (Ho : o ∈ o :: a) by (apply elem_of_cons; auto). pose proof (shown_first b o a E) as HG.
  destruct (pos_Next _ _ _ _ Hp) as (i' & Ei & Hp'). change (pos i' (internal_at (o :: b) a)) in Hp'.
  assert (Go : forall sk k d1, G o && negb (bounded bound o) = false -> d1 = set_saved_key k d -> skips bound (o :: b) a sk k ->
    exists d', (i ← it_Next (iter_ d1); if it_Valid i then FindNext_loop fuel sk (set_iter i d1)
      else Some (set_valid false (set_saved_key [] (set_iter i d1)))) = Some d' /\ dpos d' (next_shown bound b (o :: a))).
  { intros sk k d1 Hno -> Hsk1. cbn [next_shown iter_ set_saved_key]. rewrite Hno, Ei. cbn [mbind option_bind]. rewrite (it_Valid_at _ _ _ Hp').
    destruct a as [|o' a]; [eexists; split; [reflexivity|]; cbn [next_shown]; split_and!; [exact Hsq|exact Hst|eexists; exact Hp'|reflexivity]|].
    apply IH; try assumption; [unfold ltof; cbn; lia|apply rev_cons_app, E|lia|eapply all_from_tail; eassumption]. }
  cbn [FindNext_loop]. rewrite (ParseKey_ok d b o a E Hp). cbn [mbind option_bind sequence type user_key parsed]. rewrite Hsq. fold (seen s o).
  assert (Ed : d = set_saved_key (saved_key_ d) d) by (destruct d; reflexivity).
  destruct (seen s o) eqn:Hv; [|apply (Go skipping (saved_key_ d)); [rewrite HG, andb_false_r; reflexivity|exact Ed|apply skips_past; auto]].
  destruct (op_type o) eqn:Ety.
  - change (type_byte kTypeDeletion =? type_byte kTypeDeletion) with true. cbv iota.
    apply (Go true (op_key o)); [rewrite HG; unfold is_value; rewrite Ety; reflexivity|reflexivity|apply skips_deleted; assumption].
  - change (type_byte kTypeValue =? type_byte kTypeDeletion) with false. change (type_byte kTypeValue =? type_byte kTypeValue) with true. cbv iota.
    fold (hides skipping (saved_key_ d) o). pose proof (Hsk o Ho Hv) as Hh. destruct (hides skipping (saved_key_ d) o) eqn:Eh.
    + apply (Go skipping (saved_key_ d)); [|exact Ed|apply skips_past; auto].
      destruct (proj1 Hh eq_refl) as [Hb|Hb]; rewrite ?HG, Hb, ?andb_false_r; cbn [negb]; rewrite ?andb_false_r; reflexivity.
    + eexists. split; [reflexivity|]. cbn [next_shown]. assert (Hb : bounded bound o = false /\ existsb (same_seen o) b = false).
      { destruct (bounded bound o), (existsb (same_seen o) b); intuition congruence. }
      destruct Hb as [Hb Hx]. rewrite HG, Hb, Hx. unfold is_value. rewrite Ety. cbn [andb negb].
      split_and!; [exact Hsq|exact Hst|eexists; exact Hp|reflexivity|]. exists b, o, a. split; [exact E|].
      split; [rewrite HG, Hx; unfold is_value; rewrite Ety; reflexivity|]. split_and!; try reflexivity. left; assumption.
Qed.

Lemma shown_seen o : G o = true -> vis o = true.
Proof. unfold shown. destruct (is_value o), (vis o); cbn [andb]; congruence. Qed.

(** What is shown after a write that is seen has a greater key. *)
Lemma shown_after b o a x : rev b ++ o :: a = sops -> vis o = true -> x ∈ a -> G x = true -> Compare (op_key o) (op_key x) < 0.
Proof.
  intros E Hv Hx Hg. destruct (before_after (o :: b) a o x (rev_cons_app _ _ _ E)) as [Hlt|[Heq _]]; [apply elem_of_cons; auto|exact Hx|exact Hlt|].
  apply list_elem_of_split in Hx as (a1 & a2 & ->). exfalso. assert (E' : rev (rev a1 ++ o :: b) ++ x :: a2 = sops).
  { rewrite rev_app_distr, rev_involutive. cbn [rev]. rewrite <- !app_assoc. exact E. }
  rewrite (shown_first _ _ _ E') in Hg. apply andb_prop in Hg as [_ Hg]. apply negb_true_iff in Hg.
  assert (He : existsb (same_seen x) (rev a1 ++ o :: b) = true); [|congruence]. apply List.existsb_exists. exists o.
  split; [apply in_or_app; right; left; reflexivity|]. unfold same_seen. rewrite Hv, Heq. reflexivity.
Qed.

Lemma next_shown_next b o a : rev b ++ o :: a = sops -> G o = true ->
  next_shown (Some (op_key o)) b (o :: a) = ahead (pair o :: viewed b) (viewed a).
Proof.
  intros E Hg. assert (Ko : key_ok (op_key o)) by (apply (op_ok_after b o a o E), elem_of_cons; auto).
  cbn [next_shown bounded]. rewrite Compare_refl by exact Ko. cbn [Z.leb negb]. rewrite andb_false_r.
  rewrite next_shown_ahead; [rewrite viewed_cons, Hg; reflexivity|]. intros x Hx Hgx. cbn [bounded]. apply Z.leb_gt.
  apply Compare_sym; [exact Ko|apply (op_ok_after b o a x E), elem_of_cons; auto|]. apply (shown_after b o a x); auto using shown_seen.
Qed.

(** The bound and [skip] are the current key. *)
Lemma skips_current b1 b2 o a : rev (b1 ++ b2) ++ o :: a = sops -> Forall (fun x => vis x = false) b1 ->
  all_from (Some (op_key o)) (rev b1 ++ o :: a) /\ skips (Some (op_key o)) b2 (rev b1 ++ o :: a) true (op_key o).
Proof.
  intros E Hb1. assert (Ko : key_ok (op_key o)) by (apply (op_ok_after _ o a o E), elem_of_cons; auto).
  assert (Hin : forall x, x ∈ rev b1 ++ o :: a -> vis x = true -> x ∈ o :: a).
  { intros x Hx Hv. apply elem_of_app in Hx as [Hx|Hx]; [|exact Hx]. rewrite Forall_forall in Hb1.
    apply list_elem_of_In, in_rev, list_elem_of_In in Hx. rewrite (Hb1 x Hx) in Hv. discriminate. }
  split; [split; [exact Ko|]|]; intros x Hx Hv; apply (Hin x Hx) in Hv as Hx'; clear Hx.
  - apply elem_of_cons in Hx' as [->|Hx']; [rewrite Compare_refl by exact Ko; reflexivity|].
    apply (before_le (o :: b1 ++ b2) a); [apply rev_cons_app, E|apply elem_of_cons; auto|exact Hx'].
  - unfold hides. cbn [andb bounded]. split; [auto|]. intros [Hb|Hb]; [exact Hb|].
    apply List.existsb_exists in Hb as (y & Hy & Ey). apply andb_prop in Ey as [_ Ey]. apply Z.eqb_eq in Ey. apply list_elem_of_In in Hy.
    assert (Hy' : y ∈ b1 ++ b2) by (apply elem_of_app; auto).
    assert (Ky : key_ok (op_key y)) by apply op_is_ok, (op_in_before _ _ _ E), Hy'.
    assert (Kx : key_ok (op_key x)) by apply (op_ok_after _ _ _ _ E Hx').
    apply Z.leb_le. apply (Compare_trans _ (op_key y)); auto; [rewrite Compare_eq_sym; auto; lia|].
    apply (before_le (b1 ++ b2) (o :: a)); auto. apply elem_of_cons. auto.
Qed.

Lemma length_after b a : rev b ++ a = sops -> (length a <= length sops)%nat.
Proof. intros <-. rewrite length_app. lia. Qed.

Lemma DBIter_Next_ok fuel d before e after : (length sops < fuel)%nat -> dpos d (At before e after) ->
  exists d', DBIter_Next fuel d = Some d' /\ dpos d' (ahead (e :: before) after).
Proof.
  intros Hf (Hsq & Hst & _ & Hv & b & o & a & E & Hg & -> & -> & -> & Hstands). unfold DBIter_Next. rewrite Hv. cbn [negb].
  assert (Main : forall b1 b2 d1, b = b1 ++ b2 -> Forall (fun x => vis x = false) b1 -> pos (iter_ d1) (internal_at b2 (rev b1 ++ o :: a)) ->
    sequence_ d1 = s -> status_ d1 = OK -> direction_ d1 = kForward -> saved_key_ d1 = op_key o ->
    exists d', FindNextUserEntry fuel true d1 = Some d' /\ dpos d' (ahead (pair o :: viewed b) (viewed a))).
  { intros b1 b2 d1 -> Hb1 Hp Hsq1 Hst1 Hdir1 Hsk. destruct (skips_current b1 b2 o a E Hb1) as [Hall Hskips].
    unfold FindNextUserEntry. rewrite (it_Valid_at _ _ _ Hp), Hdir1.
    assert (E' : rev b2 ++ rev b1 ++ o :: a = sops) by (rewrite app_assoc, <- rev_app_distr; exact E).
    pose proof (length_after _ _ E') as Hlen. rewrite <- (next_shown_next (b1 ++ b2) o a E Hg).
    assert (Eskip : next_shown (Some (op_key o)) b2 (rev b1 ++ o :: a) = next_shown (Some (op_key o)) (b1 ++ b2) (o :: a)).
    { rewrite next_shown_skip, rev_involutive; [reflexivity|]. intros x Hx Hgx. rewrite Forall_forall in Hb1.
      apply list_elem_of_In, in_rev, list_elem_of_In in Hx. pose proof (Hb1 x Hx) as Hvx. cbv beta in Hvx. rewrite (shown_seen x Hgx) in Hvx. discriminate. }
    rewrite <- Eskip.
    destruct (rev b1 ++ o :: a) as [|x0 a0] eqn:Ea; [destruct (rev b1); discriminate|]. cbn [negb].
    apply FindNext_ok; auto; [lia|]. rewrite Hsk. exact Hskips. }
  destruct Hstands as [Hdir Hp|b1 b2 Hdir Hsk Hsv -> Hb1 Hp Hq]; rewrite Hdir.
  - destruct (internal_parts _ _ _ _ Hp) as (_ & Hk & _). rewrite Hk. cbn [mbind option_bind]. rewrite ExtractUserKey_op.
    apply (Main [] b); auto.
  - destruct b2 as [|q b2].
    + cbn [iter_ set_direction]. rewrite (pos_off _ Hp). cbn [negb]. destruct (pos_SeekToFirst _ _ Hp) as (i' & Ei & Hp'). rewrite Ei. cbn [mbind option_bind].
      assert (E' : sops = rev b1 ++ o :: a) by (rewrite app_nil_r in E; symmetry; exact E).
      rewrite E' in Hp'. change (pos i' (internal_at [] (rev b1 ++ o :: a))) in Hp'. rewrite (it_Valid_at _ _ _ Hp').
      destruct (rev b1 ++ o :: a) eqn:Ea; [destruct (rev b1); discriminate|]. rewrite <- Ea in *. cbn [negb]. apply (Main b1 []); auto.
    + rewrite internal_behind_cons in Hp. cbn [iter_ set_direction]. rewrite (it_Valid_at _ _ _ Hp). cbn [negb].
      destruct (pos_Next _ _ _ _ Hp) as (i' & Ei & Hp'). change (pos i' (internal_at (q :: b2) (rev b1 ++ o :: a))) in Hp'. rewrite Ei. cbn [mbind option_bind].
      rewrite (it_Valid_at _ _ _ Hp'). destruct (rev b1 ++ o :: a) eqn:Ea; [destruct (rev b1); discriminate|]. rewrite <- Ea in *. cbn [negb].
      apply (Main b1 (q :: b2)); auto.
Qed.

(** ** Seeking *)

Lemma FindNext_from fuel b a d : rev b ++ a = sops -> (length sops < fuel)%nat -> sequence_ d = s -> status_ d = OK -> direction_ d = kForward ->
  pos (iter_ d) (internal_at b a) -> (forall x, x ∈ a -> vis x = true -> existsb (same_seen x) b = false) ->
  exists d', (if it_Valid (iter_ d) then FindNextUserEntry fuel false d else Some (set_valid false d)) = Some d' /\
    dpos d' (ahead (viewed b) (viewed a)).
Proof.
  intros E Hf Hsq Hst Hdir Hp Hb. rewrite (it_Valid_at _ _ _ Hp). destruct a as [|o a].
  - eexists. split; [reflexivity|]. split_and!; [exact Hsq|exact Hst|eexists; exact Hp|reflexivity].
  - unfold FindNextUserEntry. rewrite (it_Valid_at _ _ _ Hp), Hdir. cbn [negb]. rewrite <- (next_shown_ahead None) by reflexivity.
    pose proof (length_after _ _ E). apply FindNext_ok; auto; [lia|exact Logic.I|]. intros x Hx Hv. unfold hides, bounded. cbn [andb]. rewrite (Hb x Hx Hv).
    intuition discriminate.
Qed.

Lemma DBIter_SeekToFirst_ok fuel d c : (length sops < fuel)%nat -> dpos d c ->
  exists d', DBIter_SeekToFirst fuel d = Some d' /\ dpos d' (ahead [] (viewed sops)).
Proof.
  intros Hf (Hsq & Hst & (ci & Hp) & _). unfold DBIter_SeekToFirst. destruct (pos_SeekToFirst _ _ Hp) as (i' & Ei & Hp').
  cbn [iter_ set_direction ClearSavedValue set_saved_value]. rewrite Ei. cbn [mbind option_bind].
  apply (FindNext_from fuel [] sops (set_iter i' _)); auto.
Qed.

Lemma scan_ops (q : entry -> bool) a : forall b, exists a1 a2, a = a1 ++ a2 /\ scan q (map op_pair b) (map op_pair a) = internal_at (rev a1 ++ b) a2 /\
  Forall (fun o => q (op_pair o) = false) a1 /\ match a2 with [] => True | o :: _ => q (op_pair o) = true end.
Proof.
  induction a as [|o a IH]; intros b; [exists [], []; cbn; auto|]. cbn [map scan]. destruct (q (op_pair o)) eqn:Eq.
  - exists [], (o :: a). cbn. auto.
  - destruct (IH (o :: b)) as (a1 & a2 & -> & Ea & H1 & H2). exists (o :: a1), a2. cbn [map] in Ea. rewrite Ea. cbn [rev app]. rewrite <- app_assoc.
    split; [reflexivity|]. split; [reflexivity|]. auto.
Qed.

Lemma viewed_app a b : viewed (a ++ b) = viewed a ++ viewed b.
Proof. unfold viewed. rewrite List.filter_app, map_app. reflexivity. Qed.

Lemma viewed_rev a : viewed (rev a) = rev (viewed a).
Proof. unfold viewed. rewrite List.filter_rev, map_rev. reflexivity. Qed.

Lemma in_viewed e a : e ∈ viewed a -> exists o, e = pair o /\ o ∈ a /\ G o = true.
Proof.
  unfold viewed. intros He. apply list_elem_of_fmap in He as (o & -> & Ho). apply list_elem_of_In, List.filter_In in Ho as [Ho Hg].
  apply list_elem_of_In in Ho. eauto.
Qed.

Definition user_target (k : list Z) : Prop := key_ok k /\ target_ok (InternalKey k s kValueTypeForSeek).

(** The target is before what the snapshot sees of its key. *)
Lemma before_target o k : op_ok o -> internal_Compare (op_ikey o) (InternalKey k s kValueTypeForSeek) < 0 <->
  Compare (op_key o) k < 0 \/ Compare (op_key o) k = 0 /\ vis o = false.
Proof.
  intros Ho. unfold op_ikey. rewrite internal_Compare_keys by (apply Ho || exact Hs). change (type_byte kValueTypeForSeek) with 1.
  pose proof (type_byte_range (op_type o)). unfold seen. destruct (Z.leb_spec (op_seq o) s); intuition (try lia); discriminate.
Qed.

Lemma DBIter_Seek_ok fuel d c k : (length sops < fuel)%nat -> dpos d c -> user_target k ->
  exists d', DBIter_Seek fuel k d = Some d' /\ dpos d' (scan (fun e => 0 <=? Compare (fst e) k) [] (viewed sops)).
Proof.
  intros Hf (Hsq & Hst & (ci & Hp) & _) [Hk Ht]. unfold DBIter_Seek. cbv zeta. cbn [saved_key_ set_saved_key ClearSavedValue set_saved_value set_direction sequence_ iter_].
  rewrite AppendInternalKey_eq, Hsq. cbn [app]. destruct (pos_Seek _ _ _ Hp Ht) as (i' & Ei & Hp'). rewrite Ei. cbn [mbind option_bind].
  set (q := fun e : entry => 0 <=? internal_Compare (fst e) (InternalKey k s kValueTypeForSeek)) in Hp'.
  destruct (scan_ops q sops []) as (a1 & a2 & E & Escan & H1 & H2). cbn [map] in Escan. rewrite Escan, app_nil_r in Hp'.
  assert (E' : rev (rev a1) ++ a2 = sops) by (rewrite rev_involutive; symmetry; exact E).
  assert (Hlow : forall y, y ∈ a1 -> vis y = true -> Compare (op_key y) k < 0).
  { intros y Hy Hv. rewrite Forall_forall in H1. specialize (H1 y Hy). unfold q in H1. cbn [fst op_pair] in H1. apply Z.leb_gt in H1.
    apply before_target in H1; [|apply op_is_ok; rewrite E; apply elem_of_app; auto]. destruct H1 as [|[_ H1]]; [assumption|congruence]. }
  assert (Hhigh : forall x, x ∈ a2 -> 0 <= Compare (op_key x) k).
  { intros x Hx. destruct a2 as [|h a2]; [inversion Hx|]. unfold q in H2. cbn [fst op_pair] in H2. apply Z.leb_le in H2.
    assert (Hin : h ∈ h :: a2) by (apply elem_of_cons; auto). pose proof (op_ok_after _ _ _ h E' Hin) as Hh. pose proof (op_ok_after _ _ _ x E' Hx) as Hxo.
    pose proof (before_target h k Hh) as Hb. assert (Hhk : 0 <= Compare (op_key h) k) by lia.
    apply Compare_le_ge; [exact Hk|apply Hxo|]. apply (Compare_trans _ (op_key h)); [exact Hk|apply Hh|apply Hxo|apply Compare_le_ge; [exact Hk|apply Hh|exact Hhk]|].
    apply elem_of_cons in Hx as [->|Hx]; [rewrite Compare_refl by apply Hh; reflexivity|].
    apply (before_le (h :: rev a1) a2); [apply rev_cons_app, E'|apply elem_of_cons; auto|exact Hx]. }
  assert (Ev : scan (fun e => 0 <=? Compare (fst e) k) [] (viewed sops) = ahead (viewed (rev a1)) (viewed a2)).
  { rewrite E, viewed_app, scan_app, app_nil_r, viewed_rev.
    - apply scan_ahead. destruct (viewed a2) as [|e r] eqn:Er; [exact Logic.I|]. destruct (in_viewed e a2) as (x & -> & Hx & _); [rewrite Er; apply elem_of_cons; auto|].
      apply Z.leb_le, (Hhigh x Hx).
    - apply Forall_forall. intros e He. destruct (in_viewed e a1 He) as (y & -> & Hy & Hgy). apply Z.leb_gt, (Hlow y Hy), shown_seen, Hgy. }
  rewrite Ev. apply (FindNext_from fuel (rev a1) a2 (set_iter i' _)); auto. intros x Hx Hv. apply not_true_is_false. intros He.
  apply List.existsb_exists in He as (y & Hy & Ey). apply andb_prop in Ey as [Ey1 Ey2]. apply Z.eqb_eq in Ey2. apply in_rev, list_elem_of_In in Hy.
  pose proof (Hlow y Hy Ey1) as Hl. specialize (Hhigh x Hx). assert (Hyo : op_ok y) by (apply op_is_ok; rewrite E; apply elem_of_app; auto).
  assert (Hxo : op_ok x) by apply op_is_ok, (op_in_after _ _ _ E'), Hx.
  pose proof (Compare_le_lt (op_key x) (op_key y) k) as Htr. rewrite (Compare_eq_sym (op_key y) (op_key x)) in Htr; try apply Hxo; try apply Hyo; [|exact Ey2].
  specialize (Htr (op_key_ok _ Hxo) (op_key_ok _ Hyo) Hk ltac:(lia) Hl). lia.
Qed.

(** ** Backward *)

(** The nearest write before that is shown. *)
Fixpoint prev_shown b a : cursor :=
  match b with
  | [] => Off
  | o :: b => if G o then At (viewed b) (pair o) (viewed a) else prev_shown b (o :: a)
  end.

Lemma prev_shown_behind b : forall a, prev_shown b a = behind (viewed b) (viewed a).
Proof.
  induction b as [|o b IH]; intros a; [reflexivity|]. cbn [prev_shown]. rewrite (viewed_cons o b). destruct (G o) eqn:Eo; [reflexivity|].
  rewrite IH, viewed_cons, Eo. reflexivity.
Qed.

Lemma prev_shown_skip b1 : forall b2 a, Forall (fun x => G x = false) b1 -> prev_shown (b1 ++ b2) a = prev_shown b2 (rev b1 ++ a).
Proof.
  induction b1 as [|o b1 IH]; intros b2 a Hb; [reflexivity|]. apply List.Forall_cons_iff in Hb as [Ho Hb]. cbn [app prev_shown rev].
  rewrite Ho, IH, <- app_assoc by exact Hb. reflexivity.
Qed.

Lemma unseen_hidden b : Forall (fun x => vis x = false) b -> Forall (fun x => G x = false) b.
Proof. intros Hb. eapply Forall_impl; [exact Hb|]. cbv beta. intros x Hx. apply not_true_is_false. intros Hg. rewrite (shown_seen x Hg) in Hx. discriminate. Qed.

(** The write that will be shown unless an older one ... is met: none, or [m], with
    only writes that are not seen between. *)
Inductive candidate d b a : Z -> cursor -> Prop :=
| no_candidate : candidate d b a (type_byte kTypeDeletion) (prev_shown b a)
| one_candidate a1 m a2 : a = a1 ++ m :: a2 -> Forall (fun x => vis x = false) a1 -> vis m = true -> is_value m = true ->
    saved_key_ d = op_key m -> saved_value_ d = op_value m ->
    candidate d b a (type_byte kTypeValue)
      (if existsb (same_seen m) b then prev_shown b a else At (viewed (rev a1 ++ b)) (pair m) (viewed a2)).

(** What the loop leaves. *)
Definition turned d (vt : Z) (c : cursor) : Prop :=
  direction_ d = kReverse /\ sequence_ d = s /\ status_ d = OK /\ (exists ci, pos (iter_ d) ci) /\
  match c with
  | Off => vt = type_byte kTypeDeletion
  | At before e after => vt = type_byte kTypeValue /\ exists b o a, rev b ++ o :: a = sops /\ G o = true /\
      before = viewed b /\ e = pair o /\ after = viewed a /\ stands d b o a
  end.

(** The candidate is it: no write of its key that is seen comes before. *)
Lemma candidate_shown d a1 b m a2 : rev (rev a1 ++ b) ++ m :: a2 = sops -> Forall (fun x => vis x = false) a1 -> vis m = true -> is_value m = true ->
  existsb (same_seen m) b = false -> direction_ d = kReverse -> sequence_ d = s -> status_ d = OK ->
  saved_key_ d = op_key m -> saved_value_ d = op_value m -> pos (iter_ d) (internal_behind b (a1 ++ m :: a2)) ->
  match b with [] => True | q :: _ => vis q = true /\ Compare (op_key q) (op_key m) < 0 end ->
  turned d (type_byte kTypeValue) (At (viewed (rev a1 ++ b)) (pair m) (viewed a2)).
Proof.
  intros E H1 Hv Hval Hno Hdir Hsq Hst Hk Hsv Hp Hq. split_and!; auto; [eexists; exact Hp|]. exists (rev a1 ++ b), m, a2. split; [exact E|].
  assert (Hr : Forall (fun x => vis x = false) (rev a1)) by (apply Forall_rev; exact H1).
  split.
  - rewrite (shown_first _ _ _ E), Hv, Hval, List.existsb_app, Hno, orb_false_r. cbn [andb]. apply negb_true_iff, not_true_is_false. intros He.
    apply List.existsb_exists in He as (y & Hy & Ey). rewrite Forall_forall in Hr. apply list_elem_of_In in Hy. unfold same_seen in Ey.
    rewrite (Hr y Hy) in Ey. discriminate.
  - split_and!; try reflexivity. apply (stands_reverse d _ _ _ (rev a1) b); auto. rewrite rev_involutive. exact Hp.
Qed.

Lemma FindPrev_ok b : forall fuel a d vt c, rev b ++ a = sops -> (length b <= fuel)%nat -> b <> [] -> sequence_ d = s -> status_ d = OK ->
  direction_ d = kReverse -> pos (iter_ d) (internal_behind b a) -> candidate d b a vt c ->
  exists vt' d', FindPrev_loop fuel vt d = Some (vt', d') /\ turned d' vt' c.
Proof.
  induction b as [|o b IH]; intros fuel a d vt c E Hf Hne Hsq Hst Hdir Hp Hc; [congruence|]. clear Hne.
  destruct fuel as [|fuel]; [cbn in Hf; lia|]. cbn [length] in Hf. rewrite internal_behind_cons in Hp.
  assert (E' : rev b ++ o :: a = sops) by (cbn [rev] in E; rewrite <- app_assoc in E; exact E). pose proof (shown_first b o a E') as HG.
  destruct (pos_Prev _ _ _ _ Hp) as (i' & Ei & Hp'). change (pos i' (internal_behind b (o :: a))) in Hp'.
  assert (Go : forall vt1 d1, iter_ d1 = iter_ d -> sequence_ d1 = s -> status_ d1 = OK -> direction_ d1 = kReverse ->
    candidate (set_iter i' d1) b (o :: a) vt1 c ->
    exists vt' d', (i ← it_Prev (iter_ d1); if it_Valid i then FindPrev_loop fuel vt1 (set_iter i d1) else Some (vt1, set_iter i d1)) = Some (vt', d') /\ turned d' vt' c).
  { intros vt1 d1 Eiter Hsq1 Hst1 Hdir1 Hc1. rewrite Eiter, Ei. cbn [mbind option_bind]. rewrite (it_Valid_behind _ _ _ Hp').
    destruct b as [|o' b]; [|apply (IH fuel (o :: a)); auto; lia]. eexists _, _. split; [reflexivity|].
    destruct Hc1 as [|a1 m a2 Ea H1 Hv Hval Hk Hsv].
    - cbn [prev_shown]. split_and!; auto. eexists. exact Hp'.
    - cbn [existsb]. apply candidate_shown; try assumption; try reflexivity; first [exact Logic.I|rewrite <- Ea; exact Hp'|rewrite app_nil_r, rev_involutive, <- Ea; exact E']. }
  cbn [FindPrev_loop]. rewrite (ParseKey_ok d b o a E' Hp). cbn [mbind option_bind sequence type user_key parsed]. rewrite Hsq. fold (seen s o).
  destruct (seen s o) eqn:Hv.
  2:{ apply Go; auto. assert (HGo : G o = false) by (rewrite HG, andb_false_r; reflexivity).
      destruct Hc as [|a1 m a2 -> H1 Hvm Hval Hk Hsv]; cbn [prev_shown existsb]; rewrite HGo.
      - apply no_candidate.
      - unfold same_seen at 1. rewrite Hv. cbn [andb orb]. replace (rev a1 ++ o :: b) with (rev (o :: a1) ++ b) by (cbn [rev]; rewrite <- app_assoc; reflexivity).
        apply (one_candidate (set_iter i' d) b (o :: a1 ++ m :: a2) (o :: a1) m a2); auto. }
  assert (Take : forall vt0, c = prev_shown (o :: b) a -> vt0 = type_byte (op_type o) ->
    exists vt' d', (if vt0 =? type_byte kTypeDeletion then
        i ← it_Prev (iter_ (ClearSavedValue (set_saved_key [] d)));
        if it_Valid i then FindPrev_loop fuel vt0 (set_iter i (ClearSavedValue (set_saved_key [] d)))
        else Some (vt0, set_iter i (ClearSavedValue (set_saved_key [] d)))
      else raw_value ← it_value (iter_ d); k ← it_key (iter_ d);
        i ← it_Prev (iter_ (set_saved_value raw_value (set_saved_key (ExtractUserKey k) d)));
        if it_Valid i then FindPrev_loop fuel vt0 (set_iter i (set_saved_value raw_value (set_saved_key (ExtractUserKey k) d)))
        else Some (vt0, set_iter i (set_saved_value raw_value (set_saved_key (ExtractUserKey k) d)))) = Some (vt', d') /\ turned d' vt' c).
  { intros vt0 Ecp ->. subst c. cbn [prev_shown]. unfold is_value in HG. destruct (op_type o) eqn:Ety.
    - change (type_byte kTypeDeletion =? type_byte kTypeDeletion) with true. cbv iota. rewrite HG. cbn [andb]. cbn [prev_shown] in Go. rewrite HG in Go.
      apply Go; auto. apply no_candidate.
    - change (type_byte kTypeValue =? type_byte kTypeDeletion) with false. cbv iota. destruct (internal_parts _ _ _ _ Hp) as (_ & Hk & Hvl).
      rewrite Hk, Hvl. cbn [mbind option_bind]. rewrite ExtractUserKey_op. apply Go; auto. cbn [prev_shown]. rewrite HG. cbn [andb].
      pose proof (one_candidate (set_iter i' (set_saved_value (op_value o) (set_saved_key (op_key o) d))) b (o :: a) [] o a) as Hone.
      cbn [rev app] in Hone. destruct (existsb (same_seen o) b); apply Hone; auto; unfold is_value; rewrite Ety; reflexivity. }
  destruct Hc as [|a1 m a2 Ea H1 Hvm Hval Hk Hsv].
  - change (type_byte kTypeDeletion =? type_byte kTypeDeletion) with true. cbn [negb andb]. apply Take; reflexivity.
  - change (type_byte kTypeValue =? type_byte kTypeDeletion) with false. cbn [negb andb]. rewrite Hk.
    assert (Hm : forall y, y ∈ o :: b -> Compare (op_key y) (op_key m) <= 0).
    { intros y Hy. apply (before_le (o :: b) a); [exact E|exact Hy|]. rewrite Ea. apply elem_of_app. right. apply elem_of_cons. auto. }
    assert (Hmo : op_ok m) by (apply op_is_ok, (op_in_after _ _ _ E); rewrite Ea; apply elem_of_app; right; apply elem_of_cons; auto).
    assert (Ho : o ∈ o :: b) by (apply elem_of_cons; auto).
    destruct (Z.ltb_spec (Compare (op_key o) (op_key m)) 0) as [Hlt|Hge].
    + eexists _, _. split; [reflexivity|]. assert (Hno : existsb (same_seen m) (o :: b) = false).
      { apply not_true_is_false. intros He. apply List.existsb_exists in He as (y & Hy & Ey). apply andb_prop in Ey as [_ Ey]. apply Z.eqb_eq in Ey.
        apply list_elem_of_In in Hy. apply elem_of_cons in Hy as [->|Hy]; [lia|].
        assert (Hyo : op_ok y) by apply op_is_ok, (op_in_before _ _ _ E'), Hy. assert (Hoo : op_ok o) by apply op_is_ok, (op_in_before _ _ _ E), Ho.
        assert (Hyle : Compare (op_key y) (op_key o) <= 0) by (apply (before_le b (o :: a)); auto; apply elem_of_cons; auto).
        pose proof (Compare_le_lt _ _ _ (op_key_ok _ Hyo) (op_key_ok _ Hoo) (op_key_ok _ Hmo) Hyle Hlt). lia. }
      rewrite Hno. apply (candidate_shown d a1 (o :: b)); auto; [rewrite rev_app_distr, rev_involutive, <- app_assoc, <- Ea; exact E|].
      rewrite <- Ea. rewrite internal_behind_cons. exact Hp.
    + assert (Hyes : existsb (same_seen m) (o :: b) = true); [|rewrite Hyes in *; apply Take; reflexivity].
      cbn [existsb]. unfold same_seen at 1. rewrite Hv. specialize (Hm o Ho). rewrite (proj2 (Z.eqb_eq _ _)) by lia. reflexivity.
Qed.

Lemma FindPrevUserEntry_ok fuel b a d : rev b ++ a = sops -> (length sops < fuel)%nat -> sequence_ d = s -> status_ d = OK -> direction_ d = kReverse ->
  pos (iter_ d) (internal_behind b a) -> exists d', FindPrevUserEntry fuel d = Some d' /\ dpos d' (behind (viewed b) (viewed a)).
Proof.
  intros E Hf Hsq Hst Hdir Hp. unfold FindPrevUserEntry. rewrite Hdir, (it_Valid_behind _ _ _ Hp), <- prev_shown_behind. destruct b as [|o b].
  - cbn [mbind option_bind]. eexists. split; [reflexivity|]. split_and!; [exact Hsq|exact Hst|eexists; exact Hp|reflexivity].
  - assert (Hlen : (length (o :: b) <= fuel)%nat) by (rewrite <- E, length_app, length_rev in Hf; lia).
    destruct (FindPrev_ok (o :: b) fuel a d _ _ E Hlen ltac:(discriminate) Hsq Hst Hdir Hp (no_candidate d _ _)) as (vt & d' & -> & Hd' & Hsq' & Hst' & Hci & Hc).
    cbn [mbind option_bind]. destruct (prev_shown (o :: b) a) as [|before e after].
    + subst vt. eexists. split; [reflexivity|]. split_and!; auto.
    + destruct Hc as [-> (b0 & o0 & a0 & E0 & Hg & Eb & Ee & Ea & Hstands)]. change (type_byte kTypeValue =? type_byte kTypeDeletion) with false. cbv iota.
      eexists. split; [reflexivity|]. split_and!; auto. exists b0, o0, a0. split_and!; auto.
      destruct Hstands as [Hdir' Hp'|b1 b2 Hdir' Hk Hsv Eb' Hb1 Hp' Hq]; [apply stands_forward; assumption|apply (stands_reverse _ _ _ _ b1 b2); assumption].
Qed.

Lemma DBIter_SeekToLast_ok fuel d c : (length sops < fuel)%nat -> dpos d c ->
  exists d', DBIter_SeekToLast fuel d = Some d' /\ dpos d' (behind (rev (viewed sops)) []).
Proof.
  intros Hf (Hsq & Hst & (ci & Hp) & _). unfold DBIter_SeekToLast. destruct (pos_SeekToLast _ _ Hp) as (i' & Ei & Hp').
  cbn [iter_ set_direction ClearSavedValue set_saved_value]. rewrite Ei. cbn [mbind option_bind]. rewrite <- viewed_rev.
  change (@nil entry) with (viewed []). apply FindPrevUserEntry_ok; auto; [rewrite rev_involutive, app_nil_r; reflexivity|].
  cbn [iter_ set_iter]. unfold internal_behind. rewrite map_rev. exact Hp'.
Qed.

(** Turning round: back to a smaller key. *)
Lemma turn_ok o b : forall fuel a d, rev b ++ a = sops -> (length b < fuel)%nat -> pos (iter_ d) (internal_at b a) -> a <> [] ->
  saved_key_ d = op_key o -> (forall y, y ∈ b -> Compare (op_key y) (op_key o) <= 0) ->
  exists b1 b2 i', b = b1 ++ b2 /\ Forall (fun x => Compare (op_key x) (op_key o) = 0) b1 /\ pos i' (internal_behind b2 (rev b1 ++ a)) /\
    turn_loop fuel d = Some (match b2 with [] => (false, ClearSavedValue (set_saved_key [] (set_valid false (set_iter i' d)))) | _ => (true, set_iter i' d) end).
Proof.
  induction b as [|x b IH]; intros fuel a d E Hf Hp Hne Hk Hle; (destruct fuel as [|fuel]; [cbn in Hf; lia|]); (destruct a as [|h a]; [congruence|]);
    cbn [turn_loop]; destruct (pos_Prev _ _ _ _ Hp) as (i' & Ei & Hp'); rewrite Ei; cbn [mbind option_bind].
  - change (pos i' (internal_behind [] (h :: a))) in Hp'. rewrite (it_Valid_behind _ _ _ Hp'). exists [], [], i'. auto.
  - change (pos i' (internal_behind (x :: b) (h :: a))) in Hp'. rewrite (it_Valid_behind _ _ _ Hp'). cbn [negb].
    rewrite internal_behind_cons in Hp'. destruct (internal_parts _ _ _ _ Hp') as (_ & Hkx & _). rewrite Hkx. cbn [mbind option_bind].
    rewrite ExtractUserKey_op. cbn [saved_key_ set_iter]. rewrite Hk. destruct (Z.ltb_spec (Compare (op_key x) (op_key o)) 0) as [Hlt|Hge].
    + exists [], (x :: b), i'. split_and!; auto.
    + assert (E' : rev b ++ x :: h :: a = sops) by (cbn [rev] in E; rewrite <- app_assoc in E; exact E). cbn [length] in Hf.
      destruct (IH fuel (x :: h :: a) (set_iter i' d) E' ltac:(lia) Hp' ltac:(discriminate) Hk) as (b1 & b2 & i2 & -> & Hb1 & Hp2 & Et).
      { intros y Hy. apply Hle, elem_of_cons. auto. }
      exists (x :: b1), b2, i2. cbn [rev app]. rewrite <- app_assoc. split; [reflexivity|]. split; [|split; [exact Hp2|exact Et]].
      constructor; [|exact Hb1]. specialize (Hle x ltac:(apply elem_of_cons; auto)). lia.
Qed.

Lemma DBIter_Prev_ok fuel d before e after : (length sops < fuel)%nat -> dpos d (At before e after) ->
  exists d', DBIter_Prev fuel d = Some d' /\ dpos d' (behind before (e :: after)).
Proof.
  intros Hf (Hsq & Hst & _ & Hv & b & o & a & E & Hg & -> & -> & -> & Hstands). unfold DBIter_Prev. rewrite Hv. cbn [negb].
  assert (Ev : pair o :: viewed a = viewed (o :: a)) by (rewrite viewed_cons, Hg; reflexivity). rewrite Ev.
  pose proof (op_ok_after b o a o E ltac:(apply elem_of_cons; auto)) as Ho.
  assert (Skip : forall b1 b2, b = b1 ++ b2 -> Forall (fun x => G x = false) b1 ->
    behind (viewed b) (viewed (o :: a)) = behind (viewed b2) (viewed (rev b1 ++ o :: a))).
  { intros b1 b2 -> Hb1. rewrite <- !prev_shown_behind. apply prev_shown_skip, Hb1. }
  destruct Hstands as [Hdir Hp|b1 b2 Hdir Hk Hsv -> Hb1 Hp Hq]; rewrite Hdir.
  - destruct (internal_parts _ _ _ _ Hp) as (Hval & Hk & _). rewrite Hval, Hk. cbn [negb mbind option_bind]. rewrite ExtractUserKey_op.
    assert (Hlen : (length b < fuel)%nat) by (rewrite <- E, length_app, length_rev in Hf; lia).
    destruct (turn_ok o b fuel (o :: a) (set_saved_key (op_key o) d) E Hlen Hp ltac:(discriminate) eq_refl) as (b1 & b2 & i' & -> & Hb1 & Hp' & ->).
    { intros y Hy. apply (before_le b (o :: a)); auto. apply elem_of_cons. auto. }
    assert (Hhid : Forall (fun x => G x = false) b1).
    { apply unseen_hidden, Forall_forall. intros x Hx. rewrite Forall_forall in Hb1. apply not_true_is_false. intros Hvx.
      rewrite (shown_first _ _ _ E) in Hg. apply andb_prop in Hg as [_ Hg]. apply negb_true_iff in Hg.
      assert (He : existsb (same_seen o) (b1 ++ b2) = true); [|congruence]. apply List.existsb_exists. exists x.
      split; [apply in_or_app; left; apply list_elem_of_In, Hx|]. unfold same_seen. rewrite Hvx, (Hb1 x Hx). reflexivity. }
    rewrite (Skip b1 b2 eq_refl Hhid). destruct b2 as [|q b2]; cbn [mbind option_bind negb].
    + eexists. split; [reflexivity|]. split_and!; [exact Hsq|exact Hst|eexists; exact Hp'|reflexivity].
    + apply FindPrevUserEntry_ok; auto. rewrite app_assoc, <- rev_app_distr. exact E.
  - rewrite (Skip b1 b2 eq_refl (unseen_hidden b1 Hb1)). apply FindPrevUserEntry_ok; auto. rewrite app_assoc, <- rev_app_distr. exact E.
Qed.

Lemma DBIter_iterates fuel : (length sops < fuel)%nat -> Iterates (DBIter_Iterator fuel) Compare user_target (view s sops) dpos.
Proof.
  intros Hf. constructor.
  - intros d before e after (Hsq & Hst & _ & Hv & b & o & a & E & Hg & -> & -> & -> & Hstands).
    split. { rewrite <- viewed_rev. change (view s sops) with (viewed sops). rewrite <- E, viewed_app, viewed_cons, Hg. reflexivity. }
    split; [exact Hv|]. cbn [it_key it_value DBIter_Iterator]. unfold key, value. rewrite Hv. cbn [negb].
    destruct Hstands as [Hdir Hp|b1 b2 Hdir Hk Hsv Eb Hb1 Hp Hq]; rewrite Hdir.
    + destruct (internal_parts _ _ _ _ Hp) as (_ & Hk & Hvl). rewrite Hk, Hvl. cbn [mbind option_bind]. rewrite ExtractUserKey_op. auto.
    + rewrite Hk, Hsv. auto.
  - intros d (_ & _ & _ & Hv). exact Hv.
  - intros d c (_ & Hst & (ci & Hp) & _). cbn [it_status DBIter_Iterator]. unfold status. rewrite Hst. cbn [status_ok]. apply (pos_status _ _ Hp).
  - intros d c Hc. apply (DBIter_SeekToFirst_ok fuel d c Hf Hc).
  - intros d c Hc. apply (DBIter_SeekToLast_ok fuel d c Hf Hc).
  - intros d c k Hc Hk. apply (DBIter_Seek_ok fuel d c k Hf Hc Hk).
  - intros d before e after Hc. apply (DBIter_Next_ok fuel d before e after Hf Hc).
  - intros d before e after Hc. apply (DBIter_Prev_ok fuel d before e after Hf Hc).
Qed.
End Showing.
