(* ===== verification/LdbDbRead.v ===== *)
(** leveldb/db/db_impl.cc: iterators of the database.

    A client's iterator moves over the memtables merged into one, while other threads
    go on writing.  It keeps showing the snapshot it was made with: the nodes it is at
    stay where they are, and what is added later has greater numbers. *)
From Stdlib Require Import ZArith Lia Strings.String.
From Stdlib Require Sorted.
From stdpp Require Import base list numbers gmap option sorting.
From S2P Require Import Prelude LdbCoding LdbCrc LdbLog LdbFormat LdbSkip LdbArena LdbMemTable LdbBatch LdbIter LdbMerge LdbDbIter LdbDb.

Open Scope Z_scope.

#[local] Arguments zlen : simpl never.

(** * The code *)

Section Code.
Context {P : Port} {C : Comparator} {L : ComparatorLaws C} {H : Heap} {AR : Arena (list Z)} {F : Type}.

(** The client's iterator, over the internal one. *)
Abbreviation ClientIterator := (DBIter (Merged MemTableIterator)).

Definition with_tables (mem : MemTable) (imm : option MemTable) (db : Db F) : Db F :=
  mkDb (log_ db) mem imm (last_sequence_ db) (tmp_batch_ db) (bg_error_ db) (writers_ db) (current_ db) (answers_ db).

(** [NewInternalIterator]: the latest snapshot, the iterator, and the database with
    what is referenced.  The iterators point to the tables, which here already count
    the reference.  There are no tables on the disk to add. *)
Definition NewInternalIterator (db : Db F) : option (Z * Merged MemTableIterator * Db F) :=
  let mem := Ref (mem_ db) in
  let imm := Ref <$> imm_ db in
  let list := NewIterator mem :: match imm with Some imm => [NewIterator imm] | None => [] end in
  iter ← @NewMergingIterator MemTableIterator MemTable_Iterator list;
  Some (last_sequence_ db, iter, with_tables mem imm db).

Definition Db_NewIterator (snapshot : option Z) (db : Db F) : option (ClientIterator * Db F) :=
  '(latest_snapshot, iter, db) ← NewInternalIterator db;
  Some (new_DBIter iter (default latest_snapshot snapshot), db).

(** When an iterator is deleted, while the tables it had are still those of the
    database: [None] where a table is deleted with it. *)
Definition CleanupIteratorState (db : Db F) : failure + option (Db F) :=
  match Unref (mem_ db) with
  | inl e => inl e
  | inr None => inr None
  | inr (Some mem) =>
    match imm_ db with
    | None => inr (Some (with_tables mem None db))
    | Some imm => match Unref imm with inl e => inl e | inr None => inr None | inr (Some imm) => inr (Some (with_tables mem (Some imm) db)) end
    end
  end.

(** The memtable as an iterator that points to it sees it now. *)
Definition look_at (mem : MemTable) (i : MemTableIterator) : MemTableIterator := mkMemTableIterator mem (node_ i).

Definition see_first (mem : MemTable) (ws : list (IteratorWrapper MemTableIterator)) : list (IteratorWrapper MemTableIterator) :=
  match ws with w :: ws => mkWrapper (look_at mem (w_iter w)) (w_valid w) (w_key w) :: ws | [] => [] end.

Definition see (mem : MemTable) (d : ClientIterator) : ClientIterator :=
  set_iter (match iter_ d with
            | AEmpty e => AEmpty e
            | AChild i => AChild (look_at mem i)
            | AMerging m => AMerging (mkMerging (see_first mem (children_ m)) (LdbMerge.current_ m) (m_direction_ m))
            end) d.
End Code.

(** * Writes that a snapshot does not see *)

Lemma filter_split {X} (p : X -> bool) (l : list X) : forall l1 x l2, List.filter p l = l1 ++ x :: l2 ->
  exists l1' l2', l = l1' ++ x :: l2' /\ List.filter p l1' = l1 /\ List.filter p l2' = l2.
Proof.
  induction l as [|y l IH]; intros l1 x l2 E; [destruct l1; discriminate|]. cbn [List.filter] in E. destruct (p y) eqn:Ep.
  - destruct l1 as [|z l1]; injection E as -> E.
    + exists [], l. auto.
    + destruct (IH l1 x l2 E) as (l1' & l2' & -> & E1 & E2). exists (z :: l1'), l2'. cbn [List.filter]. rewrite Ep, E1. auto.
  - destruct (IH l1 x l2 E) as (l1' & l2' & -> & E1 & E2). exists (y :: l1'), l2'. cbn [List.filter]. rewrite Ep. auto.
Qed.

Lemma filter_rev_split {X} (p : X -> bool) (l b : list X) x a : List.filter p l = rev b ++ x :: a ->
  exists b' a', rev b' ++ x :: a' = l /\ List.filter p b' = b /\ List.filter p a' = a.
Proof.
  intros E. destruct (filter_split p l _ x a E) as (l1 & l2 & -> & E1 & E2). exists (rev l1), l2. rewrite rev_involutive. split; [reflexivity|].
  split; [rewrite List.filter_rev, E1, rev_involutive; reflexivity|exact E2].
Qed.

Lemma filter_filter {X} (p q : X -> bool) (l : list X) : (forall x, p x = true -> q x = true) -> List.filter p (List.filter q l) = List.filter p l.
Proof.
  intros Hpq. induction l as [|x l IH]; [reflexivity|]. cbn [List.filter]. destruct (q x) eqn:Eq; cbn [List.filter].
  - rewrite IH. reflexivity.
  - destruct (p x) eqn:Ep; [rewrite (Hpq x Ep) in Eq; discriminate|exact IH].
Qed.

Lemma filter_sorted {X} (R : X -> X -> Prop) (p : X -> bool) (l : list X) : StronglySorted R l -> StronglySorted R (List.filter p l).
Proof.
  induction 1 as [|x l Hs IH Hx]; [constructor|]. cbn [List.filter]. destruct (p x); [|exact IH]. constructor; [exact IH|].
  rewrite Forall_forall in Hx. apply Forall_forall. intros y Hy. apply list_elem_of_In, List.filter_In in Hy as [Hy _]. apply Hx, list_elem_of_In, Hy.
Qed.

Lemma filter_perm {X} (p : X -> bool) (l l' : list X) : l ≡ₚ l' -> List.filter p l ≡ₚ List.filter p l'.
Proof.
  induction 1 as [|x l l' _ IH|x y l|l1 l2 l3 _ IH1 _ IH2]; [reflexivity| | |etransitivity; eassumption]; cbn [List.filter].
  - destruct (p x); [constructor|]; exact IH.
  - destruct (p x), (p y); try reflexivity. constructor.
Qed.

(** What a snapshot sees of a key depends only on which writes there are. *)
Lemma visible_same {C : Comparator} u s (l l' : list op) : NoDup (map op_seq l') -> (forall o, matches u s o = true -> o ∈ l' <-> o ∈ l) ->
  visible u s l' = visible u s l.
Proof.
  intros Hnd Hin. destruct (visible u s l) as [o|] eqn:E.
  - destruct (visible_in _ _ _ _ E) as [Ho Hm]. apply visible_eq; [exact Hnd|apply Hin; assumption|exact Hm|].
    intros b Hb Hbm. apply (Hin b Hbm) in Hb. destruct (visible_max _ _ _ _ Hb Hbm) as (o' & E' & Hle). rewrite E in E'. injection E' as <-. exact Hle.
  - destruct (visible u s l') as [o|] eqn:E'; [|reflexivity]. destruct (visible_in _ _ _ _ E') as [Ho Hm]. apply (Hin o Hm) in Ho.
    destruct (visible_max _ _ _ _ Ho Hm) as (o' & E'' & _). rewrite E in E''. discriminate.
Qed.

Lemma visible_perm {C : Comparator} u s (l l' : list op) : NoDup (map op_seq l') -> l' ≡ₚ l -> visible u s l' = visible u s l.
Proof. intros Hnd Hp. apply visible_same; [exact Hnd|]. intros o _. rewrite Hp. reflexivity. Qed.

Section Keeping.
Context {P : Port} {C : Comparator} {L : ComparatorLaws C} {H : Heap} {HL : HeapLaws H} {AR : Arena (list Z)}.
Context (s : Z).

Definition by_key (a b : op) : Prop := internal_Compare (op_ikey a) (op_ikey b) < 0.

(** The writes of a memtable in the order of its list. *)
Record listing (t : MemTable) (ops sops : list op) : Prop := {
  li_holds : holds t ops;
  li_perm : sops ≡ₚ ops;
  li_sorted : StronglySorted by_key sops;
  li_table : represents (table_ t) (map op_entry sops) }.

Lemma listing_ok t ops sops : listing t ops sops -> Forall op_ok sops.
Proof. intros Hl. rewrite (li_perm _ _ _ Hl). apply Hl. Qed.

Lemma listing_seq t ops sops : listing t ops sops -> NoDup (map op_seq sops).
Proof. intros Hl. rewrite (li_perm _ _ _ Hl). apply Hl. Qed.

(** A memtable and the same one later, with more writes that the snapshot does not
    see. *)
Context (t t' : MemTable) (ops new sops sops' : list op).
Context (Ht : listing t ops sops) (Ht' : listing t' (ops ++ new) sops') (Hlater : later (table_ t) (table_ t')).
Context (bound : Z) (Hs : s <= bound) (Hold : Forall (fun o => op_seq o <= bound) ops) (Hnew : Forall (fun o => bound < op_seq o) new).

Definition old (o : op) : bool := op_seq o <=? bound.

Lemma old_of_all : List.filter old sops' = sops.
Proof.
  apply (StronglySorted_unique_strong by_key).
  - intros a b Ha Hb Hab Hba. exfalso. apply list_elem_of_In, List.filter_In in Ha as [Ha _]. apply list_elem_of_In in Ha.
    pose proof (listing_ok _ _ _ Ht) as Hok. pose proof (listing_ok _ _ _ Ht') as Hok'. rewrite Forall_forall in Hok. rewrite Forall_forall in Hok'.
    unfold by_key in *. apply internal_sym in Hab; [lia|apply op_entry_parts, Hok', Ha|apply op_entry_parts, Hok, Hb].
  - apply filter_sorted, Ht'.
  - apply Ht.
  - rewrite (filter_perm old _ _ (li_perm _ _ _ Ht')), (li_perm _ _ _ Ht), List.filter_app.
    assert (E1 : List.filter old ops = ops).
    { apply List.forallb_filter_id. apply List.forallb_forall. intros o Ho. rewrite Forall_forall in Hold. apply Z.leb_le, Hold, list_elem_of_In, Ho. }
    assert (E2 : List.filter old new = []).
    { destruct (List.filter old new) as [|x l] eqn:E; [reflexivity|]. exfalso. assert (Hx : List.In x (List.filter old new)) by (rewrite E; left; reflexivity).
      apply List.filter_In in Hx as [Hx Ex]. apply Z.leb_le in Ex. rewrite Forall_forall in Hnew. apply list_elem_of_In in Hx. specialize (Hnew x Hx). cbv beta in Hnew. lia. }
    rewrite E1, E2, app_nil_r. reflexivity.
Qed.

Lemma seen_old o : seen s o = true -> old o = true.
Proof. unfold seen, old. rewrite !Z.leb_le. lia. Qed.

Lemma visible_sops u : visible u s sops' = visible u s sops.
Proof.
  apply visible_same; [apply (listing_seq _ _ _ Ht')|]. intros o Hm. rewrite <- old_of_all, !list_elem_of_In, List.filter_In.
  split; [|tauto]. intros Ho. split; [exact Ho|]. apply seen_old. apply andb_prop in Hm as [_ Hm]. exact Hm.
Qed.

Lemma shown_sops o : shown s sops' o = shown s sops o.
Proof. unfold shown. rewrite visible_sops. reflexivity. Qed.

Lemma viewed_sops a : viewed s sops' a = viewed s sops (List.filter old a).
Proof.
  unfold viewed. rewrite filter_filter.
  - f_equal. apply List.filter_ext. exact shown_sops.
  - intros o Ho. apply seen_old. unfold shown in Ho. apply andb_prop in Ho as [Ho _]. apply andb_prop in Ho as [_ Ho]. exact Ho.
Qed.

Lemma view_sops : view s sops' = view s sops.
Proof. change (viewed s sops' sops' = viewed s sops sops). rewrite viewed_sops, old_of_all. reflexivity. Qed.

(** ** The iterator of the memtable *)

Definition child_at (mem : MemTable) (ls : list op) (a : Merged MemTableIterator) (c : cursor) : Prop := exists i, a = AChild i /\ mem_at mem ls i c.

Lemma same_place (b b0 : list op) (o o0 : op) (a a0 : list op) : rev b ++ o :: a = rev b0 ++ o0 :: a0 -> map op_pair b = map op_pair b0 -> b = b0 /\ o = o0 /\ a = a0.
Proof.
  intros E Eb. apply (f_equal (@length _)) in Eb. rewrite !List.length_map in Eb. apply app_inj_1 in E as [E1 E2]; [|rewrite !List.length_rev; exact Eb].
  injection E2 as -> ->. split; [|auto]. rewrite <- (rev_involutive b), E1, rev_involutive. reflexivity.
Qed.

Lemma mem_at_keeps i b o a b' a' : mem_at t sops i (internal_at b (o :: a)) -> rev b ++ o :: a = sops -> rev b' ++ o :: a' = sops' ->
  mem_at t' sops' (look_at t' i) (internal_at b' (o :: a')).
Proof.
  intros (_ & Hli & b0 & o0 & a0 & Eb & _ & _ & E0 & Hk) E E'. rewrite <- E in E0. destruct (same_place b0 b o0 o a0 a E0 (eq_sym Eb)) as (-> & -> & ->). clear Eb E0.
  destruct (keys_from_node _ _ _ _ Hk) as (x & En & Hx). split; [reflexivity|]. cbn [look_at node_]. rewrite En in *. destruct Hlater as [Hkeys Hnodes].
  split; [apply Hnodes, Hli|]. exists b', o, a'. split_and!; auto. apply (listed_keys _ (map op_entry (rev b'))).
  - pose proof (li_table _ _ _ Ht') as Hr. rewrite <- E', map_app in Hr. exact Hr.
  - apply Hnodes, Hli.
  - apply Hkeys, Hx.
Qed.

Lemma mem_off_keeps i : mem_at t sops i Off -> mem_at t' sops' (look_at t' i) Off.
Proof. intros (_ & _ & Hn). split; [reflexivity|]. cbn [look_at node_] in *. rewrite Hn. split; [exact Logic.I|reflexivity]. Qed.

(** A place among the old writes is one among all of them. *)
Lemma place_keeps b o a : rev b ++ o :: a = sops -> exists b' a', rev b' ++ o :: a' = sops' /\ List.filter old b' = b /\ List.filter old a' = a.
Proof. intros E. apply filter_rev_split. rewrite old_of_all. symmetry. exact E. Qed.

Lemma mem_somewhere i c : mem_at t sops i c -> exists c', mem_at t' sops' (look_at t' i) c'.
Proof.
  intros Hm. destruct c as [|before e after]; [eexists; apply mem_off_keeps, Hm|]. pose proof Hm as (_ & _ & b & o & a & -> & -> & -> & E & _).
  destruct (place_keeps b o a E) as (b' & a' & E' & _). eexists. apply (mem_at_keeps i b o a b' a' Hm E E').
Qed.

(** ** The client's iterator *)

Lemma unseen_keeps b1 : Forall (fun x => seen s x = false) (List.filter old b1) -> Forall (fun x => seen s x = false) b1.
Proof.
  intros Hb. rewrite Forall_forall in Hb. apply Forall_forall. intros x Hx. destruct (seen s x) eqn:Ex; [|reflexivity].
  rewrite <- Ex. apply Hb, list_elem_of_In, List.filter_In. split; [apply list_elem_of_In, Hx|apply seen_old, Ex].
Qed.

Lemma stands_keeps d b o a b' a' i : iter_ d = AChild i -> rev b ++ o :: a = sops -> rev b' ++ o :: a' = sops' -> List.filter old b' = b -> List.filter old a' = a ->
  stands s (child_at t sops) d b o a -> stands s (child_at t' sops') (see t' d) b' o a'.
Proof.
  intros Ei E E' Eb Ea Hst. assert (Ei' : iter_ (see t' d) = AChild (look_at t' i)) by (cbn [see set_iter iter_]; rewrite Ei; reflexivity).
  destruct Hst as [Hdir (j & Ej & Hp)|b1 b2 Hdir Hk Hv Esp Hb1 (j & Ej & Hp) Hq]; rewrite Ei in Ej; injection Ej as <-.
  - apply stands_forward; [exact Hdir|]. exists (look_at t' i). split; [exact Ei'|]. apply (mem_at_keeps i b o a); assumption.
  - destruct b2 as [|q b2].
    + rewrite app_nil_r in Esp. subst b1. apply (stands_reverse _ _ _ _ _ _ b' []); auto; [rewrite app_nil_r; reflexivity|apply unseen_keeps; rewrite Eb; exact Hb1|].
      exists (look_at t' i). split; [exact Ei'|]. apply mem_off_keeps, Hp.
    + rewrite Esp in Eb. destruct (filter_split old b' b1 q b2 Eb) as (b1' & b2' & -> & E1 & E2).
      apply (stands_reverse _ _ _ _ _ _ b1' (q :: b2')); auto; [apply unseen_keeps; rewrite E1; exact Hb1|].
      exists (look_at t' i). split; [exact Ei'|]. rewrite internal_behind_cons in *. apply (mem_at_keeps i b2 q (rev b1 ++ o :: a)); [exact Hp| |].
      * rewrite <- E, Esp, rev_app_distr. cbn [rev]. rewrite <- !app_assoc. reflexivity.
      * rewrite <- E', rev_app_distr. cbn [rev]. rewrite <- !app_assoc. reflexivity.
Qed.

Lemma dpos_keeps d c : dpos s sops (child_at t sops) d c -> dpos s sops' (child_at t' sops') (see t' d) c.
Proof.
  intros (Hsq & Hst & (ci & i & Ei & Hp) & Hc). split; [exact Hsq|]. split; [exact Hst|]. split.
  { destruct (mem_somewhere i ci Hp) as (c' & Hc'). exists c', (look_at t' i). split; [cbn [see set_iter iter_]; rewrite Ei; reflexivity|exact Hc']. }
  destruct c as [|before e after]; [exact Hc|]. destruct Hc as (Hv & b & o & a & E & Hg & -> & -> & -> & Hstands). split; [exact Hv|].
  destruct (place_keeps b o a E) as (b' & a' & E' & Eb & Ea). exists b', o, a'. rewrite shown_sops, !viewed_sops, Eb, Ea. split_and!; auto.
  apply (stands_keeps d b o a b' a' i); assumption.
Qed.
End Keeping.

(** * What an iterator shows *)

Definition Internal_Iterator {P : Port} {C : Comparator} {L : ComparatorLaws C} {AR : Arena (list Z)} : Iterator (Merged MemTableIterator) :=
  @Merged_Iterator InternalKeyComparator MemTableIterator MemTable_Iterator.

Definition Client_Iterator {P : Port} {C : Comparator} {L : ComparatorLaws C} {AR : Arena (list Z)} (fuel : nat) : Iterator (DBIter (Merged MemTableIterator)) :=
  @DBIter_Iterator P C (Merged MemTableIterator) Internal_Iterator fuel.

(** One iterator seen as one of the three. *)
Lemma child_iterates {C : Comparator} {I : Type} (IT : Iterator I) cmp target_ok es (pos : I -> cursor -> Prop) : Iterates IT cmp target_ok es pos ->
  Iterates Merged_Iterator cmp target_ok es (fun a c => exists i, a = AChild i /\ pos i c).
Proof.
  intros IL. assert (Ok : forall (r : option I) c, (exists i, r = Some i /\ pos i c) -> exists a, AChild <$> r = Some a /\ exists i, a = AChild i /\ pos i c).
  { intros r c (i & -> & Hp). exists (AChild i). split; [reflexivity|]. exists i. auto. }
  constructor.
  - intros a b e l (i & -> & Hp). exact (pos_at i b e l Hp).
  - intros a (i & -> & Hp). exact (pos_off i Hp).
  - intros a c (i & -> & Hp). exact (pos_status i c Hp).
  - intros a c (i & -> & Hp). apply Ok, (pos_SeekToFirst i c Hp).
  - intros a c (i & -> & Hp). apply Ok, (pos_SeekToLast i c Hp).
  - intros a c k (i & -> & Hp) Hk. apply Ok, (pos_Seek i c k Hp Hk).
  - intros a b e l (i & -> & Hp). apply Ok, (pos_Next i b e l Hp).
  - intros a b e l (i & -> & Hp). apply Ok, (pos_Prev i b e l Hp).
Qed.

(** One of several ways to be somewhere. *)
Lemma Iterates_any {I X : Type} (IT : Iterator I) cmp target_ok es (Q : X -> Prop) (pos : X -> I -> cursor -> Prop) :
  (forall x, Q x -> Iterates IT cmp target_ok es (pos x)) -> Iterates IT cmp target_ok es (fun i c => exists x, Q x /\ pos x i c).
Proof.
  intros IL. assert (Ok : forall x (r : option I) c, Q x -> (exists i, r = Some i /\ pos x i c) -> exists i, r = Some i /\ exists x, Q x /\ pos x i c).
  { intros x r c Hx (i & E & Hp). exists i. split; [exact E|]. exists x. auto. }
  constructor.
  - intros i b e l (x & Hx & Hp). specialize (IL x Hx). exact (pos_at i b e l Hp).
  - intros i (x & Hx & Hp). specialize (IL x Hx). exact (pos_off i Hp).
  - intros i c (x & Hx & Hp). specialize (IL x Hx). exact (pos_status i c Hp).
  - intros i c (x & Hx & Hp). specialize (IL x Hx). apply (Ok x _ _ Hx), (pos_SeekToFirst i c Hp).
  - intros i c (x & Hx & Hp). specialize (IL x Hx). apply (Ok x _ _ Hx), (pos_SeekToLast i c Hp).
  - intros i c k (x & Hx & Hp) Hk. specialize (IL x Hx). apply (Ok x _ _ Hx), (pos_Seek i c k Hp Hk).
  - intros i b e l (x & Hx & Hp). specialize (IL x Hx). apply (Ok x _ _ Hx), (pos_Next i b e l Hp).
  - intros i b e l (x & Hx & Hp). specialize (IL x Hx). apply (Ok x _ _ Hx), (pos_Prev i b e l Hp).
Qed.

(** A key that a client may look for. *)
Definition client_target {P : Port} {C : Comparator} {L : ComparatorLaws C} (k : list Z) : Prop := key_ok k /\ bytes_ok k /\ zlen k + 8 < 2 ^ 32.

(** The client's iterator over any internal one. *)
Lemma client_over {P : Port} {C : Comparator} {L : ComparatorLaws C} {AR : Arena (list Z)} s sops pos fuel : 0 <= s <= kMaxSequenceNumber ->
  Forall op_ok sops -> NoDup (map op_seq sops) -> StronglySorted by_key sops -> (length sops < fuel)%nat ->
  Iterates Internal_Iterator internal_Compare internal_target (map op_pair sops) pos ->
  Iterates (Client_Iterator fuel) Compare client_target (view s sops) (dpos s sops pos).
Proof.
  intros Hs Hops Hnd Hsort Hf IL. apply (Iterates_targets _ _ (user_target (target_ok := internal_target) s)).
  - intros k (Hk & Hb & Hl). split; [exact Hk|]. split; [apply InternalKey_ok; assumption|]. split; [apply InternalKey_bytes, Hb|]. rewrite zlen_InternalKey. exact Hl.
  - apply (DBIter_iterates s sops pos IL Hops Hnd Hsort Hs fuel Hf).
Qed.

Lemma client_ok {P : Port} {C : Comparator} {L : ComparatorLaws C} {H : Heap} {AR : Arena (list Z)} s (t : MemTable) ops sops fuel :
  0 <= s <= kMaxSequenceNumber -> listing t ops sops -> (length sops < fuel)%nat ->
  Iterates (Client_Iterator fuel) Compare client_target (view s sops) (dpos s sops (child_at t sops)).
Proof.
  intros Hs Ht Hf. apply client_over; auto; [apply (listing_ok _ _ _ Ht)|apply (listing_seq _ _ _ Ht)|apply Ht|].
  apply child_iterates. apply MemTable_iterates; [apply Ht|apply (listing_ok _ _ _ Ht)|apply Ht].
Qed.

Section Viewing.
Context {P : Port} {C : Comparator} {L : ComparatorLaws C} (s : Z) (sops : list op).
Context (Hops : Forall op_ok sops) (Hnd : NoDup (map op_seq sops)) (Hsort : StronglySorted by_key sops).

Lemma view_sorted : StronglySorted (fun a b : entry => Compare (fst a) (fst b) < 0) (view s sops).
Proof.
  assert (Hv : forall a b, rev b ++ a = sops -> StronglySorted (fun a b : entry => Compare (fst a) (fst b) < 0) (viewed s sops a)).
  { induction a as [|o a IH]; intros b E; [constructor|]. assert (E' : rev (o :: b) ++ a = sops) by (cbn [rev]; rewrite <- app_assoc; exact E). pose proof (IH (o :: b) E') as Ha. unfold viewed. cbn [List.filter].
    destruct (shown s sops o) eqn:Eo; [|exact Ha]. cbn [map]. constructor; [exact Ha|]. apply Forall_forall. intros x Hx.
    apply list_elem_of_fmap in Hx as (y & -> & Hy). apply list_elem_of_In, List.filter_In in Hy as [Hy Gy]. cbn [fst pair].
    refine (shown_after s sops Hops Hnd Hsort b o a y E _ _ Gy).
    - unfold shown in Eo. apply andb_prop in Eo as [Eo _]. apply andb_prop in Eo as [_ Eo]. exact Eo.
    - apply list_elem_of_In, Hy. }
  exact (Hv sops [] eq_refl).
Qed.

Lemma matches_same k k' o : key_ok k -> key_ok k' -> key_ok (op_key o) -> Compare k' k = 0 -> matches k s o = matches k' s o.
Proof.
  intros Vk Vk' Vo E. unfold matches. f_equal. destruct (Z.eqb_spec (Compare (op_key o) k) 0) as [Ek|Ek], (Z.eqb_spec (Compare (op_key o) k') 0) as [Ek'|Ek']; auto; exfalso.
  - apply Ek'. apply (Compare_eq_trans _ k); auto. apply Compare_eq_sym; auto.
  - apply Ek. apply (Compare_eq_trans _ k'); auto.
Qed.

Lemma visible_key k k' : key_ok k -> key_ok k' -> Compare k' k = 0 -> visible k s sops = visible k' s sops.
Proof.
  intros Vk Vk' E. revert Hops. generalize sops. intros l Hok. induction l as [|o l IH]; [reflexivity|]. apply List.Forall_cons_iff in Hok as [Ho Hok].
  cbn [visible foldr]. fold (visible k s l) (visible k' s l). rewrite (matches_same k k' o), IH; auto; apply Ho.
Qed.

(** The view has what a lookup gives. *)
Lemma view_get k v : key_ok k -> outcome (visible k s sops) = Value v <-> exists k', (k', v) ∈ view s sops /\ Compare k' k = 0.
Proof.
  intros Vk. pose proof Hops as Hok. rewrite Forall_forall in Hok. split.
  - destruct (visible k s sops) as [o|] eqn:E; [|discriminate]. cbn [outcome]. destruct (op_type o) eqn:Ety; [discriminate|]. intros [= <-].
    destruct (visible_in _ _ _ _ E) as [Ho Hm]. pose proof Hm as Hm'. apply andb_prop in Hm' as [Ek Es]. apply Z.eqb_eq in Ek.
    exists (op_key o). split; [|exact Ek]. apply list_elem_of_fmap. exists o. split; [reflexivity|]. apply list_elem_of_In, List.filter_In.
    split; [apply list_elem_of_In, Ho|]. unfold shown, is_value, seen. rewrite Ety, Es, <- (visible_key k (op_key o)), E; auto; [apply Z.eqb_refl|apply Hok, Ho].
  - intros (k' & Hin & Ek). destruct (in_viewed s sops _ _ Hin) as (o & [= -> ->] & Ho & Hg).
    unfold shown in Hg. apply andb_prop in Hg as [Hg Hv]. apply andb_prop in Hg as [Hval _].
    rewrite (visible_key k (op_key o)); auto; [|apply Hok, Ho]. destruct (visible (op_key o) s sops) as [x|] eqn:E; [|discriminate]. apply Z.eqb_eq in Hv.
    destruct (visible_in _ _ _ _ E) as [Hx _]. pose proof (seq_inj sops x o Hnd Hx Ho Hv) as ->. cbn [outcome].
    unfold is_value in Hval. destruct (op_type o); [discriminate|reflexivity].
Qed.
End Viewing.

(** * Over two memtables *)

Section Two.
Context {P : Port} {C : Comparator} {L : ComparatorLaws C} {H : Heap} {HL : HeapLaws H} {AR : Arena (list Z)}.
Abbreviation internal_order := (forward_order (InternalLaws C L)).

Lemma internal_entries (l : list op) : Forall op_ok l -> StronglySorted by_key l -> sorted_entries (KO := internal_order) (map op_pair l).
Proof.
  intros Hok Hs. split.
  - induction Hs as [|o l Hs IH Ho]; [constructor|]. apply List.Forall_cons_iff in Hok as [Hoo Hok]. cbn [map]. constructor; [apply IH, Hok|].
    apply Forall_forall. intros e He. apply list_elem_of_fmap in He as (x & -> & Hx). rewrite Forall_forall in Ho. exact (Ho x Hx).
  - apply Forall_forall. intros e He. apply list_elem_of_fmap in He as (x & -> & Hx). rewrite Forall_forall in Hok. apply op_entry_parts, Hok, Hx.
Qed.

Lemma ikeys_differ a b : op_ok a -> op_ok b -> op_seq a <> op_seq b -> internal_Compare (op_ikey a) (op_ikey b) <> 0.
Proof. intros Ha Hb Hne. rewrite <- compare_entries by assumption. apply entries_differ; assumption. Qed.

Lemma ikey_target o : op_ok o -> internal_target (op_ikey o).
Proof. intros Ho. destruct (op_entry_parts o Ho) as (H1 & H2 & H3). apply bytes_ok_app in H3 as [H3 _]. split; [exact H1|split; [exact H3|exact H2]]. Qed.

(** The merge of the memtables has the writes of both, in order. *)
Lemma merged_iterates (mem imm : MemTable) ops ops' sops1 sops2 sops : listing mem ops sops1 -> listing imm ops' sops2 -> NoDup (map op_seq (ops' ++ ops)) ->
  sops ≡ₚ ops' ++ ops -> StronglySorted by_key sops ->
  exists a pos, @NewMergingIterator MemTableIterator MemTable_Iterator [NewIterator mem; NewIterator imm] = Some a /\ pos a Off /\
    Iterates Internal_Iterator internal_Compare internal_target (map op_pair sops) pos.
Proof.
  intros H1 H2 Hnd Hp Hsort. set (l := fun i : nat => if decide (i = 0%nat) then sops1 else sops2). set (tab := fun i : nat => if decide (i = 0%nat) then mem else imm).
  assert (Hl : forall i, exists o, listing (tab i) o (l i)) by (intros i; unfold tab, l; destruct (decide (i = 0%nat)); eauto).
  assert (Hall : forall o, o ∈ sops <-> exists i, (i < 2)%nat /\ o ∈ l i).
  { intros o. rewrite Hp, elem_of_app, <- (li_perm _ _ _ H1), <- (li_perm _ _ _ H2). unfold l. split.
    - intros [Ho|Ho]; [exists 1%nat|exists 0%nat]; split; auto; lia.
    - intros (i & _ & Ho). destruct (decide (i = 0%nat)); auto. }
  assert (Hok : Forall op_ok sops) by (rewrite Hp; apply Forall_app; split; [apply H2|apply H1]).
  assert (Hin : forall i o, o ∈ l i -> op_ok o) by (intros i o Ho; destruct (Hl i) as [x Hx]; pose proof (listing_ok _ _ _ Hx) as Hf; rewrite Forall_forall in Hf; apply Hf, Ho).
  assert (Hd : forall i j a b, i <> j -> (i < 2)%nat -> (j < 2)%nat -> a ∈ l i -> b ∈ l j -> op_seq a <> op_seq b).
  { rewrite map_app in Hnd. apply NoDup_app in Hnd as (_ & Hnd & _).
    assert (D : forall a b, a ∈ sops1 -> b ∈ sops2 -> op_seq a <> op_seq b).
    { intros a b Ha Hb E. rewrite (li_perm _ _ _ H1) in Ha. rewrite (li_perm _ _ _ H2) in Hb. apply (Hnd (op_seq b)); [apply list_elem_of_fmap_2, Hb|].
      rewrite <- E. apply list_elem_of_fmap_2, Ha. }
    intros i j a b Hij Hi Hj Ha Hb E. unfold l in Ha, Hb. destruct (decide (i = 0%nat)), (decide (j = 0%nat)); try lia; [apply (D a b Ha Hb E)|apply (D b a Hb Ha (eq_sym E))]. }
  assert (IL : forall i, (i < 2)%nat -> Iterates MemTable_Iterator (@Compare InternalKeyComparator) internal_target (map op_pair (l i)) (mem_at (tab i) (l i))).
  { intros i _. destruct (Hl i) as [x Hx]. apply MemTable_iterates; [apply Hx|apply (listing_ok _ _ _ Hx)|apply Hx]. }
  assert (Hes : forall e, e ∈ map op_pair sops <-> exists i, (i < 2)%nat /\ e ∈ map op_pair (l i)).
  { intros e. split.
    - intros He. apply list_elem_of_fmap in He as (o & -> & Ho). apply Hall in Ho as (i & Hi & Ho). exists i. split; [exact Hi|]. apply list_elem_of_fmap_2, Ho.
    - intros (i & Hi & He). apply list_elem_of_fmap in He as (o & -> & Ho). apply list_elem_of_fmap_2, Hall. eauto. }
  pose proof (internal_entries sops Hok Hsort) as Hse. pose proof (Merged_iterates (L := InternalLaws C L) (target_ok := internal_target) 2 (fun i => map op_pair (l i)) (fun i => mem_at (tab i) (l i)) (map op_pair sops) IL) as HM.
  destruct (NewMergingIterator_at (C := InternalKeyComparator) (L := InternalLaws C L) (target_ok := internal_target) 2 (fun i => map op_pair (l i)) (fun i => mem_at (tab i) (l i)) (map op_pair sops) IL [NewIterator mem; NewIterator imm] eq_refl) as (a & Ea & Ha).
  { intros [|[|i]] it Hi; [injection Hi as <-|injection Hi as <-|discriminate]; (split; [reflexivity|split; [exact Logic.I|reflexivity]]). }
  exists a. eexists. split; [exact Ea|]. split; [exact Ha|]. apply HM; clear HM.
  - intros i _. destruct (Hl i) as [x Hx]. apply internal_entries; [apply (listing_ok _ _ _ Hx)|apply Hx].
  - exact Hse.
  - exact Hes.
  - intros i j e x Hi Hj Hij He Hx. apply list_elem_of_fmap in He as (a' & -> & Ha'). apply list_elem_of_fmap in Hx as (b' & -> & Hb').
    apply ikeys_differ; [apply (Hin i), Ha'|apply (Hin j), Hb'|apply (Hd i j); assumption].
  - intros k (Hk & _). exact Hk.
  - intros e He. apply list_elem_of_fmap in He as (o & -> & Ho). rewrite Forall_forall in Hok. apply ikey_target, Hok, Ho.
Qed.

(** The newer memtable is asked first. *)
Lemma visible_newer u s (a b : list op) : NoDup (map op_seq (a ++ b)) -> (forall x y, x ∈ a -> y ∈ b -> op_seq x < op_seq y) ->
  visible u s (a ++ b) = match visible u s b with Some o => Some o | None => visible u s a end.
Proof.
  intros Hnd Hlt. destruct (visible u s b) as [o|] eqn:E.
  - destruct (visible_in _ _ _ _ E) as [Ho Hm]. apply visible_eq; [exact Hnd|apply elem_of_app; auto|exact Hm|]. intros x Hx Hxm.
    apply elem_of_app in Hx as [Hx|Hx]; [specialize (Hlt x o Hx Ho); lia|]. destruct (visible_max _ _ _ _ Hx Hxm) as (o' & E' & Hle). rewrite E in E'. injection E' as <-. exact Hle.
  - apply visible_same; [exact Hnd|]. intros o Hm. rewrite elem_of_app. split; [|auto]. intros [Ho|Ho]; [exact Ho|].
    destruct (visible_max _ _ _ _ Ho Hm) as (o' & E' & _). congruence.
Qed.

Lemma outcome_absent o : outcome o = Absent -> o = None.
Proof. destruct o as [o|]; [|reflexivity]. cbn. destruct (op_type o); discriminate. Qed.
End Two.

(** * While other threads write *)

Section Using.
Context {P : Port} {C : Comparator} {L : ComparatorLaws C} {H : Heap} {HL : HeapLaws H} {AR : Arena (list Z)} {A : Address}
  {F : Type} {W : WritableFile F} {WL : WritableFileLaws F} {R : ReliableFile F} {SY : SyncFile F} {SL : SyncFileLaws F}.
Implicit Types (db : Db F) (hist lost : list (list DbWriter)).

(** Writers write, and readers make and delete iterators. *)
Inductive db_use (o : Options) : Db F -> Db F -> Prop :=
| use_write db db' : db_step o db db' -> db_use o db db'
| use_open snapshot db d db' : Db_NewIterator snapshot db = Some (d, db') -> db_use o db db'
| use_close db db' : CleanupIteratorState db = inr (Some db') -> db_use o db db'.

Lemma with_tables_ok db hist lost mem imm : db_ok db hist lost -> arena_ mem = arena_ (mem_ db) -> table_ mem = table_ (mem_ db) -> imm = None ->
  db_ok (with_tables mem imm db) hist lost /\ adds db hist (with_tables mem imm db) hist.
Proof.
  intros Hdb Ea Et ->. split.
  - destruct Hdb. constructor; try assumption; [destruct dk_mem; constructor; cbn [mem_ with_tables]; rewrite ?Et, ?Ea; assumption|reflexivity|].
    unfold phase_ok in *. cbn [current_ with_tables]. destruct (current_ db) as [c|]; [|exact dk_phase]. destruct (fl_updates c) as [[u t]|]; [|exact dk_phase].
    destruct dk_phase as (g & Hst & Hph). exists g. split; [destruct Hst; constructor; assumption|exact Hph].
  - exists []. rewrite app_nil_r. cbn [mem_ with_tables last_sequence_]. rewrite Et. split_and!; [reflexivity|auto|apply later_refl|lia].
Qed.

Lemma NewIterator_parts snapshot db hist lost : db_ok db hist lost ->
  Db_NewIterator snapshot db = Some (new_DBIter (AChild (NewIterator (Ref (mem_ db)))) (default (last_sequence_ db) snapshot), with_tables (Ref (mem_ db)) None db).
Proof. intros Hdb. unfold Db_NewIterator, NewInternalIterator. rewrite (dk_imm _ _ _ Hdb). reflexivity. Qed.

Lemma NewIterator_db snapshot db d db' hist lost : db_ok db hist lost -> Db_NewIterator snapshot db = Some (d, db') -> db' = with_tables (Ref (mem_ db)) None db.
Proof. intros Hdb. rewrite (NewIterator_parts snapshot db hist lost Hdb). intros [= _ <-]. reflexivity. Qed.

Lemma db_use_ok o db db' hist lost : db_use o db db' -> db_ok db hist lost -> exists hist' lost', db_ok db' hist' lost' /\ adds db hist db' hist'.
Proof.
  intros Hu Hdb. destruct Hu as [db db' Hst|snapshot db d db' E|db db' E].
  - destruct (db_step_ok o db db' hist lost Hst Hdb) as (hist' & lost' & Hok & _ & Ha). eauto.
  - apply (NewIterator_db snapshot db d db' hist lost Hdb) in E as ->. exists hist, lost. apply with_tables_ok; auto.
  - unfold CleanupIteratorState, Unref in E. rewrite (dk_imm _ _ _ Hdb) in E. cbv zeta in E. cbn [refs_] in E.
    destruct (0 <=? refs_ (mem_ db) - 1); cbn [negb] in E; [|discriminate]. destruct (refs_ (mem_ db) - 1 <=? 0); [discriminate|].
    injection E as <-. exists hist, lost. apply with_tables_ok; auto.
Qed.

Lemma db_uses_ok o db db' : rtc (db_use o) db db' -> forall hist lost, db_ok db hist lost -> exists hist' lost', db_ok db' hist' lost'.
Proof.
  induction 1 as [db|db db1 db' Hu _ IH]; intros hist lost Hdb; [eauto|]. destruct (db_use_ok o db db1 hist lost Hu Hdb) as (h1 & l1 & Hdb1 & _). exact (IH h1 l1 Hdb1).
Qed.

(** All that is in the memtable was asked for. *)
Lemma length_number_from seq us : length (number_from seq us) = length us.
Proof. revert seq. induction us as [|u us IH]; intros seq; [reflexivity|]. destruct u; cbn [number_from length]; rewrite IH; reflexivity. Qed.

Lemma writes_asked db hist lost : db_ok db hist lost -> zlen (writes (concat hist)) <= zlen (writes (acked db ++ refused db ++ writers_ db)).
Proof.
  intros Hdb. destruct (logged_writers db hist lost Hdb) as [_ [more ->]]. rewrite concat_app, !zlen_writes_app.
  pose proof (zlen_nonneg (writes (concat lost))). pose proof (zlen_nonneg (writes more)). lia.
Qed.

Lemma visible_acked db hist lost k s : db_ok db hist lost -> s <= last_sequence_ db ->
  visible k s (number_from 1 (writes (concat hist))) = visible k s (number_from 1 (writes (acked db))).
Proof.
  intros Hdb Hs. destruct (acked_in_memtable db hist lost Hdb) as (more & Em & Hlast & Hmore). rewrite Em, writes_app, number_from_app. apply visible_app.
  destruct Hmore as [->|Hmore]; [constructor|]. destruct (number_from_seq (writes more) (1 + zlen (writes (acked db)))) as [Hn _].
  eapply Forall_impl; [exact Hn|]. cbn. intros o Ho. lia.
Qed.

(** ** Where a client's iterator is *)

Record showing s es db (x : list (list DbWriter) * list (list DbWriter) * list op) : Prop := {
  sh_db : db_ok db (fst (fst x)) (snd (fst x));
  sh_list : listing (mem_ db) (number_from 1 (writes (concat (fst (fst x))))) (snd x);
  sh_view : view s (snd x) = es;
  sh_seq : 0 <= s <= last_sequence_ db }.

Definition client_at s es db (d : DBIter (Merged MemTableIterator)) (c : cursor) : Prop :=
  exists x, showing s es db x /\ dpos s (snd x) (child_at (mem_ db) (snd x)) d c.

Lemma db_listing db hist lost : db_ok db hist lost -> exists sops, listing (mem_ db) (number_from 1 (writes (concat hist))) sops.
Proof.
  intros Hdb. destruct (holds_sorted _ _ (dk_mem _ _ _ Hdb)) as (sops & Hp & Hsort & Hr). exists sops. constructor; auto. apply Hdb.
Qed.

Lemma client_iterates s es db fuel : zlen (writes (acked db ++ refused db ++ writers_ db)) < Z.of_nat fuel ->
  Iterates (Client_Iterator fuel) Compare client_target es (client_at s es db).
Proof.
  intros Hf. apply Iterates_any. intros [[hist lost] sops] [Hdb Hl <- Hs]. cbn [fst snd] in *.
  destruct (acked_in_memtable db hist lost Hdb) as (_ & _ & Hlast & _). pose proof (writes_asked db hist lost Hdb) as Hw.
  apply (client_ok s (mem_ db) _ sops fuel ltac:(lia) Hl). rewrite (Permutation_length (li_perm _ _ _ Hl)), length_number_from. unfold zlen in *. lia.
Qed.

Lemma client_keeps o s es db db' d c : db_use o db db' -> client_at s es db d c -> client_at s es db' (see (mem_ db') d) c.
Proof.
  intros Hu ([[hist lost] sops] & [Hdb Hl Hv Hs] & Hd). cbn [fst snd] in *.
  destruct (db_use_ok o db db' hist lost Hu Hdb) as (hist' & lost' & Hdb' & more & -> & Hmore & Hlater & Hlast).
  destruct (db_listing db' (hist ++ more) lost' Hdb') as (sops' & Hl'). pose proof Hl' as Hl2.
  rewrite concat_app, writes_app, number_from_app in Hl2. set (n := zlen (writes (concat hist))) in *.
  assert (Hb : s <= Z.max s n) by lia.
  assert (Ho : Forall (fun o => op_seq o <= Z.max s n) (number_from 1 (writes (concat hist)))).
  { eapply Forall_impl; [apply (proj1 (number_from_seq _ _))|]. cbn. fold n. intros x Hx. lia. }
  assert (Hn : Forall (fun o => Z.max s n < op_seq o) (number_from (1 + n) (writes (concat more)))).
  { destruct Hmore as [->|Hmore]; [constructor|]. eapply Forall_impl; [apply (proj1 (number_from_seq _ _))|]. cbn. intros x Hx. lia. }
  exists (hist ++ more, lost', sops'). split; [constructor; cbn [fst snd]; [exact Hdb'|exact Hl'| |lia]|cbn [snd]].
  - rewrite <- Hv. exact (view_sops s _ _ _ _ _ _ Hl Hl2 _ Hb Ho Hn).
  - exact (dpos_keeps s _ _ _ _ _ _ Hl Hl2 Hlater _ Hb Ho Hn d c Hd).
Qed.
End Using.

(** * Theorem *)

(** C3: A client's iterator shows the database as it was when it was made, though
    other threads go on writing and other clients make and delete iterators.  For a
    snapshot of a database that is in use there is a list [es], sorted by user keys,
    of just what [Get] finds at that snapshot.  The iterator that [NewIterator] makes
    is off this list; at any later moment, seeking and moving in either direction take
    it where the promise of the interface says in [es], with no assertion failing; and
    whatever the others do in between, it stays at its place of [es].  The loops end:
    the fuel need only exceed the number of writes that were ever asked for. *)
Theorem db_iterator_keeps_its_snapshot (P : Port) (C : Comparator) (L : ComparatorLaws C) (H : Heap) (HL : HeapLaws H) (AR : Arena (list Z)) (A : Address)
    F (W : WritableFile F) (WL : WritableFileLaws F) (R : ReliableFile F) (SY : SyncFile F) (SL : SyncFileLaws F)
    (o : Options) (f : F) (db0 db : Db F) (snapshot : option Z) :
  contents f = [] -> Open_new f = inr db0 -> rtc (db_use o) db0 db -> 0 <= default (last_sequence_ db) snapshot <= last_sequence_ db ->
  exists d db1 es pos, Db_NewIterator snapshot db = Some (d, db1) /\ pos db1 d Off /\
    StronglySorted (fun a b : entry => Compare (fst a) (fst b) < 0) es /\
    (forall k v, client_target k -> Db_Get snapshot k db = Some (Value v) <-> exists k', (k', v) ∈ es /\ Compare k' k = 0) /\
    forall db2, rtc (db_use o) db1 db2 ->
      (forall fuel, zlen (writes (acked db2 ++ refused db2 ++ writers_ db2)) < Z.of_nat fuel ->
         Iterates (Client_Iterator fuel) Compare client_target es (pos db2)) /\
      (forall db3 d c, db_use o db2 db3 -> pos db2 d c -> pos db3 (see (mem_ db3) d) c).
Proof.
  intros Hf E Hst Hs. set (s := default (last_sequence_ db) snapshot) in *. pose proof (Open_new_ok f Hf) as H0. rewrite E in H0.
  destruct (db_uses_ok o db0 db Hst [] [] H0) as (hist & lost & Hdb). destruct (db_listing db hist lost Hdb) as (sops & Hl).
  destruct (acked_in_memtable db hist lost Hdb) as (_ & _ & Hlast & _). assert (Hs' : 0 <= s <= kMaxSequenceNumber) by lia.
  exists (new_DBIter (AChild (NewIterator (Ref (mem_ db)))) s), (with_tables (Ref (mem_ db)) None db), (view s sops), (client_at s (view s sops)).
  split; [apply (NewIterator_parts snapshot db hist lost Hdb)|]. split; [|split; [|split]].
  - exists (hist, lost, sops). split.
    + constructor; cbn [fst snd]; [apply with_tables_ok; auto| |reflexivity|exact Hs]. destruct Hl. constructor; auto. apply Ref_holds. assumption.
    + split; [reflexivity|]. split; [reflexivity|]. split; [|reflexivity]. exists Off, (NewIterator (Ref (mem_ db))). split; [reflexivity|].
      split; [reflexivity|]. split; [exact Logic.I|reflexivity].
  - exact (view_sorted s sops (listing_ok _ _ _ Hl) (listing_seq _ _ _ Hl) (li_sorted _ _ _ Hl)).
  - intros k v (Hk & Hb & Hlen). change (Db_Get snapshot k db) with (Db_Get (Some s) k db). rewrite (Db_Get_ok db hist lost k s) by (auto; lia).
    rewrite <- (visible_acked db hist lost k s Hdb (proj2 Hs)), <- (visible_perm k s _ sops (listing_seq _ _ _ Hl) (li_perm _ _ _ Hl)).
    rewrite <- (view_get s sops (listing_ok _ _ _ Hl) (listing_seq _ _ _ Hl) k v Hk). split; [intros [= ->]; reflexivity|intros ->; reflexivity].
  - intros db2 _. split; [apply client_iterates|]. intros db3 d c Hu. apply (client_keeps o s (view s sops) db2 db3 d c Hu).
Qed.

(** C16: Where there is an immutable memtable too, the client's iterator moves over the
    merge of both, and shows what [Get] finds, which asks the newer one first.  Let
    the memtables of the database hold any writes, all with different numbers, the
    immutable one the older ones.  Then [NewIterator] makes an iterator that keeps the
    promise of the interface over a list sorted by user keys of just what [Get] finds
    at the snapshot; no assertion fails, in the memtables, in the merging iterator or
    in the client's. *)
Theorem db_iterator_merges_the_memtables (P : Port) (C : Comparator) (L : ComparatorLaws C) (H : Heap) (HL : HeapLaws H) (AR : Arena (list Z))
    F (db : Db F) (imm : MemTable) (ops ops' : list op) (snapshot : option Z) :
  holds (mem_ db) ops -> imm_ db = Some imm -> holds imm ops' -> NoDup (map op_seq (ops' ++ ops)) ->
  (forall x y, x ∈ ops' -> y ∈ ops -> op_seq x < op_seq y) -> 0 <= default (last_sequence_ db) snapshot <= kMaxSequenceNumber ->
  exists d db1 es pos, Db_NewIterator snapshot db = Some (d, db1) /\ pos d Off /\
    StronglySorted (fun a b : entry => Compare (fst a) (fst b) < 0) es /\
    (forall k v, client_target k -> Db_Get snapshot k db = Some (Value v) <-> exists k', (k', v) ∈ es /\ Compare k' k = 0) /\
    forall fuel, (length (ops' ++ ops) < fuel)%nat -> Iterates (Client_Iterator fuel) Compare client_target es pos.
Proof.
  intros Hm Ei Hi Hnd Hlt Hs. set (s := default (last_sequence_ db) snapshot) in *.
  assert (Hok : Forall op_ok (ops' ++ ops)) by (apply Forall_app; split; [apply Hi|apply Hm]).
  destruct (sorted_writes (ops' ++ ops) Hok Hnd) as (sops & Hp & Hsort). assert (Hoks : Forall op_ok sops) by (rewrite Hp; exact Hok).
  assert (Hnds : NoDup (map op_seq sops)) by (rewrite Hp; exact Hnd).
  destruct (holds_sorted _ _ (Ref_holds _ _ Hm)) as (l1 & P1 & S1 & R1). destruct (holds_sorted _ _ (Ref_holds _ _ Hi)) as (l2 & P2 & S2 & R2).
  destruct (merged_iterates (Ref (mem_ db)) (Ref imm) ops ops' l1 l2 sops) as (a & pos & Ea & Ha & IL); auto; [constructor; auto; apply Ref_holds, Hm|constructor; auto; apply Ref_holds, Hi|].
  exists (new_DBIter a s), (with_tables (Ref (mem_ db)) (Some (Ref imm)) db), (view s sops), (dpos s sops pos).
  split; [|split; [|split; [|split]]].
  - unfold Db_NewIterator, NewInternalIterator. rewrite Ei. cbn [fmap option_fmap option_map]. rewrite Ea. reflexivity.
  - split; [reflexivity|]. split; [reflexivity|]. split; [|reflexivity]. exists Off. exact Ha.
  - exact (view_sorted s sops Hoks Hnds Hsort).
  - intros k v (Hk & Hb & Hlen). rewrite <- (view_get s sops Hoks Hnds k v Hk), (visible_perm k s _ sops Hnds Hp), (visible_newer k s ops' ops Hnd Hlt).
    unfold Db_Get. fold s. cbv zeta. rewrite (Get_holds _ _ k s Hm Hlen Hb Hk Hs). cbn [mbind option_bind]. rewrite Ei.
    destruct (visible k s ops) as [o|] eqn:Eo.
    + destruct (outcome (Some o)) as [w| |] eqn:Eout; [split; congruence|split; congruence|apply outcome_absent in Eout; discriminate].
    + cbn [outcome]. rewrite (Get_holds _ _ k s Hi Hlen Hb Hk Hs). split; [intros [= ->]; reflexivity|intros ->; reflexivity].
  - intros fuel Hf. apply client_over; auto. rewrite (Permutation_length Hp). exact Hf.
Qed.

(** * An example *)

Section Example.
#[local] Existing Instances little BytewiseComparator BytewiseLaws bump_heap bump_heap_laws fresh_nodes anywhere.

Definition mem_of (ops : list op) : MemTable := match add_all ops new_MemTable with inr t => t | inl _ => mkMemTable 0 new_Arena new_SkipList end.

Definition older_writes : list op := [mkOp 1 kTypeValue [107] [1]; mkOp 2 kTypeValue [108] [2]].
Definition newer_writes : list op := [mkOp 3 kTypeDeletion [107] []; mkOp 4 kTypeValue [109] [3]].

Definition two_tables : Db (list Z) := mkDb (new_Writer []) (mem_of newer_writes) (Some (mem_of older_writes)) 4 Clear OK [] None [].

Lemma mem_of_holds ops : Forall op_ok ops -> NoDup (map op_seq ops) -> match add_all ops new_MemTable with inr _ => true | inl _ => false end = true -> holds (mem_of ops) ops.
Proof.
  intros Hok Hnd E. unfold mem_of. pose proof new_MemTable_holds as Hnew. destruct new_MemTable as [e|t]; [rewrite add_all_fails in E; discriminate|].
  pose proof (add_all_holds ops t [] (proj1 Hnew) Hok Hnd) as Ha. destruct (add_all ops (inr t)) as [e|t']; [discriminate|]. apply Ha.
Qed.

Lemma db_iterator_merges_the_memtables_witness : Db_Get None [107] two_tables = Some Deleted /\ Db_Get None [108] two_tables = Some (LdbMemTable.Value [2]) /\
  exists d db1 d1, Db_NewIterator None two_tables = Some (d, db1) /\
    @it_SeekToFirst _ (Client_Iterator 5) d = Some d1 /\ @it_Valid _ (Client_Iterator 5) d1 = true.
Proof.
  assert (G1 : Db_Get None [107] two_tables = Some Deleted) by (vm_compute; reflexivity).
  assert (G2 : Db_Get None [108] two_tables = Some (LdbMemTable.Value [2])) by (vm_compute; reflexivity).
  split; [exact G1|]. split; [exact G2|].
  destruct (db_iterator_merges_the_memtables little BytewiseComparator BytewiseLaws bump_heap bump_heap_laws fresh_nodes (list Z)
    two_tables (mem_of older_writes) newer_writes older_writes None) as (d & db1 & es & pos & Ed & Hoff & Hsort & Hget & Hit).
  - apply mem_of_holds; [|apply (bool_decide_unpack _); vm_compute; exact Logic.I|vm_compute; reflexivity].
    repeat constructor; try (vm_compute; discriminate); unfold byte_ok; lia.
  - reflexivity.
  - apply mem_of_holds; [|apply (bool_decide_unpack _); vm_compute; exact Logic.I|vm_compute; reflexivity].
    repeat constructor; try (vm_compute; discriminate); unfold byte_ok; lia.
  - apply (bool_decide_unpack _). vm_compute. exact Logic.I.
  - intros x y Hx Hy. apply list_elem_of_In in Hx, Hy. cbn in Hx, Hy.
    repeat match goal with Q : _ \/ _ |- _ => destruct Q as [<-|Q] | Q : False |- _ => destruct Q end; reflexivity.
  - vm_compute. split; discriminate.
  - assert (Ht : client_target [108]) by (repeat split; repeat constructor; unfold byte_ok; lia).
    destruct (proj1 (Hget [108] [2] Ht) G2) as (k' & Hin & _). specialize (Hit 5%nat ltac:(cbn; lia)).
    destruct (@pos_SeekToFirst _ _ _ _ _ _ Hit _ _ Hoff) as (d1 & Ed1 & Hd1). exists d, db1, d1. split; [exact Ed|]. split; [exact Ed1|].
    destruct es as [|e es]; [inversion Hin|]. apply (@pos_at _ _ _ _ _ _ Hit _ _ _ _ Hd1).
Defined.

Lemma db_iterator_keeps_its_snapshot_witness : Db_Get None [107] example_db1 = Some Deleted /\
  exists d db1 d1, Db_NewIterator (Some 1) example_db1 = Some (d, db1) /\
    @it_SeekToFirst _ (Client_Iterator 8) (see (mem_ (Write_enqueue writer3 db1)) d) = Some d1 /\ @it_Valid _ (Client_Iterator 8) d1 = true.
Proof.
  split; [vm_compute; reflexivity|]. destruct example_steps1 as [E Hst].
  assert (Hu : forall a b : Db (list Z), rtc (db_step some_options) a b -> rtc (db_use some_options) a b).
  { intros a b. induction 1 as [|a b c Hab _ IH]; [reflexivity|]. eapply rtc_l; [apply use_write, Hab|exact IH]. }
  destruct (db_iterator_keeps_its_snapshot little BytewiseComparator BytewiseLaws bump_heap bump_heap_laws fresh_nodes anywhere (list Z)
    bytes_writable bytes_writable_laws bytes_reliable bytes_sync bytes_sync_laws some_options [] start_db example_db1 (Some 1) eq_refl E (Hu _ _ Hst)
    ltac:(vm_compute; split; discriminate)) as (d & db1 & es & pos & Ed & Hoff & Hsort & Hget & Hlater).
  assert (Ht : client_target [107]) by (repeat split; repeat constructor; unfold byte_ok; lia).
  assert (Hg : Db_Get (Some 1) [107] example_db1 = Some (LdbMemTable.Value [1])) by (vm_compute; reflexivity).
  destruct (proj1 (Hget [107] [1] Ht) Hg) as (k' & Hin & Ek). exists d, db1.
  assert (Edb : db1 = with_tables (Ref (mem_ example_db1)) None example_db1).
  { destruct (reachable_ok (WL := bytes_writable_laws) (R := bytes_reliable) (SL := bytes_sync_laws) some_options [] start_db example_db1 eq_refl E Hst) as (hist & lost & Hdb). exact (NewIterator_db _ _ _ _ hist lost Hdb Ed). }
  assert (Hstep : db_use some_options db1 (Write_enqueue writer3 db1)).
  { apply use_write, step_enqueue; [|rewrite Edb; vm_compute; reflexivity]. split; [|vm_compute; reflexivity]. repeat constructor; unfold byte_ok; lia. }
  destruct (Hlater db1 (rtc_refl _ _)) as [_ Hkeep]. destruct (Hlater _ (rtc_once _ _ Hstep)) as [Hit _].
  specialize (Hit 8%nat ltac:(rewrite Edb; vm_compute; reflexivity)).
  destruct (@pos_SeekToFirst _ _ _ _ _ _ Hit _ _ (Hkeep _ _ _ Hstep Hoff)) as (d1 & Ed1 & Hd1). exists d1. split; [exact Ed|]. split; [exact Ed1|].
  destruct es as [|e es]; [inversion Hin|]. apply (@pos_at _ _ _ _ _ _ Hit _ _ _ _ Hd1).
Defined.
End Example.
