(* ===== verification/LdbBlock.v ===== *)
(** leveldb/table/block_builder.cc, table/block.cc: a block of a table.

    A block is a sequence of entries, each with only what its key does not share with
    the key before, and the offsets of those that share nothing.  What the builder
    writes, the iterator of the block reads: it keeps the promise of the interface over
    the entries that were added. *)
From Stdlib Require Import ZArith Lia Strings.String.
From Stdlib Require Sorted.
From stdpp Require Import base list numbers option sorting.
From S2P Require Import Prelude LdbCoding LdbLog LdbFormat LdbSkip LdbBatch LdbIter LdbMerge.

Open Scope Z_scope.

#[local] Arguments zlen : simpl never.
#[local] Arguments ztake : simpl never.
#[local] Arguments zdrop : simpl never.

(** * The builder *)

Record BlockBuilder := mkBlockBuilder {
  buffer_ : list Z;
  restart_list_ : list Z;
  counter_ : Z;
  finished_ : bool;
  last_key_ : list Z }.

Section Builder.
Context {P : Port} {C : Comparator} (block_restart_interval : Z).

(** [None] is a failed assertion. *)
Definition new_BlockBuilder : option BlockBuilder :=
  if 1 <=? block_restart_interval then Some (mkBlockBuilder [] [0] 0 false []) else None.

Definition Reset (b : BlockBuilder) : BlockBuilder := mkBlockBuilder [] [0] 0 false [].

Definition CurrentSizeEstimate (b : BlockBuilder) : Z := u64 (zlen (buffer_ b) + zlen (restart_list_ b) * 4 + 4).

Definition empty (b : BlockBuilder) : bool := match buffer_ b with [] => true | _ => false end.

Definition Finish (b : BlockBuilder) : list Z * BlockBuilder :=
  let buffer := foldl PutFixed32 (buffer_ b) (restart_list_ b) in
  let buffer := PutFixed32 buffer (u32 (zlen (restart_list_ b))) in
  (buffer, mkBlockBuilder buffer (restart_list_ b) (counter_ b) true (last_key_ b)).

(** The loop of [Add]: how much two strings share. *)
Fixpoint shared_loop (last_key_piece key : list Z) : Z :=
  match last_key_piece, key with
  | x :: last_key_piece, y :: key => if x =? y then 1 + shared_loop last_key_piece key else 0
  | _, _ => 0
  end.

Definition Builder_Add (key value : list Z) (b : BlockBuilder) : option BlockBuilder :=
  if finished_ b then None
  else if negb (counter_ b <=? block_restart_interval) then None
  else if negb (empty b || (0 <? Compare key (last_key_ b))) then None
  else
    let '(shared, restarts, counter) :=
      if counter_ b <? block_restart_interval then (shared_loop (last_key_ b) key, restart_list_ b, counter_ b)
      else (0, restart_list_ b ++ [u32 (zlen (buffer_ b))], 0) in
    let non_shared := u64 (zlen key - shared) in
    let buffer := PutVarint32 (buffer_ b) (u32 shared) in
    let buffer := PutVarint32 buffer (u32 non_shared) in
    let buffer := PutVarint32 buffer (u32 (zlen value)) in
    let delta := ztake non_shared (zdrop shared key) in
    let buffer := buffer ++ delta ++ value in
    let last_key := ztake shared (last_key_ b) ++ delta in
    if negb (bool_decide (last_key = key)) then None
    else Some (mkBlockBuilder buffer restarts (counter + 1) (finished_ b) last_key).
End Builder.

(** * The block *)

Section Code.
Context {P : Port}.

Record Block := mkBlock { contents_ : list Z; size_ : Z; restart_offset_ : Z }.

Definition NumRestarts (data : list Z) (size : Z) : Z := DecodeFixed32 (zdrop (size - 4) data).

(** A size of 0 is an error marker. *)
Definition new_Block (contents : list Z) : Block :=
  let size := zlen contents in
  if size <? 4 then mkBlock contents 0 0
  else
    let max_restarts_allowed := (size - 4) / 4 in
    let n := NumRestarts contents size in
    if max_restarts_allowed <? n then mkBlock contents 0 0
    else mkBlock contents size (u32 (size - u32 (1 + n) * 4)).

(** The three lengths and what follows them; what is given ends at the limit. *)
Definition DecodeEntry (p : list Z) : option (Z * Z * Z * list Z) :=
  match p with
  | shared :: non_shared :: value_length :: rest =>
    r ← (if Z.lor (Z.lor shared non_shared) value_length <? 128 then Some (shared, non_shared, value_length, rest)
         else
           '(shared, p) ← GetVarint32Ptr p;
           '(non_shared, p) ← GetVarint32Ptr p;
           '(value_length, p) ← GetVarint32Ptr p;
           Some (shared, non_shared, value_length, p));
    let '(shared, non_shared, value_length, p) := r in
    if u32 (zlen p) <? u32 (non_shared + value_length) then None else Some (shared, non_shared, value_length, p)
  | _ => None
  end.

(** [Block::Iter]: a value is an offset and a length, or the slice of nothing. *)
Record BlockIter := mkBlockIter {
  data_ : list Z;
  restarts_ : Z;
  num_restarts_ : Z;
  current_ : Z;
  restart_index_ : Z;
  key_ : list Z;
  value_ : option (Z * Z);
  block_status_ : Status }.
End Code.

Section Iter.
Context {P : Port} {C : Comparator}.
Implicit Types (it : BlockIter).

(** [None] is a failed assertion, or a read outside of the contents of the block. *)
Definition NextEntryOffset it : option Z := '(o, n) ← value_ it; Some (u32 (o + n)).

Definition GetRestartPoint (index : Z) it : option Z :=
  let o := restarts_ it + index * 4 in
  if (index <? num_restarts_ it) && (o + 4 <=? zlen (data_ it)) then Some (DecodeFixed32 (zdrop o (data_ it))) else None.

Definition SeekToRestartPoint (index : Z) it : option BlockIter :=
  offset ← GetRestartPoint index it;
  Some (mkBlockIter (data_ it) (restarts_ it) (num_restarts_ it) (current_ it) index [] (Some (offset, 0)) (block_status_ it)).

Definition new_BlockIter (data : list Z) (restarts num_restarts : Z) : option BlockIter :=
  if 0 <? num_restarts then Some (mkBlockIter data restarts num_restarts restarts num_restarts [] None OK) else None.

Definition CorruptionError it : BlockIter :=
  mkBlockIter (data_ it) (restarts_ it) (num_restarts_ it) (restarts_ it) (num_restarts_ it) [] None (CorruptionStatus "bad entry in block").

(** The loop of [ParseNextKey] over the restart points. *)
Fixpoint restart_loop (fuel : nat) it (current index : Z) : option Z :=
  match fuel with
  | O => None
  | S fuel =>
    if index + 1 <? num_restarts_ it then
      r ← GetRestartPoint (index + 1) it;
      if r <? current then restart_loop fuel it current (index + 1) else Some index
    else Some index
  end.

Definition ParseNextKey it : option (bool * BlockIter) :=
  current ← NextEntryOffset it;
  if restarts_ it <=? current then
    Some (false, mkBlockIter (data_ it) (restarts_ it) (num_restarts_ it) (restarts_ it) (num_restarts_ it) (key_ it) (value_ it) (block_status_ it))
  else
    match DecodeEntry (ztake (restarts_ it - current) (zdrop current (data_ it))) with
    | None => Some (false, CorruptionError it)
    | Some (shared, non_shared, value_length, rest) =>
      if zlen (key_ it) <? shared then Some (false, CorruptionError it)
      else
        let p := restarts_ it - zlen rest in
        if zlen (data_ it) <? p + non_shared then None
        else
          let key := ztake shared (key_ it) ++ ztake non_shared (zdrop p (data_ it)) in
          index ← restart_loop (S (Z.to_nat (num_restarts_ it))) it current (restart_index_ it);
          Some (true, mkBlockIter (data_ it) (restarts_ it) (num_restarts_ it) current index key (Some (p + non_shared, value_length)) (block_status_ it))
    end.

Definition Block_Valid it : bool := current_ it <? restarts_ it.

Definition Block_key it : option (list Z) := if Block_Valid it then Some (key_ it) else None.

Definition Block_value it : option (list Z) :=
  if Block_Valid it then '(o, n) ← value_ it; if zlen (data_ it) <? o + n then None else Some (zsub o n (data_ it)) else None.

Definition Block_Next it : option BlockIter := if Block_Valid it then r ← ParseNextKey it; Some (snd r) else None.

(** Every entry takes a byte at least. *)
Definition entry_fuel it : nat := S (length (data_ it)).

(** The loops of [Prev] and of [SeekToLast]: entries are parsed up to an offset. *)
Fixpoint until_loop (fuel : nat) (bound : Z) it : option BlockIter :=
  match fuel with
  | O => None
  | S fuel =>
    '(ok, it) ← ParseNextKey it;
    if (ok : bool) then
      next ← NextEntryOffset it;
      if next <? bound then until_loop fuel bound it else Some it
    else Some it
  end.

(** The first loop of [Prev]: whether there is a restart point before [original]. *)
Fixpoint before_loop (fuel : nat) (original : Z) it : option (bool * BlockIter) :=
  match fuel with
  | O => None
  | S fuel =>
    r ← GetRestartPoint (restart_index_ it) it;
    if original <=? r then
      if restart_index_ it =? 0 then
        Some (false, mkBlockIter (data_ it) (restarts_ it) (num_restarts_ it) (restarts_ it) (num_restarts_ it) (key_ it) (value_ it) (block_status_ it))
      else before_loop fuel original (mkBlockIter (data_ it) (restarts_ it) (num_restarts_ it) (current_ it) (restart_index_ it - 1) (key_ it) (value_ it) (block_status_ it))
    else Some (true, it)
  end.

Definition Block_Prev it : option BlockIter :=
  if Block_Valid it then
    let original := current_ it in
    '(found, it) ← before_loop (S (Z.to_nat (restart_index_ it))) original it;
    if (found : bool) then it ← SeekToRestartPoint (restart_index_ it) it; until_loop (entry_fuel it) original it
    else Some it
  else None.

(** The binary search of [Seek]: the restart point, or the iterator where an entry is
    corrupted. *)
Fixpoint search_loop (fuel : nat) (target : list Z) (left right : Z) it : option (BlockIter + Z) :=
  match fuel with
  | O => None
  | S fuel =>
    if left <? right then
      let mid := u32 (left + right + 1) / 2 in
      region_offset ← GetRestartPoint mid it;
      match (if restarts_ it <? region_offset then None else DecodeEntry (ztake (restarts_ it - region_offset) (zdrop region_offset (data_ it)))) with
      | None => Some (inl (CorruptionError it))
      | Some (shared, non_shared, _, rest) =>
        if negb (shared =? 0) then Some (inl (CorruptionError it))
        else
          let p := restarts_ it - zlen rest in
          if zlen (data_ it) <? p + non_shared then None
          else
            let mid_key := ztake non_shared (zdrop p (data_ it)) in
            if Compare mid_key target <? 0 then search_loop fuel target mid right it else search_loop fuel target left (mid - 1) it
      end
    else Some (inr left)
  end.

Fixpoint linear_loop (fuel : nat) (target : list Z) it : option BlockIter :=
  match fuel with
  | O => None
  | S fuel =>
    '(ok, it) ← ParseNextKey it;
    if negb ok then Some it
    else if 0 <=? Compare (key_ it) target then Some it
    else linear_loop fuel target it
  end.

Definition Block_Seek (target : list Z) it : option BlockIter :=
  r ← search_loop (S (Z.to_nat (num_restarts_ it))) target 0 (num_restarts_ it - 1) it;
  match r with
  | inl it => Some it
  | inr low => it ← SeekToRestartPoint low it; linear_loop (entry_fuel it) target it
  end.

Definition Block_SeekToFirst it : option BlockIter := it ← SeekToRestartPoint 0 it; r ← ParseNextKey it; Some (snd r).

Definition Block_SeekToLast it : option BlockIter := it ← SeekToRestartPoint (num_restarts_ it - 1) it; until_loop (entry_fuel it) (restarts_ it) it.

Definition BlockIter_Iterator : Iterator BlockIter := {|
  it_Valid := Block_Valid;
  it_SeekToFirst := Block_SeekToFirst;
  it_SeekToLast := Block_SeekToLast;
  it_Seek := Block_Seek;
  it_Next := Block_Next;
  it_Prev := Block_Prev;
  it_key := Block_key;
  it_value := Block_value;
  it_status := block_status_ |}.

(** [Block::NewIterator]: an empty iterator, perhaps with an error, or one of the block. *)
Definition Block_NewIterator (b : Block) : option (EmptyIterator + BlockIter) :=
  if size_ b <? 4 then Some (inl (NewErrorIterator (CorruptionStatus "bad block contents")))
  else
    let num_restarts := NumRestarts (contents_ b) (size_ b) in
    if num_restarts =? 0 then Some (inl NewEmptyIterator)
    else it ← new_BlockIter (contents_ b) (restart_offset_ b) num_restarts; Some (inr it).
End Iter.

(** * What a block holds *)

(** An entry and how many bytes of its key are those of the key before. *)
Record cell := mkCell { c_shared : Z; c_entry : entry }.

Definition c_key (c : cell) : list Z := fst (c_entry c).
Definition c_value (c : cell) : list Z := snd (c_entry c).

Section Layout.
Context {P : Port}.
Implicit Types (c : cell) (cs a b : list cell).

Definition cell_head c : list Z :=
  EncodeVarint32 (c_shared c) ++ EncodeVarint32 (zlen (c_key c) - c_shared c) ++ EncodeVarint32 (zlen (c_value c)).
Definition cell_bytes c : list Z := cell_head c ++ zdrop (c_shared c) (c_key c) ++ c_value c.
Definition cells_bytes cs : list Z := concat (map cell_bytes cs).

Definition cell_ok c : Prop := 0 <= c_shared c <= zlen (c_key c) /\ bytes_ok (c_key c) /\ bytes_ok (c_value c) /\ zlen (c_key c) < 2 ^ 32 /\ zlen (c_value c) < 2 ^ 32.

(** Each key has what it shares from the key before. *)
Fixpoint chained (prev : list Z) cs : Prop :=
  match cs with
  | [] => True
  | c :: cs => c_shared c <= zlen prev /\ ztake (c_shared c) prev = ztake (c_shared c) (c_key c) /\ chained (c_key c) cs
  end.

Lemma cells_bytes_app a b : cells_bytes (a ++ b) = cells_bytes a ++ cells_bytes b.
Proof. unfold cells_bytes. rewrite map_app, concat_app. reflexivity. Qed.

Lemma cells_bytes_cons c b : cells_bytes (c :: b) = cell_bytes c ++ cells_bytes b.
Proof. reflexivity. Qed.

Lemma cell_head_len c : cell_ok c -> 3 <= zlen (cell_head c).
Proof.
  intros (Hs & _ & _ & Hk & Hv). pose proof (zlen_nonneg (c_value c)). unfold cell_head. rewrite !zlen_app.
  destruct (zlen_EncodeVarint32 (c_shared c) ltac:(lia)) as [-> ?]. destruct (zlen_EncodeVarint32 (zlen (c_key c) - c_shared c) ltac:(lia)) as [-> ?].
  destruct (zlen_EncodeVarint32 (zlen (c_value c)) ltac:(lia)) as [-> ?]. lia.
Qed.

Lemma zlen_cell_bytes c : cell_ok c -> zlen (cell_bytes c) = zlen (cell_head c) + (zlen (c_key c) - c_shared c) + zlen (c_value c).
Proof. intros (Hs & _). unfold cell_bytes. rewrite !zlen_app, zlen_zdrop by lia. lia. Qed.

Lemma cell_bytes_pos c : cell_ok c -> 3 <= zlen (cell_bytes c).
Proof. intros Hc. rewrite zlen_cell_bytes by exact Hc. pose proof (cell_head_len c Hc). pose proof (zlen_nonneg (c_value c)). destruct Hc as (Hs & _). lia. Qed.

Lemma cell_bytes_ok c : cell_ok c -> bytes_ok (cell_bytes c).
Proof.
  intros (Hs & Hk & Hv & Hlk & Hlv). pose proof (zlen_nonneg (c_value c)). unfold cell_bytes, cell_head. rewrite !bytes_ok_app.
  split_and!; try (apply EncodeVarint32_ok; lia); [apply bytes_ok_zdrop, Hk|exact Hv].
Qed.

Lemma cells_bytes_ok cs : Forall cell_ok cs -> bytes_ok (cells_bytes cs).
Proof. induction 1 as [|c cs Hc _ IH]; [constructor|]. rewrite cells_bytes_cons. apply bytes_ok_app. split; [apply cell_bytes_ok, Hc|exact IH]. Qed.

(** A number below 128 is one byte. *)
Lemma EncodeVarint32_one v rest : 0 <= v < 2 ^ 32 -> bytes_ok rest -> exists x q, EncodeVarint32 v ++ rest = x :: q /\ (x < 128 -> x = v /\ q = rest) /\ 0 <= x < 256 /\
  (128 <= x -> GetVarint32Ptr (x :: q) = Some (v, rest)).
Proof.
  intros Hv Hr. pose proof (GetVarint32Ptr_Encode v rest Hv Hr) as E. pose proof (EncodeVarint32_ok v Hv) as Hb.
  destruct (zlen_EncodeVarint32 v Hv) as [Hl Hl1]. destruct (EncodeVarint32 v) as [|x q] eqn:Eq; [change (zlen (@nil Z)) with 0 in Hl; lia|].
  cbn [app] in E. exists x, (q ++ rest). apply bytes_ok_cons in Hb as [Hx Hq]. unfold byte_ok in Hx. split; [reflexivity|]. split; [|split; [lia|intros _; exact E]].
  intros Hlt. unfold GetVarint32Ptr in E. cbn [app] in E. rewrite byte_top in E by exact Hx. rewrite (proj2 (Z.ltb_lt _ _) Hlt) in E. injection E as -> E.
  split; [reflexivity|exact E].
Qed.

Lemma lor3_128 x y z : 0 <= x < 256 -> 0 <= y < 256 -> 0 <= z < 256 -> (Z.lor (Z.lor x y) z <? 128) = (x <? 128) && (y <? 128) && (z <? 128).
Proof.
  intros Hx Hy Hz. assert (B : forall u, 0 <= u -> (u <? 128) = (Z.shiftr u 7 =? 0)).
  { intros u Hu. rewrite Z.shiftr_div_pow2 by lia. change (2 ^ 7) with 128. destruct (Z.ltb_spec u 128); symmetry; [apply Z.eqb_eq, Z.div_small; lia|apply Z.eqb_neq; dlia]. }
  assert (Hor : forall u v, 0 <= u -> 0 <= v -> (Z.lor u v <? 128) = (u <? 128) && (v <? 128)).
  { intros u v Hu Hv. rewrite (B u), (B v), (B (Z.lor u v)) by (try apply Z.lor_nonneg; lia). rewrite Z.shiftr_lor.
    destruct (Z.eqb_spec (Z.lor (Z.shiftr u 7) (Z.shiftr v 7)) 0) as [E|E].
    - apply Z.lor_eq_0_iff in E as [-> ->]. reflexivity.
    - destruct (Z.eqb_spec (Z.shiftr u 7) 0) as [Eu|Eu]; [|reflexivity]. destruct (Z.eqb_spec (Z.shiftr v 7) 0) as [Ev|Ev]; [|reflexivity].
      exfalso. apply E. rewrite Eu, Ev. reflexivity. }
  rewrite !Hor; [reflexivity|lia|lia|apply Z.lor_nonneg; lia|lia].
Qed.

Lemma DecodeEntry_head c rest : cell_ok c -> bytes_ok rest -> zlen (c_key c) - c_shared c + zlen (c_value c) <= zlen rest -> zlen rest < 2 ^ 32 ->
  DecodeEntry (cell_head c ++ rest) = Some (c_shared c, zlen (c_key c) - c_shared c, zlen (c_value c), rest).
Proof.
  intros (Hs & Hk & Hv & Hlk & Hlv) Hr Hl Hl32. pose proof (zlen_nonneg (c_value c)) as Hv0. unfold cell_head. rewrite <- !app_assoc.
  set (s := c_shared c) in *. set (n := zlen (c_key c) - s) in *. set (v := zlen (c_value c)) in *.
  assert (H3 : bytes_ok (EncodeVarint32 v ++ rest)) by (apply bytes_ok_app; split; [apply EncodeVarint32_ok; lia|exact Hr]).
  assert (H2 : bytes_ok (EncodeVarint32 n ++ EncodeVarint32 v ++ rest)) by (apply bytes_ok_app; split; [apply EncodeVarint32_ok; lia|exact H3]).
  assert (E1 := GetVarint32Ptr_Encode s _ ltac:(lia) H2). assert (E2 := GetVarint32Ptr_Encode n _ ltac:(lia) H3). assert (E3 := GetVarint32Ptr_Encode v rest ltac:(lia) Hr).
  destruct (zlen_EncodeVarint32 s ltac:(lia)) as [L1 L1']. destruct (zlen_EncodeVarint32 n ltac:(lia)) as [L2 L2']. destruct (zlen_EncodeVarint32 v ltac:(lia)) as [L3 L3'].
  assert (Hlast : forall p : list Z, (if u32 (zlen rest) <? u32 (n + v) then None else Some (s, n, v, p)) = Some (s, n, v, p)).
  { intros p. rewrite !u32_small by lia. destruct (Z.ltb_spec (zlen rest) (n + v)); [lia|reflexivity]. }
  assert (Slow : forall x y z q, EncodeVarint32 s ++ EncodeVarint32 n ++ EncodeVarint32 v ++ rest = x :: y :: z :: q ->
    (r ← ('(shared, p) ← GetVarint32Ptr (x :: y :: z :: q); '(non_shared, p) ← GetVarint32Ptr p; '(value_length, p) ← GetVarint32Ptr p; Some (shared, non_shared, value_length, p));
     let '(shared, non_shared, value_length, p) := r in if u32 (zlen p) <? u32 (non_shared + value_length) then None else Some (shared, non_shared, value_length, p)) = Some (s, n, v, rest)).
  { intros x y z q <-. rewrite E1. cbn [mbind option_bind]. rewrite E2. cbn [mbind option_bind]. rewrite E3. cbn [mbind option_bind]. apply Hlast. }
  destruct (EncodeVarint32_one s _ ltac:(lia) H2) as (x & q1 & A1 & B1 & C1 & _).
  assert (Long : forall l : list Z, 3 <= zlen l -> exists x y z q, l = x :: y :: z :: q).
  { intros [|a [|b [|d l]]] Hll; try (unfold zlen in Hll; cbn in Hll; lia). eauto. }
  destruct (Long (EncodeVarint32 s ++ EncodeVarint32 n ++ EncodeVarint32 v ++ rest)) as (x' & y & z & q & Eq).
  { rewrite !zlen_app. pose proof (zlen_nonneg rest). lia. }
  rewrite Eq. unfold DecodeEntry. specialize (Slow _ _ _ _ Eq).
  destruct (Z.lor (Z.lor x' y) z <? 128) eqn:Elor; [|exact Slow]. rewrite Eq in A1. injection A1 as <- <-.
  assert (Hxyz : bytes_ok (x' :: y :: z :: q)) by (rewrite <- Eq; apply bytes_ok_app; split; [apply EncodeVarint32_ok; lia|exact H2]).
  apply bytes_ok_cons in Hxyz as [Hx Hxyz]. apply bytes_ok_cons in Hxyz as [Hy Hxyz]. apply bytes_ok_cons in Hxyz as [Hz _]. unfold byte_ok in *.
  rewrite lor3_128 in Elor by lia. apply andb_prop in Elor as [Elor Ez]. apply andb_prop in Elor as [Ex Ey]. apply Z.ltb_lt in Ex, Ey, Ez.
  destruct (B1 Ex) as [-> Eq1]. destruct (EncodeVarint32_one n _ ltac:(lia) H3) as (y' & q2 & A2 & B2 & _ & _). rewrite <- Eq1 in A2. injection A2 as <- <-.
  destruct (B2 Ey) as [-> Eq2]. destruct (EncodeVarint32_one v rest ltac:(lia) Hr) as (z' & q3 & A3 & B3 & _ & _). rewrite <- Eq2 in A3. injection A3 as <- <-.
  destruct (B3 Ez) as [-> ->]. cbn [mbind option_bind]. apply Hlast.
Qed.
End Layout.

(** * Reading it *)

Section Reading.
Context {P : Port} {C : Comparator} {L : ComparatorLaws C}.
Context (cs : list cell) (R : list Z).
Implicit Types (c : cell) (a b : list cell) (it : BlockIter) (r o : Z).

Definition block_data : list Z := cells_bytes cs ++ concat (map EncodeFixed32 R) ++ EncodeFixed32 (zlen R).

Context (Hcs : Forall cell_ok cs) (Hchain : chained [] cs) (Hsize : zlen block_data < 2 ^ 32).
Context (Hfirst : head R = Some 0) (HR : StronglySorted Z.lt R).

(** A restart point is where an entry starts that shares nothing, or the empty block. *)
Context (Hpoint : forall r, r ∈ R -> exists p q, cs = p ++ q /\ zlen (cells_bytes p) = r /\ match q with c :: _ => c_shared c = 0 | [] => p = [] end).

Definition point (i r : Z) : Prop := 0 <= i /\ R !! Z.to_nat i = Some r.

Lemma zlen_block_data : zlen block_data = zlen (cells_bytes cs) + 4 * zlen R + 4.
Proof. unfold block_data. rewrite !zlen_app, zlen_fixed, zlen_EncodeFixed32. lia. Qed.

Lemma sizes : 0 <= zlen (cells_bytes cs) < 2 ^ 32 /\ 1 <= zlen R < 2 ^ 30.
Proof.
  pose proof zlen_block_data as E. pose proof (zlen_nonneg (cells_bytes cs)). assert (1 <= zlen R) by (destruct R as [|x l]; [discriminate|rewrite zlen_cons; pose proof (zlen_nonneg l); lia]). lia.
Qed.

Lemma point_range i r : point i r -> i < zlen R /\ 0 <= r <= zlen (cells_bytes cs).
Proof.
  intros [Hi Hr]. split; [apply lookup_lt_Some in Hr; unfold zlen; lia|]. apply list_elem_of_lookup_2 in Hr.
  destruct (Hpoint r Hr) as (p & q & E & <- & _). rewrite E, cells_bytes_app, zlen_app. pose proof (zlen_nonneg (cells_bytes p)). pose proof (zlen_nonneg (cells_bytes q)). lia.
Qed.

Lemma point_at i : 0 <= i < zlen R -> exists r, point i r.
Proof. intros Hi. destruct (lookup_lt_is_Some_2 R (Z.to_nat i)) as [r Hr]; [unfold zlen in Hi; lia|]. exists r. split; [lia|exact Hr]. Qed.

Lemma point_0 : point 0 0.
Proof. split; [lia|]. change (Z.to_nat 0) with 0%nat. destruct R as [|x l]; [discriminate|]. injection Hfirst as ->. reflexivity. Qed.

Lemma point_lt i j r r' : point i r -> point j r' -> i < j -> r < r'.
Proof.
  intros [Hi Hr] [Hj Hr'] Hlt. assert (Hn : (Z.to_nat i < Z.to_nat j)%nat) by lia. revert Hr Hr' Hn. generalize (Z.to_nat i) (Z.to_nat j). clear -HR.
  induction HR as [|x l Hs IH Hx]; intros n m Hn Hm Hlt; [discriminate|]. destruct n as [|n], m as [|m]; try lia; cbn in Hn, Hm.
  - injection Hn as ->. rewrite Forall_forall in Hx. apply Hx, (list_elem_of_lookup_2 _ m), Hm.
  - apply (IH Hs n m); auto. lia.
Qed.

Lemma point_inj i j r : point i r -> point j r -> i = j.
Proof. intros Hi Hj. destruct (Z.lt_trichotomy i j) as [Hlt|[->|Hlt]]; [pose proof (point_lt _ _ _ _ Hi Hj Hlt); lia|reflexivity|pose proof (point_lt _ _ _ _ Hj Hi Hlt); lia]. Qed.

(** ** The iterator *)

Definition of_block it : Prop := data_ it = block_data /\ restarts_ it = zlen (cells_bytes cs) /\ num_restarts_ it = zlen R /\ block_status_ it = OK.

Lemma GetRestartPoint_ok it i r : of_block it -> point i r -> GetRestartPoint i it = Some r.
Proof.
  intros (Ed & Er & En & _) Hp. pose proof (point_range i r Hp) as [Hi Hr]. pose proof sizes as [Hc Hn]. destruct Hp as [Hi0 Hp]. unfold GetRestartPoint. rewrite Ed, Er, En, zlen_block_data.
  rewrite (proj2 (Z.ltb_lt _ _)), (proj2 (Z.leb_le _ _)) by lia. cbn [andb]. f_equal. unfold block_data.
  rewrite zdrop_app_add by lia. apply DecodeFixed32_nth; [lia|exact Hp|lia|apply EncodeFixed32_ok].
Qed.

Definition offset b : Z := zlen (cells_bytes (rev b)).

Lemma offset_cons c b : offset (c :: b) = offset b + zlen (cell_bytes c).
Proof. unfold offset. cbn [rev]. rewrite cells_bytes_app, zlen_app. cbn [cells_bytes map concat]. rewrite app_nil_r. reflexivity. Qed.

Lemma offset_nonneg b : 0 <= offset b.
Proof. apply zlen_nonneg. Qed.

Lemma offset_le b a : rev b ++ a = cs -> offset b <= zlen (cells_bytes cs).
Proof. intros <-. rewrite cells_bytes_app, zlen_app. unfold offset. pose proof (zlen_nonneg (cells_bytes a)). lia. Qed.

Lemma in_cells b c a : rev b ++ c :: a = cs -> cell_ok c.
Proof. intros E. rewrite <- E in Hcs. apply Forall_app in Hcs as [_ Hc]. apply List.Forall_cons_iff in Hc. apply Hc. Qed.

Lemma offset_lt b c a : rev b ++ c :: a = cs -> offset b + zlen (cell_bytes c) <= zlen (cells_bytes cs) /\ 3 <= zlen (cell_bytes c).
Proof.
  intros E. split; [|apply cell_bytes_pos, (in_cells b c a E)]. rewrite <- offset_cons. apply (offset_le (c :: b) a). cbn [rev]. rewrite <- app_assoc. exact E.
Qed.

(** What remains of the block at an entry. *)
Lemma data_at b c a : rev b ++ c :: a = cs -> exists rest, zdrop (offset b) block_data = cell_bytes c ++ rest /\
  ztake (zlen (cells_bytes cs) - offset b) (zdrop (offset b) block_data) = cell_bytes c ++ cells_bytes a /\ bytes_ok (cells_bytes a).
Proof.
  intros E. exists (cells_bytes a ++ concat (map EncodeFixed32 R) ++ EncodeFixed32 (zlen R)).
  assert (Ed : zdrop (offset b) block_data = cell_bytes c ++ cells_bytes a ++ concat (map EncodeFixed32 R) ++ EncodeFixed32 (zlen R)).
  { unfold block_data. rewrite <- E at 1. rewrite cells_bytes_app, cells_bytes_cons, <- !app_assoc. unfold offset. apply zdrop_app. }
  split; [exact Ed|]. split; [|rewrite <- E in Hcs; apply Forall_app in Hcs as [_ Hc]; apply List.Forall_cons_iff in Hc as [_ Hc]; apply cells_bytes_ok, Hc].
  rewrite Ed. replace (zlen (cells_bytes cs) - offset b) with (zlen (cell_bytes c ++ cells_bytes a)).
  - rewrite (app_assoc (cell_bytes c)). apply ztake_app.
  - rewrite <- E. rewrite cells_bytes_app, cells_bytes_cons, !zlen_app. unfold offset. lia.
Qed.

Definition index_at it o : Prop := exists r, point (restart_index_ it) r /\ r <= o.
Definition index_next it o : Prop := forall r, point (restart_index_ it + 1) r -> o <= r.

(** Ready to parse what follows the entries [b], and at an entry. *)
Definition ready it b a : Prop := of_block it /\ (exists p n, value_ it = Some (p, n) /\ p + n = offset b) /\ index_at it (offset b) /\
  match a with c :: _ => c_shared c <= zlen (key_ it) /\ ztake (c_shared c) (key_ it) = ztake (c_shared c) (c_key c) | [] => True end.

Definition on_cell it b c : Prop := of_block it /\ current_ it = offset b /\ key_ it = c_key c /\
  value_ it = Some (offset b + zlen (cell_head c) + (zlen (c_key c) - c_shared c), zlen (c_value c)) /\ index_at it (offset b) /\ index_next it (offset b).

Definition off_block it : Prop := of_block it /\ current_ it = zlen (cells_bytes cs).

Lemma restart_loop_ok it o : of_block it -> forall fuel i r, point i r -> r <= o -> zlen R - i <= Z.of_nat fuel ->
  exists j r', restart_loop fuel it o i = Some j /\ point j r' /\ r' <= o /\ forall r2, point (j + 1) r2 -> o <= r2.
Proof.
  intros Hb. induction fuel as [|fuel IH]; intros i r Hp Hr Hf; [pose proof (point_range i r Hp); lia|]. cbn [restart_loop].
  pose proof Hb as (_ & _ & En & _). rewrite En. destruct (Z.ltb_spec (i + 1) (zlen R)) as [Hlt|Hge].
  - destruct (point_at (i + 1)) as (r1 & Hp1); [destruct Hp; lia|]. rewrite (GetRestartPoint_ok it _ r1 Hb Hp1). cbn [mbind option_bind].
    destruct (Z.ltb_spec r1 o) as [Hlt1|Hge1]; [apply (IH (i + 1) r1 Hp1); lia|]. exists i, r. split_and!; auto.
    intros r2 Hp2. destruct Hp1 as [_ E1], Hp2 as [_ E2]. rewrite E1 in E2. injection E2 as <-. exact Hge1.
  - exists i, r. split_and!; auto. intros r2 Hp2. pose proof (point_range _ _ Hp2). lia.
Qed.

Lemma NextEntryOffset_ready it b a a' : ready it b a -> rev b ++ a' = cs -> NextEntryOffset it = Some (offset b).
Proof.
  intros (_ & (p & n & Ev & Ep) & _) E. unfold NextEntryOffset. rewrite Ev. cbn [mbind option_bind]. rewrite Ep, u32_small; [reflexivity|].
  pose proof (offset_nonneg b). pose proof (offset_le b a' E). pose proof sizes. lia.
Qed.

Lemma ParseNextKey_end it b : ready it b [] -> rev b = cs -> exists it', ParseNextKey it = Some (false, it') /\ off_block it'.
Proof.
  intros Hr E. rewrite <- (app_nil_r (rev b)) in E. unfold ParseNextKey. rewrite (NextEntryOffset_ready it b [] [] Hr E). cbn [mbind option_bind].
  destruct Hr as (Hb & _). pose proof Hb as (E1 & E2 & E3 & E4). rewrite app_nil_r in E. unfold offset. rewrite E, E2, Z.leb_refl.
  eexists. split; [reflexivity|]. split; [split_and!; auto|reflexivity].
Qed.

(** The entry is decoded, and its lengths lead to its key and to its value. *)
Lemma decode_cell b c a : rev b ++ c :: a = cs -> exists rest,
  DecodeEntry (ztake (zlen (cells_bytes cs) - offset b) (zdrop (offset b) block_data)) = Some (c_shared c, zlen (c_key c) - c_shared c, zlen (c_value c), rest) /\
  zlen (cells_bytes cs) - zlen rest = offset b + zlen (cell_head c) /\
  offset b + zlen (cell_head c) + (zlen (c_key c) - c_shared c) + zlen (c_value c) <= zlen block_data /\
  ztake (zlen (c_key c) - c_shared c) (zdrop (offset b + zlen (cell_head c)) block_data) = zdrop (c_shared c) (c_key c) /\
  zsub (offset b + zlen (cell_head c) + (zlen (c_key c) - c_shared c)) (zlen (c_value c)) block_data = c_value c.
Proof.
  intros E. pose proof sizes as [Hc Hn]. pose proof (in_cells b c a E) as Hok. destruct (data_at b c a E) as (rest & Ed & Et & Hba).
  pose proof Hok as (Hs & Hk & Hv & Hlk & Hlv). pose proof (zlen_cell_bytes c Hok) as Elen. pose proof (zlen_nonneg (c_value c)). pose proof (offset_nonneg b).
  assert (Ez : zlen ((zdrop (c_shared c) (c_key c) ++ c_value c) ++ cells_bytes a) = zlen (c_key c) - c_shared c + zlen (c_value c) + zlen (cells_bytes a)).
  { rewrite !zlen_app, zlen_zdrop by lia. lia. }
  assert (Ecs : zlen (cells_bytes cs) = offset b + zlen (cell_bytes c) + zlen (cells_bytes a)).
  { rewrite <- E. rewrite cells_bytes_app, cells_bytes_cons, !zlen_app. unfold offset. lia. }
  pose proof (zlen_nonneg (cells_bytes a)). pose proof (cell_head_len c Hok).
  exists ((zdrop (c_shared c) (c_key c) ++ c_value c) ++ cells_bytes a). rewrite Et, Ez. unfold cell_bytes at 1. rewrite <- app_assoc.
  split; [apply DecodeEntry_head; [exact Hok|apply bytes_ok_app; split; [apply bytes_ok_app; split; [apply bytes_ok_zdrop, Hk|exact Hv]|exact Hba]|lia|lia]|].
  split; [lia|]. split; [rewrite zlen_block_data; lia|].
  assert (Ek : zdrop (offset b + zlen (cell_head c)) block_data = zdrop (c_shared c) (c_key c) ++ c_value c ++ rest).
  { rewrite <- zdrop_zdrop by lia. rewrite Ed. unfold cell_bytes. rewrite <- !app_assoc, zdrop_app. reflexivity. }
  split; [rewrite Ek; apply ztake_app_eq; rewrite zlen_zdrop by lia; reflexivity|].
  unfold zsub. rewrite <- (zdrop_zdrop _ (offset b + zlen (cell_head c))) by lia. rewrite Ek, zdrop_app_eq by (rewrite zlen_zdrop by lia; reflexivity). apply ztake_app.
Qed.

Lemma ParseNextKey_cell it b c a : ready it b (c :: a) -> rev b ++ c :: a = cs -> exists it', ParseNextKey it = Some (true, it') /\ on_cell it' b c.
Proof.
  intros Hr E. unfold ParseNextKey. rewrite (NextEntryOffset_ready it b _ _ Hr E). cbn [mbind option_bind].
  destruct Hr as (Hb & _ & (r & Hp & Hro) & Hsh & Hpre). pose proof Hb as (E1 & E2 & E3 & E4). pose proof (offset_lt b c a E) as [Hlt Hpos].
  pose proof (in_cells b c a E) as (Hs & _). pose proof (zlen_nonneg (c_value c)).
  destruct (decode_cell b c a E) as (rest & Edec & Ep & Hin & Ek & _). rewrite E1, E2, E3, Edec.
  destruct (Z.leb_spec (zlen (cells_bytes cs)) (offset b)); [lia|]. destruct (Z.ltb_spec (zlen (key_ it)) (c_shared c)); [lia|]. rewrite Ep. cbv zeta.
  destruct (Z.ltb_spec (zlen block_data) (offset b + zlen (cell_head c) + (zlen (c_key c) - c_shared c))); [lia|]. rewrite Ek, Hpre, ztake_zdrop.
  destruct (restart_loop_ok it (offset b) Hb (S (Z.to_nat (zlen R))) _ r Hp Hro) as (j & r' & -> & Hj & Hr' & Hnext); [destruct Hp; lia|]. cbn [mbind option_bind].
  eexists. split; [reflexivity|]. split; [split_and!; auto|]. cbn [current_ key_ value_ restart_index_]. split_and!; auto. exists r'. auto.
Qed.

(** After an entry the next one can be parsed. *)
Lemma on_cell_ready it b c a : on_cell it b c -> rev b ++ c :: a = cs -> ready it (c :: b) a.
Proof.
  intros (Hb & Ec & Ek & Ev & (r & Hp & Hr) & _) E. pose proof (in_cells b c a E) as Hok. split; [exact Hb|]. split; [|split].
  - eexists _, _. split; [exact Ev|]. rewrite offset_cons, zlen_cell_bytes by exact Hok. lia.
  - exists r. split; [exact Hp|]. rewrite offset_cons. pose proof (cell_bytes_pos c Hok). lia.
  - destruct a as [|c' a]; [exact I|]. rewrite Ek. pose proof Hchain as Hch. rewrite <- E in Hch. clear -Hch. revert Hch. generalize (@nil Z). induction (rev b) as [|x l IH]; intros prev Hch.
    + cbn [app chained] in Hch. destruct Hch as (_ & _ & H1 & H2 & _). auto.
    + cbn [app chained] in Hch. destruct Hch as (_ & _ & Hch). exact (IH _ Hch).
Qed.

(** ** Going to a restart point, and on from there *)

Lemma SeekToRestartPoint_ok it i r p q : of_block it -> point i r -> cs = p ++ q -> zlen (cells_bytes p) = r ->
  match q with c :: _ => c_shared c = 0 | [] => p = [] end ->
  exists it', SeekToRestartPoint i it = Some it' /\ ready it' (rev p) q /\ restart_index_ it' = i.
Proof.
  intros Hb Hp E Er Hq. unfold SeekToRestartPoint. rewrite (GetRestartPoint_ok it i r Hb Hp). cbn [mbind option_bind]. eexists. split; [reflexivity|].
  split; [|reflexivity]. assert (Eo : offset (rev p) = r) by (unfold offset; rewrite rev_involutive; exact Er).
  split; [destruct Hb as (H1 & H2 & H3 & H4); split_and!; assumption|]. split; [exists r, 0; rewrite Eo; split; [reflexivity|lia]|].
  split; [exists r; rewrite Eo; split; [exact Hp|lia]|]. destruct q as [|c q]; [exact I|]. cbn [key_]. rewrite Hq. split; [change (zlen (@nil Z)) with 0; lia|reflexivity].
Qed.

Lemma until_loop_ok a1 : forall b c a2 it fuel, ready it b (a1 ++ c :: a2) -> rev b ++ a1 ++ c :: a2 = cs -> (length a1 < fuel)%nat ->
  exists it', until_loop fuel (offset (c :: rev a1 ++ b)) it = Some it' /\ on_cell it' (rev a1 ++ b) c.
Proof.
  induction a1 as [|x a1 IH]; intros b c a2 it fuel Hr E Hf; (destruct fuel as [|fuel]; [cbn in Hf; lia|]); cbn [app rev until_loop] in *.
  - destruct (ParseNextKey_cell it b c a2 Hr E) as (it' & -> & Hon). cbn [mbind option_bind].
    assert (E' : rev (c :: b) ++ a2 = cs) by (cbn [rev]; rewrite <- app_assoc; exact E).
    rewrite (NextEntryOffset_ready it' (c :: b) a2 a2 (on_cell_ready _ _ _ _ Hon E) E'). cbn [mbind option_bind]. rewrite Z.ltb_irrefl. eauto.
  - destruct (ParseNextKey_cell it b x _ Hr E) as (it' & -> & Hon). cbn [mbind option_bind].
    assert (E' : rev (x :: b) ++ a1 ++ c :: a2 = cs) by (cbn [rev]; rewrite <- app_assoc; exact E).
    pose proof (on_cell_ready _ _ _ _ Hon E) as Hr'. rewrite (NextEntryOffset_ready it' (x :: b) _ _ Hr' E'). cbn [mbind option_bind].
    assert (Eb : (rev a1 ++ [x]) ++ b = rev a1 ++ x :: b) by (rewrite <- app_assoc; reflexivity). rewrite Eb.
    assert (Hlt : offset (x :: b) < offset (c :: rev a1 ++ x :: b)).
    { assert (Hc : cell_ok c) by (apply (in_cells (rev a1 ++ x :: b) c a2); rewrite rev_app_distr, rev_involutive, <- app_assoc; exact E').
      rewrite (offset_cons c). pose proof (cell_bytes_pos c Hc). unfold offset at 2. rewrite rev_app_distr, rev_involutive, cells_bytes_app, zlen_app.
      pose proof (zlen_nonneg (cells_bytes a1)). unfold offset. lia. }
    rewrite (proj2 (Z.ltb_lt _ _) Hlt). apply (IH (x :: b) c a2 it' fuel Hr' E'). cbn in Hf. lia.
Qed.

(** The first loop of [Prev] finds the last restart point before an entry. *)
Lemma before_loop_ok o : 0 < o -> forall fuel it r, of_block it -> point (restart_index_ it) r -> restart_index_ it < Z.of_nat fuel ->
  exists it' r', before_loop fuel o it = Some (true, it') /\ of_block it' /\ point (restart_index_ it') r' /\ r' < o.
Proof.
  intros Ho. induction fuel as [|fuel IH]; intros it r Hb Hp Hf; [destruct Hp; lia|]. cbn [before_loop]. rewrite (GetRestartPoint_ok it _ r Hb Hp). cbn [mbind option_bind].
  destruct (Z.leb_spec o r); [|exists it, r; split_and!; auto]. destruct (Z.eqb_spec (restart_index_ it) 0) as [E0|Hne].
  - rewrite E0 in Hp. destruct Hp as [_ Hp], point_0 as [_ H0]. rewrite H0 in Hp. injection Hp as <-. lia.
  - pose proof (point_range _ _ Hp) as [Hi _]. destruct (point_at (restart_index_ it - 1)) as (r1 & Hp1); [destruct Hp; lia|].
    destruct (IH (mkBlockIter (data_ it) (restarts_ it) (num_restarts_ it) (current_ it) (restart_index_ it - 1) (key_ it) (value_ it) (block_status_ it)) r1) as (it' & r' & E & H1 & H2 & H3);
      [destruct Hb as (B1 & B2 & B3 & B4); split_and!; assumption|exact Hp1|cbn [restart_index_]; lia|]. exists it', r'. auto.
Qed.

Lemma length_cells b a : rev b ++ a = cs -> (length a <= length block_data)%nat.
Proof.
  intros E. assert (Hl : forall l, Forall cell_ok l -> Z.of_nat (length l) <= zlen (cells_bytes l)).
  { induction 1 as [|x l Hx _ IH]; [apply zlen_nonneg|]. rewrite cells_bytes_cons, zlen_app. pose proof (cell_bytes_pos x Hx). cbn [length]. lia. }
  pose proof (Hl cs Hcs) as Hc. pose proof zlen_block_data as Hd. pose proof (zlen_nonneg R) as Hn. apply (f_equal (@length _)) in E. rewrite length_app in E.
  unfold zlen at 1 in Hd. unfold zlen in Hc. change (zlen (cells_bytes cs)) with (Z.of_nat (length (cells_bytes cs))) in Hd. lia.
Qed.

(** Of two places in the block one is before the other. *)
Lemma places p q b a : cs = p ++ q -> rev b ++ a = cs -> zlen (cells_bytes p) < offset b -> exists l, b = l ++ rev p /\ l <> [].
Proof.
  intros E1 E2 Hlt. rewrite E1 in E2. apply app_eq_app in E2 as (l & [[Ep Ea]|[Ep Ea]]).
  - exists (rev l). split; [rewrite <- rev_app_distr, <- Ep, rev_involutive; reflexivity|]. intros El. apply (f_equal (@rev cell)) in El. rewrite rev_involutive in El. subst l.
    rewrite app_nil_r in Ep. unfold offset in Hlt. rewrite Ep in Hlt. cbn in Hlt. lia.
  - exfalso. unfold offset in Hlt. rewrite Ep, cells_bytes_app, zlen_app in Hlt. pose proof (zlen_nonneg (cells_bytes l)). lia.
Qed.

(** ** The promise *)

Definition block_entries : list entry := map c_entry cs.
Context (Hsort : sorted_entries (KO := forward_order L) block_entries).

Definition bpos it (p : cursor) : Prop :=
  match p with
  | Off => off_block it
  | At before e after => exists b c a, before = map c_entry b /\ e = c_entry c /\ after = map c_entry a /\ rev b ++ c :: a = cs /\ on_cell it b c
  end.

Lemma bpos_cell it b c a : rev b ++ c :: a = cs -> on_cell it b c -> bpos it (At (map c_entry b) (c_entry c) (map c_entry a)).
Proof. intros E H. exists b, c, a. auto. Qed.

Lemma bpos_block it p : bpos it p -> of_block it.
Proof. destruct p; [intros [H _]; exact H|]. intros (b & c & a & _ & _ & _ & _ & H & _). exact H. Qed.

(** Parsing goes on to the next entry, or off the block. *)
Lemma parse_ahead it b a : ready it b a -> rev b ++ a = cs -> exists ok it', ParseNextKey it = Some (ok, it') /\ bpos it' (ahead (map c_entry b) (map c_entry a)) /\
  match a with [] => ok = false | c :: _ => ok = true /\ on_cell it' b c end.
Proof.
  intros Hr E. destruct a as [|c a].
  - rewrite app_nil_r in E. destruct (ParseNextKey_end it b Hr E) as (it' & -> & Ho). exists false, it'. auto.
  - destruct (ParseNextKey_cell it b c a Hr E) as (it' & -> & Ho). exists true, it'. split_and!; auto. apply bpos_cell; assumption.
Qed.

Lemma Block_SeekToFirst_ok it : of_block it -> exists it', Block_SeekToFirst it = Some it' /\ bpos it' (ahead [] block_entries).
Proof.
  intros Hb. destruct (Hpoint 0) as (p & q & E & Ez & Hq); [destruct point_0 as [_ H0]; apply (list_elem_of_lookup_2 _ _ _ H0)|].
  assert (Hp : p = []).
  { destruct p as [|x p]; [reflexivity|]. exfalso. rewrite E in Hcs. apply Forall_app in Hcs as [Hx _]. apply List.Forall_cons_iff in Hx as [Hx _].
    rewrite cells_bytes_cons, zlen_app in Ez. pose proof (cell_bytes_pos x Hx). pose proof (zlen_nonneg (cells_bytes p)). lia. }
  subst p. destruct (SeekToRestartPoint_ok it 0 0 [] q Hb point_0 E Ez Hq) as (it1 & E1 & Hr & _). unfold Block_SeekToFirst. rewrite E1. cbn [mbind option_bind].
  cbn [rev app] in *. destruct (parse_ahead it1 [] q Hr (eq_sym E)) as (ok & it' & -> & Hp & _). cbn [mbind option_bind snd]. exists it'. split; [reflexivity|]. unfold block_entries. rewrite E. exact Hp.
Qed.

Lemma last_cells : cs = [] \/ exists b c, cs = rev b ++ [c].
Proof. destruct cs as [|c l] using rev_ind; [auto|]. right. exists (rev l), c. rewrite rev_involutive. reflexivity. Qed.

Lemma Block_SeekToLast_ok it : of_block it -> exists it', Block_SeekToLast it = Some it' /\ bpos it' (behind (rev block_entries) []).
Proof.
  intros Hb. pose proof Hb as (E1 & E2 & E3 & _). pose proof sizes as [_ Hn]. destruct (point_at (zlen R - 1)) as (r & Hp); [lia|].
  destruct (Hpoint r) as (p & q & E & Ez & Hq); [destruct Hp as [_ Hp]; apply (list_elem_of_lookup_2 _ _ _ Hp)|].
  unfold Block_SeekToLast. rewrite E3. destruct (SeekToRestartPoint_ok it _ r p q Hb Hp E Ez Hq) as (it1 & -> & Hr & _). cbn [mbind option_bind].
  pose proof Hr as ((F1 & F2 & _) & _). unfold entry_fuel. rewrite F1, F2. destruct q as [|c0 q0].
  - subst p. cbn [app] in E. cbn [rev] in Hr. destruct (ParseNextKey_end it1 [] Hr) as (it' & Ep & Ho); [rewrite E; reflexivity|]. cbn [until_loop]. rewrite Ep. cbn [mbind option_bind].
    exists it'. split; [reflexivity|]. unfold block_entries. rewrite E. exact Ho.
  - destruct (exists_last (l := c0 :: q0) ltac:(discriminate)) as (a1 & c & Eq). rewrite Eq in *. assert (Eb : rev (rev p) ++ a1 ++ [c] = cs) by (rewrite rev_involutive; auto).
    destruct (until_loop_ok a1 (rev p) c [] it1 (S (length block_data)) Hr Eb) as (it' & Eu & Hon).
    { pose proof (length_cells (rev p) (a1 ++ [c]) Eb) as Hl. rewrite length_app in Hl. cbn in Hl. lia. }
    assert (Eo : offset (c :: rev a1 ++ rev p) = zlen (cells_bytes cs)).
    { unfold offset. cbn [rev]. rewrite rev_app_distr, !rev_involutive, <- app_assoc, E. reflexivity. }
    rewrite Eo in Eu. rewrite Eu. exists it'. split; [reflexivity|]. assert (Ecs : rev (rev a1 ++ rev p) ++ [c] = cs) by (rewrite rev_app_distr, !rev_involutive, <- app_assoc; auto).
    assert (Hlast : forall B, rev B ++ [c] = cs -> behind (rev block_entries) [] = At (map c_entry B) (c_entry c) (map c_entry [])).
    { intros B E0. unfold block_entries. rewrite <- E0, map_app, rev_app_distr, map_rev, rev_involutive. reflexivity. }
    rewrite (Hlast _ Ecs). exact (bpos_cell it' _ c [] Ecs Hon).
Qed.

Lemma Block_Next_ok it before e after : bpos it (At before e after) -> exists it', Block_Next it = Some it' /\ bpos it' (ahead (e :: before) after).
Proof.
  intros (b & c & a & -> & -> & -> & E & Hon). pose proof (offset_lt b c a E) as [Hlt Hpos]. unfold Block_Next, Block_Valid. pose proof Hon as ((_ & E2 & _) & Ec & _).
  rewrite Ec, E2, (proj2 (Z.ltb_lt _ _)) by lia. assert (E' : rev (c :: b) ++ a = cs) by (cbn [rev]; rewrite <- app_assoc; exact E).
  destruct (parse_ahead it (c :: b) a (on_cell_ready it b c a Hon E) E') as (ok & it' & -> & Hp & _). cbn [mbind option_bind snd]. exists it'. auto.
Qed.

Lemma Block_Prev_ok it before e after : bpos it (At before e after) -> exists it', Block_Prev it = Some it' /\ bpos it' (behind before (e :: after)).
Proof.
  intros (b & c & a & -> & -> & -> & E & Hon). pose proof (offset_lt b c a E) as [Hlt Hpos]. unfold Block_Prev, Block_Valid. pose proof Hon as (Hb & Ec & _ & _ & (r & Hp & Hr) & _).
  pose proof Hb as (_ & E2 & _). rewrite Ec, E2, (proj2 (Z.ltb_lt _ _)) by lia. cbv zeta. destruct b as [|x b].
  - change (offset []) with 0 in *. cbn [before_loop]. rewrite (GetRestartPoint_ok it _ r Hb Hp). cbn [mbind option_bind].
    assert (E0 : restart_index_ it = 0).
    { destruct (Z.eq_dec (restart_index_ it) 0) as [|Hne]; [assumption|]. pose proof (point_lt 0 _ 0 r point_0 Hp ltac:(destruct Hp; lia)). lia. }
    pose proof (point_range _ _ Hp). rewrite (proj2 (Z.leb_le _ _)), E0 by lia. cbn [Z.eqb mbind option_bind]. eexists. split; [reflexivity|].
    split; [destruct Hb as (B1 & B2 & B3 & B4); split_and!; assumption|exact E2].
  - assert (Ho : 0 < offset (x :: b)).
    { assert (Ex : rev b ++ x :: c :: a = cs) by (cbn [rev] in E; rewrite <- app_assoc in E; exact E).
      rewrite offset_cons. pose proof (cell_bytes_pos x (in_cells _ _ _ Ex)). pose proof (offset_nonneg b). lia. }
    destruct (before_loop_ok (offset (x :: b)) Ho (S (Z.to_nat (restart_index_ it))) it r Hb Hp) as (it1 & r' & -> & Hb1 & Hp1 & Hr1); [destruct Hp; lia|]. cbn [mbind option_bind].
    destruct (Hpoint r') as (p & q & Epq & Ez & Hq); [destruct Hp1 as [_ H1]; apply (list_elem_of_lookup_2 _ _ _ H1)|].
    destruct (SeekToRestartPoint_ok it1 _ r' p q Hb1 Hp1 Epq Ez Hq) as (it2 & -> & Hr2 & _). cbn [mbind option_bind]. pose proof Hr2 as ((F1 & _) & _). unfold entry_fuel. rewrite F1.
    destruct (places p q (x :: b) (c :: a) Epq E ltac:(lia)) as (l & El & Hl). destruct l as [|y l]; [contradiction|]. injection El as <- ->.
    assert (Eq : q = rev l ++ x :: c :: a).
    { rewrite Epq in E. cbn [rev] in E. rewrite rev_app_distr, rev_involutive, <- !app_assoc in E. apply app_inv_head in E. symmetry. exact E. }
    subst q. assert (Ecs : rev (rev p) ++ rev l ++ x :: c :: a = cs) by (rewrite rev_involutive; auto).
    destruct (until_loop_ok (rev l) (rev p) x (c :: a) it2 (S (length block_data)) Hr2 Ecs) as (it' & Eu & Hon').
    { pose proof (length_cells (rev p) _ Ecs) as Hlen. rewrite length_app in Hlen. cbn in Hlen. lia. }
    rewrite rev_involutive in Eu, Hon'. rewrite Eu. exists it'. split; [reflexivity|]. cbn [map behind]. apply (bpos_cell it' (l ++ rev p) x (c :: a)); [|exact Hon'].
    rewrite rev_app_distr, rev_involutive, <- app_assoc. auto.
Qed.

(** ** Seeking *)

(** A restart point that the binary search may keep: nothing before it is to be found. *)
Definition low_enough (k : list Z) (i : Z) : Prop := 0 <= i < zlen R /\ (i = 0 \/ exists b c a r, point i r /\ rev b ++ c :: a = cs /\ offset b = r /\ Compare (c_key c) k < 0).

Lemma search_loop_ok k it : of_block it -> forall fuel low high, low_enough k low -> low <= high < zlen R -> high - low < Z.of_nat fuel ->
  exists i, search_loop fuel k low high it = Some (inr i) /\ low_enough k i.
Proof.
  intros Hb. pose proof Hb as (E1 & E2 & _). pose proof sizes as [_ Hn].
  induction fuel as [|fuel IH]; intros low high Hlow Hh Hf; [lia|]. cbn [search_loop]. destruct (Z.ltb_spec low high) as [Hlt|]; [|eauto].
  pose proof Hlow as [Hl0 _]. rewrite u32_small by lia. set (mid := (low + high + 1) / 2). assert (Hm : low < mid <= high) by (unfold mid; dlia).
  destruct (point_at mid) as (r & Hp); [lia|]. rewrite (GetRestartPoint_ok it mid r Hb Hp). cbn [mbind option_bind]. pose proof (point_range _ _ Hp) as [_ Hr].
  rewrite E1, E2. destruct (Z.ltb_spec (zlen (cells_bytes cs)) r); [lia|].
  destruct (Hpoint r) as (p & q & E & Ez & Hq); [destruct Hp as [_ H1]; apply (list_elem_of_lookup_2 _ _ _ H1)|]. pose proof (point_lt 0 mid 0 r point_0 Hp ltac:(lia)) as Hr0.
  destruct q as [|c q]; [subst p; change (zlen (cells_bytes [])) with 0 in Ez; lia|]. assert (Ecs : rev (rev p) ++ c :: q = cs) by (rewrite rev_involutive; auto).
  assert (Eo : offset (rev p) = r) by (unfold offset; rewrite rev_involutive; exact Ez).
  destruct (decode_cell (rev p) c q Ecs) as (rest & Edec & Ep & Hin & Ek & _). rewrite Eo in *. rewrite Edec, Hq, Ep. cbn [Z.eqb negb]. pose proof (zlen_nonneg (c_value c)). rewrite Hq in Hin, Ek.
  destruct (Z.ltb_spec (zlen block_data) (r + zlen (cell_head c) + (zlen (c_key c) - 0))); [lia|]. rewrite Ek. change (zdrop 0 (c_key c)) with (c_key c).
  destruct (Z.ltb_spec (Compare (c_key c) k) 0).
  - apply IH; [|lia|lia]. split; [lia|]. right. exists (rev p), c, q, r. auto.
  - apply IH; [exact Hlow|lia|lia].
Qed.

Lemma cell_sorted b c a x : rev b ++ c :: a = cs -> x ∈ b -> Compare (c_key x) (c_key c) < 0 /\ key_ok (c_key x) /\ key_ok (c_key c).
Proof.
  intros E Hx. pose proof Hsort as Hs. unfold block_entries in Hs. rewrite <- E, map_app, map_rev in Hs. cbn [map] in Hs.
  split; [apply (sorted_at (KO := forward_order L) (map c_entry b) (c_entry c) (map c_entry a) Hs); apply list_elem_of_fmap_2, Hx|].
  split; [apply (in_valid (KO := forward_order L) _ (c_entry x) Hs)|apply (in_valid (KO := forward_order L) _ (c_entry c) Hs)]; apply elem_of_app.
  - left. apply list_elem_of_In, in_rev. rewrite rev_involutive. apply list_elem_of_In, list_elem_of_fmap_2, Hx.
  - right. apply elem_of_cons. auto.
Qed.

Lemma linear_loop_ok k a : forall b it fuel, ready it b a -> rev b ++ a = cs -> (length a < fuel)%nat ->
  exists it', linear_loop fuel k it = Some it' /\ bpos it' (scan (fun e => 0 <=? Compare (fst e) k) (map c_entry b) (map c_entry a)).
Proof.
  induction a as [|c a IH]; intros b it fuel Hr E Hf; (destruct fuel as [|fuel]; [cbn in Hf; lia|]); cbn [linear_loop];
    destruct (parse_ahead it b _ Hr E) as (ok & it' & -> & Hp & Hok); cbn [mbind option_bind].
  - subst ok. cbn [negb]. eauto.
  - destruct Hok as [-> Hon]. cbn [negb map scan]. pose proof Hon as (_ & _ & Ek & _). rewrite Ek. fold (c_key c). destruct (Z.leb_spec 0 (Compare (c_key c) k)); [eauto|].
    assert (E' : rev (c :: b) ++ a = cs) by (cbn [rev]; rewrite <- app_assoc; exact E).
    apply (IH (c :: b) it' fuel (on_cell_ready it' b c a Hon E) E'). cbn in Hf. lia.
Qed.

Lemma Block_Seek_ok it k : of_block it -> key_ok k -> exists it', Block_Seek k it = Some it' /\ bpos it' (scan (fun e => 0 <=? Compare (fst e) k) [] block_entries).
Proof.
  intros Hb Hk. pose proof Hb as (_ & _ & E3 & _). pose proof sizes as [_ Hn]. unfold Block_Seek. rewrite E3.
  destruct (search_loop_ok k it Hb (S (Z.to_nat (zlen R))) 0 (zlen R - 1)) as (i & -> & Hi & Hlow); [split; [lia|auto]|lia|lia|]. cbn [mbind option_bind].
  destruct (point_at i Hi) as (r & Hp). destruct (Hpoint r) as (p & q & E & Ez & Hq); [destruct Hp as [_ H1]; apply (list_elem_of_lookup_2 _ _ _ H1)|].
  destruct (SeekToRestartPoint_ok it i r p q Hb Hp E Ez Hq) as (it1 & -> & Hr & _). cbn [mbind option_bind]. pose proof Hr as ((F1 & _) & _). unfold entry_fuel. rewrite F1.
  assert (Ecs : rev (rev p) ++ q = cs) by (rewrite rev_involutive; auto).
  destruct (linear_loop_ok k q (rev p) it1 (S (length block_data)) Hr Ecs) as (it' & -> & Hpos); [pose proof (length_cells (rev p) q Ecs); lia|]. exists it'. split; [reflexivity|].
  unfold block_entries. rewrite E, map_app, scan_app, app_nil_r, <- map_rev; [exact Hpos|]. apply Forall_forall. intros e He. apply list_elem_of_fmap in He as (x & -> & Hx). apply Z.leb_gt.
  destruct Hlow as [->|(b & c & a & r' & Hp' & Eb & Eo & Hc)].
  - exfalso. destruct Hp as [_ Hp], point_0 as [_ H0]. rewrite H0 in Hp. injection Hp as <-. destruct p as [|y p]; [inversion Hx|].
    rewrite E in Hcs. apply Forall_app in Hcs as [Hy _]. apply List.Forall_cons_iff in Hy as [Hy _]. rewrite cells_bytes_cons, zlen_app in Ez.
    pose proof (cell_bytes_pos y Hy). pose proof (zlen_nonneg (cells_bytes p)). lia.
  - assert (r' = r) as -> by (destruct Hp as [_ Hp], Hp' as [_ Hp']; rewrite Hp in Hp'; injection Hp' as <-; reflexivity).
    assert (Epb : b = rev p).
    { assert (Hq2 : rev b ++ c :: a = rev (rev p) ++ q) by (rewrite Eb, Ecs; reflexivity). rewrite rev_involutive in Hq2. apply app_eq_app in Hq2 as (l & [[Ep El]|[Ep El]]).
      - unfold offset in Eo. rewrite Ep, cells_bytes_app, zlen_app in Eo. destruct l as [|y l]; [rewrite app_nil_r in Ep; rewrite <- Ep, rev_involutive; reflexivity|].
        exfalso. assert (Hy : cell_ok y) by (apply (in_cells (rev p) y (l ++ c :: a)); rewrite rev_involutive, <- Eb, Ep, <- app_assoc; reflexivity).
        rewrite cells_bytes_cons, zlen_app in Eo. pose proof (cell_bytes_pos y Hy). pose proof (zlen_nonneg (cells_bytes l)). lia.
      - rewrite Ep, cells_bytes_app, zlen_app in Ez. unfold offset in Eo. destruct l as [|y l]; [rewrite app_nil_r in Ep; rewrite Ep, rev_involutive; reflexivity|].
        exfalso. injection El as <- _. pose proof (in_cells b c a Eb) as Hy. rewrite cells_bytes_cons, zlen_app in Ez. pose proof (cell_bytes_pos c Hy). pose proof (zlen_nonneg (cells_bytes l)). lia. }
    destruct (cell_sorted b c a x Eb) as (Hlt & Vx & Vc); [rewrite Epb; apply list_elem_of_In; rewrite <- in_rev; apply list_elem_of_In, Hx|].
    fold (c_key x). pose proof (Compare_trans (c_key x) (c_key c) k Vx Vc Hk ltac:(lia) ltac:(lia)) as Hle.
    destruct (Z.lt_ge_cases (Compare (c_key x) k) 0) as [|Hge]; [assumption|exfalso]. assert (E0 : Compare (c_key x) k = 0) by lia.
    pose proof (Compare_trans k (c_key x) (c_key c) Hk Vx Vc ltac:(rewrite (Compare_eq_sym (c_key x) k); auto; lia) ltac:(lia)) as Hkc.
    pose proof (Compare_sym (c_key c) k Vc Hk). lia.
Qed.

Lemma Block_iterates : Iterates BlockIter_Iterator Compare key_ok block_entries bpos.
Proof.
  constructor.
  - intros it before e after (b & c & a & -> & -> & -> & E & Hon). pose proof Hon as ((E1 & E2 & _) & Ec & Ek & Ev & _). pose proof (offset_lt b c a E) as [Hlt Hpos].
    assert (Hv : Block_Valid it = true) by (unfold Block_Valid; rewrite Ec, E2; apply Z.ltb_lt; lia). split; [rewrite <- map_rev; unfold block_entries; rewrite <- E, map_app; reflexivity|].
    cbn [it_Valid it_key it_value BlockIter_Iterator]. unfold Block_key, Block_value. rewrite Hv, Ek, Ev, E1. cbn [mbind option_bind]. destruct (decode_cell b c a E) as (_ & _ & _ & Hin & _ & Eval).
    rewrite Eval. destruct (Z.ltb_spec (zlen block_data) (offset b + zlen (cell_head c) + (zlen (c_key c) - c_shared c) + zlen (c_value c))); [lia|]. auto.
  - intros it [(E1 & E2 & _) Ec]. cbn [it_Valid BlockIter_Iterator]. unfold Block_Valid. rewrite Ec, E2. apply Z.ltb_irrefl.
  - intros it p Hp. destruct (bpos_block it p Hp) as (_ & _ & _ & Es). exact Es.
  - intros it p Hp. apply Block_SeekToFirst_ok, (bpos_block it p Hp).
  - intros it p Hp. apply Block_SeekToLast_ok, (bpos_block it p Hp).
  - intros it p k Hp Hk. apply Block_Seek_ok; [apply (bpos_block it p Hp)|exact Hk].
  - apply Block_Next_ok.
  - apply Block_Prev_ok.
Qed.
End Reading.

(** * Writing it *)

Section Writing.
Context {P : Port} {C : Comparator} {L : ComparatorLaws C}.
Context (block_restart_interval : Z) (Hinterval : 1 <= block_restart_interval).
Implicit Types (b : BlockBuilder) (e : entry) (es : list entry) (cs : list cell) (k : list Z).

Definition entry_ok e : Prop := bytes_ok (fst e) /\ bytes_ok (snd e) /\ zlen (fst e) < 2 ^ 32 /\ zlen (snd e) < 2 ^ 32.

(** The calls of [Add] for the entries in turn. *)
Definition add_entries es (r : option BlockBuilder) : option BlockBuilder := foldl (fun r e => b ← r; Builder_Add block_restart_interval (fst e) (snd e) b) r es.

(** What the offsets of the restart points are. *)
Definition well_placed cs (R : list Z) : Prop := head R = Some 0 /\ StronglySorted Z.lt R /\
  forall r, r ∈ R -> exists p q, cs = p ++ q /\ zlen (cells_bytes p) = r /\ match q with c :: _ => c_shared c = 0 | [] => p = [] end.

Definition last_key_of es : list Z := match last es with Some e => fst e | None => [] end.

Definition laid_out b cs : Prop := Forall cell_ok cs /\ chained [] cs /\ well_placed cs (restart_list_ b) /\ buffer_ b = cells_bytes cs.

(** The builder after some entries; offsets have 32 bits. *)
Definition building b es : Prop := finished_ b = false /\ 0 <= counter_ b <= block_restart_interval /\ last_key_ b = last_key_of es /\
  (es = [] -> counter_ b = 0 /\ buffer_ b = []) /\
  (zlen (buffer_ b) < 2 ^ 32 -> exists cs, map c_entry cs = es /\ laid_out b cs).

Lemma shared_loop_ok a : forall k, let s := shared_loop a k in 0 <= s <= zlen a /\ s <= zlen k /\ ztake s a = ztake s k.
Proof.
  induction a as [|x a IH]; intros [|y k]; cbn [shared_loop]; rewrite ?zlen_cons; change (zlen (@nil Z)) with 0.
  - split_and!; try reflexivity; lia.
  - pose proof (zlen_nonneg k). split_and!; try reflexivity; lia.
  - pose proof (zlen_nonneg a). split_and!; try reflexivity; lia.
  - pose proof (zlen_nonneg a). pose proof (zlen_nonneg k). destruct (Z.eqb_spec x y) as [->|]; [|split_and!; try reflexivity; lia].
    destruct (IH k) as (H1 & H2 & H3). split_and!; try lia. unfold ztake in *.
    replace (Z.to_nat (1 + shared_loop a k)) with (S (Z.to_nat (shared_loop a k))) by lia. cbn. f_equal. exact H3.
Qed.

Lemma chained_snoc cs : forall prev c, chained prev cs -> c_shared c <= zlen (match last cs with Some d => c_key d | None => prev end) ->
  ztake (c_shared c) (match last cs with Some d => c_key d | None => prev end) = ztake (c_shared c) (c_key c) -> chained prev (cs ++ [c]).
Proof.
  induction cs as [|d cs IH]; intros prev c Hc Hl Ht; [cbn; auto|]. cbn [app chained] in *. destruct Hc as (H1 & H2 & H3). split_and!; auto.
  rewrite list.last_cons in Hl, Ht. apply IH; [exact H3| |]; destruct (last cs); assumption.
Qed.

Lemma last_key_cells cs : last_key_of (map c_entry cs) = match last cs with Some d => c_key d | None => [] end.
Proof. unfold last_key_of. change (map c_entry cs) with (c_entry <$> cs). rewrite fmap_last. destruct (last cs); reflexivity. Qed.

(** What an entry becomes, with or without what it shares. *)
Lemma well_placed_snoc cs R c : well_placed cs R -> cell_ok c -> (cs = [] -> c_shared c = 0) -> well_placed (cs ++ [c]) R.
Proof.
  intros (H1 & H2 & H3) Hc H0. split_and!; [exact H1|exact H2|]. intros r Hr. destruct (H3 r Hr) as (p & q & -> & <- & Hq). exists p, (q ++ [c]).
  split; [rewrite app_assoc; reflexivity|]. split; [reflexivity|]. destruct q as [|d q]; [subst p; apply H0; reflexivity|exact Hq].
Qed.

Lemma restart_before cs R r : Forall cell_ok cs -> well_placed cs R -> cs <> [] -> r ∈ R -> r < zlen (cells_bytes cs).
Proof.
  intros Hcs (_ & _ & H3) Hne Hr. destruct (H3 r Hr) as (p & q & -> & <- & Hq). destruct q as [|d q]; [subst p; contradiction|].
  apply Forall_app in Hcs as [_ Hq2]. apply List.Forall_cons_iff in Hq2 as [Hd _]. rewrite cells_bytes_app, cells_bytes_cons, !zlen_app.
  pose proof (cell_bytes_pos d Hd). pose proof (zlen_nonneg (cells_bytes q)). lia.
Qed.

Lemma well_placed_restart cs R c : Forall cell_ok cs -> well_placed cs R -> cs <> [] -> c_shared c = 0 -> well_placed (cs ++ [c]) (R ++ [zlen (cells_bytes cs)]).
Proof.
  intros Hcs HR Hne Hc. pose proof HR as (H1 & H2 & H3). split_and!.
  - destruct R; [discriminate|exact H1].
  - apply StronglySorted_app_2; [|exact H2|repeat constructor]. intros r x Hr Hx. apply list_elem_of_singleton in Hx as ->. exact (restart_before cs R r Hcs HR Hne Hr).
  - intros r Hr. apply elem_of_app in Hr as [Hr|Hr].
    + destruct (H3 r Hr) as (p & q & -> & <- & Hq). exists p, (q ++ [c]). split; [rewrite app_assoc; reflexivity|]. split; [reflexivity|].
      destruct q as [|d q]; [subst p; contradiction|exact Hq].
    + apply list_elem_of_singleton in Hr as ->. exists cs, [c]. auto.
Qed.

Lemma last_key_snoc es e : last_key_of (es ++ [e]) = fst e.
Proof. unfold last_key_of. rewrite last_snoc. reflexivity. Qed.

Lemma PutVarint32_eq dst v : PutVarint32 dst v = dst ++ EncodeVarint32 v.
Proof. reflexivity. Qed.

(** What [Add] writes is the cell of the entry. *)
Lemma Add_cell e b shared : entry_ok e -> 0 <= shared <= zlen (fst e) ->
  PutVarint32 (PutVarint32 (PutVarint32 (buffer_ b) (u32 shared)) (u32 (u64 (zlen (fst e) - shared)))) (u32 (zlen (snd e))) ++
    ztake (u64 (zlen (fst e) - shared)) (zdrop shared (fst e)) ++ snd e = buffer_ b ++ cell_bytes (mkCell shared e) /\
  ztake (u64 (zlen (fst e) - shared)) (zdrop shared (fst e)) = zdrop shared (fst e).
Proof.
  intros (Hk & Hv & Hlk & Hlv) Hs. pose proof (zlen_nonneg (snd e)). assert (E64 : u64 (zlen (fst e) - shared) = zlen (fst e) - shared) by (apply u64_small; lia).
  assert (Et : ztake (zlen (fst e) - shared) (zdrop shared (fst e)) = zdrop shared (fst e)) by (apply ztake_all_ge; rewrite zlen_zdrop; lia).
  rewrite E64, !PutVarint32_eq, Et, !u32_small by lia. split; [|reflexivity].
  unfold cell_bytes, cell_head, c_key, c_value. cbn [c_shared c_entry]. rewrite <- !app_assoc. reflexivity.
Qed.

Lemma Add_ok b es e : building b es -> entry_ok e -> (forall x, last es = Some x -> key_ok (fst x) /\ Compare (fst x) (fst e) < 0) -> key_ok (fst e) ->
  exists b', Builder_Add block_restart_interval (fst e) (snd e) b = Some b' /\ building b' (es ++ [e]).
Proof.
  intros (Ef & Hc & El & H0 & Hl) He Hlast Hk. unfold Builder_Add. rewrite Ef, (proj2 (Z.leb_le _ _)) by lia. cbn [negb].
  assert (Hord : empty b || (0 <? Compare (fst e) (last_key_ b)) = true).
  { destruct (last es) as [x|] eqn:Ex; [|apply last_None in Ex; destruct (H0 Ex) as [_ E]; unfold empty; rewrite E; reflexivity].
    rewrite El. unfold last_key_of. rewrite Ex. destruct (Hlast x eq_refl) as [Hx Hlt]. apply orb_true_iff. right. apply Z.ltb_lt. apply (Compare_sym (fst x) (fst e)); assumption. }
  rewrite Hord. cbn [negb].
  set (D := if counter_ b <? block_restart_interval then _ else _).
  assert (HD : exists shared restarts counter, D = (shared, restarts, counter) /\ 0 <= shared <= zlen (fst e) /\ ztake shared (last_key_ b) = ztake shared (fst e) /\
    shared <= zlen (last_key_ b) /\ 0 <= counter < block_restart_interval /\
    (zlen (buffer_ b) < 2 ^ 32 -> forall cs, map c_entry cs = es -> laid_out b cs -> cell_ok (mkCell shared e) -> well_placed (cs ++ [mkCell shared e]) restarts)).
  { unfold D. destruct (Z.ltb_spec (counter_ b) block_restart_interval) as [Hlt|Hge].
    - destruct (shared_loop_ok (last_key_ b) (fst e)) as (S1 & S2 & S3). eexists _, _, _. split; [reflexivity|]. split_and!; try lia; [exact S3|].
      intros _ cs E (_ & _ & Hw & _) Hcell. apply well_placed_snoc; [exact Hw|exact Hcell|]. intros ->. cbn in E. subst es. rewrite El. reflexivity.
    - eexists _, _, _. pose proof (zlen_nonneg (fst e)). pose proof (zlen_nonneg (last_key_ b)). split; [reflexivity|]. split_and!; try lia; [reflexivity|].
      intros Hb cs E (Hcs & _ & Hw & Eb) Hcell. pose proof (zlen_nonneg (buffer_ b)). rewrite u32_small, Eb by lia. apply well_placed_restart; [exact Hcs|exact Hw| |reflexivity].
      intros ->. cbn in E. subst es. destruct (H0 eq_refl). lia. }
  destruct HD as (shared & restarts & counter & -> & Hs & Hpre & Hsl & Hcnt & Hw). cbv zeta. destruct (Add_cell e b shared He Hs) as [-> ->].
  assert (Ek : ztake shared (last_key_ b) ++ zdrop shared (fst e) = fst e) by (rewrite Hpre; apply ztake_zdrop). rewrite Ek, bool_decide_true by reflexivity. cbn [negb].
  eexists. split; [reflexivity|]. split; [reflexivity|]. cbn [counter_ last_key_ buffer_]. split; [lia|]. split; [symmetry; apply last_key_snoc|].
  split; [intros E; destruct es; discriminate|]. rewrite zlen_app. pose proof (zlen_nonneg (cell_bytes (mkCell shared e))). intros Hsz.
  destruct (Hl ltac:(lia)) as (cs & Ecs & Hlay). assert (Hcell : cell_ok (mkCell shared e)) by (destruct He as (? & ? & ? & ?); unfold cell_ok, c_key, c_value; cbn [c_shared c_entry]; split_and!; auto; lia).
  exists (cs ++ [mkCell shared e]). split; [rewrite map_app, Ecs; reflexivity|]. pose proof Hlay as (Hcs & Hch & _ & Eb).
  split; [apply Forall_app; auto|]. split; [|split; [apply Hw; [lia|exact Ecs|exact Hlay|exact Hcell]|cbn [buffer_]; rewrite cells_bytes_app, Eb; cbn [cells_bytes map concat]; rewrite app_nil_r; reflexivity]].
  rewrite <- Ecs, last_key_cells in El. apply chained_snoc; [exact Hch| |]; cbn [c_shared c_key c_entry]; rewrite <- El; assumption.
Qed.

Lemma new_BlockBuilder_ok : exists b, new_BlockBuilder block_restart_interval = Some b /\ building b [].
Proof.
  unfold new_BlockBuilder. rewrite (proj2 (Z.leb_le _ _) Hinterval). eexists. split; [reflexivity|]. split; [reflexivity|]. split; [cbn; lia|]. split; [reflexivity|]. split; [auto|].
  intros _. exists []. split; [reflexivity|]. split; [constructor|]. split; [exact I|]. split; [|reflexivity]. split; [reflexivity|]. split; [repeat constructor|].
  intros r Hr. apply list_elem_of_singleton in Hr as ->. exists [], []. auto.
Qed.

Lemma add_entries_ok es : sorted_entries (KO := forward_order L) es -> Forall entry_ok es ->
  exists b, add_entries es (new_BlockBuilder block_restart_interval) = Some b /\ building b es.
Proof.
  induction es as [|e es IH] using rev_ind; intros Hs Hok; [apply new_BlockBuilder_ok|]. apply Forall_app in Hok as [Hok He]. apply List.Forall_cons_iff in He as [He _].
  destruct Hs as [Hs Hv]. pose proof Hs as Hss. apply Forall_app in Hv as [Hv Hve]. apply List.Forall_cons_iff in Hve as [Hve _]. apply StronglySorted_app in Hs as (Hlt & Hs & _).
  destruct (IH (conj Hs Hv) Hok) as (b & E & Hb). unfold add_entries in *. rewrite foldl_app, E. cbn [foldl mbind option_bind].
  apply Add_ok; [exact Hb|exact He| |exact Hve]. intros x Hx. assert (Hin : x ∈ es) by (apply last_Some in Hx as (l & ->); apply elem_of_app; right; apply list_elem_of_singleton; reflexivity).
  split; [rewrite Forall_forall in Hv; exact (Hv x Hin)|]. apply (Hlt x e Hin), list_elem_of_singleton. reflexivity.
Qed.

Lemma Finish_ok b : zlen (fst (Finish b)) = zlen (buffer_ b) + 4 * zlen (restart_list_ b) + 4 /\
  (zlen (restart_list_ b) < 2 ^ 32 -> forall cs, buffer_ b = cells_bytes cs -> fst (Finish b) = block_data cs (restart_list_ b)).
Proof.
  unfold Finish. cbn [fst]. unfold PutFixed32 at 1 3. rewrite foldl_PutFixed32. split; [rewrite !zlen_app, zlen_fixed, zlen_EncodeFixed32; lia|].
  intros Hl cs Eb. pose proof (zlen_nonneg (restart_list_ b)). unfold block_data. rewrite u32_small, Eb, <- app_assoc by lia. reflexivity.
Qed.

(** The size that is estimated while a block is built is the size it will have. *)
Lemma CurrentSizeEstimate_Finish b : zlen (fst (Finish b)) < 2 ^ 64 -> CurrentSizeEstimate b = zlen (fst (Finish b)).
Proof.
  destruct (Finish_ok b) as [-> _]. intros Hl. unfold CurrentSizeEstimate. pose proof (zlen_nonneg (buffer_ b)). pose proof (zlen_nonneg (restart_list_ b)). rewrite u64_small; lia.
Qed.

Lemma data_NumRestarts cs R : 1 <= zlen R < 2 ^ 32 -> NumRestarts (block_data cs R) (zlen (block_data cs R)) = zlen R.
Proof.
  intros HR. unfold NumRestarts, block_data. rewrite app_assoc. set (a := cells_bytes cs ++ _). rewrite zlen_app, zlen_EncodeFixed32. replace (zlen a + 4 - 4) with (zlen a) by lia.
  rewrite zdrop_app. rewrite <- (app_nil_r (EncodeFixed32 (zlen R))). apply DecodeFixed32_Encode; [lia|constructor].
Qed.

Lemma NewIterator_ok cs R : zlen (block_data cs R) < 2 ^ 32 -> 1 <= zlen R ->
  exists it, Block_NewIterator (new_Block (block_data cs R)) = Some (inr it) /\ off_block cs R it.
Proof.
  intros Hsz HR. pose proof (zlen_block_data cs R) as Ez. pose proof (zlen_nonneg (cells_bytes cs)). assert (En := data_NumRestarts cs R ltac:(lia)).
  unfold new_Block. cbv zeta. rewrite En. destruct (Z.ltb_spec (zlen (block_data cs R)) 4); [lia|]. destruct (Z.ltb_spec ((zlen (block_data cs R) - 4) / 4) (zlen R)); [dlia|].
  unfold Block_NewIterator. cbn [size_ contents_ restart_offset_]. rewrite En. destruct (Z.ltb_spec (zlen (block_data cs R)) 4); [lia|]. destruct (Z.eqb_spec (zlen R) 0); [lia|].
  unfold new_BlockIter. rewrite (proj2 (Z.ltb_lt _ _)) by lia. cbn [mbind option_bind]. eexists. split; [reflexivity|].
  rewrite (u32_small (1 + zlen R)) by lia. replace (zlen (block_data cs R) - (1 + zlen R) * 4) with (zlen (cells_bytes cs)) by lia. rewrite u32_small by lia. split; [split_and!; reflexivity|reflexivity].
Qed.
(** What a builder has finished is read back. *)
Lemma building_iterates b es : building b es -> sorted_entries (KO := forward_order L) es -> zlen (fst (Finish b)) < 2 ^ 32 ->
  exists it pos, Block_NewIterator (new_Block (fst (Finish b))) = Some (inr it) /\ pos it Off /\ Iterates BlockIter_Iterator Compare key_ok es pos.
Proof.
  intros Hb Hs Hsz. destruct (Finish_ok b) as [Ez Ef]. pose proof (zlen_nonneg (buffer_ b)). pose proof (zlen_nonneg (restart_list_ b)).
  destruct Hb as (_ & _ & _ & _ & Hl). destruct (Hl ltac:(lia)) as (cs & Ecs & Hcs & Hch & (H1 & H2 & H3) & Eb). specialize (Ef ltac:(lia) cs Eb). rewrite Ef in *.
  destruct (NewIterator_ok cs (restart_list_ b) Hsz) as (it & Eit & Hoff); [destruct (restart_list_ b) as [|x l]; [discriminate|rewrite zlen_cons; pose proof (zlen_nonneg l); lia]|].
  exists it, (bpos cs (restart_list_ b)). split; [exact Eit|]. split; [exact Hoff|]. rewrite <- Ecs in Hs |- *. apply Block_iterates; assumption.
Qed.

(** An entry takes its key and its value, three lengths and perhaps a restart point. *)
Lemma Add_size key value b b' : Builder_Add block_restart_interval key value b = Some b' ->
  empty b' = false /\ zlen (fst (Finish b')) <= zlen (fst (Finish b)) + zlen key + zlen value + 19.
Proof.
  unfold Builder_Add. destruct (finished_ b); [discriminate|]. destruct (negb (counter_ b <=? block_restart_interval)); [discriminate|]. destruct (negb _); [discriminate|].
  set (D := if counter_ b <? block_restart_interval then _ else _).
  assert (HD : exists shared restarts counter, D = (shared, restarts, counter) /\ 0 <= shared <= zlen key /\ zlen restarts <= zlen (restart_list_ b) + 1).
  { pose proof (zlen_nonneg key). unfold D. destruct (counter_ b <? block_restart_interval).
    - destruct (shared_loop_ok (last_key_ b) key) as (S1 & S2 & _). eexists _, _, _. split; [reflexivity|]. lia.
    - eexists _, _, _. split; [reflexivity|]. rewrite zlen_app. change (zlen [_]) with 1. lia. }
  destruct HD as (shared & restarts & counter & -> & Hs & Hr). cbv zeta. destruct (negb (bool_decide _)); [discriminate|]. intros E. injection E as <-.
  rewrite !(proj1 (Finish_ok _)). cbn [buffer_ restart_list_]. rewrite !PutVarint32_eq.
  assert (V : forall v, 1 <= zlen (EncodeVarint32 (u32 v)) <= 5) by (intros v; destruct (zlen_EncodeVarint32 (u32 v) ltac:(unfold u32; apply Z.mod_pos_bound; lia)) as [-> ?]; lia).
  pose proof (V shared). pose proof (V (u64 (zlen key - shared))). pose proof (V (zlen value)).
  assert (Ht : zlen (ztake (u64 (zlen key - shared)) (zdrop shared key)) <= zlen (zdrop shared key)) by (unfold zlen, ztake; rewrite length_take; lia). rewrite (zlen_zdrop shared) in Ht by lia. split.
  - unfold empty. cbn [buffer_]. destruct (EncodeVarint32 (u32 shared)) as [|x l]; [change (zlen []) with 0 in *; lia|]. destruct (buffer_ b); reflexivity.
  - rewrite !zlen_app. lia.
Qed.

Lemma new_BlockBuilder_size b : zlen (fst (Finish (Reset b))) = 8.
Proof. rewrite (proj1 (Finish_ok _)). reflexivity. Qed.
End Writing.

(** C8: a block gives back the entries it was built from.  For any restart interval of
    1 or more, let entries with increasing keys be added to a new [BlockBuilder], one
    [Add] each: no assertion fails.  If the contents [Finish] returns have less than
    2^32 bytes, then the iterator of the [Block] made of them keeps the promise of
    the interface over just these entries: [SeekToFirst], [SeekToLast], [Seek] (a
    binary search over the restart points, then a linear one), [Next] and [Prev]
    (back to a restart point, then forward again) go where they should, the keys are
    whole again, and no read is outside of the block. *)
Theorem block_returns_its_entries (P : Port) (C : Comparator) (L : ComparatorLaws C) (interval : Z) (es : list entry) :
  1 <= interval -> sorted_entries (KO := forward_order L) es -> Forall entry_ok es ->
  exists b, add_entries interval es (new_BlockBuilder interval) = Some b /\
    (zlen (fst (Finish b)) < 2 ^ 32 ->
      exists it pos, Block_NewIterator (new_Block (fst (Finish b))) = Some (inr it) /\ pos it Off /\ Iterates BlockIter_Iterator Compare key_ok es pos).
Proof.
  intros Hi Hs Hok. destruct (add_entries_ok interval Hi es Hs Hok) as (b & E & Hb). exists b. split; [exact E|]. intros Hsz.
  apply (building_iterates interval); assumption.
Qed.

(** * Examples *)

Section Example.
#[local] Existing Instances BytewiseComparator BytewiseLaws little BlockIter_Iterator.

Definition some_entries : list entry := [([1; 2], [10]); ([1; 2; 3], []); ([1; 4], [30; 31]); ([2], [40])].

Lemma block_returns_its_entries_witness : exists b it i1 i2 i3,
  add_entries 2 some_entries (new_BlockBuilder 2) = Some b /\ restart_list_ b = [0; 10] /\
  Block_NewIterator (new_Block (fst (Finish b))) = Some (inr it) /\
  it_Seek [1; 3] it = Some i1 /\ it_key i1 = Some [1; 4] /\ it_value i1 = Some [30; 31] /\
  it_Prev i1 = Some i2 /\ it_key i2 = Some [1; 2; 3] /\ it_value i2 = Some [] /\ it_SeekToLast i2 = Some i3 /\ it_key i3 = Some [2].
Proof.
  destruct (block_returns_its_entries little BytewiseComparator BytewiseLaws 2 some_entries) as (b & E & Hb).
  - lia.
  - small_sorted.
  - unfold entry_ok, bytes_ok, byte_ok. repeat constructor; vm_compute; congruence.
  - assert (Eb := E). vm_compute in Eb. injection Eb as <-. destruct Hb as (it & pos & Eit & Ho & Hit); [vm_compute; reflexivity|].
    destruct (@pos_Seek _ _ _ _ _ _ Hit _ _ [1; 3] Ho) as (i1 & E1 & P1); [repeat constructor; unfold byte_ok; vm_compute; congruence|].
    vm_compute in P1. destruct (@pos_at _ _ _ _ _ _ Hit _ _ _ _ P1) as (_ & _ & K1 & V1).
    destruct (@pos_Prev _ _ _ _ _ _ Hit _ _ _ _ P1) as (i2 & E2 & P2). vm_compute in P2. destruct (@pos_at _ _ _ _ _ _ Hit _ _ _ _ P2) as (_ & _ & K2 & V2).
    destruct (@pos_SeekToLast _ _ _ _ _ _ Hit _ _ P2) as (i3 & E3 & P3). vm_compute in P3. destruct (@pos_at _ _ _ _ _ _ Hit _ _ _ _ P3) as (_ & _ & K3 & _).
    eexists _, it, i1, i2, i3. split; [exact E|]. split_and!; assumption || reflexivity.
Defined.

(** A block whose first entry says that its key has 2^32 - 1 bytes and its value one. *)
Definition bad_block : Block := new_Block ([0] ++ EncodeVarint32 (2 ^ 32 - 1) ++ EncodeVarint32 1 ++ [1; 2; 3] ++ EncodeFixed32 0 ++ EncodeFixed32 1).

(** The sum of the two wraps to zero, the check lets it pass, and the key is read from
    beyond the end of the block. *)
Example bad_block_is_read_outside : exists it, Block_NewIterator bad_block = Some (inr it) /\ Block_SeekToFirst it = None.
Proof. eexists. split; [reflexivity|vm_compute; reflexivity]. Qed.

(** When the sum does not wrap, the entry is reported as corrupted. *)
Example bad_entry_is_reported : exists it it', 
  Block_NewIterator (new_Block ([0] ++ EncodeVarint32 1000 ++ EncodeVarint32 1 ++ [1; 2; 3] ++ EncodeFixed32 0 ++ EncodeFixed32 1)) = Some (inr it) /\
  Block_SeekToFirst it = Some it' /\ Block_Valid it' = false /\ block_status_ it' = CorruptionStatus "bad entry in block".
Proof. eexists _, _. split; [reflexivity|split; [vm_compute; reflexivity|split; reflexivity]]. Qed.
End Example.
