(* ===== verification/LdbTwoLevel.v ===== *)
(** leveldb/table/two_level_iterator.cc: an iterator of an index, whose values say where
    blocks are, and of the blocks it leads to.

    It is the iterator of the entries of all blocks, one block after another: what is
    proved of the index and of each block alone carries over to the whole. *)
From Stdlib Require Import ZArith Lia Strings.String.
From Stdlib Require Sorted.
From stdpp Require Import base list numbers option sorting.
From S2P Require Import Prelude LdbCoding LdbLog LdbFormat LdbSkip LdbBatch LdbIter LdbMerge.

Open Scope Z_scope.

(** * The code *)

Section Code.
Context {I D : Type} {IT : Iterator I} {DT : Iterator D} (block_function : list Z -> option D) (fuel : nat).
#[local] Existing Instance Wrapper_Iterator.

Record TwoLevelIterator := mkTwoLevel {
  two_status_ : Status;
  index_iter_ : IteratorWrapper I;
  data_iter_ : option (IteratorWrapper D);
  data_block_handle_ : list Z }.
Implicit Types (t : TwoLevelIterator).

Definition set_index (w : IteratorWrapper I) t : TwoLevelIterator := mkTwoLevel (two_status_ t) w (data_iter_ t) (data_block_handle_ t).
Definition set_data (w : option (IteratorWrapper D)) t : TwoLevelIterator := mkTwoLevel (two_status_ t) (index_iter_ t) w (data_block_handle_ t).
Definition set_handle (h : list Z) t : TwoLevelIterator := mkTwoLevel (two_status_ t) (index_iter_ t) (data_iter_ t) h.

Definition new_TwoLevelIterator (index_iter : I) : option TwoLevelIterator := w ← Set_ index_iter; Some (mkTwoLevel OK w None []).

Definition SaveError (s : Status) t : TwoLevelIterator :=
  if status_ok (two_status_ t) && negb (status_ok s) then mkTwoLevel s (index_iter_ t) (data_iter_ t) (data_block_handle_ t) else t.

Definition SetDataIterator (data_iter : option D) t : option TwoLevelIterator :=
  let t := match data_iter_ t with Some w => SaveError (it_status w) t | None => t end in
  match data_iter with
  | None => Some (set_data None t)
  | Some i => w ← Set_ i; Some (set_data (Some w) t)
  end.

Definition same_block (handle : list Z) t : bool := match data_iter_ t with Some _ => bool_decide (handle = data_block_handle_ t) | None => false end.

Definition InitDataBlock t : option TwoLevelIterator :=
  if it_Valid (index_iter_ t) then
    handle ← it_value (index_iter_ t);
    if same_block handle t then Some t else iter ← block_function handle; SetDataIterator (Some iter) (set_handle handle t)
  else SetDataIterator None t.

Definition data_Valid t : bool := match data_iter_ t with Some w => it_Valid w | None => false end.

(** A move of the index and then one of the block it leads to, if any. *)
Definition move_index (f : IteratorWrapper I -> option (IteratorWrapper I)) t : option TwoLevelIterator := w ← f (index_iter_ t); Some (set_index w t).
Definition move_data (f : IteratorWrapper D -> option (IteratorWrapper D)) t : option TwoLevelIterator :=
  match data_iter_ t with Some w => w ← f w; Some (set_data (Some w) t) | None => Some t end.
Definition enter (f : IteratorWrapper I -> option (IteratorWrapper I)) (g : IteratorWrapper D -> option (IteratorWrapper D)) t : option TwoLevelIterator :=
  t ← move_index f t; t ← InitDataBlock t; move_data g t.

(** The loops of [SkipEmptyDataBlocksForward] and [SkipEmptyDataBlocksBackward]. *)
Fixpoint skip_loop (fuel : nat) (f : IteratorWrapper I -> option (IteratorWrapper I)) (g : IteratorWrapper D -> option (IteratorWrapper D)) t : option TwoLevelIterator :=
  match fuel with
  | O => None
  | S fuel =>
    if data_Valid t then Some t
    else if it_Valid (index_iter_ t) then t ← enter f g t; skip_loop fuel f g t
    else SetDataIterator None t
  end.

Definition SkipEmptyDataBlocksForward : TwoLevelIterator -> option TwoLevelIterator := skip_loop fuel it_Next it_SeekToFirst.
Definition SkipEmptyDataBlocksBackward : TwoLevelIterator -> option TwoLevelIterator := skip_loop fuel it_Prev it_SeekToLast.

Definition Two_Seek (target : list Z) t : option TwoLevelIterator := t ← enter (it_Seek target) (it_Seek target) t; SkipEmptyDataBlocksForward t.
Definition Two_SeekToFirst t : option TwoLevelIterator := t ← enter it_SeekToFirst it_SeekToFirst t; SkipEmptyDataBlocksForward t.
Definition Two_SeekToLast t : option TwoLevelIterator := t ← enter it_SeekToLast it_SeekToLast t; SkipEmptyDataBlocksBackward t.

(** [None] is a failed assertion, also where the wrapper has no iterator. *)
Definition Two_Next t : option TwoLevelIterator :=
  if data_Valid t then t ← move_data it_Next t; SkipEmptyDataBlocksForward t else None.
Definition Two_Prev t : option TwoLevelIterator :=
  if data_Valid t then t ← move_data it_Prev t; SkipEmptyDataBlocksBackward t else None.
Definition Two_key t : option (list Z) := w ← data_iter_ t; it_key w.
Definition Two_value t : option (list Z) := w ← data_iter_ t; it_value w.

Definition Two_status t : Status :=
  if negb (status_ok (it_status (index_iter_ t))) then it_status (index_iter_ t)
  else match data_iter_ t with
       | Some w => if negb (status_ok (it_status w)) then it_status w else two_status_ t
       | None => two_status_ t
       end.

Definition TwoLevel_Iterator : Iterator TwoLevelIterator := {|
  it_Valid := data_Valid;
  it_SeekToFirst := Two_SeekToFirst;
  it_SeekToLast := Two_SeekToLast;
  it_Seek := Two_Seek;
  it_Next := Two_Next;
  it_Prev := Two_Prev;
  it_key := Two_key;
  it_value := Two_value;
  it_status := Two_status |}.
End Code.
Arguments TwoLevelIterator : clear implicits.

(** * The blocks in a row *)

(** A wrapper makes the promise of what it wraps. *)
Section Wrapped.
Context {C : Comparator} {I : Type} {IT : Iterator I} {target_ok : list Z -> Prop} (es : list entry) (pos : I -> cursor -> Prop) (IL : Iterates IT Compare target_ok es pos).

Definition wrapped : IteratorWrapper I -> cursor -> Prop := wpos (fun _ => pos) 0.

Lemma wrapped_iterates : Iterates Wrapper_Iterator Compare target_ok es wrapped.
Proof. apply (wrapper_iterates 1 (fun _ => es) (fun _ => pos) (fun _ _ => IL) 0). lia. Qed.

Lemma Set_wrapped i c : pos i c -> exists w, Set_ i = Some w /\ wrapped w c.
Proof. intros Hp. apply (Update_ok 1 (fun _ => es) (fun _ => pos) (fun _ _ => IL) 0 i c []); [lia|exact Hp]. Qed.
End Wrapped.

Lemma scan_split p es : exists a b, es = a ++ b /\ Forall (fun e => p e = false) a /\ match b with [] => True | e :: _ => p e = true end /\ scan p [] es = ahead (rev a) b.
Proof.
  assert (E : exists a b, es = a ++ b /\ Forall (fun e => p e = false) a /\ match b with [] => True | e :: _ => p e = true end).
  { induction es as [|e es (a & b & -> & Ha & Hb)]; [exists [], []; auto|]. destruct (p e) eqn:Ep; [exists [], (e :: a ++ b); auto|]. exists (e :: a), b. split_and!; auto. }
  destruct E as (a & b & -> & Ha & Hb). exists a, b. split_and!; auto. rewrite scan_app, app_nil_r by exact Ha. apply scan_ahead, Hb.
Qed.

Section Rows.
Context {C : Comparator} {L : ComparatorLaws C} {I D : Type} {IT : Iterator I} {DT : Iterator D} {target_ok : list Z -> Prop}.
Context (block_function : list Z -> option D) (fuel : nat).
Context (ies : list entry) (ip : I -> cursor -> Prop) (block : list Z -> list entry) (dp : list Z -> D -> cursor -> Prop).
Context (II : Iterates IT Compare target_ok ies ip).
Context (DI : forall ie, ie ∈ ies -> Iterates DT Compare target_ok (block (snd ie)) (dp (snd ie))).
Context (Hblock : forall ie, ie ∈ ies -> exists d, block_function (snd ie) = Some d /\ dp (snd ie) d Off).
Context (Hfuel : (length ies + 1 < fuel)%nat).
#[local] Existing Instance Wrapper_Iterator.
Abbreviation Two := (TwoLevelIterator I D).
Implicit Types (t : Two) (ib ia b a : list entry) (ie e : entry).

Definition flat ia : list entry := concat (map (fun ie => block (snd ie)) ia).
Definition flatr ib : list entry := rev (flat (rev ib)).

Lemma flat_app a b : flat (a ++ b) = flat a ++ flat b.
Proof. unfold flat. rewrite map_app, concat_app. reflexivity. Qed.

Lemma flatr_cons ie ib : flatr (ie :: ib) = rev (block (snd ie)) ++ flatr ib.
Proof. unfold flatr. cbn [rev]. rewrite flat_app, rev_app_distr. cbn [flat map concat]. rewrite app_nil_r. reflexivity. Qed.

Lemma flat_whole ib ie ia b a : rev ib ++ ie :: ia = ies -> rev b ++ a = block (snd ie) -> rev (b ++ flatr ib) ++ a ++ flat ia = flat ies.
Proof. intros <- E. unfold flatr. rewrite rev_app_distr, rev_involutive, <- app_assoc, (app_assoc (rev b)), E, flat_app. reflexivity. Qed.

Lemma at_in ib ie ia : rev ib ++ ie :: ia = ies -> ie ∈ ies.
Proof. intros <-. apply elem_of_app. right. apply elem_of_cons. auto. Qed.

Abbreviation index_at := (wrapped ip).
Abbreviation block_at ie := (wrapped (dp (snd ie))).
Abbreviation IW := (wrapped_iterates ies ip II).
Abbreviation DW ie H := (wrapped_iterates (block (snd ie)) (dp (snd ie)) (DI ie H)).

(** At all times the index is somewhere, and so is the block of the handle, if any. *)
Definition two_ok t : Prop := two_status_ t = OK /\ (exists c, index_at (index_iter_ t) c) /\
  match data_iter_ t with Some w => exists ie c, ie ∈ ies /\ data_block_handle_ t = snd ie /\ block_at ie w c | None => True end.

(** The index is at [ie], and its block where [c] says. *)
Definition in_block t ib ie ia c : Prop := two_status_ t = OK /\ rev ib ++ ie :: ia = ies /\ index_at (index_iter_ t) (At ib ie ia) /\ data_block_handle_ t = snd ie /\
  exists w, data_iter_ t = Some w /\ block_at ie w c.

Definition off_blocks t : Prop := two_ok t /\ data_iter_ t = None.

Definition two_pos t (c : cursor) : Prop :=
  match c with
  | Off => off_blocks t
  | At before e after => exists ib ie ia b a, before = b ++ flatr ib /\ after = a ++ flat ia /\ in_block t ib ie ia (At b e a)
  end.

Lemma in_block_ok t ib ie ia c : in_block t ib ie ia c -> two_ok t.
Proof. intros (H1 & H2 & H3 & H4 & w & Ew & Hw). split; [exact H1|]. split; [eauto|]. rewrite Ew. exists ie, c. split; [exact (at_in _ _ _ H2)|auto]. Qed.

Lemma two_pos_ok t c : two_pos t c -> two_ok t.
Proof. destruct c as [|b e a]; [intros [H _]; exact H|]. intros (ib & ie & ia & b' & a' & _ & _ & H). exact (in_block_ok _ _ _ _ _ H). Qed.

Lemma SetDataIterator_None t : two_ok t -> exists t', SetDataIterator None t = Some t' /\ off_blocks t' /\ index_iter_ t' = index_iter_ t.
Proof.
  intros (H1 & H2 & H3). unfold SetDataIterator.
  assert (E : match data_iter_ t with Some w => SaveError (it_status w) t | None => t end = t).
  { destruct (data_iter_ t) as [w|]; [|reflexivity]. destruct H3 as (ie & c & Hie & _ & Hw). rewrite (pos_status (Iterates := DW ie Hie) _ _ Hw).
    unfold SaveError. cbn [status_ok negb]. rewrite andb_false_r. reflexivity. }
  cbv zeta. rewrite E. eexists. split; [reflexivity|]. split; [split; [split; [exact H1|split; [exact H2|exact Logic.I]]|reflexivity]|reflexivity].
Qed.

(** Coming to an entry of the index, its block is there, from before or made anew. *)
Lemma InitDataBlock_at t ib ie ia : two_ok t -> index_at (index_iter_ t) (At ib ie ia) -> exists t' c, InitDataBlock block_function t = Some t' /\ in_block t' ib ie ia c.
Proof.
  intros (H1 & H2 & H3) Hi. destruct (pos_at (Iterates := IW) _ _ _ _ Hi) as (E & Hv & _ & Hval). unfold InitDataBlock. rewrite Hv, Hval. cbn [mbind option_bind].
  unfold same_block. pose proof (at_in _ _ _ E) as Hie. destruct (data_iter_ t) as [w|] eqn:Ew.
  - destruct H3 as (ie' & c & Hie' & Eh & Hw). destruct (bool_decide (snd ie = data_block_handle_ t)) eqn:Eb.
    + apply bool_decide_eq_true in Eb. rewrite <- Eb in Eh. exists t, c. split; [reflexivity|]. split_and!; auto. exists w. rewrite Eh. auto.
    + destruct (Hblock ie Hie) as (d & -> & Hd). cbn [mbind option_bind]. unfold SetDataIterator. cbn [set_handle data_iter_]. rewrite Ew.
      rewrite (pos_status (Iterates := DW ie' Hie') _ _ Hw). unfold SaveError. cbn [status_ok negb]. rewrite andb_false_r.
      destruct (Set_wrapped (block (snd ie)) (dp (snd ie)) (DI ie Hie) d Off Hd) as (w' & -> & Hw'). cbn [mbind option_bind].
      eexists _, Off. split; [reflexivity|]. split_and!; auto. exists w'. auto.
  - destruct (Hblock ie Hie) as (d & -> & Hd). cbn [mbind option_bind]. unfold SetDataIterator. cbn [set_handle data_iter_]. rewrite Ew.
    destruct (Set_wrapped (block (snd ie)) (dp (snd ie)) (DI ie Hie) d Off Hd) as (w' & -> & Hw'). cbn [mbind option_bind].
    eexists _, Off. split; [reflexivity|]. split_and!; auto. exists w'. auto.
Qed.

(** [enter] leads to a place in the block the index comes to. *)
Lemma enter_ok t f g ci (cd : entry -> cursor) : two_ok t ->
  (exists w, f (index_iter_ t) = Some w /\ index_at w ci) ->
  (forall ie w c, ie ∈ ies -> block_at ie w c -> exists w', g w = Some w' /\ block_at ie w' (cd ie)) ->
  exists t', enter block_function f g t = Some t' /\ match ci with Off => off_blocks t' /\ index_at (index_iter_ t') Off | At ib ie ia => in_block t' ib ie ia (cd ie) end.
Proof.
  intros Ht (w & Ef & Hw) Hg. pose proof Ht as (H1 & _ & H3). unfold enter, move_index. rewrite Ef. cbn [mbind option_bind].
  assert (Ht1 : two_ok (set_index w t)) by (split; [exact H1|split; [exists ci; exact Hw|exact H3]]). destruct ci as [|ib ie ia].
  - unfold InitDataBlock. cbn [set_index index_iter_]. rewrite (pos_off (Iterates := IW) _ Hw). destruct (SetDataIterator_None _ Ht1) as (t' & -> & Ho & Ei). cbn [mbind option_bind].
    exists t'. unfold move_data. pose proof Ho as [_ ->]. split; [reflexivity|]. split; [exact Ho|]. rewrite Ei. exact Hw.
  - destruct (InitDataBlock_at _ ib ie ia Ht1 Hw) as (t' & c' & -> & (K1 & K2 & K3 & K4 & w1 & Ew1 & K5)). cbn [mbind option_bind].
    unfold move_data. rewrite Ew1. destruct (Hg ie w1 c' (at_in _ _ _ K2) K5) as (w2 & -> & Hw2). cbn [mbind option_bind].
    eexists. split; [reflexivity|]. split_and!; auto. exists w2. auto.
Qed.

Lemma in_block_Valid t ib ie ia c : in_block t ib ie ia c -> data_Valid t = match c with Off => false | At _ _ _ => true end.
Proof.
  intros (_ & H2 & _ & _ & w & Ew & Hw). unfold data_Valid. rewrite Ew. pose proof (DW ie (at_in _ _ _ H2)) as Hit. destruct c as [|b e a]; [apply (pos_off _ Hw)|].
  destruct (pos_at _ _ _ _ Hw) as (_ & Hv & _). exact Hv.
Qed.

(** Off the index, what is skipped ends. *)
Lemma skip_off n f g t : off_blocks t -> index_at (index_iter_ t) Off -> exists t', skip_loop block_function (S n) f g t = Some t' /\ off_blocks t'.
Proof.
  intros [Ht Ed] Hi. cbn [skip_loop]. unfold data_Valid. rewrite Ed, (pos_off (Iterates := IW) _ Hi). destruct (SetDataIterator_None t Ht) as (t' & -> & Ho & _). eauto.
Qed.

Lemma skip_forward ia : forall ib ie t b a n, in_block t ib ie ia (ahead b a) -> rev b ++ a = block (snd ie) -> (length ia + 1 < n)%nat ->
  exists t', skip_loop block_function n it_Next it_SeekToFirst t = Some t' /\ two_pos t' (ahead (b ++ flatr ib) (a ++ flat ia)).
Proof.
  induction ia as [|ie' ia IH]; intros ib ie t b a n Ht Eb Hn; (destruct n as [|n]; [cbn in Hn; lia|]); cbn [skip_loop]; rewrite (in_block_Valid _ _ _ _ _ Ht);
    (destruct a as [|e a]; cbn [ahead] in *; [|exists t; split; [reflexivity|]; exists ib, ie; eexists _, b, a; split_and!; auto; exact Ht]).
  all: pose proof Ht as (_ & Ei & Hi & _); destruct (pos_at (Iterates := IW) _ _ _ _ Hi) as (_ & -> & _); rewrite app_nil_r in Eb.
  all: destruct (enter_ok t it_Next it_SeekToFirst _ (fun ie => ahead [] (block (snd ie))) (in_block_ok _ _ _ _ _ Ht) (pos_Next (Iterates := IW) _ _ _ _ Hi)) as (t' & -> & Ht');
    [intros x w c Hx Hw; exact (pos_SeekToFirst (Iterates := DW x Hx) _ _ Hw)|]; cbn [mbind option_bind].
  - destruct Ht' as [Ho Hoff]. destruct n as [|n]; [cbn in Hn; lia|]. exact (skip_off n _ _ t' Ho Hoff).
  - destruct (IH (ie :: ib) ie' t' [] (block (snd ie')) n Ht' eq_refl) as (t2 & -> & H2); [cbn in Hn; lia|]. exists t2. split; [reflexivity|].
    rewrite flatr_cons, <- Eb, rev_involutive in H2. exact H2.
Qed.

Lemma skip_backward ib : forall ie ia t b a n, in_block t ib ie ia (behind b a) -> rev b ++ a = block (snd ie) -> (length ib + 1 < n)%nat ->
  exists t', skip_loop block_function n it_Prev it_SeekToLast t = Some t' /\ two_pos t' (behind (b ++ flatr ib) (a ++ flat ia)).
Proof.
  induction ib as [|ie' ib IH]; intros ie ia t b a n Ht Eb Hn; (destruct n as [|n]; [cbn in Hn; lia|]); cbn [skip_loop]; rewrite (in_block_Valid _ _ _ _ _ Ht);
    (destruct b as [|e b]; cbn [behind] in *; [|exists t; split; [reflexivity|]; eexists _, ie, ia, b, a; split_and!; auto; exact Ht]).
  all: pose proof Ht as (_ & Ei & Hi & _); destruct (pos_at (Iterates := IW) _ _ _ _ Hi) as (_ & -> & _); cbn [rev app] in Eb.
  all: destruct (enter_ok t it_Prev it_SeekToLast _ (fun ie => behind (rev (block (snd ie))) []) (in_block_ok _ _ _ _ _ Ht) (pos_Prev (Iterates := IW) _ _ _ _ Hi)) as (t' & -> & Ht');
    [intros x w c Hx Hw; exact (pos_SeekToLast (Iterates := DW x Hx) _ _ Hw)|]; cbn [mbind option_bind].
  - destruct Ht' as [Ho Hoff]. destruct n as [|n]; [cbn in Hn; lia|]. exact (skip_off n _ _ t' Ho Hoff).
  - destruct (IH ie' (ie :: ia) t' (rev (block (snd ie'))) [] n Ht') as (t2 & -> & H2); [rewrite rev_involutive; apply app_nil_r|cbn in Hn; lia|]. exists t2. split; [reflexivity|].
    rewrite flatr_cons, Eb. exact H2.
Qed.

Lemma index_length ib ie ia : rev ib ++ ie :: ia = ies -> (length ib + 1 < fuel)%nat /\ (length ia + 1 < fuel)%nat.
Proof. intros E. pose proof Hfuel as Hf. rewrite <- E, length_app, length_rev in Hf. cbn in Hf. lia. Qed.

Lemma Two_SeekToFirst_ok t c : two_pos t c -> exists t', Two_SeekToFirst block_function fuel t = Some t' /\ two_pos t' (ahead [] (flat ies)).
Proof.
  intros Hp. pose proof (two_pos_ok t c Hp) as Ht. pose proof Ht as (_ & (ci & Hci) & _). unfold Two_SeekToFirst.
  destruct (enter_ok t it_SeekToFirst it_SeekToFirst _ (fun ie => ahead [] (block (snd ie))) Ht (pos_SeekToFirst (Iterates := IW) _ _ Hci)) as (t' & -> & Ht');
    [intros x w c' Hx Hw; exact (pos_SeekToFirst (Iterates := DW x Hx) _ _ Hw)|]. cbn [mbind option_bind]. unfold SkipEmptyDataBlocksForward.
  assert (El : exists l, l = ies) by eauto. destruct El as [l El]. rewrite <- El in Ht' |- *. destruct l as [|ie ia]; cbn [ahead] in Ht'.
  - destruct Ht' as [Ho Hoff]. pose proof Hfuel as Hf. destruct fuel as [|n]; [lia|]. exact (skip_off n _ _ t' Ho Hoff).
  - apply (skip_forward ia [] ie t' [] (block (snd ie)) fuel Ht' eq_refl). rewrite <- El in Hfuel. cbn in Hfuel. lia.
Qed.

Lemma Two_SeekToLast_ok t c : two_pos t c -> exists t', Two_SeekToLast block_function fuel t = Some t' /\ two_pos t' (behind (rev (flat ies)) []).
Proof.
  intros Hp. pose proof (two_pos_ok t c Hp) as Ht. pose proof Ht as (_ & (ci & Hci) & _). unfold Two_SeekToLast.
  destruct (enter_ok t it_SeekToLast it_SeekToLast _ (fun ie => behind (rev (block (snd ie))) []) Ht (pos_SeekToLast (Iterates := IW) _ _ Hci)) as (t' & -> & Ht');
    [intros x w c' Hx Hw; exact (pos_SeekToLast (Iterates := DW x Hx) _ _ Hw)|]. cbn [mbind option_bind]. unfold SkipEmptyDataBlocksBackward.
  assert (El : exists l, l = rev ies) by eauto. destruct El as [l El]. assert (Ef : rev (flat ies) = flatr l) by (unfold flatr; rewrite El, rev_involutive; reflexivity).
  rewrite <- El in Ht'. rewrite Ef. destruct l as [|ie ib]; cbn [behind] in Ht'.
  - destruct Ht' as [Ho Hoff]. pose proof Hfuel as Hf. destruct fuel as [|n]; [lia|]. exact (skip_off n _ _ t' Ho Hoff).
  - rewrite flatr_cons. apply (skip_backward ib ie [] t' (rev (block (snd ie))) [] fuel Ht'); [rewrite rev_involutive; apply app_nil_r|].
    apply (f_equal (@length _)) in El. rewrite length_rev in El. cbn in El. lia.
Qed.

Lemma move_data_ok t ib ie ia c c' g : in_block t ib ie ia c -> (forall w, block_at ie w c -> exists w', g w = Some w' /\ block_at ie w' c') ->
  exists t', move_data g t = Some t' /\ in_block t' ib ie ia c'.
Proof.
  intros (H1 & H2 & H3 & H4 & w & Ew & Hw) Hg. destruct (Hg w Hw) as (w' & Eg & Hw'). unfold move_data. rewrite Ew, Eg. cbn [mbind option_bind].
  eexists. split; [reflexivity|]. split_and!; auto. exists w'. auto.
Qed.

Lemma Two_Next_ok t b e a : two_pos t (At b e a) -> exists t', Two_Next block_function fuel t = Some t' /\ two_pos t' (ahead (e :: b) a).
Proof.
  intros (ib & ie & ia & b' & a' & -> & -> & Ht). unfold Two_Next. rewrite (in_block_Valid _ _ _ _ _ Ht). pose proof Ht as (_ & E & _ & _ & w & _ & Hw).
  pose proof (DW ie (at_in _ _ _ E)) as Hit. destruct (pos_at _ _ _ _ Hw) as (Eb & _).
  destruct (move_data_ok t ib ie ia _ (ahead (e :: b') a') it_Next Ht) as (t' & -> & Ht'); [intros w' Hw'; exact (pos_Next _ _ _ _ Hw')|]. cbn [mbind option_bind].
  apply (skip_forward ia ib ie t' (e :: b') a' fuel Ht'); [cbn [rev]; rewrite <- app_assoc; exact Eb|apply (index_length _ _ _ E)].
Qed.

Lemma Two_Prev_ok t b e a : two_pos t (At b e a) -> exists t', Two_Prev block_function fuel t = Some t' /\ two_pos t' (behind b (e :: a)).
Proof.
  intros (ib & ie & ia & b' & a' & -> & -> & Ht). unfold Two_Prev. rewrite (in_block_Valid _ _ _ _ _ Ht). pose proof Ht as (_ & E & _ & _ & w & _ & Hw).
  pose proof (DW ie (at_in _ _ _ E)) as Hit. destruct (pos_at _ _ _ _ Hw) as (Eb & _).
  destruct (move_data_ok t ib ie ia _ (behind b' (e :: a')) it_Prev Ht) as (t' & -> & Ht'); [intros w' Hw'; exact (pos_Prev _ _ _ _ Hw')|]. cbn [mbind option_bind].
  apply (skip_backward ib ie ia t' b' (e :: a') fuel Ht' Eb). apply (index_length _ _ _ E).
Qed.

(** ** Seeking *)

(** The key of an index entry is not before its block, and before all blocks after it. *)
Definition separated : Prop := forall ib ie ia, rev ib ++ ie :: ia = ies -> key_ok (fst ie) /\
  (forall e, e ∈ block (snd ie) -> key_ok (fst e) /\ Compare (fst e) (fst ie) <= 0) /\ (forall e, e ∈ flat ia -> key_ok (fst e) /\ Compare (fst ie) (fst e) < 0).
Context (Hsep : separated) (Htarget : forall k, target_ok k -> key_ok k).

Lemma flat_before_target ib ia k : rev ib ++ ia = ies -> key_ok k -> Forall (fun ie => (0 <=? Compare (fst ie) k) = false) (rev ib) ->
  Forall (fun e => (0 <=? Compare (fst e) k) = false) (flat (rev ib)).
Proof.
  intros E Hk Hf. apply Forall_forall. intros e He. unfold flat in He. apply list_elem_of_In, in_concat in He as (l & Hl & He).
  apply in_map_iff in Hl as (ie & <- & Hie). apply list_elem_of_In in Hie, He. rewrite Forall_forall in Hf. specialize (Hf ie Hie). apply Z.leb_gt in Hf.
  apply list_elem_of_split in Hie as (l1 & l2 & El). destruct (Hsep (rev l1) ie (l2 ++ ia)) as (Hki & Hb & _); [rewrite rev_involutive, <- E, El, <- app_assoc; reflexivity|].
  destruct (Hb e He) as [Hke Hle]. apply Z.leb_gt. apply (Compare_le_lt (fst e) (fst ie) k); assumption.
Qed.

Lemma Two_Seek_ok t c k : two_pos t c -> target_ok k -> exists t', Two_Seek block_function fuel k t = Some t' /\ two_pos t' (scan (fun e => 0 <=? Compare (fst e) k) [] (flat ies)).
Proof.
  intros Hp Hk. pose proof (Htarget k Hk) as Hkk. pose proof (two_pos_ok t c Hp) as Ht. pose proof Ht as (_ & (ci & Hci) & _). unfold Two_Seek. set (p := fun e : entry => 0 <=? Compare (fst e) k).
  destruct (enter_ok t (it_Seek k) (it_Seek k) _ (fun ie => scan p [] (block (snd ie))) Ht (pos_Seek (Iterates := IW) _ _ k Hci Hk)) as (t' & -> & Ht');
    [intros x w c' Hx Hw; exact (pos_Seek (Iterates := DW x Hx) _ _ k Hw Hk)|]. cbn [mbind option_bind]. unfold SkipEmptyDataBlocksForward.
  fold p in Ht'. destruct (scan_split p ies) as (l1 & l2 & El & Hl1 & Hl2 & Es). rewrite Es in Ht'. assert (El' : rev (rev l1) ++ l2 = ies) by (rewrite rev_involutive; auto).
  assert (Hflat : scan p [] (flat ies) = scan p (flatr (rev l1)) (flat l2)).
  { rewrite El, flat_app, scan_app, app_nil_r; [unfold flatr; rewrite rev_involutive; reflexivity|]. rewrite <- (rev_involutive l1).
    apply (flat_before_target (rev l1) l2 k El' Hkk). rewrite rev_involutive. exact Hl1. }
  rewrite Hflat. destruct l2 as [|ie ia]; cbn [ahead] in Ht'.
  - destruct Ht' as [Ho Hoff]. pose proof Hfuel as Hf. destruct fuel as [|n]; [lia|]. exact (skip_off n _ _ t' Ho Hoff).
  - destruct (scan_split p (block (snd ie))) as (b & a & Eb & Hb & Ha & Es'). rewrite Es' in Ht'.
    destruct (skip_forward ia (rev l1) ie t' (rev b) a fuel Ht') as (t2 & -> & H2); [rewrite rev_involutive; auto|apply (index_length _ _ _ El')|]. exists t2. split; [reflexivity|].
    change (flat (ie :: ia)) with (block (snd ie) ++ flat ia). rewrite Eb, <- app_assoc, scan_app by exact Hb. rewrite scan_ahead; [exact H2|].
    destruct a as [|e a]; [cbn [app]|exact Ha]. destruct (flat ia) as [|e l] eqn:Ef; [exact Logic.I|]. destruct (Hsep (rev l1) ie ia El') as (Hki & _ & Hlt).
    destruct (Hlt e) as [Hke Hlt']; [rewrite Ef; apply elem_of_cons; auto|]. unfold p in *. apply Z.leb_le. apply Z.leb_le in Hl2.
    destruct (Z.lt_ge_cases (Compare (fst e) k) 0) as [Hlt2|]; [|assumption]. pose proof (Compare_lt_le (fst ie) (fst e) k Hki Hke Hkk Hlt' ltac:(lia)). lia.
Qed.

Lemma TwoLevel_iterates : Iterates (TwoLevel_Iterator block_function fuel) Compare target_ok (flat ies) two_pos.
Proof.
  constructor.
  - intros t b e a (ib & ie & ia & b' & a' & -> & -> & Ht). cbn [it_Valid it_key it_value TwoLevel_Iterator]. rewrite (in_block_Valid _ _ _ _ _ Ht).
    destruct Ht as (_ & E & _ & _ & w & Ew & Hw). pose proof (DW ie (at_in _ _ _ E)) as Hit. destruct (pos_at _ _ _ _ Hw) as (Eb & _ & Ek & Ev).
    unfold Two_key, Two_value. rewrite Ew. cbn [mbind option_bind]. split; [|auto]. rewrite (app_comm_cons a'). exact (flat_whole _ _ _ _ _ E Eb).
  - intros t [_ Ed]. cbn. unfold data_Valid. rewrite Ed. reflexivity.
  - intros t c Hp. destruct (two_pos_ok t c Hp) as (H1 & (ci & Hci) & H3). cbn [it_status TwoLevel_Iterator]. unfold Two_status. rewrite (pos_status (Iterates := IW) _ _ Hci). cbn [status_ok negb].
    destruct (data_iter_ t) as [w|]; [|exact H1]. destruct H3 as (ie & cd & Hie & _ & Hw). rewrite (pos_status (Iterates := DW ie Hie) _ _ Hw). exact H1.
  - intros t c Hp. exact (Two_SeekToFirst_ok t c Hp).
  - intros t c Hp. exact (Two_SeekToLast_ok t c Hp).
  - intros t c k Hp Hk. exact (Two_Seek_ok t c k Hp Hk).
  - intros t b e a Hp. exact (Two_Next_ok t b e a Hp).
  - intros t b e a Hp. exact (Two_Prev_ok t b e a Hp).
Qed.

Lemma new_TwoLevel_off i : ip i Off -> exists t, new_TwoLevelIterator i = Some t /\ two_pos t Off.
Proof.
  intros Hi. destruct (Set_wrapped ies ip II i Off Hi) as (w & E & Hw). unfold new_TwoLevelIterator. rewrite E. cbn [mbind option_bind]. eexists. split; [reflexivity|].
  split; [split; [reflexivity|split; [exists Off; exact Hw|exact Logic.I]]|reflexivity].
Qed.
End Rows.

(** * Theorem *)

(** [NewTwoLevelIterator] gives the iterator of all entries of all blocks.  Let the
    iterator of the index keep the promise of the interface over a list of entries, whose
    values are handles, and let the block function give for each handle an iterator that
    keeps it over the block's entries, which may be none; and let the key of each entry of
    the index be between the keys of its block and those of the blocks after it.  Then
    what is returned keeps the promise over the blocks one after another: each move,
    between blocks too and over empty ones, ends, and leads where it does in the one
    list; the right block is made anew when the handle changes; no assertion fails. *)
Theorem two_level_iterator_walks_the_blocks (C : Comparator) (L : ComparatorLaws C) (I D : Type) (IT : Iterator I) (DT : Iterator D) (target_ok : list Z -> Prop)
    (block_function : list Z -> option D) (fuel : nat) (ies : list entry) (ip : I -> cursor -> Prop) (block : list Z -> list entry) (dp : list Z -> D -> cursor -> Prop) (i : I) :
  Iterates IT Compare target_ok ies ip ->
  (forall ie, ie ∈ ies -> Iterates DT Compare target_ok (block (snd ie)) (dp (snd ie))) ->
  (forall ie, ie ∈ ies -> exists d, block_function (snd ie) = Some d /\ dp (snd ie) d Off) ->
  separated ies block -> (forall k, target_ok k -> key_ok k) -> (length ies + 1 < fuel)%nat -> ip i Off ->
  exists t pos, new_TwoLevelIterator (D := D) i = Some t /\ pos t Off /\ Iterates (TwoLevel_Iterator block_function fuel) Compare target_ok (flat block ies) pos.
Proof.
  intros II DI Hb Hs Ht Hf Hi. destruct (new_TwoLevel_off ies ip block dp II i Hi) as (t & E & Hp).
  exists t, (two_pos ies ip block dp). split; [exact E|]. split; [exact Hp|]. exact (TwoLevel_iterates block_function fuel ies ip block dp II DI Hb Hf Hs Ht).
Qed.

(** * An example *)

Section Example.
#[local] Existing Instances BytewiseComparator BytewiseLaws Cursor_Iterator.

(** Three blocks, the one in the middle empty. *)
Definition index_entries : list entry := [([2], [0]); ([4], [1]); ([6], [2])].
Definition some_blocks (handle : list Z) : list entry :=
  if decide (handle = [0]) then [([1], [10]); ([2], [20])] else if decide (handle = [2]) then [([5], [50])] else [].
Definition read_block (handle : list Z) : option (list entry * cursor) := Some (some_blocks handle, Off).

Ltac each_entry := intros e He; apply list_elem_of_In in He; vm_compute in He;
  repeat match goal with H : _ \/ _ |- _ => destruct H as [<-|H] | H : False |- _ => destruct H end;
  (split; [repeat constructor; unfold byte_ok; vm_compute; congruence|vm_compute; congruence]).

Lemma some_blocks_separated : separated index_entries some_blocks.
Proof.
  assert (G : forall p ie ia, p ++ ie :: ia = index_entries -> ie = ([2], [0]) /\ ia = drop 1 index_entries \/ ie = ([4], [1]) /\ ia = drop 2 index_entries \/ ie = ([6], [2]) /\ ia = []).
  { intros p ie ia E. unfold index_entries in E |- *. destruct p as [|x1 [|x2 [|x3 p]]]; cbn in E |- *; injection E; intros; subst; auto. destruct p; discriminate. }
  intros ib ie ia E. destruct (G _ _ _ E) as [[-> ->]|[[-> ->]|[-> ->]]]; (split; [repeat constructor; unfold byte_ok; vm_compute; congruence|split; each_entry]).
Qed.

Lemma two_level_iterator_walks_the_blocks_witness : exists t t1 t2 t3 t4 t5,
  new_TwoLevelIterator (D := list entry * cursor) (index_entries, Off) = Some t /\
  Two_SeekToFirst read_block 5 t = Some t1 /\ Two_key t1 = Some [1] /\ Two_Next read_block 5 t1 = Some t2 /\ Two_key t2 = Some [2] /\
  Two_Next read_block 5 t2 = Some t3 /\ Two_key t3 = Some [5] /\ Two_value t3 = Some [50] /\
  Two_Prev read_block 5 t3 = Some t4 /\ Two_value t4 = Some [20] /\ Two_Seek read_block 5 [3] t4 = Some t5 /\ Two_key t5 = Some [5].
Proof.
  destruct (two_level_iterator_walks_the_blocks BytewiseComparator BytewiseLaws _ _ Cursor_Iterator Cursor_Iterator bytes_ok read_block 5 index_entries (cursor_at index_entries)
    some_blocks (fun h => cursor_at (some_blocks h)) (index_entries, Off)) as (t & pos & E & Ho & Hit).
  - apply (Iterates_targets _ _ (fun _ => True)); [auto|]. apply Cursor_iterates.
  - intros ie _. apply (Iterates_targets _ _ (fun _ => True)); [auto|]. apply Cursor_iterates.
  - intros ie _. eexists. split; [reflexivity|]. split; [reflexivity|exact Logic.I].
  - exact some_blocks_separated.
  - auto.
  - cbn. lia.
  - split; [reflexivity|exact Logic.I].
  - destruct (@pos_SeekToFirst _ _ _ _ _ _ Hit _ _ Ho) as (t1 & E1 & P1). destruct (@pos_at _ _ _ _ _ _ Hit _ _ _ _ P1) as (_ & _ & K1 & _).
    destruct (@pos_Next _ _ _ _ _ _ Hit _ _ _ _ P1) as (t2 & E2 & P2). destruct (@pos_at _ _ _ _ _ _ Hit _ _ _ _ P2) as (_ & _ & K2 & _).
    destruct (@pos_Next _ _ _ _ _ _ Hit _ _ _ _ P2) as (t3 & E3 & P3). destruct (@pos_at _ _ _ _ _ _ Hit _ _ _ _ P3) as (_ & _ & K3 & V3).
    destruct (@pos_Prev _ _ _ _ _ _ Hit _ _ _ _ P3) as (t4 & E4 & P4). destruct (@pos_at _ _ _ _ _ _ Hit _ _ _ _ P4) as (_ & _ & _ & V4).
    destruct (@pos_Seek _ _ _ _ _ _ Hit _ _ [3] P4) as (t5 & E5 & P5); [repeat constructor; unfold byte_ok; vm_compute; congruence|].
    vm_compute in P5. destruct (@pos_at _ _ _ _ _ _ Hit _ _ _ _ P5) as (_ & _ & K5 & _).
    exists t, t1, t2, t3, t4, t5. split_and!; assumption.
Defined.
End Example.
