(* ===== verification/LdbFilter.v ===== *)
(** leveldb/util/bloom.cc, util/hash.cc, table/filter_block.cc and the filter policy of
    db/dbformat.cc: filters.

    A filter says of a key that it may be among those it was made for, or that it is
    not; what it must never do is to deny one that is. *)
From Stdlib Require Import ZArith Lia Strings.String Strings.Ascii.
From Stdlib Require Sorted.
From stdpp Require Import base list numbers option sorting.
From S2P Require Import Prelude LdbCoding LdbFormat.

Open Scope Z_scope.

#[local] Arguments zlen : simpl never.
#[local] Arguments ztake : simpl never.
#[local] Arguments zdrop : simpl never.

Definition bytes_of (s : string) : list Z := map (fun a => Z.of_nat (nat_of_ascii a)) (list_ascii_of_string s).

(** include/leveldb/filter_policy.h: [CreateFilter] appends a filter of [n] keys to a
    string. *)
Class FilterPolicy := {
  Name : list Z;
  CreateFilter : list (list Z) -> Z -> list Z -> list Z;
  KeyMayMatch : list Z -> list Z -> bool }.

(** What an implementation promises: what is appended denies none of the keys, and has at
    most so many bytes a key. *)
Class FilterPolicyLaws (FP : FilterPolicy) (rate : Z) : Prop := {
  rate_nonneg : 0 <= rate;
  Name_ok : bytes_ok Name /\ zlen Name < 2 ^ 16;
  Create_covers : forall keys dst, zlen keys < 2 ^ 31 -> keys <> [] -> exists filter, CreateFilter keys (zlen keys) dst = dst ++ filter /\ bytes_ok filter /\
    zlen filter <= rate * zlen keys /\ forall k, k ∈ keys -> KeyMayMatch k filter = true }.

(** * The bloom filter *)

Section Bloom.
Context {P : Port}.

(** The remaining bytes, fewer than four. *)
Definition Hash_rest (m r h : Z) (data : list Z) : Z :=
  let finish h := let h := u32 (h * m) in Z.lxor h (Z.shiftr h r) in
  match data with
  | [a; b; c] => finish (u32 (u32 (u32 (h + Z.shiftl c 16) + Z.shiftl b 8) + a))
  | [a; b] => finish (u32 (u32 (h + Z.shiftl b 8) + a))
  | [a] => finish (u32 (h + a))
  | _ => h
  end.

Fixpoint Hash_loop (m r h : Z) (data : list Z) : Z :=
  match data with
  | _ :: _ :: _ :: _ :: rest =>
    let w := DecodeFixed32 data in
    let h := u32 (h + w) in
    let h := u32 (h * m) in
    let h := Z.lxor h (Z.shiftr h 16) in
    Hash_loop m r h rest
  | _ => Hash_rest m r h data
  end.

Definition Hash (data : list Z) (seed : Z) : Z :=
  let m := 0xc6a4a793 in
  let r := 24 in
  Hash_loop m r (u32 (Z.lxor seed (u64 (zlen data * m)))) data.

Definition BloomHash (key : list Z) : Z := Hash key 0xbc9f1d34.

Definition bloom_delta (h : Z) : Z := Z.lor (Z.shiftr h 17) (u32 (Z.shiftl h 15)).

(** [bits_per_key * 0.69] is a product of [double]s, cut off: below 31 it is never so
    near to an integer that the rounding of 0.69 shows. *)
Definition bloom_k (bits_per_key : Z) : Z := Z.min 30 (Z.max 1 (bits_per_key * 69 / 100)).

Definition set_bit (pos : Z) (array : list Z) : list Z := alter (fun x => u8 (Z.lor x (Z.shiftl 1 (pos mod 8)))) (Z.to_nat (pos / 8)) array.
Definition bit_set (pos : Z) (array : list Z) : bool := negb (Z.land (znth 0 (pos / 8) array) (Z.shiftl 1 (pos mod 8)) =? 0).

(** The inner loops of [CreateFilter] and of [KeyMayMatch]. *)
Fixpoint set_loop (k : nat) (h delta bits : Z) (array : list Z) : list Z :=
  match k with
  | O => array
  | S k => set_loop k (u32 (h + delta)) delta bits (set_bit (h mod bits) array)
  end.

Fixpoint match_loop (k : nat) (h delta bits : Z) (array : list Z) : bool :=
  match k with
  | O => true
  | S k => if negb (bit_set (h mod bits) array) then false else match_loop k (u32 (h + delta)) delta bits array
  end.

Definition Bloom_CreateFilter (bits_per_key : Z) (keys : list (list Z)) (n : Z) (dst : list Z) : list Z :=
  let k := bloom_k bits_per_key in
  let bits := u64 (n * bits_per_key) in
  let bits := if bits <? 64 then 64 else bits in
  let bytes := u64 (bits + 7) / 8 in
  let bits := u64 (bytes * 8) in
  let add_key array key := let h := BloomHash key in set_loop (Z.to_nat k) h (bloom_delta h) bits array in
  dst ++ foldl add_key (zrep bytes 0) (ztake n keys) ++ [u8 k].

Definition Bloom_KeyMayMatch (key bloom_filter : list Z) : bool :=
  let len := zlen bloom_filter in
  if len <? 2 then false
  else
    let bits := (len - 1) * 8 in
    let k := znth 0 (len - 1) bloom_filter in
    if 30 <? k then true
    else let h := BloomHash key in match_loop (Z.to_nat k) h (bloom_delta h) bits bloom_filter.

Definition BloomFilterPolicy (bits_per_key : Z) : FilterPolicy := {|
  Name := bytes_of "leveldb.BuiltinBloomFilter2";
  CreateFilter := Bloom_CreateFilter bits_per_key;
  KeyMayMatch := Bloom_KeyMayMatch |}.
End Bloom.

(** The policy of a database: that of the user, of the user's keys. *)
Definition InternalFilterPolicy (user_policy_ : FilterPolicy) : FilterPolicy := {|
  Name := @Name user_policy_;
  CreateFilter keys n dst := @CreateFilter user_policy_ (map ExtractUserKey (ztake n keys) ++ zdrop n keys) n dst;
  KeyMayMatch key f := @KeyMayMatch user_policy_ (ExtractUserKey key) f |}.

(** * The filters of a table *)

Definition kFilterBaseLg : Z := 11.
Definition kFilterBase : Z := Z.shiftl 1 kFilterBaseLg.

Section FilterBlock.
Context {P : Port} {FP : FilterPolicy}.

Record FilterBlockBuilder := mkFilterBlockBuilder {
  keys_ : list Z;
  start_ : list Z;
  result_ : list Z;
  filter_offsets_ : list Z }.
Implicit Types (b : FilterBlockBuilder).

Definition new_FilterBlockBuilder : FilterBlockBuilder := mkFilterBlockBuilder [] [] [] [].

Definition GenerateFilter b : FilterBlockBuilder :=
  let num_keys := zlen (start_ b) in
  let filter_offsets := filter_offsets_ b ++ [u32 (zlen (result_ b))] in
  if num_keys =? 0 then mkFilterBlockBuilder (keys_ b) (start_ b) (result_ b) filter_offsets
  else
    let start := start_ b ++ [zlen (keys_ b)] in
    let tmp_keys := map (fun i => zsub (znth 0 i start) (u64 (znth 0 (i + 1) start - znth 0 i start)) (keys_ b)) (seqZ 0 num_keys) in
    mkFilterBlockBuilder [] [] (CreateFilter tmp_keys (s32 num_keys) (result_ b)) filter_offsets.

(** The loop of [StartBlock]; each round adds an offset. *)
Fixpoint generate_loop (fuel : nat) (filter_index : Z) b : FilterBlockBuilder :=
  match fuel with
  | O => b
  | S fuel => if zlen (filter_offsets_ b) <? filter_index then generate_loop fuel filter_index (GenerateFilter b) else b
  end.

(** [None] is a failed assertion. *)
Definition StartBlock (block_offset : Z) b : option FilterBlockBuilder :=
  let filter_index := block_offset / kFilterBase in
  if filter_index <? zlen (filter_offsets_ b) then None
  else Some (generate_loop (Z.to_nat (filter_index - zlen (filter_offsets_ b))) filter_index b).

Definition AddKey (key : list Z) b : FilterBlockBuilder :=
  mkFilterBlockBuilder (keys_ b ++ key) (start_ b ++ [zlen (keys_ b)]) (result_ b) (filter_offsets_ b).

Definition Filter_Finish b : list Z * FilterBlockBuilder :=
  let b := match start_ b with [] => b | _ => GenerateFilter b end in
  let array_offset := u32 (zlen (result_ b)) in
  let result := foldl PutFixed32 (result_ b) (filter_offsets_ b) in
  let result := PutFixed32 result array_offset ++ [kFilterBaseLg] in
  (result, mkFilterBlockBuilder (keys_ b) (start_ b) result (filter_offsets_ b)).

(** [f_offset_] is where the offsets start. *)
Record FilterBlockReader := mkFilterBlockReader {
  f_data_ : list Z;
  f_offset_ : Z;
  num_ : Z;
  base_lg_ : Z }.

(** A [char] as a [size_t]. *)
Definition char_to_size (c : Z) : Z := if c <? 128 then c else u64 (c - 256).

Definition new_FilterBlockReader (contents : list Z) : FilterBlockReader :=
  let n := zlen contents in
  if n <? 5 then mkFilterBlockReader [] 0 0 0
  else
    let base_lg := char_to_size (znth 0 (n - 1) contents) in
    let last_word := DecodeFixed32 (zdrop (n - 5) contents) in
    if n - 5 <? last_word then mkFilterBlockReader [] 0 0 base_lg
    else mkFilterBlockReader contents last_word ((n - 5 - last_word) / 4) base_lg.

(** [None] is a shift by more than the width, which is undefined. *)
Definition Reader_KeyMayMatch (block_offset : Z) (key : list Z) (r : FilterBlockReader) : option bool :=
  if 64 <=? base_lg_ r then None
  else
    let index := Z.shiftr block_offset (base_lg_ r) in
    if index <? num_ r then
      let start := DecodeFixed32 (zdrop (f_offset_ r + index * 4) (f_data_ r)) in
      let limit := DecodeFixed32 (zdrop (f_offset_ r + index * 4 + 4) (f_data_ r)) in
      if (start <=? limit) && (limit <=? f_offset_ r) then Some (KeyMayMatch key (zsub start (limit - start) (f_data_ r)))
      else if start =? limit then Some false
      else Some true
    else Some true.
End FilterBlock.

(** * No false negatives *)

Section BloomLaws.
Context {P : Port}.
Implicit Types (array : list Z) (pos bits h delta : Z).

Lemma byte_bit_set x i : byte_ok x -> 0 <= i < 8 -> Z.testbit (u8 (Z.lor x (Z.shiftl 1 i))) i = true /\ (forall j, 0 <= j < 8 -> Z.testbit x j = true -> Z.testbit (u8 (Z.lor x (Z.shiftl 1 i))) j = true).
Proof.
  intros Hx Hi. assert (E : forall j, 0 <= j < 8 -> Z.testbit (u8 (Z.lor x (Z.shiftl 1 i))) j = Z.testbit x j || (j =? i)).
  { intros j Hj. unfold u8. change 256 with (2 ^ 8). rewrite Z.mod_pow2_bits_low by lia. rewrite Z.lor_spec, Z.shiftl_1_l, Z.pow2_bits_eqb by lia.
    rewrite (Z.eqb_sym j i). reflexivity. }
  split; [rewrite E, Z.eqb_refl, orb_true_r by lia; reflexivity|]. intros j Hj Hb. rewrite E, Hb by lia. reflexivity.
Qed.

Lemma bit_set_test pos array : 0 <= pos -> bit_set pos array = Z.testbit (znth 0 (pos / 8) array) (pos mod 8).
Proof.
  intros Hp. unfold bit_set. assert (Hm : 0 <= pos mod 8 < 8) by dlia. set (x := znth 0 (pos / 8) array). set (i := pos mod 8) in *. rewrite Z.shiftl_1_l.
  destruct (Z.testbit x i) eqn:E.
  - apply negb_true_iff, Z.eqb_neq. intros E0. apply (f_equal (fun v => Z.testbit v i)) in E0. rewrite Z.land_spec, E, Z.pow2_bits_true, Z.bits_0 in E0 by lia. discriminate.
  - apply negb_false_iff, Z.eqb_eq. apply Z.bits_inj'. intros j Hj. rewrite Z.land_spec, Z.bits_0, Z.pow2_bits_eqb by lia. destruct (Z.eqb_spec i j) as [<-|]; [rewrite E; reflexivity|apply andb_false_r].
Qed.

(** An array that keeps the bits of another. *)
Definition keeps array array' : Prop := zlen array' = zlen array /\ forall pos, 0 <= pos < 8 * zlen array -> bit_set pos array = true -> bit_set pos array' = true.

Lemma keeps_refl array : keeps array array.
Proof. split; auto. Qed.

Lemma keeps_trans a b d : keeps a b -> keeps b d -> keeps a d.
Proof. intros [H1 H2] [H3 H4]. split; [congruence|]. intros pos Hp Hb. apply H4; [rewrite H1; exact Hp|]. apply H2; assumption. Qed.

Lemma set_bit_ok pos array : bytes_ok array -> 0 <= pos < 8 * zlen array -> bytes_ok (set_bit pos array) /\ bit_set pos (set_bit pos array) = true /\ keeps array (set_bit pos array).
Proof.
  intros Ha Hp. assert (Hi : 0 <= pos / 8 < zlen array) by dlia. assert (Hm : 0 <= pos mod 8 < 8) by dlia. set (i := Z.to_nat (pos / 8)).
  destruct (lookup_lt_is_Some_2 array i) as [x Hx]; [unfold zlen, i in *; lia|].
  assert (Hbx : byte_ok x) by (unfold bytes_ok in Ha; rewrite Forall_forall in Ha; exact (Ha x (list_elem_of_lookup_2 _ i _ Hx))).
  destruct (byte_bit_set x (pos mod 8) Hbx Hm) as [B1 B2]. set (y := u8 (Z.lor x (Z.shiftl 1 (pos mod 8)))) in *.
  assert (Hn : forall q, 0 <= q -> znth 0 (q / 8) (set_bit pos array) = if q / 8 =? pos / 8 then y else znth 0 (q / 8) array).
  { intros q Hq. unfold znth, set_bit. fold i. rewrite !nth_lookup. destruct (Z.eqb_spec (q / 8) (pos / 8)) as [->|Hne].
    - fold i. rewrite list_lookup_alter_eq, Hx. reflexivity.
    - rewrite list_lookup_alter_ne; [reflexivity|]. unfold i. assert (0 <= q / 8) by dlia. lia. }
  split; [|split].
  - unfold bytes_ok, set_bit. apply Forall_alter; [exact Ha|]. intros z _ _. apply u8_byte.
  - rewrite bit_set_test, Hn, Z.eqb_refl by lia. exact B1.
  - split; [unfold zlen, set_bit; rewrite length_alter; reflexivity|]. intros q Hq Hb. rewrite bit_set_test in Hb |- * by lia. rewrite Hn by lia.
    destruct (Z.eqb_spec (q / 8) (pos / 8)) as [E|]; [|exact Hb]. apply B2; [dlia|]. rewrite E in Hb. unfold znth in Hb. fold i in Hb. rewrite (nth_lookup_Some _ _ _ _ Hx) in Hb. exact Hb.
Qed.

Lemma set_loop_ok bits k : forall h delta array, bytes_ok array -> 0 < bits -> bits = 8 * zlen array ->
  bytes_ok (set_loop k h delta bits array) /\ match_loop k h delta bits (set_loop k h delta bits array) = true /\ keeps array (set_loop k h delta bits array).
Proof.
  induction k as [|k IH]; intros h delta array Ha Hb E; cbn [set_loop match_loop]; [split_and!; auto using keeps_refl|].
  assert (Hp : 0 <= h mod bits < bits) by (apply Z.mod_pos_bound; exact Hb). destruct (set_bit_ok (h mod bits) array Ha ltac:(lia)) as (Ha1 & Hs & Hk1).
  destruct (IH (u32 (h + delta)) delta _ Ha1 Hb ltac:(destruct Hk1 as [-> _]; exact E)) as (Ha2 & Hm & Hk2). split; [exact Ha2|]. split; [|exact (keeps_trans _ _ _ Hk1 Hk2)].
  destruct Hk2 as [_ Hk2]. rewrite (Hk2 (h mod bits)); [exact Hm|destruct Hk1 as [-> _]; lia|exact Hs].
Qed.

Lemma match_loop_keeps bits k : forall h delta array array', keeps array array' -> 0 < bits <= 8 * zlen array -> match_loop k h delta bits array = true -> match_loop k h delta bits array' = true.
Proof.
  induction k as [|k IH]; intros h delta array array' Hk Hb Hm; cbn [match_loop] in *; [reflexivity|]. destruct (bit_set (h mod bits) array) eqn:E; [|discriminate]. cbn [negb] in Hm.
  pose proof Hk as [_ Hk']. rewrite Hk'; [|pose proof (Z.mod_pos_bound h bits); lia|exact E]. cbn [negb]. exact (IH _ _ _ _ Hk Hb Hm).
Qed.

Lemma match_loop_app bits k l : forall h delta array, 0 < bits <= 8 * zlen array -> match_loop k h delta bits (array ++ l) = match_loop k h delta bits array.
Proof.
  induction k as [|k IH]; intros h delta array Hb; cbn [match_loop]; [reflexivity|].
  assert (E : bit_set (h mod bits) (array ++ l) = bit_set (h mod bits) array).
  { assert (Hp : 0 <= h mod bits < bits) by (apply Z.mod_pos_bound; lia). unfold bit_set, znth. rewrite app_nth1; [reflexivity|]. unfold zlen in Hb. dlia. }
  rewrite E, IH by exact Hb. reflexivity.
Qed.

Lemma add_keys_ok bits k keys : forall array, bytes_ok array -> 0 < bits -> bits = 8 * zlen array ->
  let add array key := set_loop k (BloomHash key) (bloom_delta (BloomHash key)) bits array in
  bytes_ok (foldl add array keys) /\ keeps array (foldl add array keys) /\
  forall key, key ∈ keys -> match_loop k (BloomHash key) (bloom_delta (BloomHash key)) bits (foldl add array keys) = true.
Proof.
  induction keys as [|key keys IH]; intros array Ha Hb E add; cbn [foldl]; [split; [exact Ha|]; split; [apply keeps_refl|]; intros key Hk; inversion Hk|].
  destruct (set_loop_ok bits k (BloomHash key) (bloom_delta (BloomHash key)) array Ha Hb E) as (Ha1 & Hm & Hk1). fold (add array key) in Ha1, Hm, Hk1. pose proof Hk1 as [El _].
  destruct (IH (add array key) Ha1 Hb ltac:(rewrite El; exact E)) as (Ha2 & Hk2 & Hall). fold add in Ha2, Hk2, Hall. split; [exact Ha2|]. split; [exact (keeps_trans _ _ _ Hk1 Hk2)|].
  intros x Hx. apply elem_of_cons in Hx as [->|Hx]; [|exact (Hall x Hx)]. apply (match_loop_keeps bits k _ _ (add array key)); [exact Hk2|lia|exact Hm].
Qed.

Lemma bloom_k_range b : 1 <= bloom_k b <= 30.
Proof. unfold bloom_k. lia. Qed.

#[export] Program Instance BloomLaws (bits_per_key : Z) (Hb : 0 <= bits_per_key < 2 ^ 31) : FilterPolicyLaws (BloomFilterPolicy bits_per_key) (bits_per_key / 8 + 10).
Next Obligation. intros b Hb. cbn. dlia. Qed.
Next Obligation. intros b Hb. split; [repeat constructor; vm_compute; congruence|reflexivity]. Qed.
Next Obligation.
  intros b Hb keys dst Hn Hne. assert (Hn1 : 1 <= zlen keys) by (destruct keys as [|k l]; [contradiction|rewrite zlen_cons; pose proof (zlen_nonneg l); lia]). cbn [CreateFilter KeyMayMatch BloomFilterPolicy]. unfold Bloom_CreateFilter. pose proof (zlen_nonneg keys) as Hn0.
  rewrite (u64_small (zlen keys * b)) by nia. set (bits0 := if zlen keys * b <? 64 then 64 else zlen keys * b).
  assert (H0 : 64 <= bits0 < 2 ^ 62) by (unfold bits0; destruct (Z.ltb_spec (zlen keys * b) 64); nia). rewrite (u64_small (bits0 + 7)) by lia. set (bytes := (bits0 + 7) / 8).
  assert (Hby : 8 <= bytes /\ 8 * bytes < 2 ^ 63) by (unfold bytes; dlia). rewrite u64_small by lia. rewrite ztake_all. pose proof (bloom_k_range b) as Hk. set (k := bloom_k b) in *.
  destruct (add_keys_ok (bytes * 8) (Z.to_nat k) keys (zrep bytes 0)) as (Ha & [El _] & Hall); [unfold bytes_ok, zrep; apply Forall_replicate; unfold byte_ok; lia|lia|rewrite zlen_zrep; lia|].
  rewrite zlen_zrep in El by lia. set (array := foldl _ _ _) in *. eexists. split; [reflexivity|]. assert (Eu : u8 k = k) by (apply u8_small; unfold byte_ok; lia). rewrite Eu.
  split; [apply bytes_ok_app; split; [exact Ha|repeat constructor; lia]|]. rewrite zlen_app, El. split.
  { change (zlen [k]) with 1. assert (Hq : 8 * (b / 8) <= b <= 8 * (b / 8) + 7) by dlia. set (q := b / 8) in *. unfold bytes, bits0. destruct (Z.ltb_spec (zlen keys * b) 64); [change ((64 + 7) / 8) with 8; nia|].
    assert (Hu : zlen keys * b <= 8 * (zlen keys * q) + 7 * zlen keys) by nia. set (u := zlen keys * b) in *. assert (8 * ((u + 7) / 8) <= u + 7) by dlia. nia. }
  intros key Hkey. unfold Bloom_KeyMayMatch. rewrite zlen_app, El. change (zlen [k]) with 1.
  destruct (Z.ltb_spec (bytes + 1) 2); [lia|]. replace (bytes + 1 - 1) with bytes by lia.
  assert (Ek : znth 0 bytes (array ++ [k]) = k). { unfold znth. rewrite app_nth2; unfold zlen in El; [|lia]. replace (Z.to_nat bytes - length array)%nat with 0%nat by lia. reflexivity. }
  rewrite Ek. destruct (Z.ltb_spec 30 k); [lia|]. rewrite match_loop_app by lia. exact (Hall key Hkey).
Qed.
End BloomLaws.

#[export] Program Instance InternalFilterLaws (user_policy_ : FilterPolicy) (rate : Z) (UL : FilterPolicyLaws user_policy_ rate) : FilterPolicyLaws (InternalFilterPolicy user_policy_) rate.
Next Obligation. intros user_policy_ rate UL. exact (@rate_nonneg _ _ UL). Qed.
Next Obligation. intros user_policy_ rate UL. exact (@Name_ok _ _ UL). Qed.
Next Obligation.
  intros user_policy_ rate UL keys dst Hn Hne. cbn [CreateFilter KeyMayMatch InternalFilterPolicy]. rewrite ztake_all, zdrop_all_ge, app_nil_r by lia.
  assert (E : zlen (map ExtractUserKey keys) = zlen keys) by (unfold zlen; rewrite length_map; reflexivity).
  destruct (Create_covers (map ExtractUserKey keys) dst) as (f & Ef & Hf & Hz & Hall); [rewrite E; exact Hn|destruct keys; [contradiction|discriminate]|]. rewrite E in Ef, Hz. exists f. split; [exact Ef|]. split; [exact Hf|]. split; [exact Hz|].
  intros k Hk. apply Hall. apply list_elem_of_In, in_map, list_elem_of_In, Hk.
Qed.

(** * Filters by the offset of the block *)

Section Filters.
Context {P : Port} {FP : FilterPolicy} {rate : Z} {FL : FilterPolicyLaws FP rate}.
Implicit Types (b : FilterBlockBuilder) (rows groups : list (list (list Z))) (cur keys ks fs : list (list Z)) (key k f : list Z) (o : Z).

(** Where each of some strings starts in all of them. *)
Fixpoint starts o fs : list Z := match fs with [] => [] | f :: fs => o :: starts (o + zlen f) fs end.

Lemma starts_snoc fs : forall o f, starts o (fs ++ [f]) = starts o fs ++ [o + zlen (concat fs)].
Proof.
  induction fs as [|x fs IH]; intros o f; cbn [starts app concat]; [rewrite Z.add_0_r; reflexivity|]. rewrite IH, zlen_app. rewrite Z.add_assoc. reflexivity.
Qed.

Lemma zlen_starts fs : forall o, zlen (starts o fs) = zlen fs.
Proof. induction fs as [|x fs IH]; intros o; [reflexivity|]. cbn [starts]. rewrite !zlen_cons, IH. reflexivity. Qed.

Lemma starts_nth fs1 : forall o f fs2, starts o (fs1 ++ f :: fs2) !! length fs1 = Some (o + zlen (concat fs1)).
Proof.
  induction fs1 as [|x fs1 IH]; intros o f fs2; cbn [starts app concat length]; [cbn; rewrite Z.add_0_r; reflexivity|]. cbn [lookup list_lookup]. rewrite IH, zlen_app, Z.add_assoc. reflexivity.
Qed.

(** [GenerateFilter] has the keys back from the string they were put into. *)
Lemma tmp_keys_ok keys : Forall (fun k => zlen k < 2 ^ 64) keys -> let start := starts 0 keys ++ [zlen (concat keys)] in
  map (fun i => zsub (znth 0 i start) (u64 (znth 0 (i + 1) start - znth 0 i start)) (concat keys)) (seqZ 0 (zlen keys)) = keys.
Proof.
  intros Hk start. set (g := fun i => _). change (map g (seqZ 0 (zlen keys))) with (g <$> seqZ 0 (zlen keys)). apply list_eq. intros i. rewrite list_lookup_fmap.
  destruct (keys !! i) as [k|] eqn:Ei.
  - pose proof (lookup_lt_Some _ _ _ Ei) as Hi. rewrite lookup_seqZ_lt by (unfold zlen; lia). cbn [fmap option_fmap option_map]. f_equal. unfold g. rewrite Z.add_0_l.
    apply list_elem_of_split_length in Ei as (k1 & k2 & E & ->). pose proof (zlen_nonneg (concat k1)). pose proof (zlen_nonneg k).
    assert (E1 : znth 0 (Z.of_nat (length k1)) start = zlen (concat k1)).
    { unfold znth, start. rewrite Nat2Z.id. rewrite <- (Z.add_0_l (zlen (concat keys))), <- (starts_snoc keys 0 []). apply nth_lookup_Some. rewrite E, <- app_assoc. cbn [app]. rewrite starts_nth. reflexivity. }
    assert (E2 : znth 0 (Z.of_nat (length k1) + 1) start = zlen (concat k1) + zlen k).
    { unfold znth, start. replace (Z.to_nat (Z.of_nat (length k1) + 1)) with (length (k1 ++ [k])) by (rewrite length_app; cbn; lia).
      rewrite <- (Z.add_0_l (zlen (concat keys))), <- (starts_snoc keys 0 []). apply nth_lookup_Some. rewrite E. replace ((k1 ++ k :: k2) ++ [[]]) with ((k1 ++ [k]) ++ k2 ++ [[]]) by (rewrite <- !app_assoc; reflexivity).
      destruct (k2 ++ [[]]) as [|x l] eqn:El; [destruct k2; discriminate|]. rewrite starts_nth, concat_app, zlen_app. cbn [concat]. rewrite app_nil_r. reflexivity. }
    rewrite E1, E2. replace (zlen (concat k1) + zlen k - zlen (concat k1)) with (zlen k) by lia. rewrite E in Hk. apply Forall_app in Hk as [_ Hk]. apply List.Forall_cons_iff in Hk as [Hk _].
    rewrite u64_small by lia. rewrite E, concat_app. cbn [concat]. apply zsub_app; reflexivity.
  - apply lookup_ge_None_1 in Ei. rewrite lookup_seqZ_ge by (unfold zlen; lia). reflexivity.
Qed.

(** What a filter of [keys] is to be. *)
Definition covers keys f : Prop := bytes_ok f /\ (keys = [] -> f = []) /\ zlen f <= rate * zlen keys /\ forall k, k ∈ keys -> KeyMayMatch k f = true.

(** The filters of [groups] of keys are made, and [cur] is being collected. *)
Definition filters_ok b groups cur : Prop := exists fs, Forall2 covers groups fs /\ result_ b = concat fs /\ filter_offsets_ b = map u32 (starts 0 fs) /\
  keys_ b = concat cur /\ start_ b = starts 0 cur.

Definition rows_ok b rows : Prop := exists groups cur, rows = groups ++ [cur] /\ filters_ok b groups cur.

Lemma filters_offsets b groups cur : filters_ok b groups cur -> zlen (filter_offsets_ b) = zlen groups.
Proof. intros (fs & Hc & _ & -> & _). unfold zlen. rewrite length_map. change (zlen (starts 0 fs) = zlen groups). rewrite zlen_starts. unfold zlen. rewrite (Forall2_length _ _ _ Hc). reflexivity. Qed.

Lemma GenerateFilter_ok b groups cur : filters_ok b groups cur -> zlen cur < 2 ^ 31 -> Forall (fun k => zlen k < 2 ^ 64) cur -> filters_ok (GenerateFilter b) (groups ++ [cur]) [].
Proof.
  intros (fs & Hc & Er & Eo & Ek & Es) Hn Hk. unfold GenerateFilter. rewrite Es, zlen_starts. pose proof (zlen_nonneg cur).
  assert (Eo' : forall f, filter_offsets_ b ++ [u32 (zlen (result_ b))] = map u32 (starts 0 (fs ++ [f]))).
  { intros f. rewrite starts_snoc, map_app, Eo, Er, Z.add_0_l. reflexivity. }
  destruct (Z.eqb_spec (zlen cur) 0) as [E0|Hne].
  - apply zlen_0 in E0 as ->. exists (fs ++ [[]]). split_and!; cbn [result_ filter_offsets_ keys_ start_]; auto.
    + apply Forall2_app; [exact Hc|]. constructor; [|constructor]. split; [constructor|]. split; [auto|]. split; [pose proof (rate_nonneg (rate := rate)); change (zlen []) with 0; lia|]. intros k Hin. inversion Hin.
    + rewrite concat_app. cbn. rewrite app_nil_r. exact Er.
  - rewrite Ek, (tmp_keys_ok cur Hk). assert (Hcur : cur <> []) by (intros E; rewrite E in Hne; contradiction Hne; reflexivity). destruct (Create_covers cur (result_ b) Hn Hcur) as (f & Ef & Hf & Hz & Hall). rewrite s32_small, Ef by lia.
    exists (fs ++ [f]). split_and!; cbn [result_ filter_offsets_ keys_ start_]; auto.
    + apply Forall2_app; [exact Hc|]. constructor; [split; [exact Hf|]; split; [intros E; contradiction|split; [exact Hz|exact Hall]]|constructor].
    + rewrite concat_app. cbn. rewrite app_nil_r, Er. reflexivity.
Qed.

Definition keys_fit rows : Prop := zlen (concat rows) < 2 ^ 31 /\ Forall (fun k => zlen k < 2 ^ 64) (concat rows).

Lemma keys_fit_last groups cur : keys_fit (groups ++ [cur]) -> zlen cur < 2 ^ 31 /\ Forall (fun k => zlen k < 2 ^ 64) cur.
Proof.
  intros [Hn Hk]. rewrite concat_app in Hn, Hk. cbn [concat] in Hn, Hk. rewrite app_nil_r in Hn, Hk. rewrite zlen_app in Hn. pose proof (zlen_nonneg (concat groups)).
  apply Forall_app in Hk as [_ Hk]. split; [lia|exact Hk].
Qed.

Lemma keys_fit_nil rows : keys_fit rows -> keys_fit (rows ++ [[]]).
Proof. unfold keys_fit. rewrite concat_app. cbn. rewrite app_nil_r. auto. Qed.

Lemma generate_loop_ok n : forall b rows, rows_ok b rows -> keys_fit rows ->
  rows_ok (generate_loop n (zlen rows - 1 + Z.of_nat n) b) (rows ++ replicate n []).
Proof.
  induction n as [|n IH]; intros b rows Hb Hk; [cbn; rewrite app_nil_r; exact Hb|]. cbn [generate_loop]. pose proof Hb as (groups & cur & -> & Hf).
  rewrite (filters_offsets _ _ _ Hf), zlen_app. change (zlen [cur]) with 1. destruct (Z.ltb_spec (zlen groups) (zlen groups + 1 - 1 + Z.of_nat (S n))) as [_|]; [|lia].
  destruct (keys_fit_last _ _ Hk) as [Hn Hl]. pose proof (GenerateFilter_ok b groups cur Hf Hn Hl) as Hg.
  specialize (IH (GenerateFilter b) ((groups ++ [cur]) ++ [[]]) (ex_intro _ _ (ex_intro _ _ (conj eq_refl Hg))) (keys_fit_nil _ Hk)).
  rewrite !zlen_app in IH. change (zlen [cur]) with 1 in IH. change (zlen [[]]) with 1 in IH. replace (zlen groups + 1 + 1 - 1 + Z.of_nat n) with (zlen groups + 1 - 1 + Z.of_nat (S n)) in IH by lia.
  rewrite <- (app_assoc (groups ++ [cur])) in IH. exact IH.
Qed.

(** ** The builder *)

Lemma new_rows_ok : rows_ok new_FilterBlockBuilder [[]].
Proof. exists [], []. split; [reflexivity|]. exists []. split_and!; auto. Qed.

Lemma StartBlock_ok b rows o : rows_ok b rows -> keys_fit rows -> zlen rows - 1 <= o / kFilterBase ->
  exists b', StartBlock o b = Some b' /\ rows_ok b' (rows ++ replicate (Z.to_nat (o / kFilterBase - (zlen rows - 1))) []).
Proof.
  intros Hb Hk Ho. unfold StartBlock. pose proof Hb as (groups & cur & -> & Hf). rewrite (filters_offsets _ _ _ Hf). rewrite zlen_app in *. change (zlen [cur]) with 1 in *.
  destruct (Z.ltb_spec (o / kFilterBase) (zlen groups)); [lia|]. eexists. split; [reflexivity|].
  pose proof (generate_loop_ok (Z.to_nat (o / kFilterBase - zlen groups)) b _ Hb Hk) as G. rewrite zlen_app in G. change (zlen [cur]) with 1 in G.
  replace (zlen groups + 1 - 1 + Z.of_nat (Z.to_nat (o / kFilterBase - zlen groups))) with (o / kFilterBase) in G by lia.
  replace (o / kFilterBase - (zlen groups + 1 - 1)) with (o / kFilterBase - zlen groups) by lia. exact G.
Qed.

Lemma AddKeys_ok keys : forall b groups cur, rows_ok b (groups ++ [cur]) -> rows_ok (foldl (fun b k => AddKey k b) b keys) (groups ++ [cur ++ keys]).
Proof.
  induction keys as [|k keys IH]; intros b groups cur Hb; cbn [foldl]; [rewrite app_nil_r; exact Hb|].
  replace (cur ++ k :: keys) with ((cur ++ [k]) ++ keys) by (rewrite <- app_assoc; reflexivity). apply IH. destruct Hb as (g & c & E & fs & Hc & Er & Eo & Ek & Es).
  apply app_inj_tail in E as [-> ->]. exists g, (c ++ [k]). split; [reflexivity|]. exists fs. unfold AddKey. cbn [keys_ start_ result_ filter_offsets_]. split_and!; auto.
  - rewrite concat_app, Ek. cbn [concat]. rewrite app_nil_r. reflexivity.
  - rewrite starts_snoc, Es, Ek, Z.add_0_l. reflexivity.
Qed.

(** What [FilterBlockBuilder] asks for: (StartBlock AddKey* )*. *)
Fixpoint build (blocks : list (Z * list (list Z))) b : option FilterBlockBuilder :=
  match blocks with
  | [] => Some b
  | (o, keys) :: blocks => b ← StartBlock o b; build blocks (foldl (fun b k => AddKey k b) b keys)
  end.

(** The offsets of blocks, from [o] on. *)
Fixpoint in_order o (blocks : list (Z * list (list Z))) : Prop :=
  match blocks with [] => True | (o', _) :: blocks => o <= o' /\ in_order o' blocks end.

(** The blocks at an index, and their keys. *)
Definition keys_at (i : Z) (blocks : list (Z * list (list Z))) : list (list Z) := concat (map snd (List.filter (fun bk => fst bk / kFilterBase =? i) blocks)).

Definition all_keys (blocks : list (Z * list (list Z))) : list (list Z) := concat (map snd blocks).
Definition row (i : nat) rows : list (list Z) := nth i rows [].

Lemma in_order_nonneg blocks : forall o o' keys, in_order o blocks -> (o', keys) ∈ blocks -> o <= o'.
Proof.
  induction blocks as [|[o1 k1] blocks IH]; intros o o' keys H Hin; [inversion Hin|]. cbn [in_order] in H. destruct H as [H1 H2].
  apply elem_of_cons in Hin as [E|Hin]; [injection E as -> ->; exact H1|]. pose proof (IH _ _ _ H2 Hin). lia.
Qed.

Lemma keys_at_in blocks o keys k : (o, keys) ∈ blocks -> k ∈ keys -> k ∈ keys_at (o / kFilterBase) blocks.
Proof.
  intros Hin Hk. apply list_elem_of_In, in_concat. exists keys. split; [|apply list_elem_of_In, Hk]. apply in_map_iff. exists (o, keys). split; [reflexivity|].
  apply filter_In. split; [apply list_elem_of_In, Hin|]. apply Z.eqb_refl.
Qed.

Lemma in_order_le o o' blocks : o <= o' -> in_order o' blocks -> in_order o blocks.
Proof. destruct blocks as [|[o2 ks] blocks]; cbn [in_order]; [auto|]. intros Ho [H1 H2]. split; [lia|exact H2]. Qed.

Lemma row_pad i n rows : row i (rows ++ replicate n []) = row i rows.
Proof.
  unfold row. destruct (Nat.lt_ge_cases i (length rows)) as [Hi|Hi]; [apply app_nth1, Hi|]. rewrite app_nth2, (nth_overflow rows) by lia.
  rewrite nth_lookup. destruct (replicate n [] !! _) eqn:E; [|reflexivity]. apply lookup_replicate in E as [-> _]. reflexivity.
Qed.

Lemma row_last i groups cur keys : row i (groups ++ [cur ++ keys]) = row i (groups ++ [cur]) ++ (if zlen groups =? Z.of_nat i then keys else []).
Proof.
  unfold row, zlen. destruct (Z.eqb_spec (Z.of_nat (length groups)) (Z.of_nat i)) as [E|Hne].
  - apply Nat2Z.inj in E as <-. rewrite !nth_middle. reflexivity.
  - rewrite app_nil_r. destruct (Nat.lt_ge_cases i (length groups)) as [Hi|Hi]; [rewrite !app_nth1 by lia; reflexivity|].
    rewrite !nth_overflow; [reflexivity|rewrite length_app; cbn; lia..].
Qed.

Lemma build_ok blocks : forall b rows, rows_ok b rows -> keys_fit (rows ++ [all_keys blocks]) -> in_order ((zlen rows - 1) * kFilterBase) blocks ->
  exists b' rows', build blocks b = Some b' /\ rows_ok b' rows' /\ concat rows' = concat rows ++ all_keys blocks /\ zlen rows <= zlen rows' /\
    (forall i, row i rows' = row i rows ++ keys_at (Z.of_nat i) blocks) /\ (zlen rows' = zlen rows \/ exists o ks, (o, ks) ∈ blocks /\ zlen rows' = o / kFilterBase + 1).
Proof.
  induction blocks as [|[o ks] blocks IH]; intros b rows Hb Hk Ho.
  - exists b, rows. split; [reflexivity|]. split; [exact Hb|]. split; [unfold all_keys; cbn; rewrite app_nil_r; reflexivity|]. split; [lia|].
    split; [intros i; unfold keys_at; cbn; rewrite app_nil_r; reflexivity|]. left. reflexivity.
  - cbn [in_order] in Ho. destruct Ho as [Ho Hord]. change kFilterBase with 2048 in *.
    assert (Hfit : keys_fit rows).
    { destruct Hk as [Hn Hl]. rewrite concat_app in Hn, Hl. apply Forall_app in Hl as [Hl _]. rewrite zlen_app in Hn. split; [|exact Hl]. pose proof (zlen_nonneg (concat [all_keys ((o, ks) :: blocks)])). lia. }
    assert (Hq : zlen rows - 1 <= o / 2048) by dlia. destruct (StartBlock_ok b rows o Hb Hfit) as (b1 & E1 & Hb1); [exact Hq|]. change kFilterBase with 2048 in Hb1. set (n := Z.to_nat _) in Hb1.
    assert (Hn : zlen (rows ++ replicate n []) = o / 2048 + 1) by (rewrite zlen_app; unfold zlen at 2; rewrite length_replicate; unfold n; lia).
    assert (Hc : concat (rows ++ replicate n ([] : list (list Z))) = concat rows) by (rewrite concat_app; replace (concat (replicate n [])) with ([] : list (list Z)) by (clear; induction n; auto); apply app_nil_r).
    pose proof Hb1 as (groups & cur & E & _). pose proof (row_pad) as Hpad. specialize (fun i => Hpad i n rows) as Hpad'. clear Hpad. rewrite E in Hb1, Hn, Hc. rewrite E in Hpad'.
    rewrite zlen_app in Hn. change (zlen [cur]) with 1 in Hn. pose proof (AddKeys_ok ks b1 groups cur Hb1) as Hb2. set (b2 := foldl _ b1 ks) in Hb2.
    assert (Hc2 : concat (groups ++ [cur ++ ks]) = concat rows ++ ks) by (rewrite <- Hc, !concat_app; cbn [concat]; rewrite !app_nil_r, <- app_assoc; reflexivity).
    destruct (IH b2 (groups ++ [cur ++ ks]) Hb2) as (b' & rows' & Eb & Hr & Ec & Hz & Hrow & Hin).
    + unfold keys_fit in *. rewrite concat_app, Hc2. rewrite concat_app in Hk. unfold all_keys in *. cbn [map concat snd] in Hk |- *. rewrite !app_nil_r in *. rewrite <- app_assoc. exact Hk.
    + rewrite zlen_app. change (zlen [_]) with 1. apply (in_order_le _ o); [dlia|exact Hord].
    + exists b', rows'. cbn [build]. rewrite E1. cbn [mbind option_bind]. split; [exact Eb|]. split; [exact Hr|]. split; [rewrite Ec, Hc2, <- app_assoc; reflexivity|].
      rewrite zlen_app in Hz, Hin. change (zlen [_]) with 1 in Hz, Hin. split; [dlia|]. split.
      * intros i. rewrite Hrow, row_last, Hpad', <- app_assoc. f_equal. unfold keys_at. cbn [List.filter fst]. change kFilterBase with 2048. replace (o / 2048) with (zlen groups) by lia.
        destruct (zlen groups =? Z.of_nat i); reflexivity.
      * right. destruct Hin as [Hin|(o' & ks' & Hin & E')]; [exists o, ks; split; [apply elem_of_cons; auto|change kFilterBase with 2048; lia]|].
        exists o', ks'. split; [apply elem_of_cons; auto|exact E'].
Qed.

(** ** What is written, and read back *)

Definition filter_contents fs : list Z := concat fs ++ concat (map EncodeFixed32 (map u32 (starts 0 (fs ++ [[]])))) ++ [kFilterBaseLg].

Lemma Filter_Finish_ok b rows : rows_ok b rows -> keys_fit rows ->
  exists groups fs, Forall2 covers groups fs /\ fst (Filter_Finish b) = filter_contents fs /\ (forall i, row i groups = row i rows) /\
    concat groups = concat rows /\ zlen groups <= zlen rows.
Proof.
  intros (groups & cur & -> & Hf) Hk. destruct (keys_fit_last _ _ Hk) as [Hn Hl].
  assert (E : exists b' rest groups', Filter_Finish b = (PutFixed32 (foldl PutFixed32 (result_ b') (filter_offsets_ b')) (u32 (zlen (result_ b'))) ++ [kFilterBaseLg], rest) /\
    filters_ok b' groups' [] /\ (forall i, row i groups' = row i (groups ++ [cur])) /\ concat groups' = concat (groups ++ [cur]) /\ zlen groups' <= zlen (groups ++ [cur])).
  { pose proof Hf as (fs & _ & _ & _ & _ & Es). unfold Filter_Finish. destruct cur as [|k cur].
    - rewrite Es. cbn [starts]. exists b. eexists _, groups. split; [reflexivity|]. split; [exact Hf|].
      split; [intros i; symmetry; exact (row_pad i 1 groups)|]. split; [rewrite concat_app; symmetry; apply app_nil_r|rewrite zlen_app; change (zlen [[]]) with 1; lia].
    - destruct (start_ b) as [|z l]; [discriminate Es|]. exists (GenerateFilter b). eexists _, (groups ++ [k :: cur]). split; [reflexivity|].
      split; [exact (GenerateFilter_ok b groups (k :: cur) Hf Hn Hl)|]. split; [reflexivity|]. split; [reflexivity|lia]. }
  destruct E as (b' & rest & groups' & -> & (fs & Hc & Er & Eo & _) & Hrow). exists groups', fs. split; [exact Hc|]. split; [|exact Hrow]. cbn [fst].
  unfold filter_contents, PutFixed32 at 1. rewrite foldl_PutFixed32, Eo, Er, starts_snoc, !map_app, concat_app. cbn [map concat]. rewrite app_nil_r, Z.add_0_l, <- !app_assoc. reflexivity.
Qed.

Section Read.
Context (fs : list (list Z)) (Hsize : zlen (filter_contents fs) < 2 ^ 32).
#[local] Abbreviation total := (zlen (concat fs)).

Lemma filter_contents_size : zlen (filter_contents fs) = total + 4 * zlen fs + 5.
Proof.
  unfold filter_contents. rewrite !zlen_app, zlen_fixed. replace (zlen (map u32 (starts 0 (fs ++ [[]])))) with (zlen fs + 1); [change (zlen [kFilterBaseLg]) with 1; lia|].
  unfold zlen at 2. rewrite length_map. change (Z.of_nat (length (starts 0 (fs ++ [[]])))) with (zlen (starts 0 (fs ++ [[]]))). rewrite zlen_starts, zlen_app. reflexivity.
Qed.

Lemma filter_offset i : 0 <= i <= zlen fs -> DecodeFixed32 (zdrop (total + i * 4) (filter_contents fs)) = zlen (concat (take (Z.to_nat i) fs)).
Proof.
  intros Hi. pose proof filter_contents_size as Hs. pose proof (zlen_nonneg (concat fs)). unfold filter_contents. rewrite zdrop_app_add by lia.
  set (n := Z.to_nat i). assert (Hn : (n <= length fs)%nat) by (unfold n, zlen in *; lia). assert (Ht : zlen (concat (take n fs)) <= total).
  { rewrite <- (take_drop n fs) at 2. rewrite concat_app, zlen_app. pose proof (zlen_nonneg (concat (drop n fs))). lia. }
  pose proof (zlen_nonneg (concat (take n fs))) as H0. apply DecodeFixed32_nth; [lia| |lia|constructor; [unfold byte_ok, kFilterBaseLg; lia|apply List.Forall_nil]]. fold n.
  change (map u32 (starts 0 (fs ++ [[]]))) with (u32 <$> starts 0 (fs ++ [[]])). rewrite list_lookup_fmap.
  assert (Es : starts 0 (fs ++ [[]]) !! n = Some (zlen (concat (take n fs)))).
  { rewrite <- (take_drop n fs) at 1. rewrite <- app_assoc. destruct (drop n fs ++ [[]]) as [|f l] eqn:E; [destruct (drop n fs); discriminate|].
    assert (En : length (take n fs) = n) by (rewrite length_take; lia). pose proof (starts_nth (take n fs) 0 f l) as E1. rewrite En in E1. exact E1. }
  rewrite Es. cbn [fmap option_fmap option_map]. f_equal. apply u32_small. lia.
Qed.

Lemma new_reader_ok : new_FilterBlockReader (filter_contents fs) = mkFilterBlockReader (filter_contents fs) total (zlen fs) 11.
Proof.
  pose proof filter_contents_size as Hs. pose proof (zlen_nonneg (concat fs)). pose proof (zlen_nonneg fs). unfold new_FilterBlockReader.
  destruct (Z.ltb_spec (zlen (filter_contents fs)) 5); [lia|]. replace (zlen (filter_contents fs) - 5) with (total + zlen fs * 4) by lia. rewrite filter_offset by lia.
  replace (take (Z.to_nat (zlen fs)) fs) with fs by (unfold zlen; rewrite Nat2Z.id, firstn_all; reflexivity).
  destruct (Z.ltb_spec (total + zlen fs * 4) total); [lia|].
  assert (E : znth 0 (zlen (filter_contents fs) - 1) (filter_contents fs) = 11).
  { unfold filter_contents. rewrite app_assoc. unfold znth. rewrite zlen_app. change (zlen [kFilterBaseLg]) with 1. unfold zlen. rewrite app_nth2 by lia.
    match goal with |- nth ?n _ _ = _ => replace n with O by lia end. reflexivity. }
  rewrite E. f_equal. dlia.
Qed.

Lemma Reader_ok o key : 0 <= o -> Reader_KeyMayMatch o key (new_FilterBlockReader (filter_contents fs)) =
  Some (match fs !! Z.to_nat (o / kFilterBase) with Some f => KeyMayMatch key f | None => true end).
Proof.
  intros Ho. rewrite new_reader_ok. unfold Reader_KeyMayMatch. cbn [base_lg_ num_ f_offset_ f_data_]. change (64 <=? 11) with false. cbv iota.
  rewrite Z.shiftr_div_pow2 by lia. change (2 ^ 11) with 2048. change kFilterBase with 2048. assert (Hq : 0 <= o / 2048) by dlia. set (i := o / 2048) in *.
  destruct (Z.ltb_spec i (zlen fs)) as [Hi|Hi]; [|rewrite lookup_ge_None_2 by (unfold zlen in Hi; lia); reflexivity].
  destruct (lookup_lt_is_Some_2 fs (Z.to_nat i)) as [f Ef]; [unfold zlen in Hi; lia|]. rewrite Ef. replace (total + i * 4 + 4) with (total + (i + 1) * 4) by lia. rewrite !filter_offset by lia.
  replace (Z.to_nat (i + 1)) with (S (Z.to_nat i)) by lia. rewrite (take_S_r fs (Z.to_nat i) f Ef). apply list_elem_of_split_length in Ef as (f1 & f2 & E & El).
  assert (Et : take (Z.to_nat i) fs = f1) by (rewrite El, E; apply take_app_length). rewrite Et, concat_app. cbn [concat]. rewrite app_nil_r, zlen_app.
  assert (Ef : concat fs = concat f1 ++ f ++ concat f2) by (rewrite E, concat_app; reflexivity). pose proof (zlen_nonneg (concat f1)). pose proof (zlen_nonneg f). pose proof (zlen_nonneg (concat f2)).
  destruct (Z.leb_spec (zlen (concat f1)) (zlen (concat f1) + zlen f)); [|lia]. destruct (Z.leb_spec (zlen (concat f1) + zlen f) total) as [_|Hgt]; [|rewrite Ef, !zlen_app in Hgt; lia].
  cbn [andb]. do 2 f_equal. unfold filter_contents. rewrite Ef, <- !app_assoc. apply zsub_app; [reflexivity|lia].
Qed.
End Read.

Lemma filters_size groups fs : Forall2 covers groups fs -> zlen (concat fs) <= rate * zlen (concat groups).
Proof.
  pose proof (rate_nonneg (rate := rate)) as H0. induction 1 as [|g f groups fs (_ & _ & Hf & _) _ IH]; cbn [concat]; [change (zlen []) with 0; lia|]. rewrite !zlen_app. nia.
Qed.

(** How large the block of the filters is. *)
Lemma Filter_Finish_size blocks b M : in_order 0 blocks -> zlen (all_keys blocks) < 2 ^ 31 -> Forall (fun k => zlen k < 2 ^ 64) (all_keys blocks) ->
  build blocks new_FilterBlockBuilder = Some b -> 0 <= M -> (forall o ks, (o, ks) ∈ blocks -> o <= M) ->
  bytes_ok (fst (Filter_Finish b)) /\ zlen (fst (Filter_Finish b)) <= rate * zlen (all_keys blocks) + 4 * (M / kFilterBase + 1) + 5.
Proof.
  intros Ho Hn Hl Eb HM Hmax. assert (Hfit : keys_fit ([[]] ++ [all_keys blocks])) by (unfold keys_fit; cbn [app concat]; rewrite app_nil_r; auto).
  destruct (build_ok blocks _ _ new_rows_ok Hfit Ho) as (b' & rows & E & Hr & Hc & _ & _ & Hz). assert (b' = b) as -> by congruence.
  destruct (Filter_Finish_ok b rows Hr) as (groups & fs & Hcov & Ef & _ & Hcg & Hzg); [unfold keys_fit; rewrite Hc; cbn [concat app]; auto|]. cbn [concat app] in Hc.
  pose proof (filters_size _ _ Hcov) as Hs. rewrite Hcg, Hc in Hs. rewrite Ef. split.
  - unfold filter_contents. rewrite !bytes_ok_app. split; [|split; [apply fixed_ok|constructor; [unfold byte_ok, kFilterBaseLg; lia|apply List.Forall_nil]]].
    clear -Hcov. induction Hcov as [|g f groups fs (Hf & _) _ IH]; [apply List.Forall_nil|]. cbn [concat]. apply bytes_ok_app. split; assumption.
  - rewrite filter_contents_size. change kFilterBase with 2048 in *. assert (E1 : zlen fs = zlen groups) by (unfold zlen; rewrite (Forall2_length _ _ _ Hcov); reflexivity). rewrite E1.
    assert (zlen rows <= M / 2048 + 1); [|lia]. change (zlen [[]]) with 1 in Hz. destruct Hz as [->|(o & ks & Hin & ->)]; [dlia|]. specialize (Hmax o ks Hin). dlia.
Qed.

Lemma build_app a : forall c b, build (a ++ c) b = b' ← build a b; build c b'.
Proof.
  induction a as [|[o ks] a IH]; intros c b; [reflexivity|]. cbn [app build]. destruct (StartBlock o b) as [b1|]; [|reflexivity]. cbn [mbind option_bind]. apply IH.
Qed.

Lemma build_start bs o b b1 : build bs b = Some b1 -> build (bs ++ [(o, [])]) b = StartBlock o b1.
Proof. intros E. rewrite build_app, E. cbn. destruct (StartBlock o b1); reflexivity. Qed.

Lemma build_key bs o ks k b b1 : build (bs ++ [(o, ks)]) b = Some b1 -> build (bs ++ [(o, ks ++ [k])]) b = Some (AddKey k b1).
Proof.
  rewrite !build_app. destruct (build bs b) as [b2|]; [|discriminate]. cbn. destruct (StartBlock o b2) as [b3|]; [|discriminate]. cbn. intros E. injection E as <-.
  rewrite foldl_app. reflexivity.
Qed.

Lemma build_total blocks : in_order 0 blocks -> zlen (all_keys blocks) < 2 ^ 31 -> Forall (fun k => zlen k < 2 ^ 64) (all_keys blocks) ->
  exists b, build blocks new_FilterBlockBuilder = Some b.
Proof.
  intros Ho Hn Hl. assert (Hfit : keys_fit ([[]] ++ [all_keys blocks])) by (unfold keys_fit; cbn [app concat]; rewrite app_nil_r; auto).
  destruct (build_ok blocks _ _ new_rows_ok Hfit Ho) as (b & _ & E & _). eauto.
Qed.

(** For each index there is a filter of its keys, and the reader asks it. *)
Lemma filters_answer blocks : in_order 0 blocks -> zlen (all_keys blocks) < 2 ^ 31 -> Forall (fun k => zlen k < 2 ^ 64) (all_keys blocks) ->
  exists b, build blocks new_FilterBlockBuilder = Some b /\ let contents := fst (Filter_Finish b) in
    (zlen contents < 2 ^ 32 -> forall o, 0 <= o ->
      let i := o / kFilterBase in let r := new_FilterBlockReader contents in
      num_ r <= i /\ keys_at i blocks = [] /\ (forall key, Reader_KeyMayMatch o key r = Some true) \/
      i < num_ r /\ exists f, covers (keys_at i blocks) f /\ forall key, Reader_KeyMayMatch o key r = Some (KeyMayMatch key f)).
Proof.
  intros Ho Hn Hl. assert (Hfit : keys_fit ([[]] ++ [all_keys blocks])) by (unfold keys_fit; cbn [app concat]; rewrite app_nil_r; auto).
  destruct (build_ok blocks _ _ new_rows_ok Hfit Ho) as (b & rows & E & Hr & Hc & _ & Hrow & _). exists b. split; [exact E|].
  destruct (Filter_Finish_ok b rows Hr) as (groups & fs & Hcov & Ef & Hg & _); [unfold keys_fit; rewrite Hc; cbn [concat app]; auto|]. cbn zeta. rewrite Ef. intros Hs o H0.
  assert (Hq : 0 <= o / kFilterBase) by (change kFilterBase with 2048; dlia). rewrite (new_reader_ok fs Hs). cbn [num_]. rewrite <- (new_reader_ok fs Hs). set (i := o / kFilterBase) in *.
  assert (Hk : row (Z.to_nat i) groups = keys_at i blocks).
  { rewrite Hg, Hrow, Z2Nat.id by exact Hq. unfold row. destruct (Z.to_nat i) as [|[|n]]; reflexivity. }
  destruct (fs !! Z.to_nat i) as [f|] eqn:Ei.
  - right. split; [apply lookup_lt_Some in Ei; unfold zlen; lia|]. exists f. split; [|intros key; rewrite Reader_ok by assumption; fold i; rewrite Ei; reflexivity].
    destruct (Forall2_lookup_r _ _ _ _ _ Hcov Ei) as (ks & Eks & Hks). rewrite <- Hk. unfold row. rewrite (nth_lookup_Some _ _ _ _ Eks). exact Hks.
  - left. apply lookup_ge_None_1 in Ei as Hlen. split; [unfold zlen; lia|]. split; [|intros key; rewrite Reader_ok by assumption; fold i; rewrite Ei; reflexivity].
    rewrite <- Hk. unfold row. apply nth_overflow. rewrite (Forall2_length _ _ _ Hcov). exact Hlen.
Qed.
End Filters.

(** * Properties *)


(** Two keys in one block, one in a block further on, none between. *)
Definition two_blocks : list (Z * list (list Z)) :=
  [(0, [bytes_of "apple" ++ zrep 8 1; bytes_of "fig" ++ zrep 8 1]); (5000, [bytes_of "pear" ++ zrep 8 1])].

