(* ===== verification/LdbTable.v ===== *)
(** leveldb/table/format.{h,cc}, table/table_builder.cc, table/table.cc: tables.

    A table is a file of blocks, with a block that leads to them, perhaps one of filters,
    and a footer that leads to these.  What is added to a builder in order is what the
    table opened from the file shows, and a key that was added is found. *)
From Stdlib Require Import ZArith Lia Strings.String.
From Stdlib Require Sorted.
From stdpp Require Import base list numbers option sorting.
From S2P Require Import Prelude LdbCoding LdbCrc LdbLog LdbFormat LdbSkip LdbBatch LdbIter LdbMerge LdbBlock LdbTwoLevel LdbFilter.

Open Scope Z_scope.

#[local] Arguments zlen : simpl never.
#[local] Arguments ztake : simpl never.
#[local] Arguments zdrop : simpl never.

(** * The interfaces *)

(** include/leveldb/env.h: a file that is read anywhere. *)
Class RandomAccessFile (R : Type) := file_ReadAt : Z -> Z -> R -> bool * list Z.

(** What env.h promises of one without errors: [n] bytes, or all there are. *)
Class RandomAccessFileLaws (R : Type) {RF : RandomAccessFile R} := {
  whole : R -> list Z;
  ReadAt_whole : forall offset n f, 0 <= offset -> 0 <= n -> file_ReadAt offset n f = (true, ztake n (zdrop offset (whole f))) }.

(** port/port_stdcxx.h: the functions of the snappy library, [None] where they return
    false. *)
Class Snappy := {
  Snappy_Compress : list Z -> option (list Z);
  Snappy_GetUncompressedLength : list Z -> option Z;
  Snappy_Uncompress : list Z -> option (list Z) }.

Class SnappyLaws (S : Snappy) := {
  Compress_ok : forall raw c, bytes_ok raw -> Snappy_Compress raw = Some c ->
    bytes_ok c /\ Snappy_GetUncompressedLength c = Some (zlen raw) /\ Snappy_Uncompress c = Some raw }.

(** The build without the library. *)
Definition no_snappy : Snappy := {| Snappy_Compress _ := None; Snappy_GetUncompressedLength _ := None; Snappy_Uncompress _ := None |}.

Lemma no_snappy_laws : SnappyLaws no_snappy.
Proof. constructor. discriminate. Qed.

(** include/leveldb/options.h: what tables use. *)
Inductive CompressionType := kNoCompression | kSnappyCompression.
Definition compression_byte (t : CompressionType) : Z := match t with kNoCompression => 0 | kSnappyCompression => 1 end.

Record Options := mkOptions {
  paranoid_checks : bool;
  block_size : Z;
  block_restart_interval : Z;
  compression : CompressionType;
  filter_policy : option FilterPolicy }.

Definition to_status (ok : bool) : Status := if ok then OK else IOError.

(** * The format *)

Section Format.
Context {P : Port}.

Record BlockHandle := mkBlockHandle { bh_offset : Z; bh_size : Z }.

Definition kMaxEncodedLength : Z := 10 + 10.

Definition new_BlockHandle : BlockHandle := mkBlockHandle (2 ^ 64 - 1) (2 ^ 64 - 1).

(** [None] is a failed assertion. *)
Definition Handle_EncodeTo (h : BlockHandle) (dst : list Z) : option (list Z) :=
  if bh_offset h =? 2 ^ 64 - 1 then None
  else if bh_size h =? 2 ^ 64 - 1 then None
  else Some (PutVarint64 (PutVarint64 dst (bh_offset h)) (bh_size h)).

Definition Handle_DecodeFrom (input : list Z) (h : BlockHandle) : Status * BlockHandle * list Z :=
  match GetVarint64 input with
  | (Some offset, input) =>
    let h := mkBlockHandle offset (bh_size h) in
    match GetVarint64 input with
    | (Some size, input) => (OK, mkBlockHandle offset size, input)
    | (None, input) => (CorruptionStatus "bad block handle", h, input)
    end
  | (None, input) => (CorruptionStatus "bad block handle", h, input)
  end.

Record Footer := mkFooter { metaindex_handle_ : BlockHandle; index_handle_ : BlockHandle }.

Definition kEncodedLength : Z := 2 * kMaxEncodedLength + 8.
Definition kTableMagicNumber : Z := 0xdb4775248b80fb57.
Definition kBlockTrailerSize : Z := 5.

(** [std::string::resize]. *)
Definition resize (n : Z) (s : list Z) : list Z := ztake n s ++ zrep (n - zlen s) 0.

Definition Footer_EncodeTo (f : Footer) (dst : list Z) : option (list Z) :=
  let original_size := zlen dst in
  dst ← Handle_EncodeTo (metaindex_handle_ f) dst;
  dst ← Handle_EncodeTo (index_handle_ f) dst;
  let dst := resize (2 * kMaxEncodedLength) dst in
  let dst := PutFixed32 dst (Z.land kTableMagicNumber 0xffffffff) in
  let dst := PutFixed32 dst (Z.shiftr kTableMagicNumber 32) in
  if zlen dst =? original_size + kEncodedLength then Some dst else None.

(** [None] is a read outside of the input; what is left of it, which no caller uses, is not
    returned. *)
Definition Footer_DecodeFrom (input : list Z) : option (Status * Footer) :=
  if zlen input <? kEncodedLength then None
  else
    let magic_ptr := zdrop (kEncodedLength - 8) input in
    let magic_lo := DecodeFixed32 magic_ptr in
    let magic_hi := DecodeFixed32 (zdrop 4 magic_ptr) in
    let magic := Z.lor (Z.shiftl magic_hi 32) magic_lo in
    let f := mkFooter new_BlockHandle new_BlockHandle in
    if negb (magic =? kTableMagicNumber) then Some (CorruptionStatus "not an sstable (bad magic number)", f)
    else
      let '(result, metaindex_handle, input) := Handle_DecodeFrom input (metaindex_handle_ f) in
      if status_ok result then
        let '(result, index_handle, _) := Handle_DecodeFrom input (index_handle_ f) in
        Some (result, mkFooter metaindex_handle index_handle)
      else Some (result, mkFooter metaindex_handle (index_handle_ f)).

Context {A : Address} {R : Type} {RF : RandomAccessFile R} {S : Snappy}.

(** What is read is at the front of the buffer of [n + kBlockTrailerSize] bytes; [None] is
    a read outside of it. *)
Definition ReadBlock (file : R) (verify_checksums : bool) (handle : BlockHandle) : option (Status * list Z) :=
  let n := bh_size handle in
  let '(s, contents) := file_ReadAt (bh_offset handle) (u64 (n + kBlockTrailerSize)) file in
  if negb s then Some (IOError, [])
  else if negb (zlen contents =? u64 (n + kBlockTrailerSize)) then Some (CorruptionStatus "truncated block read", [])
  else if zlen contents <? n + kBlockTrailerSize then None
  else
    let data := contents in
    let crc := Unmask (DecodeFixed32 (zdrop (n + 1) data)) in
    let actual := Value (addr data) (ztake (n + 1) data) in
    if verify_checksums && negb (actual =? crc) then Some (CorruptionStatus "block checksum mismatch", [])
    else if znth 0 n data =? compression_byte kNoCompression then Some (OK, ztake n data)
    else if znth 0 n data =? compression_byte kSnappyCompression then
      match Snappy_GetUncompressedLength (ztake n data) with
      | None => Some (CorruptionStatus "corrupted compressed block contents", [])
      | Some ulength =>
        match Snappy_Uncompress (ztake n data) with
        | None => Some (CorruptionStatus "corrupted compressed block contents", [])
        | Some ubuf => Some (OK, ztake ulength ubuf)
        end
      end
    else Some (CorruptionStatus "bad block type", []).
End Format.

(** * The builder *)

Section Builder.
Context {P : Port} {C : Comparator} {A : Address} {F : Type} {W : WritableFile F} {S : Snappy} (options : Options).

Record TableBuilder := mkTableBuilder {
  tb_file : F;
  tb_offset : Z;
  tb_status : Status;
  data_block : BlockBuilder;
  index_block : BlockBuilder;
  tb_last_key : list Z;
  num_entries : Z;
  closed : bool;
  filter_block : option (FilterPolicy * FilterBlockBuilder);
  pending_index_entry : bool;
  pending_handle : BlockHandle }.
Implicit Types (r : TableBuilder).

Definition tb_ok r : bool := status_ok (tb_status r).

(** Assignments to members. *)
Definition with_file (file : F) (offset : Z) (status : Status) r : TableBuilder :=
  mkTableBuilder file offset status (data_block r) (index_block r) (tb_last_key r) (num_entries r) (closed r) (filter_block r) (pending_index_entry r) (pending_handle r).
Definition with_data (b : BlockBuilder) (last_key : list Z) (n : Z) r : TableBuilder :=
  mkTableBuilder (tb_file r) (tb_offset r) (tb_status r) b (index_block r) last_key n (closed r) (filter_block r) (pending_index_entry r) (pending_handle r).
Definition with_index (b : BlockBuilder) (pending : bool) r : TableBuilder :=
  mkTableBuilder (tb_file r) (tb_offset r) (tb_status r) (data_block r) b (tb_last_key r) (num_entries r) (closed r) (filter_block r) pending (pending_handle r).
Definition with_pending (b : BlockBuilder) (h : BlockHandle) r : TableBuilder :=
  mkTableBuilder (tb_file r) (tb_offset r) (tb_status r) b (index_block r) (tb_last_key r) (num_entries r) (closed r) (filter_block r) (pending_index_entry r) h.
Definition with_filter (f : option (FilterPolicy * FilterBlockBuilder)) r : TableBuilder :=
  mkTableBuilder (tb_file r) (tb_offset r) (tb_status r) (data_block r) (index_block r) (tb_last_key r) (num_entries r) (closed r) f (pending_index_entry r) (pending_handle r).
Definition with_closed r : TableBuilder :=
  mkTableBuilder (tb_file r) (tb_offset r) (tb_status r) (data_block r) (index_block r) (tb_last_key r) (num_entries r) true (filter_block r) (pending_index_entry r) (pending_handle r).

(** The calls on [filter_block], if there is one; a [FilterBlockBuilder] has its policy. *)
Definition filter_StartBlock (offset : Z) r : option TableBuilder :=
  match filter_block r with Some (policy_, fb) => fb ← StartBlock (FP := policy_) offset fb; Some (with_filter (Some (policy_, fb)) r) | None => Some r end.
Definition filter_AddKey (key : list Z) r : TableBuilder :=
  match filter_block r with Some (policy_, fb) => with_filter (Some (policy_, AddKey key fb)) r | None => r end.

(** [None] is a failed assertion, here and below. *)
Definition new_TableBuilder (file : F) : option TableBuilder :=
  data ← new_BlockBuilder (block_restart_interval options);
  index ← new_BlockBuilder 1;
  let fb := match filter_policy options with Some policy => Some (policy, new_FilterBlockBuilder) | None => None end in
  filter_StartBlock 0 (mkTableBuilder file 0 OK data index [] 0 false fb false new_BlockHandle).

Definition WriteRawBlock (block_contents : list Z) (type : CompressionType) r : BlockHandle * TableBuilder :=
  let handle := mkBlockHandle (tb_offset r) (zlen block_contents) in
  let '(ok, file) := file_Append block_contents (tb_file r) in
  if negb ok then (handle, with_file file (tb_offset r) IOError r)
  else
    let crc := Value (addr block_contents) block_contents in
    let crc := Extend (addr [compression_byte type]) crc [compression_byte type] in
    let trailer := compression_byte type :: EncodeFixed32 (Mask crc) in
    let '(ok, file) := file_Append trailer file in
    if negb ok then (handle, with_file file (tb_offset r) IOError r)
    else (handle, with_file file (u64 (tb_offset r + (zlen block_contents + kBlockTrailerSize))) OK r).

(** What is stored of a block, and how. *)
Definition block_contents (raw : list Z) : list Z * CompressionType :=
  match compression options with
  | kNoCompression => (raw, kNoCompression)
  | kSnappyCompression =>
    match Snappy_Compress raw with
    | Some compressed => if zlen compressed <? u64 (zlen raw - zlen raw / 8) then (compressed, kSnappyCompression) else (raw, kNoCompression)
    | None => (raw, kNoCompression)
    end
  end.

(** The handle, the block after [Reset], and the builder. *)
Definition WriteBlock (block : BlockBuilder) r : option (BlockHandle * BlockBuilder * TableBuilder) :=
  if negb (tb_ok r) then None
  else
    let '(raw, block) := Finish block in
    let '(contents, type) := block_contents raw in
    let '(handle, r) := WriteRawBlock contents type r in
    Some (handle, Reset block, r).

Definition Flush r : option TableBuilder :=
  if closed r then None
  else if negb (tb_ok r) then Some r
  else if empty (data_block r) then Some r
  else if pending_index_entry r then None
  else
    '(handle, block, r) ← WriteBlock (data_block r) r;
    let r := with_pending block handle r in
    let r := if tb_ok r then
               let r := with_index (index_block r) true r in
               let '(ok, file) := file_Flush (tb_file r) in with_file file (tb_offset r) (to_status ok) r
             else r in
    filter_StartBlock (tb_offset r) r.

(** The index entry of the last block, with a key that is made of [tb_last_key].  The code
    makes it in place; [Add] then assigns the new key, and after [Finish] there is no use
    of it. *)
Definition add_index_entry (key : list Z) r : option TableBuilder :=
  handle_encoding ← Handle_EncodeTo (pending_handle r) [];
  b ← Builder_Add 1 key handle_encoding (index_block r);
  Some (with_index b false r).

Definition Add (key value : list Z) r : option TableBuilder :=
  if closed r then None
  else if negb (tb_ok r) then Some r
  else if (0 <? num_entries r) && negb (0 <? Compare key (tb_last_key r)) then None
  else
    r ← (if pending_index_entry r then
           if negb (empty (data_block r)) then None
           else add_index_entry (FindShortestSeparator (tb_last_key r) key) r
         else Some r);
    let r := filter_AddKey key r in
    b ← Builder_Add (block_restart_interval options) key value (data_block r);
    let r := with_data b key (num_entries r + 1) r in
    if block_size options <=? CurrentSizeEstimate (data_block r) then Flush r else Some r.

(** The parts of [Finish]: the filters, the block that leads to them, the index and the
    footer. *)
Definition write_filter r : BlockHandle * TableBuilder :=
  match filter_block r with
  | Some (policy_, fb) =>
    if tb_ok r then
      let '(contents, fb) := Filter_Finish (FP := policy_) fb in
      WriteRawBlock contents kNoCompression (with_filter (Some (policy_, fb)) r)
    else (new_BlockHandle, r)
  | None => (new_BlockHandle, r)
  end.

Definition filter_key (policy : FilterPolicy) : list Z := bytes_of "filter." ++ @Name policy.

Definition write_metaindex (filter_block_handle : BlockHandle) r : option (BlockHandle * TableBuilder) :=
  if tb_ok r then
    meta_index_block ← new_BlockBuilder (block_restart_interval options);
    meta_index_block ← (match filter_block r, filter_policy options with
      | Some _, Some policy =>
        handle_encoding ← Handle_EncodeTo filter_block_handle [];
        Builder_Add (block_restart_interval options) (filter_key policy) handle_encoding meta_index_block
      | _, _ => Some meta_index_block
      end);
    '(handle, _, r) ← WriteBlock meta_index_block r;
    Some (handle, r)
  else Some (new_BlockHandle, r).

Definition write_index r : option (BlockHandle * TableBuilder) :=
  if tb_ok r then
    r ← (if pending_index_entry r then add_index_entry (FindShortSuccessor (tb_last_key r)) r else Some r);
    '(handle, block, r) ← WriteBlock (index_block r) r;
    Some (handle, with_index block (pending_index_entry r) r)
  else Some (new_BlockHandle, r).

Definition write_footer (metaindex_block_handle index_block_handle : BlockHandle) r : option TableBuilder :=
  if tb_ok r then
    footer_encoding ← Footer_EncodeTo (mkFooter metaindex_block_handle index_block_handle) [];
    let '(ok, file) := file_Append footer_encoding (tb_file r) in
    Some (with_file file (if (ok : bool) then u64 (tb_offset r + zlen footer_encoding) else tb_offset r) (to_status ok) r)
  else Some r.

Definition Table_Finish r : option (Status * TableBuilder) :=
  r ← Flush r;
  if closed r then None
  else
    let r := with_closed r in
    let '(filter_block_handle, r) := write_filter r in
    '(metaindex_block_handle, r) ← write_metaindex filter_block_handle r;
    '(index_block_handle, r) ← write_index r;
    r ← write_footer metaindex_block_handle index_block_handle r;
    Some (tb_status r, r).

Definition Abandon r : option TableBuilder := if closed r then None else Some (with_closed r).

Definition NumEntries r : Z := u64 (num_entries r).
Definition FileSize r : Z := tb_offset r.
End Builder.
Arguments TableBuilder : clear implicits.

(** * The table *)

Section Reader.
Context {P : Port} {C : Comparator} {A : Address} {R : Type} {RF : RandomAccessFile R} {S : Snappy}.

(** [block_cache_] is what the cache has, if there is one; what others put there, and when it
    is dropped, is not the table's. *)
Record Table := mkTable {
  t_options : Options;
  t_file : R;
  block_cache_ : option (list Z -> option Block);
  cache_id_ : Z;
  filter_ : option (FilterPolicy * FilterBlockReader);
  t_metaindex_handle : BlockHandle;
  t_index_block : Block }.
Implicit Types (t : Table).

(** What [Block::NewIterator] returns. *)
Definition BlockIterator : Type := EmptyIterator + BlockIter.

Definition Either_Iterator {I J : Type} (IT : Iterator I) (JT : Iterator J) : Iterator (I + J) := {|
  it_Valid i := match i with inl i => it_Valid i | inr j => it_Valid j end;
  it_SeekToFirst i := match i with inl i => inl <$> it_SeekToFirst i | inr j => inr <$> it_SeekToFirst j end;
  it_SeekToLast i := match i with inl i => inl <$> it_SeekToLast i | inr j => inr <$> it_SeekToLast j end;
  it_Seek k i := match i with inl i => inl <$> it_Seek k i | inr j => inr <$> it_Seek k j end;
  it_Next i := match i with inl i => inl <$> it_Next i | inr j => inr <$> it_Next j end;
  it_Prev i := match i with inl i => inl <$> it_Prev i | inr j => inr <$> it_Prev j end;
  it_key i := match i with inl i => it_key i | inr j => it_key j end;
  it_value i := match i with inl i => it_value i | inr j => it_value j end;
  it_status i := match i with inl i => it_status i | inr j => it_status j end |}.

Definition BlockIterator_Iterator {C : Comparator} : Iterator BlockIterator := Either_Iterator Empty_Iterator BlockIter_Iterator.
#[local] Existing Instance BlockIterator_Iterator.

(** Keys of the block that leads to the filters are in the order of bytes. *)
Definition meta_Iterator : Iterator BlockIterator := BlockIterator_Iterator (C := BytewiseComparator).

Definition set_reader (f : option (FilterPolicy * FilterBlockReader)) t : Table :=
  mkTable (t_options t) (t_file t) (block_cache_ t) (cache_id_ t) f (t_metaindex_handle t) (t_index_block t).

Definition ReadFilter (policy : FilterPolicy) (filter_handle_value : list Z) t : option Table :=
  let '(s, filter_handle, _) := Handle_DecodeFrom filter_handle_value new_BlockHandle in
  if negb (status_ok s) then Some t
  else
    '(s, block) ← ReadBlock (t_file t) (paranoid_checks (t_options t)) filter_handle;
    if negb (status_ok s) then Some t else Some (set_reader (Some (policy, new_FilterBlockReader block)) t).

Definition ReadMeta (footer : Footer) t : option Table :=
  match filter_policy (t_options t) with
  | None => Some t
  | Some policy =>
    '(s, contents) ← ReadBlock (t_file t) (paranoid_checks (t_options t)) (metaindex_handle_ footer);
    if negb (status_ok s) then Some t
    else
      iter ← Block_NewIterator (new_Block contents);
      let key := filter_key policy in
      iter ← it_Seek (Iterator := meta_Iterator) key iter;
      if it_Valid (Iterator := meta_Iterator) iter then
        k ← it_key (Iterator := meta_Iterator) iter;
        if bool_decide (k = key) then v ← it_value (Iterator := meta_Iterator) iter; ReadFilter policy v t else Some t
      else Some t
  end.

Definition Open (options : Options) (file : R) (size : Z) (block_cache : option (list Z -> option Block)) (new_id : Z) : option (Status * option Table) :=
  if size <? kEncodedLength then Some (CorruptionStatus "file is too short to be an sstable", None)
  else
    let '(s, footer_input) := file_ReadAt (size - kEncodedLength) kEncodedLength file in
    if negb s then Some (IOError, None)
    else
      '(s, footer) ← Footer_DecodeFrom footer_input;
      if negb (status_ok s) then Some (s, None)
      else
        '(s, index_block_contents) ← ReadBlock file (paranoid_checks options) (index_handle_ footer);
        if status_ok s then
          let t := mkTable options file block_cache (match block_cache with Some _ => new_id | None => 0 end) None (metaindex_handle_ footer) (new_Block index_block_contents) in
          t ← ReadMeta footer t;
          Some (s, Some t)
        else Some (s, None).

Definition cache_key (cache_id offset : Z) : list Z := EncodeFixed64 cache_id ++ EncodeFixed64 offset.

Definition BlockReader t (verify_checksums : bool) (index_value : list Z) : option BlockIterator :=
  let '(s, handle, _) := Handle_DecodeFrom index_value new_BlockHandle in
  if negb (status_ok s) then Some (inl (NewErrorIterator s))
  else
    let cached := match block_cache_ t with Some Lookup => Lookup (cache_key (cache_id_ t) (bh_offset handle)) | None => None end in
    match cached with
    | Some block => Block_NewIterator block
    | None =>
      '(s, contents) ← ReadBlock (t_file t) verify_checksums handle;
      if status_ok s then Block_NewIterator (new_Block contents) else Some (inl (NewErrorIterator s))
    end.

(** [Table::NewIterator], and its operations. *)
Definition Table_NewIterator t : option (TwoLevelIterator BlockIterator BlockIterator) := i ← Block_NewIterator (t_index_block t); new_TwoLevelIterator i.

Definition Table_Iterator t (verify_checksums : bool) (fuel : nat) : Iterator (TwoLevelIterator BlockIterator BlockIterator) :=
  TwoLevel_Iterator (BlockReader t verify_checksums) fuel.

(** The entry that is given to [handle_result], if one is, and the status. *)
Definition InternalGet t (verify_checksums : bool) (k : list Z) : option (option entry * Status) :=
  iiter ← (Block_NewIterator (t_index_block t) : option BlockIterator);
  iiter ← it_Seek k iiter;
  '(found, s) ← (if it_Valid iiter then
    handle_value ← it_value iiter;
    denied ← (match filter_ t with
      | None => Some false
      | Some (policy, filter) =>
        let '(s, handle, _) := Handle_DecodeFrom handle_value new_BlockHandle in
        if status_ok s then may ← Reader_KeyMayMatch (FP := policy) (bh_offset handle) k filter; Some (negb may) else Some false
      end);
    if (denied : bool) then Some (None, OK)
    else
      block_iter ← BlockReader t verify_checksums handle_value;
      block_iter ← it_Seek k block_iter;
      found ← (if it_Valid block_iter then key ← it_key block_iter; value ← it_value block_iter; Some (Some (key, value)) else Some None);
      Some (found, it_status block_iter)
   else Some (None, OK));
  Some (found, if status_ok s then it_status iiter else s).

Definition ApproximateOffsetOf t (key : list Z) : option Z :=
  index_iter ← (Block_NewIterator (t_index_block t) : option BlockIterator);
  index_iter ← it_Seek key index_iter;
  if it_Valid index_iter then
    input ← it_value index_iter;
    let '(s, handle, _) := Handle_DecodeFrom input new_BlockHandle in
    Some (if status_ok s then bh_offset handle else bh_offset (t_metaindex_handle t))
  else Some (bh_offset (t_metaindex_handle t)).
End Reader.
Arguments Table : clear implicits.

(** * The format is read as it was written *)

Section FormatProofs.
Context {P : Port} {A : Address}.
Implicit Types (h : BlockHandle) (s data raw pre post : list Z).

Definition handle_ok h : Prop := 0 <= bh_offset h < 2 ^ 63 /\ 0 <= bh_size h < 2 ^ 63.
Definition handle_bytes h : list Z := EncodeVarint64 (bh_offset h) ++ EncodeVarint64 (bh_size h).

Lemma Handle_EncodeTo_eq h dst : handle_ok h -> Handle_EncodeTo h dst = Some (dst ++ handle_bytes h).
Proof.
  intros [Ho Hs]. unfold Handle_EncodeTo. destruct (Z.eqb_spec (bh_offset h) (2 ^ 64 - 1)); [lia|]. destruct (Z.eqb_spec (bh_size h) (2 ^ 64 - 1)); [lia|].
  unfold PutVarint64, handle_bytes. rewrite <- app_assoc. reflexivity.
Qed.

Lemma handle_bytes_ok h : handle_ok h -> bytes_ok (handle_bytes h) /\ 2 <= zlen (handle_bytes h) <= 20.
Proof.
  intros [Ho Hs]. destruct (EncodeVarint64_spec (bh_offset h) ltac:(lia)) as (_ & _ & H1 & _ & H2 & _). destruct (EncodeVarint64_spec (bh_size h) ltac:(lia)) as (_ & _ & H3 & _ & H4 & _).
  unfold handle_bytes. rewrite zlen_app. split; [apply bytes_ok_app; split; assumption|lia].
Qed.

Lemma Handle_Decode h h0 s : handle_ok h -> bytes_ok s -> Handle_DecodeFrom (handle_bytes h ++ s) h0 = (OK, h, s).
Proof.
  intros Hh Hs. pose proof Hh as [Ho Hz]. destruct (EncodeVarint64_spec (bh_size h) ltac:(lia)) as (_ & _ & H3 & _). unfold Handle_DecodeFrom, handle_bytes. rewrite <- app_assoc.
  rewrite GetVarint64_Encode; [|lia|apply bytes_ok_app; split; assumption]. rewrite GetVarint64_Encode by (assumption || lia). destruct h. reflexivity.
Qed.

Lemma Footer_roundtrip f : handle_ok (metaindex_handle_ f) -> handle_ok (index_handle_ f) ->
  exists enc, Footer_EncodeTo f [] = Some enc /\ zlen enc = kEncodedLength /\ bytes_ok enc /\ Footer_DecodeFrom enc = Some (OK, f).
Proof.
  intros Hm Hi. destruct (handle_bytes_ok _ Hm) as [Bm Zm]. destruct (handle_bytes_ok _ Hi) as [Bi Zi]. set (hm := handle_bytes (metaindex_handle_ f)) in *. set (hi := handle_bytes (index_handle_ f)) in *.
  unfold Footer_EncodeTo. rewrite Handle_EncodeTo_eq by exact Hm. cbn [mbind option_bind app]. rewrite Handle_EncodeTo_eq by exact Hi. cbn [mbind option_bind]. fold hm hi.
  set (pad := zrep (40 - zlen (hm ++ hi)) 0). assert (Er : resize (2 * kMaxEncodedLength) (hm ++ hi) = hm ++ hi ++ pad).
  { unfold resize, kMaxEncodedLength. change (2 * (10 + 10)) with 40. rewrite ztake_all_ge by (rewrite zlen_app; lia). rewrite <- app_assoc. reflexivity. }
  rewrite Er. assert (Zp : zlen (hm ++ hi ++ pad) = 40) by (rewrite !zlen_app; unfold pad; rewrite zlen_zrep, zlen_app by (rewrite zlen_app; lia); lia).
  set (lo := Z.land kTableMagicNumber 0xffffffff). set (hi32 := Z.shiftr kTableMagicNumber 32). unfold PutFixed32.
  assert (Zt : zlen (((hm ++ hi ++ pad) ++ EncodeFixed32 lo) ++ EncodeFixed32 hi32) = 48) by (rewrite !zlen_app, !zlen_EncodeFixed32 in *; lia). rewrite Zt.
  change (48 =? zlen [] + kEncodedLength) with true. cbn iota. eexists. split; [reflexivity|]. split; [exact Zt|].
  assert (Bp : bytes_ok pad) by (unfold pad, bytes_ok, zrep; apply Forall_replicate; unfold byte_ok; lia).
  assert (Bt : bytes_ok (pad ++ EncodeFixed32 lo ++ EncodeFixed32 hi32)) by (rewrite !bytes_ok_app; split_and!; [exact Bp|apply EncodeFixed32_ok|apply EncodeFixed32_ok]).
  split; [rewrite <- !app_assoc; apply bytes_ok_app; split; [exact Bm|apply bytes_ok_app; split; [exact Bi|exact Bt]]|]. unfold Footer_DecodeFrom. rewrite Zt. change (48 <? kEncodedLength) with false. cbn iota zeta.
  change (kEncodedLength - 8) with 40. rewrite <- app_assoc, zdrop_app_eq by (symmetry; exact Zp).
  rewrite DecodeFixed32_Encode; [|vm_compute; split; congruence|apply EncodeFixed32_ok]. rewrite zdrop_app_eq by (rewrite zlen_EncodeFixed32; reflexivity).
  rewrite <- (app_nil_r (EncodeFixed32 hi32)). rewrite DecodeFixed32_Encode; [|vm_compute; split; congruence|constructor].
  change (negb (Z.lor (Z.shiftl hi32 32) lo =? kTableMagicNumber)) with false. cbn iota. rewrite app_nil_r, <- !app_assoc. unfold hm.
  rewrite Handle_Decode; [|exact Hm|apply bytes_ok_app; split; [exact Bi|exact Bt]]. cbn [status_ok]. unfold hi. rewrite Handle_Decode by assumption. destruct f. reflexivity.
Qed.

(** A block in a file: the data, its type and the checksum of both. *)
Definition block_record data (type : CompressionType) : list Z :=
  data ++ compression_byte type :: EncodeFixed32 (Mask (crc32c 0 (data ++ [compression_byte type]))).

Lemma zlen_block_record data type : zlen (block_record data type) = zlen data + kBlockTrailerSize.
Proof. unfold block_record. rewrite zlen_app, zlen_cons, zlen_EncodeFixed32. reflexivity. Qed.

Lemma compression_byte_ok type : byte_ok (compression_byte type).
Proof. destruct type; unfold byte_ok; cbn; lia. Qed.

Lemma block_record_ok data type : bytes_ok data -> bytes_ok (block_record data type).
Proof. intros Hd. apply bytes_ok_app. split; [exact Hd|]. constructor; [apply compression_byte_ok|apply EncodeFixed32_ok]. Qed.

Context {S : Snappy} {SL : SnappyLaws S}.

Definition decodes data (type : CompressionType) raw : Prop :=
  match type with kNoCompression => raw = data | kSnappyCompression => Snappy_GetUncompressedLength data = Some (zlen raw) /\ Snappy_Uncompress data = Some raw end.

(** What a handle leads to in the bytes of a file. *)
Definition stored_at (B : list Z) h raw : Prop := handle_ok h /\ exists pre data type post,
  B = pre ++ block_record data type ++ post /\ bh_offset h = zlen pre /\ bh_size h = zlen data /\ bytes_ok data /\ decodes data type raw.

Lemma stored_at_app B h raw post : stored_at B h raw -> stored_at (B ++ post) h raw.
Proof. intros (Hh & pre & data & type & post' & -> & Hr). split; [exact Hh|]. exists pre, data, type, (post' ++ post). rewrite <- !app_assoc. auto. Qed.

Context {R : Type} {RF : RandomAccessFile R} {RL : RandomAccessFileLaws R}.

(** A handle whose size wraps. *)
Lemma ReadBlock_outside (file : R) verify h : 0 <= bh_offset h -> 2 ^ 64 - 5 <= bh_size h < 2 ^ 64 -> bh_offset h + (bh_size h + 5 - 2 ^ 64) <= zlen (whole file) -> ReadBlock file verify h = None.
Proof.
  intros Ho Hz Hf. unfold ReadBlock, kBlockTrailerSize. set (n := bh_size h) in *. assert (Eu : u64 (n + 5) = n + 5 - 2 ^ 64) by (unfold u64; dlia).
  rewrite Eu, ReadAt_whole by lia. cbn [negb]. assert (El : zlen (ztake (n + 5 - 2 ^ 64) (zdrop (bh_offset h) (whole file))) = n + 5 - 2 ^ 64) by (apply zlen_ztake; rewrite zlen_zdrop by lia; lia).
  rewrite El, Z.eqb_refl, (proj2 (Z.ltb_lt _ _)) by lia. reflexivity.
Qed.

Lemma ReadBlock_stored (file : R) verify h raw : stored_at (whole file) h raw -> ReadBlock file verify h = Some (OK, raw).
Proof.
  intros ([Ho Hz] & pre & data & type & post & EB & Eo & Ez & Hd & Hr). unfold ReadBlock. pose proof (zlen_nonneg data).
  rewrite u64_small by (unfold kBlockTrailerSize; lia). rewrite ReadAt_whole by (unfold kBlockTrailerSize; lia). cbn [negb].
  rewrite EB, Eo, Ez, zdrop_app, <- (zlen_block_record data type), ztake_app, Z.eqb_refl. cbn [negb]. rewrite (zlen_block_record data type), Z.ltb_irrefl. cbv zeta.
  assert (Et : ztake (zlen data + 1) (block_record data type) = data ++ [compression_byte type]).
  { unfold block_record. rewrite ztake_app_add by lia. reflexivity. }
  assert (Ed : zdrop (zlen data + 1) (block_record data type) = EncodeFixed32 (Mask (crc32c 0 (data ++ [compression_byte type])))).
  { unfold block_record. rewrite zdrop_app_add by lia. reflexivity. }
  rewrite Et, Ed. rewrite <- (app_nil_r (EncodeFixed32 _)), DecodeFixed32_Encode; [|apply Mask_range|constructor].
  assert (Hbt : bytes_ok (data ++ [compression_byte type])) by (apply bytes_ok_app; split; [exact Hd|repeat constructor; apply compression_byte_ok]).
  rewrite Unmask_Mask by (apply crc32c_range; [lia|exact Hbt]). unfold Value. rewrite Extend_crc32c; [|apply addr_ok|apply addr_ok|lia|exact Hbt]. rewrite Z.eqb_refl, andb_false_r.
  assert (En : znth 0 (zlen data) (block_record data type) = compression_byte type) by (unfold znth, zlen, block_record; rewrite Nat2Z.id, app_nth2, Nat.sub_diag by lia; reflexivity).
  assert (Ek : ztake (zlen data) (block_record data type) = data) by apply ztake_app. rewrite En, Ek.
  destruct type; cbn [compression_byte Z.eqb decodes] in *; [subst raw; reflexivity|]. destruct Hr as [-> ->]. cbn. rewrite ztake_all. reflexivity.
Qed.

Context {F : Type} {W : WritableFile F} {WL : WritableFileLaws F} {RE : ReliableFile F} (options : Options).

Lemma block_contents_ok raw : bytes_ok raw -> zlen raw < 2 ^ 62 -> let '(data, type) := block_contents options raw in bytes_ok data /\ decodes data type raw /\ zlen data <= zlen raw.
Proof.
  intros Hr Hl. unfold block_contents. destruct (compression options); [split_and!; auto; reflexivity|]. destruct (Snappy_Compress raw) as [c|] eqn:E; [|split_and!; auto; reflexivity].
  destruct (Compress_ok raw c Hr E) as (Hc & Hlc & Hu). pose proof (zlen_nonneg raw). destruct (Z.ltb_spec (zlen c) (u64 (zlen raw - zlen raw / 8))) as [Hlt|]; [|split_and!; auto; reflexivity].
  rewrite u64_small in Hlt by dlia. split_and!; auto; [split; assumption|dlia].
Qed.

Lemma Append_all s f : fst (file_Append s f) = true /\ contents (snd (file_Append s f)) = contents f ++ s.
Proof. pose proof (Append_reliable s f) as E. destruct (Append_contents s f) as (k & Hk). rewrite E in Hk. auto. Qed.

Lemma WriteRawBlock_ok data type (r : TableBuilder F) : bytes_ok data -> tb_offset r = zlen (contents (tb_file r)) -> zlen (contents (tb_file r)) + zlen data + 5 < 2 ^ 63 ->
  exists file, WriteRawBlock data type r = (mkBlockHandle (tb_offset r) (zlen data), with_file file (zlen (contents file)) OK r) /\
    contents file = contents (tb_file r) ++ block_record data type.
Proof.
  intros Hd Ho Hs. pose proof (zlen_nonneg (contents (tb_file r))). pose proof (zlen_nonneg data). unfold WriteRawBlock.
  destruct (Append_all data (tb_file r)) as [E1 C1]. destruct (file_Append data (tb_file r)) as [ok1 f1]. cbn [fst snd] in E1, C1. subst ok1. cbn [negb].
  set (trailer := _ :: EncodeFixed32 _). destruct (Append_all trailer f1) as [E2 C2]. destruct (file_Append trailer f1) as [ok2 f2]. cbn [fst snd] in E2, C2. subst ok2. cbn [negb].
  assert (Ec : contents f2 = contents (tb_file r) ++ block_record data type).
  { rewrite C2, C1, <- app_assoc. f_equal. unfold block_record. f_equal. unfold trailer, Value. f_equal. f_equal. f_equal.
    assert (Hc : bytes_ok [compression_byte type]) by (repeat constructor; apply compression_byte_ok).
    rewrite (Extend_crc32c _ 0 data) by (apply addr_ok || assumption || lia). rewrite Extend_crc32c by (apply addr_ok || assumption || (apply crc32c_range; [lia|assumption])).
    apply crc32c_app. }
  exists f2. split; [|exact Ec]. do 2 f_equal. rewrite Ec, zlen_app, zlen_block_record, Ho. unfold kBlockTrailerSize. apply u64_small. lia.
Qed.
End FormatProofs.

(** * What the builder has written *)

(** The keys that a comparator makes are no longer than those they are made from. *)
Class ShortKeys (C : Comparator) : Prop := {
  Separator_short : forall start limit, bytes_ok start -> bytes_ok limit -> bytes_ok (FindShortestSeparator start limit) /\ zlen (FindShortestSeparator start limit) <= zlen start;
  Successor_short : forall key, bytes_ok key -> bytes_ok (FindShortSuccessor key) /\ zlen (FindShortSuccessor key) <= zlen key }.

Section Building.
Context {P : Port} {C : Comparator} {L : ComparatorLaws C} {A : Address} {F : Type} {W : WritableFile F} {WL : WritableFileLaws F} {RE : ReliableFile F} {S : Snappy} {SL : SnappyLaws S}.
Context (options : Options) (rate : Z).
#[local] Abbreviation interval := (block_restart_interval options).
#[local] Abbreviation Builder := (TableBuilder F).
Implicit Types (r : Builder) (e : entry) (es g rest : list entry) (h : BlockHandle) (done : list (BlockHandle * list entry)) (B : list Z).

(** More than what some entries take in a table. *)
Definition room es : Z := foldr (fun e n => zlen (fst e) + zlen (snd e) + 64 + n) 0 es.

Lemma room_app es es' : room (es ++ es') = room es + room es'.
Proof. unfold room. induction es as [|e es IH]; cbn [app foldr]; [reflexivity|]. rewrite IH. lia. Qed.

Lemma room_nonneg es : 0 <= 64 * zlen es <= room es.
Proof. induction es as [|e es IH]; [unfold zlen; cbn; lia|]. unfold room in *. cbn [foldr]. rewrite zlen_cons. pose proof (zlen_nonneg (fst e)). pose proof (zlen_nonneg (snd e)). lia. Qed.

(** A block that has been written: what is read at the handle is what a block builder made
    of the entries. *)
Definition holds raw g : Prop := exists b, building interval b g /\ raw = fst (Finish b) /\ zlen raw < 2 ^ 32.
Definition block_at B h g : Prop := exists raw, stored_at B h raw /\ holds raw g.

Lemma block_at_app B h g post : block_at B h g -> block_at (B ++ post) h g.
Proof. intros (raw & Hs & Hh). exists raw. split; [apply stored_at_app, Hs|exact Hh]. Qed.

(** The index: for each block an entry with a key from its last one on, before all keys
    that follow, made of the two next to it, and with its handle. *)
Fixpoint index_ok (ies : list entry) done rest : Prop :=
  match ies, done with
  | [], [] => True
  | ie :: ies, (h, g) :: done =>
    (snd ie = handle_bytes h /\ handle_ok h /\ key_ok (fst ie) /\ bytes_ok (fst ie)) /\ (forall e, e ∈ g -> Compare (fst e) (fst ie) <= 0) /\
    (forall e, e ∈ concat (map snd done) ++ rest -> Compare (fst ie) (fst e) < 0) /\
    (forall e, head (concat (map snd done) ++ rest) = Some e -> fst ie = FindShortestSeparator (last_key_of g) (fst e)) /\ index_ok ies done rest
  | _, _ => False
  end.

(** How the filters were built: a block at the offset of each, and what is being added. *)
Definition filter_rows done (tail : list (Z * list (list Z))) : list (Z * list (list Z)) := map (fun hg => (bh_offset (fst hg), map fst (snd hg))) done ++ tail.

Definition filters_built (fb : option (FilterPolicy * FilterBlockBuilder)) done tail : Prop :=
  match fb with
  | None => filter_policy options = None
  | Some (policy, fb) => filter_policy options = Some policy /\ build (FP := policy) (filter_rows done tail) new_FilterBlockBuilder = Some fb
  end.

(** Where blocks start. *)
Definition offsets done : list Z := map (fun hg => bh_offset (fst hg)) done.

(** The builder after some calls: [done] are the blocks in the index, with entries [ies];
    [rest] are the entries after them, in the data block or, when its index entry is pending,
    in a block that has been written. *)
Record table_ok done rest (ies : list entry) r : Prop := {
  to_status_ok : tb_status r = OK;
  to_offset : tb_offset r = zlen (contents (tb_file r));
  to_done : Forall (fun hg => snd hg <> [] /\ block_at (contents (tb_file r)) (fst hg) (snd hg)) done;
  to_index : building 1 (index_block r) ies;
  to_index_ok : index_ok ies done rest;
  to_rest : rest = [] -> done = [];
  to_last : rest <> [] -> tb_last_key r = last_key_of rest;
  to_num : num_entries r = zlen (concat (map snd done) ++ rest);
  to_size : zlen (contents (tb_file r)) <= room (concat (map snd done)) + (if pending_index_entry r then room rest else 0);
  to_index_size : zlen (fst (Finish (index_block r))) <= 8 + room (concat (map snd done));
  to_data : if pending_index_entry r then rest <> [] /\ block_at (contents (tb_file r)) (pending_handle r) rest /\ data_block r = Reset (data_block r)
    else building interval (data_block r) rest /\ empty (data_block r) = (match rest with [] => true | _ => false end) /\
         zlen (fst (Finish (data_block r))) <= 8 + room rest - 45 * zlen rest;
  to_tail : let tail := if pending_index_entry r then [(bh_offset (pending_handle r), map fst rest); (tb_offset r, [])] else [(tb_offset r, map fst rest)] in
    in_order 0 (filter_rows done tail) /\ filters_built (filter_block r) done tail;
  to_apart : let os := offsets done ++ (if pending_index_entry r then [bh_offset (pending_handle r)] else []) in NoDup os /\ Forall (fun o => o < tb_offset r) os }.

Context (Hinterval : 1 <= interval) (Hshort : ShortKeys C).
Context (Hpolicy : forall policy, filter_policy options = Some policy -> FilterPolicyLaws policy rate) (Hrate : 0 <= rate).

Lemma reset_building n b : 1 <= n -> building n (Reset b) [].
Proof. intros Hn. destruct (new_BlockBuilder_ok n Hn) as (b' & E & Hb). unfold new_BlockBuilder in E. rewrite (proj2 (Z.leb_le _ _) Hn) in E. injection E as <-. exact Hb. Qed.

Lemma finish_bytes n b es : building n b es -> zlen (fst (Finish b)) < 2 ^ 32 -> bytes_ok (fst (Finish b)).
Proof.
  intros (_ & _ & _ & _ & Hl) Hsz. destruct (Finish_ok b) as [Ez Ef]. pose proof (zlen_nonneg (buffer_ b)). pose proof (zlen_nonneg (restart_list_ b)).
  destruct (Hl ltac:(lia)) as (cs & _ & Hcs & _ & _ & Eb). rewrite (Ef ltac:(lia) cs Eb). unfold block_data. rewrite !bytes_ok_app. split_and!; [apply cells_bytes_ok, Hcs|apply fixed_ok|apply EncodeFixed32_ok].
Qed.

(** A block that is written is at its handle. *)
Lemma WriteBlock_ok r b n g : tb_status r = OK -> tb_offset r = zlen (contents (tb_file r)) -> building n b g -> zlen (fst (Finish b)) < 2 ^ 32 ->
  zlen (contents (tb_file r)) < 2 ^ 62 ->
  exists h file post, WriteBlock options b r = Some (h, Reset (snd (Finish b)), with_file file (zlen (contents file)) OK r) /\ contents file = contents (tb_file r) ++ post /\
    5 <= zlen post <= zlen (fst (Finish b)) + 5 /\ bh_offset h = tb_offset r /\ stored_at (contents file) h (fst (Finish b)).
Proof.
  intros Hst Ho Hb Hsz Hc. pose proof (finish_bytes n b g Hb Hsz) as Hraw. unfold WriteBlock, tb_ok. rewrite Hst. cbn [status_ok negb]. destruct (Finish b) as [raw b'] eqn:Ef. cbn [fst snd] in *.
  pose proof (block_contents_ok options raw Hraw ltac:(lia)) as Hbc. destruct (block_contents options raw) as [data type]. destruct Hbc as (Hd & Hdec & Hz).
  pose proof (zlen_nonneg (contents (tb_file r))). pose proof (zlen_nonneg data).
  destruct (WriteRawBlock_ok data type r Hd Ho ltac:(lia)) as (file & -> & Ec). exists (mkBlockHandle (tb_offset r) (zlen data)), file, (block_record data type).
  split; [reflexivity|]. split; [exact Ec|]. split; [rewrite zlen_block_record; unfold kBlockTrailerSize; lia|]. split; [reflexivity|].
  split; [unfold handle_ok; cbn; lia|]. exists (contents (tb_file r)), data, type, []. rewrite app_nil_r. split_and!; auto.
Qed.

Lemma in_order_fst a b : forall o, map fst a = map fst b -> in_order o a -> in_order o b.
Proof.
  revert b. induction a as [|[o1 k1] a IH]; intros [|[o2 k2] b] o E; try discriminate; [auto|]. cbn [map fst] in E. injection E as -> E. cbn [in_order]. intros [H1 H2]. split; [exact H1|exact (IH b o2 E H2)].
Qed.

Lemma in_order_snoc a o1 k1 o2 k2 : forall o, o1 <= o2 -> in_order o (a ++ [(o1, k1)]) -> in_order o (a ++ [(o1, k1); (o2, k2)]).
Proof. induction a as [|[o3 k3] a IH]; intros o Ho; cbn [app in_order]; intros [H1 H2]; [lia|]. split; [exact H1|exact (IH o3 Ho H2)]. Qed.

Lemma filter_rows_keys done tail : all_keys (filter_rows done tail) = map fst (concat (map snd done)) ++ all_keys tail.
Proof.
  unfold all_keys, filter_rows. rewrite map_app, concat_app, map_map. f_equal. induction done as [|[h g] done IH]; [reflexivity|]. cbn [map concat snd fst]. rewrite map_app. f_equal. exact IH.
Qed.

(** All entries fit into a table. *)
Definition fits es : Prop := sorted_entries (KO := forward_order L) es /\ Forall entry_ok es /\ room es + rate * zlen es < 2 ^ 30.

Lemma fits_keys es : fits es -> zlen (map fst es) < 2 ^ 31 /\ Forall (fun k : list Z => zlen k < 2 ^ 64) (map fst es) /\ room es < 2 ^ 30.
Proof.
  intros (_ & He & Hr). pose proof (room_nonneg es). pose proof (zlen_nonneg es). assert (0 <= rate * zlen es) by nia.
  assert (El : zlen (map fst es) = zlen es) by (unfold zlen; rewrite length_map; reflexivity). rewrite El. split; [lia|]. split; [|lia].
  apply List.Forall_map. apply (Forall_impl _ _ _ He). intros e (_ & _ & Hz & _). lia.
Qed.

Lemma filter_StartBlock_ok r done o ks o' : filters_built (filter_block r) done [(o, ks)] -> in_order 0 (filter_rows done [(o, ks)]) -> o <= o' ->
  zlen (all_keys (filter_rows done [(o, ks)])) < 2 ^ 31 -> Forall (fun k => zlen k < 2 ^ 64) (all_keys (filter_rows done [(o, ks)])) ->
  exists fb, filter_StartBlock o' r = Some (with_filter fb r) /\ filters_built fb done [(o, ks); (o', [])] /\ in_order 0 (filter_rows done [(o, ks); (o', [])]).
Proof.
  intros Hb Ho Hle Hn Hk. assert (E2 : filter_rows done [(o, ks); (o', [])] = filter_rows done [(o, ks)] ++ [(o', [])]) by (unfold filter_rows; rewrite <- app_assoc; reflexivity).
  assert (Ho' : in_order 0 (filter_rows done [(o, ks); (o', [])])) by (unfold filter_rows in *; apply in_order_snoc; assumption).
  unfold filter_StartBlock. unfold filters_built in *. destruct (filter_block r) as [[policy fb]|] eqn:Ef.
  - destruct Hb as [Ep Eb]. pose proof (Hpolicy policy Ep) as FL. rewrite E2 in Ho' |- *. set (rows := filter_rows done [(o, ks)]) in *.
    assert (Ek : all_keys (rows ++ [(o', [])]) = all_keys rows) by (unfold all_keys; rewrite !map_app, !concat_app; cbn; rewrite !app_nil_r; reflexivity).
    destruct (build_total (FL := FL) (rows ++ [(o', [])]) Ho') as (fb' & Eb'); [rewrite Ek; assumption..|].
    pose proof Eb' as Es. rewrite (build_start _ _ _ _ Eb) in Es. rewrite Es. cbn [mbind option_bind]. exists (Some (policy, fb')). auto.
  - exists None. split; [|split; [exact Hb|exact Ho']]. destruct r; cbn in *; subst; reflexivity.
Qed.

Lemma table_keys done rest o : fits (concat (map snd done) ++ rest) -> zlen (all_keys (filter_rows done [(o, map fst rest)])) < 2 ^ 31 /\
  Forall (fun k => zlen k < 2 ^ 64) (all_keys (filter_rows done [(o, map fst rest)])).
Proof.
  intros Hf. destruct (fits_keys _ Hf) as (Hn & Hk & _). rewrite filter_rows_keys. unfold all_keys. cbn [map concat snd]. rewrite app_nil_r. rewrite map_app in Hn, Hk. split; [exact Hn|exact Hk].
Qed.

Lemma Table_Flush_ok done rest ies r : table_ok done rest ies r -> pending_index_entry r = false -> rest <> [] -> fits (concat (map snd done) ++ rest) -> closed r = false ->
  exists r', Flush options r = Some r' /\ table_ok done rest ies r' /\ pending_index_entry r' = true /\ closed r' = false.
Proof.
  intros [T1 T2 T3 T4 T5 T6 T7 T8 T9 T10 T11 T12 T13] Hp Hne Hf Hcl. rewrite Hp in *. cbv iota zeta in T9, T12, T13. rewrite app_nil_r in T13. destruct T11 as (Hd & He & Hsz). pose proof (fits_keys _ Hf) as (_ & _ & Hroom). rewrite room_app in Hroom.
  assert (Hz1 : 1 <= zlen rest) by (destruct rest as [|e l]; [contradiction|unfold zlen; cbn [length]; lia]).
  pose proof (room_nonneg (concat (map snd done))). pose proof (zlen_nonneg (concat (map snd done))).
  pose proof (room_nonneg rest). assert (Hsz32 : zlen (fst (Finish (data_block r))) < 2 ^ 32) by lia. assert (Hc62 : zlen (contents (tb_file r)) < 2 ^ 62) by lia.
  unfold Flush, tb_ok at 1. rewrite Hcl, T1. cbn [status_ok negb]. rewrite He. destruct rest as [|e0 rest0]; [contradiction|]. rewrite Hp. set (rest := e0 :: rest0) in *.
  destruct (WriteBlock_ok r (data_block r) interval rest T1 T2 Hd Hsz32 Hc62) as (h & file & post & -> & Ec & Hpost & Eo & Hst). cbn [mbind option_bind]. unfold tb_ok. cbn [with_pending with_file tb_status status_ok].
  cbn [with_index tb_file with_pending with_file]. pose proof (Flush_reliable file) as Fr. pose proof (Flush_contents file) as Fc. destruct (file_Flush file) as [ok file2]. cbn [fst snd] in Fr, Fc. subst ok.
  set (r2 := with_file file2 _ _ _). destruct T12 as [To Tf]. destruct (table_keys done rest (tb_offset r) Hf) as [Hn Hk].
  assert (Hz2 : zlen (contents (tb_file r)) <= zlen (contents file)) by (rewrite Ec, zlen_app; pose proof (zlen_nonneg post); lia).
  assert (Hle : tb_offset r <= zlen (contents file)) by (rewrite T2; exact Hz2).
  destruct (filter_StartBlock_ok r2 done (tb_offset r) (map fst rest) (zlen (contents file)) Tf To Hle Hn Hk) as (fb & E & Hfb & Hord).
  change (tb_offset r2) with (zlen (contents file)). rewrite E. eexists. split; [reflexivity|]. split; [|split; [reflexivity|exact Hcl]].
  constructor; cbn [with_filter with_file with_index with_pending r2 tb_file tb_offset tb_status data_block index_block tb_last_key num_entries filter_block pending_index_entry pending_handle];
    rewrite ?Fc; try assumption; auto.
  - apply (Forall_impl _ _ _ T3). intros hg [Hg Hb]. split; [exact Hg|]. rewrite Ec. apply block_at_app, Hb.
  - rewrite Ec, zlen_app. lia.
  - split; [exact Hne|]. split; [|reflexivity]. exists (fst (Finish (data_block r))). split; [exact Hst|]. exists (data_block r). split_and!; [exact Hd|reflexivity|lia].
  - rewrite Eo. split; assumption.
  - rewrite Eo. destruct T13 as [Hnd Hlt]. assert (Hgrow : tb_offset r < zlen (contents file)) by (rewrite T2, Ec, zlen_app; lia). split.
    + apply NoDup_app. split; [exact Hnd|]. split; [|apply NoDup_singleton]. intros o Ho Ho'. apply list_elem_of_singleton in Ho' as ->. rewrite Forall_forall in Hlt. specialize (Hlt _ Ho). lia.
    + apply Forall_app. split; [apply (Forall_impl _ _ _ Hlt); intros o Ho; lia|repeat constructor; exact Hgrow].
Qed.

(** ** Adding an entry *)

Lemma fits_last es e : fits (es ++ [e]) -> fits es /\ key_ok (fst e) /\ entry_ok e /\ forall x, x ∈ es -> key_ok (fst x) /\ Compare (fst x) (fst e) < 0.
Proof.
  intros ((Hs & Hv) & He & Hr). apply Forall_app in He as [He He1]. apply List.Forall_cons_iff in He1 as [He1 _]. apply Forall_app in Hv as [Hv Hv1]. apply List.Forall_cons_iff in Hv1 as [Hv1 _].
  apply StronglySorted_app in Hs as (Hlt & Hs & _). rewrite room_app, zlen_app in Hr. change (zlen [e]) with 1 in Hr.
  assert (0 <= room [e]) by (pose proof (room_nonneg [e]); change (zlen [e]) with 1 in *; lia).
  split; [split; [split; assumption|split; [exact He|lia]]|]. split; [exact Hv1|]. split; [exact He1|]. intros x Hx. rewrite Forall_forall in Hv. split; [exact (Hv x Hx)|].
  apply (Hlt x e Hx), list_elem_of_singleton. reflexivity.
Qed.

Lemma last_entry_in rest e : last rest = Some e -> e ∈ rest.
Proof. intros E. apply last_Some in E as (l & ->). apply elem_of_app. right. apply list_elem_of_singleton. reflexivity. Qed.

Lemma last_key_in rest : rest <> [] -> exists x, last rest = Some x /\ x ∈ rest /\ last_key_of rest = fst x.
Proof.
  intros Hne. destruct (last rest) as [x|] eqn:E; [|apply last_None in E; contradiction]. exists x. split; [reflexivity|]. split; [apply last_entry_in, E|]. unfold last_key_of. rewrite E. reflexivity.
Qed.

Lemma index_ok_more ies : forall done rest rest2, index_ok ies done rest -> (ies = [] \/ rest <> []) -> (forall ie x, ie ∈ ies -> x ∈ rest2 -> Compare (fst ie) (fst x) < 0) -> index_ok ies done (rest ++ rest2).
Proof.
  induction ies as [|ie ies IH]; intros [|[h g] done] rest rest2; cbn [index_ok]; auto. intros (H1 & H2 & H3 & H4 & H5) Hr Hx. destruct Hr as [|Hr]; [discriminate|]. split; [exact H1|]. split; [exact H2|]. split; [|split].
  - intros e He. rewrite app_assoc in He. apply elem_of_app in He as [He|He]; [exact (H3 e He)|]. apply (Hx ie e); [apply elem_of_cons; auto|exact He].
  - intros e He. apply H4. destruct (concat (map snd done)) as [|x l]; [|exact He]. destruct rest; [contradiction|exact He].
  - apply IH; [exact H5|auto|]. intros ie' x Hi. apply Hx. apply elem_of_cons. auto.
Qed.

Lemma index_ok_snoc ies ie h rest rest2 : forall done, index_ok ies done (rest ++ rest2) -> index_ok [ie] [(h, rest)] rest2 -> index_ok (ies ++ [ie]) (done ++ [(h, rest)]) rest2.
Proof.
  induction ies as [|ie' ies IH]; intros [|[h' g] done]; cbn [index_ok app]; try contradiction; [auto|]. intros (H1 & H2 & H3 & H4 & H5) Hn.
  assert (E : concat (map snd (done ++ [(h, rest)])) ++ rest2 = concat (map snd done) ++ rest ++ rest2) by (rewrite map_app, concat_app; cbn [map concat snd]; rewrite app_nil_r, <- app_assoc; reflexivity).
  rewrite E. split; [exact H1|]. split; [exact H2|]. split; [exact H3|]. split; [exact H4|]. exact (IH done H5 Hn).
Qed.

Lemma index_ok_in ies : forall done rest ie x, index_ok ies done rest -> ie ∈ ies -> x ∈ rest -> Compare (fst ie) (fst x) < 0.
Proof.
  induction ies as [|ie' ies IH]; intros [|[h g] done] rest ie x; cbn [index_ok]; try contradiction; [intros _ Hi; inversion Hi|]. intros (H1 & H2 & H3 & _ & H4) Hi Hx.
  apply elem_of_cons in Hi as [->|Hi]; [apply H3, elem_of_app; auto|exact (IH done rest ie x H4 Hi Hx)].
Qed.

Lemma index_ok_keys ies : forall done rest ie, index_ok ies done rest -> ie ∈ ies -> key_ok (fst ie).
Proof.
  induction ies as [|ie' ies IH]; intros [|[h g] done] rest ie; cbn [index_ok]; try contradiction; [intros _ Hi; inversion Hi|]. intros (H1 & _ & _ & _ & H4) Hi.
  apply elem_of_cons in Hi as [->|Hi]; [apply H1|exact (IH done rest ie H4 Hi)].
Qed.

(** An entry of the index comes before what comes after the entries that follow it. *)
Lemma index_before ies done rest k : index_ok ies done rest -> rest <> [] -> key_ok k -> (forall x, x ∈ rest -> key_ok (fst x) /\ Compare (fst x) k <= 0) ->
  forall ie, ie ∈ ies -> key_ok (fst ie) /\ Compare (fst ie) k < 0.
Proof.
  intros Hi Hne Hk Hx ie Hie. pose proof (index_ok_keys _ _ _ _ Hi Hie) as Hki. split; [exact Hki|]. destruct rest as [|x rest]; [contradiction|].
  assert (Hin : x ∈ x :: rest) by (apply elem_of_cons; auto). destruct (Hx x Hin) as [Hkx Hle]. apply (Compare_lt_le (fst ie) (fst x) k); auto. exact (index_ok_in _ _ _ _ _ Hi Hie Hin).
Qed.

Lemma room_in rest x : x ∈ rest -> zlen (fst x) + zlen (snd x) + 64 <= room rest.
Proof.
  intros Hx. apply list_elem_of_split in Hx as (a & b & ->). rewrite room_app. pose proof (room_nonneg a). pose proof (room_nonneg b). pose proof (zlen_nonneg a). pose proof (zlen_nonneg b).
  change (room (x :: b)) with (zlen (fst x) + zlen (snd x) + 64 + room b). lia.
Qed.

(** The builder when the next entry is about to be added to the data block. *)
Record ready done rest (ies : list entry) r e : Prop := {
  rd_status : tb_status r = OK;
  rd_pending : pending_index_entry r = false;
  rd_closed : closed r = false;
  rd_offset : tb_offset r = zlen (contents (tb_file r));
  rd_done : Forall (fun hg => snd hg <> [] /\ block_at (contents (tb_file r)) (fst hg) (snd hg)) done;
  rd_index : building 1 (index_block r) ies;
  rd_index_ok : index_ok ies done (rest ++ [e]);
  rd_num : num_entries r = zlen (concat (map snd done) ++ rest);
  rd_size : zlen (contents (tb_file r)) <= room (concat (map snd done));
  rd_index_size : zlen (fst (Finish (index_block r))) <= 8 + room (concat (map snd done));
  rd_data : building interval (data_block r) rest;
  rd_data_size : zlen (fst (Finish (data_block r))) <= 8 + room rest - 45 * zlen rest;
  rd_order : in_order 0 (filter_rows done [(tb_offset r, map fst rest)]);
  rd_filters : filters_built (filter_block r) done [(tb_offset r, map fst rest)];
  rd_apart : NoDup (offsets done) /\ Forall (fun o => o < tb_offset r) (offsets done) }.

(** The entry of the index for the block that has been written. *)
Lemma add_index_entry_ok done rest ies r key : table_ok done rest ies r -> pending_index_entry r = true -> fits (concat (map snd done) ++ rest) -> key_ok key -> bytes_ok key -> zlen key <= zlen (last_key_of rest) ->
  Compare (last_key_of rest) key <= 0 ->
  exists b, add_index_entry key r = Some (with_index b false r) /\ building 1 b (ies ++ [(key, handle_bytes (pending_handle r))]) /\
    zlen (fst (Finish b)) <= 8 + room (concat (map snd done) ++ rest) /\ handle_ok (pending_handle r) /\ (forall y, y ∈ rest -> Compare (fst y) key <= 0).
Proof.
  intros [T1 T2 T3 T4 T5 T6 T7 T8 T9 T10 T11 T12 T13] Hp Hf Hk Hb Hz Hle. rewrite Hp in *. destruct T11 as (Hne & (raw & [Hh _] & _) & _). destruct (handle_bytes_ok _ Hh) as [Hhb Hhz].
  destruct (last_key_in rest Hne) as (x & Ex & Hx & El). rewrite El in *. destruct Hf as ((Hs & Hv) & He & Hr). rewrite Forall_forall in He. assert (Hxe : x ∈ concat (map snd done) ++ rest) by (apply elem_of_app; auto).
  destruct (He x Hxe) as (Hxb & _ & Hx32 & _). pose proof (room_in rest x Hx) as Hrx. pose proof (zlen_nonneg (snd x)).
  assert (Hkx : forall y, y ∈ rest -> key_ok (fst y) /\ Compare (fst y) key <= 0).
  { intros y Hy. rewrite Forall_forall in Hv. assert (Hye : y ∈ concat (map snd done) ++ rest) by (apply elem_of_app; auto).
    apply StronglySorted_app in Hs as (_ & _ & Hs). apply last_Some in Ex as (l & ->). apply elem_of_app in Hy as [Hy|Hy].
    - apply StronglySorted_app in Hs as (Hlt & _ & _). assert (Hlast : x ∈ [x]) by (apply list_elem_of_singleton; reflexivity). pose proof (Hlt y x Hy Hlast) as Hyx.
      split; [exact (Hv y Hye)|]. apply Z.lt_le_incl. exact (Compare_lt_le (fst y) (fst x) key (Hv y Hye) (Hv x Hxe) Hk Hyx Hle).
    - apply list_elem_of_singleton in Hy as ->. split; [exact (Hv x Hxe)|exact Hle]. }
  unfold add_index_entry. rewrite Handle_EncodeTo_eq by exact Hh. cbn [mbind option_bind app].
  destruct (Add_ok 1 ltac:(lia) (index_block r) ies (key, handle_bytes (pending_handle r)) T4) as (b & Eb & Hbb).
  - split_and!; cbn [fst snd]; auto; lia.
  - intros ie Hie. cbn [fst]. exact (index_before _ _ _ _ T5 Hne Hk Hkx ie (last_entry_in _ _ Hie)).
  - exact Hk.
  - cbn [fst snd] in Eb. rewrite Eb. cbn [mbind option_bind]. exists b. split; [reflexivity|]. split; [exact Hbb|]. split; [|split; [exact Hh|intros y Hy; apply (Hkx y Hy)]]. destruct (Add_size _ _ _ _ _ Eb) as [_ Hsz]. rewrite room_app. lia.
Qed.

Lemma fits_snoc_in es e x : fits (es ++ [e]) -> x ∈ es -> key_ok (fst x) /\ bytes_ok (fst x) /\ Compare (fst x) (fst e) < 0.
Proof.
  intros Hf Hx. destruct (fits_last _ _ Hf) as ((_ & He & _) & _ & _ & Hlt). rewrite Forall_forall in He. destruct (Hlt x Hx) as [Hk Hc]. split_and!; auto. apply (He x Hx).
Qed.

(** The pending entry is added when the next key is known. *)
Lemma begin_entry done rest ies r e : table_ok done rest ies r -> closed r = false -> fits (concat (map snd done) ++ rest ++ [e]) ->
  exists r1 done1 rest1 ies1, (if pending_index_entry r then if negb (empty (data_block r)) then None else add_index_entry (FindShortestSeparator (tb_last_key r) (fst e)) r else Some r) = Some r1 /\
    ready done1 rest1 ies1 r1 e /\ concat (map snd done1) ++ rest1 = concat (map snd done) ++ rest.
Proof.
  intros Ht Hcl Hf. rewrite app_assoc in Hf. pose proof (fits_last _ _ Hf) as (Hf0 & Hke & (Hbe & _) & _). assert (Hin : forall x, x ∈ rest -> key_ok (fst x) /\ bytes_ok (fst x) /\ Compare (fst x) (fst e) < 0).
  { intros x Hx. apply (fits_snoc_in _ _ _ Hf). apply elem_of_app. auto. }
  destruct (pending_index_entry r) eqn:Hp.
  - pose proof Ht as [T1 T2 T3 T4 T5 T6 T7 T8 T9 T10 T11 T12 T13]. rewrite Hp in *. destruct T11 as (Hne & Hblk & Hd). assert (He : empty (data_block r) = true) by (rewrite Hd; reflexivity). rewrite He. cbn [negb].
    destruct (last_key_in rest Hne) as (x & _ & Hx & El). rewrite (T7 Hne), El. destruct (Hin x Hx) as (Hkx & Hbx & Hlt). destruct (Separator_ok (fst x) (fst e) Hkx Hke Hlt) as (Hks & Hs1 & Hs2).
    destruct (Separator_short (fst x) (fst e) Hbx Hbe) as [Hbs Hzs]. rewrite <- El in Hs1, Hzs at 1.
    destruct (add_index_entry_ok done rest ies r _ Ht Hp Hf0 Hks Hbs) as (b & -> & Hb & Hz & Hh & Hall); [rewrite El in *; exact Hzs|rewrite El in *; exact Hs1|].
    exists (with_index b false r), (done ++ [(pending_handle r, rest)]), []. eexists. split; [reflexivity|].
    assert (Ec : concat (map snd (done ++ [(pending_handle r, rest)])) = concat (map snd done) ++ rest) by (rewrite map_app, concat_app; cbn; rewrite app_nil_r; reflexivity).
    split; [|rewrite app_nil_r; exact Ec]. constructor; cbn [with_index tb_status tb_file tb_offset pending_index_entry index_block data_block num_entries filter_block closed]; try assumption; rewrite ?Ec, ?app_nil_r; try assumption.
    + reflexivity.
    + apply Forall_app. split; [exact T3|]. repeat constructor; assumption.
    + exact Hb.
    + cbn [app]. apply index_ok_snoc; [|cbn [index_ok fst snd map concat app]].
      * apply index_ok_more; [exact T5|auto|]. intros ie y Hi Hy. apply list_elem_of_singleton in Hy as ->.
        apply (index_before _ _ _ _ T5 Hne Hke); [intros y Hy; destruct (Hin y Hy) as (? & _ & ?); split; [assumption|lia]|exact Hi].
      * split; [auto|]. split; [exact Hall|]. split; [|split; [|exact Logic.I]].
        -- intros y Hy. apply list_elem_of_singleton in Hy as ->. exact Hs2.
        -- intros y Hy. injection Hy as <-. rewrite El. reflexivity.
    + rewrite room_app. exact T9.
    + rewrite Hd. apply (reset_building interval (data_block r) Hinterval).
    + rewrite Hd, (new_BlockBuilder_size). reflexivity.
    + destruct T12 as [To _]. unfold filter_rows in *. rewrite map_app. cbn [map fst snd]. rewrite <- app_assoc. exact To.
    + destruct T12 as [_ Tf]. unfold filters_built, filter_rows in *. rewrite map_app. cbn [map fst snd]. rewrite <- app_assoc. exact Tf.
    + unfold offsets. rewrite map_app. exact T13.
  - pose proof Ht as [T1 T2 T3 T4 T5 T6 T7 T8 T9 T10 T11 T12 T13]. rewrite Hp in *. destruct T11 as (Hd & _ & Hsz). destruct T12 as [To Tf]. exists r, done, rest, ies. split; [reflexivity|]. split; [|reflexivity].
    constructor; try assumption; [|lia|cbv zeta in T13; rewrite app_nil_r in T13; exact T13]. apply index_ok_more; [exact T5|destruct rest; [rewrite (T6 eq_refl) in T5; destruct ies; [auto|contradiction]|right; discriminate]|]. intros ie y Hi Hy. apply list_elem_of_singleton in Hy as ->.
    destruct rest as [|x rest]; [rewrite (T6 eq_refl) in T5; destruct ies; [inversion Hi|contradiction]|].
    apply (index_before _ _ _ _ T5 ltac:(discriminate) Hke); [intros y Hy; destruct (Hin y Hy) as (? & _ & ?); split; [assumption|lia]|exact Hi].
Qed.

(** The entry itself. *)
Lemma add_entry done rest ies r e : ready done rest ies r e -> fits (concat (map snd done) ++ rest ++ [e]) ->
  exists b, Builder_Add interval (fst e) (snd e) (data_block (filter_AddKey (fst e) r)) = Some b /\
    let r' := with_data b (fst e) (num_entries (filter_AddKey (fst e) r) + 1) (filter_AddKey (fst e) r) in
    table_ok done (rest ++ [e]) ies r' /\ pending_index_entry r' = false /\ closed r' = false.
Proof.
  intros [R1 R2 R3 R4 R5 R6 R7 R8 R9 R10 R11 R12 R13 R14 R15] Hf. rewrite app_assoc in Hf. pose proof (fits_last _ _ Hf) as (Hf0 & Hke & He & _).
  assert (Ef : exists fb, filter_AddKey (fst e) r = with_filter fb r /\ filters_built fb done [(tb_offset r, map fst (rest ++ [e]))]).
  { unfold filter_AddKey, filters_built in *. destruct (filter_block r) as [[policy fb]|] eqn:E.
    - exists (Some (policy, AddKey (fst e) fb)). split; [reflexivity|]. destruct R14 as [Ep Eb]. split; [exact Ep|]. rewrite map_app. cbn [map]. apply build_key. exact Eb.
    - exists None. split; [destruct r; cbn in *; subst; reflexivity|exact R14]. }
  destruct Ef as (fb & -> & Hfb). change (data_block (with_filter fb r)) with (data_block r).
  destruct (Add_ok interval Hinterval (data_block r) rest e R11 He) as (b & Eb & Hb); [|exact Hke|].
  { intros x Hx. apply last_entry_in in Hx. destruct (fits_snoc_in _ _ x Hf) as (Hk & _ & Hlt); [apply elem_of_app; auto|auto]. }
  exists b. split; [exact Eb|]. cbv zeta. destruct (Add_size _ _ _ _ _ Eb) as [Hemp Hsz]. split; [|split; [exact R2|exact R3]].
  constructor; cbn [with_data with_filter tb_status tb_file tb_offset pending_index_entry index_block data_block num_entries filter_block tb_last_key]; rewrite ?R2; try assumption.
  - intros E. destruct rest; discriminate.
  - intros _. symmetry. apply last_key_snoc.
  - rewrite app_assoc, zlen_app, R8. reflexivity.
  - lia.
  - split; [exact Hb|]. split; [rewrite Hemp; destruct rest; reflexivity|]. rewrite room_app, zlen_app. change (zlen [e]) with 1.
    change (room [e]) with (zlen (fst e) + zlen (snd e) + 64 + 0). lia.
  - split; [|exact Hfb]. apply (in_order_fst (filter_rows done [(tb_offset r, map fst rest)])); [unfold filter_rows; rewrite !map_app; reflexivity|exact R13].
  - cbv zeta. rewrite app_nil_r. exact R15.
Qed.

(** [Add] is accepted, and the table has one entry more. *)
Lemma Table_Add_ok done rest ies r e : table_ok done rest ies r -> closed r = false -> fits (concat (map snd done) ++ rest ++ [e]) ->
  exists done' rest' ies' r', Add options (fst e) (snd e) r = Some r' /\ table_ok done' rest' ies' r' /\ closed r' = false /\ concat (map snd done') ++ rest' = concat (map snd done) ++ rest ++ [e].
Proof.
  intros Ht Hcl Hf. pose proof (to_status_ok _ _ _ _ Ht) as Hst. unfold Add, tb_ok. rewrite Hcl, Hst. cbn [status_ok negb].
  assert (Hord : (0 <? num_entries r) && negb (0 <? Compare (fst e) (tb_last_key r)) = false).
  { destruct rest as [|x0 rest0]; [rewrite (to_num _ _ _ _ Ht), (to_rest _ _ _ _ Ht eq_refl); reflexivity|]. set (rest := x0 :: rest0) in *.
    rewrite (to_last _ _ _ _ Ht) by discriminate. destruct (last_key_in rest ltac:(discriminate)) as (x & _ & Hx & ->).
    rewrite app_assoc in Hf. destruct (fits_snoc_in _ _ x Hf) as (Hk & _ & Hlt); [apply elem_of_app; auto|]. destruct (fits_last _ _ Hf) as (_ & Hke & _ & _).
    apply andb_false_iff. right. apply negb_false_iff, Z.ltb_lt. apply (Compare_sym (fst x) (fst e)); assumption. }
  rewrite Hord. destruct (begin_entry done rest ies r e Ht Hcl Hf) as (r1 & done1 & rest1 & ies1 & -> & Hr & Ec). cbn [mbind option_bind].
  assert (Hf1 : fits (concat (map snd done1) ++ rest1 ++ [e])) by (rewrite app_assoc, Ec, <- app_assoc; exact Hf).
  destruct (add_entry done1 rest1 ies1 r1 e Hr Hf1) as (b & -> & Ht1 & Hp1 & Hcl1). cbn [mbind option_bind]. set (r2 := with_data _ _ _ _) in *.
  assert (Ee : concat (map snd done1) ++ rest1 ++ [e] = concat (map snd done) ++ rest ++ [e]) by (rewrite app_assoc, Ec, <- app_assoc; reflexivity).
  destruct (block_size options <=? CurrentSizeEstimate (data_block r2)).
  - destruct (Table_Flush_ok done1 (rest1 ++ [e]) ies1 r2 Ht1 Hp1 ltac:(destruct rest1; discriminate) Hf1 Hcl1) as (r3 & E3 & Ht3 & _ & Hcl3). exists done1, (rest1 ++ [e]), ies1, r3. auto.
  - exists done1, (rest1 ++ [e]), ies1, r2. auto.
Qed.

(** The calls of [Add] for the entries in turn. *)
Definition add_all es (built : option Builder) : option Builder := foldl (fun built e => r ← built; Add options (fst e) (snd e) r) built es.

Lemma new_TableBuilder_ok file : contents file = [] -> exists r, new_TableBuilder options file = Some r /\ table_ok [] [] [] r /\ closed r = false.
Proof.
  intros Hfile. destruct (new_BlockBuilder_ok interval Hinterval) as (data & Ed & Hd). destruct (new_BlockBuilder_ok 1 ltac:(lia)) as (index & Ei & Hi).
  unfold new_TableBuilder. rewrite Ed, Ei. cbn [mbind option_bind]. unfold new_BlockBuilder in Ed, Ei. rewrite (proj2 (Z.leb_le _ _) Hinterval) in Ed. injection Ed as <-. injection Ei as <-.
  set (fb := match filter_policy options with Some policy => Some (policy, new_FilterBlockBuilder) | None => None end). set (r := mkTableBuilder _ _ _ _ _ _ _ _ _ _ _).
  assert (E : filter_StartBlock 0 r = Some r). { unfold filter_StartBlock, r. cbn [filter_block]. unfold fb. destruct (filter_policy options); reflexivity. }
  exists r. split; [exact E|]. split; [|reflexivity]. constructor; cbn [r tb_status tb_file tb_offset pending_index_entry index_block data_block num_entries filter_block tb_last_key]; rewrite ?Hfile; auto.
  - exact Logic.I.
  - vm_compute. discriminate.
  - rewrite (proj1 (Finish_ok _)). vm_compute. discriminate.
  - split; [exact Hd|]. split; [reflexivity|]. rewrite (proj1 (Finish_ok _)). vm_compute. discriminate.
  - split; [cbn; lia|]. unfold fb, filters_built. destruct (filter_policy options) as [policy|]; [split; reflexivity|reflexivity].
  - split; constructor.
Qed.

Lemma add_all_ok file es : contents file = [] -> fits es ->
  exists done rest ies r, add_all es (new_TableBuilder options file) = Some r /\ table_ok done rest ies r /\ closed r = false /\ concat (map snd done) ++ rest = es.
Proof.
  intros Hfile. induction es as [|e es IH] using rev_ind; intros Hf.
  - destruct (new_TableBuilder_ok file Hfile) as (r & E & Ht & Hcl). exists [], [], [], r. auto.
  - destruct (IH (proj1 (fits_last _ _ Hf))) as (done & rest & ies & r & E & Ht & Hcl & Ee). unfold add_all in *. rewrite foldl_app, E. cbn [foldl mbind option_bind].
    rewrite <- Ee, <- app_assoc in Hf. destruct (Table_Add_ok done rest ies r e Ht Hcl Hf) as (done' & rest' & ies' & r' & E' & Ht' & Hcl' & Ee').
    exists done', rest', ies', r'. split; [exact E'|]. split; [exact Ht'|]. split; [exact Hcl'|]. rewrite Ee', app_assoc, Ee. reflexivity.
Qed.

(** ** What [Finish] writes *)

Lemma in_order_last a : forall o m ks, in_order o (a ++ [(m, ks)]) -> o <= m /\ forall o' ks', (o', ks') ∈ a ++ [(m, ks)] -> o' <= m.
Proof.
  induction a as [|[o1 k1] a IH]; intros o m ks; cbn [app in_order].
  - intros [H1 _]. split; [exact H1|]. intros o' ks' Hx. apply list_elem_of_singleton in Hx. injection Hx as -> ->. lia.
  - intros [H1 H2]. destruct (IH o1 m ks H2) as [H3 H4]. split; [lia|]. intros o' ks' Hx. apply elem_of_cons in Hx as [Hx|Hx]; [injection Hx as -> ->; exact H3|exact (H4 o' ks' Hx)].
Qed.

(** The block that leads to the filters, and the filters. *)
Definition meta_ok B mh done : Prop :=
  match filter_policy options with
  | None => True
  | Some policy => exists mb fh fb o, stored_at B mh (fst (Finish mb)) /\ building interval mb [(filter_key policy, handle_bytes fh)] /\ zlen (fst (Finish mb)) < 2 ^ 32 /\
      stored_at B fh (fst (Filter_Finish (FP := policy) fb)) /\ build (FP := policy) (filter_rows done [(o, [])]) new_FilterBlockBuilder = Some fb /\
      in_order 0 (filter_rows done [(o, [])]) /\ zlen (fst (Filter_Finish (FP := policy) fb)) < 2 ^ 32
  end.

(** A file that holds a table. *)
Definition table_file B es : Prop := exists B0 enc done ies ib mh ih,
  B = B0 ++ enc /\ zlen enc = kEncodedLength /\ Footer_DecodeFrom enc = Some (OK, mkFooter mh ih) /\ es = concat (map snd done) /\
  Forall (fun hg => snd hg <> [] /\ block_at B (fst hg) (snd hg)) done /\ NoDup (offsets done) /\ index_ok ies done [] /\
  stored_at B ih (fst (Finish ib)) /\ building 1 ib ies /\ zlen (fst (Finish ib)) < 2 ^ 32 /\ handle_ok mh /\ meta_ok B mh done.

(** After the last block: it is in a block of its own, and its index entry is pending. *)
Lemma last_Flush done rest ies r : table_ok done rest ies r -> closed r = false -> fits (concat (map snd done) ++ rest) ->
  exists r', Flush options r = Some r' /\ table_ok done rest ies r' /\ closed r' = false /\ pending_index_entry r' = match rest with [] => false | _ => true end.
Proof.
  intros Ht Hcl Hf. destruct (pending_index_entry r) eqn:Hp.
  - pose proof (to_data _ _ _ _ Ht) as Hd. rewrite Hp in Hd. destruct Hd as (Hne & _ & Hd). exists r. split; [unfold Flush, tb_ok; rewrite Hcl, (to_status_ok _ _ _ _ Ht), Hd; reflexivity|].
    split; [exact Ht|]. split; [exact Hcl|]. destruct rest; [contradiction|exact Hp].
  - destruct rest as [|x rest].
    + pose proof (to_data _ _ _ _ Ht) as Hd. rewrite Hp in Hd. destruct Hd as (_ & Hd & _). exists r. split; [unfold Flush, tb_ok; rewrite Hcl, (to_status_ok _ _ _ _ Ht), Hd; reflexivity|]. auto.
    + destruct (Table_Flush_ok done (x :: rest) ies r Ht Hp ltac:(discriminate) Hf Hcl) as (r' & E & Ht' & Hp' & Hcl'). exists r'. auto.
Qed.

(** [r'] is [r] with some more in the file. *)
Record wrote r r' (post : list Z) : Prop := {
  wr_status : tb_status r' = OK;
  wr_offset : tb_offset r' = zlen (contents (tb_file r'));
  wr_contents : contents (tb_file r') = contents (tb_file r) ++ post;
  wr_index : index_block r' = index_block r;
  wr_last : tb_last_key r' = tb_last_key r;
  wr_pending : pending_index_entry r' = pending_index_entry r;
  wr_handle : pending_handle r' = pending_handle r }.

Definition at_end r : Prop := tb_status r = OK /\ tb_offset r = zlen (contents (tb_file r)).

Lemma wrote_nothing r : at_end r -> wrote r r [].
Proof. intros [H1 H2]. constructor; auto. rewrite app_nil_r. reflexivity. Qed.

Lemma wrote_end r r' post : wrote r r' post -> at_end r'.
Proof. intros []. split; assumption. Qed.

Lemma write_filter_ok r : at_end r -> zlen (contents (tb_file r)) < 2 ^ 61 ->
  (forall policy fb, filter_block r = Some (policy, fb) -> bytes_ok (fst (Filter_Finish (FP := policy) fb)) /\ zlen (fst (Filter_Finish (FP := policy) fb)) < 2 ^ 61) ->
  exists fh r' post, write_filter r = (fh, r') /\ wrote r r' post /\
    match filter_block r with
    | None => filter_block r' = None /\ post = []
    | Some (policy, fb) => (exists fb', filter_block r' = Some (policy, fb')) /\ stored_at (contents (tb_file r')) fh (fst (Filter_Finish (FP := policy) fb)) /\
        zlen post = zlen (fst (Filter_Finish (FP := policy) fb)) + 5
    end.
Proof.
  intros [Hst Ho] Hc Hb. unfold write_filter, tb_ok. destruct (filter_block r) as [[policy fb]|] eqn:Ef.
  - rewrite Hst. cbn [status_ok]. destruct (Hb policy fb eq_refl) as [Hbb Hbz]. destruct (Filter_Finish (FP := policy) fb) as [data fb'] eqn:E in Hbb, Hbz |- *. cbn [fst] in *. pose proof (zlen_nonneg (contents (tb_file r))). pose proof (zlen_nonneg data).
    assert (Hsz : zlen (contents (tb_file r)) + zlen data + 5 < 2 ^ 63) by lia.
    destruct (WriteRawBlock_ok data kNoCompression (with_filter (Some (policy, fb')) r) Hbb Ho Hsz) as (file & -> & Ec).
    cbn [with_filter tb_file tb_offset] in Ec |- *. eexists _, _, (block_record data kNoCompression). split; [reflexivity|]. split; [constructor; cbn; auto|].
    split; [exists fb'; reflexivity|]. split; [|apply zlen_block_record]. split; [unfold handle_ok; cbn; lia|]. exists (contents (tb_file r)), data, kNoCompression, []. rewrite app_nil_r. split_and!; auto. reflexivity.
  - exists new_BlockHandle, r, []. split; [reflexivity|]. split; [apply wrote_nothing; split; assumption|auto].
Qed.

(** The first entry of a block is accepted whatever the order. *)
Lemma first_Add n e : 1 <= n -> entry_ok e -> exists b0 b, new_BlockBuilder n = Some b0 /\ Builder_Add n (fst e) (snd e) b0 = Some b /\ building n b [e] /\
  zlen (fst (Finish b)) <= 27 + zlen (fst e) + zlen (snd e).
Proof.
  intros Hn He. destruct (new_BlockBuilder_ok n Hn) as (b0 & E0 & H0). exists b0. pose proof (Add_ok (C := BytewiseComparator) (L := BytewiseLaws) n Hn b0 [] e H0 He) as Ha.
  destruct Ha as (b & Eb & Hb); [intros x Hx; discriminate|apply He|]. unfold new_BlockBuilder in E0. rewrite (proj2 (Z.leb_le _ _) Hn) in E0. injection E0 as <-.
  exists b. unfold new_BlockBuilder. rewrite (proj2 (Z.leb_le _ _) Hn). split; [reflexivity|]. split; [exact Eb|]. split; [exact Hb|]. destruct (Add_size _ _ _ _ _ Eb) as [_ Hsz].
  assert (E8 : zlen (fst (Finish (mkBlockBuilder [] [0] 0 false []))) = 8) by (rewrite (proj1 (Finish_ok _)); reflexivity). rewrite E8 in Hsz. lia.
Qed.

(** One more block, of at most [n] bytes. *)
Lemma block_written r b k g n : at_end r -> building k b g -> zlen (fst (Finish b)) <= n -> n < 2 ^ 32 -> zlen (contents (tb_file r)) < 2 ^ 62 ->
  exists h file, WriteBlock options b r = Some (h, Reset (snd (Finish b)), with_file file (zlen (contents file)) OK r) /\
    exists post, wrote r (with_file file (zlen (contents file)) OK r) post /\ zlen post <= n + 5 /\ stored_at (contents file) h (fst (Finish b)).
Proof.
  intros [Hst Ho] Hb Hn Hn32 Hc. destruct (WriteBlock_ok r b k g Hst Ho Hb ltac:(lia) Hc) as (h & file & post & E & Ec & Hz & _ & Hs). exists h, file. split; [exact E|]. exists post.
  split; [constructor; cbn; auto|]. split; [lia|exact Hs].
Qed.

Definition meta_entries fh : list entry := match filter_policy options with Some policy => [(filter_key policy, handle_bytes fh)] | None => [] end.

Lemma write_metaindex_ok r fh : at_end r -> zlen (contents (tb_file r)) < 2 ^ 60 ->
  match filter_policy options with Some policy => (exists fb, filter_block r = Some (policy, fb)) /\ handle_ok fh | None => filter_block r = None end ->
  exists mh mb r' post, write_metaindex options fh r = Some (mh, r') /\ wrote r r' post /\ zlen post <= 2 ^ 17 /\ stored_at (contents (tb_file r')) mh (fst (Finish mb)) /\
    building interval mb (meta_entries fh) /\ zlen (fst (Finish mb)) < 2 ^ 32.
Proof.
  intros He Hc Hf. unfold write_metaindex, meta_entries, tb_ok. rewrite (proj1 He). cbn [status_ok].
  assert (Hmb : exists mb, (meta_index_block ← new_BlockBuilder interval; match filter_block r, filter_policy options with
      | Some _, Some policy => handle_encoding ← Handle_EncodeTo fh []; Builder_Add interval (filter_key policy) handle_encoding meta_index_block | _, _ => Some meta_index_block end) = Some mb /\
      building interval mb (meta_entries fh) /\ zlen (fst (Finish mb)) <= 66000).
  { unfold meta_entries. destruct (filter_policy options) as [policy|] eqn:Ep.
    - destruct Hf as ((fb & ->) & Hh). destruct (handle_bytes_ok fh Hh) as [Hhb Hhz]. pose proof (@Name_ok _ _ (Hpolicy policy eq_refl)) as [Hnb Hnz].
      assert (Hz : zlen (filter_key policy) <= 7 + 2 ^ 16) by (unfold filter_key; rewrite zlen_app; change (zlen (bytes_of "filter.")) with 7; lia).
      assert (Hkb : bytes_ok (filter_key policy)) by (apply bytes_ok_app; split; [repeat constructor; vm_compute; congruence|exact Hnb]).
      destruct (first_Add interval (filter_key policy, handle_bytes fh) Hinterval) as (b0 & b & -> & Eb & Hb & Hbz); [split_and!; cbn [fst snd]; auto; lia|]. cbn [mbind option_bind fst snd] in *.
      rewrite Handle_EncodeTo_eq by exact Hh. cbn [mbind option_bind app]. exists b. split; [exact Eb|]. split; [exact Hb|lia].
    - destruct (new_BlockBuilder_ok interval Hinterval) as (b0 & E0 & H0). rewrite E0, Hf. exists b0. split; [reflexivity|]. split; [exact H0|].
      unfold new_BlockBuilder in E0. rewrite (proj2 (Z.leb_le _ _) Hinterval) in E0. injection E0 as <-. rewrite (proj1 (Finish_ok _)). vm_compute. discriminate. }
  destruct Hmb as (mb & Emb & Hmb & Hmz). destruct (new_BlockBuilder interval) as [b0|]; [|discriminate]. cbn [mbind option_bind] in *. rewrite Emb. cbn [mbind option_bind].
  assert (Hc62 : zlen (contents (tb_file r)) < 2 ^ 62) by lia. assert (H32 : 66000 < 2 ^ 32) by lia.
  destruct (block_written r mb interval _ 66000 He Hmb Hmz H32 Hc62) as (mh & file & -> & post & Hw & Hpz & Hs). cbn [mbind option_bind].
  exists mh, mb. eexists _, post. split; [reflexivity|]. split; [exact Hw|]. split; [lia|]. split; [exact Hs|]. split; [exact Hmb|lia].
Qed.

(** The last entry of the index has a key that is not before the last key. *)
Lemma write_index_ok done rest ies r r0 post0 : table_ok done rest ies r0 -> pending_index_entry r0 = (match rest with [] => false | _ => true end) -> fits (concat (map snd done) ++ rest) ->
  wrote r0 r post0 -> zlen (contents (tb_file r)) < 2 ^ 61 ->
  exists ih ib ies' r' post, write_index options r = Some (ih, r') /\ at_end r' /\ contents (tb_file r') = contents (tb_file r) ++ post /\ zlen post <= 2 ^ 30 + 100 /\
    stored_at (contents (tb_file r')) ih (fst (Finish ib)) /\ building 1 ib ies' /\ zlen (fst (Finish ib)) < 2 ^ 32 /\
    index_ok ies' (match rest with [] => done | _ => done ++ [(pending_handle r0, rest)] end) [].
Proof.
  intros Ht Hp Hf Hw Hc. pose proof (wrote_end _ _ _ Hw) as He. pose proof (fits_keys _ Hf) as (_ & _ & Hroom). pose proof Ht as [T1 T2 T3 T4 T5 T6 T7 T8 T9 T10 T11 T12 T13].
  assert (Hib : exists ib ies', (if pending_index_entry r then add_index_entry (FindShortSuccessor (tb_last_key r)) r else Some r) = Some (with_index ib false r) /\ building 1 ib ies' /\
      zlen (fst (Finish ib)) <= 8 + room (concat (map snd done) ++ rest) /\ index_ok ies' (match rest with [] => done | _ => done ++ [(pending_handle r0, rest)] end) []).
  { destruct Hw as [W1 W2 W3 W4 W5 W6 W7]. destruct rest as [|x0 rest0].
    - rewrite W6, Hp. exists (index_block r), ies. split; [destruct r; cbn in *; subst; rewrite Hp; reflexivity|]. rewrite W4. split; [exact T4|]. rewrite app_nil_r. split; [exact T10|exact T5].
    - set (rest := x0 :: rest0) in *. rewrite W6, Hp, W5. assert (Hne : rest <> []) by discriminate. destruct (last_key_in rest Hne) as (x & _ & Hx & El). rewrite (T7 Hne).
      destruct Hf as (Hs & He' & Hr). pose proof He' as Hee. rewrite Forall_forall in Hee. assert (Hxe : x ∈ concat (map snd done) ++ rest) by (apply elem_of_app; auto). destruct (Hee x Hxe) as (Hxb & _).
      assert (Hkx : key_ok (fst x)) by (destruct Hs as [_ Hv]; rewrite Forall_forall in Hv; exact (Hv x Hxe)). destruct (Successor_ok (fst x) Hkx) as [Hks Hle]. destruct (Successor_short (fst x) Hxb) as [Hbs Hzs].
      rewrite <- El in Hks, Hle, Hbs, Hzs. destruct (add_index_entry_ok done rest ies r0 _ Ht Hp (conj Hs (conj He' Hr)) Hks Hbs Hzs Hle) as (b & Eb & Hb & Hz & Hh & Hall).
      unfold add_index_entry in *. rewrite W7, W4. destruct (Handle_EncodeTo (pending_handle r0) []) as [enc|]; [|discriminate]. cbn [mbind option_bind] in *.
      destruct (Builder_Add 1 _ enc (index_block r0)) as [b'|]; [|discriminate]. cbn [mbind option_bind] in *. assert (b' = b) as -> by (injection Eb; auto).
      exists b. eexists. split; [reflexivity|]. split; [exact Hb|]. split; [exact Hz|]. apply index_ok_snoc; [rewrite app_nil_r; exact T5|]. cbn [index_ok fst snd map concat app].
      split; [auto|]. split; [exact Hall|]. split; [intros e Hin; inversion Hin|]. split; [intros e Hin; discriminate|exact Logic.I]. }
  destruct Hib as (ib & ies' & E & Hib & Hiz & Hidx). unfold write_index, tb_ok. rewrite (proj1 He). cbn [status_ok]. rewrite E. cbn [mbind option_bind].
  set (r1 := with_index ib false r). change (index_block r1) with ib. assert (He1 : at_end r1) by exact He. assert (H30 : zlen (fst (Finish ib)) <= 2 ^ 30 + 8) by lia. assert (H32 : 2 ^ 30 + 8 < 2 ^ 32) by lia.
  assert (Hc62 : zlen (contents (tb_file r1)) < 2 ^ 62) by (change (tb_file r1) with (tb_file r); lia).
  destruct (block_written r1 ib 1 ies' (2 ^ 30 + 8) He1 Hib H30 H32 Hc62) as (ih & file & -> & post & Hw1 & Hpz & Hs). cbn [mbind option_bind].
  exists ih, ib, ies'. eexists _, post. split; [reflexivity|]. split; [exact (wrote_end _ _ _ Hw1)|]. split; [exact (wr_contents _ _ _ Hw1)|]. split; [lia|]. split; [exact Hs|]. split; [exact Hib|]. split; [lia|exact Hidx].
Qed.

Lemma write_footer_ok r mh ih : at_end r -> handle_ok mh -> handle_ok ih -> zlen (contents (tb_file r)) < 2 ^ 62 ->
  exists enc r', write_footer mh ih r = Some r' /\ tb_status r' = OK /\ tb_offset r' = zlen (contents (tb_file r')) /\ contents (tb_file r') = contents (tb_file r) ++ enc /\ zlen enc = kEncodedLength /\
    Footer_DecodeFrom enc = Some (OK, mkFooter mh ih).
Proof.
  intros [Hst Ho] Hm Hi Hc. unfold write_footer, tb_ok. rewrite Hst. cbn [status_ok]. destruct (Footer_roundtrip (mkFooter mh ih) Hm Hi) as (enc & -> & Hz & _ & Hd). cbn [mbind option_bind].
  destruct (Append_all enc (tb_file r)) as [E C1]. destruct (file_Append enc (tb_file r)) as [ok file]. cbn [fst snd] in *. subst ok. exists enc. eexists. split; [reflexivity|].
  cbn [with_file tb_status tb_offset tb_file]. split; [reflexivity|]. split; [|split; [exact C1|split; [exact Hz|exact Hd]]]. rewrite C1, zlen_app, Hz, Ho. pose proof (zlen_nonneg (contents (tb_file r))).
  apply u64_small. change kEncodedLength with 48. lia.
Qed.

(** All blocks, when the last one has been written. *)
Lemma finished_blocks done rest ies r : table_ok done rest ies r -> pending_index_entry r = (match rest with [] => false | _ => true end) ->
  let done' := match rest with [] => done | _ => done ++ [(pending_handle r, rest)] end in
  concat (map snd done') = concat (map snd done) ++ rest /\ Forall (fun hg => snd hg <> [] /\ block_at (contents (tb_file r)) (fst hg) (snd hg)) done' /\
  in_order 0 (filter_rows done' [(tb_offset r, [])]) /\ filters_built (filter_block r) done' [(tb_offset r, [])] /\ zlen (contents (tb_file r)) <= room (concat (map snd done) ++ rest) /\ NoDup (offsets done').
Proof.
  intros [T1 T2 T3 T4 T5 T6 T7 T8 T9 T10 T11 T12 T13] Hp. destruct rest as [|x0 rest0]; cbv zeta.
  - rewrite Hp in *. rewrite app_nil_r. destruct T12 as [To Tf]. destruct T13 as [Hnd _]. rewrite app_nil_r in Hnd. split_and!; auto. lia.
  - set (rest := x0 :: rest0) in *. rewrite Hp in *. destruct T11 as (Hne & Hblk & _). destruct T12 as [To Tf].
    split; [rewrite map_app, concat_app; cbn [map concat snd]; rewrite app_nil_r; reflexivity|]. split; [apply Forall_app; split; [exact T3|repeat constructor; assumption]|].
    assert (Er : filter_rows (done ++ [(pending_handle r, rest)]) [(tb_offset r, [])] = filter_rows done [(bh_offset (pending_handle r), map fst rest); (tb_offset r, [])]).
    { unfold filter_rows. rewrite map_app, <- app_assoc. reflexivity. }
    unfold filters_built in *. rewrite Er. split; [exact To|]. split; [exact Tf|]. split; [rewrite room_app; lia|]. unfold offsets. rewrite map_app. apply T13.
Qed.

(** The filters fit too. *)
Lemma filters_fit done o policy fb : filter_policy options = Some policy -> in_order 0 (filter_rows done [(o, [])]) -> build (FP := policy) (filter_rows done [(o, [])]) new_FilterBlockBuilder = Some fb ->
  fits (concat (map snd done)) -> 0 <= o <= 2 ^ 30 -> bytes_ok (fst (Filter_Finish (FP := policy) fb)) /\ zlen (fst (Filter_Finish (FP := policy) fb)) <= 2 ^ 30 + 2 ^ 22.
Proof.
  intros Ep Hord Hb Hf Ho. destruct (fits_keys _ Hf) as (Hn & Hk & _). destruct Hf as (_ & _ & Hr). pose proof (room_nonneg (concat (map snd done))) as Hrn.
  assert (Ek : all_keys (filter_rows done [(o, [])]) = map fst (concat (map snd done))) by (rewrite filter_rows_keys; unfold all_keys; cbn [map concat snd app]; apply app_nil_r).
  destruct (Filter_Finish_size (FL := Hpolicy policy Ep) (filter_rows done [(o, [])]) fb o Hord) as [Hb1 Hb2]; [rewrite Ek; assumption|rewrite Ek; assumption|exact Hb|lia| |].
  - intros o' ks' Hin. unfold filter_rows in *. exact (proj2 (in_order_last _ _ _ _ Hord) o' ks' Hin).
  - split; [exact Hb1|]. rewrite Ek in Hb2. assert (El : zlen (map fst (concat (map snd done))) = zlen (concat (map snd done))) by (unfold zlen; rewrite length_map; reflexivity). rewrite El in Hb2.
    change kFilterBase with 2048 in Hb2. assert (o / 2048 <= 2 ^ 19) by (change (2 ^ 19) with (2 ^ 30 / 2048); apply Z.div_le_mono; lia). lia.
Qed.

Lemma wrote_trans r r1 r2 post1 post2 : wrote r r1 post1 -> wrote r1 r2 post2 -> wrote r r2 (post1 ++ post2).
Proof. intros [] []. constructor; try congruence. rewrite app_assoc. congruence. Qed.

Lemma stored_at_handle B h raw : stored_at B h raw -> handle_ok h.
Proof. intros [H0 _]. exact H0. Qed.

Lemma Table_Finish_ok done rest ies r : table_ok done rest ies r -> closed r = false -> fits (concat (map snd done) ++ rest) ->
  exists r', Table_Finish options r = Some (OK, r') /\ table_file (contents (tb_file r')) (concat (map snd done) ++ rest) /\ zlen (contents (tb_file r')) < 2 ^ 32 /\ FileSize r' = zlen (contents (tb_file r')).
Proof.
  intros Ht0 Hcl0 Hf. unfold Table_Finish. destruct (last_Flush done rest ies r Ht0 Hcl0 Hf) as (r0 & -> & Ht & Hcl & Hp). cbn [mbind option_bind]. rewrite Hcl.
  destruct (finished_blocks done rest ies r0 Ht Hp) as (Ecat & Hdone & Hord & Hfb & Hsz0 & Hnd). set (done' := match rest with [] => done | _ => done ++ [(pending_handle r0, rest)] end) in *.
  pose proof (fits_keys _ Hf) as (_ & _ & Hroom). assert (He0 : at_end (with_closed r0)) by (split; [exact (to_status_ok _ _ _ _ Ht)|exact (to_offset _ _ _ _ Ht)]). pose proof (to_offset _ _ _ _ Ht) as Eo.
  pose proof (zlen_nonneg (contents (tb_file r0))) as Hz0. rewrite <- Ecat in Hf.
  assert (Hff : forall policy fb, filter_block r0 = Some (policy, fb) -> bytes_ok (fst (Filter_Finish (FP := policy) fb)) /\ zlen (fst (Filter_Finish (FP := policy) fb)) <= 2 ^ 30 + 2 ^ 22).
  { intros policy fb E. unfold filters_built in Hfb. rewrite E in Hfb. destruct Hfb as [Ep Eb]. apply (filters_fit done' (tb_offset r0)); auto. lia. }
  destruct (write_filter_ok (with_closed r0) He0) as (fh & r1 & post1 & -> & Hw1 & Hfilt); [cbn; lia| |].
  { intros policy fb E. destruct (Hff policy fb E) as [H1 H2]. split; [exact H1|lia]. }
  cbn [with_closed filter_block tb_file] in Hfilt. assert (Hw01 : wrote r0 r1 post1) by (destruct Hw1; constructor; assumption).
  assert (Hp1 : zlen post1 <= 2 ^ 30 + 2 ^ 22 + 5). { destruct (filter_block r0) as [[policy fb]|]; [destruct (Hff policy fb eq_refl); lia|destruct Hfilt as [_ ->]; unfold zlen; cbn; lia]. }
  pose proof (wr_contents _ _ _ Hw01) as C1. assert (Hc1 : zlen (contents (tb_file r1)) <= 2 ^ 31 + 2 ^ 23) by (rewrite C1, zlen_app; lia).
  assert (Hmeta : match filter_policy options with Some policy => (exists fb, filter_block r1 = Some (policy, fb)) /\ handle_ok fh | None => filter_block r1 = None end).
  { unfold filters_built in Hfb. destruct (filter_block r0) as [[policy fb]|].
    - destruct Hfb as [-> _]. destruct Hfilt as ((fb' & Efb') & Hs & _). split; [exists fb'; exact Efb'|exact (stored_at_handle _ _ _ Hs)].
    - rewrite Hfb. apply Hfilt. }
  destruct (write_metaindex_ok r1 fh (wrote_end _ _ _ Hw01) ltac:(lia) Hmeta) as (mh & mb & r2 & post2 & -> & Hw12 & Hp2 & Hsm & Hmb & Hmz). cbn [mbind option_bind].
  pose proof (wr_contents _ _ _ Hw12) as C2. assert (Hc2 : zlen (contents (tb_file r2)) <= 2 ^ 31 + 2 ^ 24) by (rewrite C2, zlen_app; lia).
  rewrite Ecat in Hf. destruct (write_index_ok done rest ies r2 r0 _ Ht Hp Hf (wrote_trans _ _ _ _ _ Hw01 Hw12) ltac:(lia)) as (ih & ib & ies' & r3 & post3 & -> & He3 & C3 & Hp3 & Hsi & Hib & Hiz & Hidx).
  cbn [mbind option_bind]. assert (Hc3 : zlen (contents (tb_file r3)) <= 2 ^ 31 + 2 ^ 30 + 2 ^ 25) by (rewrite C3, zlen_app; lia).
  destruct (write_footer_ok r3 mh ih He3 (stored_at_handle _ _ _ Hsm) (stored_at_handle _ _ _ Hsi) ltac:(lia)) as (enc & r4 & -> & Hst & Ho4 & C4 & Hez & Hdec). cbn [mbind option_bind].
  exists r4. rewrite Hst. split; [reflexivity|]. split; [|split; [rewrite C4, zlen_app, Hez; change kEncodedLength with 48; lia|exact Ho4]].
  exists (contents (tb_file r3)), enc, done', ies', ib, mh, ih. rewrite C4, Ecat. split; [reflexivity|]. split; [exact Hez|]. split; [exact Hdec|]. split; [reflexivity|].
  split; [|split; [exact Hnd|split; [exact Hidx|split; [apply stored_at_app, Hsi|split; [exact Hib|split; [exact Hiz|split; [exact (stored_at_handle _ _ _ Hsm)|]]]]]]].
  - apply (Forall_impl _ _ _ Hdone). intros hg [Hg Hb]. split; [exact Hg|]. rewrite C3, C2, C1, <- !app_assoc. apply block_at_app, Hb.
  - unfold meta_ok, meta_entries, filters_built in *. destruct (filter_block r0) as [[policy fb]|] eqn:Efb.
    + destruct Hfb as [Ep Eb]. rewrite Ep in *. destruct Hfilt as (_ & Hsf & _). destruct (Hff policy fb eq_refl) as [_ Hfz]. exists mb, fh, fb, (tb_offset r0).
      split; [rewrite C3, <- app_assoc; apply stored_at_app, Hsm|]. split; [exact Hmb|]. split; [exact Hmz|]. split; [rewrite C3, C2, <- !app_assoc; apply stored_at_app, Hsf|].
      split; [exact Eb|]. split; [exact Hord|lia].
    + rewrite Hfb. exact Logic.I.
Qed.
End Building.

(** * Reading it *)

Section Runs.
Context {I J : Type} {IT : Iterator I} {JT : Iterator J} (cmp : list Z -> list Z -> Z) (target_ok : list Z -> Prop) (es : list entry).

(** An iterator that is somewhere, in whatever way that is known. *)
Definition runs (i : I) (c : cursor) : Prop := exists pos, Iterates IT cmp target_ok es pos /\ pos i c.

Lemma runs_iterates : Iterates IT cmp target_ok es runs.
Proof.
  constructor.
  - intros i b e a (pos & Hit & Hp). exact (pos_at _ _ _ _ Hp).
  - intros i (pos & Hit & Hp). exact (pos_off _ Hp).
  - intros i c (pos & Hit & Hp). exact (pos_status _ _ Hp).
  - intros i c (pos & Hit & Hp). destruct (pos_SeekToFirst _ _ Hp) as (i' & E & Hp'). exists i'. split; [exact E|exists pos; auto].
  - intros i c (pos & Hit & Hp). destruct (pos_SeekToLast _ _ Hp) as (i' & E & Hp'). exists i'. split; [exact E|exists pos; auto].
  - intros i c k (pos & Hit & Hp) Hk. destruct (pos_Seek _ _ k Hp Hk) as (i' & E & Hp'). exists i'. split; [exact E|exists pos; auto].
  - intros i b e a (pos & Hit & Hp). destruct (pos_Next _ _ _ _ Hp) as (i' & E & Hp'). exists i'. split; [exact E|exists pos; auto].
  - intros i b e a (pos & Hit & Hp). destruct (pos_Prev _ _ _ _ Hp) as (i' & E & Hp'). exists i'. split; [exact E|exists pos; auto].
Qed.

(** An iterator that is the second of two kinds. *)
Definition either_pos (pos : J -> cursor -> Prop) (i : I + J) (c : cursor) : Prop := match i with inl _ => False | inr j => pos j c end.

Lemma Either_iterates pos : Iterates JT cmp target_ok es pos -> Iterates (Either_Iterator IT JT) cmp target_ok es (either_pos pos).
Proof.
  intros HJ. constructor.
  - intros [i|j] b e a Hp; [contradiction|]. exact (pos_at (Iterates := HJ) _ _ _ _ Hp).
  - intros [i|j] Hp; [contradiction|]. exact (pos_off (Iterates := HJ) _ Hp).
  - intros [i|j] c Hp; [contradiction|]. exact (pos_status (Iterates := HJ) _ _ Hp).
  - intros [i|j] c Hp; [contradiction|]. destruct (pos_SeekToFirst (Iterates := HJ) _ _ Hp) as (j' & E & Hp'). exists (inr j'). cbn. rewrite E. auto.
  - intros [i|j] c Hp; [contradiction|]. destruct (pos_SeekToLast (Iterates := HJ) _ _ Hp) as (j' & E & Hp'). exists (inr j'). cbn. rewrite E. auto.
  - intros [i|j] c k Hp Hk; [contradiction|]. destruct (pos_Seek (Iterates := HJ) _ _ k Hp Hk) as (j' & E & Hp'). exists (inr j'). cbn. rewrite E. auto.
  - intros [i|j] b e a Hp; [contradiction|]. destruct (pos_Next (Iterates := HJ) _ _ _ _ Hp) as (j' & E & Hp'). exists (inr j'). cbn. rewrite E. auto.
  - intros [i|j] b e a Hp; [contradiction|]. destruct (pos_Prev (Iterates := HJ) _ _ _ _ Hp) as (j' & E & Hp'). exists (inr j'). cbn. rewrite E. auto.
Qed.
End Runs.

Section Reading.
Context {P : Port} {C : Comparator} {L : ComparatorLaws C} {A : Address} {R : Type} {RF : RandomAccessFile R} {RL : RandomAccessFileLaws R} {S : Snappy} {SL : SnappyLaws S}.
Context (options : Options) (rate : Z).
#[local] Existing Instance BlockIterator_Iterator.
Implicit Types (e : entry) (es g rest ies : list entry) (h : BlockHandle) (done : list (BlockHandle * list entry)) (B raw : list Z) (t : Table R).

#[local] Abbreviation block_runs g := (runs (IT := BlockIterator_Iterator) Compare key_ok g).

Lemma holds_runs raw g : holds options raw g -> sorted_entries (KO := forward_order L) g -> exists it, Block_NewIterator (new_Block raw) = Some (inr it) /\ block_runs g (inr it) Off.
Proof.
  intros (b & Hb & -> & Hz) Hs. destruct (building_iterates _ b g Hb Hs Hz) as (it & pos & E & Ho & Hit). exists it. split; [exact E|]. exists (either_pos pos). split; [apply Either_iterates, Hit|exact Ho].
Qed.

(** The entries a handle leads to. *)
Definition entries_at done (v : list Z) : list entry := match List.find (fun hg => bool_decide (handle_bytes (fst hg) = v)) done with Some hg => snd hg | None => [] end.

Lemma handle_bytes_inj h h' : handle_ok h -> handle_ok h' -> handle_bytes h = handle_bytes h' -> h = h'.
Proof.
  intros H1 H2 E. pose proof (Handle_Decode h h [] H1 (List.Forall_nil _)) as D1. pose proof (Handle_Decode h' h [] H2 (List.Forall_nil _)) as D2. rewrite E in D1. congruence.
Qed.

Lemma entries_at_done done h g : NoDup (offsets done) -> Forall (fun hg => handle_ok (fst hg)) done -> (h, g) ∈ done -> entries_at done (handle_bytes h) = g.
Proof.
  unfold entries_at. induction done as [|[h' g'] done IH]; intros Hnd Hok Hin; [inversion Hin|]. apply List.Forall_cons_iff in Hok as [Hh' Hok]. cbn [fst] in Hh'. cbn [List.find fst].
  unfold offsets in Hnd. cbn [map fst] in Hnd. apply NoDup_cons in Hnd as [Hn Hnd]. apply elem_of_cons in Hin as [E|Hin].
  - injection E as <- <-. rewrite bool_decide_true by reflexivity. reflexivity.
  - rewrite bool_decide_false; [exact (IH Hnd Hok Hin)|]. intros E. apply Hn. assert (Hh : handle_ok h) by (rewrite Forall_forall in Hok; exact (Hok _ Hin)).
    rewrite (handle_bytes_inj h' h Hh' Hh E). apply list_elem_of_In, in_map_iff. exists (h, g). split; [reflexivity|apply list_elem_of_In, Hin].
Qed.

(** The place of an entry in the index is that of its block. *)
Lemma index_ok_split ib : forall ies done ie ia rest, index_ok ies done rest -> ies = ib ++ ie :: ia ->
  exists d1 h g d2, done = d1 ++ (h, g) :: d2 /\ snd ie = handle_bytes h /\ index_ok (ie :: ia) ((h, g) :: d2) rest /\ length d1 = length ib.
Proof.
  induction ib as [|x ib IH]; intros ies done ie ia rest Hi ->; cbn [app] in Hi.
  - destruct done as [|[h g] done]; [contradiction|]. exists [], h, g, done. split; [reflexivity|]. split; [apply Hi|]. split; [exact Hi|reflexivity].
  - destruct done as [|[h g] done]; [contradiction|]. cbn [index_ok] in Hi. destruct Hi as (_ & _ & _ & _ & Hi). destruct (IH _ _ _ _ _ Hi eq_refl) as (d1 & h' & g' & d2 & -> & H1 & H2 & H3).
    exists ((h, g) :: d1), h', g', d2. split; [reflexivity|]. split; [exact H1|]. split; [exact H2|]. cbn. lia.
Qed.

Lemma flat_index ies : forall done rest (block : list Z -> list entry), index_ok ies done rest -> (forall h g, (h, g) ∈ done -> block (handle_bytes h) = g) -> flat block ies = concat (map snd done).
Proof.
  induction ies as [|ie ies IH]; intros [|[h g] done] rest block; cbn [index_ok]; try contradiction; [reflexivity|]. intros ((E & _) & _ & _ & _ & Hi) Hb. unfold flat in *. cbn [map concat snd].
  rewrite E, (Hb h g) by (apply elem_of_cons; auto). f_equal. apply (IH done rest); [exact Hi|]. intros h' g' Hin. apply Hb. apply elem_of_cons. auto.
Qed.

Lemma index_sorted ies : forall done rest, index_ok ies done rest -> Forall (fun hg => snd hg <> []) done -> (forall e, e ∈ concat (map snd done) -> key_ok (fst e)) -> sorted_entries (KO := forward_order L) ies.
Proof.
  induction ies as [|ie ies IH]; intros [|[h g] done] rest; cbn [index_ok]; try contradiction; [intros; split; constructor|]. intros ((_ & _ & Hk & _) & _ & Hlt & _ & Hi) Hne Hkeys.
  apply List.Forall_cons_iff in Hne as [_ Hne]. assert (Hkeys' : forall e, e ∈ concat (map snd done) -> key_ok (fst e)) by (intros e He; apply Hkeys; cbn [map concat snd]; apply elem_of_app; auto).
  destruct (IH done rest Hi Hne Hkeys') as [Hs Hv]. split; [|constructor; [exact Hk|exact Hv]]. constructor; [exact Hs|]. apply Forall_forall. intros ie' Hie'.
  apply list_elem_of_split in Hie' as (ib & ia & E). destruct (index_ok_split ib ies done ie' ia rest Hi E) as (d1 & h' & g' & d2 & -> & _ & Hi' & _).
  cbn [index_ok] in Hi'. destruct Hi' as ((_ & _ & Hk' & _) & Hle & _). rewrite Forall_forall in Hne. specialize (Hne (h', g') ltac:(apply elem_of_app; right; apply elem_of_cons; auto)). cbn [snd] in Hne.
  destruct g' as [|x g']; [contradiction|]. assert (Hx : x ∈ concat (map snd (d1 ++ (h', x :: g') :: d2))).
  { rewrite map_app, concat_app. cbn [map concat snd]. apply elem_of_app. right. apply elem_of_cons. auto. }
  cbn. apply (Compare_lt_le (fst ie) (fst x) (fst ie')); auto. apply Hlt, elem_of_app. auto. apply Hle. apply elem_of_cons. auto.
Qed.

Lemma index_separated ies done : index_ok ies done [] -> NoDup (offsets done) -> Forall (fun hg => handle_ok (fst hg)) done -> (forall e, e ∈ concat (map snd done) -> key_ok (fst e)) -> separated ies (entries_at done).
Proof.
  intros Hi Hnd Hok Hkeys ib ie ia E. destruct (index_ok_split (rev ib) ies done ie ia [] Hi (eq_sym E)) as (d1 & h & g & d2 & Ed & Ev & Hi' & _). cbn [index_ok] in Hi'.
  destruct Hi' as ((_ & _ & Hk & _) & Hle & Hlt & _ & Hi2). assert (Hin : (h, g) ∈ done) by (rewrite Ed; apply elem_of_app; right; apply elem_of_cons; auto).
  assert (Hkg : forall e, e ∈ g -> key_ok (fst e)).
  { intros e He. apply Hkeys. rewrite Ed, map_app, concat_app. cbn [map concat snd]. apply elem_of_app. right. apply elem_of_app. auto. }
  split; [exact Hk|]. rewrite Ev, (entries_at_done done h g Hnd Hok Hin). split; [intros e He; split; [exact (Hkg e He)|exact (Hle e He)]|].
  rewrite (flat_index ia d2 [] (entries_at done) Hi2).
  - intros e He. split; [|apply Hlt, elem_of_app; auto]. apply Hkeys. rewrite Ed, map_app, concat_app. cbn [map concat snd]. apply elem_of_app. right. apply elem_of_app. auto.
  - intros h' g' Hin'. apply entries_at_done; [exact Hnd|exact Hok|]. rewrite Ed. apply elem_of_app. right. apply elem_of_cons. auto.
Qed.

(** ** Opening *)

Context (Hpolicy : forall policy, filter_policy options = Some policy -> FilterPolicyLaws policy rate).

(** What others put into the cache under the keys of a table are blocks of it. *)
Definition coherent B (cache : option (list Z -> option Block)) (id : Z) : Prop :=
  forall h raw b Lookup, cache = Some Lookup -> stored_at B h raw -> Lookup (cache_key id (bh_offset h)) = Some b -> b = new_Block raw.

(** The table that has been opened from a file. *)
Record opened (file : R) t done (ies : list entry) (ib : BlockBuilder) : Prop := {
  op_file : t_file t = file;
  op_cache : coherent (whole file) (block_cache_ t) (cache_id_ t);
  op_index : t_index_block t = new_Block (fst (Finish ib));
  op_filter : match filter_policy options with
    | None => filter_ t = None
    | Some policy => exists fb o, filter_ t = Some (policy, new_FilterBlockReader (fst (Filter_Finish (FP := policy) fb))) /\
        build (FP := policy) (filter_rows done [(o, [])]) new_FilterBlockBuilder = Some fb /\ in_order 0 (filter_rows done [(o, [])]) /\
        zlen (fst (Filter_Finish (FP := policy) fb)) < 2 ^ 32
    end }.

Lemma ReadFilter_ok policy h raw t : stored_at (whole (t_file t)) h raw -> ReadFilter policy (handle_bytes h) t = Some (set_reader (Some (policy, new_FilterBlockReader raw)) t).
Proof.
  intros Hs. unfold ReadFilter. rewrite <- (app_nil_r (handle_bytes h)), Handle_Decode; [|apply Hs|constructor]. cbn [status_ok negb].
  rewrite (ReadBlock_stored _ _ _ _ Hs). reflexivity.
Qed.

Lemma ReadMeta_ok t mh ih done : t_options t = options -> meta_ok options (whole (t_file t)) mh done -> exists f, ReadMeta (mkFooter mh ih) t = Some (match filter_policy options with None => t | Some _ => set_reader f t end) /\
  match filter_policy options with
  | None => True
  | Some policy => exists fb o, f = Some (policy, new_FilterBlockReader (fst (Filter_Finish (FP := policy) fb))) /\
      build (FP := policy) (filter_rows done [(o, [])]) new_FilterBlockBuilder = Some fb /\ in_order 0 (filter_rows done [(o, [])]) /\ zlen (fst (Filter_Finish (FP := policy) fb)) < 2 ^ 32
  end.
Proof.
  intros Eo Hm. unfold ReadMeta, meta_ok in *. rewrite Eo. destruct (filter_policy options) as [policy|]; [|exists None; split; [reflexivity|exact Logic.I]].
  destruct Hm as (mb & fh & fb & o & Hs & Hb & Hz & Hsf & Eb & Hord & Hfz). cbn [metaindex_handle_]. rewrite (ReadBlock_stored _ _ _ _ Hs). cbn [mbind option_bind status_ok negb].
  set (key := filter_key policy) in *. assert (Hkb : bytes_ok key).
  { apply bytes_ok_app. split; [repeat constructor; vm_compute; congruence|apply (@Name_ok _ _ (Hpolicy policy eq_refl))]. }
  assert (Hsort : sorted_entries (KO := forward_order BytewiseLaws) [(key, handle_bytes fh)]).
  { split; [apply SSorted_cons; [apply SSorted_nil|apply List.Forall_nil]|apply List.Forall_cons; [exact Hkb|apply List.Forall_nil]]. }
  destruct (building_iterates (C := BytewiseComparator) (L := BytewiseLaws) _ mb _ Hb Hsort Hz) as (it & pos & -> & Ho & Hit). cbn [mbind option_bind].
  pose proof (Either_iterates (IT := Empty_Iterator) _ _ _ _ Hit) as Hit'.
  destruct (pos_Seek (Iterates := Hit') (inr it) Off key Ho Hkb) as (it' & E & Hp).
  assert (E' : it_Seek (Iterator := meta_Iterator) key (inr it) = Some it') by exact E. rewrite E'. cbn [mbind option_bind].
  cbn [scan] in Hp. cbn [fst] in Hp. assert (E0 : @Compare BytewiseComparator key key = 0) by apply slice_compare_refl. rewrite E0 in Hp. cbn [Z.leb Z.compare] in Hp. destruct (pos_at (Iterates := Hit') _ _ _ _ Hp) as (_ & Hv & Hk & Hval).
  assert (Hv' : it_Valid (Iterator := meta_Iterator) it' = true) by exact Hv. assert (Hk' : it_key (Iterator := meta_Iterator) it' = Some key) by exact Hk.
  assert (Hval' : it_value (Iterator := meta_Iterator) it' = Some (handle_bytes fh)) by exact Hval.
  rewrite Hv', Hk'. cbn [mbind option_bind]. rewrite bool_decide_true by reflexivity. rewrite Hval'. cbn [mbind option_bind]. rewrite (ReadFilter_ok policy fh _ t Hsf).
  eexists. split; [reflexivity|]. exists fb, o. auto.
Qed.

Lemma Open_ok (file : R) es cache new_id : table_file options (whole file) es -> (forall B, B = whole file -> coherent B cache new_id) -> zlen (whole file) < 2 ^ 63 ->
  exists t done ies ib, Open options file (zlen (whole file)) cache new_id = Some (OK, Some t) /\ opened file t done ies ib /\ es = concat (map snd done) /\
    Forall (fun hg => snd hg <> [] /\ block_at options (whole file) (fst hg) (snd hg)) done /\ NoDup (offsets done) /\ index_ok ies done [] /\ building 1 ib ies /\ zlen (fst (Finish ib)) < 2 ^ 32.
Proof.
  intros (B0 & enc & done & ies & ib & mh & ih & EB & Hez & Hdec & Ees & Hdone & Hnd & Hidx & Hsi & Hib & Hiz & _ & Hm) Hc _. unfold Open.
  pose proof (zlen_nonneg B0) as HB0. assert (Hz : zlen (whole file) = zlen B0 + kEncodedLength) by (rewrite EB, zlen_app, Hez; reflexivity). change kEncodedLength with 48 in *.
  destruct (Z.ltb_spec (zlen (whole file)) 48); [lia|]. rewrite ReadAt_whole by lia. cbn [negb].
  assert (Er : ztake 48 (zdrop (zlen (whole file) - 48) (whole file)) = enc).
  { replace (zlen (whole file) - 48) with (zlen B0) by lia. rewrite EB, zdrop_app. apply ztake_all_ge. lia. }
  rewrite Er, Hdec. cbn [mbind option_bind status_ok negb index_handle_ metaindex_handle_]. rewrite (ReadBlock_stored _ _ _ _ Hsi). cbn [mbind option_bind status_ok].
  set (t := mkTable _ _ _ _ _ _ _). destruct (ReadMeta_ok t mh ih done eq_refl Hm) as (f & -> & Hf). cbn [mbind option_bind].
  exists (match filter_policy options with None => t | Some _ => set_reader f t end), done, ies, ib. split; [reflexivity|]. split; [|split_and!; assumption].
  assert (Hco : coherent (whole file) cache (match cache with Some _ => new_id | None => 0 end)).
  { intros h raw b Lookup E Hs. subst cache. apply (Hc _ eq_refl h raw b Lookup eq_refl Hs). }
  destruct (filter_policy options) as [policy|] eqn:Ep; (constructor; [reflexivity|exact Hco|reflexivity|rewrite Ep]); [|reflexivity].
  destruct Hf as (fb & o & -> & Hf). exists fb, o. split; [reflexivity|exact Hf].
Qed.

(** ** Its blocks *)

Section Opened.
Context (file : R) t done (ies : list entry) (ib : BlockBuilder) (verify : bool).
Context (Hop : opened file t done ies ib) (Hdone : Forall (fun hg => snd hg <> [] /\ block_at options (whole file) (fst hg) (snd hg)) done) (Hnd : NoDup (offsets done)).
Context (Hidx : index_ok ies done []) (Hib : building 1 ib ies) (Hiz : zlen (fst (Finish ib)) < 2 ^ 32).
#[local] Abbreviation es := (concat (map snd done)).
Context (Hsorted : sorted_entries (KO := forward_order L) es).

Lemma done_handles : Forall (fun hg => handle_ok (fst hg)) done.
Proof. apply (Forall_impl _ _ _ Hdone). intros hg (_ & raw & [Hh _] & _). exact Hh. Qed.

Lemma es_keys e : e ∈ es -> key_ok (fst e).
Proof. intros He. destruct Hsorted as [_ Hv]. rewrite Forall_forall in Hv. exact (Hv e He). Qed.

Lemma group_sorted h g : (h, g) ∈ done -> sorted_entries (KO := forward_order L) g.
Proof.
  intros Hin. apply list_elem_of_split in Hin as (d1 & d2 & E). destruct Hsorted as [Hs Hv]. rewrite E, map_app, concat_app in Hs, Hv. cbn [map concat snd] in Hs, Hv.
  apply StronglySorted_app in Hs as (_ & _ & Hs). apply StronglySorted_app in Hs as (_ & Hs & _). apply Forall_app in Hv as [_ Hv]. apply Forall_app in Hv as [Hv _]. split; assumption.
Qed.

Lemma BlockReader_ok h g : (h, g) ∈ done -> exists it, BlockReader t verify (handle_bytes h) = Some (inr it) /\ block_runs g (inr it) Off.
Proof.
  intros Hin. rewrite Forall_forall in Hdone. destruct (Hdone _ Hin) as (_ & raw & Hs & Hh). cbn [fst snd] in Hs, Hh. destruct (holds_runs raw g Hh (group_sorted h g Hin)) as (it & E & Hr).
  exists it. split; [|exact Hr]. unfold BlockReader. rewrite <- (app_nil_r (handle_bytes h)), Handle_Decode; [|apply Hs|constructor]. cbn [status_ok negb].
  destruct (block_cache_ t) as [Lookup|] eqn:Ec.
  - destruct (Lookup (cache_key (cache_id_ t) (bh_offset h))) as [b|] eqn:El.
    + rewrite (op_cache _ _ _ _ _ Hop h raw b Lookup Ec Hs El). exact E.
    + rewrite (op_file _ _ _ _ _ Hop), (ReadBlock_stored _ _ _ _ Hs). cbn [mbind option_bind status_ok]. exact E.
  - rewrite (op_file _ _ _ _ _ Hop), (ReadBlock_stored _ _ _ _ Hs). cbn [mbind option_bind status_ok]. exact E.
Qed.

Lemma index_runs : exists it, Block_NewIterator (t_index_block t) = Some (inr it) /\ block_runs ies (inr it) Off.
Proof.
  rewrite (op_index _ _ _ _ _ Hop). assert (Hs : sorted_entries (KO := forward_order L) ies).
  { apply (index_sorted ies done [] Hidx); [apply (Forall_impl _ _ _ Hdone); intros hg [H0 _]; exact H0|exact es_keys]. }
  destruct (building_iterates 1 ib ies Hib Hs Hiz) as (it & pos & E & Ho & Hit). exists it. split; [exact E|]. exists (either_pos pos). split; [apply Either_iterates, Hit|exact Ho].
Qed.

Lemma index_in ie : ie ∈ ies -> exists h g, (h, g) ∈ done /\ snd ie = handle_bytes h /\ entries_at done (snd ie) = g.
Proof.
  intros Hie. apply list_elem_of_split in Hie as (ib0 & ia & E). destruct (index_ok_split ib0 ies done ie ia [] Hidx E) as (d1 & h & g & d2 & Ed & Ev & _).
  assert (Hin : (h, g) ∈ done) by (rewrite Ed; apply elem_of_app; right; apply elem_of_cons; auto). exists h, g. split; [exact Hin|]. split; [exact Ev|]. rewrite Ev.
  apply entries_at_done; [exact Hnd|apply done_handles|exact Hin].
Qed.

(** The iterator of the table is that of its entries. *)
Lemma Table_NewIterator_ok fuel : (length es + 1 < fuel)%nat -> exists it pos, Table_NewIterator t = Some it /\ pos it Off /\ Iterates (Table_Iterator t verify fuel) Compare key_ok es pos.
Proof.
  intros Hfuel. destruct index_runs as (it & E & Hr). unfold Table_NewIterator. rewrite E. cbn [mbind option_bind].
  assert (II := runs_iterates (IT := BlockIterator_Iterator) Compare key_ok ies).
  assert (DI : forall ie, ie ∈ ies -> Iterates BlockIterator_Iterator Compare key_ok (entries_at done (snd ie)) (runs (IT := BlockIterator_Iterator) Compare key_ok (entries_at done (snd ie)))) by (intros ie _; apply runs_iterates).
  assert (Hbl : forall ie, ie ∈ ies -> exists d, BlockReader t verify (snd ie) = Some d /\ runs (IT := BlockIterator_Iterator) Compare key_ok (entries_at done (snd ie)) d Off).
  { intros ie Hie. destruct (index_in ie Hie) as (h & g & Hin & Ev & ->). rewrite Ev. destruct (BlockReader_ok h g Hin) as (d & Ed & Hd). exists (inr d). auto. }
  assert (Hsep : separated ies (entries_at done)) by (apply index_separated; [exact Hidx|exact Hnd|apply done_handles|exact es_keys]).
  assert (Hlen : (length ies <= length es)%nat) by (clear -Hidx Hdone; revert done Hidx Hdone; induction ies as [|ie l IH]; intros [|[h g] d]; cbn [index_ok]; try contradiction; [intros; cbn; lia|];
    intros (_ & _ & _ & _ & Hi) Hd; apply List.Forall_cons_iff in Hd as [[Hg _] Hd]; cbn [map concat snd length] in *; rewrite length_app; specialize (IH d Hi Hd); destruct g; [contradiction|cbn [length]; lia]).
  assert (Hf : (length ies + 1 < fuel)%nat) by lia.
  destruct (new_TwoLevel_off (target_ok := key_ok) ies (runs (IT := BlockIterator_Iterator) Compare key_ok ies) (entries_at done) (fun v => runs (IT := BlockIterator_Iterator) Compare key_ok (entries_at done v)) II (inr it) Hr) as (w & Ew & Hw).
  exists w. eexists. split; [exact Ew|]. split; [exact Hw|].
  pose proof (TwoLevel_iterates (BlockReader t verify) fuel ies _ (entries_at done) (fun v => runs (IT := BlockIterator_Iterator) Compare key_ok (entries_at done v)) II DI Hbl Hf Hsep (fun k H0 => H0)) as HT.
  rewrite (flat_index ies done [] (entries_at done) Hidx) in HT by (intros h g Hin; apply entries_at_done; [exact Hnd|apply done_handles|exact Hin]). exact HT.
Qed.

(** ** Looking up a key *)

(** No separator that is made for the block of [e] lies at or after [k]; so it is when [k] is
    the key of [e]. *)
Definition reaches (k : list Z) e : Prop := forall start, key_ok start -> Compare start k < 0 -> Compare (FindShortestSeparator start (fst e)) k < 0.

(** A filter that does not deny the key of [e] does not deny [k]. *)
Definition same_filter (k : list Z) e : Prop :=
  match filter_policy options with None => True | Some policy => forall f, @KeyMayMatch policy (fst e) f = true -> @KeyMayMatch policy k f = true end.

Context (Hcount : zlen (map fst es) < 2 ^ 31) (Hkeys : Forall (fun k => zlen k < 2 ^ 64) (map fst es)).

Lemma denied_ok h g k : (h, g) ∈ done -> exists d, (match filter_ t with
      | None => Some false
      | Some (policy, filter) =>
        let '(s, handle, _) := Handle_DecodeFrom (handle_bytes h) new_BlockHandle in
        if status_ok s then may ← Reader_KeyMayMatch (FP := policy) (bh_offset handle) k filter; Some (negb may) else Some false
      end) = Some d /\ (d = true -> forall e, e ∈ g -> same_filter k e -> False).
Proof.
  intros Hin. pose proof (op_filter _ _ _ _ _ Hop) as Hf. unfold same_filter. destruct (filter_policy options) as [policy|] eqn:Ep; [|rewrite Hf; exists false; split; [reflexivity|discriminate]].
  destruct Hf as (fb & o & -> & Eb & Hord & Hfz). assert (Hh : handle_ok h) by (pose proof done_handles as Hd; rewrite Forall_forall in Hd; exact (Hd _ Hin)).
  rewrite <- (app_nil_r (handle_bytes h)), Handle_Decode by (exact Hh || apply List.Forall_nil). cbn [status_ok].
  assert (Ek : all_keys (filter_rows done [(o, [])]) = map fst es) by (rewrite filter_rows_keys; unfold all_keys; cbn [map concat snd app]; apply app_nil_r).
  destruct (filters_answer (FL := Hpolicy policy eq_refl) (filter_rows done [(o, [])]) Hord) as (fb' & Eb' & Hans); [rewrite Ek; assumption..|]. assert (fb' = fb) as -> by congruence.
  specialize (Hans Hfz (bh_offset h) ltac:(apply Hh)). cbv zeta in Hans. destruct Hans as [(_ & _ & ->)|(_ & f & (_ & _ & _ & Hcov) & ->)]; cbn [mbind option_bind]; eexists; (split; [reflexivity|]).
  - discriminate.
  - intros Hd e He Hs. rewrite (Hs f) in Hd; [discriminate|]. apply Hcov. apply (keys_at_in _ (bh_offset h) (map fst g)); [|apply list_elem_of_In, in_map, list_elem_of_In, He].
    apply elem_of_app. left. apply list_elem_of_In, in_map_iff. exists (h, g). split; [reflexivity|apply list_elem_of_In, Hin].
Qed.

Lemma InternalGet_ok k : key_ok k -> let p := fun e : entry => 0 <=? Compare (fst e) k in
  exists r, InternalGet t verify k = Some (r, OK) /\ (forall e, r = Some e -> exists b a, scan p [] es = At b e a) /\
    (forall b e a, scan p [] es = At b e a -> reaches k e -> same_filter k e -> r = Some e).
Proof.
  intros Hk p. assert (Hsep : separated ies (entries_at done)) by (apply index_separated; [exact Hidx|exact Hnd|apply done_handles|exact es_keys]).
  assert (Hblock : forall h g, (h, g) ∈ done -> entries_at done (handle_bytes h) = g) by (intros h g Hin; apply entries_at_done; [exact Hnd|apply done_handles|exact Hin]).
  pose proof (flat_index ies done [] (entries_at done) Hidx Hblock) as Eflat. destruct index_runs as (it & E & Hr). unfold InternalGet. rewrite E. cbn [mbind option_bind].
  assert (II := runs_iterates (IT := BlockIterator_Iterator) Compare key_ok ies). destruct (pos_Seek (Iterates := II) _ _ k Hr Hk) as (it' & E' & Hr'). rewrite E'. cbn [mbind option_bind]. fold p in Hr'.
  pose proof (pos_status (Iterates := II) _ _ Hr') as Est. destruct (scan_split p ies) as (a & b & Eab & Ha & Hb & Es). rewrite Es in Hr'.
  assert (Hpre : Forall (fun e => p e = false) (flat (entries_at done) a)).
  { rewrite <- (rev_involutive a). apply (flat_before_target ies (entries_at done) Hsep (rev a) b k); [rewrite rev_involutive; auto|exact Hk|rewrite rev_involutive; exact Ha]. }
  destruct b as [|ie ia]; cbn [ahead] in Hr'.
  - rewrite (pos_off (Iterates := II) _ Hr'). cbn [mbind option_bind status_ok]. rewrite Est. exists None. split; [reflexivity|]. split; [discriminate|]. intros b e a' Hscan. exfalso.
    rewrite <- Eflat, Eab, app_nil_r in Hscan. rewrite <- (app_nil_r (flat _ a)), scan_app in Hscan by exact Hpre. discriminate.
  - destruct (pos_at (Iterates := II) _ _ _ _ Hr') as (_ & Hv & _ & Hval). rewrite Hv, Hval. cbn [mbind option_bind].
    destruct (index_ok_split a ies done ie ia [] Hidx Eab) as (d1 & h & g & d2 & Ed & Ev & Hi' & _). rewrite Ev. assert (Hin : (h, g) ∈ done) by (rewrite Ed; apply elem_of_app; right; apply elem_of_cons; auto).
    assert (Ees : es = flat (entries_at done) a ++ g ++ concat (map snd d2)).
    { rewrite <- Eflat, Eab, flat_app. f_equal. unfold flat at 1. cbn [map concat]. rewrite Ev, (Hblock h g Hin). f_equal. cbn [index_ok] in Hi'. apply (flat_index ia d2 []); [apply Hi'|].
      intros h' g' Hin'. apply Hblock. rewrite Ed. apply elem_of_app. right. apply elem_of_cons. auto. }
    destruct (scan_split p g) as (ga & gb & Egb & Hga & Hgb & Eg).
    assert (Hscan : scan p [] es = scan p (rev ga ++ rev (flat (entries_at done) a)) (gb ++ concat (map snd d2))).
    { rewrite Ees, scan_app by exact Hpre. rewrite Egb, <- app_assoc, scan_app by exact Hga. rewrite app_nil_r. reflexivity. }
    assert (Hgap : gb = [] -> forall b e a', scan p [] es = At b e a' -> reaches k e -> False).
    { intros -> b e a' Hs Hre. rewrite Hscan in Hs. cbn [app] in Hs. cbn [index_ok] in Hi'. destruct Hi' as ((_ & _ & Hki & _) & _ & Hlt & Hsepr & _). rewrite app_nil_r in Hlt, Hsepr.
      destruct (concat (map snd d2)) as [|x l] eqn:Ex; [discriminate|]. assert (Hx : x ∈ x :: l) by (apply elem_of_cons; auto).
      assert (Hkx : key_ok (fst x)) by (apply es_keys; rewrite Ees; apply elem_of_app; right; apply elem_of_app; auto).
      assert (Hpx : p x = true). { unfold p in *. apply Z.leb_le. apply Z.leb_le in Hb. destruct (Z.lt_ge_cases (Compare (fst x) k) 0) as [Hc|]; [|assumption]. pose proof (Compare_lt_le (fst ie) (fst x) k Hki Hkx Hk (Hlt x Hx) ltac:(lia)). lia. }
      cbn [scan] in Hs. rewrite Hpx in Hs. injection Hs as _ <- _. rewrite Forall_forall in Hdone. destruct (Hdone _ Hin) as [Hne _]. cbn [snd] in Hne.
      destruct (last_key_in g Hne) as (y & _ & Hy & Ely). rewrite Egb, app_nil_r in Hy. rewrite Forall_forall in Hga. specialize (Hga y Hy). unfold p in Hga, Hb. apply Z.leb_gt in Hga. apply Z.leb_le in Hb.
      rewrite (Hsepr x eq_refl), Ely in Hb. assert (Hky : key_ok (fst y)) by (apply es_keys; rewrite Ees, Egb, app_nil_r; apply elem_of_app; right; apply elem_of_app; auto).
      specialize (Hre (fst y) Hky Hga). lia. }
    destruct (denied_ok h g k Hin) as (d & -> & Hd). cbn [mbind option_bind]. destruct d.
    + cbn [mbind option_bind status_ok]. rewrite Est. exists None. split; [reflexivity|]. split; [discriminate|]. intros b e a' Hs Hre Hsf. exfalso.
      destruct gb as [|x gb]; [exact (Hgap eq_refl b e a' Hs Hre)|]. rewrite Hscan in Hs. cbn [app scan] in Hs. rewrite Hgb in Hs. injection Hs as _ <- _.
      apply (Hd eq_refl x); [rewrite Egb; apply elem_of_app; right; apply elem_of_cons; auto|exact Hsf].
    + destruct (BlockReader_ok h g Hin) as (bit & -> & Hbr). cbn [mbind option_bind]. assert (DI := runs_iterates (IT := BlockIterator_Iterator) Compare key_ok g).
      destruct (pos_Seek (Iterates := DI) _ _ k Hbr Hk) as (bit' & Eb & Hbr'). rewrite Eb. cbn [mbind option_bind]. fold p in Hbr'. pose proof (pos_status (Iterates := DI) _ _ Hbr') as Ebs. rewrite Eg in Hbr'.
      destruct gb as [|x gb]; cbn [ahead] in Hbr'.
      * rewrite (pos_off (Iterates := DI) _ Hbr'). cbn [mbind option_bind]. rewrite Ebs. cbn [status_ok]. rewrite Est. exists None. split; [reflexivity|]. split; [discriminate|].
        intros b e a' Hs Hre _. exfalso. exact (Hgap eq_refl b e a' Hs Hre).
      * destruct (pos_at (Iterates := DI) _ _ _ _ Hbr') as (_ & Hv2 & Hk2 & Hval2). rewrite Hv2, Hk2. cbn [mbind option_bind]. rewrite Hval2. cbn [mbind option_bind]. rewrite Ebs. cbn [status_ok]. rewrite Est.
        exists (Some x). split; [destruct x; reflexivity|]. cbn [app scan] in Hscan. rewrite Hgb in Hscan. rewrite Hscan. split.
        -- intros e He. injection He as <-. eauto.
        -- intros b e a' Hs _ _. injection Hs as _ -> _. reflexivity.
Qed.
(** ** Where a key would be *)

(** The offset of the block that has the key if any has, or of what follows the blocks. *)
Lemma ApproximateOffsetOf_ok k : key_ok k ->
  (exists d1 h g d2, done = d1 ++ (h, g) :: d2 /\ ApproximateOffsetOf t k = Some (bh_offset h) /\
    (forall e, e ∈ concat (map snd d1) -> Compare (fst e) k < 0) /\ (forall e, e ∈ concat (map snd d2) -> 0 < Compare (fst e) k)) \/
  ApproximateOffsetOf t k = Some (bh_offset (t_metaindex_handle t)) /\ (forall e, e ∈ es -> Compare (fst e) k < 0).
Proof.
  intros Hk. set (p := fun e : entry => 0 <=? Compare (fst e) k). assert (Hsep : separated ies (entries_at done)) by (apply index_separated; [exact Hidx|exact Hnd|apply done_handles|exact es_keys]).
  assert (Hblock : forall h g, (h, g) ∈ done -> entries_at done (handle_bytes h) = g) by (intros h g Hin; apply entries_at_done; [exact Hnd|apply done_handles|exact Hin]).
  pose proof (flat_index ies done [] (entries_at done) Hidx Hblock) as Eflat. destruct index_runs as (it & E & Hr). unfold ApproximateOffsetOf. rewrite E. cbn [mbind option_bind].
  assert (II := runs_iterates (IT := BlockIterator_Iterator) Compare key_ok ies). destruct (pos_Seek (Iterates := II) _ _ k Hr Hk) as (it' & E' & Hr'). rewrite E'. cbn [mbind option_bind]. fold p in Hr'.
  destruct (scan_split p ies) as (a & b & Eab & Ha & Hb & Es). rewrite Es in Hr'.
  assert (Hpre : forall e, e ∈ flat (entries_at done) a -> Compare (fst e) k < 0).
  { intros e He. assert (Hall : Forall (fun e => p e = false) (flat (entries_at done) a)).
    { rewrite <- (rev_involutive a). apply (flat_before_target ies (entries_at done) Hsep (rev a) b k); [rewrite rev_involutive; auto|exact Hk|rewrite rev_involutive; exact Ha]. }
    rewrite Forall_forall in Hall. apply Z.leb_gt. exact (Hall e He). }
  destruct b as [|ie ia]; cbn [ahead] in Hr'.
  - right. rewrite (pos_off (Iterates := II) _ Hr'). split; [reflexivity|]. rewrite <- Eflat, Eab, app_nil_r. exact Hpre.
  - left. destruct (pos_at (Iterates := II) _ _ _ _ Hr') as (_ & Hv & _ & Hval). rewrite Hv, Hval. cbn [mbind option_bind].
    destruct (index_ok_split a ies done ie ia [] Hidx Eab) as (d1 & h & g & d2 & Ed & Ev & Hi' & Hi1). exists d1, h, g, d2. split; [exact Ed|].
    rewrite Ev, <- (app_nil_r (handle_bytes h)), Handle_Decode; [|pose proof done_handles as Hd; rewrite Forall_forall in Hd; apply (Hd (h, g)); rewrite Ed; apply elem_of_app; right; apply elem_of_cons; auto|constructor].
    split; [reflexivity|]. assert (Et : flat (entries_at done) (ie :: ia) = concat (map snd ((h, g) :: d2))).
    { apply (flat_index _ _ [] _ Hi'). intros h' g' Hin. apply Hblock. rewrite Ed. apply elem_of_app. auto. }
    assert (Ep : concat (map snd d1) = flat (entries_at done) a).
    { assert (E2 : concat (map snd d1) ++ concat (map snd ((h, g) :: d2)) = flat (entries_at done) a ++ concat (map snd ((h, g) :: d2))) by (rewrite <- concat_app, <- map_app, <- Ed, <- Eflat, Eab, flat_app, Et; reflexivity). exact (app_inv_tail _ _ _ E2). }
    rewrite Ep. split; [exact Hpre|]. intros x Hx. cbn [index_ok] in Hi'. destruct Hi' as ((_ & _ & Hki & _) & _ & Hlt & _). rewrite app_nil_r in Hlt.
    assert (Hkx : key_ok (fst x)) by (apply es_keys; rewrite Ed, map_app, concat_app; apply elem_of_app; right; cbn [map concat snd]; apply elem_of_app; auto).
    unfold p in Hb. apply Z.leb_le in Hb. destruct (Z.lt_ge_cases 0 (Compare (fst x) k)) as [|Hc]; [assumption|]. pose proof (Compare_lt_le (fst ie) (fst x) k Hki Hkx Hk (Hlt x Hx) Hc). lia.
Qed.
End Opened.
End Reading.

(** * Comparators *)

(** The shortened keys of the bytewise order. *)
#[export] Instance BytewiseShort : ShortKeys BytewiseComparator.
Proof.
  constructor; [|intros key Hk; destruct (bytewise_successor key Hk) as (? & _ & ?); auto]. intros start limit Hs _. cbn. unfold Bytewise.FindShortestSeparator. cbv zeta.
  destruct (diff_index_spec start limit) as [E|(p & x & s & y & l & -> & -> & _ & Hd & Hmin)]; [rewrite E, (proj2 (Z.leb_le _ _)) by lia; auto with lia|].
  destruct (_ <=? _); [auto with lia|]. destruct (_ && _); [|auto with lia]. rewrite Hd, ztake_app. apply bytes_ok_app in Hs as [Hp _]. rewrite !zlen_app, zlen_cons.
  pose proof (zlen_nonneg s). split; [|unfold zlen in *; cbn [length]; lia]. apply bytes_ok_app. split; [exact Hp|]. constructor; [apply u8_byte|constructor].
Qed.

Section InternalShort.
Context {P : Port} {C : Comparator}.

Lemma user_key_bytes k : bytes_ok k -> bytes_ok (ExtractUserKey k) /\ zlen (ExtractUserKey k) <= Z.max 0 (zlen k - 8).
Proof.
  intros Hk. unfold ExtractUserKey. split; [apply bytes_ok_ztake, Hk|]. unfold ztake, zlen. rewrite length_take. lia.
Qed.

(** Those of internal keys are as short as those of the user keys. *)
Lemma retagged tmp k n : bytes_ok tmp -> bytes_ok k -> zlen tmp < zlen (ExtractUserKey k) -> bytes_ok (PutFixed64 tmp n) /\ zlen (PutFixed64 tmp n) <= zlen k.
Proof.
  intros Ht Hk Hlt. destruct (user_key_bytes k Hk) as [_ Hz]. pose proof (zlen_nonneg tmp). unfold PutFixed64. rewrite zlen_app, zlen_EncodeFixed64.
  split; [apply bytes_ok_app; split; [exact Ht|auto with bytes]|lia].
Qed.

#[export] Instance InternalShort (SC : ShortKeys C) : ShortKeys InternalKeyComparator.
Proof.
  constructor; [intros start limit Hs Hl|intros start Hs]; destruct (user_key_bytes start Hs) as [Hu _].
  - cbn. unfold internal_FindShortestSeparator. cbv zeta. destruct (user_key_bytes limit Hl) as [Hv _]. destruct (Separator_short _ _ Hu Hv) as [Hb _].
    destruct (_ <? _) eqn:E; [|cbn; auto with lia]. destruct (_ <? 0); cbn [andb]; [|auto with lia]. apply retagged; [exact Hb|exact Hs|apply Z.ltb_lt, E].
  - cbn. unfold internal_FindShortSuccessor. cbv zeta. destruct (Successor_short _ Hu) as [Hb _].
    destruct (_ <? _) eqn:E; [|cbn; auto with lia]. destruct (_ <? 0); cbn [andb]; [|auto with lia]. apply retagged; [exact Hb|exact Hs|apply Z.ltb_lt, E].
Qed.

Context {L : ComparatorLaws C}.

(** What is at or after the key of a lookup and has its user key is in the block that the
    index leads to. *)
Lemma lookup_reaches u m n v : key_ok u -> 0 <= m < 2 ^ 64 -> 0 <= n < 2 ^ 64 -> reaches (C := InternalKeyComparator) (L := InternalLaws C L) (tagged u m) (tagged u n, v).
Proof.
  intros Hu Hm Hn start (w & o & -> & Hw & Ho) Hlt. cbn in *. rewrite internal_Compare_tagged in Hlt by assumption. unfold internal_FindShortestSeparator. cbv zeta.
  rewrite !ExtractUserKey_tagged. set (tmp := FindShortestSeparator w u). destruct (Z.eqb_spec (Compare w u) 0) as [E|E].
  - unfold tmp. rewrite Separator_same by assumption. rewrite Z.ltb_irrefl. cbn [andb]. rewrite internal_Compare_tagged, (proj2 (Z.eqb_eq _ _) E) by assumption. exact Hlt.
  - destruct ((zlen tmp <? zlen w) && (Compare w tmp <? 0)); [|rewrite internal_Compare_tagged, (proj2 (Z.eqb_neq _ _) E) by assumption; exact Hlt].
    destruct (Separator_ok w u Hw Hu Hlt) as (Ht & _ & Htu). apply internal_separated; auto. exact seek_number_range.
Qed.
End InternalShort.

(** The filter of internal keys is that of their user keys. *)
Lemma lookup_same_filter options user_policy u m n v : filter_policy options = Some (InternalFilterPolicy user_policy) -> same_filter options (tagged u m) (tagged u n, v).
Proof. intros E. unfold same_filter. rewrite E. cbn. rewrite !ExtractUserKey_tagged. auto. Qed.

(** * The table and its file *)

(** A file in memory. *)
#[export] Instance bytes_random : RandomAccessFile (list Z) := fun offset n f => (true, ztake n (zdrop offset f)).
#[export] Instance bytes_random_laws : RandomAccessFileLaws (list Z).
Proof. exists (fun f => f). reflexivity. Defined.

Section Get.
Context {C : Comparator} {L : ComparatorLaws C}.

(** The first entry at or after a key. *)
Definition first_from (k : list Z) (es : list entry) : option entry := List.find (fun e => 0 <=? Compare (fst e) k) es.

Lemma scan_first_from k es : match scan (fun e => 0 <=? Compare (fst e) k) [] es with At _ e _ => first_from k es = Some e | Off => first_from k es = None end.
Proof. unfold first_from. generalize (@nil entry). induction es as [|e es IH]; intros a; cbn [scan List.find]; [reflexivity|]. destruct (0 <=? _); [reflexivity|apply IH]. Qed.

Lemma first_from_key e es : sorted_entries (KO := forward_order L) es -> e ∈ es -> first_from (fst e) es = Some e.
Proof.
  intros [Hs Hv] He. apply list_elem_of_split in He as (a & b & ->). unfold first_from. apply StronglySorted_app in Hs as (Hlt & _ & _). apply Forall_app in Hv as [_ Hv]. apply List.Forall_cons_iff in Hv as [Hv _].
  assert (Ha : forall x, x ∈ a -> Compare (fst x) (fst e) < 0) by (intros x Hx; apply Hlt; [exact Hx|apply elem_of_cons; auto]). clear Hlt. induction a as [|x a IH]; cbn [app List.find].
  - rewrite Compare_refl by exact Hv. reflexivity.
  - rewrite (proj2 (Z.leb_gt _ _)) by (apply Ha, elem_of_cons; auto). apply IH. intros y Hy. apply Ha, elem_of_cons. auto.
Qed.

Lemma reaches_own e : key_ok (fst e) -> reaches (fst e) e.
Proof. intros Hk start Hs Hlt. apply (Separator_ok start (fst e)); assumption. Qed.
End Get.

(** C9: A table returns its entries.  A builder of table_builder.cc that is given entries in
    increasing order of their keys, in a file without errors, writes all of them and
    returns OK from [Finish], with the size of the file, for every block size, restart
    interval, compression and filter policy of the options: the data blocks, their filters,
    the block that leads to these, the index with its shortened keys and the footer.
    [Table::Open] of table.cc on what was written returns OK and a table, whether or not
    there is a cache of blocks and whatever of the table's blocks it holds, whose iterator
    is positioned on the entries in their order, and whose
    [InternalGet] of a key that was added gives its entry.  For another key it gives
    nothing or the first entry after it; and it gives that one if the filters do not tell
    the two apart and no separator between them was made, which is so for the key of a
    lookup and an entry of its user key.  The entries take less than [2 ^ 30] bytes. *)
Theorem table_returns_its_entries (P : Port) (C : Comparator) (L : ComparatorLaws C) (SC : ShortKeys C) (A : Address) (S : Snappy) (SL : SnappyLaws S)
    (F : Type) (W : WritableFile F) (WL : WritableFileLaws F) (RE : ReliableFile F) (R : Type) (RF : RandomAccessFile R) (RL : RandomAccessFileLaws R)
    (options : Options) (rate : Z) (new_file : F) (es : list entry) :
  1 <= block_restart_interval options -> 0 <= rate -> (forall policy, filter_policy options = Some policy -> FilterPolicyLaws policy rate) ->
  contents new_file = [] -> fits rate es ->
  exists r, (r ← add_all options es (new_TableBuilder options new_file); Table_Finish options r) = Some (OK, r) /\ FileSize r = zlen (contents (tb_file r)) /\
    forall (file : R) cache new_id, whole file = contents (tb_file r) -> coherent (whole file) cache new_id ->
      exists t, Open options file (FileSize r) cache new_id = Some (OK, Some t) /\ forall verify,
        (forall fuel, (length es + 1 < fuel)%nat -> exists it pos, Table_NewIterator t = Some it /\ pos it Off /\ Iterates (Table_Iterator t verify fuel) Compare key_ok es pos) /\
        (forall e, e ∈ es -> InternalGet t verify (fst e) = Some (Some e, OK)) /\
        (forall k, key_ok k -> exists found, InternalGet t verify k = Some (found, OK) /\ (found = None \/ found = first_from k es) /\
          (forall e, first_from k es = Some e -> reaches k e -> same_filter options k e -> found = Some e)).
Proof.
  intros Hi Hrate Hp Hnew Hf. destruct (add_all_ok options rate Hi SC Hp Hrate new_file es Hnew Hf) as (done0 & rest & ies0 & r0 & -> & Ht & Hcl & Ees). cbn [mbind option_bind].
  rewrite <- Ees in Hf. destruct (Table_Finish_ok options rate Hi SC Hp Hrate done0 rest ies0 r0 Ht Hcl Hf) as (r & -> & Htab & Hz & Hsize). rewrite Ees in *.
  exists r. split; [reflexivity|]. split; [exact Hsize|]. intros file cache new_id Hw Hco. rewrite Hsize. rewrite <- Hw in Htab, Hz |- *.
  destruct (Open_ok options rate Hp file es cache new_id Htab ltac:(intros B ->; exact Hco) ltac:(lia)) as (t & done & ies & ib & E & Hop & -> & Hdone & Hnd & Hidx & Hib & Hiz).
  exists t. split; [exact E|]. intros verify. pose proof (proj1 Hf) as Hsorted. destruct (fits_keys rate Hrate _ Hf) as (Hn & Hk & _).
  pose proof (InternalGet_ok options rate Hp file t done ies ib verify Hop Hdone Hnd Hidx Hib Hiz Hsorted Hn Hk) as Hget.
  assert (Hfirst : forall k, key_ok k -> exists found, InternalGet t verify k = Some (found, OK) /\ (found = None \/ found = first_from k (concat (map snd done))) /\
    (forall e, first_from k (concat (map snd done)) = Some e -> reaches k e -> same_filter options k e -> found = Some e)).
  { intros k Hkk. destruct (Hget k Hkk) as (found & Eg & H1 & H2). pose proof (scan_first_from k (concat (map snd done))) as Hs. exists found. split; [exact Eg|]. split.
    - destruct found as [e|]; [|left; reflexivity]. destruct (H1 e eq_refl) as (b & a & Es). cbv zeta in Es. rewrite Es in Hs. auto.
    - intros e Ee. destruct (scan _ [] _) as [|b e' a] eqn:Es; [congruence|]. assert (e' = e) as -> by congruence. exact (H2 b e a eq_refl). }
  split; [|split; [|exact Hfirst]].
  - intros fuel Hfuel. exact (Table_NewIterator_ok options file t done ies ib verify Hop Hdone Hnd Hidx Hib Hiz Hsorted fuel Hfuel).
  - intros e He. assert (Hke : key_ok (fst e)) by (destruct Hsorted as [_ Hv]; rewrite Forall_forall in Hv; exact (Hv e He)). destruct (Hfirst (fst e) Hke) as (found & -> & _ & H2).
    rewrite (H2 e); [reflexivity|apply first_from_key; assumption|apply reaches_own, Hke|unfold same_filter; destruct (filter_policy options); auto].
Qed.

(** * Examples *)

Section Example.
#[local] Existing Instances little anywhere bytes_writable bytes_writable_laws bytes_reliable no_snappy no_snappy_laws.

(** Writes as the database has them, to four keys. *)
Definition db_order : Comparator := InternalKeyComparator (C := BytewiseComparator).
Definition db_laws : ComparatorLaws db_order := InternalLaws BytewiseComparator BytewiseLaws.
#[local] Existing Instances db_order db_laws.

Definition some_options : Options := mkOptions true 40 2 kSnappyCompression (Some (InternalFilterPolicy (BloomFilterPolicy 10))).
Definition some_writes : list entry :=
  [(InternalKey [1] 7 kTypeValue, [17]); (InternalKey [1] 5 kTypeValue, [15]); (InternalKey [1] 2 kTypeValue, [12]);
   (InternalKey [1; 2] 4 kTypeValue, [24; 24]); (InternalKey [1; 3] 6 kTypeDeletion, []); (InternalKey [3] 1 kTypeValue, [31])].

Lemma some_writes_fit : fits 11 some_writes.
Proof.
  split; [split|split; [|vm_compute; reflexivity]].
  - repeat (constructor; [|repeat (constructor; [vm_compute; reflexivity|]); constructor]). constructor.
  - repeat (constructor; [eexists _, _; split; [reflexivity|split; [repeat constructor; unfold byte_ok; lia|vm_compute; split; congruence]]|]). constructor.
  - repeat (constructor; [split_and!; [repeat constructor; unfold byte_ok; vm_compute; congruence|repeat constructor; unfold byte_ok; vm_compute; congruence|vm_compute; reflexivity|vm_compute; reflexivity]|]). constructor.
Qed.

Lemma some_policy policy : filter_policy some_options = Some policy -> FilterPolicyLaws policy 11.
Proof. intros E. injection E as <-. apply (InternalFilterLaws _ 11), (BloomLaws 10). lia. Qed.

Lemma table_returns_its_entries_witness : exists r t it it1 it2,
  (r ← add_all some_options some_writes (new_TableBuilder some_options ([] : list Z)); Table_Finish some_options r) = Some (OK, r) /\
  Open some_options (tb_file r) (FileSize r) (Some (fun _ => None)) 5 = Some (OK, Some t) /\
  InternalGet t true (InternalKey [1; 2] 4 kTypeValue) = Some (Some (InternalKey [1; 2] 4 kTypeValue, [24; 24]), OK) /\
  InternalGet t true (internal_key (new_LookupKey [1] 4)) = Some (Some (InternalKey [1] 2 kTypeValue, [12]), OK) /\
  Table_NewIterator t = Some it /\ it_Seek (Iterator := Table_Iterator t true 10) (InternalKey [1] 1 kTypeValue) it = Some it1 /\
  it_value (Iterator := Table_Iterator t true 10) it1 = Some [24; 24] /\
  it_Next (Iterator := Table_Iterator t true 10) it1 = Some it2 /\ it_key (Iterator := Table_Iterator t true 10) it2 = Some (InternalKey [1; 3] 6 kTypeDeletion).
Proof.
  destruct (table_returns_its_entries little db_order db_laws (InternalShort BytewiseShort) anywhere no_snappy no_snappy_laws (list Z) bytes_writable bytes_writable_laws bytes_reliable
    (list Z) bytes_random bytes_random_laws some_options 11 [] some_writes ltac:(vm_compute; congruence) ltac:(lia) some_policy eq_refl some_writes_fit) as (r & E & _ & Hopen).
  destruct (Hopen (tb_file r) (Some (fun _ => None)) 5 eq_refl ltac:(intros h raw b Lookup El _; injection El as <-; discriminate)) as (t & Et & Ht). destruct (Ht true) as (Hit & Hin & Hget). destruct (Hit 10%nat ltac:(cbn; lia)) as (it & pos & Ei & Ho & Hpos).
  destruct (@pos_Seek _ _ _ _ _ _ Hpos _ _ (InternalKey [1] 1 kTypeValue) Ho) as (it1 & E1 & P1);
    [eexists _, _; split; [reflexivity|split; [repeat constructor; unfold byte_ok; lia|vm_compute; split; congruence]]|].
  vm_compute in P1. destruct (@pos_at _ _ _ _ _ _ Hpos _ _ _ _ P1) as (_ & _ & _ & V1). destruct (@pos_Next _ _ _ _ _ _ Hpos _ _ _ _ P1) as (it2 & E2 & P2).
  destruct (@pos_at _ _ _ _ _ _ Hpos _ _ _ _ P2) as (_ & _ & K2 & _). exists r, t, it, it1, it2. split; [exact E|]. split; [exact Et|]. split; [|split; [|split_and!; assumption]].
  - apply (Hin (InternalKey [1; 2] 4 kTypeValue, [24; 24])). apply list_elem_of_In. cbn. auto.
  - destruct (Hget (internal_key (new_LookupKey [1] 4))) as (found & -> & _ & Hf); [eexists [1], _; split; [reflexivity|split; [repeat constructor; unfold byte_ok; lia|vm_compute; split; congruence]]|].
    rewrite (Hf (InternalKey [1] 2 kTypeValue, [12])); [reflexivity|vm_compute; reflexivity| |].
    + apply (lookup_reaches [1] (PackSequenceAndType 4 kValueTypeForSeek) (PackSequenceAndType 2 kTypeValue) [12]); [repeat constructor; unfold byte_ok; lia|vm_compute; split; congruence..].
    + apply (lookup_same_filter some_options (BloomFilterPolicy 10) [1] (PackSequenceAndType 4 kValueTypeForSeek) (PackSequenceAndType 2 kTypeValue) [12]). reflexivity.
Defined.

(** A file of a footer alone, whose index handle has a size of [2 ^ 64 - 1] bytes: the size
    of the read wraps to 4, and [ReadBlock] looks for the type of the block outside of what
    was allocated. *)
Definition bad_footer : list Z :=
  resize 40 ([0; 0] ++ EncodeVarint64 0 ++ EncodeVarint64 (2 ^ 64 - 1)) ++ EncodeFixed64 kTableMagicNumber.

Example Open_reads_outside : zlen bad_footer = kEncodedLength /\ Open some_options bad_footer (zlen bad_footer) None 0 = None.
Proof. split; vm_compute; reflexivity. Qed.
End Example.
